(* ===== verification/_CoqProject ===== *)
-Q . S2P
Prelude.v
Ring.v
RingConc.v
Bus.v
Arena.v
Pool.v
Bitset.v
Entities.v
Storage.v
World.v
Deferred.v
Scheduler.v
Tracer.v
Kernel.v
Wire.v
Wal.v
Replicator.v
ThreadPool.v
WaveExecutor.v
QueuePolicy.v
GpuFrame.v
RenderScene.v
GpuUpload.v
F32.v
UiComponents.v
UiTree.v
UiTreeInv.v
UiCommands.v
UiEffects.v
UiInput.v
UiText.v
UiPaint.v
UiUpload.v
UiLayout.v
Messages.v
UiSubsystem.v
Present.v
Renderer.v
Simulation.v
Input.v
MeshTables.v
AsyncRead.v
NativeAccel.v
Barrier.v
VulkanObjects.v
PresentBuild.v
GpuPipeline.v
Topology.v
Sudoku.v
Rubik.v
XorShift.v
RubikDriver.v
SystemFiles.v
WindowEvents.v
Demo.v
Voxel.v
VoxelStream.v
SudokuGame.v
