(* ===== verification/Prelude.v ===== *)
(** * A verification of the rust-kernel game engine kit

    The program is a game engine built round a small kernel.  A [Kernel] owns
    subsystems; each frame it calls them in dependency order with a context
    that gives access to a message bus, an ECS world, a command buffer and a
    frame arena.  The renderer, the retained UI, input, window, physics, audio
    and scripting are subsystems and talk to each other by messages only.
    Below the renderer a Vulkan layer, written against the raw C interface,
    brings up a device and presents frames.  Beside them stand a replication
    protocol with a write-ahead log, a worker pool, and asynchronous file
    reads.

    ** Conventions

    This file holds what the others share.  A machine integer is a [Z] with
    its width written out ([wrap], [checked_add], ...); a [Vec] is a list read
    with [!z]; a Rust [Result] is [result], a method on [&mut self] returns
    the state also on its error path.  A panic, undefined behaviour or a loop
    that runs out of fuel is the outer [None], so a theorem that gives a
    [Some] proves their absence.  Reservations consult an oracle [alloc], one
    answer per reservation: theorems hold for every oracle, so for every
    pattern of failing allocations.  Floats are the Standard Library's
    [spec_float] at 32 bits ([F32]); where a component only copies them, their
    bits.  Drivers, kernels, clocks, transports and the MAC are parameters;
    what is assumed of them stands next to the parameter and is their
    documented behaviour.  Concurrent code is a transition system whose
    schedule is a list of actions, and theorems range over all schedules.

    ** The parts

    Kernel ([src/kernel]).  [Ring]: the bounded rings of [bus.rs], as functions,
    refined to a FIFO queue; [RingConc]: the same rings step by step under
    every interleaving, with stale reads of the other side's counter.  [Bus]:
    envelopes, routing, inboxes, publish and flush.  [Arena]: the bump
    allocators of [mem/arena.rs] and [kernel_nostd/lib.rs] over a byte memory.
    [Pool]: [mem/pool.rs].  [Bitset], [Entities], [Storage], [World]: the ECS
    ([ecs/*.rs]), each refined to a set or a finite map and composed in the
    world.  [Deferred]: the command buffer of [deferred.rs].  [Scheduler]:
    topological sort and waves of [scheduler.rs]; [WaveExecutor]: its parallel
    executor on the [ThreadPool] ([platform/thread_pool.rs]), and the frame
    limiter.  [Tracer]: [trace/frame_tracer.rs], a client of [Ring]'s queue
    interface.  [Kernel]: registration, init, run and shutdown.  [Wire], [Wal],
    [Replicator]: the packet format, the log and the protocol of [sync.rs].

    Subsystems ([src/subsystems]).  [Messages]: the message types and the inbox
    loop, over the class [Payload].  [UiComponents], [UiTree] with its
    invariant [UiTreeInv], [UiCommands] with the effect of each command in
    [UiEffects], [UiInput], [UiText], [UiLayout],
    [UiPaint], [UiUpload] and [UiSubsystem] follow the files of [ui/].
    [RenderScene], [GpuUpload], [GpuFrame], [QueuePolicy] and [Renderer] are
    [renderer.rs] (with [platform/world_upload.rs] and [vulkan_policy.rs]);
    [MeshTables] is [renderer_3d.rs], [GpuPipeline] [gpu_pipeline.rs] with its
    Vulkan recording; [Simulation] holds scripting, physics and audio; [Input]
    the input and window drivers.  [NativeAccel] is [native_accel.rs] with the
    C code it may call.  [Demo]: the two drivers [hello.rs] and [tock.rs] in a
    kernel, as [main.rs] registers them.

    Platform ([src/platform/linux]; the Windows files repeat them over another
    interface).  [VulkanObjects]: the object wrappers of [vulkan.rs] over a
    heap of live driver objects; [PresentBuild]: bringing the presentation
    engine up and down; [Present]: one presented frame.  [AsyncRead]:
    [io_uring.rs] and the completion port [iocp.rs].  [Barrier]: the futex
    barrier of [threading.rs].  [Topology]: [cpu.rs] and thread affinity.
    [SystemFiles]: files, mappings and clocks of both systems over the class
    [SystemCalls].  [WindowEvents]: the X11 window with its loader, and the
    decoding of Windows messages.

    Example games ([examples]).  [Sudoku]: solver, generator and session of
    [sudoku_game/model.rs], in the application [SudokuGame] ([game.rs],
    [layout.rs], the snapshot of [paint.rs] and [sudoku_game.rs]); [Rubik]: the
    cube of [rubik_3d/state.rs], moved by [RubikDriver] ([driver.rs]) with the
    generator of [XorShift]; [Voxel] and [VoxelStream]: terrain, greedy mesher,
    player and chunk streaming of [gpu_stress_3d/voxel_*.rs].

    ** What the theorems show

    Data structures answer like their specification on every sequence of
    calls: [spsc_refines_fifo], [pool_handles_refine], [entities_handles_fresh],
    [storage_refines_map], [world_refines_ecs], [mesh_store_refines].

    Interleavings are harmless: [spsc_interleaving_fifo] (the slots hold the
    queued values and no step is undefined behaviour), [mpsc_linearizable],
    [pool_runs_each_job_once], [plan_waves_isolated] (a schedule plan run in
    parallel never runs two conflicting systems at once), [barrier_rendezvous]
    and [barrier_releases], [uring_reads_exact].

    Scheduling and lifecycle: [toposort_correct], [schedule_plan_correct],
    [kernel_lifecycle] (with the exact effect of every frame's deferred
    commands on the world), [kernel_startup_errors], [bus_trace_ordered], and
    [demo_counters], which follows two communicating drivers through a whole
    run of the program.

    Replication survives crashes and hostile packets: [packet_codec_roundtrip],
    [wal_survives_torn_append], [sync_window_sound], [sync_exactly_once],
    [sync_durable], [authenticated_exactly_sealed].

    The UI cannot be broken by what it is told: [ui_ticks_safe], in which
    every command has the effect [UiEffects] specifies, over
    [ui_tree_operations_safe], [ui_values_well_typed], [ui_layout_total],
    [ui_atlas_cells], [ui_paint_clips]; its incremental stream is exact
    ([ui_dirty_ranges_exact]); and what a tick builds is what the engine
    presents ([ui_reaches_screen], across [Messages], [Renderer] and
    [Present]).

    The outside: [x11_poll_translates], [input_frame_reports],
    [read_file_exact], [clock_never_back].  The games: [sudoku_puzzle_unique],
    [sudoku_session_consistent], [sudoku_application_safe] (every tick of the
    application, with [sudoku_hits_exact] for its clicks and
    [sudoku_continue_exact] for its saved game); [cube_follows_timeline],
    [rubik_solves_back] and [rubik_shuffle_ends] (the generator has the full
    period, so a shuffle always ends); [voxel_mesh_exact]
    (the merged quads cover exactly the exposed faces), [stream_step_exact]
    and [stream_settles] (the loaded chunks are the ones about the player, and
    streaming comes to rest), [player_stays].

    The graphics layer: [manifest_build_correct] and [frame_upload_roundtrip]
    from entities to upload bytes, [cull_recording_hazard_free] for the
    recorded commands, [present_frame_chain] and [present_frames_return] for a
    frame, [engine_build_balanced] for the engine's objects.  The frame's
    bytes are stated field by field at their offsets, apart from the encoder;
    what is required of the Vulkan driver is the record [vulkan_ok].

    Examples named after a defect ([recreate_uses_destroyed_swapchain],
    [submission_wakeup_lost], [rejected_wave_left_running], ...) evaluate the
    model on an input where the code misbehaves.

    ** Fuel

    Recursion that Rust does not bound structurally has a fuel argument, and
    the theorems give an amount that is enough: the number of nodes for the
    depth-first sort, one more than the number of slots for walks in the UI
    tree, the bytes of the file for replaying a log, the period of the
    generator for a shuffle.  Where fuel depends on the environment (the
    spinning frame limiter) the bound is in the hypotheses of the theorem.

    ** Not modelled

    The Windows files except the completion port, files, clocks and message
    decoding: they mirror the Linux ones call by call.  Huge pages, perf
    counters, thread priorities and other wrappers of one system call without
    a decision of their own; the HMAC of a third-party crate; formatting,
    accessors that return a field, and convenience constructors that unwrap
    the fallible ones; the drawing, cameras and node trees of the example
    games, the build script, benchmarks and fuzz targets.  The refinement of
    the recording of a frame in [Present] to the hazard rule of [GpuPipeline]
    is not proved: they describe the commands at different levels. *)

From Stdlib Require Export ZArith Lia.
From Stdlib Require Import Sorting.Sorted.
From stdpp Require Export base tactics option list numbers.
#[global] Open Scope Z_scope.

Declare Scope kit_scope.
Delimit Scope kit_scope with kit.

(** ** Results

    [Ok]/[Err] are Rust's constructors.  A Rust method with [&mut self] that
    returns a [Result] becomes a function to [S * result E A]: the state is
    returned on the error path as well, because the source may have changed it
    before failing. *)
Inductive result (E A : Type) : Type :=
| Ok (a : A)
| Err (e : E).
Arguments Ok {E A} _.
Arguments Err {E A} _.

Definition is_ok {E A} (r : result E A) : bool :=
  match r with Ok _ => true | Err _ => false end.

Definition result_bind {E A B} (r : result E A) (f : A -> result E B) : result E B :=
  match r with Ok a => f a | Err e => Err e end.

Definition map_err {E F A} (f : E -> F) (r : result E A) : result F A :=
  match r with Ok a => Ok a | Err e => Err (f e) end.

Definition ok_or {E A} (e : E) (o : option A) : result E A :=
  match o with Some a => Ok a | None => Err e end.

Notation "'let?' x := e 'in' k" := (result_bind e (fun x => k))
  (at level 10, x pattern, e at level 100, k at level 200) : kit_scope.

#[global] Instance result_eq_dec `{EqDecision E, EqDecision A} : EqDecision (result E A).
Proof. solve_decision. Defined.

(** ** The allocator

    Every [try_reserve] of the source may fail.  An operation that reserves
    takes an oracle [A : alloc]: [A k] says whether the [k]-th reservation
    site of the operation succeeds.  Theorems quantify over the oracle. *)
Definition alloc := nat -> bool.
Definition alloc_all : alloc := fun _ => true.
Definition shift (k : nat) (A : alloc) : alloc := fun n => A (k + n)%nat.

(** ** Machine integers *)
Definition umax (w : Z) : Z := 2 ^ w - 1.
Definition U8_MAX : Z := 255.
Definition U16_MAX : Z := 65535.
Definition U32_MAX : Z := 4294967295.
Definition U64_MAX : Z := 18446744073709551615.
Definition USIZE_MAX : Z := U64_MAX.
Definition I64_MIN : Z := -9223372036854775808.
Definition I64_MAX : Z := 9223372036854775807.

Definition is_u (w z : Z) : Prop := 0 <= z < 2 ^ w.
Definition wrap (w z : Z) : Z := z mod 2 ^ w.
Definition wrapping_add (w a b : Z) : Z := wrap w (a + b).
Definition wrapping_sub (w a b : Z) : Z := wrap w (a - b).
Definition wrapping_mul (w a b : Z) : Z := wrap w (a * b).
Definition checked_add (w a b : Z) : option Z :=
  if a + b <=? umax w then Some (a + b) else None.
Definition checked_mul (w a b : Z) : option Z :=
  if a * b <=? umax w then Some (a * b) else None.
Definition saturating_add (w a b : Z) : Z := Z.min (a + b) (umax w).
Definition saturating_mul (w a b : Z) : Z := Z.min (a * b) (umax w).
Definition saturating_sub (a b : Z) : Z := Z.max 0 (a - b).

(** [i64::saturating_*]. *)
Definition clamp_i64 (z : Z) : Z := Z.max I64_MIN (Z.min z I64_MAX).

(** [usize::checked_next_power_of_two] (1 for 0). *)
Definition checked_next_power_of_two (w n : Z) : option Z :=
  let p := if n <=? 1 then 1 else 2 ^ Z.log2_up n in
  if p <=? umax w then Some p else None.

(** [usize::is_power_of_two]. *)
Definition is_power_of_two (n : Z) : bool :=
  (0 <? n) && (Z.land n (n - 1) =? 0).

(** [!z] on a [w]-bit integer. *)
Definition lnot_w (w z : Z) : Z := wrap w (Z.lnot z).

(** ** Vectors

    A [Vec<T>] is a [list T]; its length is a [usize].  [l !z i] reads the
    slot of a machine index, [zset l i x] writes it (no effect out of
    range, where the source panics: callers test first). *)
Definition zlen {A} (l : list A) : Z := Z.of_nat (length l).
Definition zget {A} (l : list A) (i : Z) : option A :=
  if i <? 0 then None else l !! Z.to_nat i.
Definition zset {A} (l : list A) (i : Z) (x : A) : list A :=
  if i <? 0 then l else <[Z.to_nat i := x]> l.

Notation "l !z i" := (zget l i) (at level 20, i at level 9) : kit_scope.

(** [Vec::pop]: the last element and the rest. *)
Definition vec_pop {A} (l : list A) : option (A * list A) :=
  x ← list.last l; Some (x, removelast l).

(** [Vec::swap_remove]; out of range it panics. *)
Definition vec_swap_remove {A} (l : list A) (i : Z) : option (A * list A) :=
  x ← zget l i; '(y, rest) ← vec_pop l; Some (x, zset rest i y).

(** [iter().position(..)]. *)
Definition vec_position {A} (f : A -> bool) (l : list A) : option Z :=
  p ← list_find f l; Some (Z.of_nat p.1).

(** [iter().take_while(..)]. *)
Fixpoint take_while {A} (f : A -> bool) (l : list A) : list A :=
  match l with
  | [] => []
  | x :: l => if f x then x :: take_while f l else []
  end.

(** [Vec::resize]: keeps the prefix, pads with [x]. *)
Definition resize {A} (n : Z) (x : A) (l : list A) : list A :=
  list.resize (Z.to_nat n) x l.

Open Scope kit_scope.

(** ** Tactics and hint databases *)
Create HintDb kit discriminated.
Create Rewrite HintDb kitrw.

Ltac simp := repeat (case_match || simplify_eq/=).
Ltac zbool :=
  repeat match goal with
  | H : (_ <? _) = true |- _ => apply Z.ltb_lt in H
  | H : (_ <? _) = false |- _ => apply Z.ltb_ge in H
  | H : (_ <=? _) = true |- _ => apply Z.leb_le in H
  | H : (_ <=? _) = false |- _ => apply Z.leb_gt in H
  | H : (_ =? _) = true |- _ => apply Z.eqb_eq in H
  | H : (_ =? _) = false |- _ => apply Z.eqb_neq in H
  | H : _ && _ = true |- _ => apply andb_true_iff in H as [? ?]
  | H : _ || _ = false |- _ => apply orb_false_iff in H as [? ?]
  | H : negb _ = true |- _ => apply negb_true_iff in H
  | H : negb _ = false |- _ => apply negb_false_iff in H
  end.

(** Rewrites the lengths of vectors everywhere. *)
Ltac zlen_nil_simp :=
  repeat match goal with
  | |- context [zlen (@nil ?T)] => change (zlen (@nil T)) with 0
  | H : context [zlen (@nil ?T)] |- _ => change (zlen (@nil T)) with 0 in H
  end.
Ltac zsimp := autorewrite with kitrw in *; zlen_nil_simp.

(** ** Lemmas on integers *)
Lemma wrap_small w z : is_u w z -> wrap w z = z.
Proof. intros. apply Z.mod_small. exact H. Qed.

Lemma wrap_range w z : 0 <= w -> is_u w (wrap w z).
Proof. intros. apply Z.mod_pos_bound. lia. Qed.

Lemma wrap_wrap_sub w a b : 0 <= w -> wrap w (wrap w a - wrap w b) = wrap w (a - b).
Proof. intros. unfold wrap. rewrite <- Zminus_mod. done. Qed.

Lemma wrap_add_l w a b : 0 <= w -> wrap w (wrap w a + b) = wrap w (a + b).
Proof. intros. unfold wrap. by rewrite Zplus_mod_idemp_l. Qed.

Lemma wrap_eq_sub w a b : 0 <= w -> 0 <= a - b < 2 ^ w -> wrap w a = wrap w b -> a = b.
Proof.
  intros ? Hr He.
  assert (wrap w (a - b) = 0) as Hz.
  { rewrite <- wrap_wrap_sub, He by done. by rewrite Z.sub_diag. }
  unfold wrap in Hz. rewrite Z.mod_small in Hz; lia.
Qed.

Lemma is_u_weaken w z z' : 0 <= z' <= z -> is_u w z -> is_u w z'.
Proof. unfold is_u. lia. Qed.

Lemma checked_add_Some w a b c : checked_add w a b = Some c <-> c = a + b /\ a + b <= umax w.
Proof. unfold checked_add. simp; split; intros; zbool; simplify_eq; naive_solver lia. Qed.

Lemma checked_add_ok w a b : a + b <= umax w -> checked_add w a b = Some (a + b).
Proof. intros. by apply checked_add_Some. Qed.

Lemma next_power_of_two_spec w n p :
  0 <= n -> checked_next_power_of_two w n = Some p ->
  exists k, 0 <= k < w /\ p = 2 ^ k /\ n <= p /\ (2 <= n -> p < 2 * n).
Proof.
  intros Hn. unfold checked_next_power_of_two.
  case_match eqn:Hle; [|done]. intros [= <-]. zbool.
  assert (forall k, 0 <= k -> 2 ^ k <= umax w -> k < w) as Hlt.
  { intros k Hk Hm. unfold umax in Hm.
    destruct (Z.lt_ge_cases k w); [done|].
    assert (2 ^ w <= 2 ^ k) by (apply Z.pow_le_mono_r; lia). lia. }
  case_match eqn:H1; zbool.
  - exists 0. split; [split; [lia|apply Hlt; [lia|]]|]; [exact Hle|lia].
  - pose proof (Z.log2_up_spec n ltac:(lia)) as [Hs1 Hs2].
    exists (Z.log2_up n). pose proof (Z.log2_up_nonneg n).
    split; [split; [done|by apply Hlt]|]. split; [done|]. split; [done|].
    intros ?. assert (0 < Z.log2_up n) by (apply Z.log2_up_pos; lia).
    replace (Z.log2_up n) with (Z.succ (Z.pred (Z.log2_up n))) by lia.
    rewrite Z.pow_succ_r by lia. lia.
Qed.

Lemma is_power_of_two_spec n : is_power_of_two n = true -> exists k, 0 <= k /\ n = 2 ^ k.
Proof.
  unfold is_power_of_two. intros H. zbool.
  pose proof (Z.log2_spec n H) as [Hl Hu]. pose proof (Z.log2_nonneg n).
  exists (Z.log2 n). split; [done|].
  destruct (Z.eq_dec n (2 ^ Z.log2 n)) as [|Hne]; [done|exfalso].
  assert (Z.testbit (Z.land n (n - 1)) (Z.log2 n) = true) as Hb; [|by rewrite H0, Z.testbit_0_l in Hb].
  rewrite Z.land_spec, Z.bit_log2 by lia. simpl.
  replace (Z.log2 n) with (Z.log2 (n - 1)); [apply Z.bit_log2; lia|].
  apply Z.log2_unique; lia.
Qed.

(** Masking with [!(2^k - 1)] rounds down to a multiple of [2^k]. *)
Lemma land_lnot_align w x k :
  0 <= k <= w -> is_u w x -> Z.land x (lnot_w w (2 ^ k - 1)) = x - x mod 2 ^ k.
Proof.
  intros Hk [Hx0 Hx].
  assert (0 < 2 ^ k) as Hp by (apply Z.pow_pos_nonneg; lia).
  replace (x - x mod 2 ^ k) with (Z.shiftl (Z.shiftr x k) k).
  2: { rewrite Z.shiftl_mul_pow2, Z.shiftr_div_pow2 by lia. pose proof (Z.div_mod x (2 ^ k)). lia. }
  apply Z.bits_inj'. intros n Hn. rewrite Z.land_spec. unfold lnot_w, wrap.
  destruct (Z.lt_ge_cases n w) as [Hlt|Hge].
  - rewrite Z.mod_pow2_bits_low, Z.lnot_spec by lia.
    replace (2 ^ k - 1) with (Z.ones k) by (rewrite Z.ones_equiv; lia).
    destruct (Z.lt_ge_cases n k) as [Hnk|Hnk].
    + rewrite Z.ones_spec_low, Z.shiftl_spec_low by lia. simpl. by rewrite andb_false_r.
    + rewrite Z.ones_spec_high, Z.shiftl_spec_high, Z.shiftr_spec by lia. simpl.
      rewrite andb_true_r. f_equal. lia.
  - assert (Z.testbit x n = false) as Hb.
    { replace x with (x mod 2 ^ w) by (apply Z.mod_small; lia). apply Z.mod_pow2_bits_high. lia. }
    rewrite Hb. simpl. rewrite Z.shiftl_spec_high, Z.shiftr_spec by lia.
    by replace (n - k + k) with n by lia.
Qed.

(** ** Lemmas on vectors *)
Lemma zget_lookup {A} (l : list A) i : 0 <= i -> l !z i = l !! Z.to_nat i.
Proof. intros. unfold zget. simp; zbool; lia || done. Qed.

Lemma zget_nat {A} (l : list A) (i : nat) : l !z (Z.of_nat i) = l !! i.
Proof. rewrite zget_lookup by lia. by rewrite Nat2Z.id. Qed.

Lemma zget_Some {A} (l : list A) i x :
  l !z i = Some x -> 0 <= i < zlen l.
Proof.
  unfold zget, zlen. destruct (i <? 0) eqn:?; [done|]. intros H. zbool.
  apply lookup_lt_Some in H. lia.
Qed.

Lemma zget_is_Some {A} (l : list A) i : is_Some (l !z i) <-> 0 <= i < zlen l.
Proof.
  split; [intros [? ?]; by eapply zget_Some|].
  intros. rewrite zget_lookup by lia. apply lookup_lt_is_Some. unfold zlen in *. lia.
Qed.

Lemma zget_None {A} (l : list A) i : l !z i = None <-> ~ (0 <= i < zlen l).
Proof. rewrite <- zget_is_Some, eq_None_not_Some. done. Qed.

Lemma zlen_zset {A} (l : list A) i x : zlen (zset l i x) = zlen l.
Proof. unfold zlen, zset. simp; rewrite ?length_insert; done. Qed.

Lemma zget_zset_eq {A} (l : list A) i x : 0 <= i < zlen l -> (zset l i x) !z i = Some x.
Proof.
  intros. rewrite zget_lookup by lia. unfold zset. simp; zbool; [lia|].
  apply list_lookup_insert_eq. unfold zlen in *. lia.
Qed.

Lemma zget_zset_ne {A} (l : list A) i j x : i <> j -> (zset l i x) !z j = l !z j.
Proof.
  intros. unfold zget, zset. simp; zbool; try done.
  apply list_lookup_insert_ne. lia.
Qed.

Lemma zget_app_l {A} (l k : list A) i : i < zlen l -> (l ++ k) !z i = l !z i.
Proof. unfold zget, zlen. simp; zbool; [done|]. intros. apply lookup_app_l. lia. Qed.

Lemma zget_app_r {A} (l m : list A) i : zlen l <= i -> (l ++ m) !z i = m !z (i - zlen l).
Proof.
  unfold zget, zlen. intros Hi. destruct (Z.ltb_spec i 0), (Z.ltb_spec (i - Z.of_nat (length l)) 0); try lia.
  rewrite lookup_app_r by lia. f_equal. lia.
Qed.

Lemma zget_snoc {A} (l : list A) x : (l ++ [x]) !z (zlen l) = Some x.
Proof. unfold zlen. rewrite zget_nat. by apply list_lookup_middle. Qed.

Lemma zlen_app {A} (l k : list A) : zlen (l ++ k) = zlen l + zlen k.
Proof. unfold zlen. rewrite length_app. lia. Qed.

Lemma zlen_cons {A} (x : A) l : zlen (x :: l) = zlen l + 1.
Proof. unfold zlen. cbn [length]. lia. Qed.

Lemma zlen_nil {A} : zlen (@nil A) = 0.
Proof. done. Qed.

Lemma zlen_nonneg {A} (l : list A) : 0 <= zlen l.
Proof. unfold zlen. lia. Qed.

Lemma zlen_resize {A} (l : list A) n x : 0 <= n -> zlen (resize n x l) = n.
Proof. intros. unfold zlen, resize. rewrite length_resize. lia. Qed.

Lemma zget_resize_old {A} (l : list A) n x i :
  zlen l <= n -> i < zlen l -> (resize n x l) !z i = l !z i.
Proof.
  unfold zget, resize, zlen. simp; zbool; [done|]. intros.
  apply lookup_resize; lia.
Qed.

Lemma zget_resize_new {A} (l : list A) n x i :
  zlen l <= i < n -> (resize n x l) !z i = Some x.
Proof.
  unfold zget, resize, zlen. simp; zbool; [lia|]. intros.
  apply lookup_resize_new; lia.
Qed.

Lemma vec_pop_Some {A} (l k : list A) x : vec_pop l = Some (x, k) <-> l = k ++ [x].
Proof.
  unfold vec_pop. destruct l as [|y l _] using rev_ind; simpl.
  - split; [done|]. by destruct k.
  - rewrite last_snoc, removelast_last. simpl. split; [congruence|].
    intros H. by apply app_inj_tail in H as [-> ->].
Qed.

Lemma vec_pop_None {A} (l : list A) : vec_pop l = None <-> l = [].
Proof.
  unfold vec_pop. destruct l as [|y l _] using rev_ind; simpl; [done|].
  rewrite last_snoc. simpl. split; [done|]. by destruct l.
Qed.

Lemma zset_id {A} (l : list A) i x : l !z i = Some x -> zset l i x = l.
Proof. unfold zget, zset. destruct (i <? 0); [done|]. apply list_insert_id. Qed.

Lemma swap_remove_spec {A} (l : list A) i x :
  l !z i = Some x ->
  exists k, vec_swap_remove l i = Some (x, k) /\ zlen k = zlen l - 1 /\
  forall j, k !z j =
    if (0 <=? j) && (j <? zlen l - 1) then (if j =? i then l !z (zlen l - 1) else l !z j) else None.
Proof.
  intros Hx. pose proof (zget_Some _ _ _ Hx) as Hi. unfold vec_swap_remove. rewrite Hx. simpl.
  destruct l as [|y l _] using rev_ind; [unfold zlen in Hi; simpl in Hi; lia|].
  rewrite (proj2 (vec_pop_Some _ l y) eq_refl). simpl. exists (zset l i y). split; [done|].
  rewrite zlen_zset, zlen_app in *. change (zlen [y]) with 1 in *.
  replace (zlen l + 1 - 1) with (zlen l) by lia. split; [done|]. intros j.
  destruct (Z.leb_spec 0 j); simpl; [|apply zget_None; lia].
  destruct (Z.ltb_spec j (zlen l)); [|apply zget_None; rewrite zlen_zset; lia].
  rewrite zget_snoc. destruct (Z.eqb_spec j i) as [->|Hne].
  - by apply zget_zset_eq.
  - by rewrite zget_zset_ne, zget_app_l.
Qed.

Lemma position_Some {A} (f : A -> bool) (l : list A) i :
  vec_position f l = Some i -> exists x, l !z i = Some x /\ f x = true.
Proof.
  unfold vec_position. destruct (list_find f l) as [[k x]|] eqn:He; [|done]. intros [= <-].
  apply list_find_Some in He as (Hk & Hf & _). exists x. rewrite zget_nat. split; [done|]. by apply Is_true_true.
Qed.

Lemma position_None {A} (f : A -> bool) (l : list A) i x :
  vec_position f l = None -> l !z i = Some x -> f x = false.
Proof.
  unfold vec_position. destruct (list_find f l) as [[k y]|] eqn:He; [done|]. intros _ Hx.
  pose proof (zget_Some _ _ _ Hx). rewrite zget_lookup in Hx by lia.
  apply list_find_None in He. rewrite list.Forall_forall in He. apply Is_true_false, He.
  by eapply list_elem_of_lookup_2.
Qed.

Lemma swap_remove_Permutation {A} (l k : list A) i x : vec_swap_remove l i = Some (x, k) -> l ≡ₚ x :: k.
Proof.
  unfold vec_swap_remove. destruct (l !z i) as [x'|] eqn:Hx; [|done]. cbn [mbind option_bind].
  pose proof (zget_Some _ _ _ Hx) as Hi. rewrite zget_lookup in Hx by lia.
  destruct l as [|y l _] using rev_ind; [done|]. rewrite (proj2 (vec_pop_Some _ l y) eq_refl). cbn [mbind option_bind].
  intros [= -> <-]. unfold zset. destruct (Z.ltb_spec i 0); [lia|].
  apply lookup_app_Some in Hx as [Hx|[Hge Hx]].
  - rewrite (insert_take_drop l (Z.to_nat i) y) by by apply lookup_lt_Some in Hx.
    rewrite <- (take_drop_middle l (Z.to_nat i) x Hx) at 1. solve_Permutation.
  - apply list_lookup_singleton_Some in Hx as [_ ->]. rewrite list_insert_ge by lia. solve_Permutation.
Qed.

Lemma position_Permutation {A} (f : A -> bool) (l rest : list A) x :
  l ≡ₚ x :: rest -> f x = true -> (forall y, y ∈ rest -> f y = false) ->
  exists i k, vec_position f l = Some i /\ vec_swap_remove l i = Some (x, k) /\ k ≡ₚ rest.
Proof.
  intros Hl Hx Hrest. destruct (vec_position f l) as [i|] eqn:Hi.
  - destruct (position_Some _ _ _ Hi) as (y & Hy & Hfy).
    assert (y = x) as ->.
    { assert (y ∈ x :: rest) as Hin.
      { rewrite <- Hl. rewrite zget_lookup in Hy by (apply zget_Some in Hy; lia). by eapply list_elem_of_lookup_2. }
      apply elem_of_cons in Hin as [->|Hin]; [done|]. by rewrite Hrest in Hfy. }
    destruct (swap_remove_spec _ _ _ Hy) as (k & Hk & _). exists i, k. split_and!; try done.
    apply swap_remove_Permutation in Hk. rewrite Hl in Hk. by apply Permutation_cons_inv in Hk.
  - exfalso. assert (x ∈ l) as Hin by (rewrite Hl; by left).
    apply list_elem_of_lookup in Hin as [n Hn]. rewrite <- zget_nat in Hn.
    apply (position_None _ _ _ _ Hi) in Hn. congruence.
Qed.

Lemma zset_zset {A} (l : list A) i x y : zset (zset l i x) i y = zset l i y.
Proof. unfold zset. destruct (i <? 0); [done|]. apply list_insert_insert_eq. Qed.

Lemma zset_comm {A} (l : list A) i j x y : i <> j -> zset (zset l i x) j y = zset (zset l j y) i x.
Proof.
  unfold zset. intros Hne. destruct (Z.ltb_spec i 0), (Z.ltb_spec j 0); try done.
  apply list_insert_insert_ne. lia.
Qed.

Lemma sorted_snoc l n :
  StronglySorted Z.lt l -> Forall (fun s => s < n) l ->
  StronglySorted Z.lt (l ++ [n]) /\ Forall (fun s => s < n + 1) (l ++ [n]).
Proof.
  intros Hs Hf. split.
  - induction Hs as [|x l Hs IH Hx]; simpl; [by repeat constructor|].
    inv Hf. constructor; [by apply IH|]. apply Forall_app. split; [done|]. by apply Forall_singleton.
  - apply Forall_app. split; [|by repeat constructor; lia].
    eapply Forall_impl; [|exact Hf]. simpl; lia.
Qed.

#[export] Hint Rewrite @zlen_zset @zlen_app @zlen_cons : kitrw.
#[export] Hint Resolve zlen_nonneg wrap_range : kit.
