(* ===== verification/Ring.v ===== *)
(** The bounded rings of [kernel/bus.rs]: [SpscRing] (one producer, one
    consumer) and [MpscRing] (spinlock), their construction, [push], [pop],
    [len], [Drop], and the refinement of both to a bounded FIFO queue.  The
    head and tail counters are [usize] and wrap. *)

From S2P Require Import Prelude.

Module RingError.
Inductive RingError := InvalidCapacity | AllocationFailed.
End RingError.
Import (notations) RingError.
Abbreviation RingError := RingError.RingError.

(** A slot is [MaybeUninit<T>]: [None] is an uninitialised (or moved-out)
    slot.  An operation returns [None] exactly where the source would read an
    uninitialised slot or index out of the buffer (undefined behaviour). *)
Record SpscRing (T : Type) := mkSpscRing {
  sp_buf : list (option T);
  sp_mask : Z;
  sp_head : Z;
  sp_tail : Z
}.
Arguments mkSpscRing {T}. Arguments sp_buf {T}. Arguments sp_mask {T}.
Arguments sp_head {T}. Arguments sp_tail {T}.

Record MpscRing (T : Type) := mkMpscRing {
  mp_lock : Z;
  mp_buf : list (option T);
  mp_mask : Z;
  mp_head : Z;
  mp_tail : Z
}.
Arguments mkMpscRing {T}. Arguments mp_lock {T}. Arguments mp_buf {T}.
Arguments mp_mask {T}. Arguments mp_head {T}. Arguments mp_tail {T}.

Section Operations.
Context {T : Type}.
Implicit Types (r : SpscRing T) (m : MpscRing T) (v : T).

Definition spsc_try_with_capacity (A : alloc) (capacity : Z) : result RingError (SpscRing T) :=
  match checked_next_power_of_two 64 capacity with
  | None => Err RingError.InvalidCapacity
  | Some p =>
      let capacity := Z.max p 2 in
      if A 0%nat
      then Ok {| sp_buf := replicate (Z.to_nat capacity) None; sp_mask := capacity - 1;
                 sp_head := 0; sp_tail := 0 |}
      else Err RingError.AllocationFailed
  end.

(** [with_capacity] unwraps with [expect]: [None] is the panic. *)
Definition spsc_with_capacity (A : alloc) (capacity : Z) : option (SpscRing T) :=
  match spsc_try_with_capacity A capacity with Ok r => Some r | Err _ => None end.

Definition spsc_capacity r : Z := sp_mask r + 1.
Definition spsc_is_empty r : bool := sp_head r =? sp_tail r.
Definition spsc_len r : Z := wrapping_sub 64 (sp_tail r) (sp_head r).

Definition spsc_push r v : option (SpscRing T * result T unit) :=
  let tail := sp_tail r in
  let head := sp_head r in
  if spsc_capacity r <=? wrapping_sub 64 tail head then Some (r, Err v)
  else
    let i := Z.land tail (sp_mask r) in
    match sp_buf r !z i with
    | None => None
    | Some _ =>
        Some ({| sp_buf := zset (sp_buf r) i (Some v); sp_mask := sp_mask r;
                 sp_head := head; sp_tail := wrapping_add 64 tail 1 |}, Ok tt)
    end.

Definition spsc_pop r : option (SpscRing T * option T) :=
  let head := sp_head r in
  let tail := sp_tail r in
  if head =? tail then Some (r, None)
  else
    let i := Z.land head (sp_mask r) in
    match sp_buf r !z i with
    | Some (Some value) =>
        Some ({| sp_buf := zset (sp_buf r) i None; sp_mask := sp_mask r;
                 sp_head := wrapping_add 64 head 1; sp_tail := tail |}, Some value)
    | _ => None
    end.

(** [Drop]: [for i in head..tail] over the raw counters. *)
Fixpoint spsc_drop_range (mask : Z) (buf : list (option T)) (idx : list Z) : option (list T) :=
  match idx with
  | [] => Some []
  | i :: idx =>
      let j := Z.land i mask in
      match buf !z j with
      | Some (Some v) =>
          rest ← spsc_drop_range mask (zset buf j None) idx;
          Some (v :: rest)
      | _ => None
      end
  end.

Definition spsc_drop r : option (list T) :=
  spsc_drop_range (sp_mask r) (sp_buf r) (seqZ (sp_head r) (sp_tail r - sp_head r)).

Definition mpsc_try_with_capacity (A : alloc) (capacity : Z) : result RingError (MpscRing T) :=
  match checked_next_power_of_two 64 capacity with
  | None => Err RingError.InvalidCapacity
  | Some p =>
      let capacity := Z.max p 2 in
      if A 0%nat
      then Ok {| mp_lock := 0; mp_buf := replicate (Z.to_nat capacity) None;
                 mp_mask := capacity - 1; mp_head := 0; mp_tail := 0 |}
      else Err RingError.AllocationFailed
  end.

Definition mpsc_capacity m : Z := mp_mask m + 1.

(** [acquire] by a thread that finds the lock free (the compare-exchange of
    the fast path), and the guard's [Drop].  Contended acquisition is the
    step relation of [RingConc]. *)
Definition mpsc_acquire m : option (MpscRing T) :=
  if mp_lock m =? 0
  then Some {| mp_lock := 1; mp_buf := mp_buf m; mp_mask := mp_mask m;
               mp_head := mp_head m; mp_tail := mp_tail m |}
  else None.

Definition mpsc_release m : MpscRing T :=
  {| mp_lock := 0; mp_buf := mp_buf m; mp_mask := mp_mask m;
     mp_head := mp_head m; mp_tail := mp_tail m |}.

(** Bodies of [push], [pop] and [is_empty] between [acquire] and the guard's
    drop; the early returns drop the guard as well. *)
Definition mpsc_push m v : option (MpscRing T * result T unit) :=
  m ← mpsc_acquire m;
  let tail := mp_tail m in
  let head := mp_head m in
  if mpsc_capacity m <=? wrapping_sub 64 tail head then Some (mpsc_release m, Err v)
  else
    let i := Z.land tail (mp_mask m) in
    match mp_buf m !z i with
    | None => None
    | Some _ =>
        Some (mpsc_release
                {| mp_lock := mp_lock m; mp_buf := zset (mp_buf m) i (Some v);
                   mp_mask := mp_mask m; mp_head := head;
                   mp_tail := wrapping_add 64 tail 1 |}, Ok tt)
    end.

Definition mpsc_pop m : option (MpscRing T * option T) :=
  m ← mpsc_acquire m;
  let head := mp_head m in
  let tail := mp_tail m in
  if head =? tail then Some (mpsc_release m, None)
  else
    let i := Z.land head (mp_mask m) in
    match mp_buf m !z i with
    | Some (Some value) =>
        Some (mpsc_release
                {| mp_lock := mp_lock m; mp_buf := zset (mp_buf m) i None;
                   mp_mask := mp_mask m; mp_head := wrapping_add 64 head 1;
                   mp_tail := tail |}, Some value)
    | _ => None
    end.

Definition mpsc_is_empty m : option (MpscRing T * bool) :=
  m ← mpsc_acquire m;
  Some (mpsc_release m, mp_head m =? mp_tail m).

End Operations.

(** ** Representation

    [ring_repr] relates the slots and counters to the queue they hold, oldest
    element first. *)
Record ring_repr {T} (buf : list (option T)) (mask head tail : Z) (q : list T) : Prop := {
  rr_pow : exists k, 1 <= k <= 63 /\ mask = 2 ^ k - 1;
  rr_buf : zlen buf = mask + 1;
  rr_head : is_u 64 head;
  rr_tail : tail = wrap 64 (head + zlen q);
  rr_len : zlen q <= mask + 1;
  rr_slots : forall i, 0 <= i < zlen q ->
    buf !z (Z.land (wrap 64 (head + i)) mask) = Some (q !z i)
}.

Definition spsc_repr {T} (r : SpscRing T) (q : list T) : Prop :=
  ring_repr (sp_buf r) (sp_mask r) (sp_head r) (sp_tail r) q.
Definition mpsc_repr {T} (m : MpscRing T) (q : list T) : Prop :=
  mp_lock m = 0 /\ ring_repr (mp_buf m) (mp_mask m) (mp_head m) (mp_tail m) q.

(** ** Slot arithmetic *)
Lemma land_slot k x : 0 <= k <= 64 -> Z.land (wrap 64 x) (2 ^ k - 1) = x mod 2 ^ k.
Proof.
  intros. replace (2 ^ k - 1) with (Z.ones k) by (rewrite Z.ones_equiv; lia).
  rewrite Z.land_ones by lia. unfold wrap.
  apply Z.mod_mod_divide.
  exists (2 ^ (64 - k)). rewrite <- Z.pow_add_r by lia. f_equal. lia.
Qed.

Lemma slot_range k x : 0 <= k -> 0 <= x mod 2 ^ k < 2 ^ k.
Proof. intros. apply Z.mod_pos_bound. lia. Qed.

Lemma slot_inj c x y : 0 <= x - y < c -> x mod c = y mod c -> x = y.
Proof.
  intros Hd He. assert ((x - y) mod c = 0) as Hz.
  { rewrite Zminus_mod, He, Z.sub_diag. by apply Z.mod_0_l; lia. }
  rewrite Z.mod_small in Hz by lia. lia.
Qed.

Lemma slot_ne c x y : 0 < x - y < c -> x mod c <> y mod c.
Proof. intros Hd He. assert (x = y) by (eapply slot_inj; [|exact He]; lia). lia. Qed.

Lemma pow_bounds k : 1 <= k <= 63 -> 2 <= 2 ^ k <= 2 ^ 63.
Proof.
  intros. split; [|by apply Z.pow_le_mono_r; lia].
  change 2 with (2 ^ 1) at 1. apply Z.pow_le_mono_r; lia.
Qed.

Section Repr.
Context {T : Type}.
Implicit Types (buf : list (option T)) (q : list T).

(** Number of elements, read off the counters as the source does. *)
Lemma repr_distance buf mask head tail q :
  ring_repr buf mask head tail q -> wrapping_sub 64 tail head = zlen q.
Proof.
  intros [(k & Hk & ->) _ Hh -> Hl _]. unfold wrapping_sub.
  rewrite <- (wrap_small 64 head) at 2 by done.
  rewrite wrap_wrap_sub by lia. rewrite wrap_small; [lia|].
  pose proof (pow_bounds k Hk). pose proof (zlen_nonneg q).
  unfold is_u. change (2 ^ 64) with (2 * 2 ^ 63). lia.
Qed.

Lemma repr_empty buf mask head tail q :
  ring_repr buf mask head tail q -> (head =? tail) = (zlen q =? 0).
Proof.
  intros H. pose proof (repr_distance _ _ _ _ _ H) as Hd. destruct H.
  destruct (Z.eqb_spec head tail); destruct (Z.eqb_spec (zlen q) 0); try done; exfalso.
  - subst tail. unfold wrapping_sub in Hd. by rewrite <- e, Z.sub_diag in Hd.
  - apply n. rewrite rr_tail0, e, Z.add_0_r. by rewrite wrap_small.
Qed.

Lemma repr_push buf mask head tail q v :
  ring_repr buf mask head tail q -> zlen q < mask + 1 ->
  is_Some (buf !z (Z.land tail mask)) /\
  ring_repr (zset buf (Z.land tail mask) (Some v)) mask head (wrapping_add 64 tail 1) (q ++ [v]).
Proof.
  intros [(k & Hk & ->) Hb Hh -> Hl Hs] Hlt.
  pose proof (pow_bounds k Hk). pose proof (zlen_nonneg q).
  rewrite land_slot by lia.
  pose proof (slot_range k (head + zlen q) ltac:(lia)).
  split; [apply zget_is_Some; lia|].
  split; [by exists k|by rewrite zlen_zset|done| | |].
  - unfold wrapping_add. rewrite wrap_add_l by lia. f_equal.
    zsimp. lia.
  - zsimp. lia.
  - intros i. zsimp. intros Hi. rewrite land_slot by lia.
    destruct (Z.eq_dec i (zlen q)) as [->|].
    + rewrite zget_zset_eq by lia. by rewrite zget_snoc.
    + rewrite zget_zset_ne by (apply slot_ne; lia).
      rewrite <- (land_slot k) by lia. rewrite Hs by lia. by rewrite zget_app_l by lia.
Qed.

Lemma repr_pop buf mask head tail v q :
  ring_repr buf mask head tail (v :: q) ->
  buf !z (Z.land head mask) = Some (Some v) /\
  ring_repr (zset buf (Z.land head mask) None) mask (wrapping_add 64 head 1) tail q.
Proof.
  intros [(k & Hk & ->) Hb Hh -> Hl Hs].
  pose proof (pow_bounds k Hk). pose proof (zlen_nonneg q).
  rewrite zlen_cons in *.
  assert (Z.land head (2 ^ k - 1) = head mod 2 ^ k) as Hslot.
  { rewrite <- (wrap_small 64 head) at 1 by done. apply land_slot. lia. }
  split.
  - specialize (Hs 0 ltac:(lia)). rewrite Z.add_0_r, wrap_small in Hs by done. done.
  - rewrite Hslot.
    split; [by exists k|by rewrite zlen_zset|apply wrap_range; lia| |lia|].
    + unfold wrapping_add. rewrite wrap_add_l by lia. f_equal. lia.
    + intros i Hi. unfold wrapping_add. rewrite wrap_add_l, land_slot by lia.
      rewrite zget_zset_ne by (apply not_eq_sym, slot_ne; lia).
      specialize (Hs (i + 1) ltac:(lia)).
      rewrite land_slot in Hs by lia.
      replace (head + 1 + i) with (head + (i + 1)) by lia. rewrite Hs. f_equal.
      rewrite !zget_lookup by lia.
      by replace (Z.to_nat (i + 1)) with (S (Z.to_nat i)) by lia.
Qed.

End Repr.

(** ** The contract of a bounded queue

    What the message bus and the tracer rely on.  [bq_repr r q] reads: ring
    [r] holds exactly [q], oldest first.  A full queue hands the value back. *)
Class BoundedQueue (T R : Type) := {
  bq_repr : R -> list T -> Prop;
  bq_cap : R -> Z;
  bq_push : R -> T -> option (R * result T unit);
  bq_pop : R -> option (R * option T)
}.

Class BoundedQueueLaws (T R : Type) `{BoundedQueue T R} : Prop := {
  bq_bound r q : bq_repr r q -> zlen q <= bq_cap r;
  bq_push_room r q v :
    bq_repr r q -> zlen q < bq_cap r ->
    exists r', bq_push r v = Some (r', Ok tt) /\ bq_repr r' (q ++ [v]) /\ bq_cap r' = bq_cap r;
  bq_push_full r q v :
    bq_repr r q -> zlen q = bq_cap r -> bq_push r v = Some (r, Err v);
  bq_pop_nil r : bq_repr r [] -> bq_pop r = Some (r, None);
  bq_pop_cons r q v :
    bq_repr r (v :: q) ->
    exists r', bq_pop r = Some (r', Some v) /\ bq_repr r' q /\ bq_cap r' = bq_cap r
}.

#[export] Instance spsc_queue {T} : BoundedQueue T (SpscRing T) := {|
  bq_repr := spsc_repr; bq_cap := spsc_capacity; bq_push := spsc_push; bq_pop := spsc_pop
|}.
#[export] Instance mpsc_queue {T} : BoundedQueue T (MpscRing T) := {|
  bq_repr := mpsc_repr; bq_cap := mpsc_capacity; bq_push := mpsc_push; bq_pop := mpsc_pop
|}.

#[export] Instance spsc_queue_laws {T} : BoundedQueueLaws T (SpscRing T).
Proof.
  split; simpl; unfold spsc_repr, spsc_push, spsc_pop, spsc_capacity.
  - intros r q H. apply H.
  - intros r q v H Hlt. rewrite (repr_distance _ _ _ _ _ H).
    destruct (Z.leb_spec (sp_mask r + 1) (zlen q)); [lia|].
    destruct (repr_push _ _ _ _ _ v H Hlt) as [[x Hx] Hr]. rewrite Hx. eauto.
  - intros r q v H Heq. rewrite (repr_distance _ _ _ _ _ H).
    destruct (Z.leb_spec (sp_mask r + 1) (zlen q)); [done|lia].
  - intros r H. by rewrite (repr_empty _ _ _ _ _ H).
  - intros r q v H. rewrite (repr_empty _ _ _ _ _ H), zlen_cons.
    pose proof (zlen_nonneg q). destruct (Z.eqb_spec (zlen q + 1) 0); [lia|].
    destruct (repr_pop _ _ _ _ _ _ H) as [-> Hr]. eauto.
Qed.

Lemma mpsc_acquire_free {T} (m : MpscRing T) q :
  mpsc_repr m q -> exists m', mpsc_acquire m = Some m' /\ mpsc_release m' = m /\
  mp_buf m' = mp_buf m /\ mp_mask m' = mp_mask m /\ mp_head m' = mp_head m /\ mp_tail m' = mp_tail m.
Proof.
  intros [Hl _]. unfold mpsc_acquire. rewrite Hl. eexists. split; [done|].
  destruct m; simpl in *; by subst.
Qed.

#[export] Instance mpsc_queue_laws {T} : BoundedQueueLaws T (MpscRing T).
Proof.
  split; simpl.
  - intros m q [_ H]. apply H.
  - intros m q v Hm Hlt. unfold mpsc_push.
    destruct (mpsc_acquire_free _ _ Hm) as (m' & -> & Hrel & Hb & Hk & Hh & Ht); simpl.
    destruct Hm as [_ H]. unfold mpsc_capacity in *. rewrite Hb, Hk, Hh, Ht.
    rewrite (repr_distance _ _ _ _ _ H).
    destruct (Z.leb_spec (mp_mask m + 1) (zlen q)); [lia|].
    destruct (repr_push _ _ _ _ _ v H Hlt) as [[x Hx] Hr]. rewrite Hx.
    eexists. split; [done|]. split; [by split|done].
  - intros m q v Hm Heq. unfold mpsc_push.
    destruct (mpsc_acquire_free _ _ Hm) as (m' & -> & Hrel & Hb & Hk & Hh & Ht); simpl.
    destruct Hm as [_ H]. unfold mpsc_capacity in *. rewrite Hk, Hh, Ht.
    rewrite (repr_distance _ _ _ _ _ H).
    destruct (Z.leb_spec (mp_mask m + 1) (zlen q)); [by rewrite Hrel|lia].
  - intros m Hm. unfold mpsc_pop.
    destruct (mpsc_acquire_free _ _ Hm) as (m' & -> & Hrel & Hb & Hk & Hh & Ht); simpl.
    destruct Hm as [_ H]. by rewrite Hh, Ht, (repr_empty _ _ _ _ _ H), Hrel.
  - intros m q v Hm. unfold mpsc_pop.
    destruct (mpsc_acquire_free _ _ Hm) as (m' & -> & Hrel & Hb & Hk & Hh & Ht); simpl.
    destruct Hm as [_ H]. rewrite Hb, Hk, Hh, Ht, (repr_empty _ _ _ _ _ H), zlen_cons.
    pose proof (zlen_nonneg q). destruct (Z.eqb_spec (zlen q + 1) 0); [lia|].
    destruct (repr_pop _ _ _ _ _ _ H) as [-> Hr].
    eexists. split; [done|]. split; [by split|unfold mpsc_capacity; simpl; congruence].
Qed.

(** The contract, stated for each ring. *)
Section Specialised.
Context {T : Type}.

Lemma spsc_bound (r : SpscRing T) q : spsc_repr r q -> zlen q <= spsc_capacity r.
Proof. exact (bq_bound (H := spsc_queue) r q). Qed.

Lemma spsc_push_room (r : SpscRing T) q v :
  spsc_repr r q -> zlen q < spsc_capacity r ->
  exists r', spsc_push r v = Some (r', Ok tt) /\ spsc_repr r' (q ++ [v]) /\ spsc_capacity r' = spsc_capacity r.
Proof. exact (bq_push_room (H := spsc_queue) r q v). Qed.

Lemma spsc_push_full (r : SpscRing T) q v :
  spsc_repr r q -> zlen q = spsc_capacity r -> spsc_push r v = Some (r, Err v).
Proof. exact (bq_push_full (H := spsc_queue) r q v). Qed.

Lemma spsc_pop_nil (r : SpscRing T) : spsc_repr r [] -> spsc_pop r = Some (r, None).
Proof. exact (bq_pop_nil (H := spsc_queue) r). Qed.

Lemma spsc_pop_cons (r : SpscRing T) q v :
  spsc_repr r (v :: q) ->
  exists r', spsc_pop r = Some (r', Some v) /\ spsc_repr r' q /\ spsc_capacity r' = spsc_capacity r.
Proof. exact (bq_pop_cons (H := spsc_queue) r q v). Qed.

Lemma mpsc_bound (r : MpscRing T) q : mpsc_repr r q -> zlen q <= mpsc_capacity r.
Proof. exact (bq_bound (H := mpsc_queue) r q). Qed.

Lemma mpsc_push_room (r : MpscRing T) q v :
  mpsc_repr r q -> zlen q < mpsc_capacity r ->
  exists r', mpsc_push r v = Some (r', Ok tt) /\ mpsc_repr r' (q ++ [v]) /\ mpsc_capacity r' = mpsc_capacity r.
Proof. exact (bq_push_room (H := mpsc_queue) r q v). Qed.

Lemma mpsc_push_full (r : MpscRing T) q v :
  mpsc_repr r q -> zlen q = mpsc_capacity r -> mpsc_push r v = Some (r, Err v).
Proof. exact (bq_push_full (H := mpsc_queue) r q v). Qed.

Lemma mpsc_pop_nil (r : MpscRing T) : mpsc_repr r [] -> mpsc_pop r = Some (r, None).
Proof. exact (bq_pop_nil (H := mpsc_queue) r). Qed.

Lemma mpsc_pop_cons (r : MpscRing T) q v :
  mpsc_repr r (v :: q) ->
  exists r', mpsc_pop r = Some (r', Some v) /\ mpsc_repr r' q /\ mpsc_capacity r' = mpsc_capacity r.
Proof. exact (bq_pop_cons (H := mpsc_queue) r q v). Qed.

End Specialised.

(** Traces of calls, run on a ring and on the abstract bounded queue. *)
Inductive qop (T : Type) := QPush (v : T) | QPop.
Arguments QPush {T}. Arguments QPop {T}.
Inductive qres (T : Type) := RPush (r : result T unit) | RPop (o : option T).
Arguments RPush {T}. Arguments RPop {T}.

Section Traces.
Context {T R : Type} `{BoundedQueueLaws T R}.
Implicit Types (r : R) (q : list T).

Definition queue_step r (op : qop T) : option (R * qres T) :=
  match op with
  | QPush v => '(r, x) ← bq_push r v; Some (r, RPush x)
  | QPop => '(r, x) ← bq_pop r; Some (r, RPop x)
  end.

Fixpoint queue_run r (ops : list (qop T)) : option (R * list (qres T)) :=
  match ops with
  | [] => Some (r, [])
  | op :: ops =>
      '(r, x) ← queue_step r op;
      '(r, xs) ← queue_run r ops;
      Some (r, x :: xs)
  end.

Definition fifo_step (cap : Z) q (op : qop T) : list T * qres T :=
  match op with
  | QPush v => if zlen q <? cap then (q ++ [v], RPush (Ok tt)) else (q, RPush (Err v))
  | QPop => match q with [] => ([], RPop None) | v :: q => (q, RPop (Some v)) end
  end.

Fixpoint fifo_run (cap : Z) q (ops : list (qop T)) : list T * list (qres T) :=
  match ops with
  | [] => (q, [])
  | op :: ops =>
      let '(q, x) := fifo_step cap q op in
      let '(q, xs) := fifo_run cap q ops in
      (q, x :: xs)
  end.

Lemma queue_step_refines r q op :
  bq_repr r q ->
  exists r', queue_step r op = Some (r', (fifo_step (bq_cap r) q op).2) /\
  bq_repr r' (fifo_step (bq_cap r) q op).1 /\ bq_cap r' = bq_cap r.
Proof.
  intros Hr. destruct op as [v|]; simpl.
  - destruct (Z.ltb_spec (zlen q) (bq_cap r)).
    + destruct (bq_push_room r q v) as (r' & -> & ? & ?); [done..|]. simpl. eauto.
    + pose proof (bq_bound r q Hr).
      rewrite (bq_push_full r q v Hr ltac:(lia)). simpl. eauto.
  - destruct q as [|v q].
    + rewrite (bq_pop_nil r Hr). simpl. eauto.
    + destruct (bq_pop_cons r q v Hr) as (r' & -> & ? & ?). simpl. eauto.
Qed.

Lemma queue_run_refines ops : forall r q,
  bq_repr r q ->
  exists r', queue_run r ops = Some (r', (fifo_run (bq_cap r) q ops).2) /\
  bq_repr r' (fifo_run (bq_cap r) q ops).1 /\ bq_cap r' = bq_cap r.
Proof.
  induction ops as [|op ops IH]; intros r q Hr; simpl; [eauto|].
  destruct (queue_step_refines r q op Hr) as (r1 & -> & Hr1 & Hc1). simpl.
  destruct (fifo_step (bq_cap r) q op) as [q1 x]; simpl in *.
  destruct (IH r1 q1 Hr1) as (r2 & -> & Hr2 & Hc2). rewrite Hc1 in *. simpl.
  destruct (fifo_run (bq_cap r) q1 ops) as [q2 xs]; simpl in *. eauto.
Qed.
End Traces.

Lemma ring_repr_init {T} c p :
  0 <= c -> checked_next_power_of_two 64 c = Some p ->
  ring_repr (replicate (Z.to_nat (Z.max p 2)) (@None T)) (Z.max p 2 - 1) 0 0 [] /\
  c <= Z.max p 2 /\ (2 <= c -> Z.max p 2 < 2 * c).
Proof.
  intros Hc Hp. destruct (next_power_of_two_spec _ _ _ Hc Hp) as (k & Hk & -> & Hle & Hlt).
  split; [|split; lia].
  split; [| | |done| |]; rewrite ?zlen_nil; try done; try lia.
  - exists (Z.max k 1). split; [lia|]. f_equal.
    destruct (Z.eq_dec k 0) as [->|]; [done|].
    assert (2 ^ 1 <= 2 ^ k) by (apply Z.pow_le_mono_r; lia).
    rewrite (Z.max_l k 1), (Z.max_l (2 ^ k) 2) by lia. done.
  - unfold zlen. rewrite length_replicate. lia.
  - intros i Hi. change (zlen (@nil T)) with 0 in Hi. lia.
Qed.

Lemma spsc_new {T} A c (r : SpscRing T) :
  0 <= c -> spsc_try_with_capacity A c = Ok r ->
  spsc_repr r [] /\
  exists p, checked_next_power_of_two 64 c = Some p /\ spsc_capacity r = Z.max p 2.
Proof.
  intros Hc. unfold spsc_try_with_capacity. simp; intros; simplify_eq.
  split; [by apply (ring_repr_init (T := T) c)|].
  eexists. split; [done|]. unfold spsc_capacity; simpl. lia.
Qed.

Lemma mpsc_new {T} A c (m : MpscRing T) :
  0 <= c -> mpsc_try_with_capacity A c = Ok m ->
  mpsc_repr m [] /\
  exists p, checked_next_power_of_two 64 c = Some p /\ mpsc_capacity m = Z.max p 2.
Proof.
  intros Hc. unfold mpsc_try_with_capacity. simp; intros; simplify_eq.
  split; [split; [done|by apply (ring_repr_init (T := T) c)]|].
  eexists. split; [done|]. unfold mpsc_capacity; simpl. lia.
Qed.

(** construction and every call sequence.  A ring built by
    [try_with_capacity] for [c] slots behaves, on any sequence of pushes and
    pops, as a FIFO queue whose bound is the least admissible power of two
    (at least [c], below [2 * c]); no call reads an uninitialised slot or
    leaves the buffer, whatever the allocator answers and however far the
    wrapping counters have advanced. *)
Theorem spsc_refines_fifo {T} (A : alloc) (c : Z) (r : SpscRing T) (ops : list (qop T)) :
  0 <= c -> spsc_try_with_capacity A c = Ok r ->
  (c <= spsc_capacity r /\ (2 <= c -> spsc_capacity r < 2 * c)) /\
  exists r', queue_run r ops = Some (r', (fifo_run (spsc_capacity r) [] ops).2) /\
  spsc_repr r' (fifo_run (spsc_capacity r) [] ops).1.
Proof.
  intros Hc. unfold spsc_try_with_capacity. simp; intros; simplify_eq.
  destruct (ring_repr_init (T := T) _ _ Hc H) as (Hr & Hb). unfold spsc_capacity; simpl.
  rewrite Z.sub_add. split; [done|].
  pose proof (queue_run_refines (R := SpscRing T) ops (mkSpscRing _ _ 0 0) [] Hr) as (r' & Hrun & Hr' & _).
  exists r'. simpl in *. unfold spsc_capacity in *; simpl in *. rewrite Z.sub_add in *. done.
Qed.

Lemma spsc_refines_fifo_witness :
  exists r r' : SpscRing Z, spsc_try_with_capacity alloc_all 3 = Ok r /\ spsc_capacity r = 4 /\
  queue_run r [QPush 7; QPop; QPop] = Some (r', [RPush (Ok tt); RPop (Some 7); RPop None]).
Proof.
  eexists. assert (0 <= 3) as H0 by lia.
  destruct (spsc_refines_fifo (T := Z) alloc_all 3 _ [QPush 7; QPop; QPop] H0 eq_refl)
    as (_ & r' & Hrun & _).
  exists r'. split; [reflexivity|]. split; [reflexivity|]. exact Hrun.
Defined.

(** the same contract for the spinlock ring, run by one thread: every
    call releases the lock and the ring refines the bounded FIFO queue. *)
Theorem mpsc_refines_fifo {T} (A : alloc) (c : Z) (m : MpscRing T) (ops : list (qop T)) :
  0 <= c -> mpsc_try_with_capacity A c = Ok m ->
  exists m', queue_run m ops = Some (m', (fifo_run (mpsc_capacity m) [] ops).2) /\
  mp_lock m' = 0 /\
  mpsc_is_empty m' = Some (m', zlen (fifo_run (mpsc_capacity m) [] ops).1 =? 0).
Proof.
  intros Hc. unfold mpsc_try_with_capacity. simp; intros; simplify_eq.
  destruct (ring_repr_init (T := T) _ _ Hc H) as (Hr & Hb).
  match goal with |- context [queue_run ?x _] => set (m := x) end.
  assert (bq_repr (T := T) m []) as Hm by (by split).
  destruct (queue_run_refines (T := T) (R := MpscRing T) ops m [] Hm) as (m' & Hrun & Hm' & _).
  exists m'. split; [done|]. split; [apply Hm'|].
  unfold mpsc_is_empty. destruct (mpsc_acquire_free _ _ Hm') as (m2 & -> & Hrel & _ & _ & Hh & Ht).
  simpl. rewrite Hrel, Hh, Ht. destruct Hm' as [_ Hm']. by rewrite (repr_empty _ _ _ _ _ Hm').
Qed.

Lemma mpsc_refines_fifo_witness :
  exists m m' : MpscRing Z, mpsc_try_with_capacity alloc_all 2 = Ok m /\
  queue_run m [QPush 1; QPush 2; QPush 3; QPop] =
    Some (m', [RPush (Ok tt); RPush (Ok tt); RPush (Err 3); RPop (Some 1)]) /\
  mpsc_is_empty m' = Some (m', false).
Proof.
  eexists. assert (0 <= 2) as H0 by lia.
  destruct (mpsc_refines_fifo (T := Z) alloc_all 2 _ [QPush 1; QPush 2; QPush 3; QPop] H0 eq_refl)
    as (m' & Hrun & _ & He).
  exists m'. split; [reflexivity|]. split; [exact Hrun|exact He].
Defined.

(** ** Destruction *)
Lemma drop_range_live {T} mask tail (q : list T) : forall buf head,
  ring_repr buf mask head tail q -> head + zlen q < 2 ^ 64 ->
  spsc_drop_range mask buf (seqZ head (zlen q)) = Some q.
Proof.
  induction q as [|v q IH]; intros buf head Hr Hb; [done|].
  destruct (repr_pop _ _ _ _ _ _ Hr) as [Hv Hr'].
  pose proof (rr_head _ _ _ _ _ Hr) as Hh. pose proof (zlen_nonneg q). zsimp.
  rewrite seqZ_cons by lia. simpl. rewrite Hv.
  unfold wrapping_add in Hr'. unfold is_u in Hh. rewrite wrap_small in Hr' by (unfold is_u; lia).
  replace (Z.pred (zlen q + 1)) with (zlen q) by lia. unfold Z.succ.
  rewrite (IH _ _ Hr') by lia. done.
Qed.

(** [Drop] walks [head..tail] over the raw counters.  It drops exactly the
    queued values, each once, while the tail counter has not wrapped past the
    head; once it has, the range is empty and every queued value is leaked. *)
Theorem spsc_drop_leaks_after_wrap {T} (r : SpscRing T) (q : list T) :
  spsc_repr r q ->
  spsc_drop r = Some (if sp_head r <=? sp_tail r then q else []) /\
  (sp_tail r < sp_head r -> q <> []).
Proof.
  intros Hr. unfold spsc_drop. pose proof (repr_distance _ _ _ _ _ Hr) as Hd.
  pose proof (rr_head _ _ _ _ _ Hr) as Hh.
  assert (is_u 64 (sp_tail r)) as Ht by (rewrite (rr_tail _ _ _ _ _ Hr); apply wrap_range; lia).
  unfold wrapping_sub, is_u in *. destruct (Z.leb_spec (sp_head r) (sp_tail r)).
  - rewrite wrap_small in Hd by (unfold is_u; lia). rewrite Hd. split; [|lia].
    eapply drop_range_live; [exact Hr|lia].
  - rewrite seqZ_nil by lia. split; [done|]. intros _ ->. zsimp.
    assert (sp_tail r = sp_head r); [|lia].
    rewrite (rr_tail _ _ _ _ _ Hr). zsimp. rewrite Z.add_0_r. by apply wrap_small.
Qed.

(** A ring of two slots whose counters are about to wrap: one value queued at
    counter [2^64 - 1], so [tail = 0]. *)
Definition wrapped_ring : SpscRing Z := mkSpscRing [None; Some 9] 1 U64_MAX 0.

Lemma spsc_drop_leaks_after_wrap_witness :
  spsc_repr wrapped_ring [9] /\ spsc_drop wrapped_ring = Some [].
Proof.
  assert (spsc_repr wrapped_ring [9]) as Hr.
  { split; simpl; [by exists 1|done|done|reflexivity|unfold zlen; simpl; lia|].
    intros i Hi. unfold zlen in Hi; simpl in Hi. replace i with 0 by lia. reflexivity. }
  split; [exact Hr|]. apply (proj1 (spsc_drop_leaks_after_wrap wrapped_ring [9] Hr)).
Defined.
