(* ===== verification/RingConc.v ===== *)
(** Interleavings of the rings of [kernel/bus.rs].

    [Module Spsc]: the producer's [push] and the consumer's [pop] as separate
    atomic steps (load own counter, load the other side's counter, access the
    slot, publish), in any interleaving.  The acquire load of the other side's
    counter may return any value the counter had since the last value this
    side saw, so a stale read is allowed.  What the [unsafe] blocks leave
    undefined is a step of its own, into [PUndef] or [CUndef]: a slot index out
    of the unchecked buffer, a read of an uninitialised slot, and a read and a
    write of one slot at the same time; the theorems show that no interleaving
    takes one.

    [Module Mpsc]: any number of threads on the spinlock ring, the critical
    section split into its loads, its slot access and its store. *)

From stdpp Require Import functions.
From S2P Require Import Prelude Ring.
Open Scope Z_scope.

Module Spsc.
Section Spsc.
Context {T : Type}.
Implicit Types (r : SpscRing T) (v : T).

(** Where a side is inside its call. *)
Inductive prod_pc : Type :=
| PIdle
| PTail (v : T) (tail : Z)
| PRoom (v : T) (tail : Z)
| PWritten (v : T) (tail : Z)
| PUndef.

Inductive cons_pc : Type :=
| CIdle
| CHead (head : Z)
| CReady (head : Z)
| CRead (head : Z) (v : T)
| CUndef.

(** [pushed] and [popped] are the histories of published values and of values
    returned by [pop]; [pseen] and [cseen] count how far each side has
    observed the other. *)
Inductive spsc_conf : Type :=
  Conf (r : SpscRing T) (p : prod_pc) (c : cons_pc) (pushed popped : list T) (pseen cseen : Z).

Definition with_buf r buf : SpscRing T := mkSpscRing buf (sp_mask r) (sp_head r) (sp_tail r).
Definition with_head r h : SpscRing T := mkSpscRing (sp_buf r) (sp_mask r) h (sp_tail r).
Definition with_tail r t : SpscRing T := mkSpscRing (sp_buf r) (sp_mask r) (sp_head r) t.

Inductive spsc_step : spsc_conf -> spsc_conf -> Prop :=
| push_load_tail r v c pu po ps cs :
    spsc_step (Conf r PIdle c pu po ps cs) (Conf r (PTail v (sp_tail r)) c pu po ps cs)
| push_full r v t c pu po ps cs h :
    ps <= h <= zlen po -> spsc_capacity r <= wrapping_sub 64 t (wrap 64 h) ->
    spsc_step (Conf r (PTail v t) c pu po ps cs) (Conf r PIdle c pu po h cs)
| push_room r v t c pu po ps cs h :
    ps <= h <= zlen po -> wrapping_sub 64 t (wrap 64 h) < spsc_capacity r ->
    spsc_step (Conf r (PTail v t) c pu po ps cs) (Conf r (PRoom v t) c pu po h cs)
| push_write r v t c pu po ps cs :
    spsc_step (Conf r (PRoom v t) c pu po ps cs)
      (Conf (with_buf r (zset (sp_buf r) (Z.land t (sp_mask r)) (Some v)))
        (PWritten v t) c pu po ps cs)
| push_publish r v t c pu po ps cs :
    spsc_step (Conf r (PWritten v t) c pu po ps cs)
      (Conf (with_tail r (wrapping_add 64 t 1)) PIdle c (pu ++ [v]) po ps cs)
| pop_load_head r p pu po ps cs :
    spsc_step (Conf r p CIdle pu po ps cs) (Conf r p (CHead (sp_head r)) pu po ps cs)
| pop_empty r p h pu po ps cs t :
    cs <= t <= zlen pu -> h = wrap 64 t ->
    spsc_step (Conf r p (CHead h) pu po ps cs) (Conf r p CIdle pu po ps t)
| pop_ready r p h pu po ps cs t :
    cs <= t <= zlen pu -> h <> wrap 64 t ->
    spsc_step (Conf r p (CHead h) pu po ps cs) (Conf r p (CReady h) pu po ps t)
| pop_read r p h v pu po ps cs :
    sp_buf r !z (Z.land h (sp_mask r)) = Some (Some v) ->
    spsc_step (Conf r p (CReady h) pu po ps cs)
      (Conf (with_buf r (zset (sp_buf r) (Z.land h (sp_mask r)) None)) p (CRead h v) pu po ps cs)
| pop_release r p h v pu po ps cs :
    spsc_step (Conf r p (CRead h v) pu po ps cs)
      (Conf (with_head r (wrapping_add 64 h 1)) p CIdle pu (po ++ [v]) ps cs)
| push_undef r v t c pu po ps cs :
    sp_buf r !z (Z.land t (sp_mask r)) = None ->
    spsc_step (Conf r (PRoom v t) c pu po ps cs) (Conf r PUndef c pu po ps cs)
| pop_undef r p h pu po ps cs :
    (forall v, sp_buf r !z (Z.land h (sp_mask r)) <> Some (Some v)) ->
    spsc_step (Conf r p (CReady h) pu po ps cs) (Conf r p CUndef pu po ps cs)
| slot_race r v t h pu po ps cs :
    Z.land t (sp_mask r) = Z.land h (sp_mask r) ->
    spsc_step (Conf r (PRoom v t) (CReady h) pu po ps cs) (Conf r PUndef CUndef pu po ps cs).

(** What the callers see, written without looking at the ring: the values
    handed to [push] and not handed back, a value being added when a call
    starts and taken off when the call refuses it. *)
Definition producer (s : spsc_conf) : prod_pc := let 'Conf _ p _ _ _ _ _ := s in p.

Definition given_after (given : list T) (p p' : prod_pc) : list T :=
  match p, p' with
  | PIdle, PTail v _ => given ++ [v]
  | PTail _ _, PIdle => removelast given
  | _, _ => given
  end.

Lemma given_after_same given p : given_after given p p = given.
Proof. by destruct p. Qed.

Definition spsc_start (A : alloc) (capacity : Z) (s : spsc_conf) : Prop :=
  exists r, spsc_try_with_capacity A capacity = Ok r /\ s = Conf r PIdle CIdle [] [] 0 0.

Inductive spsc_reachable (A : alloc) (capacity : Z) : list T -> spsc_conf -> Prop :=
| reach_start s : spsc_start A capacity s -> spsc_reachable A capacity [] s
| reach_step given s s' :
    spsc_reachable A capacity given s -> spsc_step s s' ->
    spsc_reachable A capacity (given_after given (producer s) (producer s')) s'.

(** ** The invariant *)
Definition reading (c : cons_pc) : Z := match c with CRead _ _ => 1 | _ => 0 end.

Definition prod_ok (k : Z) (buf : list (option T)) (n ps : Z) (p : prod_pc) : Prop :=
  match p with
  | PIdle => True
  | PTail v t => t = wrap 64 n
  | PRoom v t => t = wrap 64 n /\ n < ps + 2 ^ k
  | PWritten v t => t = wrap 64 n /\ n < ps + 2 ^ k /\ buf !z (n mod 2 ^ k) = Some (Some v)
  | PUndef => False
  end.

Definition cons_ok (pu : list T) (h cs : Z) (c : cons_pc) : Prop :=
  match c with
  | CIdle => True
  | CHead h' => h' = wrap 64 h
  | CReady h' => h' = wrap 64 h /\ h < cs
  | CRead h' v => h' = wrap 64 h /\ h < cs /\ pu !z h = Some v
  | CUndef => False
  end.

Record spsc_inv (k : Z) r (p : prod_pc) (c : cons_pc) (pu po : list T) (ps cs : Z) : Prop := {
  i_pow : 1 <= k <= 63;
  i_mask : sp_mask r = 2 ^ k - 1;
  i_buf : zlen (sp_buf r) = 2 ^ k;
  i_head : sp_head r = wrap 64 (zlen po);
  i_tail : sp_tail r = wrap 64 (zlen pu);
  i_order : 0 <= ps <= zlen po /\ zlen po <= cs /\ cs <= zlen pu /\ zlen pu <= ps + 2 ^ k;
  i_prefix : po `prefix_of` pu;
  i_slots : forall i, zlen po + reading c <= i < zlen pu ->
    sp_buf r !z (i mod 2 ^ k) = Some (pu !z i);
  i_prod : prod_ok k (sp_buf r) (zlen pu) ps p;
  i_cons : cons_ok pu (zlen po) cs c
}.

Definition conf_inv (s : spsc_conf) : Prop :=
  let 'Conf r p c pu po ps cs := s in exists k, spsc_inv k r p c pu po ps cs.

Lemma reading_range c : 0 <= reading c <= 1.
Proof. destruct c; simpl; lia. Qed.

Lemma distance_small k n h ps :
  1 <= k <= 63 -> ps <= h -> h <= n -> n <= ps + 2 ^ k ->
  wrapping_sub 64 (wrap 64 n) (wrap 64 h) = n - h.
Proof.
  intros Hk ? ? ?. pose proof (pow_bounds k Hk). unfold wrapping_sub.
  rewrite wrap_wrap_sub by lia. apply wrap_small. unfold is_u.
  change (2 ^ 64) with (2 * 2 ^ 63). lia.
Qed.

Lemma start_inv A capacity s : 0 <= capacity -> spsc_start A capacity s -> conf_inv s.
Proof.
  intros Hc (r & Hr & ->). unfold spsc_try_with_capacity in Hr. simp.
  destruct (ring_repr_init (T := T) _ _ Hc H) as ([(k & Hk & Hm) Hb _ _ _ _] & _).
  exists k. split; simpl; try done; zsimp; lia.
Qed.

Ltac split_inv := split; simpl in *; try done; try lia.

Lemma inv_push_write k r v t c pu po ps cs :
  spsc_inv k r (PRoom v t) c pu po ps cs ->
  spsc_inv k (with_buf r (zset (sp_buf r) (Z.land t (sp_mask r)) (Some v)))
    (PWritten v t) c pu po ps cs.
Proof.
  intros [Hk Hm Hb Hh Ht Ho Hp Hs [-> Hroom] Hc].
  pose proof (reading_range c). pose proof (slot_range k (zlen pu) ltac:(lia)).
  rewrite Hm, land_slot by lia.
  split_inv.
  - by rewrite zlen_zset.
  - intros i Hi. rewrite zget_zset_ne by (apply slot_ne; lia). by apply Hs.
  - split; [done|]. split; [done|]. apply zget_zset_eq. lia.
Qed.

Lemma inv_push_publish k r v t c pu po ps cs :
  spsc_inv k r (PWritten v t) c pu po ps cs ->
  spsc_inv k (with_tail r (wrapping_add 64 t 1)) PIdle c (pu ++ [v]) po ps cs.
Proof.
  intros [Hk Hm Hb Hh Ht Ho Hp Hs (-> & Hroom & Hv) Hc].
  pose proof (reading_range c). pose proof (zlen_nonneg po).
  split_inv.
  - unfold wrapping_add. rewrite wrap_add_l by lia. f_equal. zsimp. lia.
  - zsimp. lia.
  - by apply prefix_app_r.
  - intros i Hi. zsimp. destruct (Z.eq_dec i (zlen pu)) as [->|].
    + rewrite Hv. by rewrite zget_snoc.
    + rewrite zget_app_l by lia. apply Hs. lia.
  - destruct c; simpl in *; try done. destruct Hc as (? & ? & ?).
    split; [done|]. split; [done|]. by rewrite zget_app_l by lia.
Qed.

Lemma inv_pop_read k r p h v pu po ps cs :
  spsc_inv k r p (CReady h) pu po ps cs ->
  sp_buf r !z (Z.land h (sp_mask r)) = Some (Some v) ->
  spsc_inv k (with_buf r (zset (sp_buf r) (Z.land h (sp_mask r)) None)) p (CRead h v) pu po ps cs.
Proof.
  intros [Hk Hm Hb Hh Ht Ho Hp Hs Hprod [-> Hlt]].
  rewrite Hm, land_slot by lia. intros Hv. pose proof (zlen_nonneg po).
  split_inv.
  - by rewrite zlen_zset.
  - intros i Hi. rewrite zget_zset_ne by (apply not_eq_sym, slot_ne; lia). apply Hs. lia.
  - destruct p; simpl in *; try done. destruct Hprod as (? & ? & ?).
    split; [done|]. split; [done|].
    rewrite zget_zset_ne by (apply not_eq_sym, slot_ne; lia). done.
  - split; [done|]. split; [done|].
    specialize (Hs (zlen po) ltac:(lia)). congruence.
Qed.

Lemma prefix_extend (po pu : list T) v :
  po `prefix_of` pu -> pu !z (zlen po) = Some v -> (po ++ [v]) `prefix_of` pu.
Proof.
  intros [q ->]. unfold zlen. rewrite zget_nat. intros Hv.
  destruct q as [|x q]; [by rewrite app_nil_r, lookup_ge_None_2 in Hv by lia|].
  rewrite list_lookup_middle in Hv by done. simplify_eq.
  exists q. by rewrite <- (assoc_L (++)).
Qed.

Lemma inv_pop_release k r p h v pu po ps cs :
  spsc_inv k r p (CRead h v) pu po ps cs ->
  spsc_inv k (with_head r (wrapping_add 64 h 1)) p CIdle pu (po ++ [v]) ps cs.
Proof.
  intros [Hk Hm Hb Hh Ht Ho Hp Hs Hprod (-> & Hlt & Hv)].
  split_inv; zsimp; try lia.
  - unfold wrapping_add. by rewrite wrap_add_l by lia.
  - by apply prefix_extend.
  - intros i Hi. apply Hs. lia.
Qed.

(** No step into undefined behaviour can be taken. *)
Lemma inv_no_undef k r p c pu po ps cs :
  spsc_inv k r p c pu po ps cs ->
  (forall v t, p = PRoom v t -> sp_buf r !z (Z.land t (sp_mask r)) <> None) /\
  (forall h, c = CReady h -> exists v, sp_buf r !z (Z.land h (sp_mask r)) = Some (Some v)) /\
  (forall v t h, p = PRoom v t -> c = CReady h ->
     Z.land t (sp_mask r) <> Z.land h (sp_mask r)).
Proof.
  intros [Hk Hm Hb _ _ Ho _ Hs Hprod Hcons]. pose proof (zlen_nonneg po).
  rewrite Hm. repeat split; intros; subst; simpl in *;
    repeat match goal with H : _ /\ _ |- _ => destruct H end; subst; rewrite ?land_slot by lia.
  - intros Hn%zget_None. rewrite Hb in Hn. pose proof (slot_range k (zlen pu)). lia.
  - rewrite Hs by lia. assert (is_Some (pu !z (zlen po))) as [v ->] by (apply zget_is_Some; lia).
    by exists v.
  - apply slot_ne. lia.
Qed.

Lemma step_inv s s' : spsc_step s s' -> conf_inv s -> conf_inv s'.
Proof.
  destruct 1; intros [k Hi];
    pose proof (inv_no_undef _ _ _ _ _ _ _ _ Hi) as (Hnp & Hnc & Hnr); exists k;
    try (by eapply inv_push_write); try (by eapply inv_push_publish);
    try (by eapply inv_pop_read); try (by eapply inv_pop_release);
    try (by destruct (Hnp _ _ eq_refl)); try (by destruct (Hnr _ _ _ eq_refl eq_refl));
    try (destruct (Hnc _ eq_refl) as [? Hv]; naive_solver);
    destruct Hi as [Hk Hm Hb Hh Ht Ho Hp Hs Hprod Hc]; split_inv.
  - split; [done|]. subst t. unfold spsc_capacity in *.
    rewrite (distance_small k _ _ ps) in * by lia. lia.
  - split; [done|]. subst h. assert (zlen po <> t) by congruence. lia.
Qed.

Lemma reachable_inv A capacity given s :
  0 <= capacity -> spsc_reachable A capacity given s -> conf_inv s.
Proof. intros ?. induction 1; eauto using start_inv, step_inv. Qed.

(** The value a call to [push] carries, and the one [pop] has taken out of its
    slot and not returned yet. *)
Definition pending (p : prod_pc) : list T :=
  match p with PTail v _ | PRoom v _ | PWritten v _ => [v] | PIdle | PUndef => [] end.

Definition taken (c : cons_pc) : list T := match c with CRead _ v => [v] | _ => [] end.

Definition published (s : spsc_conf) : list T := let 'Conf _ _ _ pu _ _ _ := s in pu.

Lemma reachable_given A capacity given s :
  0 <= capacity -> spsc_reachable A capacity given s ->
  given = published s ++ pending (producer s).
Proof.
  intros Hc. induction 1 as [s (r & _ & ->)|given s s' Hr IH Hs]; [done|].
  pose proof (step_inv _ _ Hs (reachable_inv _ _ _ _ Hc Hr)) as Hi.
  destruct Hs; simpl in *; subst given; rewrite ?given_after_same, ?app_nil_r; try done;
    try (by rewrite removelast_last);
    destruct Hi as [k Hi]; exfalso; exact (i_prod _ _ _ _ _ _ _ _ Hi).
Qed.

Lemma spsc_queue k r p c pu po ps cs :
  spsc_inv k r p c pu po ps cs ->
  exists queue, pu = po ++ taken c ++ queue /\ zlen (taken c) = reading c /\
    (forall i, 0 <= i < zlen queue ->
       sp_buf r !z (Z.land (wrap 64 (zlen po + reading c + i)) (sp_mask r)) = Some (queue !z i)).
Proof.
  intros [Hk Hm Hb _ _ Ho [q Hq] Hs _ Hc]. pose proof (zlen_nonneg po).
  assert (exists queue, q = taken c ++ queue) as [queue ->].
  { destruct c; simpl in *; try by exists q. destruct Hc as (_ & _ & Hv). subst pu.
    rewrite zget_app_r, Z.sub_diag in Hv by lia. destruct q as [|w q]; [done|].
    exists q. rewrite zget_lookup in Hv by lia. by simplify_eq/=. }
  exists queue. split; [done|]. split; [by destruct c|]. intros i Hi.
  assert (zlen (taken c) = reading c) as Ht by by destruct c. pose proof (reading_range c).
  assert (zlen pu = zlen po + reading c + zlen queue) as Hl by (subst pu; zsimp; lia).
  rewrite Hm, land_slot by lia. rewrite Hs by lia. subst pu. f_equal.
  rewrite app_assoc, zget_app_r by (zsimp; lia). f_equal. zsimp. lia.
Qed.

(** C16: in every interleaving, with the other side's counter read as stale as
    its last reading allows: no step is undefined behaviour (no slot index out
    of the buffer, no read of an uninitialised slot, no read and write of one
    slot at once); the values handed to [push] and not refused are, in order,
    the values [pop] has returned, the one it has taken out of its slot and is
    about to return, the queued ones and the one a running [push] carries; the
    slots from the head on hold exactly the queued values; and at most
    [capacity] values are outstanding. *)
Theorem spsc_interleaving_fifo A capacity given r p c pu po ps cs :
  0 <= capacity -> spsc_reachable A capacity given (Conf r p c pu po ps cs) ->
  p <> PUndef /\ c <> CUndef /\
  exists queue,
    given = po ++ taken c ++ queue ++ pending p /\
    (forall i, 0 <= i < zlen queue ->
       sp_buf r !z (Z.land (wrap 64 (zlen po + zlen (taken c) + i)) (sp_mask r))
       = Some (queue !z i)) /\
    zlen (taken c) + zlen queue <= spsc_capacity r /\
    sp_head r = wrap 64 (zlen po) /\
    sp_tail r = wrap 64 (zlen po + zlen (taken c) + zlen queue).
Proof.
  intros Hc Hr. pose proof (reachable_given _ _ _ _ Hc Hr) as Hg.
  destruct (reachable_inv _ _ _ _ Hc Hr) as [k Hi].
  destruct (spsc_queue _ _ _ _ _ _ _ _ Hi) as (queue & Hq & Ht & Hs).
  destruct Hi as [Hk Hm _ Hh Htl Ho _ _ Hp Hcons].
  split; [by intros ->|]. split; [by intros ->|]. exists queue. unfold spsc_capacity.
  simpl in Hg. subst pu. rewrite Ht, Hg, <- !(assoc_L (++)). zsimp.
  split; [done|]. split; [done|]. split; [lia|]. split; [done|].
  rewrite Htl. f_equal. lia.
Qed.

Lemma reach_next A capacity given given' s s' :
  spsc_reachable A capacity given s -> spsc_step s s' ->
  given' = given_after given (producer s) (producer s') -> spsc_reachable A capacity given' s'.
Proof. intros Hr Hs ->. by eapply reach_step. Qed.
End Spsc.

(** A run of a two-slot ring: 7 published, the consumer about to read it while
    the producer is about to write 8. *)
Definition example_ring : SpscRing Z := mkSpscRing [Some 7; None] 1 0 1.

Lemma example_reachable :
  spsc_reachable alloc_all 2 [7; 8] (Conf example_ring (PRoom 8 1) (CReady 0) [7] [] 0 1).
Proof.
  pose (r0 := mkSpscRing (T := Z) [None; None] 1 0 0).
  pose (r1 := mkSpscRing (T := Z) [Some 7; None] 1 0 0).
  eapply (reach_next _ _ [7; 8] _ (Conf example_ring (PRoom 8 1) (CHead 0) [7] [] 0 0)).
  3: reflexivity.
  2: { apply (pop_ready example_ring (PRoom 8 1) 0 [7] [] 0 0 1); [done|discriminate]. }
  eapply (reach_next _ _ [7; 8] _ (Conf example_ring (PRoom 8 1) CIdle [7] [] 0 0)).
  3: reflexivity.
  2: { apply pop_load_head. }
  eapply (reach_next _ _ [7; 8] _ (Conf example_ring (PTail 8 1) CIdle [7] [] 0 0)).
  3: reflexivity.
  2: { apply (push_room example_ring 8 1 CIdle [7] [] 0 0 0); [done|reflexivity]. }
  eapply (reach_next _ _ [7] _ (Conf example_ring PIdle CIdle [7] [] 0 0)).
  3: reflexivity.
  2: { apply push_load_tail. }
  eapply (reach_next _ _ [7] _ (Conf r1 (PWritten 7 0) CIdle [] [] 0 0)).
  3: reflexivity.
  2: { apply (push_publish r1 7 0 CIdle [] [] 0 0). }
  eapply (reach_next _ _ [7] _ (Conf r0 (PRoom 7 0) CIdle [] [] 0 0)).
  3: reflexivity.
  2: { apply (push_write r0 7 0 CIdle [] [] 0 0). }
  eapply (reach_next _ _ [7] _ (Conf r0 (PTail 7 0) CIdle [] [] 0 0)).
  3: reflexivity.
  2: { apply (push_room r0 7 0 CIdle [] [] 0 0 0); [done|reflexivity]. }
  eapply (reach_next _ _ [] _ (Conf r0 PIdle CIdle [] [] 0 0)).
  3: reflexivity.
  2: { apply push_load_tail. }
  apply reach_start. exists r0. done.
Qed.

Lemma spsc_interleaving_fifo_witness :
  spsc_reachable alloc_all 2 [7; 8] (Conf example_ring (PRoom 8 1) (CReady 0) [7] [] 0 1) /\
  exists queue, [7; 8] = queue ++ [8] /\
    (forall i, 0 <= i < zlen queue ->
       sp_buf example_ring !z (Z.land (wrap 64 (0 + 0 + i)) 1) = Some (queue !z i)).
Proof.
  assert (0 <= 2) as H2 by lia. split; [exact example_reachable|].
  destruct (spsc_interleaving_fifo alloc_all 2 _ _ _ _ _ _ _ _ H2 example_reachable)
    as (_ & _ & queue & Hq & Hs & _). exists queue. split; [exact Hq|exact Hs].
Defined.
End Spsc.

Module Mpsc.
Section Mpsc.
Context {T : Type}.
Implicit Types (m : MpscRing T) (op : qop T) (res : qres T).

(** Where a thread is inside its call: trying the compare-exchange, spinning
    (with the number of spins since the last yield), holding the guard before
    its loads, after its loads, after its slot access, and with the result. *)
Inductive mpsc_pc : Type :=
| MIdle
| MTry (op : qop T)
| MSpin (op : qop T) (spins : Z)
| MLocked (op : qop T)
| MLoaded (op : qop T) (tail head : Z)
| MWrote (v : T) (tail : Z)
| MTook (v : T) (head : Z)
| MDone (op : qop T) (res : qres T).

(** [hist] lists the calls in the order their effect took place; [site] is the
    contention counter of [trace/contention.rs]. *)
Inductive mpsc_conf : Type :=
  MConf (m : MpscRing T) (th : nat -> mpsc_pc) (hist : list (qop T * qres T)) (site : Z).

Implicit Types (i j : nat) (th : nat -> mpsc_pc) (site : Z).

Definition with_lock m l : MpscRing T := mkMpscRing l (mp_buf m) (mp_mask m) (mp_head m) (mp_tail m).
Definition with_mbuf m b : MpscRing T := mkMpscRing (mp_lock m) b (mp_mask m) (mp_head m) (mp_tail m).
Definition with_mhead m h : MpscRing T := mkMpscRing (mp_lock m) (mp_buf m) (mp_mask m) h (mp_tail m).
Definition with_mtail m t : MpscRing T := mkMpscRing (mp_lock m) (mp_buf m) (mp_mask m) (mp_head m) t.

(** [Site::bump] without the [race_trace] feature. *)
Definition site_bump (contentions : Z) : Z := wrapping_add 64 contentions 1.

Inductive mpsc_step : mpsc_conf -> mpsc_conf -> Prop :=
| m_call i m th hist site op :
    th i = MIdle ->
    mpsc_step (MConf m th hist site) (MConf m (<[i := MTry op]> th) hist site)
| m_cas_fast i m th hist site op :
    th i = MTry op -> mp_lock m = 0 ->
    mpsc_step (MConf m th hist site) (MConf (with_lock m 1) (<[i := MLocked op]> th) hist site)
| m_cas_contended i m th hist site op :
    th i = MTry op -> mp_lock m <> 0 ->
    mpsc_step (MConf m th hist site) (MConf m (<[i := MSpin op 0]> th) hist (site_bump site))
| m_spin_ok i m th hist site op n :
    th i = MSpin op n -> mp_lock m = 0 ->
    mpsc_step (MConf m th hist site) (MConf (with_lock m 1) (<[i := MLocked op]> th) hist site)
| m_spin_fail i m th hist site op n :
    th i = MSpin op n -> mp_lock m <> 0 ->
    mpsc_step (MConf m th hist site)
      (MConf m (<[i := MSpin op (if 32 <=? n + 1 then 0 else n + 1)]> th) hist site)
| m_load i m th hist site op :
    th i = MLocked op ->
    mpsc_step (MConf m th hist site)
      (MConf m (<[i := MLoaded op (mp_tail m) (mp_head m)]> th) hist site)
| m_push_full i m th hist site v t h :
    th i = MLoaded (QPush v) t h -> mpsc_capacity m <= wrapping_sub 64 t h ->
    mpsc_step (MConf m th hist site)
      (MConf m (<[i := MDone (QPush v) (RPush (Err v))]> th)
        (hist ++ [(QPush v, RPush (Err v))]) site)
| m_push_write i m th hist site v t h :
    th i = MLoaded (QPush v) t h -> wrapping_sub 64 t h < mpsc_capacity m ->
    mpsc_step (MConf m th hist site)
      (MConf (with_mbuf m (zset (mp_buf m) (Z.land t (mp_mask m)) (Some v)))
        (<[i := MWrote v t]> th) hist site)
| m_push_store i m th hist site v t :
    th i = MWrote v t ->
    mpsc_step (MConf m th hist site)
      (MConf (with_mtail m (wrapping_add 64 t 1)) (<[i := MDone (QPush v) (RPush (Ok tt))]> th)
        (hist ++ [(QPush v, RPush (Ok tt))]) site)
| m_pop_empty i m th hist site t h :
    th i = MLoaded QPop t h -> h = t ->
    mpsc_step (MConf m th hist site)
      (MConf m (<[i := MDone QPop (RPop None)]> th) (hist ++ [(QPop, RPop None)]) site)
| m_pop_take i m th hist site v t h :
    th i = MLoaded QPop t h -> h <> t -> mp_buf m !z (Z.land h (mp_mask m)) = Some (Some v) ->
    mpsc_step (MConf m th hist site)
      (MConf (with_mbuf m (zset (mp_buf m) (Z.land h (mp_mask m)) None))
        (<[i := MTook v h]> th) hist site)
| m_pop_store i m th hist site v h :
    th i = MTook v h ->
    mpsc_step (MConf m th hist site)
      (MConf (with_mhead m (wrapping_add 64 h 1)) (<[i := MDone QPop (RPop (Some v))]> th)
        (hist ++ [(QPop, RPop (Some v))]) site)
| m_release i m th hist site op res :
    th i = MDone op res ->
    mpsc_step (MConf m th hist site) (MConf (with_lock m 0) (<[i := MIdle]> th) hist site).

Inductive mpsc_reachable (A : alloc) (capacity : Z) : mpsc_conf -> Prop :=
| mreach_start m :
    mpsc_try_with_capacity A capacity = Ok m ->
    mpsc_reachable A capacity (MConf m (fun _ => MIdle) [] 0)
| mreach_step s s' :
    mpsc_reachable A capacity s -> mpsc_step s s' -> mpsc_reachable A capacity s'.

(** ** The invariant *)
Definition holding (p : mpsc_pc) : bool :=
  match p with MIdle | MTry _ | MSpin _ _ => false | _ => true end.

(** What the holder of the guard knows of the counters, given the queue [q]. *)
Definition holder_ok m (q : list T) (p : mpsc_pc) : Prop :=
  match p with
  | MWrote v t =>
      t = mp_tail m /\ zlen q < mpsc_capacity m /\
      ring_repr (mp_buf m) (mp_mask m) (mp_head m) (wrapping_add 64 t 1) (q ++ [v])
  | MTook v h =>
      h = mp_head m /\ exists q', q = v :: q' /\
      ring_repr (mp_buf m) (mp_mask m) (wrapping_add 64 h 1) (mp_tail m) q'
  | MLoaded op t h =>
      t = mp_tail m /\ h = mp_head m /\
      ring_repr (mp_buf m) (mp_mask m) (mp_head m) (mp_tail m) q
  | _ => ring_repr (mp_buf m) (mp_mask m) (mp_head m) (mp_tail m) q
  end.

Definition data_ok m (th : nat -> mpsc_pc) (q : list T) (owner : option nat) : Prop :=
  match owner with
  | None => mp_lock m = 0 /\ (forall j, holding (th j) = false) /\
            ring_repr (mp_buf m) (mp_mask m) (mp_head m) (mp_tail m) q
  | Some i => mp_lock m = 1 /\ holding (th i) = true /\
              (forall j, holding (th j) = true -> j = i) /\ holder_ok m q (th i)
  end.

Definition mconf_inv (s : mpsc_conf) : Prop :=
  let 'MConf m th hist site := s in
  exists q owner,
    fifo_run (mpsc_capacity m) [] hist.*1 = (q, hist.*2) /\ data_ok m th q owner.

Lemma fifo_run_snoc cap ops op : forall q q1 xs,
  fifo_run cap q ops = (q1, xs) ->
  fifo_run cap q (ops ++ [op]) =
    ((fifo_step cap q1 op).1, xs ++ [(fifo_step (T := T) cap q1 op).2]).
Proof.
  induction ops as [|o ops IH]; intros q q1 xs Hr; simpl in *.
  - simplify_eq. by destruct (fifo_step cap q1 op).
  - destruct (fifo_step cap q o) as [q' x].
    destruct (fifo_run cap q' ops) as [q2 xs'] eqn:E; simplify_eq.
    by rewrite (IH _ _ _ E).
Qed.

Lemma hist_snoc cap (hist : list (qop T * qres T)) q q' op res :
  fifo_run cap [] hist.*1 = (q, hist.*2) -> fifo_step cap q op = (q', res) ->
  fifo_run cap [] (hist ++ [(op, res)]).*1 = (q', (hist ++ [(op, res)]).*2).
Proof.
  intros Hr Hs. rewrite !fmap_app; simpl. rewrite (fifo_run_snoc _ _ _ _ _ _ Hr).
  by rewrite Hs.
Qed.

(** Thread [i] holds the guard: it is the owner. *)
Lemma owner_is i m th q owner :
  data_ok m th q owner -> holding (th i) = true ->
  owner = Some i /\ mp_lock m = 1 /\ (forall j, holding (th j) = true -> j = i) /\ holder_ok m q (th i).
Proof.
  destruct owner as [o|]; simpl.
  - intros (Hl & Ho & Hu & Hok) Hi. rewrite (Hu i Hi) in *. done.
  - intros (_ & Hn & _) Hi. rewrite Hn in Hi. done.
Qed.

Lemma holding_insert (th : nat -> mpsc_pc) i p j :
  holding ((<[i := p]> th) j) = true -> j = i \/ holding (th j) = true.
Proof. destruct (decide (i = j)) as [->|]; [by left|]. rewrite fn_lookup_insert_ne by done. by right. Qed.

(** The owner moves to another point of its critical section. *)
Lemma owner_step i m' th (q' : list T) p :
  (forall j, holding (th j) = true -> j = i) ->
  mp_lock m' = 1 -> holding p = true -> holder_ok m' q' p ->
  data_ok m' (<[i := p]> th) q' (Some i).
Proof.
  intros Hu Hl Hp Hok. simpl. rewrite fn_lookup_insert. split; [done|]. split; [done|].
  split; [|done]. intros j Hj. destruct (holding_insert _ _ _ _ Hj) as [|Hj']; [done|by apply Hu].
Qed.

(** A thread outside the critical section moves without entering it. *)
Lemma outside_step i m th q owner p :
  data_ok m th q owner -> holding (th i) = false -> holding p = false ->
  data_ok m (<[i := p]> th) q owner.
Proof.
  intros Hd Hi Hp. destruct owner as [o|]; simpl in *.
  - destruct Hd as (? & Ho & Hu & Hok). assert (i <> o) by congruence.
    rewrite fn_lookup_insert_ne by done. split; [done|]. split; [done|]. split; [|done].
    intros j Hj. destruct (decide (i = j)) as [->|]; [rewrite fn_lookup_insert in Hj; congruence|].
    rewrite fn_lookup_insert_ne in Hj by done. by apply Hu.
  - destruct Hd as (? & Hn & ?). split; [done|]. split; [|done]. intros j.
    destruct (decide (i = j)) as [->|]; [by rewrite fn_lookup_insert|].
    by rewrite fn_lookup_insert_ne by done.
Qed.

(** The compare-exchange succeeds: nobody held the guard. *)
Lemma acquire_step i m th q owner op :
  data_ok m th q owner -> mp_lock m = 0 ->
  data_ok (with_lock m 1) (<[i := MLocked op]> th) q (Some i).
Proof.
  intros Hd Hl. destruct owner as [o|]; simpl in Hd; [destruct Hd; congruence|].
  destruct Hd as (_ & Hn & Hr). apply owner_step; try done.
  intros j Hj. rewrite Hn in Hj. done.
Qed.

(** The commit of a call: its result enters the history. *)
Lemma commit_inv i m m' th hist site q q' op res :
  mpsc_capacity m' = mpsc_capacity m ->
  fifo_run (mpsc_capacity m) [] hist.*1 = (q, hist.*2) ->
  fifo_step (mpsc_capacity m) q op = (q', res) ->
  (forall j, holding (th j) = true -> j = i) -> mp_lock m' = 1 ->
  ring_repr (mp_buf m') (mp_mask m') (mp_head m') (mp_tail m') q' ->
  mconf_inv (MConf m' (<[i := MDone op res]> th) (hist ++ [(op, res)]) site).
Proof.
  intros Hc Hr Hs Hu Hl Hrep. exists q', (Some i). rewrite Hc. split.
  - by eapply hist_snoc.
  - by apply owner_step.
Qed.

Ltac take_owner :=
  match goal with
  | Hd : data_ok _ ?th _ _, Ht : ?th ?i = _ |- _ =>
      destruct (owner_is i _ _ _ _ Hd) as (-> & Hlock & Hu & Hok);
      [by rewrite Ht|]; rewrite Ht in Hok; simpl in Hok
  end.

Lemma load_results_inv i m th hist site q v t h :
  fifo_run (mpsc_capacity m) [] hist.*1 = (q, hist.*2) ->
  mp_lock m = 1 -> (forall j, holding (th j) = true -> j = i) ->
  holder_ok m q (MLoaded (QPush v) t h) -> mpsc_capacity m <= wrapping_sub 64 t h ->
  mconf_inv (MConf m (<[i := MDone (QPush v) (RPush (Err v))]> th)
    (hist ++ [(QPush v, RPush (Err v))]) site).
Proof.
  intros Hr Hl Hu (-> & -> & Hrep) Hfull. rewrite (repr_distance _ _ _ _ _ Hrep) in Hfull.
  eapply (commit_inv i m); try done; simpl.
  destruct (Z.ltb_spec (zlen q) (mpsc_capacity m)); [lia|done].
Qed.

Lemma mpsc_step_inv s s' : mpsc_step s s' -> mconf_inv s -> mconf_inv s'.
Proof.
  destruct 1 as [i m th ? ? ? Ht|i m th ? ? ? Ht Hl0|i m th ? ? ? Ht Hl0|i m th ? ? ? ? Ht Hl0
    |i m th ? ? ? ? Ht Hl0|i m th ? ? ? Ht|i m th ? ? v t h Ht Hf|i m th ? ? v t h Ht Hf
    |i m th ? ? v t Ht|i m th ? ? t h Ht He|i m th ? ? v t h Ht He Hv|i m th ? ? v h Ht
    |i m th ? ? ? ? Ht]; intros (q & owner & Hr & Hd).
  1, 3, 5: exists q, owner; split; [done|]; apply outside_step; [done|by rewrite Ht|done].
  1, 2: exists q, (Some i); split; [done|]; by eapply acquire_step.
  all: take_owner.
  - exists q, (Some i). split; [done|]. by apply owner_step.
  - by eapply load_results_inv.
  - destruct Hok as (-> & -> & Hrep). rewrite (repr_distance _ _ _ _ _ Hrep) in Hf.
    exists q, (Some i). split; [done|]. apply owner_step; try done.
    destruct (repr_push _ _ _ _ _ v Hrep Hf) as [_ Hrep']. done.
  - destruct Hok as (-> & Hlt & Hrep). eapply (commit_inv i m); try done; simpl.
    destruct (Z.ltb_spec (zlen q) (mpsc_capacity m)); [done|lia].
  - destruct Hok as (-> & -> & Hrep). eapply (commit_inv i m m); try done; simpl.
    pose proof (repr_empty _ _ _ _ _ Hrep) as Hq. rewrite He, Z.eqb_refl in Hq.
    destruct q; [done|]. rewrite zlen_cons in Hq. pose proof (zlen_nonneg q). lia.
  - destruct Hok as (-> & -> & Hrep).
    pose proof (repr_empty _ _ _ _ _ Hrep) as Hq.
    destruct q as [|x q]; [destruct (Z.eqb_spec (mp_head m) (mp_tail m)); [done|discriminate Hq]|].
    destruct (repr_pop _ _ _ _ _ _ Hrep) as [Hx Hrep']. rewrite Hx in Hv. simplify_eq.
    exists (v :: q), (Some i). split; [done|]. apply owner_step; try done. simpl. eauto.
  - destruct Hok as (-> & q' & -> & Hrep). by eapply (commit_inv i m).
  - exists q, None. split; [done|]. simpl. split; [done|]. split; [|done].
    intros j. destruct (decide (i = j)) as [->|]; [by rewrite fn_lookup_insert|].
    rewrite fn_lookup_insert_ne by done. destruct (holding (th j)) eqn:Hj; [|done].
    by rewrite (Hu j Hj) in *.
Qed.

Lemma mpsc_reachable_inv A capacity s :
  0 <= capacity -> mpsc_reachable A capacity s -> mconf_inv s.
Proof.
  intros Hc. induction 1 as [m Hm|]; [|eauto using mpsc_step_inv].
  unfold mpsc_try_with_capacity in Hm. simp.
  destruct (ring_repr_init (T := T) _ _ Hc H) as [Hrep _].
  exists [], None. split; [done|]. by split.
Qed.

(** C6: the spinlock makes the ring linearizable.  For any number of threads
    and any interleaving, at most one thread is inside the critical section,
    and the results of all calls are those of the sequential bounded FIFO
    queue run in the order the calls took effect. *)
Theorem mpsc_linearizable A capacity m th hist site :
  0 <= capacity -> mpsc_reachable A capacity (MConf m th hist site) ->
  (forall i j, holding (th i) = true -> holding (th j) = true -> i = j) /\
  (fifo_run (mpsc_capacity m) [] hist.*1).2 = hist.*2 /\
  (mp_lock m = 0 -> mpsc_repr m (fifo_run (mpsc_capacity m) [] hist.*1).1).
Proof.
  intros Hc Hr. destruct (mpsc_reachable_inv _ _ _ Hc Hr) as (q & owner & Hrun & Hd).
  rewrite Hrun; simpl. destruct owner as [o|]; simpl in Hd.
  - destruct Hd as (Hl & _ & Hu & _). split; [|split; [done|congruence]].
    intros i j Hi Hj. by rewrite (Hu i Hi), (Hu j Hj).
  - destruct Hd as (Hl & Hn & Hrep). split; [|split; [done|by split]].
    intros i j Hi. rewrite Hn in Hi. done.
Qed.
End Mpsc.

(** Thread 0 has pushed 5 and holds the guard; thread 1 is contending. *)
Lemma mpsc_linearizable_witness :
  exists m th, mpsc_reachable (T := Z) alloc_all 2
    (MConf m th [(QPush 5, RPush (Ok tt))] 1) /\
  (fifo_run (mpsc_capacity m) [] [QPush 5]).2 = [RPush (T := Z) (Ok tt)].
Proof.
  set (m0 := mkMpscRing (T := Z) 0 [None; None] 1 0 0).
  assert (Hr : exists m th, mpsc_reachable (T := Z) alloc_all 2
    (MConf m th [(QPush 5, RPush (Ok tt))] 1)).
  { pose proof (mreach_start alloc_all 2 m0 eq_refl) as H.
    eapply mreach_step in H; [|apply (m_call 0%nat _ _ _ _ (QPush 5)); reflexivity].
    eapply mreach_step in H; [|eapply (m_cas_fast 0%nat); reflexivity].
    eapply mreach_step in H; [|eapply (m_load 0%nat); reflexivity].
    eapply mreach_step in H; [|eapply (m_push_write 0%nat); reflexivity].
    eapply mreach_step in H; [|apply (m_call 1%nat _ _ _ _ QPop); reflexivity].
    eapply mreach_step in H; [|eapply (m_cas_contended 1%nat); [reflexivity|discriminate]].
    eapply mreach_step in H; [|eapply (m_push_store 0%nat); reflexivity].
    do 2 eexists. exact H. }
  destruct Hr as (m & th & Hr). exists m, th. split; [exact Hr|].
  assert (0 <= 2) as H2 by lia.
  destruct (mpsc_linearizable alloc_all 2 m th _ _ H2 Hr) as (_ & Hres & _). exact Hres.
Defined.
End Mpsc.
