(* ===== verification/Bus.v ===== *)
(** The message bus of [kernel/bus.rs]: addressing, the routing matrix, the
    synchronous outbox, the per-subscriber inboxes, and the abstract delivery
    relation that [publish] implements. *)

From Stdlib Require Import Sorting.Sorted.
From S2P Require Import Prelude Ring.

(** [SubscriberId] is a [u32]; it indexes [inboxes] and the routing matrix. *)
Definition SubscriberId : Type := Z.
Definition SubscriberId_INVALID : SubscriberId := U32_MAX.

Module BusError.
Inductive BusError :=
| OutboxFull
| InboxFull (to : SubscriberId)
| UnknownRecipient (to : SubscriberId)
| AllocationFailed
| InvalidTopology.
End BusError.
Abbreviation BusError := BusError.BusError.

(** [P] is the type-erased payload [Box<dyn Any + Send>]. *)
Record Envelope (P : Type) := mkEnvelope {
  env_from : SubscriberId;
  env_to : SubscriberId;
  env_topic : Z;
  env_seq : Z;
  env_payload : P
}.
Arguments mkEnvelope {P}. Arguments env_from {P}. Arguments env_to {P}.
Arguments env_topic {P}. Arguments env_seq {P}. Arguments env_payload {P}.

(** [downcast::<T>]: [cast] is [Box<dyn Any>::downcast] at [T]. *)
Definition envelope_downcast {P T} (cast : P -> option T) (e : Envelope P) : result (Envelope P) T :=
  match cast (env_payload e) with Some v => Ok v | None => Err e end.

Record MessageBus (P : Type) := mkMessageBus {
  outbox : MpscRing (Envelope P);
  inboxes : list (SpscRing (Envelope P));
  edges : list (list bool);
  bus_next_seq : Z;
  undeclared_sends : Z
}.
Arguments mkMessageBus {P}. Arguments outbox {P}. Arguments inboxes {P}.
Arguments edges {P}. Arguments bus_next_seq {P}. Arguments undeclared_sends {P}.

Definition DEFAULT_INBOX_CAPACITY : Z := 64.
Definition OUTBOX_CAPACITY : Z := 32.

Section Operations.
Context {P : Type}.
Implicit Types (b : MessageBus P) (e : Envelope P).

Definition with_outbox b o := mkMessageBus o (inboxes b) (edges b) (bus_next_seq b) (undeclared_sends b).
Definition with_inboxes b i := mkMessageBus (outbox b) i (edges b) (bus_next_seq b) (undeclared_sends b).
Definition with_edges b m := mkMessageBus (outbox b) (inboxes b) m (bus_next_seq b) (undeclared_sends b).
Definition with_next_seq b n := mkMessageBus (outbox b) (inboxes b) (edges b) n (undeclared_sends b).
Definition with_undeclared b n := mkMessageBus (outbox b) (inboxes b) (edges b) (bus_next_seq b) n.

Definition bus_try_new (A : alloc) : result BusError (MessageBus P) :=
  match mpsc_try_with_capacity A OUTBOX_CAPACITY with
  | Ok o => Ok (mkMessageBus o [] [] 0 0)
  | Err _ => Err BusError.AllocationFailed
  end.

Definition bus_try_add_subscriber (A : alloc) b : MessageBus P * result BusError SubscriberId :=
  if U32_MAX <? zlen (inboxes b) then (b, Err BusError.InvalidTopology)
  else
    let id := wrap 32 (zlen (inboxes b)) in
    if A 0%nat then
      match spsc_try_with_capacity (shift 1 A) DEFAULT_INBOX_CAPACITY with
      | Ok r => (with_inboxes b (inboxes b ++ [r]), Ok id)
      | Err _ => (b, Err BusError.AllocationFailed)
      end
    else (b, Err BusError.AllocationFailed).

(** One [edges[to][from] = true] per declared dependency; an index outside the
    matrix is rejected before the matrix is installed. *)
Fixpoint set_row (n : Z) (row : list bool) (froms : list Z) : result BusError (list bool) :=
  match froms with
  | [] => Ok row
  | from :: froms =>
      if n <=? from then Err BusError.InvalidTopology
      else set_row n (zset row from true) froms
  end.

Fixpoint set_rows (n : Z) (deps : list (list Z)) : result BusError (list (list bool)) :=
  match deps with
  | [] => Ok []
  | froms :: deps =>
      let? row := set_row n (replicate (Z.to_nat n) false) froms in
      let? rows := set_rows n deps in
      Ok (row :: rows)
  end.

Fixpoint rows_reserved (A : alloc) (rows : nat) : bool :=
  match rows with O => true | S k => A (S k) && rows_reserved A k end.

Definition bus_try_set_debug_edges (A : alloc) b (deps : list (list Z)) :
    MessageBus P * result BusError unit :=
  let n := zlen deps in
  if A 0%nat && rows_reserved A (length deps) then
    match set_rows n deps with
    | Ok m => (with_edges b m, Ok tt)
    | Err err => (b, Err err)
    end
  else (b, Err BusError.AllocationFailed).

Definition routing_ok b (from to : SubscriberId) : bool :=
  (from =? to) ||
  default false (row ← edges b !z to; row !z from).

(** [debug] is [cfg(debug_assertions)]; the result [None] is a panic (or
    undefined behaviour in a ring). *)
Definition bus_publish (debug : bool) b e : option (MessageBus P * result BusError unit) :=
  let ok := routing_ok b (env_from e) (env_to e) in
  let b := if ok then b else with_undeclared b (wrapping_add 64 (undeclared_sends b) 1) in
  if negb ok && debug then None
  else
    '(o, pushed) ← mpsc_push (outbox b) e;
    match pushed with
    | Err _ => Some (with_outbox b o, Err BusError.OutboxFull)
    | Ok _ =>
        '(o, popped) ← mpsc_pop o;
        let b := with_outbox b o in
        match popped with
        | None => Some (b, Err BusError.OutboxFull)
        | Some queued =>
            let to := env_to queued in
            match inboxes b !z to with
            | None => Some (b, Err (BusError.UnknownRecipient to))
            | Some mailbox =>
                '(r, sent) ← spsc_push mailbox queued;
                let b := with_inboxes b (zset (inboxes b) to r) in
                match sent with
                | Ok _ => Some (b, Ok tt)
                | Err env => Some (b, Err (BusError.InboxFull (env_to env)))
                end
            end
        end
    end.

(** [flush]: the fuel bounds the [while let]; a full or missing mailbox breaks
    the loop after the message has left the outbox. *)
Fixpoint bus_flush (fuel : nat) b : option (MessageBus P) :=
  match fuel with
  | O => None
  | S fuel =>
      '(o, popped) ← mpsc_pop (outbox b);
      let b := with_outbox b o in
      match popped with
      | None => Some b
      | Some queued =>
          let to := env_to queued in
          match inboxes b !z to with
          | None => Some b
          | Some mailbox =>
              '(r, sent) ← spsc_push mailbox queued;
              let b := with_inboxes b (zset (inboxes b) to r) in
              match sent with Ok _ => bus_flush fuel b | Err _ => Some b end
          end
      end
  end.

Definition bus_pop_inbox b (id : SubscriberId) : option (MessageBus P * option (Envelope P)) :=
  match inboxes b !z id with
  | None => Some (b, None)
  | Some r => '(r, x) ← spsc_pop r; Some (with_inboxes b (zset (inboxes b) id r), x)
  end.

Definition bus_inbox_len b (id : SubscriberId) : Z :=
  match inboxes b !z id with Some r => spsc_len r | None => 0 end.

Definition bus_take_seq b : MessageBus P * Z :=
  (with_next_seq b (wrapping_add 64 (bus_next_seq b) 1), bus_next_seq b).

Definition bus_envelope b (from to : SubscriberId) (topic : Z) (payload : P) :
    MessageBus P * Envelope P :=
  let '(b, seq) := bus_take_seq b in (b, mkEnvelope from to topic seq payload).

End Operations.

(** ** The bus as a family of bounded queues

    [bus_repr b qs]: the outbox is empty between calls, inbox [i] holds the
    queue [qs[i]] and has room for [DEFAULT_INBOX_CAPACITY] messages. *)
Record inbox_repr {P} (r : SpscRing (Envelope P)) (q : list (Envelope P)) : Prop := {
  ir_repr : spsc_repr r q;
  ir_cap : spsc_capacity r = DEFAULT_INBOX_CAPACITY
}.

Record bus_repr {P} (b : MessageBus P) (qs : list (list (Envelope P))) : Prop := {
  br_outbox : mpsc_repr (outbox b) [];
  br_outcap : mpsc_capacity (outbox b) = OUTBOX_CAPACITY;
  br_inboxes : Forall2 inbox_repr (inboxes b) qs;
  br_count : zlen (inboxes b) <= 2 ^ 32
}.

(** Delivery on the queues: the message is appended to the addressee's queue,
    or it is gone. *)
Definition deliver {P} (qs : list (list (Envelope P))) (e : Envelope P) :
    list (list (Envelope P)) * result BusError unit :=
  match qs !z (env_to e) with
  | None => (qs, Err (BusError.UnknownRecipient (env_to e)))
  | Some q =>
      if zlen q <? DEFAULT_INBOX_CAPACITY
      then (zset qs (env_to e) (q ++ [e]), Ok tt)
      else (qs, Err (BusError.InboxFull (env_to e)))
  end.

Section Lemmas.
Context {P : Type}.
Implicit Types (b : MessageBus P) (e : Envelope P) (qs : list (list (Envelope P))).

Lemma Forall2_zget {A B} (R : A -> B -> Prop) l k i :
  Forall2 R l k ->
  match l !z i, k !z i with
  | Some x, Some y => R x y
  | None, None => True
  | _, _ => False
  end.
Proof.
  intros H. unfold zget. destruct (i <? 0); [done|].
  destruct (l !! Z.to_nat i) eqn:El.
  - destruct (Forall2_lookup_l _ _ _ _ _ H El) as (y & -> & ?). done.
  - apply lookup_ge_None in El. rewrite (Forall2_length H) in El.
    by apply lookup_ge_None in El as ->.
Qed.

Lemma Forall2_zset {A B} (R : A -> B -> Prop) l k i x y :
  Forall2 R l k -> R x y -> Forall2 R (zset l i x) (zset k i y).
Proof. intros. unfold zset. destruct (i <? 0); [done|]. by apply Forall2_insert. Qed.

Lemma Forall2_zset_l {A B} (R : A -> B -> Prop) l k i x y :
  Forall2 R l k -> k !z i = Some y -> R x y -> Forall2 R (zset l i x) k.
Proof.
  intros Hl Hk Hxy. replace k with (zset k i y); [by apply Forall2_zset|].
  unfold zset, zget in *. destruct (i <? 0); [done|]. by apply list_insert_id.
Qed.

(** The outbox takes the message and gives the same message back. *)
Lemma outbox_passes b e :
  mpsc_repr (outbox b) [] -> mpsc_capacity (outbox b) = OUTBOX_CAPACITY ->
  exists o1 o2, mpsc_push (outbox b) e = Some (o1, Ok tt) /\
  mpsc_pop o1 = Some (o2, Some e) /\ mpsc_repr o2 [] /\ mpsc_capacity o2 = OUTBOX_CAPACITY.
Proof.
  intros Hr Hc.
  destruct (mpsc_push_room _ [] e Hr) as (o1 & H1 & Hr1 & Hc1).
  { simpl. by rewrite Hc. }
  destruct (mpsc_pop_cons o1 [] e Hr1) as (o2 & H2 & Hr2 & Hc2).
  exists o1, o2. simpl in *. split; [done|]. split; [done|]. split; [done|]. congruence.
Qed.

Lemma inbox_push r q e :
  inbox_repr r q ->
  exists r', spsc_push r e =
    Some (r', if zlen q <? DEFAULT_INBOX_CAPACITY then Ok tt else Err e) /\
  inbox_repr r' (if zlen q <? DEFAULT_INBOX_CAPACITY then q ++ [e] else q).
Proof.
  intros [Hr Hc]. destruct (Z.ltb_spec (zlen q) DEFAULT_INBOX_CAPACITY).
  - destruct (spsc_push_room r q e Hr) as (r' & Hp & Hr' & Hc').
    { simpl. by rewrite Hc. }
    exists r'. simpl in *. split; [done|]. split; [done|congruence].
  - pose proof (spsc_bound r q Hr) as Hle. simpl in Hle.
    exists r. split; [|done].
    apply (spsc_push_full r q e Hr). simpl. lia.
Qed.

Lemma publish_refines b qs e :
  bus_repr b qs ->
  exists b', bus_publish false b e = Some (b', (deliver qs e).2) /\
  bus_repr b' (deliver qs e).1 /\ bus_next_seq b' = bus_next_seq b /\ edges b' = edges b /\
  undeclared_sends b' =
    (if routing_ok b (env_from e) (env_to e) then undeclared_sends b
     else wrapping_add 64 (undeclared_sends b) 1).
Proof.
  intros [Ho Hc Hi Hn]. unfold bus_publish. rewrite andb_false_r.
  set (ok := routing_ok b _ _).
  set (b1 := if ok then b else _).
  assert (outbox b1 = outbox b /\ inboxes b1 = inboxes b /\ edges b1 = edges b /\
    bus_next_seq b1 = bus_next_seq b /\
    undeclared_sends b1 = if ok then undeclared_sends b else wrapping_add 64 (undeclared_sends b) 1)
    as (E1 & E2 & E3 & E4 & E5) by (unfold b1; destruct ok; done).
  rewrite E1. destruct (outbox_passes b e Ho Hc) as (o1 & o2 & -> & Hp & Ho2 & Hc2).
  simpl. rewrite Hp. simpl. rewrite E2. unfold deliver.
  pose proof (Forall2_zget _ _ _ (env_to e) Hi) as Hz.
  destruct (inboxes b !z (env_to e)) as [r|] eqn:Er; destruct (qs !z (env_to e)) as [q|] eqn:Eq; try done.
  - destruct (inbox_push r q e Hz) as (r' & -> & Hr'). simpl.
    destruct (zlen q <? DEFAULT_INBOX_CAPACITY); simpl; eexists; split_and!; try done;
      split; simpl; rewrite ?zlen_zset, ?E2; try done.
    + by apply Forall2_zset.
    + by eapply Forall2_zset_l.
  - eexists; split_and!; try done; split; simpl; rewrite ?E2; done.
Qed.

Lemma pop_inbox_refines b qs id :
  bus_repr b qs ->
  exists b', bus_pop_inbox b id = Some (b', match qs !z id with Some (e :: _) => Some e | _ => None end) /\
  bus_repr b' (match qs !z id with Some (_ :: q) => zset qs id q | _ => qs end) /\
  bus_next_seq b' = bus_next_seq b /\ edges b' = edges b.
Proof.
  intros [Ho Hc Hi Hn]. unfold bus_pop_inbox.
  pose proof (Forall2_zget _ _ _ id Hi) as Hz.
  destruct (inboxes b !z id) as [r|] eqn:Er; destruct (qs !z id) as [q|] eqn:Eq; try done.
  - destruct Hz as [Hz Hcap]. destruct q as [|e q].
    + rewrite (spsc_pop_nil r Hz). simpl.
      eexists; split_and!; try done. split; simpl; rewrite ?zlen_zset; try done.
      by eapply Forall2_zset_l.
    + destruct (spsc_pop_cons r q e Hz) as (r' & Hp & Hr' & Hc').
      simpl in *. rewrite Hp. simpl.
      eexists; split_and!; try done. split; simpl; rewrite ?zlen_zset; try done.
      apply Forall2_zset; [done|]. split; [done|congruence].
  - eexists; split_and!; done.
Qed.

Lemma inbox_len_refines b qs id q :
  bus_repr b qs -> qs !z id = Some q -> bus_inbox_len b id = zlen q.
Proof.
  intros [_ _ Hi _] Hq. unfold bus_inbox_len. pose proof (Forall2_zget _ _ _ id Hi) as Hz.
  rewrite Hq in Hz. destruct (inboxes b !z id); [|done]. apply repr_distance with (1 := ir_repr _ _ Hz).
Qed.
End Lemmas.

(** [publish] in a release build.  It never gets stuck, whatever the
    routing matrix says; it reports delivery exactly when the addressee exists
    and has room, and then the message is the last of that inbox.  On every
    error path no queue changes and the outbox is empty again: the message is
    in no queue of the bus, and the error value does not carry it. *)
Theorem publish_delivers_or_drops {P} (b : MessageBus P) qs e :
  bus_repr b qs ->
  exists b' res, bus_publish false b e = Some (b', res) /\
  bus_repr b' (deliver qs e).1 /\ res = (deliver qs e).2 /\
  (is_ok res = true <-> exists q, qs !z (env_to e) = Some q /\ zlen q < DEFAULT_INBOX_CAPACITY) /\
  (is_ok res = false -> bus_repr b' qs) /\
  undeclared_sends b' =
    (if routing_ok b (env_from e) (env_to e) then undeclared_sends b
     else wrapping_add 64 (undeclared_sends b) 1).
Proof.
  intros Hb. destruct (publish_refines b qs e Hb) as (b' & Hp & Hr & _ & _ & Hu).
  exists b', (deliver qs e).2. split; [done|]. split; [done|]. split; [done|].
  split; [|split; [|done]].
  - unfold deliver. destruct (qs !z (env_to e)) as [q|]; simpl; [|naive_solver].
    destruct (Z.ltb_spec (zlen q) DEFAULT_INBOX_CAPACITY); simpl; naive_solver lia.
  - intros He. unfold deliver in *. destruct (qs !z (env_to e)); [|done].
    by destruct (zlen _ <? _).
Qed.

(** The routing check.  A debug build panics exactly on a send without a
    declared edge (a send to oneself needs none); with an edge, both builds
    agree. *)
Theorem publish_debug_routing {P} (b : MessageBus P) qs e :
  bus_repr b qs ->
  (bus_publish true b e = None <-> routing_ok b (env_from e) (env_to e) = false) /\
  (routing_ok b (env_from e) (env_to e) = true -> bus_publish true b e = bus_publish false b e) /\
  (env_from e = env_to e -> routing_ok b (env_from e) (env_to e) = true).
Proof.
  intros Hb. destruct (publish_refines b qs e Hb) as (b' & Hp & _).
  unfold bus_publish in *. destruct (routing_ok b (env_from e) (env_to e)) eqn:Hok; simpl in *.
  - rewrite Hp. done.
  - split; [done|]. split; [done|]. intros He. unfold routing_ok in Hok.
    by rewrite He, Z.eqb_refl in Hok.
Qed.

(** ** Traces

    A send is [envelope] followed by [publish], as [KernelContext::publish]
    does; the log keeps what [pop_inbox] returned, with the inbox it came from. *)
Inductive bus_event (P : Type) :=
| EvAdd
| EvSend (from to : SubscriberId) (topic : Z) (payload : P)
| EvPop (id : SubscriberId)
| EvFlush.
Arguments EvAdd {P}. Arguments EvSend {P}. Arguments EvPop {P}. Arguments EvFlush {P}.

Section Order.
Context {P : Type}.
Implicit Types (b : MessageBus P) (log : list (SubscriberId * Envelope P)).

Definition bus_exec (A : alloc) b log (ev : bus_event P) :
    option (MessageBus P * list (SubscriberId * Envelope P)) :=
  match ev with
  | EvAdd => Some ((bus_try_add_subscriber A b).1, log)
  | EvSend from to topic payload =>
      let '(b, e) := bus_envelope b from to topic payload in
      '(b, _) ← bus_publish false b e; Some (b, log)
  | EvPop id =>
      '(b, x) ← bus_pop_inbox b id;
      Some (b, match x with Some e => log ++ [(id, e)] | None => log end)
  | EvFlush => b ← bus_flush (S (Z.to_nat OUTBOX_CAPACITY)) b; Some (b, log)
  end.

Fixpoint bus_run (A : alloc) b log (evs : list (bus_event P)) :=
  match evs with
  | [] => Some (b, log)
  | ev :: evs => '(b, log) ← bus_exec A b log ev; bus_run A b log evs
  end.

(** Sequence numbers an inbox has handed out, oldest first. *)
Definition received (id : SubscriberId) log : list Z :=
  map (fun p => env_seq p.2) (List.filter (fun p => p.1 =? id) log).

Record order_inv b (qs : list (list (Envelope P))) log (n : Z) : Prop := {
  oi_repr : bus_repr b qs;
  oi_next : bus_next_seq b = n;
  oi_sorted id q : qs !z id = Some q ->
    StronglySorted Z.lt (received id log ++ map env_seq q) /\
    Forall (fun s => s < n) (received id log ++ map env_seq q);
  oi_absent id : qs !z id = None -> received id log = []
}.

Lemma order_send b qs log n from to topic payload :
  order_inv b qs log n -> 0 <= n -> n + 1 < 2 ^ 64 ->
  exists b' qs', bus_exec alloc_all b log (EvSend from to topic payload) = Some (b', log) /\
  order_inv b' qs' log (n + 1).
Proof.
  intros [Hr Hn Hs Ha] H0 Hlt. simpl.
  set (e := mkEnvelope from to topic (bus_next_seq b) payload).
  set (b1 := with_next_seq b _).
  assert (bus_repr b1 qs) as Hb1 by (destruct Hr; by split).
  destruct (publish_refines b1 qs e Hb1) as (b' & -> & Hr' & Hn' & _).
  exists b', (deliver qs e).1. split; [done|].
  assert (bus_next_seq b' = n + 1) as Hnext.
  { rewrite Hn'. simpl. rewrite Hn. apply wrap_small. unfold is_u. lia. }
  split; try done.
  - intros id q. unfold deliver. simpl.
    assert (forall q, qs !z id = Some q ->
      StronglySorted Z.lt (received id log ++ map env_seq q) /\
      Forall (fun s => s < n + 1) (received id log ++ map env_seq q)) as Hold.
    { intros q' Hq. destruct (Hs id q' Hq) as [? Hf]. split; [done|]. eapply Forall_impl; [|exact Hf]. simpl; lia. }
    destruct (qs !z to) as [q0|] eqn:Eq; [|by apply Hold].
    destruct (zlen q0 <? DEFAULT_INBOX_CAPACITY); [|by apply Hold]. simpl.
    destruct (Z.eq_dec to id) as [->|]; [|rewrite zget_zset_ne by done; by apply Hold].
    rewrite zget_zset_eq by (by eapply zget_Some). intros [= <-].
    rewrite map_app, (assoc_L (++)). simpl. rewrite Hn. apply sorted_snoc; by apply Hs.
  - intros id. unfold deliver. simpl.
    destruct (qs !z to) as [q0|] eqn:Eq; [|by apply Ha].
    destruct (zlen q0 <? DEFAULT_INBOX_CAPACITY); [|by apply Ha]. simpl.
    rewrite zget_None, zlen_zset, <- zget_None. apply Ha.
Qed.

Lemma received_snoc id id' e log :
  received id (log ++ [(id', e)]) =
  if id' =? id then received id log ++ [env_seq e] else received id log.
Proof.
  unfold received. rewrite List.filter_app, map_app. simpl.
  destruct (id' =? id); simpl; [done|by rewrite app_nil_r].
Qed.

Lemma order_pop b qs log n id :
  order_inv b qs log n ->
  exists b' qs' log', bus_exec alloc_all b log (EvPop id) = Some (b', log') /\
  order_inv b' qs' log' n.
Proof.
  intros [Hr Hn Hs Ha]. simpl.
  destruct (pop_inbox_refines b qs id Hr) as (b' & -> & Hr' & Hn' & _). simpl.
  destruct (qs !z id) as [[|e q]|] eqn:Eq; do 3 eexists; (split; [done|]);
    (split; [done|congruence| |]); try done.
  - intros id' q'. rewrite received_snoc. destruct (Z.eqb_spec id id') as [<-|].
    + rewrite zget_zset_eq by (by eapply zget_Some). intros [= <-].
      destruct (Hs id _ Eq) as [? ?]. by rewrite <- (assoc_L (++)).
    + rewrite zget_zset_ne by done. apply Hs.
  - intros id'. rewrite received_snoc, zget_None, zlen_zset, <- zget_None.
    intros Hnone. destruct (Z.eqb_spec id id') as [<-|]; [congruence|by apply Ha].
Qed.

Lemma flush_idle b qs fuel : bus_repr b qs -> bus_flush (S fuel) b = Some b.
Proof.
  intros [Ho Hc _ _]. simpl. rewrite (mpsc_pop_nil _ Ho). simpl. by destruct b.
Qed.

Lemma inbox_new r A :
  spsc_try_with_capacity (T := Envelope P) A DEFAULT_INBOX_CAPACITY = Ok r -> inbox_repr r [].
Proof.
  intros Hr. destruct (spsc_new A DEFAULT_INBOX_CAPACITY r ltac:(done) Hr) as (Hrep & p & Hp & Hcap).
  split; [done|]. rewrite Hcap. vm_compute in Hp. by simplify_eq.
Qed.

Lemma add_repr A b qs b' id : bus_repr b qs -> bus_try_add_subscriber A b = (b', Ok id) ->
  bus_repr b' (qs ++ [[]]) /\ bus_next_seq b' = bus_next_seq b.
Proof.
  intros [Ho Hc Hi Hl]. unfold bus_try_add_subscriber.
  destruct (Z.ltb_spec U32_MAX (zlen (inboxes b))) as [|Hlen]; [done|]. destruct (A 0%nat); [|done].
  destruct (spsc_try_with_capacity (shift 1 A) DEFAULT_INBOX_CAPACITY) as [r|] eqn:Er; [|done].
  apply inbox_new in Er. intros [= <- <-]. split; [|done]. split; simpl; try done.
  - apply Forall2_app; [done|]. by constructor.
  - zsimp. unfold U32_MAX in Hlen. lia.
Qed.

Lemma order_add A b qs log n :
  order_inv b qs log n ->
  exists qs', order_inv (bus_try_add_subscriber A b).1 qs' log n.
Proof.
  intros Ho. destruct (bus_try_add_subscriber A b) as [b' [new|]] eqn:E.
  2: { revert E. unfold bus_try_add_subscriber. repeat case_match; intros [= <- _]; by eexists. }
  destruct Ho as [Hr Hn Hs Ha]. destruct (add_repr A b qs b' new Hr E) as [Hr' Hn'].
  exists (qs ++ [[]]). split; simpl; [done|congruence| |].
  - intros id q Hq. destruct (decide (id = zlen qs)) as [->|].
    + rewrite zget_snoc in Hq. simplify_eq.
      rewrite (Ha (zlen qs)) by (apply zget_None; lia). simpl. by repeat constructor.
    + pose proof (zget_Some _ _ _ Hq) as Hrange. zsimp.
      rewrite zget_app_l in Hq by lia. by apply Hs.
  - intros id Hnone. apply Ha. apply zget_None. apply zget_None in Hnone. zsimp. lia.
Qed.

Lemma order_run A evs : forall b qs log n,
  order_inv b qs log n -> 0 <= n -> n + zlen evs < 2 ^ 64 ->
  exists b' qs' log' n', bus_run A b log evs = Some (b', log') /\ order_inv b' qs' log' n'.
Proof.
  induction evs as [|ev evs IH]; intros b qs log n Ho H0 Hlt; [by do 4 eexists|].
  pose proof (zlen_nonneg evs). zsimp. simpl. destruct ev as [|from to topic payload|id|].
  - destruct (order_add A b qs log n Ho) as (qs' & Ho'). simpl.
    eapply IH; [exact Ho'|lia|lia].
  - destruct (order_send b qs log n from to topic payload Ho H0) as (b' & qs' & He & Ho'); [lia|].
    simpl in *. rewrite He. simpl. eapply IH; [exact Ho'|lia|lia].
  - destruct (order_pop b qs log n id Ho) as (b' & qs' & log' & He & Ho').
    simpl in *. rewrite He. simpl. eapply IH; [exact Ho'|lia|lia].
  - cbn [bus_exec]. rewrite (flush_idle b qs) by apply Ho. simpl. eapply IH; [exact Ho|lia|lia].
Qed.

Lemma order_start A b : bus_try_new (P := P) A = Ok b -> order_inv b [] [] 0.
Proof.
  unfold bus_try_new. destruct (mpsc_try_with_capacity A OUTBOX_CAPACITY) as [m|] eqn:Hm; [|done].
  intros [= <-]. destruct (mpsc_new A OUTBOX_CAPACITY m ltac:(done) Hm) as (Hrep & p & Hp & Hcap).
  vm_compute in Hp. simplify_eq.
  split; try done.
  intros id q Hq. apply zget_Some in Hq. zsimp. lia.
Qed.
End Order.

(** C15: in any trace of subscriptions, sends, drains and flushes on a new bus,
    no call gets stuck, and each subscriber receives messages with strictly
    increasing sequence numbers: no reordering, no duplicate (fewer than
    [2^64] events, so the sequence counter does not wrap). *)
Theorem bus_trace_ordered {P} (A : alloc) (b : MessageBus P) (evs : list (bus_event P)) :
  bus_try_new A = Ok b -> zlen evs < 2 ^ 64 ->
  exists b' log, bus_run A b [] evs = Some (b', log) /\
  forall id, StronglySorted Z.lt (received id log).
Proof.
  intros Hb Hlt.
  destruct (order_run A evs b [] [] 0 (order_start A b Hb)) as (b' & qs & log & n & Hrun & Ho); [lia|lia|].
  exists b', log. split; [done|]. intros id.
  destruct (qs !z id) as [q|] eqn:Eq.
  - destruct (oi_sorted _ _ _ _ Ho id q Eq) as [Hs _].
    revert Hs. generalize (received id log). induction l as [|x l IH]; simpl; [constructor|].
    intros Hs. inv Hs. constructor; [by apply IH|]. by apply Forall_app in H2 as [? _].
  - rewrite (oi_absent _ _ _ _ Ho id Eq). constructor.
Qed.

(** Two subscribers, one declared edge, two sends and two drains. *)
Definition demo_events : list (bus_event Z) :=
  [EvAdd; EvAdd; EvSend 0 1 7 10; EvSend 0 1 7 11; EvPop 1; EvPop 1; EvFlush].

Definition demo_bus : MessageBus Z :=
  match bus_try_new alloc_all with Ok b => b | Err _ => mkMessageBus (mkMpscRing 0 [] 0 0 0) [] [] 0 0 end.

Lemma bus_trace_ordered_witness :
  exists b' log, bus_run alloc_all demo_bus [] demo_events = Some (b', log) /\
  StronglySorted Z.lt (received 1 log).
Proof.
  assert (Hb : bus_try_new alloc_all = Ok demo_bus) by reflexivity.
  assert (Hl : zlen demo_events < 2 ^ 64) by reflexivity.
  destruct (bus_trace_ordered alloc_all demo_bus demo_events Hb Hl) as (b' & log & Hr & Hs).
  exists b', log. split; [exact Hr|exact (Hs 1)].
Defined.

Lemma demo_bus_repr : bus_repr (bus_try_add_subscriber alloc_all demo_bus).1 [[]].
Proof.
  pose proof (order_start (P := Z) alloc_all demo_bus eq_refl) as [Hr _ _ _].
  by destruct (add_repr alloc_all demo_bus [] _ 0 Hr eq_refl).
Qed.

Lemma publish_delivers_or_drops_witness :
  exists b' res,
    bus_publish false (bus_try_add_subscriber alloc_all demo_bus).1 (mkEnvelope 0 9 0 0 5) =
      Some (b', res) /\
    res = Err (BusError.UnknownRecipient 9) /\ undeclared_sends b' = 1.
Proof.
  destruct (publish_delivers_or_drops _ _ (mkEnvelope 0 9 0 0 5) demo_bus_repr)
    as (b' & res & Hp & _ & Hres & _ & _ & Hu).
  exists b', res. split; [exact Hp|]. split; [exact Hres|exact Hu].
Defined.

Lemma publish_debug_routing_witness :
  bus_publish true (bus_try_add_subscriber alloc_all demo_bus).1 (mkEnvelope 0 9 0 0 5) = None.
Proof.
  apply (publish_debug_routing _ _ (mkEnvelope 0 9 0 0 5) demo_bus_repr). reflexivity.
Defined.
