(* ===== verification/Arena.v ===== *)
(** The bump allocators: [kernel/mem/arena.rs] and the heap of
    [kernel_nostd/lib.rs].  The block is modelled by its address and by a byte
    memory, so that what [put] wrote can be read back. *)

From Stdlib Require Import Sorting.Sorted.
From stdpp Require Import gmap.
From S2P Require Import Prelude.

(** ** The arena *)
Definition DEFAULT_ALIGN : Z := 16.
Definition ISIZE_MAX : Z := 9223372036854775807.

Record BumpArena := mkBumpArena {
  arena_base : Z;
  arena_capacity : Z;
  arena_used : Z;
  arena_peak : Z
}.

(** [Layout::from_size_align(capacity, DEFAULT_ALIGN)]: the size rounded up to
    the alignment must not exceed [isize::MAX]. *)
Definition arena_layout_ok (capacity : Z) : bool := capacity <=? ISIZE_MAX - (DEFAULT_ALIGN - 1).

(** [sys size] is the address [std::alloc::alloc] returns, [None] for null. *)
Definition arena_try_new (sys : Z -> option Z) (capacity : Z) : option BumpArena :=
  let capacity := Z.max capacity 1 in
  if arena_layout_ok capacity then
    base ← sys capacity; Some (mkBumpArena base capacity 0 0)
  else None.

Definition arena_align_up (offset align : Z) : Z :=
  Z.land (saturating_add 64 offset (saturating_sub align 1)) (lnot_w 64 (saturating_sub align 1)).

Definition arena_reset (a : BumpArena) : BumpArena :=
  mkBumpArena (arena_base a) (arena_capacity a) 0 (arena_peak a).

Definition arena_alloc_bytes (a : BumpArena) (size align : Z) : BumpArena * option Z :=
  if (align =? 0) || negb (is_power_of_two align) then (a, None)
  else
    let offset := arena_align_up (arena_used a) align in
    match checked_add 64 offset size with
    | None => (a, None)
    | Some end_ =>
        if arena_capacity a <? end_ then (a, None)
        else
          (mkBumpArena (arena_base a) (arena_capacity a) end_ (Z.max (arena_peak a) end_),
           Some (arena_base a + offset))
    end.

(** Byte memory. *)
Abbreviation memory := (gmap Z Z).

Fixpoint write_bytes (m : memory) (addr : Z) (bs : list Z) : memory :=
  match bs with
  | [] => m
  | b :: bs => <[addr := b]> (write_bytes m (addr + 1) bs)
  end.

Fixpoint read_bytes (m : memory) (addr : Z) (n : nat) : option (list Z) :=
  match n with
  | O => Some []
  | S n => b ← m !! addr; bs ← read_bytes m (addr + 1) n; Some (b :: bs)
  end.

(** [put] of a value with representation [bs] and alignment [align]. *)
Definition arena_put (a : BumpArena) (m : memory) (bs : list Z) (align : Z) :
    BumpArena * memory * option Z :=
  match arena_alloc_bytes a (zlen bs) align with
  | (a, None) => (a, m, None)
  | (a, Some p) => (a, write_bytes m p bs, Some p)
  end.

Definition arena_slot (a : BumpArena) (size align : Z) : BumpArena * option Z :=
  arena_alloc_bytes a size align.

(** What [drop] hands to [dealloc]; [None] is the [unwrap] panic. *)
Definition arena_drop (a : BumpArena) : option (Z * Z) :=
  if arena_layout_ok (arena_capacity a) then Some (arena_base a, arena_capacity a) else None.

(** ** Memory lemmas *)
Lemma write_bytes_other bs m p q : q < p \/ p + zlen bs <= q -> write_bytes m p bs !! q = m !! q.
Proof.
  revert p. induction bs as [|b bs IH]; intros p H; simpl; [done|].
  pose proof (zlen_nonneg bs). zsimp. rewrite lookup_insert_ne by lia. apply IH. lia.
Qed.

Lemma read_bytes_ext m m' p n :
  (forall q, p <= q < p + Z.of_nat n -> m !! q = m' !! q) -> read_bytes m p n = read_bytes m' p n.
Proof.
  revert p. induction n as [|n IH]; intros p H; simpl; [done|].
  rewrite (H p) by lia. rewrite (IH (p + 1)); [done|]. intros q Hq. apply H. lia.
Qed.

Lemma read_write_same bs m p : read_bytes (write_bytes m p bs) p (length bs) = Some bs.
Proof.
  revert p. induction bs as [|b bs IH]; intros p; simpl; [done|].
  rewrite lookup_insert_eq. simpl.
  rewrite (read_bytes_ext _ (write_bytes m (p + 1) bs)).
  - by rewrite IH.
  - intros q Hq. by rewrite lookup_insert_ne by lia.
Qed.

Lemma read_write_other bs m p q n :
  q + Z.of_nat n <= p \/ p + zlen bs <= q -> read_bytes (write_bytes m p bs) q n = read_bytes m q n.
Proof. intros H. apply read_bytes_ext. intros r Hr. apply write_bytes_other. lia. Qed.

(** ** The cursor *)
Record arena_wf (a : BumpArena) : Prop := {
  aw_used : 0 <= arena_used a <= arena_peak a;
  aw_peak : arena_peak a <= arena_capacity a;
  aw_cap : 1 <= arena_capacity a <= ISIZE_MAX - (DEFAULT_ALIGN - 1)
}.

Lemma round_up_spec x k :
  0 <= x -> 0 <= k ->
  let r := (x + (2 ^ k - 1)) - (x + (2 ^ k - 1)) mod 2 ^ k in
  x <= r < x + 2 ^ k /\ r mod 2 ^ k = 0.
Proof.
  intros Hx Hk r. assert (0 < 2 ^ k) by (apply Z.pow_pos_nonneg; lia).
  pose proof (Z.mod_pos_bound (x + (2 ^ k - 1)) (2 ^ k)). split; [lia|].
  unfold r. rewrite Zminus_mod_idemp_r. by rewrite Z.sub_diag, Zmod_0_l.
Qed.

(** Below [isize::MAX] the saturating addition of [align_up] does not
    saturate. *)
Lemma align_up_spec used k :
  0 <= used <= ISIZE_MAX -> 0 <= k < 64 ->
  used <= arena_align_up used (2 ^ k) < used + 2 ^ k /\ arena_align_up used (2 ^ k) mod 2 ^ k = 0.
Proof.
  intros Hu Hk. unfold arena_align_up, saturating_sub, saturating_add, umax.
  assert (0 < 2 ^ k) as Hp by (apply Z.pow_pos_nonneg; lia).
  assert (2 ^ k <= 2 ^ 63) by (apply Z.pow_le_mono_r; lia).
  replace (Z.max 0 (2 ^ k - 1)) with (2 ^ k - 1) by lia.
  unfold ISIZE_MAX in Hu.
  rewrite Z.min_l by lia. rewrite land_lnot_align by (unfold is_u; lia).
  apply round_up_spec; lia.
Qed.

Lemma alloc_bytes_cases a size align :
  arena_wf a -> 0 <= size -> is_u 64 align ->
  let '(a', r) := arena_alloc_bytes a size align in
  arena_wf a' /\ arena_base a' = arena_base a /\ arena_capacity a' = arena_capacity a /\
  match r with
  | None => a' = a
  | Some p =>
      is_power_of_two align = true /\
      arena_base a + arena_used a <= p /\ p + size = arena_base a + arena_used a' /\
      p < arena_base a + arena_used a + align /\
      p mod align = arena_base a mod align
  end.
Proof.
  intros Hwf Hs Ha. pose proof Hwf as [Hu Hp Hc]. unfold arena_alloc_bytes.
  destruct (Z.eqb_spec align 0); simpl; [done|].
  destruct (is_power_of_two align) eqn:Hpow; simpl; [|done].
  destruct (is_power_of_two_spec _ Hpow) as (k & Hk & ->).
  assert (k < 64) by (apply (Z.pow_lt_mono_r_iff 2); unfold is_u in Ha; lia).
  destruct (align_up_spec (arena_used a) k) as [Hr Hm]; [unfold DEFAULT_ALIGN in *; lia|lia|].
  destruct (checked_add _ _ _) as [e|] eqn:He; [|done].
  apply checked_add_Some in He as [-> He].
  destruct (Z.ltb_spec (arena_capacity a) (arena_align_up (arena_used a) (2 ^ k) + size)); [done|].
  split; [split; simpl; lia|]. simpl. split; [done|]. split; [done|]. split; [done|].
  split; [lia|]. split; [lia|]. split; [lia|].
  assert (2 ^ k <> 0) by (apply Z.pow_nonzero; lia).
  rewrite Z.add_mod, Hm, Z.add_0_r, Z.mod_mod by lia. done.
Qed.

(** ** Blocks of one frame

    A block is what one successful call returned since the last [reset]. *)
Record block := mkBlock {
  blk_addr : Z;
  blk_size : Z;
  blk_align : Z;
  blk_data : option (list Z)
}.

Inductive arena_event :=
| EvPut (bs : list Z) (align : Z)
| EvSlot (size align : Z)
| EvReset.

Definition arena_event_ok (ev : arena_event) : Prop :=
  match ev with
  | EvPut _ align => is_u 64 align
  | EvSlot size align => 0 <= size /\ is_u 64 align
  | EvReset => True
  end.

Definition arena_exec (s : BumpArena * memory * list block) (ev : arena_event) :
    BumpArena * memory * list block :=
  let '(a, m, live) := s in
  match ev with
  | EvPut bs align =>
      let '(a, m, p) := arena_put a m bs align in
      (a, m, match p with Some p => mkBlock p (zlen bs) align (Some bs) :: live | None => live end)
  | EvSlot size align =>
      let '(a, p) := arena_slot a size align in
      (a, m, match p with Some p => mkBlock p size align None :: live | None => live end)
  | EvReset => (arena_reset a, m, [])
  end.

Definition arena_run s evs := foldl arena_exec s evs.

Definition blocks_disjoint (b c : block) : Prop :=
  blk_addr b + blk_size b <= blk_addr c \/ blk_addr c + blk_size c <= blk_addr b.

(** The contract of one block: inside the arena, as aligned as the base
    address allows, and still holding what was written. *)
Record block_ok (a : BumpArena) (m : memory) (b : block) : Prop := {
  bo_size : 0 <= blk_size b;
  bo_lo : arena_base a <= blk_addr b;
  bo_hi : blk_addr b + blk_size b <= arena_base a + arena_used a;
  bo_align : blk_addr b mod blk_align b = arena_base a mod blk_align b;
  bo_data bs : blk_data b = Some bs ->
    zlen bs = blk_size b /\ read_bytes m (blk_addr b) (length bs) = Some bs
}.

Record frame_ok (s : BumpArena * memory * list block) : Prop := {
  fo_wf : arena_wf s.1.1;
  fo_blocks : Forall (block_ok s.1.1 s.1.2) s.2;
  fo_disjoint : ForallOrdPairs blocks_disjoint s.2
}.

Lemma block_ok_grow a a' m b :
  arena_base a' = arena_base a -> arena_used a <= arena_used a' -> block_ok a m b -> block_ok a' m b.
Proof. intros Hb Hu []. split; rewrite ?Hb; try done; lia. Qed.

Lemma block_ok_write a m b p bs :
  arena_base a + arena_used a <= p -> block_ok a m b -> block_ok a (write_bytes m p bs) b.
Proof.
  intros Hp [Hs Hlo Hhi Hal Hd]. split; try done. intros bs' Hbs.
  destruct (Hd bs' Hbs) as [Hl Hr]. split; [done|].
  rewrite read_write_other; [done|]. unfold zlen in *. lia.
Qed.

Lemma frame_exec s ev : frame_ok s -> arena_event_ok ev -> frame_ok (arena_exec s ev).
Proof.
  destruct s as [[a m] live]. intros [Hw Hb Hd] Hev. simpl in *.
  pose proof (aw_used _ Hw) as Hu0.
  assert (forall a' m' b, arena_wf a' -> arena_base a' = arena_base a ->
    arena_base a + arena_used a <= blk_addr b -> arena_used a <= arena_used a' ->
    block_ok a' m' b -> Forall (block_ok a m') live -> frame_ok (a', m', b :: live)) as Hpush.
  { intros a' m' b Hw' Hba Hlo Hu Hbo Hl. split; simpl; [done| |].
    - constructor; [done|]. eapply Forall_impl; [|exact Hl]. simpl. eauto using block_ok_grow.
    - constructor; [|done]. eapply Forall_impl; [|exact Hl]. intros c []. unfold blocks_disjoint. lia. }
  destruct ev as [bs align|size align|]; simpl in *.
  - unfold arena_put. pose proof (alloc_bytes_cases a (zlen bs) align Hw (zlen_nonneg _) Hev) as Hc.
    destruct (arena_alloc_bytes a (zlen bs) align) as [a' [p|]]; destruct Hc as (Hw' & Hba & _ & Hc); simpl.
    2: { subst a'. by split. }
    destruct Hc as (_ & Hlo & He & _ & Hal). pose proof (zlen_nonneg bs).
    apply Hpush; simpl; try done; try lia.
    + split; simpl; rewrite ?Hba; try done; try lia.
      intros ? [= <-]. split; [done|]. apply read_write_same.
    + eapply Forall_impl; [|exact Hb]. simpl. eauto using block_ok_write.
  - destruct Hev as [Hs0 Hal0]. unfold arena_slot.
    pose proof (alloc_bytes_cases a size align Hw Hs0 Hal0) as Hc.
    destruct (arena_alloc_bytes a size align) as [a' [p|]]; destruct Hc as (Hw' & Hba & _ & Hc); simpl.
    2: { subst a'. by split. }
    destruct Hc as (_ & Hlo & He & _ & Hal).
    apply Hpush; simpl; try done; try lia. split; simpl; rewrite ?Hba; try done; lia.
  - destruct Hw. split; simpl; try by constructor. split; simpl; lia.
Qed.

Lemma frame_run evs : forall s, frame_ok s -> Forall arena_event_ok evs -> frame_ok (arena_run s evs).
Proof.
  induction evs as [|ev evs IH]; intros s Hs Hev; [done|]. inv Hev. apply IH; [|done]. by apply frame_exec.
Qed.

Lemma frame_new sys capacity a m :
  is_u 64 capacity -> arena_try_new sys capacity = Some a -> frame_ok (a, m, []).
Proof.
  unfold arena_try_new, arena_layout_ok. intros Hc. case_match eqn:Hl; [|done].
  destruct (sys _); [|done]. intros [= <-]. zbool.
  split; simpl; try by constructor. split; simpl; lia.
Qed.

(** C17: whatever is allocated between two resets of a new arena, the blocks
    handed out since the last reset lie inside the arena, are pairwise
    disjoint, still hold the bytes [put] wrote, and the cursor, the peak and
    the capacity stay ordered.  The returned address is congruent to the base
    modulo the requested alignment, so it is aligned exactly when the base is. *)
Theorem arena_frame_blocks sys capacity a m evs :
  is_u 64 capacity -> arena_try_new sys capacity = Some a -> Forall arena_event_ok evs ->
  let '(a', m', live) := arena_run (a, m, []) evs in
  0 <= arena_used a' <= arena_peak a' /\ arena_peak a' <= arena_capacity a' /\
  Forall (block_ok a' m') live /\ ForallOrdPairs blocks_disjoint live.
Proof.
  intros Hc Ha Hev. pose proof (frame_run evs _ (frame_new sys capacity a m Hc Ha) Hev) as Hf.
  destruct (arena_run (a, m, []) evs) as [[a' m'] live]. destruct Hf as [[] Hb Hd]. done.
Qed.

Definition arena_demo : BumpArena := mkBumpArena 4112 64 0 0.
Definition arena_demo_events : list arena_event := [EvPut [1; 2] 2; EvSlot 8 32; EvReset; EvPut [7] 1].

Lemma arena_frame_blocks_witness :
  let '(a', m', live) := arena_run (arena_demo, ∅, []) arena_demo_events in
  (0 <= arena_used a' <= arena_peak a' /\ arena_peak a' <= arena_capacity a' /\
   Forall (block_ok a' m') live /\ ForallOrdPairs blocks_disjoint live) /\ arena_peak a' = 40.
Proof.
  split; [|vm_compute; reflexivity].
  apply (arena_frame_blocks (fun _ => Some 4112) 64 arena_demo ∅ arena_demo_events).
  - unfold is_u. lia.
  - reflexivity.
  - repeat constructor; unfold is_u; simpl; lia.
Defined.

(** The request for 32-byte alignment returned an address that is not a
    multiple of 32: the block itself is only 16-aligned. *)
Example arena_overaligned_request :
  (arena_alloc_bytes arena_demo 8 32).2 = Some 4112 /\ 4112 mod DEFAULT_ALIGN = 0 /\ 4112 mod 32 = 16.
Proof. vm_compute. done. Qed.

(** ** The freestanding heap of [kernel_nostd] *)
Definition HEAP_SIZE : Z := 65536.
Definition HEAP_ALIGNMENT : Z := 4096.

(** The closure given to [fetch_update]. *)
Definition nostd_bump (align size cursor : Z) : option Z :=
  c ← checked_add 64 cursor (saturating_sub align 1);
  let start := Z.land c (lnot_w 64 (align - 1)) in
  end_ ← checked_add 64 start size;
  if end_ <=? HEAP_SIZE then Some end_ else None.

(** [alloc] on the heap at address [heap]: the new cursor and the pointer.
    [fetch_update] returns the cursor before the update. *)
Definition nostd_alloc (heap cursor size align : Z) : Z * option Z :=
  let align := Z.max align 1 in
  if (size =? 0) || (HEAP_ALIGNMENT <? align) then (cursor, None)
  else
    match nostd_bump align size cursor with
    | None => (cursor, None)
    | Some next => (next, Some (heap + cursor))
    end.

Definition nostd_try_alloc (heap cursor size align : Z) : Z * option Z :=
  if (size =? 0) || (HEAP_ALIGNMENT <? align) then (cursor, None)
  else if is_power_of_two align && (size <=? ISIZE_MAX - (align - 1)) then
    nostd_alloc heap cursor size align
  else (cursor, None).

Definition heap_remaining (cursor : Z) : Z := saturating_sub HEAP_SIZE cursor.
Definition heap_used (cursor : Z) : Z := Z.min cursor HEAP_SIZE.

(** A refused request leaves the cursor alone. *)
Ltac none := simpl; split; [lia|done].

(** The freestanding allocator.  A successful request returns
    [heap + cursor] and moves the cursor past the rounded-up start plus the
    size, so blocks are disjoint and inside the heap; but the address it
    returns is aligned only when the old cursor already was. *)
Theorem nostd_alloc_returns_old_cursor heap cursor size align :
  heap mod HEAP_ALIGNMENT = 0 -> 0 <= cursor <= HEAP_SIZE -> is_u 64 size -> is_u 64 align ->
  let '(cursor', r) := nostd_try_alloc heap cursor size align in
  cursor <= cursor' <= HEAP_SIZE /\
  (r = None -> cursor' = cursor) /\
  (forall p, r = Some p ->
    p = heap + cursor /\ p + size <= heap + cursor' /\ cursor' mod align = size mod align /\
    (p mod align = 0 <-> cursor mod align = 0)).
Proof.
  intros Hheap Hc Hs Ha. unfold nostd_try_alloc, nostd_alloc.
  destruct (Z.eqb_spec size 0); simpl; [none|].
  destruct (Z.ltb_spec HEAP_ALIGNMENT align); simpl; [none|].
  destruct (is_power_of_two align) eqn:Hp; simpl; [|none].
  destruct (Z.leb_spec size (ISIZE_MAX - (align - 1))); [|none].
  destruct (is_power_of_two_spec _ Hp) as (k & Hk & ->).
  assert (0 < 2 ^ k) by (apply Z.pow_pos_nonneg; lia).
  rewrite Z.max_l by lia.
  assert (k <= 12) as Hk12 by (apply (Z.pow_le_mono_r_iff 2); unfold HEAP_ALIGNMENT in *; lia).
  replace (HEAP_ALIGNMENT <? 2 ^ k) with false by (symmetry; by apply Z.ltb_ge).
  replace (size =? 0) with false by (symmetry; by apply Z.eqb_neq). simpl. unfold nostd_bump, saturating_sub.
  replace (Z.max 0 (2 ^ k - 1)) with (2 ^ k - 1) by lia.
  destruct (checked_add 64 cursor (2 ^ k - 1)) as [c|] eqn:Hc1; simpl; [|none].
  apply checked_add_Some in Hc1 as [-> Hc1].
  rewrite land_lnot_align by (unfold is_u, umax in *; lia).
  destruct (round_up_spec cursor k) as [Hr Hm]; [lia|lia|].
  set (start := cursor + (2 ^ k - 1) - (cursor + (2 ^ k - 1)) mod 2 ^ k) in *. simpl.
  destruct (checked_add 64 start size) as [e|] eqn:He; simpl; [|none].
  apply checked_add_Some in He as [-> He].
  destruct (Z.leb_spec (start + size) HEAP_SIZE); [|none].
  unfold is_u in *. split; [lia|]. split; [done|]. intros p [= <-].
  split; [done|]. split; [lia|]. split.
  - by rewrite Z.add_mod, Hm, Z.add_0_l, Z.mod_mod by lia.
  - assert (heap mod 2 ^ k = 0) as Hh.
    { apply Z.mod_divide; [lia|]. apply Z.mod_divide in Hheap; [|done].
      eapply Z.divide_trans; [|exact Hheap]. exists (2 ^ (12 - k)).
      rewrite <- Z.pow_add_r by lia. by replace (12 - k + k) with 12 by lia. }
    by rewrite Z.add_mod, Hh, Z.add_0_l, Z.mod_mod by lia.
Qed.

Lemma nostd_alloc_returns_old_cursor_witness :
  nostd_try_alloc 4096 1 8 8 = (16, Some 4097) /\ ~ 4097 mod 8 = 0.
Proof.
  split; [reflexivity|].
  destruct (nostd_alloc_returns_old_cursor 4096 1 8 8) as (_ & _ & H); try (unfold is_u, HEAP_SIZE; lia); [reflexivity|].
  destruct (H 4097 eq_refl) as (_ & _ & _ & Hal). rewrite Hal. discriminate.
Defined.
