(* ===== verification/Pool.v ===== *)
(** The object pool of [kernel/mem/pool.rs]: a free list of slot indices and a
    generation per slot.  An uninitialised slot is [None]; reading or dropping
    one is undefined behaviour, the outer [None] of an operation. *)

From stdpp Require Import sets.
From S2P Require Import Prelude.

Module PoolError.
Inductive PoolError :=
| Exhausted
| InvalidSlot (idx : Z)
| InvalidCapacity
| AllocationFailed.
End PoolError.
Abbreviation PoolError := PoolError.PoolError.

Record PoolHandle := mkPoolHandle {
  ph_idx : Z;
  ph_generation : Z
}.

#[global] Instance PoolHandle_eq_dec : EqDecision PoolHandle.
Proof. solve_decision. Defined.

Definition PoolHandle_INVALID : PoolHandle := mkPoolHandle U32_MAX U32_MAX.
Definition pool_handle_is_valid (h : PoolHandle) : bool := negb (bool_decide (h = PoolHandle_INVALID)).

Record Pool (T : Type) := mkPool {
  pool_slots : list (option T);
  pool_capacity : Z;
  pool_free_list : list Z;
  pool_generations : list Z
}.
Arguments mkPool {T}. Arguments pool_slots {T}. Arguments pool_capacity {T}.
Arguments pool_free_list {T}. Arguments pool_generations {T}.

Section Operations.
Context {T : Type}.
Implicit Types (p : Pool T) (h : PoolHandle).

(** [layout_ok] is [Layout::array::<T>(capacity)] succeeding; the three
    allocations are the block, the free list and the generations. *)
Definition pool_try_with_capacity (layout_ok : Z -> bool) (A : alloc) (capacity : Z) :
    result PoolError (Pool T) :=
  let capacity := Z.max capacity 1 in
  if negb (layout_ok capacity) then Err PoolError.InvalidCapacity
  else if negb (A 0%nat) then Err PoolError.AllocationFailed
  else if negb (A 1%nat) then Err PoolError.AllocationFailed
  else if negb (A 2%nat) then Err PoolError.AllocationFailed
  else Ok (mkPool (replicate (Z.to_nat capacity) None) capacity
             (map (wrap 32) (seqZ 0 capacity)) (replicate (Z.to_nat capacity) 0)).

Definition pool_available p : Z := zlen (pool_free_list p).

Definition pool_alloc p (value : T) : option (Pool T * result PoolError PoolHandle) :=
  match vec_pop (pool_free_list p) with
  | None => Some (p, Err PoolError.Exhausted)
  | Some (slot, free) =>
      generation ← pool_generations p !z slot;
      Some (mkPool (zset (pool_slots p) slot (Some value)) (pool_capacity p) free (pool_generations p),
            Ok (mkPoolHandle (wrap 32 slot) generation))
  end.

Definition pool_free p h : option (Pool T * result PoolError unit) :=
  let slot := ph_idx h in
  if pool_capacity p <=? slot then Some (p, Err (PoolError.InvalidSlot (ph_idx h)))
  else
    generation ← pool_generations p !z slot;
    if negb (generation =? ph_generation h) then Some (p, Err (PoolError.InvalidSlot (ph_idx h)))
    else
      match pool_slots p !z slot with
      | Some (Some _) =>
          Some (mkPool (zset (pool_slots p) slot None) (pool_capacity p)
                  (pool_free_list p ++ [ph_idx h])
                  (zset (pool_generations p) slot (wrapping_add 32 generation 1)),
                Ok tt)
      | _ => None
      end.

Definition pool_get p h : option (option T) :=
  let slot := ph_idx h in
  if pool_capacity p <=? slot then Some None
  else
    generation ← pool_generations p !z slot;
    if negb (generation =? ph_generation h) then Some None
    else match pool_slots p !z slot with Some (Some v) => Some (Some v) | _ => None end.

(** [get_mut] followed by a write of [f] applied to the object. *)
Definition pool_get_mut p h (f : T -> T) : option (Pool T * bool) :=
  let slot := ph_idx h in
  if pool_capacity p <=? slot then Some (p, false)
  else
    generation ← pool_generations p !z slot;
    if negb (generation =? ph_generation h) then Some (p, false)
    else
      match pool_slots p !z slot with
      | Some (Some v) =>
          Some (mkPool (zset (pool_slots p) slot (Some (f v))) (pool_capacity p)
                  (pool_free_list p) (pool_generations p), true)
      | _ => None
      end.

Definition on_free_list p (i : Z) : bool := bool_decide (wrap 32 i ∈ pool_free_list p).

Fixpoint pool_collect p (indices : list Z) : option (list (Z * T)) :=
  match indices with
  | [] => Some []
  | i :: indices =>
      if on_free_list p i then pool_collect p indices
      else
        match pool_slots p !z i with
        | Some (Some v) => rest ← pool_collect p indices; Some ((wrap 32 i, v) :: rest)
        | _ => None
        end
  end.

Definition pool_iter p : option (list (Z * T)) := pool_collect p (seqZ 0 (pool_capacity p)).

(** The values [drop] drops, in order. *)
Fixpoint pool_drop_slots p (indices : list Z) : option (list T) :=
  match indices with
  | [] => Some []
  | i :: indices =>
      if on_free_list p i then pool_drop_slots p indices
      else
        match pool_slots p !z i with
        | Some (Some v) => rest ← pool_drop_slots p indices; Some (v :: rest)
        | _ => None
        end
  end.

Definition pool_drop p : option (list T) := pool_drop_slots p (seqZ 0 (pool_capacity p)).
End Operations.

(** ** What a pool promises

    The specification numbers the handles by the order they were issued in
    and keeps the object of each, [None] once freed.  Clients of the pool hold
    handles it issued, so an event names a handle by its number. *)
Inductive pool_event (T : Type) :=
| EvAlloc (v : T)
| EvFree (k : nat)
| EvGet (k : nat)
| EvSet (k : nat) (v : T).
Arguments EvAlloc {T}. Arguments EvFree {T}. Arguments EvGet {T}. Arguments EvSet {T}.

Inductive pool_answer (T : Type) :=
| AAlloc (ok : bool)
| AFree (ok : bool)
| AGet (v : option T)
| ASet (ok : bool).
Arguments AAlloc {T}. Arguments AFree {T}. Arguments AGet {T}. Arguments ASet {T}.

Abbreviation objects T := (list (option T)).
Fixpoint n_live {T} (os : objects T) : Z :=
  match os with
  | [] => 0
  | Some _ :: os => 1 + n_live os
  | None :: os => n_live os
  end.

Definition spec_exec {T} (cap : Z) (os : objects T) (ev : pool_event T) : objects T * pool_answer T :=
  match ev with
  | EvAlloc v => if n_live os <? cap then (os ++ [Some v], AAlloc true) else (os, AAlloc false)
  | EvFree k => match os !! k with Some (Some _) => (<[k := None]> os, AFree true) | _ => (os, AFree false) end
  | EvGet k => (os, AGet (mjoin (os !! k)))
  | EvSet k v => match os !! k with Some (Some _) => (<[k := Some v]> os, ASet true) | _ => (os, ASet false) end
  end.

Fixpoint spec_run {T} (cap : Z) (os : objects T) (evs : list (pool_event T)) : objects T * list (pool_answer T) :=
  match evs with
  | [] => (os, [])
  | ev :: evs =>
      let '(os, a) := spec_exec cap os ev in
      let '(os, l) := spec_run cap os evs in (os, a :: l)
  end.

(** The pool under the same events; a handle number not issued yet stands for
    [PoolHandle::invalid()]. *)
Definition nth_handle (hs : list PoolHandle) (k : nat) : PoolHandle := default PoolHandle_INVALID (hs !! k).

Definition pool_exec {T} (s : Pool T * list PoolHandle) (ev : pool_event T) :
    option (Pool T * list PoolHandle * pool_answer T) :=
  let '(p, hs) := s in
  match ev with
  | EvAlloc v =>
      '(p, r) ← pool_alloc p v;
      Some (match r with Ok h => (p, hs ++ [h], AAlloc true) | Err _ => (p, hs, AAlloc false) end)
  | EvFree k => '(p, r) ← pool_free p (nth_handle hs k); Some (p, hs, AFree (is_ok r))
  | EvGet k => v ← pool_get p (nth_handle hs k); Some (p, hs, AGet v)
  | EvSet k v => '(p, ok) ← pool_get_mut p (nth_handle hs k) (const v); Some (p, hs, ASet ok)
  end.

Fixpoint pool_run {T} (s : Pool T * list PoolHandle) (evs : list (pool_event T)) :
    option (Pool T * list PoolHandle * list (pool_answer T)) :=
  match evs with
  | [] => Some (s, [])
  | ev :: evs =>
      '(s, a) ← pool_exec s ev;
      '(s, l) ← pool_run s evs; Some (s, a :: l)
  end.

(** ** The invariant *)
Section Refinement.
Context {T : Type}.
Implicit Types (p : Pool T) (hs : list PoolHandle) (os : objects T).

Record handle_rel p (h : PoolHandle) (o : option T) (g : Z) : Prop := {
  hr_range : 0 <= ph_idx h < pool_capacity p;
  hr_gen : pool_generations p !z (ph_idx h) = Some g;
  hr_state :
    match o with
    | Some v => g = ph_generation h /\ ph_idx h ∉ pool_free_list p /\
                pool_slots p !z (ph_idx h) = Some (Some v)
    | None => ph_generation h < g
    end
}.

(** [n] bounds the generations: the number of events so far. *)
Record pool_rel p hs os (n : Z) : Prop := {
  pr_cap : 1 <= pool_capacity p <= U32_MAX;
  pr_slots : zlen (pool_slots p) = pool_capacity p;
  pr_gens : zlen (pool_generations p) = pool_capacity p;
  pr_bound i g : pool_generations p !z i = Some g -> 0 <= g <= n;
  pr_free : NoDup (pool_free_list p);
  pr_range i : i ∈ pool_free_list p -> 0 <= i < pool_capacity p;
  pr_count : zlen (pool_free_list p) + n_live os = pool_capacity p;
  pr_len : length hs = length os;
  pr_handles : NoDup hs;
  pr_handle k h o : hs !! k = Some h -> os !! k = Some o -> exists g, handle_rel p h o g;
  pr_owner i : 0 <= i < pool_capacity p -> i ∉ pool_free_list p ->
    exists k h v, hs !! k = Some h /\ os !! k = Some (Some v) /\ ph_idx h = i
}.

Lemma n_live_snoc os (v : T) : n_live (os ++ [Some v]) = n_live os + 1.
Proof. induction os as [|[w|] os IH]; simpl; lia. Qed.

Lemma n_live_insert os k (v : T) o :
  os !! k = Some (Some v) ->
  n_live (<[k := o]> os) = match o with Some _ => n_live os | None => n_live os - 1 end.
Proof.
  revert k. induction os as [|[w|] os IH]; intros [|k] Hk; simplify_eq/=.
  - destruct o; lia.
  - rewrite (IH k Hk). destruct o; lia.
  - by apply IH.
Qed.

Lemma rel_lookup p hs os n k :
  pool_rel p hs os n ->
  (exists h o g, hs !! k = Some h /\ os !! k = Some o /\ nth_handle hs k = h /\ handle_rel p h o g) \/
  (hs !! k = None /\ os !! k = None /\ nth_handle hs k = PoolHandle_INVALID).
Proof.
  intros Hp. unfold nth_handle. destruct (hs !! k) as [h|] eqn:Hh.
  - left. destruct (lookup_lt_is_Some_2 os k) as [o Ho].
    { rewrite <- (pr_len _ _ _ _ Hp). by apply lookup_lt_Some in Hh. }
    destruct (pr_handle _ _ _ _ Hp k h o Hh Ho) as [g Hg]. eauto 10.
  - right. split; [done|]. split; [|done]. apply lookup_ge_None.
    rewrite <- (pr_len _ _ _ _ Hp). by apply lookup_ge_None.
Qed.

(** Two live handles of one slot are the same handle. *)
Lemma live_same_slot p hs os n k k' h h' v v' :
  pool_rel p hs os n ->
  hs !! k = Some h -> os !! k = Some (Some v) -> hs !! k' = Some h' -> os !! k' = Some (Some v') ->
  ph_idx h = ph_idx h' -> k = k'.
Proof.
  intros Hp Hh Ho Hh' Ho' He.
  destruct (pr_handle _ _ _ _ Hp k h _ Hh Ho) as [g [_ Hg (Hs & _)]].
  destruct (pr_handle _ _ _ _ Hp k' h' _ Hh' Ho') as [g' [_ Hg' (Hs' & _)]].
  assert (h = h') as <- by (destruct h, h'; simplify_eq/=; congruence).
  exact (NoDup_lookup hs k k' h (pr_handles _ _ _ _ Hp) Hh Hh').
Qed.

Lemma rel_weaken p hs os n n' : n <= n' -> pool_rel p hs os n -> pool_rel p hs os n'.
Proof. intros ? []. split; try done. intros i g Hg. specialize (pr_bound0 i g Hg). lia. Qed.

Lemma alloc_refines p hs os n v :
  pool_rel p hs os n -> 0 <= n ->
  exists p' hs', pool_exec (p, hs) (EvAlloc v) = Some (p', hs', (spec_exec (pool_capacity p) os (EvAlloc v)).2) /\
  pool_rel p' hs' (spec_exec (pool_capacity p) os (EvAlloc v)).1 n /\ pool_capacity p' = pool_capacity p.
Proof.
  intros Hp Hn. pose proof (pr_count _ _ _ _ Hp) as Hc. simpl. unfold pool_alloc.
  destruct (vec_pop (pool_free_list p)) as [[slot free]|] eqn:Hpop.
  2: { apply vec_pop_None in Hpop. rewrite Hpop in Hc. zsimp. simpl.
       destruct (Z.ltb_spec (n_live os) (pool_capacity p)); [lia|]. by exists p, hs. }
  apply vec_pop_Some in Hpop. pose proof Hp as []. rewrite Hpop in *.
  assert (0 <= slot < pool_capacity p) as Hslot by (apply pr_range0; set_solver).
  destruct (proj2 (zget_is_Some (pool_generations p) slot)) as [g Hg]; [lia|].
  rewrite Hg. simpl. zsimp. pose proof (zlen_nonneg free).
  destruct (Z.ltb_spec (n_live os) (pool_capacity p)); [|lia].
  rewrite wrap_small by (unfold is_u, U32_MAX in *; lia).
  apply list.NoDup_app in pr_free0 as (Hnd & Hni & _).
  assert (slot ∉ free) as Hsf by set_solver.
  do 2 eexists. split; [done|]. split; [|done].
  assert (forall k h o, hs !! k = Some h -> os !! k = Some o ->
    exists g', handle_rel p h o g' /\ h <> mkPoolHandle slot g /\ (is_Some o -> ph_idx h <> slot)) as Hold.
  { intros k h o Hh Ho. destruct (pr_handle0 k h o Hh Ho) as [g' Hr]. exists g'. split; [done|].
    destruct Hr as [_ Hr1 Hr2]. rewrite Hpop in Hr2. destruct o as [v'|].
    - destruct Hr2 as (_ & Hr2 & _). split; [intros ->|intros _ <-]; set_solver.
    - split; [intros ->; simpl in *; simplify_eq; lia|by intros []]. }
  split; simpl; rewrite ?zlen_zset; try done.
  - intros i Hi. apply pr_range0. set_solver.
  - rewrite n_live_snoc. lia.
  - rewrite !length_app. simpl. lia.
  - apply list.NoDup_app. split; [done|]. split; [|by apply NoDup_singleton].
    intros h Hin. apply list_elem_of_lookup in Hin as [k Hk].
    destruct (lookup_lt_is_Some_2 os k) as [o Ho]; [apply lookup_lt_Some in Hk; lia|].
    destruct (Hold k h o Hk Ho) as (_ & _ & Hne & _). set_solver.
  - intros k h o Hh Ho. apply lookup_app_Some in Hh as [Hh|[Hge Hh]].
    + rewrite lookup_app_l in Ho by (apply lookup_lt_Some in Hh; lia).
      destruct (Hold k h o Hh Ho) as (g' & [Hr1 Hr2 Hr3] & _ & Hne). exists g'. split; simpl; try done.
      destruct o; [|done]. rewrite zget_zset_ne by (apply not_eq_sym; by apply Hne).
      rewrite Hpop in Hr3. set_solver.
    + rewrite lookup_app_r in Ho by lia. rewrite <- pr_len0 in Ho.
      destruct (k - length hs)%nat; [|done]. simplify_eq/=. exists g. split; simpl; try done.
      split; [done|]. split; [done|]. apply zget_zset_eq. lia.
  - intros i Hi Hif. destruct (decide (i = slot)) as [->|].
    + exists (length hs), (mkPoolHandle slot g), v. split; [by apply list_lookup_middle|].
      split; [rewrite pr_len0; by apply list_lookup_middle|done].
    + destruct (pr_owner0 i Hi) as (k & h & v' & Hh & Ho & Hidx); [set_solver|].
      exists k, h, v'. split; [by apply lookup_app_l_Some|]. split; [by apply lookup_app_l_Some|done].
Qed.

Lemma free_refines p hs os n k :
  pool_rel p hs os n -> 0 <= n -> n + 1 < 2 ^ 32 ->
  exists p', pool_exec (p, hs) (EvFree k) = Some (p', hs, (spec_exec (pool_capacity p) os (EvFree k)).2) /\
  pool_rel p' hs (spec_exec (pool_capacity p) os (EvFree k)).1 (n + 1) /\ pool_capacity p' = pool_capacity p.
Proof.
  intros Hp H0 Hn. simpl. unfold pool_free.
  destruct (rel_lookup p hs os n k Hp) as [(h & o & g & Hh & Ho & -> & [Hr Hg Hs])|(Hh & Ho & ->)]; rewrite Ho.
  2: { simpl. pose proof (pr_cap _ _ _ _ Hp). destruct (Z.leb_spec (pool_capacity p) U32_MAX); [|lia].
       simpl. exists p. split; [done|]. split; [|done]. eapply rel_weaken; [|done]. lia. }
  destruct (Z.leb_spec (pool_capacity p) (ph_idx h)); [lia|]. rewrite Hg. simpl.
  destruct o as [v|].
  2: { destruct (Z.eqb_spec g (ph_generation h)); [lia|]. simpl.
       exists p. split; [done|]. split; [|done]. eapply rel_weaken; [|done]. lia. }
  destruct Hs as (-> & Hnf & Hsl). rewrite Z.eqb_refl, Hsl. simpl.
  pose proof (pr_bound _ _ _ _ Hp _ _ Hg).
  unfold wrapping_add. rewrite wrap_small by (unfold is_u; lia).
  eexists. split; [done|]. split; [|done].
  pose proof Hp as []. split; simpl; rewrite ?zlen_zset; try done.
  - intros i g. destruct (decide (i = ph_idx h)) as [->|].
    + rewrite zget_zset_eq by (rewrite pr_gens0; lia). intros [= <-]. lia.
    + rewrite zget_zset_ne by done. intros Hi. specialize (pr_bound0 i g Hi). lia.
  - apply list.NoDup_app. split; [done|]. split; [|by apply NoDup_singleton]. set_solver.
  - intros i Hi. apply elem_of_app in Hi as [Hi|Hi]; [by apply pr_range0|].
    apply list_elem_of_singleton in Hi as ->. lia.
  - rewrite (n_live_insert os k v None Ho). zsimp. lia.
  - by rewrite length_insert.
  - intros k' h' o' Hh' Ho'. destruct (decide (k' = k)) as [->|Hk].
    + rewrite list_lookup_insert_eq in Ho' by (by eapply lookup_lt_Some). simplify_eq.
      exists (ph_generation h + 1). split; simpl; [done| |lia]. apply zget_zset_eq. lia.
    + rewrite list_lookup_insert_ne in Ho' by done.
      destruct (pr_handle0 k' h' o' Hh' Ho') as (g' & [Hr' Hg' Hs']).
      destruct (decide (ph_idx h' = ph_idx h)) as [He|Hne].
      * exists (ph_generation h + 1). split; simpl; [done| |].
        -- rewrite He. apply zget_zset_eq. lia.
        -- destruct o' as [v'|].
           ++ destruct Hk. symmetry. by eapply (live_same_slot p hs os n k k' h h').
           ++ rewrite He in Hg'. simplify_eq. lia.
      * exists g'. split; simpl; [done|by rewrite zget_zset_ne|].
        destruct o'; [|done]. rewrite zget_zset_ne by done. set_solver.
  - intros i Hi Hif. destruct (pr_owner0 i Hi) as (k' & h' & v' & Hh' & Ho' & Hidx); [set_solver|].
    exists k', h', v'. split; [done|]. split; [|done]. rewrite list_lookup_insert_ne; [done|].
    intros <-. simplify_eq. set_solver.
Qed.

Lemma pool_get_refines p hs os n k :
  pool_rel p hs os n -> pool_get p (nth_handle hs k) = Some (mjoin (os !! k)).
Proof.
  intros Hp. unfold pool_get.
  destruct (rel_lookup p hs os n k Hp) as [(h & o & g & Hh & Ho & -> & [Hr Hg Hs])|(Hh & Ho & ->)]; rewrite Ho.
  - destruct (Z.leb_spec (pool_capacity p) (ph_idx h)); [lia|]. rewrite Hg. simpl. destruct o as [v|].
    + destruct Hs as (-> & _ & ->). by rewrite Z.eqb_refl.
    + destruct (Z.eqb_spec g (ph_generation h)); [lia|done].
  - simpl. pose proof (pr_cap _ _ _ _ Hp). destruct (Z.leb_spec (pool_capacity p) U32_MAX); [done|lia].
Qed.

Lemma pool_set_refines p hs os n k v :
  pool_rel p hs os n ->
  exists p', pool_exec (p, hs) (EvSet k v) = Some (p', hs, (spec_exec (pool_capacity p) os (EvSet k v)).2) /\
  pool_rel p' hs (spec_exec (pool_capacity p) os (EvSet k v)).1 n /\ pool_capacity p' = pool_capacity p.
Proof.
  intros Hp. simpl. unfold pool_get_mut.
  destruct (rel_lookup p hs os n k Hp) as [(h & o & g & Hh & Ho & -> & [Hr Hg Hs])|(Hh & Ho & ->)]; rewrite Ho.
  2: { simpl. pose proof (pr_cap _ _ _ _ Hp). destruct (Z.leb_spec (pool_capacity p) U32_MAX); [|lia]. by exists p. }
  destruct (Z.leb_spec (pool_capacity p) (ph_idx h)); [lia|]. rewrite Hg. simpl.
  destruct o as [w|].
  2: { destruct (Z.eqb_spec g (ph_generation h)); [lia|]. by exists p. }
  destruct Hs as (-> & Hnf & Hsl). rewrite Z.eqb_refl, Hsl. simpl.
  eexists. split; [done|]. split; [|done].
  pose proof Hp as []. split; simpl; rewrite ?zlen_zset; try done.
  - by rewrite (n_live_insert os k w _ Ho).
  - by rewrite length_insert.
  - intros k' h' o' Hh' Ho'. destruct (decide (k' = k)) as [->|Hk].
    + rewrite list_lookup_insert_eq in Ho' by (by eapply lookup_lt_Some). simplify_eq.
      exists (ph_generation h). split; simpl; [done|done|]. split; [done|]. split; [done|]. apply zget_zset_eq. lia.
    + rewrite list_lookup_insert_ne in Ho' by done.
      destruct (pr_handle0 k' h' o' Hh' Ho') as (g' & [Hr' Hg' Hs']).
      exists g'. split; simpl; [done|done|]. destruct o' as [v'|]; [|done].
      rewrite zget_zset_ne; [done|]. intros He. destruct Hk. symmetry.
      by eapply (live_same_slot p hs os n k k' h h').
  - intros i Hi Hif. destruct (pr_owner0 i Hi Hif) as (k' & h' & v' & Hh' & Ho' & Hidx).
    destruct (decide (k' = k)) as [->|Hk].
    + exists k, h', v. simplify_eq. split; [done|]. split; [|done].
      apply list_lookup_insert_eq. by eapply lookup_lt_Some.
    + exists k', h', v'. by rewrite list_lookup_insert_ne.
Qed.

Lemma step_refines p hs os n ev :
  pool_rel p hs os n -> 0 <= n -> n + 1 < 2 ^ 32 ->
  exists p' hs', pool_exec (p, hs) ev = Some (p', hs', (spec_exec (pool_capacity p) os ev).2) /\
  pool_rel p' hs' (spec_exec (pool_capacity p) os ev).1 (n + 1) /\ pool_capacity p' = pool_capacity p.
Proof.
  intros Hp H0 Hn. destruct ev as [v|k|k|k v].
  - destruct (alloc_refines p hs os n v Hp H0) as (p' & hs' & He & Hr & Hc).
    exists p', hs'. split; [done|]. split; [|done]. eapply rel_weaken; [|done]. lia.
  - destruct (free_refines p hs os n k Hp H0 Hn) as (p' & He & Hr). by exists p', hs.
  - exists p, hs. simpl. rewrite (pool_get_refines p hs os n k Hp). split; [done|]. split; [|done].
    eapply rel_weaken; [|done]. lia.
  - destruct (pool_set_refines p hs os n k v Hp) as (p' & He & Hr & Hc).
    exists p', hs. split; [done|]. split; [|done]. eapply rel_weaken; [|done]. lia.
Qed.

Lemma run_refines evs : forall p hs os n,
  pool_rel p hs os n -> 0 <= n -> n + zlen evs < 2 ^ 32 ->
  exists p' hs' n', pool_run (p, hs) evs = Some (p', hs', (spec_run (pool_capacity p) os evs).2) /\
  pool_rel p' hs' (spec_run (pool_capacity p) os evs).1 n'.
Proof.
  induction evs as [|ev evs IH]; intros p hs os n Hp H0 Hn; [by do 3 eexists|].
  zsimp. pose proof (zlen_nonneg evs). cbn [pool_run spec_run].
  destruct (step_refines p hs os n ev Hp H0) as (p1 & hs1 & He & Hr & Hc); [lia|].
  rewrite He. cbn [mbind option_bind]. destruct (spec_exec (pool_capacity p) os ev) as [os1 a].
  destruct (IH p1 hs1 os1 (n + 1) Hr) as (p' & hs' & n' & He' & Hr'); [lia|lia|].
  rewrite He'. cbn [mbind option_bind]. rewrite Hc in *.
  destruct (spec_run (pool_capacity p) os1 evs) as [os' l]. by exists p', hs', n'.
Qed.

Lemma rel_new layout_ok A capacity p :
  0 <= capacity <= U32_MAX -> pool_try_with_capacity layout_ok A capacity = Ok p ->
  pool_rel p [] [] 0 /\ pool_capacity p = Z.max capacity 1.
Proof.
  unfold pool_try_with_capacity. intros Hc Hp. repeat (case_match; try done). simplify_eq/=.
  assert (map (wrap 32) (seqZ 0 (capacity `max` 1)) = seqZ 0 (capacity `max` 1)) as Hm.
  { rewrite <- (map_id (seqZ 0 (capacity `max` 1))) at 2. apply map_ext_in. intros i Hi.
    apply list_elem_of_In, elem_of_seqZ in Hi. apply wrap_small. unfold is_u, U32_MAX in *. lia. }
  split; [|done]. rewrite Hm. split; simpl; try done.
  - unfold U32_MAX in *. lia.
  - unfold zlen. rewrite length_replicate. lia.
  - unfold zlen. rewrite length_replicate. lia.
  - intros i g Hg. pose proof (zget_Some _ _ _ Hg). rewrite zget_lookup in Hg by lia.
    apply lookup_replicate in Hg as [-> _]. lia.
  - apply NoDup_seqZ.
  - intros i Hi. apply elem_of_seqZ in Hi. lia.
  - unfold zlen. rewrite length_seqZ. lia.
  - constructor.
  - intros i Hi Hn. destruct Hn. apply elem_of_seqZ. lia.
Qed.

(** [iter] and [drop] visit the same slots. *)
Lemma drop_is_iter p ixs : pool_drop_slots p ixs = l ← pool_collect p ixs; Some (map snd l).
Proof.
  induction ixs as [|i ixs IH]; simpl; [done|]. destruct (on_free_list p i); [done|].
  destruct (pool_slots p !z i) as [[v|]|]; [|done|done]. rewrite IH. by destruct (pool_collect p ixs).
Qed.

Lemma pool_collect_spec p hs os n ixs :
  pool_rel p hs os n -> NoDup ixs -> (forall i, i ∈ ixs -> 0 <= i < pool_capacity p) ->
  exists l, pool_collect p ixs = Some l /\ NoDup (map fst l) /\
  forall i v, (i, v) ∈ l <-> i ∈ ixs /\ i ∉ pool_free_list p /\ pool_slots p !z i = Some (Some v).
Proof.
  intros Hp Hnd Hr. pose proof (pr_cap _ _ _ _ Hp) as Hcap. induction ixs as [|i ixs IH]; simpl.
  { exists []. split; [done|]. split; [constructor|]. set_solver. }
  apply list.NoDup_cons in Hnd as [Hni Hnd].
  destruct IH as (l & Hl & Hndl & Hspec); [done|set_solver|].
  assert (0 <= i < pool_capacity p) as Hi by (apply Hr; set_solver).
  unfold on_free_list. rewrite wrap_small by (unfold is_u, U32_MAX in *; lia).
  case_bool_decide as Hfree.
  - exists l. split; [done|]. split; [done|]. intros j v. rewrite Hspec. set_solver.
  - destruct (pr_owner _ _ _ _ Hp i Hi Hfree) as (k & h & v & Hh & Ho & <-).
    destruct (pr_handle _ _ _ _ Hp k h _ Hh Ho) as (g & [_ _ (_ & _ & Hs)]).
    rewrite Hs, Hl. simpl. eexists. split; [done|]. split.
    + simpl. apply list.NoDup_cons. split; [|done]. intros Hin.
      apply list_elem_of_In, in_map_iff in Hin as ([j w] & Hj & Hin). simpl in Hj. subst j.
      apply list_elem_of_In, Hspec in Hin. naive_solver.
    + intros j w. rewrite !elem_of_cons, Hspec. naive_solver.
Qed.
End Refinement.

(** C14: the pool's handles.  A pool with fewer than [2^32 - 1] slots answers
    every sequence of fewer than [2^32] allocations, frees, reads and writes as
    the specification does: an allocation fails exactly when all slots are
    live, a freed handle reads nothing, cannot be written and cannot be freed
    twice, a live one reads its own last value whatever the others do; no slot
    ixs read or dropped uninitialised and no two issued handles are equal. *)
Theorem pool_handles_refine {T} layout_ok A capacity (p : Pool T) evs :
  0 <= capacity <= U32_MAX -> pool_try_with_capacity layout_ok A capacity = Ok p ->
  zlen evs < 2 ^ 32 ->
  exists p' hs, pool_run (p, []) evs = Some (p', hs, (spec_run (Z.max capacity 1) [] evs).2) /\
  NoDup hs /\ zlen (pool_free_list p') + n_live (spec_run (Z.max capacity 1) [] evs).1 = Z.max capacity 1.
Proof.
  intros Hc Hp Hl. destruct (rel_new layout_ok A capacity p Hc Hp) as [Hr Hcap].
  destruct (run_refines evs p [] [] 0 Hr) as (p' & hs & n & He & Hr'); [lia|lia|].
  rewrite Hcap in *. exists p', hs. split; [done|]. split; [apply Hr'|].
  rewrite (pr_count _ _ _ _ Hr').
  assert (forall evs s a s', pool_run (T := T) s evs = Some (s', a) -> pool_capacity s'.1 = pool_capacity s.1) as Hk.
  { clear. induction evs as [|ev evs IH]; simpl; intros [p hs] a s' H; [by simplify_eq|].
    destruct (pool_exec (p, hs) ev) as [[s1 a1]|] eqn:He; [|done]. simpl in H.
    destruct (pool_run s1 evs) as [[s2 l]|] eqn:He2; [|done]. simplify_eq/=.
    rewrite (IH _ _ _ He2). clear IH He2. destruct ev; simpl in *;
      unfold pool_alloc, pool_free, pool_get, pool_get_mut, mbind, option_bind in He; by simp. }
  pose proof (Hk _ _ _ _ He) as Hk'. simpl in Hk'. congruence.
Qed.

(** after any such sequence [iter] lists exactly the live objects with
    their slots, each slot once, and [drop] drops exactly those values. *)
Theorem pool_iter_exact {T} layout_ok A capacity (p p' : Pool T) evs hs answers :
  0 <= capacity <= U32_MAX -> pool_try_with_capacity layout_ok A capacity = Ok p ->
  zlen evs < 2 ^ 32 -> pool_run (p, []) evs = Some (p', hs, answers) ->
  exists l, pool_iter p' = Some l /\ pool_drop p' = Some (map snd l) /\ NoDup (map fst l) /\
  forall i v, (i, v) ∈ l <->
    exists k h, hs !! k = Some h /\ (spec_run (Z.max capacity 1) [] evs).1 !! k = Some (Some v) /\ ph_idx h = i.
Proof.
  intros Hc Hp Hl Hrun. destruct (rel_new layout_ok A capacity p Hc Hp) as [Hr Hcap].
  destruct (run_refines evs p [] [] 0 Hr) as (p1 & hs1 & n & He & Hr'); [lia|lia|].
  rewrite Hrun in He. simplify_eq. rewrite Hcap in *.
  destruct (pool_collect_spec p1 hs1 _ n (seqZ 0 (pool_capacity p1)) Hr') as (l & Hcol & Hnd & Hspec).
  { apply NoDup_seqZ. } { intros i Hi. apply elem_of_seqZ in Hi. lia. }
  exists l. split; [done|]. split; [unfold pool_drop; by rewrite drop_is_iter, Hcol|]. split; [done|].
  intros i v. rewrite Hspec, elem_of_seqZ. split.
  - intros (Hi & Hnf & Hs). destruct (pr_owner _ _ _ _ Hr' i ltac:(lia) Hnf) as (k & h & w & Hh & Ho & <-).
    destruct (pr_handle _ _ _ _ Hr' k h _ Hh Ho) as (g & [_ _ (_ & _ & Hs')]). naive_solver.
  - intros (k & h & Hh & Ho & <-).
    destruct (pr_handle _ _ _ _ Hr' k h _ Hh Ho) as (g & [Hi _ (_ & Hnf & Hs')]). split; [lia|done].
Qed.

Definition pool_demo : Pool Z := mkPool [None; None] 2 [0; 1] [0; 0].
Definition pool_demo_events : list (pool_event Z) :=
  [EvAlloc 10; EvAlloc 11; EvAlloc 12; EvFree 0; EvGet 0; EvFree 0; EvAlloc 13; EvSet 2 14; EvGet 2; EvGet 1].

Lemma pool_handles_refine_witness :
  (exists p' hs, pool_run (pool_demo, []) pool_demo_events =
    Some (p', hs, (spec_run 2 [] pool_demo_events).2)) /\
  (spec_run 2 [] pool_demo_events).2 =
    [AAlloc true; AAlloc true; AAlloc false; AFree true; AGet None; AFree false; AAlloc true;
     ASet true; AGet (Some 14); AGet (Some 11)].
Proof.
  split; [|reflexivity].
  destruct (pool_handles_refine (fun _ => true) alloc_all 2 pool_demo pool_demo_events) as (p' & hs & He & _);
    [unfold U32_MAX; lia|reflexivity|reflexivity|].
  exists p', hs. exact He.
Defined.

Lemma pool_iter_exact_witness :
  exists p' hs answers l, pool_run (pool_demo, []) pool_demo_events = Some (p', hs, answers) /\
  pool_iter p' = Some l /\ l = [(0, 11); (1, 14)] /\ pool_drop p' = Some (map snd l).
Proof.
  assert (exists p' hs answers, pool_run (pool_demo, []) pool_demo_events = Some (p', hs, answers) /\
    pool_iter p' = Some [(0, 11); (1, 14)]) as (p' & hs & answers & Hrun & Hit).
  { exists (mkPool [Some 11; Some 14] 2 [] [0; 1]), [mkPoolHandle 1 0; mkPoolHandle 0 0; mkPoolHandle 1 1].
    eexists. split; reflexivity. }
  destruct (pool_iter_exact (fun _ => true) alloc_all 2 pool_demo p' pool_demo_events hs answers) as (l & Hl & Hd & _);
    [unfold U32_MAX; lia|reflexivity|reflexivity|exact Hrun|].
  exists p', hs, answers, l. repeat split; try done. congruence.
Defined.
