(* ===== verification/Bitset.v ===== *)
(** The dense bit mask of [kernel/ecs/bitset.rs], the set it represents, and
    the word walk that [kernel/ecs/world.rs] runs over such masks. *)

From Stdlib Require Import Sorting.Sorted.
From stdpp Require Import gmap sets sorting.
From S2P Require Import Prelude.

Module BitsetError.
Inductive BitsetError :=
| AllocationFailed
| InvalidIndex.
End BitsetError.
Abbreviation BitsetError := BitsetError.BitsetError.

(** The words, least significant index first. *)
Record Bitset := mkBitset { bitset_words : list Z }.

Definition div_ceil (a b : Z) : Z := (a + b - 1) / b.
Definition word_count (capacity : Z) : Z := div_ceil capacity 64.
Definition bit_mask (bit : Z) : Z := wrap 64 (Z.shiftl 1 bit).

Definition bitset_new (capacity : Z) : Bitset := mkBitset (replicate (Z.to_nat (word_count capacity)) 0).
Definition bitset_capacity (b : Bitset) : Z := zlen (bitset_words b) * 64.

Definition bitset_ensure (b : Bitset) (index : Z) : Bitset :=
  let count := word_count (saturating_add 64 index 1) in
  if zlen (bitset_words b) <? count then mkBitset (resize count 0 (bitset_words b)) else b.

Definition bitset_try_reserve (A : alloc) (b : Bitset) (index : Z) : Bitset * result BitsetError unit :=
  match checked_add 64 index 1 with
  | None => (b, Err BitsetError.InvalidIndex)
  | Some next =>
      let count := word_count next in
      if zlen (bitset_words b) <? count then
        if A 0%nat then (mkBitset (resize count 0 (bitset_words b)), Ok tt)
        else (b, Err BitsetError.AllocationFailed)
      else (b, Ok tt)
  end.

(** [words[word]] panics out of range: the outer [None]. *)
Definition bitset_set (b : Bitset) (index : Z) : option (Bitset * bool) :=
  let b := bitset_ensure b index in
  let word := index / 64 in let bit := index mod 64 in
  w ← bitset_words b !z word;
  let old := negb (Z.land w (bit_mask bit) =? 0) in
  Some (mkBitset (zset (bitset_words b) word (Z.lor w (bit_mask bit))), negb old).

Definition bitset_try_set (A : alloc) (b : Bitset) (index : Z) :
    option (Bitset * result BitsetError bool) :=
  match bitset_try_reserve A b index with
  | (b, Err e) => Some (b, Err e)
  | (b, Ok _) => '(b, r) ← bitset_set b index; Some (b, Ok r)
  end.

Definition bitset_clear (b : Bitset) (index : Z) : Bitset * bool :=
  let word := index / 64 in let bit := index mod 64 in
  match bitset_words b !z word with
  | None => (b, false)
  | Some w =>
      let old := negb (Z.land w (bit_mask bit) =? 0) in
      (mkBitset (zset (bitset_words b) word (Z.land w (lnot_w 64 (bit_mask bit)))), old)
  end.

Definition bitset_test (b : Bitset) (index : Z) : bool :=
  let word := index / 64 in let bit := index mod 64 in
  match bitset_words b !z word with
  | None => false
  | Some w => negb (Z.land w (bit_mask bit) =? 0)
  end.

Definition bitset_superset_of (a b : Bitset) : bool :=
  if zlen (bitset_words a) <? zlen (bitset_words b) then false
  else forallb (fun '(x, y) => Z.land x y =? y) (zip (bitset_words a) (bitset_words b)).

(** ** The word walk

    [while mask != 0 { bit = mask.trailing_zeros(); mask &= mask - 1; .. }] *)
Fixpoint pos_trailing_zeros (p : positive) : Z :=
  match p with xO p => Z.succ (pos_trailing_zeros p) | _ => 0 end.
Definition trailing_zeros (z : Z) : Z :=
  match z with Zpos p => pos_trailing_zeros p | _ => 64 end.

Fixpoint mask_bits (fuel : nat) (mask : Z) : list Z :=
  match fuel with
  | O => []
  | S fuel =>
      if mask =? 0 then []
      else trailing_zeros mask :: mask_bits fuel (Z.land mask (mask - 1))
  end.

(** The indices [w * 64 + bit] of all words, from word [w] on; 64 turns of the
    loop are enough for one word ([mask_bits_spec]). *)
Fixpoint words_indices (w : Z) (words : list Z) : list Z :=
  match words with
  | [] => []
  | word :: words => map (fun bit => w * 64 + bit) (mask_bits 64 word) ++ words_indices (w + 1) words
  end.

#[global] Arguments mask_bits _ _ : simpl never.

(** ** Bits of a word *)
Definition words_ok (ws : list Z) : Prop := Forall (is_u 64) ws.
Definition bitset_wf (b : Bitset) : Prop := words_ok (bitset_words b).

Lemma bit_mask_pow k : 0 <= k < 64 -> bit_mask k = 2 ^ k.
Proof.
  intros. unfold bit_mask. rewrite Z.shiftl_1_l. apply wrap_small. split; [lia|].
  apply Z.pow_lt_mono_r; lia.
Qed.

Lemma land_bit_mask w k : 0 <= k < 64 -> negb (Z.land w (bit_mask k) =? 0) = Z.testbit w k.
Proof.
  intros Hk. rewrite bit_mask_pow by done. destruct (Z.testbit w k) eqn:Hb.
  - destruct (Z.eqb_spec (Z.land w (2 ^ k)) 0) as [H0|]; [|done].
    assert (Z.testbit (Z.land w (2 ^ k)) k = true) as Ht by (rewrite Z.land_spec, Hb, Z.pow2_bits_true; [done|lia]).
    by rewrite H0, Z.testbit_0_l in Ht.
  - replace (Z.land w (2 ^ k)) with 0; [done|]. symmetry. apply Z.bits_inj'. intros n Hn.
    rewrite Z.land_spec, Z.pow2_bits_eqb, Z.testbit_0_l by lia.
    destruct (Z.eqb_spec k n) as [<-|]; [by rewrite Hb|]. apply andb_false_r.
Qed.

Lemma is_u_testbit w n : is_u 64 w -> 64 <= n -> Z.testbit w n = false.
Proof.
  intros [? ?] ?. replace w with (w mod 2 ^ 64) by (apply Z.mod_small; lia). apply Z.mod_pow2_bits_high. lia.
Qed.

Lemma testbit_is_u w : 0 <= w -> (forall n, 64 <= n -> Z.testbit w n = false) -> is_u 64 w.
Proof.
  intros H0 Hb. replace w with (w mod 2 ^ 64); [apply Z.mod_pos_bound; lia|].
  apply Z.bits_inj'. intros n Hn. destruct (Z.lt_ge_cases n 64).
  - apply Z.mod_pow2_bits_low. lia.
  - rewrite Z.mod_pow2_bits_high by lia. by rewrite Hb.
Qed.

Lemma word_set w k : is_u 64 w -> 0 <= k < 64 ->
  is_u 64 (Z.lor w (bit_mask k)) /\
  forall n, 0 <= n -> Z.testbit (Z.lor w (bit_mask k)) n = (n =? k) || Z.testbit w n.
Proof.
  intros Hw Hk. rewrite bit_mask_pow by done.
  assert (forall n, 0 <= n -> Z.testbit (Z.lor w (2 ^ k)) n = (n =? k) || Z.testbit w n) as Hn.
  { intros n Hn. rewrite Z.lor_spec, Z.pow2_bits_eqb by lia. by rewrite orb_comm, Z.eqb_sym. }
  split; [|done]. apply testbit_is_u.
  - apply Z.lor_nonneg. split; [apply Hw|lia].
  - intros n Hge. rewrite Hn by lia. rewrite is_u_testbit by done. destruct (Z.eqb_spec n k); [lia|done].
Qed.

Lemma word_clear w k : is_u 64 w -> 0 <= k < 64 ->
  is_u 64 (Z.land w (lnot_w 64 (bit_mask k))) /\
  forall n, 0 <= n -> Z.testbit (Z.land w (lnot_w 64 (bit_mask k))) n = negb (n =? k) && Z.testbit w n.
Proof.
  intros Hw Hk. rewrite bit_mask_pow by done.
  assert (forall n, 0 <= n -> Z.testbit (Z.land w (lnot_w 64 (2 ^ k))) n = negb (n =? k) && Z.testbit w n) as Hn.
  { intros n Hn. rewrite Z.land_spec. unfold lnot_w, wrap. destruct (Z.lt_ge_cases n 64).
    - rewrite Z.mod_pow2_bits_low, Z.lnot_spec, Z.pow2_bits_eqb by lia. by rewrite andb_comm, Z.eqb_sym.
    - rewrite is_u_testbit by done. by rewrite andb_false_r. }
  split; [|done]. apply testbit_is_u.
  - apply Z.land_nonneg. left. apply Hw.
  - intros n Hge. rewrite Hn, is_u_testbit by (done || lia). apply andb_false_r.
Qed.

(** ** The set a mask represents *)
Record bitset_repr (b : Bitset) (S : gset Z) : Prop := {
  bp_wf : bitset_wf b;
  bp_nonneg i : i ∈ S -> 0 <= i;
  bp_test i : 0 <= i -> bitset_test b i = bool_decide (i ∈ S)
}.

Lemma test_word b i :
  0 <= i ->
  bitset_test b i = match bitset_words b !z (i / 64) with Some w => Z.testbit w (i mod 64) | None => false end.
Proof.
  intros. unfold bitset_test. pose proof (Z.mod_pos_bound i 64).
  destruct (_ !z _); [|done]. apply land_bit_mask. lia.
Qed.

Lemma words_ok_get ws i w : words_ok ws -> ws !z i = Some w -> is_u 64 w.
Proof.
  intros Hok Hw. pose proof (zget_Some _ _ _ Hw). rewrite zget_lookup in Hw by lia.
  by eapply Forall_lookup_1.
Qed.

Lemma words_ok_set ws i w : words_ok ws -> is_u 64 w -> words_ok (zset ws i w).
Proof. intros. unfold zset. destruct (i <? 0); [done|]. by apply Forall_insert. Qed.

Lemma words_ok_resize ws n : words_ok ws -> words_ok (resize n 0 ws).
Proof. intros. apply Forall_resize; [|done]. unfold is_u. lia. Qed.

Lemma div_mod_eq i j : i / 64 = j / 64 -> i mod 64 = j mod 64 -> i = j.
Proof. intros Hd Hm. rewrite (Z.div_mod i 64), (Z.div_mod j 64), Hd, Hm by lia. done. Qed.

(** Growing adds zero words. *)
Lemma grow_test b n i :
  zlen (bitset_words b) <= n -> 0 <= i ->
  bitset_test (mkBitset (resize n 0 (bitset_words b))) i = bitset_test b i.
Proof.
  intros Hn Hi. rewrite !test_word by done. simpl.
  destruct (Z.lt_ge_cases (i / 64) (zlen (bitset_words b))).
  - by rewrite zget_resize_old.
  - rewrite (proj2 (zget_None (bitset_words b) (i / 64))) by lia.
    destruct (Z.lt_ge_cases (i / 64) n).
    + rewrite zget_resize_new by lia. apply Z.testbit_0_l.
    + pose proof (zlen_nonneg (bitset_words b)).
      rewrite (proj2 (zget_None _ (i / 64))); [done|]. rewrite zlen_resize by lia. lia.
Qed.

Lemma word_count_spec n : 0 <= n -> n <= word_count n * 64 < n + 64.
Proof. intros. unfold word_count, div_ceil. pose proof (Z.div_mod (n + 64 - 1) 64). pose proof (Z.mod_pos_bound (n + 64 - 1) 64). lia. Qed.

Lemma repr_grow b S n :
  zlen (bitset_words b) <= n -> bitset_repr b S -> bitset_repr (mkBitset (resize n 0 (bitset_words b))) S.
Proof.
  intros Hn [Hw Hs Ht]. split; [by apply words_ok_resize|done|].
  intros i Hi. by rewrite grow_test, Ht.
Qed.

Lemma ensure_spec b S i :
  is_u 64 i -> bitset_repr b S ->
  bitset_repr (bitset_ensure b i) S /\ i / 64 < zlen (bitset_words (bitset_ensure b i)).
Proof.
  intros [H0 H1] Hr. unfold bitset_ensure, saturating_add, umax.
  pose proof (Z.div_mod i 64). pose proof (Z.mod_pos_bound i 64).
  set (n := (i + 1) `min` _).
  destruct (word_count_spec n) as [Hc1 Hc2]; [lia|].
  destruct (Z.ltb_spec (zlen (bitset_words b)) (word_count n)).
  - split; [apply repr_grow; [lia|done]|]. simpl. rewrite zlen_resize by lia.
    destruct (Z.eq_dec i (2 ^ 64 - 1)) as [->|]; [vm_compute in Hc1 |- *; done|lia].
  - split; [done|].
    destruct (Z.eq_dec i (2 ^ 64 - 1)) as [->|]; [|lia].
    change (word_count n) with (2 ^ 58) in *. change ((2 ^ 64 - 1) / 64) with (2 ^ 58 - 1). lia.
Qed.

Lemma bitset_set_refines b S i :
  is_u 64 i -> bitset_repr b S ->
  exists b', bitset_set b i = Some (b', bool_decide (i ∉ S)) /\ bitset_repr b' ({[i]} ∪ S).
Proof.
  intros Hi Hr. destruct (ensure_spec b S i Hi Hr) as [[Hw Hs Ht] Hlt]. unfold bitset_set.
  set (c := bitset_ensure b i) in *. destruct Hi as [H0 _].
  pose proof (Z.mod_pos_bound i 64 ltac:(lia)). pose proof (Z.div_pos i 64 H0 ltac:(lia)).
  destruct (proj2 (zget_is_Some (bitset_words c) (i / 64))) as [w Hwd]; [lia|].
  pose proof (words_ok_get _ _ _ Hw Hwd) as Hwu.
  specialize (Ht i H0) as Hti. rewrite test_word, Hwd in Hti by done.
  rewrite Hwd. simpl. rewrite land_bit_mask, Hti by done.
  eexists. split; [rewrite bool_decide_not; done|].
  destruct (word_set w (i mod 64) Hwu) as [Hu Hbits]; [lia|].
  split; simpl; [by apply words_ok_set|set_solver|].
  intros j Hj. pose proof (Z.mod_pos_bound j 64 ltac:(lia)). rewrite test_word by done. simpl.
  destruct (Z.eq_dec (i / 64) (j / 64)) as [He|Hne].
  - rewrite <- He, zget_zset_eq, Hbits by lia.
    specialize (Ht j Hj). rewrite test_word, <- He, Hwd in Ht by done. rewrite Ht.
    destruct (Z.eqb_spec (j mod 64) (i mod 64)) as [Hm|Hm]; simpl.
    + apply div_mod_eq in He; [|done]. subst j. symmetry. apply bool_decide_eq_true. set_solver.
    + apply bool_decide_ext. set_solver.
  - rewrite zget_zset_ne by done. specialize (Ht j Hj). rewrite test_word in Ht by done.
    rewrite Ht. apply bool_decide_ext. set_solver.
Qed.

Lemma clear_refines b S i :
  0 <= i -> bitset_repr b S ->
  exists b', bitset_clear b i = (b', bool_decide (i ∈ S)) /\ bitset_repr b' (S ∖ {[i]}) /\
  zlen (bitset_words b') = zlen (bitset_words b).
Proof.
  intros H0 [Hw Hs Ht]. unfold bitset_clear.
  pose proof (Z.mod_pos_bound i 64 ltac:(lia)). pose proof (Z.div_pos i 64 H0 ltac:(lia)).
  specialize (Ht i H0) as Hti. rewrite test_word in Hti by done.
  destruct (bitset_words b !z (i / 64)) as [w|] eqn:Hwd.
  - rewrite land_bit_mask, Hti by done. eexists. split; [done|]. split; [|simpl; by rewrite zlen_zset].
    pose proof (words_ok_get _ _ _ Hw Hwd) as Hwu. pose proof (zget_Some _ _ _ Hwd).
    destruct (word_clear w (i mod 64) Hwu) as [Hu Hbits]; [lia|].
    split; simpl; [by apply words_ok_set|set_solver|].
    intros j Hj. pose proof (Z.mod_pos_bound j 64 ltac:(lia)). rewrite test_word by done. simpl.
    destruct (Z.eq_dec (i / 64) (j / 64)) as [He|Hne].
    + rewrite <- He, zget_zset_eq, Hbits by lia.
      specialize (Ht j Hj). rewrite test_word, <- He, Hwd in Ht by done. rewrite Ht.
      destruct (Z.eqb_spec (j mod 64) (i mod 64)) as [Hm|Hm]; simpl.
      * apply div_mod_eq in He; [|done]. subst j. symmetry. apply bool_decide_eq_false. set_solver.
      * apply bool_decide_ext. set_solver.
    + rewrite zget_zset_ne by done. specialize (Ht j Hj). rewrite test_word in Ht by done.
      rewrite Ht. apply bool_decide_ext. set_solver.
  - rewrite <- Hti. eexists. split; [done|]. split; [|done].
    symmetry in Hti. apply bool_decide_eq_false in Hti.
    replace (S ∖ {[i]}) with S by set_solver. by split.
Qed.

Lemma reserve_error A b b' i err :
  i < umax 64 -> bitset_try_reserve A b i = (b', Err err) -> A 0%nat = false.
Proof.
  unfold bitset_try_reserve. intros Hi. rewrite (proj2 (checked_add_Some 64 i 1 (i + 1))) by lia.
  by simp.
Qed.

Lemma try_reserve_refines A b S i :
  0 <= i -> bitset_repr b S -> bitset_repr (bitset_try_reserve A b i).1 S.
Proof.
  intros Hi Hr. unfold bitset_try_reserve. destruct (checked_add _ _ _); [|done].
  destruct (Z.ltb_spec (zlen (bitset_words b)) (word_count z)); [|done].
  destruct (A 0%nat); [|done]. simpl. by apply repr_grow; [lia|].
Qed.

Lemma try_set_refines A b S i :
  is_u 64 i -> bitset_repr b S ->
  exists b' r, bitset_try_set A b i = Some (b', r) /\
  match r with
  | Ok new => new = bool_decide (i ∉ S) /\ bitset_repr b' ({[i]} ∪ S)
  | Err _ => bitset_repr b' S
  end.
Proof.
  intros Hi Hr. unfold bitset_try_set.
  pose proof (try_reserve_refines A b S i (proj1 Hi) Hr) as Hr'.
  destruct (bitset_try_reserve A b i) as [b1 [[]|e]]; simpl in *; [|by exists b1, (Err e)].
  destruct (bitset_set_refines b1 S i Hi Hr') as (b2 & -> & Hr2). simpl. by exists b2, (Ok (bool_decide (i ∉ S))).
Qed.

Lemma bitset_repr_new n : bitset_repr (bitset_new n) ∅.
Proof.
  split.
  - apply Forall_replicate. unfold is_u. lia.
  - set_solver.
  - intros i Hi. rewrite test_word by done. simpl.
    destruct (_ !z _) as [w|] eqn:Hw; [|symmetry; apply bool_decide_eq_false; set_solver].
    pose proof (zget_Some _ _ _ Hw). rewrite zget_lookup in Hw by lia. apply lookup_replicate in Hw as [-> _].
    rewrite Z.testbit_0_l. symmetry. apply bool_decide_eq_false. set_solver.
Qed.

(** ** The word walk visits the set bits in increasing order *)
Lemma trailing_zeros_odd_mul q k : 0 <= q -> 0 <= k -> trailing_zeros ((2 * q + 1) * 2 ^ k) = k.
Proof.
  intros Hq Hk. revert k Hk. apply natlike_ind.
  - rewrite Z.pow_0_r, Z.mul_1_r. by destruct q.
  - intros k Hk IH. rewrite Z.pow_succ_r by done.
    replace ((2 * q + 1) * (2 * 2 ^ k)) with (2 * ((2 * q + 1) * 2 ^ k)) by lia.
    assert (0 < 2 ^ k) by (apply Z.pow_pos_nonneg; lia).
    destruct ((2 * q + 1) * 2 ^ k) as [|p|p] eqn:He; [nia| |nia].
    change (2 * Z.pos p) with (Z.pos p~0). cbn [trailing_zeros pos_trailing_zeros] in *. by rewrite IH.
Qed.

Lemma land_pred_odd_mul q k :
  0 <= q -> 0 <= k ->
  Z.land ((2 * q + 1) * 2 ^ k) ((2 * q + 1) * 2 ^ k - 1) = q * 2 ^ (k + 1).
Proof.
  intros Hq Hk. assert (0 < 2 ^ k) by (apply Z.pow_pos_nonneg; lia).
  assert (2 ^ (k + 1) = 2 * 2 ^ k) as Hp by (by rewrite Z.pow_add_r, Z.mul_comm by lia).
  set (x := (2 * q + 1) * 2 ^ k). apply Z.bits_inj'. intros n Hn. rewrite Z.land_spec.
  assert (x / 2 ^ (k + 1) = q /\ x mod 2 ^ (k + 1) = 2 ^ k) as [Hx1 Hx2].
  { rewrite Hp. split; [symmetry; eapply Z.div_unique with (r := 2 ^ k)|symmetry; eapply Z.mod_unique with (q := q)];
      unfold x; lia. }
  assert ((x - 1) / 2 ^ (k + 1) = q /\ (x - 1) mod 2 ^ (k + 1) = 2 ^ k - 1) as [Hy1 Hy2].
  { rewrite Hp. split; [symmetry; eapply Z.div_unique with (r := 2 ^ k - 1)|symmetry; eapply Z.mod_unique with (q := q)];
      unfold x; lia. }
  destruct (Z.lt_ge_cases n (k + 1)).
  - rewrite Z.mul_pow2_bits_low by lia.
    rewrite <- (Z.mod_pow2_bits_low x (k + 1)), <- (Z.mod_pow2_bits_low (x - 1) (k + 1)), Hx2, Hy2 by lia.
    rewrite Z.pow2_bits_eqb by lia. destruct (Z.eqb_spec k n) as [<-|]; [|done].
    replace (2 ^ k - 1) with (Z.ones k) by (rewrite Z.ones_equiv; lia).
    by rewrite Z.ones_spec_high by lia.
  - rewrite Z.mul_pow2_bits by lia.
    replace n with (n - (k + 1) + (k + 1)) at 1 2 by lia.
    rewrite <- !Z.div_pow2_bits, Hx1, Hy1 by lia. apply andb_diag.
Qed.

Lemma low_bits_split m k :
  0 <= m -> 0 <= k -> m mod 2 ^ k = 0 ->
  if Z.testbit m k then exists q, 0 <= q /\ m = (2 * q + 1) * 2 ^ k else m mod 2 ^ (k + 1) = 0.
Proof.
  intros Hm Hk H0. assert (0 < 2 ^ k) by (apply Z.pow_pos_nonneg; lia).
  pose proof (Z.div_mod m (2 ^ k)) as Hd. pose proof (Z.div_pos m (2 ^ k) Hm ltac:(lia)).
  pose proof (Z.testbit_spec' m k Hk) as Hb. pose proof (Z.div_mod (m / 2 ^ k) 2) as Hq.
  pose proof (Z.mod_pos_bound (m / 2 ^ k) 2).
  destruct (Z.testbit m k); simpl in Hb.
  - exists (m / 2 ^ k / 2). split; [apply Z.div_pos; lia|]. lia.
  - rewrite Z.pow_add_r, Z.pow_1_r by lia. symmetry.
    apply Z.mod_unique with (q := m / 2 ^ k / 2); [lia|]. nia.
Qed.

Lemma mask_bits_from fuel : forall k m,
  0 <= k <= 64 -> is_u 64 m -> m mod 2 ^ k = 0 -> 64 - k <= Z.of_nat fuel ->
  mask_bits fuel m = List.filter (Z.testbit m) (seqZ k (64 - k)).
Proof.
  enough (forall n, forall k m fuel, Z.of_nat n = 64 - k -> 0 <= k -> is_u 64 m -> m mod 2 ^ k = 0 ->
    64 - k <= Z.of_nat fuel -> mask_bits fuel m = List.filter (Z.testbit m) (seqZ k (64 - k))) as Hn.
  { intros k m [Hk ?] ? ? ?. apply (Hn (Z.to_nat (64 - k))); try done. lia. }
  clear. induction n as [|n IH]; intros k m fuel Hn Hk Hu Hm Hf.
  { assert (k = 64) as -> by lia. simpl. assert (m = 0) as -> by (rewrite Z.mod_small in Hm; done).
    by destruct fuel. }
  rewrite seqZ_cons by lia. cbn [List.filter].
  replace (Z.pred (64 - k)) with (64 - (k + 1)) by lia. replace (Z.succ k) with (k + 1) by lia.
  pose proof (low_bits_split m k (proj1 Hu) Hk Hm) as Hs. destruct (Z.testbit m k).
  2: { apply IH; try done; lia. }
  destruct Hs as (q & Hq & ->). destruct fuel as [|fuel]; [lia|].
  change (mask_bits (S fuel) ?m) with (if m =? 0 then [] else trailing_zeros m :: mask_bits fuel (Z.land m (m - 1))).
  assert (0 < 2 ^ k) as Hp by (apply Z.pow_pos_nonneg; lia).
  destruct (Z.eqb_spec ((2 * q + 1) * 2 ^ k) 0); [nia|].
  rewrite trailing_zeros_odd_mul, land_pred_odd_mul by lia. f_equal.
  assert (q * 2 ^ (k + 1) = (2 * q + 1) * 2 ^ k - 2 ^ k) as He by (rewrite Z.pow_add_r by lia; lia).
  rewrite (IH (k + 1)); try lia.
  - apply filter_ext_in. intros j Hj. apply list_elem_of_In, elem_of_seqZ in Hj.
    replace j with (j - (k + 1) + (k + 1)) by lia. rewrite <- !Z.div_pow2_bits by lia. f_equal.
    rewrite Z.div_mul by (apply Z.pow_nonzero; lia).
    apply Z.div_unique with (r := 2 ^ k); rewrite Z.pow_add_r; lia.
  - unfold is_u in *. lia.
  - apply Z.mod_mul. apply Z.pow_nonzero; lia.
Qed.

Lemma mask_bits_spec m : is_u 64 m -> mask_bits 64 m = List.filter (Z.testbit m) (seqZ 0 64).
Proof. intros. apply mask_bits_from; [lia|done|apply Z.mod_1_r|lia]. Qed.

Lemma sorted_app (l k : list Z) :
  StronglySorted Z.lt l -> StronglySorted Z.lt k -> (forall x y, x ∈ l -> y ∈ k -> x < y) ->
  StronglySorted Z.lt (l ++ k).
Proof.
  induction 1 as [|x l Hl IH Hx]; intros Hk Hlk; simpl; [done|]. constructor; [apply IH; [done|set_solver]|].
  apply Forall_app. split; [done|]. apply list.Forall_forall. set_solver.
Qed.

Lemma seqZ_sorted a n : StronglySorted Z.lt (seqZ a n).
Proof.
  destruct (Z.le_gt_cases 0 n); [|rewrite seqZ_nil by lia; constructor].
  revert a. revert n H. apply (natlike_ind (fun n => forall a, StronglySorted Z.lt (seqZ a n))).
  - intros a. rewrite seqZ_nil by lia. constructor.
  - intros n Hn IH a. rewrite seqZ_cons by lia. rewrite Z.pred_succ. constructor; [apply IH|].
    apply list.Forall_forall. intros x Hx. apply elem_of_seqZ in Hx. lia.
Qed.

Lemma filter_sorted f (l : list Z) : StronglySorted Z.lt l -> StronglySorted Z.lt (List.filter f l).
Proof.
  induction 1 as [|x l Hl IH Hx]; simpl; [constructor|]. destruct (f x); [|done]. constructor; [done|].
  apply list.Forall_forall. intros y Hy. apply list_elem_of_In, filter_In in Hy as [Hy _].
  rewrite list.Forall_forall in Hx. apply Hx. by apply list_elem_of_In.
Qed.

Lemma map_add_sorted c (l : list Z) : StronglySorted Z.lt l -> StronglySorted Z.lt (map (fun b => c + b) l).
Proof.
  induction 1 as [|x l Hl IH Hx]; simpl; constructor; [done|].
  apply list.Forall_forall. intros y Hy. apply list_elem_of_In, in_map_iff in Hy as (z & <- & Hz).
  rewrite list.Forall_forall in Hx. specialize (Hx z). apply list_elem_of_In in Hz. specialize (Hx Hz). lia.
Qed.

Lemma words_indices_spec ws : forall w,
  words_ok ws -> 0 <= w ->
  StronglySorted Z.lt (words_indices w ws) /\
  forall i, i ∈ words_indices w ws <->
    w * 64 <= i /\ exists x, ws !z (i / 64 - w) = Some x /\ Z.testbit x (i mod 64) = true.
Proof.
  induction ws as [|x ws IH]; intros w Hok Hw; simpl.
  { split; [constructor|]. intros i. split; [set_solver|]. intros (_ & x & Hx & _).
    apply zget_Some in Hx. zsimp. lia. }
  inv Hok. destruct (IH (w + 1)) as [Hs Hi]; [done|lia|]. rewrite mask_bits_spec by done.
  assert (forall i, i ∈ map (fun bit => w * 64 + bit) (List.filter (Z.testbit x) (seqZ 0 64)) <->
    i / 64 = w /\ Z.testbit x (i mod 64) = true) as Hhead.
  { intros i. rewrite list_elem_of_In, in_map_iff. split.
    - intros (b & <- & Hb). apply filter_In in Hb as [Hb Ht]. apply list_elem_of_In, elem_of_seqZ in Hb.
      rewrite (Z.add_comm (w * 64)), Z.div_add, Z.mod_add, Z.mod_small, Z.div_small by lia. split; [lia|done].
    - intros [Hd Ht]. exists (i mod 64). pose proof (Z.div_mod i 64). pose proof (Z.mod_pos_bound i 64).
      split; [lia|]. apply filter_In. split; [|done]. apply list_elem_of_In, elem_of_seqZ. lia. }
  split.
  - apply sorted_app; [apply map_add_sorted, filter_sorted, seqZ_sorted|done|].
    intros a b Ha Hb. apply Hhead in Ha as [Ha _]. apply Hi in Hb as [Hb _].
    pose proof (Z.div_mod a 64). pose proof (Z.mod_pos_bound a 64). lia.
  - intros i. rewrite elem_of_app, Hhead, Hi.
    pose proof (Z.div_mod i 64 ltac:(lia)). pose proof (Z.mod_pos_bound i 64 ltac:(lia)). split.
    + intros [[Hd Ht]|(Hle & y & Hy & Ht)].
      * split; [lia|]. exists x. split; [|done]. by rewrite Hd, Z.sub_diag.
      * split; [lia|]. exists y. split; [|done]. apply zget_Some in Hy as Hr.
        rewrite zget_lookup in Hy |- * by lia.
        replace (Z.to_nat (i / 64 - w)) with (S (Z.to_nat (i / 64 - (w + 1)))) by lia. done.
    + intros (Hle & y & Hy & Ht). pose proof (zget_Some _ _ _ Hy).
      destruct (Z.eq_dec (i / 64) w) as [He|Hne].
      * left. split; [done|]. rewrite He, Z.sub_diag in Hy. change (Some x = Some y) in Hy. injection Hy as ->. exact Ht.
      * right. split; [lia|]. exists y. split; [|done].
        rewrite zget_lookup in Hy |- * by lia.
        replace (Z.to_nat (i / 64 - w)) with (S (Z.to_nat (i / 64 - (w + 1)))) in Hy by lia. done.
Qed.

Lemma indices_of_repr b S :
  bitset_repr b S ->
  StronglySorted Z.lt (words_indices 0 (bitset_words b)) /\
  forall i, i ∈ words_indices 0 (bitset_words b) <-> i ∈ S.
Proof.
  intros [Hw Hn Ht]. destruct (words_indices_spec (bitset_words b) 0 Hw) as [Hs Hi]; [lia|].
  split; [done|]. intros i. rewrite Hi, Z.sub_0_r. split.
  - intros (Hi0 & x & Hx & Hb). apply (bool_decide_eq_true (i ∈ S)). rewrite <- Ht, test_word, Hx by lia. done.
  - intros Hin. pose proof (Hn i Hin). split; [lia|].
    apply (bool_decide_eq_true (i ∈ S)) in Hin. rewrite <- Ht, test_word in Hin by done.
    destruct (_ !z _); [|done]. eauto.
Qed.

(** ** Traces *)
Inductive bitset_event :=
| EvSet (i : Z)
| EvTrySet (A : alloc) (i : Z)
| EvClear (i : Z)
| EvTest (i : Z).

Definition event_index (ev : bitset_event) : Z :=
  match ev with EvSet i | EvTrySet _ i | EvClear i | EvTest i => i end.

(** [Some answer], or [None] when the reservation failed. *)
Definition bitset_exec (b : Bitset) (ev : bitset_event) : option (Bitset * option bool) :=
  match ev with
  | EvSet i => '(b, r) ← bitset_set b i; Some (b, Some r)
  | EvTrySet A i =>
      '(b, r) ← bitset_try_set A b i;
      Some (b, match r with Ok x => Some x | Err _ => None end)
  | EvClear i => let '(b, r) := bitset_clear b i in Some (b, Some r)
  | EvTest i => Some (b, Some (bitset_test b i))
  end.

(** The same on a finite set; the oracle's verdict is taken over from the
    implementation's answer. *)
Definition set_exec (S : gset Z) (ev : bitset_event) (answer : option bool) : gset Z * option bool :=
  match ev, answer with
  | EvTrySet _ _, None => (S, None)
  | EvSet i, _ | EvTrySet _ i, _ => ({[i]} ∪ S, Some (bool_decide (i ∉ S)))
  | EvClear i, _ => (S ∖ {[i]}, Some (bool_decide (i ∈ S)))
  | EvTest i, _ => (S, Some (bool_decide (i ∈ S)))
  end.

Fixpoint bitset_agrees (b : Bitset) (S : gset Z) (evs : list bitset_event) : Prop :=
  match evs with
  | [] => bitset_repr b S
  | ev :: evs =>
      exists b' answer, bitset_exec b ev = Some (b', answer) /\
      answer = (set_exec S ev answer).2 /\ bitset_agrees b' (set_exec S ev answer).1 evs
  end.

Lemma bitset_agrees_run evs : forall b S,
  bitset_repr b S -> Forall (fun ev => is_u 64 (event_index ev)) evs -> bitset_agrees b S evs.
Proof.
  induction evs as [|ev evs IH]; intros b S Hr Hev; [done|]. inv Hev. simpl.
  destruct ev as [i|A i|i|i]; simpl in *.
  - destruct (bitset_set_refines b S i) as (b' & -> & Hr'); [done|done|]. simpl.
    exists b', (Some (bool_decide (i ∉ S))). split; [done|]. split; [done|]. by apply IH.
  - destruct (try_set_refines A b S i) as (b' & r & -> & Hr'); [done|done|]. simpl.
    destruct r as [x|e]; [destruct Hr' as [-> Hr']|]; (eexists b', _; split; [done|]; split; [done|]; by apply IH).
  - destruct (clear_refines b S i) as (b' & -> & Hr' & _); [apply H1|done|].
    eexists b', _. split; [done|]. split; [done|]. by apply IH.
  - eexists b, _. split; [done|]. rewrite (bp_test b S Hr) by apply H1. split; [done|]. by apply IH.
Qed.

(** a bit mask is a finite set of indices.  In any sequence of [set],
    [try_set], [clear] and [test] on a new mask with 64-bit indices no call
    panics, every answer is the one the set gives (a failed reservation
    changes nothing), and the word walk lists the members in increasing
    order, each once. *)
Theorem bitset_refines_set capacity evs :
  Forall (fun ev => is_u 64 (event_index ev)) evs ->
  bitset_agrees (bitset_new capacity) ∅ evs /\
  forall b S, bitset_repr b S ->
    StronglySorted Z.lt (words_indices 0 (bitset_words b)) /\
    forall i, i ∈ words_indices 0 (bitset_words b) <-> bitset_test b i = true /\ 0 <= i.
Proof.
  intros Hev. split; [apply bitset_agrees_run; [apply bitset_repr_new|done]|]. intros b S Hr.
  destruct (indices_of_repr b S Hr) as [Hs Hi]. split; [done|]. intros i. rewrite Hi. split.
  - intros Hin. pose proof (bp_nonneg _ _ Hr i Hin). rewrite (bp_test _ _ Hr) by done.
    split; [by apply bool_decide_eq_true|done].
  - intros [Ht H0]. rewrite (bp_test _ _ Hr) in Ht by done. by apply bool_decide_eq_true in Ht.
Qed.

Lemma bitset_refines_set_witness :
  bitset_agrees (bitset_new 10) ∅ [EvSet 400; EvTest 400; EvSet 7; EvClear 400; EvTrySet (fun _ => false) 900; EvTest 7] /\
  words_indices 0 [5; 0; 2] = [0; 2; 129].
Proof.
  split; [|reflexivity].
  apply (bitset_refines_set 10). repeat constructor; unfold is_u; simpl; lia.
Defined.

Lemma zip_land_spec ws vs :
  words_ok ws -> words_ok vs -> zlen vs <= zlen ws ->
  forallb (fun '(x, y) => Z.land x y =? y) (zip ws vs) = true <->
  forall k w v n, ws !z k = Some w -> vs !z k = Some v -> 0 <= n < 64 -> Z.testbit v n = true -> Z.testbit w n = true.
Proof.
  intros Hws Hvs Hle. rewrite forallb_forall. split.
  - intros H k w v n Hw Hv Hn Hb. pose proof (zget_Some _ _ _ Hw). rewrite !zget_lookup in Hw, Hv by lia.
    specialize (H (w, v)). rewrite Z.eqb_eq in H. rewrite <- H in Hb.
    + by rewrite Z.land_spec, andb_true_iff in Hb; destruct Hb.
    + apply list_elem_of_In. apply list_elem_of_lookup_2 with (Z.to_nat k).
      rewrite lookup_zip_with, Hw. simpl. by rewrite Hv.
  - intros H [w v] Hin. apply list_elem_of_In, list_elem_of_lookup in Hin as [k Hk].
    rewrite lookup_zip_with in Hk. destruct (ws !! k) eqn:Hw; [|done]. simpl in Hk.
    destruct (vs !! k) eqn:Hv; [|done]. simplify_eq/=. apply Z.eqb_eq.
    pose proof (proj1 (Forall_lookup _ _) Hvs _ _ Hv) as Hvu.
    apply Z.bits_inj'. intros n Hn. rewrite Z.land_spec.
    destruct (Z.testbit v n) eqn:Hb; [|apply andb_false_r]. rewrite andb_true_r.
    destruct (Z.lt_ge_cases n 64); [|by rewrite is_u_testbit in Hb].
    apply (H (Z.of_nat k) w v n); rewrite ?zget_nat; done.
Qed.

(** [superset_of] decides inclusion of the two sets among masks of the
    same or smaller length; when the other mask merely has more words it
    answers [false] even if they are all zero and the inclusion holds. *)
Theorem superset_of_decides a b S R :
  bitset_repr a S -> bitset_repr b R ->
  (bitset_superset_of a b = true <->
   R ⊆ S /\ zlen (bitset_words b) <= zlen (bitset_words a)).
Proof.
  intros Ha Hb. unfold bitset_superset_of.
  destruct (Z.ltb_spec (zlen (bitset_words a)) (zlen (bitset_words b))); [split; [done|lia]|].
  rewrite zip_land_spec by (apply Ha || apply Hb || done). split.
  - intros H'. split; [|done]. intros i Hi.
    pose proof (bp_nonneg _ _ Hb i Hi) as H0. pose proof (Z.mod_pos_bound i 64 ltac:(lia)).
    apply (bool_decide_eq_true (i ∈ R)) in Hi. rewrite <- (bp_test _ _ Hb), test_word in Hi by done.
    destruct (bitset_words b !z (i / 64)) as [v|] eqn:Hv; [|done]. pose proof (zget_Some _ _ _ Hv).
    destruct (proj2 (zget_is_Some (bitset_words a) (i / 64))) as [w Hw]; [lia|].
    apply (bool_decide_eq_true (i ∈ S)). rewrite <- (bp_test _ _ Ha), test_word, Hw by done. eauto.
  - intros [Hsub _] k w v n Hw Hv Hn Ht. pose proof (zget_Some _ _ _ Hw).
    set (i := k * 64 + n).
    assert (i / 64 = k /\ i mod 64 = n) as [Hd Hm].
    { unfold i. rewrite (Z.add_comm (k * 64)), Z.div_add, Z.mod_add, Z.mod_small, Z.div_small by lia. lia. }
    assert (0 <= i) by (unfold i; lia).
    assert (i ∈ S) as Hin.
    { apply Hsub, (bool_decide_eq_true (i ∈ R)). by rewrite <- (bp_test _ _ Hb), test_word, Hd, Hm, Hv. }
    apply (bool_decide_eq_true (i ∈ S)) in Hin. by rewrite <- (bp_test _ _ Ha), test_word, Hd, Hm, Hw in Hin.
Qed.

Lemma superset_of_decides_witness :
  bitset_superset_of (bitset_new 10) (bitset_new 100) = false /\ (∅ : gset Z) ⊆ ∅.
Proof.
  split; [|done]. apply not_true_is_false. intros H.
  apply (superset_of_decides (bitset_new 10) (bitset_new 100) ∅ ∅ (bitset_repr_new 10) (bitset_repr_new 100)) in H.
  destruct H as [_ H]. vm_compute in H. by apply H.
Defined.
