(* ===== verification/Entities.v ===== *)
(** The entity table of [kernel/ecs/entity.rs] and the set of live entities it
    represents. *)

From stdpp Require Import gmap sets.
From S2P Require Import Prelude.

Record Entity := mkEntity {
  e_index : Z;
  e_generation : Z
}.

#[global] Instance Entity_eq_dec : EqDecision Entity.
Proof. solve_decision. Defined.
#[global] Instance Entity_countable : Countable Entity.
Proof.
  refine (inj_countable' (fun e => (e_index e, e_generation e)) (fun '(i, g) => mkEntity i g) _).
  by intros [].
Defined.

Module EntityError.
Inductive EntityError :=
| IndexOverflow
| AllocationFailed.
End EntityError.
Abbreviation EntityError := EntityError.EntityError.

Definition Entity_INVALID : Entity := mkEntity U32_MAX U32_MAX.
Definition entity_is_valid (e : Entity) : bool := negb (bool_decide (e = Entity_INVALID)).

(** Both fields of an [Entity] are [u32]. *)
Definition entity_u32 (e : Entity) : Prop := is_u 32 (e_index e) /\ is_u 32 (e_generation e).

Record Entities := mkEntities {
  en_generations : list Z;
  en_free : list Z;
  en_live : Z
}.

Definition entities_new : Entities := mkEntities [] [] 0.

(** [self.generations[slot]] panics out of range: the outer [None]. *)
Definition entities_try_create (A : alloc) (t : Entities) : option (Entities * result EntityError Entity) :=
  match vec_pop (en_free t) with
  | Some (slot, free) =>
      old ← en_generations t !z slot;
      let generation := default 0 (checked_add 32 old 1) in
      Some (mkEntities (zset (en_generations t) slot generation) free (en_live t + 1),
            Ok (mkEntity slot generation))
  | None =>
      if U32_MAX <=? zlen (en_generations t) then Some (t, Err EntityError.IndexOverflow)
      else
        let index := wrap 32 (zlen (en_generations t)) in
        if A 0%nat then
          Some (mkEntities (en_generations t ++ [0]) (en_free t) (en_live t + 1), Ok (mkEntity index 0))
        else Some (t, Err EntityError.AllocationFailed)
  end.

Definition entities_is_alive (t : Entities) (e : Entity) : bool :=
  match en_generations t !z (e_index e) with
  | Some g => (g =? e_generation e) && negb (bool_decide (e_index e ∈ en_free t))
  | None => false
  end.

Definition entities_try_destroy (A : alloc) (t : Entities) (e : Entity) : Entities * result EntityError bool :=
  let slot := e_index e in
  if (zlen (en_generations t) <=? slot) || negb (entities_is_alive t e) then (t, Ok false)
  else if A 0%nat then
    (mkEntities (en_generations t) (en_free t ++ [wrap 32 slot]) (en_live t - 1), Ok true)
  else (t, Err EntityError.AllocationFailed).

Definition entities_destroy (A : alloc) (t : Entities) (e : Entity) : Entities * bool :=
  match entities_try_destroy A t e with
  | (t, Ok b) => (t, b)
  | (t, Err _) => (t, false)
  end.

Definition entities_watermark (t : Entities) : Z := zlen (en_generations t).

Definition entities_generation_at (t : Entities) (index : Z) : option Z := en_generations t !z index.

Fixpoint entities_collect (free : list Z) (i : Z) (gens : list Z) : list Entity :=
  match gens with
  | [] => []
  | g :: gens =>
      if bool_decide (wrap 32 i ∈ free) then entities_collect free (i + 1) gens
      else mkEntity (wrap 32 i) g :: entities_collect free (i + 1) gens
  end.
Definition entities_iter (t : Entities) : list Entity := entities_collect (en_free t) 0 (en_generations t).

(** ** Live entities

    [L] is the set of live entities; [n] bounds the generations, so that the
    wrap to generation 0 is out of reach. *)
Record entities_repr (t : Entities) (L : gset Entity) (n : Z) : Prop := {
  er_len : zlen (en_generations t) <= U32_MAX;
  er_count : zlen (en_generations t) <= n;
  er_free : NoDup (en_free t);
  er_range i : i ∈ en_free t -> 0 <= i < zlen (en_generations t);
  er_bound i g : en_generations t !z i = Some g -> 0 <= g <= n;
  er_alive e : entities_is_alive t e = bool_decide (e ∈ L);
  er_live : en_live t = Z.of_nat (size L)
}.

Lemma alive_spec t e :
  entities_is_alive t e = true <-> en_generations t !z (e_index e) = Some (e_generation e) /\ e_index e ∉ en_free t.
Proof.
  unfold entities_is_alive. destruct (_ !z _) as [g|]; [|naive_solver].
  rewrite andb_true_iff, negb_true_iff, bool_decide_eq_false, Z.eqb_eq. naive_solver.
Qed.

Lemma in_live t L n e :
  entities_repr t L n ->
  e ∈ L <-> en_generations t !z (e_index e) = Some (e_generation e) /\ e_index e ∉ en_free t.
Proof. intros Hr. rewrite <- alive_spec, (er_alive _ _ _ Hr). by rewrite bool_decide_eq_true. Qed.

(** An index carries at most one live generation. *)
Lemma live_index_inj t L n e e' :
  entities_repr t L n -> e ∈ L -> e' ∈ L -> e_index e = e_index e' -> e = e'.
Proof.
  intros Hr He He' Hi. apply (in_live t L n e Hr) in He as [Hg _].
  apply (in_live t L n e' Hr) in He' as [Hg' _]. destruct e, e'. simpl in *. congruence.
Qed.

Lemma live_range t L n e : entities_repr t L n -> e ∈ L -> 0 <= e_index e < zlen (en_generations t).
Proof. intros Hr He. apply (in_live t L n e Hr) in He as [Hg _]. by eapply zget_Some. Qed.

Lemma repr_weaken t L n n' : n <= n' -> entities_repr t L n -> entities_repr t L n'.
Proof. intros ? []. split; try done; [lia|]. intros i g Hg. specialize (er_bound0 i g Hg). lia. Qed.

Lemma entities_repr_empty : entities_repr entities_new ∅ 0.
Proof.
  split; simpl; try done.
  - constructor.
  - intros i Hi. by apply not_elem_of_nil in Hi.
  - intros i g Hg. apply zget_Some in Hg. zsimp. lia.
  - intros e. unfold entities_is_alive. simpl. rewrite (proj2 (zget_None _ _)) by (zsimp; lia).
    symmetry. apply bool_decide_eq_false. set_solver.
Qed.

Lemma bool_eq_iff (b c : bool) : (b = true <-> c = true) -> b = c.
Proof. destruct b, c; naive_solver. Qed.

(** Adding a live entity at a slot that no live entity uses. *)
Lemma repr_spawn t L n gens free e n' :
  entities_repr t L n -> e ∉ L -> n <= n' ->
  zlen gens <= U32_MAX -> zlen gens <= n' -> NoDup free ->
  (forall i, i ∈ free -> 0 <= i < zlen gens) ->
  (forall i g, gens !z i = Some g -> 0 <= g <= n') ->
  (forall e', gens !z (e_index e') = Some (e_generation e') /\ e_index e' ∉ free <-> e' = e \/ e' ∈ L) ->
  entities_repr (mkEntities gens free (en_live t + 1)) ({[e]} ∪ L) n'.
Proof.
  intros Hr He Hn Hl Hl' Hf Hfr Hb Hspec. split; simpl; try done.
  - intros e'. apply bool_eq_iff. rewrite alive_spec, bool_decide_eq_true. simpl. rewrite Hspec. set_solver.
  - rewrite (er_live _ _ _ Hr), size_union, size_singleton by set_solver. lia.
Qed.

(** What a successful [try_create] gives: a handle that was not live, on a slot
    no live entity uses, newer than whatever the slot held. *)
Record created (t t' : Entities) (L : gset Entity) (n : Z) (e : Entity) : Prop := {
  cr_fresh : e ∉ L;
  cr_repr : entities_repr t' ({[e]} ∪ L) (n + 1);
  cr_u32 : entity_u32 e;
  cr_range : e_index e < zlen (en_generations t');
  cr_slot e' : e_index e' = e_index e -> e' ∉ L;
  cr_newer g : en_generations t !z (e_index e) = Some g -> g < e_generation e;
  cr_gens i : i <> e_index e -> en_generations t' !z i = en_generations t !z i
}.

Lemma create_recycled t L n slot free g :
  entities_repr t L n -> 0 <= n -> n + 1 < 2 ^ 32 ->
  en_free t = free ++ [slot] -> en_generations t !z slot = Some g ->
  created t (mkEntities (zset (en_generations t) slot (g + 1)) free (en_live t + 1)) L n (mkEntity slot (g + 1)).
Proof.
  intros Hr H0 Hn Hpop Hg. set (e := mkEntity slot (g + 1)).
  pose proof (zget_Some _ _ _ Hg) as Hslot. pose proof (er_bound _ _ _ Hr slot g Hg).
  assert (forall e', e_index e' = slot -> e' ∉ L) as Hdead.
  { intros e' He' Hin. apply (in_live t L n e' Hr) in Hin as [_ Hin]. rewrite He', Hpop in Hin. set_solver. }
  pose proof (er_free _ _ _ Hr) as Hnd. rewrite Hpop in Hnd. apply list.NoDup_app in Hnd as (Hnd & Hni & _).
  assert (slot ∉ free) by set_solver. pose proof (er_len _ _ _ Hr).
  split; simpl; try done.
  - by apply Hdead.
  - apply (repr_spawn t L n); try done; rewrite ?zlen_zset; try done; [by apply Hdead|lia|pose proof (er_count _ _ _ Hr); lia| | |].
    + intros i Hi. apply (er_range _ _ _ Hr). rewrite Hpop. set_solver.
    + intros i g'. destruct (Z.eq_dec slot i) as [<-|Hne].
      * rewrite zget_zset_eq by done. intros [= <-]. lia.
      * rewrite zget_zset_ne by done. intros Hg'. pose proof (er_bound _ _ _ Hr i g' Hg'). lia.
    + intros e'. rewrite (in_live t L n e' Hr), Hpop. destruct (Z.eq_dec slot (e_index e')) as [He|Hne].
      * rewrite <- He, zget_zset_eq by done. split.
        -- intros [[= Hge] _]. left. unfold e. destruct e'. simpl in *. congruence.
        -- intros [->|[_ Hin]]; [done|]. set_solver.
      * rewrite zget_zset_ne by done. split; [intros [? ?]; right; set_solver|].
        intros [->|[? ?]]; [done|set_solver].
  - unfold entity_u32, is_u, U32_MAX in *. simpl. lia.
  - rewrite zlen_zset. lia.
  - intros g' Hg'. simplify_eq. lia.
  - intros i Hi. by rewrite zget_zset_ne.
Qed.

Lemma create_appended t L n :
  entities_repr t L n -> 0 <= n -> en_free t = [] -> zlen (en_generations t) < U32_MAX ->
  created t (mkEntities (en_generations t ++ [0]) (en_free t) (en_live t + 1)) L n
    (mkEntity (zlen (en_generations t)) 0).
Proof.
  intros Hr H0 Hpop Hlen. pose proof (zlen_nonneg (en_generations t)) as Hz.
  set (N := zlen (en_generations t)) in *. set (e := mkEntity N 0).
  assert (en_generations t !z N = None) as HN by (apply zget_None; unfold N; lia).
  assert (forall e', e_index e' = N -> e' ∉ L) as Hdead.
  { intros e' He' Hin. apply (live_range t L n e' Hr) in Hin. lia. }
  assert (forall i, i <> N -> (en_generations t ++ [0]) !z i = en_generations t !z i) as Happ.
  { intros i Hi. destruct (Z.lt_ge_cases i N); [by apply zget_app_l|].
    rewrite !(proj2 (zget_None _ _)); [done|unfold N in *; lia|zsimp; unfold N in *; lia]. }
  split; simpl; try done.
  - by apply Hdead.
  - rewrite Hpop. apply (repr_spawn t L n); try done; [by apply Hdead|lia|zsimp; lia|zsimp; pose proof (er_count _ _ _ Hr); unfold N in *; lia|constructor| | |].
    + intros i Hi. by apply not_elem_of_nil in Hi.
    + intros i g Hg. destruct (Z.eq_dec i N) as [->|Hne].
      * unfold N in Hg. rewrite zget_snoc in Hg. simplify_eq. lia.
      * rewrite Happ in Hg by done. pose proof (er_bound _ _ _ Hr i g Hg). lia.
    + intros e'. rewrite (in_live t L n e' Hr), Hpop. destruct (Z.eq_dec (e_index e') N) as [He|Hne].
      * rewrite He, HN. unfold N at 1. rewrite zget_snoc. split.
        -- intros [[= Hg] _]. left. unfold e. destruct e'. simpl in *. congruence.
        -- intros [->|[? ?]]; [|done]. split; [done|apply not_elem_of_nil].
      * rewrite Happ by done. split; [by right|]. by intros [->|?].
  - unfold entity_u32, is_u, U32_MAX in *. simpl. lia.
  - zsimp. unfold N. lia.
  - intros g Hg. congruence.
Qed.

Lemma create_refines A t L n :
  entities_repr t L n -> 0 <= n -> n + 1 < 2 ^ 32 ->
  exists t' r, entities_try_create A t = Some (t', r) /\
  match r with Ok e => created t t' L n e | Err _ => t' = t /\ A 0%nat = false end.
Proof.
  intros Hr H0 Hn. unfold entities_try_create.
  destruct (vec_pop (en_free t)) as [[slot free]|] eqn:Hpop.
  - apply vec_pop_Some in Hpop. pose proof (er_range _ _ _ Hr slot) as Hslot.
    rewrite Hpop in Hslot. specialize (Hslot ltac:(set_solver)).
    destruct (proj2 (zget_is_Some (en_generations t) slot) Hslot) as [g Hg].
    pose proof (er_bound _ _ _ Hr slot g Hg). rewrite Hg. simpl.
    rewrite (proj2 (checked_add_Some 32 g 1 (g + 1))) by (unfold umax; lia). simpl.
    do 2 eexists. split; [done|]. by apply create_recycled.
  - apply vec_pop_None in Hpop. destruct (Z.leb_spec U32_MAX (zlen (en_generations t))) as [|Hlen].
    { pose proof (er_count _ _ _ Hr). unfold U32_MAX in *. lia. }
    destruct (A 0%nat) eqn:HA; [|by exists t, (Err EntityError.AllocationFailed)].
    pose proof (zlen_nonneg (en_generations t)).
    rewrite wrap_small by (unfold is_u, U32_MAX in *; lia).
    do 2 eexists. split; [done|]. by apply create_appended.
Qed.

Lemma destroy_refines A t L n e :
  entities_repr t L n ->
  exists t' r, entities_try_destroy A t e = (t', r) /\
  en_generations t' = en_generations t /\
  match r with
  | Ok b => b = bool_decide (e ∈ L) /\ entities_repr t' (L ∖ {[e]}) n
  | Err _ => t' = t /\ e ∈ L
  end.
Proof.
  intros Hr. unfold entities_try_destroy.
  assert (e ∉ L -> exists t' (r : result EntityError bool), (t, Ok false) = (t', r) /\ en_generations t' = en_generations t /\
    match r with Ok b => b = bool_decide (e ∈ L) /\ entities_repr t' (L ∖ {[e]}) n | Err _ => t' = t /\ e ∈ L end) as Hdead.
  { intros He. exists t, (Ok false). split; [done|]. split; [done|]. split; [by rewrite bool_decide_false|].
    by replace (L ∖ {[e]}) with L by set_solver. }
  destruct (Z.leb_spec (zlen (en_generations t)) (e_index e)); simpl.
  { apply Hdead. intros Hin. apply (live_range t L n e Hr) in Hin. lia. }
  rewrite (er_alive _ _ _ Hr). case_bool_decide as He; simpl; [|by apply Hdead]. clear Hdead.
  pose proof (live_range t L n e Hr He). pose proof (er_len _ _ _ Hr).
  destruct (A 0%nat); [|by exists t, (Err EntityError.AllocationFailed)].
  rewrite wrap_small by (unfold is_u, U32_MAX in *; lia).
  pose proof (proj1 (in_live t L n e Hr) He) as [Hg Hnf].
  do 2 eexists. split; [done|]. split; [done|]. split; [done|]. split; simpl; try apply Hr.
  - apply list.NoDup_app. split; [apply Hr|]. split; [set_solver|by apply NoDup_singleton].
  - intros i Hi. apply elem_of_app in Hi as [Hi|Hi]; [by apply (er_range _ _ _ Hr)|]. set_solver.
  - intros e'. apply bool_eq_iff. rewrite alive_spec, bool_decide_eq_true. simpl.
    rewrite elem_of_difference, (in_live t L n e' Hr). split.
    + intros [Hg' Hn']. split; [split; set_solver|]. intros ->%elem_of_singleton. set_solver.
    + intros [[Hg' Hn'] Hne]. split; [done|]. intros Hin. apply elem_of_app in Hin as [Hin|Hin]; [done|].
      apply Hne, elem_of_singleton, (live_index_inj t L n); [done| |done|set_solver].
      by apply (in_live t L n e' Hr).
  - rewrite (er_live _ _ _ Hr), size_difference, size_singleton by set_solver.
    assert (size L <> 0%nat) by (intros Hs; apply size_empty_inv in Hs; set_solver). lia.
Qed.

Lemma entities_collect_spec free gens : forall i e,
  0 <= i -> i + zlen gens <= 2 ^ 32 ->
  e ∈ entities_collect free i gens <->
  i <= e_index e /\ gens !z (e_index e - i) = Some (e_generation e) /\ e_index e ∉ free.
Proof.
  induction gens as [|g gens IH]; intros i e Hi Hlen; simpl.
  { split; [by intros ?%not_elem_of_nil|]. intros (_ & Hx & _). apply zget_Some in Hx. zsimp. lia. }
  zsimp. pose proof (zlen_nonneg gens). rewrite wrap_small by (unfold is_u; lia).
  assert (forall j, i < j -> (g :: gens) !z (j - i) = gens !z (j - (i + 1))) as Htail.
  { intros j Hj. rewrite !zget_lookup by lia.
    by replace (Z.to_nat (j - i)) with (S (Z.to_nat (j - (i + 1)))) by lia. }
  assert (forall j, (i + 1 <= j /\ gens !z (j - (i + 1)) = Some (e_generation e) /\ j ∉ free) <->
    i < j /\ (g :: gens) !z (j - i) = Some (e_generation e) /\ j ∉ free) as Hiff.
  { intros j. split; intros (? & ? & ?); (split; [lia|]); rewrite Htail in * by lia; done. }
  case_bool_decide as Hf; rewrite ?elem_of_cons, IH, Hiff by lia.
  - split; [intros (? & ? & ?); split; [lia|done]|]. intros (? & ? & Hn).
    split; [|done]. assert (i <> e_index e) by congruence. lia.
  - split.
    + intros [->|(? & ? & ?)]; simpl; [rewrite Z.sub_diag|]; (split; [lia|done]).
    + intros (? & Hx & Hn). destruct (Z.eq_dec (e_index e) i) as [He|]; [left|right; split; [lia|done]].
      rewrite He, Z.sub_diag in Hx. injection Hx as ->. destruct e. simpl in *. congruence.
Qed.

Lemma iter_spec t L n e : entities_repr t L n -> e ∈ entities_iter t <-> e ∈ L.
Proof.
  intros Hr. unfold entities_iter. pose proof (er_len _ _ _ Hr). unfold U32_MAX in *.
  rewrite entities_collect_spec by lia. rewrite Z.sub_0_r, (in_live t L n e Hr). split; [tauto|].
  intros [Hg Hn]. pose proof (zget_Some _ _ _ Hg). split; [lia|done].
Qed.

(** ** Traces of handles *)
Inductive entity_event :=
| EvCreate (A : alloc)
| EvDestroy (A : alloc) (e : Entity)
| EvAlive (e : Entity).

(** The specification's state: the live handles, and every handle ever given
    out.  [entities_agrees] runs both and states what each call answers. *)
Fixpoint entities_agrees (t : Entities) (L E : gset Entity) (evs : list entity_event) : Prop :=
  match evs with
  | [] => L ⊆ E /\ en_live t = Z.of_nat (size L) /\ forall e, e ∈ entities_iter t <-> e ∈ L
  | EvCreate A :: evs =>
      exists t' r, entities_try_create A t = Some (t', r) /\
      match r with
      | Ok e => e ∉ E /\ entities_agrees t' ({[e]} ∪ L) ({[e]} ∪ E) evs
      | Err _ => entities_agrees t' L E evs
      end
  | EvDestroy A e :: evs =>
      exists t' r, entities_try_destroy A t e = (t', r) /\
      match r with
      | Ok b => b = bool_decide (e ∈ L) /\ entities_agrees t' (L ∖ {[e]}) E evs
      | Err _ => entities_agrees t' L E evs
      end
  | EvAlive e :: evs => entities_is_alive t e = bool_decide (e ∈ L) /\ entities_agrees t L E evs
  end.

(** Everything ever issued sits at or below its slot's generation. *)
Definition issued_below (t : Entities) (E : gset Entity) : Prop :=
  forall e, e ∈ E -> exists g, en_generations t !z (e_index e) = Some g /\ e_generation e <= g.

Lemma issued_create t t' L E n e :
  entities_repr t L n -> created t t' L n e -> issued_below t E -> e ∉ E /\ issued_below t' ({[e]} ∪ E).
Proof.
  intros Hr Hc HE. split.
  - intros Hin. destruct (HE e Hin) as (g & Hg & Hle). pose proof (cr_newer _ _ _ _ _ Hc g Hg). lia.
  - destruct (proj1 (in_live t' _ _ e (cr_repr _ _ _ _ _ Hc))) as [Hge _]; [set_solver|].
    intros x Hx. destruct (Z.eq_dec (e_index x) (e_index e)) as [He|Hne].
    + rewrite He. exists (e_generation e). split; [done|].
      apply elem_of_union in Hx as [->%elem_of_singleton|Hx]; [done|].
      destruct (HE x Hx) as (g & Hg & Hle). rewrite He in Hg. pose proof (cr_newer _ _ _ _ _ Hc g Hg). lia.
    + rewrite (cr_gens _ _ _ _ _ Hc) by done. apply HE. set_solver.
Qed.

Lemma entities_agrees_run evs : forall t L E n,
  entities_repr t L n -> issued_below t E -> L ⊆ E -> 0 <= n -> n + zlen evs < 2 ^ 32 -> entities_agrees t L E evs.
Proof.
  induction evs as [|ev evs IH]; intros t L E n Hr HE HL H0 Hn; simpl.
  { split; [done|]. split; [apply Hr|]. intros e. by eapply iter_spec. }
  zsimp. pose proof (zlen_nonneg evs). destruct ev as [A|A e|e].
  - destruct (create_refines A t L n Hr H0) as (t' & r & He & Hc); [lia|]. exists t', r. split; [done|].
    destruct r as [e|err]; [|destruct Hc as [-> _]; by apply (IH t L E n); [..|lia|lia]].
    destruct (issued_create t t' L E n e Hr Hc HE) as [Hne HE']. split; [done|].
    apply (IH _ _ _ (n + 1)); [apply Hc|done|set_solver|lia|lia].
  - destruct (destroy_refines A t L n e Hr) as (t' & r & He & Hg & Hc). exists t', r. split; [done|].
    assert (issued_below t' E) as HE' by (unfold issued_below; by rewrite Hg).
    destruct r as [b|err].
    + destruct Hc as [-> Hc]. split; [done|]. apply (IH _ _ _ n); [done|done|set_solver|lia|lia].
    + destruct Hc as [-> _]. apply (IH _ _ _ n); [done|done|done|lia|lia].
  - split; [apply Hr|]. apply (IH _ _ _ n); [done|done|done|lia|lia].
Qed.

(** C18: the entity table over fewer than [2^32] calls.  Every handle it
    creates differs from all handles given out before; [is_alive] answers for
    any handle, stale or forged, whether it was created and not destroyed
    since; a dead handle is not destroyed twice; failed allocations change
    nothing; and [iter] and [live] list and count the live handles. *)
Theorem entities_handles_fresh evs :
  zlen evs < 2 ^ 32 -> entities_agrees entities_new ∅ ∅ evs.
Proof.
  intros Hl. apply (entities_agrees_run evs _ _ _ 0); [apply entities_repr_empty| |done|lia|lia].
  intros e He. set_solver.
Qed.

Lemma entities_handles_fresh_witness :
  let e := mkEntity 0 0 in
  let evs := [EvCreate alloc_all; EvDestroy alloc_all e; EvCreate alloc_all; EvAlive e; EvDestroy alloc_all e] in
  zlen evs < 2 ^ 32 /\ entities_agrees entities_new ∅ ∅ evs.
Proof. intros e evs. split; [done|]. apply (entities_handles_fresh evs). done. Defined.
