(* ===== verification/Storage.v ===== *)
(** The sparse-set component storage of [kernel/ecs/storage.rs] as a finite
    map from entity indices to a generation and a value. *)

From stdpp Require Import gmap sets.
From S2P Require Import Prelude Bitset Entities.

Module StorageError.
Inductive StorageError :=
| IndexOverflow
| AllocationFailed.
End StorageError.
Abbreviation StorageError := StorageError.StorageError.

Record ComponentStorage (T : Type) := mkStorage {
  cs_sparse : list (option Z);
  cs_generations : list Z;
  cs_dense : list T;
  cs_presence : Bitset
}.
Arguments mkStorage {T}. Arguments cs_sparse {T}. Arguments cs_generations {T}.
Arguments cs_dense {T}. Arguments cs_presence {T}.

Section Operations.
Context {T : Type}.
Implicit Types (s : ComponentStorage T) (e : Entity).

Definition storage_new : ComponentStorage T := mkStorage [] [] [] (bitset_new 0).

Definition storage_ensure_index (A : alloc) s e : ComponentStorage T * result StorageError unit :=
  match checked_add 64 (e_index e) 1 with
  | None => (s, Err StorageError.IndexOverflow)
  | Some need =>
      if zlen (cs_sparse s) <? need then
        if A 0%nat && A 1%nat then
          (mkStorage (resize need None (cs_sparse s)) (resize need 0 (cs_generations s))
             (cs_dense s) (cs_presence s), Ok tt)
        else (s, Err StorageError.AllocationFailed)
      else (s, Ok tt)
  end.

Definition storage_bitset_error (e : BitsetError) : StorageError :=
  match e with
  | BitsetError.InvalidIndex => StorageError.IndexOverflow
  | BitsetError.AllocationFailed => StorageError.AllocationFailed
  end.

(** The two tables of [try_insert] after [generations[idx] = generation]:
    replace in place, or push on [dense]. *)
Definition storage_place (A : alloc) s (idx : Z) (value : T) :
    option (ComponentStorage T * result StorageError unit) :=
  slot ← cs_sparse s !z idx;
  match slot with
  | Some pos =>
      _ ← cs_dense s !z pos;
      Some (mkStorage (cs_sparse s) (cs_generations s) (zset (cs_dense s) pos value) (cs_presence s), Ok tt)
  | None =>
      if A 3%nat then
        let pos := zlen (cs_dense s) in
        Some (mkStorage (zset (cs_sparse s) idx (Some (wrap 32 pos))) (cs_generations s)
                (cs_dense s ++ [value]) (cs_presence s), Ok tt)
      else Some (s, Err StorageError.AllocationFailed)
  end.

Definition with_presence s p := mkStorage (cs_sparse s) (cs_generations s) (cs_dense s) p.
Definition with_generation s idx g :=
  mkStorage (cs_sparse s) (zset (cs_generations s) idx g) (cs_dense s) (cs_presence s).

Definition storage_try_insert (A : alloc) s e (value : T) :
    option (ComponentStorage T * result StorageError unit) :=
  match storage_ensure_index A s e with
  | (s, Err err) => Some (s, Err err)
  | (s, Ok _) =>
      let idx := e_index e in
      match bitset_try_reserve (shift 2 A) (cs_presence s) idx with
      | (p, Err err) => Some (with_presence s p, Err (storage_bitset_error err))
      | (p, Ok _) =>
          let s := with_presence s p in
          _ ← cs_generations s !z idx;
          '(s, placed) ← storage_place A (with_generation s idx (e_generation e)) idx value;
          match placed with
          | Err err => Some (s, Err err)
          | Ok _ => '(p, _) ← bitset_set (cs_presence s) idx; Some (with_presence s p, Ok tt)
          end
      end
  end.

(** [None] of the index tests; panics of the unchecked accesses are the outer
    [None]. *)
Definition storage_stale s e : bool :=
  (zlen (cs_sparse s) <=? e_index e) ||
  match cs_generations s !z (e_index e) with Some g => negb (g =? e_generation e) | None => false end.

Definition storage_remove s e : option (ComponentStorage T * option T) :=
  let idx := e_index e in
  if storage_stale s e then Some (s, None)
  else
    _ ← cs_generations s !z idx;
    slot ← cs_sparse s !z idx;
    match slot with
    | None => Some (s, None)
    | Some pos =>
        let len_before := zlen (cs_dense s) in
        '(removed, dense) ← vec_swap_remove (cs_dense s) pos;
        let sparse :=
          if negb (pos =? len_before - 1) then
            let moved_from := wrap 32 (len_before - 1) in
            match vec_position (fun p => bool_decide (p = Some moved_from)) (cs_sparse s) with
            | Some moved => zset (cs_sparse s) moved (Some (wrap 32 pos))
            | None => cs_sparse s
            end
          else cs_sparse s in
        Some (mkStorage (zset sparse idx None) (cs_generations s) dense
                (bitset_clear (cs_presence s) idx).1, Some removed)
    end.

Definition storage_get s e : option (option T) :=
  if storage_stale s e then Some None
  else
    _ ← cs_generations s !z (e_index e);
    slot ← cs_sparse s !z (e_index e);
    match slot with
    | None => Some None
    | Some pos => v ← cs_dense s !z pos; Some (Some v)
    end.

(** [get_mut] and the caller's write [f]; the answer is whether there was
    something to write to. *)
Definition storage_get_mut s e (f : T -> T) : option (ComponentStorage T * bool) :=
  if storage_stale s e then Some (s, false)
  else
    _ ← cs_generations s !z (e_index e);
    slot ← cs_sparse s !z (e_index e);
    match slot with
    | None => Some (s, false)
    | Some pos =>
        match cs_dense s !z pos with
        | Some v => Some (mkStorage (cs_sparse s) (cs_generations s) (zset (cs_dense s) pos (f v)) (cs_presence s), true)
        | None => Some (s, false)
        end
    end.

Definition storage_contains s e : option bool :=
  if zlen (cs_sparse s) <=? e_index e then Some false
  else
    g ← cs_generations s !z (e_index e);
    if negb (g =? e_generation e) then Some false
    else slot ← cs_sparse s !z (e_index e); Some (match slot with Some _ => true | None => false end).

Definition storage_generation_at s (idx : Z) : option (option Z) :=
  if zlen (cs_sparse s) <=? idx then Some None
  else
    slot ← cs_sparse s !z idx;
    match slot with Some _ => g ← cs_generations s !z idx; Some (Some g) | None => Some None end.

Definition storage_len s : Z := zlen (cs_dense s).
End Operations.

(** ** The map a storage represents

    [owners] is the inverse of [sparse]: the entity index of each dense slot. *)
Section Repr.
Context {T : Type}.
Implicit Types (s : ComponentStorage T) (M : gmap Z (Z * T)) (owners : list Z).

Record tables_repr (sparse : list (option Z)) (gens : list Z) (dense : list T) M owners : Prop := {
  tr_gens : zlen gens = zlen sparse;
  tr_len : zlen sparse <= 2 ^ 32;
  tr_dense : zlen owners = zlen dense;
  tr_inv i pos : sparse !z i = Some (Some pos) <-> owners !z pos = Some i;
  tr_map i : M !! i = (pos ← mjoin (sparse !z i); g ← gens !z i; v ← dense !z pos; Some (g, v))
}.

Record storage_repr s M : Prop := {
  sr_tables : exists owners, tables_repr (cs_sparse s) (cs_generations s) (cs_dense s) M owners;
  sr_presence : bitset_repr (cs_presence s) (dom M)
}.

Lemma owners_inj sparse gens dense M owners p q i :
  tables_repr sparse gens dense M owners -> owners !z p = Some i -> owners !z q = Some i -> p = q.
Proof. intros Hr Hp Hq. apply (tr_inv _ _ _ _ _ Hr) in Hp, Hq. congruence. Qed.

Lemma owners_nodup sparse gens dense M owners : tables_repr sparse gens dense M owners -> NoDup owners.
Proof.
  intros Hr. apply NoDup_alt. intros i j x Hi Hj. apply Nat2Z.inj.
  apply (owners_inj sparse gens dense M owners _ _ x Hr); by rewrite zget_nat.
Qed.

Lemma owner_sparse sparse gens dense M owners i :
  tables_repr sparse gens dense M owners -> i ∈ owners -> exists pos, sparse !z i = Some (Some pos).
Proof.
  intros Hr Hi. apply list_elem_of_lookup in Hi as [k Hk]. rewrite <- zget_nat in Hk.
  exists (Z.of_nat k). by apply (tr_inv _ _ _ _ _ Hr).
Qed.

(** Distinct owners inside the table: at most as many dense slots as table
    entries, and fewer when some entry is empty. *)
Lemma owners_le sparse gens dense M owners :
  tables_repr sparse gens dense M owners -> zlen dense <= zlen sparse.
Proof.
  intros Hr. rewrite <- (tr_dense _ _ _ _ _ Hr). pose proof (zlen_nonneg sparse).
  assert (owners ⊆+ seqZ 0 (zlen sparse)) as Hsub%submseteq_length.
  { apply NoDup_submseteq; [by eapply owners_nodup|]. intros i Hi.
    destruct (owner_sparse _ _ _ _ _ _ Hr Hi) as [pos Hp%zget_Some]. apply elem_of_seqZ. lia. }
  rewrite length_seqZ in Hsub. unfold zlen in *. lia.
Qed.

Lemma owners_room sparse gens dense M owners idx :
  tables_repr sparse gens dense M owners -> sparse !z idx = Some None -> zlen dense < zlen sparse.
Proof.
  intros Hr Hidx. rewrite <- (tr_dense _ _ _ _ _ Hr). pose proof (zget_Some _ _ _ Hidx) as Hi.
  assert (idx :: owners ⊆+ seqZ 0 (zlen sparse)) as Hsub%submseteq_length.
  { apply NoDup_submseteq.
    - apply list.NoDup_cons. split; [|by eapply owners_nodup]. intros Hin.
      destruct (owner_sparse _ _ _ _ _ _ Hr Hin) as [pos Hp]. congruence.
    - intros i [->|Hin]%elem_of_cons; apply elem_of_seqZ; [lia|].
      destruct (owner_sparse _ _ _ _ _ _ Hr Hin) as [pos Hp%zget_Some]. lia. }
  simpl in Hsub. rewrite length_seqZ in Hsub. unfold zlen in *. lia.
Qed.

Lemma zget_resize {A} (l : list A) n x i :
  zlen l <= n ->
  (resize n x l) !z i = if (zlen l <=? i) && (i <? n) then Some x else l !z i.
Proof.
  intros Hn. pose proof (zlen_nonneg l).
  destruct (Z.leb_spec (zlen l) i), (Z.ltb_spec i n); simpl.
  - apply zget_resize_new. lia.
  - rewrite !(proj2 (zget_None _ _)); [done|lia|rewrite zlen_resize by lia; lia].
  - by apply zget_resize_old.
  - apply zget_resize_old; lia.
Qed.

Lemma tables_grow sparse gens dense M owners n :
  tables_repr sparse gens dense M owners -> zlen sparse <= n <= 2 ^ 32 ->
  tables_repr (resize n None sparse) (resize n 0 gens) dense M owners.
Proof.
  intros [Hg Hl Hd Hi Hm] Hn. pose proof (zlen_nonneg sparse). split; rewrite ?zlen_resize by lia; try done.
  - lia.
  - intros i pos. rewrite zget_resize by lia. rewrite <- Hi.
    destruct (Z.leb_spec (zlen sparse) i); simpl; [|done].
    rewrite (proj2 (zget_None sparse i)) by lia. by destruct (i <? n).
  - intros i. rewrite Hm, !zget_resize, Hg by lia.
    destruct (Z.leb_spec (zlen sparse) i); simpl; [|done].
    rewrite (proj2 (zget_None sparse i)) by lia. by destruct (i <? n).
Qed.

(** Writing the generation of an empty entry is invisible. *)
Lemma tables_gen sparse gens dense M owners idx g :
  tables_repr sparse gens dense M owners -> sparse !z idx = Some None ->
  tables_repr sparse (zset gens idx g) dense M owners.
Proof.
  intros [Hg Hl Hd Hi Hm] Hidx. split; rewrite ?zlen_zset; try done.
  intros i. rewrite Hm. destruct (Z.eq_dec idx i) as [<-|]; [by rewrite Hidx|]. by rewrite zget_zset_ne.
Qed.

Lemma tables_replace sparse gens dense M owners idx pos g v :
  tables_repr sparse gens dense M owners -> sparse !z idx = Some (Some pos) ->
  tables_repr sparse (zset gens idx g) (zset dense pos v) (<[idx := (g, v)]> M) owners.
Proof.
  intros Hr Hidx. pose proof Hr as [Hg Hl Hd Hi Hm]. split; rewrite ?zlen_zset; try done.
  pose proof (proj1 (Hi _ _) Hidx) as Ho. pose proof (zget_Some _ _ _ Ho). pose proof (zget_Some _ _ _ Hidx).
  intros i. destruct (Z.eq_dec idx i) as [<-|Hne].
  - rewrite lookup_insert_eq, Hidx. simpl. by rewrite !zget_zset_eq by lia.
  - rewrite lookup_insert_ne, Hm, zget_zset_ne by done. destruct (sparse !z i) as [[p|]|] eqn:Hp; [|done|done].
    simpl. assert (pos <> p).
    { intros <-. apply Hi in Hp. congruence. }
    by rewrite zget_zset_ne.
Qed.

Lemma tables_push sparse gens dense M owners idx g v :
  tables_repr sparse gens dense M owners -> sparse !z idx = Some None ->
  tables_repr (zset sparse idx (Some (zlen dense))) (zset gens idx g) (dense ++ [v])
    (<[idx := (g, v)]> M) (owners ++ [idx]).
Proof.
  intros Hr Hidx. pose proof Hr as [Hg Hl Hd Hi Hm]. pose proof (zget_Some _ _ _ Hidx).
  pose proof (zlen_nonneg dense). split; rewrite ?zlen_zset; try done.
  - zsimp. lia.
  - intros i pos. destruct (Z.eq_dec idx i) as [<-|Hne].
    + rewrite zget_zset_eq by done. split.
      * intros [= <-]. rewrite <- Hd. apply zget_snoc.
      * intros Ho. destruct (Z.lt_ge_cases pos (zlen owners)).
        -- rewrite zget_app_l in Ho by done. apply Hi in Ho. congruence.
        -- pose proof (zget_Some _ _ _ Ho). zsimp. do 2 f_equal. lia.
    + rewrite zget_zset_ne, Hi by done. split; intros Ho.
      * rewrite zget_app_l; [done|]. by eapply zget_Some.
      * destruct (Z.lt_ge_cases pos (zlen owners)); [by rewrite zget_app_l in Ho|].
        pose proof (zget_Some _ _ _ Ho). zsimp. assert (pos = zlen owners) as -> by lia.
        rewrite zget_snoc in Ho. congruence.
  - intros i. destruct (Z.eq_dec idx i) as [<-|Hne].
    + rewrite lookup_insert_eq, zget_zset_eq by lia. simpl.
      rewrite zget_zset_eq by lia. simpl. by rewrite zget_snoc.
    + rewrite lookup_insert_ne, Hm, !zget_zset_ne by done. destruct (sparse !z i) as [[p|]|] eqn:Hp; [|done|done].
      simpl. apply Hi, zget_Some in Hp. by rewrite zget_app_l by lia.
Qed.

(** The sparse table after a swap-remove. *)
Definition removed_sparse (sparse : list (option Z)) (idx pos len last : Z) : list (option Z) :=
  zset (if pos =? len - 1 then sparse else zset sparse last (Some pos)) idx None.

Lemma removed_sparse_get sparse owners idx pos len last i :
  owners !z pos = Some idx -> owners !z (len - 1) = Some last ->
  0 <= idx < zlen sparse -> 0 <= last < zlen sparse ->
  (removed_sparse sparse idx pos len last) !z i =
    if i =? idx then Some None else if i =? last then Some (if pos =? len - 1 then default None (sparse !z i) else Some pos)
    else sparse !z i.
Proof.
  intros Ho Hlast Hir Hlr. unfold removed_sparse. destruct (Z.eqb_spec i idx) as [->|Hne].
  { apply zget_zset_eq. destruct (pos =? _); rewrite ?zlen_zset; lia. }
  rewrite zget_zset_ne by done. destruct (Z.eqb_spec pos (len - 1)) as [Hp|Hp].
  - rewrite <- Hp in Hlast. destruct (Z.eqb_spec i last); [congruence|done].
  - destruct (Z.eqb_spec i last) as [->|]; [by apply zget_zset_eq|by rewrite zget_zset_ne].
Qed.

Lemma zlen_removed_sparse sparse idx pos len last :
  zlen (removed_sparse sparse idx pos len last) = zlen sparse.
Proof. unfold removed_sparse. rewrite zlen_zset. destruct (pos =? _); by rewrite ?zlen_zset. Qed.

(** Swap-remove: the last owner's pointer follows its value. *)
Lemma tables_remove sparse gens dense dense' owners owners' M idx pos v last :
  tables_repr sparse gens dense M owners -> sparse !z idx = Some (Some pos) ->
  owners !z (zlen dense - 1) = Some last ->
  vec_swap_remove dense pos = Some (v, dense') -> vec_swap_remove owners pos = Some (idx, owners') ->
  tables_repr (removed_sparse sparse idx pos (zlen dense) last) gens dense' (delete idx M) owners'.
Proof.
  intros Hr Hidx Hlast Hsd Hso. pose proof Hr as [Hg Hl Hd Hi Hm].
  pose proof (proj1 (Hi _ _) Hidx) as Ho. pose proof (zget_Some _ _ _ Ho) as Hpos.
  pose proof (zget_Some _ _ _ Hidx) as Hir.
  destruct (swap_remove_spec owners pos idx Ho) as (o2 & Ho2 & Hol & Hog). rewrite Hso in Ho2. simplify_eq.
  destruct (proj2 (zget_is_Some dense pos)) as [v' Hv]; [lia|].
  destruct (swap_remove_spec dense pos v' Hv) as (d2 & Hd2 & Hdl & Hdg). rewrite Hsd in Hd2. simplify_eq.
  rewrite Hd in Hog. pose proof (proj2 (Hi _ _) Hlast) as Hsl. pose proof (zget_Some _ _ _ Hsl) as Hlr.
  assert (forall i, (removed_sparse sparse idx pos (zlen dense) last) !z i =
    if i =? idx then Some None else if i =? last then Some (Some pos) else sparse !z i) as Hs.
  { intros i. rewrite (removed_sparse_get sparse owners) by done.
    destruct (Z.eqb_spec i idx); [done|]. destruct (Z.eqb_spec i last) as [->|]; [|done].
    destruct (Z.eqb_spec pos (zlen dense - 1)) as [He|]; [|done]. rewrite He in Ho. congruence. }
  split; rewrite ?zlen_removed_sparse; try done.
  - lia.
  - intros i p. rewrite Hs, Hog. destruct (Z.eqb_spec i idx) as [->|Hne].
    { split; [done|]. destruct ((0 <=? p) && _) eqn:Hpr; [|done]. zbool.
      destruct (Z.eqb_spec p pos) as [->|Hnp]; intros Hx.
      - rewrite Hlast in Hx. simplify_eq. apply Hi in Hlast. rewrite Hidx in Hlast. simplify_eq. lia.
      - apply Hi in Hx. rewrite Hidx in Hx. congruence. }
    destruct (Z.eqb_spec i last) as [->|Hnl].
    + assert (pos <> zlen dense - 1) as Hpn by (intros He; rewrite He in Ho; congruence).
      split.
      * intros [= <-]. rewrite (proj2 (Z.leb_le 0 pos)), (proj2 (Z.ltb_lt pos (zlen dense - 1))) by lia.
        simpl. by rewrite Z.eqb_refl.
      * destruct ((0 <=? p) && _) eqn:Hpr; [|done]. zbool. destruct (Z.eqb_spec p pos) as [->|]; [done|].
        intros Hx. apply Hi in Hx. rewrite Hsl in Hx. simplify_eq. lia.
    + rewrite Hi. split.
      * intros Hx. pose proof (zget_Some _ _ _ Hx). assert (p <> zlen dense - 1) by (intros ->; congruence).
        rewrite (proj2 (Z.leb_le 0 p)), (proj2 (Z.ltb_lt p (zlen dense - 1))) by lia. simpl.
        destruct (Z.eqb_spec p pos) as [->|]; [congruence|done].
      * destruct ((0 <=? p) && _) eqn:Hpr; [|done]. destruct (Z.eqb_spec p pos) as [->|]; [congruence|done].
  - intros i. rewrite Hs. destruct (Z.eqb_spec i idx) as [->|Hne]; [by rewrite lookup_delete_eq|].
    rewrite lookup_delete_ne, Hm by done. destruct (Z.eqb_spec i last) as [->|Hnl].
    + rewrite Hsl. simpl. assert (pos <> zlen dense - 1) by (intros He; rewrite He in Ho; congruence).
      rewrite Hdg, (proj2 (Z.leb_le 0 pos)), (proj2 (Z.ltb_lt pos (zlen dense - 1))) by lia. simpl.
      by rewrite Z.eqb_refl.
    + destruct (sparse !z i) as [[p|]|] eqn:Hp; [|done|done]. simpl. apply Hi in Hp. pose proof (zget_Some _ _ _ Hp).
      assert (p <> zlen dense - 1) by (intros ->; congruence). assert (p <> pos) by congruence.
      rewrite Hdg, (proj2 (Z.leb_le 0 p)), (proj2 (Z.ltb_lt p (zlen dense - 1))) by lia. simpl.
      by destruct (Z.eqb_spec p pos).
Qed.

(** The answer of a lookup in the map. *)
Definition map_get M (e : Entity) : option T :=
  '(g, v) ← M !! e_index e; if g =? e_generation e then Some v else None.

Lemma storage_repr_new : storage_repr storage_new ∅.
Proof.
  split; simpl.
  - exists []. split; try done.
    + intros i pos. rewrite !(proj2 (zget_None _ _)) by (zsimp; lia). done.
    + intros i. rewrite !(proj2 (zget_None _ i)) by (zsimp; lia). apply lookup_empty.
  - rewrite dom_empty_L. apply bitset_repr_new.
Qed.

(** One case analysis serves [get], [get_mut], [contains] and [remove]. *)
Lemma entry_cases s M (e : Entity) :
  storage_repr s M -> 0 <= e_index e ->
  (storage_stale s e = true /\ map_get M e = None /\
   (e_index e < zlen (cs_sparse s) -> exists g, cs_generations s !z (e_index e) = Some g /\ g <> e_generation e)) \/
  (storage_stale s e = false /\ cs_generations s !z (e_index e) = Some (e_generation e) /\
   cs_sparse s !z (e_index e) = Some None /\ map_get M e = None) \/
  (exists pos v, storage_stale s e = false /\ cs_generations s !z (e_index e) = Some (e_generation e) /\
   cs_sparse s !z (e_index e) = Some (Some pos) /\ cs_dense s !z pos = Some v /\
   M !! e_index e = Some (e_generation e, v) /\ map_get M e = Some v).
Proof.
  intros [[owners Hr] _] H0. unfold storage_stale, map_get. rewrite (tr_map _ _ _ _ _ Hr).
  pose proof (tr_gens _ _ _ _ _ Hr) as Hg.
  destruct (Z.leb_spec (zlen (cs_sparse s)) (e_index e)); simpl.
  { left. rewrite (proj2 (zget_None (cs_sparse s) _)) by lia. split; [done|]. split; [done|]. lia. }
  destruct (proj2 (zget_is_Some (cs_generations s) (e_index e))) as [g Hgi]; [lia|].
  destruct (proj2 (zget_is_Some (cs_sparse s) (e_index e))) as [slot Hsi]; [lia|]. rewrite Hgi, Hsi. simpl.
  destruct (Z.eqb_spec g (e_generation e)) as [->|Hne].
  - right. destruct slot as [pos|]; [right|by left]. simpl.
    pose proof (proj1 (tr_inv _ _ _ _ _ Hr _ _) Hsi) as Ho. apply zget_Some in Ho.
    rewrite (tr_dense _ _ _ _ _ Hr) in Ho.
    destruct (proj2 (zget_is_Some (cs_dense s) pos) Ho) as [v Hv]. exists pos, v. rewrite Hv. simpl.
    by rewrite Z.eqb_refl.
  - left. split; [done|]. split; [|by exists g]. destruct slot; [|done]. simpl.
    destruct (cs_dense s !z z); [|done]. simpl. by destruct (Z.eqb_spec g (e_generation e)).
Qed.

Lemma storage_get_refines s M e : storage_repr s M -> 0 <= e_index e -> storage_get s e = Some (map_get M e).
Proof.
  intros Hr H0. unfold storage_get.
  destruct (entry_cases s M e Hr H0) as [(-> & -> & _)|[(-> & -> & -> & ->)|(pos & v & -> & -> & -> & Hv & _ & ->)]];
    simpl; try done. by rewrite Hv.
Qed.

Lemma contains_refines s M e :
  storage_repr s M -> 0 <= e_index e -> storage_contains s e = Some (bool_decide (is_Some (map_get M e))).
Proof.
  intros Hr H0. unfold storage_contains.
  destruct (entry_cases s M e Hr H0) as [(Hst & -> & Hg)|[(Hst & Hg & Hs & ->)|(pos & v & Hst & Hg & Hs & _ & _ & ->)]].
  - rewrite bool_decide_eq_false_2 by (by intros []).
    destruct (Z.leb_spec (zlen (cs_sparse s)) (e_index e)); [done|]. destruct (Hg H) as (g & -> & Hne). simpl.
    by destruct (Z.eqb_spec g (e_generation e)).
  - unfold storage_stale in Hst. zbool. destruct (Z.leb_spec (zlen (cs_sparse s)) (e_index e)); [lia|].
    rewrite Hg, Hs. simpl. rewrite Z.eqb_refl. done.
  - unfold storage_stale in Hst. zbool. destruct (Z.leb_spec (zlen (cs_sparse s)) (e_index e)); [lia|].
    rewrite Hg, Hs. simpl. rewrite Z.eqb_refl. done.
Qed.

Lemma generation_at_refines s M i :
  storage_repr s M -> 0 <= i -> storage_generation_at s i = Some (fst <$> M !! i).
Proof.
  intros [[owners Hr] _] H0. unfold storage_generation_at. rewrite (tr_map _ _ _ _ _ Hr).
  pose proof (tr_gens _ _ _ _ _ Hr).
  destruct (Z.leb_spec (zlen (cs_sparse s)) i); [by rewrite (proj2 (zget_None (cs_sparse s) _)) by lia|].
  destruct (proj2 (zget_is_Some (cs_generations s) i)) as [g Hgi]; [lia|].
  destruct (proj2 (zget_is_Some (cs_sparse s) i)) as [slot Hsi]; [lia|]. rewrite Hgi, Hsi. simpl.
  destruct slot as [pos|]; [|done]. simpl.
  pose proof (proj1 (tr_inv _ _ _ _ _ Hr _ _) Hsi) as Ho. apply zget_Some in Ho.
  rewrite (tr_dense _ _ _ _ _ Hr) in Ho. destruct (proj2 (zget_is_Some (cs_dense s) pos) Ho) as [v ->]. done.
Qed.

Lemma storage_get_mut_refines s M e f :
  storage_repr s M -> 0 <= e_index e ->
  exists s', storage_get_mut s e f = Some (s', bool_decide (is_Some (map_get M e))) /\
  storage_repr s' (match map_get M e with Some v => <[e_index e := (e_generation e, f v)]> M | None => M end).
Proof.
  intros Hr H0. unfold storage_get_mut.
  destruct (entry_cases s M e Hr H0) as [(-> & -> & _)|[(-> & -> & -> & ->)|(pos & v & -> & Hg & Hs & Hv & HM & ->)]];
    simpl; try by exists s.
  rewrite Hg, Hs. simpl. rewrite Hv. eexists. split; [done|]. destruct Hr as [[owners Hr] Hp]. split; simpl.
  - exists owners. rewrite <- (zset_id (cs_generations s) (e_index e) (e_generation e)) by done. by apply tables_replace.
  - rewrite dom_insert_lookup_L by done. done.
Qed.

Lemma storage_remove_refines s M e :
  storage_repr s M -> 0 <= e_index e ->
  exists s', storage_remove s e = Some (s', map_get M e) /\
  storage_repr s' (match map_get M e with Some _ => delete (e_index e) M | None => M end).
Proof.
  intros Hr H0. unfold storage_remove.
  destruct (entry_cases s M e Hr H0) as [(-> & -> & _)|[(-> & -> & -> & ->)|(pos & v & -> & Hg & Hs & Hv & HM & ->)]];
    simpl; try by exists s.
  rewrite Hg, Hs. simpl. destruct Hr as [[owners Hr] Hp].
  pose proof (proj1 (tr_inv _ _ _ _ _ Hr _ _) Hs) as Ho. pose proof (tr_dense _ _ _ _ _ Hr) as Hd.
  pose proof (zget_Some _ _ _ Ho).
  destruct (swap_remove_spec _ _ _ Hv) as (dense & Hsd & _). destruct (swap_remove_spec _ _ _ Ho) as (owners' & Hso & _).
  destruct (proj2 (zget_is_Some owners (zlen (cs_dense s) - 1))) as [last Hlast]; [lia|].
  rewrite Hsd. simpl. eexists. split; [done|].
  pose proof (proj2 (tr_inv _ _ _ _ _ Hr _ _) Hlast) as Hsl.
  pose proof (owners_le _ _ _ _ _ Hr). pose proof (tr_len _ _ _ _ _ Hr).
  split; simpl.
  - exists owners'.
    replace (zset _ (e_index e) None)
      with (removed_sparse (cs_sparse s) (e_index e) pos (zlen (cs_dense s)) last); [by eapply tables_remove|].
    unfold removed_sparse. f_equal. destruct (Z.eqb_spec pos (zlen (cs_dense s) - 1)); [done|]. simpl.
    rewrite !wrap_small by (unfold is_u; lia).
    destruct (vec_position _ _) as [moved|] eqn:Hm.
    + apply position_Some in Hm as (x & Hx & Hb). apply bool_decide_eq_true in Hb. subst x.
      apply (tr_inv _ _ _ _ _ Hr) in Hx. congruence.
    + pose proof (position_None _ _ _ _ Hm Hsl) as Hb. by apply bool_decide_eq_false in Hb.
  - rewrite dom_delete_L. by destruct (clear_refines (cs_presence s) (dom M) (e_index e) H0 Hp) as (b' & -> & Hb & _).
Qed.

Lemma ensure_refines A s M e :
  storage_repr s M -> is_u 32 (e_index e) ->
  exists s' r, storage_ensure_index A s e = (s', r) /\ storage_repr s' M /\
  (r = Ok tt -> e_index e < zlen (cs_sparse s')).
Proof.
  intros Hr Hi. unfold storage_ensure_index, is_u in *.
  rewrite (proj2 (checked_add_Some 64 (e_index e) 1 (e_index e + 1))) by (unfold umax; lia).
  destruct (Z.ltb_spec (zlen (cs_sparse s)) (e_index e + 1)).
  2: { exists s, (Ok tt). split; [done|]. split; [done|]. lia. }
  destruct (A 0%nat && A 1%nat); [|by exists s, (Err StorageError.AllocationFailed)].
  do 2 eexists. split; [done|]. destruct Hr as [[owners Hr] Hp]. split; [split; simpl; [|done]|].
  - exists owners. apply tables_grow; [done|lia].
  - intros _. simpl. rewrite zlen_resize by lia. lia.
Qed.

(** The two tables after the generation is written and the value placed. *)
Lemma place_refines A s M e v :
  (exists owners, tables_repr (cs_sparse s) (cs_generations s) (cs_dense s) M owners) ->
  0 <= e_index e < zlen (cs_sparse s) ->
  exists s' r, storage_place A (with_generation s (e_index e) (e_generation e)) (e_index e) v = Some (s', r) /\
  cs_presence s' = cs_presence s /\
  exists owners, tables_repr (cs_sparse s') (cs_generations s') (cs_dense s')
    (match r with Ok _ => <[e_index e := (e_generation e, v)]> M | Err _ => M end) owners.
Proof.
  intros [owners Hr] Hi. unfold storage_place. simpl.
  destruct (proj2 (zget_is_Some (cs_sparse s) (e_index e)) Hi) as [slot Hs]. rewrite Hs. simpl.
  destruct slot as [pos|].
  - pose proof (proj1 (tr_inv _ _ _ _ _ Hr _ _) Hs) as Ho. apply zget_Some in Ho.
    rewrite (tr_dense _ _ _ _ _ Hr) in Ho. destruct (proj2 (zget_is_Some (cs_dense s) pos) Ho) as [w Hw].
    rewrite Hw. simpl. do 2 eexists. split; [done|]. split; [done|]. exists owners. by apply tables_replace.
  - pose proof (owners_room _ _ _ _ _ _ Hr Hs). pose proof (tr_len _ _ _ _ _ Hr).
    destruct (A 3%nat).
    + rewrite wrap_small by (pose proof (zlen_nonneg (cs_dense s)); unfold is_u; lia).
      do 2 eexists. split; [done|]. split; [done|]. eexists. by apply tables_push.
    + do 2 eexists. split; [done|]. split; [done|]. exists owners. by apply tables_gen.
Qed.

Lemma storage_insert_refines A s M e v :
  storage_repr s M -> is_u 32 (e_index e) ->
  exists s' r, storage_try_insert A s e v = Some (s', r) /\
  storage_repr s' (match r with Ok _ => <[e_index e := (e_generation e, v)]> M | Err _ => M end).
Proof.
  intros Hr Hi. assert (0 <= e_index e) as H0 by apply Hi. unfold storage_try_insert.
  destruct (ensure_refines A s M e Hr Hi) as (s1 & r1 & -> & Hr1 & Hlen).
  destruct r1 as [[]|err]; [|by exists s1, (Err err)]. specialize (Hlen eq_refl).
  destruct Hr1 as [Ht1 Hp1].
  pose proof (try_reserve_refines (shift 2 A) _ _ _ H0 Hp1) as Hp2.
  destruct (bitset_try_reserve (shift 2 A) (cs_presence s1) (e_index e)) as [p2 [[]|err]]; simpl in Hp2.
  2: { do 2 eexists. split; [done|]. by split. }
  assert (exists g, cs_generations s1 !z (e_index e) = Some g) as [g Hg].
  { destruct Ht1 as [owners Ht1]. apply zget_is_Some. rewrite (tr_gens _ _ _ _ _ Ht1). lia. }
  cbn [with_presence cs_generations]. rewrite Hg. cbn [mbind option_bind].
  destruct (place_refines A (with_presence s1 p2) M e v Ht1) as (s3 & r3 & -> & Hpres & Ht3); [done|].
  cbn [mbind option_bind]. destruct r3 as [[]|err].
  - rewrite Hpres. destruct (bitset_set_refines _ _ (e_index e) ltac:(unfold is_u in *; simpl; lia) Hp2) as (p4 & Hset & Hp4).
    simpl in Hset |- *. rewrite Hset. simpl. do 2 eexists. split; [done|]. split; [done|]. simpl. by rewrite dom_insert_L.
  - do 2 eexists. split; [done|]. split; [done|]. by rewrite Hpres.
Qed.

Lemma len_refines s M : storage_repr s M -> storage_len s = Z.of_nat (size M).
Proof.
  intros [[owners Hr] _]. unfold storage_len. rewrite <- (tr_dense _ _ _ _ _ Hr), <- size_dom.
  replace (dom M) with (list_to_set owners : gset Z).
  - rewrite size_list_to_set by (by eapply owners_nodup). done.
  - apply set_eq. intros i. rewrite elem_of_list_to_set, elem_of_dom, (tr_map _ _ _ _ _ Hr). split.
    + intros Hi. destruct (owner_sparse _ _ _ _ _ _ Hr Hi) as [pos Hp]. rewrite Hp. simpl.
      pose proof (zget_Some _ _ _ Hp). destruct (proj2 (zget_is_Some (cs_generations s) i)) as [g ->];
        [rewrite (tr_gens _ _ _ _ _ Hr); lia|].
      apply (tr_inv _ _ _ _ _ Hr), zget_Some in Hp. rewrite (tr_dense _ _ _ _ _ Hr) in Hp.
      destruct (proj2 (zget_is_Some (cs_dense s) pos) Hp) as [v ->]. by eexists.
    + intros [[g v] Hx]. destruct (cs_sparse s !z i) as [[pos|]|] eqn:Hp; try done.
      apply (tr_inv _ _ _ _ _ Hr) in Hp. pose proof (zget_Some _ _ _ Hp). rewrite zget_lookup in Hp by lia.
      by eapply list_elem_of_lookup_2.
Qed.
End Repr.

(** ** Traces *)
Inductive storage_event (T : Type) :=
| EvInsert (A : alloc) (e : Entity) (v : T)
| EvRemove (e : Entity)
| EvGet (e : Entity)
| EvUpdate (e : Entity) (v : T)
| EvContains (e : Entity).
Arguments EvInsert {T}. Arguments EvRemove {T}. Arguments EvGet {T}. Arguments EvUpdate {T}. Arguments EvContains {T}.

Definition event_entity {T} (ev : storage_event T) : Entity :=
  match ev with EvInsert _ e _ | EvRemove e | EvGet e | EvUpdate e _ | EvContains e => e end.

(** Running the storage beside the map: what every call answers. *)
Fixpoint storage_agrees {T} (s : ComponentStorage T) (M : gmap Z (Z * T)) (evs : list (storage_event T)) : Prop :=
  match evs with
  | [] => storage_len s = Z.of_nat (size M) /\ forall i, bitset_test (cs_presence s) i = bool_decide (i ∈ dom M) \/ i < 0
  | EvInsert A e v :: evs =>
      exists s' r, storage_try_insert A s e v = Some (s', r) /\
      storage_agrees s' (match r with Ok _ => <[e_index e := (e_generation e, v)]> M | Err _ => M end) evs
  | EvRemove e :: evs =>
      exists s', storage_remove s e = Some (s', map_get M e) /\
      storage_agrees s' (match map_get M e with Some _ => delete (e_index e) M | None => M end) evs
  | EvGet e :: evs => storage_get s e = Some (map_get M e) /\ storage_agrees s M evs
  | EvUpdate e v :: evs =>
      exists s', storage_get_mut s e (const v) = Some (s', bool_decide (is_Some (map_get M e))) /\
      storage_agrees s' (match map_get M e with Some _ => <[e_index e := (e_generation e, v)]> M | None => M end) evs
  | EvContains e :: evs =>
      storage_contains s e = Some (bool_decide (is_Some (map_get M e))) /\ storage_agrees s M evs
  end.

Lemma storage_agrees_run {T} (evs : list (storage_event T)) : forall s M,
  storage_repr s M -> Forall (fun ev => is_u 32 (e_index (event_entity ev))) evs -> storage_agrees s M evs.
Proof.
  induction evs as [|ev evs IH]; intros s M Hr Hev; simpl.
  { split; [by apply len_refines|]. intros i. destruct (Z.lt_ge_cases i 0); [by right|left]. by apply (bp_test _ _ (sr_presence _ _ Hr)). }
  inv Hev. destruct ev as [A e v|e|e|e v|e]; simpl in *; assert (0 <= e_index e) as H0 by apply H1.
  - destruct (storage_insert_refines A s M e v Hr H1) as (s' & r & He & Hr'). exists s', r. split; [done|]. by apply IH.
  - destruct (storage_remove_refines s M e Hr H0) as (s' & He & Hr'). exists s'. split; [done|]. by apply IH.
  - split; [by apply storage_get_refines|]. by apply IH.
  - destruct (storage_get_mut_refines s M e (const v) Hr H0) as (s' & He & Hr'). exists s'. split; [done|]. by apply IH.
  - split; [by apply contains_refines|]. by apply IH.
Qed.

(** the component storage is a finite map from entity indices to one
    generation and one value.  For every sequence of calls with 32-bit
    handles no index is out of range; an insertion replaces the entry of its
    index whatever generation it had; reads, writes and removals act exactly
    on an entry of the same generation and leave every other value reachable
    although removal moves the last dense element; a failed reservation
    changes no entry; the length is the number of entries and the presence
    mask is their set of indices. *)
Theorem storage_refines_map {T} (evs : list (storage_event T)) :
  Forall (fun ev => is_u 32 (e_index (event_entity ev))) evs -> storage_agrees storage_new ∅ evs.
Proof. intros Hev. apply storage_agrees_run; [apply storage_repr_new|done]. Qed.

Lemma storage_refines_map_witness :
  let e i g := mkEntity i g in
  let evs := [EvInsert alloc_all (e 0 0) 10; EvInsert alloc_all (e 1 0) 20; EvInsert alloc_all (e 2 0) 30;
              EvRemove (e 0 0); EvGet (e 2 0); EvInsert (fun k => k <? 3)%nat (e 0 1) 40; EvGet (e 0 1)] in
  Forall (fun ev => is_u 32 (e_index (event_entity ev))) evs /\ storage_agrees storage_new ∅ evs.
Proof.
  intros e evs. assert (H : Forall (fun ev => is_u 32 (e_index (event_entity ev))) evs)
    by (repeat constructor; unfold is_u; simpl; lia).
  split; [exact H|]. apply (storage_refines_map evs H).
Defined.
