(* ===== verification/World.v ===== *)
(** The world of [kernel/ecs/world.rs] and its query drivers
    ([kernel/ecs/query.rs]): the entity table, the typed component storages,
    the alive mask, and the abstract entity-component state they implement.

    A component type is a [TypeId], an integer tag; the boxed storages of all
    types hold values of one type [V], and a downcast compares the tag. *)

From Stdlib Require Import Sorting.Sorted.
From stdpp Require Import gmap sets sorting.
From S2P Require Import Prelude Bitset Entities Storage.

Definition TypeId : Type := Z.
Definition ComponentId : Type := Z.

Module WorldError.
Inductive WorldError :=
| Entity (e : EntityError)
| EntityNotAlive
| Storage (e : StorageError).
End WorldError.
Abbreviation WorldError := WorldError.WorldError.

(** The trait object interface of a storage. *)
Class ErasedStorage (S : Type) := {
  remove_entity : S -> Entities.Entity -> option (S * bool)
}.

#[global] Instance ComponentStorage_erased {V} : ErasedStorage (ComponentStorage V) := {
  remove_entity s e := '(s, r) ← storage_remove s e; Some (s, bool_decide (is_Some r))
}.

Record World (V : Type) := mkWorld {
  w_entities : Entities;
  w_slots : list (option (TypeId * ComponentStorage V));
  w_by_type : gmap TypeId Z;
  w_alive : Bitset
}.
Arguments mkWorld {V}. Arguments w_entities {V}. Arguments w_slots {V}.
Arguments w_by_type {V}. Arguments w_alive {V}.

Section Operations.
Context {V : Type}.
Implicit Types (w : World V) (e : Entities.Entity) (T : TypeId).

Definition world_new : World V := mkWorld entities_new [] ∅ (bitset_new 0).

Definition world_bitset_error (e : BitsetError) : WorldError :=
  match e with
  | BitsetError.InvalidIndex => WorldError.Entity EntityError.IndexOverflow
  | BitsetError.AllocationFailed => WorldError.Entity EntityError.AllocationFailed
  end.

Definition world_try_spawn (A : alloc) w : option (World V * result WorldError Entities.Entity) :=
  match bitset_try_reserve A (w_alive w) (saturating_add 64 (entities_watermark (w_entities w)) 1) with
  | (alive, Err err) => Some (mkWorld (w_entities w) (w_slots w) (w_by_type w) alive, Err (world_bitset_error err))
  | (alive, Ok _) =>
      '(ents, r) ← entities_try_create (shift 1 A) (w_entities w);
      match r with
      | Err err => Some (mkWorld ents (w_slots w) (w_by_type w) alive, Err (WorldError.Entity err))
      | Ok e =>
          '(alive, _) ← bitset_set alive (e_index e);
          Some (mkWorld ents (w_slots w) (w_by_type w) alive, Ok e)
      end
  end.

Fixpoint remove_from_slots (slots : list (option (TypeId * ComponentStorage V))) e :
    option (list (option (TypeId * ComponentStorage V))) :=
  match slots with
  | [] => Some []
  | None :: slots => rest ← remove_from_slots slots e; Some (None :: rest)
  | Some (T, s) :: slots =>
      '(s, _) ← remove_entity s e;
      rest ← remove_from_slots slots e; Some (Some (T, s) :: rest)
  end.

Definition world_try_despawn (A : alloc) w e : option (World V * result WorldError bool) :=
  match entities_try_destroy A (w_entities w) e with
  | (ents, Err err) => Some (mkWorld ents (w_slots w) (w_by_type w) (w_alive w), Err (WorldError.Entity err))
  | (ents, Ok true) =>
      slots ← remove_from_slots (w_slots w) e;
      Some (mkWorld ents slots (w_by_type w) (bitset_clear (w_alive w) (e_index e)).1, Ok true)
  | (ents, Ok false) => Some (mkWorld ents (w_slots w) (w_by_type w) (w_alive w), Ok false)
  end.

Definition world_is_alive w e : bool := entities_is_alive (w_entities w) e.
Definition world_entity_count w : Z := en_live (w_entities w).

(** The entities [for_each_entity] hands to its closure, in order. *)
Fixpoint world_entities_at w (indices : list Z) : list Entities.Entity :=
  match indices with
  | [] => []
  | index :: indices =>
      match entities_generation_at (w_entities w) index with
      | Some gen => mkEntity (wrap 32 index) gen :: world_entities_at w indices
      | None => world_entities_at w indices
      end
  end.
Definition world_for_each_entity w : list Entities.Entity :=
  world_entities_at w (words_indices 0 (bitset_words (w_alive w))).

Definition world_slot_index w T : option Z := w_by_type w !! T.

Definition world_register_component w T : World V * ComponentId :=
  match w_by_type w !! T with
  | Some i => (w, wrap 32 i)
  | None =>
      let i := zlen (w_slots w) in
      (mkWorld (w_entities w) (w_slots w ++ [Some (T, storage_new)]) (<[T := i]> (w_by_type w)) (w_alive w),
       wrap 32 i)
  end.

Definition downcast T (slot : option (TypeId * ComponentStorage V)) : option (ComponentStorage V) :=
  match slot with
  | Some (tag, s) => if tag =? T then Some s else None
  | None => None
  end.

Definition with_slot w (i : Z) T s : World V :=
  mkWorld (w_entities w) (zset (w_slots w) i (Some (T, s))) (w_by_type w) (w_alive w).

Definition world_try_insert_typed (A : alloc) w T e (value : V) : option (World V * result WorldError unit) :=
  if negb (world_is_alive w e) then Some (w, Err WorldError.EntityNotAlive)
  else
    match world_slot_index w T with
    | None => Some (w, Ok tt)
    | Some i =>
        slot ← w_slots w !z i;
        match downcast T slot with
        | None => Some (w, Ok tt)
        | Some s =>
            '(s, r) ← storage_try_insert A s e value;
            Some (with_slot w i T s, map_err WorldError.Storage r)
        end
    end.

Definition world_try_insert (A : alloc) w T e (value : V) : option (World V * result WorldError unit) :=
  if negb (world_is_alive w e) then Some (w, Err WorldError.EntityNotAlive)
  else world_try_insert_typed A (world_register_component w T).1 T e value.

(** The storage of a type: [None] when unregistered, the outer [None] when
    the slot index panics. *)
Definition world_storage w T : option (option (Z * ComponentStorage V)) :=
  match world_slot_index w T with
  | None => Some None
  | Some i => slot ← w_slots w !z i; Some (s ← downcast T slot; Some (i, s))
  end.

Definition world_get w T e : option (option V) :=
  found ← world_storage w T;
  match found with Some (_, s) => storage_get s e | None => Some None end.

Definition world_get_mut w T e (f : V -> V) : option (World V * bool) :=
  found ← world_storage w T;
  match found with
  | Some (i, s) => '(s, ok) ← storage_get_mut s e f; Some (with_slot w i T s, ok)
  | None => Some (w, false)
  end.

Definition world_remove w T e : option (World V * option V) :=
  found ← world_storage w T;
  match found with
  | Some (i, s) => '(s, r) ← storage_remove s e; Some (with_slot w i T s, r)
  | None => Some (w, None)
  end.

Definition world_count w T : option Z :=
  found ← world_storage w T;
  Some (match found with Some (_, s) => storage_len s | None => 0 end).

(** The intersection of two masks word by word, then sorted. *)
Definition and_words (a b : list Z) : list Z := zip_with Z.land a b.

Definition world_collect_intersection w TA TB : option (list Z) :=
  a ← world_storage w TA; b ← world_storage w TB;
  match a, b with
  | Some (_, a), Some (_, b) =>
      let out := map (wrap 32)
        (words_indices 0 (and_words (bitset_words (cs_presence a)) (bitset_words (cs_presence b)))) in
      Some (merge_sort Z.le out)
  | _, _ => Some []
  end.

(** [split_at_mut] at the larger index. *)
Definition get2_mut (slots : list (option (TypeId * ComponentStorage V))) (ia ib : Z) TA TB :
    option (ComponentStorage V * ComponentStorage V) :=
  if ia =? ib then None
  else
    let '(a, b) :=
      if ia <? ib then (take (Z.to_nat ib) slots !z ia, drop (Z.to_nat ib) slots !z 0)
      else (drop (Z.to_nat ia) slots !z 0, take (Z.to_nat ia) slots !z ib) in
    slot_a ← a; slot_b ← b;
    sa ← downcast TA slot_a; sb ← downcast TB slot_b; Some (sa, sb).

Definition world_pair w TA TB : option (ComponentStorage V * ComponentStorage V) :=
  ia ← world_slot_index w TA; ib ← world_slot_index w TB;
  if ia =? ib then None else get2_mut (w_slots w) ia ib TA TB.

Definition world_single w T : option (ComponentStorage V) :=
  i ← world_slot_index w T; slot ← w_slots w !z i; downcast T slot.

(** [WorldPair::for_each] with a closure [f] that keeps its captured state in
    [acc] and writes through both views; [expect] panics are [None]. *)
Fixpoint pair_for_each {S} (sa sb : ComponentStorage V) (candidates : list Z)
    (f : S -> Entities.Entity -> V -> V -> S * V * V) (acc : S) :
    option (ComponentStorage V * ComponentStorage V * S) :=
  match candidates with
  | [] => Some (sa, sb, acc)
  | idx :: candidates =>
      generation ← storage_generation_at sa idx;
      match generation with
      | None => pair_for_each sa sb candidates f acc
      | Some g =>
          let e := mkEntity idx g in
          ca ← storage_contains sa e; cb ← storage_contains sb e;
          if ca && cb then
            va ← storage_get sa e; vb ← storage_get sb e; a ← va; b ← vb;
            let '(acc, a, b) := f acc e a b in
            '(sa, _) ← storage_get_mut sa e (const a);
            '(sb, _) ← storage_get_mut sb e (const b);
            pair_for_each sa sb candidates f acc
          else pair_for_each sa sb candidates f acc
      end
  end.

Fixpoint single_for_each {S} (s : ComponentStorage V) (candidates : list Z)
    (f : S -> Entities.Entity -> V -> S * V) (acc : S) : option (ComponentStorage V * S) :=
  match candidates with
  | [] => Some (s, acc)
  | idx :: candidates =>
      generation ← storage_generation_at s idx;
      match generation with
      | None => single_for_each s candidates f acc
      | Some g =>
          let e := mkEntity idx g in
          c ← storage_contains s e;
          if (c : bool) then
            v ← storage_get s e; v ← v;
            let '(acc, v) := f acc e v in
            '(s, _) ← storage_get_mut s e (const v);
            single_for_each s candidates f acc
          else single_for_each s candidates f acc
      end
  end.

(** A query over two component types: the pair is split off, driven, and its
    storages are back in their slots when the borrow ends. *)
Definition world_query2 {S} w TA TB (candidates : list Z)
    (f : S -> Entities.Entity -> V -> V -> S * V * V) (acc : S) : option (World V * S) :=
  match world_pair w TA TB with
  | None => Some (w, acc)
  | Some (sa, sb) =>
      '(sa, sb, acc) ← pair_for_each sa sb candidates f acc;
      ia ← world_slot_index w TA; ib ← world_slot_index w TB;
      Some (with_slot (with_slot w ia TA sa) ib TB sb, acc)
  end.
End Operations.

(** ** The abstract state

    [L] is the set of live entities, [C] the components they hold. *)
Section Repr.
Context {V : Type}.
Implicit Types (w : World V) (e : Entities.Entity) (T TA TB : TypeId) (L : gset Entities.Entity)
  (C : gmap (TypeId * Entities.Entity) V) (M : gmap Z (Z * V)).

Definition comp_view C T M : Prop :=
  forall i g v, M !! i = Some (g, v) <-> C !! (T, mkEntity i g) = Some v.

Record world_repr w L C (n : Z) : Prop := {
  wr_entities : entities_repr (w_entities w) L n;
  wr_alive : bitset_repr (w_alive w) (set_map e_index L);
  wr_types T i : w_by_type w !! T = Some i ->
    exists s M, w_slots w !z i = Some (Some (T, s)) /\ storage_repr s M /\ comp_view C T M;
  wr_slots i x : w_slots w !z i = Some x -> exists T s, x = Some (T, s) /\ w_by_type w !! T = Some i;
  wr_live T e v : C !! (T, e) = Some v -> e ∈ L /\ is_Some (w_by_type w !! T)
}.

Lemma view_get C T M e : comp_view C T M -> map_get M e = C !! (T, e).
Proof.
  intros Hv. unfold map_get. destruct e as [i g]. simpl. apply option_eq. intros v. rewrite <- (Hv i g v).
  destruct (M !! i) as [[g' v']|]; simpl; [|done]. destruct (Z.eqb_spec g' g); naive_solver.
Qed.

Lemma world_repr_new : world_repr world_new ∅ ∅ 0.
Proof.
  split; simpl; try done.
  - apply entities_repr_empty.
  - rewrite set_map_empty. apply bitset_repr_new.
  - intros i x Hx. apply zget_Some in Hx. zsimp. lia.
Qed.

Lemma world_repr_weaken w L C n n' : n <= n' -> world_repr w L C n -> world_repr w L C n'.
Proof. intros ? []. split; try done. by eapply Entities.repr_weaken. Qed.

Lemma by_type_inj w L C n T T' i :
  world_repr w L C n -> w_by_type w !! T = Some i -> w_by_type w !! T' = Some i -> T = T'.
Proof.
  intros Hr HT HT'. destruct (wr_types _ _ _ _ Hr T i HT) as (? & ? & Hs & _).
  destruct (wr_types _ _ _ _ Hr T' i HT') as (? & ? & Hs' & _). congruence.
Qed.

(** What [world_storage] finds. *)
Lemma storage_cases w L C n T :
  world_repr w L C n ->
  (w_by_type w !! T = None /\ world_storage w T = Some None /\ forall e, C !! (T, e) = None) \/
  (exists i s M, w_by_type w !! T = Some i /\ w_slots w !z i = Some (Some (T, s)) /\
    world_storage w T = Some (Some (i, s)) /\ storage_repr s M /\ comp_view C T M).
Proof.
  intros Hr. unfold world_storage, world_slot_index. destruct (w_by_type w !! T) as [i|] eqn:HT.
  - right. destruct (wr_types _ _ _ _ Hr T i HT) as (s & M & Hs & Hsr & Hv). exists i, s, M.
    rewrite Hs. simpl. rewrite Z.eqb_refl. done.
  - left. split; [done|]. split; [done|]. intros e. destruct (C !! (T, e)) as [v|] eqn:Hc; [|done].
    apply (wr_live _ _ _ _ Hr) in Hc as [_ [? ?]]. congruence.
Qed.

(** Replacing one storage. *)
Lemma repr_with_slot w L C C' n T i s s' M :
  world_repr w L C n -> w_by_type w !! T = Some i -> w_slots w !z i = Some (Some (T, s)) ->
  storage_repr s' M -> comp_view C' T M ->
  (forall T' e, T' <> T -> C' !! (T', e) = C !! (T', e)) ->
  (forall e v, C' !! (T, e) = Some v -> e ∈ L) ->
  world_repr (with_slot w i T s') L C' n.
Proof.
  intros Hr HT Hs Hsr Hv Hother Hlive. pose proof (zget_Some _ _ _ Hs) as Hi. pose proof Hr as [He Ha Hty Hsl Hl].
  split; simpl; try done.
  - intros T' j HT'. destruct (decide (T' = T)) as [->|Hne].
    + rewrite HT in HT'. simplify_eq. exists s', M. by rewrite zget_zset_eq.
    + destruct (Hty T' j HT') as (s2 & M2 & Hs2 & Hr2 & Hv2). exists s2, M2.
      rewrite zget_zset_ne by (intros <-; by apply Hne, (by_type_inj w L C n T' T i)).
      split; [done|]. split; [done|]. intros k g v. by rewrite Hother.
  - intros j x. destruct (Z.eq_dec i j) as [<-|Hne].
    + rewrite zget_zset_eq by done. intros [= <-]. by exists T, s'.
    + rewrite zget_zset_ne by done. apply Hsl.
  - intros T' e v. destruct (decide (T' = T)) as [->|Hne].
    + intros Hc. split; [by eapply Hlive|]. by rewrite HT.
    + rewrite Hother by done. apply Hl.
Qed.

Lemma world_get_refines w L C n T e : world_repr w L C n -> 0 <= e_index e -> world_get w T e = Some (C !! (T, e)).
Proof.
  intros Hr H0. unfold world_get.
  destruct (storage_cases w L C n T Hr) as [(_ & -> & Hc)|(i & s & M & _ & _ & -> & Hs & Hv)]; simpl.
  - by rewrite Hc.
  - by rewrite (storage_get_refines s M), (view_get C T).
Qed.

Lemma view_insert C T M e v L :
  comp_view C T M -> (forall e' v', C !! (T, e') = Some v' -> e_index e' = e_index e -> e' = e) ->
  comp_view (<[(T, e) := v]> C) T (<[e_index e := (e_generation e, v)]> M).
Proof.
  intros Hv Hu i g v'. destruct (Z.eq_dec (e_index e) i) as [<-|Hne].
  - rewrite lookup_insert_eq. destruct (Z.eq_dec (e_generation e) g) as [<-|Hg].
    + replace (mkEntity (e_index e) (e_generation e)) with e by (by destruct e). rewrite lookup_insert_eq. naive_solver.
    + rewrite lookup_insert_ne by (intros [= He]; by destruct e; simplify_eq/=). split; [naive_solver|].
      intros Hc. apply Hu in Hc; [|done]. by rewrite <- Hc in Hg.
  - rewrite !lookup_insert_ne by (done || (intros [= He]; by destruct e; simplify_eq/=)). apply Hv.
Qed.

(** Components of one index belong to one live entity. *)
Lemma comp_index_inj w L C n T T' e e' v v' :
  world_repr w L C n -> C !! (T, e) = Some v -> C !! (T', e') = Some v' -> e_index e = e_index e' -> e = e'.
Proof.
  intros Hr Hc Hc' Hi. apply (wr_live _ _ _ _ Hr) in Hc as [Hc _]. apply (wr_live _ _ _ _ Hr) in Hc' as [Hc' _].
  eapply live_index_inj; [apply Hr|done|done|done].
Qed.

Lemma world_get_mut_refines w L C n T e f :
  world_repr w L C n -> 0 <= e_index e ->
  exists w', world_get_mut w T e f = Some (w', bool_decide (is_Some (C !! (T, e)))) /\
  world_repr w' L (match C !! (T, e) with Some v => <[(T, e) := f v]> C | None => C end) n.
Proof.
  intros Hr H0. unfold world_get_mut.
  destruct (storage_cases w L C n T Hr) as [(_ & -> & Hc)|(i & s & M & HT & Hsl & -> & Hs & Hv)]; simpl.
  { rewrite Hc. by exists w. }
  destruct (storage_get_mut_refines s M e f Hs H0) as (s' & -> & Hs'). simpl.
  rewrite (view_get C T) in * by done. eexists. split; [done|].
  destruct (C !! (T, e)) as [v|] eqn:Hc.
  - eapply repr_with_slot; try done.
    + eapply view_insert; [done|done|]. intros e' v' Hc' Hi. by eapply comp_index_inj.
    + intros T' e' Hne. by rewrite lookup_insert_ne by congruence.
    + intros e' v'. destruct (decide (e' = e)) as [->|]; [intros _; by eapply (wr_live _ _ _ _ Hr)|].
      rewrite lookup_insert_ne by congruence. intros Hc'. by eapply (wr_live _ _ _ _ Hr).
  - eapply repr_with_slot; try done. intros e' v' Hc'. by eapply (wr_live _ _ _ _ Hr).
Qed.

Lemma view_remove C T M e C' :
  comp_view C T M -> (forall e', C' !! (T, e') = if decide (e' = e) then None else C !! (T, e')) ->
  comp_view C' T (match map_get M e with Some _ => delete (e_index e) M | None => M end).
Proof.
  intros Hv HC i g v. rewrite HC. pose proof (view_get C T M e Hv) as Hg.
  destruct (decide (mkEntity i g = e)) as [<-|Hne]; simpl in *.
  - split; [|done]. destruct (map_get M (mkEntity i g)) eqn:Hm; [by rewrite lookup_delete_eq|].
    intros Hx. apply Hv in Hx. congruence.
  - destruct (map_get M e) as [v'|] eqn:Hm; [|apply Hv]. symmetry in Hg.
    destruct (Z.eq_dec (e_index e) i) as [<-|Hi]; [|by rewrite lookup_delete_ne].
    rewrite lookup_delete_eq. split; [done|]. intros Hc. apply Hv in Hc.
    replace e with (mkEntity (e_index e) (e_generation e)) in Hg by (by destruct e). apply Hv in Hg.
    destruct Hne. rewrite Hg in Hc. destruct e. simpl in *. congruence.
Qed.

Lemma world_remove_refines w L C n T e :
  world_repr w L C n -> 0 <= e_index e ->
  exists w', world_remove w T e = Some (w', C !! (T, e)) /\ world_repr w' L (delete (T, e) C) n.
Proof.
  intros Hr H0. unfold world_remove.
  destruct (storage_cases w L C n T Hr) as [(_ & -> & Hc)|(i & s & M & HT & Hsl & -> & Hs & Hv)]; simpl.
  { exists w. rewrite delete_id by done. by rewrite Hc. }
  destruct (storage_remove_refines s M e Hs H0) as (s' & -> & Hs'). simpl.
  rewrite (view_get C T) by done. eexists. split; [done|].
  assert (forall e', delete (T, e) C !! (T, e') = if decide (e' = e) then None else C !! (T, e')) as Hd.
  { intros e'. case_decide as He; [subst; by rewrite lookup_delete_eq|]. rewrite lookup_delete_ne; [done|congruence]. }
  eapply repr_with_slot; try done.
  - by eapply view_remove.
  - intros T' e' Hne. rewrite lookup_delete_ne; [done|congruence].
  - intros e' v' Hc'. rewrite Hd in Hc'. case_decide; [done|]. by eapply (wr_live _ _ _ _ Hr).
Qed.

(** The entities that hold a component of type [T]. *)
Definition holders C T : gset Entities.Entity := set_map snd (filter (fun k => k.1 = T) (dom C)).

Lemma elem_of_holders C T e : e ∈ holders C T <-> is_Some (C !! (T, e)).
Proof.
  unfold holders. rewrite elem_of_map. setoid_rewrite elem_of_filter. setoid_rewrite elem_of_dom. split.
  - intros ([T' e'] & -> & HT & H). simpl in *. by rewrite <- HT.
  - intros H. by exists (T, e).
Qed.

Lemma view_size C T M : comp_view C T M -> size (holders C T) = size M.
Proof.
  intros Hv. set (f := fun p : Z * (Z * V) => mkEntity p.1 p.2.1).
  replace (holders C T) with (list_to_set (map f (map_to_list M)) : gset Entities.Entity).
  - rewrite size_list_to_set; [rewrite length_map; apply length_map_to_list|].
    apply (NoDup_fmap_1 e_index). replace (e_index <$> map f (map_to_list M)) with (map_to_list M).*1.
    + apply NoDup_fst_map_to_list.
    + induction (map_to_list M) as [|p l IH]; [done|]. cbn. by rewrite IH.
  - apply set_eq. intros e. rewrite elem_of_list_to_set, elem_of_holders, list_elem_of_In, in_map_iff. split.
    + intros ([i [g v]] & <- & Hin). apply list_elem_of_In, elem_of_map_to_list, Hv in Hin. by eexists.
    + intros [v Hc]. exists (e_index e, (e_generation e, v)). split; [by destruct e|].
      apply list_elem_of_In, elem_of_map_to_list, Hv. by destruct e.
Qed.

Lemma count_refines w L C n T :
  world_repr w L C n -> world_count w T = Some (Z.of_nat (size (holders C T))).
Proof.
  intros Hr. unfold world_count.
  destruct (storage_cases w L C n T Hr) as [(_ & -> & Hc)|(i & s & M & HT & Hsl & -> & Hs & Hv)]; simpl.
  - rewrite (view_size C T ∅), map_size_empty; [done|]. intros i g v. by rewrite lookup_empty, Hc.
  - by rewrite (view_size C T M), (len_refines s M).
Qed.

Lemma register_refines w L C n T :
  world_repr w L C n ->
  exists i, w_by_type (world_register_component w T).1 !! T = Some i /\
  world_repr (world_register_component w T).1 L C n /\
  w_entities (world_register_component w T).1 = w_entities w.
Proof.
  intros Hr. unfold world_register_component. destruct (w_by_type w !! T) as [i|] eqn:HT; [by exists i|].
  exists (zlen (w_slots w)). simpl. split; [by rewrite lookup_insert_eq|]. split; [|done].
  pose proof Hr as [He Ha Hty Hsl Hl]. split; simpl; try done.
  - intros T' i. destruct (decide (T = T')) as [<-|Hne].
    + rewrite lookup_insert_eq. intros [= <-]. exists storage_new, ∅. split; [apply zget_snoc|].
      split; [apply storage_repr_new|]. intros i g v. rewrite lookup_empty. split; [done|].
      intros Hc. apply Hl in Hc as [_ [? ?]]. congruence.
    + rewrite lookup_insert_ne by done. intros HT'. destruct (Hty T' i HT') as (s & M & Hs & Hrest).
      exists s, M. split; [|done]. rewrite zget_app_l; [done|]. by eapply zget_Some.
  - intros i x Hx. pose proof (zget_Some _ _ _ Hx) as Hi. zsimp.
    destruct (Z.eq_dec i (zlen (w_slots w))) as [->|].
    + rewrite zget_snoc in Hx. simplify_eq. exists T, storage_new. by rewrite lookup_insert_eq.
    + rewrite zget_app_l in Hx by lia. destruct (Hsl i x Hx) as (T' & s & -> & HT'). exists T', s.
      split; [done|]. rewrite lookup_insert_ne by congruence. done.
  - intros T' e v Hc. destruct (Hl T' e v Hc) as [HL HT']. split; [done|].
    destruct (decide (T = T')) as [<-|]; [by rewrite lookup_insert_eq|by rewrite lookup_insert_ne].
Qed.

Lemma alive_refines w L C n e : world_repr w L C n -> world_is_alive w e = bool_decide (e ∈ L).
Proof. intros Hr. apply (wr_entities _ _ _ _ Hr). Qed.

Lemma insert_typed_refines A w L C n T e v i :
  world_repr w L C n -> is_u 32 (e_index e) -> e ∈ L -> w_by_type w !! T = Some i ->
  exists w' r, world_try_insert_typed A w T e v = Some (w', r) /\
  match r with
  | Ok _ => world_repr w' L (<[(T, e) := v]> C) n
  | Err err => err <> WorldError.EntityNotAlive /\ world_repr w' L C n
  end.
Proof.
  intros Hr Hi HL HT. unfold world_try_insert_typed. rewrite (alive_refines w L C n) by done.
  rewrite bool_decide_eq_true_2 by done. simpl. unfold world_slot_index. rewrite HT.
  destruct (wr_types _ _ _ _ Hr T i HT) as (s & M & Hs & Hsr & Hv). rewrite Hs. simpl. rewrite Z.eqb_refl.
  destruct (storage_insert_refines A s M e v Hsr Hi) as (s' & r & -> & Hsr'). simpl.
  do 2 eexists. split; [done|]. destruct r as [[]|err]; simpl.
  - eapply repr_with_slot; try done.
    + eapply view_insert; [done|done|]. intros e' v' Hc' Hie.
      eapply live_index_inj; [apply Hr|by eapply (wr_live _ _ _ _ Hr)|done|done].
    + intros T' e' Hne. by rewrite lookup_insert_ne by congruence.
    + intros e' v'. destruct (decide (e' = e)) as [->|]; [done|].
      rewrite lookup_insert_ne by congruence. intros Hc'. by eapply (wr_live _ _ _ _ Hr).
  - split; [done|]. eapply repr_with_slot; try done. intros e' v' Hc'. by eapply (wr_live _ _ _ _ Hr).
Qed.

Lemma world_insert_refines A w L C n T e v :
  world_repr w L C n -> is_u 32 (e_index e) ->
  exists w' r, world_try_insert A w T e v = Some (w', r) /\
  match r with
  | Ok _ => e ∈ L /\ world_repr w' L (<[(T, e) := v]> C) n
  | Err err => (err = WorldError.EntityNotAlive <-> e ∉ L) /\ world_repr w' L C n
  end.
Proof.
  intros Hr Hi. unfold world_try_insert. rewrite (alive_refines w L C n) by done.
  case_bool_decide as HL; simpl; [|by exists w, (Err WorldError.EntityNotAlive)].
  destruct (register_refines w L C n T Hr) as (i & HT & Hr' & _).
  destruct (insert_typed_refines A _ L C n T e v i Hr' Hi HL HT) as (w' & r & -> & Hw).
  exists w', r. split; [done|]. destruct r; [done|]. split; [naive_solver|apply Hw].
Qed.

Lemma repr_entities w L L' C n n' ents alive :
  world_repr w L C n -> entities_repr ents L' n' -> bitset_repr alive (set_map e_index L') ->
  (forall T e v, C !! (T, e) = Some v -> e ∈ L') ->
  world_repr (mkWorld ents (w_slots w) (w_by_type w) alive) L' C n'.
Proof. intros [] He Ha HL. split; simpl; try done. intros T e v Hc. split; [by eapply HL|by eapply wr_live0]. Qed.

Lemma spawn_refines A w L C n :
  world_repr w L C n -> 0 <= n -> n + 1 < 2 ^ 32 ->
  exists w' r, world_try_spawn A w = Some (w', r) /\
  match r with
  | Ok e => created (w_entities w) (w_entities w') L n e /\ world_repr w' ({[e]} ∪ L) C (n + 1)
  | Err _ => w_entities w' = w_entities w /\ world_repr w' L C n /\ exists i, A i = false
  end.
Proof.
  intros Hr H0 Hn. unfold world_try_spawn. set (target := saturating_add _ _ _).
  assert (0 <= target) as Ht.
  { unfold target, saturating_add, entities_watermark, umax. pose proof (zlen_nonneg (en_generations (w_entities w))). lia. }
  pose proof (try_reserve_refines A _ _ target Ht (wr_alive _ _ _ _ Hr)) as Hal.
  destruct (bitset_try_reserve A (w_alive w) target) as [alive [[]|err]] eqn:Hres; simpl in Hal.
  2: { do 2 eexists. split; [done|]. split; [done|]. split.
       - eapply repr_entities; try done; [apply Hr|]. intros T e v Hc. by eapply (wr_live _ _ _ _ Hr).
       - exists 0%nat. eapply reserve_error; [|exact Hres]. pose proof (er_count _ _ _ (wr_entities _ _ _ _ Hr)).
         unfold target, saturating_add, entities_watermark, umax in *. lia. }
  destruct (create_refines (shift 1 A) _ L n (wr_entities _ _ _ _ Hr) H0 Hn) as (ents & r & -> & Hc). simpl.
  destruct r as [e|err].
  - destruct (cr_u32 _ _ _ _ _ Hc) as [Hu _].
    destruct (bitset_set_refines alive _ (e_index e) ltac:(unfold is_u in *; lia) Hal) as (alive' & -> & Hal'). simpl.
    do 2 eexists. split; [done|]. split; [done|]. eapply repr_entities; [done|apply Hc| |].
    + by rewrite set_map_union_L, set_map_singleton_L.
    + intros T e' v Hc'. apply (wr_live _ _ _ _ Hr) in Hc' as [? _]. set_solver.
  - destruct Hc as [-> HA]. do 2 eexists. split; [done|]. split; [done|]. split; [|by exists 1%nat].
    eapply repr_entities; try done; [apply Hr|]. intros T e v Hc. by eapply (wr_live _ _ _ _ Hr).
Qed.

Lemma remove_slots_spec (slots : list (option (TypeId * ComponentStorage V))) e :
  0 <= e_index e ->
  (forall x, x ∈ slots -> exists T s M, x = Some (T, s) /\ storage_repr s M) ->
  exists slots', remove_from_slots slots e = Some slots' /\
  Forall2 (fun x y => exists T s s' r, x = Some (T, s) /\ y = Some (T, s') /\ storage_remove s e = Some (s', r)) slots slots'.
Proof.
  intros H0. induction slots as [|x slots IH]; intros Hall; simpl; [by exists []|].
  destruct (Hall x) as (T & s & M & -> & Hs); [set_solver|].
  destruct (storage_remove_refines s M e Hs H0) as (s' & Hrem & _). rewrite Hrem. simpl.
  destruct IH as (slots' & -> & Hf); [set_solver|]. simpl. eexists. split; [done|]. constructor; [|done].
  by exists T, s, s', (map_get M e).
Qed.

Lemma Forall2_zget_l {A B} (R : A -> B -> Prop) l k i x :
  Forall2 R l k -> l !z i = Some x -> exists y, k !z i = Some y /\ R x y.
Proof.
  intros Hf Hx. pose proof (zget_Some _ _ _ Hx). rewrite zget_lookup in Hx by lia.
  destruct (Forall2_lookup_l _ _ _ _ _ Hf Hx) as (y & Hy & HR). exists y. by rewrite zget_lookup by lia.
Qed.

(** Removing an entity from every storage removes its components, nothing
    else. *)
Lemma remove_all_refines w L C n e slots' :
  world_repr w L C n -> 0 <= e_index e ->
  Forall2 (fun x y => exists T s s' r, x = Some (T, s) /\ y = Some (T, s') /\ storage_remove s e = Some (s', r))
    (w_slots w) slots' ->
  world_repr (mkWorld (w_entities w) slots' (w_by_type w) (w_alive w)) L (filter (fun p => p.1.2 <> e) C) n.
Proof.
  intros Hr H0 Hf. pose proof Hr as [He Ha Hty Hsl Hl].
  assert (forall T e', filter (fun p => p.1.2 <> e) C !! (T, e') = if decide (e' = e) then None else C !! (T, e')) as Hfil.
  { intros T e'. apply option_eq. intros v. rewrite map_lookup_filter_Some. simpl. case_decide; naive_solver. }
  split; simpl; try done.
  - intros T i HT. destruct (Hty T i HT) as (s & M & Hs & Hsr & Hv).
    destruct (Forall2_zget_l _ _ _ _ _ Hf Hs) as (y & Hy & T' & s1 & s' & r & [= <- <-] & -> & Hrem).
    destruct (storage_remove_refines s M e Hsr H0) as (s2 & Hrem2 & Hs2). rewrite Hrem in Hrem2. simplify_eq.
    eexists s2, _. split; [done|]. split; [done|]. eapply view_remove; [done|]. intros e'. apply Hfil.
  - intros i y Hy. pose proof (zget_Some _ _ _ Hy) as Hi. unfold zlen in Hi.
    rewrite <- (Forall2_length Hf) in Hi. destruct (proj2 (zget_is_Some (w_slots w) i) Hi) as [x Hx].
    destruct (Forall2_zget_l _ _ _ _ _ Hf Hx) as (y' & Hy' & T & s & s' & r & -> & -> & _).
    rewrite Hy in Hy'. simplify_eq. destruct (Hsl i _ Hx) as (T' & s1 & [= <- <-] & HT). by exists T, s'.
  - intros T e' v Hc. rewrite Hfil in Hc. case_decide; [done|]. by apply (Hl T e' v).
Qed.

Lemma alive_remove w L C n e :
  world_repr w L C n -> e ∈ L -> set_map (D := gset Z) e_index (L ∖ {[e]}) = set_map e_index L ∖ {[e_index e]}.
Proof.
  intros Hr He. apply set_eq. intros i. rewrite elem_of_difference, !elem_of_map, elem_of_singleton. split.
  - intros (x & -> & [Hx Hne]%elem_of_difference). split; [by exists x|]. intros Hi. apply Hne, elem_of_singleton.
    by eapply live_index_inj; [apply Hr| | |].
  - intros [(x & -> & Hx) Hne]. exists x. split; [done|]. apply elem_of_difference. split; [done|].
    intros ->%elem_of_singleton. done.
Qed.

Lemma despawn_refines A w L C n e :
  world_repr w L C n -> 0 <= e_index e ->
  exists w' r, world_try_despawn A w e = Some (w', r) /\
  en_generations (w_entities w') = en_generations (w_entities w) /\
  match r with
  | Ok b => b = bool_decide (e ∈ L) /\ world_repr w' (L ∖ {[e]}) (filter (fun p => p.1.2 <> e) C) n
  | Err _ => world_repr w' L C n
  end.
Proof.
  intros Hr H0. unfold world_try_despawn.
  destruct (destroy_refines A _ L n e (wr_entities _ _ _ _ Hr)) as (ents & r & -> & Hg & Hc).
  destruct r as [b|err]; simpl.
  2: { destruct Hc as [-> _]. do 2 eexists. split; [done|]. split; [done|]. by destruct w. }
  destruct Hc as [-> Hents]. case_bool_decide as HL.
  - destruct (remove_slots_spec (w_slots w) e H0) as (slots' & -> & Hf).
    { intros x Hx. apply list_elem_of_lookup in Hx as [k Hk]. rewrite <- zget_nat in Hk.
      destruct (wr_slots _ _ _ _ Hr _ _ Hk) as (T & s & -> & HT).
      destruct (wr_types _ _ _ _ Hr _ _ HT) as (s' & M & Hs' & Hsr & _). rewrite Hk in Hs'. simplify_eq. eauto. }
    simpl. do 2 eexists. split; [done|]. split; [done|]. split; [done|].
    destruct (clear_refines _ _ (e_index e) H0 (wr_alive _ _ _ _ Hr)) as (alive & Hcl & Hal & _). rewrite Hcl. simpl.
    apply (repr_entities (mkWorld (w_entities w) slots' (w_by_type w) (w_alive w)) L (L ∖ {[e]}) _ n n ents alive);
      [by apply remove_all_refines|done| |].
    + by rewrite (alive_remove w L C n).
    + intros T e' v [Hc Hne]%map_lookup_filter_Some. simpl in Hne.
      apply (wr_live _ _ _ _ Hr) in Hc as [? _]. set_solver.
  - do 2 eexists. split; [done|]. split; [done|]. split; [done|].
    assert (filter (fun p => p.1.2 <> e) C = C) as ->.
    { apply map_filter_id. intros [T e'] v Hc. simpl. intros ->. apply HL. by eapply (wr_live _ _ _ _ Hr). }
    eapply repr_entities; try done.
    + replace (L ∖ {[e]}) with L by set_solver. apply Hr.
    + intros T e' v Hc. apply (wr_live _ _ _ _ Hr) in Hc as [? _]. set_solver.
Qed.

(** ** Iteration and queries *)
Lemma entities_at_spec w L n (ixs : list Z) :
  entities_repr (w_entities w) L n ->
  (forall i, i ∈ ixs -> exists e, e ∈ L /\ e_index e = i) ->
  map e_index (world_entities_at w ixs) = ixs /\
  forall e, e ∈ world_entities_at w ixs <-> e ∈ L /\ e_index e ∈ ixs.
Proof.
  intros Hr. induction ixs as [|i ixs IH]; intros Hall; simpl.
  { split; [done|]. intros e. split; [by intros ?%not_elem_of_nil|]. by intros [_ ?%not_elem_of_nil]. }
  destruct (Hall i) as (x & Hx & <-); [set_solver|]. destruct IH as [Hm Hin]; [set_solver|].
  pose proof (live_range _ _ _ _ Hr Hx). pose proof (er_len _ _ _ Hr). pose proof (proj1 (in_live _ _ _ _ Hr) Hx) as [Hg _].
  unfold entities_generation_at. rewrite Hg. rewrite wrap_small by (unfold is_u, U32_MAX in *; lia).
  replace (mkEntity (e_index x) (e_generation x)) with x by (by destruct x).
  split; [simpl; by rewrite Hm|]. intros e. rewrite !elem_of_cons, Hin. split.
  - intros [->|[? ?]]; [split; [done|by left]|split; [done|by right]].
  - intros [He [Hi|Hi]]; [left|right; done]. by eapply live_index_inj.
Qed.

Lemma map_sorted_inv (l : list Entities.Entity) :
  StronglySorted Z.lt (map e_index l) -> StronglySorted (fun a b => e_index a < e_index b) l.
Proof.
  induction l as [|x l IH]; simpl; intros Hs; [constructor|]. inv Hs. constructor; [by apply IH|].
  apply list.Forall_forall. intros y Hy. rewrite list.Forall_forall in H2. apply H2.
  apply list_elem_of_In, in_map. by apply list_elem_of_In.
Qed.

Lemma each_refines w L C n :
  world_repr w L C n ->
  StronglySorted (fun a b => e_index a < e_index b) (world_for_each_entity w) /\
  forall e, e ∈ world_for_each_entity w <-> e ∈ L.
Proof.
  intros Hr. unfold world_for_each_entity.
  destruct (indices_of_repr _ _ (wr_alive _ _ _ _ Hr)) as [Hs Hi].
  destruct (entities_at_spec w L n (words_indices 0 (bitset_words (w_alive w))) (wr_entities _ _ _ _ Hr)) as [Hm Hin].
  { intros i Hin. apply Hi, elem_of_map in Hin as (e & -> & He). by exists e. }
  split; [apply map_sorted_inv; by rewrite Hm|]. intros e. rewrite Hin, Hi. split; [by intros [? _]|].
  intros He. split; [done|]. apply elem_of_map. by exists e.
Qed.

Lemma and_words_get a b i :
  and_words a b !z i = match a !z i, b !z i with Some x, Some y => Some (Z.land x y) | _, _ => None end.
Proof.
  unfold zget, and_words. destruct (i <? 0); [done|]. rewrite lookup_zip_with.
  destruct (a !! _), (b !! _); done.
Qed.

Lemma and_words_ok a b : words_ok a -> words_ok b -> words_ok (and_words a b).
Proof.
  intros Ha Hb. apply Forall_lookup. intros k x Hk. unfold and_words in Hk. rewrite lookup_zip_with in Hk.
  destruct (a !! k) as [u|] eqn:Hu; [|done]. destruct (b !! k) as [v|] eqn:Hv; [|done]. simplify_eq/=.
  pose proof (proj1 (Forall_lookup _ _) Ha _ _ Hu) as Hw. apply testbit_is_u.
  - apply Z.land_nonneg. left. apply Hw.
  - intros n Hn. rewrite Z.land_spec, is_u_testbit by done. done.
Qed.

Lemma and_words_spec a b S R :
  bitset_repr a S -> bitset_repr b R ->
  StronglySorted Z.lt (words_indices 0 (and_words (bitset_words a) (bitset_words b))) /\
  forall i, i ∈ words_indices 0 (and_words (bitset_words a) (bitset_words b)) <-> i ∈ S /\ i ∈ R.
Proof.
  intros Ha Hb.
  destruct (words_indices_spec (and_words (bitset_words a) (bitset_words b)) 0) as [Hs Hi];
    [apply and_words_ok; [apply Ha|apply Hb]|lia|].
  split; [done|]. intros i. rewrite Hi, Z.sub_0_r, and_words_get.
  assert (forall c X, bitset_repr c X -> 0 <= i -> i ∈ X <->
    match bitset_words c !z (i / 64) with Some w => Z.testbit w (i mod 64) = true | None => False end) as Hbit.
  { intros c X Hc H0. rewrite <- (bool_decide_eq_true (i ∈ X)), <- (bp_test _ _ Hc), test_word by done.
    destruct (_ !z _); done. }
  split.
  - intros (H0 & x & Hx & Ht). rewrite (Hbit a S Ha), (Hbit b R Hb) by lia.
    destruct (bitset_words a !z _), (bitset_words b !z _); try done. simplify_eq.
    by rewrite Z.land_spec, andb_true_iff in Ht.
  - intros [HS HR]. pose proof (bp_nonneg _ _ Ha i HS). split; [lia|].
    rewrite (Hbit a S Ha) in HS by done. rewrite (Hbit b R Hb) in HR by done.
    destruct (bitset_words a !z _), (bitset_words b !z _); try done. eexists. split; [done|].
    by rewrite Z.land_spec, HS, HR.
Qed.

Lemma merge_sort_sorted (l : list Z) : StronglySorted Z.lt l -> merge_sort Z.le l = l.
Proof.
  intros Hs. apply (Sorted_unique Z.le).
  - apply Sorted_merge_sort. apply _.
  - apply StronglySorted_Sorted. induction Hs as [|x l Hs IH Hx]; constructor; [done|].
    eapply Forall_impl; [|exact Hx]. simpl. lia.
  - apply merge_sort_Permutation.
Qed.

Lemma map_wrap_id (l : list Z) : (forall i, i ∈ l -> is_u 32 i) -> map (wrap 32) l = l.
Proof. induction l as [|i l IH]; intros H; simpl; [done|]. rewrite wrap_small, IH by set_solver. done. Qed.

Lemma intersect_refines w L C n TA TB :
  world_repr w L C n ->
  exists l, world_collect_intersection w TA TB = Some l /\ StronglySorted Z.lt l /\
  forall i, i ∈ l <-> exists e, e_index e = i /\ is_Some (C !! (TA, e)) /\ is_Some (C !! (TB, e)).
Proof.
  intros Hr. unfold world_collect_intersection.
  destruct (storage_cases w L C n TA Hr) as [(_ & -> & HA)|(ia & sa & MA & _ & _ & -> & Hsa & HvA)]; simpl.
  { destruct (storage_cases w L C n TB Hr) as [(_ & -> & _)|(? & ? & ? & _ & _ & -> & _)]; simpl;
      (exists []; split; [done|]; split; [constructor|]; intros i; split; [by intros ?%not_elem_of_nil|];
       intros (e & _ & [v Hv] & _); congruence). }
  destruct (storage_cases w L C n TB Hr) as [(_ & -> & HB)|(ib & sb & MB & _ & _ & -> & Hsb & HvB)]; simpl.
  { exists []; split; [done|]; split; [constructor|]; intros i; split; [by intros ?%not_elem_of_nil|].
    intros (e & _ & _ & [v Hv]); congruence. }
  destruct (and_words_spec _ _ _ _ (sr_presence _ _ Hsa) (sr_presence _ _ Hsb)) as [Hs Hin].
  set (l := words_indices 0 _) in *.
  assert (forall i, i ∈ l <-> exists e, e_index e = i /\ is_Some (C !! (TA, e)) /\ is_Some (C !! (TB, e))) as Hspec.
  { intros i. rewrite Hin, !elem_of_dom. split.
    - intros [[[g a] Ha] [[g' b] Hb]]. apply HvA in Ha. apply HvB in Hb.
      assert (mkEntity i g = mkEntity i g') as He by (eapply comp_index_inj; done).
      exists (mkEntity i g). split; [done|]. split; [by eexists|]. rewrite He. by eexists.
    - intros (e & <- & [a Ha] & [b Hb]). destruct e as [i g]. apply HvA in Ha. apply HvB in Hb. simpl. eauto. }
  exists l. rewrite map_wrap_id, merge_sort_sorted; [done|done|].
  intros i Hi. apply Hspec in Hi as (e & <- & [a Ha] & _). apply (wr_live _ _ _ _ Hr) in Ha as [HL _].
  pose proof (live_range _ _ _ _ (wr_entities _ _ _ _ Hr) HL). pose proof (er_len _ _ _ (wr_entities _ _ _ _ Hr)).
  unfold is_u, U32_MAX in *. lia.
Qed.

(** The query on the abstract state: the entity of an index is the one its
    generation in the table names. *)
Definition visit_spec (gens : list Z) C (TA TB : TypeId) (idx : Z) : option (Entities.Entity * V * V) :=
  g ← gens !z idx; let e := mkEntity idx g in
  a ← C !! (TA, e); b ← C !! (TB, e); Some (e, a, b).

Fixpoint query2_spec {S} (gens : list Z) C (TA TB : TypeId) (candidates : list Z)
    (f : S -> Entities.Entity -> V -> V -> S * V * V) (acc : S) : gmap (TypeId * Entities.Entity) V * S :=
  match candidates with
  | [] => (C, acc)
  | idx :: candidates =>
      match visit_spec gens C TA TB idx with
      | Some (e, a, b) =>
          let '(acc, a, b) := f acc e a b in
          query2_spec gens (<[(TB, e) := b]> (<[(TA, e) := a]> C)) TA TB candidates f acc
      | None => query2_spec gens C TA TB candidates f acc
      end
  end.

Definition with_pair w ia TA sa ib TB sb : World V := with_slot (with_slot w ia TA sa) ib TB sb.

Lemma world_get_mut_slot w T i s s' e f ok :
  w_by_type w !! T = Some i -> w_slots w !z i = Some (Some (T, s)) -> storage_get_mut s e f = Some (s', ok) ->
  world_get_mut w T e f = Some (with_slot w i T s', ok).
Proof.
  intros HT Hs Hg. unfold world_get_mut, world_storage, world_slot_index. rewrite HT, Hs. simpl.
  rewrite Z.eqb_refl. simpl. by rewrite Hg.
Qed.

Record pair_at w (ia : Z) TA sa (ib : Z) TB sb : Prop := {
  pa_ne : ia <> ib;
  pa_ta : w_by_type w !! TA = Some ia;
  pa_tb : w_by_type w !! TB = Some ib;
  pa_a : w_slots w !z ia = Some (Some (TA, sa));
  pa_b : w_slots w !z ib = Some (Some (TB, sb))
}.

Lemma with_slot_a w ia TA sa ib TB sb sa' :
  pair_at w ia TA sa ib TB sb -> pair_at (with_slot w ia TA sa') ia TA sa' ib TB sb.
Proof.
  intros []. split; simpl; try done; [apply zget_zset_eq; by eapply zget_Some|by rewrite zget_zset_ne].
Qed.

Lemma with_slot_b w ia TA sa ib TB sb sb' :
  pair_at w ia TA sa ib TB sb -> pair_at (with_slot w ib TB sb') ia TA sa ib TB sb'.
Proof.
  intros []. split; simpl; try done; [by rewrite zget_zset_ne|apply zget_zset_eq; by eapply zget_Some].
Qed.

Lemma view_reads C T M s e :
  comp_view C T M -> storage_repr s M -> 0 <= e_index e ->
  storage_contains s e = Some (match C !! (T, e) with Some _ => true | None => false end) /\
  storage_get s e = Some (C !! (T, e)).
Proof.
  intros Hv Hs H0. rewrite (contains_refines s M e Hs H0), (storage_get_refines s M e Hs H0), (view_get C T M e Hv).
  split; [|done]. f_equal. by destruct (C !! (T, e)).
Qed.

(** One candidate. *)
Lemma pair_visit w L C n ia TA sa ib TB sb idx :
  world_repr w L C n -> TA <> TB -> 0 <= idx -> pair_at w ia TA sa ib TB sb ->
  (exists e a b, e_index e = idx /\
    visit_spec (en_generations (w_entities w)) C TA TB idx = Some (e, a, b) /\
    storage_generation_at sa idx = Some (Some (e_generation e)) /\
    storage_contains sa e = Some true /\ storage_contains sb e = Some true /\
    storage_get sa e = Some (Some a) /\ storage_get sb e = Some (Some b) /\
    forall a' b', exists sa' sb',
      storage_get_mut sa e (const a') = Some (sa', true) /\ storage_get_mut sb e (const b') = Some (sb', true) /\
      world_repr (with_pair w ia TA sa' ib TB sb') L (<[(TB, e) := b']> (<[(TA, e) := a']> C)) n) \/
  (visit_spec (en_generations (w_entities w)) C TA TB idx = None /\
   (storage_generation_at sa idx = Some None \/
    exists g, storage_generation_at sa idx = Some (Some g) /\
      storage_contains sa (mkEntity idx g) = Some true /\ storage_contains sb (mkEntity idx g) = Some false)).
Proof.
  intros Hr Hne H0 Hp. pose proof Hp as [_ HTA HTB Ha Hb].
  destruct (wr_types _ _ _ _ Hr TA ia HTA) as (sa0 & MA & Ha0 & HsA & HvA). rewrite Ha in Ha0. simplify_eq.
  destruct (wr_types _ _ _ _ Hr TB ib HTB) as (sb0 & MB & Hb0 & HsB & HvB). rewrite Hb in Hb0. simplify_eq.
  unfold visit_spec. rewrite (generation_at_refines _ _ _ HsA H0). destruct (MA !! idx) as [[g a]|] eqn:HMA; simpl.
  2: { right. split; [|by left]. destruct (en_generations _ !z idx) as [g|]; [|done]. simpl.
       destruct (C !! (TA, mkEntity idx g)) eqn:Hc; [|done]. apply HvA in Hc. congruence. }
  apply HvA in HMA. set (e := mkEntity idx g) in *.
  assert (en_generations (w_entities w) !z idx = Some g) as ->.
  { apply (wr_live _ _ _ _ Hr) in HMA as [HL _]. by apply (in_live _ _ _ _ (wr_entities _ _ _ _ Hr)) in HL as [Hg _]. }
  simpl. fold e. rewrite HMA. simpl.
  destruct (view_reads C TA MA sa0 e HvA HsA H0) as [HcA HgA0]. destruct (view_reads C TB MB sb0 e HvB HsB H0) as [HcB0 HgB0].
  rewrite HMA in HcA, HgA0. destruct (C !! (TB, e)) as [b|] eqn:HcB; simpl; [left|right]; simpl in *.
  2: { split; [done|]. right. by exists g. }
  exists e, a, b. repeat (split; [done|]). intros a' b'.
  destruct (storage_get_mut_refines sa0 MA e (const a') HsA H0) as (sa' & HgA & _).
  destruct (storage_get_mut_refines sb0 MB e (const b') HsB H0) as (sb' & HgB & _).
  rewrite (view_get C TA MA e HvA), HMA, bool_decide_eq_true_2 in HgA by done.
  rewrite (view_get C TB MB e HvB), HcB, bool_decide_eq_true_2 in HgB by done.
  exists sa', sb'. split; [done|]. split; [done|].
  destruct (world_get_mut_refines w L C n TA e (const a') Hr H0) as (w1 & Hw1 & Hr1).
  rewrite (world_get_mut_slot w TA ia sa0 sa' e _ true HTA Ha HgA) in Hw1. simplify_eq. rewrite HMA in Hr1.
  pose proof (with_slot_a _ _ _ _ _ _ _ sa' Hp) as [_ _ HTB1 _ Hb1].
  destruct (world_get_mut_refines _ L _ n TB e (const b') Hr1 H0) as (w2 & Hw2 & Hr2).
  rewrite (world_get_mut_slot _ TB ib sb0 sb' e _ true HTB1 Hb1 HgB) in Hw2. simplify_eq.
  rewrite lookup_insert_ne, HcB in Hr2 by congruence. exact Hr2.
Qed.

Lemma pair_refines {S} (f : S -> Entities.Entity -> V -> V -> S * V * V) candidates : forall w L C n ia TA sa ib TB sb acc,
  world_repr w L C n -> TA <> TB -> Forall (fun i => 0 <= i) candidates -> pair_at w ia TA sa ib TB sb ->
  let '(C', acc') := query2_spec (en_generations (w_entities w)) C TA TB candidates f acc in
  exists sa' sb', pair_for_each sa sb candidates f acc = Some (sa', sb', acc') /\
  world_repr (with_pair w ia TA sa' ib TB sb') L C' n.
Proof.
  induction candidates as [|idx cs IH]; intros w L C n ia TA sa ib TB sb acc Hr Hne Hc Hp; cbn [query2_spec pair_for_each].
  { exists sa, sb. split; [done|]. destruct Hp as [_ _ _ Ha Hb]. unfold with_pair, with_slot. simpl.
    rewrite (zset_id _ ia) by done. rewrite (zset_id _ ib) by done. by destruct w. }
  inv Hc. destruct (pair_visit w L C n ia TA sa ib TB sb idx Hr Hne H1 Hp)
    as [(e & a & b & <- & -> & -> & Hca & Hcb & Hga & Hgb & Hupd)|[-> Hskip]].
  - cbn [mbind option_bind]. replace (mkEntity (e_index e) (e_generation e)) with e by (by destruct e).
    rewrite Hca, Hcb. cbn [mbind option_bind andb]. rewrite Hga, Hgb. cbn [mbind option_bind].
    destruct (f acc e a b) as [[acc' a'] b']. destruct (Hupd a' b') as (sa1 & sb1 & -> & Hmb & Hr1).
    cbn [mbind option_bind]. rewrite Hmb. cbn [mbind option_bind].
    assert (pair_at (with_pair w ia TA sa1 ib TB sb1) ia TA sa1 ib TB sb1) as Hp1.
    { by eapply with_slot_b, with_slot_a. }
    specialize (IH _ _ _ _ _ _ _ _ _ _ acc' Hr1 Hne H2 Hp1). simpl in IH.
    destruct (query2_spec _ _ _ _ _ _ _) as [C' acc2]. destruct IH as (sa2 & sb2 & -> & Hr2).
    exists sa2, sb2. split; [done|]. unfold with_pair, with_slot in *. simpl in *.
    pose proof (pa_ne _ _ _ _ _ _ _ Hp). rewrite (zset_comm _ ib ia) in Hr2 by done. by rewrite !zset_zset in Hr2.
  - specialize (IH w L C n ia TA sa ib TB sb acc Hr Hne H2 Hp).
    destruct (query2_spec _ _ _ _ _ _ _) as [C' acc2]. destruct IH as (sa2 & sb2 & He & Hr2).
    exists sa2, sb2. split; [|done].
    destruct Hskip as [->|(g & -> & Hca & Hcb)]; [done|]. cbn [mbind option_bind]. by rewrite Hca, Hcb.
Qed.

Lemma query2_refines {S} (f : S -> Entities.Entity -> V -> V -> S * V * V) w L C n TA TB candidates acc :
  world_repr w L C n -> Forall (fun i => 0 <= i) candidates ->
  let '(C', acc') :=
    if bool_decide (TA <> TB /\ is_Some (w_by_type w !! TA) /\ is_Some (w_by_type w !! TB))
    then query2_spec (en_generations (w_entities w)) C TA TB candidates f acc else (C, acc) in
  exists w', world_query2 w TA TB candidates f acc = Some (w', acc') /\
  world_repr w' L C' n /\ w_entities w' = w_entities w /\ w_by_type w' = w_by_type w.
Proof.
  intros Hr Hc. unfold world_query2, world_pair, world_slot_index.
  destruct (w_by_type w !! TA) as [ia|] eqn:HTA; simpl.
  2: { rewrite bool_decide_eq_false_2 by (intros (_ & [? ?] & _); done). by exists w. }
  destruct (w_by_type w !! TB) as [ib|] eqn:HTB; simpl.
  2: { rewrite bool_decide_eq_false_2 by (intros (_ & _ & [? ?]); done). by exists w. }
  destruct (Z.eqb_spec ia ib) as [<-|Hne].
  { rewrite bool_decide_eq_false_2; [by exists w|]. intros (Hne & _). by apply Hne, (by_type_inj w L C n TA TB ia). }
  rewrite bool_decide_eq_true_2 by (split; [intros ->; congruence|done]).
  destruct (wr_types _ _ _ _ Hr TA ia HTA) as (sa & MA & Ha & _). destruct (wr_types _ _ _ _ Hr TB ib HTB) as (sb & MB & Hb & _).
  pose proof (zget_Some _ _ _ Ha). pose proof (zget_Some _ _ _ Hb). unfold zlen in *.
  assert (get2_mut (w_slots w) ia ib TA TB = Some (sa, sb)) as ->.
  { unfold get2_mut. rewrite (proj2 (Z.eqb_neq ia ib)) by done.
    assert (forall k j, (j < k)%nat -> take k (w_slots w) !! j = w_slots w !! j) as Htake by (intros; by apply lookup_take_lt).
    rewrite zget_lookup in Ha, Hb by lia. destruct (Z.ltb_spec ia ib).
    - rewrite !zget_lookup by lia. rewrite Htake, lookup_drop, Nat.add_0_r, Ha, Hb by lia. simpl. by rewrite !Z.eqb_refl.
    - rewrite !zget_lookup by lia. rewrite Htake, lookup_drop, Nat.add_0_r, Ha, Hb by lia. simpl. by rewrite !Z.eqb_refl. }
  pose proof (pair_refines f candidates w L C n ia TA sa ib TB sb acc Hr ltac:(intros ->; congruence) Hc) as Hpr.
  destruct (query2_spec _ _ _ _ _ _ _) as [C' acc']. destruct Hpr as (sa' & sb' & -> & Hr'); [by split|].
  simpl. eexists. split; [done|]. by split.
Qed.
End Repr.

(** ** Traces *)
Inductive world_event (V : Type) :=
| EvSpawn (A : alloc)
| EvDespawn (A : alloc) (e : Entities.Entity)
| EvInsert (A : alloc) (T : TypeId) (e : Entities.Entity) (v : V)
| EvRemove (T : TypeId) (e : Entities.Entity)
| EvGet (T : TypeId) (e : Entities.Entity)
| EvUpdate (T : TypeId) (e : Entities.Entity) (v : V)
| EvAlive (e : Entities.Entity)
| EvCount (T : TypeId)
| EvEach
| EvCollect (TA TB : TypeId)
| EvQuery (TA TB : TypeId) (candidates : list Z) (f : Entities.Entity -> V -> V -> V * V).
Arguments EvSpawn {V}. Arguments EvDespawn {V}. Arguments EvInsert {V}. Arguments EvRemove {V}.
Arguments EvGet {V}. Arguments EvUpdate {V}. Arguments EvAlive {V}. Arguments EvCount {V}. Arguments EvEach {V}.
Arguments EvCollect {V}. Arguments EvQuery {V}.

Definition world_event_ok {V} (ev : world_event V) : Prop :=
  match ev with
  | EvDespawn _ e | EvInsert _ _ e _ | EvRemove _ e | EvGet _ e | EvUpdate _ e _ => is_u 32 (e_index e)
  | EvQuery _ _ candidates _ => Forall (fun i => 0 <= i) candidates
  | _ => True
  end.

(** A closure that logs what it is handed and writes what [f] says. *)
Definition logging {V} (f : Entities.Entity -> V -> V -> V * V)
    (log : list (Entities.Entity * V * V)) (e : Entities.Entity) (a b : V) :
    list (Entities.Entity * V * V) * V * V :=
  (log ++ [(e, a, b)], (f e a b).1, (f e a b).2).

(** Running the world beside the abstract state: [L] the live entities, [E]
    all entities ever handed out, [C] the components. *)
Fixpoint world_agrees {V} (w : World V) (L E : gset Entities.Entity)
    (C : gmap (TypeId * Entities.Entity) V) (evs : list (world_event V)) : Prop :=
  match evs with
  | [] => world_entity_count w = Z.of_nat (size L) /\ forall T e, is_Some (C !! (T, e)) -> e ∈ L
  | EvSpawn A :: evs =>
      exists w' r, world_try_spawn A w = Some (w', r) /\
      match r with
      | Ok e => e ∉ E /\ world_agrees w' ({[e]} ∪ L) ({[e]} ∪ E) C evs
      | Err _ => world_agrees w' L E C evs
      end
  | EvDespawn A e :: evs =>
      exists w' r, world_try_despawn A w e = Some (w', r) /\
      match r with
      | Ok b => b = bool_decide (e ∈ L) /\ world_agrees w' (L ∖ {[e]}) E (filter (fun p => p.1.2 <> e) C) evs
      | Err _ => world_agrees w' L E C evs
      end
  | EvInsert A T e v :: evs =>
      exists w' r, world_try_insert A w T e v = Some (w', r) /\
      match r with
      | Ok _ => e ∈ L /\ world_agrees w' L E (<[(T, e) := v]> C) evs
      | Err err => (err = WorldError.EntityNotAlive <-> e ∉ L) /\ world_agrees w' L E C evs
      end
  | EvRemove T e :: evs =>
      exists w', world_remove w T e = Some (w', C !! (T, e)) /\ world_agrees w' L E (delete (T, e) C) evs
  | EvGet T e :: evs => world_get w T e = Some (C !! (T, e)) /\ world_agrees w L E C evs
  | EvUpdate T e v :: evs =>
      exists w', world_get_mut w T e (const v) = Some (w', bool_decide (is_Some (C !! (T, e)))) /\
      world_agrees w' L E (match C !! (T, e) with Some _ => <[(T, e) := v]> C | None => C end) evs
  | EvAlive e :: evs => world_is_alive w e = bool_decide (e ∈ L) /\ world_agrees w L E C evs
  | EvCount T :: evs => world_count w T = Some (Z.of_nat (size (holders C T))) /\ world_agrees w L E C evs
  | EvEach :: evs =>
      StronglySorted (fun a b => e_index a < e_index b) (world_for_each_entity w) /\
      (forall e, e ∈ world_for_each_entity w <-> e ∈ L) /\ world_agrees w L E C evs
  | EvCollect TA TB :: evs =>
      (exists l, world_collect_intersection w TA TB = Some l /\ StronglySorted Z.lt l /\
       forall i, i ∈ l <-> exists e, e_index e = i /\ is_Some (C !! (TA, e)) /\ is_Some (C !! (TB, e))) /\
      world_agrees w L E C evs
  | EvQuery TA TB candidates f :: evs =>
      exists w' log C',
      (C', log) = (if bool_decide (TA = TB) then (C, [])
                   else query2_spec (en_generations (w_entities w)) C TA TB candidates (logging f) []) /\
      world_query2 w TA TB candidates (logging f) [] = Some (w', log) /\ world_agrees w' L E C' evs
  end.

Section Agreement.
Context {V : Type}.
Implicit Types (w : World V) (C : gmap (TypeId * Entities.Entity) V).

Lemma entities_kept w w' T e A v f x r :
  (world_get_mut w T e f = Some (w', x) \/ world_remove w T e = Some (w', r)) \/
  (exists y, world_try_insert A w T e v = Some (w', y)) -> w_entities w' = w_entities w.
Proof.
  unfold world_get_mut, world_remove, world_try_insert, world_try_insert_typed, world_register_component, mbind, option_bind.
  intros [[H|H]|[y H]]; by simp.
Qed.

Lemma query2_unregistered {S} (gens : list Z) C TA TB candidates (f : S -> Entities.Entity -> V -> V -> S * V * V) acc :
  (forall e, C !! (TA, e) = None) \/ (forall e, C !! (TB, e) = None) ->
  query2_spec gens C TA TB candidates f acc = (C, acc).
Proof.
  intros Hn. induction candidates as [|i cs IH]; simpl; [done|].
  assert (visit_spec gens C TA TB i = None) as ->; [|done]. unfold visit_spec.
  destruct (gens !z i); [|done]. simpl. destruct Hn as [Hn|Hn]; rewrite Hn; [done|]. by destruct (C !! _).
Qed.

Lemma query_refines w L C n TA TB candidates f :
  world_repr w L C n -> Forall (fun i => 0 <= i) candidates ->
  exists w' log C',
  (C', log) = (if bool_decide (TA = TB) then (C, [])
               else query2_spec (en_generations (w_entities w)) C TA TB candidates (logging f) []) /\
  world_query2 w TA TB candidates (logging f) [] = Some (w', log) /\
  world_repr w' L C' n /\ w_entities w' = w_entities w.
Proof.
  intros Hr Hc. pose proof (query2_refines (logging f) w L C n TA TB candidates [] Hr Hc) as Hq.
  destruct (decide (TA = TB)) as [->|Hne].
  - rewrite bool_decide_eq_false_2 in Hq by (by intros [? _]). rewrite bool_decide_eq_true_2 by done.
    destruct Hq as (w' & He & Hr' & Hw & _). by exists w', [], C.
  - rewrite (bool_decide_eq_false_2 (TA = TB)) by done.
    assert ((if bool_decide (TA <> TB /\ is_Some (w_by_type w !! TA) /\ is_Some (w_by_type w !! TB))
      then query2_spec (en_generations (w_entities w)) C TA TB candidates (logging f) [] else (C, [])) =
      query2_spec (en_generations (w_entities w)) C TA TB candidates (logging f) []) as Heq.
    { case_bool_decide as Hb; [done|]. symmetry. apply query2_unregistered.
      destruct (storage_cases w L C n TA Hr) as [(_ & _ & ?)|(? & ? & ? & HA & _)]; [by left|].
      destruct (storage_cases w L C n TB Hr) as [(_ & _ & ?)|(? & ? & ? & HB & _)]; [by right|].
      destruct Hb. rewrite HA, HB. done. }
    rewrite Heq in Hq. destruct (query2_spec _ _ _ _ _ _ _) as [C' log]. destruct Hq as (w' & He & Hr' & Hw & _).
    by exists w', log, C'.
Qed.

Lemma world_agrees_run (evs : list (world_event V)) : forall w L E C n,
  world_repr w L C n -> issued_below (w_entities w) E -> 0 <= n -> n + zlen evs < 2 ^ 32 ->
  Forall world_event_ok evs -> world_agrees w L E C evs.
Proof.
  induction evs as [|ev evs IH]; intros w L E C n Hr HE H0 Hn Hev; cbn [world_agrees].
  { split; [apply (er_live _ _ _ (wr_entities _ _ _ _ Hr))|]. intros T e [v Hc]. by eapply (wr_live _ _ _ _ Hr). }
  inversion_clear Hev as [|? ? H1 H2]. zsimp. pose proof (zlen_nonneg evs).
  assert (forall w' L' C' E' m, world_repr w' L' C' m -> issued_below (w_entities w') E' -> 0 <= m <= n + 1 ->
    world_agrees w' L' E' C' evs) as Hgo.
  { intros w' L' C' E' m Hr' HE' Hm. apply (IH w' L' E' C' m); try done; lia. }
  destruct ev as [A|A e|A T e v|T e|T e|T e v|e|T| |TA TB|TA TB cs f]; simpl in H1;
    try (assert (0 <= e_index e) as Hi by apply H1).
  - destruct (spawn_refines A w L C n Hr H0) as (w' & r & He & Hw); [lia|]. exists w', r. split; [done|].
    destruct r as [e|err].
    + destruct Hw as [Hc Hw]. destruct (issued_create _ _ L E n e (wr_entities _ _ _ _ Hr) Hc HE) as [Hf HE'].
      split; [done|]. apply (Hgo _ _ _ _ (n + 1)); [done|done|lia].
    + destruct Hw as (Hk & Hw & _). apply (Hgo _ _ _ _ n); [done|by rewrite Hk|lia].
  - destruct (despawn_refines A w L C n e Hr Hi) as (w' & r & He & Hg & Hw). exists w', r. split; [done|].
    assert (issued_below (w_entities w') E) as HE' by (unfold issued_below; by rewrite Hg).
    destruct r as [b|err]; [destruct Hw as [-> Hw]; split; [done|]|]; (apply (Hgo _ _ _ _ n); [done|done|lia]).
  - destruct (world_insert_refines A w L C n T e v Hr H1) as (w' & r & He & Hw). exists w', r. split; [done|].
    rewrite <- (entities_kept w w' T e A v (const v) true None) in HE by eauto.
    destruct r as [[]|err]; (split; [apply Hw|]); (apply (Hgo _ _ _ _ n); [apply Hw|done|lia]).
  - destruct (world_remove_refines w L C n T e Hr Hi) as (w' & He & Hw). exists w'. split; [done|].
    apply (Hgo _ _ _ _ n); [done| |lia].
    destruct (C !! (T, e)) as [v|] eqn:Hc.
    + by rewrite (entities_kept w w' T e alloc_all v (const v) true (Some v)) by eauto.
    + unfold world_remove, mbind, option_bind in He. by simp.
  - split; [by eapply world_get_refines|]. by apply (Hgo _ _ _ _ n); [..|lia].
  - destruct (world_get_mut_refines w L C n T e (const v) Hr Hi) as (w' & He & Hw). exists w'. split; [done|].
    rewrite <- (entities_kept w w' T e alloc_all v _ _ None (or_introl (or_introl He))) in HE.
    by apply (Hgo _ _ _ _ n); [..|lia].
  - split; [by eapply alive_refines|]. by apply (Hgo _ _ _ _ n); [..|lia].
  - split; [by eapply count_refines|]. by apply (Hgo _ _ _ _ n); [..|lia].
  - destruct (each_refines w L C n Hr) as [Hs Hin]. split; [done|]. split; [done|]. by apply (Hgo _ _ _ _ n); [..|lia].
  - split; [by eapply intersect_refines|]. by apply (Hgo _ _ _ _ n); [..|lia].
  - destruct (query_refines w L C n TA TB cs f Hr H1) as (w' & log & C' & Hs & He & Hw & Hk).
    exists w', log, C'. split; [done|]. split; [done|]. apply (Hgo _ _ _ _ n); [done|by rewrite Hk|lia].
Qed.
End Agreement.

(** C2: the world is an entity-component state.  For every sequence of fewer
    than [2^32] calls no index panics and no [expect] fires; spawned entities
    are new; components exist on live entities only and are read, replaced and
    removed per type and entity; despawning removes the entity's components of
    every type and nothing else; inserting on a dead entity is the error
    [EntityNotAlive]; [for_each_entity] visits exactly the live entities in
    index order; [collect_intersection] is the sorted list of the entities
    holding both types; a two-type query hands the closure exactly the
    candidates that hold both and writes back to those two components. *)
Theorem world_refines_ecs {V} (evs : list (world_event V)) :
  zlen evs < 2 ^ 32 -> Forall world_event_ok evs -> world_agrees world_new ∅ ∅ ∅ evs.
Proof.
  intros Hl Hev. apply (world_agrees_run evs _ _ _ _ 0); [apply world_repr_new| |done|done|done].
  intros e He. set_solver.
Qed.

Definition world_demo_events : list (world_event Z) :=
  let e0 := mkEntity 0 0 in let e1 := mkEntity 1 0 in
  [EvSpawn alloc_all; EvSpawn alloc_all; EvInsert alloc_all 7 e0 10; EvInsert alloc_all 8 e0 20;
   EvInsert alloc_all 7 e1 11; EvCollect 7 8; EvQuery 7 8 [0; 1] (fun _ a b => (b, a)); EvGet 7 e0;
   EvDespawn alloc_all e0; EvInsert alloc_all 7 e0 12; EvCount 7; EvEach].

Lemma world_refines_ecs_witness :
  zlen world_demo_events < 2 ^ 32 /\ world_agrees world_new ∅ ∅ ∅ world_demo_events.
Proof.
  split; [done|]. apply (world_refines_ecs world_demo_events); [done|].
  repeat constructor; unfold is_u; simpl; lia.
Defined.
