(* ===== verification/Deferred.v ===== *)
(** The frame-bounded command buffer of [kernel/deferred.rs]. *)

From stdpp Require Import gmap sets.
From S2P Require Import Prelude Entities World.

Inductive DeferredCommand :=
| Spawn
| Despawn (e : Entities.Entity).

Module DeferredCommandError.
Inductive DeferredCommandError :=
| CapacityExceeded
| AllocationFailed.
End DeferredCommandError.
Abbreviation DeferredCommandError := DeferredCommandError.DeferredCommandError.

(** [dc_reserved] is the capacity of the vector itself, [dc_capacity] the
    bound of the buffer. *)
Record DeferredCommands := mkDeferredCommands {
  dc_commands : list DeferredCommand;
  dc_reserved : Z;
  dc_capacity : Z
}.

Definition deferred_try_with_capacity (A : alloc) (capacity : Z) : result DeferredCommandError DeferredCommands :=
  if A 0%nat then Ok (mkDeferredCommands [] capacity capacity) else Err DeferredCommandError.AllocationFailed.

(** [grown] is the capacity the vector has after a successful [try_reserve]. *)
Definition deferred_push (A : alloc) (grown : Z) (d : DeferredCommands) (c : DeferredCommand) :
    DeferredCommands * result DeferredCommandError unit :=
  if dc_capacity d <=? zlen (dc_commands d) then (d, Err DeferredCommandError.CapacityExceeded)
  else if (zlen (dc_commands d) =? dc_reserved d) && negb (A 0%nat) then (d, Err DeferredCommandError.AllocationFailed)
  else
    (mkDeferredCommands (dc_commands d ++ [c])
       (if zlen (dc_commands d) =? dc_reserved d then grown else dc_reserved d) (dc_capacity d), Ok tt).

Definition deferred_try_spawn A grown d := deferred_push A grown d Spawn.
Definition deferred_try_despawn A grown d (e : Entities.Entity) := deferred_push A grown d (Despawn e).
Definition deferred_len (d : DeferredCommands) : Z := zlen (dc_commands d).

(** [World::despawn] is [try_despawn(..).unwrap_or(false)]. *)
Definition world_despawn {V} (A : alloc) (w : World V) (e : Entities.Entity) : option (World V * bool) :=
  '(w, r) ← world_try_despawn A w e;
  Some (w, match r with Ok b => b | Err _ => false end).

(** The allocator of the [k]-th command is [As k]. *)
Fixpoint deferred_apply_commands {V} (As : nat -> alloc) (commands : list DeferredCommand) (w : World V) (applied : Z) :
    option (World V * Z) :=
  match commands with
  | [] => Some (w, applied)
  | Spawn :: commands =>
      '(w, r) ← world_try_spawn (As 0%nat) w;
      deferred_apply_commands (fun k => As (S k)) commands w
        (if is_ok r then saturating_add 64 applied 1 else applied)
  | Despawn e :: commands =>
      '(w, b) ← world_despawn (As 0%nat) w e;
      deferred_apply_commands (fun k => As (S k)) commands w
        (if (b : bool) then saturating_add 64 applied 1 else applied)
  end.

Definition deferred_apply {V} (As : nat -> alloc) (d : DeferredCommands) (w : World V) :
    option (DeferredCommands * World V * Z) :=
  '(w, applied) ← deferred_apply_commands As (dc_commands d) w 0;
  Some (mkDeferredCommands [] (dc_reserved d) (dc_capacity d), w, applied).

Definition deferred_clear (d : DeferredCommands) : DeferredCommands :=
  mkDeferredCommands [] (dc_reserved d) (dc_capacity d).

(** ** The effect of a command list on the abstract world

    A spawn, and a despawn of a live entity, fail only when the allocator
    refuses something; a despawn of a dead entity has no effect.  The number
    counts the commands that took effect. *)
Section Spec.
Context {V : Type}.
Implicit Types (L : gset Entities.Entity) (C : gmap (TypeId * Entities.Entity) V).

(** The allocator refused something. *)
Definition refuses (A : alloc) : Prop := exists k, A k = false.

Inductive commands_effect : (nat -> alloc) -> list DeferredCommand -> gset Entities.Entity -> gmap (TypeId * Entities.Entity) V ->
    gset Entities.Entity -> gmap (TypeId * Entities.Entity) V -> Z -> Prop :=
| ce_nil As L C : commands_effect As [] L C L C 0
| ce_spawn As e cmds L C L' C' n :
    e ∉ L -> commands_effect (fun k => As (S k)) cmds ({[e]} ∪ L) C L' C' n ->
    commands_effect As (Spawn :: cmds) L C L' C' (n + 1)
| ce_spawn_failed As cmds L C L' C' n :
    refuses (As 0%nat) -> commands_effect (fun k => As (S k)) cmds L C L' C' n -> commands_effect As (Spawn :: cmds) L C L' C' n
| ce_despawn As e cmds L C L' C' n :
    e ∈ L -> commands_effect (fun k => As (S k)) cmds (L ∖ {[e]}) (filter (fun p => p.1.2 <> e) C) L' C' n ->
    commands_effect As (Despawn e :: cmds) L C L' C' (n + 1)
| ce_despawn_skipped As e cmds L C L' C' n :
    e ∉ L \/ refuses (As 0%nat) ->
    commands_effect (fun k => As (S k)) cmds L C L' C' n -> commands_effect As (Despawn e :: cmds) L C L' C' n.

Lemma despawn_error A (w w' : World V) e err : world_try_despawn A w e = Some (w', Err err) -> refuses A.
Proof.
  unfold world_try_despawn, entities_try_destroy, mbind, option_bind. intros H. exists 0%nat.
  by simp.
Qed.

Definition command_ok (c : DeferredCommand) : Prop :=
  match c with Spawn => True | Despawn e => is_u 32 (e_index e) end.

Lemma effect_count As cmds L C L' C' n : commands_effect As cmds L C L' C' n -> 0 <= n <= zlen cmds.
Proof. induction 1; rewrite ?zlen_cons in *; change (zlen (@nil DeferredCommand)) with 0; lia. Qed.

Lemma apply_effect_bound cmds : forall (As : nat -> alloc) (w : World V) L C n applied,
  world_repr w L C n -> 0 <= n -> n + zlen cmds < 2 ^ 32 -> 0 <= applied -> applied + zlen cmds < 2 ^ 64 ->
  Forall command_ok cmds ->
  exists w' L' C' n' k, deferred_apply_commands As cmds w applied = Some (w', applied + k) /\
  world_repr w' L' C' n' /\ commands_effect As cmds L C L' C' k /\ 0 <= n' <= n + zlen cmds.
Proof.
  induction cmds as [|c cmds IH]; intros As w L C n applied Hr H0 Hn Ha Hb Hok.
  { exists w, L, C, n, 0. rewrite Z.add_0_r. split; [done|]. split; [done|]. split; [constructor|]. zlen_nil_simp. lia. }
  inversion_clear Hok as [|? ? Hc Hok']. zsimp. pose proof (zlen_nonneg cmds).
  assert (forall b, (if (b : bool) then saturating_add 64 applied 1 else applied) = applied + (if b then 1 else 0)) as Hsat.
  { intros []; [|lia]. unfold saturating_add, umax. lia. }
  destruct c as [|e]; cbn [deferred_apply_commands].
  - destruct (spawn_refines (As 0%nat) w L C n Hr H0) as (w1 & r & -> & Hw); [lia|]. cbn [mbind option_bind].
    rewrite Hsat. destruct r as [e|err]; cbn [is_ok].
    + destruct Hw as [Hcr Hw].
      destruct (IH (fun k => As (S k)) w1 _ C (n + 1) (applied + 1) Hw) as (w' & L' & C' & n' & k & -> & Hr' & Hce & Hn'); try done; try lia.
      exists w', L', C', n', (k + 1). rewrite <- Z.add_assoc, (Z.add_comm 1 k). split; [done|]. split; [done|]. split; [|lia].
      econstructor; [apply Hcr|exact Hce].
    + destruct (IH (fun k => As (S k)) w1 L C n (applied + 0) (proj1 (proj2 Hw))) as (w' & L' & C' & n' & k & -> & Hr' & Hce & Hn'); try done; try lia.
      exists w', L', C', n', k. rewrite Z.add_0_r. split; [done|]. split; [done|]. split; [|lia].
      apply ce_spawn_failed; [apply Hw|done].
  - unfold world_despawn. destruct (despawn_refines (As 0%nat) w L C n e Hr (proj1 Hc)) as (w1 & r & He & _ & Hw). rewrite He.
    cbn [mbind option_bind]. rewrite Hsat. destruct r as [b|err].
    + destruct Hw as [-> Hw].
      destruct (IH (fun k => As (S k)) w1 _ _ n (applied + if bool_decide (e ∈ L) then 1 else 0) Hw)
        as (w' & L' & C' & n' & k & -> & Hr' & Hce & Hn'); try done; try lia; try (case_bool_decide; lia).
      case_bool_decide as HL.
      * exists w', L', C', n', (k + 1). rewrite <- Z.add_assoc, (Z.add_comm 1 k). split; [done|]. split; [done|]. split; [by constructor|lia].
      * exists w', L', C', n', k. rewrite Z.add_0_r. split; [done|]. split; [done|]. split; [|lia].
        replace (L ∖ {[e]}) with L in Hce by set_solver. apply ce_despawn_skipped; [by left|]. destruct Hr.
        rewrite map_filter_id in Hce; [done|]. intros [T x] v Hx. simpl. intros ->. apply HL. by eapply wr_live.
    + destruct (IH (fun k => As (S k)) w1 L C n (applied + 0) Hw) as (w' & L' & C' & n' & k & -> & Hr' & Hce & Hn'); try done; try lia.
      exists w', L', C', n', k. rewrite Z.add_0_r. split; [done|]. split; [done|]. split; [|lia].
      apply ce_despawn_skipped; [right; by eapply despawn_error|done].
Qed.
End Spec.

(** Queueing a list of commands on an empty buffer. *)
Fixpoint deferred_queue (A : alloc) (grown : Z) (d : DeferredCommands) (cmds : list DeferredCommand) :
    DeferredCommands * list (result DeferredCommandError unit) :=
  match cmds with
  | [] => (d, [])
  | c :: cmds =>
      let '(d, r) := deferred_push A grown d c in
      let '(d, l) := deferred_queue A grown d cmds in (d, r :: l)
  end.

(** With the reservation made at construction no push allocates. *)
Lemma queue_spec A grown cmds : forall d,
  dc_reserved d = dc_capacity d -> 0 <= dc_capacity d -> zlen (dc_commands d) <= dc_capacity d ->
  let room := Z.to_nat (dc_capacity d - zlen (dc_commands d)) in
  deferred_queue A grown d cmds =
    (mkDeferredCommands (dc_commands d ++ take room cmds) (dc_reserved d) (dc_capacity d),
     map (fun _ => Ok tt) (take room cmds) ++
     map (fun _ => Err DeferredCommandError.CapacityExceeded) (drop room cmds)).
Proof.
  induction cmds as [|c cmds IH]; intros d Hres H0 Hle room; cbn [deferred_queue].
  { rewrite take_nil, drop_nil, app_nil_r. by destruct d. }
  unfold deferred_push. destruct (Z.leb_spec (dc_capacity d) (zlen (dc_commands d))).
  - rewrite IH by done. fold room. replace room with 0%nat by (unfold room; lia). by rewrite !take_0, !drop_0.
  - rewrite Hres. destruct (Z.eqb_spec (zlen (dc_commands d)) (dc_capacity d)); [lia|]. cbn [andb].
    rewrite IH by (simpl; zsimp; lia). simpl. zsimp.
    replace room with (S (Z.to_nat (dc_capacity d - (zlen (dc_commands d) + (0 + 1))))) by (unfold room; lia).
    simpl. by rewrite <- (assoc_L (++)).
Qed.

(** deferred structural changes.  Submitting any commands to a new buffer
    accepts exactly the first [capacity] of them, in order, and answers
    [CapacityExceeded] to the rest without ever reserving again; applying the
    buffer then performs the accepted commands on the world in submission
    order, counts those that took effect, and leaves the buffer empty. *)
Theorem deferred_apply_in_order {V} A As grown capacity d cmds (w : World V) L C n :
  deferred_try_with_capacity A capacity = Ok d -> 0 <= capacity < 2 ^ 32 - n ->
  Forall command_ok cmds -> world_repr w L C n -> 0 <= n ->
  let accepted := take (Z.to_nat capacity) cmds in
  let '(d1, answers) := deferred_queue A grown d cmds in
  dc_commands d1 = accepted /\
  answers = map (fun _ => Ok tt) accepted ++
            map (fun _ => Err DeferredCommandError.CapacityExceeded) (drop (Z.to_nat capacity) cmds) /\
  exists d2 w' L' C' n' k,
    deferred_apply As d1 w = Some (d2, w', k) /\ deferred_len d2 = 0 /\
    world_repr w' L' C' n' /\ commands_effect As accepted L C L' C' k /\ 0 <= k <= zlen accepted.
Proof.
  intros Hd Hc Hok Hr Hn accepted. unfold deferred_try_with_capacity in Hd.
  destruct (A 0%nat); [|done]. injection Hd as <-. rewrite queue_spec by (simpl; zlen_nil_simp; lia).
  change (zlen (dc_commands _)) with 0. simpl. rewrite Z.sub_0_r. fold accepted.
  split; [done|]. split; [done|].
  assert (zlen accepted <= capacity) by (unfold accepted, zlen; rewrite length_take; lia).
  destruct (apply_effect_bound accepted As w L C n 0 Hr Hn) as (w' & L' & C' & n' & k & He & Hr' & Hce & _); try lia.
  { unfold accepted. by apply Forall_take. }
  pose proof (effect_count _ _ _ _ _ _ _ Hce).
  eexists _, w', L', C', n', k. unfold deferred_apply. simpl. rewrite He. simpl. split; [done|]. done.
Qed.

Lemma deferred_apply_in_order_witness :
  let cmds := [Spawn; Despawn (mkEntity 0 0); Spawn] in
  let d := mkDeferredCommands [] 2 2 in
  exists d1 answers d2 w k,
    deferred_queue alloc_all 4 d cmds = (d1, answers) /\
    answers = [Ok tt; Ok tt; Err DeferredCommandError.CapacityExceeded] /\
    deferred_apply (V := Z) (fun _ => alloc_all) d1 world_new = Some (d2, w, k) /\ 0 <= k <= 2.
Proof.
  intros cmds d.
  pose proof (deferred_apply_in_order alloc_all (fun _ => alloc_all) 4 2 d cmds (world_new (V := Z)) ∅ ∅ 0 eq_refl
    ltac:(lia) ltac:(repeat constructor; unfold is_u; simpl; lia) world_repr_new ltac:(lia)) as H.
  change (deferred_queue alloc_all 4 d cmds) with
    (mkDeferredCommands [Spawn; Despawn (mkEntity 0 0)] 2 2, [Ok tt; Ok tt; @Err DeferredCommandError unit DeferredCommandError.CapacityExceeded]) in *.
  destruct H as (_ & Ha & d2 & w' & L' & C' & n' & k & He & _ & _ & _ & Hk).
  do 2 eexists. exists d2, w', k. split; [reflexivity|]. split; [exact Ha|]. split; [exact He|exact Hk].
Defined.
