(* ===== verification/Scheduler.v ===== *)
(** Scheduling of [kernel/scheduler.rs] and the access declarations of
    [kernel/subsystem.rs]: depth-first topological sort with cycle reports,
    and the grouping of the order into waves. *)

From Stdlib Require Import Sorting.Sorted.
From stdpp Require Import strings sets.
From S2P Require Import Prelude Bus.

Module KernelError.
Inductive KernelError :=
| UnknownDependency (subsystem dependency : string)
| DependencyCycle (path : list string)
| DuplicateName (name : string)
| Bus (e : BusError)
| NotInitialized.
End KernelError.
Abbreviation KernelError := KernelError.KernelError.

Definition kernel_error_is_configuration (e : KernelError) : bool :=
  match e with KernelError.Bus _ => false | _ => true end.

(** ** Access declarations *)
Record SystemAccess := mkSystemAccess {
  sa_reads : list string;
  sa_writes : list string;
  sa_exclusive : bool
}.

Definition access_exclusive : SystemAccess := mkSystemAccess [] [] true.
Definition access_read_only (reads : list string) : SystemAccess := mkSystemAccess reads [] false.
Definition access_read_write (reads writes : list string) : SystemAccess := mkSystemAccess reads writes false.

Definition contains (keys : list string) (key : string) : bool := bool_decide (key ∈ keys).

Definition access_conflicts (a b : SystemAccess) : bool :=
  if sa_exclusive a || sa_exclusive b then true
  else
    existsb (fun key => contains (sa_reads b) key || contains (sa_writes b) key) (sa_writes a) ||
    existsb (fun key => contains (sa_reads a) key) (sa_writes b).

(** ** Depth-first topological sort *)
Definition WHITE : Z := 0.
Definition GRAY : Z := 1.
Definition BLACK : Z := 2.

(** The three mutable vectors: colours, stack and order. *)
Record Dfs := mkDfs {
  dfs_state : list Z;
  dfs_stack : list Z;
  dfs_order : list Z
}.

Definition cycle_report (names : list string) (stack : list Z) (dep : Z) : option KernelError :=
  pos ← vec_position (fun n => n =? dep) stack;
  path ← mapM (fun n => names !z n) (drop (Z.to_nat pos) stack);
  closing ← names !z dep;
  Some (KernelError.DependencyCycle (path ++ [closing])).

(** The loop over the dependencies of a node; [rec] is the recursive call. *)
Section VisitDeps.
Context (rec : Z -> Dfs -> option (result KernelError Dfs)) (names : list string).

Fixpoint visit_deps (ds : list Z) (s : Dfs) : option (result KernelError Dfs) :=
  match ds with
  | [] => Some (Ok s)
  | dep :: ds =>
      color ← dfs_state s !z dep;
      if color =? WHITE then
        r ← rec dep s;
        match r with Ok s => visit_deps ds s | Err e => Some (Err e) end
      else if color =? GRAY then
        e ← cycle_report names (dfs_stack s) dep; Some (Err e)
      else if color =? BLACK then visit_deps ds s
      else None
  end.
End VisitDeps.

(** [visit]: the outer [None] is a panic (an index out of range, the
    [expect], the [unreachable]) or lack of fuel; [toposort_correct] shows
    that neither happens on resolved dependencies. *)
Fixpoint visit (fuel : nat) (node : Z) (deps : list (list Z)) (names : list string) (s : Dfs) :
    option (result KernelError Dfs) :=
  match fuel with
  | O => None
  | S fuel =>
      _ ← dfs_state s !z node;
      ds ← deps !z node;
      r ← visit_deps (fun dep s => visit fuel dep deps names s) names ds
            (mkDfs (zset (dfs_state s) node GRAY) (dfs_stack s ++ [node]) (dfs_order s));
      match r with
      | Ok s => Some (Ok (mkDfs (zset (dfs_state s) node BLACK) (removelast (dfs_stack s)) (dfs_order s ++ [node])))
      | Err e => Some (Err e)
      end
  end.

Fixpoint toposort_from (deps : list (list Z)) (names : list string) (starts : list Z) (s : Dfs) :
    option (result KernelError Dfs) :=
  match starts with
  | [] => Some (Ok s)
  | start :: starts =>
      color ← dfs_state s !z start;
      if color =? WHITE then
        r ← visit (length deps) start deps names s;
        match r with Ok s => toposort_from deps names starts s | Err e => Some (Err e) end
      else toposort_from deps names starts s
  end.

(** The recursion depth is bounded by the number of nodes. *)
Definition toposort (deps : list (list Z)) (names : list string) : option (result KernelError (list Z)) :=
  let n := zlen deps in
  r ← toposort_from deps names (seqZ 0 n) (mkDfs (replicate (length deps) WHITE) [] []);
  Some (match r with Ok s => Ok (dfs_order s) | Err e => Err e end).

(** ** Graph vocabulary *)
Section Graph.
Context (deps : list (list Z)).

Definition edge (a b : Z) : Prop := exists ds, deps !z a = Some ds /\ b ∈ ds.
Definition deps_valid : Prop := forall a b, edge a b -> 0 <= b < zlen deps.

Fixpoint chain (l : list Z) : Prop :=
  match l with
  | a :: ((b :: _) as t) => edge a b /\ chain t
  | _ => True
  end.

(** A closed walk [x, .., x] along dependencies. *)
Definition closed_walk (l : list Z) : Prop := exists x t, l = x :: t ++ [x] /\ chain l.

(** Dependencies come first. *)
Definition deps_first (order : list Z) : Prop :=
  forall l x r d, order = l ++ x :: r -> edge x d -> d ∈ l.

Lemma chain_cons a l : chain (a :: l) <-> (match l with b :: _ => edge a b | [] => True end) /\ chain l.
Proof. destruct l; simpl; tauto. Qed.

Lemma chain_snoc l a b : chain (l ++ [a]) -> edge a b -> chain (l ++ [a; b]).
Proof.
  induction l as [|x l IH]; intros Hc He; [simpl; tauto|].
  change ((x :: l) ++ [a]) with (x :: l ++ [a]) in Hc. change ((x :: l) ++ [a; b]) with (x :: l ++ [a; b]).
  apply chain_cons in Hc as [Hx Hc]. apply chain_cons. split; [|by apply IH]. by destruct l.
Qed.

Lemma chain_drop l r : chain (l ++ r) -> chain r.
Proof. induction l as [|x l IH]; [done|]. intros Hc. apply chain_cons in Hc as [_ Hc]. by apply IH. Qed.

Lemma deps_first_nodup_rank order a b :
  deps_first order -> edge a b -> a ∈ order ->
  exists i j, order !! i = Some b /\ order !! j = Some a /\ (i < j)%nat.
Proof.
  intros Hd He Ha. apply list_elem_of_split in Ha as (l & r & ->).
  pose proof (Hd l a r b eq_refl He) as Hb. apply list_elem_of_lookup in Hb as [i Hi].
  exists i, (length l). split; [|split].
  - apply lookup_app_l_Some. done.
  - by apply list_lookup_middle.
  - by eapply lookup_lt_Some.
Qed.

(** An order of all nodes with dependencies first excludes closed walks. *)
Lemma order_acyclic order l :
  NoDup order -> (forall i, 0 <= i < zlen deps -> i ∈ order) -> deps_first order -> ~ closed_walk l.
Proof.
  intros Hnd Hall Hd (x & t & -> & Hc).
  assert (forall t a z, chain (a :: t ++ [z]) ->
    exists i j, order !! i = Some z /\ order !! j = Some a /\ (i < j)%nat) as Hlt.
  { clear Hc x t. induction t as [|b t IH]; intros a z Hc.
    - simpl in Hc. destruct Hc as [He _]. apply deps_first_nodup_rank; [done|done|].
      destruct He as (ds & Hds & _). apply zget_Some in Hds. by apply Hall.
    - change ((b :: t) ++ [z]) with (b :: t ++ [z]) in Hc. destruct Hc as [He Hc].
      destruct (IH b z Hc) as (i & j & Hi & Hj & Hij).
      destruct (deps_first_nodup_rank order a b Hd He) as (j' & k & Hj' & Hk & Hjk).
      { destruct He as (ds & Hds & _). apply zget_Some in Hds. by apply Hall. }
      pose proof (NoDup_lookup order j j' b Hnd Hj Hj'). exists i, k. split; [done|]. split; [done|]. lia. }
  destruct (Hlt t x x Hc) as (i & j & Hi & Hj & Hij). pose proof (NoDup_lookup order i j x Hnd Hi Hj). lia.
Qed.
End Graph.

(** ** The invariant of the search *)
Definition white (c : Z) : nat := if c =? WHITE then 1%nat else 0%nat.
Fixpoint whites (st : list Z) : nat :=
  match st with [] => 0%nat | c :: st => (white c + whites st)%nat end.

Lemma whites_insert st (k : nat) (c c' : Z) :
  st !! k = Some c -> (whites (<[k := c']> st) + white c = whites st + white c')%nat.
Proof.
  revert k. induction st as [|x st IH]; intros [|k] Hk; simplify_eq/=; [lia|].
  pose proof (IH k Hk). lia.
Qed.

Lemma whites_zset st i (c c' : Z) :
  st !z i = Some c -> (whites (zset st i c') + white c = whites st + white c')%nat.
Proof.
  intros Hc. pose proof (zget_Some _ _ _ Hc). rewrite zget_lookup in Hc by lia. unfold zset.
  destruct (Z.ltb_spec i 0); [lia|]. by apply whites_insert.
Qed.

Record dfs_inv (deps : list (list Z)) (s : Dfs) : Prop := {
  di_len : zlen (dfs_state s) = zlen deps;
  di_white i : dfs_state s !z i = Some WHITE -> i ∉ dfs_stack s /\ i ∉ dfs_order s;
  di_color i c : dfs_state s !z i = Some c -> c = WHITE \/ (c = GRAY /\ i ∈ dfs_stack s) \/ (c = BLACK /\ i ∈ dfs_order s);
  di_range i : i ∈ dfs_stack s ++ dfs_order s -> 0 <= i < zlen deps;
  di_nodup : NoDup (dfs_stack s ++ dfs_order s);
  di_chain : chain deps (dfs_stack s);
  di_first : deps_first deps (dfs_order s)
}.

(** A genuine cycle, reported by name from its first node back to it. *)
Definition reports_cycle (deps : list (list Z)) (names : list string) (e : KernelError) : Prop :=
  exists walk path, closed_walk deps walk /\ mapM (fun n => names !z n) walk = Some path /\
  e = KernelError.DependencyCycle path.

Section Search.
Context (deps : list (list Z)) (names : list string).
Hypothesis (Hvalid : deps_valid deps) (Hnames : zlen names = zlen deps).

Lemma names_total l : (forall i, i ∈ l -> 0 <= i < zlen deps) -> exists p, mapM (fun n => names !z n) l = Some p.
Proof.
  induction l as [|i l IH]; intros Hl; simpl; [by eexists|].
  destruct (proj2 (zget_is_Some names i)) as [s Hs]; [rewrite Hnames; apply Hl; set_solver|]. rewrite Hs. simpl.
  destruct IH as [p ->]; [set_solver|]. simpl. by eexists.
Qed.

Lemma mapM_snoc l (i : Z) p s :
  mapM (fun n => names !z n) l = Some p -> names !z i = Some s ->
  mapM (fun n => names !z n) (l ++ [i]) = Some (p ++ [s]).
Proof.
  revert p. induction l as [|x l IH]; intros p Hp Hs; simpl in *; [injection Hp as <-; simpl; rewrite Hs; reflexivity|].
  destruct (names !z x); [|done]. simpl in *. destruct (mapM _ l) eqn:Hm; [|done]. simplify_eq/=.
  injection Hp as <-. rewrite (IH _ eq_refl Hs). reflexivity.
Qed.

(** A gray dependency closes a cycle on the stack. *)
Lemma cycle_report_spec stack node dep :
  chain deps (stack ++ [node]) -> (forall i, i ∈ stack ++ [node] -> 0 <= i < zlen deps) ->
  edge deps node dep -> dep ∈ stack ++ [node] ->
  exists e, cycle_report names (stack ++ [node]) dep = Some e /\ reports_cycle deps names e.
Proof.
  intros Hc Hr He Hin. unfold cycle_report.
  destruct (vec_position _ _) as [pos|] eqn:Hpos.
  2: { apply list_elem_of_lookup in Hin as [k Hk]. rewrite <- zget_nat in Hk.
       pose proof (position_None _ _ _ _ Hpos Hk) as Hne. simpl in Hne. zbool. lia. }
  apply position_Some in Hpos as (x & Hx & He0). zbool. subst x. simpl.
  pose proof (zget_Some _ _ _ Hx). rewrite zget_lookup in Hx by lia.
  destruct (names_total (drop (Z.to_nat pos) (stack ++ [node]))) as [p Hp].
  { intros i Hi. apply Hr. apply list_elem_of_lookup in Hi as [k Hk]. rewrite lookup_drop in Hk.
    by eapply list_elem_of_lookup_2. }
  rewrite Hp. simpl.
  destruct (proj2 (zget_is_Some names dep)) as [s Hs]; [rewrite Hnames; by eapply Hvalid|]. rewrite Hs. simpl.
  eexists. split; [done|]. exists (drop (Z.to_nat pos) (stack ++ [node]) ++ [dep]), (p ++ [s]).
  split; [|split; [by apply mapM_snoc|done]].
  rewrite (drop_S _ _ _ Hx) in *. exists dep, (drop (S (Z.to_nat pos)) (stack ++ [node])). split; [done|].
  rewrite <- (drop_S _ _ _ Hx). rewrite drop_app_le.
  - rewrite <- (assoc_L (++)). simpl. apply chain_snoc; [|done].
    rewrite <- (take_drop (Z.to_nat pos) stack), <- (assoc_L (++)) in Hc. by eapply chain_drop.
  - zsimp. unfold zlen in *. lia.
Qed.

Lemma inv_push s node :
  dfs_inv deps s -> dfs_state s !z node = Some WHITE ->
  (forall l a, dfs_stack s = l ++ [a] -> edge deps a node) ->
  dfs_inv deps (mkDfs (zset (dfs_state s) node GRAY) (dfs_stack s ++ [node]) (dfs_order s)).
Proof.
  intros [] Hw Hlast. pose proof (zget_Some _ _ _ Hw) as Hr. destruct (di_white0 node Hw) as [Hns Hno].
  split; simpl; rewrite ?zlen_zset; try done.
  - intros i. destruct (Z.eq_dec node i) as [<-|Hne]; [by rewrite zget_zset_eq|].
    rewrite zget_zset_ne by done. intros Hi. apply di_white0 in Hi as [? ?]. set_solver.
  - intros i c. destruct (Z.eq_dec node i) as [<-|Hne].
    + rewrite zget_zset_eq by done. intros [= <-]. right. left. set_solver.
    + rewrite zget_zset_ne by done. intros Hi. destruct (di_color0 i c Hi) as [?|[[? ?]|?]]; [by left| |by right; right].
      right. left. set_solver.
  - intros i Hi. assert (i = node \/ i ∈ dfs_stack s ++ dfs_order s) as [->|Hi'] by set_solver; [lia|by apply di_range0].
  - rewrite <- (assoc_L (++)). apply list.NoDup_app in di_nodup0 as (H1 & H2 & H3). apply list.NoDup_app.
    split; [done|]. split; [set_solver|]. apply list.NoDup_cons. set_solver.
  - destruct (dfs_stack s) as [|x l] eqn:Hst using rev_ind; [done|]. rewrite <- (assoc_L (++)). simpl.
    apply chain_snoc; [done|]. by eapply Hlast.
Qed.

Lemma inv_finish s l node :
  dfs_inv deps s -> dfs_stack s = l ++ [node] -> (forall d, edge deps node d -> d ∈ dfs_order s) ->
  dfs_inv deps (mkDfs (zset (dfs_state s) node BLACK) (removelast (dfs_stack s)) (dfs_order s ++ [node])).
Proof.
  intros [] Hst Hd. rewrite Hst in *. rewrite removelast_last.
  assert (0 <= node < zlen deps) as Hr by (apply di_range0; set_solver).
  apply list.NoDup_app in di_nodup0 as (Hn1 & Hn2 & Hn3). apply list.NoDup_app in Hn1 as (Hn4 & Hn5 & _).
  split; simpl; rewrite ?zlen_zset; try done.
  - intros i. destruct (Z.eq_dec node i) as [<-|Hne]; [by rewrite zget_zset_eq by lia|].
    rewrite zget_zset_ne by done. intros Hi. apply di_white0 in Hi as [? ?]. set_solver.
  - intros i c. destruct (Z.eq_dec node i) as [<-|Hne].
    + rewrite zget_zset_eq by lia. intros [= <-]. right. right. set_solver.
    + rewrite zget_zset_ne by done. intros Hi. destruct (di_color0 i c Hi) as [?|[[? ?]|[? ?]]]; [by left| |right; right; set_solver].
      right. left. set_solver.
  - intros i Hi. apply di_range0. set_solver.
  - apply list.NoDup_app. split; [done|]. split; [set_solver|]. apply list.NoDup_app. split; [done|].
    split; [set_solver|by apply NoDup_singleton].
  - rewrite <- (app_nil_r (l ++ [node])) in di_chain0. clear -di_chain0. induction l as [|x l IH]; [done|].
    change ((x :: l) ++ [node]) with (x :: l ++ [node]) in di_chain0. rewrite app_nil_r in *.
    apply chain_cons in di_chain0 as [Hx Hc]. apply chain_cons. split; [by destruct l|by apply IH].
  - intros a x b d He Hed. destruct b as [|y b _] using rev_ind.
    + apply app_inj_tail in He as [<- <-]. by apply Hd.
    + change (x :: b ++ [y]) with ((x :: b) ++ [y]) in He. rewrite (assoc_L (++)) in He.
      apply app_inj_tail in He as [He <-]. by eapply di_first0.
Qed.

(** What a successful (partial) search leaves. *)
Record progress (s s' : Dfs) : Prop := {
  pg_inv : dfs_inv deps s';
  pg_stack : dfs_stack s' = dfs_stack s;
  pg_order i : i ∈ dfs_order s -> i ∈ dfs_order s';
  pg_whites : (whites (dfs_state s') <= whites (dfs_state s))%nat
}.

Lemma progress_refl s : dfs_inv deps s -> progress s s.
Proof. by split. Qed.

Lemma progress_trans s1 s2 s3 : progress s1 s2 -> progress s2 s3 -> progress s1 s3.
Proof. intros [] []. split; [done|congruence|auto|lia]. Qed.

(** The contract of [visit]: with as much fuel as there are white nodes it
    finishes, either with the node in the order or with a genuine cycle. *)
Definition visit_post (node : Z) (s : Dfs) (r : result KernelError Dfs) : Prop :=
  match r with
  | Ok s' => progress s s' /\ node ∈ dfs_order s'
  | Err e => reports_cycle deps names e
  end.

Definition visits (fuel : nat) (rec : Z -> Dfs -> option (result KernelError Dfs)) : Prop :=
  forall node s, dfs_inv deps s -> dfs_state s !z node = Some WHITE ->
  (forall l a, dfs_stack s = l ++ [a] -> edge deps a node) -> (whites (dfs_state s) <= fuel)%nat ->
  exists r, rec node s = Some r /\ visit_post node s r.

Lemma visit_deps_spec fuel rec node stack ds : visits fuel rec -> forall s,
  (forall d, d ∈ ds -> edge deps node d) -> dfs_inv deps s ->
  dfs_stack s = stack ++ [node] -> (whites (dfs_state s) <= fuel)%nat ->
  exists r, visit_deps rec names ds s = Some r /\
  match r with
  | Ok s' => progress s s' /\ forall d, d ∈ ds -> d ∈ dfs_order s'
  | Err e => reports_cycle deps names e
  end.
Proof.
  intros Hrec. induction ds as [|dep ds IH]; intros s Hed Hi Hst Hf; cbn [visit_deps].
  { exists (Ok s). split; [done|]. split; [by apply progress_refl|]. intros d Hd. by apply not_elem_of_nil in Hd. }
  assert (edge deps node dep) as Hdep by (apply Hed; set_solver).
  pose proof (Hvalid node dep Hdep) as Hdr. rewrite <- (di_len _ _ Hi) in Hdr.
  destruct (proj2 (zget_is_Some _ _) Hdr) as [c Hc]. rewrite Hc. cbn [mbind option_bind].
  destruct (di_color _ _ Hi dep c Hc) as [->|[[-> Hin]|[-> Hin]]].
  - change (WHITE =? WHITE) with true. cbn iota.
    destruct (Hrec dep s Hi Hc) as (r & -> & Hp); [|done|].
    { intros l a Hl. rewrite Hst in Hl. apply app_inj_tail in Hl as [_ <-]. done. }
    cbn [mbind option_bind]. destruct r as [s1|e]; [|by exists (Err e)]. destruct Hp as [Hp Hno].
    pose proof (pg_whites _ _ Hp).
    destruct (IH s1) as (r & -> & Hr1); [set_solver|apply Hp|by rewrite (pg_stack _ _ Hp)|lia|].
    exists r. split; [done|]. destruct r as [s2|e]; [|done]. destruct Hr1 as [Hp2 Hds2].
    split; [by eapply progress_trans|]. intros d [->|Hd]%elem_of_cons; [|by apply Hds2].
    by apply (pg_order _ _ Hp2).
  - change (GRAY =? WHITE) with false. change (GRAY =? GRAY) with true. cbn iota. rewrite Hst in *.
    destruct (cycle_report_spec stack node dep) as (e & -> & He); [| |done|done|by exists (Err e)].
    + rewrite <- Hst. apply Hi.
    + intros i Hin'. apply (di_range _ _ Hi). rewrite Hst. set_solver.
  - change (BLACK =? WHITE) with false. change (BLACK =? GRAY) with false. change (BLACK =? BLACK) with true. cbn iota.
    destruct (IH s) as (r & -> & Hr1); [set_solver|done|done|done|]. exists r. split; [done|].
    destruct r as [s2|e]; [|done]. destruct Hr1 as [Hp2 Hds2]. split; [done|].
    intros d [->|Hd]%elem_of_cons; [|by apply Hds2]. by apply (pg_order _ _ Hp2).
Qed.

Lemma visit_spec fuel : visits fuel (fun node s => visit fuel node deps names s).
Proof.
  induction fuel as [|fuel IH]; intros node s Hi Hw Hlast Hf.
  all: pose proof (whites_zset _ _ _ GRAY Hw) as Hcw; change (white WHITE) with 1%nat in Hcw;
    change (white GRAY) with 0%nat in Hcw.
  { lia. }
  cbn [visit]. pose proof (zget_Some _ _ _ Hw) as Hr. rewrite (di_len _ _ Hi) in Hr.
  destruct (proj2 (zget_is_Some deps node) Hr) as [ds Hds]. rewrite Hw, Hds. cbn [mbind option_bind].
  set (s0 := mkDfs _ _ _). pose proof (inv_push s node Hi Hw Hlast) as Hi0. fold s0 in Hi0.
  destruct (visit_deps_spec fuel _ node (dfs_stack s) ds IH s0) as (r & Hrun & Hpost);
    [intros d Hd; by exists ds|done|done|simpl; lia|].
  rewrite Hrun. cbn [mbind option_bind]. destruct r as [s1|e]; [|by exists (Err e)].
  destruct Hpost as [Hp Hall]. eexists. split; [done|].
  assert (dfs_stack s1 = dfs_stack s ++ [node]) as Hst1 by (by rewrite (pg_stack _ _ Hp)).
  split; [|simpl; set_solver]. split; simpl.
  - eapply inv_finish; [apply Hp|exact Hst1|]. intros d (ds' & Hds' & Hd). simplify_eq. by apply Hall.
  - by rewrite Hst1, removelast_last.
  - intros i Hin. apply elem_of_app. left. by apply (pg_order _ _ Hp).
  - pose proof (pg_whites _ _ Hp).
    assert (exists c, dfs_state s1 !z node = Some c) as [c Hc].
    { apply zget_is_Some. by rewrite (di_len _ _ (pg_inv _ _ Hp)). }
    pose proof (whites_zset _ _ _ BLACK Hc) as Hc1. change (white BLACK) with 0%nat in Hc1.
    subst s0. simpl in *. lia.
Qed.

Lemma toposort_from_spec starts : forall s,
  dfs_inv deps s -> dfs_stack s = [] -> (forall i, i ∈ starts -> 0 <= i < zlen deps) ->
  (whites (dfs_state s) <= length deps)%nat ->
  exists r, toposort_from deps names starts s = Some r /\
  match r with
  | Ok s' => progress s s' /\ forall i, i ∈ starts -> i ∈ dfs_order s'
  | Err e => reports_cycle deps names e
  end.
Proof.
  induction starts as [|start starts IH]; intros s Hi Hst Hr Hf; cbn [toposort_from].
  { exists (Ok s). split; [done|]. split; [by apply progress_refl|]. intros d Hd. by apply not_elem_of_nil in Hd. }
  assert (0 <= start < zlen deps) as Hs by (apply Hr; set_solver). rewrite <- (di_len _ _ Hi) in Hs.
  destruct (proj2 (zget_is_Some _ _) Hs) as [c Hc]. rewrite Hc. cbn [mbind option_bind].
  assert (forall s1, progress s s1 -> start ∈ dfs_order s1 -> exists r, toposort_from deps names starts s1 = Some r /\
    match r with
    | Ok s' => progress s s' /\ forall i, i ∈ start :: starts -> i ∈ dfs_order s'
    | Err e => reports_cycle deps names e
    end) as Hgo.
  { intros s1 Hp Hin. pose proof (pg_whites _ _ Hp).
    destruct (IH s1) as (r & -> & Hpost); [apply Hp|by rewrite (pg_stack _ _ Hp)|set_solver|lia|].
    exists r. split; [done|]. destruct r as [s'|e]; [|done]. destruct Hpost as [Hp' Hall].
    split; [by eapply progress_trans|]. intros i [->|Hi']%elem_of_cons; [by apply (pg_order _ _ Hp')|by apply Hall]. }
  destruct (Z.eqb_spec c WHITE) as [->|Hne].
  - destruct (visit_spec (length deps) start s Hi Hc) as (r & -> & Hp); [|done|].
    { intros l a Hl. rewrite Hst in Hl. by destruct l. }
    cbn [mbind option_bind]. destruct r as [s1|e]; [|by exists (Err e)]. destruct Hp as [Hp Hin]. by apply Hgo.
  - apply Hgo; [by apply progress_refl|].
    destruct (di_color _ _ Hi start c Hc) as [?|[[_ Hin]|[_ Hin]]]; [done| |done]. rewrite Hst in Hin. by apply not_elem_of_nil in Hin.
Qed.

Lemma whites_start n : whites (replicate n WHITE) = n.
Proof. induction n; simpl; [done|]. change (white WHITE) with 1%nat. lia. Qed.

Lemma inv_start : dfs_inv deps (mkDfs (replicate (length deps) WHITE) [] []).
Proof.
  split; simpl; try done.
  - unfold zlen. by rewrite length_replicate.
  - intros i _. split; apply not_elem_of_nil.
  - intros i c Hc. left. pose proof (zget_Some _ _ _ Hc). rewrite zget_lookup in Hc by lia.
    by apply lookup_replicate in Hc as [-> _].
  - intros i Hi. by apply not_elem_of_nil in Hi.
  - constructor.
  - intros l x r d He. by destruct l.
Qed.

Lemma toposort_spec :
  exists r, toposort deps names = Some r /\
  match r with
  | Ok order => order ≡ₚ seqZ 0 (zlen deps) /\ deps_first deps order
  | Err e => reports_cycle deps names e
  end.
Proof.
  destruct (toposort_from_spec (seqZ 0 (zlen deps)) (mkDfs (replicate (length deps) WHITE) [] []))
    as (r & Hrun & Hpost).
  - apply inv_start.
  - done.
  - intros i Hi. apply elem_of_seqZ in Hi. lia.
  - simpl. by rewrite whites_start.
  - unfold toposort. rewrite Hrun. simpl. destruct r as [s|e]; [|by eexists].
    destruct Hpost as [Hp Hall]. eexists. split; [done|]. pose proof (di_nodup _ _ (pg_inv _ _ Hp)) as Hnd.
    rewrite (pg_stack _ _ Hp) in Hnd. simpl in Hnd. split; [|apply Hp].
    apply NoDup_Permutation; [done|apply NoDup_seqZ|]. intros i. split; [|apply Hall].
    intros Hi. apply elem_of_seqZ. rewrite Z.add_0_l. apply (di_range _ _ (pg_inv _ _ Hp)).
    rewrite (pg_stack _ _ Hp). done.
Qed.
End Search.

(** the topological sort.  On any resolved dependency lists (every index
    names a node) it terminates without a panic; a success is a permutation of
    all nodes in which every node comes after its dependencies; a failure is
    [DependencyCycle] naming a genuine closed walk of dependencies; and it
    succeeds exactly when the graph has no closed walk. *)
Theorem toposort_correct deps names :
  deps_valid deps -> zlen names = zlen deps ->
  exists r, toposort deps names = Some r /\
  match r with
  | Ok order => order ≡ₚ seqZ 0 (zlen deps) /\ deps_first deps order
  | Err e => reports_cycle deps names e
  end /\
  (is_ok r = true <-> forall walk, ~ closed_walk deps walk).
Proof.
  intros Hv Hn. destruct (toposort_spec deps names Hv Hn) as (r & Hrun & Hpost).
  exists r. split; [done|]. split; [done|]. destruct r as [order|e]; simpl.
  - split; [|done]. intros _ walk. destruct Hpost as [Hperm Hfirst].
    apply (order_acyclic deps order).
    + rewrite Hperm. apply NoDup_seqZ.
    + intros i Hi. rewrite Hperm. apply elem_of_seqZ. lia.
    + done.
  - split; [done|]. intros Hno. destruct Hpost as (walk & _ & Hw & _). by destruct (Hno walk).
Qed.

Lemma toposort_correct_witness :
  toposort [[1; 2]; [2]; []] ["a"; "b"; "c"]%string = Some (Ok [2; 1; 0]) /\
  toposort [[1]; [0]] ["a"; "b"]%string = Some (Err (KernelError.DependencyCycle ["a"; "b"; "a"]%string)) /\
  exists walk, closed_walk [[1]; [0]] walk.
Proof.
  split; [reflexivity|]. split; [reflexivity|].
  destruct (toposort_correct [[1]; [0]] ["a"; "b"]%string) as (r & Hr & Hpost & _).
  - intros a b (ds & Hds & Hb). pose proof (zget_Some _ _ _ Hds) as Hr. unfold zlen in *. simpl in *.
    assert (a = 0 \/ a = 1) as [-> | ->] by lia; injection Hds as <-; apply list_elem_of_singleton in Hb; lia.
  - reflexivity.
  - change (toposort [[1]; [0]] ["a"; "b"]%string) with
      (Some (@Err KernelError (list Z) (KernelError.DependencyCycle ["a"; "b"; "a"]%string))) in Hr.
    injection Hr as <-. destruct Hpost as (walk & _ & Hw & _). exists walk. exact Hw.
Defined.

(** ** Waves *)
Fixpoint deps_level (level : list Z) (ds : list Z) : option Z :=
  match ds with
  | [] => Some 0
  | d :: ds =>
      l ← level !z d; m ← deps_level level ds;
      Some (Z.max (saturating_add 64 l 1) m)
  end.

Fixpoint dependency_levels (deps : list (list Z)) (order level : list Z) : option (list Z) :=
  match order with
  | [] => Some level
  | node :: order =>
      ds ← deps !z node; l ← deps_level level ds; _ ← level !z node;
      dependency_levels deps order (zset level node l)
  end.

(** [level.iter().copied().max().map_or(0, |max| max + 1)]. *)
Definition wave_count (level : list Z) : Z :=
  match level with [] => 0 | _ => foldr Z.max 0 level + 1 end.

Fixpoint push_waves (order level : list Z) (waves : list (list Z)) : option (list (list Z)) :=
  match order with
  | [] => Some waves
  | node :: order =>
      l ← level !z node; w ← waves !z l;
      push_waves order level (zset waves l (w ++ [node]))
  end.

Definition waves_of (order level : list Z) : option (list (list Z)) :=
  push_waves order level (replicate (Z.to_nat (wave_count level)) []).

Definition dependency_waves (order : list Z) (deps : list (list Z)) : option (list (list Z)) :=
  level ← dependency_levels deps order (replicate (length deps) 0);
  waves_of order level.

Fixpoint conflict_level (accesses : list SystemAccess) (level : list Z) (node : Z) (priors : list Z) (acc : Z) : option Z :=
  match priors with
  | [] => Some acc
  | prior :: priors =>
      a ← accesses !z node; b ← accesses !z prior;
      if access_conflicts a b then
        l ← level !z prior;
        conflict_level accesses level node priors (Z.max acc (saturating_add 64 l 1))
      else conflict_level accesses level node priors acc
  end.

(** [whole] is the full order: [take_while] restarts at its head for each
    node. *)
Fixpoint access_levels (deps : list (list Z)) (accesses : list SystemAccess) (whole order level : list Z) : option (list Z) :=
  match order with
  | [] => Some level
  | node :: order =>
      ds ← deps !z node; base ← deps_level level ds;
      l ← conflict_level accesses level node (take_while (fun c => negb (c =? node)) whole) base;
      _ ← level !z node;
      access_levels deps accesses whole order (zset level node l)
  end.

Definition access_waves (order : list Z) (deps : list (list Z)) (accesses : list SystemAccess) : option (list (list Z)) :=
  if negb (length deps =? length accesses)%nat then None
  else
    level ← access_levels deps accesses order order (replicate (length deps) 0);
    waves_of order level.

Record SchedulePlan := mkSchedulePlan {
  plan_order : list Z;
  plan_waves : list (list Z)
}.

Definition schedule_plan_build (deps : list (list Z)) (names : list string) (accesses : list SystemAccess) :
    option (result KernelError SchedulePlan) :=
  r ← toposort deps names;
  match r with
  | Err e => Some (Err e)
  | Ok order => waves ← access_waves order deps accesses; Some (Ok (mkSchedulePlan order waves))
  end.

(** *** Levels *)
Section Levels.
Context (deps : list (list Z)) (accesses : list SystemAccess).

Definition conflicting (y x : Z) : Prop :=
  exists a b, accesses !z y = Some a /\ accesses !z x = Some b /\ access_conflicts a b = true.

(** [y] must wait for the earlier node [x]. *)
Definition waits_for (y x : Z) : Prop := edge deps y x \/ conflicting y x.

Lemma deps_level_spec level ds B :
  (forall d, d ∈ ds -> exists l, level !z d = Some l /\ 0 <= l < B) -> 0 <= B <= umax 64 ->
  exists m, deps_level level ds = Some m /\ 0 <= m <= B /\
  (forall d l, d ∈ ds -> level !z d = Some l -> l < m) /\
  (m = 0 \/ exists d, d ∈ ds /\ level !z d = Some (m - 1)).
Proof.
  intros Hall HB. induction ds as [|d ds IH]; cbn [deps_level].
  { exists 0. split; [done|]. split; [lia|]. split; [|by left]. intros d l Hd. by apply not_elem_of_nil in Hd. }
  destruct (Hall d) as (l & Hl & Hlb); [set_solver|]. rewrite Hl. cbn [mbind option_bind].
  destruct IH as (m & -> & Hm & Hlt & Hex); [set_solver|]. cbn [mbind option_bind].
  unfold saturating_add. rewrite Z.min_l by lia. eexists. split; [done|]. split; [lia|]. split.
  - intros d' l' [->|Hd']%elem_of_cons Hl'; [simplify_eq; lia|]. pose proof (Hlt d' l' Hd' Hl'). lia.
  - right. destruct (Z.le_gt_cases m (l + 1)).
    + exists d. rewrite Z.max_l by lia. split; [set_solver|]. rewrite Hl. f_equal. lia.
    + rewrite Z.max_r by lia. destruct Hex as [->|(d' & Hd' & Hl')]; [lia|]. exists d'. split; [set_solver|done].
Qed.

Lemma conflict_level_spec level node B priors : forall acc,
  is_Some (accesses !z node) -> (forall p, p ∈ priors -> is_Some (accesses !z p)) ->
  (forall d, d ∈ priors -> exists l, level !z d = Some l /\ 0 <= l < B) -> 0 <= acc <= B -> B <= umax 64 ->
  exists m, conflict_level accesses level node priors acc = Some m /\ acc <= m <= B /\
  (forall p l, p ∈ priors -> conflicting node p -> level !z p = Some l -> l < m) /\
  (m = acc \/ exists p, p ∈ priors /\ conflicting node p /\ level !z p = Some (m - 1)).
Proof.
  induction priors as [|p ps IH]; intros acc [a Ha] Hacc Hall HB HB2; cbn [conflict_level].
  { exists acc. split; [done|]. split; [lia|]. split; [|by left]. intros p l Hp. by apply not_elem_of_nil in Hp. }
  destruct (Hacc p) as [b Hb]; [set_solver|]. rewrite Ha, Hb. cbn [mbind option_bind].
  destruct (Hall p) as (l & Hl & Hlb); [set_solver|].
  destruct (access_conflicts a b) eqn:Hcf.
  - rewrite Hl. cbn [mbind option_bind]. unfold saturating_add. rewrite Z.min_l by lia.
    destruct (IH (Z.max acc (l + 1))) as (m & -> & Hm & Hlt & Hex); [by eexists|set_solver|set_solver|lia|lia|].
    exists m. split; [done|]. split; [lia|]. split.
    + intros q lq [->|Hq]%elem_of_cons Hc Hlq; [simplify_eq; lia|by eapply Hlt].
    + destruct Hex as [->|(q & Hq & Hc & Hlq)]; [|right; exists q; set_solver].
      destruct (Z.le_gt_cases (l + 1) acc); [left; lia|right]. exists p. split; [set_solver|].
      split; [by exists a, b|]. rewrite Hl. f_equal. lia.
  - destruct (IH acc) as (m & -> & Hm & Hlt & Hex); [by eexists|set_solver|set_solver|lia|lia|].
    exists m. split; [done|]. split; [lia|]. split.
    + intros q lq [->|Hq]%elem_of_cons Hc Hlq; [|by eapply Hlt].
      destruct Hc as (a' & b' & Ha' & Hb' & Hc). congruence.
    + destruct Hex as [->|(q & Hq & Hc & Hlq)]; [by left|right; exists q; set_solver].
Qed.

(** The levels of a processed prefix. *)
Record levels_ok (done level : list Z) : Prop := {
  lo_len : zlen level = zlen deps;
  lo_range y : y ∈ done -> exists v, level !z y = Some v /\ 0 <= v < zlen done;
  lo_waits l y r x v u : done = l ++ y :: r -> x ∈ l -> waits_for y x ->
    level !z y = Some v -> level !z x = Some u -> u < v;
  lo_tight l y r v : done = l ++ y :: r -> level !z y = Some v -> 0 < v ->
    exists x, x ∈ l /\ waits_for y x /\ level !z x = Some (v - 1);
  lo_rest y v : y ∉ done -> level !z y = Some v -> v = 0
}.

Lemma levels_snoc done level y m :
  levels_ok done level -> y ∉ done -> 0 <= y < zlen deps -> 0 <= m <= zlen done ->
  (forall x u, x ∈ done -> waits_for y x -> level !z x = Some u -> u < m) ->
  (m = 0 \/ exists x, x ∈ done /\ waits_for y x /\ level !z x = Some (m - 1)) ->
  levels_ok (done ++ [y]) (zset level y m).
Proof.
  intros [] Hy Hr Hm Hlt Hex.
  assert (forall x, x ∈ done -> zset level y m !z x = level !z x) as Hold.
  { intros x Hx. apply zget_zset_ne. intros <-. done. }
  assert (zset level y m !z y = Some m) as Hnew by (apply zget_zset_eq; lia).
  split; rewrite ?zlen_zset; try done.
  - intros x [Hx|Hx]%elem_of_app; zsimp.
    + rewrite Hold by done. destruct (lo_range0 x Hx) as (v & Hv & ?). exists v. split; [done|lia].
    + apply list_elem_of_singleton in Hx as ->. exists m. split; [done|lia].
  - intros l z r x v u He Hx Hw Hv Hu. destruct r as [|w r _] using rev_ind.
    + apply app_inj_tail in He as [<- <-]. rewrite Hnew in Hv. simplify_eq. rewrite Hold in Hu by done. by eapply Hlt.
    + change (z :: r ++ [w]) with ((z :: r) ++ [w]) in He. rewrite (assoc_L (++)) in He. apply app_inj_tail in He as [He _].
      assert (x ∈ done /\ z ∈ done) as [Hxd Hzd] by (rewrite He; set_solver).
      rewrite Hold in Hv, Hu by done. by eapply lo_waits0.
  - intros l z r v He Hv Hpos. destruct r as [|w r _] using rev_ind.
    + apply app_inj_tail in He as [<- <-]. rewrite Hnew in Hv. simplify_eq.
      destruct Hex as [->|(x & Hx & Hw & Hu)]; [lia|]. exists x. by rewrite Hold.
    + change (z :: r ++ [w]) with ((z :: r) ++ [w]) in He. rewrite (assoc_L (++)) in He. apply app_inj_tail in He as [He _].
      assert (z ∈ done) as Hzd by (rewrite He; set_solver). rewrite Hold in Hv by done.
      destruct (lo_tight0 l z r v He Hv Hpos) as (x & Hx & Hw & Hu). exists x.
      rewrite Hold by (rewrite He; set_solver). done.
  - intros x v Hx. rewrite zget_zset_ne by set_solver. apply lo_rest0. set_solver.
Qed.

Lemma take_while_prefix (l r : list Z) y : y ∉ l -> take_while (fun c => negb (c =? y)) (l ++ y :: r) = l.
Proof.
  induction l as [|x l IH]; intros Hy; cbn [take_while app]; [by rewrite Z.eqb_refl|].
  destruct (Z.eqb_spec x y) as [->|]; [set_solver|]. simpl. f_equal. apply IH. set_solver.
Qed.
End Levels.

Lemma access_levels_spec deps accesses rest : forall done level,
  deps_valid deps -> zlen accesses = zlen deps -> zlen deps <= umax 64 ->
  deps_first deps (done ++ rest) -> done ++ rest ≡ₚ seqZ 0 (zlen deps) ->
  levels_ok deps accesses done level ->
  exists level', access_levels deps accesses (done ++ rest) rest level = Some level' /\
  levels_ok deps accesses (done ++ rest) level'.
Proof.
  induction rest as [|y rest IH]; intros done level Hv Ha Hn Hf Hp Hlo; cbn [access_levels].
  { exists level. by rewrite app_nil_r. }
  assert (NoDup (done ++ y :: rest)) as Hnd by (rewrite Hp; apply NoDup_seqZ).
  assert (forall i, i ∈ done ++ y :: rest -> 0 <= i < zlen deps) as Hr.
  { intros i Hi. rewrite Hp in Hi. apply elem_of_seqZ in Hi. lia. }
  assert (y ∉ done) as Hy by (apply list.NoDup_app in Hnd as (_ & Hnd & _); intros Hin; apply (Hnd y Hin); set_solver).
  assert (0 <= y < zlen deps) as Hyr by (apply Hr; set_solver).
  assert (zlen done <= zlen deps) as Hdl.
  { apply Permutation_length in Hp. rewrite length_app, length_seqZ in Hp. unfold zlen in *. simpl in Hp. lia. }
  destruct (proj2 (zget_is_Some deps y) Hyr) as [ds Hds]. rewrite Hds. cbn [mbind option_bind].
  assert (forall d, d ∈ ds -> d ∈ done) as Hdone by (intros d Hd; eapply (Hf done y rest d eq_refl); by exists ds).
  pose proof (zlen_nonneg done).
  destruct (deps_level_spec level ds (zlen done)) as (base & -> & Hb & Hblt & Hbex); [|lia|].
  { intros d Hd. apply (lo_range _ _ _ _ Hlo). by apply Hdone. }
  cbn [mbind option_bind]. rewrite take_while_prefix by done.
  assert (forall i, 0 <= i < zlen deps -> is_Some (accesses !z i)) as Hacc by (intros i Hi; apply zget_is_Some; lia).
  destruct (conflict_level_spec accesses level y (zlen done) done base) as (m & -> & Hm & Hmlt & Hmex); [| | |lia|lia|].
  { by apply Hacc. } { intros p Hpd. apply Hacc, Hr. set_solver. } { apply (lo_range _ _ _ _ Hlo). }
  cbn [mbind option_bind]. destruct (proj2 (zget_is_Some level y)) as [old ->]; [by rewrite (lo_len _ _ _ _ Hlo)|].
  cbn [mbind option_bind]. specialize (IH (done ++ [y]) (zset level y m)).
  rewrite <- (assoc_L (++)) in IH. simpl in IH. apply IH; try done.
  apply levels_snoc; try done; [lia| |].
  - intros x u Hx [(ds' & Hds' & Hxd)|Hc] Hu; [simplify_eq; pose proof (Hblt x u Hxd Hu); lia|by eapply Hmlt].
  - destruct Hmex as [->|(p & Hpd & Hc & Hl)]; [|right; exists p; split; [done|]; split; [by right|done]].
    destruct Hbex as [->|(d & Hd & Hl)]; [by left|right; exists d]. split; [by apply Hdone|]. split; [|done].
    left. by exists ds.
Qed.

(** *** Waves from levels *)
Definition at_level (level : list Z) (k : Z) (x : Z) : bool :=
  match level !z x with Some l => l =? k | None => false end.

Lemma push_waves_spec level order : forall waves,
  (forall x, x ∈ order -> exists l, level !z x = Some l /\ 0 <= l < zlen waves) ->
  exists waves', push_waves order level waves = Some waves' /\ zlen waves' = zlen waves /\
  forall k w, waves !z k = Some w -> waves' !z k = Some (w ++ List.filter (at_level level k) order).
Proof.
  induction order as [|x order IH]; intros waves Hall; cbn [push_waves].
  { exists waves. split; [done|]. split; [done|]. intros k w Hw. simpl. by rewrite app_nil_r. }
  destruct (Hall x) as (l & Hl & Hlr); [set_solver|]. rewrite Hl. cbn [mbind option_bind].
  destruct (proj2 (zget_is_Some waves l) Hlr) as [w Hw]. rewrite Hw. cbn [mbind option_bind].
  destruct (IH (zset waves l (w ++ [x]))) as (waves' & -> & Hlen & Hget).
  { rewrite zlen_zset. set_solver. }
  exists waves'. rewrite zlen_zset in Hlen. split; [done|]. split; [done|]. intros k v Hv. cbn [List.filter].
  unfold at_level at 1. rewrite Hl. destruct (Z.eqb_spec l k) as [<-|Hne].
  - rewrite Hw in Hv. simplify_eq. rewrite (Hget l (v ++ [x])) by (by apply zget_zset_eq). by rewrite <- (assoc_L (++)).
  - rewrite (Hget k v); [done|]. by rewrite zget_zset_ne.
Qed.

Lemma foldr_max_ge l x : x ∈ l -> x <= foldr Z.max 0 l.
Proof. induction l as [|y l IH]; simpl; intros Hx; [by apply not_elem_of_nil in Hx|]. apply elem_of_cons in Hx as [->|Hx]; [lia|]. specialize (IH Hx). lia. Qed.

Lemma waves_of_spec order level :
  (forall x, x ∈ order -> exists l, level !z x = Some l /\ 0 <= l) ->
  exists waves, waves_of order level = Some waves /\
  forall k w, waves !z k = Some w <-> 0 <= k < wave_count level /\ w = List.filter (at_level level k) order.
Proof.
  intros Hall. unfold waves_of.
  assert (0 <= wave_count level) as H0.
  { unfold wave_count. destruct level as [|x l]; [lia|]. assert (forall l, 0 <= foldr Z.max 0 l) as Hm by (induction l0; simpl; lia).
    specialize (Hm (x :: l)). lia. }
  assert (zlen (replicate (Z.to_nat (wave_count level)) (@nil Z)) = wave_count level) as Hlen.
  { unfold zlen. rewrite length_replicate. lia. }
  destruct (push_waves_spec level order (replicate (Z.to_nat (wave_count level)) [])) as (waves & -> & Hl & Hget).
  { intros x Hx. destruct (Hall x Hx) as (l & Hlx & Hl0). exists l. split; [done|]. rewrite Hlen. split; [done|].
    unfold wave_count. pose proof (zget_Some _ _ _ Hlx). rewrite zget_lookup in Hlx by lia.
    apply list_elem_of_lookup_2, foldr_max_ge in Hlx. destruct level; [unfold zlen in *; simpl in *; lia|lia]. }
  exists waves. split; [done|]. intros k w. rewrite Hlen in Hl. split.
  - intros Hw. pose proof (zget_Some _ _ _ Hw) as Hk. rewrite Hl in Hk. split; [done|].
    destruct (proj2 (zget_is_Some (replicate (Z.to_nat (wave_count level)) (@nil Z)) k)) as [v Hv]; [lia|].
    pose proof (Hget k v Hv) as Hg. rewrite zget_lookup in Hv by lia. apply lookup_replicate in Hv as [-> _].
    rewrite Hg in Hw. by simplify_eq/=.
  - intros [Hk ->]. destruct (proj2 (zget_is_Some (replicate (Z.to_nat (wave_count level)) (@nil Z)) k)) as [v Hv]; [lia|].
    pose proof (Hget k v Hv) as Hg. rewrite zget_lookup in Hv by lia. apply lookup_replicate in Hv as [-> _]. done.
Qed.

Lemma take_while_subset {A} (f : A -> bool) l x : x ∈ take_while f l -> x ∈ l.
Proof. induction l as [|y l IH]; simpl; [done|]. destruct (f y); set_solver. Qed.

Lemma conflict_level_none n level node priors acc :
  0 <= node < Z.of_nat n -> (forall p, p ∈ priors -> 0 <= p < Z.of_nat n) ->
  conflict_level (replicate n (access_read_only [])) level node priors acc = Some acc.
Proof.
  intros Hn Hp. assert (forall i, 0 <= i < Z.of_nat n -> replicate n (access_read_only []) !z i = Some (access_read_only [])) as Hg.
  { intros i Hi. rewrite zget_lookup by lia. apply lookup_replicate. split; [done|lia]. }
  induction priors as [|p ps IH]; cbn [conflict_level]; [done|].
  rewrite (Hg node Hn), (Hg p) by (apply Hp; set_solver). cbn [mbind option_bind]. simpl. apply IH. set_solver.
Qed.

Lemma dependency_levels_access deps whole rest : forall level,
  (forall p, p ∈ whole -> 0 <= p < zlen deps) -> (forall p, p ∈ rest -> 0 <= p < zlen deps) ->
  access_levels deps (replicate (length deps) (access_read_only [])) whole rest level = dependency_levels deps rest level.
Proof.
  induction rest as [|y rest IH]; intros level Hw Hr; cbn [access_levels dependency_levels]; [done|].
  destruct (deps !z y); [|done]. cbn [mbind option_bind]. destruct (deps_level level l); [|done]. cbn [mbind option_bind].
  rewrite conflict_level_none; [|apply Hr; set_solver|intros p Hp; apply Hw; by eapply take_while_subset].
  cbn [mbind option_bind]. destruct (level !z y); [|done]. cbn [mbind option_bind]. apply IH; [done|set_solver].
Qed.

Lemma levels_start deps accesses : levels_ok deps accesses [] (replicate (length deps) 0).
Proof.
  split.
  - unfold zlen. by rewrite length_replicate.
  - intros y Hy. by apply not_elem_of_nil in Hy.
  - intros l y r x v u He. by destruct l.
  - intros l y r v He. by destruct l.
  - intros y v _ Hv. pose proof (zget_Some _ _ _ Hv). rewrite zget_lookup in Hv by lia. by apply lookup_replicate in Hv as [-> _].
Qed.

(** What the waves of a plan promise. *)
Record waves_ok (deps : list (list Z)) (accesses : list SystemAccess) (order : list Z) (waves : list (list Z)) : Prop := {
  wo_all x : x ∈ order -> exists k w, waves !z k = Some w /\ x ∈ w;
  wo_once j k u w x : waves !z j = Some u -> waves !z k = Some w -> x ∈ u -> x ∈ w -> j = k;
  wo_sublist k w : waves !z k = Some w -> sublist w order;
  wo_later l y r x j k u w :
    order = l ++ y :: r -> x ∈ l -> waits_for deps accesses y x ->
    waves !z j = Some u -> waves !z k = Some w -> x ∈ u -> y ∈ w -> j < k;
  wo_tight k w y : 0 < k -> waves !z k = Some w -> y ∈ w ->
    exists x u, waves !z (k - 1) = Some u /\ x ∈ u /\ waits_for deps accesses y x
}.

Lemma filter_sublist {A} (f : A -> bool) (l : list A) : sublist (List.filter f l) l.
Proof. induction l as [|x l IH]; simpl; [done|]. destruct (f x); by constructor. Qed.

Lemma in_level level k order x : x ∈ List.filter (at_level level k) order <-> x ∈ order /\ level !z x = Some k.
Proof.
  rewrite list_elem_of_In, filter_In, <- list_elem_of_In. unfold at_level. split; intros [Hx Hl]; (split; [done|]).
  - destruct (level !z x); [|done]. zbool. by subst.
  - rewrite Hl. apply Z.eqb_refl.
Qed.

Lemma access_waves_spec deps accesses order :
  deps_valid deps -> zlen accesses = zlen deps -> zlen deps <= umax 64 ->
  deps_first deps order -> order ≡ₚ seqZ 0 (zlen deps) ->
  exists waves, access_waves order deps accesses = Some waves /\ waves_ok deps accesses order waves /\
  dependency_waves order deps = access_waves order deps (replicate (length deps) (access_read_only [])).
Proof.
  intros Hv Ha Hn Hf Hp.
  assert (forall i, i ∈ order -> 0 <= i < zlen deps) as Hr.
  { intros i Hi. rewrite Hp in Hi. apply elem_of_seqZ in Hi. lia. }
  destruct (access_levels_spec deps accesses order [] (replicate (length deps) 0) Hv Ha Hn Hf Hp) as (level & Hrun & Hlo);
    [apply levels_start|]. simpl in Hrun, Hlo.
  destruct (waves_of_spec order level) as (waves & Hw & Hspec).
  { intros x Hx. destruct (lo_range _ _ _ _ Hlo x Hx) as (v & ? & ?). exists v. split; [done|lia]. }
  exists waves. unfold access_waves, dependency_waves.
  replace (length deps =? length accesses)%nat with true by (symmetry; apply Nat.eqb_eq; unfold zlen in *; lia).
  rewrite length_replicate, Nat.eqb_refl. simpl. rewrite Hrun. simpl. split; [done|].
  rewrite dependency_levels_access by done. split; [|done].
  assert (forall k w x, waves !z k = Some w -> x ∈ w -> x ∈ order /\ level !z x = Some k) as Hin.
  { intros k w x Hk Hx. apply Hspec in Hk as [_ ->]. by apply in_level in Hx. }
  split.
  - intros x Hx. destruct (lo_range _ _ _ _ Hlo x Hx) as (v & Hlv & Hv0). exists v, (List.filter (at_level level v) order).
    split; [|by apply in_level]. apply Hspec. split; [|done]. split; [lia|]. unfold wave_count.
    pose proof (zget_Some _ _ _ Hlv). rewrite zget_lookup in Hlv by lia. apply list_elem_of_lookup_2, foldr_max_ge in Hlv.
    destruct level; [unfold zlen in *; simpl in *; lia|lia].
  - intros j k u w x Hj Hk Hx Hx'. destruct (Hin _ _ _ Hj Hx) as [_ H1]. destruct (Hin _ _ _ Hk Hx') as [_ H2]. congruence.
  - intros k w Hk. apply Hspec in Hk as [_ ->]. apply filter_sublist.
  - intros l y r x j k u w He Hx Hwt Hj Hk Hxu Hyw. destruct (Hin _ _ _ Hj Hxu) as [_ H1]. destruct (Hin _ _ _ Hk Hyw) as [_ H2].
    by eapply lo_waits.
  - intros k w y Hk Hw' Hy. destruct (Hin _ _ _ Hw' Hy) as [Hyo H2].
    pose proof (proj1 (Hspec _ _) Hw') as [Hkr _]. apply list_elem_of_split in Hyo as (l & r & He).
    destruct (lo_tight _ _ _ _ Hlo l y r k He H2 Hk) as (x & Hx & Hwt & Hl).
    exists x, (List.filter (at_level level (k - 1)) order). split; [apply Hspec; split; [lia|done]|].
    split; [apply in_level; split; [set_solver|done]|done].
Qed.

Lemma schedule_plan_order deps names accesses :
  deps_valid deps -> zlen names = zlen deps -> zlen accesses = zlen deps -> zlen deps <= umax 64 ->
  exists r, schedule_plan_build deps names accesses = Some r /\
  match r with
  | Err e => reports_cycle deps names e
  | Ok plan =>
      plan_order plan ≡ₚ seqZ 0 (zlen deps) /\ deps_first deps (plan_order plan) /\
      waves_ok deps accesses (plan_order plan) (plan_waves plan)
  end.
Proof.
  intros Hv Hn Ha Hlen. unfold schedule_plan_build.
  destruct (toposort_spec deps names Hv Hn) as (r & -> & Hpost). simpl.
  destruct r as [order|e]; [|by exists (Err e)]. destruct Hpost as [Hp Hf].
  destruct (access_waves_spec deps accesses order Hv Ha Hlen Hf Hp) as (waves & -> & Hw & _). simpl. by eexists.
Qed.

(** C10: the schedule plan.  Building it on resolved dependencies never
    panics.  A plan's order is a permutation of the nodes with dependencies
    first; its waves hold every node exactly once, each in plan order; a node
    is in a strictly later wave than every earlier node it depends on or
    conflicts with, so no two members of a wave conflict; and it is no later
    than necessary.  [dependency_waves] is the same grouping without access
    conflicts. *)
Theorem schedule_plan_correct deps names accesses :
  deps_valid deps -> zlen names = zlen deps -> zlen accesses = zlen deps -> zlen deps <= umax 64 ->
  exists r, schedule_plan_build deps names accesses = Some r /\
  match r with
  | Err e => reports_cycle deps names e
  | Ok plan =>
      plan_order plan ≡ₚ seqZ 0 (zlen deps) /\ deps_first deps (plan_order plan) /\
      waves_ok deps accesses (plan_order plan) (plan_waves plan) /\
      dependency_waves (plan_order plan) deps =
        access_waves (plan_order plan) deps (replicate (length deps) (access_read_only []))
  end.
Proof.
  intros Hv Hn Ha Hlen. unfold schedule_plan_build.
  destruct (toposort_spec deps names Hv Hn) as (r & -> & Hpost). simpl.
  destruct r as [order|e]; [|by exists (Err e)]. destruct Hpost as [Hp Hf].
  destruct (access_waves_spec deps accesses order Hv Ha Hlen Hf Hp) as (waves & -> & Hw & Hd). simpl. by eexists.
Qed.

Lemma schedule_plan_correct_witness :
  let deps := [[]; [0]; [0]; []] in
  let accesses := [access_read_only ["a"]; access_read_only ["a"]; access_read_write [] ["a"]; access_read_only ["b"]]%string in
  schedule_plan_build deps ["n0"; "n1"; "n2"; "n3"]%string accesses =
    Some (Ok (mkSchedulePlan [0; 1; 2; 3] [[0; 3]; [1]; [2]])) /\
  waves_ok deps accesses [0; 1; 2; 3] [[0; 3]; [1]; [2]].
Proof.
  intros deps accesses. split; [reflexivity|].
  destruct (schedule_plan_correct deps ["n0"; "n1"; "n2"; "n3"]%string accesses) as (r & Hr & Hpost).
  - intros a b (ds & Hds & Hb). pose proof (zget_Some _ _ _ Hds) as Hra. unfold deps, zlen in *. simpl in *.
    assert (a = 0 \/ a = 1 \/ a = 2 \/ a = 3) as [-> | [-> | [-> | ->]]] by lia; injection Hds as <-;
      try (by apply not_elem_of_nil in Hb); apply list_elem_of_singleton in Hb; lia.
  - reflexivity.
  - reflexivity.
  - unfold deps, zlen, umax. simpl. lia.
  - change (schedule_plan_build deps _ accesses) with
      (Some (@Ok KernelError SchedulePlan (mkSchedulePlan [0; 1; 2; 3] [[0; 3]; [1]; [2]]))) in Hr.
    injection Hr as <-. destruct Hpost as (_ & _ & Hw & _). exact Hw.
Defined.
