(* ===== verification/Tracer.v ===== *)
(** The frame tracer of [kernel/trace/frame_tracer.rs].  It is a client of the
    bounded queue interface of [Ring]: everything is proved for any queue that
    satisfies the laws, and the tracer's own ring is an instance. *)

From S2P Require Import Prelude Ring.

Record TraceSample := mkTraceSample {
  ts_subsystem_idx : Z;
  ts_frame_index : Z;
  ts_duration_ns : Z;
  ts_budget_ns : Z;
  ts_over_budget : bool
}.

Record BudgetReport := mkBudgetReport {
  br_samples : Z;
  br_over_budget : Z;
  br_dropped : Z
}.

Definition budget_report_default : BudgetReport := mkBudgetReport 0 0 0.
Definition within_budget (r : BudgetReport) : bool := (br_over_budget r =? 0) && (br_dropped r =? 0).

(** Instants are nanoseconds on the monotonic clock; [R] is the log ring. *)
Record FrameTracer (R : Type) := mkFrameTracer {
  ft_log : R;
  ft_dropped : Z;
  ft_flush_interval : Z;
  ft_last_flush : Z;
  ft_last_report : BudgetReport
}.
Arguments mkFrameTracer {R}. Arguments ft_log {R}. Arguments ft_dropped {R}.
Arguments ft_flush_interval {R}. Arguments ft_last_flush {R}. Arguments ft_last_report {R}.

Section Tracer.
Context {R : Type} `{BoundedQueueLaws TraceSample R}.
Implicit Types (t : FrameTracer R).

Definition tracer_record t (sample : TraceSample) : option (FrameTracer R) :=
  '(log, r) ← bq_push (ft_log t) sample;
  Some (mkFrameTracer log
    (match r with Ok _ => ft_dropped t | Err _ => ft_dropped t + 1 end)
    (ft_flush_interval t) (ft_last_flush t) (ft_last_report t)).

(** The [while let] of [flush]: the running total, the samples over budget and
    the slowest one. *)
Record Tally := mkTally {
  ta_total : Z;
  ta_over : Z;
  ta_max_dur : Z;
  ta_max_idx : Z
}.

Definition tally_sample (a : Tally) (s : TraceSample) : Tally :=
  mkTally (ta_total a + 1)
    (if ts_over_budget s then ta_over a + 1 else ta_over a)
    (if ta_max_dur a <? ts_duration_ns s then ts_duration_ns s else ta_max_dur a)
    (if ta_max_dur a <? ts_duration_ns s then ts_subsystem_idx s else ta_max_idx a).

Fixpoint drain_log (fuel : nat) (log : R) (a : Tally) : option (R * Tally) :=
  match fuel with
  | O => None
  | S fuel =>
      '(log, s) ← bq_pop log;
      match s with
      | None => Some (log, a)
      | Some s => drain_log fuel log (tally_sample a s)
      end
  end.

(** The ring holds at most [bq_cap] samples; the summary line is not
    modelled. *)
Definition tracer_flush t (now : Z) : option (FrameTracer R) :=
  '(log, a) ← drain_log (S (Z.to_nat (bq_cap (ft_log t)))) (ft_log t) (mkTally 0 0 0 U32_MAX);
  Some (mkFrameTracer log 0 (ft_flush_interval t) now
    (mkBudgetReport (ta_total a) (ta_over a) (ft_dropped t))).

(** [duration_since] saturates at zero. *)
Definition tracer_frame t (now : Z) : option (FrameTracer R) :=
  if ft_flush_interval t <=? saturating_sub now (ft_last_flush t) then tracer_flush t now else Some t.

(** ** The window between two flushes *)
Definition count_over (l : list TraceSample) : Z := zlen (List.filter ts_over_budget l).

Definition window_report (cap : Z) (window : list TraceSample) : BudgetReport :=
  let kept := take (Z.to_nat cap) window in
  mkBudgetReport (zlen kept) (count_over kept) (zlen window - zlen kept).

(** The log holds the first [cap] samples of the window, the counter the
    number of the others. *)
Record tracer_repr t (cap : Z) (window : list TraceSample) : Prop := {
  tp_cap : bq_cap (ft_log t) = cap;
  tp_log : bq_repr (ft_log t) (take (Z.to_nat cap) window);
  tp_dropped : ft_dropped t = zlen window - zlen (take (Z.to_nat cap) window)
}.

Lemma drain_spec q : forall fuel log a,
  bq_repr log q -> (length q < fuel)%nat ->
  exists log', drain_log fuel log a = Some (log', foldl tally_sample a q) /\ bq_repr log' [] /\ bq_cap log' = bq_cap log.
Proof.
  induction q as [|s q IH]; intros [|fuel] log a Hr Hf; simpl in *; try lia.
  - rewrite (bq_pop_nil _ Hr). simpl. by exists log.
  - destruct (bq_pop_cons _ _ _ Hr) as (log1 & -> & Hr1 & Hc1). simpl.
    destruct (IH fuel log1 (tally_sample a s) Hr1) as (log' & He & Hr' & Hc'); [lia|].
    exists log'. split; [done|]. split; [done|]. congruence.
Qed.

Lemma tally_counts q : forall a,
  ta_total (foldl tally_sample a q) = ta_total a + zlen q /\
  ta_over (foldl tally_sample a q) = ta_over a + count_over q.
Proof.
  induction q as [|s q IH]; intros a; simpl; [unfold count_over; simpl; zlen_nil_simp; lia|].
  destruct (IH (tally_sample a s)) as [-> ->]. zsimp. unfold count_over. simpl.
  destruct (ts_over_budget s); zsimp; lia.
Qed.

Lemma record_refines t cap window s :
  0 <= cap -> tracer_repr t cap window ->
  exists t', tracer_record t s = Some t' /\ tracer_repr t' cap (window ++ [s]) /\
  ft_flush_interval t' = ft_flush_interval t /\ ft_last_flush t' = ft_last_flush t /\ ft_last_report t' = ft_last_report t.
Proof.
  intros Hcap [Hc Hl Hd]. unfold tracer_record. pose proof (bq_bound _ _ Hl) as Hb.
  destruct (Z.lt_ge_cases (zlen window) cap) as [Hlt|Hge].
  - rewrite take_ge in * by (unfold zlen in *; lia).
    destruct (bq_push_room _ _ s Hl) as (log & -> & Hl' & Hc'); [lia|]. simpl.
    eexists. split; [done|]. split; [|done]. split; simpl; [congruence| |]; rewrite take_ge by (rewrite length_app; unfold zlen in *; simpl; lia); [done|lia].
  - assert (zlen (take (Z.to_nat cap) window) = cap) as Hk by (unfold zlen in *; rewrite length_take; lia).
    rewrite (bq_push_full _ _ s Hl) by lia. simpl. eexists. split; [done|]. split; [|done].
    split; simpl; rewrite ?take_app_le by (unfold zlen in *; lia); try done. zsimp. lia.
Qed.

Lemma flush_refines t cap window now :
  0 <= cap -> tracer_repr t cap window ->
  exists t', tracer_flush t now = Some t' /\ tracer_repr t' cap [] /\
  ft_flush_interval t' = ft_flush_interval t /\ ft_last_flush t' = now /\ ft_last_report t' = window_report cap window.
Proof.
  intros Hcap [Hc Hl Hd]. unfold tracer_flush. pose proof (bq_bound _ _ Hl) as Hb.
  destruct (drain_spec _ (S (Z.to_nat (bq_cap (ft_log t)))) _ (mkTally 0 0 0 U32_MAX) Hl) as (log & -> & Hl' & Hc').
  { unfold zlen in *. lia. }
  simpl. eexists. split; [done|]. destruct (tally_counts (take (Z.to_nat cap) window) (mkTally 0 0 0 U32_MAX)) as [Ht Ho].
  split; [|split; [done|split; [done|]]].
  - split; simpl; rewrite ?take_nil; [congruence|done|done].
  - simpl. rewrite Ht, Ho, Hd. done.
Qed.

Lemma frame_refines t cap window now :
  0 <= cap -> tracer_repr t cap window ->
  let due := ft_flush_interval t <=? saturating_sub now (ft_last_flush t) in
  exists t', tracer_frame t now = Some t' /\ tracer_repr t' cap (if due then [] else window) /\
  ft_flush_interval t' = ft_flush_interval t /\
  ft_last_flush t' = (if due then now else ft_last_flush t) /\
  ft_last_report t' = (if due then window_report cap window else ft_last_report t).
Proof.
  intros Hcap Hr due. unfold tracer_frame. fold due. destruct due; [by apply flush_refines|by exists t].
Qed.

(** ** Traces *)
Inductive tracer_event :=
| EvRecord (s : TraceSample)
| EvFrame (now : Z).

Fixpoint tracer_run t (evs : list tracer_event) : option (FrameTracer R) :=
  match evs with
  | [] => Some t
  | EvRecord s :: evs => t ← tracer_record t s; tracer_run t evs
  | EvFrame now :: evs => t ← tracer_frame t now; tracer_run t evs
  end.

(** The specification keeps the whole window, the time of the last flush and
    the last report. *)
Fixpoint window_run (cap interval : Z) (window : list TraceSample) (last : Z) (report : BudgetReport)
    (evs : list tracer_event) : list TraceSample * BudgetReport :=
  match evs with
  | [] => (window, report)
  | EvRecord s :: evs => window_run cap interval (window ++ [s]) last report evs
  | EvFrame now :: evs =>
      if interval <=? saturating_sub now last then window_run cap interval [] now (window_report cap window) evs
      else window_run cap interval window last report evs
  end.

Lemma tracer_run_refines evs : forall t cap window,
  0 <= cap -> tracer_repr t cap window ->
  exists t', tracer_run t evs = Some t' /\
  ft_last_report t' = (window_run cap (ft_flush_interval t) window (ft_last_flush t) (ft_last_report t) evs).2 /\
  tracer_repr t' cap (window_run cap (ft_flush_interval t) window (ft_last_flush t) (ft_last_report t) evs).1.
Proof.
  induction evs as [|[s|now] evs IH]; intros t cap window Hcap Hr; cbn [tracer_run window_run]; [by exists t| |].
  - destruct (record_refines t cap window s Hcap Hr) as (t1 & -> & Hr1 & Hi & Hf & Hp). cbn [mbind option_bind].
    rewrite <- Hi, <- Hf, <- Hp. by apply IH.
  - destruct (frame_refines t cap window now Hcap Hr) as (t1 & -> & Hr1 & Hi & Hf & Hp). cbn [mbind option_bind].
    destruct (IH t1 cap _ Hcap Hr1) as (t' & He & Hrep & Hr'). rewrite Hi, Hf, Hp in *.
    exists t'. destruct (_ <=? _); done.
Qed.
End Tracer.

(** [FrameTracer::new]; [with_capacity] panics when the ring cannot be
    allocated. *)
Definition tracer_new (sample_capacity flush_interval now : Z) : option (FrameTracer (SpscRing TraceSample)) :=
  match spsc_try_with_capacity alloc_all sample_capacity with
  | Ok log => Some (mkFrameTracer log 0 flush_interval now budget_report_default)
  | Err _ => None
  end.

Definition tracer_default_config (now : Z) : option (FrameTracer (SpscRing TraceSample)) :=
  tracer_new 4096 1000000000 now.

Lemma tracer_new_repr n interval now t :
  0 <= n -> tracer_new n interval now = Some t ->
  exists cap, 0 <= cap /\ n <= cap /\ tracer_repr t cap [] /\ ft_flush_interval t = interval /\ ft_last_flush t = now /\
  ft_last_report t = budget_report_default.
Proof.
  intros Hn. unfold tracer_new. destruct (spsc_try_with_capacity alloc_all n) as [log|] eqn:Hlog; [|done]. intros [= <-].
  destruct (spsc_new alloc_all n log Hn Hlog) as (Hr & p & Hp & Hc).
  destruct (next_power_of_two_spec _ _ _ Hn Hp) as (k & _ & _ & Hle & _).
  exists (spsc_capacity log). split; [lia|]. split; [lia|]. split; [|done].
  split; simpl; rewrite ?take_nil; done.
Qed.

(** the tracer never loses count.  After any sequence of recorded
    samples and frame calls on a new tracer, no call gets stuck and the last
    report is the one of the last complete window: the samples it kept are
    the first ones of the window up to the ring's capacity (at least the
    requested one), the dropped count is the number of the others, and the
    over-budget count is that of the kept samples. *)
Theorem tracer_reports_windows n interval now t evs :
  0 <= n -> tracer_new n interval now = Some t ->
  exists cap t', n <= cap /\ tracer_run t evs = Some t' /\
  ft_last_report t' = (window_run cap interval [] now budget_report_default evs).2 /\
  ft_dropped t' =
    let window := (window_run cap interval [] now budget_report_default evs).1 in
    zlen window - zlen (take (Z.to_nat cap) window).
Proof.
  intros Hn Ht. destruct (tracer_new_repr n interval now t Hn Ht) as (cap & H0 & Hle & Hr & Hi & Hf & Hp).
  destruct (tracer_run_refines evs t cap [] H0 Hr) as (t' & He & Hrep & Hr'). rewrite Hi, Hf, Hp in *.
  exists cap, t'. split; [done|]. split; [done|]. split; [done|]. apply Hr'.
Qed.

Lemma tracer_reports_windows_witness :
  let s over := mkTraceSample 0 0 5 1 over in
  exists t cap t', tracer_new 2 100 0 = Some t /\
  tracer_run t [EvRecord (s true); EvRecord (s false); EvRecord (s true); EvFrame 100] = Some t' /\
  ft_last_report t' = (window_run cap 100 [] 0 budget_report_default
    [EvRecord (s true); EvRecord (s false); EvRecord (s true); EvFrame 100]).2 /\
  ft_last_report t' = mkBudgetReport 2 1 1.
Proof.
  intros s. destruct (tracer_new 2 100 0) as [t|] eqn:Ht; [|discriminate Ht].
  destruct (tracer_reports_windows 2 100 0 t
    [EvRecord (s true); EvRecord (s false); EvRecord (s true); EvFrame 100] ltac:(lia) Ht) as (cap & t' & _ & He & Hr & _).
  exists t, cap, t'. split; [reflexivity|]. split; [exact He|]. split; [exact Hr|].
  vm_compute in Ht. injection Ht as <-. vm_compute in He. injection He as <-. reflexivity.
Defined.
