(* ===== verification/Kernel.v ===== *)
(** The kernel driver: registry ([kernel/registry.rs]), subsystem context
    ([kernel/context.rs]), plugin host ([kernel/game.rs]) and the lifecycle of
    [Kernel] in [kernel/scheduler.rs].

    A subsystem's callbacks are functions; [X] is everything outside the
    kernel that they may change: the subsystems' own fields and the devices. *)

From stdpp Require Import gmap strings sets.
From S2P Require Import Prelude Arena Ring Bus Entities World Deferred Scheduler Tracer.

Definition FIXED_DT_NS : Z := 16666667.
Definition DEFAULT_FRAME_BUDGET_NS : Z := 1000000.
Definition DEFAULT_ARENA_CAPACITY : Z := 1048576.
Definition DEFAULT_DEFERRED_COMMAND_CAPACITY : Z := 4096.

Section Kernel.
Context {P V X : Type}.

(** The kernel state a context borrows mutably. *)
Record Shared := mkShared {
  sh_bus : MessageBus P;
  sh_world : World V;
  sh_deferred : DeferredCommands;
  sh_arena : BumpArena
}.

Record KernelContext := mkKernelContext {
  kc_shared : Shared;
  kc_names : list string;
  kc_id : SubscriberId;
  kc_dt_ns : Z
}.

Definition ctx_resolve (c : KernelContext) (name : string) : option SubscriberId :=
  i ← vec_position (fun n => bool_decide (n = name)) (kc_names c); Some (wrap 32 i).

Definition with_bus (s : Shared) b := mkShared b (sh_world s) (sh_deferred s) (sh_arena s).
Definition with_world (s : Shared) w := mkShared (sh_bus s) w (sh_deferred s) (sh_arena s).
Definition with_deferred (s : Shared) d := mkShared (sh_bus s) (sh_world s) d (sh_arena s).
Definition with_arena (s : Shared) a := mkShared (sh_bus s) (sh_world s) (sh_deferred s) a.
Definition with_shared (c : KernelContext) s := mkKernelContext s (kc_names c) (kc_id c) (kc_dt_ns c).

Definition ctx_defer_spawn A grown (c : KernelContext) : KernelContext * result DeferredCommandError unit :=
  let '(d, r) := deferred_try_spawn A grown (sh_deferred (kc_shared c)) in
  (with_shared c (with_deferred (kc_shared c) d), r).

Definition ctx_defer_despawn A grown (c : KernelContext) e : KernelContext * result DeferredCommandError unit :=
  let '(d, r) := deferred_try_despawn A grown (sh_deferred (kc_shared c)) e in
  (with_shared c (with_deferred (kc_shared c) d), r).

Definition ctx_publish (debug : bool) (c : KernelContext) (to : SubscriberId) (topic : Z) (payload : P) :
    option (KernelContext * result BusError unit) :=
  let '(b, env) := bus_envelope (sh_bus (kc_shared c)) (kc_id c) to topic payload in
  '(b, r) ← bus_publish debug b env;
  Some (with_shared c (with_bus (kc_shared c) b), r).

(** One step of the [receive] iterator. *)
Definition ctx_receive_next (c : KernelContext) : option (KernelContext * option (Envelope P)) :=
  '(b, x) ← bus_pop_inbox (sh_bus (kc_shared c)) (kc_id c);
  Some (with_shared c (with_bus (kc_shared c) b), x).

(** ** Subsystems *)
Record Subsystem := mkSubsystem {
  sub_name : string;
  sub_dependencies : list string;
  sub_access : SystemAccess;
  sub_init : KernelContext -> X -> option (Shared * X);
  sub_tick : KernelContext -> Z -> X -> option (Shared * X);
  sub_shutdown : KernelContext -> X -> option (Shared * X)
}.

Record GamePlugin := mkGamePlugin {
  gp_name : string;
  gp_dependencies : list string;
  gp_access : SystemAccess;
  gp_init : KernelContext -> X -> option (Shared * X);
  gp_tick : KernelContext -> Z -> X -> option (Shared * X);
  gp_shutdown : KernelContext -> X -> option (Shared * X)
}.

Definition game_plugin_host (p : GamePlugin) : Subsystem :=
  mkSubsystem (gp_name p) (gp_dependencies p) (gp_access p)
    (fun ctx x => gp_init p ctx x) (fun ctx dt x => gp_tick p ctx dt x) (fun ctx x => gp_shutdown p ctx x).

(** ** Registry *)
Definition Registry : Type := list (string * Subsystem).

Definition registry_register (r : Registry) (s : Subsystem) : Registry * result KernelError Z :=
  let name := sub_name s in
  if existsb (fun '(n, _) => bool_decide (n = name)) r then (r, Err (KernelError.DuplicateName name))
  else (r ++ [(name, s)], Ok (zlen (r ++ [(name, s)]) - 1)).

Fixpoint resolve_names (r : Registry) (name : string) (deps : list string) : result KernelError (list Z) :=
  match deps with
  | [] => Ok []
  | dep :: deps =>
      match vec_position (fun '(n, _) => bool_decide (n = dep)) r with
      | None => Err (KernelError.UnknownDependency name dep)
      | Some i => let? rest := resolve_names r name deps in Ok (i :: rest)
      end
  end.

Fixpoint resolve_entries (r entries : Registry) : result KernelError (list (list Z)) :=
  match entries with
  | [] => Ok []
  | (name, s) :: entries =>
      let? ds := resolve_names r name (sub_dependencies s) in
      let? rest := resolve_entries r entries in
      Ok (ds :: rest)
  end.

Definition registry_resolve_dependencies (r : Registry) : result KernelError (list (list Z)) := resolve_entries r r.

(** ** The kernel *)
Record Kernel := mkKernel {
  k_registry : Registry;
  k_shared : Shared;
  k_names : list string;
  k_order : list Z;
  k_waves : list (list Z);
  k_tracer : FrameTracer (SpscRing TraceSample);
  k_initialized : bool;
  k_frame_index : Z
}.

Definition k_with_shared k s :=
  mkKernel (k_registry k) s (k_names k) (k_order k) (k_waves k) (k_tracer k) (k_initialized k) (k_frame_index k).
Definition k_with_tracer k t :=
  mkKernel (k_registry k) (k_shared k) (k_names k) (k_order k) (k_waves k) t (k_initialized k) (k_frame_index k).

Definition kernel_register (k : Kernel) (s : Subsystem) : Kernel * result KernelError unit :=
  let '(r, res) := registry_register (k_registry k) s in
  (mkKernel r (k_shared k) (k_names k) (k_order k) (k_waves k) (k_tracer k) (k_initialized k) (k_frame_index k),
   match res with Ok _ => Ok tt | Err e => Err e end).

Definition kernel_refresh_names (k : Kernel) : Kernel :=
  mkKernel (k_registry k) (k_shared k) (map fst (k_registry k)) (k_order k) (k_waves k) (k_tracer k)
    (k_initialized k) (k_frame_index k).

(** [add_subscriber] panics when the reservation fails. *)
Fixpoint add_subscribers (A : alloc) (n : nat) (b : MessageBus P) : option (MessageBus P) :=
  match n with
  | O => Some b
  | S n =>
      match bus_try_add_subscriber A b with
      | (b, Ok _) => add_subscribers A n b
      | (_, Err _) => None
      end
  end.

Definition set_debug_edges (A : alloc) (b : MessageBus P) (deps : list (list Z)) : option (MessageBus P) :=
  match bus_try_set_debug_edges A b deps with (b, Ok _) => Some b | (_, Err _) => None end.

Definition context_for (k : Kernel) (s : Shared) (idx dt : Z) : KernelContext :=
  mkKernelContext s (k_names k) (wrap 32 idx) dt.

(** One callback of every subsystem of [order], in that order. *)
Fixpoint run_callbacks (call : Subsystem -> KernelContext -> X -> option (Shared * X)) (k : Kernel) (dt : Z)
    (order : list Z) (s : Shared) (x : X) : option (Shared * X) :=
  match order with
  | [] => Some (s, x)
  | idx :: order =>
      entry ← k_registry k !z idx;
      '(s, x) ← call entry.2 (context_for k s idx dt) x;
      run_callbacks call k dt order s x
  end.

Definition kernel_init (A : alloc) (k : Kernel) (x : X) : option (Kernel * X * result KernelError unit) :=
  if k_initialized k then Some (k, x, Ok tt)
  else
    match registry_resolve_dependencies (k_registry k) with
    | Err e => Some (k, x, Err e)
    | Ok deps =>
        let k := kernel_refresh_names k in
        let accesses := map (fun '(_, s) => sub_access s) (k_registry k) in
        plan ← schedule_plan_build deps (k_names k) accesses;
        match plan with
        | Err e => Some (k, x, Err e)
        | Ok plan =>
            bus ← add_subscribers A (length (k_registry k)) (sh_bus (k_shared k));
            bus ← set_debug_edges A bus deps;
            let s := with_arena (with_bus (k_shared k) bus) (arena_reset (sh_arena (k_shared k))) in
            let k := mkKernel (k_registry k) s (k_names k) (plan_order plan) (plan_waves plan) (k_tracer k)
                       (k_initialized k) (k_frame_index k) in
            '(s, x) ← run_callbacks sub_init k 0 (plan_order plan) s x;
            Some (mkKernel (k_registry k) s (k_names k) (k_order k) (k_waves k) (k_tracer k) true (k_frame_index k),
                  x, Ok tt)
        end
    end.

(** The measured durations and frame instants come from [clock]. *)
Record Clock := mkClock {
  elapsed_ns : Z -> Z -> Z;
  frame_instant : Z -> Z
}.

Fixpoint tick_all (clock : Clock) (k : Kernel) (frame : Z) (exec : list Z) (s : Shared)
    (t : FrameTracer (SpscRing TraceSample)) (x : X) : option (Shared * FrameTracer (SpscRing TraceSample) * X) :=
  match exec with
  | [] => Some (s, t, x)
  | idx :: exec =>
      entry ← k_registry k !z idx;
      '(s, x) ← sub_tick entry.2 (context_for k s idx FIXED_DT_NS) FIXED_DT_NS x;
      let dur := wrap 64 (Z.max (elapsed_ns clock frame idx) 1) in
      t ← tracer_record t (mkTraceSample (wrap 32 idx) frame dur DEFAULT_FRAME_BUDGET_NS (DEFAULT_FRAME_BUDGET_NS <? dur));
      tick_all clock k frame exec s t x
  end.

(** [frame_index += 1] panics on overflow (overflow checks on); [As frame i]
    is the allocator the [i]-th deferred command of a frame meets. *)
Definition kernel_frame (As : Z -> nat -> alloc) (clock : Clock) (k : Kernel) (exec : list Z) (x : X) : option (Kernel * X) :=
  bus ← bus_flush (S (Z.to_nat OUTBOX_CAPACITY)) (sh_bus (k_shared k));
  let s := with_arena (with_bus (k_shared k) bus) (arena_reset (sh_arena (k_shared k))) in
  let frame := k_frame_index k in
  '(s, t, x) ← tick_all clock k frame exec s (k_tracer k) x;
  '(d, w, _) ← deferred_apply (As frame) (sh_deferred s) (sh_world s);
  let s := with_world (with_deferred s d) w in
  next ← checked_add 64 frame 1;
  t ← tracer_frame t (frame_instant clock frame);
  Some (mkKernel (k_registry k) s (k_names k) (k_order k) (k_waves k) t (k_initialized k) next, x).

Fixpoint run_frames (As : Z -> nat -> alloc) (clock : Clock) (keep : X -> X * bool) (frames : nat) (exec : list Z)
    (k : Kernel) (x : X) : option (Kernel * X) :=
  match frames with
  | O => Some (k, x)
  | S frames =>
      let '(x, go) := keep x in
      if (go : bool) then
        '(k, x) ← kernel_frame As clock k exec x;
        run_frames As clock keep frames exec k x
      else Some (k, x)
  end.

Definition kernel_run_until As clock keep (frames : Z) (k : Kernel) (x : X) : option (Kernel * X * result KernelError unit) :=
  if negb (k_initialized k) then Some (k, x, Err KernelError.NotInitialized)
  else if frames =? 0 then Some (k, x, Ok tt)
  else '(k, x) ← run_frames As clock keep (Z.to_nat frames) (k_order k) k x; Some (k, x, Ok tt).

Definition kernel_run As clock (frames : Z) k x := kernel_run_until As clock (fun x => (x, true)) frames k x.

Definition kernel_shutdown (k : Kernel) (x : X) : option (Kernel * X) :=
  if negb (k_initialized k) then Some (k, x)
  else
    '(s, x) ← run_callbacks sub_shutdown k 0 (rev (k_order k)) (k_shared k) x;
    Some (mkKernel (k_registry k) s (k_names k) [] [] (k_tracer k) false (k_frame_index k), x).

(** [Kernel::with_tracer]: the capacities are fixed and the constructors
    panic when an allocation fails. *)
Definition kernel_with_tracer (sys : Z -> option Z) (tracer : FrameTracer (SpscRing TraceSample)) : option Kernel :=
  match bus_try_new (P := P) alloc_all, deferred_try_with_capacity alloc_all DEFAULT_DEFERRED_COMMAND_CAPACITY with
  | Ok bus, Ok deferred =>
      arena ← arena_try_new sys DEFAULT_ARENA_CAPACITY;
      Some (mkKernel [] (mkShared bus world_new deferred arena) [] [] [] tracer false 0)
  | _, _ => None
  end.
End Kernel.

Arguments Shared : clear implicits. Arguments KernelContext : clear implicits.
Arguments Subsystem : clear implicits. Arguments GamePlugin : clear implicits.
Arguments Registry : clear implicits. Arguments Kernel : clear implicits.

(** ** Dependency resolution *)
Section Resolution.
Context {P V X : Type}.
Implicit Types (r entries : Registry P V X).

Definition registered (r : Registry P V X) (name : string) : Prop := name ∈ map fst r.

Lemma resolve_names_spec r name deps :
  match resolve_names r name deps with
  | Ok ds => forall i, i ∈ ds -> 0 <= i < zlen r
  | Err e => exists dep, e = KernelError.UnknownDependency name dep /\ dep ∈ deps /\ ~ registered r dep
  end.
Proof.
  induction deps as [|dep deps IH]; cbn [resolve_names]; [intros i Hi; by apply not_elem_of_nil in Hi|].
  destruct (vec_position _ r) as [i|] eqn:Hp.
  - destruct (resolve_names r name deps) as [ds|e]; simpl; [|destruct IH as (d & ? & ? & ?); exists d; set_solver].
    intros j [->|Hj]%elem_of_cons; [|by apply IH]. apply position_Some in Hp as (x & Hx & _). by eapply zget_Some.
  - exists dep. split; [done|]. split; [set_solver|]. intros Hreg.
    apply list_elem_of_In, in_map_iff in Hreg as ([n s] & <- & Hin). apply list_elem_of_In, list_elem_of_lookup in Hin as [k Hk].
    rewrite <- zget_nat in Hk. pose proof (position_None _ _ _ _ Hp Hk) as Hb. by apply bool_decide_eq_false in Hb.
Qed.

Lemma resolve_entries_spec r entries :
  match resolve_entries r entries with
  | Ok deps => zlen deps = zlen entries /\ forall ds i, ds ∈ deps -> i ∈ ds -> 0 <= i < zlen r
  | Err e => exists name s dep, (name, s) ∈ entries /\ e = KernelError.UnknownDependency name dep /\
      dep ∈ sub_dependencies s /\ ~ registered r dep
  end.
Proof.
  induction entries as [|[name s] entries IH]; cbn [resolve_entries].
  { split; [done|]. intros ds i Hi. by apply not_elem_of_nil in Hi. }
  pose proof (resolve_names_spec r name (sub_dependencies s)) as Hn.
  destruct (resolve_names r name (sub_dependencies s)) as [ds|e]; simpl.
  - destruct (resolve_entries r entries) as [deps|e]; simpl; [|destruct IH as (n & s' & d & ? & ?); exists n, s', d; set_solver].
    destruct IH as [Hl Hr]. zsimp. split; [lia|]. intros ds' i [->|Hds]%elem_of_cons Hi; [by apply Hn|by eapply Hr].
  - destruct Hn as (d & -> & ? & ?). exists name, s, d. set_solver.
Qed.

Lemma resolve_valid r deps :
  registry_resolve_dependencies r = Ok deps -> zlen deps = zlen r /\ deps_valid deps.
Proof.
  unfold registry_resolve_dependencies. intros Hr. pose proof (resolve_entries_spec r r) as Hs. rewrite Hr in Hs.
  destruct Hs as [Hl Hs]. split; [done|]. intros a b (ds & Hds & Hb). rewrite Hl.
  pose proof (zget_Some _ _ _ Hds). rewrite zget_lookup in Hds by lia. eapply Hs; [by eapply list_elem_of_lookup_2|done].
Qed.

(** The routing matrix of resolved dependencies is accepted. *)
Lemma set_row_ok n row froms : (forall f, f ∈ froms -> f < n) -> exists row', set_row n row froms = Ok row'.
Proof.
  revert row. induction froms as [|f froms IH]; intros row Hf; cbn [set_row]; [by eexists|].
  destruct (Z.leb_spec n f); [pose proof (Hf f ltac:(set_solver)); lia|]. apply IH. set_solver.
Qed.

Lemma set_rows_ok n deps : (forall ds f, ds ∈ deps -> f ∈ ds -> f < n) -> exists m, set_rows n deps = Ok m.
Proof.
  induction deps as [|ds deps IH]; intros Hf; cbn [set_rows]; [by eexists|].
  destruct (set_row_ok n (replicate (Z.to_nat n) false) ds) as [row ->]; [set_solver|]. simpl.
  destruct IH as [m ->]; [set_solver|]. simpl. by eexists.
Qed.

Lemma rows_reserved_all n : rows_reserved alloc_all n = true.
Proof. induction n; [done|exact IHn]. Qed.

Lemma set_debug_edges_ok (b : MessageBus P) qs deps :
  deps_valid deps -> bus_repr b qs ->
  exists b', set_debug_edges alloc_all b deps = Some b' /\ bus_repr b' qs /\ inboxes b' = inboxes b.
Proof.
  intros Hv Hb. unfold set_debug_edges, bus_try_set_debug_edges. rewrite rows_reserved_all. cbn [alloc_all andb].
  destruct (set_rows_ok (zlen deps) deps) as [m ->].
  { intros ds f Hds Hf. apply list_elem_of_lookup in Hds as [k Hk]. rewrite <- zget_nat in Hk.
    apply (Hv (Z.of_nat k) f). by exists ds. }
  eexists. split; [done|]. split; [|done]. destruct Hb. by split.
Qed.

Lemma add_subscriber_ok (b : MessageBus P) qs :
  bus_repr b qs -> zlen qs <= U32_MAX ->
  exists b', bus_try_add_subscriber alloc_all b = (b', Ok (wrap 32 (zlen qs))) /\ bus_repr b' (qs ++ [[]]).
Proof.
  intros [Ho Hc Hi Hl] Hq. unfold bus_try_add_subscriber.
  assert (zlen (inboxes b) = zlen qs) as -> by (unfold zlen; by rewrite (Forall2_length Hi)).
  destruct (Z.ltb_spec U32_MAX (zlen qs)); [lia|]. cbn [alloc_all].
  destruct (spsc_try_with_capacity (shift 1 alloc_all) DEFAULT_INBOX_CAPACITY) as [r|] eqn:Er; [|discriminate Er].
  eexists. split; [done|]. split; simpl; try done.
  - apply Forall2_app; [done|]. constructor; [|constructor]. by eapply inbox_new.
  - rewrite zlen_app. change (zlen [r]) with 1. assert (zlen (inboxes b) = zlen qs) as -> by (unfold zlen; by rewrite (Forall2_length Hi)).
    unfold U32_MAX in *. lia.
Qed.

Lemma add_subscribers_ok n : forall (b : MessageBus P) qs,
  bus_repr b qs -> zlen qs + Z.of_nat n <= 2 ^ 32 ->
  exists b', add_subscribers alloc_all n b = Some b' /\ bus_repr b' (qs ++ replicate n []).
Proof.
  induction n as [|n IH]; intros b qs Hb Hn; cbn [add_subscribers]; [exists b; by rewrite app_nil_r|].
  destruct (add_subscriber_ok b qs Hb) as (b1 & -> & Hb1); [unfold U32_MAX; lia|].
  destruct (IH b1 _ Hb1) as (b' & -> & Hb'); [zsimp; lia|]. exists b'. split; [done|].
  by rewrite <- (assoc_L (++)) in Hb'.
Qed.
End Resolution.

(** ** Lifecycle *)

(** A call the kernel makes: the phase, the subsystem's bus address and the
    time step it is given. *)
Inductive call :=
| CallInit (id : SubscriberId) (dt : Z)
| CallTick (id : SubscriberId) (dt : Z)
| CallShutdown (id : SubscriberId) (dt : Z).

Section Lifecycle.
Context {P V X : Type} (journal : X -> list call) (K : Z).
Implicit Types (k : Kernel P V X) (s : Shared P V) (sub : Subsystem P V X).

(** The state between callbacks; [m] bounds the entities ever created. *)
Record shared_ok (m : Z) s : Prop := {
  so_bus : exists qs, bus_repr (sh_bus s) qs;
  so_world : exists L C n, world_repr (sh_world s) L C n /\ 0 <= n <= m;
  so_deferred : zlen (dc_commands (sh_deferred s)) <= DEFAULT_DEFERRED_COMMAND_CAPACITY /\
    Forall command_ok (dc_commands (sh_deferred s));
  so_capacity : dc_capacity (sh_deferred s) <= DEFAULT_DEFERRED_COMMAND_CAPACITY
}.

(** A callback that returns, keeps the shared state sound, creates at most [K]
    entities, and is recorded by the journal. *)
Definition callback_ok (label : SubscriberId -> Z -> call) (f : KernelContext P V -> X -> option (Shared P V * X)) : Prop :=
  forall c x m, shared_ok m (kc_shared c) ->
  exists s' x', f c x = Some (s', x') /\ shared_ok (m + K) s' /\
  journal x' = journal x ++ [label (kc_id c) (kc_dt_ns c)].

Record subsystem_ok sub : Prop := {
  sk_init : callback_ok CallInit (sub_init sub);
  sk_tick dt : callback_ok CallTick (fun c => sub_tick sub c dt);
  sk_shutdown : callback_ok CallShutdown (sub_shutdown sub)
}.

Lemma run_callbacks_ok label (f : Subsystem P V X -> KernelContext P V -> X -> option (Shared P V * X)) k dt order : forall s x m,
  (forall name sub, (name, sub) ∈ k_registry k -> callback_ok label (f sub)) ->
  (forall i, i ∈ order -> 0 <= i < zlen (k_registry k)) -> shared_ok m s ->
  exists s' x', run_callbacks f k dt order s x = Some (s', x') /\ shared_ok (m + zlen order * K) s' /\
  journal x' = journal x ++ map (fun i => label (wrap 32 i) dt) order.
Proof.
  induction order as [|i order IH]; intros s x m Hok Hr Hs; cbn [run_callbacks].
  { exists s, x. rewrite app_nil_r. split; [done|]. split; [|done]. zlen_nil_simp. by rewrite Z.mul_0_l, Z.add_0_r. }
  destruct (proj2 (zget_is_Some (k_registry k) i)) as [[name sub] He]; [apply Hr; set_solver|].
  rewrite He. cbn [mbind option_bind snd].
  assert ((name, sub) ∈ k_registry k) as Hin.
  { pose proof (zget_Some _ _ _ He). rewrite zget_lookup in He by lia. by eapply list_elem_of_lookup_2. }
  destruct (Hok name sub Hin (context_for k s i dt) x m Hs) as (s1 & x1 & -> & Hs1 & Hj1). cbn [mbind option_bind].
  destruct (IH s1 x1 (m + K) Hok ltac:(set_solver) Hs1) as (s' & x' & -> & Hs' & Hj').
  exists s', x'. split; [done|]. zsimp. replace (m + (zlen order + 1) * K) with (m + K + zlen order * K) by lia.
  split; [done|]. rewrite Hj', Hj1, <- (assoc_L (++)). done.
Qed.

Definition tracer_ok (t : FrameTracer (SpscRing TraceSample)) : Prop :=
  exists cap window, 0 <= cap /\ tracer_repr t cap window.

Lemma tick_all_ok clock k frame exec : forall s t x m,
  (forall name sub, (name, sub) ∈ k_registry k -> subsystem_ok sub) ->
  (forall i, i ∈ exec -> 0 <= i < zlen (k_registry k)) -> shared_ok m s -> tracer_ok t ->
  exists s' t' x', tick_all clock k frame exec s t x = Some (s', t', x') /\ shared_ok (m + zlen exec * K) s' /\
  tracer_ok t' /\ journal x' = journal x ++ map (fun i => CallTick (wrap 32 i) FIXED_DT_NS) exec.
Proof.
  induction exec as [|i exec IH]; intros s t x m Hok Hr Hs Ht; cbn [tick_all].
  { exists s, t, x. rewrite app_nil_r. split; [done|]. split; [|done]. zlen_nil_simp. by rewrite Z.mul_0_l, Z.add_0_r. }
  destruct (proj2 (zget_is_Some (k_registry k) i)) as [[name sub] He]; [apply Hr; set_solver|].
  rewrite He. cbn [mbind option_bind snd].
  assert ((name, sub) ∈ k_registry k) as Hin.
  { pose proof (zget_Some _ _ _ He). rewrite zget_lookup in He by lia. by eapply list_elem_of_lookup_2. }
  destruct (sk_tick _ (Hok name sub Hin) FIXED_DT_NS (context_for k s i FIXED_DT_NS) x m Hs) as (s1 & x1 & -> & Hs1 & Hj1).
  cbn [mbind option_bind]. destruct Ht as (cap & window & H0 & Ht).
  match goal with |- context [tracer_record t ?smp] => destruct (record_refines t cap window smp H0 Ht) as (t1 & -> & Ht1 & _) end.
  cbn [mbind option_bind].
  destruct (IH s1 t1 x1 (m + K) Hok ltac:(set_solver) Hs1) as (s' & t' & x' & -> & Hs' & Ht' & Hj'); [by exists cap, (window ++ [mkTraceSample (wrap 32 i) frame (wrap 64 (Z.max (elapsed_ns clock frame i) 1)) DEFAULT_FRAME_BUDGET_NS (DEFAULT_FRAME_BUDGET_NS <? wrap 64 (Z.max (elapsed_ns clock frame i) 1))])|].
  exists s', t', x'. split; [done|]. zsimp. replace (m + (zlen exec + 1) * K) with (m + K + zlen exec * K) by lia.
  split; [done|]. split; [done|]. by rewrite Hj', Hj1, <- (assoc_L (++)).
Qed.

(** What a frame must do, said without the kernel's own loop.  [ticked]: every
    subsystem of [exec] is called once, in that order, each on the state the
    one before it left. *)
Inductive ticked k : list Z -> Shared P V -> X -> Shared P V -> X -> Prop :=
| ticked_nil s x : ticked k [] s x s x
| ticked_cons i exec name sub s x s1 x1 s2 x2 :
    k_registry k !z i = Some (name, sub) ->
    sub_tick sub (context_for k s i FIXED_DT_NS) FIXED_DT_NS x = Some (s1, x1) ->
    ticked k exec s1 x1 s2 x2 -> ticked k (i :: exec) s x s2 x2.

(** The world [w'] is [w] after the commands [cmds], one by one in the order
    they were deferred: a spawn adds a new entity, a despawn removes a live one
    with its components, and only a refused allocation makes either fail. *)
Definition played_back (As : nat -> alloc) (cmds : list DeferredCommand) (w w' : World V) : Prop :=
  exists L C n L' C' n' applied, world_repr w L C n /\ world_repr w' L' C' n' /\
  commands_effect As cmds L C L' C' applied.

(** A whole frame: on a reset arena the ticks run, and then the commands they
    left in the buffer are played back on the world, which nothing else
    changes, and the buffer is emptied. *)
Definition frame_done (As : Z -> nat -> alloc) k exec x k' x' : Prop :=
  exists s, ticked k exec (with_arena (k_shared k) (arena_reset (sh_arena (k_shared k)))) x s x' /\
  played_back (As (k_frame_index k)) (dc_commands (sh_deferred s)) (sh_world s) (sh_world (k_shared k')) /\
  dc_commands (sh_deferred (k_shared k')) = [] /\
  sh_bus (k_shared k') = sh_bus s /\ sh_arena (k_shared k') = sh_arena s.

(** [f] frames, each after a predicate that let it run. *)
Inductive frames_done (As : Z -> nat -> alloc) (keep : X -> X * bool) (exec : list Z) :
    nat -> Kernel P V X -> X -> Kernel P V X -> X -> Prop :=
| frames_end k x : frames_done As keep exec 0 k x k x
| frames_stopped k x x' : keep x = (x', false) -> frames_done As keep exec 0 k x k x'
| frames_next f k x x0 k1 x1 k2 x2 :
    keep x = (x0, true) -> frame_done As k exec x0 k1 x1 ->
    frames_done As keep exec f k1 x1 k2 x2 -> frames_done As keep exec (S f) k x k2 x2.

Lemma tick_all_ticked clock k frame exec : forall s t x s' t' x',
  tick_all clock k frame exec s t x = Some (s', t', x') -> ticked k exec s x s' x'.
Proof.
  induction exec as [|i exec IH]; intros s t x s' t' x'; cbn [tick_all].
  { intros ?. simplify_eq. constructor. }
  intros H. destruct (k_registry k !z i) as [[name sub]|] eqn:He; [|done]. cbn [mbind option_bind snd] in H.
  destruct (sub_tick sub _ _ x) as [[s1 x1]|] eqn:Hs; [|done]. cbn [mbind option_bind] in H.
  destruct (tracer_record _ _) as [t1|]; [|done]. econstructor; [exact He|exact Hs|by eapply IH].
Qed.

Lemma apply_deferred_ok As s m :
  shared_ok m s -> m + DEFAULT_DEFERRED_COMMAND_CAPACITY < 2 ^ 32 ->
  exists d w n, deferred_apply As (sh_deferred s) (sh_world s) = Some (d, w, n) /\ dc_commands d = [] /\
  played_back As (dc_commands (sh_deferred s)) (sh_world s) w /\
  shared_ok (m + DEFAULT_DEFERRED_COMMAND_CAPACITY) (with_world (with_deferred s d) w).
Proof.
  intros [Hb (L & C & n & Hw & Hn) [Hl Hc] Hcap] Hm. unfold deferred_apply.
  destruct (apply_effect_bound (dc_commands (sh_deferred s)) As (sh_world s) L C n 0 Hw)
    as (w' & L' & C' & n' & k & -> & Hw' & He & Hn'); try lia; [done|].
  cbn [mbind option_bind]. do 3 eexists. split; [done|]. split; [done|].
  split; [by exists L, C, n, L', C', n', k|]. split; simpl; [done| | |done].
  - exists L', C', n'. split; [done|]. lia.
  - split; [|constructor]. zlen_nil_simp. unfold DEFAULT_DEFERRED_COMMAND_CAPACITY. lia.
Qed.

Record kernel_ok (m : Z) k : Prop := {
  ko_shared : shared_ok m (k_shared k);
  ko_tracer : tracer_ok (k_tracer k);
  ko_subsystems name sub : (name, sub) ∈ k_registry k -> subsystem_ok sub
}.

(** Entities created in one frame: by the callbacks and by the commands. *)
Definition frame_cost (exec : list Z) : Z := zlen exec * K + DEFAULT_DEFERRED_COMMAND_CAPACITY.

Lemma frame_ok As clock k exec x m :
  kernel_ok m k -> (forall i, i ∈ exec -> 0 <= i < zlen (k_registry k)) -> 0 <= K ->
  m + frame_cost exec < 2 ^ 32 -> 0 <= k_frame_index k < umax 64 ->
  exists k' x', kernel_frame As clock k exec x = Some (k', x') /\ kernel_ok (m + frame_cost exec) k' /\
  journal x' = journal x ++ map (fun i => CallTick (wrap 32 i) FIXED_DT_NS) exec /\
  k_registry k' = k_registry k /\ k_order k' = k_order k /\ k_initialized k' = k_initialized k /\
  k_frame_index k' = k_frame_index k + 1 /\ frame_done As k exec x k' x'.
Proof.
  intros [Hs Ht Hsub] Hr HK Hm Hfi. unfold kernel_frame. destruct (so_bus _ _ Hs) as [qs Hb].
  rewrite (flush_idle _ qs _ Hb). cbn [mbind option_bind].
  assert (shared_ok m (with_arena (with_bus (k_shared k) (sh_bus (k_shared k))) (arena_reset (sh_arena (k_shared k))))) as Hs0
    by (destruct Hs; by split).
  destruct (tick_all_ok clock k (k_frame_index k) exec _ (k_tracer k) x m Hsub Hr Hs0 Ht)
    as (s1 & t1 & x1 & Htick & Hs1 & Ht1 & Hj). pose proof (tick_all_ticked _ _ _ _ _ _ _ _ _ _ Htick) as Hticked.
  rewrite Htick. cbn [mbind option_bind]. unfold frame_cost in *.
  destruct (apply_deferred_ok (As (k_frame_index k)) s1 _ Hs1) as (d & w & n & -> & Hd & Hp & Hs2); [lia|]. cbn [mbind option_bind].
  rewrite checked_add_ok by lia.
  cbn [mbind option_bind]. destruct Ht1 as (cap & window & H0 & Ht1).
  destruct (frame_refines t1 cap window (frame_instant clock (k_frame_index k)) H0 Ht1) as (t2 & -> & Ht2 & _).
  cbn [mbind option_bind]. do 2 eexists. split; [done|].
  split; [split; simpl; [by rewrite Z.add_assoc|by eexists _, _|done]|].
  repeat (split; [done|]). exists s1. split; [|done]. by destruct (k_shared k).
Qed.

Lemma run_frames_ok As clock keep exec frames : forall k x m,
  kernel_ok m k -> (forall i, i ∈ exec -> 0 <= i < zlen (k_registry k)) -> 0 <= K ->
  m + Z.of_nat frames * frame_cost exec < 2 ^ 32 -> (forall x, journal (keep x).1 = journal x) ->
  0 <= k_frame_index k -> k_frame_index k + Z.of_nat frames <= umax 64 ->
  exists f k' x', run_frames As clock keep frames exec k x = Some (k', x') /\ (f <= frames)%nat /\
  kernel_ok (m + Z.of_nat f * frame_cost exec) k' /\
  journal x' = journal x ++ concat (replicate f (map (fun i => CallTick (wrap 32 i) FIXED_DT_NS) exec)) /\
  k_registry k' = k_registry k /\ k_order k' = k_order k /\ k_initialized k' = k_initialized k /\
  k_frame_index k' = k_frame_index k + Z.of_nat f /\
  frames_done As keep exec f k x k' x' /\
  ((f < frames)%nat -> exists x0, (keep x0).2 = false).
Proof.
  induction frames as [|frames IH]; intros k x m Hk Hr HK Hm Hkeep Hf0 Hf1; cbn [run_frames].
  { exists 0%nat, k, x. rewrite Z.mul_0_l, !Z.add_0_r, app_nil_r. repeat (split; [done|]). split; [constructor|]. intros ?; lia. }
  destruct (keep x) as [x0 go] eqn:Hgo. pose proof (Hkeep x) as Hj0. rewrite Hgo in Hj0. simpl in Hj0.
  assert (0 <= frame_cost exec) as Hc0.
  { unfold frame_cost, DEFAULT_DEFERRED_COMMAND_CAPACITY. pose proof (zlen_nonneg exec). nia. }
  destruct go.
  - destruct (frame_ok As clock k exec x0 m Hk Hr HK) as (k1 & x1 & -> & Hk1 & Hj1 & Hreg & Hord & Hini & Hfi & Hd); [nia|lia|].
    cbn [mbind option_bind]. rewrite <- Hreg in Hr.
    destruct (IH k1 x1 _ Hk1 Hr HK) as (f & k' & x' & -> & Hf & Hk' & Hj' & Hreg' & Hord' & Hini' & Hfi' & Hd' & Hstop); [nia|done|lia|lia|].
    exists (S f), k', x'. split; [done|]. split; [lia|].
    replace (m + Z.of_nat (S f) * frame_cost exec) with (m + frame_cost exec + Z.of_nat f * frame_cost exec) by lia.
    split; [done|]. split; [by rewrite Hj', Hj1, Hj0, <- (assoc_L (++))|]. split; [congruence|]. split; [congruence|].
    split; [congruence|]. split; [lia|]. split; [by econstructor|]. intros ?; apply Hstop; lia.
  - exists 0%nat, k, x0. rewrite Z.mul_0_l, !Z.add_0_r, app_nil_r. repeat (split; [done || lia|]). split; [by constructor|].
    intros _. exists x. by rewrite Hgo.
Qed.


Lemma order_range (order : list Z) n : order ≡ₚ seqZ 0 n -> forall i, i ∈ order -> 0 <= i < n.
Proof. intros Hp i Hi. rewrite Hp in Hi. apply elem_of_seqZ in Hi. lia. Qed.

Lemma order_len (order : list Z) n : order ≡ₚ seqZ 0 n -> 0 <= n -> zlen order = n.
Proof. intros Hp Hn. unfold zlen. rewrite Hp, length_seqZ. lia. Qed.

(** What [init] computes before it runs a callback. *)
Definition kernel_schedule k : option (result KernelError SchedulePlan) :=
  match registry_resolve_dependencies (k_registry k) with
  | Err e => Some (Err e)
  | Ok deps => schedule_plan_build deps (map fst (k_registry k)) (map (fun '(_, s) => sub_access s) (k_registry k))
  end.

Lemma schedule_spec k :
  zlen (k_registry k) <= umax 64 ->
  exists r, kernel_schedule k = Some r /\
  match r with
  | Ok plan => exists deps, registry_resolve_dependencies (k_registry k) = Ok deps /\ deps_valid deps /\
      plan_order plan ≡ₚ seqZ 0 (zlen (k_registry k)) /\ deps_first deps (plan_order plan)
  | Err e =>
      (exists name sub dep, (name, sub) ∈ k_registry k /\ e = KernelError.UnknownDependency name dep /\
         dep ∈ sub_dependencies sub /\ ~ registered (k_registry k) dep) \/
      (exists deps, registry_resolve_dependencies (k_registry k) = Ok deps /\
         reports_cycle deps (map fst (k_registry k)) e)
  end.
Proof.
  intros Hlen. unfold kernel_schedule. destruct (registry_resolve_dependencies (k_registry k)) as [deps|e] eqn:Hd.
  - destruct (resolve_valid _ _ Hd) as [Hl Hv].
    destruct (schedule_plan_order deps (map fst (k_registry k)) (map (fun '(_, s) => sub_access s) (k_registry k)))
      as (r & -> & Hr); [done|unfold zlen in *; rewrite length_map; lia|unfold zlen in *; rewrite length_map; lia|lia|].
    exists r. split; [done|]. destruct r as [plan|e]; [|right; by exists deps].
    exists deps. rewrite <- Hl. split; [done|]. split; [done|]. split; apply Hr.
  - eexists. split; [done|]. left. unfold registry_resolve_dependencies in Hd.
    pose proof (resolve_entries_spec (k_registry k) (k_registry k)) as Hs. rewrite Hd in Hs. naive_solver.
Qed.

Lemma init_err A k x e :
  k_initialized k = false -> kernel_schedule k = Some (Err e) ->
  exists k', kernel_init A k x = Some (k', x, Err e) /\ k_shared k' = k_shared k /\ k_initialized k' = false /\
  k_registry k' = k_registry k /\ k_order k' = k_order k.
Proof.
  intros Hi. unfold kernel_schedule, kernel_init. rewrite Hi.
  destruct (registry_resolve_dependencies (k_registry k)) as [deps|e'].
  - simpl. intros ->. simpl. by eexists.
  - intros ?. simplify_eq. by eexists.
Qed.

(** A kernel that has been built and registered, but not initialised, and
    whose bus has no subscriber yet. *)
Record kernel_fresh k : Prop := {
  kf_init : k_initialized k = false;
  kf_bus : bus_repr (sh_bus (k_shared k)) [];
  kf_index : k_frame_index k = 0;
  kf_count : zlen (k_registry k) <= 2 ^ 32
}.

Lemma init_ok k x plan m :
  kernel_fresh k -> kernel_ok m k -> kernel_schedule k = Some (Ok plan) ->
  exists k' x', kernel_init alloc_all k x = Some (k', x', Ok tt) /\ kernel_ok (m + zlen (plan_order plan) * K) k' /\
  journal x' = journal x ++ map (fun i => CallInit (wrap 32 i) 0) (plan_order plan) /\
  k_initialized k' = true /\ k_order k' = plan_order plan /\ k_registry k' = k_registry k /\ k_frame_index k' = 0.
Proof.
  intros [Hi Hb Hfi Hc] [Hs Ht Hsub] Hp.
  destruct (schedule_spec k) as (r & Hr & Hpost); [unfold umax; lia|]. rewrite Hp in Hr. injection Hr as <-.
  destruct Hpost as (deps & Hd & Hv & Hperm & Hfirst). unfold kernel_schedule in Hp. rewrite Hd in Hp.
  unfold kernel_init. rewrite Hi, Hd. simpl. rewrite Hp. cbn [mbind option_bind].
  destruct (add_subscribers_ok (length (k_registry k)) _ [] Hb) as (b1 & -> & Hb1); [unfold zlen in *; simpl; lia|].
  cbn [mbind option_bind]. destruct (set_debug_edges_ok b1 _ deps Hv Hb1) as (b2 & -> & Hb2 & _). cbn [mbind option_bind].
  match goal with |- context [run_callbacks sub_init ?k1 0 (plan_order plan) ?s1 x] =>
    destruct (run_callbacks_ok CallInit sub_init k1 0 (plan_order plan) s1 x m) as (s' & x' & -> & Hs' & Hj) end.
  - intros name sub Hin. apply (Hsub name sub). done.
  - simpl. by apply order_range.
  - destruct Hs. split; simpl; [by eexists|done..].
  - cbn [mbind option_bind]. do 2 eexists. split; [done|]. split; [by split|]. done.
Qed.

Lemma shutdown_ok k x m :
  kernel_ok m k -> k_initialized k = true -> (forall i, i ∈ k_order k -> 0 <= i < zlen (k_registry k)) ->
  exists k' x', kernel_shutdown k x = Some (k', x') /\ kernel_ok (m + zlen (k_order k) * K) k' /\
  journal x' = journal x ++ map (fun i => CallShutdown (wrap 32 i) 0) (rev (k_order k)) /\
  k_initialized k' = false /\ k_order k' = [] /\ k_waves k' = [] /\ k_frame_index k' = k_frame_index k.
Proof.
  intros [Hs Ht Hsub] Hi Hr. unfold kernel_shutdown. rewrite Hi. simpl.
  destruct (run_callbacks_ok CallShutdown sub_shutdown k 0 (rev (k_order k)) (k_shared k) x m) as (s' & x' & -> & Hs' & Hj).
  - intros name sub Hin. apply (Hsub name sub Hin).
  - intros i Hin. apply Hr. by apply list_elem_of_In, in_rev, list_elem_of_In in Hin.
  - done.
  - cbn [mbind option_bind]. do 2 eexists. split; [done|].
    assert (zlen (rev (k_order k)) = zlen (k_order k)) as He by (unfold zlen; by rewrite length_rev).
    rewrite He in Hs'. split; [by split|]. done.
Qed.
End Lifecycle.

(** A kernel as [with_tracer] builds it, and registration on it. *)
Section Building.
Context {P V X : Type} (journal : X -> list call) (K : Z).
Implicit Types (k : Kernel P V X) (sub : Subsystem P V X).

Lemma with_tracer_ok sys t k :
  tracer_ok t -> kernel_with_tracer (P := P) (V := V) (X := X) sys t = Some k ->
  kernel_fresh k /\ kernel_ok journal K 0 k /\ k_registry k = [].
Proof.
  unfold kernel_with_tracer. intros Ht.
  destruct (bus_try_new alloc_all) as [b|] eqn:Hb; [|done]. cbn [deferred_try_with_capacity alloc_all].
  destruct (arena_try_new sys DEFAULT_ARENA_CAPACITY) as [a|]; [|done]. simpl. intros [= <-].
  assert (bus_repr b []) as Hr by (destruct (order_start _ _ Hb); done).
  split; [split; simpl; try done; zlen_nil_simp; lia|]. split; [|done].
  split; simpl; [|done|by intros ? ? ?%not_elem_of_nil].
  split; simpl; [by exists []|exists ∅, ∅, 0; split; [apply world_repr_new|lia]| |done].
  zlen_nil_simp. split; [unfold DEFAULT_DEFERRED_COMMAND_CAPACITY; lia|constructor].
Qed.

Lemma register_ok m k sub :
  kernel_fresh k -> kernel_ok journal K m k -> subsystem_ok journal K sub ->
  zlen (k_registry k) < 2 ^ 32 ->
  let '(k', r) := kernel_register k sub in
  kernel_fresh k' /\ kernel_ok journal K m k' /\
  (if bool_decide (sub_name sub ∈ map fst (k_registry k))
   then r = Err (KernelError.DuplicateName (sub_name sub)) /\ k_registry k' = k_registry k
   else r = Ok tt /\ k_registry k' = k_registry k ++ [(sub_name sub, sub)]).
Proof.
  intros [? ? ? ?] [? ? Hs] Hsub Hlen. unfold kernel_register, registry_register.
  destruct (existsb _ (k_registry k)) eqn:He.
  - apply existsb_exists in He as ([n s] & Hin & ->%bool_decide_eq_true).
    rewrite bool_decide_eq_true_2 by (apply list_elem_of_In, in_map_iff; by exists (sub_name sub, s)).
    split; [by split|]. split; [by split|done].
  - rewrite bool_decide_eq_false_2.
    + split; [split; simpl; try done; zsimp; lia|]. split; [|done]. split; simpl; try done.
      intros name s [Hin|Hin]%elem_of_app; [by eapply Hs|]. apply list_elem_of_singleton in Hin. by simplify_eq.
    + intros Hin. apply not_true_iff_false in He. apply He. apply existsb_exists.
      apply list_elem_of_In, in_map_iff in Hin as ([n s] & <- & Hin). exists (n, s). split; [done|]. by apply bool_decide_eq_true.
Qed.
End Building.

(** The calls of one life: initialisation in plan order, [f] frames of ticks,
    shutdown in reverse. *)
Definition lifecycle_calls (order : list Z) (f : nat) : list call :=
  map (fun i => CallInit (wrap 32 i) 0) order ++
  concat (replicate f (map (fun i => CallTick (wrap 32 i) FIXED_DT_NS) order)) ++
  map (fun i => CallShutdown (wrap 32 i) 0) (rev order).

(** C7: the kernel's life.  Take a freshly built kernel whose dependencies
    resolve to a plan and whose subsystems keep the shared state sound and
    log their calls.  Then [init], [run_until] and [shutdown] run without a
    panic; the calls made are exactly: every subsystem once, dependencies
    first, for [init]; that order again with the fixed time step in each of
    the [f] frames run, where [f] falls short of the budget only when the
    predicate stopped it; and the reverse order for [shutdown].  Every
    frame ([frame_done]) hands each subsystem the state the one before it left,
    starting from a reset arena, and then plays the commands left in the
    deferred buffer back on the world in the order they were deferred: the
    world at the frame's end is the world after the last tick with exactly
    those spawns and despawns done, except those a refused allocation stopped,
    and the buffer is empty.  The frame counter counts the frames, and the
    kernel ends uninitialised. *)
Theorem kernel_lifecycle {P V X} (journal : X -> list call) K As clock keep frames (k : Kernel P V X) x plan m :
  kernel_fresh k -> kernel_ok journal K m k -> kernel_schedule k = Some (Ok plan) -> 0 <= K -> 0 <= frames <= umax 64 ->
  (forall x, journal (keep x).1 = journal x) ->
  m + zlen (k_registry k) * K + frames * frame_cost K (plan_order plan) < 2 ^ 32 ->
  exists k1 x1 f k2 x2 k3 x3,
    kernel_init alloc_all k x = Some (k1, x1, Ok tt) /\
    kernel_run_until As clock keep frames k1 x1 = Some (k2, x2, Ok tt) /\
    kernel_shutdown k2 x2 = Some (k3, x3) /\
    journal x3 = journal x ++ lifecycle_calls (plan_order plan) f /\
    plan_order plan ≡ₚ seqZ 0 (zlen (k_registry k)) /\
    (exists deps, registry_resolve_dependencies (k_registry k) = Ok deps /\ deps_first deps (plan_order plan)) /\
    (Z.of_nat f = frames \/ Z.of_nat f < frames /\ exists x0, (keep x0).2 = false) /\
    frames_done As keep (plan_order plan) f k1 x1 k2 x2 /\
    k_frame_index k3 = Z.of_nat f /\ k_initialized k3 = false /\ k_order k3 = [].
Proof.
  intros Hf Hk Hp HK Hfr Hkeep Hm. pose proof (kf_count _ Hf) as Hcount.
  destruct (schedule_spec k) as (r & Hr & Hpost); [unfold umax; lia|]. rewrite Hp in Hr. injection Hr as <-.
  destruct Hpost as (deps & Hd & _ & Hperm & Hfirst). pose proof (order_len _ _ Hperm (zlen_nonneg _)) as Hl.
  destruct (init_ok journal K k x plan m Hf Hk Hp) as (k1 & x1 & Hi & Hk1 & Hj1 & Hi1 & Ho1 & Hr1 & Hf1).
  rewrite Hl in Hk1. assert (forall i, i ∈ plan_order plan -> 0 <= i < zlen (k_registry k1)) as Hrange
    by (rewrite Hr1; by apply order_range).
  destruct (run_frames_ok journal K As clock keep (plan_order plan) (Z.to_nat frames) k1 x1 _ Hk1 Hrange HK)
    as (f & k2 & x2 & Hrun & Hff & Hk2 & Hj2 & Hr2 & Ho2 & Hi2 & Hfi2 & Hd2 & Hstop); [rewrite Z2Nat.id by lia; lia|done|lia|lia|].
  destruct (shutdown_ok journal K k2 x2 _ Hk2) as (k3 & x3 & Hs & _ & Hj3 & Hi3 & Ho3 & _ & Hfi3); [congruence| |].
  { rewrite Hr2, Ho2, Ho1. exact Hrange. }
  exists k1, x1, f, k2, x2, k3, x3. split; [done|]. split.
  { unfold kernel_run_until. rewrite Hi1. simpl. destruct (Z.eqb_spec frames 0) as [->|Hne].
    - simpl in Hrun. by simplify_eq.
    - rewrite Ho1, Hrun. done. }
  split; [done|]. split.
  { unfold lifecycle_calls. rewrite Hj3, Hj2, Hj1, Ho2, Ho1. by rewrite <- !(assoc_L (++)). }
  split; [done|]. split; [by exists deps|]. split.
  { destruct (decide (f = Z.to_nat frames)); [left; lia|right]. split; [lia|]. apply Hstop. lia. }
  split; [done|]. split; [lia|done].
Qed.

(** C19: startup failures and calls out of order.  On an uninitialised kernel
    [init] either has a plan, or fails before any callback and before touching
    the bus: with [UnknownDependency] naming a dependency nobody registered,
    or with [DependencyCycle] naming a genuine cycle.  [run_until] before
    [init] is [NotInitialized]; [init] on a running kernel and [shutdown] on a
    stopped one do nothing. *)
Theorem kernel_startup_errors {P V X} A As clock keep frames (k : Kernel P V X) x :
  zlen (k_registry k) <= umax 64 ->
  (if k_initialized k then kernel_init A k x = Some (k, x, Ok tt)
   else
     kernel_run_until As clock keep frames k x = Some (k, x, Err KernelError.NotInitialized) /\
     kernel_shutdown k x = Some (k, x) /\
     ((exists plan, kernel_schedule k = Some (Ok plan)) \/
      exists k' e, kernel_init A k x = Some (k', x, Err e) /\
        k_shared k' = k_shared k /\ k_initialized k' = false /\ k_registry k' = k_registry k /\ k_order k' = k_order k /\
        kernel_error_is_configuration e = true /\
        ((exists name sub dep, (name, sub) ∈ k_registry k /\ e = KernelError.UnknownDependency name dep /\
            dep ∈ sub_dependencies sub /\ dep ∉ map fst (k_registry k)) \/
         (exists deps, registry_resolve_dependencies (k_registry k) = Ok deps /\
            reports_cycle deps (map fst (k_registry k)) e)))).
Proof.
  intros Hlen. destruct (k_initialized k) eqn:Hi; [unfold kernel_init; by rewrite Hi|].
  unfold kernel_run_until, kernel_shutdown. rewrite Hi. split; [done|]. split; [done|].
  destruct (schedule_spec k Hlen) as ([plan|e] & Hs & Hpost); [left; by exists plan|right].
  destruct (init_err A k x e Hi Hs) as (k' & ? & ? & ? & ? & ?). exists k', e. repeat (split; [done|]). split; [|done].
  destruct Hpost as [(? & ? & ? & ? & -> & ?)|(deps & ? & walk & ? & ? & ? & ->)]; done.
Qed.

(** A kernel with two logging subsystems, which also defer a spawn in every
    tick: [b] depends on [a] and is registered first. *)
Definition log_subsystem (name : string) (deps : list string) : Subsystem Z Z (list call) :=
  mkSubsystem name deps access_exclusive
    (fun c x => Some (kc_shared c, x ++ [CallInit (kc_id c) (kc_dt_ns c)]))
    (fun c _ x => Some (kc_shared (ctx_defer_spawn alloc_all 0 c).1, x ++ [CallTick (kc_id c) (kc_dt_ns c)]))
    (fun c x => Some (kc_shared c, x ++ [CallShutdown (kc_id c) (kc_dt_ns c)])).

Definition demo_kernel (deps : list string) : option (Kernel Z Z (list call)) :=
  t ← tracer_new 2 100 0;
  k ← kernel_with_tracer (fun _ => Some 4096) t;
  let k := (kernel_register k (log_subsystem "b" deps)).1 in
  Some (kernel_register k (log_subsystem "a" [])).1.

(** Deferring a spawn keeps the shared state sound. *)
Lemma defer_spawn_ok {P V} A grown (c : KernelContext P V) m :
  shared_ok m (kc_shared c) -> shared_ok m (kc_shared (ctx_defer_spawn A grown c).1).
Proof.
  intros Hs. pose proof Hs as [Hb Hw [Hl Hc] Hcap]. unfold ctx_defer_spawn, deferred_try_spawn, deferred_push.
  destruct (Z.leb_spec (dc_capacity (sh_deferred (kc_shared c))) (zlen (dc_commands (sh_deferred (kc_shared c))))).
  { split; simpl; [done|done|by split|done]. }
  destruct (_ && _); split; simpl; try done. zsimp. split; [lia|]. apply Forall_app. by repeat constructor.
Qed.

Lemma log_subsystem_ok name deps : subsystem_ok (fun x => x) 0 (log_subsystem name deps).
Proof.
  split; intros; intros c x m Hs; do 2 eexists; rewrite Z.add_0_r; split; try done; split; try done.
  by apply defer_spawn_ok.
Qed.

Lemma demo_kernel_ok deps k :
  demo_kernel deps = Some k -> kernel_fresh k /\ kernel_ok (fun x => x) 0 0 k.
Proof.
  unfold demo_kernel. destruct (tracer_new 2 100 0) as [t|] eqn:Ht; [|done]. cbn [mbind option_bind].
  destruct (kernel_with_tracer _ t) as [k0|] eqn:Hk; [|done]. cbn [mbind option_bind]. intros [= <-].
  destruct (tracer_new_repr 2 100 0 t ltac:(lia) Ht) as (cap & ? & _ & ? & _).
  destruct (with_tracer_ok (fun x => x) 0 (fun _ => Some 4096) t k0) as (Hf & Ho & Hr); [by eexists _, _|done|].
  pose proof (register_ok _ 0 0 k0 (log_subsystem "b" deps) Hf Ho (log_subsystem_ok _ _)) as H1.
  destruct (kernel_register k0 _) as [k1 r1]. simpl in *.
  destruct H1 as (Hf1 & Ho1 & Hr1); [rewrite Hr; zlen_nil_simp; lia|]. rewrite Hr in Hr1. simpl in Hr1.
  destruct Hr1 as [_ Hr1].
  pose proof (register_ok _ 0 0 k1 (log_subsystem "a" []) Hf1 Ho1 (log_subsystem_ok _ _)) as H2.
  destruct (kernel_register k1 _) as [k2 r2]. simpl in *.
  destruct H2 as (? & ? & _); [rewrite Hr1; unfold zlen; simpl; lia|done].
Qed.

Lemma kernel_lifecycle_witness :
  exists k k1 x1 f k2 x2 k3 x3,
    demo_kernel ["a"] = Some k /\
    kernel_init alloc_all k [] = Some (k1, x1, Ok tt) /\
    kernel_run_until (fun _ _ => alloc_all) (mkClock (fun _ _ => 5) (fun i => i)) (fun x => (x, true)) 2 k1 x1
      = Some (k2, x2, Ok tt) /\
    kernel_shutdown k2 x2 = Some (k3, x3) /\ x3 = lifecycle_calls [1; 0] f /\ (f = 2)%nat.
Proof.
  destruct (demo_kernel ["a"]) as [k|] eqn:Hk; [|vm_compute in Hk; discriminate Hk].
  destruct (demo_kernel_ok _ _ Hk) as [Hf Ho].
  assert (zlen (k_registry k) = 2) as Hl by (vm_compute in Hk; injection Hk as <-; reflexivity).
  assert (kernel_schedule k = Some (Ok (mkSchedulePlan [1; 0] [[1]; [0]]))) as Hs
    by (vm_compute in Hk; injection Hk as <-; reflexivity).
  destruct (kernel_lifecycle (fun x => x) 0 (fun _ _ => alloc_all) (mkClock (fun _ _ => 5) (fun i => i)) (fun x => (x, true)) 2 k []
    (mkSchedulePlan [1; 0] [[1]; [0]]) 0 Hf Ho Hs)
    as (k1 & x1 & f & k2 & x2 & k3 & x3 & H1 & H2 & H3 & H4 & _ & _ & H5 & _).
  - reflexivity.
  - unfold umax; lia.
  - reflexivity.
  - rewrite Hl. reflexivity.
  - exists k, k1, x1, f, k2, x2, k3, x3. split; [reflexivity|]. split; [exact H1|]. split; [exact H2|]. split; [exact H3|].
    split; [exact H4|]. destruct H5 as [H5|[_ [x0 H5]]]; [lia|discriminate H5].
Defined.

(** Two frames of two subsystems: the four deferred spawns are in the world. *)
Example lifecycle_spawns :
  (k ← demo_kernel ["a"];
   r ← kernel_init alloc_all k []; let '(k, x, _) := r in
   r ← kernel_run_until (fun _ _ => alloc_all) (mkClock (fun _ _ => 5) (fun i => i)) (fun x => (x, true)) 2 k x;
   let '(k, _, _) := r in
   Some (entities_iter (w_entities (sh_world (k_shared k))))) =
  Some [mkEntity 0 0; mkEntity 1 0; mkEntity 2 0; mkEntity 3 0].
Proof. vm_compute. reflexivity. Qed.

Lemma kernel_startup_errors_witness :
  exists k, demo_kernel ["c"] = Some k /\ kernel_shutdown k [] = Some (k, []) /\
  exists k', kernel_init alloc_all k [] = Some (k', [], Err (KernelError.UnknownDependency "b" "c")) /\
  k_initialized k' = false.
Proof.
  destruct (demo_kernel ["c"]) as [k|] eqn:Hk; [|vm_compute in Hk; discriminate Hk].
  assert (zlen (k_registry k) <= umax 64) as Hl by (vm_compute in Hk; injection Hk as <-; discriminate).
  pose proof (kernel_startup_errors alloc_all (fun _ _ => alloc_all) (mkClock (fun _ _ => 5) (fun i => i))
    (fun x => (x, true)) 2 k [] Hl) as H.
  assert (k_initialized k = false) as Hi by (vm_compute in Hk; injection Hk as <-; reflexivity).
  assert (kernel_schedule k = Some (Err (KernelError.UnknownDependency "b" "c"))) as Hs
    by (vm_compute in Hk; injection Hk as <-; reflexivity).
  rewrite Hi in H. destruct H as (_ & Hsd & H). exists k. split; [reflexivity|]. split; [exact Hsd|].
  destruct H as [[plan H]|(k' & e & H1 & _ & H2 & _)].
  - rewrite Hs in H. discriminate H.
  - exists k'. destruct (init_err alloc_all k [] _ Hi Hs) as (k2 & H3 & _). rewrite H1 in H3. injection H3 as -> ->.
    split; [exact H1|exact H2].
Defined.

(** Starting a kernel a second time, after [shutdown], registers every
    subsystem's inbox again: one subsystem ends with two inboxes. *)
Example reinit_duplicates_inboxes :
  (k ← demo_kernel [];
   r ← kernel_init alloc_all k []; let '(k, x, _) := r in
   '(k, x) ← kernel_shutdown k x;
   r ← kernel_init alloc_all k x; let '(k, x, _) := r in
   Some (zlen (k_registry k), zlen (inboxes (sh_bus (k_shared k))))) = Some (2, 4).
Proof. vm_compute. reflexivity. Qed.
