(* ===== verification/Wire.v ===== *)
(** The packet format of [kernel/sync.rs]: the 30-byte header, its two
    decoders' common part, and the authentication wrapper.  Bytes are [Z]s in
    [0, 255].  The MAC itself is third-party code: a parameter. *)

From stdpp Require Import sets.
From S2P Require Import Prelude.

Module SyncKind.
Inductive SyncKind := Snapshot | Delta | Event.
End SyncKind.
Abbreviation SyncKind := SyncKind.SyncKind.
#[global] Instance sync_kind_eq_dec : EqDecision SyncKind.
Proof. solve_decision. Defined.

Record SyncPacket := mkSyncPacket {
  sp_sequence : Z;
  sp_ack : Z;
  sp_kind : SyncKind;
  sp_key : Z;
  sp_payload : list Z
}.
#[global] Instance sync_packet_eq_dec : EqDecision SyncPacket.
Proof. solve_decision. Defined.

Module SyncError.
Inductive SyncError :=
| EmptyPayload
| PayloadTooLarge
| Backpressure
| AllocationFailed
| InvalidPacket
| ReceiveTooLarge
| PersistenceFailed
| InvalidConfig
| NoSession
| AuthenticationFailed.
End SyncError.
Abbreviation SyncError := SyncError.SyncError.

Module WalError.
Inductive WalError :=
| Io
| InvalidRecord
| RecordTooLarge
| TooManyRecords
| AllocationFailed.
End WalError.
Abbreviation WalError := WalError.WalError.

(** ** Little-endian integers and slices *)

(** [to_le_bytes] on [n] bytes. *)
Fixpoint to_le_bytes (n : nat) (z : Z) : list Z :=
  match n with O => [] | S n => z mod 256 :: to_le_bytes n (z / 256) end.

Fixpoint from_le_bytes (l : list Z) : Z :=
  match l with [] => 0 | b :: l => b + 256 * from_le_bytes l end.

(** [l[a..b]]; the callers have tested the length. *)
Definition slice (a b : nat) (l : list Z) : list Z := take (b - a) (drop a l).

Definition kind_byte (k : SyncKind) : Z :=
  match k with SyncKind.Snapshot => 0 | SyncKind.Delta => 1 | SyncKind.Event => 2 end.

Definition byte_kind (b : Z) : option SyncKind :=
  match b with
  | 0 => Some SyncKind.Snapshot
  | 1 => Some SyncKind.Delta
  | 2 => Some SyncKind.Event
  | _ => None
  end.

(** ** Encoding *)
Definition packet_header (p : SyncPacket) : list Z :=
  [1; kind_byte (sp_kind p)] ++ to_le_bytes 8 (sp_sequence p) ++ to_le_bytes 8 (sp_ack p) ++ to_le_bytes 8 (sp_key p) ++
  to_le_bytes 4 (zlen (sp_payload p)).

Definition encode_packet (A : alloc) (p : SyncPacket) : result SyncError (list Z) :=
  match sp_payload p with
  | [] => Err SyncError.EmptyPayload
  | _ =>
      if U32_MAX <? zlen (sp_payload p) then Err SyncError.PayloadTooLarge
      else
        match checked_add 64 30 (zlen (sp_payload p)) with
        | None => Err SyncError.PayloadTooLarge
        | Some _ => if A 0%nat then Ok (packet_header p ++ sp_payload p) else Err SyncError.AllocationFailed
        end
  end.

Arguments packet_header : simpl never.

(** ** Decoding, as the log does it *)
Definition decode_packet (A : alloc) (bytes : list Z) (max_payload_bytes : Z) : result WalError SyncPacket :=
  if (zlen bytes <? 30) || negb (bool_decide (bytes !! 0%nat = Some 1)) then Err WalError.InvalidRecord
  else
    match bytes !! 1%nat ≫= byte_kind with
    | None => Err WalError.InvalidRecord
    | Some kind =>
        let sequence := from_le_bytes (slice 2 10 bytes) in
        let ack := from_le_bytes (slice 10 18 bytes) in
        let key := from_le_bytes (slice 18 26 bytes) in
        let len := from_le_bytes (slice 26 30 bytes) in
        match checked_add 64 30 len with
        | None => Err WalError.RecordTooLarge
        | Some total =>
            if (len =? 0) || (max_payload_bytes <? len) || negb (total =? zlen bytes) then Err WalError.RecordTooLarge
            else if A 0%nat then Ok (mkSyncPacket sequence ack kind key (drop 30 bytes))
            else Err WalError.AllocationFailed
        end
    end.

(** ** Authentication *)

(** [SyncAuthenticator]: [T] is the implementing type. *)
Class SyncAuthenticator (T : Type) := authentication_tag : T -> list Z -> list Z.

Class SyncAuthenticatorLaws (T : Type) `{SyncAuthenticator T} : Prop := {
  tag_length a m : length (authentication_tag a m) = 32%nat;
  tag_bytes a m : Forall (is_u 8) (authentication_tag a m)
}.

(** The default [verify_tag]. *)
Fixpoint tag_difference (actual expected : list Z) (different : Z) : Z :=
  match actual, expected with
  | l :: actual, r :: expected => tag_difference actual expected (Z.lor different (Z.lxor l r))
  | _, _ => different
  end.

Definition verify_tag `{SyncAuthenticator T} (a : T) (message expected : list Z) : bool :=
  tag_difference (authentication_tag a message) expected 0 =? 0.

(** [HmacSha256Authenticator]; [hmac key message] is the HMAC-SHA256 of the
    [hmac] crate. *)
Record HmacSha256Authenticator := mkHmac { hmac_key : list Z }.

Definition hmac_new (A : alloc) (key : list Z) : result SyncError HmacSha256Authenticator :=
  match key with
  | [] => Err SyncError.AuthenticationFailed
  | _ => if A 0%nat then Ok (mkHmac key) else Err SyncError.AllocationFailed
  end.

Definition hmac_authentication_tag (hmac : list Z -> list Z -> list Z) (a : HmacSha256Authenticator) (m : list Z) : list Z :=
  hmac (hmac_key a) m.

Definition encode_authenticated_packet `{SyncAuthenticator T} (A : alloc) (p : SyncPacket) (nonce : list Z) (a : T) :
    result SyncError (list Z) :=
  let? encoded := encode_packet A p in
  match checked_add 64 16 (zlen encoded) with
  | None => Err SyncError.PayloadTooLarge
  | Some signed_len =>
      match checked_add 64 signed_len 32 with
      | None => Err SyncError.PayloadTooLarge
      | Some _ =>
          if negb (A 1%nat) then Err SyncError.AllocationFailed
          else
            let signed := nonce ++ encoded in
            let tag := authentication_tag a signed in
            if negb (A 2%nat) then Err SyncError.AllocationFailed else Ok (signed ++ tag)
      end
  end.

(** ** Lemmas *)
Lemma length_to_le n z : length (to_le_bytes n z) = n.
Proof. revert z. induction n; intros; simpl; [done|]. by rewrite IHn. Qed.

Lemma to_le_bytes_u8 n z : Forall (is_u 8) (to_le_bytes n z).
Proof. revert z. induction n; intros; constructor; [apply Z.mod_pos_bound; lia|done]. Qed.

Lemma from_to_le n z : 0 <= z < 2 ^ (8 * Z.of_nat n) -> from_le_bytes (to_le_bytes n z) = z.
Proof.
  revert z. induction n as [|n IH]; intros z Hz; cbn [to_le_bytes from_le_bytes].
  - change (2 ^ (8 * Z.of_nat 0)) with 1 in Hz. lia.
  - rewrite IH; [pose proof (Z.div_mod z 256); lia|].
    replace (8 * Z.of_nat (S n)) with (8 * Z.of_nat n + 8) in Hz by lia. rewrite Z.pow_add_r in Hz by lia.
    split; [apply Z.div_pos; lia|apply Z.div_lt_upper_bound; lia].
Qed.

Lemma to_le_wrap n z : to_le_bytes n (wrap (8 * Z.of_nat n) z) = to_le_bytes n z.
Proof.
  revert z. induction n as [|n IH]; intros z; [done|]. cbn [to_le_bytes]. unfold wrap.
  replace (2 ^ (8 * Z.of_nat (S n))) with (256 * 2 ^ (8 * Z.of_nat n)).
  2: { replace (8 * Z.of_nat (S n)) with (8 + 8 * Z.of_nat n) by lia. rewrite Z.pow_add_r by lia. done. }
  assert (0 < 2 ^ (8 * Z.of_nat n)) by (apply Z.pow_pos_nonneg; lia).
  rewrite Z.rem_mul_r by lia. f_equal.
  - rewrite (Z.mul_comm 256), Z.mod_add by lia. by rewrite Z.mod_mod by lia.
  - rewrite <- (IH (z / 256)). unfold wrap. f_equal.
    rewrite (Z.mul_comm 256), Z.div_add by lia. rewrite Z.div_small; [done|].
    apply Z.mod_pos_bound. lia.
Qed.

Lemma from_le_range l : Forall (is_u 8) l -> 0 <= from_le_bytes l < 2 ^ (8 * zlen l).
Proof.
  induction 1 as [|b l Hb _ IH]; cbn [from_le_bytes]; [done|]. zsimp.
  replace (8 * (zlen l + 1)) with (8 * zlen l + 8) by lia. rewrite Z.pow_add_r by (unfold zlen; lia).
  unfold is_u in Hb. lia.
Qed.

Lemma to_from_le n l : Forall (is_u 8) l -> length l = n -> to_le_bytes n (from_le_bytes l) = l.
Proof.
  revert l. induction n as [|n IH]; intros [|b l] Hl; try done. intros [= Hn].
  inversion_clear Hl as [|? ? Hb Hl']. cbn [to_le_bytes from_le_bytes]. unfold is_u in Hb.
  replace (b + 256 * from_le_bytes l) with (b + from_le_bytes l * 256) by lia.
  rewrite Z_mod_plus_full, Z.mod_small, Z.div_add, (Z.div_small b) by lia. f_equal. by apply IH.
Qed.

Lemma slice_drop a b l : (a <= b)%nat -> drop a l = slice a b l ++ drop b l.
Proof. intros. unfold slice. rewrite <- (take_drop (b - a) (drop a l)) at 1. rewrite drop_drop. by replace (a + (b - a))%nat with b by lia. Qed.

Lemma length_slice a b l : (a <= b)%nat -> (b <= length l)%nat -> length (slice a b l) = (b - a)%nat.
Proof. intros. unfold slice. rewrite length_take, length_drop. lia. Qed.

Lemma slice_u8 a b l : Forall (is_u 8) l -> Forall (is_u 8) (slice a b l).
Proof. intros. unfold slice. by apply Forall_take, Forall_drop. Qed.

Lemma byte_kind_spec b k : byte_kind b = Some k <-> b = kind_byte k.
Proof.
  split; [|by intros ->; destruct k].
  unfold byte_kind. destruct b as [|[[]|[]|]|]; try done; by intros [= <-].
Qed.

(** A packet whose fields fit their wire width. *)
Record packet_ok (p : SyncPacket) : Prop := {
  po_sequence : is_u 64 (sp_sequence p);
  po_ack : is_u 64 (sp_ack p);
  po_key : is_u 64 (sp_key p);
  po_payload : Forall (is_u 8) (sp_payload p);
  po_len : 0 < zlen (sp_payload p) <= U32_MAX
}.

Lemma length_header p : length (packet_header p) = 30%nat.
Proof. unfold packet_header. by rewrite !length_app, !length_to_le. Qed.

Lemma encode_spec A p :
  encode_packet A p =
    if zlen (sp_payload p) =? 0 then Err SyncError.EmptyPayload
    else if U32_MAX <? zlen (sp_payload p) then Err SyncError.PayloadTooLarge
    else if A 0%nat then Ok (packet_header p ++ sp_payload p) else Err SyncError.AllocationFailed.
Proof.
  unfold encode_packet. destruct (sp_payload p) as [|b l] eqn:Hp; [done|]. rewrite <- Hp.
  destruct (Z.eqb_spec (zlen (sp_payload p)) 0) as [He|]; [rewrite Hp in He; unfold zlen in He; simpl in He; lia|].
  destruct (Z.ltb_spec U32_MAX (zlen (sp_payload p))); [done|].
  by rewrite checked_add_ok by (unfold U32_MAX, umax in *; lia).
Qed.

Lemma encode_Ok A p bytes : encode_packet A p = Ok bytes -> bytes = packet_header p ++ sp_payload p /\ 0 < zlen (sp_payload p) <= U32_MAX.
Proof.
  rewrite encode_spec. pose proof (zlen_nonneg (sp_payload p)).
  destruct (Z.eqb_spec (zlen (sp_payload p)) 0); [done|]. destruct (Z.ltb_spec U32_MAX (zlen (sp_payload p))); [done|].
  destruct (A 0%nat); [|done]. intros [= <-]. split; [done|lia].
Qed.

Lemma encode_ok p : packet_ok p -> encode_packet alloc_all p = Ok (packet_header p ++ sp_payload p).
Proof.
  intros []. rewrite encode_spec. destruct (Z.eqb_spec (zlen (sp_payload p)) 0); [lia|].
  by destruct (Z.ltb_spec U32_MAX (zlen (sp_payload p))); [lia|].
Qed.

(** The header fields, read back from any bytes of at least 30. *)
Lemma header_fields bytes :
  Forall (is_u 8) bytes -> (30 <= length bytes)%nat -> bytes !! 0%nat = Some 1 ->
  forall k, bytes !! 1%nat = Some (kind_byte k) ->
  from_le_bytes (slice 26 30 bytes) = zlen (drop 30 bytes) ->
  bytes = packet_header (mkSyncPacket (from_le_bytes (slice 2 10 bytes)) (from_le_bytes (slice 10 18 bytes)) k
            (from_le_bytes (slice 18 26 bytes)) (drop 30 bytes)) ++ drop 30 bytes.
Proof.
  intros Hu Hl H0 k H1 Hn. unfold packet_header. simpl sp_kind. simpl sp_sequence. simpl sp_ack. simpl sp_key. simpl sp_payload.
  rewrite <- Hn, !to_from_le by (try apply slice_u8; try apply length_slice; done || lia).
  rewrite <- !(assoc_L (++)), <- (slice_drop 26 30), <- (slice_drop 18 26), <- (slice_drop 10 18), <- (slice_drop 2 10) by lia.
  destruct bytes as [|b0 [|b1 bytes]]; try done. injection H0 as ->. injection H1 as ->. done.
Qed.

Lemma slice_here (l r : list Z) n : length l = n -> slice 0 n (l ++ r) = l.
Proof. intros <-. unfold slice. rewrite drop_0, Nat.sub_0_r. apply take_app_length. Qed.

Lemma slice_skip (l r : list Z) a b n : length l = n -> (n <= a)%nat -> slice a b (l ++ r) = slice (a - n) (b - n) r.
Proof. intros <- H. unfold slice. rewrite drop_app_ge by done. f_equal. lia. Qed.

Ltac slices :=
  repeat (rewrite (slice_skip (to_le_bytes 8 _) _ _ _ 8) by (apply length_to_le || lia); simpl Nat.sub);
  rewrite slice_here by apply length_to_le.

(** Decoding what the encoder wrote. *)
Lemma decode_header A p max :
  packet_ok p ->
  decode_packet A (packet_header p ++ sp_payload p) max =
    if max <? zlen (sp_payload p) then Err WalError.RecordTooLarge
    else if A 0%nat then Ok p else Err WalError.AllocationFailed.
Proof.
  intros []. set (bytes := packet_header p ++ sp_payload p).
  assert (zlen bytes = 30 + zlen (sp_payload p)) as Hl
    by (unfold bytes, zlen; rewrite length_app, length_header; lia).
  assert (slice 2 10 bytes = to_le_bytes 8 (sp_sequence p) /\ slice 10 18 bytes = to_le_bytes 8 (sp_ack p) /\
          slice 18 26 bytes = to_le_bytes 8 (sp_key p) /\ slice 26 30 bytes = to_le_bytes 4 (zlen (sp_payload p)))
    as (H2 & H10 & H18 & H26).
  { unfold bytes, packet_header. rewrite <- !(assoc_L (++)).
    repeat rewrite (slice_skip [1; kind_byte (sp_kind p)] _ _ _ 2) by (done || lia). simpl Nat.sub.
    split; [|split; [|split]]; slices; done. }
  unfold decode_packet. rewrite Hl, H2, H10, H18, H26.
  destruct (Z.ltb_spec (30 + zlen (sp_payload p)) 30); [lia|].
  rewrite bool_decide_eq_true_2 by done. cbn [orb negb].
  replace (bytes !! 1%nat) with (Some (kind_byte (sp_kind p))) by done. cbn [mbind option_bind].
  rewrite (proj2 (byte_kind_spec _ (sp_kind p)) eq_refl).
  unfold is_u, U32_MAX in *.
  rewrite !from_to_le by lia. rewrite checked_add_ok by (unfold umax; lia).
  rewrite Z.eqb_refl. destruct (Z.eqb_spec (zlen (sp_payload p)) 0); [lia|]. cbn [orb negb]. rewrite ?orb_false_r.
  destruct (max <? zlen (sp_payload p)); [done|].
  replace (drop 30 bytes) with (sp_payload p); [by destruct p|].
  unfold bytes. rewrite drop_app_length'; [done|by rewrite length_header].
Qed.

(** What the decoder accepts is what the encoder writes. *)
Lemma decode_inv A bytes max p :
  Forall (is_u 8) bytes -> decode_packet A bytes max = Ok p ->
  packet_ok p /\ zlen (sp_payload p) <= max /\ bytes = packet_header p ++ sp_payload p.
Proof.
  intros Hu. unfold decode_packet.
  destruct (Z.ltb_spec (zlen bytes) 30); [done|]. cbn [orb negb].
  case_bool_decide as H0; [|done]. simpl.
  destruct (bytes !! 1%nat) as [b1|] eqn:H1; [|done]. cbn [mbind option_bind].
  destruct (byte_kind b1) as [k|] eqn:Hk; [|done]. apply byte_kind_spec in Hk as ->.
  destruct (checked_add 64 30 _) as [total|] eqn:Hc; [|done]. apply checked_add_Some in Hc as [-> _].
  destruct (Z.eqb_spec (from_le_bytes (slice 26 30 bytes)) 0); [done|].
  destruct (Z.ltb_spec max (from_le_bytes (slice 26 30 bytes))); [done|].
  destruct (Z.eqb_spec (30 + from_le_bytes (slice 26 30 bytes)) (zlen bytes)) as [Ht|]; [|done]. simpl.
  destruct (A 0%nat); [|done]. intros [= <-]. simpl.
  assert (from_le_bytes (slice 26 30 bytes) = zlen (drop 30 bytes)) as Hn by (unfold zlen in *; rewrite length_drop; lia).
  assert (forall a b, (a <= b)%nat -> (b <= 30)%nat -> 0 <= from_le_bytes (slice a b bytes) < 2 ^ (8 * (Z.of_nat b - Z.of_nat a))) as Hr.
  { intros a b Hab Hb. pose proof (from_le_range _ (slice_u8 a b _ Hu)) as Hx. unfold zlen in Hx.
    rewrite length_slice in Hx by (unfold zlen in *; lia). by rewrite Nat2Z.inj_sub in Hx by lia. }
  split; [|split; [lia|]].
  - pose proof (Hr 26 30 ltac:(lia) ltac:(lia))%nat.
    split; unfold is_u, U32_MAX; simpl; try (apply Hr; lia); [by apply Forall_drop|].
    rewrite <- Hn. lia.
  - apply header_fields; try done. unfold zlen in *. lia.
Qed.

(** C25: the packet codec round-trips and is canonical.  Encoding succeeds
    exactly on non-empty payloads of at most [u32::MAX] bytes when the
    allocation does; decoding what it wrote gives the packet back, or
    [RecordTooLarge] when the payload exceeds the reader's bound; and any
    bytes the decoder accepts are exactly the encoding of the packet it
    returns, so no two byte strings decode to the same packet. *)
Theorem packet_codec_roundtrip A B p max bytes :
  (is_ok (encode_packet A p) = (0 <? zlen (sp_payload p)) && (zlen (sp_payload p) <=? U32_MAX) && A 0%nat) /\
  (packet_ok p -> encode_packet A p = Ok bytes ->
     decode_packet B bytes max =
       if max <? zlen (sp_payload p) then Err WalError.RecordTooLarge
       else if B 0%nat then Ok p else Err WalError.AllocationFailed) /\
  (Forall (is_u 8) bytes -> decode_packet B bytes max = Ok p ->
     packet_ok p /\ zlen (sp_payload p) <= max /\ encode_packet alloc_all p = Ok bytes).
Proof.
  split; [|split].
  - rewrite encode_spec. pose proof (zlen_nonneg (sp_payload p)).
    destruct (Z.eqb_spec (zlen (sp_payload p)) 0), (Z.ltb_spec 0 (zlen (sp_payload p))); try lia; [done|].
    destruct (Z.ltb_spec U32_MAX (zlen (sp_payload p))), (Z.leb_spec (zlen (sp_payload p)) U32_MAX); try lia; [done|].
    by destruct (A 0%nat).
  - intros Hp He. apply encode_Ok in He as [-> _]. by apply decode_header.
  - intros Hu Hd. destruct (decode_inv _ _ _ _ Hu Hd) as (Hp & Hm & ->). split; [done|]. split; [done|]. by apply encode_ok.
Qed.

Definition demo_packet : SyncPacket := mkSyncPacket 258 7 SyncKind.Event 9 [7; 8].

Lemma demo_packet_ok : packet_ok demo_packet.
Proof. split; unfold is_u, U32_MAX; simpl; try lia; [repeat constructor; unfold is_u; lia|unfold zlen; simpl; lia]. Qed.

Lemma packet_codec_roundtrip_witness :
  exists bytes, encode_packet alloc_all demo_packet = Ok bytes /\ zlen bytes = 32 /\
  decode_packet alloc_all bytes 2 = Ok demo_packet /\ decode_packet alloc_all bytes 1 = Err WalError.RecordTooLarge.
Proof.
  destruct (encode_packet alloc_all demo_packet) as [bytes|] eqn:He; [|discriminate He].
  destruct (packet_codec_roundtrip alloc_all alloc_all demo_packet 2 bytes) as (_ & H2 & _).
  destruct (packet_codec_roundtrip alloc_all alloc_all demo_packet 1 bytes) as (_ & H1 & _).
  exists bytes. split; [reflexivity|]. split; [injection He as <-; reflexivity|].
  split; [exact (H2 demo_packet_ok He)|exact (H1 demo_packet_ok He)].
Defined.

(** ** Tags *)
Lemma tag_difference_zero l : forall r d,
  length l = length r -> Forall (is_u 8) l -> Forall (is_u 8) r -> 0 <= d ->
  tag_difference l r d = 0 <-> d = 0 /\ l = r.
Proof.
  induction l as [|x l IH]; intros [|y r] d Hlen Hl Hr Hd; try done; cbn [tag_difference]; [naive_solver|].
  inversion_clear Hl as [|? ? Hx Hl']. inversion_clear Hr as [|? ? Hy Hr']. injection Hlen as Hlen. unfold is_u in Hx, Hy.
  rewrite IH; [|done..|].
  - rewrite Z.lor_eq_0_iff, Z.lxor_eq_0_iff. naive_solver.
  - apply Z.lor_nonneg. split; [done|]. apply Z.lxor_nonneg. lia.
Qed.

Lemma verify_tag_spec `{SyncAuthenticatorLaws T} (a : T) m expected :
  length expected = 32%nat -> Forall (is_u 8) expected ->
  verify_tag a m expected = bool_decide (authentication_tag a m = expected).
Proof.
  intros He Hu. unfold verify_tag. apply eq_bool_prop_intro. rewrite bool_decide_spec, Is_true_true, Z.eqb_eq.
  rewrite tag_difference_zero; [|by rewrite tag_length|apply tag_bytes|done|done]. naive_solver.
Qed.

Lemma encode_authenticated_spec `{SyncAuthenticatorLaws T} A p nonce (a : T) :
  encode_authenticated_packet A p nonce a =
    match encode_packet A p with
    | Err e => Err e
    | Ok encoded =>
        if A 1%nat && A 2%nat then Ok ((nonce ++ encoded) ++ authentication_tag a (nonce ++ encoded))
        else Err SyncError.AllocationFailed
    end.
Proof.
  unfold encode_authenticated_packet. destruct (encode_packet A p) as [encoded|] eqn:He; [|done]. simpl.
  apply encode_Ok in He as [-> Hl].
  assert (zlen (packet_header p ++ sp_payload p) = 30 + zlen (sp_payload p)) as ->
    by (unfold zlen; rewrite length_app, length_header; lia).
  unfold U32_MAX in Hl. rewrite !checked_add_ok by (unfold umax; lia).
  by destruct (A 1%nat), (A 2%nat).
Qed.
