(* ===== verification/Wal.v ===== *)
(** The write-ahead log [SyncWal] of [kernel/sync.rs].

    The log file is a list of bytes.  Every call that touches it takes the
    outcome of its system calls: opening, how many bytes the disk accepts
    before a write fails, and the final sync. *)

From stdpp Require Import sets.
From S2P Require Import Prelude Wire.

(** The path is the identity of the file, which is threaded separately. *)
Record SyncWal := mkSyncWal {
  wal_max_payload_bytes : Z;
  wal_max_records : Z
}.

Definition MAGIC : list Z := [82; 75; 87; 49].
Definition PACKET : Z := 1.
Definition ACK : Z := 2.
Definition WAL_HEADER : nat := 9.
Definition TRAILER : nat := 4.

(** The outcome of the system calls of one operation: [io_room] is [None]
    when the disk takes every byte. *)
Record IoPlan := mkIoPlan {
  io_open : bool;
  io_room : option nat;
  io_sync : bool;
  io_rename : bool
}.
Definition io_ok : IoPlan := mkIoPlan true None true true.

(** An open file: contents and remaining room. *)
Record FileHandle := mkFileHandle {
  fh_bytes : list Z;
  fh_room : option nat
}.

(** [write_all]; on failure a prefix may have been written. *)
Definition write_all (f : FileHandle) (bytes : list Z) : FileHandle * result WalError unit :=
  match fh_room f with
  | None => (mkFileHandle (fh_bytes f ++ bytes) None, Ok tt)
  | Some room =>
      if (length bytes <=? room)%nat then (mkFileHandle (fh_bytes f ++ bytes) (Some (room - length bytes)%nat), Ok tt)
      else (mkFileHandle (fh_bytes f ++ take room bytes) (Some 0%nat), Err WalError.Io)
  end.

(** A sequence of [write_all(..)?]. *)
Fixpoint write_chunks (f : FileHandle) (chunks : list (list Z)) : FileHandle * result WalError unit :=
  match chunks with
  | [] => (f, Ok tt)
  | c :: chunks =>
      match write_all f c with
      | (f, Ok _) => write_chunks f chunks
      | (f, Err e) => (f, Err e)
      end
  end.

Fixpoint checksum_bytes (hash : Z) (body : list Z) : Z :=
  match body with
  | [] => hash
  | byte :: body => checksum_bytes (wrapping_mul 32 (Z.lxor hash byte) 16777619) body
  end.

Definition wal_checksum (kind : Z) (body : list Z) : Z := checksum_bytes (Z.lxor 2166136261 kind) body.

Definition write_wal_record (f : FileHandle) (kind : Z) (body : list Z) : FileHandle * result WalError unit :=
  if (zlen body =? 0) || (U32_MAX <? zlen body) then (f, Err WalError.RecordTooLarge)
  else write_chunks f [MAGIC; [kind]; to_le_bytes 4 (zlen body); body; to_le_bytes 4 (wal_checksum kind body)].

Definition wal_open_with_limits (io : IoPlan) (max_payload_bytes max_records : Z) : result WalError SyncWal :=
  if max_records =? 0 then Err WalError.TooManyRecords
  else if io_open io then Ok (mkSyncWal max_payload_bytes max_records)
  else Err WalError.Io.

Definition wal_open (io : IoPlan) (max_payload_bytes : Z) : result WalError SyncWal :=
  wal_open_with_limits io max_payload_bytes 4096.

Definition append_record (io : IoPlan) (file : list Z) (kind : Z) (body : list Z) : list Z * result WalError unit :=
  if (zlen body =? 0) || (U32_MAX <? zlen body) then (file, Err WalError.RecordTooLarge)
  else if negb (io_open io) then (file, Err WalError.Io)
  else
    match write_wal_record (mkFileHandle file (io_room io)) kind body with
    | (f, Err e) => (fh_bytes f, Err e)
    | (f, Ok _) => (fh_bytes f, if io_sync io then Ok tt else Err WalError.Io)
    end.

Definition wal_encode_error (e : SyncError) : WalError :=
  match e with SyncError.AllocationFailed => WalError.AllocationFailed | _ => WalError.RecordTooLarge end.

Definition wal_append (A : alloc) (io : IoPlan) (w : SyncWal) (file : list Z) (p : SyncPacket) :
    list Z * result WalError unit :=
  if (zlen (sp_payload p) =? 0) || (wal_max_payload_bytes w <? zlen (sp_payload p)) then (file, Err WalError.RecordTooLarge)
  else
    match map_err wal_encode_error (encode_packet A p) with
    | Err e => (file, Err e)
    | Ok body => append_record io file PACKET body
    end.

Definition wal_acknowledge (io : IoPlan) (w : SyncWal) (file : list Z) (sequence : Z) : list Z * result WalError unit :=
  append_record io file ACK (to_le_bytes 8 sequence).

(** ** Replay *)
Inductive read_result :=
| ReadOk (data rest : list Z)
| ReadEof
| ReadErr.

(** [read_exact] of [n] bytes; [rd] is false on an I/O error. *)
Definition read_exact (rd : bool) (n : nat) (rest : list Z) : read_result :=
  if negb rd then ReadErr
  else if (length rest <? n)%nat then ReadEof
  else ReadOk (take n rest) (drop n rest).

Definition pending_put (w : SyncWal) (pending : list SyncPacket) (p : SyncPacket) : result WalError (list SyncPacket) :=
  match vec_position (fun q => sp_sequence q =? sp_sequence p) pending with
  | Some i => Ok (zset pending i p)
  | None =>
      if wal_max_records w <=? zlen pending then Err WalError.TooManyRecords else Ok (pending ++ [p])
  end.

Definition wal_apply_record (A : alloc) (w : SyncWal) (kind : Z) (body : list Z) (pending : list SyncPacket) :
    result WalError (list SyncPacket) :=
  if kind =? PACKET then
    let? p := decode_packet A body (wal_max_payload_bytes w) in pending_put w pending p
  else if kind =? ACK then
    if negb (zlen body =? 8) then Err WalError.InvalidRecord
    else
      let sequence := from_le_bytes body in
      Ok (List.filter (fun p => sequence <? sp_sequence p) pending)
  else Err WalError.InvalidRecord.

(** The [loop]; the outer [None] is fuel.  Each turn has three reads and two
    reservations. *)
Fixpoint replay_loop (fuel : nat) (A : alloc) (rd : nat -> bool) (w : SyncWal) (rest : list Z) (pending : list SyncPacket) :
    option (result WalError (list SyncPacket)) :=
  match fuel with
  | O => None
  | S fuel =>
      match read_exact (rd 0%nat) WAL_HEADER rest with
      | ReadEof => Some (Ok pending)
      | ReadErr => Some (Err WalError.Io)
      | ReadOk header rest =>
          if negb (bool_decide (take 4 header = MAGIC)) then Some (Err WalError.InvalidRecord)
          else
            kind ← header !! 4%nat;
            let len := from_le_bytes (slice 5 9 header) in
            match checked_add 64 (wal_max_payload_bytes w) 30 with
            | None => Some (Err WalError.RecordTooLarge)
            | Some max_record =>
                if (len =? 0) || (max_record <? len) then Some (Err WalError.RecordTooLarge)
                else if negb (A 0%nat) then Some (Err WalError.AllocationFailed)
                else
                  match read_exact (rd 1%nat) (Z.to_nat len) rest with
                  | ReadEof => Some (Ok pending)
                  | ReadErr => Some (Err WalError.Io)
                  | ReadOk body rest =>
                      match read_exact (rd 2%nat) TRAILER rest with
                      | ReadEof => Some (Ok pending)
                      | ReadErr => Some (Err WalError.Io)
                      | ReadOk checksum rest =>
                          if negb (wal_checksum kind body =? from_le_bytes checksum) then Some (Err WalError.InvalidRecord)
                          else
                            match wal_apply_record (shift 1 A) w kind body pending with
                            | Err e => Some (Err e)
                            | Ok pending => replay_loop fuel (shift 2 A) (shift 3 rd) w rest pending
                            end
                      end
                  end
            end
      end
  end.

Definition wal_replay (A : alloc) (io : IoPlan) (rd : nat -> bool) (w : SyncWal) (file : list Z) :
    option (result WalError (list SyncPacket)) :=
  if io_open io then replay_loop (S (length file)) A rd w file [] else Some (Err WalError.Io).

(** ** Compaction *)

(** The log and the temporary file beside it. *)
Record WalDir := mkWalDir {
  wd_log : list Z;
  wd_temp : option (list Z)
}.

Fixpoint compact_records (A : nat -> alloc) (w : SyncWal) (f : FileHandle) (packets : list SyncPacket) :
    FileHandle * result WalError unit :=
  match packets with
  | [] => (f, Ok tt)
  | p :: packets =>
      if (zlen (sp_payload p) =? 0) || (wal_max_payload_bytes w <? zlen (sp_payload p)) then (f, Err WalError.RecordTooLarge)
      else
        match map_err wal_encode_error (encode_packet (A 0%nat) p) with
        | Err e => (f, Err e)
        | Ok body =>
            match write_wal_record f PACKET body with
            | (f, Err e) => (f, Err e)
            | (f, Ok _) => compact_records (fun k => A (S k)) w f packets
            end
        end
  end.

(** On Unix, where [rename] replaces its target atomically. *)
Definition wal_compact (A : nat -> alloc) (io : IoPlan) (w : SyncWal) (d : WalDir) (packets : list SyncPacket) :
    WalDir * result WalError unit :=
  if wal_max_records w <? zlen packets then (d, Err WalError.TooManyRecords)
  else if negb (io_open io) then (d, Err WalError.Io)
  else
    match compact_records A w (mkFileHandle [] (io_room io)) packets with
    | (f, Err e) => (mkWalDir (wd_log d) (Some (fh_bytes f)), Err e)
    | (f, Ok _) =>
        if negb (io_sync io) then (mkWalDir (wd_log d) (Some (fh_bytes f)), Err WalError.Io)
        else if io_rename io then (mkWalDir (fh_bytes f) None, Ok tt)
        else (mkWalDir (wd_log d) (Some (fh_bytes f)), Err WalError.Io)
    end.

(** ** The log as a list of entries *)
Inductive wal_entry :=
| EPacket (p : SyncPacket)
| EAck (sequence : Z).

Definition record_bytes (kind : Z) (body : list Z) : list Z :=
  MAGIC ++ [kind] ++ to_le_bytes 4 (zlen body) ++ body ++ to_le_bytes 4 (wal_checksum kind body).

Definition entry_kind (e : wal_entry) : Z := match e with EPacket _ => PACKET | EAck _ => ACK end.
Definition entry_body (e : wal_entry) : list Z :=
  match e with EPacket p => packet_header p ++ sp_payload p | EAck s => to_le_bytes 8 s end.
Definition entry_bytes (e : wal_entry) : list Z := record_bytes (entry_kind e) (entry_body e).
Definition log_bytes (es : list wal_entry) : list Z := concat (map entry_bytes es).

Definition entry_ok (w : SyncWal) (e : wal_entry) : Prop :=
  match e with
  | EPacket p => packet_ok p /\ zlen (sp_payload p) <= wal_max_payload_bytes w /\ 30 + zlen (sp_payload p) <= U32_MAX
  | EAck s => is_u 64 s
  end.

(** What the entries mean: the packets logged and not acknowledged since, each
    sequence number at the place of its first record, with its last content. *)
Definition replay_entry (w : SyncWal) (e : wal_entry) (pending : list SyncPacket) : result WalError (list SyncPacket) :=
  match e with
  | EPacket p => pending_put w pending p
  | EAck s => Ok (List.filter (fun p => s <? sp_sequence p) pending)
  end.

Fixpoint replay_entries (w : SyncWal) (es : list wal_entry) (pending : list SyncPacket) : result WalError (list SyncPacket) :=
  match es with
  | [] => Ok pending
  | e :: es => let? pending := replay_entry w e pending in replay_entries w es pending
  end.

Lemma checksum_range h body : is_u 32 h -> is_u 32 (checksum_bytes h body).
Proof. revert h. induction body as [|b body IH]; intros h Hh; simpl; [done|]. apply IH, wrap_range. lia. Qed.

Lemma lxor_u w a b : 0 <= w -> is_u w a -> is_u w b -> is_u w (Z.lxor a b).
Proof.
  intros Hw [Ha Ha'] [Hb Hb']. assert (0 <= Z.lxor a b) as H0 by (apply Z.lxor_nonneg; lia).
  split; [done|]. destruct (Z.eq_dec (Z.lxor a b) 0) as [->|Hne]; [apply Z.pow_pos_nonneg; lia|].
  apply Z.log2_lt_pow2; [lia|]. eapply Z.le_lt_trans; [apply Z.log2_lxor; lia|].
  destruct (Z.eq_dec a 0) as [->|]; destruct (Z.eq_dec b 0) as [->|]; try done.
  - simpl. rewrite Z.max_r by apply Z.log2_nonneg. apply Z.log2_lt_pow2; lia.
  - simpl. rewrite Z.max_l by apply Z.log2_nonneg. apply Z.log2_lt_pow2; lia.
  - apply Z.max_lub_lt; apply Z.log2_lt_pow2; lia.
Qed.

Lemma wal_checksum_range kind body : is_u 8 kind -> is_u 32 (wal_checksum kind body).
Proof. intros. apply checksum_range, lxor_u; unfold is_u in *; lia. Qed.

Lemma length_record kind body : length (record_bytes kind body) = (13 + length body)%nat.
Proof. unfold record_bytes. rewrite !length_app, !length_to_le. simpl. lia. Qed.

Lemma read_ok n (l r : list Z) : length l = n -> read_exact true n (l ++ r) = ReadOk l r.
Proof.
  intros <-. unfold read_exact. destruct (Nat.ltb_spec (length (l ++ r)) (length l)) as [Hlt|]; [rewrite length_app in Hlt; lia|].
  simpl. by rewrite take_app_length, drop_app_length.
Qed.

Lemma read_eof n (l : list Z) : (length l < n)%nat -> read_exact true n l = ReadEof.
Proof. intros. unfold read_exact. simpl. by destruct (Nat.ltb_spec (length l) n); [|lia]. Qed.

(** One turn of the loop on a complete record with any contents; [c] is its
    stored checksum. *)
Lemma replay_step fuel w m kind L body c rest pending :
  wal_max_payload_bytes w + 30 <= umax 64 -> length m = 4%nat -> length c = 4%nat ->
  0 <= L < 2 ^ 32 -> Z.to_nat L = length body ->
  replay_loop (S fuel) alloc_all alloc_all w (m ++ [kind] ++ to_le_bytes 4 L ++ body ++ c ++ rest) pending =
    if negb (bool_decide (m = MAGIC)) then Some (Err WalError.InvalidRecord)
    else if (L =? 0) || (wal_max_payload_bytes w + 30 <? L) then Some (Err WalError.RecordTooLarge)
    else if negb (wal_checksum kind body =? from_le_bytes c) then Some (Err WalError.InvalidRecord)
    else
      match wal_apply_record alloc_all w kind body pending with
      | Err e => Some (Err e)
      | Ok pending => replay_loop fuel alloc_all alloc_all w rest pending
      end.
Proof.
  intros Hw Hm Hc HL Hb. cbn [replay_loop]. change (alloc_all _) with true.
  set (tail := body ++ c ++ rest).
  replace (m ++ [kind] ++ to_le_bytes 4 L ++ tail) with ((m ++ [kind] ++ to_le_bytes 4 L) ++ tail)
    by (by rewrite <- !(assoc_L (++))).
  assert (length (m ++ [kind] ++ to_le_bytes 4 L) = WAL_HEADER) as Hh
    by (rewrite !length_app, length_to_le, Hm; done).
  rewrite (read_ok _ _ _ Hh). rewrite take_app_length' by done.
  rewrite lookup_app_r, Hm by lia. simpl lookup. cbn [mbind option_bind].
  rewrite (slice_skip m _ 5 9 4), (slice_skip [kind] _ 1 5 1) by (done || lia). simpl Nat.sub.
  replace (slice 0 4 (to_le_bytes 4 L)) with (to_le_bytes 4 L) by done.
  rewrite from_to_le by lia. rewrite checked_add_ok by lia.
  unfold tail. rewrite (read_ok _ body) by done. rewrite (read_ok TRAILER c rest) by done. done.
Qed.

Lemma decode_ok w p : packet_ok p -> zlen (sp_payload p) <= wal_max_payload_bytes w ->
  decode_packet alloc_all (packet_header p ++ sp_payload p) (wal_max_payload_bytes w) = Ok p.
Proof.
  intros Hp Hm. rewrite decode_header by done. by destruct (Z.ltb_spec (wal_max_payload_bytes w) (zlen (sp_payload p))); [lia|].
Qed.

Lemma apply_entry w e pending : entry_ok w e ->
  wal_apply_record alloc_all w (entry_kind e) (entry_body e) pending = replay_entry w e pending.
Proof.
  destruct e as [p|s]; unfold wal_apply_record; cbn [entry_kind entry_body replay_entry].
  - intros (Hp & Hm & _). rewrite Z.eqb_refl. by rewrite decode_ok.
  - intros Hs. change (ACK =? PACKET) with false. rewrite Z.eqb_refl. cbv iota.
    replace (zlen (to_le_bytes 8 s)) with 8 by (unfold zlen; by rewrite length_to_le).
    change (negb (8 =? 8)) with false. cbv iota. by rewrite from_to_le.
Qed.

Lemma entry_body_len w e : entry_ok w e -> 0 <= wal_max_payload_bytes w ->
  0 < zlen (entry_body e) <= U32_MAX /\ zlen (entry_body e) <= wal_max_payload_bytes w + 30.
Proof.
  destruct e as [p|s]; cbn [entry_body].
  - intros ([] & Hm & Hu) Hw. unfold zlen in *. rewrite length_app, length_header. lia.
  - intros _ Hw. unfold zlen, U32_MAX. rewrite length_to_le. lia.
Qed.

Lemma entry_kind_u8 e : is_u 8 (entry_kind e).
Proof. destruct e; done. Qed.

(** A log the writer could have produced, with sound limits. *)
Record wal_ok (w : SyncWal) : Prop := {
  wo_payload : 0 <= wal_max_payload_bytes w;
  wo_bound : wal_max_payload_bytes w + 30 <= umax 64
}.

Lemma entry_split e rest :
  entry_bytes e ++ rest =
  MAGIC ++ [entry_kind e] ++ to_le_bytes 4 (zlen (entry_body e)) ++ entry_body e ++
  to_le_bytes 4 (wal_checksum (entry_kind e) (entry_body e)) ++ rest.
Proof. unfold entry_bytes, record_bytes. by rewrite <- !(assoc_L (++)). Qed.

Lemma replay_one fuel w e rest pending : wal_ok w -> entry_ok w e ->
  replay_loop (S fuel) alloc_all alloc_all w (entry_bytes e ++ rest) pending =
    match replay_entry w e pending with
    | Err err => Some (Err err)
    | Ok pending => replay_loop fuel alloc_all alloc_all w rest pending
    end.
Proof.
  intros [H0 Hb] He. destruct (entry_body_len w e He H0) as [Hl Hm]. unfold U32_MAX in Hl.
  rewrite entry_split, replay_step; try done; try lia; [|unfold zlen; by rewrite Nat2Z.id].
  rewrite bool_decide_eq_true_2 by done. cbn [negb].
  destruct (Z.eqb_spec (zlen (entry_body e)) 0); [lia|].
  destruct (Z.ltb_spec (wal_max_payload_bytes w + 30) (zlen (entry_body e))); [lia|]. cbn [orb].
  rewrite from_to_le by apply (wal_checksum_range _ _ (entry_kind_u8 e)). rewrite Z.eqb_refl. cbn [negb].
  by rewrite apply_entry.
Qed.

Lemma replay_log w es : forall fuel rest pending, wal_ok w -> Forall (entry_ok w) es ->
  replay_loop (length es + fuel) alloc_all alloc_all w (log_bytes es ++ rest) pending =
    match replay_entries w es pending with
    | Err err => Some (Err err)
    | Ok pending => replay_loop fuel alloc_all alloc_all w rest pending
    end.
Proof.
  induction es as [|e es IH]; intros fuel rest pending Hw Hes; [done|].
  inversion_clear Hes as [|? ? He Hes']. cbn [length Nat.add log_bytes map concat replay_entries].
  rewrite <- (assoc_L (++)), replay_one by done. destruct (replay_entry w e pending) as [p'|err]; [|done]. cbn [result_bind].
  by apply IH.
Qed.

Lemma length_log es : (length es <= length (log_bytes es))%nat.
Proof.
  induction es as [|e es IH]; [done|]. cbn [log_bytes map concat length].
  change (concat (map entry_bytes es)) with (log_bytes es). unfold entry_bytes. rewrite length_app, length_record. lia.
Qed.

(** The tail of a record cut at byte [k] ends the replay. *)
Lemma replay_torn fuel w e k pending : wal_ok w -> entry_ok w e -> (k < length (entry_bytes e))%nat ->
  replay_loop (S fuel) alloc_all alloc_all w (take k (entry_bytes e)) pending = Some (Ok pending).
Proof.
  intros [H0 Hb] He Hk. destruct (entry_body_len w e He H0) as [Hl Hm]. unfold U32_MAX in Hl.
  assert (length (entry_bytes e) = 13 + length (entry_body e))%nat as Hlen by apply length_record.
  set (hdr := MAGIC ++ [entry_kind e] ++ to_le_bytes 4 (zlen (entry_body e))).
  set (chk := to_le_bytes 4 (wal_checksum (entry_kind e) (entry_body e))).
  assert (entry_bytes e = hdr ++ entry_body e ++ chk) as Hsplit by (unfold hdr; by rewrite <- !(assoc_L (++))).
  assert (length hdr = 9)%nat as Hhdr by (unfold hdr; by rewrite !length_app, length_to_le).
  cbn [replay_loop]. change (alloc_all _) with true.
  destruct (Nat.lt_ge_cases k 9).
  { rewrite read_eof; [done|]. rewrite length_take. unfold WAL_HEADER. lia. }
  rewrite Hsplit, take_app_ge, (read_ok _ hdr) by (rewrite Hhdr; done || lia).
  rewrite Hhdr. replace (take 4 hdr) with MAGIC by done. rewrite bool_decide_eq_true_2 by done. cbn [negb].
  replace (hdr !! 4%nat) with (Some (entry_kind e)) by done. cbn [mbind option_bind].
  replace (slice 5 9 hdr) with (to_le_bytes 4 (zlen (entry_body e))) by done.
  rewrite from_to_le, checked_add_ok by lia.
  destruct (Z.eqb_spec (zlen (entry_body e)) 0); [lia|].
  destruct (Z.ltb_spec (wal_max_payload_bytes w + 30) (zlen (entry_body e))); [lia|]. cbn [orb negb].
  replace (Z.to_nat (zlen (entry_body e))) with (length (entry_body e)) by (unfold zlen; by rewrite Nat2Z.id).
  destruct (Nat.lt_ge_cases (k - 9) (length (entry_body e))).
  { rewrite read_eof; [done|]. rewrite length_take. lia. }
  rewrite take_app_ge, read_ok by done || lia.
  rewrite read_eof; [done|]. rewrite length_take. unfold TRAILER, chk. rewrite length_to_le. lia.
Qed.

Lemma replay_nil fuel w pending : replay_loop (S fuel) alloc_all alloc_all w [] pending = Some (Ok pending).
Proof. done. Qed.

(** ** Writing *)
Lemma write_chunks_spec chunks : forall file room,
  write_chunks (mkFileHandle file room) chunks =
    match room with
    | None => (mkFileHandle (file ++ concat chunks) None, Ok tt)
    | Some room =>
        if (length (concat chunks) <=? room)%nat
        then (mkFileHandle (file ++ concat chunks) (Some (room - length (concat chunks))%nat), Ok tt)
        else (mkFileHandle (file ++ take room (concat chunks)) (Some 0%nat), Err WalError.Io)
    end.
Proof.
  induction chunks as [|c chunks IH]; intros file room; cbn [write_chunks concat].
  { rewrite app_nil_r. destruct room as [room|]; [|done]. simpl. by rewrite Nat.sub_0_r. }
  unfold write_all. cbn [fh_room fh_bytes]. destruct room as [room|].
  - rewrite length_app. destruct (Nat.leb_spec (length c) room) as [Hle|Hgt].
    + rewrite IH. rewrite <- (assoc_L (++)).
      destruct (Nat.leb_spec (length (concat chunks)) (room - length c)), (Nat.leb_spec (length c + length (concat chunks)) room); try lia.
      * by replace (room - length c - length (concat chunks))%nat with (room - (length c + length (concat chunks)))%nat by lia.
      * by rewrite take_app_ge, <- (assoc_L (++)) by lia.
    + destruct (Nat.leb_spec (length c + length (concat chunks)) room); [lia|]. by rewrite take_app_le by lia.
  - by rewrite IH, <- (assoc_L (++)).
Qed.

(** A record reaches the file whole, or a strict prefix of it does and the
    write fails. *)
Lemma write_record_spec file room kind body :
  0 < zlen body <= U32_MAX ->
  let r := record_bytes kind body in
  write_wal_record (mkFileHandle file room) kind body =
    match room with
    | None => (mkFileHandle (file ++ r) None, Ok tt)
    | Some n =>
        if (length r <=? n)%nat then (mkFileHandle (file ++ r) (Some (n - length r)%nat), Ok tt)
        else (mkFileHandle (file ++ take n r) (Some 0%nat), Err WalError.Io)
    end.
Proof.
  intros Hb r. unfold write_wal_record.
  destruct (Z.eqb_spec (zlen body) 0); [lia|]. destruct (Z.ltb_spec U32_MAX (zlen body)); [lia|]. cbn [orb].
  rewrite write_chunks_spec. assert (concat [MAGIC; [kind]; to_le_bytes 4 (zlen body); body; to_le_bytes 4 (wal_checksum kind body)] = r) as ->; [|done].
  unfold r, record_bytes. cbn [concat]. by rewrite app_nil_r.
Qed.

Lemma append_record_spec io file kind body :
  0 < zlen body <= U32_MAX ->
  exists n, let '(file', r) := append_record io file kind body in
  file' = file ++ take n (record_bytes kind body) /\
  (r = Ok tt -> file' = file ++ record_bytes kind body) /\
  (r = Ok tt \/ r = Err WalError.Io) /\
  (io_open io = true -> io_room io = None -> io_sync io = true -> r = Ok tt).
Proof.
  intros Hb. unfold append_record.
  destruct (Z.eqb_spec (zlen body) 0); [lia|]. destruct (Z.ltb_spec U32_MAX (zlen body)); [lia|]. cbn [orb].
  destruct (io_open io); cbn [negb]; [|exists 0%nat; rewrite take_0, app_nil_r; naive_solver].
  rewrite write_record_spec by lia. destruct (io_room io) as [room|].
  - destruct (Nat.leb_spec (length (record_bytes kind body)) room).
    + exists (length (record_bytes kind body)). rewrite take_ge by done. simpl. destruct (io_sync io); naive_solver.
    + exists room. simpl. naive_solver.
  - exists (length (record_bytes kind body)). rewrite take_ge by done. simpl. destruct (io_sync io); naive_solver.
Qed.

(** A logged entry, as the callers log it. *)
Definition wal_log (A : alloc) (io : IoPlan) (w : SyncWal) (file : list Z) (e : wal_entry) : list Z * result WalError unit :=
  match e with EPacket p => wal_append A io w file p | EAck s => wal_acknowledge io w file s end.

(** The entry's integers and bytes are in range, as their types ensure. *)
Definition entry_typed (e : wal_entry) : Prop :=
  match e with
  | EPacket p => is_u 64 (sp_sequence p) /\ is_u 64 (sp_ack p) /\ is_u 64 (sp_key p) /\ Forall (is_u 8) (sp_payload p)
  | EAck s => is_u 64 s
  end.

Definition entry_fits (w : SyncWal) (e : wal_entry) : bool :=
  match e with
  | EPacket p => (0 <? zlen (sp_payload p)) && (zlen (sp_payload p) <=? wal_max_payload_bytes w) &&
      (30 + zlen (sp_payload p) <=? U32_MAX)
  | EAck _ => true
  end.

Lemma entry_fits_ok w e : entry_typed e -> entry_fits w e = true -> entry_ok w e.
Proof.
  destruct e as [p|s]; [|done]. cbn. intros (? & ? & ? & ?) Hf. zbool. split; [split; try done; lia|lia].
Qed.

Lemma log_spec A io w file e : entry_typed e -> 0 <= wal_max_payload_bytes w ->
  exists n, let '(file', r) := wal_log A io w file e in
  file' = file ++ take n (entry_bytes e) /\
  (if entry_fits w e then r = Ok tt -> file' = file ++ entry_bytes e
   else is_ok r = false /\ file' = file) /\
  (entry_fits w e = true -> io_open io = true -> io_room io = None -> io_sync io = true -> A 0%nat = true -> r = Ok tt).
Proof.
  intros Ht Hw. destruct e as [p|s]; cbn [wal_log entry_fits].
  - unfold wal_append. pose proof (zlen_nonneg (sp_payload p)).
    destruct (Z.eqb_spec (zlen (sp_payload p)) 0), (Z.ltb_spec 0 (zlen (sp_payload p))); try lia.
    { exists 0%nat. rewrite take_0, app_nil_r. simpl. naive_solver. }
    destruct (Z.ltb_spec (wal_max_payload_bytes w) (zlen (sp_payload p))), (Z.leb_spec (zlen (sp_payload p)) (wal_max_payload_bytes w)); try lia.
    { exists 0%nat. rewrite take_0, app_nil_r. simpl. naive_solver. }
    rewrite encode_spec. destruct (Z.eqb_spec (zlen (sp_payload p)) 0); [lia|]. cbn [orb andb map_err].
    destruct (Z.ltb_spec U32_MAX (zlen (sp_payload p))).
    { destruct (Z.leb_spec (30 + zlen (sp_payload p)) U32_MAX); [lia|]. exists 0%nat. rewrite take_0, app_nil_r. naive_solver. }
    destruct (A 0%nat); cbn [map_err].
    2: { exists 0%nat. rewrite take_0, app_nil_r. split; [done|]. split; [|done]. by case_match. }
    assert (zlen (packet_header p ++ sp_payload p) = 30 + zlen (sp_payload p)) as Hl
      by (unfold zlen; rewrite length_app, length_header; lia).
    destruct (Z.leb_spec (30 + zlen (sp_payload p)) U32_MAX).
    + destruct (append_record_spec io file PACKET (packet_header p ++ sp_payload p)) as [j Hn]; [lia|].
      exists j. destruct (append_record io file PACKET _) as [file' r]. destruct Hn as (-> & Hn1 & _ & Hn2). naive_solver.
    + exists 0%nat. rewrite take_0, app_nil_r. unfold append_record. rewrite Hl.
      destruct (Z.ltb_spec U32_MAX (30 + zlen (sp_payload p))); [|lia]. rewrite orb_true_r. naive_solver.
  - unfold wal_acknowledge. destruct (append_record_spec io file ACK (to_le_bytes 8 s)) as [n Hn].
    { unfold zlen, U32_MAX. rewrite length_to_le. lia. }
    exists n. destruct (append_record io file ACK _) as [file' r]. destruct Hn as (-> & Hn1 & _ & Hn2). naive_solver.
Qed.

Lemma replay_file w es rest : wal_ok w -> Forall (entry_ok w) es ->
  wal_replay alloc_all io_ok alloc_all w (log_bytes es ++ rest) =
    match replay_entries w es [] with
    | Err err => Some (Err err)
    | Ok pending =>
        replay_loop (S (length (log_bytes es ++ rest) - length es)) alloc_all alloc_all w rest pending
    end.
Proof.
  intros Hw Hes. unfold wal_replay. cbn [io_open io_ok]. pose proof (length_log es). rewrite length_app.
  replace (S (length (log_bytes es) + length rest)) with (length es + S (length (log_bytes es) + length rest - length es))%nat by lia.
  by apply replay_log.
Qed.

Lemma replay_good w es : wal_ok w -> Forall (entry_ok w) es ->
  wal_replay alloc_all io_ok alloc_all w (log_bytes es) = Some (replay_entries w es []).
Proof.
  intros Hw Hes. rewrite <- (app_nil_r (log_bytes es)), replay_file by done. by destruct (replay_entries w es []).
Qed.

Lemma log_bytes_snoc es e : log_bytes (es ++ [e]) = log_bytes es ++ entry_bytes e.
Proof. unfold log_bytes. rewrite map_app, concat_app. cbn [map concat]. by rewrite app_nil_r. Qed.

Lemma replay_prefix w es e n : wal_ok w -> Forall (entry_ok w) es -> entry_ok w e ->
  wal_replay alloc_all io_ok alloc_all w (log_bytes es ++ take n (entry_bytes e)) =
    Some (replay_entries w (if (length (entry_bytes e) <=? n)%nat then es ++ [e] else es) []).
Proof.
  intros Hw Hes He. destruct (Nat.leb_spec (length (entry_bytes e)) n).
  - rewrite take_ge, <- log_bytes_snoc by done. apply replay_good; [done|]. apply Forall_app. by split; [|constructor].
  - rewrite replay_file by done. destruct (replay_entries w es []); [|done]. by apply replay_torn.
Qed.

(** C5: the log survives a crash at any byte.  Start from a log that holds
    any entries, and log one more packet or acknowledgement under any outcome
    of the allocations and system calls.  An entry that does not fit the
    limits is refused and the file is unchanged.  Otherwise [Ok] means the
    whole entry is in the file; and whatever happened, replaying the file
    gives exactly the meaning of the old entries, or of the old entries and
    the new one: never an error caused by the torn tail, never a damaged
    packet. *)
Theorem wal_survives_torn_append A io w es e :
  wal_ok w -> Forall (entry_ok w) es -> entry_typed e ->
  wal_replay alloc_all io_ok alloc_all w (log_bytes es) = Some (replay_entries w es []) /\
  let '(file', r) := wal_log A io w (log_bytes es) e in
  if entry_fits w e then
    (r = Ok tt -> file' = log_bytes (es ++ [e])) /\
    (wal_replay alloc_all io_ok alloc_all w file' = Some (replay_entries w es []) \/
     wal_replay alloc_all io_ok alloc_all w file' = Some (replay_entries w (es ++ [e]) [])) /\
    (io_open io = true -> io_room io = None -> io_sync io = true -> A 0%nat = true -> r = Ok tt)
  else is_ok r = false /\ file' = log_bytes es.
Proof.
  intros Hw Hes He. split; [by apply replay_good|].
  destruct (log_spec A io w (log_bytes es) e He (wo_payload _ Hw)) as [n Hn].
  destruct (wal_log A io w (log_bytes es) e) as [file' r]. destruct Hn as (-> & H1 & H2).
  destruct (entry_fits w e) eqn:Hf; [|done].
  split; [intros Hr; rewrite log_bytes_snoc; by apply H1|]. split; [|by apply H2].
  pose proof (entry_fits_ok w e He Hf). rewrite replay_prefix by done.
  destruct (length (entry_bytes e) <=? n)%nat; [by right|by left].
Qed.

Lemma wal_survives_torn_append_witness :
  let w := mkSyncWal 64 4096 in
  let io := mkIoPlan true (Some 20%nat) true true in
  let '(file', r) := wal_log alloc_all io w (log_bytes [EPacket demo_packet]) (EAck 258) in
  r = Err WalError.Io /\ length file' = 65%nat /\
  (wal_replay alloc_all io_ok alloc_all w file' = Some (Ok [demo_packet]) \/
   wal_replay alloc_all io_ok alloc_all w file' = Some (Ok [])).
Proof.
  intros w io.
  assert (Hw : wal_ok w) by (split; simpl; unfold umax; lia).
  assert (Hes : Forall (entry_ok w) [EPacket demo_packet])
    by (constructor; [split; [exact demo_packet_ok|vm_compute; split; discriminate]|constructor]).
  assert (He : entry_typed (EAck 258)) by (split; [discriminate|reflexivity]).
  destruct (wal_survives_torn_append alloc_all io w [EPacket demo_packet] (EAck 258) Hw Hes He) as [_ H].
  destruct (wal_log alloc_all io w (log_bytes [EPacket demo_packet]) (EAck 258)) as [file' r] eqn:Hl.
  vm_compute in Hl. injection Hl as <- <-. split; [reflexivity|]. split; [reflexivity|].
  exact (proj1 (proj2 H)).
Defined.

(** ** Corruption *)
Lemma fnv_step_inj a b : is_u 32 a -> is_u 32 b -> wrapping_mul 32 a 16777619 = wrapping_mul 32 b 16777619 -> a = b.
Proof.
  assert (forall x, is_u 32 x -> x = wrap 32 (wrapping_mul 32 x 16777619 * 899433627)) as Hinv.
  { intros x Hx. unfold wrapping_mul, wrap. rewrite Zmult_mod_idemp_l, <- Z.mul_assoc.
    rewrite <- Zmult_mod_idemp_r. change ((16777619 * 899433627) mod 2 ^ 32) with 1.
    rewrite Z.mul_1_r. symmetry. by apply Z.mod_small. }
  intros Ha Hb He. rewrite (Hinv a Ha), (Hinv b Hb). by rewrite He.
Qed.

Lemma lxor_inj_l a b c : Z.lxor a c = Z.lxor b c -> a = b.
Proof.
  intros H. rewrite <- (Z.lxor_0_r a), <- (Z.lxor_nilpotent c), <- Z.lxor_assoc, H, Z.lxor_assoc, Z.lxor_nilpotent.
  apply Z.lxor_0_r.
Qed.

Lemma lxor_inj_r a b c : Z.lxor c a = Z.lxor c b -> a = b.
Proof. rewrite !(Z.lxor_comm c). apply lxor_inj_l. Qed.

Lemma checksum_step_range h b : is_u 32 (wrapping_mul 32 (Z.lxor h b) 16777619).
Proof. apply wrap_range. lia. Qed.

Lemma lxor_u32_u8 h b : is_u 32 h -> is_u 8 b -> is_u 32 (Z.lxor h b).
Proof. intros. apply lxor_u; unfold is_u in *; lia. Qed.

(** The checksum of a body determines the state it started from. *)
Lemma checksum_inj body : forall h h', Forall (is_u 8) body -> is_u 32 h -> is_u 32 h' ->
  checksum_bytes h body = checksum_bytes h' body -> h = h'.
Proof.
  induction body as [|b body IH]; intros h h' Hb Hh Hh' He; [done|]. cbn [checksum_bytes] in He.
  inversion_clear Hb as [|? ? Hb0 Hb']. apply IH in He; try done; try apply checksum_step_range.
  apply fnv_step_inj in He; try by apply lxor_u32_u8. by apply lxor_inj_l in He.
Qed.

(** One changed byte changes the checksum. *)
Lemma checksum_detects body : forall i b h, Forall (is_u 8) body -> is_u 8 b -> is_u 32 h ->
  (i < length body)%nat -> body !! i <> Some b -> checksum_bytes h (<[i := b]> body) <> checksum_bytes h body.
Proof.
  induction body as [|x body IH]; intros i b h Hu Hb Hh Hi Hne; [simpl in Hi; lia|].
  inversion_clear Hu as [|? ? Hx Hu']. destruct i as [|i]; cbn [checksum_bytes insert list_insert].
  - intros He. apply checksum_inj in He; try done; try apply checksum_step_range.
    apply fnv_step_inj in He; try by apply lxor_u32_u8. apply lxor_inj_r in He. apply Hne. simpl. by rewrite He.
  - apply IH; try done; [apply checksum_step_range|simpl in Hi; lia].
Qed.

Lemma from_le_inj l l' : Forall (is_u 8) l -> Forall (is_u 8) l' -> length l = length l' ->
  from_le_bytes l = from_le_bytes l' -> l = l'.
Proof.
  intros Hl Hl' Hn He. rewrite <- (to_from_le (length l) l), <- (to_from_le (length l') l') by done. by rewrite Hn, He.
Qed.

Lemma entry_body_u8 w e : entry_ok w e -> Forall (is_u 8) (entry_body e).
Proof.
  destruct e as [p|s]; cbn [entry_body].
  - intros [[] _]. unfold packet_header. rewrite !Forall_app. repeat split; try apply to_le_bytes_u8; [|done].
    repeat constructor; unfold is_u; destruct (sp_kind p); simpl; lia.
  - intros _. apply to_le_bytes_u8.
Qed.

Lemma insert_ne {A} (l : list A) i x : (i < length l)%nat -> l !! i <> Some x -> <[i := x]> l <> l.
Proof. intros Hi Hne He. apply Hne. rewrite <- He. by apply list_lookup_insert_eq. Qed.

Lemma insert_after_header (m : list Z) k (l r : list Z) j b : length m = 4%nat -> length l = 4%nat -> (9 <= j)%nat ->
  <[j := b]> (m ++ [k] ++ l ++ r) = m ++ [k] ++ l ++ <[(j - 9)%nat := b]> r.
Proof.
  intros Hm4 Hl4 Hj. rewrite insert_app_r_alt by lia. f_equal. rewrite insert_app_r_alt by (simpl; lia).
  f_equal. rewrite insert_app_r_alt by (simpl; lia). f_equal. f_equal. simpl length. lia.
Qed.

(** A complete record with one damaged byte, outside the length field. *)
Lemma replay_damaged fuel w e i b rest pending :
  wal_ok w -> entry_ok w e -> is_u 8 b -> (i < length (entry_bytes e))%nat -> ~ (5 <= i < 9)%nat ->
  entry_bytes e !! i <> Some b ->
  replay_loop (S fuel) alloc_all alloc_all w (<[i := b]> (entry_bytes e) ++ rest) pending = Some (Err WalError.InvalidRecord).
Proof.
  intros [H0 Hw] He Hb Hi Hlen Hne. pose proof (entry_body_u8 w e He) as Hu.
  destruct (entry_body_len w e He H0) as [Hl Hm]. unfold U32_MAX in Hl.
  set (body := entry_body e) in *. set (L := zlen body) in *.
  assert (Hnat : Z.to_nat L = length body) by (unfold L, zlen; by rewrite Nat2Z.id).
  set (c := to_le_bytes 4 (wal_checksum (entry_kind e) body)).
  assert (Hc : length c = 4%nat) by apply length_to_le.
  assert (Hfc : from_le_bytes c = wal_checksum (entry_kind e) body)
    by (apply from_to_le, (wal_checksum_range _ _ (entry_kind_u8 e))).
  assert (Hbytes : entry_bytes e = MAGIC ++ [entry_kind e] ++ to_le_bytes 4 L ++ body ++ c) by done.
  assert (Hn : length (entry_bytes e) = (13 + length body)%nat) by apply length_record.
  assert (forall m k bd ck, length m = 4%nat -> length ck = 4%nat -> length bd = length body ->
    <[i := b]> (entry_bytes e) = m ++ [k] ++ to_le_bytes 4 L ++ bd ++ ck ->
    (m <> MAGIC \/ wal_checksum k bd <> from_le_bytes ck) ->
    replay_loop (S fuel) alloc_all alloc_all w (<[i := b]> (entry_bytes e) ++ rest) pending = Some (Err WalError.InvalidRecord)) as Hgo.
  { intros m k bd ck Hm4 Hck Hbd -> Hbad.
    rewrite <- !(assoc_L (++)), replay_step by (done || lia || congruence).
    case_bool_decide as HM; [|done]. destruct (Z.eqb_spec L 0); [lia|].
    destruct (Z.ltb_spec (wal_max_payload_bytes w + 30) L); [lia|]. cbn [orb negb].
    destruct Hbad as [?|Hbad]; [done|]. by destruct (Z.eqb_spec (wal_checksum k bd) (from_le_bytes ck)). }
  destruct (Nat.lt_ge_cases i 4) as [H4|H4].
  { apply (Hgo (<[i := b]> MAGIC) (entry_kind e) body c); try done; [by rewrite length_insert|by rewrite Hbytes, insert_app_l|].
    left. apply insert_ne; [done|]. intros Hx. apply Hne. by rewrite Hbytes, lookup_app_l. }
  destruct (decide (i = 4%nat)) as [->|Hi4].
  { apply (Hgo MAGIC b body c); try done. right. rewrite Hfc. intros Hck. unfold wal_checksum in Hck.
    apply checksum_inj in Hck; [|done|apply lxor_u32_u8; [done|done]|apply lxor_u32_u8; [done|apply entry_kind_u8]].
    apply lxor_inj_r in Hck. apply Hne. by rewrite Hbytes, Hck. }
  destruct (Nat.lt_ge_cases (i - 9) (length body)) as [Hib|Hib].
  - apply (Hgo MAGIC (entry_kind e) (<[(i - 9)%nat := b]> body) c); try done; [by rewrite length_insert| |].
    + rewrite Hbytes, insert_after_header by (try apply length_to_le; done || lia). by rewrite insert_app_l.
    + right. rewrite Hfc. apply checksum_detects; try done; [apply lxor_u32_u8; [done|apply entry_kind_u8]|].
      intros Hx. apply Hne. rewrite Hbytes. do 3 (rewrite lookup_app_r by (simpl; rewrite ?length_to_le; lia)).
      rewrite length_to_le. simpl length. rewrite lookup_app_l by lia. rewrite <- Hx. f_equal. lia.
  - apply (Hgo MAGIC (entry_kind e) body (<[(i - 9 - length body)%nat := b]> c)); try done; [by rewrite length_insert| |].
    + rewrite Hbytes, insert_after_header by (try apply length_to_le; done || lia). by rewrite insert_app_r_alt.
    + right. rewrite <- Hfc. intros Hx. apply from_le_inj in Hx.
      * revert Hx. apply not_eq_sym, insert_ne; [lia|]. intros Hx. apply Hne. rewrite Hbytes.
        do 4 (rewrite lookup_app_r by (simpl; rewrite ?length_to_le; lia)). rewrite length_to_le. simpl length. rewrite <- Hx. f_equal. lia.
      * apply to_le_bytes_u8.
      * apply Forall_insert; [apply to_le_bytes_u8|done].
      * by rewrite length_insert.
Qed.

(** a damaged record fails closed.  If any one byte of a complete record
    changes, in its magic, its kind, its body or its checksum, then replaying
    a log that reaches it stops with [InvalidRecord], whatever follows: the
    checksum catches every such change.  The length field is not covered:
    enlarging it past the end of the file makes the record, and everything
    after it, look like a torn tail. *)
Theorem wal_damage_detected w es e rest i b pending :
  wal_ok w -> Forall (entry_ok w) es -> entry_ok w e -> replay_entries w es [] = Ok pending ->
  is_u 8 b -> (i < length (entry_bytes e))%nat -> ~ (5 <= i < 9)%nat -> entry_bytes e !! i <> Some b ->
  wal_replay alloc_all io_ok alloc_all w (log_bytes es ++ <[i := b]> (entry_bytes e) ++ rest) =
    Some (Err WalError.InvalidRecord).
Proof. intros Hw Hes He Hp Hb Hi Hlen Hne. rewrite replay_file, Hp by done. by apply replay_damaged. Qed.

Lemma wal_damage_detected_witness :
  wal_replay alloc_all io_ok alloc_all (mkSyncWal 64 4096)
    (log_bytes [EPacket demo_packet] ++ <[12%nat := 200]> (entry_bytes (EAck 300)) ++ [1; 2; 3]) =
    Some (Err WalError.InvalidRecord).
Proof.
  apply (wal_damage_detected (mkSyncWal 64 4096) [EPacket demo_packet] (EAck 300) [1; 2; 3] 12%nat 200 [demo_packet]).
  - split; simpl; unfold umax; lia.
  - constructor; [split; [exact demo_packet_ok|vm_compute; split; discriminate]|constructor].
  - split; [discriminate|reflexivity].
  - reflexivity.
  - split; [discriminate|reflexivity].
  - vm_compute. lia.
  - lia.
  - discriminate.
Defined.

(** The length field: damage to it loses the two packets after it, silently. *)
Example damaged_length_loses_the_rest :
  let packet n := mkSyncPacket n 0 SyncKind.Event 0 [n] in
  let w := mkSyncWal 512 4096 in
  let second := entry_bytes (EPacket (packet 2)) in
  wal_replay alloc_all io_ok alloc_all w (log_bytes [EPacket (packet 1)] ++ second ++ log_bytes [EPacket (packet 3)])
    = Some (Ok [packet 1; packet 2; packet 3]) /\
  wal_replay alloc_all io_ok alloc_all w (log_bytes [EPacket (packet 1)] ++ <[6%nat := 1]> second ++ log_bytes [EPacket (packet 3)])
    = Some (Ok [packet 1]).
Proof. split; reflexivity. Qed.

(** Nothing truncates a torn tail: appending after it makes the log
    unreadable, although the append itself reports success. *)
Example append_after_torn_tail :
  let packet n := mkSyncPacket n 0 SyncKind.Event 0 [n] in
  let w := mkSyncWal 64 4096 in
  let torn := (wal_append alloc_all (mkIoPlan true (Some 20%nat) true true) w (log_bytes [EPacket (packet 1)]) (packet 2)).1 in
  wal_replay alloc_all io_ok alloc_all w torn = Some (Ok [packet 1]) /\
  let '(file, r) := wal_append alloc_all io_ok w torn (packet 3) in
  r = Ok tt /\ wal_replay alloc_all io_ok alloc_all w file = Some (Err WalError.InvalidRecord).
Proof. split; [reflexivity|]. split; reflexivity. Qed.

(** ** Compaction *)
Definition seqs (l : list SyncPacket) : list Z := map sp_sequence l.

(** What a replay can return. *)
Record pending_ok (w : SyncWal) (pending : list SyncPacket) : Prop := {
  pk_nodup : NoDup (seqs pending);
  pk_len : zlen pending <= wal_max_records w;
  pk_ok : Forall (fun p => entry_ok w (EPacket p)) pending
}.

Lemma seqs_position pending s :
  match vec_position (fun q => sp_sequence q =? s) pending with
  | Some i => exists p, pending !z i = Some p /\ sp_sequence p = s
  | None => s ∉ seqs pending
  end.
Proof.
  destruct (vec_position _ pending) as [i|] eqn:Hp.
  - apply position_Some in Hp as (p & Hg & Hs%Z.eqb_eq). by exists p.
  - intros Hin. apply list_elem_of_In, in_map_iff in Hin as (p & <- & Hin). apply list_elem_of_In, list_elem_of_lookup in Hin as [k Hk].
    rewrite <- zget_nat in Hk. pose proof (position_None _ _ _ _ Hp Hk). simpl in *. lia.
Qed.

Lemma zset_seqs pending i p q : pending !z i = Some q -> sp_sequence q = sp_sequence p -> seqs (zset pending i p) = seqs pending.
Proof.
  intros Hq Hs. pose proof (zget_Some _ _ _ Hq). rewrite zget_lookup in Hq by lia. unfold seqs, zset.
  destruct (Z.ltb_spec i 0); [lia|]. rewrite <- !(fmap_map sp_sequence) || idtac.
  change (sp_sequence <$> <[Z.to_nat i := p]> pending = sp_sequence <$> pending).
  rewrite list_fmap_insert. apply list_insert_id. by rewrite list_lookup_fmap, Hq, <- Hs.
Qed.

Lemma replay_entry_pending w e pending pending' :
  entry_ok w e -> pending_ok w pending -> replay_entry w e pending = Ok pending' -> pending_ok w pending'.
Proof.
  intros He [Hn Hl Ho]. destruct e as [p|s]; cbn [replay_entry].
  - unfold pending_put. pose proof (seqs_position pending (sp_sequence p)) as Hp.
    destruct (vec_position _ pending) as [i|].
    + destruct Hp as (q & Hq & Hs). intros [= <-]. split; [by rewrite (zset_seqs _ _ _ q)|by rewrite zlen_zset|].
      unfold zset. destruct (i <? 0); [done|]. by apply Forall_insert.
    + destruct (Z.leb_spec (wal_max_records w) (zlen pending)); [done|]. intros [= <-].
      split; [|zsimp; lia|apply Forall_app; by split; [|constructor]].
      unfold seqs. rewrite map_app. apply list.NoDup_app. split; [done|]. split; [|apply NoDup_singleton].
      intros x Hx Hx'. apply list_elem_of_singleton in Hx' as ->. done.
  - intros [= <-]. split.
    + unfold seqs. clear -Hn. induction pending as [|q l IH]; simpl; [constructor|].
      inversion_clear Hn as [|? ? Hq Hn']. case_match; [|by apply IH]. simpl. constructor; [|by apply IH].
      intros Hin. apply Hq. apply list_elem_of_In, in_map_iff in Hin as (r & <- & Hr). apply filter_In in Hr as [Hr _].
      apply list_elem_of_In, in_map_iff. by exists r.
    + eapply Z.le_trans; [|exact Hl]. unfold zlen. pose proof (List.filter_length_le (fun p => s <? sp_sequence p) pending). lia.
    + rewrite list.Forall_forall in *. intros q Hq. apply list_elem_of_In, filter_In in Hq as [Hq _]. apply Ho. by apply list_elem_of_In.
Qed.

Lemma replay_entries_pending w es : forall pending pending',
  Forall (entry_ok w) es -> pending_ok w pending -> replay_entries w es pending = Ok pending' -> pending_ok w pending'.
Proof.
  induction es as [|e es IH]; intros pending pending' He Hp; cbn [replay_entries]; [by intros [= <-]|].
  inversion_clear He as [|? ? He' Hes]. destruct (replay_entry w e pending) as [p1|] eqn:H1; [|done]. simpl. intros H.
  eapply IH; [done| |done]. by eapply replay_entry_pending.
Qed.

(** Rewriting a replayed set and replaying it gives the same set. *)
Lemma replay_packets w pending : forall done_,
  pending_ok w (done_ ++ pending) -> replay_entries w (map EPacket pending) done_ = Ok (done_ ++ pending).
Proof.
  induction pending as [|p pending IH]; intros done_ Hok; cbn [map replay_entries replay_entry]; [by rewrite app_nil_r|].
  unfold pending_put. pose proof (seqs_position done_ (sp_sequence p)) as Hp.
  destruct Hok as [Hn Hl Ho]. destruct (vec_position _ done_) as [i|].
  - destruct Hp as (q & Hq & Hs). exfalso. unfold seqs in Hn. rewrite map_app in Hn. apply list.NoDup_app in Hn as (_ & Hd & _).
    apply (Hd (sp_sequence p)); [|simpl; set_solver]. rewrite <- Hs. pose proof (zget_Some _ _ _ Hq).
    rewrite zget_lookup in Hq by lia. apply list_elem_of_In, in_map, list_elem_of_In. by eapply list_elem_of_lookup_2.
  - rewrite zlen_app, zlen_cons in Hl. pose proof (zlen_nonneg pending).
    destruct (Z.leb_spec (wal_max_records w) (zlen done_)); [lia|]. cbn [result_bind].
    rewrite IH; [by rewrite <- (assoc_L (++))|]. rewrite <- (assoc_L (++)). split; [done|simpl; rewrite zlen_app, zlen_cons; lia|done].
Qed.

Lemma compact_records_spec w packets : forall A file room,
  Forall (fun p => entry_ok w (EPacket p)) packets -> 0 <= wal_max_payload_bytes w ->
  let '(f, r) := compact_records A w (mkFileHandle file room) packets in
  (r = Ok tt -> fh_bytes f = file ++ log_bytes (map EPacket packets)) /\
  (room = None -> (forall k, A k 0%nat = true) -> r = Ok tt).
Proof.
  induction packets as [|p packets IH]; intros A file room Hp Hw; cbn [compact_records map]; [by rewrite app_nil_r|].
  inversion_clear Hp as [|? ? Hpk Hps]. destruct (entry_body_len w (EPacket p) Hpk Hw) as [Hb _].
  destruct Hpk as ([] & Hm & Hu).
  destruct (Z.eqb_spec (zlen (sp_payload p)) 0); [lia|].
  destruct (Z.ltb_spec (wal_max_payload_bytes w) (zlen (sp_payload p))); [lia|]. cbn [orb].
  rewrite encode_spec. destruct (Z.eqb_spec (zlen (sp_payload p)) 0); [lia|].
  destruct (Z.ltb_spec U32_MAX (zlen (sp_payload p))); [lia|].
  destruct (A 0%nat 0%nat) eqn:HA; cbn [map_err]; [|split; [by simpl|intros _ H'; by rewrite H' in HA]].
  cbn [entry_body] in Hb. rewrite write_record_spec by done.
  assert (forall room', let '(f, r) := compact_records (fun k => A (S k)) w
      (mkFileHandle (file ++ record_bytes PACKET (packet_header p ++ sp_payload p)) room') packets in
    (r = Ok tt -> fh_bytes f = file ++ log_bytes (EPacket p :: map EPacket packets)) /\
    (room' = None -> (forall k, A k 0%nat = true) -> r = Ok tt)) as Hgo.
  { intros room'.
    pose proof (IH (fun k => A (S k)) (file ++ record_bytes PACKET (packet_header p ++ sp_payload p)) room' Hps Hw) as Hrec.
    destruct (compact_records _ _ _ packets) as [f r]. destruct Hrec as [H1 H2]. split; [|naive_solver].
    intros Hr. rewrite (H1 Hr). cbn [log_bytes map concat]. by rewrite <- (assoc_L (++)). }
  destruct room as [room|]; [|apply Hgo].
  destruct (_ <=? room)%nat; [|naive_solver]. pose proof (Hgo (Some (room - length (record_bytes PACKET (packet_header p ++ sp_payload p)))%nat)) as Hg.
  destruct (compact_records _ _ _ packets) as [f r]. naive_solver.
Qed.

(** compaction is safe and faithful.  Compacting a log to what replaying
    it returned: on any failure (limits, allocation, opening, a short write,
    the sync, the rename) the log file is untouched; on success the new log
    replays to exactly the same packets in the same order; and without faults
    it succeeds. *)
Theorem wal_compact_preserves A io w es pending temp :
  wal_ok w -> 0 <= wal_max_records w -> Forall (entry_ok w) es ->
  wal_replay alloc_all io_ok alloc_all w (log_bytes es) = Some (Ok pending) ->
  let '(d, r) := wal_compact A io w (mkWalDir (log_bytes es) temp) pending in
  (is_ok r = false -> wd_log d = log_bytes es) /\
  (r = Ok tt -> wal_replay alloc_all io_ok alloc_all w (wd_log d) = Some (Ok pending) /\ wd_temp d = None) /\
  (io = io_ok -> (forall k, A k 0%nat = true) -> r = Ok tt).
Proof.
  intros Hw Hmax Hes Hrep. rewrite replay_good in Hrep by done. injection Hrep as Hrep.
  assert (pending_ok w []) as H0 by (split; [constructor|zlen_nil_simp; lia|constructor]).
  pose proof (replay_entries_pending w es [] pending Hes H0 Hrep) as Hp.
  unfold wal_compact. destruct (Z.ltb_spec (wal_max_records w) (zlen pending)); [destruct Hp; lia|].
  destruct (io_open io) eqn:Ho; cbn [negb]; [|split; [done|split; [done|by intros ->]]].
  pose proof (compact_records_spec w pending A [] (io_room io) (pk_ok _ _ Hp) (wo_payload _ Hw)) as Hc.
  destruct (compact_records A w _ pending) as [f [[]|err]]; destruct Hc as [H1 H2].
  - destruct (io_sync io) eqn:Hs; cbn [negb]; [|split; [done|split; [done|by intros ->]]].
    destruct (io_rename io) eqn:Hr; [|split; [done|split; [done|by intros ->]]]. cbn [wd_log wd_temp].
    split; [done|]. split; [|done]. intros _. split; [|done]. rewrite H1 by done. rewrite app_nil_l, replay_good; [|done|].
    + f_equal. by apply (replay_packets w pending []).
    + apply Forall_map. exact (pk_ok _ _ Hp).
  - split; [done|]. split; [done|]. intros -> HA. by apply H2.
Qed.

Lemma wal_compact_preserves_witness :
  let packet n := mkSyncPacket n 0 SyncKind.Event 0 [n] in
  let w := mkSyncWal 64 4096 in
  let es := [EPacket (packet 1); EPacket (packet 2); EAck 1] in
  let '(d, r) := wal_compact (fun _ => alloc_all) io_ok w (mkWalDir (log_bytes es) None) [packet 2] in
  r = Ok tt /\ length (wd_log d) = 44%nat /\ wal_replay alloc_all io_ok alloc_all w (wd_log d) = Some (Ok [packet 2]).
Proof.
  intros packet w es.
  assert (Hw : wal_ok w) by (split; simpl; unfold umax; lia).
  assert (Hpk : forall n, 0 <= n < 256 -> packet_ok (packet n)).
  { intros n Hn. split; unfold is_u, U32_MAX; simpl; try lia; [repeat constructor; unfold is_u; lia|unfold zlen; simpl; lia]. }
  assert (Hes : Forall (entry_ok w) es).
  { repeat constructor; try (apply Hpk; lia); try (vm_compute; discriminate); try (split; [discriminate|reflexivity]). }
  pose proof (wal_compact_preserves (fun _ => alloc_all) io_ok w es [packet 2] None Hw ltac:(discriminate) Hes eq_refl) as H.
  destruct (wal_compact (fun _ => alloc_all) io_ok w (mkWalDir (log_bytes es) None) [packet 2]) as [d r] eqn:Hc.
  destruct H as (_ & H1 & H2). assert (Hr : r = Ok tt) by (apply H2; reflexivity).
  split; [exact Hr|]. split; [vm_compute in Hc; injection Hc as <- _; reflexivity|]. exact (proj1 (H1 Hr)).
Defined.

(** ** Logging without I/O faults *)
Lemma wal_log_io_ok A w file e : entry_typed e -> 0 <= wal_max_payload_bytes w ->
  let '(file', r) := wal_log A io_ok w file e in
  (is_ok r = true /\ entry_ok w e /\ file' = file ++ entry_bytes e) \/ (is_ok r = false /\ file' = file).
Proof.
  intros Ht Hw. destruct e as [p|s].
  - destruct (A 0%nat) eqn:HA.
    + destruct (log_spec A io_ok w file (EPacket p) Ht Hw) as [n Hn].
      destruct (wal_log A io_ok w file (EPacket p)) as [file' r]. destruct Hn as (_ & H1 & H2).
      destruct (entry_fits w (EPacket p)) eqn:Hf; [|right; naive_solver].
      assert (r = Ok tt) as -> by by apply H2. left. split; [done|]. split; [by apply entry_fits_ok|by apply H1].
    + cbn [wal_log]. unfold wal_append. destruct (_ || _); [by right|]. rewrite encode_spec, HA.
      destruct (_ =? 0); [by right|]. destruct (_ <? _); by right.
  - change (wal_log A io_ok w file (EAck s)) with (wal_log alloc_all io_ok w file (EAck s)).
    destruct (log_spec alloc_all io_ok w file (EAck s) Ht Hw) as [n Hn].
    destruct (wal_log alloc_all io_ok w file (EAck s)) as [file' r]. destruct Hn as (_ & H1 & H2).
    assert (r = Ok tt) as -> by by apply H2. left. split; [done|]. split; [done|by apply H1].
Qed.

Lemma replay_entries_app w es es' : forall pending,
  replay_entries w (es ++ es') pending = let? p := replay_entries w es pending in replay_entries w es' p.
Proof.
  induction es as [|e es IH]; intros pending; cbn [app replay_entries]; [done|].
  destruct (replay_entry w e pending); cbn [result_bind]; [apply IH|done].
Qed.

(** With room for every record the replay cannot overflow. *)
Lemma replay_entries_room w es : forall pending, zlen pending + zlen es <= wal_max_records w ->
  exists l, replay_entries w es pending = Ok l /\ zlen l <= zlen pending + zlen es.
Proof.
  induction es as [|e es IH]; intros pending Hl; cbn [replay_entries]; [exists pending; zlen_nil_simp; split; [done|lia]|].
  zsimp. pose proof (zlen_nonneg es).
  assert (exists p', replay_entry w e pending = Ok p' /\ zlen p' <= zlen pending + 1) as (p' & -> & Hp').
  { destruct e as [p|s]; cbn [replay_entry].
    - unfold pending_put. destruct (vec_position _ pending) as [i|]; [eexists; split; [done|]; rewrite zlen_zset; lia|].
      destruct (Z.leb_spec (wal_max_records w) (zlen pending)); [lia|]. eexists. split; [done|]. zsimp. lia.
    - eexists. split; [done|]. unfold zlen. pose proof (List.filter_length_le (fun p => s <? sp_sequence p) pending). lia. }
  cbn [result_bind]. destruct (IH p') as (l & -> & Hlen); [lia|]. exists l. split; [done|lia].
Qed.

(** A record keeps the packets of the other sequence numbers and adds its own. *)
Lemma pending_put_spec w pending p pending' : pending_put w pending p = Ok pending' ->
  p ∈ pending' /\ forall q, q ∈ pending -> sp_sequence q <> sp_sequence p -> q ∈ pending'.
Proof.
  unfold pending_put. destruct (vec_position _ pending) as [i|] eqn:Hp.
  - apply position_Some in Hp as (x & Hx & Hs%Z.eqb_eq). intros [= <-]. pose proof (zget_Some _ _ _ Hx) as Hi. split.
    + pose proof (zget_zset_eq pending i p Hi) as He. rewrite zget_lookup in He by lia. by eapply list_elem_of_lookup_2.
    + intros q Hq Hne. apply list_elem_of_lookup in Hq as [k Hk].
      assert (Z.of_nat k <> i) as Hki. { intros <-. rewrite zget_nat in Hx. congruence. }
      apply (list_elem_of_lookup_2 _ k). rewrite <- zget_nat, zget_zset_ne by done. by rewrite zget_nat.
  - destruct (_ <=? _); [done|]. intros [= <-]. set_solver.
Qed.
