(* ===== verification/Replicator.v ===== *)
(** The [Replicator] of [kernel/sync.rs]: sequencing, coalescing, the send
    window with bounded retries, acknowledgement and duplicate suppression,
    over the packet format of [Wire] and the log of [Wal].

    The log file is threaded through the operations that write it.  Statistics
    are [u64] counters that wrap. *)

From Stdlib Require Import Sorting.Sorted.
From stdpp Require Import sets.
From S2P Require Import Prelude Wire Wal.

Module SyncMode.
Inductive SyncMode := Offline | Online.
End SyncMode.
Abbreviation SyncMode := SyncMode.SyncMode.
#[global] Instance sync_mode_eq_dec : EqDecision SyncMode.
Proof. solve_decision. Defined.

Record SyncConfig := mkSyncConfig {
  max_pending : Z;
  max_payload_bytes : Z;
  max_in_flight : Z;
  resend_after_frames : Z;
  max_retries : Z
}.

Definition sync_config_default : SyncConfig := mkSyncConfig 4096 (256 * 1024) 128 3 8.

Record SyncStats := mkSyncStats {
  queued : Z;
  coalesced : Z;
  sent : Z;
  resent : Z;
  acknowledged : Z;
  duplicates : Z;
  dropped_retries : Z;
  rejected_backpressure : Z;
  rejected_receive : Z
}.
Definition sync_stats_default : SyncStats := mkSyncStats 0 0 0 0 0 0 0 0 0.

Definition bump (n : Z) : Z := wrapping_add 64 n 1.
Definition bump_queued s := mkSyncStats (bump (queued s)) (coalesced s) (sent s) (resent s) (acknowledged s) (duplicates s) (dropped_retries s) (rejected_backpressure s) (rejected_receive s).
Definition bump_coalesced s := mkSyncStats (queued s) (bump (coalesced s)) (sent s) (resent s) (acknowledged s) (duplicates s) (dropped_retries s) (rejected_backpressure s) (rejected_receive s).
Definition bump_sent s := mkSyncStats (queued s) (coalesced s) (bump (sent s)) (resent s) (acknowledged s) (duplicates s) (dropped_retries s) (rejected_backpressure s) (rejected_receive s).
Definition bump_resent s := mkSyncStats (queued s) (coalesced s) (sent s) (bump (resent s)) (acknowledged s) (duplicates s) (dropped_retries s) (rejected_backpressure s) (rejected_receive s).
Definition bump_acknowledged s := mkSyncStats (queued s) (coalesced s) (sent s) (resent s) (bump (acknowledged s)) (duplicates s) (dropped_retries s) (rejected_backpressure s) (rejected_receive s).
Definition bump_duplicates s := mkSyncStats (queued s) (coalesced s) (sent s) (resent s) (acknowledged s) (bump (duplicates s)) (dropped_retries s) (rejected_backpressure s) (rejected_receive s).
Definition bump_dropped s := mkSyncStats (queued s) (coalesced s) (sent s) (resent s) (acknowledged s) (duplicates s) (bump (dropped_retries s)) (rejected_backpressure s) (rejected_receive s).
Definition bump_backpressure s := mkSyncStats (queued s) (coalesced s) (sent s) (resent s) (acknowledged s) (duplicates s) (dropped_retries s) (bump (rejected_backpressure s)) (rejected_receive s).
Definition bump_rejected s := mkSyncStats (queued s) (coalesced s) (sent s) (resent s) (acknowledged s) (duplicates s) (dropped_retries s) (rejected_backpressure s) (bump (rejected_receive s)).

Record InFlight := mkInFlight {
  if_packet : SyncPacket;
  if_last_sent : Z;
  if_retries : Z
}.

Inductive TransportError := WouldBlock | Disconnected | Failed.

(** [SyncTransport]: [T] is the implementing type. *)
Class SyncTransport (T : Type) := send : T -> SyncPacket -> T * result TransportError unit.

Record PumpReport := mkPumpReport {
  pr_sent : Z;
  pr_resent : Z;
  pr_blocked : bool;
  pr_failed : Z
}.
Definition pump_report_default : PumpReport := mkPumpReport 0 0 false 0.

Record Replicator := mkReplicator {
  r_config : SyncConfig;
  r_mode : SyncMode;
  r_next_sequence : Z;
  r_last_received : Z;
  r_last_ack_sent : Z;
  r_pending : list SyncPacket;
  r_in_flight : list InFlight;
  r_wal : option SyncWal;
  r_session_nonce : option (list Z);
  r_stats : SyncStats
}.

Definition r_with_queue r next pending stats :=
  mkReplicator (r_config r) (r_mode r) next (r_last_received r) (r_last_ack_sent r) pending (r_in_flight r) (r_wal r) (r_session_nonce r) stats.
Definition r_with_flight r pending in_flight stats :=
  mkReplicator (r_config r) (r_mode r) (r_next_sequence r) (r_last_received r) (r_last_ack_sent r) pending in_flight (r_wal r) (r_session_nonce r) stats.
Definition r_with_stats r stats := r_with_flight r (r_pending r) (r_in_flight r) stats.
Definition r_with_session r nonce received ack :=
  mkReplicator (r_config r) (r_mode r) (r_next_sequence r) received ack (r_pending r) (r_in_flight r) (r_wal r) nonce (r_stats r).
Definition r_with_wal r wal :=
  mkReplicator (r_config r) (r_mode r) (r_next_sequence r) (r_last_received r) (r_last_ack_sent r) (r_pending r) (r_in_flight r) wal (r_session_nonce r) (r_stats r).

(** ** Construction and recovery *)
Definition replicator_try_new (A : alloc) (c : SyncConfig) : result SyncError Replicator :=
  if (max_pending c =? 0) || (max_payload_bytes c =? 0) || (max_in_flight c =? 0) then Err SyncError.InvalidConfig
  else if negb (A 0%nat) then Err SyncError.AllocationFailed
  else if negb (A 1%nat) then Err SyncError.AllocationFailed
  else Ok (mkReplicator c SyncMode.Offline 1 0 0 [] [] None None sync_stats_default).

(** The loop that queues recovered packets. *)
Fixpoint recover (r : Replicator) (recovered : list SyncPacket) : Replicator :=
  match recovered with
  | [] => r
  | p :: recovered =>
      recover (r_with_queue r (Z.max (r_next_sequence r) (Z.max (saturating_add 64 (sp_sequence p) 1) 1))
                 (r_pending r ++ [p]) (r_stats r)) recovered
  end.

(** [with_wal] and [attach_wal]; the outer [None] is the fuel of the replay. *)
Definition replicator_with_wal (A : alloc) (io : IoPlan) (rd : nat -> bool) (c : SyncConfig) (wal : SyncWal) (file : list Z) :
    option (result SyncError Replicator) :=
  match replicator_try_new A c with
  | Err e => Some (Err e)
  | Ok r =>
      recovered ← wal_replay (shift 2 A) io rd wal file;
      match recovered with
      | Err _ => Some (Err SyncError.PersistenceFailed)
      | Ok recovered =>
          if max_pending c <? zlen recovered then Some (Err SyncError.Backpressure)
          else Some (Ok (r_with_wal (recover r recovered) (Some wal)))
      end
  end.

Definition attach_wal (A : alloc) (io : IoPlan) (rd : nat -> bool) (r : Replicator) (wal : SyncWal) (file : list Z) :
    option (Replicator * result SyncError unit) :=
  recovered ← wal_replay A io rd wal file;
  match recovered with
  | Err _ => Some (r, Err SyncError.PersistenceFailed)
  | Ok recovered =>
      if max_pending (r_config r) <? saturating_add 64 (zlen (r_pending r)) (zlen recovered)
      then Some (r, Err SyncError.Backpressure)
      else Some (r_with_wal (recover r recovered) (Some wal), Ok tt)
  end.

Definition set_session_nonce r (nonce : list Z) : Replicator := r_with_session r (Some nonce) 0 0.
Definition clear_session r : Replicator := r_with_session r None 0 0.
Definition set_mode r (mode : SyncMode) : Replicator :=
  mkReplicator (r_config r) mode (r_next_sequence r) (r_last_received r) (r_last_ack_sent r) (r_pending r) (r_in_flight r)
    (r_wal r) (r_session_nonce r) (r_stats r).

(** ** Queueing *)
Definition validate r (payload : list Z) : result SyncError unit :=
  match payload with
  | [] => Err SyncError.EmptyPayload
  | _ => if max_payload_bytes (r_config r) <? zlen payload then Err SyncError.PayloadTooLarge else Ok tt
  end.

(** [if let Some(wal) = &self.wal { wal.append(..)? }]. *)
Definition log_packet (A : alloc) (io : IoPlan) r (file : list Z) (p : SyncPacket) : list Z * bool :=
  match r_wal r with
  | None => (file, true)
  | Some wal => let '(file, res) := wal_append A io wal file p in (file, is_ok res)
  end.

Definition enqueue (A : alloc) (io : IoPlan) r (file : list Z) (kind : SyncKind) (key : Z) (payload : list Z) :
    Replicator * list Z * result SyncError Z :=
  match validate r payload with
  | Err e => (r, file, Err e)
  | Ok _ =>
      if max_pending (r_config r) <=? zlen (r_pending r) then
        (r_with_stats r (bump_backpressure (r_stats r)), file, Err SyncError.Backpressure)
      else
        let sequence := r_next_sequence r in
        let next := Z.max (wrapping_add 64 (r_next_sequence r) 1) 1 in
        let packet := mkSyncPacket sequence (r_last_received r) kind key payload in
        let '(file, logged) := log_packet A io r file packet in
        if negb logged then (r_with_queue r next (r_pending r) (r_stats r), file, Err SyncError.PersistenceFailed)
        else (r_with_queue r next (r_pending r ++ [packet]) (bump_queued (r_stats r)), file, Ok sequence)
  end.

Definition enqueue_owned (A : alloc) io r file kind key payload : Replicator * list Z * result SyncError Z :=
  match validate r payload with
  | Err e => (r, file, Err e)
  | Ok _ =>
      if A 0%nat then enqueue (shift 1 A) io r file kind key payload else (r, file, Err SyncError.AllocationFailed)
  end.

Definition enqueue_snapshot A io r file payload := enqueue A io r file SyncKind.Snapshot 0 payload.
Definition enqueue_snapshot_bytes A io r file payload := enqueue_owned A io r file SyncKind.Snapshot 0 payload.
Definition enqueue_event A io r file key payload := enqueue A io r file SyncKind.Event key payload.
Definition enqueue_event_bytes A io r file key payload := enqueue_owned A io r file SyncKind.Event key payload.

Definition same_delta (key : Z) (p : SyncPacket) : bool :=
  bool_decide (sp_kind p = SyncKind.Delta) && (sp_key p =? key).

Definition with_payload (p : SyncPacket) (payload : list Z) : SyncPacket :=
  mkSyncPacket (sp_sequence p) (sp_ack p) (sp_kind p) (sp_key p) payload.

(** A queued delta of the same key has its payload replaced. *)
Definition enqueue_delta (A : alloc) (io : IoPlan) r (file : list Z) (key : Z) (payload : list Z) :
    option (Replicator * list Z * result SyncError Z) :=
  match validate r payload with
  | Err e => Some (r, file, Err e)
  | Ok _ =>
      match vec_position (same_delta key) (r_pending r) with
      | None => Some (enqueue A io r file SyncKind.Delta key payload)
      | Some i =>
          existing ← r_pending r !z i;
          let replacement := mkSyncPacket (sp_sequence existing) (r_last_received r) SyncKind.Delta key payload in
          let '(file, logged) := log_packet A io r file replacement in
          if negb logged then Some (r, file, Err SyncError.PersistenceFailed)
          else
            Some (r_with_queue r (r_next_sequence r) (zset (r_pending r) i (with_payload existing payload)) (bump_coalesced (r_stats r)),
                  file, Ok (sp_sequence existing))
      end
  end.

Definition enqueue_delta_bytes (A : alloc) io r file key payload : option (Replicator * list Z * result SyncError Z) :=
  match validate r payload with
  | Err e => Some (r, file, Err e)
  | Ok _ => if A 0%nat then enqueue_delta (shift 1 A) io r file key payload else Some (r, file, Err SyncError.AllocationFailed)
  end.

(** ** Sending *)
Section Pump.
Context {T : Type} `{SyncTransport T}.

(** First transmissions: [while in_flight.len() < max_in_flight]. *)
Fixpoint pump_send (room : Z) (frame : Z) (pending : list SyncPacket) (in_flight : list InFlight) (stats : SyncStats)
    (report : PumpReport) (t : T) : list SyncPacket * list InFlight * SyncStats * PumpReport * T :=
  match pending with
  | [] => ([], in_flight, stats, report, t)
  | packet :: rest =>
      if zlen in_flight <? room then
        match send t packet with
        | (t, Ok _) =>
            pump_send room frame rest (in_flight ++ [mkInFlight packet frame 0]) (bump_sent stats)
              (mkPumpReport (pr_sent report + 1) (pr_resent report) (pr_blocked report) (pr_failed report)) t
        | (t, Err _) =>
            (pending, in_flight, stats, mkPumpReport (pr_sent report) (pr_resent report) true (pr_failed report), t)
        end
      else (pending, in_flight, stats, report, t)
  end.

Definition resend_skipped (c : SyncConfig) (frame : Z) (item : InFlight) : bool :=
  (saturating_sub frame (if_last_sent item) <? resend_after_frames c) || (max_retries c <=? if_retries item).

Fixpoint pump_resend (c : SyncConfig) (frame : Z) (items : list InFlight) (stats : SyncStats) (report : PumpReport) (t : T) :
    list InFlight * SyncStats * PumpReport * T :=
  match items with
  | [] => ([], stats, report, t)
  | item :: items =>
      if resend_skipped c frame item then
        let '(items, stats, report, t) := pump_resend c frame items stats report t in (item :: items, stats, report, t)
      else
        match send t (if_packet item) with
        | (t, Ok _) =>
            let '(items, stats, report, t) :=
              pump_resend c frame items (bump_resent stats)
                (mkPumpReport (pr_sent report) (pr_resent report + 1) (pr_blocked report) (pr_failed report)) t in
            (mkInFlight (if_packet item) frame (if_retries item + 1) :: items, stats, report, t)
        | (t, Err _) =>
            let '(items, stats, report, t) :=
              pump_resend c frame items stats (mkPumpReport (pr_sent report) (pr_resent report) true (pr_failed report)) t in
            (item :: items, stats, report, t)
        end
  end.

Definition given_up (c : SyncConfig) (frame : Z) (item : InFlight) : bool :=
  (max_retries c <=? if_retries item) && (resend_after_frames c <=? saturating_sub frame (if_last_sent item)).

Fixpoint pump_retain (c : SyncConfig) (frame : Z) (items : list InFlight) (stats : SyncStats) (report : PumpReport) :
    list InFlight * SyncStats * PumpReport :=
  match items with
  | [] => ([], stats, report)
  | item :: items =>
      if given_up c frame item then
        pump_retain c frame items (bump_dropped stats)
          (mkPumpReport (pr_sent report) (pr_resent report) (pr_blocked report) (pr_failed report + 1))
      else
        let '(items, stats, report) := pump_retain c frame items stats report in (item :: items, stats, report)
  end.

Definition pump r (frame : Z) (t : T) : Replicator * T * PumpReport :=
  if negb (bool_decide (r_mode r = SyncMode.Online)) then (r, t, pump_report_default)
  else
    let '(pending, in_flight, stats, report, t) :=
      pump_send (max_in_flight (r_config r)) frame (r_pending r) (r_in_flight r) (r_stats r) pump_report_default t in
    let '(in_flight, stats, report, t) := pump_resend (r_config r) frame in_flight stats report t in
    let '(in_flight, stats, report) := pump_retain (r_config r) frame in_flight stats report in
    (r_with_flight r pending in_flight stats, t, report).
End Pump.

(** ** Acknowledgement and reception *)
Fixpoint ack_retain (sequence : Z) (items : list InFlight) (stats : SyncStats) : list InFlight * SyncStats :=
  match items with
  | [] => ([], stats)
  | item :: items =>
      if sp_sequence (if_packet item) <=? sequence then ack_retain sequence items (bump_acknowledged stats)
      else let '(items, stats) := ack_retain sequence items stats in (item :: items, stats)
  end.

Definition try_acknowledge (io : IoPlan) r (file : list Z) (sequence : Z) : Replicator * list Z * result SyncError unit :=
  let '(file, logged) :=
    match r_wal r with
    | None => (file, true)
    | Some wal => let '(file, res) := wal_acknowledge io wal file sequence in (file, is_ok res)
    end in
  if negb logged then (r, file, Err SyncError.PersistenceFailed)
  else
    let '(in_flight, stats) := ack_retain sequence (r_in_flight r) (r_stats r) in
    (r_with_flight r (r_pending r) in_flight stats, file, Ok tt).

Definition acknowledge io r file sequence : Replicator * list Z :=
  let '(r, file, _) := try_acknowledge io r file sequence in (r, file).

Definition receive (io : IoPlan) r (file : list Z) (packet : SyncPacket) : Replicator * list Z * option SyncPacket :=
  if (zlen (sp_payload packet) =? 0) || (max_payload_bytes (r_config r) <? zlen (sp_payload packet)) then
    (r_with_stats r (bump_rejected (r_stats r)), file, None)
  else if sp_sequence packet <=? r_last_received r then
    (r_with_stats r (bump_duplicates (r_stats r)), file, None)
  else
    let r := r_with_session r (r_session_nonce r) (sp_sequence packet) (r_last_ack_sent r) in
    if r_last_ack_sent r <? sp_ack packet then
      let '(r, file) := acknowledge io r file (sp_ack packet) in
      (r_with_session r (r_session_nonce r) (r_last_received r) (sp_ack packet), file, Some packet)
    else (r, file, Some packet).

Definition reject r := r_with_stats r (bump_rejected (r_stats r)).

Definition receive_bytes (A : alloc) (io : IoPlan) r (file bytes : list Z) :
    option (Replicator * list Z * result SyncError (option SyncPacket)) :=
  if zlen bytes <? 30 then Some (reject r, file, Err SyncError.InvalidPacket)
  else
    version ← bytes !! 0%nat;
    kind_b ← bytes !! 1%nat;
    match byte_kind kind_b with
    | None => Some (reject r, file, Err SyncError.InvalidPacket)
    | Some kind =>
        if negb (version =? 1) then Some (reject r, file, Err SyncError.InvalidPacket)
        else
          let sequence := from_le_bytes (slice 2 10 bytes) in
          let ack := from_le_bytes (slice 10 18 bytes) in
          let key := from_le_bytes (slice 18 26 bytes) in
          let len := from_le_bytes (slice 26 30 bytes) in
          match checked_add 64 30 len with
          | None => Some (r, file, Err SyncError.ReceiveTooLarge)
          | Some total =>
              if len =? 0 then Some (reject r, file, Err SyncError.EmptyPayload)
              else if (max_payload_bytes (r_config r) <? len) || negb (total =? zlen bytes) then
                Some (reject r, file, Err SyncError.ReceiveTooLarge)
              else if negb (A 0%nat) then Some (r, file, Err SyncError.AllocationFailed)
              else
                let '(r, file, p) := receive io r file (mkSyncPacket sequence ack kind key (drop 30 bytes)) in
                Some (r, file, Ok p)
          end
    end.

Definition receive_authenticated_bytes `{SyncAuthenticator T} (A : alloc) (io : IoPlan) r (file bytes : list Z) (a : T) :
    option (Replicator * list Z * result SyncError (option SyncPacket)) :=
  if zlen bytes <? 16 + 32 then Some (reject r, file, Err SyncError.AuthenticationFailed)
  else
    match r_session_nonce r with
    | None => Some (r, file, Err SyncError.NoSession)
    | Some configured =>
        let nonce := take 16 bytes in
        if negb (bool_decide (nonce = configured)) then Some (reject r, file, Err SyncError.AuthenticationFailed)
        else
          let signed_end := (length bytes - 32)%nat in
          let tag := drop signed_end bytes in
          if negb (verify_tag a (take signed_end bytes) tag) then Some (reject r, file, Err SyncError.AuthenticationFailed)
          else receive_bytes A io r file (slice 16 signed_end bytes)
    end.

(** ** Lemmas: the window *)
Definition window r : list SyncPacket := map if_packet (r_in_flight r) ++ r_pending r.

Lemma sorted_filter {B} (g : B -> Z) (f : B -> bool) (l : list B) (k : list Z) :
  StronglySorted Z.lt (map g l ++ k) -> StronglySorted Z.lt (map g (List.filter f l) ++ k).
Proof.
  induction l as [|x l IH]; cbn [map List.filter app]; [done|]. intros Hs. inversion_clear Hs as [|? ? Hs' Hx].
  destruct (f x); [|by apply IH]. cbn [map app]. constructor; [by apply IH|].
  apply Forall_app in Hx as [Hx Hk]. apply Forall_app. split; [|done].
  apply list.Forall_forall. rewrite list.Forall_forall in Hx. intros y Hy. apply Hx.
  apply list_elem_of_In, in_map_iff in Hy as (z & <- & Hz). apply filter_In in Hz as [Hz _].
  apply list_elem_of_In, in_map_iff. by exists z.
Qed.

Lemma forall_filter {B} (P : B -> Prop) (f : B -> bool) l : Forall P l -> Forall P (List.filter f l).
Proof. induction 1; simpl; [constructor|]. destruct (f x); [by constructor|done]. Qed.

Lemma zlen_filter_le {B} (f : B -> bool) l : zlen (List.filter f l) <= zlen l.
Proof. unfold zlen. pose proof (List.filter_length_le f l). lia. Qed.

Lemma bump_wrap n k : wrap 64 (bump n + k) = wrap 64 (n + (1 + k)).
Proof. unfold bump, wrapping_add. rewrite wrap_add_l by lia. f_equal. lia. Qed.

(** Packets accepted less those acknowledged or given up. *)
Definition balance (s : SyncStats) (outstanding : Z) : Z :=
  wrap 64 (queued s - acknowledged s - dropped_retries s - outstanding).

Lemma wrap_sub_bump a n b : wrap 64 (a - bump n - b) = wrap 64 (a - n - (1 + b)).
Proof.
  unfold bump, wrapping_add. replace (a - wrap 64 (n + 1) - b) with ((a - b) - wrap 64 (n + 1)) by lia.
  unfold wrap. rewrite Zminus_mod_idemp_r. f_equal. lia.
Qed.

Lemma balance_queued s n : balance (bump_queued s) (n + 1) = balance s n.
Proof.
  unfold balance. simpl. replace (bump (queued s) - acknowledged s - dropped_retries s - (n + 1))
    with (bump (queued s) + (- acknowledged s - dropped_retries s - (n + 1))) by lia.
  rewrite bump_wrap. f_equal. lia.
Qed.

Lemma balance_acknowledged s n : balance (bump_acknowledged s) n = balance s (n + 1).
Proof.
  unfold balance. simpl. replace (queued s - bump (acknowledged s) - dropped_retries s - n)
    with (queued s - bump (acknowledged s) - (dropped_retries s + n)) by lia.
  rewrite wrap_sub_bump. f_equal. lia.
Qed.

Lemma balance_dropped s n : balance (bump_dropped s) n = balance s (n + 1).
Proof.
  unfold balance. simpl. rewrite wrap_sub_bump. f_equal. lia.
Qed.

Section PumpLemmas.
Context {T : Type} `{SyncTransport T}.

Lemma pump_send_spec room frame pending : forall in_flight stats report (t : T),
  let '(pending', in_flight', stats', report', t') := pump_send room frame pending in_flight stats report t in
  exists first, pending = first ++ pending' /\ in_flight' = in_flight ++ map (fun p => mkInFlight p frame 0) first /\
  (zlen in_flight <= room -> zlen in_flight' <= room) /\
  (forall n, balance stats' n = balance stats n).
Proof.
  induction pending as [|p pending IH]; intros in_flight stats report t; cbn [pump_send].
  { exists []. cbn [map app]. rewrite app_nil_r. done. }
  destruct (Z.ltb_spec (zlen in_flight) room); [|exists []; cbn [map app]; rewrite app_nil_r; done].
  destruct (send t p) as [t1 [u|e]]; [|exists []; cbn [map app]; rewrite app_nil_r; done].
  pose proof (IH (in_flight ++ [mkInFlight p frame 0]) (bump_sent stats)
    (mkPumpReport (pr_sent report + 1) (pr_resent report) (pr_blocked report) (pr_failed report)) t1) as Hrec.
  destruct (pump_send room frame pending _ _ _ t1) as [[[[pending' in_flight'] stats'] report'] t'].
  destruct Hrec as (first & -> & -> & Hroom & Hbal). exists (p :: first). split; [done|].
  split; [by rewrite <- (assoc_L (++))|]. split; [|done]. intros _. apply Hroom. zsimp. lia.
Qed.

Lemma pump_resend_spec c frame items : forall stats report (t : T),
  let '(items', stats', report', t') := pump_resend c frame items stats report t in
  map if_packet items' = map if_packet items /\ zlen items' = zlen items /\
  (Forall (fun i => if_retries i <= max_retries c) items -> Forall (fun i => if_retries i <= max_retries c) items') /\
  (forall n, balance stats' n = balance stats n).
Proof.
  induction items as [|item items IH]; intros stats report t; cbn [pump_resend]; [done|].
  assert (forall stats0 report0 (t0 : T) i0, if_packet i0 = if_packet item ->
    (if_retries item <= max_retries c -> if_retries i0 <= max_retries c) -> (forall n, balance stats0 n = balance stats n) ->
    let '(items', stats', report', t') :=
      (let '(its, st, rep, t1) := pump_resend c frame items stats0 report0 t0 in (i0 :: its, st, rep, t1)) in
    map if_packet items' = map if_packet (item :: items) /\ zlen items' = zlen (item :: items) /\
    (Forall (fun i => if_retries i <= max_retries c) (item :: items) -> Forall (fun i => if_retries i <= max_retries c) items') /\
    (forall n, balance stats' n = balance stats n)) as Hgo.
  { intros stats0 report0 t0 i0 Hp Hr Hb. pose proof (IH stats0 report0 t0) as Hrec.
    destruct (pump_resend c frame items stats0 report0 t0) as [[[items' stats'] report'] t'].
    destruct Hrec as (Hm & Hl & Hf & Hb'). split; [cbn [map]; by rewrite Hp, Hm|]. split; [zsimp; lia|].
    split; [|intros n; by rewrite Hb', Hb]. intros Hall. inversion_clear Hall. constructor; [by apply Hr|by apply Hf]. }
  destruct (resend_skipped c frame item) eqn:Hs; [by apply Hgo|].
  destruct (send t (if_packet item)) as [t1 [u|e]]; apply Hgo; try done.
  intros _. simpl. unfold resend_skipped in Hs. apply orb_false_iff in Hs as [_ Hs%Z.leb_gt]. lia.
Qed.
End PumpLemmas.

Lemma pump_retain_spec c frame items : forall stats report,
  let '(items', stats', report') := pump_retain c frame items stats report in
  items' = List.filter (fun i => negb (given_up c frame i)) items /\
  (forall n, balance stats' (zlen items' + n) = balance stats (zlen items + n)) /\
  pr_failed report' = pr_failed report + (zlen items - zlen items').
Proof.
  induction items as [|item items IH]; intros stats report; cbn [pump_retain List.filter]; [split; [done|]; split; [done|]; zlen_nil_simp; lia|].
  destruct (given_up c frame item); cbn [negb].
  - pose proof (IH (bump_dropped stats) (mkPumpReport (pr_sent report) (pr_resent report) (pr_blocked report) (pr_failed report + 1))) as Hr.
    destruct (pump_retain c frame items _ _) as [[items' stats'] report']. destruct Hr as (-> & Hb & Hf).
    split; [done|]. split; [|rewrite Hf; zsimp; simpl; lia]. intros n. rewrite Hb, balance_dropped. f_equal. zsimp. lia.
  - pose proof (IH stats report) as Hr. destruct (pump_retain c frame items _ _) as [[items' stats'] report'].
    destruct Hr as (-> & Hb & Hf). split; [done|]. split; [|rewrite Hf; zsimp; lia]. intros n. zsimp.
    rewrite <- !Z.add_assoc. apply Hb.
Qed.

Lemma ack_retain_spec sequence items : forall stats,
  let '(items', stats') := ack_retain sequence items stats in
  items' = List.filter (fun i => sequence <? sp_sequence (if_packet i)) items /\
  (forall n, balance stats' (zlen items' + n) = balance stats (zlen items + n)).
Proof.
  induction items as [|item items IH]; intros stats; cbn [ack_retain List.filter]; [done|].
  destruct (Z.leb_spec (sp_sequence (if_packet item)) sequence), (Z.ltb_spec sequence (sp_sequence (if_packet item))); try lia.
  - pose proof (IH (bump_acknowledged stats)) as Hr. destruct (ack_retain sequence items _) as [items' stats'].
    destruct Hr as (-> & Hb). split; [done|]. intros n. rewrite Hb, balance_acknowledged. f_equal. zsimp. lia.
  - pose proof (IH stats) as Hr. destruct (ack_retain sequence items _) as [items' stats']. destruct Hr as (-> & Hb).
    split; [done|]. intros n. zsimp. rewrite <- !Z.add_assoc. apply Hb.
Qed.

(** ** The invariant of the window *)
Record window_inv r (n : Z) : Prop := {
  wi_sorted : StronglySorted Z.lt (seqs (window r));
  wi_range : Forall (fun p => 1 <= sp_sequence p < r_next_sequence r) (window r);
  wi_payload : Forall (fun p => 0 < zlen (sp_payload p) <= max_payload_bytes (r_config r)) (window r);
  wi_pending : zlen (r_pending r) <= max_pending (r_config r);
  wi_flight : zlen (r_in_flight r) <= max_in_flight (r_config r);
  wi_retries : Forall (fun i => if_retries i <= max_retries (r_config r)) (r_in_flight r);
  wi_next : 1 <= r_next_sequence r <= n + 1;
  wi_config : 0 <= max_retries (r_config r);
  wi_balance : balance (r_stats r) (zlen (r_in_flight r) + zlen (r_pending r)) = 0
}.

Lemma window_weaken r n n' : n <= n' -> window_inv r n -> window_inv r n'.
Proof. intros Hn []. split; try done. lia. Qed.

(** The fields the invariant reads. *)
Lemma window_same r r' n :
  r_config r' = r_config r -> r_next_sequence r' = r_next_sequence r -> r_pending r' = r_pending r ->
  r_in_flight r' = r_in_flight r -> (forall k, balance (r_stats r') k = balance (r_stats r) k) ->
  window_inv r n -> window_inv r' n.
Proof. intros Hc Hn Hp Hi Hb []. split; unfold window; rewrite ?Hc, ?Hn, ?Hp, ?Hi, ?Hb; done. Qed.

Lemma next_step n m : 1 <= n <= m + 1 -> m + 1 < 2 ^ 64 - 1 -> Z.max (wrapping_add 64 n 1) 1 = n + 1.
Proof. intros. unfold wrapping_add. rewrite wrap_small by (unfold is_u; lia). lia. Qed.

(** What [enqueue] does, whatever the log. *)
Lemma enqueue_spec A io r file kind key payload n :
  window_inv r n -> n + 1 < 2 ^ 64 - 1 ->
  let '(r', file', res) := enqueue A io r file kind key payload in
  window_inv r' (n + 1) /\ r_config r' = r_config r /\
  match res with
  | Ok s => s = r_next_sequence r /\ r_in_flight r' = r_in_flight r /\
      r_pending r' = r_pending r ++ [mkSyncPacket s (r_last_received r) kind key payload]
  | Err e => r_pending r' = r_pending r /\ r_in_flight r' = r_in_flight r
  end.
Proof.
  intros Hi Hn. pose proof Hi as []. unfold enqueue, validate.
  destruct payload as [|b payload]; [split; [by apply (window_weaken r n); [lia|]|done]|].
  destruct (Z.ltb_spec (max_payload_bytes (r_config r)) (zlen (b :: payload))); [split; [by apply (window_weaken r n); [lia|]|done]|].
  destruct (Z.leb_spec (max_pending (r_config r)) (zlen (r_pending r))).
  { split; [|done]. by apply (window_weaken _ n); [lia|]; apply (window_same r). }
  destruct (log_packet A io r file _) as [file' []]; cbn [negb]; rewrite (next_step _ n) by lia.
  - split; [|done]. unfold window in *. split; simpl; unfold window; simpl; try done.
    + rewrite (assoc_L (++)). unfold seqs. rewrite map_app. apply sorted_snoc; [done|].
      apply Forall_map. eapply Forall_impl; [|exact wi_range0]. simpl. lia.
    + rewrite (assoc_L (++)). apply Forall_app. split; [|constructor; [simpl; lia|constructor]].
      eapply Forall_impl; [|exact wi_range0]. simpl. lia.
    + rewrite (assoc_L (++)). apply Forall_app. split; [done|]. constructor; [|constructor]. cbn [sp_payload]. zsimp.
      pose proof (zlen_nonneg payload). lia.
    + zsimp. lia.
    + lia.
    + zsimp. rewrite Z.add_assoc, balance_queued. done.
  - split; [|done]. split; simpl; try done; [|lia]. eapply Forall_impl; [|exact wi_range0]. simpl. lia.
Qed.

Lemma enqueue_owned_spec A io r file kind key payload n :
  window_inv r n -> n + 1 < 2 ^ 64 - 1 ->
  let '(r', file', res) := enqueue_owned A io r file kind key payload in window_inv r' (n + 1) /\ r_config r' = r_config r.
Proof.
  intros Hi Hn. unfold enqueue_owned. destruct (validate r payload); [|split; [by apply (window_weaken r n); [lia|]|done]].
  destruct (A 0%nat); [|split; [by apply (window_weaken r n); [lia|]|done]].
  pose proof (enqueue_spec (shift 1 A) io r file kind key payload n Hi Hn) as He.
  destruct (enqueue _ io r file kind key payload) as [[r' file'] res]. by destruct He as (? & ? & _).
Qed.

Lemma window_zset r i p q :
  r_pending r !z i = Some p -> sp_sequence q = sp_sequence p ->
  seqs (map if_packet (r_in_flight r) ++ zset (r_pending r) i q) = seqs (window r).
Proof. intros Hp Hs. unfold window, seqs. rewrite !map_app. f_equal. by apply (zset_seqs _ _ _ p). Qed.

Lemma Forall_zset {B} (P : B -> Prop) l i x : Forall P l -> P x -> Forall P (zset l i x).
Proof. intros. unfold zset. destruct (i <? 0); [done|]. by apply Forall_insert. Qed.

Lemma enqueue_delta_spec A io r file key payload n :
  window_inv r n -> n + 1 < 2 ^ 64 - 1 ->
  exists r' file' res, enqueue_delta A io r file key payload = Some (r', file', res) /\
  window_inv r' (n + 1) /\ r_config r' = r_config r.
Proof.
  intros Hi Hn. pose proof Hi as []. pose proof (window_weaken r n (n + 1) ltac:(lia) Hi) as Hi'. unfold enqueue_delta.
  destruct (validate r payload) as [[]|e] eqn:Hv; [|by do 3 eexists].
  destruct (vec_position _ (r_pending r)) as [i|] eqn:Hp.
  - apply position_Some in Hp as (p & Hp & _). rewrite Hp. cbn [mbind option_bind].
    destruct (log_packet A io r file _) as [file' []]; cbn [negb]; [|by do 3 eexists].
    do 3 eexists. split; [done|]. split; [|done]. unfold window in *. apply Forall_app in wi_range0 as [Hr1 Hr2], wi_payload0 as [Hq1 Hq2].
    assert (p ∈ r_pending r) as Hin by (pose proof (zget_Some _ _ _ Hp); rewrite zget_lookup in Hp by lia; by eapply list_elem_of_lookup_2).
    split; simpl; unfold window; simpl; rewrite ?zlen_zset; try done.
    + by erewrite window_zset.
    + apply Forall_app. split; [done|]. apply Forall_zset; [done|]. rewrite list.Forall_forall in Hr2. exact (Hr2 p Hin).
    + apply Forall_app. split; [done|]. apply Forall_zset; [done|]. unfold validate in Hv. cbn [with_payload sp_payload].
      destruct payload as [|b l]; [done|]. destruct (Z.ltb_spec (max_payload_bytes (r_config r)) (zlen (b :: l))); [done|].
      split; [|done]. zsimp. pose proof (zlen_nonneg l). lia.
    + lia.
  - pose proof (enqueue_spec A io r file SyncKind.Delta key payload n Hi Hn) as He.
    destruct (enqueue A io r file SyncKind.Delta key payload) as [[r' file'] res]. do 3 eexists. split; [done|]. by destruct He as (? & ? & _).
Qed.

Lemma enqueue_delta_bytes_spec A io r file key payload n :
  window_inv r n -> n + 1 < 2 ^ 64 - 1 ->
  exists r' file' res, enqueue_delta_bytes A io r file key payload = Some (r', file', res) /\
  window_inv r' (n + 1) /\ r_config r' = r_config r.
Proof.
  intros Hi Hn. pose proof (window_weaken r n (n + 1) ltac:(lia) Hi) as Hi'. unfold enqueue_delta_bytes.
  destruct (validate r payload); [|by do 3 eexists]. destruct (A 0%nat); [|by do 3 eexists]. by apply enqueue_delta_spec.
Qed.

Lemma pump_window {T} `{SyncTransport T} r frame (t : T) n :
  window_inv r n -> let '(r', t', report) := pump r frame t in window_inv r' n /\ r_config r' = r_config r.
Proof.
  intros Hi. unfold pump. case_bool_decide; [|done]. cbn [negb]. destruct Hi.
  pose proof (pump_send_spec (max_in_flight (r_config r)) frame (r_pending r) (r_in_flight r) (r_stats r) pump_report_default t) as H1.
  destruct (pump_send _ _ _ _ _ _ t) as [[[[pending' fl1] st1] rp1] t1]. destruct H1 as (first & Hpen & -> & Hroom & Hb1).
  pose proof (pump_resend_spec (r_config r) frame (r_in_flight r ++ map (fun p => mkInFlight p frame 0) first) st1 rp1 t1) as H2.
  destruct (pump_resend _ _ _ _ _ t1) as [[[fl2 st2] rp2] t2]. destruct H2 as (Hmap & Hl2 & Hret & Hb2).
  pose proof (pump_retain_spec (r_config r) frame fl2 st2 rp2) as H3.
  destruct (pump_retain _ _ _ _ _) as [[fl3 st3] rp3]. destruct H3 as (-> & Hb3 & _).
  split; [|done]. specialize (Hroom wi_flight0). unfold window in *.
  assert (map if_packet fl2 ++ pending' = map if_packet (r_in_flight r) ++ r_pending r) as Hw.
  { rewrite Hmap, Hpen, map_app, map_map, map_id, <- (assoc_L (++)). done. }
  assert (zlen fl2 + zlen pending' = zlen (r_in_flight r) + zlen (r_pending r)) as Hlen.
  { rewrite Hl2, Hpen. zsimp. unfold zlen. rewrite length_map. lia. }
  assert (forall P, Forall P (map if_packet (r_in_flight r) ++ r_pending r) ->
    Forall P (map if_packet (List.filter (fun i => negb (given_up (r_config r) frame i)) fl2) ++ pending')) as Hf.
  { intros P. rewrite <- Hw, !Forall_app. intros [Ha Hb]. split; [|done]. rewrite Forall_map in Ha |- *. by apply forall_filter. }
  split; simpl; unfold window; simpl.
  - rewrite <- Hw in wi_sorted0. unfold seqs in *. rewrite map_app, map_map in *. by apply sorted_filter.
  - by apply Hf.
  - by apply Hf.
  - rewrite Hpen in wi_pending0. zsimp. pose proof (zlen_nonneg first). lia.
  - pose proof (zlen_filter_le (fun i => negb (given_up (r_config r) frame i)) fl2). lia.
  - apply forall_filter, Hret. apply Forall_app. split; [done|]. apply Forall_map. by apply list.Forall_forall.
  - done.
  - done.
  - rewrite Hb3, Hb2, Hb1, Hlen. done.
Qed.

Lemma acknowledge_window io r file sequence n :
  window_inv r n ->
  let '(r', file', res) := try_acknowledge io r file sequence in
  window_inv r' n /\ r_config r' = r_config r /\ r_pending r' = r_pending r /\ r_wal r' = r_wal r /\
  r_last_received r' = r_last_received r /\ r_session_nonce r' = r_session_nonce r /\ r_last_ack_sent r' = r_last_ack_sent r /\
  r_in_flight r' =
    if is_ok res then List.filter (fun i => sequence <? sp_sequence (if_packet i)) (r_in_flight r) else r_in_flight r.
Proof.
  intros Hi. unfold try_acknowledge.
  destruct (match r_wal r with None => _ | Some wal => _ end) as [file' []]; cbn [negb is_ok]; [|done].
  pose proof (ack_retain_spec sequence (r_in_flight r) (r_stats r)) as Ha.
  destruct (ack_retain sequence (r_in_flight r) (r_stats r)) as [fl st]. destruct Ha as (-> & Hb).
  split; [|done]. destruct Hi. unfold window in *.
  assert (forall P, Forall P (map if_packet (r_in_flight r) ++ r_pending r) ->
    Forall P (map if_packet (List.filter (fun i => sequence <? sp_sequence (if_packet i)) (r_in_flight r)) ++ r_pending r)) as Hf.
  { intros P. rewrite !Forall_app. intros [Ha Hc]. split; [|done]. rewrite Forall_map in Ha |- *. by apply forall_filter. }
  split; simpl; unfold window; simpl; try done.
  - unfold seqs in *. rewrite map_app, map_map in *. by apply sorted_filter.
  - by apply Hf.
  - by apply Hf.
  - pose proof (zlen_filter_le (fun i => sequence <? sp_sequence (if_packet i)) (r_in_flight r)). lia.
  - by apply forall_filter.
  - by rewrite Hb.
Qed.

(** What [receive] delivers. *)
Definition receivable r (p : SyncPacket) : bool :=
  (0 <? zlen (sp_payload p)) && (zlen (sp_payload p) <=? max_payload_bytes (r_config r)).

Lemma receive_spec io r file p n :
  window_inv r n ->
  let '(r', file', res) := receive io r file p in
  window_inv r' n /\ r_config r' = r_config r /\ r_pending r' = r_pending r /\ r_session_nonce r' = r_session_nonce r /\
  res = (if receivable r p && (r_last_received r <? sp_sequence p) then Some p else None) /\
  r_last_received r' = (if receivable r p then Z.max (r_last_received r) (sp_sequence p) else r_last_received r) /\
  (res = None -> r_in_flight r' = r_in_flight r /\ r_last_ack_sent r' = r_last_ack_sent r /\ file' = file) /\
  (res = Some p -> r_last_ack_sent r' = Z.max (r_last_ack_sent r) (sp_ack p)).
Proof.
  intros Hi. unfold receive, receivable. pose proof (zlen_nonneg (sp_payload p)).
  assert (forall s, (forall k, balance s k = balance (r_stats r) k) -> window_inv (r_with_stats r s) n) as Hst
    by (intros s Hs; by apply (window_same r)).
  destruct (Z.eqb_spec (zlen (sp_payload p)) 0), (Z.ltb_spec 0 (zlen (sp_payload p))); try lia; cbn [orb andb].
  { split; [by apply Hst|]. naive_solver. }
  destruct (Z.ltb_spec (max_payload_bytes (r_config r)) (zlen (sp_payload p))),
    (Z.leb_spec (zlen (sp_payload p)) (max_payload_bytes (r_config r))); try lia; cbn [andb].
  { split; [by apply Hst|]. naive_solver. }
  destruct (Z.leb_spec (sp_sequence p) (r_last_received r)), (Z.ltb_spec (r_last_received r) (sp_sequence p)); try lia.
  { split; [by apply Hst|]. simpl. rewrite Z.max_l by lia. naive_solver. }
  set (r0 := r_with_session r (r_session_nonce r) (sp_sequence p) (r_last_ack_sent r)).
  assert (window_inv r0 n) as Hi0 by by apply (window_same r).
  change (r_last_ack_sent r0) with (r_last_ack_sent r). rewrite Z.max_r by lia.
  destruct (Z.ltb_spec (r_last_ack_sent r) (sp_ack p)).
  - unfold acknowledge. pose proof (acknowledge_window io r0 file (sp_ack p) n Hi0) as Ha.
    destruct (try_acknowledge io r0 file (sp_ack p)) as [[r1 file1] res1].
    destruct Ha as (Hi1 & Hc & Hp & _ & Hr & Hn & Hl & _).
    split; [by apply (window_same r1)|]. cbn. split; [done|]. split; [done|]. split; [done|]. split; [done|]. split; [done|].
    split; [done|]. intros _. lia.
  - split; [done|]. simpl. split; [done|]. split; [done|]. split; [done|]. split; [done|]. split; [done|]. split; [done|]. intros _. lia.
Qed.

(** ** Running the replicator *)
Inductive sync_op :=
| OpSnapshot (owned : bool) (payload : list Z)
| OpEvent (owned : bool) (key : Z) (payload : list Z)
| OpDelta (owned : bool) (key : Z) (payload : list Z)
| OpPump (frame : Z)
| OpAck (sequence : Z)
| OpReceive (packet : SyncPacket)
| OpMode (mode : SyncMode)
| OpSession (nonce : option (list Z)).

Section Run.
Context {T : Type} `{SyncTransport T}.

Definition sync_step (A : alloc) (io : IoPlan) (op : sync_op) (s : Replicator * list Z * T) : option (Replicator * list Z * T) :=
  let '(r, file, t) := s in
  match op with
  | OpSnapshot owned payload =>
      let '(r, file, _) := (if owned then enqueue_snapshot else enqueue_snapshot_bytes) A io r file payload in Some (r, file, t)
  | OpEvent owned key payload =>
      let '(r, file, _) := (if owned then enqueue_event else enqueue_event_bytes) A io r file key payload in Some (r, file, t)
  | OpDelta owned key payload =>
      '(r, file, _) ← (if owned then enqueue_delta else enqueue_delta_bytes) A io r file key payload; Some (r, file, t)
  | OpPump frame => let '(r, t, _) := pump r frame t in Some (r, file, t)
  | OpAck sequence => let '(r, file, _) := try_acknowledge io r file sequence in Some (r, file, t)
  | OpReceive packet => let '(r, file, _) := receive io r file packet in Some (r, file, t)
  | OpMode mode => Some (set_mode r mode, file, t)
  | OpSession (Some nonce) => Some (set_session_nonce r nonce, file, t)
  | OpSession None => Some (clear_session r, file, t)
  end.

Fixpoint sync_run (ops : list (alloc * IoPlan * sync_op)) (s : Replicator * list Z * T) : option (Replicator * list Z * T) :=
  match ops with
  | [] => Some s
  | (A, io, op) :: ops => s ← sync_step A io op s; sync_run ops s
  end.

Lemma sync_step_inv A io op r file t n :
  window_inv r n -> n + 1 < 2 ^ 64 - 1 ->
  exists r' file' t', sync_step A io op (r, file, t) = Some (r', file', t') /\ window_inv r' (n + 1) /\ r_config r' = r_config r.
Proof.
  intros Hi Hn. assert (forall r', window_inv r' n -> window_inv r' (n + 1)) as Hw by (intros r'; apply window_weaken; lia).
  assert (forall kind key payload, let '(r', file', res) := enqueue A io r file kind key payload in
    window_inv r' (n + 1) /\ r_config r' = r_config r) as He.
  { intros. pose proof (enqueue_spec A io r file kind key payload n Hi Hn) as He.
    destruct (enqueue A io r file kind key payload) as [[r' file'] res]. by destruct He as (? & ? & _). }
  assert (forall kind key payload, let '(r', file', res) := enqueue_owned A io r file kind key payload in
    window_inv r' (n + 1) /\ r_config r' = r_config r) as Ho by (intros; by apply enqueue_owned_spec).
  destruct op as [[] payload|[] key payload|[] key payload|frame|s|p|m|[nonce|]]; cbn [sync_step].
  - unfold enqueue_snapshot. specialize (He SyncKind.Snapshot 0 payload). destruct (enqueue _ _ _ _ _ _ _) as [[r' f'] res]. by do 3 eexists.
  - unfold enqueue_snapshot_bytes. specialize (Ho SyncKind.Snapshot 0 payload). destruct (enqueue_owned _ _ _ _ _ _ _) as [[r' f'] res]. by do 3 eexists.
  - unfold enqueue_event. specialize (He SyncKind.Event key payload). destruct (enqueue _ _ _ _ _ _ _) as [[r' f'] res]. by do 3 eexists.
  - unfold enqueue_event_bytes. specialize (Ho SyncKind.Event key payload). destruct (enqueue_owned _ _ _ _ _ _ _) as [[r' f'] res]. by do 3 eexists.
  - destruct (enqueue_delta_spec A io r file key payload n Hi Hn) as (r' & f' & res & -> & ?). by do 3 eexists.
  - destruct (enqueue_delta_bytes_spec A io r file key payload n Hi Hn) as (r' & f' & res & -> & ?). by do 3 eexists.
  - pose proof (pump_window r frame t n Hi) as Hp. destruct (pump r frame t) as [[r' t'] rep]. destruct Hp. do 3 eexists. split; [done|]. by split; [apply Hw|].
  - pose proof (acknowledge_window io r file s n Hi) as Ha. destruct (try_acknowledge io r file s) as [[r' f'] res].
    destruct Ha as (? & ? & _). do 3 eexists. split; [done|]. by split; [apply Hw|].
  - pose proof (receive_spec io r file p n Hi) as Ha. destruct (receive io r file p) as [[r' f'] res].
    destruct Ha as (? & ? & _). do 3 eexists. split; [done|]. by split; [apply Hw|].
  - do 3 eexists. split; [done|]. split; [|done]. apply Hw. by apply (window_same r).
  - do 3 eexists. split; [done|]. split; [|done]. apply Hw. by apply (window_same r).
  - do 3 eexists. split; [done|]. split; [|done]. apply Hw. by apply (window_same r).
Qed.

Lemma sync_run_inv ops : forall r file t n,
  window_inv r n -> n + zlen ops < 2 ^ 64 - 1 ->
  exists r' file' t', sync_run ops (r, file, t) = Some (r', file', t') /\ window_inv r' (n + zlen ops) /\ r_config r' = r_config r.
Proof.
  induction ops as [|[[A io] op] ops IH]; intros r file t n Hi Hn; cbn [sync_run].
  { do 3 eexists. split; [done|]. zlen_nil_simp. by rewrite Z.add_0_r. }
  zsimp. pose proof (zlen_nonneg ops).
  destruct (sync_step_inv A io op r file t n Hi) as (r1 & f1 & t1 & -> & Hi1 & Hc1); [lia|]. cbn [mbind option_bind].
  destruct (IH r1 f1 t1 (n + 1) Hi1) as (r2 & f2 & t2 & -> & Hi2 & Hc2); [lia|].
  do 3 eexists. split; [done|]. split; [|congruence]. by replace (n + (zlen ops + 1)) with (n + 1 + zlen ops) by lia.
Qed.
End Run.

Lemma try_new_ok A c r : replicator_try_new A c = Ok r -> 0 <= max_pending c -> 0 <= max_in_flight c -> 0 <= max_retries c ->
  r = mkReplicator c SyncMode.Offline 1 0 0 [] [] None None sync_stats_default /\ window_inv r 0.
Proof.
  unfold replicator_try_new. intros Hr ? ? ?. simp. split; [done|]. split; simpl; unfold window; simpl; try done; try lia; constructor.
Qed.

(** the send window is sound under every use.  Whatever sequence of
    calls (snapshots, events, deltas, pumps over any transport, received
    packets, acknowledgements, mode and session changes) is made on a new
    replicator, with any allocation and I/O failures, nothing panics;
    the packets in flight followed by those pending carry strictly increasing
    sequence numbers already handed out; their payloads, the two queues and
    the retry counts respect the configuration; and no packet is lost count
    of: accepted = acknowledged + given up + in flight + pending. *)
Theorem sync_window_sound {T} `{SyncTransport T} A c r0 ops (t : T) :
  replicator_try_new A c = Ok r0 -> 0 <= max_pending c -> 0 <= max_in_flight c -> 0 <= max_retries c ->
  zlen ops < 2 ^ 64 - 1 ->
  exists r file t', sync_run ops (r0, [], t) = Some (r, file, t') /\
  StronglySorted Z.lt (seqs (window r)) /\
  Forall (fun p => 1 <= sp_sequence p < r_next_sequence r /\ 0 < zlen (sp_payload p) <= max_payload_bytes c) (window r) /\
  zlen (r_pending r) <= max_pending c /\ zlen (r_in_flight r) <= max_in_flight c /\
  Forall (fun i => if_retries i <= max_retries c) (r_in_flight r) /\
  wrap 64 (queued (r_stats r)) =
    wrap 64 (acknowledged (r_stats r) + dropped_retries (r_stats r) + zlen (r_in_flight r) + zlen (r_pending r)).
Proof.
  intros Hr Hp Hf Hm Hops. destruct (try_new_ok A c r0 Hr Hp Hf Hm) as [-> Hi].
  destruct (sync_run_inv ops _ [] t 0 Hi Hops) as (r & file & t' & He & [] & Hc). simpl in Hc. rewrite Hc in *.
  exists r, file, t'. split; [done|]. split; [done|]. split; [by apply Forall_and|]. do 3 (split; [done|]).
  unfold balance in wi_balance0. unfold wrap in *. apply Z.mod_divide in wi_balance0 as [q Hq]; [|lia].
  replace (queued (r_stats r)) with (acknowledged (r_stats r) + dropped_retries (r_stats r) + zlen (r_in_flight r) + zlen (r_pending r) + q * 2 ^ 64) by lia.
  apply Z_mod_plus_full.
Qed.

(** A transport that accepts every packet and keeps what was sent. *)
#[global] Instance log_transport : SyncTransport (list SyncPacket) := fun t p => (t ++ [p], Ok tt).

Definition demo_config : SyncConfig := mkSyncConfig 2 16 1 3 1.
Definition demo_ops : list (alloc * IoPlan * sync_op) :=
  map (fun op => (alloc_all, io_ok, op))
    [OpEvent true 1 [1]; OpDelta false 2 [2]; OpDelta true 2 [3]; OpEvent true 4 [4]; OpMode SyncMode.Online; OpPump 0;
     OpPump 3; OpAck 1; OpPump 3; OpPump 6; OpPump 9].

Lemma sync_window_sound_witness :
  exists r0 r file t, replicator_try_new alloc_all demo_config = Ok r0 /\
  sync_run demo_ops (r0, [], []) = Some (r, file, t) /\ seqs t = [1; 1; 2; 2] /\
  wrap 64 (queued (r_stats r)) =
    wrap 64 (acknowledged (r_stats r) + dropped_retries (r_stats r) + zlen (r_in_flight r) + zlen (r_pending r)) /\
  queued (r_stats r) = 2.
Proof.
  destruct (replicator_try_new alloc_all demo_config) as [r0|] eqn:Hr; [|discriminate Hr].
  destruct (sync_window_sound alloc_all demo_config r0 demo_ops ([] : list SyncPacket) Hr ltac:(discriminate) ltac:(discriminate)
    ltac:(discriminate) ltac:(reflexivity)) as (r & file & t & He & _ & _ & _ & _ & _ & Hb).
  exists r0, r, file, t. split; [reflexivity|]. split; [exact He|].
  assert (Hx : seqs t = [1; 1; 2; 2] /\ queued (r_stats r) = 2).
  { injection Hr as <-. vm_compute in He. injection He as <- <- <-. split; reflexivity. }
  destruct Hx as [H1 H2]. split; [exact H1|]. split; [exact Hb|exact H2].
Defined.

(** ** The wire *)

(** [receive_bytes] in terms of the log's decoder. *)
Lemma receive_bytes_decode A io r file bytes :
  exists e, receive_bytes A io r file bytes =
    match decode_packet A bytes (max_payload_bytes (r_config r)) with
    | Ok p => let '(r, file, res) := receive io r file p in Some (r, file, Ok res)
    | Err WalError.AllocationFailed => Some (r, file, Err SyncError.AllocationFailed)
    | Err _ => e
    end /\
  (e = Some (r, file, Err SyncError.ReceiveTooLarge) \/
   exists err, e = Some (reject r, file, Err err) /\
     (err = SyncError.InvalidPacket \/ err = SyncError.EmptyPayload \/ err = SyncError.ReceiveTooLarge)).
Proof.
  unfold receive_bytes, decode_packet.
  destruct (Z.ltb_spec (zlen bytes) 30); cbn [orb].
  { eexists. split; [done|]. right. eexists. split; [done|]. by left. }
  destruct bytes as [|b0 [|b1 bytes]]; [unfold zlen in *; simpl in *; lia..|].
  change ((b0 :: b1 :: bytes) !! 0%nat) with (Some b0). change ((b0 :: b1 :: bytes) !! 1%nat) with (Some b1).
  cbn [mbind option_bind]. set (bs := b0 :: b1 :: bytes) in *.
  assert (bool_decide (Some b0 = Some 1) = (b0 =? 1)) as ->.
  { destruct (Z.eqb_spec b0 1) as [->|]; [done|]. apply bool_decide_eq_false_2. congruence. }
  destruct (byte_kind b1) as [k|].
  2: { eexists. split; [by destruct (negb (b0 =? 1))|]. right. eexists. split; [done|]. by left. }
  destruct (b0 =? 1); cbn [negb].
  2: { eexists. split; [done|]. right. eexists. split; [done|]. by left. }
  destruct (checked_add 64 30 _) as [total|]; [|eexists; split; [done|by left]].
  destruct (from_le_bytes (slice 26 30 bs) =? 0); cbn [orb].
  { eexists. split; [done|]. right. eexists. split; [done|]. by right; left. }
  destruct (_ || _).
  { eexists. split; [done|]. right. eexists. split; [done|]. by right; right. }
  destruct (A 0%nat); cbn [negb]; eexists; (split; [done|by left]).
Qed.

(** the receiver agrees with the codec.  [receive_bytes] accepts exactly
    the canonical encodings of packets within its payload bound: on the bytes
    [encode_packet] writes for a packet it behaves as [receive] on that
    packet, and anything else is an error that delivers nothing, touches no
    queue, session or log, and counts at most one rejection. *)
Theorem receive_bytes_agrees A io r file bytes :
  Forall (is_u 8) bytes -> A 0%nat = true ->
  match decode_packet alloc_all bytes (max_payload_bytes (r_config r)) with
  | Ok p =>
      encode_packet alloc_all p = Ok bytes /\
      receive_bytes A io r file bytes = let '(r', file', res) := receive io r file p in Some (r', file', Ok res)
  | Err _ =>
      (forall p, packet_ok p -> zlen (sp_payload p) <= max_payload_bytes (r_config r) -> encode_packet alloc_all p <> Ok bytes) /\
      exists r' err, receive_bytes A io r file bytes = Some (r', file, Err err) /\ (r' = r \/ r' = reject r)
  end.
Proof.
  intros Hu HA. destruct (receive_bytes_decode A io r file bytes) as (e & -> & He).
  assert (decode_packet A bytes (max_payload_bytes (r_config r)) = decode_packet alloc_all bytes (max_payload_bytes (r_config r))) as ->.
  { unfold decode_packet. by rewrite HA. }
  destruct (decode_packet alloc_all bytes _) as [p|err] eqn:Hd.
  - destruct (decode_inv _ _ _ _ Hu Hd) as (Hp & _ & ->). split; [by apply encode_ok|]. done.
  - split.
    + intros p Hp Hm Henc. apply encode_Ok in Henc as [-> _]. rewrite decode_header in Hd by done.
      by destruct (Z.ltb_spec (max_payload_bytes (r_config r)) (zlen (sp_payload p))); [lia|].
    + assert (err <> WalError.AllocationFailed) as Hne.
      { intros ->. unfold decode_packet in Hd. simp. }
      destruct err; try done; (destruct He as [->|(err & -> & _)]; [by exists r; eexists; split; [done|left]|by exists (reject r); eexists; split; [done|right]]).
Qed.

Definition demo_receiver : Replicator := mkReplicator sync_config_default SyncMode.Offline 1 0 0 [] [] None (Some (replicate 16 5)) sync_stats_default.

Lemma receive_bytes_agrees_witness :
  exists bytes, encode_packet alloc_all demo_packet = Ok bytes /\
  exists r', receive_bytes alloc_all io_ok demo_receiver [] bytes = Some (r', [], Ok (Some demo_packet)) /\ r_last_received r' = 258.
Proof.
  destruct (encode_packet alloc_all demo_packet) as [bytes|] eqn:He; [|discriminate He]. exists bytes. split; [reflexivity|].
  assert (Hu : Forall (is_u 8) bytes).
  { vm_compute in He. injection He as <-. repeat constructor; try discriminate; reflexivity. }
  pose proof (receive_bytes_agrees alloc_all io_ok demo_receiver [] bytes Hu eq_refl) as H.
  assert (Hd : decode_packet alloc_all bytes (max_payload_bytes (r_config demo_receiver)) = Ok demo_packet)
    by (vm_compute in He; injection He as <-; reflexivity).
  rewrite Hd in H. destruct H as [_ ->]. eexists. split; reflexivity.
Defined.

(** ** Authenticated packets *)
Section Authenticated.
Context {T : Type} `{SyncAuthenticatorLaws T} (a : T).

(** The bytes of an authenticated packet: nonce, encoding, tag of both. *)
Definition seal (nonce encoded : list Z) : list Z := (nonce ++ encoded) ++ authentication_tag a (nonce ++ encoded).

Lemma receive_sealed A io r file nonce encoded :
  length nonce = 16%nat -> r_session_nonce r = Some nonce ->
  receive_authenticated_bytes A io r file (seal nonce encoded) a = receive_bytes A io r file encoded.
Proof.
  intros Hn Hs. unfold receive_authenticated_bytes, seal.
  assert (length (authentication_tag a (nonce ++ encoded)) = 32%nat) as Ht by apply tag_length.
  assert (length (nonce ++ encoded) = 16 + length encoded)%nat as Hl by (rewrite length_app; lia).
  destruct (Z.ltb_spec (zlen ((nonce ++ encoded) ++ authentication_tag a (nonce ++ encoded))) (16 + 32)) as [Hlt|_].
  { unfold zlen in Hlt. rewrite (length_app (nonce ++ encoded)) in Hlt. lia. }
  rewrite Hs. assert (take 16 ((nonce ++ encoded) ++ authentication_tag a (nonce ++ encoded)) = nonce) as ->.
  { rewrite <- (assoc_L (++)). by apply take_app_length'. }
  rewrite bool_decide_eq_true_2 by done. cbn [negb].
  replace (length ((nonce ++ encoded) ++ authentication_tag a (nonce ++ encoded)) - 32)%nat with (length (nonce ++ encoded))
    by (rewrite (length_app (nonce ++ encoded)); lia).
  rewrite take_app_length, drop_app_length. rewrite verify_tag_spec by (done || apply tag_bytes).
  rewrite bool_decide_eq_true_2 by done. cbn [negb]. f_equal.
  unfold slice. rewrite <- (assoc_L (++)), drop_app_length' by done. apply take_app_length'. lia.
Qed.

Lemma receive_unsealed A io r file nonce bytes :
  Forall (is_u 8) bytes -> length nonce = 16%nat -> r_session_nonce r = Some nonce ->
  (forall encoded, bytes <> seal nonce encoded) ->
  receive_authenticated_bytes A io r file bytes a = Some (reject r, file, Err SyncError.AuthenticationFailed).
Proof.
  intros Hu Hn Hs Hno. unfold receive_authenticated_bytes. destruct (Z.ltb_spec (zlen bytes) (16 + 32)) as [|Hlen]; [done|].
  rewrite Hs. case_bool_decide as Hnonce; [|done]. cbn [negb].
  unfold zlen in Hlen. set (n := (length bytes - 32)%nat).
  assert (length (drop n bytes) = 32%nat) as Hd by (rewrite length_drop; lia).
  rewrite verify_tag_spec by (done || by apply Forall_drop).
  case_bool_decide as Htag; [|done]. exfalso. apply (Hno (slice 16 n bytes)). unfold seal.
  assert (take n bytes = nonce ++ slice 16 n bytes) as Htake.
  { rewrite <- Hnonce. rewrite <- (take_drop 16 (take n bytes)). rewrite take_take, Nat.min_l by lia. f_equal.
    unfold slice. by rewrite skipn_firstn_comm. }
  rewrite <- Htake, Htag. by rewrite take_drop.
Qed.
End Authenticated.

(** C26: authentication.  For any authenticator whose tags are 32 bytes: with
    a session open, a byte string is let through exactly when it is the
    session nonce, some bytes, and the authenticator's tag of both, and then
    exactly those bytes reach [receive_bytes]; every other string is
    [AuthenticationFailed], counted and without any other effect.  Without a
    session nothing gets in.  What [encode_authenticated_packet] produces is
    accepted by a receiver in the same session. *)
Theorem authenticated_exactly_sealed {T} `{SyncAuthenticatorLaws T} (a : T) A io r file nonce bytes :
  Forall (is_u 8) bytes -> length nonce = 16%nat ->
  (r_session_nonce r = Some nonce ->
     (forall encoded, bytes = seal a nonce encoded ->
        receive_authenticated_bytes A io r file bytes a = receive_bytes A io r file encoded) /\
     ((forall encoded, bytes <> seal a nonce encoded) ->
        receive_authenticated_bytes A io r file bytes a = Some (reject r, file, Err SyncError.AuthenticationFailed))) /\
  (r_session_nonce r = None -> exists r' e, receive_authenticated_bytes A io r file bytes a = Some (r', file, Err e) /\
     r_last_received r' = r_last_received r /\ r_in_flight r' = r_in_flight r /\ r_pending r' = r_pending r) /\
  (forall p, encode_authenticated_packet A p nonce a = Ok bytes -> exists encoded, encode_packet A p = Ok encoded /\ bytes = seal a nonce encoded).
Proof.
  intros Hu Hn. split; [|split].
  - intros Hs. split; [intros encoded ->; by apply receive_sealed|]. intros Hno. by apply (receive_unsealed a A io r file nonce).
  - intros Hs. unfold receive_authenticated_bytes. rewrite Hs. destruct (_ <? _); by do 2 eexists.
  - intros p. rewrite encode_authenticated_spec. destruct (encode_packet A p) as [encoded|]; [|done].
    destruct (A 1%nat && A 2%nat); [|done]. intros [= <-]. by exists encoded.
Qed.

(** An authenticator with 32-byte tags: the HMAC adapter over a toy tag. *)
#[global] Instance hmac_authenticator : SyncAuthenticator HmacSha256Authenticator :=
  hmac_authentication_tag (fun key m => map (fun i => (foldr Z.add 0 key + foldr Z.add 0 m * i) mod 256) (seqZ 1 32)).

#[global] Instance hmac_authenticator_laws : SyncAuthenticatorLaws HmacSha256Authenticator.
Proof.
  split; intros a m; unfold authentication_tag, hmac_authenticator, hmac_authentication_tag.
  - by rewrite length_map, length_seqZ.
  - apply Forall_map, list.Forall_forall. intros i _. apply Z.mod_pos_bound. lia.
Qed.

Lemma authenticated_exactly_sealed_witness :
  let a := mkHmac [1; 2; 3] in
  exists bytes, encode_authenticated_packet alloc_all demo_packet (replicate 16 5) a = Ok bytes /\
  (exists r', receive_authenticated_bytes alloc_all io_ok demo_receiver [] bytes a = Some (r', [], Ok (Some demo_packet))) /\
  receive_authenticated_bytes alloc_all io_ok demo_receiver [] (<[20%nat := 9]> bytes) a =
    Some (reject demo_receiver, [], Err SyncError.AuthenticationFailed).
Proof.
  intros a. destruct (encode_authenticated_packet alloc_all demo_packet (replicate 16 5) a) as [bytes|] eqn:He; [|discriminate He].
  assert (Hu : Forall (is_u 8) bytes).
  { vm_compute in He. injection He as <-. repeat constructor; try discriminate; reflexivity. }
  destruct (authenticated_exactly_sealed a alloc_all io_ok demo_receiver [] (replicate 16 5) bytes Hu eq_refl) as (H1 & _ & H3).
  destruct (H3 demo_packet He) as (encoded & Henc & Hb). exists bytes. split; [reflexivity|]. split.
  - destruct (H1 eq_refl) as [H4 _]. rewrite (H4 encoded Hb). injection Henc as <-. eexists. reflexivity.
  - clear H1 H3 Hb Henc. vm_compute in He. injection He as <-. vm_compute. reflexivity.
Defined.

(** ** Delivery *)
Fixpoint receive_all (io : IoPlan) r (file : list Z) (ps : list SyncPacket) : Replicator * list Z * list SyncPacket :=
  match ps with
  | [] => (r, file, [])
  | p :: ps =>
      let '(r, file, res) := receive io r file p in
      let '(r, file, l) := receive_all io r file ps in
      (r, file, match res with Some p => p :: l | None => l end)
  end.

(** Delivered packets are a subsequence, strictly increasing; a packet that is
    not delivered is malformed or no newer than the session's start or than an
    earlier packet. *)
Lemma receive_all_spec io ps : forall r file n, window_inv r n ->
  let '(r', file', d) := receive_all io r file ps in
  window_inv r' n /\ r_config r' = r_config r /\ d `sublist_of` ps /\ StronglySorted Z.lt (r_last_received r :: seqs d) /\
  r_last_received r <= r_last_received r' /\
  (forall p, p ∈ ps -> receivable r p = true -> sp_sequence p <= r_last_received r') /\
  (forall ps1 p ps2, ps = ps1 ++ p :: ps2 -> receivable r p = true ->
     p ∈ d \/ sp_sequence p <= r_last_received r \/ exists q, q ∈ ps1 /\ receivable r q = true /\ sp_sequence p <= sp_sequence q).
Proof.
  induction ps as [|p ps IH]; intros r file n Hi; cbn [receive_all].
  { split; [done|]. split; [done|]. split; [done|]. split; [repeat constructor|]. split; [lia|]. split; [set_solver|]. by intros []. }
  pose proof (receive_spec io r file p n Hi) as Hr. destruct (receive io r file p) as [[r1 file1] res].
  destruct Hr as (Hi1 & Hc1 & _ & _ & Hres & Hlr & _). pose proof (IH r1 file1 n Hi1) as Ha.
  destruct (receive_all io r1 file1 ps) as [[r2 file2] d]. destruct Ha as (Hi2 & Hc2 & Hsub & Hsort & Hle & Hall & Hcompl).
  assert (forall q, receivable r1 q = receivable r q) as Hrv by (intros q; unfold receivable; by rewrite Hc1).
  inversion_clear Hsort as [|? ? Hsort' Hgt].
  assert (r_last_received r <= r_last_received r1) as Hmono by (rewrite Hlr; destruct (receivable r p); lia).
  split; [done|]. split; [congruence|].
  assert (Forall (fun s => r_last_received r < s) (seqs d)) as Hgt' by (eapply Forall_impl; [|exact Hgt]; simpl; lia).
  split; [rewrite Hres; destruct (_ && _); [by constructor|by constructor]|].
  split.
  { rewrite Hres. destruct (receivable r p); cbn [andb]; [|by constructor].
    destruct (Z.ltb_spec (r_last_received r) (sp_sequence p)); [|by constructor].
    constructor; [|constructor; [done|exact Hgt']]. cbn [seqs map]. constructor; [done|].
    rewrite Hlr, Z.max_r in Hgt by lia. exact Hgt. }
  split; [lia|]. split.
  - intros q [->|Hq]%elem_of_cons Hv; [rewrite Hv in Hlr; lia|]. apply Hall; [done|by rewrite Hrv].
  - intros ps1 q ps2 He Hv. destruct ps1 as [|q1 ps1]; injection He as -> ->.
    + rewrite Hres, Hv. cbn [andb]. destruct (Z.ltb_spec (r_last_received r) (sp_sequence q)); [left; set_solver|right; left; lia].
    + destruct (Hcompl ps1 q ps2 eq_refl) as [Hin|[Hle'|(x & Hx & Hxv & Hxs)]]; [by rewrite Hrv|left; destruct res; set_solver| |].
      * rewrite Hlr in Hle'. destruct (receivable r q1) eqn:Hq1; [|right; by left].
        destruct (Z.max_spec (r_last_received r) (sp_sequence q1)) as [[? Hm]|[? Hm]]; rewrite Hm in Hle'; [|right; by left].
        right; right. exists q1. set_solver.
      * right; right. exists x. rewrite <- Hrv. set_solver.
Qed.

(** Messages as the application sends them. *)
Record message := mkMessage { msg_kind : SyncKind; msg_key : Z; msg_payload : list Z }.

Fixpoint enqueue_all (A : alloc) io r (file : list Z) (ms : list message) : Replicator * list Z * list (result SyncError Z) :=
  match ms with
  | [] => (r, file, [])
  | m :: ms =>
      let '(r, file, res) := enqueue A io r file (msg_kind m) (msg_key m) (msg_payload m) in
      let '(r, file, l) := enqueue_all A io r file ms in (r, file, res :: l)
  end.

(** The packets of messages numbered from [n]. *)
Fixpoint number_from (n : Z) (ms : list message) : list SyncPacket :=
  match ms with
  | [] => []
  | m :: ms => mkSyncPacket n 0 (msg_kind m) (msg_key m) (msg_payload m) :: number_from (n + 1) ms
  end.

Definition message_ok (max : Z) (m : message) : Prop := 0 < zlen (msg_payload m) <= max.

Lemma number_len ms : forall n, zlen (number_from n ms) = zlen ms.
Proof. induction ms; intros n; cbn [number_from]; [done|]. zsimp. by rewrite IHms. Qed.

Lemma number_seqs ms : forall n, seqs (number_from n ms) = seqZ n (zlen ms).
Proof.
  induction ms as [|m ms IH]; intros n; cbn [number_from seqs map]; [done|].
  zsimp. rewrite seqZ_cons by (pose proof (zlen_nonneg ms); lia). f_equal. unfold seqs in IH. rewrite IH. f_equal; lia.
Qed.

Lemma number_sorted ms : forall n,
  StronglySorted Z.lt (seqs (number_from n ms)) /\ Forall (fun s => n <= s) (seqs (number_from n ms)).
Proof.
  induction ms as [|m ms IH]; intros n; cbn [number_from seqs map]; [by split; constructor|].
  destruct (IH (n + 1)) as [Hs Hf].
  split; constructor; try done; try lia; eapply Forall_impl; [|exact Hf| |exact Hf]; simpl; lia.
Qed.

Lemma number_payload max ms : forall n, Forall (message_ok max) ms ->
  Forall (fun p => 0 < zlen (sp_payload p) <= max) (number_from n ms).
Proof. induction ms as [|m ms IH]; intros n Hf; cbn [number_from]; inversion_clear Hf; constructor; [done|by apply IH]. Qed.

Lemma enqueue_all_spec A io ms : forall r file,
  r_wal r = None -> r_last_received r = 0 -> Forall (message_ok (max_payload_bytes (r_config r))) ms ->
  zlen (r_pending r) + zlen ms <= max_pending (r_config r) -> 1 <= r_next_sequence r -> r_next_sequence r + zlen ms < 2 ^ 64 ->
  exists st, enqueue_all A io r file ms =
    (r_with_queue r (r_next_sequence r + zlen ms) (r_pending r ++ number_from (r_next_sequence r) ms) st, file,
     map Ok (seqZ (r_next_sequence r) (zlen ms))).
Proof.
  induction ms as [|m ms IH]; intros r file Hw Hl Hms Hp Hn Hlt; cbn [enqueue_all number_from].
  { exists (r_stats r). rewrite Z.add_0_r, app_nil_r. by destruct r. }
  inversion_clear Hms as [|? ? Hm Hms']. unfold message_ok in Hm. zsimp. pose proof (zlen_nonneg ms).
  unfold enqueue, validate. destruct (msg_payload m) as [|b pl] eqn:Hpl; [zlen_nil_simp; lia|]. rewrite <- Hpl in *.
  destruct (Z.ltb_spec (max_payload_bytes (r_config r)) (zlen (msg_payload m))); [lia|].
  destruct (Z.leb_spec (max_pending (r_config r)) (zlen (r_pending r))); [lia|].
  unfold log_packet. rewrite Hw. cbn [negb]. rewrite (next_step (r_next_sequence r) (r_next_sequence r - 1)) by lia.
  match goal with |- context [enqueue_all A io ?r1 file ms] => destruct (IH r1 file Hw Hl Hms') as [st Hst]; [simpl; zsimp; lia|simpl; lia..|] end.
  simpl in Hst. rewrite Hst. exists st. rewrite (seqZ_cons (r_next_sequence r) (zlen ms + 1)) by lia. rewrite <- (assoc_L (++)), Hl.
  replace (Z.pred (zlen ms + 1)) with (zlen ms) by lia. unfold r_with_queue. simpl.
  by replace (r_next_sequence r + 1 + zlen ms) with (r_next_sequence r + (zlen ms + 1)) by lia.
Qed.

Lemma pump_send_log room frame pending : forall fl st rp (t : list SyncPacket),
  zlen fl + zlen pending <= room ->
  exists st' rp', pump_send room frame pending fl st rp t =
    ([], fl ++ map (fun p => mkInFlight p frame 0) pending, st', rp', t ++ pending).
Proof.
  induction pending as [|p pending IH]; intros fl st rp t Hl; cbn [pump_send map]; [rewrite !app_nil_r; by do 2 eexists|].
  zsimp. pose proof (zlen_nonneg pending). destruct (Z.ltb_spec (zlen fl) room); [|lia].
  change (send t p) with (t ++ [p], @Ok TransportError unit tt). cbv iota beta.
  match goal with |- context [pump_send room frame pending ?a ?b ?c ?d] => destruct (IH a b c d) as (st' & rp' & ->); [zsimp; lia|] end.
  do 2 eexists. by rewrite <- !(assoc_L (++)).
Qed.

(** Items sent at [sent_at] once or not at all since. *)
Lemma pump_resend_log c frame sent_at ps : forall st rp (t : list SyncPacket),
  0 < max_retries c ->
  let due := resend_after_frames c <=? saturating_sub frame sent_at in
  exists st' rp', pump_resend c frame (map (fun p => mkInFlight p sent_at 0) ps) st rp t =
    (map (fun p => if due then mkInFlight p frame 1 else mkInFlight p sent_at 0) ps, st', rp', if due then t ++ ps else t).
Proof.
  induction ps as [|p ps IH]; intros st rp t Hr due; cbn [map pump_resend].
  { do 2 eexists. rewrite app_nil_r. by destruct due. }
  unfold resend_skipped. cbn [if_last_sent if_retries if_packet].
  destruct (Z.leb_spec (max_retries c) 0); [lia|]. rewrite orb_false_r. specialize (IH).
  unfold due in *. destruct (Z.ltb_spec (saturating_sub frame sent_at) (resend_after_frames c)),
    (Z.leb_spec (resend_after_frames c) (saturating_sub frame sent_at)); try lia.
  - destruct (IH st rp t Hr) as (st' & rp' & ->). by do 2 eexists.
  - change (send t p) with (t ++ [p], @Ok TransportError unit tt). cbv iota beta.
    match goal with |- context [pump_resend c frame _ ?a ?b ?d] => destruct (IH a b d Hr) as (st' & rp' & ->) end.
    do 2 eexists. by rewrite <- (assoc_L (++)).
Qed.

Lemma pump_retain_none c frame fl st rp :
  Forall (fun i => given_up c frame i = false) fl -> pump_retain c frame fl st rp = (fl, st, rp).
Proof. induction 1 as [|i fl Hi _ IH]; cbn [pump_retain]; [done|]. by rewrite Hi, IH. Qed.

Lemma ack_retain_all s fl : forall st, Forall (fun i => sp_sequence (if_packet i) <= s) fl -> (ack_retain s fl st).1 = [].
Proof.
  induction fl as [|i fl IH]; intros st Hf; cbn [ack_retain]; [done|]. inversion_clear Hf as [|? ? Hi Hf'].
  destruct (Z.leb_spec (sp_sequence (if_packet i)) s); [by apply IH|lia].
Qed.

Lemma receive_all_fresh io ps : forall r file n, window_inv r n ->
  StronglySorted Z.lt (r_last_received r :: seqs ps) -> Forall (fun p => receivable r p = true) ps ->
  let '(r', file', d) := receive_all io r file ps in
  d = ps /\ window_inv r' n /\ r_config r' = r_config r /\ Forall (fun p => sp_sequence p <= r_last_received r') ps.
Proof.
  intros r file n Hi Hs Hv. pose proof (receive_all_spec io ps r file n Hi) as Ha.
  assert ((receive_all io r file ps).2 = ps) as Hd.
  { clear Ha. revert r file Hi Hs Hv. induction ps as [|p ps IH]; intros r file Hi Hs Hv; [done|]. cbn [receive_all].
    pose proof (receive_spec io r file p n Hi) as Hr. destruct (receive io r file p) as [[r1 file1] res].
    destruct Hr as (Hi1 & Hc & _ & _ & Hres & Hl & _). inversion_clear Hv as [|? ? Hp Hv']. rewrite Hp in *. cbn [andb] in *.
    inversion_clear Hs as [|? ? Hs' Hlt]. cbn [seqs map] in Hlt. inversion_clear Hlt as [|? ? Hlt0 _].
    destruct (Z.ltb_spec (r_last_received r) (sp_sequence p)); [|lia]. subst res.
    assert (Forall (fun q => receivable r1 q = true) ps) as Hv1.
    { eapply Forall_impl; [|exact Hv']. unfold receivable. by rewrite Hc. }
    assert (StronglySorted Z.lt (r_last_received r1 :: seqs ps)) as Hs1.
    { rewrite Hl, Z.max_r by lia. exact Hs'. }
    specialize (IH r1 file1 Hi1 Hs1 Hv1). destruct (receive_all io r1 file1 ps) as [[r2 file2] d]. simpl in *. by rewrite IH. }
  destruct (receive_all io r file ps) as [[r' file'] d]. simpl in Hd. destruct Ha as (Hi' & Hc & _ & _ & _ & Hall & _).
  split; [done|]. split; [done|]. split; [done|]. apply list.Forall_forall. intros p Hp. apply Hall; [done|].
  rewrite list.Forall_forall in Hv. by apply Hv.
Qed.

Lemma receive_all_stale io ps : forall r file n, window_inv r n ->
  Forall (fun p => sp_sequence p <= r_last_received r) ps -> (receive_all io r file ps).2 = [].
Proof.
  induction ps as [|p ps IH]; intros r file n Hi Hf; [done|]. cbn [receive_all]. inversion_clear Hf as [|? ? Hp Hf'].
  pose proof (receive_spec io r file p n Hi) as Hr. destruct (receive io r file p) as [[r1 file1] res].
  destruct Hr as (Hi1 & _ & _ & _ & Hres & Hl & _). destruct (Z.ltb_spec (r_last_received r) (sp_sequence p)); [lia|].
  rewrite andb_false_r in Hres. subst res.
  assert (r_last_received r1 = r_last_received r) as Hl1 by (rewrite Hl; destruct (receivable r p); lia).
  specialize (IH r1 file1 n Hi1). rewrite Hl1 in IH. specialize (IH Hf').
  destruct (receive_all io r1 file1 ps) as [[r2 file2] d]. done.
Qed.

(** C13: exactly-once delivery across a resend.  A new replicator queues any
    messages that fit its window and goes online over a transport that takes
    everything; a receiver in a new session gets the packets, then the whole
    window again when the resend timer expires.  The enqueues answer 1, 2, 3,
    ...; the first pump transmits every message once, in order; the receiver
    delivers exactly those packets in that order, and nothing from the resend;
    and when the sender is told the receiver's last sequence number its
    window is empty. *)
Theorem sync_exactly_once A io c ms frame gap r0 rcv m :
  replicator_try_new A c = Ok r0 -> Forall (message_ok (max_payload_bytes c)) ms ->
  zlen ms <= max_pending c -> zlen ms <= max_in_flight c -> zlen ms < 2 ^ 64 - 1 -> 0 < max_retries c ->
  0 < resend_after_frames c <= gap -> 0 <= frame ->
  window_inv rcv m -> r_last_received rcv = 0 -> max_payload_bytes c <= max_payload_bytes (r_config rcv) ->
  let packets := number_from 1 ms in
  let '(r1, _, answers) := enqueue_all A io r0 [] ms in
  let '(r2, t2, _) := pump (set_mode r1 SyncMode.Online) frame ([] : list SyncPacket) in
  let '(rcv1, f1, got1) := receive_all io rcv [] t2 in
  let '(r3, t3, _) := pump r2 (frame + gap) ([] : list SyncPacket) in
  let '(rcv2, f2, got2) := receive_all io rcv1 f1 t3 in
  let '(r4, _) := acknowledge io r3 [] (r_last_received rcv1) in
  answers = map Ok (seqZ 1 (zlen ms)) /\ t2 = packets /\ got1 = packets /\ t3 = packets /\ got2 = [] /\ window r4 = [].
Proof.
  intros Hr Hms Hp Hf Hlen Hret Hgap Hfr Hi Hl Hmax packets. pose proof (zlen_nonneg ms).
  destruct (try_new_ok A c r0 Hr) as [-> _]; try lia.
  match goal with |- context [enqueue_all A io ?r [] ms] => destruct (enqueue_all_spec A io ms r []) as [st ->] end; try done; simpl; try lia.
  change (number_from 1 ms) with packets. unfold r_with_queue, set_mode. cbn [r_config r_next_sequence r_last_received r_last_ack_sent r_pending r_in_flight r_wal r_session_nonce r_stats app].
  assert (zlen packets = zlen ms) as Hpl by apply number_len.
  unfold pump at 1. cbn [r_mode]. rewrite bool_decide_eq_true_2 by done. cbn [negb r_config r_pending r_in_flight r_stats].
  match goal with |- context [pump_send ?a ?b ?d ?e ?f ?g ?h] =>
    destruct (pump_send_log a b d e f g h) as (st1 & rp1 & ->); [zlen_nil_simp; lia|] end.
  cbn [app]. destruct (pump_resend_log c frame frame packets st1 rp1 packets Hret) as (st2 & rp2 & He). rewrite He. clear He.
  assert (saturating_sub frame frame = 0 /\ saturating_sub (frame + gap) frame = gap /\ saturating_sub (frame + gap) (frame + gap) = 0)
    as (Hs1 & Hs2 & Hs3) by (unfold saturating_sub; lia).
  rewrite Hs1. destruct (Z.leb_spec (resend_after_frames c) 0); [lia|]. cbn [app].
  rewrite pump_retain_none.
  2: { apply Forall_map, list.Forall_forall. intros p _. unfold given_up. cbn [if_last_sent]. rewrite Hs1.
       destruct (Z.leb_spec (resend_after_frames c) 0); [lia|]. apply andb_false_r. }
  unfold r_with_flight at 1. cbn [r_config r_mode r_next_sequence r_last_received r_last_ack_sent r_wal r_session_nonce].
  destruct (number_sorted ms 1) as [Hsort Hge]. fold packets in Hsort, Hge.
  assert (Forall (fun p => receivable rcv p = true) packets) as Hrv.
  { eapply Forall_impl; [|exact (number_payload _ ms 1 Hms)]. intros p Hpp. unfold receivable.
    apply andb_true_iff. rewrite Z.ltb_lt, Z.leb_le. simpl in Hpp. lia. }
  assert (StronglySorted Z.lt (r_last_received rcv :: seqs packets)) as Hs0.
  { rewrite Hl. constructor; [done|]. eapply Forall_impl; [|exact Hge]. simpl. lia. }
  pose proof (receive_all_fresh io packets rcv [] m Hi Hs0 Hrv) as Hfresh.
  destruct (receive_all io rcv [] packets) as [[rcv1 f1] got1]. destruct Hfresh as (-> & Hi1 & _ & Hle).
  unfold pump. cbn [r_mode]. rewrite bool_decide_eq_true_2 by done. cbn [negb r_config r_pending r_in_flight r_stats pump_send].
  match goal with |- context [pump_resend ?a ?b _ ?d ?e ?f] =>
    destruct (pump_resend_log c b frame packets d e f Hret) as (st3 & rp3 & He) end. rewrite He. clear He.
  rewrite Hs2. destruct (Z.leb_spec (resend_after_frames c) gap); [|lia]. cbn [app].
  rewrite pump_retain_none.
  2: { apply Forall_map, list.Forall_forall. intros p _. unfold given_up. cbn [if_last_sent]. rewrite Hs3.
       destruct (Z.leb_spec (resend_after_frames c) 0); [lia|]. apply andb_false_r. }
  pose proof (receive_all_stale io packets rcv1 f1 m Hi1 Hle) as Hstale.
  destruct (receive_all io rcv1 f1 packets) as [[rcv2 f2] got2]. simpl in Hstale. subst got2.
  unfold acknowledge, try_acknowledge, r_with_flight. cbn [r_wal negb r_in_flight r_stats r_pending].
  match goal with |- context [ack_retain ?s ?l ?x] => pose proof (ack_retain_all s l x) as Hack; destruct (ack_retain s l x) as [fl' st'] end.
  simpl in Hack. rewrite Hack; [done|]. apply Forall_map. exact Hle.
Qed.

Definition demo_messages : list message :=
  [mkMessage SyncKind.Event 7 [1; 2]; mkMessage SyncKind.Snapshot 0 [3]; mkMessage SyncKind.Event 8 [4]].
Definition demo_wide : SyncConfig := mkSyncConfig 4 16 4 3 2.

Lemma sync_exactly_once_witness :
  exists r0, replicator_try_new alloc_all demo_wide = Ok r0 /\
  let '(r1, _, answers) := enqueue_all alloc_all io_ok r0 [] demo_messages in
  let '(r2, t2, _) := pump (set_mode r1 SyncMode.Online) 10 ([] : list SyncPacket) in
  let '(rcv1, f1, got1) := receive_all io_ok demo_receiver [] t2 in
  answers = [Ok 1; Ok 2; Ok 3] /\ map sp_payload got1 = [[1; 2]; [3]; [4]].
Proof.
  destruct (replicator_try_new alloc_all demo_wide) as [r0|] eqn:Hr; [|discriminate Hr]. exists r0. split; [reflexivity|].
  assert (Hm : Forall (message_ok (max_payload_bytes demo_wide)) demo_messages)
    by (repeat constructor; vm_compute; try reflexivity; discriminate).
  assert (Hi : window_inv demo_receiver 0) by (split; simpl; unfold window; simpl; try done; try lia; constructor).
  pose proof (sync_exactly_once alloc_all io_ok demo_wide demo_messages 10 5 r0 demo_receiver 0 Hr Hm ltac:(discriminate)
    ltac:(discriminate) ltac:(reflexivity) ltac:(reflexivity) ltac:(split; [reflexivity|discriminate]) ltac:(discriminate) Hi eq_refl
    ltac:(discriminate)) as H.
  injection Hr as <-.
  destruct (enqueue_all alloc_all io_ok _ [] demo_messages) as [[r1 f1] answers].
  destruct (pump (set_mode r1 SyncMode.Online) 10 ([] : list SyncPacket)) as [[r2 t2] rep2].
  destruct (receive_all io_ok demo_receiver [] t2) as [[rcv1 f2] got1].
  destruct (pump r2 (10 + 5) ([] : list SyncPacket)) as [[r3 t3] rep3].
  destruct (receive_all io_ok rcv1 f2 t3) as [[rcv2 f3] got2].
  destruct (acknowledge io_ok r3 [] (r_last_received rcv1)) as [r4 f4].
  destruct H as (Ha & _ & -> & _). split; [exact Ha|reflexivity].
Defined.

(** ** Durability *)

(** A packet up to the acknowledgement it piggybacks. *)
Definition same_content (p q : SyncPacket) : Prop :=
  sp_sequence p = sp_sequence q /\ sp_kind p = sp_kind q /\ sp_key p = sp_key q /\ sp_payload p = sp_payload q.

Definition covered (l : list SyncPacket) (p : SyncPacket) : Prop := exists q, q ∈ l /\ same_content q p.

(** The log [es] holds every packet of the window above all of [acks]. *)
Record logged (w : SyncWal) r (es : list wal_entry) (acks : list Z) : Prop := {
  lg_wal : r_wal r = Some w;
  lg_ok : Forall (entry_ok w) es;
  lg_received : is_u 64 (r_last_received r);
  lg_cover l p : replay_entries w es [] = Ok l -> p ∈ window r -> (forall s, s ∈ acks -> s < sp_sequence p) -> covered l p
}.

Lemma logged_same w r r' es acks :
  r_wal r' = r_wal r -> r_last_received r' = r_last_received r -> (forall p, p ∈ window r' -> p ∈ window r) ->
  logged w r es acks -> logged w r' es acks.
Proof. intros Hw Hl Hin []. split; try congruence. intros l p Hr Hp. by apply lg_cover0, Hin. Qed.

Lemma logged_more w r es acks acks' : (forall s, s ∈ acks -> s ∈ acks') -> logged w r es acks -> logged w r es acks'.
Proof. intros Hi []. split; try done. intros l p Hr Hp Ha. apply lg_cover0; [done|done|]. intros s Hs. by apply Ha, Hi. Qed.

(** A new packet record; packets of its number leave the window. *)
Lemma logged_packet w r r' es acks p :
  logged w r es acks -> entry_ok w (EPacket p) -> r_wal r' = Some w -> is_u 64 (r_last_received r') ->
  (forall q, q ∈ window r' -> same_content p q \/ q ∈ window r /\ sp_sequence q <> sp_sequence p) ->
  logged w r' (es ++ [EPacket p]) acks.
Proof.
  intros [Hw Hok Hl Hc] He Hw' Hl' Hin. split; try done; [apply Forall_app; by split; [|constructor]|].
  intros l q. rewrite replay_entries_app. destruct (replay_entries w es []) as [l0|] eqn:Hr; [|done]. cbn [result_bind replay_entries replay_entry].
  destruct (pending_put w l0 p) as [l1|] eqn:Hp; [|done]. cbn [result_bind]. intros [= <-] Hq Ha.
  destruct (pending_put_spec w l0 p l1 Hp) as [Hin1 Hold]. destruct (Hin q Hq) as [Hs|[Hqr Hne]]; [by exists p|].
  destruct (Hc l0 q eq_refl Hqr Ha) as (x & Hx & Hsc). exists x. split; [|done]. apply Hold; [done|]. destruct Hsc. congruence.
Qed.

Lemma logged_ack w r r' es acks s :
  logged w r es acks -> is_u 64 s -> r_wal r' = Some w -> is_u 64 (r_last_received r') ->
  (forall q, q ∈ window r' -> q ∈ window r) -> logged w r' (es ++ [EAck s]) (s :: acks).
Proof.
  intros [Hw Hok Hl Hc] Hs Hw' Hl' Hin. split; try done; [apply Forall_app; by split; [|constructor]|].
  intros l q. rewrite replay_entries_app. destruct (replay_entries w es []) as [l0|] eqn:Hr; [|done]. cbn [result_bind replay_entries replay_entry].
  intros [= <-] Hq Ha. destruct (Hc l0 q eq_refl (Hin q Hq)) as (x & Hx & Hsc); [intros y Hy; apply Ha; set_solver|].
  exists x. split; [|done]. apply list_elem_of_In, filter_In. split; [by apply list_elem_of_In|].
  apply Z.ltb_lt. destruct Hsc as [-> _]. apply Ha. set_solver.
Qed.

(** What an operation may acknowledge, and the typing of its arguments. *)
Definition op_acks (op : sync_op) : list Z :=
  match op with OpAck s => [s] | OpReceive p => [sp_ack p] | _ => [] end.

Definition op_typed (op : sync_op) : Prop :=
  match op with
  | OpSnapshot _ payload => Forall (is_u 8) payload
  | OpEvent _ key payload | OpDelta _ key payload => is_u 64 key /\ Forall (is_u 8) payload
  | OpAck s => is_u 64 s
  | OpReceive p => is_u 64 (sp_sequence p) /\ is_u 64 (sp_ack p)
  | _ => True
  end.

(** Fault-free logging: the file becomes the log of [es] and at most one more
    entry, which covers what the operation did. *)
Definition step_logged (w : SyncWal) r' (file' : list Z) es acks : Prop :=
  exists es', (es' = es \/ exists e, es' = es ++ [e]) /\ file' = log_bytes es' /\ logged w r' es' acks.

Lemma step_same w r r' es acks :
  logged w r es acks -> r_wal r' = r_wal r -> r_last_received r' = r_last_received r ->
  (forall p, p ∈ window r' -> p ∈ window r) -> step_logged w r' (log_bytes es) es acks.
Proof. intros Hl Hw Hr Hin. exists es. split; [by left|]. split; [done|]. by eapply logged_same. Qed.

Lemma enqueue_logged A w r es acks n kind key payload :
  0 <= wal_max_payload_bytes w -> window_inv r n -> n + 1 < 2 ^ 64 - 1 -> logged w r es acks ->
  is_u 64 key -> Forall (is_u 8) payload ->
  let '(r', file', res) := enqueue A io_ok r (log_bytes es) kind key payload in step_logged w r' file' es acks.
Proof.
  intros Hw Hi Hn Hl Hk Hu. pose proof (lg_received _ _ _ _ Hl) as Hrec. unfold enqueue.
  destruct (validate r payload); [|by eapply step_same].
  destruct (_ <=? _); [by eapply step_same|]. unfold log_packet. rewrite (lg_wal _ _ _ _ Hl).
  set (p := mkSyncPacket (r_next_sequence r) (r_last_received r) kind key payload).
  assert (entry_typed (EPacket p)) as Ht. { split; [|done]. destruct Hi. unfold is_u. simpl. lia. }
  pose proof (wal_log_io_ok A w (log_bytes es) (EPacket p) Ht Hw) as Hlog. cbn [wal_log] in Hlog.
  destruct (wal_append A io_ok w (log_bytes es) p) as [file' res]. destruct Hlog as [(-> & He & ->)|(-> & ->)]; cbn [negb].
  - exists (es ++ [EPacket p]). split; [right; by eexists|]. split; [by rewrite log_bytes_snoc|].
    eapply logged_packet; [done|done|by simpl; rewrite (lg_wal _ _ _ _ Hl)|done|].
    intros q Hq. unfold window in Hq. simpl in Hq. rewrite (assoc_L (++)) in Hq. apply elem_of_app in Hq as [Hq|Hq%list_elem_of_singleton].
    + right. split; [done|]. destruct Hi. rewrite list.Forall_forall in wi_range0. specialize (wi_range0 q Hq). simpl. lia.
    + left. subst q. done.
  - by eapply step_same.
Qed.

Lemma enqueue_owned_logged A w r es acks n kind key payload :
  0 <= wal_max_payload_bytes w -> window_inv r n -> n + 1 < 2 ^ 64 - 1 -> logged w r es acks ->
  is_u 64 key -> Forall (is_u 8) payload ->
  let '(r', file', res) := enqueue_owned A io_ok r (log_bytes es) kind key payload in step_logged w r' file' es acks.
Proof.
  intros. unfold enqueue_owned. destruct (validate r payload); [|by eapply step_same].
  destruct (A 0%nat); [|by eapply step_same]. by eapply enqueue_logged.
Qed.

Lemma sorted_seqs_inj l p q : StronglySorted Z.lt (seqs l) -> p ∈ l -> q ∈ l -> sp_sequence p = sp_sequence q -> p = q.
Proof.
  induction l as [|x l IH]; intros Hs Hp Hq He; [by apply not_elem_of_nil in Hp|]. cbn [seqs map] in Hs.
  inversion_clear Hs as [|? ? Hs' Hx]. assert (forall y, y ∈ l -> sp_sequence x < sp_sequence y) as Hlt.
  { intros y Hy. rewrite list.Forall_forall in Hx. apply Hx. apply list_elem_of_In, in_map, list_elem_of_In. done. }
  apply elem_of_cons in Hp as [->|Hp], Hq as [->|Hq]; [done| | |by apply IH].
  - specialize (Hlt q Hq). lia.
  - specialize (Hlt p Hp). lia.
Qed.

Lemma elem_of_zset {B} (l : list B) i x q : q ∈ zset l i x -> q = x \/ q ∈ l.
Proof.
  unfold zset. destruct (i <? 0); [by right|]. intros Hq. apply list_elem_of_lookup in Hq as [k Hk].
  apply list_lookup_insert_Some in Hk as [(_ & Hx & _)|(_ & Hk)]; [by left|right; by eapply list_elem_of_lookup_2].
Qed.

Lemma enqueue_delta_logged A w r es acks n key payload :
  0 <= wal_max_payload_bytes w -> window_inv r n -> n + 1 < 2 ^ 64 - 1 -> logged w r es acks ->
  is_u 64 key -> Forall (is_u 8) payload ->
  exists r' file' res, enqueue_delta A io_ok r (log_bytes es) key payload = Some (r', file', res) /\ step_logged w r' file' es acks.
Proof.
  intros Hw Hi Hn Hl Hk Hu. pose proof (lg_received _ _ _ _ Hl) as Hrec. unfold enqueue_delta.
  destruct (validate r payload); [|do 3 eexists; split; [done|by eapply step_same]].
  destruct (vec_position _ (r_pending r)) as [i|] eqn:Hp.
  2: { pose proof (enqueue_logged A w r es acks n SyncKind.Delta key payload Hw Hi Hn Hl Hk Hu) as He.
       destruct (enqueue A io_ok r (log_bytes es) SyncKind.Delta key payload) as [[r' file'] res]. by do 3 eexists. }
  apply position_Some in Hp as (p & Hp & Hd). rewrite Hp. cbn [mbind option_bind].
  unfold same_delta in Hd. apply andb_true_iff in Hd as [Hkd%bool_decide_eq_true Hke%Z.eqb_eq].
  assert (p ∈ window r) as Hin.
  { apply elem_of_app. right. pose proof (zget_Some _ _ _ Hp). rewrite zget_lookup in Hp by lia. by eapply list_elem_of_lookup_2. }
  unfold log_packet. rewrite (lg_wal _ _ _ _ Hl).
  set (q := mkSyncPacket (sp_sequence p) (r_last_received r) SyncKind.Delta key payload).
  assert (entry_typed (EPacket q)) as Ht.
  { destruct Hi. rewrite list.Forall_forall in wi_range0. specialize (wi_range0 p Hin). split; [|done]. unfold is_u. simpl. lia. }
  pose proof (wal_log_io_ok A w (log_bytes es) (EPacket q) Ht Hw) as Hlog. cbn [wal_log] in Hlog.
  destruct (wal_append A io_ok w (log_bytes es) q) as [file' res]. destruct Hlog as [(-> & He & ->)|(-> & ->)]; cbn [negb].
  2: { do 3 eexists. split; [done|by eapply step_same]. }
  do 3 eexists. split; [done|]. exists (es ++ [EPacket q]). split; [right; by eexists|]. split; [by rewrite log_bytes_snoc|].
  eapply logged_packet; [done|done|by simpl; rewrite (lg_wal _ _ _ _ Hl)|done|].
  match goal with |- forall x, x ∈ window ?z -> _ => set (r1 := z) end.
  assert (StronglySorted Z.lt (seqs (window r1))) as Hsort.
  { unfold r1, window. simpl. erewrite window_zset; [|exact Hp|done]. by destruct Hi. }
  assert (with_payload p payload ∈ window r1) as Hin1.
  { unfold r1, window. simpl. apply elem_of_app. right. pose proof (zget_Some _ _ _ Hp) as Hr.
    pose proof (zget_zset_eq (r_pending r) i (with_payload p payload) Hr) as Hz. rewrite zget_lookup in Hz by lia. by eapply list_elem_of_lookup_2. }
  intros x Hx. destruct (decide (sp_sequence x = sp_sequence p)) as [Hs|Hs].
  - left. rewrite (sorted_seqs_inj _ x (with_payload p payload) Hsort Hx Hin1 Hs). by split; [|split; [|split]].
  - right. split; [|done]. unfold r1, window in Hx. simpl in Hx. apply elem_of_app in Hx as [Hx|Hx]; [by apply elem_of_app; left|].
    apply elem_of_zset in Hx as [->|Hx]; [done|]. by apply elem_of_app; right.
Qed.

Lemma enqueue_delta_bytes_logged A w r es acks n key payload :
  0 <= wal_max_payload_bytes w -> window_inv r n -> n + 1 < 2 ^ 64 - 1 -> logged w r es acks ->
  is_u 64 key -> Forall (is_u 8) payload ->
  exists r' file' res, enqueue_delta_bytes A io_ok r (log_bytes es) key payload = Some (r', file', res) /\ step_logged w r' file' es acks.
Proof.
  intros. unfold enqueue_delta_bytes. destruct (validate r payload); [|do 3 eexists; split; [done|by eapply step_same]].
  destruct (A 0%nat); [|do 3 eexists; split; [done|by eapply step_same]]. by eapply enqueue_delta_logged.
Qed.

Lemma acknowledge_logged w r es acks n s :
  0 <= wal_max_payload_bytes w -> window_inv r n -> logged w r es acks -> is_u 64 s ->
  let '(r', file', res) := try_acknowledge io_ok r (log_bytes es) s in step_logged w r' file' es (s :: acks).
Proof.
  intros Hw Hi Hl Hs. pose proof (acknowledge_window io_ok r (log_bytes es) s n Hi) as Ha.
  pose proof (wal_log_io_ok alloc_all w (log_bytes es) (EAck s) Hs Hw) as Hlog. cbn [wal_log] in Hlog.
  revert Ha. unfold try_acknowledge. rewrite (lg_wal _ _ _ _ Hl).
  destruct (wal_acknowledge io_ok w (log_bytes es) s) as [file' res]. destruct Hlog as [(-> & He & ->)|(-> & ->)]; cbn [negb].
  - destruct (ack_retain s (r_in_flight r) (r_stats r)) as [fl st]. cbn [is_ok r_in_flight r_with_flight].
    intros (_ & _ & _ & _ & _ & _ & _ & Hfl). exists (es ++ [EAck s]). split; [right; by eexists|]. split; [by rewrite log_bytes_snoc|].
    eapply logged_ack; [done|done|by simpl; rewrite (lg_wal _ _ _ _ Hl)|by destruct Hl|].
    intros q. unfold window. cbn [r_in_flight r_with_flight r_pending]. rewrite Hfl, !elem_of_app. intros [Hq|Hq]; [left|by right].
    apply list_elem_of_In, in_map_iff in Hq as (it & <- & Hit). apply filter_In in Hit as [Hit _].
    apply list_elem_of_In, in_map_iff. by exists it.
  - intros _. exists es. split; [by left|]. split; [done|]. eapply logged_more; [|done]. set_solver.
Qed.

Lemma receive_logged w r es acks n p :
  0 <= wal_max_payload_bytes w -> window_inv r n -> logged w r es acks -> is_u 64 (sp_sequence p) -> is_u 64 (sp_ack p) ->
  let '(r', file', res) := receive io_ok r (log_bytes es) p in step_logged w r' file' es (sp_ack p :: acks).
Proof.
  intros Hw Hi Hl Hs Ha. unfold receive.
  assert (forall r', r_wal r' = r_wal r -> is_u 64 (r_last_received r') -> window r' = window r ->
    step_logged w r' (log_bytes es) es (sp_ack p :: acks)) as Hsame.
  { intros r' H1 H2 H3. exists es. split; [by left|]. split; [done|]. destruct Hl. split; try done; [congruence|].
    intros l q Hr Hq Hlt. rewrite H3 in Hq. apply lg_cover0; [done|done|]. intros y Hy. apply Hlt. set_solver. }
  pose proof (lg_received _ _ _ _ Hl) as Hrec.
  destruct (_ || _); [by apply Hsame|]. destruct (_ <=? _); [by apply Hsame|].
  set (r0 := r_with_session r (r_session_nonce r) (sp_sequence p) (r_last_ack_sent r)).
  destruct (_ <? _); [|by apply Hsame].
  assert (logged w r0 es acks) as Hl0.
  { destruct Hl. split; [done|done|done|]. intros l q. apply lg_cover0. }
  assert (window_inv r0 n) as Hi0 by by apply (window_same r).
  unfold acknowledge. pose proof (acknowledge_logged w r0 es acks n (sp_ack p) Hw Hi0 Hl0 Ha) as Hlg.
  destruct (try_acknowledge io_ok r0 (log_bytes es) (sp_ack p)) as [[r1 f1] res1].
  destruct Hlg as (es' & He & Hf & Hl1). exists es'. split; [done|]. split; [done|]. eapply logged_same; [| | |exact Hl1]; done.
Qed.

Lemma pump_logged {T} `{SyncTransport T} w r es acks frame (t : T) :
  logged w r es acks -> let '(r', t', report) := pump r frame t in logged w r' es acks.
Proof.
  intros Hl. unfold pump. case_bool_decide; [|done]. cbn [negb].
  pose proof (pump_send_spec (max_in_flight (r_config r)) frame (r_pending r) (r_in_flight r) (r_stats r) pump_report_default t) as H1.
  destruct (pump_send _ _ _ _ _ _ t) as [[[[pending' fl1] st1] rp1] t1]. destruct H1 as (first & Hpen & -> & _).
  pose proof (pump_resend_spec (r_config r) frame (r_in_flight r ++ map (fun p => mkInFlight p frame 0) first) st1 rp1 t1) as H2.
  destruct (pump_resend _ _ _ _ _ t1) as [[[fl2 st2] rp2] t2]. destruct H2 as (Hmap & _).
  pose proof (pump_retain_spec (r_config r) frame fl2 st2 rp2) as H3.
  destruct (pump_retain _ _ _ _ _) as [[fl3 st3] rp3]. destruct H3 as (-> & _).
  eapply logged_same; [| | |exact Hl]; [done|done|]. intros q. unfold window. simpl. rewrite Hpen, !elem_of_app.
  intros [Hq|Hq]; [|by right; right].
  apply list_elem_of_In, in_map_iff in Hq as (it & <- & Hit). apply filter_In in Hit as [Hit _].
  assert (if_packet it ∈ map if_packet fl2) as Hin by (apply list_elem_of_In, in_map_iff; by exists it).
  rewrite Hmap, map_app, map_map, map_id in Hin. apply elem_of_app in Hin. naive_solver.
Qed.

Section DurableRun.
Context {T : Type} `{SyncTransport T} (w : SyncWal) (Hw : 0 <= wal_max_payload_bytes w).

Lemma sync_step_logged A op r es acks (t : T) n :
  window_inv r n -> n + 1 < 2 ^ 64 - 1 -> logged w r es acks -> op_typed op ->
  exists r' file' t', sync_step A io_ok op (r, log_bytes es, t) = Some (r', file', t') /\
  step_logged w r' file' es (op_acks op ++ acks).
Proof.
  intros Hi Hn Hl Ht. assert (forall kind key payload, is_u 64 key -> Forall (is_u 8) payload ->
    let '(r', file', res) := enqueue A io_ok r (log_bytes es) kind key payload in step_logged w r' file' es acks) as He
    by (intros; by eapply enqueue_logged).
  assert (forall kind key payload, is_u 64 key -> Forall (is_u 8) payload ->
    let '(r', file', res) := enqueue_owned A io_ok r (log_bytes es) kind key payload in step_logged w r' file' es acks) as Ho
    by (intros; by eapply enqueue_owned_logged).
  assert (is_u 64 0) as H64 by done.
  destruct op as [[] payload|[] key payload|[] key payload|frame|s|p|m|[nonce|]]; cbn [sync_step op_acks op_typed app] in *.
  - unfold enqueue_snapshot. specialize (He SyncKind.Snapshot 0 payload H64 Ht). destruct (enqueue _ _ _ _ _ _ _) as [[r' f'] res]. by do 3 eexists.
  - unfold enqueue_snapshot_bytes. specialize (Ho SyncKind.Snapshot 0 payload H64 Ht). destruct (enqueue_owned _ _ _ _ _ _ _) as [[r' f'] res]. by do 3 eexists.
  - destruct Ht as [Hk Hu]. unfold enqueue_event. specialize (He SyncKind.Event key payload Hk Hu). destruct (enqueue _ _ _ _ _ _ _) as [[r' f'] res]. by do 3 eexists.
  - destruct Ht as [Hk Hu]. unfold enqueue_event_bytes. specialize (Ho SyncKind.Event key payload Hk Hu). destruct (enqueue_owned _ _ _ _ _ _ _) as [[r' f'] res]. by do 3 eexists.
  - destruct Ht as [Hk Hu]. destruct (enqueue_delta_logged A w r es acks n key payload) as (r' & f' & res & -> & ?); try done. by do 3 eexists.
  - destruct Ht as [Hk Hu]. destruct (enqueue_delta_bytes_logged A w r es acks n key payload) as (r' & f' & res & -> & ?); try done. by do 3 eexists.
  - pose proof (pump_logged w r es acks frame t Hl) as Hp. destruct (pump r frame t) as [[r' t'] rep].
    do 3 eexists. split; [done|]. exists es. split; [by left|done].
  - pose proof (acknowledge_logged w r es acks n s Hw Hi Hl Ht) as Ha. destruct (try_acknowledge _ _ _ _) as [[r' f'] res]. by do 3 eexists.
  - destruct Ht as [Hs Hack]. pose proof (receive_logged w r es acks n p Hw Hi Hl Hs Hack) as Ha. destruct (receive _ _ _ _) as [[r' f'] res]. by do 3 eexists.
  - do 3 eexists. split; [done|]. by eapply step_same.
  - do 3 eexists. split; [done|]. exists es. split; [by left|]. split; [done|]. destruct Hl. by split.
  - do 3 eexists. split; [done|]. exists es. split; [by left|]. split; [done|]. destruct Hl. by split.
Qed.

Lemma sync_run_logged ops : forall r es acks (t : T) n,
  window_inv r n -> n + zlen ops < 2 ^ 64 - 1 -> logged w r es acks -> Forall (fun x => op_typed x.2) ops ->
  exists r' es' t', sync_run (map (fun x => (x.1, io_ok, x.2)) ops) (r, log_bytes es, t) = Some (r', log_bytes es', t') /\
  zlen es' <= zlen es + zlen ops /\ window_inv r' (n + zlen ops) /\ r_config r' = r_config r /\
  logged w r' es' (concat (rev (map (fun x => op_acks x.2) ops)) ++ acks).
Proof.
  induction ops as [|[A op] ops IH]; intros r es acks t n Hi Hn Hl Ht; cbn [map sync_run fst snd rev].
  { exists r, es, t. zlen_nil_simp. rewrite !Z.add_0_r. split; [done|]. by split; [lia|]. }
  inversion_clear Ht as [|? ? Hop Hops]. zsimp. pose proof (zlen_nonneg ops).
  destruct (sync_step_logged A op r es acks t n Hi ltac:(lia) Hl Hop) as (r1 & f1 & t1 & He & es1 & Hes & -> & Hl1).
  destruct (sync_step_inv A io_ok op r (log_bytes es) t n Hi ltac:(lia)) as (r2 & f2 & t2 & He2 & Hi1 & Hc1).
  rewrite He in He2. injection He2 as <- <- <-. rewrite He. cbn [mbind option_bind].
  destruct (IH r1 es1 _ t1 (n + 1) Hi1 ltac:(lia) Hl1 Hops) as (r' & es' & t' & Hrun & Hlen & Hi' & Hc' & Hl').
  exists r', es', t'. split; [done|]. split.
  { assert (zlen es1 <= zlen es + 1) by (destruct Hes as [->|[e ->]]; zsimp; lia). lia. }
  replace (n + (zlen ops + 1)) with (n + 1 + zlen ops) by lia. split; [done|]. split; [congruence|].
  rewrite concat_app, <- (assoc_L (++)). cbn [concat]. by rewrite app_nil_r.
Qed.
End DurableRun.

Lemma recover_spec l : forall r, r_pending (recover r l) = r_pending r ++ l /\ r_in_flight (recover r l) = r_in_flight r /\
  r_config (recover r l) = r_config r /\ r_next_sequence r <= r_next_sequence (recover r l) /\
  forall p, p ∈ l -> is_u 64 (sp_sequence p) -> sp_sequence p < umax 64 -> sp_sequence p < r_next_sequence (recover r l).
Proof.
  induction l as [|p l IH]; intros r; cbn [recover].
  { rewrite app_nil_r. do 3 (split; [done|]). split; [lia|]. intros p Hp. by apply not_elem_of_nil in Hp. }
  match goal with |- context [recover ?z l] => destruct (IH z) as (Hp & Hf & Hc & Hn & Hs) end. simpl in *.
  rewrite Hp, <- (assoc_L (++)). split; [done|]. split; [done|]. split; [done|]. split; [lia|].
  intros q [->|Hq]%elem_of_cons Hu Hm; [|by apply Hs].
  unfold is_u, saturating_add in *. lia.
Qed.

(** What a crash can leave behind the last complete entry: nothing, or a
    strict prefix of the entry whose append was under way. *)
Definition torn_tail (w : SyncWal) (tail : list Z) : Prop :=
  tail = [] \/ exists e n, entry_ok w e /\ (n < length (entry_bytes e))%nat /\ tail = take n (entry_bytes e).

Lemma replay_torn_tail w es tail : wal_ok w -> Forall (entry_ok w) es -> torn_tail w tail ->
  wal_replay alloc_all io_ok alloc_all w (log_bytes es ++ tail) = Some (replay_entries w es []).
Proof.
  intros Hw Hes [->|(e & n & He & Hn & ->)]; [rewrite app_nil_r; by apply replay_good|]. rewrite replay_prefix by done.
  destruct (Nat.leb_spec (length (entry_bytes e)) n); [lia|done].
Qed.

(** C27: what is accepted survives a crash, while the disk works.  A
    replicator with a log, started on an empty file, runs fewer than
    2^64 - 2 calls; allocations may fail, file operations do not.  Then the
    process dies: between two calls, or in the middle of the one append the
    next call makes, so that the file ends in any strict prefix of one more
    entry.  Restarting on what remains never panics and gives a result; it
    succeeds whenever the limits leave room for one record per call, and may
    be refused otherwise ([full_window_cannot_restart]).  When it succeeds it
    gives back, with the same number, kind, key and payload, every packet
    that was pending or in flight and whose number is above all
    acknowledgements made; and the new replicator numbers new packets above
    all of them.  A run that appends after a failed append is not covered:
    there the log itself is damaged ([append_after_torn_tail] in Wal). *)
Theorem sync_durable {T} `{SyncTransport T} c w r0 ops (t : T) :
  wal_ok w -> replicator_with_wal alloc_all io_ok alloc_all c w [] = Some (Ok r0) ->
  0 <= max_pending c -> 0 <= max_in_flight c -> 0 <= max_retries c -> zlen ops < 2 ^ 64 - 2 ->
  Forall (fun x : alloc * sync_op => op_typed x.2) ops ->
  exists r file t', sync_run (map (fun x => (x.1, io_ok, x.2)) ops) (r0, [], t) = Some (r, file, t') /\
  forall tail, torn_tail w tail -> exists res,
    replicator_with_wal alloc_all io_ok alloc_all c w (file ++ tail) = Some res /\
    (zlen ops <= wal_max_records w -> zlen ops <= max_pending c -> is_ok res = true) /\
    forall r1, res = Ok r1 -> forall p, p ∈ window r ->
      (forall x s, x ∈ ops -> s ∈ op_acks x.2 -> s < sp_sequence p) ->
      covered (r_pending r1) p /\ sp_sequence p < r_next_sequence r1.
Proof.
  intros Hw Hr0 Hp Hf Hm Hops Ht. unfold replicator_with_wal in Hr0.
  destruct (replicator_try_new alloc_all c) as [r00|] eqn:Hnew; [|done].
  destruct (try_new_ok alloc_all c r00 Hnew Hp Hf Hm) as [-> Hi0]. simpl in Hr0.
  destruct (Z.ltb_spec (max_pending c) (zlen (@nil SyncPacket))) as [Hneg|]; [zlen_nil_simp; lia|]. injection Hr0 as <-.
  match goal with |- context [sync_run _ (?z, [], t)] => set (r0 := z) end.
  assert (window_inv r0 0) as Hi by by apply (window_same (mkReplicator c SyncMode.Offline 1 0 0 [] [] None None sync_stats_default)).
  assert (logged w r0 [] []) as Hl. { split; [done|constructor|done|]. intros l p _ Hin. by apply not_elem_of_nil in Hin. }
  destruct (sync_run_logged w (wo_payload _ Hw) ops r0 [] [] t 0 Hi ltac:(lia) Hl Ht) as (r & es & t' & Hrun & Hlen & Hi' & Hc & Hl').
  change (log_bytes []) with (@nil Z) in Hrun. zlen_nil_simp.
  unfold replicator_with_wal. rewrite Hnew. cbn [mbind option_bind]. change (shift 2 alloc_all) with alloc_all.
  assert (exists res, Some res = match replay_entries w es [] with
    | Ok l => if max_pending c <? zlen l then Some (Err SyncError.Backpressure)
              else Some (Ok (r_with_wal (recover (mkReplicator c SyncMode.Offline 1 0 0 [] [] None None sync_stats_default) l) (Some w)))
    | Err _ => Some (Err SyncError.PersistenceFailed) end) as [res Hres]
    by (destruct (replay_entries w es []); [destruct (_ <? _)|]; by eexists).
  exists r, (log_bytes es), t'. split; [done|]. intros tail Htail. exists res.
  rewrite replay_torn_tail by (done || apply Hl'). cbn [mbind option_bind]. split; [by destruct (replay_entries w es [])|]. split.
  - intros H1 H2. destruct (replay_entries_room w es []) as (l & Hrep & Hll); [zlen_nil_simp; lia|].
    rewrite Hrep in Hres. zlen_nil_simp. destruct (Z.ltb_spec (max_pending c) (zlen l)); [lia|]. by injection Hres as ->.
  - intros r1 -> p Hin Hacks. destruct (replay_entries w es []) as [l|] eqn:Hrep; [|done].
    destruct (max_pending c <? zlen l); [done|]. injection Hres as ->.
    destruct (lg_cover _ _ _ _ Hl' l p Hrep Hin) as (q & Hq & Hsc).
    { intros s Hs. apply elem_of_app in Hs as [Hs|Hs]; [|by apply not_elem_of_nil in Hs].
      apply list_elem_of_In, in_concat in Hs as (x & Hx & Hs). apply in_rev, in_map_iff in Hx as (y & <- & Hy).
      apply (Hacks y); by apply list_elem_of_In. }
    match goal with |- context [recover ?z l] => destruct (recover_spec l z) as (Hpd & _ & _ & _ & Hs) end. simpl.
    split; [exists q; rewrite Hpd; split; [done|done]|].
    destruct Hsc as [Hseq _]. rewrite <- Hseq. destruct Hi'. rewrite list.Forall_forall in wi_range0. specialize (wi_range0 p Hin).
    apply Hs; [done| |]; rewrite Hseq; unfold is_u, umax; lia.
Qed.

Definition demo_roomy : SyncConfig := mkSyncConfig 8 16 4 3 2.

Lemma sync_durable_witness :
  let w := mkSyncWal 16 64 in
  let ops := map (fun op => (alloc_all, op))
    [OpEvent true 1 [1]; OpDelta true 2 [2]; OpMode SyncMode.Online; OpPump 0; OpAck 1; OpDelta true 2 [3]; OpEvent true 4 [4]] in
  let tail := take 7 (entry_bytes (EPacket (mkSyncPacket 5 0 SyncKind.Event 9 [9; 9]))) in
  exists r0 r file t r1 p,
    replicator_with_wal alloc_all io_ok alloc_all demo_roomy w [] = Some (Ok r0) /\
    sync_run (map (fun x => (x.1, io_ok, x.2)) ops) (r0, [], []) = Some (r, file, t) /\
    replicator_with_wal alloc_all io_ok alloc_all demo_roomy w (file ++ tail) = Some (Ok r1) /\
    p ∈ window r /\ sp_payload p = [4] /\ covered (r_pending r1) p.
Proof.
  intros w ops tail.
  destruct (replicator_with_wal alloc_all io_ok alloc_all demo_roomy w []) as [[r0|]|] eqn:H0; [|discriminate H0|discriminate H0].
  assert (Hw : wal_ok w) by (split; simpl; unfold umax; lia).
  assert (Ht : Forall (fun x : alloc * sync_op => op_typed x.2) ops)
    by (repeat constructor; try (unfold is_u; lia); discriminate).
  destruct (sync_durable demo_roomy w r0 ops ([] : list SyncPacket) Hw H0 ltac:(discriminate) ltac:(discriminate) ltac:(discriminate)
    ltac:(reflexivity) Ht) as (r & file & t & Hrun & Hcrash).
  destruct (Hcrash tail) as (res & Hres & Hok & Hcov).
  { right. exists (EPacket (mkSyncPacket 5 0 SyncKind.Event 9 [9; 9])), 7%nat.
    split; [apply entry_fits_ok; [|reflexivity]|split; [apply Nat.ltb_lt; reflexivity|reflexivity]].
    cbn. repeat constructor; unfold is_u; lia. }
  assert (Hr : is_ok res = true) by (apply Hok; discriminate). destruct res as [r1|]; [|discriminate Hr].
  assert (Hin : mkSyncPacket 4 0 SyncKind.Event 4 [4] ∈ window r).
  { injection H0 as <-. vm_compute in Hrun. injection Hrun as <- _ _. apply list_elem_of_In. cbn. tauto. }
  exists r0, r, file, t, r1, (mkSyncPacket 4 0 SyncKind.Event 4 [4]).
  split; [reflexivity|]. split; [exact Hrun|]. split; [exact Hres|]. split; [exact Hin|]. split; [reflexivity|].
  apply (Hcov r1 eq_refl _ Hin). intros x s Hx Hs. unfold ops in Hx. apply list_elem_of_In in Hx, Hs. cbn in Hx.
  repeat (destruct Hx as [<-|Hx]; [cbn in Hs; try tauto; destruct Hs as [<-|[]]; reflexivity|]). destruct Hx.
Defined.

(** The log's own limit: with the window full and nothing acknowledged, the
    log holds [max_pending + max_in_flight] packets.  When its record limit is
    only [max_pending], as with the defaults (4096 for both), a restart fails
    and none of the accepted packets can be recovered. *)
Example full_window_cannot_restart :
  let c := mkSyncConfig 2 16 1 3 8 in
  let w := mkSyncWal 16 2 in
  let ops := map (fun op => (alloc_all, io_ok, op))
    [OpMode SyncMode.Online; OpEvent true 1 [1]; OpPump 0; OpEvent true 2 [2]; OpEvent true 3 [3]] in
  match replicator_with_wal alloc_all io_ok alloc_all c w [] with
  | Some (Ok r0) =>
      match sync_run ops (r0, [], ([] : list SyncPacket)) with
      | Some (r, file, _) => queued (r_stats r) = 3 /\
          replicator_with_wal alloc_all io_ok alloc_all c w file = Some (Err SyncError.PersistenceFailed)
      | None => False
      end
  | _ => False
  end.
Proof. split; reflexivity. Qed.

(** A failed append consumes a sequence number. *)
Example failed_append_skips_a_number :
  let r := mkReplicator demo_wide SyncMode.Offline 1 0 0 [] [] (Some (mkSyncWal 16 64)) None sync_stats_default in
  let '(r1, file, res) := enqueue alloc_all (mkIoPlan false None true true) r [] SyncKind.Event 1 [1] in
  res = Err SyncError.PersistenceFailed /\ r_next_sequence r1 = 2 /\ r_pending r1 = [] /\ file = [].
Proof. repeat split. Qed.

(** Attaching a log to a replicator that has already queued packets gives two
    pending packets the same number; a receiver drops one as a duplicate. *)
Example attach_duplicates_numbers :
  let c := demo_wide in
  let w := mkSyncWal 16 64 in
  let file := log_bytes [EPacket (mkSyncPacket 1 0 SyncKind.Event 9 [9])] in
  match replicator_try_new alloc_all c with
  | Ok r =>
      let '(r, _, _) := enqueue alloc_all io_ok r [] SyncKind.Event 1 [1] in
      match attach_wal alloc_all io_ok alloc_all r w file with
      | Some (r, Ok _) => seqs (r_pending r) = [1; 1]
      | _ => False
      end
  | Err _ => False
  end.
Proof. vm_compute. reflexivity. Qed.
