(* ===== verification/ThreadPool.v ===== *)
(** The worker pool of [platform/thread_pool.rs] as a transition system.

    A state holds the shared fields and the program point of every worker
    thread and of every thread that uses the pool.  A critical section of the
    queue mutex is one step; a step that blocks on the condition variable
    leaves the thread asleep until a notification names it.  Schedules,
    including which sleeper a [notify_one] wakes, are chosen by the
    environment. *)

From stdpp Require Import sets.
From S2P Require Import Prelude.

Module ThreadPoolError.
Inductive ThreadPoolError := ThreadSpawn | QueueFull | Stopped | AllocationFailed.
End ThreadPoolError.
Abbreviation ThreadPoolError := ThreadPoolError.ThreadPoolError.

Section Pool.
Context {J : Type}.

(** Program points of [worker_loop]: the outer [stop] test, the inner loop
    with the lock, asleep in [wait], running a job, about to take the
    completion guard, returned. *)
Inductive wphase := WTop | WLock | WSleep | WRun (j : J) | WDone | WExit.

(** Program points of a caller: outside, between the push and [notify_one] of
    [try_execute], in the loop of [wait_idle] with the lock, asleep there. *)
Inductive cphase := CIdle | CNotify | CCheck | CSleep.

(** [Drop]: not begun, [stop] stored, notified and joining. *)
Inductive dphase := DLive | DStored | DJoin.

Record PoolState := mkPoolState {
  tp_jobs : list J;
  tp_max_jobs : Z;
  tp_stop : bool;
  tp_pending : Z;
  tp_workers : list wphase;
  tp_clients : list cphase;
  tp_drop : dphase
}.

(** [clients] threads hold the pool. *)
Definition pool_try_new (A : alloc) (spawn : nat -> bool) (workers : Z) (clients : nat) : result ThreadPoolError PoolState :=
  let workers := Z.max workers 1 in
  let max_jobs := Z.max (saturating_mul 64 workers 1024) workers in
  if negb (A 0%nat) then Err ThreadPoolError.AllocationFailed
  else if negb (A 1%nat) then Err ThreadPoolError.AllocationFailed
  else if forallb spawn (seq 0 (Z.to_nat workers)) then
    Ok (mkPoolState [] max_jobs false 0 (replicate (Z.to_nat workers) WTop) (replicate clients CIdle) DLive)
  else Err ThreadPoolError.ThreadSpawn.

(** What a step shows. *)
Inductive event :=
| EvAccepted (j : J)
| EvRejected (e : ThreadPoolError)
| EvRan (j : J)
| EvIdle (c : nat) (answer : bool).

(** The sleeper a [notify_one] wakes. *)
Inductive target := ToWorker (i : nat) | ToClient (i : nat) | ToNobody.

Inductive action :=
| AWorker (i : nat)
| ASubmit (c : nat) (j : J)
| ANotify (c : nat) (t : target)
| AWait (c : nat)
| ACheck (c : nat)
| AStop
| ADropNotify
| ASpurious (t : target).

Definition set_worker st i p :=
  mkPoolState (tp_jobs st) (tp_max_jobs st) (tp_stop st) (tp_pending st) (<[i := p]> (tp_workers st)) (tp_clients st) (tp_drop st).
Definition set_client st c p :=
  mkPoolState (tp_jobs st) (tp_max_jobs st) (tp_stop st) (tp_pending st) (tp_workers st) (<[c := p]> (tp_clients st)) (tp_drop st).
Definition set_queue st jobs pending :=
  mkPoolState jobs (tp_max_jobs st) (tp_stop st) pending (tp_workers st) (tp_clients st) (tp_drop st).

Definition wake_worker (p : wphase) : wphase := match p with WSleep => WLock | _ => p end.
Definition wake_client (p : cphase) : cphase := match p with CSleep => CCheck | _ => p end.

Definition notify_all st :=
  mkPoolState (tp_jobs st) (tp_max_jobs st) (tp_stop st) (tp_pending st) (map wake_worker (tp_workers st))
    (map wake_client (tp_clients st)) (tp_drop st).

Definition worker_asleep (p : wphase) : bool := match p with WSleep => true | _ => false end.
Definition client_asleep (p : cphase) : bool := match p with CSleep => true | _ => false end.

(** One sleeper wakes; nobody only when nobody sleeps. *)
Definition notify_one st (t : target) : option PoolState :=
  match t with
  | ToWorker i => match tp_workers st !! i with Some WSleep => Some (set_worker st i WLock) | _ => None end
  | ToClient c => match tp_clients st !! c with Some CSleep => Some (set_client st c CCheck) | _ => None end
  | ToNobody =>
      if existsb worker_asleep (tp_workers st) || existsb client_asleep (tp_clients st) then None else Some st
  end.

(** [worker_loop], one step at a time. *)
Definition worker_step st (i : nat) : option (PoolState * list event) :=
  p ← tp_workers st !! i;
  match p with
  | WTop => Some (set_worker st i (if tp_stop st then WExit else WLock), [])
  | WLock =>
      match vec_pop (tp_jobs st) with
      | Some (j, jobs) => Some (set_worker (set_queue st jobs (tp_pending st)) i (WRun j), [])
      | None => Some (set_worker st i (if tp_stop st then WExit else WSleep), [])
      end
  | WRun j => Some (set_worker st i WDone, [EvRan j])
  | WDone => Some (notify_all (set_worker (set_queue st (tp_jobs st) (wrapping_sub 64 (tp_pending st) 1)) i WTop), [])
  | WSleep | WExit => None
  end.

(** The locked part of [try_execute]. *)
Definition try_execute st (c : nat) (j : J) : option (PoolState * list event) :=
  match tp_clients st !! c with
  | Some CIdle =>
      if tp_stop st then Some (st, [EvRejected ThreadPoolError.Stopped])
      else if tp_max_jobs st <=? zlen (tp_jobs st) then Some (st, [EvRejected ThreadPoolError.QueueFull])
      else Some (set_client (set_queue st (tp_jobs st ++ [j]) (wrapping_add 64 (tp_pending st) 1)) c CNotify, [EvAccepted j])
  | _ => None
  end.

(** One turn of the loop of [wait_idle]. *)
Definition wait_idle_turn st (c : nat) : option (PoolState * list event) :=
  match tp_clients st !! c with
  | Some CCheck =>
      if (zlen (tp_jobs st) =? 0) && (tp_pending st =? 0) then Some (set_client st c CIdle, [EvIdle c true])
      else if tp_stop st then Some (set_client st c CIdle, [EvIdle c false])
      else Some (set_client st c CSleep, [])
  | _ => None
  end.

(** [Drop] needs the pool for itself: no caller is inside a method. *)
Definition all_outside st : bool := forallb (fun p => match p with CIdle => true | _ => false end) (tp_clients st).

Definition pool_step st (a : action) : option (PoolState * list event) :=
  match a with
  | AWorker i => worker_step st i
  | ASubmit c j => match tp_drop st with DLive => try_execute st c j | _ => None end
  | ANotify c t =>
      match tp_clients st !! c with
      | Some CNotify => st ← notify_one st t; Some (set_client st c CIdle, [])
      | _ => None
      end
  | AWait c =>
      match tp_drop st, tp_clients st !! c with
      | DLive, Some CIdle => Some (set_client st c CCheck, [])
      | _, _ => None
      end
  | ACheck c => wait_idle_turn st c
  | AStop =>
      match tp_drop st with
      | DLive =>
          if all_outside st then
            Some (mkPoolState (tp_jobs st) (tp_max_jobs st) true (tp_pending st) (tp_workers st) (tp_clients st) DStored, [])
          else None
      | _ => None
      end
  | ADropNotify =>
      match tp_drop st with
      | DStored =>
          let st := notify_all st in
          Some (mkPoolState (tp_jobs st) (tp_max_jobs st) (tp_stop st) (tp_pending st) (tp_workers st) (tp_clients st) DJoin, [])
      | _ => None
      end
  | ASpurious ToNobody => None
  | ASpurious t => st ← notify_one st t; Some (st, [])
  end.

Fixpoint pool_run st (acts : list action) : option (PoolState * list event) :=
  match acts with
  | [] => Some (st, [])
  | a :: acts => '(st, e) ← pool_step st a; '(st, tr) ← pool_run st acts; Some (st, e ++ tr)
  end.
End Pool.

Arguments wphase : clear implicits. Arguments PoolState : clear implicits.
Arguments event : clear implicits. Arguments action : clear implicits.

(** ** Accounting *)
Section Accounting.
Context {J : Type}.
Implicit Types (st : PoolState J) (tr : list (event J)).

Definition accepted tr : list J := flat_map (fun e => match e with EvAccepted j => [j] | _ => [] end) tr.
Definition ran tr : list J := flat_map (fun e => match e with EvRan j => [j] | _ => [] end) tr.

Definition running (p : wphase J) : list J := match p with WRun j => [j] | _ => [] end.
Definition busy (p : wphase J) : Z := match p with WRun _ | WDone => 1 | _ => 0 end.

Definition total {B} (f : B -> Z) (l : list B) : Z := foldr (fun p n => f p + n) 0 l.

Lemma total_insert {B} (f : B -> Z) l i p q : l !! i = Some p -> total f (<[i := q]> l) = total f l - f p + f q.
Proof.
  revert i. induction l as [|x l IH]; intros [|i] Hi; simplify_eq/=; [lia|]. change (f x + total f (<[i := q]> l) = f x + total f l - f p + f q).
  rewrite (IH i Hi). lia.
Qed.

Lemma total_map {B} (f : B -> Z) (g : B -> B) l : (forall x, f (g x) = f x) -> total f (map g l) = total f l.
Proof. intros Hg. induction l as [|x l IH]; simpl; [done|]. by rewrite Hg, IH. Qed.

Lemma total_bounds {B} (f : B -> Z) (m : Z) l : (forall x, 0 <= f x <= m) -> 0 <= total f l <= m * zlen l.
Proof. intros Hf. induction l as [|x l IH]; cbn [total foldr]; zsimp; [lia|]. pose proof (Hf x). unfold total in IH. lia. Qed.

Lemma running_insert (l : list (wphase J)) i p q : l !! i = Some p ->
  flat_map running (<[i := q]> l) ++ running p ≡ₚ flat_map running l ++ running q.
Proof.
  revert i. induction l as [|x l IH]; intros [|i] Hi; simplify_eq/=; [solve_Permutation|].
  rewrite <- !(assoc_L (++)). by rewrite (IH i Hi).
Qed.

Lemma running_wake (l : list (wphase J)) : flat_map running (map wake_worker l) = flat_map running l.
Proof. induction l as [|[] l IH]; simpl; by rewrite ?IH. Qed.

Lemma busy_wake (p : wphase J) : busy (wake_worker p) = busy p.
Proof. by destruct p. Qed.

Lemma accepted_snoc tr e : accepted (tr ++ [e]) = accepted tr ++ match e with EvAccepted j => [j] | _ => [] end.
Proof. unfold accepted. rewrite flat_map_app. simpl. by rewrite app_nil_r. Qed.

Lemma ran_snoc tr e : ran (tr ++ [e]) = ran tr ++ match e with EvRan j => [j] | _ => [] end.
Proof. unfold ran. rewrite flat_map_app. simpl. by rewrite app_nil_r. Qed.

(** Every job accepted is queued, running or has run, once. *)
Record pool_inv st tr : Prop := {
  pi_pending : tp_pending st = zlen (tp_jobs st) + total busy (tp_workers st);
  pi_jobs : accepted tr ≡ₚ tp_jobs st ++ flat_map running (tp_workers st) ++ ran tr;
  pi_max : zlen (tp_jobs st) <= tp_max_jobs st;
  pi_bound : tp_max_jobs st + zlen (tp_workers st) < 2 ^ 64;
  pi_stop : tp_stop st = match tp_drop st with DLive => false | _ => true end;
  pi_join i : tp_drop st = DJoin -> tp_workers st !! i <> Some WSleep;
  pi_live i : tp_drop st = DLive -> tp_workers st !! i <> Some WExit;
  pi_idle tr1 c tr2 : tr = tr1 ++ EvIdle c true :: tr2 -> accepted tr1 ≡ₚ ran tr1
}.

Lemma busy_bounds (l : list (wphase J)) : 0 <= total busy l <= zlen l.
Proof. pose proof (total_bounds busy 1 l). rewrite Z.mul_1_l in H. apply H. intros []; simpl; lia. Qed.

Lemma not_busy_running (l : list (wphase J)) : total busy l = 0 -> flat_map running l = [].
Proof.
  induction l as [|p l IH]; cbn [total foldr flat_map]; [done|]. pose proof (busy_bounds l). unfold total in *.
  destruct p; cbn [busy running app]; intros; try lia; apply IH; lia.
Qed.

(** The trace part survives any event but [EvIdle _ true]. *)
Lemma idle_snoc tr e : (forall tr1 c tr2, tr = tr1 ++ EvIdle c true :: tr2 -> accepted tr1 ≡ₚ ran tr1) ->
  (forall c, e = EvIdle c true -> accepted tr ≡ₚ ran tr) ->
  forall tr1 c tr2, tr ++ [e] = tr1 ++ EvIdle c true :: tr2 -> accepted tr1 ≡ₚ ran tr1.
Proof.
  intros Hold Hnew tr1 c tr2 He. destruct tr2 as [|x tr2 _] using rev_ind.
  - apply app_inj_tail in He as [<- ->]. by eapply Hnew.
  - change (EvIdle c true :: tr2 ++ [x]) with ((EvIdle c true :: tr2) ++ [x]) in He. rewrite (assoc_L (++)) in He.
    apply app_inj_tail in He as [He _]. by eapply Hold.
Qed.

(** Steps that keep the queue, the counters and what runs. *)
Lemma inv_same st st' tr :
  tp_jobs st' = tp_jobs st -> tp_pending st' = tp_pending st -> tp_max_jobs st' = tp_max_jobs st -> tp_stop st' = tp_stop st ->
  tp_drop st' = tp_drop st -> total busy (tp_workers st') = total busy (tp_workers st) ->
  flat_map running (tp_workers st') ≡ₚ flat_map running (tp_workers st) -> zlen (tp_workers st') = zlen (tp_workers st) ->
  (forall i, tp_drop st = DJoin -> tp_workers st' !! i <> Some WSleep) ->
  (forall i, tp_drop st = DLive -> tp_workers st' !! i <> Some WExit) ->
  pool_inv st tr -> pool_inv st' tr.
Proof.
  intros Hj Hp Hm Hs Hd Hb Hr Hl H1 H2 []. split; rewrite ?Hj, ?Hp, ?Hm, ?Hs, ?Hd, ?Hb, ?Hl; try done. by rewrite Hr.
Qed.

Lemma insert_cases {B} (l : list B) i p k q : <[i := p]> l !! k = Some q -> q = p \/ l !! k = Some q.
Proof. intros H. apply list_lookup_insert_Some in H as [(_ & H & _)|[_ H]]; [by left|by right]. Qed.

Lemma zlen_insert {B} (l : list B) i p : zlen (<[i := p]> l) = zlen l.
Proof. unfold zlen. by rewrite length_insert. Qed.

(** A worker moves between idle program points. *)
Lemma inv_move st tr i p q :
  tp_workers st !! i = Some p -> busy p = busy q -> running p = running q ->
  (tp_drop st = DJoin -> q <> WSleep) -> (tp_drop st = DLive -> q <> WExit) -> pool_inv st tr -> pool_inv (set_worker st i q) tr.
Proof.
  intros Hi Hb Hr H1 H2 Hinv. eapply inv_same; [..|exact Hinv]; simpl; try done.
  - rewrite (total_insert _ _ _ _ _ Hi). lia.
  - pose proof (running_insert _ _ _ q Hi) as Hp. rewrite Hr in Hp. by apply Permutation_app_inv_r in Hp.
  - apply zlen_insert.
  - intros k Hd Hk. apply insert_cases in Hk as [<-|Hk]; [by apply H1|by apply (pi_join _ _ Hinv k)].
  - intros k Hd Hk. apply insert_cases in Hk as [<-|Hk]; [by apply H2|by apply (pi_live _ _ Hinv k)].
Qed.

Lemma inv_client st tr c p : pool_inv st tr -> pool_inv (set_client st c p) tr.
Proof. intros Hinv. eapply inv_same; [..|exact Hinv]; try done; apply Hinv. Qed.

Lemma inv_notify_all st tr : pool_inv st tr -> pool_inv (notify_all st) tr.
Proof.
  intros Hinv. eapply inv_same; [..|exact Hinv]; simpl; try done.
  - apply total_map, busy_wake.
  - by rewrite running_wake.
  - unfold zlen. by rewrite length_map.
  - intros i _ Hi. apply list_lookup_fmap_Some in Hi as ([] & ? & _); done.
  - intros i Hd Hi. apply list_lookup_fmap_Some in Hi as (p & Hp & Hi). destruct p; try done. by apply (pi_live _ _ Hinv i).
Qed.

Lemma inv_notify_one st st' tr t : notify_one st t = Some st' -> pool_inv st tr -> pool_inv st' tr.
Proof.
  intros Hn Hinv. destruct t as [i|c|]; simpl in Hn.
  - destruct (tp_workers st !! i) as [[]|] eqn:Hi; simplify_eq. by eapply inv_move.
  - destruct (tp_clients st !! c) as [[]|]; simplify_eq. by apply inv_client.
  - destruct (_ || _); simplify_eq. done.
Qed.

Lemma worker_step_inv st st' tr i ev : pool_inv st tr -> worker_step st i = Some (st', ev) -> pool_inv st' (tr ++ ev).
Proof.
  intros Hinv. unfold worker_step. destruct (tp_workers st !! i) as [p|] eqn:Hi; [|done]. cbn [mbind option_bind].
  pose proof (pi_stop _ _ Hinv) as Hstop.
  destruct p as [| | |j| |]; try done.
  - intros [= <- <-]. rewrite app_nil_r. apply (inv_move _ _ i WTop); try done; destruct (tp_stop st); try done.
    intros Hd. by rewrite Hd in Hstop.
  - destruct (vec_pop (tp_jobs st)) as [[j jobs]|] eqn:Hpop; intros [= <- <-]; rewrite app_nil_r.
    + apply vec_pop_Some in Hpop. pose proof Hinv as []. split; simpl; rewrite ?zlen_insert; try done.
      * rewrite (total_insert _ _ _ _ _ Hi), pi_pending0, Hpop. simpl. zsimp. lia.
      * rewrite pi_jobs0, Hpop. pose proof (running_insert _ _ _ (WRun j) Hi) as Hp. simpl in Hp. rewrite app_nil_r in Hp. rewrite Hp.
        solve_Permutation.
      * rewrite Hpop in pi_max0. zsimp. lia.
      * intros k Hd Hk. apply insert_cases in Hk as [?|Hk]; [done|by apply (pi_join0 k)].
      * intros k Hd Hk. apply insert_cases in Hk as [?|Hk]; [done|by apply (pi_live0 k)].
    + apply (inv_move _ _ i WLock); try done; destruct (tp_stop st); try done; intros Hd; by rewrite Hd in Hstop.
  - intros [= <- <-]. pose proof Hinv as []. split; simpl; rewrite ?zlen_insert; try done.
    + rewrite (total_insert _ _ _ _ _ Hi), pi_pending0. simpl. lia.
    + rewrite accepted_snoc, ran_snoc, app_nil_r, pi_jobs0. pose proof (running_insert _ _ _ WDone Hi) as Hp.
      simpl in Hp. rewrite app_nil_r in Hp. rewrite <- Hp. solve_Permutation.
    + intros k Hd Hk. apply insert_cases in Hk as [?|Hk]; [done|by apply (pi_join0 k)].
    + intros k Hd Hk. apply insert_cases in Hk as [?|Hk]; [done|by apply (pi_live0 k)].
    + apply idle_snoc; [done|]. intros c Hc. done.
  - intros [= <- <-]. rewrite app_nil_r. apply inv_notify_all. pose proof Hinv as []. split; simpl; rewrite ?zlen_insert; try done.
    + pose proof (busy_bounds (<[i := WTop]> (tp_workers st))). rewrite zlen_insert in *. rewrite (total_insert _ _ _ _ _ Hi) in *. simpl in *.
      pose proof (zlen_nonneg (tp_jobs st)). unfold wrapping_sub. rewrite wrap_small; [|unfold is_u]; lia.
    + rewrite pi_jobs0. pose proof (running_insert _ _ _ WTop Hi) as Hp. simpl in Hp. rewrite !app_nil_r in Hp. by rewrite Hp.
    + intros k Hd Hk. apply insert_cases in Hk as [?|Hk]; [done|by apply (pi_join0 k)].
    + intros k Hd Hk. apply insert_cases in Hk as [?|Hk]; [done|by apply (pi_live0 k)].
Qed.

Lemma submit_inv st st' tr c j ev : tp_drop st = DLive -> pool_inv st tr -> try_execute st c j = Some (st', ev) -> pool_inv st' (tr ++ ev).
Proof.
  intros Hd Hinv. unfold try_execute. destruct (tp_clients st !! c) as [[]|]; try done.
  assert (forall err, pool_inv st (tr ++ [EvRejected err])) as Hquiet.
  { intros err. destruct Hinv. split; try done; [by rewrite accepted_snoc, ran_snoc, !app_nil_r|by apply idle_snoc]. }
  destruct (tp_stop st); [intros [= <- <-]; by apply Hquiet|].
  destruct (Z.leb_spec (tp_max_jobs st) (zlen (tp_jobs st))); intros [= <- <-]; [by apply Hquiet|].
  pose proof Hinv as []. pose proof (busy_bounds (tp_workers st)). pose proof (zlen_nonneg (tp_jobs st)).
  split; simpl; try done.
  - unfold wrapping_add. rewrite wrap_small by (unfold is_u; lia). zsimp. lia.
  - rewrite accepted_snoc, ran_snoc, app_nil_r, pi_jobs0. solve_Permutation.
  - zsimp. lia.
  - apply idle_snoc; [done|]. intros x Hx. done.
Qed.

Lemma check_inv st st' tr c ev : pool_inv st tr -> wait_idle_turn st c = Some (st', ev) -> pool_inv st' (tr ++ ev).
Proof.
  intros Hinv. unfold wait_idle_turn. destruct (tp_clients st !! c) as [[]|]; try done.
  destruct (_ && _) eqn:He; [|destruct (tp_stop st)]; intros [= <- <-].
  - pose proof Hinv as []. apply andb_true_iff in He as [H1%Z.eqb_eq H2%Z.eqb_eq]. apply inv_client. split; try done.
    + by rewrite accepted_snoc, ran_snoc, !app_nil_r.
    + apply idle_snoc; [done|]. intros x _. rewrite pi_jobs0.
      pose proof (busy_bounds (tp_workers st)). rewrite (not_busy_running (tp_workers st)) by lia.
      destruct (tp_jobs st); [done|]. zsimp. pose proof (zlen_nonneg l). lia.
  - pose proof Hinv as []. apply inv_client. split; try done; [by rewrite accepted_snoc, ran_snoc, !app_nil_r|]. by apply idle_snoc.
  - rewrite app_nil_r. by apply inv_client.
Qed.

Lemma pool_step_inv st st' tr a ev : pool_inv st tr -> pool_step st a = Some (st', ev) -> pool_inv st' (tr ++ ev).
Proof.
  intros Hinv. destruct a as [i|c j|c t|c|c| | |t]; cbn [pool_step].
  - by apply worker_step_inv.
  - destruct (tp_drop st) eqn:Hd; try done. by apply submit_inv.
  - destruct (tp_clients st !! c) as [[]|]; try done. destruct (notify_one st t) as [st1|] eqn:Hn; [|done]. cbn [mbind option_bind].
    intros [= <- <-]. rewrite app_nil_r. apply inv_client. by eapply inv_notify_one.
  - destruct (tp_drop st); try done. destruct (tp_clients st !! c) as [[]|]; try done. intros [= <- <-]. rewrite app_nil_r. by apply inv_client.
  - by apply check_inv.
  - destruct (tp_drop st) eqn:Hd; try done. destruct (all_outside st); [|done]. intros [= <- <-]. rewrite app_nil_r. destruct Hinv. by split.
  - destruct (tp_drop st) eqn:Hd; try done. intros [= <- <-]. rewrite app_nil_r.
    destruct (inv_notify_all _ _ Hinv). split; simpl in *; try done.
    + rewrite pi_stop0. by rewrite Hd.
    + intros i _ Hi. apply list_lookup_fmap_Some in Hi as ([] & ? & _); done.
  - destruct t as [i|c|]; [| |done]; (destruct (notify_one st _) as [st1|] eqn:Hn; [|done]); cbn [mbind option_bind]; intros [= <- <-];
      rewrite app_nil_r; by eapply inv_notify_one.
Qed.

Lemma pool_run_inv acts : forall st st' tr0 tr, pool_inv st tr0 -> pool_run st acts = Some (st', tr) -> pool_inv st' (tr0 ++ tr).
Proof.
  induction acts as [|a acts IH]; intros st st' tr0 tr Hinv; cbn [pool_run]; [intros [= <- <-]; by rewrite app_nil_r|].
  destruct (pool_step st a) as [[st1 ev]|] eqn:Hs; [|done]. cbn [mbind option_bind].
  destruct (pool_run st1 acts) as [[st2 tr2]|] eqn:Hr; [|done]. cbn [mbind option_bind]. intros [= <- <-].
  rewrite (assoc_L (++)). eapply IH; [|done]. by eapply pool_step_inv.
Qed.

Lemma total_replicate {B} (f : B -> Z) n x : f x = 0 -> total f (replicate n x) = 0.
Proof. intros Hf. induction n; simpl; lia. Qed.

Lemma pool_new_inv A spawn workers clients st :
  pool_try_new A spawn workers clients = Ok st -> workers < 2 ^ 53 ->
  pool_inv st [] /\ zlen (tp_workers st) = Z.max workers 1 /\ tp_clients st = replicate clients CIdle /\ tp_drop st = DLive /\
  tp_max_jobs st = Z.max workers 1 * 1024.
Proof.
  unfold pool_try_new. intros Hn Hw. destruct (A 0%nat), (A 1%nat), (forallb _ _); try done. injection Hn as <-.
  assert (Z.max (saturating_mul 64 (Z.max workers 1) 1024) (Z.max workers 1) = Z.max workers 1 * 1024) as Hmax
    by (unfold saturating_mul, umax; lia).
  rewrite Hmax. assert (zlen (replicate (Z.to_nat (Z.max workers 1)) (@WTop J)) = Z.max workers 1) as Hl
    by (unfold zlen; rewrite length_replicate; lia).
  split; [|done]. split; simpl; try done.
  - by rewrite total_replicate.
  - clear Hl. by induction (Z.to_nat (Z.max workers 1)) as [|k IH].
  - zlen_nil_simp. lia.
  - rewrite Hl. lia.
  - intros i _ Hi. by apply lookup_replicate in Hi as [? _].
  - intros [] ? ? He; discriminate He.
Qed.
End Accounting.

(** C12: every job once.  Whatever the schedule of workers and callers, the
    wake-ups chosen, the spurious wake-ups and the failures, every accepted
    job is at any time queued, running or has run, exactly once and in
    exactly one of the three; nothing else runs; the queue stays within its
    bound; and when [wait_idle] answers [true], every job accepted so far has
    run. *)
Theorem pool_runs_each_job_once {J} A spawn workers clients (st0 : PoolState J) acts st tr :
  pool_try_new A spawn workers clients = Ok st0 -> workers < 2 ^ 53 -> pool_run st0 acts = Some (st, tr) ->
  accepted tr ≡ₚ tp_jobs st ++ flat_map running (tp_workers st) ++ ran tr /\
  zlen (tp_jobs st) <= Z.max workers 1 * 1024 /\
  forall tr1 c tr2, tr = tr1 ++ EvIdle c true :: tr2 -> accepted tr1 ≡ₚ ran tr1.
Proof.
  intros Hn Hw Hr. destruct (pool_new_inv A spawn workers clients st0 Hn Hw) as (Hi & _ & _ & _ & Hmax).
  destruct (pool_run_inv acts _ _ _ _ Hi Hr). simpl in *. split; [done|]. split; [|done].
  assert (forall acts (s s' : PoolState J) t, pool_run s acts = Some (s', t) -> tp_max_jobs s' = tp_max_jobs s) as Hkeep.
  { clear. induction acts as [|a acts IH]; intros s s' t; cbn [pool_run]; [by intros [= <- <-]|].
    destruct (pool_step s a) as [[s1 e1]|] eqn:Hs; [|done]. cbn [mbind option_bind].
    destruct (pool_run s1 acts) as [[s2 t2]|] eqn:Hr; [|done]. cbn [mbind option_bind]. intros [= <- <-]. rewrite (IH _ _ _ Hr).
    unfold pool_step, worker_step, try_execute, wait_idle_turn, notify_one, mbind, option_bind in Hs. by repeat case_match; simplify_eq. }
  rewrite (Hkeep _ _ _ _ Hr) in pi_max0. lia.
Qed.

Definition demo_schedule : list (action Z) :=
  [ASubmit 0 7; ANotify 0 ToNobody; ASubmit 0 8; ANotify 0 ToNobody; AWait 0; ACheck 0; AWorker 1; AWorker 1; AWorker 0; AWorker 1;
   AWorker 1; ACheck 0; AWorker 0; AWorker 0; AWorker 0; ACheck 0].

Lemma pool_runs_each_job_once_witness :
  exists st0 st tr, pool_try_new alloc_all (fun _ => true) 2 1 = Ok st0 /\ pool_run st0 demo_schedule = Some (st, tr) /\
  tr = [EvAccepted 7; EvAccepted 8; EvRan 8; EvRan 7; EvIdle 0 true] /\ accepted (take 4 tr) ≡ₚ ran (take 4 tr).
Proof.
  destruct (pool_try_new alloc_all (fun _ => true) 2 1) as [st0|] eqn:Hn; [|discriminate Hn].
  destruct (pool_run st0 demo_schedule) as [[st tr]|] eqn:Hr; [|vm_compute in Hn; injection Hn as <-; discriminate Hr].
  destruct (pool_runs_each_job_once alloc_all (fun _ => true) 2 1 st0 demo_schedule st tr Hn ltac:(reflexivity) Hr) as (_ & _ & Hidle).
  assert (Ht : tr = [EvAccepted 7; EvAccepted 8; EvRan 8; EvRan 7; EvIdle 0 true])
    by (vm_compute in Hn; injection Hn as <-; vm_compute in Hr; injection Hr as _ <-; reflexivity).
  exists st0, st, tr. split; [reflexivity|]. split; [exact Hr|]. split; [exact Ht|]. apply (Hidle (take 4 tr) 0%nat []). rewrite Ht. reflexivity.
Defined.

(** ** Waiting *)
Section Waiting.
Context {J : Type}.
Implicit Types (st : PoolState J).

(** Program points at which a worker can move on. *)
Definition awake (p : wphase J) : Prop := p <> WSleep /\ p <> WExit.

(** One caller, pool not dropped: a queued job has someone coming for it, and
    a caller sleeps only while a job is outstanding. *)
Record live_inv st (c : cphase) : Prop := {
  li_client : tp_clients st = [c];
  li_live : tp_drop st = DLive;
  li_queue : tp_jobs st <> [] -> c = CNotify \/ exists i p, tp_workers st !! i = Some p /\ awake p;
  li_sleep : c = CSleep -> tp_pending st <> 0
}.

Lemma worker_enabled st i p : tp_workers st !! i = Some p -> awake p -> exists r, worker_step st i = Some r.
Proof.
  intros Hp [H1 H2]. unfold worker_step. rewrite Hp. cbn [mbind option_bind]. destruct p; try done; try by eexists.
  destruct (vec_pop (tp_jobs st)) as [[]|]; by eexists.
Qed.

Lemma awake_insert st i p q : tp_workers st !! i = Some p -> awake q ->
  exists k x, <[i := q]> (tp_workers st) !! k = Some x /\ awake x.
Proof. intros Hp Hq. exists i, q. split; [|done]. apply list_lookup_insert_eq. by eapply lookup_lt_Some. Qed.

Lemma awake_wake (l : list (wphase J)) i p : l !! i = Some p -> awake p -> exists k x, map wake_worker l !! k = Some x /\ awake x.
Proof. intros Hp Ha. exists i, (wake_worker p). split; [by rewrite list_lookup_fmap, Hp|]. by destruct p. Qed.

Lemma asleep_or_awake (l : list (wphase J)) :
  (forall i, l !! i <> Some WExit) -> l <> [] -> existsb worker_asleep l = false -> exists i p, l !! i = Some p /\ awake p.
Proof.
  intros Hx Hl Hs. destruct l as [|p l]; [done|]. exists 0%nat, p. split; [done|].
  cbn [existsb] in Hs. apply orb_false_iff in Hs as [Hs _]. split; [by intros ->|]. intros ->. by apply (Hx 0%nat).
Qed.

(** Every step keeps it. *)
Lemma live_step st st' c tr a ev : pool_inv st tr -> live_inv st c -> tp_workers st <> [] -> a <> AStop -> pool_step st a = Some (st', ev) ->
  exists c', live_inv st' c'.
Proof.
  intros Hinv [Hc Hd Hq Hs] Hne Ha. pose proof (pi_stop _ _ Hinv) as Hstop. rewrite Hd in Hstop. pose proof (pi_pending _ _ Hinv) as Hpend.
  pose proof (busy_bounds (tp_workers st)) as Hbb. pose proof (zlen_nonneg (tp_jobs st)) as Hzl.
  assert (forall k p, tp_clients st !! k = Some p -> k = 0%nat /\ c = p) as Hk.
  { intros [|k] p; rewrite Hc; simpl; [by intros [= ->]|done]. }
  destruct a as [i|k j|k t|k|k| | |t]; cbn [pool_step]; try done.
  - unfold worker_step. destruct (tp_workers st !! i) as [p|] eqn:Hi; [|done]. cbn [mbind option_bind]. destruct p as [| | |j| |]; try done.
    + rewrite Hstop. intros [= <- _]. exists c. split; try done. intros Hj. right. by apply (awake_insert st i WTop).
    + destruct (vec_pop (tp_jobs st)) as [[j jobs]|] eqn:Hpop; intros [= <- _]; exists c.
      * split; try done. intros _. right. by apply (awake_insert st i WLock).
      * rewrite Hstop. apply vec_pop_None in Hpop. by split.
    + intros [= <- _]. exists c. split; try done. intros _. right. by apply (awake_insert st i (WRun j)).
    + intros [= <- _]. exists (wake_client c). split; simpl; [by rewrite Hc|done| |by destruct c].
      intros _. right. destruct (awake_insert st i WDone WTop Hi) as (k & x & Hx & Hax); [done|]. by eapply awake_wake.
  - rewrite Hd. unfold try_execute. destruct (tp_clients st !! k) as [[]|] eqn:Hkc; try done. destruct (Hk _ _ Hkc) as [-> ->].
    rewrite Hstop. destruct (_ <=? _); intros [= <- _]; [exists CIdle; by split|]. exists CNotify. split; simpl; try done; [by rewrite Hc|by left].
  - destruct (tp_clients st !! k) as [[]|] eqn:Hkc; try done. destruct (Hk _ _ Hkc) as [-> ->].
    destruct t as [i|k'|]; simpl.
    + destruct (tp_workers st !! i) as [[]|] eqn:Hi; try done. intros [= <- _]. exists CIdle. split; simpl; [by rewrite Hc|done| |done].
      intros _. right. by apply (awake_insert st i WSleep).
    + destruct (tp_clients st !! k') as [[]|] eqn:Hkc'; try done. by destruct (Hk _ _ Hkc') as [_ ?].
    + destruct (existsb worker_asleep (tp_workers st)) eqn:Has; [done|]. rewrite Hc. simpl. intros [= <- _].
      exists CIdle. split; simpl; [by rewrite Hc|done| |done]. intros _. right. apply asleep_or_awake; [|done|done].
      intros i. by apply (pi_live _ _ Hinv).
  - rewrite Hd. destruct (tp_clients st !! k) as [[]|] eqn:Hkc; try done. destruct (Hk _ _ Hkc) as [-> ->]. intros [= <- _].
    exists CCheck. split; simpl; [by rewrite Hc|done| |done]. intros Hj. destruct (Hq Hj) as [?|?]; [done|by right].
  - unfold wait_idle_turn. destruct (tp_clients st !! k) as [[]|] eqn:Hkc; try done. destruct (Hk _ _ Hkc) as [-> ->].
    rewrite Hstop. destruct (_ && _) eqn:He; intros [= <- _].
    + exists CIdle. split; simpl; [by rewrite Hc|done| |done]. intros Hj. destruct (Hq Hj) as [?|?]; [done|by right].
    + exists CSleep. split; simpl; [by rewrite Hc|done| |].
      * intros Hj. destruct (Hq Hj) as [?|?]; [done|by right].
      * intros _ H0. rewrite H0 in *. destruct (Z.eqb_spec (zlen (tp_jobs st)) 0); [done|]. lia.
  - by rewrite Hd.
  - destruct t as [i|k|]; [| |done]; simpl.
    + destruct (tp_workers st !! i) as [[]|] eqn:Hi; try done. intros [= <- _]. exists c. split; simpl; try done. intros _. right. by apply (awake_insert st i WSleep).
    + destruct (tp_clients st !! k) as [[]|] eqn:Hkc; try done. destruct (Hk _ _ Hkc) as [-> ->]. intros [= <- _].
      exists CCheck. split; simpl; [by rewrite Hc|done| |done]. intros Hj. destruct (Hq Hj) as [?|?]; [done|by right].
Qed.

(** *** Termination of a wait *)

(** Steps while the caller waits: the workers' and its own. *)
Definition waiting_action (a : action J) : Prop := match a with AWorker _ | ACheck 0 => True | _ => False end.

Definition wphase_weight (p : wphase J) : Z :=
  match p with WTop => 4 | WLock => 3 | WRun _ => 2 | WDone => 1 | WSleep | WExit => 0 end.
Definition cphase_weight (p : cphase) : Z := match p with CCheck => 1 | _ => 0 end.

(** Finishing a job is worth more than all the wake-ups it causes. *)
Definition wait_measure st : Z :=
  (3 * zlen (tp_workers st) + 5) * tp_pending st + total wphase_weight (tp_workers st) + total cphase_weight (tp_clients st).

Lemma wake_weight (l : list (wphase J)) : total wphase_weight (map wake_worker l) <= total wphase_weight l + 3 * zlen l.
Proof.
  induction l as [|p l IH]; cbn [map total foldr]; [zlen_nil_simp; lia|]. unfold total in *. zsimp.
  assert (wphase_weight (wake_worker p) <= wphase_weight p + 3) by (destruct p; simpl; lia). lia.
Qed.

Lemma wphase_weight_nonneg (l : list (wphase J)) : 0 <= total wphase_weight l.
Proof. induction l as [|[] l IH]; cbn [total foldr wphase_weight]; unfold total in *; lia. Qed.

Lemma wait_step_decreases st st' c tr a ev :
  pool_inv st tr -> live_inv st c -> waiting_action a -> pool_step st a = Some (st', ev) ->
  wait_measure st' + 1 <= wait_measure st /\ zlen (tp_workers st') = zlen (tp_workers st).
Proof.
  intros Hinv [Hc Hd _ _] Ha. pose proof (pi_stop _ _ Hinv) as Hstop. rewrite Hd in Hstop. pose proof (pi_pending _ _ Hinv) as Hpend.
  pose proof (pi_bound _ _ Hinv) as Hbd. pose proof (pi_max _ _ Hinv) as Hmx.
  pose proof (busy_bounds (tp_workers st)) as Hbb. pose proof (zlen_nonneg (tp_jobs st)) as Hzl.
  unfold wait_measure. destruct a as [i|k j|k t|k|[|k]| | |t]; try done; cbn [pool_step].
  - unfold worker_step. destruct (tp_workers st !! i) as [p|] eqn:Hi; [|done]. cbn [mbind option_bind].
    pose proof (total_insert wphase_weight (tp_workers st) i p) as Hins.
    destruct p as [| | |j| |]; try done; simpl wphase_weight in Hins.
    + rewrite Hstop. intros [= <- _]. cbn -[total Z.mul]. rewrite zlen_insert, (Hins WLock Hi). simpl wphase_weight. split; lia.
    + destruct (vec_pop (tp_jobs st)) as [[j jobs]|]; rewrite ?Hstop; intros [= <- _]; cbn -[total Z.mul];
        rewrite zlen_insert, (Hins _ Hi); simpl wphase_weight; (split; lia).
    + intros [= <- _]. cbn -[total Z.mul]. rewrite zlen_insert, (Hins WDone Hi). simpl wphase_weight. split; lia.
    + intros [= <- _]. cbn -[total Z.mul map].
      pose proof (wake_weight (<[i := WTop]> (tp_workers st))) as Hwk. rewrite zlen_insert, (Hins WTop Hi) in Hwk. simpl wphase_weight in Hwk.
      pose proof (total_insert busy (tp_workers st) i WDone WTop Hi) as Hbz. simpl in Hbz.
      pose proof (busy_bounds (<[i := WTop]> (tp_workers st))) as Hbb2. rewrite zlen_insert in Hbb2.
      assert (wrapping_sub 64 (tp_pending st) 1 = tp_pending st - 1) as -> by (unfold wrapping_sub; rewrite wrap_small; unfold is_u; lia).
      assert (zlen (map wake_worker (<[i := WTop]> (tp_workers st))) = zlen (tp_workers st)) as ->
        by (unfold zlen; by rewrite length_map, length_insert).
      assert (total cphase_weight (map wake_client (tp_clients st)) <= total cphase_weight (tp_clients st) + 1) as Hcw
        by (rewrite Hc; destruct c; simpl; lia).
      split; [nia|done].
  - unfold wait_idle_turn. rewrite Hc. simpl lookup. destruct c; try done. rewrite Hstop.
    destruct (_ && _); intros [= <- _]; cbn -[total Z.mul]; rewrite Hc; cbn -[Z.mul]; (split; lia).
Qed.

(** The caller's own progress: still waiting, or answered [true]. *)
Lemma wait_step_client st st' c tr a ev :
  pool_inv st tr -> live_inv st c -> tp_workers st <> [] -> waiting_action a -> pool_step st a = Some (st', ev) ->
  exists c', live_inv st' c' /\ ((c = CCheck \/ c = CSleep) -> (c' = CCheck \/ c' = CSleep) \/ EvIdle 0 true ∈ ev /\ c' = CIdle) /\
  (c = CIdle -> c' = CIdle).
Proof.
  intros Hinv Hl Hne Ha Hs. assert (a <> AStop) as Hns by (intros ->; done).
  destruct (live_step st st' c tr a ev Hinv Hl Hne Hns Hs) as [c' Hl']. exists c'. split; [done|].
  pose proof (pi_stop _ _ Hinv) as Hstop. destruct Hl as [Hc Hd _ _], Hl' as [Hc' _ _ _]. rewrite Hd in Hstop.
  destruct a as [i|k j|k t|k|[|k]| | |t]; try done; cbn [pool_step] in Hs.
  - assert (tp_clients st' = tp_clients st \/ tp_clients st' = map wake_client (tp_clients st)) as [He|He].
    { unfold worker_step, mbind, option_bind in Hs. repeat case_match; simplify_eq; first [by left | by right]. }
    + rewrite Hc, Hc' in He. injection He as ->. naive_solver.
    + rewrite Hc, Hc' in He. injection He as ->. split; [|by intros ->]. intros [->| ->]; left; by left.
  - unfold wait_idle_turn in Hs. rewrite Hc in Hs. simpl lookup in Hs. destruct c; try done. rewrite Hstop in Hs.
    destruct (_ && _); injection Hs as <- <-; simpl in Hc'; rewrite Hc in Hc'; injection Hc' as <-.
    + split; [|done]. intros _. right. split; [set_solver|done].
    + split; [|done]. intros _. left. by right.
Qed.

Lemma step_keeps_workers st st' a ev : pool_step st a = Some (st', ev) -> zlen (tp_workers st') = zlen (tp_workers st).
Proof.
  unfold pool_step, worker_step, try_execute, wait_idle_turn, notify_one, mbind, option_bind.
  intros Hs. repeat case_match; simplify_eq/=; unfold zlen; by rewrite ?length_map, ?length_insert, ?length_map.
Qed.

Lemma workers_cons (l : list (wphase J)) : 0 < zlen l -> l <> [].
Proof. intros H ->. zlen_nil_simp. lia. Qed.

(** The invariants along a run that does not begin to drop the pool. *)
Lemma live_run acts : forall st c tr0 st' tr, Forall (fun a => a <> AStop) acts -> pool_inv st tr0 -> live_inv st c ->
  0 < zlen (tp_workers st) -> pool_run st acts = Some (st', tr) -> exists c', live_inv st' c' /\ 0 < zlen (tp_workers st').
Proof.
  induction acts as [|a acts IH]; intros st c tr0 st' tr Hns Hinv Hl Hw; cbn [pool_run]; [intros [= <- _]; by exists c|].
  inversion_clear Hns as [|? ? Ha Hns']. destruct (pool_step st a) as [[st1 ev]|] eqn:Hs; [|done]. cbn [mbind option_bind].
  destruct (pool_run st1 acts) as [[st2 tr2]|] eqn:Hr; [|done]. cbn [mbind option_bind]. intros [= <- _].
  destruct (live_step st st1 c tr0 a ev) as [c1 Hl1]; [done|done|by apply workers_cons|done|done|].
  eapply (IH st1 c1 (tr0 ++ ev)); [done|by eapply pool_step_inv|done|by rewrite (step_keeps_workers _ _ _ _ Hs)|done].
Qed.

Lemma wait_measure_nonneg st tr c : pool_inv st tr -> live_inv st c -> 0 <= wait_measure st.
Proof.
  intros Hinv [Hc _ _ _]. unfold wait_measure. rewrite Hc. pose proof (wphase_weight_nonneg (tp_workers st)).
  pose proof (busy_bounds (tp_workers st)). rewrite (pi_pending _ _ Hinv). pose proof (zlen_nonneg (tp_jobs st)).
  pose proof (zlen_nonneg (tp_workers st)). assert (0 <= total cphase_weight [c]) by (destruct c; simpl; lia). nia.
Qed.

(** A run of the workers and the waiting caller. *)
Lemma wait_run acts : forall st c tr0 st' tr, Forall waiting_action acts -> pool_inv st tr0 -> live_inv st c ->
  0 < zlen (tp_workers st) -> pool_run st acts = Some (st', tr) ->
  zlen acts <= wait_measure st /\
  exists c', live_inv st' c' /\ ((c = CCheck \/ c = CSleep) -> (c' = CCheck \/ c' = CSleep) \/ EvIdle 0 true ∈ tr).
Proof.
  induction acts as [|a acts IH]; intros st c tr0 st' tr Hw Hinv Hl Hn; cbn [pool_run].
  { intros [= <- <-]. split; [zlen_nil_simp; by eapply wait_measure_nonneg|]. exists c. split; [done|]. by left. }
  inversion_clear Hw as [|? ? Ha Hw']. destruct (pool_step st a) as [[st1 ev]|] eqn:Hs; [|done]. cbn [mbind option_bind].
  destruct (pool_run st1 acts) as [[st2 tr2]|] eqn:Hr; [|done]. cbn [mbind option_bind]. intros [= <- <-].
  destruct (wait_step_decreases _ _ _ _ _ _ Hinv Hl Ha Hs) as [Hd Hl1].
  destruct (wait_step_client st st1 c tr0 a ev) as (c1 & Hlive & Hgo & _); [done|done|by apply workers_cons|done|done|].
  destruct (IH st1 c1 (tr0 ++ ev) st2 tr2) as (Hlen & c2 & Hlive2 & Hgo2); [done|by eapply pool_step_inv|done|by rewrite Hl1|done|].
  split; [zsimp; lia|]. exists c2. split; [done|]. intros Hcc. destruct (Hgo Hcc) as [Hc1|[Hev _]]; [|right; set_solver].
  destruct (Hgo2 Hc1) as [?|?]; [by left|right; set_solver].
Qed.

(** With no worker able to move, a waiting caller can. *)
Lemma wait_progress st tr c : pool_inv st tr -> live_inv st c -> c = CCheck \/ c = CSleep ->
  exists a r, waiting_action a /\ pool_step st a = Some r.
Proof.
  intros Hinv [Hc Hd Hq Hs] Hcc. pose proof (pi_stop _ _ Hinv) as Hstop. rewrite Hd in Hstop.
  destruct Hcc as [->| ->].
  - exists (ACheck 0). cbn [pool_step]. unfold wait_idle_turn. rewrite Hc. simpl. rewrite Hstop. destruct (_ && _); by eexists.
  - assert (exists i p, tp_workers st !! i = Some p /\ awake p) as (i & p & Hi & Hp).
    { destruct (decide (tp_jobs st = [])) as [Hj|Hj]; [|destruct (Hq Hj) as [?|?]; done].
      pose proof (pi_pending _ _ Hinv) as Hp. specialize (Hs eq_refl). rewrite Hj in Hp. zlen_nil_simp.
      assert (total busy (tp_workers st) <> 0) as Hb by lia. clear -Hb.
      induction (tp_workers st) as [|p l IH]; [done|]. cbn [total foldr] in Hb. destruct (busy p) eqn:Hp.
      - destruct IH as (i & q & Hi & Hq); [unfold total; lia|]. by exists (S i), q.
      - exists 0%nat, p. split; [done|]. by destruct p.
      - by destruct p. }
    exists (AWorker i). destruct (worker_enabled st i p Hi Hp) as [r Hr]. by exists r.
Qed.
End Waiting.

(** a wait ends.  A pool with one caller that has been used in any way
    and is being waited on: whatever order the workers and the caller are
    scheduled in, they take at most [wait_measure] steps, and when none of
    them can move the caller has got the answer [true]. *)
Theorem wait_idle_terminates {J} A spawn workers (st0 : PoolState J) acts st tr wacts st' tr' :
  pool_try_new A spawn workers 1 = Ok st0 -> workers < 2 ^ 53 ->
  Forall (fun a => a <> AStop) acts -> pool_run st0 acts = Some (st, tr) -> tp_clients st = [CCheck] \/ tp_clients st = [CSleep] ->
  Forall waiting_action wacts -> pool_run st wacts = Some (st', tr') ->
  zlen wacts <= wait_measure st /\
  ((forall a, waiting_action a -> pool_step st' a = None) -> EvIdle 0 true ∈ tr').
Proof.
  intros Hn Hw Hns Hr Hcl Hwa Hr'. destruct (pool_new_inv A spawn workers 1 st0 Hn Hw) as (Hi & Hz & Hc & Hd & _).
  assert (live_inv st0 CIdle) as Hl.
  { split; [exact Hc|done| |done]. unfold pool_try_new in Hn. intros Hj. exfalso. apply Hj.
    destruct (A 0%nat), (A 1%nat), (forallb _ _); try done. by injection Hn as <-. }
  destruct (live_run acts st0 CIdle [] st tr Hns Hi Hl ltac:(lia) Hr) as (c & Hlive & Hpos).
  pose proof (pool_run_inv acts _ _ _ _ Hi Hr) as Hi1. simpl in Hi1.
  assert (c = CCheck \/ c = CSleep) as Hcc.
  { pose proof (li_client _ _ Hlive) as He. rewrite He in Hcl. destruct Hcl as [[= <-]|[= <-]]; [by left|by right]. }
  destruct (wait_run wacts st c tr st' tr' Hwa Hi1 Hlive Hpos Hr') as (Hlen & c' & Hlive' & Hgo). split; [done|].
  intros Hstuck. destruct (Hgo Hcc) as [Hc'|?]; [|done].
  destruct (wait_progress st' (tr ++ tr') c') as (a & r & Ha & Hra); [by eapply pool_run_inv|done|done|]. by rewrite (Hstuck a Ha) in Hra.
Qed.

Definition submitted : list (action Z) := [AWorker 0; AWorker 0; ASubmit 0 7; ANotify 0 (ToWorker 0); AWait 0].
Definition waited : list (action Z) := [ACheck 0; AWorker 0; AWorker 0; AWorker 0; ACheck 0; AWorker 0; AWorker 0].

Lemma wait_idle_terminates_witness :
  exists st0 st tr st' tr', pool_try_new alloc_all (fun _ => true) 1 1 = Ok st0 /\ pool_run st0 submitted = Some (st, tr) /\
  pool_run st waited = Some (st', tr') /\ zlen waited <= wait_measure st /\ EvIdle 0 true ∈ tr'.
Proof.
  destruct (pool_try_new (J := Z) alloc_all (fun _ => true) 1 1) as [st0|] eqn:Hn; [|discriminate Hn].
  destruct (pool_run st0 submitted) as [[st tr]|] eqn:Hr; [|vm_compute in Hn; injection Hn as <-; discriminate Hr].
  destruct (pool_run st waited) as [[st' tr']|] eqn:Hr';
    [|vm_compute in Hn; injection Hn as <-; vm_compute in Hr; injection Hr as <- _; discriminate Hr'].
  destruct (wait_idle_terminates alloc_all (fun _ => true) 1 st0 submitted st tr waited st' tr' Hn ltac:(reflexivity)
    ltac:(repeat constructor; discriminate) Hr
    ltac:(vm_compute in Hn; injection Hn as <-; vm_compute in Hr; injection Hr as <- _; left; reflexivity)
    ltac:(repeat constructor) Hr') as [Hlen Hdone].
  exists st0, st, tr, st', tr'. split; [reflexivity|]. split; [exact Hr|]. split; [exact Hr'|]. split; [exact Hlen|]. apply Hdone.
  vm_compute in Hn. injection Hn as <-. vm_compute in Hr. injection Hr as <- _. vm_compute in Hr'. injection Hr' as <- _.
  intros [[|i]|k j|k t|k|[|k]| | |t] Ha; try reflexivity; exfalso; exact Ha.
Defined.

(** ** Dropping the pool *)
Section Joining.
Context {J : Type}.
Implicit Types (st : PoolState J).

Definition is_worker (a : action J) : Prop := match a with AWorker _ => True | _ => False end.

(** Steps a worker still takes once [stop] is set and nobody sleeps. *)
Definition exit_weight (p : wphase J) : Z :=
  match p with WLock => 4 | WRun _ => 3 | WDone => 2 | WTop => 1 | WSleep | WExit => 0 end.

Lemma wake_awake (l : list (wphase J)) : (forall i, l !! i <> Some WSleep) -> map wake_worker l = l.
Proof.
  induction l as [|p l IH]; intros Hl; [done|]. cbn [map]. f_equal; [|apply IH; intros i; apply (Hl (S i))].
  pose proof (Hl 0%nat). by destruct p.
Qed.

Lemma join_step st st' tr a ev : pool_inv st tr -> tp_drop st = DJoin -> is_worker a -> pool_step st a = Some (st', ev) ->
  total exit_weight (tp_workers st') + 1 <= total exit_weight (tp_workers st) /\ tp_drop st' = DJoin.
Proof.
  intros Hinv Hd Ha. pose proof (pi_stop _ _ Hinv) as Hstop. rewrite Hd in Hstop.
  destruct a as [i|k j|k t|k|k| | |t]; try done. cbn [pool_step]. unfold worker_step.
  destruct (tp_workers st !! i) as [p|] eqn:Hi; [|done]. cbn [mbind option_bind].
  pose proof (total_insert exit_weight (tp_workers st) i p) as Hins.
  destruct p as [| | |j| |]; try done; simpl exit_weight in Hins.
  - rewrite Hstop. intros [= <- _]. cbn -[total]. rewrite (Hins WExit Hi). by split; [simpl; lia|].
  - destruct (vec_pop (tp_jobs st)) as [[j jobs]|]; rewrite ?Hstop; intros [= <- _]; cbn -[total]; rewrite (Hins _ Hi); by split; [simpl; lia|].
  - intros [= <- _]. cbn -[total]. rewrite (Hins WDone Hi). by split; [simpl; lia|].
  - intros [= <- _]. cbn -[total map]. rewrite wake_awake; [rewrite (Hins WTop Hi); by split; [simpl; lia|]|].
    intros k Hk. apply insert_cases in Hk as [?|Hk]; [done|]. by apply (pi_join _ _ Hinv k).
Qed.

Lemma exit_weight_nonneg (l : list (wphase J)) : 0 <= total exit_weight l <= 4 * zlen l.
Proof. apply total_bounds. intros []; simpl; lia. Qed.

Lemma join_run acts : forall st tr0 st' tr, Forall is_worker acts -> pool_inv st tr0 -> tp_drop st = DJoin ->
  pool_run st acts = Some (st', tr) -> zlen acts <= total exit_weight (tp_workers st) /\ tp_drop st' = DJoin.
Proof.
  induction acts as [|a acts IH]; intros st tr0 st' tr Hw Hinv Hd; cbn [pool_run].
  { intros [= <- _]. zlen_nil_simp. split; [apply exit_weight_nonneg|done]. }
  inversion_clear Hw as [|? ? Ha Hw']. destruct (pool_step st a) as [[st1 ev]|] eqn:Hs; [|done]. cbn [mbind option_bind].
  destruct (pool_run st1 acts) as [[st2 tr2]|] eqn:Hr; [|done]. cbn [mbind option_bind]. intros [= <- _].
  destruct (join_step _ _ _ _ _ Hinv Hd Ha Hs) as [Hdec Hd1].
  destruct (IH st1 (tr0 ++ ev) st2 tr2) as [Hlen Hd2]; [done|by eapply pool_step_inv|done|done|]. split; [zsimp; lia|done].
Qed.
End Joining.

(** [Drop] joins.  After any use of the pool by any number of callers,
    once [Drop] has notified, the workers take at most four steps each
    whatever the schedule, and when none can move every thread has returned,
    so every [join] returns. *)
Theorem pool_drop_joins {J} A spawn workers clients (st0 : PoolState J) acts st tr wacts st' tr' :
  pool_try_new A spawn workers clients = Ok st0 -> workers < 2 ^ 53 -> pool_run st0 acts = Some (st, tr) -> tp_drop st = DJoin ->
  Forall is_worker wacts -> pool_run st wacts = Some (st', tr') ->
  zlen wacts <= 4 * zlen (tp_workers st) /\
  ((forall i, worker_step st' i = None) -> Forall (fun p => p = WExit) (tp_workers st')).
Proof.
  intros Hn Hw Hr Hd Hwa Hr'. destruct (pool_new_inv A spawn workers clients st0 Hn Hw) as (Hi & _).
  pose proof (pool_run_inv acts _ _ _ _ Hi Hr) as Hi1. destruct (join_run wacts st _ st' tr' Hwa Hi1 Hd Hr') as [Hlen Hd'].
  pose proof (exit_weight_nonneg (tp_workers st)). split; [lia|]. intros Hstuck.
  pose proof (pool_run_inv wacts _ _ _ _ Hi1 Hr') as Hi2. apply list.Forall_forall. intros p Hp. apply list_elem_of_lookup in Hp as [i Hi'].
  assert (p <> WSleep) as Hns by (intros ->; by apply (pi_join _ _ Hi2 i Hd')).
  destruct p as [| | |j| |]; try done; (destruct (worker_enabled st' i _ Hi') as [r Hr2]; [done|]; by rewrite (Hstuck i) in Hr2).
Qed.

Definition dropped : list (action Z) := [AWorker 0; AWorker 0; ASubmit 0 7; ANotify 0 (ToWorker 0); ASubmit 0 8; ANotify 0 ToNobody; AStop; ADropNotify].

Lemma pool_drop_joins_witness :
  exists st0 st tr st' tr', pool_try_new alloc_all (fun _ => true) 1 1 = Ok st0 /\ pool_run st0 dropped = Some (st, tr) /\
  pool_run st (replicate 4 (AWorker 0)) = Some (st', tr') /\ tr' = [EvRan 8] /\ Forall (fun p => p = WExit) (tp_workers st').
Proof.
  destruct (pool_try_new (J := Z) alloc_all (fun _ => true) 1 1) as [st0|] eqn:Hn; [|discriminate Hn].
  destruct (pool_run st0 dropped) as [[st tr]|] eqn:Hr; [|vm_compute in Hn; injection Hn as <-; discriminate Hr].
  destruct (pool_run st (replicate 4 (AWorker 0))) as [[st' tr']|] eqn:Hr';
    [|vm_compute in Hn; injection Hn as <-; vm_compute in Hr; injection Hr as <- _; discriminate Hr'].
  destruct (pool_drop_joins alloc_all (fun _ => true) 1 1 st0 dropped st tr (replicate 4 (AWorker 0)) st' tr' Hn ltac:(reflexivity) Hr
    ltac:(vm_compute in Hn; injection Hn as <-; vm_compute in Hr; injection Hr as <- _; reflexivity)
    ltac:(repeat constructor) Hr') as [_ Hdone].
  exists st0, st, tr, st', tr'. split; [reflexivity|]. split; [exact Hr|]. split; [exact Hr'|].
  split; [|apply Hdone]; vm_compute in Hn; injection Hn as <-; vm_compute in Hr; injection Hr as <- _; vm_compute in Hr';
    injection Hr' as <- <-; [reflexivity|by intros [|[]]].
Defined.

(** *** Two callers

    With a second caller in [wait_idle] the [notify_one] of a submission can
    go to it instead of to the sleeping worker: the job stays queued and
    everybody sleeps. *)
Definition lost_wakeup : list (action Z) :=
  [AWorker 0; AWorker 0; ASubmit 0 7; AWait 1; ACheck 1; ANotify 0 (ToClient 1); ACheck 1; AWait 0; ACheck 0].

Theorem submission_wakeup_lost :
  exists st0 st tr, pool_try_new alloc_all (fun _ => true) 1 2 = Ok st0 /\ pool_run st0 lost_wakeup = Some (st, tr) /\
  tr = [EvAccepted 7] /\ tp_jobs st = [7] /\ tp_workers st = [WSleep] /\ tp_clients st = [CSleep; CSleep].
Proof. do 3 eexists. split; [vm_compute; reflexivity|]. split; [vm_compute; reflexivity|]. vm_compute. done. Qed.
