(* ===== verification/WaveExecutor.v ===== *)
(** The parallel wave executor and the frame limiter of [kernel/scheduler.rs].

    [ParallelWaveExecutor::try_run] is one caller of the worker pool of
    [ThreadPool]: it submits the jobs of a wave one by one, stops at the first
    rejection, and otherwise waits until the pool is idle.  A session is a
    thread that calls it for one wave after the other, as
    [Kernel::execute_parallel_wave] is meant to be used with the waves of the
    plan ([Scheduler]).  Scheduling, wake-ups and spurious wake-ups are the
    environment's.

    Theorem: running a plan's waves this way, no two systems that conflict or
    depend on each other ever run at the same time, a system runs only after
    all it waits for has run, and the session ends within a bounded number of
    steps with every system run exactly once.  A wave larger than the queue is
    abandoned while its accepted jobs still run.

    [FrameLimiter] reads a clock that is a parameter: it never goes back, and
    moves at least once in any [stall] uses.  Waits return and are at least a
    period apart. *)

From stdpp Require Import sets strings.
From S2P Require Import Prelude Scheduler ThreadPool.

Section Executor.
Context {J : Type}.
Implicit Types (st : PoolState J).

(** Program points of [try_run]: at the head of the loop with the jobs left,
    before the [notify_one] of a submission, in [wait_idle]. *)
Inductive wave_call := WaveSubmit (jobs : list J) | WaveNotify (jobs : list J) | WaveWait.

Definition rejected (ev : list (event J)) : option ThreadPoolError :=
  match ev with [EvRejected e] => Some e | _ => None end.
Definition answered (ev : list (event J)) : option bool :=
  match ev with [EvIdle _ b] => Some b | _ => None end.

(** [try_run], one step of the caller at a time; [inr] is its result. *)
Definition try_run_step st (call : wave_call) (t : target) :
    option (PoolState J * (wave_call + result ThreadPoolError bool) * list (event J)) :=
  match call with
  | WaveSubmit (j :: jobs) =>
      '(st, ev) ← pool_step st (ASubmit 0 j);
      Some (st, match rejected ev with Some e => inr (Err e) | None => inl (WaveNotify jobs) end, ev)
  | WaveNotify jobs => '(st, ev) ← pool_step st (ANotify 0 t); Some (st, inl (WaveSubmit jobs), ev)
  | WaveSubmit [] => '(st, ev) ← pool_step st (AWait 0); Some (st, inl WaveWait, ev)
  | WaveWait =>
      '(st, ev) ← pool_step st (ACheck 0);
      Some (st, match answered ev with Some b => inr (Ok b) | None => inl WaveWait end, ev)
  end.

(** [ParallelWaveExecutor::run] on the result of [try_run]. *)
Definition wave_answer (r : result ThreadPoolError bool) : bool := match r with Ok b => b | Err _ => false end.

(** A thread that runs waves one after the other. *)
Record session := mkSession { ss_answers : list bool; ss_call : option wave_call; ss_todo : list (list J) }.

Definition session_new (waves : list (list J)) : session := mkSession [] None waves.

Definition execute_parallel_wave st (s : session) (t : target) : option (PoolState J * session * list (event J)) :=
  match ss_call s with
  | None =>
      match ss_todo s with
      | [] => None
      | jobs :: todo => Some (st, mkSession (ss_answers s) (Some (WaveSubmit jobs)) todo, [])
      end
  | Some call =>
      '(st, c, ev) ← try_run_step st call t;
      Some (st, match c with
                | inl call => mkSession (ss_answers s) (Some call) (ss_todo s)
                | inr r => mkSession (ss_answers s ++ [wave_answer r]) None (ss_todo s)
                end, ev)
  end.

Inductive wave_action := OnWorker (i : nat) | OnCaller (t : target) | OnSpurious (t : target).

Definition wave_step (x : PoolState J * session) (a : wave_action) : option (PoolState J * session * list (event J)) :=
  match a with
  | OnWorker i => '(st, ev) ← pool_step x.1 (AWorker i); Some (st, x.2, ev)
  | OnCaller t => execute_parallel_wave x.1 x.2 t
  | OnSpurious t => '(st, ev) ← pool_step x.1 (ASpurious t); Some (st, x.2, ev)
  end.

Fixpoint wave_run (x : PoolState J * session) (acts : list wave_action) : option (PoolState J * session * list (event J)) :=
  match acts with
  | [] => Some (x, [])
  | a :: acts => '(x, e) ← wave_step x a; '(x, tr) ← wave_run x acts; Some (x, e ++ tr)
  end.
End Executor.

Arguments wave_call : clear implicits. Arguments session : clear implicits.

(** ** The invariant of a session *)
Section Session.
Context {J : Type}.
Implicit Types (st : PoolState J) (s : session J) (tr ev : list (event J)) (call : option (wave_call J)).

Definition jobs_left call : list J :=
  match call with Some (WaveSubmit jobs | WaveNotify jobs) => jobs | Some WaveWait | None => [] end.

Definition phase_ok call (c : cphase) : Prop :=
  match call with
  | None | Some (WaveSubmit _) => c = CIdle
  | Some (WaveNotify _) => c = CNotify
  | Some WaveWait => c = CCheck \/ c = CSleep
  end.

(** [complete] waves have been answered, [pre] is the part of the current wave
    submitted so far. *)
Record wave_inv (waves : list (list J)) st tr s (complete : list (list J)) (pre : list J) : Prop := {
  wi_pool : pool_inv st tr;
  wi_live : exists c, live_inv st c /\ phase_ok (ss_call s) c;
  wi_workers : 0 < zlen (tp_workers st);
  wi_fits : Forall (fun w => zlen w <= tp_max_jobs st) waves;
  wi_waves : waves = complete ++ match ss_call s with None => [] | Some _ => [pre ++ jobs_left (ss_call s)] end ++ ss_todo s;
  wi_none : ss_call s = None -> pre = [];
  wi_accepted : accepted tr = concat complete ++ pre;
  wi_answers : ss_answers s = replicate (length complete) true;
  wi_ran : exists l, ran tr ≡ₚ concat complete ++ l
}.

(** Outstanding jobs belong to the current wave. *)
Lemma outstanding_current waves st tr s complete pre : wave_inv waves st tr s complete pre ->
  exists l, ran tr ≡ₚ concat complete ++ l /\ pre ≡ₚ tp_jobs st ++ flat_map running (tp_workers st) ++ l.
Proof.
  intros Hw. destruct (wi_ran _ _ _ _ _ _ Hw) as [l Hl]. exists l. split; [done|].
  pose proof (pi_jobs _ _ (wi_pool _ _ _ _ _ _ Hw)) as Hj. rewrite (wi_accepted _ _ _ _ _ _ Hw), Hl in Hj.
  apply (Permutation_app_inv_l (concat complete)). rewrite Hj. solve_Permutation.
Qed.

Lemma step_keeps_max st st' a ev : pool_step st a = Some (st', ev) -> tp_max_jobs st' = tp_max_jobs st.
Proof.
  unfold pool_step, worker_step, try_execute, wait_idle_turn, notify_one, mbind, option_bind.
  intros Hs. by repeat case_match; simplify_eq/=.
Qed.

(** What a step of a worker, or a spurious wake-up, leaves alone. *)
Lemma worker_step_shows st st' i ev : pool_step st (AWorker i) = Some (st', ev) ->
  accepted ev = [] /\ (tp_clients st' = tp_clients st \/ tp_clients st' = map wake_client (tp_clients st)).
Proof.
  cbn [pool_step]. unfold worker_step, mbind, option_bind. intros Hs.
  repeat case_match; simplify_eq/=; (split; [done|first [by left | by right]]).
Qed.

Lemma spurious_step_shows st st' t ev c : tp_clients st = [c] -> pool_step st (ASpurious t) = Some (st', ev) ->
  ev = [] /\ (tp_clients st' = [c] \/ c = CSleep /\ tp_clients st' = [CCheck]).
Proof.
  intros Hc. cbn [pool_step]. destruct t as [i|k|]; [| |done]; cbn [notify_one].
  - destruct (tp_workers st !! i) as [[]|]; try done. intros [= <- <-]. split; [done|by left].
  - rewrite Hc. destruct k as [|k]; [|done]. cbn [lookup list_lookup]. destruct c; try done. intros [= <- <-].
    split; [done|]. right. cbn. by rewrite Hc.
Qed.

Lemma phase_wake call c : phase_ok call c -> phase_ok call (wake_client c).
Proof. destruct call as [[jobs|jobs|]|]; cbn; [by intros ->..| |by intros ->]. intros [->| ->]; by left. Qed.

Lemma accepted_app tr ev : accepted (tr ++ ev) = accepted tr ++ accepted ev.
Proof. apply flat_map_app. Qed.
Lemma ran_app tr ev : ran (tr ++ ev) = ran tr ++ ran ev.
Proof. apply flat_map_app. Qed.

(** A pool step under which the session's place and the accepted jobs change
    as [s'] and [pre'] say. *)
Lemma wave_inv_step waves st st' tr s s' a ev complete pre pre' :
  wave_inv waves st tr s complete pre -> a <> AStop -> pool_step st a = Some (st', ev) ->
  (forall c, live_inv st c -> phase_ok (ss_call s) c -> exists c', tp_clients st' = [c'] /\ phase_ok (ss_call s') c') ->
  pre ++ accepted ev = pre' ->
  ss_answers s' = ss_answers s -> ss_todo s' = ss_todo s ->
  match ss_call s, ss_call s' with
  | Some c, Some c' => pre ++ jobs_left (Some c) = pre' ++ jobs_left (Some c')
  | None, None => accepted ev = []
  | _, _ => False
  end -> wave_inv waves st' (tr ++ ev) s' complete pre'.
Proof.
  intros [Hp (c & Hl & Hph) Hw Hf Hwv Hn Ha Han [l Hr]] Hns Hs Hph' Hpre Han' Htd Hcall.
  destruct (live_step st st' c tr a ev Hp Hl (workers_cons _ Hw) Hns Hs) as [c' Hl'].
  destruct (Hph' c Hl Hph) as (c2 & Hc2 & Hph2). rewrite (li_client _ _ Hl') in Hc2. injection Hc2 as ->.
  split.
  - by eapply pool_step_inv.
  - by exists c2.
  - by rewrite (step_keeps_workers _ _ _ _ Hs).
  - by rewrite (step_keeps_max _ _ _ _ Hs).
  - rewrite Hwv, Htd. destruct (ss_call s), (ss_call s'); try done. by rewrite Hcall.
  - intros He. rewrite He in Hcall. destruct (ss_call s); [done|]. by rewrite <- Hpre, Hcall, (Hn eq_refl).
  - by rewrite accepted_app, Ha, <- Hpre, (assoc_L (++)).
  - by rewrite Han'.
  - exists (l ++ ran ev). by rewrite ran_app, Hr, (assoc (++)).
Qed.

Lemma wave_inv_worker waves st st' tr s i ev complete pre : wave_inv waves st tr s complete pre ->
  pool_step st (AWorker i) = Some (st', ev) -> wave_inv waves st' (tr ++ ev) s complete pre.
Proof.
  intros Hw Hs. destruct (worker_step_shows _ _ _ _ Hs) as [Hev Hcl].
  apply (wave_inv_step waves st st' tr s s (AWorker i) ev complete pre pre Hw); try done.
  - intros c Hl Hph. rewrite (li_client _ _ Hl) in Hcl. destruct Hcl as [->| ->]; [by exists c|].
    exists (wake_client c). split; [done|by apply phase_wake].
  - by rewrite Hev, app_nil_r.
  - by destruct (ss_call s).
Qed.

Lemma wave_inv_spurious waves st st' tr s t ev complete pre : wave_inv waves st tr s complete pre ->
  pool_step st (ASpurious t) = Some (st', ev) -> wave_inv waves st' (tr ++ ev) s complete pre.
Proof.
  intros Hw Hs. destruct (wi_live _ _ _ _ _ _ Hw) as (c0 & Hl0 & _).
  destruct (spurious_step_shows _ _ _ _ _ (li_client _ _ Hl0) Hs) as [-> Hcl].
  apply (wave_inv_step waves st st' tr s s (ASpurious t) [] complete pre pre Hw); try done.
  - intros c Hl Hph. pose proof (li_client _ _ Hl) as Hc. rewrite (li_client _ _ Hl0) in Hc. injection Hc as ->.
    destruct Hcl as [->|[-> ->]]; [by exists c|]. exists CCheck. split; [done|]. by apply (phase_wake _ CSleep).
  - by rewrite app_nil_r.
  - by destruct (ss_call s).
Qed.

(** The bound of the queue is never met by a wave that fits. *)
Lemma room_left waves st tr s j jobs complete pre : wave_inv waves st tr s complete pre ->
  ss_call s = Some (WaveSubmit (j :: jobs)) -> zlen (tp_jobs st) < tp_max_jobs st.
Proof.
  intros Hw Hc. destruct (outstanding_current _ _ _ _ _ _ Hw) as (l & _ & Hp).
  pose proof (wi_waves _ _ _ _ _ _ Hw) as Hwv. rewrite Hc in Hwv. cbn [jobs_left] in Hwv.
  pose proof (wi_fits _ _ _ _ _ _ Hw) as Hf. rewrite Hwv, !Forall_app in Hf. destruct Hf as (_ & Hf & _).
  apply Forall_cons_1 in Hf as [Hf _]. apply Permutation_length in Hp. rewrite !length_app in Hp.
  unfold zlen in *. rewrite length_app in Hf. cbn [length] in Hf. lia.
Qed.

(** A turn of [wait_idle]: the wave's answer is [true], and then all of it has
    run. *)
Lemma wave_inv_wait waves st tr s complete pre t r : wave_inv waves st tr s complete pre -> ss_call s = Some WaveWait ->
  execute_parallel_wave st s t = Some r ->
  exists complete' pre', wave_inv waves r.1.1 (tr ++ r.2) r.1.2 complete' pre'.
Proof.
  intros Hw Hcall. unfold execute_parallel_wave. rewrite Hcall. cbn [try_run_step].
  destruct (wi_live _ _ _ _ _ _ Hw) as (c & Hl & Hph). pose proof (li_client _ _ Hl) as Hc.
  pose proof (pi_stop _ _ (wi_pool _ _ _ _ _ _ Hw)) as Hstop. rewrite (li_live _ _ Hl) in Hstop.
  destruct (pool_step st (ACheck 0)) as [[st1 ev1]|] eqn:Hs; [|done]. cbn [mbind option_bind]. intros [= <-].
  pose proof Hs as Hs'. cbn [pool_step] in Hs'. unfold wait_idle_turn in Hs'. rewrite Hc in Hs'. cbn [lookup list_lookup] in Hs'.
  destruct c; try done. rewrite Hstop in Hs'. destruct (_ && _); injection Hs' as <- <-; cbn [answered wave_answer fst snd].
  - pose proof (pool_step_inv _ _ _ _ _ (wi_pool _ _ _ _ _ _ Hw) Hs) as Hp.
    pose proof (pi_idle _ _ Hp tr 0%nat [] eq_refl) as Hidle.
    destruct (live_step st _ CCheck tr (ACheck 0) _ (wi_pool _ _ _ _ _ _ Hw) Hl (workers_cons _ (wi_workers _ _ _ _ _ _ Hw)) ltac:(done) Hs) as [c' Hl'].
    pose proof (li_client _ _ Hl') as Hc'. cbn in Hc'. rewrite Hc in Hc'. injection Hc' as <-.
    destruct Hw as [_ _ Hw Hf Hwv _ Ha Han _]. rewrite Hcall in Hwv. cbn [jobs_left] in Hwv. rewrite app_nil_r in Hwv.
    exists (complete ++ [pre]), []. split; cbn; try done.
    + by exists CIdle.
    + by rewrite <- (assoc_L (++)).
    + rewrite accepted_app, Ha, concat_app. cbn. by rewrite !app_nil_r.
    + by rewrite length_app, replicate_add, Han.
    + exists []. rewrite ran_app, !app_nil_r, <- Hidle, Ha, concat_app. cbn. by rewrite app_nil_r.
  - exists complete, pre. eapply (wave_inv_step waves st); try done; cbn; rewrite ?Hcall, ?app_nil_r; try done.
    intros ? _ _. exists CSleep. rewrite Hc. split; [done|by right].
Qed.

Lemma wave_inv_caller waves st st' tr s s' t ev complete pre : wave_inv waves st tr s complete pre ->
  execute_parallel_wave st s t = Some (st', s', ev) ->
  exists complete' pre', wave_inv waves st' (tr ++ ev) s' complete' pre'.
Proof.
  intros Hw. unfold execute_parallel_wave. destruct (ss_call s) as [call|] eqn:Hcall.
  2:{ destruct (ss_todo s) as [|w todo] eqn:Htd; [done|]. intros [= <- <- <-]. exists complete, []. rewrite app_nil_r.
    destruct Hw as [Hp (c & Hl & Hph) Hw Hf Hwv Hn Ha Han Hr]. rewrite Hcall, Htd in *. rewrite (Hn eq_refl) in *.
    split; try done. by exists c. }
  assert (call = WaveWait \/ call <> WaveWait) as [->|Hnw] by (destruct call; naive_solver).
  { intros Hs. apply (wave_inv_wait waves st tr s complete pre t (st', s', ev) Hw Hcall). unfold execute_parallel_wave. by rewrite Hcall. }
  destruct (wi_live _ _ _ _ _ _ Hw) as (c & Hl & Hph). rewrite Hcall in Hph.
  pose proof (li_client _ _ Hl) as Hc. pose proof (li_live _ _ Hl) as Hd. pose proof (pi_stop _ _ (wi_pool _ _ _ _ _ _ Hw)) as Hstop.
  rewrite Hd in Hstop. destruct call as [[|j jobs]|jobs|]; cbn [try_run_step]; cbn in Hph.
  - subst c. destruct (pool_step st (AWait 0)) as [[st1 ev1]|] eqn:Hs; [|done]. cbn [mbind option_bind]. intros [= <- <- <-].
    exists complete, pre. pose proof Hs as Hs'. cbn [pool_step] in Hs'. rewrite Hd, Hc in Hs'. injection Hs' as <- <-.
    eapply (wave_inv_step waves st); try done; cbn; rewrite ?Hcall, ?app_nil_r; try done.
    intros ? _ _. exists CCheck. rewrite Hc. split; [done|by left].
  - subst c. destruct (pool_step st (ASubmit 0 j)) as [[st1 ev1]|] eqn:Hs; [|done]. cbn [mbind option_bind].
    pose proof (room_left _ _ _ _ _ _ _ _ Hw Hcall) as Hroom. pose proof Hs as Hs'. cbn [pool_step] in Hs'.
    unfold try_execute in Hs'. rewrite Hd, Hc, Hstop in Hs'. cbn [lookup list_lookup] in Hs'.
    rewrite (proj2 (Z.leb_gt _ _) Hroom) in Hs'. injection Hs' as <- <-. cbn [rejected]. intros [= <- <- <-].
    exists complete, (pre ++ [j]). eapply (wave_inv_step waves st); try done; cbn; rewrite ?Hcall; try done.
    + intros ? _ _. exists CNotify. by rewrite Hc.
    + by rewrite <- (assoc_L (++)).
  - subst c. destruct (pool_step st (ANotify 0 t)) as [[st1 ev1]|] eqn:Hs; [|done]. cbn [mbind option_bind]. intros [= <- <- <-].
    exists complete, pre. pose proof Hs as Hs'. cbn [pool_step] in Hs'. rewrite Hc in Hs'. cbn [lookup list_lookup] in Hs'.
    destruct (notify_one st t) as [st2|] eqn:Hno; [|done]. cbn [mbind option_bind] in Hs'. injection Hs' as <- <-.
    eapply (wave_inv_step waves st); try done; cbn; rewrite ?Hcall, ?app_nil_r; try done.
    intros ? _ _. exists CIdle. split; [|done]. unfold notify_one in Hno. rewrite Hc in Hno.
    destruct t as [i|[|i]|]; cbn [lookup list_lookup] in Hno; repeat case_match; simplify_eq/=; by rewrite ?Hc.
  - done.
Qed.
Lemma wave_step_inv waves st s st' s' tr a ev complete pre : wave_inv waves st tr s complete pre ->
  wave_step (st, s) a = Some (st', s', ev) -> exists complete' pre', wave_inv waves st' (tr ++ ev) s' complete' pre'.
Proof.
  intros Hw. destruct a as [i|t|t]; unfold wave_step; cbn [fst snd].
  - destruct (pool_step st (AWorker i)) as [[st1 ev1]|] eqn:Hs; [|done]. cbn [mbind option_bind]. intros [= <- <- <-].
    exists complete, pre. by eapply wave_inv_worker.
  - intros Hs. by eapply wave_inv_caller.
  - destruct (pool_step st (ASpurious t)) as [[st1 ev1]|] eqn:Hs; [|done]. cbn [mbind option_bind]. intros [= <- <- <-].
    exists complete, pre. by eapply wave_inv_spurious.
Qed.

Lemma wave_run_inv waves acts : forall st s st' s' tr0 tr complete pre, wave_inv waves st tr0 s complete pre ->
  wave_run (st, s) acts = Some (st', s', tr) -> exists complete' pre', wave_inv waves st' (tr0 ++ tr) s' complete' pre'.
Proof.
  induction acts as [|a acts IH]; intros st s st' s' tr0 tr complete pre Hw; cbn [wave_run].
  { intros [= <- <- <-]. exists complete, pre. by rewrite app_nil_r. }
  destruct (wave_step (st, s) a) as [[[st1 s1] ev]|] eqn:Hs; [|done]. cbn [mbind option_bind].
  destruct (wave_run (st1, s1) acts) as [[[st2 s2] tr2]|] eqn:Hr; [|done]. cbn [mbind option_bind]. intros [= <- <- <-].
  destruct (wave_step_inv _ _ _ _ _ _ _ _ _ _ Hw Hs) as (c1 & p1 & Hw1). rewrite (assoc_L (++)). by eapply IH.
Qed.

(** *** Termination *)

(** A job not yet submitted is worth more than the work it brings. *)
Definition wave_cost (workers : Z) (w : list J) : Z := 5 + (3 * workers + 12) * zlen w.

Definition call_cost (workers : Z) call : Z :=
  match call with
  | None | Some WaveWait => 0
  | Some (WaveSubmit jobs) => 3 + (3 * workers + 12) * zlen jobs
  | Some (WaveNotify jobs) => 8 + (3 * workers + 12) * zlen jobs
  end.

Definition session_measure st s : Z :=
  wait_measure st + call_cost (zlen (tp_workers st)) (ss_call s) + total (wave_cost (zlen (tp_workers st))) (ss_todo s).

Definition is_spurious (a : wave_action) : bool := match a with OnSpurious _ => true | _ => false end.

Lemma session_measure_nonneg waves st tr s complete pre : wave_inv waves st tr s complete pre -> 0 <= session_measure st s.
Proof.
  intros Hw. destruct (wi_live _ _ _ _ _ _ Hw) as (c & Hl & _).
  pose proof (wait_measure_nonneg st tr c (wi_pool _ _ _ _ _ _ Hw) Hl). pose proof (wi_workers _ _ _ _ _ _ Hw).
  unfold session_measure. assert (0 <= call_cost (zlen (tp_workers st)) (ss_call s)).
  { destruct (ss_call s) as [[jobs|jobs|]|]; cbn [call_cost]; try lia; pose proof (zlen_nonneg jobs); nia. }
  assert (0 <= total (wave_cost (zlen (tp_workers st))) (ss_todo s)); [|lia].
  induction (ss_todo s) as [|w l IH]; cbn [total foldr]; [done|]. unfold total in IH. unfold wave_cost at 1. pose proof (zlen_nonneg w). nia.
Qed.

Lemma worker_weight_wake (l : list (wphase J)) i : l !! i = Some WSleep ->
  total wphase_weight (<[i := WLock]> l) = total wphase_weight l + 3.
Proof. intros Hi. rewrite (total_insert wphase_weight l i WSleep WLock Hi). cbn. lia. Qed.

Lemma spurious_cost st st' s t ev c : live_inv st c -> pool_step st (ASpurious t) = Some (st', ev) ->
  session_measure st' s <= session_measure st s + 3.
Proof.
  intros Hl Hs. pose proof (step_keeps_workers _ _ _ _ Hs) as Hk. unfold session_measure, wait_measure. rewrite Hk.
  cbn [pool_step] in Hs. destruct t as [i|k|]; [| |done]; cbn [notify_one] in Hs.
  - destruct (tp_workers st !! i) as [[]|] eqn:Hi; try done. injection Hs as <- <-. cbn [set_worker tp_pending tp_workers tp_clients].
    rewrite (worker_weight_wake _ _ Hi). lia.
  - rewrite (li_client _ _ Hl) in Hs. destruct k as [|k]; [|done]. cbn [lookup list_lookup] in Hs. destruct c; try done.
    injection Hs as <- <-. cbn -[total Z.mul wave_cost]. rewrite (li_client _ _ Hl). cbn -[total Z.mul wave_cost]. unfold total. cbn. lia.
Qed.

(** What the caller's steps into the pool cost. *)
Lemma submit_cost st st' tr j ev : pool_inv st tr -> live_inv st CIdle -> zlen (tp_jobs st) < tp_max_jobs st ->
  pool_step st (ASubmit 0 j) = Some (st', ev) -> ev = [EvAccepted j] /\ wait_measure st' = wait_measure st + (3 * zlen (tp_workers st) + 5).
Proof.
  intros Hp Hl Hroom. pose proof (li_client _ _ Hl) as Hc. pose proof (li_live _ _ Hl) as Hd. pose proof (pi_stop _ _ Hp) as Hstop.
  pose proof (pi_pending _ _ Hp) as Hpend. pose proof (pi_bound _ _ Hp). pose proof (busy_bounds (tp_workers st)).
  pose proof (zlen_nonneg (tp_jobs st)). rewrite Hd in Hstop. cbn [pool_step]. unfold try_execute. rewrite Hd, Hc, Hstop.
  cbn [lookup list_lookup]. rewrite (proj2 (Z.leb_gt _ _) Hroom). intros [= <- <-]. split; [done|]. unfold wait_measure.
  cbn [set_client set_queue tp_pending tp_workers tp_clients]. rewrite Hc.
  unfold wrapping_add. rewrite wrap_small by (unfold is_u; lia). cbn -[Z.mul total]. unfold total. cbn. lia.
Qed.

Lemma notify_cost st st' t ev : live_inv st CNotify -> pool_step st (ANotify 0 t) = Some (st', ev) ->
  wait_measure st' <= wait_measure st + 3.
Proof.
  intros Hl Hs. pose proof (step_keeps_workers _ _ _ _ Hs) as Hk. pose proof (li_client _ _ Hl) as Hc.
  unfold wait_measure. rewrite Hk. cbn [pool_step] in Hs. rewrite Hc in Hs. cbn [lookup list_lookup] in Hs.
  destruct t as [i|[|k]|]; cbn [notify_one] in Hs.
  - destruct (tp_workers st !! i) as [[]|] eqn:Hi; try done. injection Hs as <- <-.
    cbn [set_worker set_client tp_pending tp_workers tp_clients]. rewrite (worker_weight_wake _ _ Hi), Hc. unfold total. cbn. lia.
  - by rewrite Hc in Hs.
  - by rewrite Hc in Hs.
  - destruct (_ || _); [done|]. injection Hs as <- <-. cbn [set_client tp_pending tp_workers tp_clients]. rewrite Hc. unfold total. cbn. lia.
Qed.

Lemma begin_wait_cost st st' ev : live_inv st CIdle -> pool_step st (AWait 0) = Some (st', ev) ->
  wait_measure st' = wait_measure st + 1.
Proof.
  intros Hl. pose proof (li_client _ _ Hl) as Hc. cbn [pool_step]. rewrite (li_live _ _ Hl), Hc. cbn [lookup list_lookup].
  intros [= <- <-]. unfold wait_measure. cbn [set_client tp_pending tp_workers tp_clients]. rewrite Hc. unfold total. cbn. lia.
Qed.

Lemma caller_decreases waves st st' tr s s' t ev complete pre : wave_inv waves st tr s complete pre ->
  execute_parallel_wave st s t = Some (st', s', ev) -> session_measure st' s' + 1 <= session_measure st s.
Proof.
  intros Hw. destruct (wi_live _ _ _ _ _ _ Hw) as (c & Hl & Hph). unfold execute_parallel_wave.
  destruct (ss_call s) as [call|] eqn:Hcall.
  2:{ destruct (ss_todo s) as [|w todo] eqn:Htd; [done|]. intros [= <- <- <-]. unfold session_measure.
    rewrite Hcall, Htd. cbn [ss_call ss_todo call_cost total foldr]. unfold wave_cost at 2. unfold total. lia. }
  pose proof (li_client _ _ Hl) as Hc. pose proof (li_live _ _ Hl) as Hd. pose proof (pi_stop _ _ (wi_pool _ _ _ _ _ _ Hw)) as Hstop.
  rewrite Hd in Hstop. unfold session_measure.
  destruct call as [[|j jobs]|jobs|]; cbn [try_run_step]; cbn [phase_ok] in Hph.
  - subst c. destruct (pool_step st (AWait 0)) as [[st1 ev1]|] eqn:Hs; [|done]. cbn [mbind option_bind]. intros [= <- <- <-].
    rewrite (begin_wait_cost _ _ _ Hl Hs), (step_keeps_workers _ _ _ _ Hs), Hcall. cbn [ss_call ss_todo call_cost]. zlen_nil_simp. lia.
  - subst c. destruct (pool_step st (ASubmit 0 j)) as [[st1 ev1]|] eqn:Hs; [|done]. cbn [mbind option_bind].
    destruct (submit_cost st st1 tr j ev1 (wi_pool _ _ _ _ _ _ Hw) Hl (room_left _ _ _ _ _ _ _ _ Hw Hcall) Hs) as [-> Hm].
    intros [= <- <- <-]. rewrite Hm, (step_keeps_workers _ _ _ _ Hs), Hcall. cbn [ss_call ss_todo call_cost]. zsimp. lia.
  - subst c. destruct (pool_step st (ANotify 0 t)) as [[st1 ev1]|] eqn:Hs; [|done]. cbn [mbind option_bind]. intros [= <- <- <-].
    pose proof (notify_cost _ _ _ _ Hl Hs). rewrite (step_keeps_workers _ _ _ _ Hs), Hcall. cbn [ss_call ss_todo call_cost]. lia.
  - destruct (pool_step st (ACheck 0)) as [[st1 ev1]|] eqn:Hs; [|done]. cbn [mbind option_bind]. intros [= <- <- <-].
    destruct (wait_step_decreases st st1 c tr (ACheck 0) ev1 (wi_pool _ _ _ _ _ _ Hw) Hl I Hs) as [Hm ->].
    rewrite Hcall. destruct (answered ev1); cbn [ss_call ss_todo call_cost]; lia.
Qed.
Lemma wave_step_cost waves st st' tr s s' a ev complete pre : wave_inv waves st tr s complete pre ->
  wave_step (st, s) a = Some (st', s', ev) ->
  session_measure st' s' + 1 <= session_measure st s + (if is_spurious a then 4 else 0).
Proof.
  intros Hw. destruct (wi_live _ _ _ _ _ _ Hw) as (c & Hl & _). destruct a as [i|t|t]; unfold wave_step; cbn [fst snd is_spurious].
  - destruct (pool_step st (AWorker i)) as [[st1 ev1]|] eqn:Hs; [|done]. cbn [mbind option_bind]. intros [= <- <- <-].
    destruct (wait_step_decreases st st1 c tr (AWorker i) ev1 (wi_pool _ _ _ _ _ _ Hw) Hl I Hs) as [Hm Hk].
    unfold session_measure. rewrite Hk. lia.
  - intros Hs. pose proof (caller_decreases _ _ _ _ _ _ _ _ _ _ Hw Hs). lia.
  - destruct (pool_step st (ASpurious t)) as [[st1 ev1]|] eqn:Hs; [|done]. cbn [mbind option_bind]. intros [= <- <- <-].
    pose proof (spurious_cost _ _ s _ _ _ Hl Hs). lia.
Qed.

Lemma wave_run_bound waves acts : forall st s st' s' tr0 tr complete pre, wave_inv waves st tr0 s complete pre ->
  wave_run (st, s) acts = Some (st', s', tr) ->
  zlen acts + session_measure st' s' <= session_measure st s + 4 * zlen (List.filter is_spurious acts).
Proof.
  induction acts as [|a acts IH]; intros st s st' s' tr0 tr complete pre Hw; cbn [wave_run].
  { intros [= <- <- <-]. cbn [List.filter]. zlen_nil_simp. lia. }
  destruct (wave_step (st, s) a) as [[[st1 s1] ev]|] eqn:Hs; [|done]. cbn [mbind option_bind].
  destruct (wave_run (st1, s1) acts) as [[[st2 s2] tr2]|] eqn:Hr; [|done]. cbn [mbind option_bind]. intros [= <- <- <-].
  destruct (wave_step_inv _ _ _ _ _ _ _ _ _ _ Hw Hs) as (c1 & p1 & Hw1). pose proof (IH _ _ _ _ _ _ _ _ Hw1 Hr).
  pose proof (wave_step_cost _ _ _ _ _ _ _ _ _ _ Hw Hs). cbn [List.filter]. destruct (is_spurious a); zsimp; lia.
Qed.

(** Some wake-up is always possible for a [notify_one]. *)
Lemma notify_possible st : tp_clients st = [CNotify] -> exists t st', notify_one st t = Some st'.
Proof.
  intros Hc. destruct (existsb worker_asleep (tp_workers st)) eqn:He.
  - apply existsb_exists in He as (p & Hp & Ha). destruct p; try done. apply list_elem_of_In, list_elem_of_lookup in Hp as [i Hi].
    exists (ToWorker i). cbn. rewrite Hi. by eexists.
  - exists ToNobody, st. cbn. by rewrite He, Hc.
Qed.

(** A session that is not over can go on. *)
Lemma session_progress waves st tr s complete pre : wave_inv waves st tr s complete pre ->
  (forall a, is_spurious a = false -> wave_step (st, s) a = None) -> ss_call s = None /\ ss_todo s = [].
Proof.
  intros Hw Hstuck. destruct (wi_live _ _ _ _ _ _ Hw) as (c & Hl & Hph).
  pose proof (li_client _ _ Hl) as Hc. pose proof (li_live _ _ Hl) as Hd. pose proof (pi_stop _ _ (wi_pool _ _ _ _ _ _ Hw)) as Hstop.
  rewrite Hd in Hstop. pose proof (fun t => Hstuck (OnCaller t) eq_refl) as Hcaller. unfold wave_step, execute_parallel_wave in Hcaller.
  cbn [fst snd] in Hcaller. destruct (ss_call s) as [call|] eqn:Hcall.
  2:{ split; [done|]. by destruct (ss_todo s); [|specialize (Hcaller ToNobody)]. }
  exfalso. destruct call as [[|j jobs]|jobs|]; cbn [phase_ok] in Hph; cbn [try_run_step pool_step] in Hcaller.
  - subst c. specialize (Hcaller ToNobody). by rewrite Hd, Hc in Hcaller.
  - subst c. specialize (Hcaller ToNobody). unfold try_execute in Hcaller. rewrite Hd, Hc, Hstop in Hcaller.
    cbn [lookup list_lookup] in Hcaller. by destruct (_ <=? _).
  - subst c. destruct (notify_possible st Hc) as (t & st' & Ht). specialize (Hcaller t). by rewrite Hc, Ht in Hcaller.
  - destruct (wait_progress st tr c (wi_pool _ _ _ _ _ _ Hw) Hl Hph) as (a & [st' ev] & Ha & Hs).
    destruct a as [i|k j|k t|k|[|k]| | |t]; try done.
    + specialize (Hstuck (OnWorker i) eq_refl). unfold wave_step in Hstuck. cbn [fst] in Hstuck. by rewrite Hs in Hstuck.
    + specialize (Hcaller ToNobody). cbn [pool_step] in Hs. by rewrite Hs in Hcaller.
Qed.

Lemma session_new_inv A spawn workers st waves :
  pool_try_new A spawn workers 1 = Ok st -> workers < 2 ^ 53 -> Forall (fun w => zlen w <= Z.max workers 1 * 1024) waves ->
  wave_inv waves st [] (session_new waves) [] [] /\
  session_measure st (session_new waves) = 4 * Z.max workers 1 + total (wave_cost (Z.max workers 1)) waves.
Proof.
  intros Hn Hw Hf. destruct (pool_new_inv A spawn workers 1 st Hn Hw) as (Hp & Hlw & Hc & Hd & Hm).
  assert (tp_jobs st = [] /\ tp_pending st = 0 /\ tp_workers st = replicate (Z.to_nat (Z.max workers 1)) WTop) as (Hj & Hpend & Hws).
  { unfold pool_try_new in Hn. destruct (A 0%nat), (A 1%nat), (forallb _ _); try done. by injection Hn as <-. }
  split.
  - split; try done; [|lia|by rewrite Hm|by exists []]. exists CIdle. split; [|done]. by split; rewrite ?Hj.
  - unfold session_measure, wait_measure. rewrite Hlw, Hpend, Hc. cbn [session_new ss_call ss_todo call_cost].
    assert (total wphase_weight (tp_workers st) = 4 * Z.max workers 1) as ->; [|unfold total; cbn; lia].
    rewrite <- Hlw. rewrite Hws. clear. induction (Z.to_nat (Z.max workers 1)) as [|n IH]; [done|].
    cbn [replicate total foldr]. unfold total in IH. rewrite IH. cbn. zsimp. lia.
Qed.

(** Any waves that fit the queue. *)
Lemma session_runs A spawn workers st0 waves acts st s tr :
  pool_try_new A spawn workers 1 = Ok st0 -> workers < 2 ^ 53 -> Forall (fun w => zlen w <= Z.max workers 1 * 1024) waves ->
  wave_run (st0, session_new waves) acts = Some (st, s, tr) ->
  (exists complete pre, wave_inv waves st tr s complete pre) /\
  zlen acts <= 4 * Z.max workers 1 + total (wave_cost (Z.max workers 1)) waves + 4 * zlen (List.filter is_spurious acts) /\
  ((forall a, is_spurious a = false -> wave_step (st, s) a = None) ->
    ss_answers s = replicate (length waves) true /\ ran tr ≡ₚ concat waves).
Proof.
  intros Hn Hw Hf Hr. destruct (session_new_inv A spawn workers st0 waves Hn Hw Hf) as [Hi Hm].
  destruct (wave_run_inv waves acts _ _ _ _ _ _ _ _ Hi Hr) as (complete & pre & Hi'). cbn [app] in Hi'.
  split; [by exists complete, pre|]. split.
  - pose proof (wave_run_bound waves acts _ _ _ _ _ _ _ _ Hi Hr). pose proof (session_measure_nonneg _ _ _ _ _ _ Hi'). lia.
  - intros Hstuck. destruct (session_progress _ _ _ _ _ _ Hi' Hstuck) as [Hc Ht].
    pose proof (wi_waves _ _ _ _ _ _ Hi') as Hwv. rewrite Hc, Ht, !app_nil_r in Hwv. subst complete.
    split; [by apply (wi_answers _ _ _ _ _ _ Hi')|]. destruct (outstanding_current _ _ _ _ _ _ Hi') as (l & Hl & Hp).
    rewrite (wi_none _ _ _ _ _ _ Hi' Hc) in Hp. apply Permutation_nil, app_eq_nil in Hp as [_ Hp]. apply app_eq_nil in Hp as [_ ->].
    by rewrite Hl, app_nil_r.
Qed.
End Session.

(** ** The waves of a plan *)
Lemma access_conflicts_spec a b : access_conflicts a b = true <->
  sa_exclusive a = true \/ sa_exclusive b = true \/
  exists key, key ∈ sa_writes a /\ (key ∈ sa_reads b \/ key ∈ sa_writes b) \/ key ∈ sa_writes b /\ key ∈ sa_reads a.
Proof.
  unfold access_conflicts. destruct (sa_exclusive a); [naive_solver|]. destruct (sa_exclusive b); [naive_solver|]. cbn [orb].
  rewrite orb_true_iff, !existsb_exists. unfold contains. setoid_rewrite orb_true_iff. setoid_rewrite bool_decide_eq_true.
  setoid_rewrite <- list_elem_of_In. naive_solver.
Qed.

Lemma access_conflicts_sym a b : access_conflicts a b = access_conflicts b a.
Proof. apply eq_true_iff_eq. rewrite !access_conflicts_spec. naive_solver. Qed.

Lemma NoDup_disjoint_concat {A} (ls : list (list A)) :
  (forall k l, ls !! k = Some l -> NoDup l) ->
  (forall j k u w x, ls !! j = Some u -> ls !! k = Some w -> x ∈ u -> x ∈ w -> j = k) -> NoDup (concat ls).
Proof.
  induction ls as [|l ls IH]; intros Hn Hd; cbn [concat]; [constructor|]. apply list.NoDup_app. split_and!.
  - by apply (Hn 0%nat).
  - intros x Hx Hc. apply list_elem_of_In, in_concat in Hc as (w & Hw & Hxw).
    apply list_elem_of_In, list_elem_of_lookup in Hw as [k Hk]. apply list_elem_of_In in Hxw.
    by specialize (Hd 0%nat (S k) l w x eq_refl Hk Hx Hxw).
  - apply IH; [intros k; apply (Hn (S k))|]. intros j k u w x Hj Hk Hu Hw. by specialize (Hd (S j) (S k) u w x Hj Hk Hu Hw) as [= ->].
Qed.

Section Plan.
Context (deps : list (list Z)) (accesses : list SystemAccess) (order : list Z) (waves : list (list Z)).
Context (Hfirst : deps_first deps order) (Horder : NoDup order) (Hok : waves_ok deps accesses order waves).

Lemma waves_nodup : NoDup (concat waves).
Proof.
  apply NoDup_disjoint_concat.
  - intros k w Hk. rewrite <- zget_nat in Hk. eapply sublist_NoDup; [done|by eapply wo_sublist].
  - intros j k u w x Hj Hk Hu Hw. rewrite <- zget_nat in Hj, Hk. pose proof (wo_once _ _ _ _ Hok _ _ _ _ _ Hj Hk Hu Hw). lia.
Qed.

Lemma waves_order : concat waves ≡ₚ order.
Proof.
  apply NoDup_Permutation; [apply waves_nodup|done|]. intros x. rewrite list_elem_of_In, in_concat. split.
  - intros (w & Hw & Hx). apply list_elem_of_In, list_elem_of_lookup in Hw as [k Hk]. rewrite <- zget_nat in Hk.
    apply list_elem_of_In in Hx. eapply elem_of_sublist; [done|by eapply wo_sublist].
  - intros Hx. destruct (wo_all _ _ _ _ Hok x Hx) as (k & w & Hk & Hw). exists w.
    pose proof (zget_Some _ _ _ Hk). rewrite zget_lookup in Hk by lia.
    split; apply list_elem_of_In; [by eapply list_elem_of_lookup_2|done].
Qed.

(** No two members of a wave wait for one another. *)
Lemma wave_independent k w x y : waves !z k = Some w -> x ∈ w -> y ∈ w -> x <> y -> ~ waits_for deps accesses y x.
Proof.
  intros Hk Hx Hy Hne Hwt. pose proof (elem_of_sublist _ _ _ Hx (wo_sublist _ _ _ _ Hok _ _ Hk)) as Hxo.
  pose proof (elem_of_sublist _ _ _ Hy (wo_sublist _ _ _ _ Hok _ _ Hk)) as Hyo.
  apply list_elem_of_split in Hyo as (l & r & He).
  assert (forall l r y x, order = l ++ y :: r -> x ∈ l -> waits_for deps accesses y x -> x ∈ w -> y ∈ w -> False) as Hlater.
  { intros l' r' y' x' He' Hx' Hw' ? ?. pose proof (wo_later _ _ _ _ Hok _ _ _ _ _ _ _ _ He' Hx' Hw' Hk Hk ltac:(done) ltac:(done)). lia. }
  rewrite He in Hxo. apply elem_of_app in Hxo as [Hl|[->|Hr]%elem_of_cons]; [by eapply Hlater|done|].
  destruct Hwt as [He'|(a & b & Ha & Hb & Hc)]; [by eapply Hlater; [done|by eapply Hfirst|by left|..]|].
  apply list_elem_of_split in Hr as (l2 & r2 & ->). eapply (Hlater (l ++ y :: l2) r2 x y); try done.
  - by rewrite <- (assoc_L (++)).
  - set_solver.
  - right. exists b, a. by rewrite access_conflicts_sym.
Qed.
End Plan.

Lemma running_lookup {J} (l : list (wphase J)) i x : l !! i = Some (WRun x) -> x ∈ flat_map running l.
Proof. intros Hi. apply list_elem_of_In, in_flat_map. exists (WRun x). split; [|by left]. apply list_elem_of_In. by eapply list_elem_of_lookup_2. Qed.

(** Two workers run two jobs. *)
Lemma running_distinct {J} (l : list (wphase J)) : NoDup (flat_map running l) -> forall i j x y,
  i <> j -> l !! i = Some (WRun x) -> l !! j = Some (WRun y) -> x <> y.
Proof.
  induction l as [|p l IH]; intros Hn i j x y Hij Hi Hj; [done|]. cbn [flat_map] in Hn. apply list.NoDup_app in Hn as (_ & Hd & Hn).
  destruct i as [|i], j as [|j]; simplify_eq/=.
  - intros ->. apply (Hd y); [by left|]. by eapply running_lookup.
  - intros ->. apply (Hd y); [by left|]. by eapply running_lookup.
  - eapply (IH Hn i j); congruence.
Qed.

Lemma total_wave_cost {J} W (ls : list (list J)) : total (wave_cost W) ls = 5 * zlen ls + (3 * W + 12) * zlen (concat ls).
Proof.
  induction ls as [|l ls IH]; cbn [total foldr concat]; [zlen_nil_simp; lia|]. unfold total in IH. rewrite IH. unfold wave_cost. zsimp. lia.
Qed.

(** What runs at a reachable state of a session over a plan's waves. *)
Lemma plan_isolated deps accesses order waves st tr s complete pre i x :
  deps_first deps order -> NoDup order -> waves_ok deps accesses order waves -> wave_inv waves st tr s complete pre ->
  tp_workers st !! i = Some (WRun x) ->
  (forall j y, i <> j -> tp_workers st !! j = Some (WRun y) -> x <> y /\ ~ waits_for deps accesses y x) /\
  (forall l r y, order = l ++ x :: r -> y ∈ l -> waits_for deps accesses x y -> y ∈ ran tr).
Proof.
  intros Hfirst Hnd Hok Hw Hi. destruct (outstanding_current _ _ _ _ _ _ Hw) as (l0 & Hran & Hpre).
  pose proof (wi_waves _ _ _ _ _ _ Hw) as Hwv.
  assert (forall j y, tp_workers st !! j = Some (WRun y) -> y ∈ pre) as Hin.
  { intros j y Hj. rewrite Hpre. apply running_lookup in Hj. set_solver. }
  destruct (ss_call s) as [call|] eqn:Hcall; [|rewrite (wi_none _ _ _ _ _ _ Hw Hcall) in Hin; by apply Hin, not_elem_of_nil in Hi].
  set (w := pre ++ jobs_left (Some call)) in *.
  assert (waves !z (Z.of_nat (length complete)) = Some w) as Hk by (rewrite zget_nat, Hwv; by apply list_lookup_middle).
  assert (forall y, y ∈ pre -> y ∈ w) as Hpw by (intros y Hy; apply elem_of_app; by left).
  split.
  - intros j y Hij Hj. assert (x <> y) as Hne.
    { eapply (running_distinct (tp_workers st)); [|exact Hij|done|done].
      pose proof (sublist_NoDup _ _ Hnd (wo_sublist _ _ _ _ Hok _ _ Hk)) as Hndw. apply list.NoDup_app in Hndw as (Hndp & _).
      rewrite Hpre in Hndp. apply list.NoDup_app in Hndp as (_ & _ & Hndp). by apply list.NoDup_app in Hndp as (? & _). }
    split; [done|]. eapply wave_independent; [done|done|done|by eauto..|done].
  - intros l r y He Hy Hwt. assert (y ∈ order) as Hyo by (rewrite He; set_solver).
    destruct (wo_all _ _ _ _ Hok y Hyo) as (k & u & Hu & Hyu).
    pose proof (wo_later _ _ _ _ Hok _ _ _ _ _ _ _ _ He Hy Hwt Hu Hk Hyu (Hpw _ (Hin _ _ Hi))) as Hlt.
    rewrite Hran. apply elem_of_app. left. apply list_elem_of_In, in_concat. exists u. split; [|by apply list_elem_of_In].
    pose proof (zget_Some _ _ _ Hu). rewrite zget_lookup, Hwv, lookup_app_l in Hu by lia.
    apply list_elem_of_In. by eapply list_elem_of_lookup_2.
Qed.

(** C11: running a plan in parallel.  A thread hands the waves of a plan to the
    executor one after the other.  Under every schedule, choice of wake-ups
    and spurious wake-ups: systems that run at the same time are distinct and
    neither conflict nor depend on one another; a system runs only when every
    earlier one it depends on or conflicts with has run; the steps are
    bounded, and when nobody can move every call has answered [true] and every
    system has run exactly once. *)
Theorem plan_waves_isolated deps names accesses plan A spawn workers st0 acts st s tr :
  deps_valid deps -> zlen names = zlen deps -> zlen accesses = zlen deps ->
  zlen deps <= Z.max workers 1 * 1024 -> workers < 2 ^ 53 ->
  schedule_plan_build deps names accesses = Some (Ok plan) ->
  pool_try_new A spawn workers 1 = Ok st0 ->
  wave_run (st0, session_new (plan_waves plan)) acts = Some (st, s, tr) ->
  (forall i x, tp_workers st !! i = Some (WRun x) ->
    (forall j y, i <> j -> tp_workers st !! j = Some (WRun y) -> x <> y /\ ~ waits_for deps accesses y x) /\
    (forall l r y, plan_order plan = l ++ x :: r -> y ∈ l -> waits_for deps accesses x y -> y ∈ ran tr)) /\
  zlen acts <= 4 * Z.max workers 1 + 5 * zlen (plan_waves plan) + (3 * Z.max workers 1 + 12) * zlen deps +
    4 * zlen (List.filter is_spurious acts) /\
  ((forall a, is_spurious a = false -> wave_step (st, s) a = None) ->
    ss_answers s = replicate (length (plan_waves plan)) true /\ ran tr ≡ₚ seqZ 0 (zlen deps)).
Proof.
  intros Hv Hnames Hacc Hlen Hw Hb Hn Hr.
  destruct (schedule_plan_order deps names accesses Hv Hnames Hacc) as (r & Hr' & Hplan); [unfold umax; lia|].
  rewrite Hb in Hr'. injection Hr' as <-. destruct Hplan as (Hperm & Hfirst & Hok).
  assert (NoDup (plan_order plan)) as Hnd by (rewrite Hperm; apply NoDup_seqZ).
  pose proof (waves_order _ _ _ _ Hnd Hok) as Hall.
  assert (Forall (fun w => zlen w <= Z.max workers 1 * 1024) (plan_waves plan)) as Hfit.
  { apply Forall_lookup. intros k w Hk. rewrite <- zget_nat in Hk. apply (wo_sublist _ _ _ _ Hok), sublist_length in Hk.
    apply Permutation_length in Hperm. rewrite length_seqZ in Hperm. unfold zlen in *. lia. }
  destruct (session_runs A spawn workers st0 (plan_waves plan) acts st s tr Hn Hw Hfit Hr) as ((complete & pre & Hi) & Hbound & Hend).
  split; [|split].
  - intros i x Hx. by eapply plan_isolated.
  - rewrite total_wave_cost in Hbound. apply Permutation_length in Hall, Hperm. rewrite length_seqZ in Hperm.
    assert (zlen (concat (plan_waves plan)) = zlen deps) as Hc by (unfold zlen in *; lia). lia.
  - intros Hstuck. destruct (Hend Hstuck) as [Ha Hran]. split; [done|]. by rewrite Hran, Hall, Hperm.
Qed.

(** Two writers of one component, one of them also a dependency, and a third
    system, on two workers: the first and the third run together. *)
Definition demo_deps : list (list Z) := [[]; [0]; []].
Definition demo_names : list string := ["move"; "collide"; "mix"]%string.
Definition demo_accesses : list SystemAccess :=
  [access_read_write [] ["position"]; access_read_write ["position"] []; access_read_write [] ["sound"]]%string.
Definition both_running : list wave_action :=
  replicate 6 (OnCaller ToNobody) ++ [OnWorker 0; OnWorker 0; OnWorker 1; OnWorker 1].
Definition to_the_end : list wave_action :=
  both_running ++ [OnWorker 0; OnWorker 0; OnWorker 1; OnWorker 1] ++ replicate 5 (OnCaller ToNobody) ++ replicate 4 (OnWorker 1) ++
  [OnCaller ToNobody; OnWorker 0; OnWorker 0; OnWorker 1; OnWorker 1].

Lemma demo_deps_valid : deps_valid demo_deps.
Proof.
  intros a b (ds & Hds & Hb). pose proof (zget_Some _ _ _ Hds) as Ha. unfold demo_deps, zlen in *. cbn in Ha |- *.
  assert (a = 0 \/ a = 1 \/ a = 2) as [-> |[-> | ->]] by lia; injection Hds as <-;
    try (by apply not_elem_of_nil in Hb); apply list_elem_of_singleton in Hb; lia.
Qed.

Definition demo_plan : SchedulePlan := mkSchedulePlan [0; 1; 2] [[0; 2]; [1]].
Definition demo_pool (jobs : list Z) (pending : Z) (workers : list (wphase Z)) (client : cphase) : PoolState Z :=
  mkPoolState jobs 2048 false pending workers [client] DLive.

Lemma plan_waves_isolated_witness :
  exists st s tr st' s' tr', schedule_plan_build demo_deps demo_names demo_accesses = Some (Ok demo_plan) /\
  wave_run (demo_pool [] 0 [WTop; WTop] CIdle, session_new (plan_waves demo_plan)) both_running = Some (st, s, tr) /\
  tp_workers st = [WRun 2; WRun 0] /\ ~ waits_for demo_deps demo_accesses 0 2 /\
  wave_run (demo_pool [] 0 [WTop; WTop] CIdle, session_new (plan_waves demo_plan)) to_the_end = Some (st', s', tr') /\
  ss_answers s' = [true; true] /\ ran tr' ≡ₚ [0; 1; 2].
Proof.
  assert (schedule_plan_build demo_deps demo_names demo_accesses = Some (Ok demo_plan)) as Hb by (vm_compute; reflexivity).
  assert (pool_try_new alloc_all (fun _ => true) 2 1 = Ok (demo_pool [] 0 [WTop; WTop] CIdle)) as Hn by (vm_compute; reflexivity).
  set (st := demo_pool [] 2 [WRun 2; WRun 0] CCheck). set (s := mkSession [] (Some WaveWait) [[1]]).
  set (tr := [EvAccepted 0; EvAccepted 2]).
  set (st' := demo_pool [] 0 [WSleep; WSleep] CIdle). set (s' := mkSession (J := Z) [true; true] None []).
  set (tr' := [EvAccepted 0; EvAccepted 2; EvRan 2; EvRan 0; EvIdle 0 true; EvAccepted 1; EvRan 1; EvIdle 0 true]).
  assert (wave_run (demo_pool [] 0 [WTop; WTop] CIdle, session_new (plan_waves demo_plan)) both_running = Some (st, s, tr)) as Hr
    by (vm_compute; reflexivity).
  assert (wave_run (demo_pool [] 0 [WTop; WTop] CIdle, session_new (plan_waves demo_plan)) to_the_end = Some (st', s', tr')) as Hr'
    by (vm_compute; reflexivity).
  destruct (plan_waves_isolated demo_deps demo_names demo_accesses demo_plan alloc_all (fun _ => true) 2 _ both_running st s tr
    demo_deps_valid eq_refl eq_refl ltac:(discriminate) eq_refl Hb Hn Hr) as (Hrun & _ & _).
  destruct (plan_waves_isolated demo_deps demo_names demo_accesses demo_plan alloc_all (fun _ => true) 2 _ to_the_end st' s' tr'
    demo_deps_valid eq_refl eq_refl ltac:(discriminate) eq_refl Hb Hn Hr') as (_ & _ & Hend).
  exists st, s, tr, st', s', tr'. split; [exact Hb|]. split; [exact Hr|]. split; [reflexivity|].
  split; [exact (proj2 (proj1 (Hrun 0%nat 2 eq_refl) 1%nat 0 ltac:(discriminate) eq_refl))|]. split; [exact Hr'|].
  apply Hend. intros [[|[|i]]|t|t] Ha; [reflexivity..|discriminate Ha].
Defined.

(** ** A wave the queue has no room for

    [run] gives up at the first rejected job and answers [false] at once; the
    jobs already accepted are still queued and run later, in the middle of
    whatever the caller does next. *)
Definition big_wave : list Z := seqZ 0 1025.

Example rejected_wave_left_running :
  match pool_try_new alloc_all (fun _ => true) 1 1 with
  | Ok st0 =>
      match wave_run (st0, session_new [big_wave]) (replicate 2050 (OnCaller ToNobody)) with
      | Some (st, s, tr) => ss_answers s = [false] /\ ss_call s = None /\ zlen (tp_jobs st) = 1024 /\ ran tr = []
      | None => False
      end
  | Err _ => False
  end.
Proof. vm_compute. done. Qed.

(** ** The frame limiter

    Times are nanoseconds.  [advance k] is how far the monotonic clock moves
    around its [k]-th use: by [Instant::now] it is never negative, a
    [thread::sleep] lasts at least as long as asked. *)
Record FrameLimiter := mkLimiter { fl_period : Z; fl_last : Z }.
Record Clock := mkClock { ck_now : Z; ck_uses : nat }.

Section Limiter.
Context (advance : nat -> Z).

Definition instant_now (c : Clock) : Z * Clock :=
  let t := ck_now c + advance (ck_uses c) in (t, mkClock t (S (ck_uses c))).
Definition thread_sleep (d : Z) (c : Clock) : Clock := mkClock (ck_now c + d + advance (ck_uses c)) (S (ck_uses c)).

(** [while Instant::now() < deadline] *)
Fixpoint spin_until (fuel : nat) (deadline : Z) (c : Clock) : option Clock :=
  match fuel with
  | O => None
  | S fuel => let '(t, c) := instant_now c in if t <? deadline then spin_until fuel deadline c else Some c
  end.

Definition SPIN_TAIL : Z := 2000000.

Definition limiter_wait (fuel : nat) (l : FrameLimiter) (c : Clock) : option (FrameLimiter * Clock) :=
  let deadline := fl_last l + fl_period l in
  let '(now, c) := instant_now c in
  c ← (if now <? deadline then
         let lead := deadline - now in
         let c := if SPIN_TAIL <? lead then thread_sleep (lead - SPIN_TAIL) c else c in
         spin_until fuel deadline c
       else Some c);
  let '(last, c) := instant_now c in Some (mkLimiter (fl_period l) last, c).

Fixpoint limiter_frames (n : nat) (fuel : nat) (l : FrameLimiter) (c : Clock) : option (FrameLimiter * Clock) :=
  match n with
  | O => Some (l, c)
  | S n => '(l, c) ← limiter_wait fuel l c; limiter_frames n fuel l c
  end.

(** The clock does not go back, and moves at least once in any [stall] uses. *)
Context (stall : nat) (Hmono : forall k, 0 <= advance k)
  (Hmoves : forall k, exists m, (k <= m < k + stall)%nat /\ 0 < advance m).

Lemma spin_reaches n : forall deadline c, deadline - ck_now c <= Z.of_nat n -> forall wait,
  (exists m, (ck_uses c <= m < ck_uses c + wait)%nat /\ 0 < advance m) ->
  exists c', spin_until (n * stall + wait) deadline c = Some c' /\ deadline <= ck_now c' /\ ck_now c <= ck_now c'.
Proof.
  induction n as [|n IHn]; intros deadline c Hd wait Hw.
  - destruct wait as [|wait]; [destruct Hw as (m & Hm & _); lia|]. cbn [Nat.mul Nat.add spin_until instant_now].
    pose proof (Hmono (ck_uses c)). destruct (Z.ltb_spec (ck_now c + advance (ck_uses c)) deadline); [lia|].
    eexists. split; [done|]. cbn. lia.
  - revert c Hd Hw. induction wait as [|wait IHw]; intros c Hd (m & Hm & Hpos); [lia|].
    rewrite Nat.add_succ_r. cbn [spin_until instant_now]. pose proof (Hmono (ck_uses c)) as H0.
    destruct (Z.ltb_spec (ck_now c + advance (ck_uses c)) deadline) as [Hlt|]; [|eexists; split; [done|cbn; lia]].
    set (c1 := mkClock (ck_now c + advance (ck_uses c)) (S (ck_uses c))).
    destruct (decide (m = ck_uses c)) as [->|Hne].
    + destruct (IHn deadline c1) with (wait := (stall + wait)%nat) as (c' & Hs & Hge & Hle); [cbn; lia| |].
      { destruct (Hmoves (S (ck_uses c))) as (m & Hm' & Hp). exists m. split; [cbn; lia|done]. }
      exists c'. split; [|split; [done|cbn in Hle; lia]]. rewrite <- Hs. f_equal. lia.
    + destruct (IHw c1) as (c' & Hs & Hge & Hle); [cbn; lia|exists m; cbn; split; [lia|done]|].
      exists c'. split; [done|]. split; [done|cbn in Hle; lia].
Qed.

Lemma spin_more fuel fuel' deadline c c' : spin_until fuel deadline c = Some c' -> (fuel <= fuel')%nat ->
  spin_until fuel' deadline c = Some c'.
Proof.
  revert fuel' c. induction fuel as [|fuel IH]; intros [|fuel'] c; cbn [spin_until]; try done; [lia|].
  destruct (instant_now c) as [t c1]. destruct (t <? deadline); [|done]. intros Hs Hle. apply IH; [done|lia].
Qed.

(** A wait returns at or after the boundary and restarts the period there. *)
Lemma limiter_wait_spec fuel l c : 0 <= fl_period l -> fl_last l <= ck_now c ->
  (Z.to_nat (fl_period l) * stall + stall <= fuel)%nat ->
  exists l' c', limiter_wait fuel l c = Some (l', c') /\ fl_period l' = fl_period l /\
  fl_last l + fl_period l <= fl_last l' /\ fl_last l' <= ck_now c'.
Proof.
  intros Hp Hl Hf. unfold limiter_wait. cbn [instant_now]. pose proof (Hmono (ck_uses c)) as H0.
  set (now := ck_now c + advance (ck_uses c)). set (c1 := mkClock now (S (ck_uses c))).
  assert (forall c2, fl_last l + fl_period l <= ck_now c2 -> exists l' c',
    (let '(last, c) := instant_now c2 in Some (mkLimiter (fl_period l) last, c)) = Some (l', c') /\ fl_period l' = fl_period l /\
    fl_last l + fl_period l <= fl_last l' /\ fl_last l' <= ck_now c') as Hlast.
  { intros c2 Hc2. cbn [instant_now]. pose proof (Hmono (ck_uses c2)). do 2 eexists. split; [done|]. cbn. lia. }
  destruct (Z.ltb_spec now (fl_last l + fl_period l)) as [Hlt|Hge]; [|by apply Hlast].
  set (c2 := if _ <? _ then _ else _).
  assert (now <= ck_now c2) as Hc2.
  { subst c2. destruct (Z.ltb_spec SPIN_TAIL (fl_last l + fl_period l - now)); cbn; [|lia]. pose proof (Hmono (S (ck_uses c))). lia. }
  destruct (spin_reaches (Z.to_nat (fl_period l)) (fl_last l + fl_period l) c2) with (wait := stall) as (c3 & Hs & Hge & _);
    [lia|apply Hmoves|].
  rewrite (spin_more _ _ _ _ _ Hs Hf). by apply Hlast.
Qed.

(** The limiter paces: on a clock that moves, any number of waits returns, and
    [n] of them take at least [n] periods. *)
Theorem frame_limiter_paces n fuel l c : 0 <= fl_period l -> fl_last l <= ck_now c ->
  (Z.to_nat (fl_period l) * stall + stall <= fuel)%nat ->
  exists l' c', limiter_frames n fuel l c = Some (l', c') /\ fl_last l + Z.of_nat n * fl_period l <= fl_last l' <= ck_now c'.
Proof.
  revert l c. induction n as [|n IH]; intros l c Hp Hl Hf; cbn [limiter_frames]; [exists l, c; split; [done|lia]|].
  destruct (limiter_wait_spec fuel l c Hp Hl Hf) as (l1 & c1 & -> & Hp1 & Hge & Hle). cbn [mbind option_bind].
  rewrite <- Hp1 in Hp, Hf. destruct (IH l1 c1 Hp Hle Hf) as (l' & c' & -> & Hr). exists l', c'. split; [done|]. rewrite Hp1 in Hr. lia.
Qed.
End Limiter.
