(* ===== verification/QueuePolicy.v ===== *)
(** Queue family selection of [platform/vulkan_policy.rs] and the device
    choice built on it in [subsystems/renderer.rs]. *)

From stdpp Require Import sets.
From S2P Require Import Prelude.

Definition QUEUE_GRAPHICS : Z := 1.
Definition QUEUE_COMPUTE : Z := 2.
Definition QUEUE_TRANSFER : Z := 4.

Record QueueFamilyInfo := mkQueueFamilyInfo { qf_index : Z; qf_flags : Z; qf_queue_count : Z }.

Definition supports (f : QueueFamilyInfo) (required : Z) : bool :=
  (0 <? qf_queue_count f) && (Z.land (qf_flags f) required =? required).

Record QueueSelection := mkQueueSelection { qs_graphics : Z; qs_compute : Z; qs_transfer : Z }.
Record QueueCreateRequest := mkQueueCreateRequest { qr_family_index : Z; qr_queue_count : Z }.

Inductive QueueSelectionError := NoQueueFamilies.

(** The body of the loop of [build_queue_create_requests]. *)
Definition merge_request (requests : list QueueCreateRequest) (index : Z) : option (list QueueCreateRequest) :=
  this ← requests !z index;
  match vec_position (fun r => qr_family_index r =? qr_family_index this) (take (Z.to_nat index) requests) with
  | Some previous =>
      p ← requests !z previous;
      let requests := zset requests previous (mkQueueCreateRequest (qr_family_index p) (saturating_add 32 (qr_queue_count p) 1)) in
      this ← requests !z index;
      Some (zset requests index (mkQueueCreateRequest (qr_family_index this) 0))
  | None => Some requests
  end.

Definition build_queue_create_requests (selection : QueueSelection) : option (list QueueCreateRequest) :=
  let requests :=
    [mkQueueCreateRequest (qs_graphics selection) 1; mkQueueCreateRequest (qs_compute selection) 1;
     mkQueueCreateRequest (qs_transfer selection) 1] in
  foldl (fun r index => r ← r; merge_request r index) (Some requests) [1; 2].

(** [iter().find(..)]. *)
Definition first_preferred (families : list QueueFamilyInfo) (required avoid : Z) : option QueueFamilyInfo :=
  match find (fun f => supports f required && (Z.land (qf_flags f) avoid =? 0)) families with
  | Some f => Some f
  | None => find (fun f => supports f required) families
  end.

Definition select_queue_families (families : list QueueFamilyInfo) : result QueueSelectionError QueueSelection :=
  let graphics := find (fun f => supports f QUEUE_GRAPHICS) families in
  let compute := first_preferred families QUEUE_COMPUTE QUEUE_GRAPHICS in
  let transfer := first_preferred families QUEUE_TRANSFER (Z.lor QUEUE_GRAPHICS QUEUE_COMPUTE) in
  match graphics, compute, transfer with
  | Some graphics, Some compute, Some transfer =>
      Ok (mkQueueSelection (qf_index graphics) (qf_index compute) (qf_index transfer))
  | _, _, _ => Err NoQueueFamilies
  end.

Record GpuCandidate := mkGpuCandidate { device_score : Z; queue_families : list QueueFamilyInfo }.
Record RenderDevicePlan := mkRenderDevicePlan { candidate_index : Z; queues : QueueSelection }.
Inductive RenderDevicePlanError := NoSuitableDevice.

(** [filter_map] over the enumerated candidates. *)
Fixpoint suitable (index : Z) (candidates : list GpuCandidate) : list (Z * Z * QueueSelection) :=
  match candidates with
  | [] => []
  | c :: candidates =>
      match select_queue_families (queue_families c) with
      | Ok queues => [(index, device_score c, queues)]
      | Err _ => []
      end ++ suitable (index + 1) candidates
  end.

(** [(score, Reverse(index))], compared. *)
Definition device_key_lt (a b : Z * Z * QueueSelection) : bool :=
  (a.1.2 <? b.1.2) || ((a.1.2 =? b.1.2) && (b.1.1 <? a.1.1)).

(** [max_by_key]: the last of the greatest. *)
Definition max_by_key {T} (key_lt : T -> T -> bool) (l : list T) : option T :=
  match l with [] => None | x :: l => Some (foldl (fun best y => if key_lt y best then best else y) x l) end.

Definition choose_render_device (candidates : list GpuCandidate) : result RenderDevicePlanError RenderDevicePlan :=
  match max_by_key device_key_lt (suitable 0 candidates) with
  | Some (candidate_index, _, queues) => Ok (mkRenderDevicePlan candidate_index queues)
  | None => Err NoSuitableDevice
  end.

(** ** Selection *)

(** [f] is the first family good for [required], before all others one that
    is good for nothing in [avoid]. *)
Definition preferred families required avoid f : Prop :=
  exists before after, families = before ++ f :: after /\ supports f required = true /\
  ((Z.land (qf_flags f) avoid = 0 /\
    Forall (fun g => supports g required = true -> Z.land (qf_flags g) avoid <> 0) before) \/
   (Forall (fun g => supports g required = true -> Z.land (qf_flags g) avoid <> 0) families /\
    Forall (fun g => supports g required = false) before)).

Lemma find_first {T} (p : T -> bool) l x :
  find p l = Some x -> exists before after, l = before ++ x :: after /\ p x = true /\ Forall (fun y => p y = false) before.
Proof.
  induction l as [|y l IH]; simpl; [done|]. destruct (p y) eqn:Hp.
  - intros [= <-]. by exists [], l.
  - intros Hf. destruct (IH Hf) as (b & a & -> & Hx & Hb). exists (y :: b), a. split; [done|]. split; [done|]. by constructor.
Qed.

Lemma find_none {T} (p : T -> bool) l : find p l = None <-> Forall (fun y => p y = false) l.
Proof.
  induction l as [|y l IH]; simpl; [done|]. destruct (p y) eqn:Hp; rewrite list.Forall_cons.
  - split; [done|]. intros [? _]. congruence.
  - naive_solver.
Qed.

Lemma supported_not_avoided f required avoid :
  supports f required && (Z.land (qf_flags f) avoid =? 0) = false <-> (supports f required = true -> Z.land (qf_flags f) avoid <> 0).
Proof. destruct (supports f required); simpl; [rewrite Z.eqb_neq|]; naive_solver. Qed.

Lemma first_preferred_Some families required avoid f :
  first_preferred families required avoid = Some f -> preferred families required avoid f.
Proof.
  unfold first_preferred. destruct (find (fun f => _ && _) families) as [g|] eqn:Hg.
  - intros [= <-]. apply find_first in Hg as (b & a & -> & Hs & Hb).
    apply andb_true_iff in Hs as [Hs Ha%Z.eqb_eq]. exists b, a. split; [done|]. split; [done|]. left. split; [done|].
    eapply Forall_impl; [|exact Hb]. intros x. apply supported_not_avoided.
  - intros Hf. apply find_none in Hg. apply find_first in Hf as (b & a & -> & Hs & Hb). exists b, a. split; [done|]. split; [done|].
    right. split; [|done]. eapply Forall_impl; [|exact Hg]. intros x. apply supported_not_avoided.
Qed.

Lemma first_preferred_None families required avoid :
  first_preferred families required avoid = None <-> Forall (fun f => supports f required = false) families.
Proof.
  unfold first_preferred. destruct (find (fun f => _ && _) families) as [g|] eqn:Hg; [|apply find_none].
  split; [done|]. intros Hf. apply find_first in Hg as (b & a & -> & Hs & _). rewrite list.Forall_app, list.Forall_cons in Hf.
  destruct Hf as (_ & Hf & _). by rewrite Hf in Hs.
Qed.

(** What a selection promises. *)
Definition selection_ok families sel : Prop :=
  exists g c t, qs_graphics sel = qf_index g /\ qs_compute sel = qf_index c /\ qs_transfer sel = qf_index t /\
  (exists before after, families = before ++ g :: after /\ supports g QUEUE_GRAPHICS = true /\
     Forall (fun f => supports f QUEUE_GRAPHICS = false) before) /\
  preferred families QUEUE_COMPUTE QUEUE_GRAPHICS c /\
  preferred families QUEUE_TRANSFER (Z.lor QUEUE_GRAPHICS QUEUE_COMPUTE) t.

Definition lacks families : Prop :=
  exists required, required ∈ [QUEUE_GRAPHICS; QUEUE_COMPUTE; QUEUE_TRANSFER] /\ Forall (fun f => supports f required = false) families.

Lemma select_queue_families_spec families :
  match select_queue_families families with Ok sel => selection_ok families sel | Err _ => lacks families end.
Proof.
  unfold select_queue_families.
  destruct (find _ families) as [g|] eqn:Hg; [|exists QUEUE_GRAPHICS; split; [by left|by apply find_none]].
  destruct (first_preferred families QUEUE_COMPUTE _) as [c|] eqn:Hc.
  2: { exists QUEUE_COMPUTE. split; [by right; left|by apply first_preferred_None in Hc]. }
  destruct (first_preferred families QUEUE_TRANSFER _) as [t|] eqn:Ht.
  2: { exists QUEUE_TRANSFER. split; [by right; right; left|by apply first_preferred_None in Ht]. }
  exists g, c, t. do 3 (split; [done|]). split; [exact (find_first _ _ _ Hg)|]. split; by apply first_preferred_Some.
Qed.

Lemma suitable_spec candidates : forall index i score sel, (i, score, sel) ∈ suitable index candidates <->
  exists k c, i = index + Z.of_nat k /\ candidates !! k = Some c /\ score = device_score c /\ select_queue_families (queue_families c) = Ok sel.
Proof.
  induction candidates as [|c l IH]; intros index i score sel; cbn [suitable].
  { rewrite elem_of_nil. split; [done|]. by intros (k & c & _ & ? & _). }
  rewrite elem_of_app, IH. split.
  - intros [H|(k & d & -> & ?)]; [|exists (S k), d; split; [lia|done]].
    destruct (select_queue_families (queue_families c)) eqn:Hs; [|by apply not_elem_of_nil in H]. apply list_elem_of_singleton in H as [= -> -> ->].
    exists 0%nat, c. split; [lia|done].
  - intros ([|k] & d & -> & Hd & -> & Hs); simpl in Hd.
    + injection Hd as ->. left. rewrite Hs. replace (index + Z.of_nat 0) with index by lia. by apply list_elem_of_singleton.
    + right. exists k, d. split; [lia|done].
Qed.

(** [max_by_key] for a total preorder. *)
Lemma foldl_max {T} (key_lt : T -> T -> bool) l : forall x best,
  (forall a b c, key_lt a b = false -> key_lt b c = false -> key_lt a c = false) -> (forall a, key_lt a a = false) ->
  (forall a b, key_lt a b = true -> key_lt b a = false) ->
  foldl (fun best y => if key_lt y best then best else y) x l = best ->
  best ∈ x :: l /\ forall y, y ∈ x :: l -> key_lt best y = false.
Proof.
  induction l as [|z l IH]; intros x best Ht Hr Ha; simpl.
  - intros ->. split; [by left|]. intros y Hy. apply list_elem_of_singleton in Hy as ->. apply Hr.
  - intros Hb. apply IH in Hb as [Hin Hmax]; [|done..]. destruct (key_lt z x) eqn:Hzx.
    + split; [set_unfold; naive_solver|]. intros y. rewrite !elem_of_cons. intros [->|[->|Hy]].
      * apply Hmax. by left.
      * apply (Ht _ x); [apply Hmax; by left|by apply Ha].
      * apply Hmax. by right.
    + split; [by right|]. intros y. rewrite !elem_of_cons. intros [->|[->|Hy]].
      * apply (Ht _ z); [apply Hmax; by left|done].
      * apply Hmax. by left.
      * apply Hmax. by right.
Qed.

(** ** The device *)

(** the device plan.  A device is chosen exactly when some candidate has
    families for all three roles; it is the first of those with the highest
    score, and its plan names the first graphics family and, for compute and
    transfer, the first family dedicated to the role or, without one, the
    first that supports it. *)
Theorem render_device_best candidates :
  match choose_render_device candidates with
  | Ok plan =>
      exists k c, candidate_index plan = Z.of_nat k /\ candidates !! k = Some c /\ selection_ok (queue_families c) (queues plan) /\
      forall j d, candidates !! j = Some d -> ~ lacks (queue_families d) ->
        device_score d <= device_score c /\ ((j < k)%nat -> device_score d < device_score c)
  | Err _ => forall c, c ∈ candidates -> lacks (queue_families c)
  end.
Proof.
  unfold choose_render_device. destruct (max_by_key _ _) as [[[i score] sel]|] eqn:Hm.
  - unfold max_by_key in Hm. destruct (suitable 0 candidates) as [|x l] eqn:Hl; [done|]. injection Hm as Hm.
    apply foldl_max in Hm as [Hin Hmax].
    + rewrite <- Hl in Hin, Hmax. apply suitable_spec in Hin as (k & c & -> & Hc & -> & Hs).
      exists k, c. simpl. split; [lia|]. split; [done|].
      split; [by pose proof (select_queue_families_spec (queue_families c)) as H; rewrite Hs in H|].
      intros j d Hd Hnl. pose proof (select_queue_families_spec (queue_families d)) as H.
      destruct (select_queue_families (queue_families d)) as [sel'|] eqn:Hs'; [|done].
      assert ((Z.of_nat j, device_score d, sel') ∈ suitable 0 candidates) as Hj by (apply suitable_spec; by exists j, d).
      specialize (Hmax _ Hj). unfold device_key_lt in Hmax. simpl in Hmax. zbool. lia.
    + intros [[i1 s1] ?] [[i2 s2] ?] [[i3 s3] ?]. unfold device_key_lt. simpl. lia.
    + intros [[i1 s1] ?]. unfold device_key_lt. simpl. lia.
    + intros [[i1 s1] ?] [[i2 s2] ?]. unfold device_key_lt. simpl. lia.
  - unfold max_by_key in Hm. destruct (suitable 0 candidates) as [|x l] eqn:Hl; [|done]. intros c Hc.
    apply list_elem_of_lookup in Hc as [k Hk]. pose proof (select_queue_families_spec (queue_families c)) as H.
    destruct (select_queue_families (queue_families c)) as [sel|] eqn:Hs; [|done].
    assert ((Z.of_nat k, device_score c, sel) ∈ suitable 0 candidates) as Hj by (apply suitable_spec; by exists k, c).
    rewrite Hl in Hj. by apply not_elem_of_nil in Hj.
Qed.

Lemma position_cons {T} (f : T -> bool) x l :
  vec_position f (x :: l) = if f x then Some 0 else option_map (Z.add 1) (vec_position f l).
Proof.
  unfold vec_position. cbn [list_find]. destruct (f x).
  - by rewrite decide_True by done.
  - rewrite decide_False by (by intros []).  destruct (list_find f l) as [[i y]|]; simpl; [f_equal; lia|done].
Qed.

Lemma merge_second a b c : merge_request [a; b; c] 1 = Some
  (if qr_family_index a =? qr_family_index b then
     [mkQueueCreateRequest (qr_family_index a) (saturating_add 32 (qr_queue_count a) 1); mkQueueCreateRequest (qr_family_index b) 0; c]
   else [a; b; c]).
Proof.
  unfold merge_request. change ([a; b; c] !z 1) with (Some b). cbn [mbind option_bind].
  change (take (Z.to_nat 1) [a; b; c]) with [a]. rewrite position_cons. by destruct (_ =? _).
Qed.

Lemma merge_third a b c : merge_request [a; b; c] 2 = Some
  (if qr_family_index a =? qr_family_index c then
     [mkQueueCreateRequest (qr_family_index a) (saturating_add 32 (qr_queue_count a) 1); b; mkQueueCreateRequest (qr_family_index c) 0]
   else if qr_family_index b =? qr_family_index c then
     [a; mkQueueCreateRequest (qr_family_index b) (saturating_add 32 (qr_queue_count b) 1); mkQueueCreateRequest (qr_family_index c) 0]
   else [a; b; c]).
Proof.
  unfold merge_request. change ([a; b; c] !z 2) with (Some c). cbn [mbind option_bind].
  change (take (Z.to_nat 2) [a; b; c]) with [a; b]. rewrite !position_cons.
  destruct (qr_family_index a =? _); [done|]. by destruct (_ =? _).
Qed.

(** Queues requested of a family. *)
Definition requested (family : Z) (requests : list QueueCreateRequest) : Z :=
  foldr (fun r n => (if qr_family_index r =? family then qr_queue_count r else 0) + n) 0 requests.

Definition roles (family : Z) (sel : QueueSelection) : Z :=
  (if qs_graphics sel =? family then 1 else 0) + (if qs_compute sel =? family then 1 else 0) +
  (if qs_transfer sel =? family then 1 else 0).

(** the create requests.  Building them never goes out of range; of
    every family they ask for one queue per role the selection gives it, and
    the requests that remain after those of no queues are dropped name
    pairwise different families, as device creation requires. *)
Theorem queue_requests_per_family sel :
  exists requests, build_queue_create_requests sel = Some requests /\
  (forall family, requested family requests = roles family sel) /\
  NoDup (map qr_family_index (List.filter (fun r => negb (qr_queue_count r =? 0)) requests)).
Proof.
  destruct sel as [g c t]. unfold build_queue_create_requests, roles. cbn [qs_graphics qs_compute qs_transfer foldl mbind option_bind].
  rewrite merge_second. cbn [qr_family_index mbind option_bind].
  destruct (Z.eqb_spec g c) as [->|H1]; rewrite merge_third; cbn [qr_family_index qr_queue_count];
    [destruct (Z.eqb_spec c t) as [->|H2]|destruct (Z.eqb_spec g t) as [->|H2]; [|destruct (Z.eqb_spec c t) as [->|H3]]];
  change (saturating_add 32 1 1) with 2; try change (saturating_add 32 2 1) with 3;
  (eexists; split; [reflexivity|]); (split; [intros family; cbn [requested foldr qr_family_index qr_queue_count]; repeat case_match; zbool; try lia|]);
  cbn; repeat constructor; rewrite ?elem_of_cons, ?elem_of_nil; lia.
Qed.
