(* ===== verification/GpuFrame.v ===== *)
(** The headless GPU object lifecycles of [subsystems/renderer.rs]: surface,
    swapchain, semaphore, fence, frame slot, command buffer, command pool, and
    the frame built of them. *)

From stdpp Require Import sets.
From S2P Require Import Prelude.

Inductive CommandState := CsInitial | CsRecording | CsExecutable | CsSubmitted.
Inductive CommandError := InvalidTransition | AllocationFailed.
Inductive FrameState := FsAvailable | FsAcquired | FsSubmitted.
Inductive FenceState := FeUnsignaled | FeSubmitted | FeSignaled.
Inductive SemaphoreState := SeUnsignaled | SeSignaled.
Inductive SurfaceState := SuUncreated | SuReady | SuDestroyed.
Inductive SwapchainState := ScUncreated | ScReady | ScOutOfDate | ScDestroyed.

#[global] Instance CommandState_eq_dec : EqDecision CommandState. Proof. solve_decision. Defined.
#[global] Instance FrameState_eq_dec : EqDecision FrameState. Proof. solve_decision. Defined.
#[global] Instance FenceState_eq_dec : EqDecision FenceState. Proof. solve_decision. Defined.
#[global] Instance SemaphoreState_eq_dec : EqDecision SemaphoreState. Proof. solve_decision. Defined.
#[global] Instance SurfaceState_eq_dec : EqDecision SurfaceState. Proof. solve_decision. Defined.
#[global] Instance SwapchainState_eq_dec : EqDecision SwapchainState. Proof. solve_decision. Defined.

(** ** Methods on [&mut self] that return [Result<(), CommandError>] *)
Definition method (S : Type) : Type := S -> S * result CommandError unit.

(** [a?; b]: an error returns at once, with the effects so far. *)
Definition and_then {S} (a b : method S) : method S := fun s =>
  let '(s, r) := a s in match r with Ok _ => b s | Err e => (s, Err e) end.
Notation "a ;? b" := (and_then a b) (at level 95, right associativity) : kit_scope.

(** A method of a field. *)
Definition on {S F} (get : S -> F) (set : S -> F -> S) (m : method F) : method S := fun s =>
  let '(f, r) := m (get s) in (set s f, r).

(** The single-field objects go from one state to another, or refuse. *)
Definition transition {S} `{EqDecision S} (from to : S) : method S := fun s =>
  if decide (s = from) then (to, Ok tt) else (s, Err InvalidTransition).

(** [SurfaceLifecycle] *)
Definition surface_new := SuUncreated.
Definition surface_create : method SurfaceState := transition SuUncreated SuReady.
Definition surface_destroy : method SurfaceState := transition SuReady SuDestroyed.

Record SwapchainConfig := mkSwapchainConfig { sc_width : Z; sc_height : Z; sc_image_count : Z; sc_format : Z; sc_present_mode : Z }.

Definition swapchain_config_validate (c : SwapchainConfig) : result CommandError SwapchainConfig :=
  if (sc_width c =? 0) || (sc_height c =? 0) || (sc_image_count c <? 2) || (sc_format c =? 0) then Err InvalidTransition else Ok c.

(** [SwapchainLifecycle] *)
Definition swapchain_new := ScUncreated.
Definition swapchain_create (surface : SurfaceState) : method SwapchainState := fun s =>
  if bool_decide (s <> ScUncreated) || bool_decide (surface <> SuReady) then (s, Err InvalidTransition) else (ScReady, Ok tt).
Definition swapchain_mark_out_of_date : method SwapchainState := transition ScReady ScOutOfDate.
Definition swapchain_destroy : method SwapchainState := fun s =>
  match s with ScReady | ScOutOfDate => (ScDestroyed, Ok tt) | _ => (s, Err InvalidTransition) end.

(** [BinarySemaphore] *)
Definition semaphore_new := SeUnsignaled.
Definition semaphore_signal : method SemaphoreState := transition SeUnsignaled SeSignaled.
Definition semaphore_consume : method SemaphoreState := transition SeSignaled SeUnsignaled.

(** [Fence] *)
Definition fence_new := FeUnsignaled.
Definition fence_submit : method FenceState := transition FeUnsignaled FeSubmitted.
Definition fence_signal : method FenceState := transition FeSubmitted FeSignaled.
Definition fence_reset : method FenceState := transition FeSignaled FeUnsignaled.

(** [FrameSlot] *)
Definition slot_new := FsAvailable.
Definition slot_acquire : method FrameState := transition FsAvailable FsAcquired.
Definition slot_submit : method FrameState := transition FsAcquired FsSubmitted.
Definition slot_signal : method FrameState := transition FsSubmitted FsAvailable.

(** [CommandBufferState] *)
Definition command_new := CsInitial.
Definition command_begin : method CommandState := transition CsInitial CsRecording.
Definition command_end : method CommandState := transition CsRecording CsExecutable.
Definition command_submit : method CommandState := transition CsExecutable CsSubmitted.
Definition command_reset : method CommandState := transition CsSubmitted CsInitial.

(** ** The frame *)
Record RenderFrame := mkRenderFrame {
  rf_command : CommandState;
  rf_slot : FrameState;
  rf_wait : SemaphoreState;
  rf_signal : SemaphoreState;
  rf_fence : FenceState
}.

Definition render_frame_new := mkRenderFrame command_new slot_new semaphore_new semaphore_new fence_new.

Definition on_command : method CommandState -> method RenderFrame :=
  on rf_command (fun f c => mkRenderFrame c (rf_slot f) (rf_wait f) (rf_signal f) (rf_fence f)).
Definition on_slot : method FrameState -> method RenderFrame :=
  on rf_slot (fun f s => mkRenderFrame (rf_command f) s (rf_wait f) (rf_signal f) (rf_fence f)).
Definition on_wait : method SemaphoreState -> method RenderFrame :=
  on rf_wait (fun f w => mkRenderFrame (rf_command f) (rf_slot f) w (rf_signal f) (rf_fence f)).
Definition on_signal : method SemaphoreState -> method RenderFrame :=
  on rf_signal (fun f s => mkRenderFrame (rf_command f) (rf_slot f) (rf_wait f) s (rf_fence f)).
Definition on_fence : method FenceState -> method RenderFrame :=
  on rf_fence (fun f s => mkRenderFrame (rf_command f) (rf_slot f) (rf_wait f) (rf_signal f) s).

(** [submit_frame] on the parts of a frame. *)
Definition submit_frame : method RenderFrame := fun f =>
  if bool_decide (rf_command f <> CsExecutable) || bool_decide (rf_wait f <> SeSignaled) ||
     bool_decide (rf_signal f <> SeUnsignaled) || bool_decide (rf_fence f <> FeUnsignaled)
  then (f, Err InvalidTransition)
  else (on_command command_submit ;? on_wait semaphore_consume ;? on_signal semaphore_signal ;? on_fence fence_submit) f.

Definition frame_begin : method RenderFrame := on_slot slot_acquire ;? on_command command_begin.
Definition frame_submit : method RenderFrame := on_command command_end ;? submit_frame ;? on_slot slot_submit.
Definition frame_complete : method RenderFrame :=
  on_signal semaphore_consume ;? on_fence fence_signal ;? on_fence fence_reset ;? on_slot slot_signal ;? on_command command_reset.

(** ** The command pool *)
Record CommandPool := mkCommandPool { cp_buffers : list CommandState; cp_capacity : Z }.

Definition command_pool_try_with_capacity (A : alloc) (capacity : Z) : result CommandError CommandPool :=
  if A 0%nat then Ok (mkCommandPool [] capacity) else Err AllocationFailed.

Definition command_pool_allocate (p : CommandPool) : CommandPool * option Z :=
  if zlen (cp_buffers p) =? cp_capacity p then (p, None)
  else (mkCommandPool (cp_buffers p ++ [command_new]) (cp_capacity p), Some (zlen (cp_buffers p ++ [command_new]) - 1)).

Definition command_pool_buffer (p : CommandPool) (index : Z) : option CommandState := cp_buffers p !z index.

(** A method through [buffer_mut]; [None] where there is no such buffer. *)
Definition command_pool_buffer_mut (m : method CommandState) (p : CommandPool) (index : Z) : CommandPool * option (result CommandError unit) :=
  match cp_buffers p !z index with
  | Some b => let '(b, r) := m b in (mkCommandPool (zset (cp_buffers p) index b) (cp_capacity p), Some r)
  | None => (p, None)
  end.

Definition command_pool_reset : method CommandPool := fun p =>
  if existsb (fun b => bool_decide (b = CsSubmitted)) (cp_buffers p) then (p, Err InvalidTransition)
  else (mkCommandPool (map (fun _ => command_new) (cp_buffers p)) (cp_capacity p), Ok tt).

(** ** What a frame promises

    Four phases and whether the image to wait for is available. *)
Inductive phase := Idle | Recording | InFlight | Wedged.

Inductive call := CallAcquired | CallBegin | CallSubmit | CallComplete.

Definition frame_call (c : call) : method RenderFrame :=
  match c with
  | CallAcquired => on_wait semaphore_signal
  | CallBegin => frame_begin
  | CallSubmit => frame_submit
  | CallComplete => frame_complete
  end.

Definition spec_call (c : call) : method (phase * bool) := fun '(p, image) =>
  match c, p, image with
  | CallAcquired, _, false => ((p, true), Ok tt)
  | CallBegin, Idle, _ => ((Recording, image), Ok tt)
  | CallSubmit, Recording, true => ((InFlight, false), Ok tt)
  | CallSubmit, Recording, false => ((Wedged, false), Err InvalidTransition)
  | CallComplete, InFlight, _ => ((Idle, image), Ok tt)
  | _, _, _ => ((p, image), Err InvalidTransition)
  end.

Fixpoint calls {S} (step : call -> method S) (s : S) (cs : list call) : S * list (result CommandError unit) :=
  match cs with
  | [] => (s, [])
  | c :: cs => let '(s, r) := step c s in let '(s, rs) := calls step s cs in (s, r :: rs)
  end.

(** The frame that stands for a phase. *)
Definition concrete (s : phase * bool) : RenderFrame :=
  let wait := if s.2 then SeSignaled else SeUnsignaled in
  match s.1 with
  | Idle => mkRenderFrame CsInitial FsAvailable wait SeUnsignaled FeUnsignaled
  | Recording => mkRenderFrame CsRecording FsAcquired wait SeUnsignaled FeUnsignaled
  | InFlight => mkRenderFrame CsSubmitted FsSubmitted wait SeSignaled FeSubmitted
  | Wedged => mkRenderFrame CsExecutable FsAcquired wait SeUnsignaled FeUnsignaled
  end.

Lemma frame_call_spec c s : frame_call c (concrete s) = let '(s', r) := spec_call c s in (concrete s', r).
Proof. by destruct s as [[] []], c. Qed.

(** the frame lifecycle.  Whatever a caller does with a frame and
    whenever images become available, the five objects of the frame move
    together: the results are those of the phase automaton and the state is
    always one of its phases, so no call is ever refused half way, but for a
    submission without an image, which leaves the frame wedged. *)
Theorem frame_refines_phases cs :
  calls frame_call render_frame_new cs =
    (concrete (calls spec_call (Idle, false) cs).1, (calls spec_call (Idle, false) cs).2).
Proof.
  change render_frame_new with (concrete (Idle, false)). generalize (Idle, false). induction cs as [|c cs IH]; intros s; [done|].
  cbn [calls]. rewrite frame_call_spec. destruct (spec_call c s) as [s' r]. rewrite IH.
  by destruct (calls spec_call s' cs).
Qed.

(** One frame, twice around. *)
Example frame_cycle :
  (calls frame_call render_frame_new
     [CallBegin; CallAcquired; CallSubmit; CallBegin; CallComplete; CallBegin; CallComplete]).2 =
  [Ok tt; Ok tt; Ok tt; Err InvalidTransition; Ok tt; Ok tt; Err InvalidTransition].
Proof. reflexivity. Qed.

(** A submission before its image: the frame refuses everything for good. *)
Theorem early_submit_wedges cs :
  Forall (fun r => r = Err InvalidTransition)
    (calls frame_call (frame_submit (frame_begin render_frame_new).1).1 (List.filter (fun c => match c with CallAcquired => false | _ => true end) cs)).2.
Proof.
  change ((frame_submit (frame_begin render_frame_new).1).1) with (concrete (Wedged, false)).
  induction cs as [|c cs IH]; cbn [List.filter]; [constructor|]. destruct c; [exact IH|..]; cbn [calls]; rewrite frame_call_spec; cbn [spec_call];
    destruct (calls frame_call (concrete (Wedged, false)) _); by constructor.
Qed.

(** ** What the pool and the lifecycles promise *)
Definition pool_ok (p : CommandPool) : Prop := zlen (cp_buffers p) <= cp_capacity p.

(** Allocation hands out the next index while there is room; a reset with a
    buffer in flight changes nothing. *)
Theorem command_pool_spec p : pool_ok p ->
  match command_pool_allocate p with
  | (p', Some i) => pool_ok p' /\ i = zlen (cp_buffers p) /\ command_pool_buffer p' i = Some CsInitial /\
      forall j, j < i -> command_pool_buffer p' j = command_pool_buffer p j
  | (p', None) => p' = p /\ zlen (cp_buffers p) = cp_capacity p
  end /\
  match command_pool_reset p with
  | (p', Ok _) => zlen (cp_buffers p') = zlen (cp_buffers p) /\ CsSubmitted ∉ cp_buffers p /\
      forall i b, command_pool_buffer p' i = Some b -> b = CsInitial
  | (p', Err _) => p' = p /\ CsSubmitted ∈ cp_buffers p
  end.
Proof.
  unfold pool_ok. intros Hok. split.
  - unfold command_pool_allocate. destruct (Z.eqb_spec (zlen (cp_buffers p)) (cp_capacity p)); [done|]. cbn [cp_buffers cp_capacity].
    unfold command_pool_buffer; cbn [cp_buffers]. zsimp. split; [lia|]. split; [lia|]. split.
    + replace (zlen (cp_buffers p) + (0 + 1) - 1) with (zlen (cp_buffers p)) by lia. apply zget_snoc.
    + intros j Hj. apply zget_app_l. lia.
  - unfold command_pool_reset. destruct (existsb _ _) eqn:He.
    + split; [done|]. apply existsb_exists in He as (b & Hb & Hs). apply bool_decide_eq_true in Hs as ->. by apply list_elem_of_In.
    + cbn [cp_buffers]. split; [unfold zlen; by rewrite length_map|]. split.
      * intros Hin. apply list_elem_of_In in Hin. assert (existsb (fun b => bool_decide (b = CsSubmitted)) (cp_buffers p) = true) as Ht
          by (apply existsb_exists; by exists CsSubmitted). congruence.
      * unfold command_pool_buffer; cbn [cp_buffers]. intros i b Hb. pose proof (zget_Some _ _ _ Hb). rewrite zget_lookup in Hb by lia.
        apply list_lookup_fmap_Some in Hb as (? & -> & _). done.
Qed.
