(* ===== verification/RenderScene.v ===== *)
(** The CPU side of the renderer in [subsystems/renderer.rs]: the render world
    copied out of the ECS and the manifest that sorts it and groups it into
    draw batches.

    An [f32] is its 32-bit pattern: these components only copy floats. *)

From stdpp Require Import gmap sets sorting.
From S2P Require Import Prelude Bitset Entities Storage World.

Record RenderInstance := mkRenderInstance {
  ri_entity : Entities.Entity;
  ri_transform : list Z;
  ri_bounds : list Z;
  ri_mesh_id : Z;
  ri_material_id : Z
}.

Record RenderTransform := mkRenderTransform { rt_matrix : list Z; rt_bounds : list Z }.
Record RenderMaterial := mkRenderMaterial { rm_mesh_id : Z; rm_material_id : Z }.

Module RenderWorldError.
Inductive RenderWorldError := CapacityExceeded | AllocationFailed.
End RenderWorldError.
Abbreviation RenderWorldError := RenderWorldError.RenderWorldError.

Record ExtractionStats := mkExtractionStats { es_considered : Z; es_extracted : Z; es_rejected : Z }.
Definition extraction_stats_default := mkExtractionStats 0 0 0.

Record DrawBatch := mkDrawBatch { db_mesh_id : Z; db_material_id : Z; db_first_instance : Z; db_instance_count : Z }.

Module RenderManifestError.
Inductive RenderManifestError := CapacityExceeded | AllocationFailed | IndexOverflow.
End RenderManifestError.
Abbreviation RenderManifestError := RenderManifestError.RenderManifestError.

(** ** The render world *)
Record RenderWorld := mkRenderWorld {
  rw_instances : list RenderInstance;
  rw_max_instances : Z;
  rw_capacity : Z
}.

Definition render_world_try_with_capacity (A : alloc) (max_instances : Z) : result RenderWorldError RenderWorld :=
  if A 0%nat then Ok (mkRenderWorld [] max_instances max_instances) else Err RenderWorldError.AllocationFailed.

Definition render_world_clear (rw : RenderWorld) : RenderWorld := mkRenderWorld [] (rw_max_instances rw) (rw_capacity rw).

Definition render_world_try_push (A : alloc) (rw : RenderWorld) (instance : RenderInstance) : RenderWorld * result RenderWorldError unit :=
  if rw_max_instances rw <=? zlen (rw_instances rw) then (rw, Err RenderWorldError.CapacityExceeded)
  else if zlen (rw_instances rw) =? rw_capacity rw then
    if A 0%nat then
      (mkRenderWorld (rw_instances rw ++ [instance]) (rw_max_instances rw) (Z.max (2 * rw_capacity rw) 4), Ok tt)
    else (rw, Err RenderWorldError.AllocationFailed)
  else (mkRenderWorld (rw_instances rw ++ [instance]) (rw_max_instances rw) (rw_capacity rw), Ok tt).

Section Extraction.
Context {V S : Type}.

(** The visits of [extract_with]; [None] where [project] panics.  After an
    error the closure returns at once. *)
Fixpoint extract_each (A : alloc) (project : S -> Entities.Entity -> option (S * option RenderInstance))
    (rw : RenderWorld) (stats : ExtractionStats) (error : option RenderWorldError) (s : S) (entities : list Entities.Entity) :
    option (RenderWorld * ExtractionStats * option RenderWorldError * S) :=
  match entities with
  | [] => Some (rw, stats, error, s)
  | entity :: entities =>
      match error with
      | Some _ => extract_each A project rw stats error s entities
      | None =>
          let stats := mkExtractionStats (saturating_add 64 (es_considered stats) 1) (es_extracted stats) (es_rejected stats) in
          '(s, projected) ← project s entity;
          match projected with
          | None => extract_each A project rw stats None s entities
          | Some instance =>
              let '(rw, pushed) := render_world_try_push A rw instance in
              match pushed with
              | Ok _ =>
                  extract_each (shift 1 A) project rw
                    (mkExtractionStats (es_considered stats) (saturating_add 64 (es_extracted stats) 1) (es_rejected stats)) None s entities
              | Err err =>
                  extract_each A project rw
                    (mkExtractionStats (es_considered stats) (es_extracted stats) (saturating_add 64 (es_rejected stats) 1)) (Some err) s entities
              end
          end
      end
  end.

Definition extract_with (A : alloc) (rw : RenderWorld) (w : World V)
    (project : S -> Entities.Entity -> option (S * option RenderInstance)) (s : S) :
    option (RenderWorld * S * result RenderWorldError ExtractionStats) :=
  '(rw, stats, error, s) ← extract_each A project (render_world_clear rw) extraction_stats_default None s (world_for_each_entity w);
  Some (rw, s, match error with Some err => Err err | None => Ok stats end).
End Extraction.

(** The values of a world: the two render components, with the type ids the
    compiler gives them, and any others. *)
Inductive component (X : Type) := CTransform (t : RenderTransform) | CMaterial (m : RenderMaterial) | COther (x : X).
Arguments CTransform {X}. Arguments CMaterial {X}. Arguments COther {X}.

Section Typed.
Context {X : Type} (transform_type material_type : TypeId).
Implicit Types (w : World (component X)).

Definition as_transform (v : component X) : option RenderTransform := match v with CTransform t => Some t | _ => None end.
Definition as_material (v : component X) : option RenderMaterial := match v with CMaterial m => Some m | _ => None end.

(** The closure of [extract_typed]. *)
Definition project_typed w (_ : unit) (entity : Entities.Entity) : option (unit * option RenderInstance) :=
  transform ← world_get w transform_type entity;
  match transform ≫= as_transform with
  | None => Some (tt, None)
  | Some t =>
      material ← world_get w material_type entity;
      match material ≫= as_material with
      | None => Some (tt, None)
      | Some m => Some (tt, Some (mkRenderInstance entity (rt_matrix t) (rt_bounds t) (rm_mesh_id m) (rm_material_id m)))
      end
  end.

Definition extract_typed (A : alloc) (rw : RenderWorld) w : option (RenderWorld * result RenderWorldError ExtractionStats) :=
  '(rw, _, r) ← extract_with A rw w (project_typed w) tt; Some (rw, r).
End Typed.

(** ** The manifest *)
Record CpuRenderManifest := mkManifest {
  cm_instances : list RenderInstance;
  cm_batches : list DrawBatch;
  cm_max_instances : Z;
  cm_max_batches : Z;
  cm_capacity : Z
}.

Definition manifest_try_with_capacity (A : alloc) (max_instances max_batches : Z) : result RenderManifestError CpuRenderManifest :=
  if A 0%nat then
    if A 1%nat then Ok (mkManifest [] [] max_instances max_batches max_instances) else Err RenderManifestError.AllocationFailed
  else Err RenderManifestError.AllocationFailed.

Definition manifest_clear (m : CpuRenderManifest) : CpuRenderManifest :=
  mkManifest [] [] (cm_max_instances m) (cm_max_batches m) (cm_capacity m).

Definition sort_key (i : RenderInstance) : list Z :=
  [ri_mesh_id i; ri_material_id i; e_index (ri_entity i); e_generation (ri_entity i)].

(** Tuples compare lexicographically. *)
Fixpoint lex_leb (a b : list Z) : bool :=
  match a, b with
  | x :: a, y :: b => (x <? y) || ((x =? y) && lex_leb a b)
  | [], _ => true
  | _, [] => false
  end.
Definition key_le (i j : RenderInstance) : Prop := lex_leb (sort_key i) (sort_key j) = true.

(** The inner loop of [build]: the end of the run that starts with [first]. *)
Fixpoint run_end (fuel : nat) (instances : list RenderInstance) (first : RenderInstance) (end_ : Z) : option Z :=
  match fuel with
  | O => None
  | S fuel =>
      match instances !z end_ with
      | Some i =>
          if (ri_mesh_id i =? ri_mesh_id first) && (ri_material_id i =? ri_material_id first)
          then run_end fuel instances first (end_ + 1) else Some end_
      | None => Some end_
      end
  end.

Definition with_batches (m : CpuRenderManifest) (batches : list DrawBatch) : CpuRenderManifest :=
  mkManifest (cm_instances m) batches (cm_max_instances m) (cm_max_batches m) (cm_capacity m).

(** The outer loop; [None] only out of fuel. *)
Fixpoint batch_loop (fuel : nat) (m : CpuRenderManifest) (start : Z) : option (CpuRenderManifest * result RenderManifestError unit) :=
  match fuel with
  | O => None
  | S fuel =>
      match cm_instances m !z start with
      | None => Some (m, Ok tt)
      | Some first =>
          end_ ← run_end (S (length (cm_instances m))) (cm_instances m) first (start + 1);
          if cm_max_batches m <=? zlen (cm_batches m) then Some (m, Err RenderManifestError.CapacityExceeded)
          else if U32_MAX <? start then Some (m, Err RenderManifestError.IndexOverflow)
          else if U32_MAX <? end_ - start then Some (m, Err RenderManifestError.IndexOverflow)
          else
            batch_loop fuel
              (with_batches m (cm_batches m ++ [mkDrawBatch (ri_mesh_id first) (ri_material_id first) start (end_ - start)])) end_
      end
  end.

(** [sort_unstable_by_key] is the standard library's; ties may come out in
    any order. *)
Definition manifest_build (sort : list RenderInstance -> list RenderInstance) (A : alloc) (m : CpuRenderManifest) (rw : RenderWorld) :
    option (CpuRenderManifest * result RenderManifestError unit) :=
  let m := manifest_clear m in
  if cm_max_instances m <? zlen (rw_instances rw) then Some (m, Err RenderManifestError.CapacityExceeded)
  else
    match checked_add 64 (zlen (cm_instances m)) (zlen (rw_instances rw)) with
    | None => Some (m, Err RenderManifestError.IndexOverflow)
    | Some required =>
        let grow := cm_capacity m <? required in
        if grow && negb (A 0%nat) then Some (m, Err RenderManifestError.AllocationFailed)
        else
          let capacity := if grow then Z.max (2 * cm_capacity m) required else cm_capacity m in
          let instances := sort (cm_instances m ++ rw_instances rw) in
          batch_loop (S (length instances)) (mkManifest instances (cm_batches m) (cm_max_instances m) (cm_max_batches m) capacity) 0
    end.

(** ** Extraction *)
Definition render_world_ok (rw : RenderWorld) : Prop := zlen (rw_instances rw) <= rw_max_instances rw <= rw_capacity rw.

Lemma try_push_spec A rw i : render_world_ok rw ->
  render_world_try_push A rw i =
    if zlen (rw_instances rw) <? rw_max_instances rw
    then (mkRenderWorld (rw_instances rw ++ [i]) (rw_max_instances rw) (rw_capacity rw), Ok tt)
    else (rw, Err RenderWorldError.CapacityExceeded).
Proof.
  unfold render_world_ok, render_world_try_push. intros Hok.
  destruct (Z.leb_spec (rw_max_instances rw) (zlen (rw_instances rw))), (Z.ltb_spec (zlen (rw_instances rw)) (rw_max_instances rw)); try lia; [done|].
  by destruct (Z.eqb_spec (zlen (rw_instances rw)) (rw_capacity rw)); [lia|].
Qed.

Lemma extract_stopped {S} A (project : S -> Entities.Entity -> option (S * option RenderInstance)) es : forall rw stats err s,
  extract_each A project rw stats (Some err) s es = Some (rw, stats, Some err, s).
Proof. by induction es. Qed.

Lemma stats_eq a b c a' b' c' : a = a' -> b = b' -> c = c' -> mkExtractionStats a b c = mkExtractionStats a' b' c'.
Proof. by intros -> -> ->. Qed.

(** A projection without state keeps what fits, in order, and stops at the
    first instance that does not. *)
Lemma extract_each_spec (project : unit -> Entities.Entity -> option (unit * option RenderInstance)) (f : Entities.Entity -> option RenderInstance) es :
  (forall e, e ∈ es -> project tt e = Some (tt, f e)) ->
  forall A rw stats, render_world_ok rw -> es_considered stats <= umax 64 -> es_extracted stats <= umax 64 -> exists stats' err,
  let room := rw_max_instances rw - zlen (rw_instances rw) in
  extract_each A project rw stats None tt es =
    Some (mkRenderWorld (rw_instances rw ++ take (Z.to_nat room) (omap f es)) (rw_max_instances rw) (rw_capacity rw), stats', err, tt) /\
  (zlen (omap f es) <= room -> err = None /\
    stats' = mkExtractionStats (Z.min (es_considered stats + zlen es) (umax 64))
      (Z.min (es_extracted stats + zlen (omap f es)) (umax 64)) (es_rejected stats)) /\
  (room < zlen (omap f es) -> err = Some RenderWorldError.CapacityExceeded).
Proof.
  intros Hp. induction es as [|e es IH]; intros A rw stats Hok Hc He.
  { exists stats, None. cbn -[umax]. rewrite take_nil, app_nil_r. unfold render_world_ok in Hok. destruct rw, stats; cbn -[umax] in *. zlen_nil_simp.
    repeat split; [|lia]. apply stats_eq; lia. }
  pose proof (zlen_nonneg es). pose proof (zlen_nonneg (omap f es)).
  assert (forall e, e ∈ es -> project tt e = Some (tt, f e)) as Hp' by (intros x Hx; apply Hp; by right).
  cbn -[umax saturating_add]. rewrite (Hp e) by (by left). cbn -[umax saturating_add].
  set (stats1 := mkExtractionStats (saturating_add 64 (es_considered stats) 1) (es_extracted stats) (es_rejected stats)).
  destruct (f e) as [i|].
  2: { destruct (IH Hp' A rw stats1 Hok) as (stats' & err & Hrun & Hfit & Hover); [subst stats1; cbn -[umax]; unfold saturating_add; lia..|]. exists stats', err. split; [exact Hrun|].
       split; [|exact Hover]. intros Hroom. destruct (Hfit Hroom) as [-> ->]. split; [done|]. zsimp. subst stats1. cbn -[umax].
       unfold saturating_add. apply stats_eq; lia. }
  rewrite (try_push_spec A rw i Hok). destruct (Z.ltb_spec (zlen (rw_instances rw)) (rw_max_instances rw)) as [Hlt|Hge]; cbn -[umax saturating_add].
  - set (rw1 := mkRenderWorld (rw_instances rw ++ [i]) (rw_max_instances rw) (rw_capacity rw)).
    set (stats2 := mkExtractionStats (es_considered stats1) (saturating_add 64 (es_extracted stats1) 1) (es_rejected stats1)).
    assert (render_world_ok rw1) as Hok1 by (unfold render_world_ok in *; subst rw1; cbn; zsimp; lia).
    destruct (IH Hp' (shift 1 A) rw1 stats2 Hok1) as (stats' & err & Hrun & Hfit & Hover);
      [subst stats2 stats1; cbn -[umax]; unfold saturating_add; lia..|]. exists stats', err. subst rw1. cbn -[umax] in Hrun, Hfit, Hover.
    zsimp. replace (rw_max_instances rw - (zlen (rw_instances rw) + (0 + 1))) with (rw_max_instances rw - zlen (rw_instances rw) - 1) in * by lia.
    split.
    + replace (Z.to_nat (rw_max_instances rw - zlen (rw_instances rw))) with (S (Z.to_nat (rw_max_instances rw - zlen (rw_instances rw) - 1))) by lia.
      cbn [take]. rewrite <- (assoc_L (++)) in Hrun. exact Hrun.
    + split; [|intros; apply Hover; lia]. intros Hroom. destruct Hfit as [-> ->]; [lia|]. split; [done|].
      subst stats2 stats1. cbn -[umax]. unfold saturating_add. apply stats_eq; lia.
  - rewrite extract_stopped. do 2 eexists. replace (Z.to_nat (rw_max_instances rw - zlen (rw_instances rw))) with 0%nat by lia.
    cbn [take]. rewrite app_nil_r. split; [by destruct rw|]. zsimp. split; [lia|done].
Qed.

(** The instance of an entity in the abstract world. *)
Definition instance_of {X} (T M : TypeId) (C : gmap (TypeId * Entities.Entity) (component X)) (e : Entities.Entity) : option RenderInstance :=
  t ← (C !! (T, e)) ≫= as_transform;
  m ← (C !! (M, e)) ≫= as_material;
  Some (mkRenderInstance e (rt_matrix t) (rt_bounds t) (rm_mesh_id m) (rm_material_id m)).

Lemma project_typed_spec {X} T M (w : World (component X)) L C n e :
  world_repr w L C n -> e ∈ L -> project_typed T M w tt e = Some (tt, instance_of T M C e).
Proof.
  intros Hr He. pose proof (live_range _ _ _ _ (wr_entities _ _ _ _ Hr) He) as Hi. unfold project_typed, instance_of.
  rewrite (world_get_refines w L C n T e Hr), (world_get_refines w L C n M e Hr) by lia.
  by destruct (C !! (T, e)) as [[t|m|x]|]; try done; destruct (C !! (M, e)) as [[t'|m|x]|].
Qed.

(** extraction.  Extracting from a world gives, in index order, one
    instance for every live entity that has both render components, holding
    copies of them, up to the bound of the render world; it fails, keeping
    the first ones, exactly when there are more.  No allocation happens. *)
Theorem extract_typed_correct {X} A (rw : RenderWorld) T M (w : World (component X)) L C n :
  world_repr w L C n -> 0 <= rw_max_instances rw <= rw_capacity rw ->
  exists es rw' r, extract_typed T M A rw w = Some (rw', r) /\
  StronglySorted (fun a b => e_index a < e_index b) es /\ (forall e, e ∈ es <-> e ∈ L) /\
  rw_instances rw' = take (Z.to_nat (rw_max_instances rw)) (omap (instance_of T M C) es) /\
  rw_max_instances rw' = rw_max_instances rw /\ render_world_ok rw' /\
  if zlen (omap (instance_of T M C) es) <=? rw_max_instances rw
  then r = Ok (mkExtractionStats (Z.min (zlen es) U64_MAX) (Z.min (zlen (omap (instance_of T M C) es)) U64_MAX) 0)
  else r = Err RenderWorldError.CapacityExceeded.
Proof.
  intros Hr Hmax. destruct (each_refines w L C n Hr) as [Hs Hin]. exists (world_for_each_entity w).
  unfold extract_typed, extract_with.
  destruct (extract_each_spec (project_typed T M w) (instance_of T M C) (world_for_each_entity w)
    ltac:(intros e He; apply (project_typed_spec T M w L C n e Hr), Hin, He) A (render_world_clear rw) extraction_stats_default)
    as (stats & err & Hrun & Hfit & Hover); [unfold render_world_ok; cbn; zlen_nil_simp; lia|done|done|].
  cbn -[umax] in Hrun, Hfit, Hover. zlen_nil_simp. rewrite Z.sub_0_r in *. rewrite Hrun. cbn [mbind option_bind].
  do 2 eexists. split; [reflexivity|]. do 3 (split; [done|]). split; [done|]. split.
  - unfold render_world_ok. cbn. unfold zlen. rewrite length_take. lia.
  - destruct (Z.leb_spec (zlen (omap (instance_of T M C) (world_for_each_entity w))) (rw_max_instances rw)) as [Hle|Hgt].
    + destruct (Hfit Hle) as [-> ->]. do 2 f_equal; unfold U64_MAX, umax; lia.
    + by rewrite (Hover Hgt).
Qed.

(** ** Batches *)
Definition batch_pair (b : DrawBatch) : Z * Z := (db_mesh_id b, db_material_id b).
Definition pair_of (i : RenderInstance) : Z * Z := (ri_mesh_id i, ri_material_id i).
Definition pair_lt (p q : Z * Z) : Prop := p.1 < q.1 \/ p.1 = q.1 /\ p.2 < q.2.
Definition pair_le (p q : Z * Z) : Prop := p = q \/ pair_lt p q.

Lemma key_le_pair i j : key_le i j -> pair_le (pair_of i) (pair_of j).
Proof.
  unfold key_le, pair_le, pair_lt, pair_of. cbn. intros H.
  destruct (Z.ltb_spec (ri_mesh_id i) (ri_mesh_id j)); [right; left; done|].
  destruct (Z.eqb_spec (ri_mesh_id i) (ri_mesh_id j)) as [He|]; [|done]. cbn in H.
  destruct (Z.ltb_spec (ri_material_id i) (ri_material_id j)); [right; right; done|].
  destruct (Z.eqb_spec (ri_material_id i) (ri_material_id j)) as [He'|]; [|done]. left. by f_equal.
Qed.

Lemma pair_lt_trans p q r : pair_lt p q -> pair_lt q r -> pair_lt p r.
Proof. unfold pair_lt. lia. Qed.

Lemma pair_lt_irrefl p : ~ pair_lt p p.
Proof. unfold pair_lt. lia. Qed.

Lemma pair_le_lt p q : pair_le p q -> p <> q -> pair_lt p q.
Proof. by intros [|]. Qed.

Lemma pair_lt_le p q r : pair_lt p q -> pair_le q r -> pair_lt p r.
Proof. intros H [<-|]; [done|by eapply pair_lt_trans]. Qed.

(** The ranges follow one another from [s] to [e], none of them empty. *)
Fixpoint chained (s : Z) (bs : list DrawBatch) (e : Z) : Prop :=
  match bs with
  | [] => s = e
  | b :: bs => db_first_instance b = s /\ 0 < db_instance_count b /\ chained (s + db_instance_count b) bs e
  end.

(** The pair of every instance of the batches, in order. *)
Definition batch_pairs (bs : list DrawBatch) : list (Z * Z) :=
  flat_map (fun b => replicate (Z.to_nat (db_instance_count b)) (batch_pair b)) bs.

Lemma chained_snoc bs b : forall s e, chained s (bs ++ [b]) e <->
  chained s bs (db_first_instance b) /\ 0 < db_instance_count b /\ e = db_first_instance b + db_instance_count b.
Proof.
  induction bs as [|c bs IH]; intros s e; cbn [app chained]; [|rewrite IH]; naive_solver.
Qed.

(** [build] so far: the batches of the first [start] instances. *)
Record batched (instances : list RenderInstance) (bs : list DrawBatch) (start : Z) : Prop := {
  ba_chain : chained 0 bs start;
  ba_pairs : batch_pairs bs = take (Z.to_nat start) (map pair_of instances);
  ba_sorted : StronglySorted pair_lt (map batch_pair bs);
  ba_below i j x y : 0 <= i < start -> start <= j -> instances !z i = Some x -> instances !z j = Some y -> pair_lt (pair_of x) (pair_of y)
}.

Lemma batched_nil l : batched l [] 0.
Proof. split; [done|done|constructor|]. lia. Qed.

Lemma run_end_spec l first : forall fuel e, 0 <= e <= zlen l -> zlen l < e + Z.of_nat fuel ->
  exists e', run_end fuel l first e = Some e' /\ e <= e' <= zlen l /\
  (forall k x, e <= k < e' -> l !z k = Some x -> pair_of x = pair_of first) /\
  (forall x, l !z e' = Some x -> pair_of x <> pair_of first).
Proof.
  induction fuel as [|fuel IH]; intros e H0 Hf; [lia|]. cbn [run_end]. destruct (l !z e) as [x|] eqn:Hx.
  - pose proof (zget_Some _ _ _ Hx). destruct (_ && _) eqn:Heq.
    + apply andb_true_iff in Heq as [H1%Z.eqb_eq H2%Z.eqb_eq]. destruct (IH (e + 1)) as (e' & Hrun & Hle & Hall & Hend); [lia|lia|].
      exists e'. split; [done|]. split; [lia|]. split; [|done].
      intros k y Hk Hy. destruct (Z.eq_dec k e) as [->|]; [|apply (Hall k); [lia|done]]. rewrite Hx in Hy. injection Hy as <-.
      unfold pair_of. by rewrite H1, H2.
    + exists e. split; [done|]. split; [lia|]. split; [lia|]. intros y Hy. rewrite Hx in Hy. injection Hy as <-.
      unfold pair_of. intros [= H1 H2]. rewrite H1, H2, !Z.eqb_refl in Heq. done.
  - exists e. split; [done|]. split; [lia|]. split; [lia|]. intros y Hy. congruence.
Qed.

(** [take] over a run of equal pairs. *)
Lemma take_run l p s e : 0 <= s <= e -> e <= zlen l -> (forall k x, s <= k < e -> l !z k = Some x -> pair_of x = p) ->
  take (Z.to_nat e) (map pair_of l) = take (Z.to_nat s) (map pair_of l) ++ replicate (Z.to_nat (e - s)) p.
Proof.
  intros Hs He Hall. replace (Z.to_nat e) with (Z.to_nat s + Z.to_nat (e - s))%nat by lia.
  rewrite <- take_take_drop. f_equal. apply list_eq. intros k. destruct (decide (k < Z.to_nat (e - s))%nat) as [Hk|Hk].
  - rewrite lookup_take_lt, lookup_drop, lookup_replicate_2 by lia.
    destruct (l !! (Z.to_nat s + k)%nat) as [x|] eqn:Hx; [|apply lookup_ge_None in Hx; unfold zlen in He; lia].
    apply (list_lookup_fmap_Some pair_of l). exists x. split; [|done]. symmetry.
    apply (Hall (s + Z.of_nat k)); [lia|]. rewrite zget_lookup by lia. by replace (Z.to_nat (s + Z.of_nat k)) with (Z.to_nat s + k)%nat by lia.
  - rewrite lookup_take_ge, lookup_ge_None_2 by (rewrite ?length_replicate; lia). done.
Qed.

Lemma batch_pairs_in bs p : forall s e, chained s bs e -> p ∈ map batch_pair bs <-> p ∈ batch_pairs bs.
Proof.
  induction bs as [|b bs IH]; intros s e Hc; [done|]. cbn [map batch_pairs flat_map]. destruct Hc as (_ & Hb & Hc).
  change (flat_map _ bs) with (batch_pairs bs). rewrite elem_of_cons, elem_of_app, (IH _ _ Hc), elem_of_replicate.
  assert (Z.to_nat (db_instance_count b) <> 0%nat) by lia. tauto.
Qed.

Lemma sorted_pairs l i j x y : StronglySorted key_le l -> i <= j -> l !z i = Some x -> l !z j = Some y -> pair_le (pair_of x) (pair_of y).
Proof.
  intros Hs Hij Hx Hy. pose proof (zget_Some _ _ _ Hx). pose proof (zget_Some _ _ _ Hy). destruct (Z.eq_dec i j) as [->|Hne].
  { left. rewrite Hx in Hy. by injection Hy as ->. }
  apply key_le_pair. rewrite zget_lookup in Hx, Hy by lia.
  eapply (StronglySorted_app_1_elem_of key_le (take (Z.to_nat j) l) (drop (Z.to_nat j) l)); [by rewrite take_drop|..].
  - apply list_elem_of_lookup. exists (Z.to_nat i). by rewrite lookup_take_lt by lia.
  - apply list_elem_of_lookup. exists 0%nat. by rewrite lookup_drop, Nat.add_0_r.
Qed.

Lemma batched_snoc l bs s e first :
  StronglySorted key_le l -> batched l bs s -> l !z s = Some first -> s < e <= zlen l ->
  (forall k x, s <= k < e -> l !z k = Some x -> pair_of x = pair_of first) ->
  (forall x, l !z e = Some x -> pair_of x <> pair_of first) ->
  batched l (bs ++ [mkDrawBatch (ri_mesh_id first) (ri_material_id first) s (e - s)]) e.
Proof.
  intros Hs [Hc Hp Hsort Hb] Hf He Hrun Hend. pose proof (zget_Some _ _ _ Hf) as Hsr. split.
  - apply chained_snoc. simpl. split; [done|]. lia.
  - unfold batch_pairs. rewrite flat_map_app. fold (batch_pairs bs). rewrite Hp. cbn [flat_map db_instance_count batch_pair db_mesh_id db_material_id].
    rewrite app_nil_r. symmetry. apply (take_run l (pair_of first)); [lia|lia|done].
  - rewrite map_app. cbn [map batch_pair db_mesh_id db_material_id]. change (batch_pair (mkDrawBatch (ri_mesh_id first) (ri_material_id first) s (e - s))) with (pair_of first).
    apply StronglySorted_app. split; [|split; [done|by repeat constructor]]. intros p q Hin Hq%list_elem_of_singleton. subst q.
    apply (batch_pairs_in bs p 0 s Hc) in Hin. rewrite Hp in Hin. apply list_elem_of_lookup in Hin as [i Hi].
    apply lookup_take_Some in Hi as [Hi Hlt]. apply (list_lookup_fmap_Some pair_of l) in Hi as (x & -> & Hx).
    apply (Hb (Z.of_nat i) s x first); [lia|lia|by rewrite zget_nat|done].
  - intros i j x y Hi Hj Hx Hy. destruct (Z.lt_ge_cases i s) as [Hlt|Hge]; [apply (Hb i j); [lia|lia|done|done]|].
    rewrite (Hrun i x) by (lia || done). pose proof (zget_Some _ _ _ Hy).
    destruct (l !z e) as [z|] eqn:Hz; [|apply zget_None in Hz; lia].
    apply (pair_lt_le _ (pair_of z)); [|by apply (sorted_pairs l e j)].
    apply pair_le_lt; [apply (sorted_pairs l s e); [done|lia|done|done]|]. intros Heq. by apply (Hend z).
Qed.

(** Distinct pairs of the instances. *)
Definition distinct_pairs (l : list RenderInstance) : gset (Z * Z) := list_to_set (map pair_of l).

Lemma pairs_nodup bs : StronglySorted pair_lt bs -> NoDup bs.
Proof.
  induction 1 as [|p bs _ IH Hp]; constructor; [|done]. intros Hin. rewrite list.Forall_forall in Hp. by apply (pair_lt_irrefl p), Hp.
Qed.

Lemma batched_bound l bs s p : batched l bs s -> (p ∈ map pair_of (drop (Z.to_nat s) l)) -> 0 <= s -> zlen bs + 1 <= Z.of_nat (size (distinct_pairs l)).
Proof.
  intros [Hc Hp Hsort Hb] Hin H0. assert (size (list_to_set (p :: map batch_pair bs) : gset (Z * Z)) <= size (distinct_pairs l))%nat as Hle.
  { apply subseteq_size. unfold distinct_pairs. intros q. rewrite !elem_of_list_to_set, elem_of_cons. rewrite <- (take_drop (Z.to_nat s) l), map_app, elem_of_app.
    intros [->|Hq]; [by right|left]. apply (batch_pairs_in bs q 0 s Hc) in Hq. rewrite Hp in Hq. by rewrite <- firstn_map. }
  rewrite size_list_to_set in Hle; [cbn [length] in Hle; rewrite length_map in Hle; unfold zlen; lia|].
  constructor; [|by apply pairs_nodup]. intros Hq. apply (batch_pairs_in bs p 0 s Hc) in Hq. rewrite Hp in Hq.
  apply list_elem_of_lookup in Hq as [i Hi]. apply lookup_take_Some in Hi as [Hi Hlt]. apply (list_lookup_fmap_Some pair_of l) in Hi as (x & -> & Hx).
  apply list_elem_of_lookup in Hin as [j Hj]. apply (list_lookup_fmap_Some pair_of) in Hj as (y & Hxy & Hy). rewrite lookup_drop in Hy.
  apply (pair_lt_irrefl (pair_of x)). rewrite Hxy at 2. apply (Hb (Z.of_nat i) (Z.of_nat (Z.to_nat s + j))); [lia|lia|by rewrite zget_nat|by rewrite zget_nat].
Qed.

Lemma batched_all l bs : batched l bs (zlen l) -> zlen bs = Z.of_nat (size (distinct_pairs l)).
Proof.
  intros [Hc Hp Hsort _]. unfold distinct_pairs. rewrite <- (firstn_all (map pair_of l)). rewrite length_map. unfold zlen in Hp. rewrite Nat2Z.id in Hp. rewrite <- Hp.
  assert (list_to_set (batch_pairs bs) = (list_to_set (map batch_pair bs) : gset (Z * Z))) as ->.
  { apply set_eq. intros q. rewrite !elem_of_list_to_set. symmetry. by apply (batch_pairs_in bs q 0 _ Hc). }
  rewrite size_list_to_set by (by apply pairs_nodup). by rewrite length_map.
Qed.

Definition manifest_ok (m : CpuRenderManifest) : Prop := cm_max_instances m <= U32_MAX /\ cm_max_instances m <= cm_capacity m /\ 0 <= cm_max_batches m.

Lemma batch_loop_spec l fuel : forall m start,
  cm_instances m = l -> StronglySorted key_le l -> zlen l <= U32_MAX -> batched l (cm_batches m) start -> zlen (cm_batches m) <= cm_max_batches m ->
  0 <= start <= zlen l -> zlen l < start + Z.of_nat fuel ->
  exists m' r, batch_loop fuel m start = Some (m', r) /\ cm_instances m' = l /\
  match r with
  | Ok _ => batched l (cm_batches m') (zlen l) /\ Z.of_nat (size (distinct_pairs l)) <= cm_max_batches m
  | Err RenderManifestError.CapacityExceeded => cm_max_batches m < Z.of_nat (size (distinct_pairs l))
  | Err _ => False
  end.
Proof.
  induction fuel as [|fuel IH]; intros m start Hm Hs Hu Hb Hlen Hst Hf; [lia|]. cbn [batch_loop]. rewrite Hm.
  destruct (l !z start) as [first|] eqn:Hfirst.
  2: { apply zget_None in Hfirst. replace start with (zlen l) in Hb by lia. exists m, (Ok tt). split; [done|]. split; [done|]. split; [done|].
       by rewrite <- (batched_all l _ Hb). }
  pose proof (zget_Some _ _ _ Hfirst). destruct (run_end_spec l first (S (length l)) (start + 1)) as (e & He & Hr & Hall & Hend); [lia|unfold zlen; lia|].
  rewrite He. cbn [mbind option_bind]. destruct (Z.leb_spec (cm_max_batches m) (zlen (cm_batches m))) as [Hfull|Hroom].
  - exists m, (Err RenderManifestError.CapacityExceeded). split; [done|]. split; [done|].
    assert (zlen (cm_batches m) + 1 <= Z.of_nat (size (distinct_pairs l))); [|lia]. apply (batched_bound l _ start (pair_of first)); [done| |lia].
    apply list_elem_of_lookup. exists 0%nat. apply (list_lookup_fmap_Some pair_of). exists first. split; [done|]. rewrite lookup_drop, Nat.add_0_r.
    by rewrite zget_lookup in Hfirst by lia.
  - destruct (Z.ltb_spec U32_MAX start); [lia|]. destruct (Z.ltb_spec U32_MAX (e - start)); [lia|].
    set (m1 := with_batches m _). destruct (IH m1 e) as (m' & r & Hrun & Hi & Hres); [done|done|done| |cbn; zsimp; lia|lia|lia|by exists m', r].
    cbn. apply (batched_snoc l _ start e first); [done|done|done|lia| |done].
    intros k x Hk Hx. destruct (Z.eq_dec k start) as [->|]; [rewrite Hfirst in Hx; by injection Hx as ->|apply (Hall k); [lia|done]].
Qed.

(** What a built manifest says of the instances it was built from. *)
Definition manifest_describes (m : CpuRenderManifest) (l : list RenderInstance) : Prop :=
  cm_instances m ≡ₚ l /\ StronglySorted key_le (cm_instances m) /\
  chained 0 (cm_batches m) (zlen l) /\ batch_pairs (cm_batches m) = map pair_of (cm_instances m) /\
  StronglySorted pair_lt (map batch_pair (cm_batches m)).

Section Build.
Variable sort : list RenderInstance -> list RenderInstance.
Hypothesis sort_permutes : forall l, sort l ≡ₚ l.
Hypothesis sort_sorts : forall l, StronglySorted key_le (sort l).

(** the manifest.  Whatever unstable sort is used, building ends; it
    succeeds exactly when the instances fit and there are no more distinct
    (mesh, material) pairs than batches allowed, whatever was built before.
    Then the manifest holds the same instances sorted by key, and its batches
    are consecutive non-empty ranges that cover them all, one for each pair,
    in increasing order. *)
Theorem manifest_build_correct A m rw : manifest_ok m ->
  exists m' r, manifest_build sort A m rw = Some (m', r) /\
  match r with
  | Ok _ => zlen (rw_instances rw) <= cm_max_instances m /\ Z.of_nat (size (distinct_pairs (rw_instances rw))) <= cm_max_batches m /\
      manifest_describes m' (rw_instances rw)
  | Err RenderManifestError.CapacityExceeded =>
      cm_max_instances m < zlen (rw_instances rw) \/ cm_max_batches m < Z.of_nat (size (distinct_pairs (rw_instances rw)))
  | Err _ => False
  end.
Proof.
  intros (Hmax & Hcap & Hb). unfold manifest_build. cbn [cm_max_instances cm_instances cm_capacity cm_batches cm_max_batches manifest_clear app].
  destruct (Z.ltb_spec (cm_max_instances m) (zlen (rw_instances rw))) as [Hlt|Hle]; [do 2 eexists; split; [done|by left]|].
  zlen_nil_simp. rewrite checked_add_ok by (unfold umax, U32_MAX in *; lia). rewrite Z.add_0_l.
  destruct (Z.ltb_spec (cm_capacity m) (zlen (rw_instances rw))); [lia|]. cbn [andb].
  set (l := sort (rw_instances rw)). assert (l ≡ₚ rw_instances rw) as Hp by apply sort_permutes.
  assert (zlen l = zlen (rw_instances rw)) as Hl by (unfold zlen; by rewrite Hp).
  assert (distinct_pairs l = distinct_pairs (rw_instances rw)) as Hd
    by (unfold distinct_pairs; apply list_to_set_perm_L; by rewrite Hp).
  destruct (batch_loop_spec l (S (length l)) (mkManifest l [] (cm_max_instances m) (cm_max_batches m) (cm_capacity m)) 0)
    as (m' & r & Hrun & Hi & Hr); [done|apply sort_sorts|lia|apply batched_nil|done|split; [done|apply zlen_nonneg]|unfold zlen; lia|].
  exists m', r. split; [done|]. rewrite Hd in Hr. cbn [cm_max_batches] in Hr. destruct r as [[]|[]]; [|by right|done|done].
  destruct Hr as [[Hc Hpr Hs _] Hn]. split; [lia|]. split; [done|]. unfold manifest_describes. rewrite Hi. split; [done|]. split; [apply sort_sorts|].
  split; [by rewrite <- Hl|]. split; [|done]. rewrite Hpr. unfold zlen. rewrite Nat2Z.id, firstn_all2; [done|]. by rewrite length_map.
Qed.
End Build.

(** *** A sort and a small scene *)
#[global] Instance key_le_dec i j : Decision (key_le i j).
Proof. unfold key_le. apply _. Defined.

Lemma lex_leb_trans a : forall b c, lex_leb a b = true -> lex_leb b c = true -> lex_leb a c = true.
Proof.
  induction a as [|x a IH]; intros [|y b] [|z c]; cbn; try done. intros H1 H2.
  apply orb_true_iff in H1, H2. apply orb_true_iff. rewrite !andb_true_iff, !Z.ltb_lt, !Z.eqb_eq in *.
  destruct H1 as [?|[-> H1]], H2 as [?|[-> H2]]; [left; lia|left; lia|left; lia|right; split; [done|by eapply IH]].
Qed.

Lemma lex_leb_total a : forall b, lex_leb a b = true \/ lex_leb b a = true.
Proof.
  induction a as [|x a IH]; intros [|y b]; cbn; [by left|by left|by right|].
  rewrite !orb_true_iff, !andb_true_iff, !Z.ltb_lt, !Z.eqb_eq. destruct (Z.lt_trichotomy x y) as [?|[->|?]]; [tauto| |tauto].
  destruct (IH b); tauto.
Qed.

#[global] Instance key_le_trans : Transitive key_le.
Proof. intros i j k. apply lex_leb_trans. Qed.
#[global] Instance key_le_total : Total key_le.
Proof. intros i j. apply lex_leb_total. Qed.

Definition by_key : list RenderInstance -> list RenderInstance := merge_sort key_le.

Lemma by_key_permutes l : by_key l ≡ₚ l.
Proof. apply merge_sort_Permutation. Qed.

Lemma by_key_sorts l : StronglySorted key_le (by_key l).
Proof. apply Sorted_StronglySorted; [exact key_le_trans|]. apply Sorted_merge_sort. apply _. Qed.

Definition demo_instance (k mesh material : Z) := mkRenderInstance (mkEntity k 0) (replicate 12 0) (replicate 4 0) mesh material.
Definition demo_scene := mkRenderWorld [demo_instance 0 2 1; demo_instance 1 1 5; demo_instance 2 2 1; demo_instance 3 1 4] 8 8.

Lemma manifest_build_correct_witness :
  manifest_ok (mkManifest [] [] 4 3 4) /\
  exists m', manifest_build by_key alloc_all (mkManifest [] [] 4 3 4) demo_scene = Some (m', Ok tt) /\
  cm_batches m' = [mkDrawBatch 1 4 0 1; mkDrawBatch 1 5 1 1; mkDrawBatch 2 1 2 2] /\ manifest_describes m' (rw_instances demo_scene).
Proof.
  assert (manifest_ok (mkManifest [] [] 4 3 4)) as Hok by (unfold manifest_ok, U32_MAX; cbn; lia). split; [exact Hok|].
  destruct (manifest_build_correct by_key by_key_permutes by_key_sorts alloc_all (mkManifest [] [] 4 3 4) demo_scene Hok) as (m' & r & Hb & Hr).
  assert (r = Ok tt /\ cm_batches m' = [mkDrawBatch 1 4 0 1; mkDrawBatch 1 5 1 1; mkDrawBatch 2 1 2 2]) as [-> Hbs]
    by (vm_compute in Hb; injection Hb as <- <-; split; reflexivity).
  exists m'. split; [exact Hb|]. split; [exact Hbs|]. apply Hr.
Defined.

(** A world with one complete entity and one that lacks a material. *)
Definition scene_world : option (World (component unit)) :=
  '(w, _) ← world_try_spawn alloc_all world_new;
  '(w, _) ← world_try_spawn alloc_all w;
  '(w, _) ← world_try_insert alloc_all w 7 (mkEntity 0 0) (CTransform (mkRenderTransform (replicate 12 1) (replicate 4 2)));
  '(w, _) ← world_try_insert alloc_all w 7 (mkEntity 1 0) (CTransform (mkRenderTransform (replicate 12 3) (replicate 4 4)));
  '(w, _) ← world_try_insert alloc_all w 8 (mkEntity 1 0) (CMaterial (mkRenderMaterial 5 6));
  Some w.

Example scene_extraction :
  (w ← scene_world; '(rw, r) ← extract_typed 7 8 alloc_all (mkRenderWorld [] 4 4) w; Some (rw_instances rw, r)) =
  Some ([mkRenderInstance (mkEntity 1 0) (replicate 12 3) (replicate 4 4) 5 6], Ok (mkExtractionStats 2 1 0)).
Proof. vm_compute. reflexivity. Qed.

Lemma scene_repr w : scene_world = Some w -> exists L C, world_repr w L C 2.
Proof.
  unfold scene_world. intros Hw.
  destruct (spawn_refines (V := component unit) alloc_all world_new ∅ ∅ 0 world_repr_new) as (w1 & r1 & E1 & H1); [lia|lia|].
  destruct r1 as [e1|]; [|vm_compute in E1; discriminate E1]. destruct H1 as [_ H1]. rewrite E1 in Hw. cbn [mbind option_bind] in Hw.
  destruct (spawn_refines alloc_all w1 _ _ _ H1) as (w2 & r2 & E2 & H2); [lia|lia|].
  destruct r2 as [e2|]; [|vm_compute in E1; injection E1 as <- <-; vm_compute in E2; discriminate E2]. destruct H2 as [_ H2].
  rewrite E2 in Hw. cbn [mbind option_bind] in Hw.
  assert (forall (w : World (component unit)) L C T e v, world_repr w L C 2 -> is_u 32 (e_index e) -> exists w' r C', world_try_insert alloc_all w T e v = Some (w', r) /\ world_repr w' L C' 2)
    as Hins.
  { intros w3 L C T e v H Hi. destruct (world_insert_refines alloc_all w3 L C 2 T e v H Hi) as (w' & r & E & Hr).
    destruct r; [exists w', (Ok a), (<[(T, e) := v]> C)|exists w', (Err e0), C]; (split; [done|apply Hr]). }
  destruct (Hins w2 _ _ 7 (mkEntity 0 0) (CTransform (mkRenderTransform (replicate 12 1) (replicate 4 2))) H2) as (w3 & r3 & C3 & E3 & H3); [done|].
  rewrite E3 in Hw. cbn [mbind option_bind] in Hw.
  destruct (Hins w3 _ _ 7 (mkEntity 1 0) (CTransform (mkRenderTransform (replicate 12 3) (replicate 4 4))) H3) as (w4 & r4 & C4 & E4 & H4); [done|].
  rewrite E4 in Hw. cbn [mbind option_bind] in Hw.
  destruct (Hins w4 _ _ 8 (mkEntity 1 0) (CMaterial (mkRenderMaterial 5 6)) H4) as (w5 & r5 & C5 & E5 & H5); [done|].
  rewrite E5 in Hw. cbn [mbind option_bind] in Hw. injection Hw as <-. eauto.
Qed.

Lemma extract_typed_correct_witness :
  exists w rw' r, scene_world = Some w /\ extract_typed 7 8 alloc_all (mkRenderWorld [] 4 4) w = Some (rw', r) /\
  rw_instances rw' = [mkRenderInstance (mkEntity 1 0) (replicate 12 3) (replicate 4 4) 5 6] /\ r = Ok (mkExtractionStats 2 1 0).
Proof.
  destruct scene_world as [w|] eqn:Hw; [|vm_compute in Hw; discriminate Hw].
  destruct (scene_repr w Hw) as (L & C & Hr).
  destruct (extract_typed_correct alloc_all (mkRenderWorld [] 4 4) 7 8 w L C 2 Hr ltac:(cbn; lia)) as (es & rw' & r & He & _).
  exists w, rw', r. split; [reflexivity|]. split; [exact He|]. vm_compute in Hw. injection Hw as <-. vm_compute in He. injection He as <- <-. split; reflexivity.
Defined.
