(* ===== verification/GpuUpload.v ===== *)
(** GPU frame preparation in [subsystems/renderer.rs]: the bounded copy of a
    manifest, its encoding into the instance and indirect-draw buffers, the
    culling plan, the headless backend; and the checks of
    [platform/world_upload.rs] in front of the native presenters.

    [to_ne_bytes] is little-endian on every supported target. *)

From stdpp Require Import sets.
From S2P Require Import Prelude Entities Wire RenderScene.

Module GpuPreparationError.
Inductive GpuPreparationError :=
| CapacityExceeded
| AllocationFailed
| IndexOverflow
| InvalidRange
| MissingGeometry
| OutputTooSmall
| InvalidGeometry
| InvalidWorkgroupSize.
End GpuPreparationError.
Abbreviation GpuPreparationError := GpuPreparationError.GpuPreparationError.

Record IndirectDrawCommand := mkIndirectDrawCommand {
  ic_mesh_id : Z;
  ic_material_id : Z;
  ic_first_instance : Z;
  ic_instance_count : Z
}.

(** [vertex_offset] is an [i32]. *)
Record IndexedGeometry := mkIndexedGeometry {
  ig_mesh_id : Z;
  ig_index_count : Z;
  ig_first_index : Z;
  ig_vertex_offset : Z
}.

Definition VULKAN_INDEXED_INDIRECT_COMMAND_SIZE : Z := 20.
Definition GPU_INSTANCE_RECORD_SIZE : Z := 80.

(** [copy_from_slice] into [output[start..start + len]]; [None] where the
    range is out of bounds and the source panics. *)
Definition copy_into (output : list Z) (start : Z) (bytes : list Z) : option (list Z) :=
  if (0 <=? start) && (start + zlen bytes <=? zlen output)
  then Some (take (Z.to_nat start) output ++ bytes ++ drop (Z.to_nat (start + zlen bytes)) output)
  else None.

(** [u32] words written one after another. *)
Fixpoint write_words (output : list Z) (offset : Z) (words : list Z) : option (list Z) :=
  match words with
  | [] => Some output
  | w :: words => output ← copy_into output offset (to_le_bytes 4 w); write_words output (offset + 4) words
  end.

(** ** [GpuCullingPlan] *)
Record GpuCullingPlan := mkGpuCullingPlan {
  gc_instance_count : Z;
  gc_workgroup_size : Z;
  gc_workgroup_count : Z;
  gc_visibility_bytes : Z;
  gc_indirect_bytes : Z
}.

Definition culling_plan_try_new (instance_count workgroup_size max_instances : Z) : result GpuPreparationError GpuCullingPlan :=
  if (workgroup_size =? 0) || (max_instances <? instance_count) then Err GpuPreparationError.InvalidWorkgroupSize
  else
    let? padded := ok_or GpuPreparationError.IndexOverflow (checked_add 32 instance_count (workgroup_size - 1)) in
    let? visibility_bytes := ok_or GpuPreparationError.IndexOverflow (checked_mul 64 instance_count 4) in
    let? indirect_bytes := ok_or GpuPreparationError.IndexOverflow (checked_mul 64 instance_count VULKAN_INDEXED_INDIRECT_COMMAND_SIZE) in
    Ok (mkGpuCullingPlan instance_count workgroup_size (padded / workgroup_size) visibility_bytes indirect_bytes).

(** ** [GpuFramePreparation] *)
Record GpuFramePreparation := mkPreparation {
  gp_instances : list RenderInstance;
  gp_commands : list IndirectDrawCommand;
  gp_max_instances : Z;
  gp_max_commands : Z;
  gp_capacity : Z
}.

Definition preparation_try_with_capacity (A : alloc) (max_instances max_commands : Z) : result GpuPreparationError GpuFramePreparation :=
  if A 0%nat then
    if A 1%nat then Ok (mkPreparation [] [] max_instances max_commands max_instances) else Err GpuPreparationError.AllocationFailed
  else Err GpuPreparationError.AllocationFailed.

Definition with_commands (p : GpuFramePreparation) (commands : list IndirectDrawCommand) : GpuFramePreparation :=
  mkPreparation (gp_instances p) commands (gp_max_instances p) (gp_max_commands p) (gp_capacity p).

(** The loop of [prepare] over the batches. *)
Fixpoint prepare_commands (p : GpuFramePreparation) (batches : list DrawBatch) : GpuFramePreparation * result GpuPreparationError unit :=
  match batches with
  | [] => (p, Ok tt)
  | b :: batches =>
      match checked_add 32 (db_first_instance b) (db_instance_count b) with
      | None => (p, Err GpuPreparationError.IndexOverflow)
      | Some end_ =>
          if zlen (gp_instances p) <? end_ then (p, Err GpuPreparationError.InvalidRange)
          else
            prepare_commands (with_commands p (gp_commands p ++
              [mkIndirectDrawCommand (db_mesh_id b) (db_material_id b) (db_first_instance b) (db_instance_count b)])) batches
      end
  end.

Definition preparation_prepare (A : alloc) (p : GpuFramePreparation) (manifest : CpuRenderManifest) :
    GpuFramePreparation * result GpuPreparationError unit :=
  let p := mkPreparation [] [] (gp_max_instances p) (gp_max_commands p) (gp_capacity p) in
  if (gp_max_instances p <? zlen (cm_instances manifest)) || (gp_max_commands p <? zlen (cm_batches manifest))
  then (p, Err GpuPreparationError.CapacityExceeded)
  else
    let grow := gp_capacity p <? zlen (cm_instances manifest) in
    if grow && negb (A 0%nat) then (p, Err GpuPreparationError.AllocationFailed)
    else
      let capacity := if grow then Z.max (2 * gp_capacity p) (zlen (cm_instances manifest)) else gp_capacity p in
      prepare_commands (mkPreparation (cm_instances manifest) [] (gp_max_instances p) (gp_max_commands p) capacity) (cm_batches manifest).

Fixpoint validate_commands (instances : Z) (commands : list IndirectDrawCommand) : result GpuPreparationError unit :=
  match commands with
  | [] => Ok tt
  | c :: commands =>
      let? end_ := ok_or GpuPreparationError.IndexOverflow (checked_add 32 (ic_first_instance c) (ic_instance_count c)) in
      if instances <? end_ then Err GpuPreparationError.InvalidRange else validate_commands instances commands
  end.

Definition preparation_validate (p : GpuFramePreparation) : result GpuPreparationError unit :=
  validate_commands (zlen (gp_instances p)) (gp_commands p).

(** The five words of [VulkanIndexedIndirectCommand]. *)
Definition command_words (mesh : IndexedGeometry) (c : IndirectDrawCommand) : list Z :=
  [ig_index_count mesh; ic_instance_count c; ig_first_index mesh; wrap 32 (ig_vertex_offset mesh); ic_first_instance c].

(** The encoding loop; [output] is returned as far as it was written. *)
Fixpoint encode_commands (geometry : list IndexedGeometry) (output : list Z) (index : Z) (commands : list IndirectDrawCommand) :
    option (list Z * result GpuPreparationError unit) :=
  match commands with
  | [] => Some (output, Ok tt)
  | c :: commands =>
      match find (fun entry => ig_mesh_id entry =? ic_mesh_id c) geometry with
      | None => Some (output, Err GpuPreparationError.MissingGeometry)
      | Some mesh =>
          if ig_index_count mesh =? 0 then Some (output, Err GpuPreparationError.InvalidGeometry)
          else
            output ← write_words output (index * VULKAN_INDEXED_INDIRECT_COMMAND_SIZE) (command_words mesh c);
            encode_commands geometry output (index + 1) commands
      end
  end.

Definition encode_indexed_commands (p : GpuFramePreparation) (geometry : list IndexedGeometry) (output : list Z) :
    option (list Z * result GpuPreparationError Z) :=
  match preparation_validate p with
  | Err e => Some (output, Err e)
  | Ok _ =>
      match checked_mul 64 (zlen (gp_commands p)) VULKAN_INDEXED_INDIRECT_COMMAND_SIZE with
      | None => Some (output, Err GpuPreparationError.IndexOverflow)
      | Some required =>
          if zlen output <? required then Some (output, Err GpuPreparationError.OutputTooSmall)
          else
            '(output, r) ← encode_commands geometry output 0 (gp_commands p);
            Some (output, let? _ := r in Ok required)
      end
  end.

(** The words of [GpuInstanceRecord]. *)
Definition record_words (i : RenderInstance) : list Z :=
  ri_transform i ++ ri_bounds i ++ [e_index (ri_entity i); e_generation (ri_entity i); ri_mesh_id i; ri_material_id i].

Fixpoint encode_records (output : list Z) (index : Z) (instances : list RenderInstance) : option (list Z) :=
  match instances with
  | [] => Some output
  | i :: instances =>
      output ← write_words output (index * GPU_INSTANCE_RECORD_SIZE) (record_words i);
      encode_records output (index + 1) instances
  end.

Definition encode_instance_records (p : GpuFramePreparation) (output : list Z) : option (list Z * result GpuPreparationError Z) :=
  match checked_mul 64 (zlen (gp_instances p)) GPU_INSTANCE_RECORD_SIZE with
  | None => Some (output, Err GpuPreparationError.IndexOverflow)
  | Some required =>
      if zlen output <? required then Some (output, Err GpuPreparationError.OutputTooSmall)
      else output ← encode_records output 0 (gp_instances p); Some (output, Ok required)
  end.

Record GpuFrameCommandPlan := mkCommandPlan {
  fp_instance_count : Z;
  fp_draw_count : Z;
  fp_instance_upload_bytes : Z;
  fp_indirect_upload_bytes : Z;
  fp_cull_workgroups : Z
}.

(** [u32::try_from]. *)
Definition to_u32 (n : Z) : option Z := if n <=? U32_MAX then Some n else None.

Definition command_plan (p : GpuFramePreparation) (workgroup_size : Z) : result GpuPreparationError GpuFrameCommandPlan :=
  if workgroup_size =? 0 then Err GpuPreparationError.InvalidWorkgroupSize
  else
    let? _ := preparation_validate p in
    let? instance_count := ok_or GpuPreparationError.IndexOverflow (to_u32 (zlen (gp_instances p))) in
    let? draw_count := ok_or GpuPreparationError.IndexOverflow (to_u32 (zlen (gp_commands p))) in
    let? instance_upload_bytes := ok_or GpuPreparationError.IndexOverflow (checked_mul 64 (zlen (gp_instances p)) GPU_INSTANCE_RECORD_SIZE) in
    let? indirect_upload_bytes := ok_or GpuPreparationError.IndexOverflow (checked_mul 64 (zlen (gp_commands p)) VULKAN_INDEXED_INDIRECT_COMMAND_SIZE) in
    let? padded := ok_or GpuPreparationError.IndexOverflow (checked_add 32 instance_count (workgroup_size - 1)) in
    Ok (mkCommandPlan instance_count draw_count instance_upload_bytes indirect_upload_bytes (padded / workgroup_size)).

(** ** [GpuFrameUpload] *)
Module GpuUploadError.
Inductive GpuUploadError := Preparation (e : GpuPreparationError) | AllocationFailed.
End GpuUploadError.
Abbreviation GpuUploadError := GpuUploadError.GpuUploadError.

(** The caller's two buffers, and the plan. *)
Definition try_encode_into (A : alloc) (p : GpuFramePreparation) (geometry : list IndexedGeometry) (workgroup_size : Z)
    (instances indirect_commands : list Z) : option (list Z * list Z * result GpuUploadError GpuFrameCommandPlan) :=
  match command_plan p workgroup_size with
  | Err e => Some (instances, indirect_commands, Err (GpuUploadError.Preparation e))
  | Ok plan =>
      if negb (A 0%nat) || negb (A 1%nat) then Some (instances, indirect_commands, Err GpuUploadError.AllocationFailed)
      else
        let instances := resize (fp_instance_upload_bytes plan) 0 instances in
        let indirect_commands := resize (fp_indirect_upload_bytes plan) 0 indirect_commands in
        '(instances, r) ← encode_instance_records p instances;
        match r with
        | Err e => Some (instances, indirect_commands, Err (GpuUploadError.Preparation e))
        | Ok _ =>
            '(indirect_commands, r) ← encode_indexed_commands p geometry indirect_commands;
            Some (instances, indirect_commands,
              match r with Err e => Err (GpuUploadError.Preparation e) | Ok _ => Ok plan end)
        end
  end.

Record GpuFrameUpload := mkUpload { gu_plan : GpuFrameCommandPlan; gu_instances : list Z; gu_indirect_commands : list Z }.

Definition upload_try_build (A : alloc) (p : GpuFramePreparation) (geometry : list IndexedGeometry) (workgroup_size : Z) :
    option (result GpuUploadError GpuFrameUpload) :=
  '(instances, indirect_commands, r) ← try_encode_into A p geometry workgroup_size [] [];
  Some (let? plan := r in Ok (mkUpload plan instances indirect_commands)).

(** ** [HeadlessRenderBackend] *)
Module RenderSubmitError.
Inductive RenderSubmitError := InvalidPreparation | DeviceLost | Unsupported | OutOfDate.
End RenderSubmitError.
Abbreviation RenderSubmitError := RenderSubmitError.RenderSubmitError.

Record RenderSubmissionStats := mkSubmissionStats { rs_submitted_frames : Z; rs_submitted_instances : Z; rs_submitted_commands : Z }.
Definition submission_stats_default := mkSubmissionStats 0 0 0.

Definition headless_submit (stats : RenderSubmissionStats) (p : GpuFramePreparation) :
    RenderSubmissionStats * result RenderSubmitError RenderSubmissionStats :=
  match preparation_validate p with
  | Err _ => (stats, Err RenderSubmitError.InvalidPreparation)
  | Ok _ =>
      let stats := mkSubmissionStats (saturating_add 64 (rs_submitted_frames stats) 1)
        (saturating_add 64 (rs_submitted_instances stats) (zlen (gp_instances p)))
        (saturating_add 64 (rs_submitted_commands stats) (zlen (gp_commands p))) in
      (stats, Ok stats)
  end.

(** ** [world_upload.rs] *)
Record WorldDrawCommand := mkWorldDrawCommand {
  wd_vertex_count : Z;
  wd_instance_count : Z;
  wd_first_vertex : Z;
  wd_first_instance : Z
}.

Record WorldUploadStats := mkWorldUploadStats { wu_transfers : Z; wu_bytes : Z }.
Record UploadState := mkUploadState { us_dirty : bool; us_stats : WorldUploadStats }.
Definition upload_state_default := mkUploadState false (mkWorldUploadStats 0 0).

Definition upload_invalidate (s : UploadState) : UploadState := mkUploadState true (us_stats s).
Definition upload_pending (s : UploadState) : bool := us_dirty s.
Definition upload_submitted (s : UploadState) (bytes : Z) : UploadState :=
  if us_dirty s then
    mkUploadState false (mkWorldUploadStats (saturating_add 64 (wu_transfers (us_stats s)) 1) (saturating_add 64 (wu_bytes (us_stats s)) bytes))
  else s.

(** [f32::is_finite] on a bit pattern: the exponent is not all ones. *)
Definition is_finite (v : Z) : bool := negb (Z.land (Z.shiftr v 23) 255 =? 255).

Definition valid_draw (instances : Z) (d : WorldDrawCommand) : bool :=
  negb (wd_vertex_count d =? 0) && negb (wd_instance_count d =? 0) &&
  match checked_add 32 (wd_first_vertex d) (wd_vertex_count d) with Some end_ => end_ <=? 36 | None => false end &&
  match checked_add 32 (wd_first_instance d) (wd_instance_count d) with Some end_ => end_ <=? instances | None => false end.

Definition valid_world_packet (bytes : list Z) (capacity : Z) (camera : list Z) (draws : list WorldDrawCommand) : bool :=
  if (zlen bytes =? 0) || (capacity <? zlen bytes) || negb (zlen bytes mod GPU_INSTANCE_RECORD_SIZE =? 0) ||
     negb (forallb is_finite camera) || (zlen draws =? 0) then false
  else forallb (valid_draw (zlen bytes / GPU_INSTANCE_RECORD_SIZE)) draws.

(** ** Writing words *)
Definition words_bytes (words : list Z) : list Z := flat_map (to_le_bytes 4) words.

Lemma zlen_words_bytes ws : zlen (words_bytes ws) = 4 * zlen ws.
Proof.
  induction ws as [|w ws IH]; [done|]. cbn [words_bytes flat_map]. change (flat_map _ ws) with (words_bytes ws). zsimp. rewrite IH.
  unfold zlen at 1. rewrite length_to_le. lia.
Qed.

(** Splices [bytes] into [output] at [start]. *)
Definition splice (output : list Z) (start : Z) (bytes : list Z) : list Z :=
  take (Z.to_nat start) output ++ bytes ++ drop (Z.to_nat (start + zlen bytes)) output.

Lemma zlen_splice output start bytes : 0 <= start -> start + zlen bytes <= zlen output -> zlen (splice output start bytes) = zlen output.
Proof. intros H0 H1. unfold splice, zlen in *. rewrite !length_app, length_take, length_drop. lia. Qed.

Lemma splice_nil output start : splice output start [] = output.
Proof. unfold splice. zlen_nil_simp. rewrite Z.add_0_r. apply take_drop. Qed.

Lemma splice_splice output start a b : 0 <= start -> start + zlen a + zlen b <= zlen output ->
  splice (splice output start a) (start + zlen a) b = splice output start (a ++ b).
Proof.
  intros H0 H1. unfold splice. rewrite zlen_app. unfold zlen in *.
  assert (length (take (Z.to_nat start) output) = Z.to_nat start) as Ht by (rewrite length_take; lia).
  rewrite (assoc_L (++) (take _ output) a). rewrite take_app_length' by (rewrite length_app; lia).
  rewrite drop_app_ge by (rewrite length_app; lia). rewrite drop_drop, <- !(assoc_L (++)). do 3 f_equal. rewrite length_app, Ht. f_equal. lia.
Qed.

Lemma splice_all output bytes : zlen bytes = zlen output -> splice output 0 bytes = bytes.
Proof. intros H. unfold splice. cbn [Z.to_nat take app]. rewrite drop_ge, app_nil_r; [done|]. unfold zlen in *. lia. Qed.

Lemma write_words_spec ws : forall output start, 0 <= start -> start + 4 * zlen ws <= zlen output ->
  write_words output start ws = Some (splice output start (words_bytes ws)).
Proof.
  induction ws as [|w ws IH]; intros output start H0 H1; [by rewrite splice_nil|]. cbn [write_words]. zsimp. pose proof (zlen_nonneg ws).
  assert (zlen (to_le_bytes 4 w) = 4) as H4 by (unfold zlen; by rewrite length_to_le).
  unfold copy_into. rewrite H4, (proj2 (Z.leb_le 0 start)), (proj2 (Z.leb_le _ _)) by lia. cbn [andb mbind option_bind].
  rewrite <- H4. change (take _ output ++ _) with (splice output start (to_le_bytes 4 w)).
  rewrite IH by (rewrite ?zlen_splice; lia). f_equal. rewrite splice_splice; [done|lia|]. rewrite zlen_words_bytes. lia.
Qed.

(** Records of [k] words each. *)
Section Records.
Context {R : Type} (words : R -> list Z) (k : Z).

Lemma zlen_records rs : (forall r, r ∈ rs -> zlen (words r) = k) -> zlen (words_bytes (flat_map words rs)) = 4 * k * zlen rs.
Proof.
  rewrite zlen_words_bytes. induction rs as [|r rs IH]; intros Hk; cbn [flat_map]; zlen_nil_simp; [lia|]. zsimp.
  rewrite Hk by (by left). specialize (IH ltac:(intros x Hx; apply Hk; by right)). nia.
Qed.
End Records.

Definition instance_ok (i : RenderInstance) : Prop :=
  length (ri_transform i) = 12%nat /\ length (ri_bounds i) = 4%nat /\
  Forall (is_u 32) (ri_transform i) /\ Forall (is_u 32) (ri_bounds i) /\
  is_u 32 (e_index (ri_entity i)) /\ is_u 32 (e_generation (ri_entity i)) /\
  is_u 32 (ri_mesh_id i) /\ is_u 32 (ri_material_id i).

Lemma record_words_length i : instance_ok i -> zlen (record_words i) = 20.
Proof. intros (H1 & H2 & _). unfold record_words, zlen. rewrite !length_app, H1, H2. done. Qed.

Lemma encode_records_spec rs : forall output index, Forall instance_ok rs -> 0 <= index -> 80 * (index + zlen rs) <= zlen output ->
  encode_records output index rs = Some (splice output (80 * index) (words_bytes (flat_map record_words rs))).
Proof.
  induction rs as [|i rs IH]; intros output index Hok H0 H1; cbn [encode_records]; [by rewrite splice_nil|].
  inversion_clear Hok as [|? ? Hi Hok']. zsimp. pose proof (zlen_nonneg rs). pose proof (record_words_length i Hi) as Hl.
  unfold GPU_INSTANCE_RECORD_SIZE. rewrite write_words_spec by (rewrite ?Hl; lia). cbn [mbind option_bind].
  assert (zlen (words_bytes (record_words i)) = 80) as H80 by (rewrite zlen_words_bytes; lia).
  rewrite IH; [|done|lia|rewrite zlen_splice; lia]. f_equal. replace (80 * (index + 1)) with (index * 80 + zlen (words_bytes (record_words i))) by lia.
  rewrite splice_splice; [|lia|].
  - replace (index * 80) with (80 * index) by lia. f_equal. unfold words_bytes. cbn [flat_map]. by rewrite flat_map_app.
  - rewrite (zlen_records record_words 20), H80 by (intros r Hr; apply record_words_length; rewrite list.Forall_forall in Hok'; by apply Hok'). lia.
Qed.

(** ** The commands *)
Definition mesh_of (geometry : list IndexedGeometry) (c : IndirectDrawCommand) : result GpuPreparationError IndexedGeometry :=
  match find (fun entry => ig_mesh_id entry =? ic_mesh_id c) geometry with
  | None => Err GpuPreparationError.MissingGeometry
  | Some mesh => if ig_index_count mesh =? 0 then Err GpuPreparationError.InvalidGeometry else Ok mesh
  end.

(** The words of all commands, or the error of the first without geometry. *)
Fixpoint all_command_words (geometry : list IndexedGeometry) (commands : list IndirectDrawCommand) : result GpuPreparationError (list Z) :=
  match commands with
  | [] => Ok []
  | c :: commands =>
      let? mesh := mesh_of geometry c in
      let? rest := all_command_words geometry commands in
      Ok (command_words mesh c ++ rest)
  end.

Lemma command_words_length geometry commands ws : all_command_words geometry commands = Ok ws -> zlen ws = 5 * zlen commands.
Proof.
  revert ws. induction commands as [|c l IH]; intros ws; cbn [all_command_words]; [by intros [= <-]|].
  destruct (mesh_of geometry c); [|done]. cbn [result_bind]. destruct (all_command_words geometry l) as [rest|]; [|done]. cbn [result_bind].
  intros [= <-]. zsimp. rewrite (IH rest eq_refl). change (zlen (command_words a c)) with 5. lia.
Qed.

Lemma encode_commands_spec geometry l : forall output index, 0 <= index -> 20 * (index + zlen l) <= zlen output ->
  exists output', zlen output' = zlen output /\
  match all_command_words geometry l with
  | Ok ws => encode_commands geometry output index l = Some (output', Ok tt) /\ output' = splice output (20 * index) (words_bytes ws)
  | Err e => encode_commands geometry output index l = Some (output', Err e)
  end.
Proof.
  induction l as [|c l IH]; intros output index H0 H1; cbn [encode_commands all_command_words]; [exists output; by rewrite splice_nil|].
  zsimp. pose proof (zlen_nonneg l). unfold mesh_of. destruct (find _ geometry) as [mesh|]; [|by exists output].
  destruct (ig_index_count mesh =? 0); [by exists output|]. cbn [result_bind].
  assert (zlen (words_bytes (command_words mesh c)) = 20) as H20 by (by rewrite zlen_words_bytes).
  unfold VULKAN_INDEXED_INDIRECT_COMMAND_SIZE. change (zlen (command_words mesh c)) with 5 in *.
  rewrite write_words_spec by (change (zlen (command_words mesh c)) with 5; lia). cbn [mbind option_bind].
  destruct (IH (splice output (index * 20) (words_bytes (command_words mesh c))) (index + 1)) as (output' & Hlen & Hres); [lia|rewrite zlen_splice; lia|].
  exists output'. rewrite zlen_splice in Hlen by lia. split; [done|]. destruct (all_command_words geometry l) as [rest|] eqn:Hws; [|done].
  cbn [result_bind]. destruct Hres as [Hrun ->]. split; [done|].
  replace (20 * (index + 1)) with (index * 20 + zlen (words_bytes (command_words mesh c))) by lia.
  rewrite splice_splice; [|lia|].
  - replace (index * 20) with (20 * index) by lia. unfold words_bytes. by rewrite flat_map_app.
  - rewrite (zlen_words_bytes rest), (command_words_length _ _ _ Hws). lia.
Qed.

(** ** The plan *)
Definition command_fits (n : Z) (c : IndirectDrawCommand) : Prop := ic_first_instance c + ic_instance_count c <= n.

Lemma validate_spec n l : n <= U32_MAX ->
  match validate_commands n l with
  | Ok _ => Forall (command_fits n) l
  | Err e => (e = GpuPreparationError.InvalidRange \/ e = GpuPreparationError.IndexOverflow) /\ ~ Forall (command_fits n) l
  end.
Proof.
  intros Hn. induction l as [|c l IH]; cbn [validate_commands]; [constructor|].
  destruct (checked_add 32 (ic_first_instance c) (ic_instance_count c)) as [e|] eqn:He; cbn [ok_or result_bind].
  - apply checked_add_Some in He as [-> He]. destruct (Z.ltb_spec n (ic_first_instance c + ic_instance_count c)).
    + split; [by left|]. intros Hf. apply Forall_inv in Hf. unfold command_fits in Hf. lia.
    + destruct (validate_commands n l); [by constructor|]. destruct IH as [? IH]. split; [done|]. intros Hf. by inv Hf.
  - split; [by right|]. intros Hf. apply Forall_inv in Hf. unfold command_fits in Hf. unfold checked_add in He.
    destruct (Z.leb_spec (ic_first_instance c + ic_instance_count c) (umax 32)); [done|]. unfold umax, U32_MAX in *. lia.
Qed.

Lemma validate_snoc n l c : validate_commands n (l ++ [c]) =
  (let? _ := validate_commands n l in validate_commands n [c]).
Proof.
  induction l as [|x l IH]; [done|]. cbn [app validate_commands].
  destruct (checked_add 32 _ _); cbn [ok_or result_bind]; [|done]. by destruct (_ <? _).
Qed.

(** What [prepare] accepts, [validate] accepts. *)
Lemma prepare_commands_validates bs : forall p p', preparation_validate p = Ok tt ->
  prepare_commands p bs = (p', Ok tt) -> preparation_validate p' = Ok tt.
Proof.
  induction bs as [|b bs IH]; intros p p' Hp; cbn [prepare_commands]; [by intros [= <-]|].
  destruct (checked_add 32 _ _) as [e|] eqn:He; [|done]. destruct (_ <? e) eqn:Hlt; [done|].
  apply IH. unfold preparation_validate in *. cbn. rewrite validate_snoc, Hp. cbn. by rewrite He; cbn; rewrite Hlt.
Qed.

Lemma prepare_validates A p m p' : preparation_prepare A p m = (p', Ok tt) -> preparation_validate p' = Ok tt.
Proof.
  unfold preparation_prepare. cbn. destruct (_ || _); [done|]. destruct (_ && _); [done|]. by apply prepare_commands_validates.
Qed.

Definition plan_possible (p : GpuFramePreparation) (workgroup_size : Z) : Prop :=
  workgroup_size <> 0 /\ Forall (command_fits (zlen (gp_instances p))) (gp_commands p) /\ zlen (gp_instances p) + workgroup_size - 1 <= U32_MAX.

Lemma command_plan_spec p wg : 0 <= wg -> zlen (gp_instances p) <= U32_MAX -> zlen (gp_commands p) <= U32_MAX ->
  match command_plan p wg with
  | Ok plan => plan_possible p wg /\
      plan = mkCommandPlan (zlen (gp_instances p)) (zlen (gp_commands p)) (80 * zlen (gp_instances p)) (20 * zlen (gp_commands p))
        ((zlen (gp_instances p) + wg - 1) / wg)
  | Err e => ~ plan_possible p wg /\ (e = GpuPreparationError.InvalidWorkgroupSize <-> wg = 0)
  end.
Proof.
  intros Hwg Hi Hc. unfold command_plan, plan_possible. destruct (Z.eqb_spec wg 0) as [->|Hne]; [naive_solver|].
  pose proof (validate_spec (zlen (gp_instances p)) (gp_commands p) Hi) as Hv. unfold preparation_validate.
  destruct (validate_commands _ _) as [[]|e]; cbn [result_bind]; [|destruct Hv as [[-> | ->] ?]; naive_solver].
  pose proof (zlen_nonneg (gp_instances p)). pose proof (zlen_nonneg (gp_commands p)).
  unfold to_u32. rewrite (proj2 (Z.leb_le _ _) Hi), (proj2 (Z.leb_le _ _) Hc). cbn [ok_or result_bind].
  unfold checked_mul, GPU_INSTANCE_RECORD_SIZE, VULKAN_INDEXED_INDIRECT_COMMAND_SIZE.
  rewrite !(proj2 (Z.leb_le _ _)) by (unfold umax, U32_MAX in *; lia). cbn [ok_or result_bind].
  destruct (checked_add 32 _ _) as [n|] eqn:Hadd; cbn [ok_or result_bind].
  - apply checked_add_Some in Hadd as [-> Hadd]. split; [split; [done|]; split; [done|]; unfold umax, U32_MAX in *; lia|].
    f_equal; [lia|lia|]. f_equal. lia.
  - unfold checked_add in Hadd. destruct (Z.leb_spec (zlen (gp_instances p) + (wg - 1)) (umax 32)); [done|].
    split; [intros (_ & _ & ?); unfold umax, U32_MAX in *; lia|]. split; [done|]. by intros ->.
Qed.

(** Enough workgroups for every instance, and none too many. *)
Lemma workgroups_cover n wg : 0 <= n -> 0 < wg -> n <= ((n + wg - 1) / wg) * wg < n + wg.
Proof. intros Hn Hw. pose proof (Z.div_mod (n + wg - 1) wg). pose proof (Z.mod_pos_bound (n + wg - 1) wg). nia. Qed.

(** ** The upload *)
Record preparation_ok (p : GpuFramePreparation) : Prop := {
  pk_instances : Forall instance_ok (gp_instances p);
  pk_count : zlen (gp_instances p) <= U32_MAX;
  pk_commands : zlen (gp_commands p) <= U32_MAX
}.

(** Encoding a frame never panics.  It refuses a plan that
    is not possible without touching the caller's buffers; otherwise the
    instance buffer is exactly the records, whatever it held before, and the
    command buffer exactly the commands, or the error names the first command
    without drawable geometry.  The plan's sizes are those of the buffers and
    its workgroups cover every instance with none to spare. *)
Lemma try_encode_spec A p geometry wg instances commands : preparation_ok p -> 0 <= wg ->
  exists instances' commands' r, try_encode_into A p geometry wg instances commands = Some (instances', commands', r) /\
  match r with
  | Ok plan =>
      plan_possible p wg /\
      instances' = words_bytes (flat_map record_words (gp_instances p)) /\
      (exists ws, all_command_words geometry (gp_commands p) = Ok ws /\ commands' = words_bytes ws) /\
      fp_instance_count plan = zlen (gp_instances p) /\ fp_draw_count plan = zlen (gp_commands p) /\
      fp_instance_upload_bytes plan = zlen instances' /\ fp_indirect_upload_bytes plan = zlen commands' /\
      zlen (gp_instances p) <= fp_cull_workgroups plan * wg < zlen (gp_instances p) + wg
  | Err (GpuUploadError.Preparation e) =>
      (~ plan_possible p wg /\ instances' = instances /\ commands' = commands) \/
      (plan_possible p wg /\ all_command_words geometry (gp_commands p) = Err e)
  | Err GpuUploadError.AllocationFailed => A 0%nat && A 1%nat = false /\ instances' = instances /\ commands' = commands
  end.
Proof.
  intros [Hi Hn Hc] Hwg. unfold try_encode_into. pose proof (command_plan_spec p wg Hwg Hn Hc) as Hplan.
  destruct (command_plan p wg) as [plan|e] eqn:Hp.
  2: { do 3 eexists. split; [reflexivity|]. cbn. left. split; [apply Hplan|done]. }
  destruct Hplan as [Hpos ->]. cbn [fp_instance_upload_bytes fp_indirect_upload_bytes].
  pose proof (zlen_nonneg (gp_instances p)). pose proof (zlen_nonneg (gp_commands p)).
  destruct (A 0%nat), (A 1%nat); cbn [negb orb andb]; try (do 3 eexists; split; [reflexivity|]; done).
  assert (zlen (resize (80 * zlen (gp_instances p)) 0 instances) = 80 * zlen (gp_instances p)) as Hl1 by (apply zlen_resize; lia).
  assert (zlen (resize (20 * zlen (gp_commands p)) 0 commands) = 20 * zlen (gp_commands p)) as Hl2 by (apply zlen_resize; lia).
  assert (zlen (words_bytes (flat_map record_words (gp_instances p))) = 80 * zlen (gp_instances p)) as Hrec
    by (apply (zlen_records record_words 20); intros r Hr; apply record_words_length; rewrite list.Forall_forall in Hi; by apply Hi).
  unfold encode_instance_records, checked_mul, GPU_INSTANCE_RECORD_SIZE. rewrite (proj2 (Z.leb_le _ _)) by (unfold umax, U32_MAX in *; lia).
  rewrite Hl1. destruct (Z.ltb_spec (80 * zlen (gp_instances p)) (zlen (gp_instances p) * 80)); [lia|].
  rewrite encode_records_spec by (try done; lia). cbn [mbind option_bind]. rewrite Z.mul_0_r, splice_all by lia.
  unfold encode_indexed_commands, preparation_validate. pose proof (validate_spec (zlen (gp_instances p)) (gp_commands p) Hn) as Hv.
  destruct (validate_commands _ _) as [[]|e]; [|by destruct Hv as [_ []]; apply Hpos].
  unfold checked_mul, VULKAN_INDEXED_INDIRECT_COMMAND_SIZE. rewrite (proj2 (Z.leb_le _ _)) by (unfold umax, U32_MAX in *; lia).
  rewrite Hl2. destruct (Z.ltb_spec (20 * zlen (gp_commands p)) (zlen (gp_commands p) * 20)); [lia|].
  destruct (encode_commands_spec geometry (gp_commands p) (resize (20 * zlen (gp_commands p)) 0 commands) 0) as (output' & Hlen & Hres); [lia|lia|].
  destruct (all_command_words geometry (gp_commands p)) as [ws|e] eqn:Hws.
  - destruct Hres as [-> ->]. cbn [mbind option_bind result_bind]. do 3 eexists. split; [reflexivity|].
    pose proof (command_words_length _ _ _ Hws) as Hwl. assert (zlen (words_bytes ws) = 20 * zlen (gp_commands p)) as Hwb by (rewrite zlen_words_bytes; lia).
    rewrite Z.mul_0_r, splice_all by lia. cbn. split; [done|]. split; [done|]. split; [by exists ws|].
    do 2 (split; [done|]). split; [lia|]. split; [lia|]. destruct Hpos as (Hne & _ & _). apply workgroups_cover; lia.
  - rewrite Hres. cbn [mbind option_bind result_bind]. do 3 eexists. split; [reflexivity|]. cbn. by right.
Qed.

(** ** The layout of the buffers, as a reader of the bytes sees it *)
Definition byte_at (bytes : list Z) (o : Z) : Z := default 0 (bytes !z o).

(** The little-endian integers at a byte offset. *)
Definition u32_at (bytes : list Z) (o : Z) : Z :=
  byte_at bytes o + 256 * byte_at bytes (o + 1) + 65536 * byte_at bytes (o + 2) + 16777216 * byte_at bytes (o + 3).
Definition i32_at (bytes : list Z) (o : Z) : Z :=
  if u32_at bytes o <? 2 ^ 31 then u32_at bytes o else u32_at bytes o - 2 ^ 32.

(** [GpuInstanceRecord] at byte [o]: twelve words of transform, four of bounds,
    then the entity's index and generation, the mesh and the material. *)
Record instance_at (bytes : list Z) (o : Z) (i : RenderInstance) : Prop := {
  ia_transform j : 0 <= j < 12 -> ri_transform i !z j = Some (u32_at bytes (o + 4 * j));
  ia_bounds j : 0 <= j < 4 -> ri_bounds i !z j = Some (u32_at bytes (o + 48 + 4 * j));
  ia_index : u32_at bytes (o + 64) = e_index (ri_entity i);
  ia_generation : u32_at bytes (o + 68) = e_generation (ri_entity i);
  ia_mesh : u32_at bytes (o + 72) = ri_mesh_id i;
  ia_material : u32_at bytes (o + 76) = ri_material_id i
}.

(** [VulkanIndexedIndirectCommand] at byte [o], for a batch drawn with [mesh]:
    the index count, the instance count, the first index, the signed vertex
    offset and the first instance. *)
Record command_at (bytes : list Z) (o : Z) (mesh : IndexedGeometry) (b : DrawBatch) : Prop := {
  ca_index_count : u32_at bytes o = ig_index_count mesh;
  ca_instance_count : u32_at bytes (o + 4) = db_instance_count b;
  ca_first_index : u32_at bytes (o + 8) = ig_first_index mesh;
  ca_vertex_offset : i32_at bytes (o + 12) = ig_vertex_offset mesh;
  ca_first_instance : u32_at bytes (o + 16) = db_first_instance b
}.

Lemma byte_at_app_r k l o : zlen k <= o -> byte_at (k ++ l) o = byte_at l (o - zlen k).
Proof. intros H. unfold byte_at. by rewrite zget_app_r. Qed.

Lemma u32_at_words ws : forall n, Forall (is_u 32) ws -> 0 <= n < zlen ws ->
  ws !z n = Some (u32_at (words_bytes ws) (4 * n)).
Proof.
  induction ws as [|w ws IH]; intros n Hws Hn; [zlen_nil_simp; lia|].
  apply list.Forall_cons in Hws as [Hw Hws]. zsimp. pose proof (zlen_nonneg ws).
  unfold words_bytes. cbn [flat_map]. change (flat_map (to_le_bytes 4) ws) with (words_bytes ws).
  destruct (Z.eq_dec n 0) as [->|Hne].
  - pose proof (from_to_le 4 w ltac:(exact Hw)) as Hd. revert Hd. cbn [to_le_bytes from_le_bytes app].
    intros Hd. unfold u32_at, byte_at, zget. simpl. f_equal. lia.
  - assert (zlen (to_le_bytes 4 w) = 4) as H4 by (unfold zlen; by rewrite length_to_le).
    change (w :: ws) with ([w] ++ ws). rewrite zget_app_r by (change (zlen [w]) with 1; lia).
    change (zlen [w]) with 1. rewrite (IH (n - 1) Hws) by lia. f_equal. unfold u32_at.
    rewrite !byte_at_app_r by lia. rewrite H4. repeat f_equal; lia.
Qed.

(** The words of the [i]-th of equally long records. *)
Lemma flat_map_zget {R} (f : R -> list Z) k l : forall i r j, 0 <= k -> (forall x, x ∈ l -> zlen (f x) = k) ->
  l !z i = Some r -> 0 <= j < k -> flat_map f l !z (k * i + j) = f r !z j.
Proof.
  induction l as [|x l IH]; intros i r j Hk Hf Hi Hj; [by apply zget_Some in Hi; zlen_nil_simp; lia|].
  pose proof (zget_Some _ _ _ Hi) as Hb. zsimp. pose proof (Hf x (list_elem_of_here _ _)) as Hx. cbn [flat_map].
  destruct (Z.eq_dec i 0) as [->|Hne].
  - rewrite zget_app_l by lia. unfold zget in Hi. cbn in Hi. injection Hi as ->. f_equal. lia.
  - change (x :: l) with ([x] ++ l) in Hi. rewrite zget_app_r in Hi by (change (zlen [x]) with 1; lia).
    change (zlen [x]) with 1 in Hi. rewrite zget_app_r by nia. rewrite Hx.
    rewrite <- (IH (i - 1) r j Hk (fun y Hy => Hf y (list_elem_of_further _ _ _ Hy)) Hi Hj). f_equal. lia.
Qed.

Lemma record_words_u32 l : Forall instance_ok l -> Forall (is_u 32) (flat_map record_words l).
Proof.
  induction 1 as [|i l (_ & _ & H1 & H2 & H3 & H4 & H5 & H6) _ IH]; cbn [flat_map]; [constructor|].
  apply Forall_app. split; [|done]. unfold record_words. apply Forall_app. split; [done|].
  apply Forall_app. split; [done|]. repeat (apply list.Forall_cons; split; [done|]). by apply list.Forall_nil.
Qed.

(** Encoded records are laid out as said. *)
Lemma records_laid_out l k i : Forall instance_ok l -> l !z k = Some i ->
  instance_at (words_bytes (flat_map record_words l)) (80 * k) i.
Proof.
  intros Hok Hk. pose proof (record_words_u32 l Hok) as Hu.
  assert (forall x, x ∈ l -> zlen (record_words x) = 20) as Hlen.
  { intros x Hx. apply record_words_length. rewrite list.Forall_forall in Hok. by apply Hok. }
  assert (instance_ok i) as (H1 & H2 & _).
  { pose proof (zget_Some _ _ _ Hk). rewrite zget_lookup in Hk by lia.
    rewrite list.Forall_forall in Hok. eapply Hok, list_elem_of_lookup_2, Hk. }
  assert (forall j, 0 <= j < 20 ->
    record_words i !z j = Some (u32_at (words_bytes (flat_map record_words l)) (80 * k + 4 * j))) as Hw.
  { intros j Hj. rewrite <- (flat_map_zget record_words 20 l k i j) by (done || lia).
    pose proof (zget_Some _ _ _ Hk). pose proof (zlen_records record_words 20 l Hlen) as Hz. rewrite zlen_words_bytes in Hz.
    rewrite (u32_at_words _ (20 * k + j)) by (done || lia). do 2 f_equal. lia. }
  assert (zlen (ri_transform i) = 12) as L1 by (unfold zlen; by rewrite H1).
  assert (zlen (ri_bounds i) = 4) as L2 by (unfold zlen; by rewrite H2).
  revert Hw. generalize (words_bytes (flat_map record_words l)). intros bytes Hw. unfold record_words in Hw.
  assert (forall j, 0 <= j < 4 -> [e_index (ri_entity i); e_generation (ri_entity i); ri_mesh_id i; ri_material_id i] !z j =
    Some (u32_at bytes (80 * k + 64 + 4 * j))) as Hlast.
  { intros j Hj. pose proof (Hw (16 + j) ltac:(lia)) as E. rewrite !zget_app_r in E by lia.
    rewrite L1, L2 in E. replace (16 + j - 12 - 4) with j in E by lia. rewrite E. do 2 f_equal. lia. }
  split.
  - intros j Hj. rewrite <- (Hw j) by lia. by rewrite zget_app_l by lia.
  - intros j Hj. pose proof (Hw (12 + j) ltac:(lia)) as E. rewrite zget_app_r, zget_app_l in E by lia.
    rewrite L1 in E. replace (12 + j - 12) with j in E by lia. rewrite E. do 2 f_equal. lia.
  - specialize (Hlast 0 ltac:(lia)). cbn in Hlast. injection Hlast as ->. f_equal. lia.
  - specialize (Hlast 1 ltac:(lia)). cbn in Hlast. injection Hlast as ->. f_equal. lia.
  - specialize (Hlast 2 ltac:(lia)). cbn in Hlast. injection Hlast as ->. f_equal. lia.
  - specialize (Hlast 3 ltac:(lia)). cbn in Hlast. injection Hlast as ->. f_equal. lia.
Qed.

(** ** The pipeline *)
Definition command_of (b : DrawBatch) : IndirectDrawCommand :=
  mkIndirectDrawCommand (db_mesh_id b) (db_material_id b) (db_first_instance b) (db_instance_count b).

Lemma prepare_commands_spec bs : forall p s, 0 <= s -> zlen (gp_instances p) <= U32_MAX -> chained s bs (zlen (gp_instances p)) ->
  prepare_commands p bs = (with_commands p (gp_commands p ++ map command_of bs), Ok tt) /\
  Forall (command_fits (zlen (gp_instances p))) (map command_of bs).
Proof.
  induction bs as [|b bs IH]; intros p s H0 Hn Hc; cbn [prepare_commands map]; [rewrite app_nil_r; by destruct p|].
  destruct Hc as (Hs & Hb & Hc). assert (forall bs s e, chained s bs e -> s <= e) as Hmono.
  { clear. induction bs as [|b bs IH]; intros s e; cbn [chained]; [lia|]. intros (_ & ? & H). apply IH in H. lia. }
  pose proof (Hmono _ _ _ Hc). rewrite checked_add_ok by (unfold umax, U32_MAX in *; lia).
  destruct (Z.ltb_spec (zlen (gp_instances p)) (db_first_instance b + db_instance_count b)); [lia|].
  destruct (IH (with_commands p (gp_commands p ++ [command_of b])) (s + db_instance_count b)) as [Hrun Hfit]; [lia|done|done|].
  change (mkIndirectDrawCommand _ _ _ _) with (command_of b). rewrite Hrun. cbn [with_commands gp_commands gp_instances gp_max_instances gp_max_commands gp_capacity].
  rewrite <- (assoc_L (++)). split; [done|]. constructor; [|exact Hfit]. unfold command_fits. cbn. lia.
Qed.

Lemma chained_count bs : forall s e, chained s bs e -> s + zlen bs <= e.
Proof. induction bs as [|b bs IH]; intros s e; cbn [chained]; zlen_nil_simp; [lia|]. intros (_ & ? & H). apply IH in H. zsimp. lia. Qed.

Definition geometry_ok (g : IndexedGeometry) : Prop :=
  is_u 32 (ig_index_count g) /\ is_u 32 (ig_first_index g) /\ - 2 ^ 31 <= ig_vertex_offset g < 2 ^ 31.

(** Every mesh the scene names can be drawn. *)
Definition drawable (geometry : list IndexedGeometry) (mesh_id : Z) : Prop :=
  exists g, find (fun entry => ig_mesh_id entry =? mesh_id) geometry = Some g /\ ig_index_count g <> 0 /\ geometry_ok g.

Lemma drawable_words geometry bs : forall s e, 0 <= s -> e <= U32_MAX -> chained s bs e -> Forall (fun b => drawable geometry (db_mesh_id b)) bs ->
  exists ws, all_command_words geometry (map command_of bs) = Ok ws /\ Forall (is_u 32) ws.
Proof.
  induction bs as [|b bs IH]; intros s e H0 He Hc Hd; cbn [map all_command_words]; [by exists []|].
  apply list.Forall_cons in Hd as [(g & Hg & Hne & Hu1 & Hu2 & _) Hd']. destruct Hc as (Hs & Hb & Hc). pose proof (chained_count _ _ _ Hc). pose proof (zlen_nonneg bs).
  unfold mesh_of. cbn [ic_mesh_id command_of]. rewrite Hg, (proj2 (Z.eqb_neq _ _) Hne). cbn [result_bind].
  destruct (IH (s + db_instance_count b) e ltac:(lia) He Hc Hd') as (ws & -> & Hws). cbn [result_bind]. eexists. split; [done|].
  unfold command_words. cbn [app command_of ic_instance_count ic_first_instance]. unfold is_u, U32_MAX in *.
  repeat constructor; try lia; try done; by apply wrap_range.
Qed.

Lemma batch_meshes m l b : manifest_describes m l -> b ∈ cm_batches m -> exists i, i ∈ l /\ ri_mesh_id i = db_mesh_id b.
Proof.
  intros (Hp & _ & Hc & Hpairs & _) Hb. assert (batch_pair b ∈ batch_pairs (cm_batches m)) as Hin.
  { apply (batch_pairs_in _ _ _ _ Hc). apply list_elem_of_In, in_map, list_elem_of_In, Hb. }
  rewrite Hpairs in Hin. apply list_elem_of_In, in_map_iff in Hin as (i & Hi & Hin). exists i. apply list_elem_of_In in Hin. rewrite Hp in Hin.
  split; [done|]. unfold pair_of, batch_pair in Hi. by injection Hi.
Qed.

Lemma all_words_get geometry cs : forall ws k c, all_command_words geometry cs = Ok ws -> cs !z k = Some c ->
  exists mesh, mesh_of geometry c = Ok mesh /\
  forall j, 0 <= j < 5 -> ws !z (5 * k + j) = command_words mesh c !z j.
Proof.
  induction cs as [|x cs IH]; intros ws k c; cbn [all_command_words]; [intros _ Hk; apply zget_Some in Hk; zlen_nil_simp; lia|].
  destruct (mesh_of geometry x) as [m|] eqn:Hm; [|done]. cbn [result_bind].
  destruct (all_command_words geometry cs) as [rest|]; [|done]. cbn [result_bind].
  intros E Hk. assert (ws = command_words m x ++ rest) as -> by congruence. clear E.
  pose proof (zget_Some _ _ _ Hk) as Hb. zsimp. assert (zlen (command_words m x) = 5) as H5 by done.
  destruct (Z.eq_dec k 0) as [->|Hne].
  - unfold zget in Hk. cbn in Hk. injection Hk as ->. exists m. split; [done|]. intros j Hj.
    rewrite zget_app_l by lia. done.
  - change (x :: cs) with ([x] ++ cs) in Hk. rewrite zget_app_r in Hk by (change (zlen [x]) with 1; lia).
    destruct (IH rest (k - 1) c eq_refl Hk) as (mesh & Hmesh & H). exists mesh. split; [done|]. intros j Hj.
    rewrite zget_app_r, H5 by lia. rewrite <- H by done. f_equal. lia.
Qed.

(** Encoded commands are laid out as said. *)
Lemma commands_laid_out geometry bs ws k b :
  all_command_words geometry (map command_of bs) = Ok ws -> Forall (is_u 32) ws ->
  Forall (fun b => drawable geometry (db_mesh_id b)) bs -> bs !z k = Some b ->
  exists mesh, find (fun entry => ig_mesh_id entry =? db_mesh_id b) geometry = Some mesh /\
  command_at (words_bytes ws) (20 * k) mesh b.
Proof.
  intros Hws Hu Hd Hk. pose proof (zget_Some _ _ _ Hk) as Hb.
  assert (map command_of bs !z k = Some (command_of b)) as Hk'.
  { rewrite zget_lookup in Hk by lia. rewrite zget_lookup by lia. by rewrite list_lookup_fmap, Hk. }
  destruct (all_words_get _ _ _ _ _ Hws Hk') as (mesh & Hm & Hget).
  rewrite zget_lookup in Hk by lia. rewrite list.Forall_forall in Hd.
  destruct (Hd b) as (g & Hg & _ & _ & _ & Hoff); [by eapply list_elem_of_lookup_2|].
  unfold mesh_of in Hm. cbn [ic_mesh_id command_of] in Hm. rewrite Hg in Hm.
  destruct (ig_index_count g =? 0); [done|]. injection Hm as <-. exists g. split; [done|].
  pose proof (command_words_length _ _ _ Hws) as Hl. assert (zlen (map command_of bs) = zlen bs) as Hlm by (unfold zlen; by rewrite length_map).
  assert (forall j, 0 <= j < 5 -> command_words g (command_of b) !z j = Some (u32_at (words_bytes ws) (20 * k + 4 * j))) as Hw.
  { intros j Hj. rewrite <- (Hget j Hj), (u32_at_words ws (5 * k + j)) by (done || lia). do 2 f_equal. lia. }
  pose proof (Hw 0 ltac:(lia)) as E0. pose proof (Hw 1 ltac:(lia)) as E1. pose proof (Hw 2 ltac:(lia)) as E2.
  pose proof (Hw 3 ltac:(lia)) as E3. pose proof (Hw 4 ltac:(lia)) as E4. clear Hw Hget.
  unfold zget in E0, E1, E2, E3, E4. simpl in E0, E1, E2, E3, E4. rewrite Z.add_0_r in E0.
  injection E0 as E0. injection E1 as E1. injection E2 as E2. injection E3 as E3. injection E4 as E4.
  split; [done..| |done]. change (20 * k + 4 * 3) with (20 * k + 12) in E3. unfold i32_at. rewrite <- E3. unfold wrap.
  destruct (Z.ltb_spec (ig_vertex_offset g mod 2 ^ 32) (2 ^ 31)) as [H|H].
  - destruct (Z.lt_ge_cases (ig_vertex_offset g) 0); [|by rewrite Z.mod_small by lia].
    rewrite <- (Z.mod_add _ 1), Z.mod_small in H by lia. lia.
  - destruct (Z.lt_ge_cases (ig_vertex_offset g) 0); [|rewrite Z.mod_small in H by lia; lia].
    rewrite <- (Z.mod_add _ 1), Z.mod_small by lia. lia.
Qed.

(** C35: from the manifest to the GPU.  Under these conditions: the manifest
    describes a scene of instances with fields of their types; the preparation
    has room for its instances and batches; every mesh of the scene has
    drawable geometry; the workgroup size is positive and rounding the
    instances up to it stays below [2^32]; and both buffers can be reserved.
    Then preparing and uploading succeed, and the bytes read back are the
    frame: at byte [80 k] of the instance buffer every field of the [k]-th
    instance stands at its offset in [GpuInstanceRecord] ([instance_at]), at
    byte [20 k] of the command buffer every field of the [k]-th batch and of
    the first geometry entry of its mesh at its offset in Vulkan's indirect
    command ([command_at]); the buffers hold nothing more, and the plan's
    counts, sizes and workgroups are those of the frame, enough workgroups for
    every instance and none too many. *)
Theorem frame_upload_roundtrip A A' m l p geometry wg :
  manifest_describes m l -> Forall instance_ok l -> Forall (fun i => drawable geometry (ri_mesh_id i)) l ->
  zlen l <= gp_max_instances p -> gp_max_instances p <= gp_capacity p -> zlen (cm_batches m) <= gp_max_commands p ->
  0 < wg -> zlen l + wg - 1 <= U32_MAX -> A' 0%nat = true -> A' 1%nat = true ->
  exists p' upload, preparation_prepare A p m = (p', Ok tt) /\ upload_try_build A' p' geometry wg = Some (Ok upload) /\
  gp_instances p' = cm_instances m /\ gp_commands p' = map command_of (cm_batches m) /\
  (forall k i, cm_instances m !z k = Some i -> instance_at (gu_instances upload) (80 * k) i) /\
  (forall k b, cm_batches m !z k = Some b ->
     exists mesh, find (fun entry => ig_mesh_id entry =? db_mesh_id b) geometry = Some mesh /\
     command_at (gu_indirect_commands upload) (20 * k) mesh b) /\
  zlen (gu_instances upload) = 80 * zlen l /\ zlen (gu_indirect_commands upload) = 20 * zlen (cm_batches m) /\
  fp_instance_count (gu_plan upload) = zlen l /\ fp_draw_count (gu_plan upload) = zlen (cm_batches m) /\
  fp_instance_upload_bytes (gu_plan upload) = zlen (gu_instances upload) /\
  fp_indirect_upload_bytes (gu_plan upload) = zlen (gu_indirect_commands upload) /\
  zlen l <= fp_cull_workgroups (gu_plan upload) * wg < zlen l + wg.
Proof.
  intros Hd Hok Hdraw Hmax Hcap Hcmd Hwg Hu HA0 HA1. pose proof Hd as (Hp & _ & Hc & _ & _).
  assert (zlen (cm_instances m) = zlen l) as Hl by (unfold zlen; by rewrite Hp). pose proof (chained_count _ _ _ Hc). pose proof (zlen_nonneg l).
  assert (Forall instance_ok (cm_instances m)) as Hok' by (by rewrite Hp).
  unfold preparation_prepare. cbn [gp_max_instances gp_max_commands gp_capacity]. rewrite Hl.
  rewrite (proj2 (Z.ltb_ge _ _) Hmax), (proj2 (Z.ltb_ge _ _) Hcmd). cbn [orb]. rewrite (proj2 (Z.ltb_ge (gp_capacity p) (zlen l))) by lia. cbn [andb].
  set (p0 := mkPreparation (cm_instances m) [] _ _ _).
  destruct (prepare_commands_spec (cm_batches m) p0 0) as [Hrun Hfit]; [done|cbn; lia|cbn; by rewrite Hl|]. rewrite Hrun. cbn [gp_commands p0 app].
  set (p' := with_commands p0 (map command_of (cm_batches m))).
  assert (Forall (fun b => drawable geometry (db_mesh_id b)) (cm_batches m)) as Hdb.
  { apply list.Forall_forall. intros b Hb. destruct (batch_meshes m l b Hd Hb) as (i & Hi & <-). rewrite list.Forall_forall in Hdraw. by apply Hdraw. }
  destruct (drawable_words geometry (cm_batches m) 0 (zlen l)) as (ws & Hws & Hwu); [done|lia|done|done|].
  assert (zlen (gp_commands p') = zlen (cm_batches m)) as Hzc by (cbn; unfold zlen; by rewrite length_map).
  destruct (try_encode_spec A' p' geometry wg [] []) as (b1 & b2 & r & He & Hr); [split; [done|cbn; lia|rewrite Hzc; lia]|lia|].
  assert (plan_possible p' wg) as Hpos by (split; [lia|]; split; [done|cbn; lia]).
  destruct r as [plan|[e|]].
  - destruct Hr as (_ & -> & (ws' & Hws' & ->) & N1 & N2 & H1 & H2 & H3). change (gp_commands p') with (map command_of (cm_batches m)) in Hws'. rewrite Hws in Hws'. injection Hws' as <-.
    exists p', (mkUpload plan (words_bytes (flat_map record_words (gp_instances p'))) (words_bytes ws)).
    split; [done|]. split; [unfold upload_try_build; by rewrite He|]. do 2 (split; [done|]).
    cbn [gu_instances gu_indirect_commands gu_plan]. change (gp_instances p') with (cm_instances m) in *.
    split; [intros k i Hk; by apply records_laid_out|]. split; [intros k b Hk; by eapply commands_laid_out|].
    pose proof (zlen_records record_words 20 (cm_instances m) ltac:(intros i Hi; apply record_words_length; rewrite list.Forall_forall in Hok'; by apply Hok')).
    pose proof (command_words_length _ _ _ Hws) as Hwl. assert (zlen (map command_of (cm_batches m)) = zlen (cm_batches m)) as Hlm by (unfold zlen; by rewrite length_map).
    rewrite Hl in *. rewrite Hzc in *. rewrite (zlen_words_bytes ws), Hwl in *. repeat (split; [lia|]). lia.
  - destruct Hr as [(? & _)|(_ & Hbad)]; [done|]. cbn in Hbad. congruence.
  - destruct Hr as [Hbad _]. by rewrite HA0, HA1 in Hbad.
Qed.

Definition demo_geometry := [mkIndexedGeometry 1 36 0 0; mkIndexedGeometry 2 6 36 (-24)].

Lemma frame_upload_roundtrip_witness :
  exists m p' upload, manifest_build by_key alloc_all (mkManifest [] [] 4 3 4) demo_scene = Some (m, Ok tt) /\
  preparation_prepare alloc_all (mkPreparation [] [] 8 8 8) m = (p', Ok tt) /\
  upload_try_build alloc_all p' demo_geometry 64 = Some (Ok upload) /\ fp_cull_workgroups (gu_plan upload) = 1 /\
  u32_at (gu_indirect_commands upload) 40 = 6 /\ i32_at (gu_indirect_commands upload) 52 = -24 /\
  u32_at (gu_instances upload) 64 = 3.
Proof.
  destruct (manifest_build by_key alloc_all (mkManifest [] [] 4 3 4) demo_scene) as [[m r]|] eqn:Hb; [|vm_compute in Hb; discriminate Hb].
  assert (manifest_describes m (rw_instances demo_scene)) as Hd.
  { vm_compute in Hb. injection Hb as <- _. split; [apply (by_key_permutes (rw_instances demo_scene))|].
    split; [apply (by_key_sorts (rw_instances demo_scene))|]. split; [repeat split|]. split; [reflexivity|].
    repeat constructor; unfold pair_lt; simpl; lia. }
  destruct (frame_upload_roundtrip alloc_all alloc_all m (rw_instances demo_scene) (mkPreparation [] [] 8 8 8) demo_geometry 64 Hd)
    as (p' & upload & Hp & Hu & _).
  - repeat constructor; unfold is_u; simpl; lia.
  - repeat constructor; unfold drawable; (eexists; split; [reflexivity|]); unfold geometry_ok, is_u; simpl; lia.
  - unfold zlen. simpl. lia.
  - simpl. lia.
  - vm_compute in Hb. injection Hb as <- _. vm_compute. discriminate.
  - lia.
  - vm_compute. discriminate.
  - reflexivity.
  - reflexivity.
  - exists m, p', upload. split; [vm_compute in Hb; injection Hb as <- <-; reflexivity|]. split; [exact Hp|]. split; [exact Hu|].
    vm_compute in Hb. injection Hb as <- _. vm_compute in Hp. injection Hp as <-. vm_compute in Hu. injection Hu as <-. repeat split; reflexivity.
Defined.

(** A command without geometry is found only after the buffers were
    rewritten. *)
Example missing_geometry_overwrites :
  let p := mkPreparation [demo_instance 0 9 1] [mkIndirectDrawCommand 9 1 0 1] 1 1 1 in
  match try_encode_into alloc_all p demo_geometry 64 [1; 2; 3] [4; 5; 6] with
  | Some (instances, commands, r) =>
      r = Err (GpuUploadError.Preparation GpuPreparationError.MissingGeometry) /\ zlen instances = 80 /\ zlen commands = 20
  | None => False
  end.
Proof. vm_compute. repeat split. Qed.

(** ** The packets of the native presenters *)

(** a packet let through stays inside its buffers: every draw reads vertices
    below 36 and instances that the bytes hold. *)
Theorem world_packet_bounds bytes capacity camera draws :
  valid_world_packet bytes capacity camera draws = true ->
  zlen bytes <= capacity /\ Forall (fun v => is_finite v = true) camera /\ draws <> [] /\
  exists n, zlen bytes = 80 * n /\ 0 < n /\
  Forall (fun d => wd_vertex_count d <> 0 /\ wd_instance_count d <> 0 /\ wd_first_vertex d + wd_vertex_count d <= 36 /\
    wd_first_instance d + wd_instance_count d <= n) draws.
Proof.
  unfold valid_world_packet. destruct (_ || _) eqn:Hg; [done|]. intros Hv. zbool. split; [done|].
  split; [apply list.Forall_forall; intros v Hin; rewrite forallb_forall in H1; apply H1; by apply list_elem_of_In|].
  split; [by intros ->|]. unfold GPU_INSTANCE_RECORD_SIZE in *. pose proof (Z.div_mod (zlen bytes) 80). pose proof (zlen_nonneg bytes).
  exists (zlen bytes / 80). split; [lia|]. split; [lia|]. apply list.Forall_forall. intros d Hd. rewrite forallb_forall in Hv.
  specialize (Hv d ltac:(by apply list_elem_of_In)). unfold valid_draw in Hv.
  destruct (checked_add 32 (wd_first_vertex d) _) as [e|] eqn:He; [|by rewrite andb_false_r in Hv].
  destruct (checked_add 32 (wd_first_instance d) _) as [f|] eqn:Hf; [|by rewrite andb_false_r in Hv].
  apply checked_add_Some in He as [-> _], Hf as [-> _]. zbool. lia.
Qed.

(** Transfers count successful submissions of a changed scene, once each. *)
Theorem upload_counts_changes bytes (n : nat) s : (0 < n)%nat -> upload_pending s = true -> wu_transfers (us_stats s) < U64_MAX ->
  us_stats (Nat.iter n (fun s => upload_submitted s bytes) s) =
    mkWorldUploadStats (wu_transfers (us_stats s) + 1) (Z.min (wu_bytes (us_stats s) + bytes) U64_MAX).
Proof.
  intros Hn Hp Hm. destruct n as [|n]; [lia|]. assert (Nat.iter (S n) (fun s => upload_submitted s bytes) s = upload_submitted s bytes) as ->.
  { clear Hn. induction n as [|n IH]; [done|]. change (upload_submitted (Nat.iter (S n) (fun s => upload_submitted s bytes) s) bytes = upload_submitted s bytes).
    rewrite IH. unfold upload_submitted at 2 3. unfold upload_pending in Hp. by rewrite Hp. }
  unfold upload_submitted, upload_pending in *. rewrite Hp. cbn. unfold saturating_add, umax, U64_MAX in *. f_equal; lia.
Qed.

Lemma world_packet_bounds_witness :
  let draw := mkWorldDrawCommand 6 1 30 1 in
  valid_world_packet (replicate 160 0) 160 (replicate 16 0) [draw] = true /\ exists n, zlen (replicate 160 0) = 80 * n /\ 0 < n.
Proof.
  cbv zeta. assert (valid_world_packet (replicate 160 0) 160 (replicate 16 0) [mkWorldDrawCommand 6 1 30 1] = true) as H by (vm_compute; reflexivity).
  split; [exact H|]. destruct (world_packet_bounds _ _ _ _ H) as (_ & _ & _ & n & Hn & Hp & _). exists n. split; [exact Hn|exact Hp].
Defined.
