(* ===== verification/F32.v ===== *)
(** 32-bit floating point as the UI and the renderer use it: Rust's [f32] as
    the Standard Library's [spec_float] at precision 24 and maximal exponent
    128, with round-to-nearest-even arithmetic, the comparisons (false on
    NaN), [min], [max], [clamp], the integer casts and the little-endian bit
    pattern.  NaN payloads are not modelled (one NaN).  On the pair of zeros of
    opposite sign [f32::max] and [f32::min] may return either; the model
    returns the first argument. *)

From Stdlib Require Export Floats.SpecFloat.
From S2P Require Import Prelude.

Local Open Scope Z_scope.

Abbreviation f32 := spec_float.

#[global] Instance f32_eq_dec : EqDecision f32.
Proof. solve_decision. Defined.

Definition f32_zero : f32 := S754_zero false.
Definition f32_of_Z (z : Z) : f32 := binary_normalize 24 128 z 0 false.
Definition f32_one : f32 := f32_of_Z 1.
Definition f32_MAX : f32 := S754_finite false 16777215 104.

Definition is_finite (x : f32) : bool :=
  match x with S754_zero _ | S754_finite _ _ _ => true | _ => false end.
Definition is_nan (x : f32) : bool :=
  match x with S754_nan => true | _ => false end.

Definition fadd (x y : f32) : f32 := SFadd 24 128 x y.
Definition fsub (x y : f32) : f32 := SFsub 24 128 x y.
Definition fmul (x y : f32) : f32 := SFmul 24 128 x y.
Definition fdiv (x y : f32) : f32 := SFdiv 24 128 x y.
Definition fle (x y : f32) : bool := SFleb x y.
Definition flt (x y : f32) : bool := SFltb x y.
Definition feq (x y : f32) : bool := SFeqb x y.
Definition fge (x y : f32) : bool := fle y x.
Definition fgt (x y : f32) : bool := flt y x.

(** The other argument when one is NaN. *)
Definition fmax (x y : f32) : f32 :=
  if is_nan x then y else if is_nan y then x else if flt x y then y else x.
Definition fmin (x y : f32) : f32 :=
  if is_nan x then y else if is_nan y then x else if flt y x then y else x.

(** [f32::clamp] asserts [min <= max]: [None] is the panic. *)
Definition fclamp (x lo hi : f32) : option f32 :=
  if fle lo hi then
    let x := if flt x lo then lo else x in
    Some (if fgt x hi then hi else x)
  else None.

(** The magnitude truncated toward zero. *)
Definition ftrunc (x : f32) : Z :=
  match x with
  | S754_finite s m e =>
      let a := if e <? 0 then Z.pos m / 2 ^ (- e) else Z.pos m * 2 ^ e in
      if s then - a else a
  | _ => 0
  end.

(** [x as iN]/[x as uN] with the target's bounds: saturating, NaN to 0. *)
Definition f32_as_int (lo hi : Z) (x : f32) : Z :=
  match x with
  | S754_nan | S754_zero _ => 0
  | S754_infinity s => if s then lo else hi
  | S754_finite _ _ _ => Z.max lo (Z.min hi (ftrunc x))
  end.

(** [f32::floor] followed by a cast to an integer type: the floor of a finite
    value, saturated. *)
Definition f32_floor_as_int (lo hi : Z) (x : f32) : Z :=
  match x with
  | S754_finite s m e =>
      let a := if s then Z.neg m else Z.pos m in
      Z.max lo (Z.min hi (if e <? 0 then a / 2 ^ (- e) else a * 2 ^ e))
  | _ => f32_as_int lo hi x
  end.

(** The IEEE bit pattern ([f32::to_bits]). *)
Definition f32_bits (x : f32) : Z :=
  match x with
  | S754_zero s => if s then 2 ^ 31 else 0
  | S754_infinity s => (if s then 2 ^ 31 else 0) + 255 * 2 ^ 23
  | S754_nan => 255 * 2 ^ 23 + 2 ^ 22
  | S754_finite s m e =>
      (if s then 2 ^ 31 else 0) +
      (if Z.pos m <? 2 ^ 23 then Z.pos m
       else (e + 150) * 2 ^ 23 + (Z.pos m - 2 ^ 23))
  end.

Example bits_of_one : f32_bits f32_one = 1065353216.
Proof. reflexivity. Qed.
Example bits_of_max : f32_bits f32_MAX = 2139095039.
Proof. reflexivity. Qed.

(** ** Order

    Comparison is a total preorder away from NaN. *)
Definition fkey (x : f32) : Z * Z * Z :=
  match x with
  | S754_zero _ => (0, 0, 0)
  | S754_infinity s => if s then (-2, 0, 0) else (2, 0, 0)
  | S754_nan => (0, 0, 0)
  | S754_finite s m e => if s then (-1, - e, - Z.pos m) else (1, e, Z.pos m)
  end.

Definition key_le (a b : Z * Z * Z) : bool :=
  let '(a1, a2, a3) := a in
  let '(b1, b2, b3) := b in
  (a1 <? b1) || ((a1 =? b1) && ((a2 <? b2) || ((a2 =? b2) && (a3 <=? b3)))).

Lemma key_le_spec a b :
  key_le a b = true <->
  a.1.1 < b.1.1 \/ a.1.1 = b.1.1 /\ (a.1.2 < b.1.2 \/ a.1.2 = b.1.2 /\ a.2 <= b.2).
Proof. destruct a as [[??]?], b as [[??]?]; cbn. lia. Qed.

Lemma fle_key x y :
  fle x y = negb (is_nan x) && negb (is_nan y) && key_le (fkey x) (fkey y).
Proof.
  unfold fle, SFleb, SFcompare.
  destruct x as [s|s| |s m e], y as [s'|s'| |s' m' e']; try destruct s; try destruct s';
    try reflexivity; cbv [fkey key_le is_nan]; destruct (Z.compare_spec e e') as [->|H|H];
    try lia;
    change (Pos.compare_cont Eq m m') with (Pos.compare m m');
    destruct (Pos.compare_spec m m') as [->|Hm|Hm]; cbv [CompOpp]; lia.
Qed.

Lemma flt_key x y :
  flt x y = negb (is_nan x) && negb (is_nan y) && negb (key_le (fkey y) (fkey x)).
Proof.
  unfold flt, SFltb, SFcompare.
  destruct x as [s|s| |s m e], y as [s'|s'| |s' m' e']; try destruct s; try destruct s';
    try reflexivity; cbv [fkey key_le is_nan]; destruct (Z.compare_spec e e') as [->|H|H];
    try lia;
    change (Pos.compare_cont Eq m m') with (Pos.compare m m');
    destruct (Pos.compare_spec m m') as [->|Hm|Hm]; cbv [CompOpp]; lia.
Qed.

Lemma fle_refl x : is_nan x = false -> fle x x = true.
Proof. intros H. rewrite fle_key, H. cbn. apply key_le_spec. lia. Qed.

Lemma fle_trans x y z : fle x y = true -> fle y z = true -> fle x z = true.
Proof. rewrite !fle_key, !andb_true_iff, !key_le_spec. intuition lia. Qed.

Lemma flt_negb x y : is_nan x = false -> is_nan y = false -> flt x y = negb (fle y x).
Proof. intros Hx Hy. rewrite flt_key, fle_key, Hx, Hy. reflexivity. Qed.

Lemma fle_total x y : is_nan x = false -> is_nan y = false -> fle x y = true \/ fle y x = true.
Proof. intros Hx Hy. rewrite !fle_key, Hx, Hy. cbn. rewrite !key_le_spec. lia. Qed.

Lemma fle_nan x y : fle x y = true -> is_nan x = false /\ is_nan y = false.
Proof. rewrite fle_key. destruct (is_nan x), (is_nan y); cbn; done. Qed.

Lemma flt_nan x y : flt x y = true -> is_nan x = false /\ is_nan y = false.
Proof. rewrite flt_key. destruct (is_nan x), (is_nan y); cbn; done. Qed.

Lemma finite_not_nan x : is_finite x = true -> is_nan x = false.
Proof. by destruct x. Qed.

(** ** [max], [min] and [clamp] *)
Lemma fmax_ge_r x y : is_nan y = false -> fle y (fmax x y) = true.
Proof.
  intros Hy. unfold fmax. rewrite Hy.
  destruct (is_nan x) eqn:Hx; [by apply fle_refl|].
  rewrite (flt_negb x y Hx Hy). destruct (fle y x) eqn:E; cbn; [done|by apply fle_refl].
Qed.

Lemma fmax_nan x y : is_nan y = false -> is_nan (fmax x y) = false.
Proof. intros Hy. apply (fle_nan y). by apply fmax_ge_r. Qed.

Lemma fmin_nan x y : is_nan y = false -> is_nan (fmin x y) = false.
Proof. intros Hy. unfold fmin. rewrite Hy. destruct (is_nan x) eqn:Hx; [done|]. by case_match. Qed.

Lemma fclamp_total x lo hi : fle lo hi = true -> is_nan x = false ->
  exists y, fclamp x lo hi = Some y /\ fle lo y = true /\ fle y hi = true.
Proof.
  intros H Hx. unfold fclamp. rewrite H. destruct (fle_nan _ _ H) as [Hl Hh].
  rewrite (flt_negb x lo Hx Hl). destruct (fle lo x) eqn:E; cbn.
  - unfold fgt. rewrite (flt_negb hi x Hh Hx).
    destruct (fle x hi) eqn:E'; cbn; eauto using fle_refl.
  - unfold fgt. rewrite (flt_negb hi lo Hh Hl), H. cbn. eauto using fle_refl.
Qed.

Lemma fclamp_some x lo hi : fle lo hi = true -> is_Some (fclamp x lo hi).
Proof. intros H. unfold fclamp. rewrite H. eauto. Qed.

(** ** Representable numbers: at most 24 binary digits. *)
Definition valid_f32 (x : f32) : Prop := valid_binary 24 128 x = true.

Lemma pos_digits m : Z.pos m < 2 ^ Z.pos (digits2_pos m).
Proof.
  induction m as [m IH|m IH|]; cbn [digits2_pos]; [| |reflexivity];
    rewrite Pos2Z.inj_succ, Z.pow_succ_r by lia; lia.
Qed.
