(* ===== verification/UiComponents.v ===== *)
(** The UI's values: quotas and errors ([ui/budget.rs]), generational
    identifiers ([ui/id.rs]), the typed component values with their sanity
    checks ([ui/components.rs]) and the table of texture and font resources
    ([ui/resources.rs]).  A [String] is its list of code points; its byte
    length is the UTF-8 one. *)

From S2P Require Import Prelude F32.

Local Open Scope Z_scope.
Local Open Scope kit_scope.

(** ** Budget *)
Record UiConfig := {
  max_nodes : Z;
  max_depth : Z;
  max_text_bytes : Z;
  max_glyphs : Z;
  max_clips : Z;
  max_paint_items : Z;
  max_batches : Z;
  max_commands : Z;
  max_upload_bytes : Z;
  max_layout_iterations : Z;
  dpi_scale : f32
}.

Definition ui_config_default : UiConfig := {|
  max_nodes := 4096; max_depth := 128; max_text_bytes := 2 ^ 20; max_glyphs := 2 ^ 20;
  max_clips := 8192; max_paint_items := 8192; max_batches := 4096; max_commands := 4096;
  max_upload_bytes := 16 * 2 ^ 20; max_layout_iterations := 8; dpi_scale := f32_one |}.

Module UiError.
Inductive UiError :=
| CapacityExceeded | AllocationFailed | InvalidNode | InvalidParent | Cycle
| DepthExceeded | InvalidValue | LayoutDidNotConverge | OutputTooSmall
| IndexOverflow | ResourceUnavailable.
#[global] Instance UiError_eq_dec : EqDecision UiError.
Proof. solve_decision. Defined.
End UiError.
Abbreviation UiError := UiError.UiError.

Record UiDiagnostics := {
  dirty_nodes : Z;
  layout_passes : Z;
  d_paint_items : Z;
  d_batches : Z;
  d_glyphs : Z;
  d_uploaded_bytes : Z;
  clipped_items : Z;
  overflow_fallbacks : Z
}.

Definition ui_diagnostics_default : UiDiagnostics := {|
  dirty_nodes := 0; layout_passes := 0; d_paint_items := 0; d_batches := 0; d_glyphs := 0;
  d_uploaded_bytes := 0; clipped_items := 0; overflow_fallbacks := 0 |}.

Definition record_error (d : UiDiagnostics) : UiDiagnostics := {|
  dirty_nodes := dirty_nodes d; layout_passes := layout_passes d;
  d_paint_items := d_paint_items d; d_batches := d_batches d; d_glyphs := d_glyphs d;
  d_uploaded_bytes := d_uploaded_bytes d; clipped_items := clipped_items d;
  overflow_fallbacks := saturating_add 64 (overflow_fallbacks d) 1 |}.

(** ** Identifiers *)
Record UiNodeId := { n_index : Z; n_generation : Z }.
Record TextureId := { t_index : Z; t_generation : Z }.
Record FontId := { f_index : Z; f_generation : Z }.

#[global] Instance UiNodeId_eq_dec : EqDecision UiNodeId.
Proof. solve_decision. Defined.
#[global] Instance TextureId_eq_dec : EqDecision TextureId.
Proof. solve_decision. Defined.
#[global] Instance FontId_eq_dec : EqDecision FontId.
Proof. solve_decision. Defined.

(** ** Lengths, edges, rectangles *)
Module UiLength.
Inductive UiLength := Auto | Points (value : f32) | Percent (value : f32).
End UiLength.
Abbreviation UiLength := UiLength.UiLength.

Definition f32_100 : f32 := f32_of_Z 100.

Definition length_resolve (l : UiLength) (available : f32) : option f32 :=
  if negb (is_finite available) || flt available f32_zero then None
  else match l with
       | UiLength.Auto => None
       | UiLength.Points value =>
           if is_finite value && fge value f32_zero then Some value else None
       | UiLength.Percent value =>
           if is_finite value && (fle f32_zero value && fle value f32_100)
           then Some (fdiv (fmul available value) f32_100) else None
       end.

Record UiEdges := { e_left : f32; e_right : f32; e_top : f32; e_bottom : f32 }.

Definition edges_all (value : f32) : UiEdges :=
  {| e_left := value; e_right := value; e_top := value; e_bottom := value |}.
Definition edges_horizontal (e : UiEdges) : f32 := fadd (e_left e) (e_right e).
Definition edges_vertical (e : UiEdges) : f32 := fadd (e_top e) (e_bottom e).
Definition edges_sane (e : UiEdges) : bool :=
  forallb (fun value => is_finite value && fge value f32_zero)
    [e_left e; e_right e; e_top e; e_bottom e].

Record UiRect := { r_x : f32; r_y : f32; r_width : f32; r_height : f32 }.

Definition rect_zero : UiRect :=
  {| r_x := f32_zero; r_y := f32_zero; r_width := f32_zero; r_height := f32_zero |}.
Definition rect_right (r : UiRect) : f32 := fadd (r_x r) (r_width r).
Definition rect_bottom (r : UiRect) : f32 := fadd (r_y r) (r_height r).
Definition rect_sane (r : UiRect) : bool :=
  forallb is_finite [r_x r; r_y r; r_width r; r_height r; rect_right r; rect_bottom r] &&
  fge (r_width r) f32_zero && fge (r_height r) f32_zero.
Definition rect_contains (r : UiRect) (x y : f32) : bool :=
  rect_sane r && fge x (r_x r) && fge y (r_y r) && flt x (rect_right r) && flt y (rect_bottom r).
Definition rect_intersect (r other : UiRect) : UiRect :=
  let left := fmax (r_x r) (r_x other) in
  let top := fmax (r_y r) (r_y other) in
  let right := fmin (rect_right r) (rect_right other) in
  let bottom := fmin (rect_bottom r) (rect_bottom other) in
  {| r_x := left; r_y := top;
     r_width := fmax (fsub right left) f32_zero;
     r_height := fmax (fsub bottom top) f32_zero |}.
Definition rect_area (r : UiRect) : f32 := fmul (r_width r) (r_height r).

(** ** Style *)
Module UiDirection.
Inductive UiDirection := Row | Column.
End UiDirection.
Abbreviation UiDirection := UiDirection.UiDirection.

Module UiAlign.
Inductive UiAlign := Start | Center | End_ | Stretch.
#[global] Instance UiAlign_eq_dec : EqDecision UiAlign.
Proof. solve_decision. Defined.
End UiAlign.
Abbreviation UiAlign := UiAlign.UiAlign.

Module UiOverflow.
Inductive UiOverflow := Visible | Clip | Scroll.
#[global] Instance UiOverflow_eq_dec : EqDecision UiOverflow.
Proof. solve_decision. Defined.
End UiOverflow.
Abbreviation UiOverflow := UiOverflow.UiOverflow.

Module UiPosition.
Inductive UiPosition := Flow | Absolute (l t : f32).
End UiPosition.
Abbreviation UiPosition := UiPosition.UiPosition.

(** [[f32; 4]]. *)
Record rgba := { c_r : f32; c_g : f32; c_b : f32; c_a : f32 }.
Definition rgba_list (c : rgba) : list f32 := [c_r c; c_g c; c_b c; c_a c].
Definition rgba_splat (v : f32) : rgba := {| c_r := v; c_g := v; c_b := v; c_a := v |}.

Record UiStyle := {
  s_width : UiLength;
  s_height : UiLength;
  min_width : f32;
  min_height : f32;
  max_width : f32;
  max_height : f32;
  margin : UiEdges;
  padding : UiEdges;
  gap : f32;
  direction : UiDirection;
  align : UiAlign;
  position : UiPosition;
  background : rgba;
  gradient : option (rgba * rgba);
  border : rgba;
  border_width : f32;
  corner_radius : f32;
  overflow : UiOverflow;
  scroll_x : f32;
  scroll_y : f32
}.

Definition style_default : UiStyle := {|
  s_width := UiLength.Auto; s_height := UiLength.Auto;
  min_width := f32_zero; min_height := f32_zero; max_width := f32_MAX; max_height := f32_MAX;
  margin := edges_all f32_zero; padding := edges_all f32_zero; gap := f32_zero;
  direction := UiDirection.Column; align := UiAlign.Stretch; position := UiPosition.Flow;
  background := rgba_splat f32_zero; gradient := None; border := rgba_splat f32_zero;
  border_width := f32_zero; corner_radius := f32_zero; overflow := UiOverflow.Visible;
  scroll_x := f32_zero; scroll_y := f32_zero |}.

Definition style_sane (s : UiStyle) : bool :=
  edges_sane (margin s) && edges_sane (padding s) &&
  is_finite (gap s) && fge (gap s) f32_zero &&
  is_finite (min_width s) && is_finite (min_height s) &&
  is_finite (max_width s) && is_finite (max_height s) &&
  fge (min_width s) f32_zero && fge (min_height s) f32_zero &&
  fge (max_width s) (min_width s) && fge (max_height s) (min_height s) &&
  is_finite (border_width s) && fge (border_width s) f32_zero &&
  match position s with
  | UiPosition.Flow => true
  | UiPosition.Absolute l t => is_finite l && is_finite t
  end &&
  forallb is_finite (rgba_list (background s)) &&
  forallb is_finite (rgba_list (border s)) &&
  match gradient s with
  | None => true
  | Some (from, to) => forallb is_finite (rgba_list from ++ rgba_list to)
  end &&
  is_finite (corner_radius s) && fge (corner_radius s) f32_zero &&
  is_finite (scroll_x s) && is_finite (scroll_y s) &&
  fge (scroll_x s) f32_zero && fge (scroll_y s) f32_zero.

(** ** Node content *)
Module UiNodeKind.
Inductive UiNodeKind := Root | Panel | Text | Image | Custom.
End UiNodeKind.
Abbreviation UiNodeKind := UiNodeKind.UiNodeKind.

Module UiAccessibilityRole.
Inductive UiAccessibilityRole :=
| None_ | Button | Label | Image | TextField | Window | List_ | ListItem.
End UiAccessibilityRole.
Abbreviation UiAccessibilityRole := UiAccessibilityRole.UiAccessibilityRole.

(** The UTF-8 length of a code point ([char::len_utf8]). *)
Definition utf8_len (c : Z) : Z :=
  if c <? 128 then 1 else if c <? 2048 then 2 else if c <? 65536 then 3 else 4.
Definition str_len (s : list Z) : Z := foldr (fun c n => utf8_len c + n) 0 s.

Record UiText := { text_value : list Z }.

(** [value.len()] is always a character boundary of [value]. *)
Definition text_try_new (A : alloc) (value : list Z) (max_bytes : Z) : result UiError UiText :=
  if max_bytes <? str_len value then Err UiError.CapacityExceeded
  else if A 0%nat then Ok {| text_value := value |}
  else Err UiError.AllocationFailed.
Definition text_byte_len (t : UiText) : Z := str_len (text_value t).

Record UiAccessibility := {
  a_role : UiAccessibilityRole;
  a_label : option UiText;
  a_hidden : bool
}.
Definition accessibility_default : UiAccessibility :=
  {| a_role := UiAccessibilityRole.None_; a_label := None; a_hidden := false |}.

Record UiImage := { i_texture : TextureId; i_width : Z; i_height : Z }.

Record UiInteraction := { focusable : bool; disabled : bool; hit_testable : bool }.
Definition interaction_default : UiInteraction :=
  {| focusable := false; disabled := false; hit_testable := true |}.

Record UiNodeContent := {
  kind : UiNodeKind;
  style : UiStyle;
  visible : bool;
  z_index : Z;
  opacity : f32;
  text : option UiText;
  image : option UiImage;
  font : option FontId;
  interaction : UiInteraction;
  accessibility : UiAccessibility
}.

Definition content_new (k : UiNodeKind) : UiNodeContent := {|
  kind := k; style := style_default; visible := true; z_index := 0; opacity := f32_one;
  text := None; image := None; font := None; interaction := interaction_default;
  accessibility := accessibility_default |}.

Definition content_sane (c : UiNodeContent) : bool :=
  style_sane (style c) && is_finite (opacity c) &&
  (fle f32_zero (opacity c) && fle (opacity c) f32_one).

(** Assignments to one field through [content_mut]. *)
Definition with_style (c : UiNodeContent) (s : UiStyle) : UiNodeContent := {|
  kind := kind c; style := s; visible := visible c; z_index := z_index c; opacity := opacity c;
  text := text c; image := image c; font := font c; interaction := interaction c;
  accessibility := accessibility c |}.
Definition with_text (c : UiNodeContent) (t : option UiText) : UiNodeContent := {|
  kind := kind c; style := style c; visible := visible c; z_index := z_index c;
  opacity := opacity c; text := t; image := image c; font := font c;
  interaction := interaction c; accessibility := accessibility c |}.
Definition with_visible (c : UiNodeContent) (v : bool) : UiNodeContent := {|
  kind := kind c; style := style c; visible := v; z_index := z_index c; opacity := opacity c;
  text := text c; image := image c; font := font c; interaction := interaction c;
  accessibility := accessibility c |}.
Definition with_z_index (c : UiNodeContent) (z : Z) : UiNodeContent := {|
  kind := kind c; style := style c; visible := visible c; z_index := z; opacity := opacity c;
  text := text c; image := image c; font := font c; interaction := interaction c;
  accessibility := accessibility c |}.
Definition with_accessibility (c : UiNodeContent) (a : UiAccessibility) : UiNodeContent := {|
  kind := kind c; style := style c; visible := visible c; z_index := z_index c;
  opacity := opacity c; text := text c; image := image c; font := font c;
  interaction := interaction c; accessibility := a |}.

(** ** Resource tables

    Textures and fonts have the same table code; the model is generic in the
    identifier. *)
Module UiAssetState.
Inductive UiAssetState := Missing | Loading | Ready | Failed.
#[global] Instance UiAssetState_eq_dec : EqDecision UiAssetState.
Proof. solve_decision. Defined.
End UiAssetState.
Abbreviation UiAssetState := UiAssetState.UiAssetState.

Section Entries.
Context {Id : Type} `{EqDecision Id}.

Record UiResource := { res_id : Id; res_state : UiAssetState; res_generation : Z }.

Definition has_id (id : Id) (e : UiResource) : bool := bool_decide (res_id e = id).

(** [iter().find(|entry| entry.id == id).copied()]. *)
Definition entry (l : list UiResource) (id : Id) : option UiResource := find (has_id id) l.

Definition entry_ready (l : list UiResource) (id : Id) : bool :=
  match entry l id with
  | Some r => bool_decide (res_state r = UiAssetState.Ready)
  | None => false
  end.

(** [resource.state = state] precedes the checked increment, so the state
    changes even when the generation is exhausted. *)
Definition bump (l : list UiResource) (i : Z) (r : UiResource) (s : UiAssetState)
  : list UiResource * result UiError Z :=
  match checked_add 32 (res_generation r) 1 with
  | Some g => (zset l i {| res_id := res_id r; res_state := s; res_generation := g |}, Ok g)
  | None => (zset l i {| res_id := res_id r; res_state := s;
                         res_generation := res_generation r |}, Err UiError.IndexOverflow)
  end.

Definition entry_register (cap : Z) (l : list UiResource) (id : Id) (s : UiAssetState)
  : list UiResource * result UiError unit :=
  match vec_position (has_id id) l with
  | Some i =>
      match l !z i with
      | Some r => let '(l', res) := bump l i r s in (l', let? _ := res in Ok tt)
      | None => (l, Ok tt)
      end
  | None =>
      if cap <=? zlen l then (l, Err UiError.CapacityExceeded)
      else (l ++ [{| res_id := id; res_state := s; res_generation := 1 |}], Ok tt)
  end.

Definition entry_set (l : list UiResource) (id : Id) (s : UiAssetState)
  : list UiResource * result UiError Z :=
  match vec_position (has_id id) l with
  | Some i =>
      match l !z i with
      | Some r => bump l i r s
      | None => (l, Err UiError.ResourceUnavailable)
      end
  | None => (l, Err UiError.ResourceUnavailable)
  end.

Definition entry_set_state (l : list UiResource) (id : Id) (s : UiAssetState)
  : list UiResource * result UiError unit :=
  let '(l', res) := entry_set l id s in (l', let? _ := res in Ok tt).

Definition entry_evict (l : list UiResource) (id : Id) : list UiResource * result UiError Z :=
  entry_set l id UiAssetState.Missing.
End Entries.
Arguments UiResource : clear implicits.

Record UiResourceTable := {
  textures : list (UiResource TextureId);
  fonts : list (UiResource FontId);
  res_config : UiConfig
}.

Definition resources_try_new (A : alloc) (c : UiConfig) : result UiError UiResourceTable :=
  if A 0%nat && A 1%nat then Ok {| textures := []; fonts := []; res_config := c |}
  else Err UiError.AllocationFailed.

Definition on_textures {E} (t : UiResourceTable)
    (r : list (UiResource TextureId) * E) : UiResourceTable * E :=
  ({| textures := r.1; fonts := fonts t; res_config := res_config t |}, r.2).
Definition on_fonts {E} (t : UiResourceTable)
    (r : list (UiResource FontId) * E) : UiResourceTable * E :=
  ({| textures := textures t; fonts := r.1; res_config := res_config t |}, r.2).

Definition register_texture (t : UiResourceTable) (id : TextureId) (s : UiAssetState) :=
  on_textures t (entry_register (max_nodes (res_config t)) (textures t) id s).
Definition set_texture_state (t : UiResourceTable) (id : TextureId) (s : UiAssetState) :=
  on_textures t (entry_set_state (textures t) id s).
Definition texture (t : UiResourceTable) (id : TextureId) := entry (textures t) id.
Definition texture_ready (t : UiResourceTable) (id : TextureId) : bool :=
  entry_ready (textures t) id.
Definition register_font (t : UiResourceTable) (id : FontId) (s : UiAssetState) :=
  on_fonts t (entry_register (max_nodes (res_config t)) (fonts t) id s).
Definition font_resource (t : UiResourceTable) (id : FontId) := entry (fonts t) id.
Definition set_font_state (t : UiResourceTable) (id : FontId) (s : UiAssetState) :=
  on_fonts t (entry_set_state (fonts t) id s).
Definition font_ready (t : UiResourceTable) (id : FontId) : bool := entry_ready (fonts t) id.
Definition evict_texture (t : UiResourceTable) (id : TextureId) :=
  on_textures t (entry_evict (textures t) id).
Definition evict_font (t : UiResourceTable) (id : FontId) :=
  on_fonts t (entry_evict (fonts t) id).

(** ** Basic facts *)
Lemma content_new_sane k : content_sane (content_new k) = true.
Proof. vm_compute. reflexivity. Qed.

Lemma rect_zero_sane : rect_sane rect_zero = true.
Proof. vm_compute. reflexivity. Qed.

Lemma rect_sane_finite r : rect_sane r = true ->
  is_finite (r_x r) = true /\ is_finite (r_y r) = true /\
  is_finite (r_width r) = true /\ is_finite (r_height r) = true.
Proof. unfold rect_sane. cbn [forallb]. rewrite !andb_true_iff. tauto. Qed.

Lemma with_style_sane c s : content_sane c = true -> style_sane s = true ->
  content_sane (with_style c s) = true.
Proof. unfold content_sane. rewrite !andb_true_iff. cbn. tauto. Qed.
