(* ===== verification/UiTree.v ===== *)
(** The retained UI tree ([ui/tree.rs]): slots with generations, parent and
    children links, bounded depth and node count.  The parent walks and the
    recursive collection run on fuel, [S] of the number of slots, which is
    shown to be enough on every reachable tree; [None] stands for a panic (an
    index out of range) or for a walk that does not end.

    The invariant is in [UiTreeInv], the theorems over sequences of operations
    in [UiCommands]. *)

From S2P Require Import Prelude F32 UiComponents.

Local Open Scope Z_scope.
Local Open Scope kit_scope.

Record UiNode := {
  nd_id : UiNodeId;
  nd_parent : option UiNodeId;
  nd_children : list UiNodeId;
  nd_content : UiNodeContent;
  nd_rect : UiRect;
  nd_dirty : bool
}.

Record UiTree := {
  slots : list (option UiNode);
  generations : list Z;
  free : list Z;
  root : UiNodeId;
  count : Z;
  config : UiConfig
}.

(** ** Field updates *)
Definition nd_with_children (n : UiNode) (cs : list UiNodeId) : UiNode :=
  {| nd_id := nd_id n; nd_parent := nd_parent n; nd_children := cs;
     nd_content := nd_content n; nd_rect := nd_rect n; nd_dirty := nd_dirty n |}.
Definition nd_with_parent (n : UiNode) (p : option UiNodeId) : UiNode :=
  {| nd_id := nd_id n; nd_parent := p; nd_children := nd_children n;
     nd_content := nd_content n; nd_rect := nd_rect n; nd_dirty := nd_dirty n |}.
Definition nd_with_content (n : UiNode) (c : UiNodeContent) : UiNode :=
  {| nd_id := nd_id n; nd_parent := nd_parent n; nd_children := nd_children n;
     nd_content := c; nd_rect := nd_rect n; nd_dirty := nd_dirty n |}.
Definition nd_with_rect (n : UiNode) (r : UiRect) (d : bool) : UiNode :=
  {| nd_id := nd_id n; nd_parent := nd_parent n; nd_children := nd_children n;
     nd_content := nd_content n; nd_rect := r; nd_dirty := d |}.
Definition nd_mark_dirty (n : UiNode) : UiNode := nd_with_rect n (nd_rect n) true.

Definition with_slots (t : UiTree) (s : list (option UiNode)) : UiTree :=
  {| slots := s; generations := generations t; free := free t; root := root t;
     count := count t; config := config t |}.
Definition with_free (t : UiTree) (f : list Z) : UiTree :=
  {| slots := slots t; generations := generations t; free := f; root := root t;
     count := count t; config := config t |}.
Definition with_gens (t : UiTree) (g : list Z) : UiTree :=
  {| slots := slots t; generations := g; free := free t; root := root t;
     count := count t; config := config t |}.
Definition with_count (t : UiTree) (k : Z) : UiTree :=
  {| slots := slots t; generations := generations t; free := free t; root := root t;
     count := k; config := config t |}.

(** ** Queries *)
Definition tree_try_new (A : alloc) (c : UiConfig) : result UiError UiTree :=
  if (max_nodes c =? 0) || (max_depth c =? 0) then Err UiError.InvalidValue
  else if negb (A 0%nat) || negb (A 1%nat) then Err UiError.AllocationFailed
  else
    let r := {| n_index := 0; n_generation := 1 |} in
    Ok {| slots := [Some {| nd_id := r; nd_parent := None; nd_children := [];
                            nd_content := content_new UiNodeKind.Root;
                            nd_rect := rect_zero; nd_dirty := true |}];
          generations := [1]; free := []; root := r; count := 1; config := c |}.

Definition slot_node (t : UiTree) (i : Z) : option UiNode :=
  match slots t !z i with Some (Some n) => Some n | _ => None end.

Definition valid_slot (t : UiTree) (id : UiNodeId) : bool :=
  bool_decide (generations t !z (n_index id) = Some (n_generation id)) &&
  match slot_node t (n_index id) with Some _ => true | None => false end.
Definition contains (t : UiTree) (id : UiNodeId) : bool := valid_slot t id.

(** [.filter(|node| node.id == id)]. *)
Definition find_node (t : UiTree) (id : UiNodeId) : option UiNode :=
  match slot_node t (n_index id) with
  | Some n => if decide (nd_id n = id) then Some n else None
  | None => None
  end.
Definition node (t : UiTree) (id : UiNodeId) : result UiError UiNode :=
  ok_or UiError.InvalidNode (find_node t id).
Definition content (t : UiTree) (id : UiNodeId) : result UiError UiNodeContent :=
  let? n := node t id in Ok (nd_content n).
Definition parent (t : UiTree) (id : UiNodeId) : result UiError (option UiNodeId) :=
  let? n := node t id in Ok (nd_parent n).
Definition children (t : UiTree) (id : UiNodeId) : result UiError (list UiNodeId) :=
  let? n := node t id in Ok (nd_children n).
Definition rect (t : UiTree) (id : UiNodeId) : result UiError UiRect :=
  let? n := node t id in Ok (nd_rect n).
Definition is_dirty (t : UiTree) (id : UiNodeId) : result UiError bool :=
  let? n := node t id in Ok (nd_dirty n).
Definition dirty_count (t : UiTree) : Z :=
  zlen (List.filter nd_dirty (omap id (slots t))).

(** [node_mut(id)?] followed by an assignment through the reference. *)
Definition set_node (t : UiTree) (n : UiNode) : UiTree :=
  with_slots t (zset (slots t) (n_index (nd_id n)) (Some n)).
Definition update_node (t : UiTree) (id : UiNodeId) (f : UiNode -> UiNode)
  : UiTree * result UiError unit :=
  match find_node t id with
  | Some n => (set_node t (f n), Ok tt)
  | None => (t, Err UiError.InvalidNode)
  end.

Definition content_mut (t : UiTree) (id : UiNodeId) (f : UiNodeContent -> UiNodeContent)
  : UiTree * result UiError unit :=
  update_node t id (fun n => nd_with_content n (f (nd_content n))).

Definition set_rect (t : UiTree) (id : UiNodeId) (r : UiRect) : UiTree * result UiError unit :=
  if rect_sane r then update_node t id (fun n => nd_with_rect n r false)
  else (t, Err UiError.InvalidValue).

(** ** Walks *)
Definition walk_fuel (t : UiTree) : nat := S (length (slots t)).

Fixpoint mark_ancestors_dirty (fuel : nat) (t : UiTree) (id : UiNodeId)
  : option (UiTree * result UiError unit) :=
  match fuel with
  | O => None
  | S fuel =>
      match find_node t id with
      | None => Some (t, Err UiError.InvalidNode)
      | Some n =>
          let t := set_node t (nd_mark_dirty n) in
          match nd_parent n with
          | Some p => mark_ancestors_dirty fuel t p
          | None => Some (t, Ok tt)
          end
      end
  end.

Fixpoint depth (fuel : nat) (t : UiTree) (id : UiNodeId) (d : Z) : option (result UiError Z) :=
  match fuel with
  | O => None
  | S fuel =>
      match find_node t id with
      | None => Some (Err UiError.InvalidNode)
      | Some n =>
          match nd_parent n with
          | None => Some (Ok d)
          | Some p =>
              match checked_add 64 d 1 with
              | None => Some (Err UiError.IndexOverflow)
              | Some d =>
                  if max_depth (config t) <=? d then Some (Err UiError.DepthExceeded)
                  else depth fuel t p d
              end
          end
      end
  end.

(** The cycle check of [reparent]: walk up from [cursor] looking for [id]. *)
Fixpoint check_cycle (fuel : nat) (t : UiTree) (id cursor : UiNodeId)
  : option (result UiError unit) :=
  match fuel with
  | O => None
  | S fuel =>
      if decide (cursor = id) then Some (Err UiError.Cycle)
      else match parent t cursor with
           | Err e => Some (Err e)
           | Ok (Some p) => check_cycle fuel t id p
           | Ok None => Some (Ok tt)
           end
  end.

(** [for child in children { f(child)?; }] over an output vector. *)
Fixpoint try_each (f : UiNodeId -> list UiNodeId -> option (list UiNodeId * result UiError unit))
    (cs : list UiNodeId) (out : list UiNodeId) : option (list UiNodeId * result UiError unit) :=
  match cs with
  | [] => Some (out, Ok tt)
  | c :: cs =>
      match f c out with
      | Some (out, Ok _) => try_each f cs out
      | r => r
      end
  end.

Fixpoint collect_subtree (fuel : nat) (t : UiTree) (id : UiNodeId) (out : list UiNodeId)
  : option (list UiNodeId * result UiError unit) :=
  match fuel with
  | O => None
  | S fuel =>
      match children t id with
      | Err e => Some (out ++ [id], Err e)
      | Ok cs => try_each (collect_subtree fuel t) cs (out ++ [id])
      end
  end.

Definition preorder (A : alloc) (t : UiTree) : option (list UiNodeId * result UiError unit) :=
  if A 0%nat then collect_subtree (walk_fuel t) t (root t) []
  else Some ([], Err UiError.AllocationFailed).

(** ** Mutations *)
Definition text_too_long (t : UiTree) (c : UiNodeContent) : bool :=
  match text c with
  | Some x => max_text_bytes (config t) <? text_byte_len x
  | None => false
  end.

(** The slot of a new node: a free index with its current generation, or a
    fresh one.  Reservation sites 0 and 1 are those of the two vectors. *)
Definition take_slot (A : alloc) (t : UiTree) : option (UiTree * result UiError (Z * Z)) :=
  match vec_pop (free t) with
  | Some (index, rest) =>
      match generations t !z index with
      | Some g => Some (with_free t rest, Ok (index, g))
      | None => None
      end
  | None =>
      let index := zlen (slots t) in
      if U32_MAX <? index then Some (t, Err UiError.IndexOverflow)
      else if negb (A 0%nat) || negb (A 1%nat) then Some (t, Err UiError.AllocationFailed)
      else Some (with_gens (with_slots t (slots t ++ [None])) (generations t ++ [1]),
                 Ok (index, 1))
  end.

(** The children vectors of the new node and of its parent are reservation
    sites 2 and 3; the slot is already taken when they fail. *)
Definition link_node (A : alloc) (t : UiTree) (p : UiNodeId) (c : UiNodeContent)
    (index generation : Z) : option (UiTree * result UiError UiNodeId) :=
  let id := {| n_index := index; n_generation := generation |} in
  let n := {| nd_id := id; nd_parent := Some p; nd_children := []; nd_content := c;
              nd_rect := rect_zero; nd_dirty := true |} in
  if negb (A 2%nat) then Some (t, Err UiError.AllocationFailed)
  else match find_node t p with
       | None => Some (t, Err UiError.InvalidNode)
       | Some pn =>
           if negb (A 3%nat) then Some (t, Err UiError.AllocationFailed)
           else
             let t := set_node t (nd_with_children pn (nd_children pn ++ [id])) in
             if (0 <=? index) && (index <? zlen (slots t))
             then Some (with_count (set_node t n) (count t + 1), Ok id)
             else None
       end.

Definition create (A : alloc) (t : UiTree) (p : UiNodeId) (c : UiNodeContent)
  : option (UiTree * result UiError UiNodeId) :=
  if negb (valid_slot t p) then Some (t, Err UiError.InvalidParent)
  else if negb (content_sane c) then Some (t, Err UiError.InvalidValue)
  else if text_too_long t c then Some (t, Err UiError.CapacityExceeded)
  else
    match depth (walk_fuel t) t p 0 with
    | None => None
    | Some (Err e) => Some (t, Err e)
    | Some (Ok d) =>
        match checked_add 64 d 1 with
        | None => Some (t, Err UiError.IndexOverflow)
        | Some d =>
            if max_depth (config t) <=? d then Some (t, Err UiError.DepthExceeded)
            else if max_nodes (config t) <=? count t then Some (t, Err UiError.CapacityExceeded)
            else match take_slot A t with
                 | None => None
                 | Some (t, Err e) => Some (t, Err e)
                 | Some (t, Ok (index, g)) => link_node A t p c index g
                 end
        end
    end.

Definition set_content (t : UiTree) (id : UiNodeId) (c : UiNodeContent)
  : option (UiTree * result UiError unit) :=
  if negb (content_sane c) then Some (t, Err UiError.InvalidValue)
  else if text_too_long t c then Some (t, Err UiError.CapacityExceeded)
  else match find_node t id with
       | None => Some (t, Err UiError.InvalidNode)
       | Some n =>
           let t := set_node t (nd_with_content n c) in
           mark_ancestors_dirty (walk_fuel t) t id
       end.

(** [children.retain(|child| *child != id)]. *)
Definition without (id : UiNodeId) (cs : list UiNodeId) : list UiNodeId :=
  List.filter (fun c => negb (bool_decide (c = id))) cs.

Definition unlink (t : UiTree) (p id : UiNodeId) : UiTree * result UiError unit :=
  update_node t p (fun n => nd_with_children n (without id (nd_children n))).

(** The three assignments of [reparent] after the checks. *)
Definition relink (t : UiTree) (op np id : UiNodeId) : option (UiTree * result UiError unit) :=
  match unlink t op id with
  | (t, Err e) => Some (t, Err e)
  | (t, Ok _) =>
      match update_node t np (fun n => nd_with_children n (nd_children n ++ [id])) with
      | (t, Err e) => Some (t, Err e)
      | (t, Ok _) =>
          match update_node t id (fun n => nd_with_parent n (Some np)) with
          | (t, Err e) => Some (t, Err e)
          | (t, Ok _) => mark_ancestors_dirty (walk_fuel t) t id
          end
      end
  end.

Definition reparent (A : alloc) (t : UiTree) (id np : UiNodeId)
  : option (UiTree * result UiError unit) :=
  if bool_decide (id = root t) || negb (valid_slot t np) then Some (t, Err UiError.InvalidParent)
  else
    match check_cycle (walk_fuel t) t id np with
    | None => None
    | Some (Err e) => Some (t, Err e)
    | Some (Ok _) =>
        match depth (walk_fuel t) t np 0 with
        | None => None
        | Some (Err e) => Some (t, Err e)
        | Some (Ok d) =>
            match checked_add 64 d 1 with
            | None => Some (t, Err UiError.IndexOverflow)
            | Some d =>
                if max_depth (config t) <=? d then Some (t, Err UiError.DepthExceeded)
                else match parent t id with
                     | Err e => Some (t, Err e)
                     | Ok None => Some (t, Err UiError.InvalidParent)
                     | Ok (Some op) =>
                         match find_node t np with
                         | None => Some (t, Err UiError.InvalidNode)
                         | Some _ =>
                             if negb (A 0%nat) then Some (t, Err UiError.AllocationFailed)
                             else relink t op np id
                         end
                     end
            end
        end
    end.

(** One slot of the removal loop of [destroy]. *)
Definition release (t : UiTree) (id : UiNodeId) : option UiTree :=
  let i := n_index id in
  match slots t !z i, generations t !z i with
  | Some _, Some g =>
      Some {| slots := zset (slots t) i None; generations := zset (generations t) i (g + 1);
              free := free t ++ [i]; root := root t; count := saturating_sub (count t) 1;
              config := config t |}
  | _, _ => None
  end.

Fixpoint release_all (t : UiTree) (ids : list UiNodeId) : option UiTree :=
  match ids with
  | [] => Some t
  | id :: ids => match release t id with Some t => release_all t ids | None => None end
  end.

(** [generations[i].checked_add(1)?] for each collected node. *)
Fixpoint check_generations (t : UiTree) (ids : list UiNodeId) : option (result UiError unit) :=
  match ids with
  | [] => Some (Ok tt)
  | id :: ids =>
      match generations t !z (n_index id) with
      | None => None
      | Some g =>
          match checked_add 32 g 1 with
          | None => Some (Err UiError.IndexOverflow)
          | Some _ => check_generations t ids
          end
      end
  end.

Definition destroy (A : alloc) (t : UiTree) (id : UiNodeId)
  : option (UiTree * result UiError unit) :=
  if bool_decide (id = root t) then Some (t, Err UiError.InvalidNode)
  else if negb (A 0%nat) then Some (t, Err UiError.AllocationFailed)
  else
    match collect_subtree (walk_fuel t) t id [] with
    | None => None
    | Some (_, Err e) => Some (t, Err e)
    | Some (order, Ok _) =>
        if negb (A 1%nat) then Some (t, Err UiError.AllocationFailed)
        else
          match check_generations t order with
          | None => None
          | Some (Err e) => Some (t, Err e)
          | Some (Ok _) =>
              match parent t id with
              | Err e => Some (t, Err e)
              | Ok None => Some (t, Err UiError.InvalidNode)
              | Ok (Some p) =>
                  match unlink t p id with
                  | (t, Err e) => Some (t, Err e)
                  | (t, Ok _) =>
                      match release_all t (rev order) with
                      | Some t => Some (t, Ok tt)
                      | None => None
                      end
                  end
              end
          end
    end.
