(* ===== verification/UiTreeInv.v ===== *)
(** The invariant of the UI tree and what each operation of [UiTree] does to
    it; the theorems built on these lemmas are in [UiCommands].

    [Links] is the abstract view of the tree: the parent and the children of
    each live handle, as a function.  Its well-formedness [links_ok] (one root,
    children and parents agree, no repeated child, every node reaches the
    root) is preserved by the three edits of the source: adding a leaf, moving
    an edge, removing a subtree.  The slots give the other half of the
    invariant (generations, free list, count). *)

From Stdlib Require Import Permutation.
From S2P Require Import Prelude F32 UiComponents UiTree.

Local Open Scope Z_scope.
Local Open Scope kit_scope.

(** ** The abstract links *)
Abbreviation links := (UiNodeId -> option (option UiNodeId * list UiNodeId)).

Section Links.
Implicit Types (L : links) (x y p c id r : UiNodeId) (l cs sub : list UiNodeId).

(** [lpath L x l]: [l] is the walk from [x] up to the root. *)
Inductive lpath L : UiNodeId -> list UiNodeId -> Prop :=
| lpath_root x cs : L x = Some (None, cs) -> lpath L x [x]
| lpath_up x p cs l : L x = Some (Some p, cs) -> lpath L p l -> lpath L x (x :: l).

Definition below L id x : Prop := exists l, lpath L x l /\ id ∈ l.

Record links_ok L r : Prop := {
  l_root : exists cs, L r = Some (None, cs);
  l_only : forall x cs, L x = Some (None, cs) -> x = r;
  l_child : forall p q cs c, L p = Some (q, cs) ->
    c ∈ cs <-> exists ds, L c = Some (Some p, ds);
  l_nodup : forall p q cs, L p = Some (q, cs) -> NoDup cs;
  l_path : forall x, is_Some (L x) -> exists l, lpath L x l
}.

Lemma lpath_head L x l : lpath L x l -> exists l', l = x :: l'.
Proof. intros []; eauto. Qed.

Lemma lpath_live L x l : lpath L x l -> is_Some (L x).
Proof. intros []; eauto. Qed.

Lemma lpath_fun L x l l' : lpath L x l -> lpath L x l' -> l = l'.
Proof.
  intros H. revert l'. induction H as [x cs Hx|x p cs l Hx Hp IH]; intros l' H';
    destruct H' as [x cs' Hx'|x p' cs' l' Hx' Hp']; simplify_eq; [done|].
  f_equal. by apply IH.
Qed.

Lemma lpath_live_all L x l : lpath L x l -> forall y, y ∈ l -> is_Some (L y).
Proof.
  intros H. induction H as [x cs Hx|x p cs l Hx Hp IH]; intros y Hy.
  - apply list_elem_of_singleton in Hy as ->. eauto.
  - apply elem_of_cons in Hy as [->|Hy]; eauto.
Qed.

(** Each element of a walk has the rest of the walk as its own. *)
Lemma lpath_suffix L x l y : lpath L x l -> y ∈ l -> exists k l', l = k ++ l' /\ lpath L y l'.
Proof.
  intros H. induction H as [x cs Hx|x p cs l Hx Hp IH]; intros Hy.
  - apply list_elem_of_singleton in Hy as ->. exists [], [x]. split; [done|]. by econstructor.
  - apply elem_of_cons in Hy as [->|Hy].
    + exists [], (x :: l). split; [done|]. by econstructor.
    + destruct (IH Hy) as (k & l' & -> & H'). by exists (x :: k), l'.
Qed.

Lemma lpath_nodup L x l : lpath L x l -> NoDup l.
Proof.
  intros H. induction H as [x cs Hx|x p cs l Hx Hp IH].
  - apply NoDup_singleton.
  - apply NoDup_cons_2; [|done]. intros Hin.
    destruct (lpath_suffix _ _ _ _ Hp Hin) as (k & l' & -> & H').
    assert (E : x :: k ++ l' = l').
    { eapply lpath_fun; [by eapply lpath_up|done]. }
    apply (f_equal length) in E. rewrite length_cons, length_app in E. lia.
Qed.

(** A node is not among its parent's ancestors. *)
Lemma parent_not_below L x p cs l : L x = Some (Some p, cs) -> lpath L p l -> x ∉ l.
Proof.
  intros Hx Hp. pose proof (lpath_nodup _ _ _ (lpath_up _ _ _ _ _ Hx Hp)) as H.
  by apply NoDup_cons_1_1 in H.
Qed.

Lemma lpath_ext L L' x l :
  (forall y, y ∈ l -> fst <$> L y = fst <$> L' y) -> lpath L x l -> lpath L' x l.
Proof.
  intros E H. induction H as [x cs Hx|x p cs l Hx Hp IH].
  - specialize (E x ltac:(by apply list_elem_of_singleton)). rewrite Hx in E. cbn in E.
    destruct (L' x) as [[q ds]|] eqn:Hx'; simplify_eq/=. by econstructor.
  - pose proof (E x (list_elem_of_here _ _)) as Ex. rewrite Hx in Ex. cbn in Ex.
    destruct (L' x) as [[q ds]|] eqn:Hx'; simplify_eq/=.
    econstructor; [done|]. apply IH. intros y Hy. apply E. by apply elem_of_cons; right.
Qed.

Lemma links_ok_ext L L' r : (forall x, L x = L' x) -> links_ok L r -> links_ok L' r.
Proof.
  intros E [H1 H2 H3 H4 H5]. constructor.
  - by rewrite <- E.
  - intros x cs. rewrite <- E. apply H2.
  - intros p q cs c. rewrite <- E. intros Hp. rewrite <- E. by eapply H3.
  - intros p q cs. rewrite <- E. apply H4.
  - intros x. rewrite <- E. intros Hx. destruct (H5 x Hx) as [l Hl]. exists l.
    eapply lpath_ext; [|done]. intros y _. by rewrite E.
Qed.

Lemma links_ok_root L r : (exists cs, L r = Some (None, cs)) ->
  (forall x, x <> r -> L x = None) -> (forall cs, L r = Some (None, cs) -> cs = []) ->
  links_ok L r.
Proof.
  intros [cs Hr] Hn Hc. specialize (Hc _ Hr) as ->.
  assert (D : forall x v, L x = Some v -> x = r /\ v = (None, [])).
  { intros x v Hx. destruct (decide (x = r)) as [->|Hne]; [by simplify_eq|].
    by rewrite (Hn x Hne) in Hx. }
  constructor; [by exists []| | | |].
  - intros x cs Hx. by apply D in Hx as [? _].
  - intros p q cs c Hp. apply D in Hp as [-> ?]. simplify_eq. split; [by intros ?%elem_of_nil|].
    intros [ds Hd]. apply D in Hd as [_ ?]. done.
  - intros p q cs Hp. apply D in Hp as [_ ?]. simplify_eq. constructor.
  - intros x [v Hx]. pose proof (D _ _ Hx) as [-> ->]. exists [r]. by econstructor.
Qed.

(** *** Adding a leaf *)
Definition add_leaf L p id : links := fun x =>
  if decide (x = id) then Some (Some p, [])
  else match L x with
       | Some (q, cs) => Some (q, if decide (x = p) then cs ++ [id] else cs)
       | None => None
       end.

Lemma add_leaf_ok L r p id : links_ok L r -> L id = None -> is_Some (L p) ->
  links_ok (add_leaf L p id) r.
Proof.
  intros [H1 H2 H3 H4 H5] Hid Hp.
  assert (Hpid : p <> id) by (intros ->; destruct Hp; congruence).
  assert (K : forall x l, lpath L x l -> lpath (add_leaf L p id) x l).
  { intros x l Hl. eapply lpath_ext; [|done]. intros y Hy. unfold add_leaf.
    destruct (lpath_live_all _ _ _ Hl _ Hy) as [[q cs] Hq].
    destruct (decide (y = id)) as [->|]; [congruence|]. by rewrite Hq. }
  constructor; unfold add_leaf in *.
  - destruct H1 as [cs Hr]. rewrite decide_False by congruence. rewrite Hr. eauto.
  - intros x cs. case_decide; [done|]. destruct (L x) as [[q ds]|] eqn:E; [|done].
    intros ?; simplify_eq. by eapply H2.
  - intros p' q cs c Hp'. destruct (decide (p' = id)) as [->|Hne].
    { simplify_eq. split; [by intros ?%elem_of_nil|]. intros [ds Hd].
      destruct (decide (c = id)); [simplify_eq|].
      destruct (L c) as [[q ds']|] eqn:E; [|done]. simplify_eq.
      destruct (H5 c ltac:(eauto)) as [l Hl]. destruct Hl; simplify_eq.
      apply lpath_live in Hl as [? ?]. congruence. }
    destruct (L p') as [[q' cs']|] eqn:Ep'; [|done]. simplify_eq.
    destruct (decide (c = id)) as [->|Hc].
    + assert (id ∉ cs').
      { intros Hin. apply (H3 _ _ _ _ Ep') in Hin as [? ?]. congruence. }
      destruct (decide (p' = p)) as [->|Hpp].
      * rewrite elem_of_app, list_elem_of_singleton. split; eauto.
      * split; [done|]. intros [ds ?]. simplify_eq.
    + transitivity (c ∈ cs').
      { destruct (decide (p' = p)); [|done]. rewrite elem_of_app, list_elem_of_singleton. tauto. }
      rewrite (H3 _ _ _ _ Ep'). split.
      * intros [ds ->]. eauto.
      * intros [ds Hd]. destruct (L c) as [[? ?]|]; [|done]. simplify_eq. eauto.
  - intros p' q cs. case_decide; [intros; simplify_eq; constructor|].
    destruct (L p') as [[q' cs']|] eqn:Ep'; [|done]. intros; simplify_eq.
    specialize (H4 _ _ _ Ep'). case_decide; [|done].
    apply list.NoDup_app. split; [done|]. split; [|apply NoDup_singleton].
    intros y Hy ->%list_elem_of_singleton. apply (H3 _ _ _ _ Ep') in Hy as [? ?]. congruence.
  - intros x. case_decide as Hx.
    + subst. intros _. destruct (H5 p Hp) as [l Hl]. exists (id :: l).
      eapply lpath_up; [by rewrite decide_True|]. by apply K.
    + destruct (L x) as [[q ds]|] eqn:E; [|by intros [? ?]]. intros _.
      destruct (H5 x ltac:(eauto)) as [l Hl]. exists l. by apply K.
Qed.

(** *** Removing a child from its parent's list *)
Lemma elem_of_without id cs c : c ∈ without id cs <-> c ∈ cs /\ c <> id.
Proof.
  unfold without. by rewrite !list_elem_of_In, filter_In, negb_true_iff, bool_decide_eq_false.
Qed.

Lemma without_nodup id cs : NoDup cs -> NoDup (without id cs).
Proof. rewrite !NoDup_ListNoDup. apply List.NoDup_filter. Qed.

(** *** Moving an edge *)
Definition move_link L op np id : links := fun x =>
  match L x with
  | Some (q, cs) =>
      let cs := if decide (x = op) then without id cs else cs in
      Some (if decide (x = id) then Some np else q,
            if decide (x = np) then cs ++ [id] else cs)
  | None => None
  end.

Lemma move_children L r op np id ch q cs p : links_ok L r ->
  L id = Some (Some op, ch) -> id <> np -> L p = Some (q, cs) ->
  let cs1 := if decide (p = op) then without id cs else cs in
  let cs2 := if decide (p = np) then cs1 ++ [id] else cs1 in
  NoDup cs2 /\ forall c, c ∈ cs2 <-> if decide (c = id) then p = np else c ∈ cs.
Proof.
  intros [H1 H2 H3 H4 H5] Hid Hnp Hp cs1 cs2.
  assert (Hin : id ∈ cs <-> p = op).
  { rewrite (H3 _ _ _ _ Hp). split; [intros [? ?]; congruence|intros ->; eauto]. }
  assert (E1 : forall c, c ∈ cs1 <-> c ∈ cs /\ c <> id).
  { intros c. unfold cs1. case_decide; [apply elem_of_without|].
    split; [|tauto]. intros Hc. split; [done|]. intros ->. tauto. }
  assert (N1 : NoDup cs1).
  { unfold cs1. case_decide; [apply without_nodup|]; by eapply H4. }
  split; unfold cs2.
  - case_decide; [|done]. apply list.NoDup_app. split; [done|]. split; [|apply NoDup_singleton].
    intros y Hy ->%list_elem_of_singleton. by apply E1 in Hy as [_ ?].
  - intros c. assert (E2 : c ∈ cs2 <-> c ∈ cs1 \/ c = id /\ p = np).
    { unfold cs2. case_decide; [rewrite elem_of_app, list_elem_of_singleton; tauto|tauto]. }
    fold cs2. rewrite E2, E1. case_decide; tauto.
Qed.

Lemma move_link_ok L r op np id ch lnp : links_ok L r ->
  L id = Some (Some op, ch) -> lpath L np lnp -> id ∉ lnp ->
  links_ok (move_link L op np id) r.
Proof.
  intros HL Hid Hnp Hfree. pose proof HL as [H1 H2 H3 H4 H5].
  assert (Hne : id <> np).
  { intros ->. destruct (lpath_head _ _ _ Hnp) as [? ->]. apply Hfree. apply elem_of_cons; by left. }
  pose proof (fun p q cs => move_children L r op np id ch q cs p HL Hid Hne) as MC.
  assert (Hlnp : lpath (move_link L op np id) np lnp).
  { eapply lpath_ext; [|done]. intros y Hy. unfold move_link.
    destruct (L y) as [[q cs]|]; [|done]. cbn. rewrite decide_False; [done|]. by intros ->. }
  constructor.
  - destruct H1 as [cs Hr]. unfold move_link. rewrite Hr.
    rewrite (decide_False (P := r = id)) by congruence. eauto.
  - intros x cs. unfold move_link. destruct (L x) as [[q ds]|] eqn:E; [|done].
    case_decide; intros; simplify_eq. by eapply H2.
  - intros p q cs c. unfold move_link at 1. destruct (L p) as [[q' cs']|] eqn:Ep; [|done].
    intros [= _ <-]. destruct (MC _ _ _ Ep) as [_ Hc]. rewrite Hc. unfold move_link.
    destruct (decide (c = id)) as [->|Hcid].
    + rewrite Hid. split; [intros ->; eauto|]. intros [ds ?]. by simplify_eq.
    + rewrite (H3 _ _ _ _ Ep). split.
      * intros [ds ->]. eauto.
      * intros [ds Hd]. destruct (L c) as [[? ?]|]; [|done]. simplify_eq. eauto.
  - intros p q cs. unfold move_link. destruct (L p) as [[q' cs']|] eqn:Ep; [|done].
    intros [= _ <-]. by apply (MC _ _ _ Ep).
  - intros x Hx. assert (Hl : is_Some (L x)).
    { destruct Hx as [? Hx]. unfold move_link in Hx. by destruct (L x). }
    destruct (H5 x Hl) as [l Hp]. clear Hx Hl.
    induction Hp as [x cs Hx|x p cs l Hx Hp [l' IH]].
    + exists [x]. unfold move_link. econstructor. rewrite Hx.
      rewrite (decide_False (P := x = id)) by congruence. done.
    + destruct (decide (x = id)) as [->|Hxi].
      * exists (id :: lnp). eapply lpath_up; [|done]. unfold move_link. rewrite Hx.
        by rewrite (decide_True (P := id = id)).
      * exists (x :: l'). eapply lpath_up; [|done]. unfold move_link. rewrite Hx.
        by rewrite (decide_False (P := x = id)).
Qed.

(** *** Removing a subtree *)
Definition drop_subtree L sub p id : links := fun x =>
  if decide (x ∈ sub) then None
  else match L x with
       | Some (q, cs) => Some (q, if decide (x = p) then without id cs else cs)
       | None => None
       end.

Lemma below_child L id c p ds : L c = Some (Some p, ds) ->
  below L id c <-> c = id /\ (exists l, lpath L p l) \/ below L id p.
Proof.
  intros Hc. split.
  - intros (l & Hl & Hin). destruct Hl as [x cs Hx|x p' cs l Hx Hp]; simplify_eq.
    apply elem_of_cons in Hin as [->|Hin]; [left; eauto|]. right. by exists l.
  - intros [[-> [l Hl]]|(l & Hl & Hin)].
    + exists (id :: l). split; [by eapply lpath_up|]. apply elem_of_cons; by left.
    + exists (c :: l). split; [by eapply lpath_up|]. apply elem_of_cons; by right.
Qed.

Lemma drop_subtree_ok L r sub p id ch : links_ok L r -> L id = Some (Some p, ch) ->
  (forall x, x ∈ sub <-> below L id x) -> links_ok (drop_subtree L sub p id) r.
Proof.
  intros HL Hid Hsub. pose proof HL as [H1 H2 H3 H4 H5].
  assert (Hr : r ∉ sub).
  { rewrite Hsub. intros (l & Hl & Hin). destruct H1 as [cs Hr].
    destruct Hl; simplify_eq. apply list_elem_of_singleton in Hin as ->. congruence. }
  assert (Hch : forall c q ds, L c = Some (Some q, ds) -> q ∉ sub -> c ∈ sub <-> c = id).
  { intros c q ds Hc Hq. rewrite Hsub in Hq |- *. rewrite (below_child _ _ _ _ _ Hc).
    split; [tauto|]. intros ->. left. split; [done|]. destruct (H5 id ltac:(eauto)) as [l Hl].
    destruct Hl; simplify_eq; eauto. }
  constructor; unfold drop_subtree.
  - destruct H1 as [cs E]. rewrite decide_False by done. rewrite E. eauto.
  - intros x cs. case_decide; [done|]. destruct (L x) as [[q ds]|] eqn:E; [|done].
    intros; simplify_eq. by eapply H2.
  - intros p' q cs c. case_decide as Hp'; [done|].
    destruct (L p') as [[q' cs']|] eqn:Ep; [|done]. intros [= _ <-].
    transitivity (c ∈ cs' /\ c <> id).
    { case_decide as Hpp; [apply elem_of_without|]. split; [|tauto]. intros Hc. split; [done|].
      intros ->. apply (H3 _ _ _ _ Ep) in Hc as [? ?]. congruence. }
    rewrite (H3 _ _ _ _ Ep). split.
    + intros [[ds Hc] Hne]. rewrite decide_False by (rewrite (Hch _ _ _ Hc Hp'); done).
      rewrite Hc. eauto.
    + intros [ds Hc]. case_decide as Hcs; [done|]. destruct (L c) as [[? ?]|] eqn:Ec; [|done].
      simplify_eq. split; [eauto|]. by rewrite <- (Hch _ _ _ Ec Hp').
  - intros p' q cs. case_decide; [done|]. destruct (L p') as [[q' cs']|] eqn:Ep; [|done].
    intros [= _ <-]. specialize (H4 _ _ _ Ep). case_decide; [by apply without_nodup|done].
  - intros x. case_decide as Hx; [by intros [? ?]|]. destruct (L x) as [v|] eqn:E; [|by intros [? ?]].
    intros _. destruct (H5 x ltac:(eauto)) as [l Hl]. exists l. eapply lpath_ext; [|exact Hl].
    intros y Hy. cbn. rewrite decide_False.
    { by destruct (L y) as [[? ?]|]. }
    rewrite Hsub in Hx |- *. intros (ly & Hly & Hin). apply Hx.
    destruct (lpath_suffix _ _ _ _ Hl Hy) as (k & l' & -> & Hy').
    rewrite (lpath_fun _ _ _ _ Hly Hy') in Hin. exists (k ++ l'). split; [done|].
    apply elem_of_app. by right.
Qed.
End Links.

(** ** The slots *)
Definition slot_ids (t : UiTree) : list (option UiNodeId) := map (option_map nd_id) (slots t).

Definition occupied (ids : list (option UiNodeId)) : Z := zlen (omap id ids).

Record slots_ok (ids : list (option UiNodeId)) (gens free : list Z) (count : Z) : Prop := {
  so_len : zlen gens = zlen ids;
  so_max : zlen ids <= 2 ^ 32;
  so_ids : forall i x, ids !z i = Some (Some x) ->
    n_index x = i /\ gens !z i = Some (n_generation x);
  so_gens : forall i g, gens !z i = Some g -> 1 <= g <= U32_MAX;
  so_nodup : NoDup free;
  so_free : forall i, i ∈ free -> ids !z i = Some None;
  so_count : count = occupied ids
}.

Lemma occupied_app k l : occupied (k ++ l) = occupied k + occupied l.
Proof. unfold occupied. by rewrite omap_app, zlen_app. Qed.

Lemma zset_split {A} (l : list A) i x y : l !z i = Some x ->
  exists k r, l = k ++ x :: r /\ zset l i y = k ++ y :: r.
Proof.
  intros H. pose proof (proj1 (zget_is_Some l i) ltac:(eauto)) as Hi.
  rewrite zget_lookup in H by lia.
  exists (take (Z.to_nat i) l), (drop (S (Z.to_nat i)) l). split.
  - by rewrite take_drop_middle.
  - unfold zset. destruct (Z.ltb_spec i 0); [lia|].
    by rewrite insert_take_drop by (eapply lookup_lt_Some; eauto).
Qed.

Lemma occupied_zset ids i o o' : ids !z i = Some o ->
  occupied (zset ids i o') =
  occupied ids - (if o then 1 else 0) + (if o' then 1 else 0).
Proof.
  intros H. destruct (zset_split ids i o o' H) as (k & r & -> & ->).
  rewrite !occupied_app. unfold occupied. destruct o, o'; cbn; rewrite ?zlen_cons; lia.
Qed.

Lemma slot_ids_get t i : slot_ids t !z i = option_map nd_id <$> slots t !z i.
Proof. unfold slot_ids, zget. case_match; [done|]. apply list_lookup_fmap. Qed.

Lemma map_zset {A B} (f : A -> B) l i x : map f (zset l i x) = zset (map f l) i (f x).
Proof. unfold zset. case_match; [done|]. apply (list_fmap_insert f). Qed.

Lemma slot_ids_len t : zlen (slot_ids t) = zlen (slots t).
Proof. unfold zlen, slot_ids. by rewrite length_map. Qed.

(** ** The tree *)
Definition link (t : UiTree) : links := fun x =>
  (fun n => (nd_parent n, nd_children n)) <$> find_node t x.

Record tree_ok (t : UiTree) : Prop := {
  ok_slots : slots_ok (slot_ids t) (generations t) (free t) (count t);
  ok_links : links_ok (link t) (root t);
  ok_depth : 0 < max_depth (config t);
  ok_nodes : count t <= max_nodes (config t)
}.

Lemma find_node_Some t x n : find_node t x = Some n <->
  nd_id n = x /\ slots t !z (n_index x) = Some (Some n).
Proof.
  unfold find_node, slot_node. split.
  - intros H. simp. eauto.
  - intros [<- ->]. by rewrite decide_True.
Qed.

Lemma link_Some t x v : link t x = Some v <->
  exists n, find_node t x = Some n /\ v = (nd_parent n, nd_children n).
Proof. unfold link. rewrite fmap_Some. done. Qed.

Lemma link_find t x n : find_node t x = Some n -> link t x = Some (nd_parent n, nd_children n).
Proof. intros H. unfold link. by rewrite H. Qed.

Lemma link_None t x : link t x = None <-> find_node t x = None.
Proof. unfold link. by rewrite fmap_None. Qed.

Lemma live_slot t x : is_Some (link t x) <-> slot_ids t !z (n_index x) = Some (Some x).
Proof.
  rewrite slot_ids_get. split.
  - intros [v (n & [Hid Hs]%find_node_Some & _)%link_Some]. rewrite Hs. cbn. by rewrite Hid.
  - intros H. destruct (slots t !z (n_index x)) as [[n|]|] eqn:E; simplify_eq/=.
    eexists. apply link_find. by apply find_node_Some.
Qed.

Lemma valid_live t x : tree_ok t -> valid_slot t x = true <-> is_Some (link t x).
Proof.
  intros [S _ _ _]. rewrite live_slot. unfold valid_slot, slot_node.
  rewrite andb_true_iff, bool_decide_eq_true, slot_ids_get. split.
  - intros [Hg Hs]. destruct (slots t !z (n_index x)) as [[n|]|] eqn:E; try done. cbn.
    destruct (so_ids _ _ _ _ S (n_index x) (nd_id n)) as [Hi Hg'].
    { by rewrite slot_ids_get, E. }
    do 2 f_equal. destruct (nd_id n), x; cbn in *. congruence.
  - intros H. rewrite <- slot_ids_get in H. apply (so_ids _ _ _ _ S) in H as H'. destruct H' as [_ ->].
    split; [done|]. rewrite slot_ids_get in H. by destruct (slots t !z (n_index x)) as [[n|]|].
Qed.

Lemma find_set_node t n n' x : find_node t (nd_id n) = Some n -> nd_id n' = nd_id n ->
  find_node (set_node t n') x = if decide (x = nd_id n) then Some n' else find_node t x.
Proof.
  intros [_ Hn]%find_node_Some Hid. unfold find_node at 1, slot_node, set_node. cbn. rewrite Hid.
  destruct (decide (n_index x = n_index (nd_id n))) as [E|E].
  - rewrite E, zget_zset_eq by (apply zget_is_Some; eauto). rewrite Hid.
    destruct (decide (x = nd_id n)) as [->|Hne].
    + by rewrite decide_True.
    + rewrite decide_False by done. symmetry. unfold find_node, slot_node. rewrite E, Hn.
      by rewrite decide_False.
  - rewrite zget_zset_ne by done. rewrite decide_False by (by intros ->). done.
Qed.

(** Writing a node back keeps the slots' identities. *)
Lemma slot_ids_set_node t n n' : find_node t (nd_id n) = Some n -> nd_id n' = nd_id n ->
  slot_ids (set_node t n') = slot_ids t.
Proof.
  intros [_ Hn]%find_node_Some Hid. unfold slot_ids at 1, set_node. cbn. rewrite map_zset. cbn.
  rewrite Hid. apply zset_id. by rewrite slot_ids_get, Hn.
Qed.

(** [t'] has the structure of [t]: only contents, rectangles and dirty flags differ. *)
Record same_shape (t t' : UiTree) : Prop := {
  sh_link : forall x, link t x = link t' x;
  sh_ids : slot_ids t' = slot_ids t;
  sh_gens : generations t' = generations t;
  sh_free : free t' = free t;
  sh_root : root t' = root t;
  sh_count : count t' = count t;
  sh_config : config t' = config t
}.

#[global] Instance same_shape_pre : PreOrder same_shape.
Proof.
  split.
  - intros t. by constructor.
  - intros a b c [] []. constructor; congruence.
Qed.

Lemma same_shape_ok t t' : same_shape t t' -> tree_ok t -> tree_ok t'.
Proof.
  intros [Hl Hi Hg Hf Hr Hc Hk] [S L D N]. constructor; rewrite ?Hi, ?Hg, ?Hf, ?Hr, ?Hc, ?Hk; try done.
  by apply (links_ok_ext (link t)).
Qed.

Lemma same_shape_set t n n' : find_node t (nd_id n) = Some n -> nd_id n' = nd_id n ->
  nd_parent n' = nd_parent n -> nd_children n' = nd_children n -> same_shape t (set_node t n').
Proof.
  intros H Hid Hp Hc. constructor; try done; [|by eapply slot_ids_set_node].
  intros x. unfold link. rewrite (find_set_node _ _ _ _ H Hid).
  case_decide as E; [|done]. subst x. rewrite H. cbn. congruence.
Qed.

Lemma same_shape_fuel t t' : same_shape t t' -> walk_fuel t' = walk_fuel t.
Proof.
  intros H. unfold walk_fuel. f_equal. apply Nat2Z.inj. change (zlen (slots t') = zlen (slots t)).
  by rewrite <- !slot_ids_len, (sh_ids _ _ H).
Qed.

(** ** Walks end within the fuel *)
Lemma live_bound t x : is_Some (link t x) -> 0 <= n_index x < zlen (slots t).
Proof. intros H%live_slot. rewrite <- slot_ids_len. apply zget_is_Some. eauto. Qed.

Lemma live_inj t x y : is_Some (link t x) -> is_Some (link t y) -> n_index x = n_index y -> x = y.
Proof. rewrite !live_slot. intros Hx Hy E. rewrite E in Hx. congruence. Qed.

Lemma live_list_short t l : NoDup l -> (forall x, x ∈ l -> is_Some (link t x)) ->
  (length l <= length (slots t))%nat.
Proof.
  intros HN Hl. rewrite <- (length_map (fun x => Z.to_nat (n_index x)) l).
  rewrite <- (length_seq (length (slots t)) 0). apply List.NoDup_incl_length.
  - apply NoDup_ListNoDup, NoDup_fmap_2_strong; [|done]. intros x y Hx Hy E.
    pose proof (live_bound t x (Hl _ Hx)). pose proof (live_bound t y (Hl _ Hy)).
    apply (live_inj t); auto. lia.
  - intros i Hi. apply in_map_iff in Hi as (x & <- & Hx). apply list_elem_of_In in Hx.
    pose proof (live_bound t x (Hl _ Hx)). apply in_seq. unfold zlen in *. lia.
Qed.

Lemma lpath_short t x l : lpath (link t) x l -> (length l < walk_fuel t)%nat.
Proof.
  intros H. unfold walk_fuel. apply Nat.lt_succ_r, live_list_short.
  - by eapply lpath_nodup.
  - by eapply lpath_live_all.
Qed.

Lemma find_path t x l : lpath (link t) x l -> exists n, find_node t x = Some n.
Proof. intros H. destruct (lpath_live _ _ _ H) as [v (n & Hn & _)%link_Some]. eauto. Qed.

(** A step of a walk: at the root, or one link up. *)
Lemma lpath_step t x l n : lpath (link t) x l -> find_node t x = Some n ->
  match nd_parent n with
  | None => l = [x]
  | Some p => exists l', l = x :: l' /\ lpath (link t) p l'
  end.
Proof.
  intros H Hn. apply link_find in Hn. destruct H as [x cs Hx|x p cs l Hx Hp]; rewrite Hx in Hn;
    injection Hn as <- _; eauto.
Qed.

Lemma lpath_shape t t' x l : same_shape t t' -> lpath (link t) x l -> lpath (link t') x l.
Proof. intros H. apply lpath_ext. intros y _. by rewrite (sh_link _ _ H). Qed.

Lemma mark_spec fuel : forall t x l, lpath (link t) x l -> (length l <= fuel)%nat ->
  exists t', mark_ancestors_dirty fuel t x = Some (t', Ok tt) /\ same_shape t t' /\
    forall y, find_node t' y = if decide (y ∈ l) then nd_mark_dirty <$> find_node t y
                               else find_node t y.
Proof.
  induction fuel as [|fuel IH]; intros t x l Hl Hlen.
  { destruct (lpath_head _ _ _ Hl) as [l' ->]. cbn in Hlen. lia. }
  destruct (find_path _ _ _ Hl) as [n Hn]. cbn [mark_ancestors_dirty]. rewrite Hn.
  pose proof (proj1 (proj1 (find_node_Some _ _ _) Hn)) as Hid. subst x.
  pose proof (same_shape_set t n (nd_mark_dirty n) Hn eq_refl eq_refl eq_refl) as Hsh.
  pose proof (find_set_node t n (nd_mark_dirty n)) as Hset.
  pose proof (lpath_step _ _ _ _ Hl Hn) as Hst. destruct (nd_parent n) as [p|] eqn:Ep.
  - destruct Hst as (l' & -> & Hp). cbn in Hlen.
    destruct (IH _ p l' (lpath_shape _ _ _ _ Hsh Hp) ltac:(lia)) as (t' & -> & Hsh' & Hf).
    exists t'. split; [done|]. split; [by etransitivity|]. intros y. rewrite Hf, (Hset y Hn eq_refl).
    assert (nd_id n ∉ l').
    { eapply parent_not_below; [|done]. rewrite (link_find _ _ _ Hn), Ep. done. }
    destruct (decide (y = nd_id n)) as [->|Hne].
    + rewrite decide_False by done. rewrite decide_True by (apply elem_of_cons; by left).
      by rewrite Hn.
    + destruct (decide (y ∈ l')).
      * rewrite decide_True by (apply elem_of_cons; by right). done.
      * rewrite decide_False by (rewrite elem_of_cons; tauto). done.
  - subst l. eexists. split; [done|]. split; [done|]. intros y. rewrite (Hset y Hn eq_refl).
    destruct (decide (y = nd_id n)) as [->|Hne].
    + rewrite decide_True by (by apply list_elem_of_singleton). by rewrite Hn.
    + rewrite decide_False by (by rewrite list_elem_of_singleton). done.
Qed.

Lemma depth_spec fuel : forall t x l d, lpath (link t) x l -> (length l <= fuel)%nat ->
  0 <= d < max_depth (config t) -> d + zlen l <= 2 ^ 63 ->
  depth fuel t x d =
  Some (if d + zlen l - 1 <? max_depth (config t) then Ok (d + zlen l - 1)
        else Err UiError.DepthExceeded).
Proof.
  induction fuel as [|fuel IH]; intros t x l d Hl Hlen Hd Hb.
  { destruct (lpath_head _ _ _ Hl) as [l' ->]. cbn in Hlen. lia. }
  destruct (find_path _ _ _ Hl) as [n Hn]. cbn [depth]. rewrite Hn.
  pose proof (lpath_step _ _ _ _ Hl Hn) as Hst. destruct (nd_parent n) as [p|] eqn:Ep.
  - destruct Hst as (l' & -> & Hp). rewrite zlen_cons in *. cbn in Hlen.
    pose proof (zlen_nonneg l'). rewrite checked_add_ok by (unfold umax; lia).
    destruct (lpath_head _ _ _ Hp) as [l'' ->]. rewrite zlen_cons in *. pose proof (zlen_nonneg l'').
    destruct (Z.leb_spec (max_depth (config t)) (d + 1)).
    + by rewrite (proj2 (Z.ltb_ge _ _)) by lia.
    + rewrite (IH _ _ _ (d + 1) Hp) by (rewrite ?zlen_cons; lia). rewrite zlen_cons.
      by replace (d + 1 + (zlen l'' + 1) - 1) with (d + (zlen l'' + 1 + 1) - 1) by lia.
  - subst l. rewrite zlen_cons, zlen_nil. replace (d + (0 + 1) - 1) with d by lia.
    by rewrite (proj2 (Z.ltb_lt _ _)) by lia.
Qed.

Lemma cycle_spec fuel : forall t id x l, lpath (link t) x l -> (length l <= fuel)%nat ->
  check_cycle fuel t id x = Some (if decide (id ∈ l) then Err UiError.Cycle else Ok tt).
Proof.
  induction fuel as [|fuel IH]; intros t id x l Hl Hlen.
  { destruct (lpath_head _ _ _ Hl) as [l' ->]. cbn in Hlen. lia. }
  cbn [check_cycle]. destruct (decide (x = id)) as [->|Hne].
  { destruct (lpath_head _ _ _ Hl) as [l' ->].
    by rewrite decide_True by (apply elem_of_cons; by left). }
  destruct (find_path _ _ _ Hl) as [n Hn]. unfold parent, node. rewrite Hn. cbn [ok_or result_bind].
  pose proof (lpath_step _ _ _ _ Hl Hn) as Hst. destruct (nd_parent n) as [p|] eqn:Ep.
  - destruct Hst as (l' & -> & Hp). cbn in Hlen. rewrite (IH _ id _ _ Hp) by lia.
    destruct (decide (id ∈ l')).
    + by rewrite decide_True by (apply elem_of_cons; by right).
    + by rewrite decide_False by (rewrite elem_of_cons; intuition congruence).
  - subst l. by rewrite decide_False by (rewrite list_elem_of_singleton; congruence).
Qed.

(** ** The preorder

    [order fuel t x] is the reference: the node, then the orders of its
    children in sibling order. *)
Definition kids (t : UiTree) (x : UiNodeId) : list UiNodeId :=
  match find_node t x with Some n => nd_children n | None => [] end.

Fixpoint order (fuel : nat) (t : UiTree) (x : UiNodeId) : list UiNodeId :=
  match fuel with
  | O => []
  | S fuel => x :: (kids t x ≫= order fuel t)
  end.

Lemma try_each_ok f g cs : (forall c, c ∈ cs -> forall out, f c out = Some (out ++ g c, Ok tt)) ->
  forall out, try_each f cs out = Some (out ++ (cs ≫= g), Ok tt).
Proof.
  intros H. induction cs as [|c cs IH]; intros out; cbn [try_each].
  - cbn. by rewrite app_nil_r.
  - rewrite (H c (list_elem_of_here _ _)). rewrite IH.
    + cbn. by rewrite app_assoc.
    + intros c' Hc'. apply H. by apply elem_of_cons; right.
Qed.

Lemma bind_ext {X Y} (f g : X -> list Y) (cs : list X) :
  (forall c, c ∈ cs -> f c = g c) -> cs ≫= f = cs ≫= g.
Proof.
  induction cs as [|c cs IH]; intros H; [done|]. cbn.
  rewrite (H c (list_elem_of_here _ _)), IH; [done|]. intros c' Hc'. apply H. by apply elem_of_cons; right.
Qed.

Section Order.
Context (t : UiTree) (HL : links_ok (link t) (root t)).

Definition enough (fuel : nat) (x : UiNodeId) : Prop :=
  exists l, lpath (link t) x l /\ (length (slots t) < fuel + length l)%nat.

Lemma kid_parent x c : is_Some (link t x) -> c ∈ kids t x <-> exists ds, link t c = Some (Some x, ds).
Proof.
  intros [v (n & Hn & _)%link_Some]. unfold kids. rewrite Hn.
  apply (l_child _ _ HL _ (nd_parent n)). by apply link_find.
Qed.

Lemma kid_path x l c : lpath (link t) x l -> c ∈ kids t x -> lpath (link t) c (c :: l).
Proof.
  intros Hl Hc. apply kid_parent in Hc as [ds Hd]; [|by eapply lpath_live]. by eapply lpath_up.
Qed.

Lemma kid_enough fuel x c : enough (S fuel) x -> c ∈ kids t x -> enough fuel c.
Proof.
  intros (l & Hl & Hlen) Hc. exists (c :: l). split; [by apply kid_path with x|]. cbn. lia.
Qed.

Lemma enough_pos fuel x : enough fuel x -> (0 < fuel)%nat.
Proof.
  intros (l & Hl & Hlen). pose proof (live_list_short t l (lpath_nodup _ _ _ Hl)
    (lpath_live_all _ _ _ Hl)). lia.
Qed.

Lemma collect_spec fuel : forall x out, enough fuel x ->
  collect_subtree fuel t x out = Some (out ++ order fuel t x, Ok tt).
Proof.
  induction fuel as [|fuel IH]; intros x out Hx; [apply enough_pos in Hx; lia|].
  destruct Hx as (l & Hl & Hlen). destruct (find_path _ _ _ Hl) as [n Hn].
  cbn [collect_subtree order]. unfold children, node, kids. rewrite Hn. cbn [ok_or result_bind].
  rewrite (try_each_ok _ (order fuel t)).
  - rewrite <- app_assoc. done.
  - intros c Hc out'. apply IH. apply kid_enough with x; [by exists l|]. unfold kids. by rewrite Hn.
Qed.

(** Enough fuel gives the same order. *)
Lemma order_fuel f1 : forall f2 x, enough f1 x -> enough f2 x -> order f1 t x = order f2 t x.
Proof.
  induction f1 as [|f1 IH]; intros f2 x H1 H2; [apply enough_pos in H1; lia|].
  destruct f2 as [|f2]; [apply enough_pos in H2; lia|]. cbn [order]. f_equal.
  apply bind_ext. intros c Hc. by apply IH; [apply (kid_enough f1 x)|apply (kid_enough f2 x)].
Qed.

Lemma below_kid x y : is_Some (link t x) -> below (link t) x y ->
  y = x \/ exists c, c ∈ kids t x /\ below (link t) c y.
Proof.
  intros Hx (l & Hl & Hin). induction Hl as [y cs Hy|y p cs l Hy Hp IH].
  - apply list_elem_of_singleton in Hin as ->. by left.
  - apply elem_of_cons in Hin as [->|Hin]; [by left|right].
    destruct (IH Hin) as [->|(c & Hc & l' & Hl' & Hin')].
    + exists y. split; [apply kid_parent; eauto|]. exists (y :: l).
      split; [by eapply lpath_up|apply elem_of_cons; by left].
    + exists c. split; [done|]. exists (y :: l'). split; [by eapply lpath_up|].
      apply elem_of_cons; by right.
Qed.

Lemma kid_below x c y : is_Some (link t x) -> c ∈ kids t x -> below (link t) c y ->
  below (link t) x y.
Proof.
  intros Hx Hc (l & Hl & Hin). exists l. split; [done|].
  destruct (l_path _ _ HL _ Hx) as [lx Hlx].
  destruct (lpath_suffix _ _ _ _ Hl Hin) as (k & l' & -> & Hc').
  rewrite (lpath_fun _ _ _ _ Hc' (kid_path _ _ _ Hlx Hc)).
  destruct (lpath_head _ _ _ Hlx) as [l'' ->]. rewrite elem_of_app, !elem_of_cons. tauto.
Qed.

Lemma order_elem fuel : forall x y, enough fuel x -> y ∈ order fuel t x <-> below (link t) x y.
Proof.
  induction fuel as [|fuel IH]; intros x y Hx; [apply enough_pos in Hx; lia|].
  assert (Hl : is_Some (link t x)) by (destruct Hx as (l & ? & _); by eapply lpath_live).
  cbn [order]. rewrite elem_of_cons, list_elem_of_bind. split.
  - intros [->|(c & Hc & Hk)].
    + destruct Hx as (l & Hl' & _). exists l. split; [done|].
      destruct (lpath_head _ _ _ Hl') as [l' ->]. apply elem_of_cons; by left.
    + apply (kid_below x c); [done|done|]. apply IH; [by apply kid_enough with x|done].
  - intros [->|(c & Hc & Hb)]%below_kid; [by left| |done]. right. exists c. split; [|done].
    apply IH; [by apply kid_enough with x|done].
Qed.

Lemma order_nodup fuel : forall x, enough fuel x -> NoDup (order fuel t x).
Proof.
  induction fuel as [|fuel IH]; intros x Hx; [apply enough_pos in Hx; lia|].
  pose proof (fun c => kid_enough fuel x c Hx) as K.
  destruct Hx as (l & Hl & Hlen). cbn [order].
  assert (E : forall c y, c ∈ kids t x -> y ∈ order fuel t c ->
    exists k, lpath (link t) y (k ++ c :: l)).
  { intros c y Hc Hy. apply order_elem in Hy as (ly & Hly & Hin); [|by apply K].
    destruct (lpath_suffix _ _ _ _ Hly Hin) as (k & l' & -> & Hc'). exists k.
    by rewrite <- (lpath_fun _ _ _ _ Hc' (kid_path _ _ _ Hl Hc)). }
  apply NoDup_cons_2.
  - rewrite list_elem_of_bind. intros (c & Hy & Hc). destruct (E _ _ Hc Hy) as [k Hk].
    pose proof (f_equal length (lpath_fun _ _ _ _ Hk Hl)) as E'.
    rewrite length_app in E'. cbn in E'. lia.
  - apply NoDup_bind.
    + intros c1 c2 y H1 H2 Hy1 Hy2. destruct (E _ _ H1 Hy1) as [k1 Hk1].
      destruct (E _ _ H2 Hy2) as [k2 Hk2]. pose proof (lpath_fun _ _ _ _ Hk1 Hk2) as Eq.
      apply app_inj_2 in Eq as [_ Eq]; [|done]. by injection Eq.
    + intros c Hc. by apply IH, K.
    + destruct (find_path _ _ _ Hl) as [n Hn]. unfold kids. rewrite Hn.
      eapply (l_nodup _ _ HL). by apply link_find.
Qed.

Lemma walk_enough x : is_Some (link t x) -> enough (walk_fuel t) x.
Proof.
  intros Hx. destruct (l_path _ _ HL x Hx) as [l Hl]. exists l. split; [done|].
  unfold walk_fuel. lia.
Qed.
End Order.

(** ** Operations

    *** Creation *)
Lemma find_with_slots t s' x : (forall i n, s' !z i = Some (Some n) <-> slots t !z i = Some (Some n)) ->
  find_node (with_slots t s') x = find_node t x.
Proof.
  intros H. apply option_eq. intros n. rewrite !find_node_Some. cbn. by rewrite H.
Qed.

Lemma links_find t t' : (forall x, find_node t' x = find_node t x) -> forall x, link t x = link t' x.
Proof. intros H x. unfold link. by rewrite H. Qed.

Lemma zget_snoc_new {A} (l : list A) x i : (l ++ [x]) !z i =
  if decide (i = zlen l) then Some x else l !z i.
Proof.
  case_decide as E; [subst; apply zget_snoc|].
  destruct (decide (0 <= i < zlen l)) as [Hi|Hi]; [apply zget_app_l; lia|].
  rewrite (proj2 (zget_None l i)) by done. apply zget_None. zsimp. lia.
Qed.

(** Generations only grow. *)
Definition gens_le (t t' : UiTree) : Prop :=
  forall i g, generations t !z i = Some g -> exists g', generations t' !z i = Some g' /\ g <= g'.

#[global] Instance gens_le_pre : PreOrder gens_le.
Proof.
  split.
  - intros t i g H. exists g. split; [done|lia].
  - intros a b c H1 H2 i g (g' & Hg' & Hle)%H1. destruct (H2 _ _ Hg') as (g'' & Hg'' & Hle').
    exists g''. split; [done|lia].
Qed.

Lemma gens_le_eq t t' : generations t' = generations t -> gens_le t t'.
Proof. intros E i g H. rewrite E. exists g. split; [done|lia]. Qed.

(** What [take_slot] hands out. *)
Definition slot_free (t : UiTree) (i g : Z) : Prop :=
  slot_ids t !z i = Some None /\ generations t !z i = Some g /\ i ∉ free t.

Lemma take_slot_spec A t : tree_ok t -> exists t' r,
  take_slot A t = Some (t', r) /\ tree_ok t' /\ (forall x, find_node t' x = find_node t x) /\
  root t' = root t /\ count t' = count t /\ config t' = config t /\ gens_le t t' /\
  match r with
  | Ok (i, g) => slot_free t' i g
  | Err e => t' = t /\ (e = UiError.AllocationFailed \/ e = UiError.IndexOverflow)
  end.
Proof.
  intros [S L D N]. unfold take_slot. destruct (vec_pop (free t)) as [[i rest]|] eqn:Ef.
  - apply vec_pop_Some in Ef. pose proof (so_nodup _ _ _ _ S) as Hnd. rewrite Ef in Hnd.
    apply list.NoDup_app in Hnd as (Hr & Hdis & _).
    pose proof (so_free _ _ _ _ S i ltac:(rewrite Ef; apply elem_of_app; right; apply list_elem_of_here)) as Hi.
    assert (exists g, generations t !z i = Some g) as [g Hg].
    { apply zget_is_Some. rewrite (so_len _ _ _ _ S). apply zget_is_Some. eauto. }
    rewrite Hg. exists (with_free t rest), (Ok (i, g)).
    split; [done|]. split; [|split; [done|]; do 3 (split; [done|]); split; [by apply gens_le_eq|]].
    + constructor; cbn; [|exact L|done|done]. destruct S. constructor; try done.
      intros j Hj. apply so_free0. rewrite Ef. apply elem_of_app. by left.
    + split; [done|]. split; [done|]. intros Hin. eapply Hdis; [done|]. by apply list_elem_of_here.
  - destruct (Z.ltb_spec U32_MAX (zlen (slots t))) as [Hm|Hm]; [exists t, (Err UiError.IndexOverflow); eauto 12 using Build_tree_ok, gens_le_eq|].
    destruct (negb (A 0%nat) || negb (A 1%nat)); [exists t, (Err UiError.AllocationFailed); eauto 12 using Build_tree_ok, gens_le_eq|].
    eexists _, _. split; [done|].
    assert (HF : forall x, find_node (with_gens (with_slots t (slots t ++ [None])) (generations t ++ [1])) x
      = find_node t x).
    { intros x. apply (find_with_slots t). intros i n. rewrite zget_snoc_new. case_decide as E; [|done].
      subst. rewrite (proj2 (zget_None _ _)) by lia. done. }
    assert (Hids : slot_ids (with_gens (with_slots t (slots t ++ [None])) (generations t ++ [1]))
      = slot_ids t ++ [None]) by (unfold slot_ids; cbn; by rewrite map_app).
    assert (Hfresh : zlen (slots t) ∉ free t).
    { intros Hin. apply (so_free _ _ _ _ S) in Hin. rewrite <- slot_ids_len in Hin.
      pose proof (proj1 (zget_is_Some _ _) (ex_intro _ _ Hin)). lia. }
    assert (HG : gens_le t (with_gens (with_slots t (slots t ++ [None])) (generations t ++ [1]))).
    { intros i g Hg. exists g. split; [|lia]. cbn. rewrite zget_snoc_new, decide_False; [done|].
      pose proof (proj1 (zget_is_Some _ _) (ex_intro _ _ Hg)). lia. }
    split; [|split; [exact HF|]; do 3 (split; [done|]); split; [exact HG|]].
    + constructor; rewrite ?Hids; cbn; [|by apply (links_ok_ext (link t) _ _ (links_find _ _ HF))|done|done].
      pose proof (slot_ids_len t) as Hlen. destruct S. unfold U32_MAX in Hm. constructor; zsimp; try lia.
      * intros i x. rewrite !zget_snoc_new, so_len0. case_decide; [done|]. apply so_ids0.
      * intros i g. rewrite zget_snoc_new. case_decide; [|apply so_gens0]. intros; simplify_eq.
        unfold U32_MAX; lia.
      * done.
      * intros i Hi. rewrite zget_snoc_new. apply so_free0 in Hi as E. rewrite E. by case_decide.
      * rewrite occupied_app. unfold occupied at 2. cbn. zsimp. lia.
    + unfold slot_free. rewrite Hids. cbn. rewrite !zget_snoc_new, slot_ids_len.
      rewrite (so_len _ _ _ _ S), slot_ids_len. by rewrite !decide_True.
Qed.

Definition new_node (p id : UiNodeId) (c : UiNodeContent) : UiNode :=
  {| nd_id := id; nd_parent := Some p; nd_children := []; nd_content := c;
     nd_rect := rect_zero; nd_dirty := true |}.

(** [t'] is [t] with a new last child [id] of [p]. *)
Definition created (t t' : UiTree) (p id : UiNodeId) (c : UiNodeContent) : Prop :=
  find_node t id = None /\ forall x, find_node t' x =
    if decide (x = id) then Some (new_node p id c)
    else if decide (x = p) then
      (fun n => nd_with_children n (nd_children n ++ [id])) <$> find_node t x
    else find_node t x.

Lemma created_link t t' p id c : p <> id -> created t t' p id c ->
  forall x, add_leaf (link t) p id x = link t' x.
Proof.
  intros Hne [_ H] x. unfold add_leaf, link. rewrite H. case_decide; [done|].
  case_decide; by destruct (find_node t x).
Qed.

Lemma slot_free_dead t i g : slot_free t i g ->
  find_node t {| n_index := i; n_generation := g |} = None.
Proof.
  intros (Hi & _ & _). apply link_None. apply eq_None_not_Some. rewrite live_slot. cbn. congruence.
Qed.

(** A node written to a free slot, after its parent was told of it. *)
Lemma place_new_node t0 t pn i g c : let id := {| n_index := i; n_generation := g |} in
  0 <= i < zlen (slots t) -> slots t !z i = Some None ->
  (forall x, find_node t x = if decide (x = nd_id pn) then Some (nd_with_children pn (nd_children pn ++ [id])) else find_node t0 x) ->
  find_node t0 (nd_id pn) = Some pn -> find_node t0 id = None ->
  created t0 (with_slots t (zset (slots t) i (Some (new_node (nd_id pn) id c)))) (nd_id pn) id c.
Proof.
  intros id Hib Hslot Hset Hpn Hdead. split; [done|]. intros x.
  transitivity (if decide (x = id) then Some (new_node (nd_id pn) id c) else find_node t x).
  - apply option_eq. intros m. rewrite find_node_Some. cbn [slots with_slots nd_id n_index id].
    destruct (decide (n_index x = i)) as [E|E].
    + rewrite E, zget_zset_eq by done. destruct (decide (x = id)) as [->|Hx].
      * split; [by intros [_ [= <-]]|]. by intros [= <-].
      * split; [intros [Hm1 Hm2]; injection Hm2 as <-; by destruct Hx|].
        intros [Hm1 Hm2]%find_node_Some. rewrite E, Hslot in Hm2. done.
    + rewrite zget_zset_ne by done. rewrite decide_False by (intros ->; by apply E). by rewrite find_node_Some.
  - case_decide; [done|]. rewrite Hset. case_decide; [|done]. subst. by rewrite Hpn.
Qed.

Lemma link_node_spec A t p c i g : tree_ok t -> slot_free t i g -> is_Some (link t p) ->
  count t < max_nodes (config t) ->
  let id := {| n_index := i; n_generation := g |} in
  exists t' r, link_node A t p c i g = Some (t', r) /\ tree_ok t' /\ root t' = root t /\
  config t' = config t /\
  match r with
  | Ok id' => id' = id /\ A 2%nat = true /\ A 3%nat = true /\ created t t' p id c /\
      count t' = count t + 1 /\ generations t' = generations t
  | Err e => t' = t /\ e = UiError.AllocationFailed
  end.
Proof.
  intros HO HF Hp Hcnt id. pose proof (slot_free_dead _ _ _ HF) as Hdead.
  pose proof HO as [S L D N]. destruct HF as (Hi & Hg & Hfr).
  pose proof (live_bound t p Hp) as Hpb. destruct Hp as [v (pn & Hpn & _)%link_Some].
  pose proof (proj1 (proj1 (find_node_Some _ _ _) Hpn)) as Hpid. subst p.
  unfold link_node. destruct (A 2%nat); cbn [negb]; [|eauto 10]. rewrite Hpn.
  destruct (A 3%nat); cbn [negb]; [|eauto 10].
  set (pn' := nd_with_children pn (nd_children pn ++ [id])).
  pose proof (find_set_node t pn pn' ) as Hset. specialize (fun x => Hset x Hpn eq_refl).
  pose proof (slot_ids_set_node t pn pn' Hpn eq_refl) as Hids.
  assert (Hib : 0 <= i < zlen (slots t)) by (rewrite <- slot_ids_len; apply zget_is_Some; eauto).
  assert (Hb : (0 <=? i) && (i <? zlen (slots (set_node t pn'))) = true).
  { cbn. rewrite zlen_zset. lia. }
  cbv zeta. fold id. fold pn'. rewrite Hb. set (t' := with_count _ _). eexists t', (Ok id). split; [done|].
  assert (Hne : nd_id pn <> id).
  { intros E. rewrite E in Hpn. unfold id in Hpn. congruence. }
  assert (Hslot : slots (set_node t pn') !z i = Some None).
  { assert (E : slot_ids (set_node t pn') !z i = Some None) by (by rewrite Hids).
    rewrite slot_ids_get in E. by destruct (slots _ !z i) as [[]|]. }
  assert (HC : created t t' (nd_id pn) id c).
  { apply (place_new_node t (set_node t pn') pn i g c); try done. cbn. by rewrite zlen_zset. }
  split; [|by do 5 (split; [done|])].
  constructor.
  - assert (Hids' : slot_ids t' = zset (slot_ids t) i (Some id)).
    { unfold t', set_node at 1, slot_ids at 1. cbn [slots with_count with_slots].
      rewrite map_zset. fold (slot_ids (set_node t pn')). by rewrite Hids. }
    rewrite Hids'. cbn. destruct S. constructor; rewrite ?zlen_zset; try done.
    + intros j x. destruct (decide (j = i)) as [->|Hj].
      * rewrite zget_zset_eq by (rewrite slot_ids_len; lia). intros; simplify_eq. done.
      * rewrite zget_zset_ne by done. apply so_ids0.
    + intros j Hj. rewrite zget_zset_ne by (intros ->; done). by apply so_free0.
    + rewrite (occupied_zset _ _ _ _ Hi). lia.
  - apply (links_ok_ext _ _ _ (created_link _ _ _ _ _ Hne HC)). apply add_leaf_ok; [done|by apply link_None|].
    rewrite (link_find _ _ _ Hpn). eauto.
  - done.
  - cbn. lia.
Qed.

Definition node_depth (t : UiTree) (x : UiNodeId) (d : Z) : Prop :=
  exists l, lpath (link t) x l /\ d = zlen l - 1.

Lemma depth_live t x : tree_ok t -> is_Some (link t x) -> exists d, node_depth t x d /\
  0 <= d < 2 ^ 33 /\
  depth (walk_fuel t) t x 0 =
  Some (if d <? max_depth (config t) then Ok d else Err UiError.DepthExceeded).
Proof.
  intros [S L D N] Hx. destruct (l_path _ _ L x Hx) as [l Hl]. exists (zlen l - 1).
  pose proof (lpath_short _ _ _ Hl) as Hs. unfold walk_fuel in Hs.
  pose proof (so_max _ _ _ _ S) as Hm. rewrite slot_ids_len in Hm. unfold zlen in Hm.
  assert (0 < zlen l) by (destruct (lpath_head _ _ _ Hl) as [l' ->]; zsimp; pose proof (zlen_nonneg l'); lia).
  split; [by exists l|]. unfold zlen in *. split; [lia|].
  rewrite (depth_spec _ _ _ _ 0 Hl); [done| |lia|unfold zlen; lia].
  unfold walk_fuel. lia.
Qed.

(** The guards of [create] in the source's order, for a parent at depth [d]. *)
Definition create_refused (t : UiTree) (p : UiNodeId) (c : UiNodeContent) (d : Z) : option UiError :=
  if negb (contains t p) then Some UiError.InvalidParent
  else if negb (content_sane c) then Some UiError.InvalidValue
  else if text_too_long t c then Some UiError.CapacityExceeded
  else if max_depth (config t) <=? d + 1 then Some UiError.DepthExceeded
  else if max_nodes (config t) <=? count t then Some UiError.CapacityExceeded
  else None.

Lemma create_guards A t p c : tree_ok t ->
  (contains t p = false /\ create A t p c = Some (t, Err UiError.InvalidParent)) \/
  exists d, node_depth t p d /\ is_Some (link t p) /\
    create A t p c =
    match create_refused t p c d with
    | Some e => Some (t, Err e)
    | None => match take_slot A t with
              | None => None
              | Some (t, Err e) => Some (t, Err e)
              | Some (t, Ok (index, g)) => link_node A t p c index g
              end
    end.
Proof.
  intros HO. unfold create, create_refused, contains. destruct (valid_slot t p) eqn:Hv; [|by left].
  right. apply (valid_live t p HO) in Hv as Hp. destruct (depth_live t p HO Hp) as (d & Hd & Hb & ->).
  exists d. split; [done|]. split; [done|]. cbn [negb].
  destruct (content_sane c); [|done]. destruct (text_too_long t c); [done|]. cbn [negb].
  destruct (Z.ltb_spec d (max_depth (config t))).
  - rewrite checked_add_ok by (unfold umax; lia). destruct (_ <=? _); [done|]. by destruct (_ <=? _).
  - by rewrite (proj2 (Z.leb_le _ _)) by lia.
Qed.

Lemma create_spec A t p c : tree_ok t -> exists t' r,
  create A t p c = Some (t', r) /\ tree_ok t' /\ root t' = root t /\ config t' = config t /\
  gens_le t t' /\
  match r with
  | Ok id => is_Some (link t p) /\ content_sane c = true /\ text_too_long t c = false /\
      created t t' p id c /\ count t' = count t + 1
  | Err e => (forall x, find_node t' x = find_node t x) /\ count t' = count t
  end.
Proof.
  intros HO. destruct (create_guards A t p c HO) as [[_ ->]|(d & _ & Hp & ->)].
  { exists t, (Err UiError.InvalidParent). eauto 10 using gens_le_eq. }
  destruct (create_refused t p c d) as [e|] eqn:Er.
  { exists t, (Err e). eauto 10 using gens_le_eq. }
  assert (Hg : content_sane c = true /\ text_too_long t c = false /\ count t < max_nodes (config t)).
  { unfold create_refused in Er. destruct (contains t p), (content_sane c), (text_too_long t c); try done.
    cbn [negb] in Er. destruct (_ <=? _); [done|].
    destruct (Z.leb_spec (max_nodes (config t)) (count t)); [done|]. auto. }
  destruct Hg as (Hsane & Htext & Hcnt).
  destruct (take_slot_spec A t HO) as (t1 & r1 & -> & HO1 & HF & HR & HC & HK & HG & H1).
  destruct r1 as [[i g]|e].
  - destruct (link_node_spec A t1 p c i g HO1 H1) as (t2 & r & -> & HO2 & HR2 & HK2 & H2).
    { by rewrite <- (links_find _ _ HF). }
    { by rewrite HC, HK. }
    exists t2, r. rewrite HR2, HK2. split; [done|]. do 3 (split; [done|]). destruct r as [id|e].
    + destruct H2 as (-> & _ & _ & [Hd Hc] & Hn & Hg). split; [etransitivity; [exact HG|by apply gens_le_eq]|].
      split; [done|]. do 2 (split; [done|]). split; [|lia]. split; [by rewrite <- HF|].
      intros x. rewrite Hc. by rewrite HF.
    + destruct H2 as [-> _]. eauto.
  - destruct H1 as [-> _]. exists t, (Err e). eauto 10 using gens_le_eq.
Qed.

(** *** Updates of one node *)
Definition payload (t : UiTree) (x : UiNodeId) : option (UiNodeContent * UiRect) :=
  (fun n => (nd_content n, nd_rect n)) <$> find_node t x.

(** Everything but links, contents, rectangles and dirty flags. *)
Record same_base (t t' : UiTree) : Prop := {
  sb_ids : slot_ids t' = slot_ids t;
  sb_gens : generations t' = generations t;
  sb_free : free t' = free t;
  sb_root : root t' = root t;
  sb_count : count t' = count t;
  sb_config : config t' = config t
}.

#[global] Instance same_base_pre : PreOrder same_base.
Proof. split; [by constructor|]. intros a b c [] []. constructor; congruence. Qed.

Lemma same_shape_base t t' : same_shape t t' -> same_base t t'.
Proof. intros []. by constructor. Qed.

Lemma same_base_ok t t' : same_base t t' -> links_ok (link t') (root t) -> tree_ok t -> tree_ok t'.
Proof. intros [] HL []. constructor; congruence. Qed.

Lemma update_node_spec t id f n : find_node t id = Some n -> nd_id (f n) = id ->
  update_node t id f = (set_node t (f n), Ok tt) /\
  same_base t (set_node t (f n)) /\
  forall x, find_node (set_node t (f n)) x = if decide (x = id) then Some (f n) else find_node t x.
Proof.
  intros Hn Hid. unfold update_node. rewrite Hn.
  pose proof (proj1 (proj1 (find_node_Some _ _ _) Hn)) as E. subst id.
  split; [done|]. split.
  - constructor; try done. apply slot_ids_set_node with n; rewrite ?E; done.
  - intros x. rewrite (find_set_node t n); rewrite ?E; done.
Qed.

(** An update of contents, rectangle or flag keeps the shape. *)
Lemma update_shape t id f n : find_node t id = Some n -> nd_id (f n) = id ->
  nd_parent (f n) = nd_parent n -> nd_children (f n) = nd_children n ->
  same_shape t (set_node t (f n)).
Proof.
  intros Hn Hid Hp Hc. pose proof (proj1 (proj1 (find_node_Some _ _ _) Hn)) as E. subst id.
  apply same_shape_set with n; rewrite ?E; done.
Qed.

Lemma content_mut_spec t id f : tree_ok t ->
  match find_node t id with
  | None => content_mut t id f = (t, Err UiError.InvalidNode)
  | Some n => exists t', content_mut t id f = (t', Ok tt) /\ same_shape t t' /\
      forall x, find_node t' x =
        if decide (x = id) then Some (nd_with_content n (f (nd_content n))) else find_node t x
  end.
Proof.
  intros HO. unfold content_mut. destruct (find_node t id) as [n|] eqn:Hn; [|by unfold update_node; rewrite Hn].
  pose proof (proj1 (proj1 (find_node_Some _ _ _) Hn)) as E.
  destruct (update_node_spec t id (fun n => nd_with_content n (f (nd_content n))) n Hn E) as (-> & _ & H).
  eexists. split; [done|]. split; [|done]. by apply (update_shape t id (fun n => nd_with_content n (f (nd_content n)))).
Qed.

Lemma set_rect_spec t id r :
  exists t' res, set_rect t id r = (t', res) /\ same_shape t t' /\
  match res with
  | Ok _ => rect_sane r = true /\ exists n, find_node t id = Some n /\
      forall x, find_node t' x =
        if decide (x = id) then Some (nd_with_rect n r false) else find_node t x
  | Err e => t' = t /\ (rect_sane r = false \/ find_node t id = None)
  end.
Proof.
  unfold set_rect. destruct (rect_sane r) eqn:Er.
  2: { eexists _, _. split; [done|]. split; [reflexivity|]. eauto. }
  destruct (find_node t id) as [n|] eqn:Hn.
  - pose proof (proj1 (proj1 (find_node_Some _ _ _) Hn)) as E.
    destruct (update_node_spec t id (fun n => nd_with_rect n r false) n Hn E) as (-> & _ & H).
    eexists _, _. split; [done|]. split; [|eauto].
    by apply (update_shape t id (fun n => nd_with_rect n r false)).
  - unfold update_node. rewrite Hn. eexists _, _. split; [done|]. split; [reflexivity|]. eauto.
Qed.

Lemma set_content_spec t id c : tree_ok t ->
  exists t' res, set_content t id c = Some (t', res) /\ same_shape t t' /\
  match res with
  | Ok _ => content_sane c = true /\ text_too_long t c = false /\
      exists n l, find_node t id = Some n /\ lpath (link t) id l /\
      forall x, find_node t' x =
        let o := if decide (x = id) then Some (nd_with_content n c) else find_node t x in
        if decide (x ∈ l) then nd_mark_dirty <$> o else o
  | Err _ => t' = t
  end.
Proof.
  intros HO. unfold set_content. destruct (content_sane c); cbn [negb]; [|eexists _, _; by repeat split].
  destruct (text_too_long t c); [eexists _, _; by repeat split|].
  destruct (find_node t id) as [n|] eqn:Hn; [|eexists _, _; by repeat split].
  pose proof (proj1 (proj1 (find_node_Some _ _ _) Hn)) as E.
  destruct (update_node_spec t id (fun n => nd_with_content n c) n Hn E) as (_ & _ & H).
  pose proof (update_shape t id (fun n => nd_with_content n c) n Hn E eq_refl eq_refl) as Hsh.
  cbn beta in H, Hsh. set (t1 := set_node t (nd_with_content n c)) in *.
  destruct (l_path _ _ (ok_links _ HO) id) as [l Hl]; [rewrite (link_find _ _ _ Hn); eauto|].
  pose proof (lpath_shape _ _ _ _ Hsh Hl) as Hl1. pose proof (lpath_short _ _ _ Hl1).
  destruct (mark_spec (walk_fuel t1) t1 id l Hl1 ltac:(lia)) as (t' & -> & Hsh' & Hf).
  exists t', (Ok tt). split; [done|]. split; [by etransitivity|]. do 2 (split; [done|]).
  exists n, l. split; [done|]. split; [done|]. intros x. cbv zeta. rewrite Hf. by rewrite H.
Qed.

(** *** Reparenting *)
(** The three assignments of a move, before the dirty marks. *)
Lemma move_updates t op np id n on nn :
  find_node t id = Some n -> find_node t op = Some on -> find_node t np = Some nn -> id <> op -> id <> np ->
  exists t1 t2 t3,
    update_node t op (fun n => nd_with_children n (without id (nd_children n))) = (t1, Ok tt) /\
    update_node t1 np (fun n => nd_with_children n (nd_children n ++ [id])) = (t2, Ok tt) /\
    update_node t2 id (fun n => nd_with_parent n (Some np)) = (t3, Ok tt) /\
    same_base t t3 /\ is_Some (find_node t3 id) /\
    (forall x, link t3 x = move_link (link t) op np id x) /\ (forall x, payload t3 x = payload t x).
Proof.
  intros Hn Hon Hnn Hop Hne.
  set (f1 := fun n => nd_with_children n (without id (nd_children n))).
  set (f2 := fun n => nd_with_children n (nd_children n ++ [id])).
  set (f3 := fun n => nd_with_parent n (Some np)).
  assert (Hnid : forall x m, find_node t x = Some m -> nd_id m = x) by (intros ?? [? _]%find_node_Some; done).
  destruct (update_node_spec t op f1 on Hon (Hnid _ _ Hon)) as (E1 & B1 & F1).
  set (t1 := set_node t (f1 on)) in *.
  assert (Hnn1 : find_node t1 np = Some (if decide (np = op) then f1 nn else nn)).
  { rewrite F1. case_decide; [|done]. subst. by simplify_eq. }
  destruct (update_node_spec t1 np f2 _ Hnn1) as (E2 & B2 & F2); [case_decide; by apply (Hnid np nn)|].
  set (t2 := set_node t1 (f2 _)) in *.
  assert (Hn2' : find_node t2 id = Some n) by (by rewrite F2, F1, !decide_False).
  destruct (update_node_spec t2 id f3 n Hn2' (Hnid _ _ Hn)) as (E3 & B3 & F3).
  set (t3 := set_node t2 (f3 n)) in *. exists t1, t2, t3. do 3 (split; [done|]).
  split; [do 2 (etransitivity; [eassumption|]); done|]. split; [rewrite F3, decide_True by done; eauto|]. split.
  - intros x. unfold move_link, link. rewrite F3. destruct (decide (x = id)) as [->|].
    + rewrite Hn. cbn. by rewrite !decide_False.
    + rewrite F2. destruct (decide (x = np)) as [->|]; [rewrite Hnn; cbn; by case_decide|].
      rewrite F1. destruct (decide (x = op)) as [->|]; [by rewrite Hon|]. by destruct (find_node t x) as [[]|].
  - intros x. unfold payload. rewrite F3. destruct (decide (x = id)) as [->|]; [by rewrite Hn|].
    rewrite F2. destruct (decide (x = np)) as [->|]; [rewrite Hnn; by case_decide|].
    rewrite F1. destruct (decide (x = op)) as [->|]; [by rewrite Hon|done].
Qed.

Lemma relink_spec t op np id ch lnp : tree_ok t ->
  link t id = Some (Some op, ch) -> lpath (link t) np lnp -> id ∉ lnp ->
  exists t', relink t op np id = Some (t', Ok tt) /\ tree_ok t' /\ same_base t t' /\
    (forall x, link t' x = move_link (link t) op np id x) /\
    (forall x, payload t' x = payload t x).
Proof.
  intros HO Hid Hnp Hfree. pose proof (ok_links _ HO) as L.
  pose proof (move_link_ok _ _ _ _ _ _ _ L Hid Hnp Hfree) as LM.
  assert (Hne : id <> np).
  { intros ->. destruct (lpath_head _ _ _ Hnp) as [? ->]. apply Hfree. apply elem_of_cons; by left. }
  destruct (l_path _ _ L id ltac:(eauto)) as [lid Hlid].
  assert (exists lop, lpath (link t) op lop /\ id ∉ lop) as (lop & Hlop & Hidop).
  { destruct Hlid as [|? p' ? l' Hp Hl']; simplify_eq. exists l'. split; [done|].
    by eapply parent_not_below. }
  assert (Hop : id <> op).
  { intros ->. destruct (lpath_head _ _ _ Hlop) as [? ->]. apply Hidop. apply elem_of_cons; by left. }
  apply link_Some in Hid as (n & Hn & _).
  destruct (find_path _ _ _ Hlop) as [on Hon]. destruct (find_path _ _ _ Hnp) as [nn Hnn].
  destruct (move_updates t op np id n on nn Hn Hon Hnn Hop Hne) as (t1 & t2 & t3 & E1 & E2 & E3 & B & [n3 Hn3] & HL3 & HP3).
  pose proof (links_ok_ext _ _ _ (fun x => eq_sym (HL3 x)) LM) as L3.
  assert (HO3 : tree_ok t3) by (by apply (same_base_ok t)).
  destruct (l_path _ _ L3 id) as [l3 Hl3]; [rewrite (link_find _ _ _ Hn3); eauto|].
  pose proof (lpath_short _ _ _ Hl3).
  destruct (mark_spec (walk_fuel t3) t3 id l3 Hl3 ltac:(lia)) as (t' & E4 & Sh & F4).
  unfold relink, unlink. rewrite E1, E2, E3, E4.
  exists t'. split; [done|]. split; [by apply (same_shape_ok t3)|].
  split; [etransitivity; [exact B|by apply same_shape_base]|]. split.
  - intros x. by rewrite <- (sh_link _ _ Sh), HL3.
  - intros x. rewrite <- HP3. unfold payload. rewrite F4. destruct (decide (x ∈ l3)); [|done].
    by destruct (find_node t3 x).
Qed.

(** The guards of [reparent] in the source's order; [lnp] is the walk from the
    new parent up to the root. *)
Definition reparent_refused (t : UiTree) (id np : UiNodeId) (lnp : list UiNodeId) : option UiError :=
  if bool_decide (id = root t) || negb (contains t np) then Some UiError.InvalidParent
  else if bool_decide (id ∈ lnp) then Some UiError.Cycle
  else if max_depth (config t) <=? zlen lnp then Some UiError.DepthExceeded
  else if negb (contains t id) then Some UiError.InvalidNode
  else None.

Lemma reparent_guards A t id np : tree_ok t ->
  (contains t np = false /\ reparent A t id np = Some (t, Err UiError.InvalidParent)) \/
  exists lnp, lpath (link t) np lnp /\
    reparent A t id np =
    match reparent_refused t id np lnp with
    | Some e => Some (t, Err e)
    | None =>
        if A 0%nat then match link t id with
                        | Some (Some op, _) => relink t op np id
                        | _ => None
                        end
        else Some (t, Err UiError.AllocationFailed)
    end.
Proof.
  intros HO. unfold reparent, reparent_refused, contains.
  destruct (valid_slot t np) eqn:Hv; [|left; by rewrite orb_true_r].
  right. apply (valid_live t np HO) in Hv as Hp.
  destruct (depth_live t np HO Hp) as (d & [lnp [Hl ->]] & Hb & ->). exists lnp. split; [done|].
  rewrite orb_false_r. destruct (bool_decide_reflect (id = root t)) as [->|Hroot]; [done|].
  pose proof (lpath_short _ _ _ Hl). rewrite (cycle_spec _ _ _ _ _ Hl) by lia.
  destruct (decide (id ∈ lnp)) as [Hin|Hin]; [by rewrite bool_decide_true|].
  rewrite bool_decide_false by done.
  destruct (Z.ltb_spec (zlen lnp - 1) (max_depth (config t))).
  2: { by rewrite (proj2 (Z.leb_le _ _)) by lia. }
  rewrite checked_add_ok by (unfold umax; lia). replace (zlen lnp - 1 + 1) with (zlen lnp) by lia.
  destruct (max_depth (config t) <=? zlen lnp); [done|].
  destruct (find_path _ _ _ Hl) as [nn Hnn]. rewrite Hnn.
  unfold parent, node. destruct (find_node t id) as [n|] eqn:Hn.
  - cbn [ok_or result_bind]. apply link_find in Hn. rewrite Hn.
    rewrite (proj2 (valid_live t id HO)) by (rewrite Hn; eauto). cbn [negb].
    destruct (nd_parent n) as [op|] eqn:Eo; [by destruct (A 0%nat)|].
    destruct Hroot. by eapply (l_only _ _ (ok_links _ HO)).
  - cbn. destruct (valid_slot t id) eqn:Hvi; [|done].
    apply (valid_live t id HO) in Hvi as [? Hvi]. apply link_None in Hn. congruence.
Qed.

Lemma reparent_spec A t id np : tree_ok t -> exists t' r,
  reparent A t id np = Some (t', r) /\ tree_ok t' /\ same_base t t' /\
  (forall x, payload t' x = payload t x) /\
  match r with
  | Err e => t' = t
  | Ok _ => exists op ch lnp, link t id = Some (Some op, ch) /\ lpath (link t) np lnp /\
      reparent_refused t id np lnp = None /\
      forall x, link t' x = move_link (link t) op np id x
  end.
Proof.
  intros HO. destruct (reparent_guards A t id np HO) as [[_ ->]|(lnp & Hl & ->)].
  { eexists _, _. split; [done|]. split; [done|]. split; [reflexivity|]. done. }
  destruct (reparent_refused t id np lnp) as [e|] eqn:Er.
  { eexists _, _. split; [done|]. split; [done|]. split; [reflexivity|]. done. }
  destruct (A 0%nat).
  2: { eexists _, _. split; [done|]. split; [done|]. split; [reflexivity|]. done. }
  pose proof Er as Er'. unfold reparent_refused in Er'.
  destruct (bool_decide_reflect (id = root t)) as [|Hroot]; [done|]. cbn [orb] in Er'.
  destruct (contains t np); [|done]. destruct (bool_decide_reflect (id ∈ lnp)) as [|Hin]; [done|].
  cbn [negb] in Er'. destruct (_ <=? _); [done|]. destruct (contains t id) eqn:Hc; [|done].
  apply (valid_live t id HO) in Hc as [[[op|] ch] Hid].
  - rewrite Hid. destruct (relink_spec t op np id ch lnp HO Hid Hl Hin) as (t' & -> & H1 & H2 & H3 & H4).
    exists t', (Ok tt). do 4 (split; [done|]). by exists op, ch, lnp.
  - destruct Hroot. by eapply (l_only _ _ (ok_links _ HO)).
Qed.

(** *** Destruction *)
Definition bumped (t t' : UiTree) (ids : list UiNodeId) : Prop := forall i,
  generations t' !z i =
  (if decide (i ∈ map n_index ids) then Z.succ else id) <$> generations t !z i.

Record released (t t' : UiTree) (ids : list UiNodeId) : Prop := {
  rl_slots : slots_ok (slot_ids t') (generations t') (free t') (count t');
  rl_find : forall x, find_node t' x = if decide (x ∈ ids) then None else find_node t x;
  rl_gens : bumped t t' ids;
  rl_root : root t' = root t;
  rl_config : config t' = config t;
  rl_count : count t' = count t - zlen ids
}.

Lemma occupied_pos ids i x : ids !z i = Some (Some x) -> 0 < occupied ids.
Proof.
  intros H. destruct (zset_split ids i _ None H) as (k & r & -> & _).
  rewrite !occupied_app. unfold occupied. cbn. rewrite zlen_cons.
  pose proof (zlen_nonneg (omap id k)). pose proof (zlen_nonneg (omap id r)). lia.
Qed.

Lemma release_spec t x : slots_ok (slot_ids t) (generations t) (free t) (count t) ->
  is_Some (link t x) -> n_generation x < U32_MAX ->
  exists t', release t x = Some t' /\ released t t' [x].
Proof.
  intros S Hx Hg. pose proof (proj1 (live_slot _ _) Hx) as Hid.
  destruct (so_ids _ _ _ _ S _ _ Hid) as [_ Hgen].
  pose proof (live_bound t x Hx) as Hb.
  destruct Hx as [v (n & [Hn Hs]%find_node_Some & _)%link_Some].
  unfold release. rewrite Hs, Hgen. eexists. split; [done|].
  set (t' := {| slots := _ |}).
  assert (Hcnt : count t' = count t - 1).
  { cbn. unfold saturating_sub. pose proof (so_count _ _ _ _ S). pose proof (occupied_pos _ _ _ Hid). lia. }
  assert (Hids : slot_ids t' = zset (slot_ids t) (n_index x) None).
  { unfold slot_ids at 1, t'. cbn. by rewrite map_zset. }
  assert (Hglen : 0 <= n_index x < zlen (generations t)).
  { rewrite (so_len _ _ _ _ S), slot_ids_len. lia. }
  split; try done.
  - rewrite Hids. cbn [generations free t']. fold (count t'). rewrite Hcnt.
    pose proof (slot_ids_len t) as Hlen. destruct S. constructor; rewrite ?zlen_zset; try done.
    + intros i y. destruct (decide (i = n_index x)) as [->|Hi].
      * rewrite zget_zset_eq by lia. done.
      * rewrite !zget_zset_ne by done. apply so_ids0.
    + intros i g. destruct (decide (i = n_index x)) as [->|Hi].
      * rewrite zget_zset_eq by lia. intros [= <-]. apply so_gens0 in Hgen. unfold U32_MAX in *. lia.
      * rewrite zget_zset_ne by done. apply so_gens0.
    + apply list.NoDup_app. split; [done|]. split; [|apply NoDup_singleton].
      intros i Hi ->%list_elem_of_singleton. apply so_free0 in Hi. congruence.
    + intros i [Hi|Hi%list_elem_of_singleton]%elem_of_app; [|subst i].
      * apply so_free0 in Hi as Hi'. destruct (decide (i = n_index x)) as [->|]; [congruence|].
        by rewrite zget_zset_ne.
      * rewrite zget_zset_eq by lia. done.
    + rewrite (occupied_zset _ _ _ _ Hid). lia.
  - intros y. apply option_eq. intros m. rewrite find_node_Some. cbn [slots t'].
    destruct (decide (n_index y = n_index x)) as [E|E].
    + rewrite E, zget_zset_eq by lia. split; [by intros [_ ?]|].
      destruct (decide (y ∈ [x])) as [|Hy]; [done|]. intros [Hy1 Hy2]%find_node_Some.
      rewrite E, Hs in Hy2. destruct Hy. apply list_elem_of_singleton. congruence.
    + rewrite zget_zset_ne by done. rewrite decide_False.
      * by rewrite find_node_Some.
      * rewrite list_elem_of_singleton. by intros ->.
  - intros i. cbn [generations t' map]. destruct (decide (i = n_index x)) as [->|Hi].
    + rewrite zget_zset_eq by lia. rewrite decide_True by (by apply list_elem_of_singleton).
      by rewrite Hgen.
    + rewrite zget_zset_ne by done. rewrite decide_False by (by rewrite list_elem_of_singleton).
      by destruct (generations t !z i).
Qed.

Lemma release_all_spec ids : forall t, slots_ok (slot_ids t) (generations t) (free t) (count t) ->
  NoDup ids -> (forall x, x ∈ ids -> is_Some (link t x) /\ n_generation x < U32_MAX) ->
  exists t', release_all t ids = Some t' /\ released t t' ids.
Proof.
  induction ids as [|x ids IH]; intros t S HN Hl; cbn [release_all].
  - exists t. split; [done|]. split; try done; [intros i; by destruct (generations t !z i)|zsimp; lia].
  - apply list.NoDup_cons in HN as [Hx HN].
    destruct (Hl x (list_elem_of_here _ _)) as [Hlive Hg].
    destruct (release_spec t x S Hlive Hg) as (t1 & -> & [S1 F1 G1 R1 K1 C1]).
    assert (Hl1 : forall y, y ∈ ids -> is_Some (link t1 y) /\ n_generation y < U32_MAX).
    { intros y Hy. destruct (Hl y) as [H1 H2]; [by apply elem_of_cons; right|]. split; [|done].
      unfold link. rewrite F1, decide_False; [done|]. rewrite list_elem_of_singleton. by intros ->. }
    destruct (IH t1 S1 HN Hl1) as (t' & -> & [S2 F2 G2 R2 K2 C2]).
    exists t'. split; [done|]. split; [done| | | congruence|congruence|rewrite zlen_cons in *; zsimp; lia].
    + intros y. rewrite F2, F1. destruct (decide (y ∈ ids)).
      * rewrite decide_True; [done|]. by apply elem_of_cons; right.
      * destruct (decide (y = x)) as [->|Hne].
        -- rewrite decide_True by (by apply list_elem_of_singleton).
           rewrite decide_True; [done|]. apply list_elem_of_here.
        -- rewrite decide_False by (by rewrite list_elem_of_singleton).
           rewrite decide_False; [done|]. rewrite elem_of_cons. tauto.
    + intros i. rewrite G2, G1. cbn [map].
      assert (Hi : n_index x ∉ map n_index ids).
      { rewrite list_elem_of_In, in_map_iff. intros (y & E & Hy%list_elem_of_In).
        assert (y = x) as -> by (apply (live_inj t); [apply Hl; by apply elem_of_cons; right|done|done]).
        done. }
      destruct (generations t !z i) as [g|]; [cbn|done].
      destruct (decide (i = n_index x)) as [->|Hne].
      * rewrite (decide_False (P := n_index x ∈ map n_index ids)) by done.
        rewrite decide_True by (by apply list_elem_of_singleton).
        rewrite decide_True by (apply list_elem_of_here). done.
      * rewrite (decide_False (P := i ∈ [n_index x])) by (by rewrite list_elem_of_singleton).
        destruct (decide (i ∈ map n_index ids)).
        -- rewrite decide_True; [done|]. by apply elem_of_cons; right.
        -- rewrite decide_False; [done|]. rewrite elem_of_cons. tauto.
Qed.

Lemma check_generations_spec t ids : (forall x, x ∈ ids -> exists g, generations t !z (n_index x) = Some g /\ 0 <= g) ->
  check_generations t ids =
  Some (if bool_decide (Forall (fun x => generations t !z (n_index x) <> Some U32_MAX) ids)
        then Ok tt else Err UiError.IndexOverflow) \/
  exists x g, x ∈ ids /\ generations t !z (n_index x) = Some g /\ U32_MAX < g.
Proof.
  induction ids as [|x ids IH]; intros H; cbn [check_generations].
  - left. by rewrite bool_decide_true by constructor.
  - destruct (H x (list_elem_of_here _ _)) as (g & Hg & Hg0). rewrite Hg.
    destruct (decide (U32_MAX < g)); [right; exists x, g; split; [apply list_elem_of_here|done]|].
    unfold checked_add, umax. change (2 ^ 32 - 1) with U32_MAX.
    destruct (Z.leb_spec (g + 1) U32_MAX) as [Hle|Hle].
    + destruct IH as [->|(y & g' & Hy & Hy')].
      * intros y Hy. apply H. by apply elem_of_cons; right.
      * left. f_equal. erewrite bool_decide_ext; [done|]. rewrite list.Forall_cons.
        split; [|tauto]. intros HF. split; [|done]. rewrite Hg. intros [= ->]. lia.
      * right. exists y, g'. split; [by apply elem_of_cons; right|done].
    + left. rewrite bool_decide_false; [done|]. rewrite list.Forall_cons. intros [Hne _].
      apply Hne. rewrite Hg. f_equal. lia.
Qed.

(** No generation of the subtree is exhausted. *)
Definition can_bump (t : UiTree) (ids : list UiNodeId) : bool :=
  bool_decide (Forall (fun x => n_generation x <> U32_MAX) ids).

Definition subtree (t : UiTree) (x : UiNodeId) : list UiNodeId := order (walk_fuel t) t x.
#[global] Arguments subtree : simpl never.

Lemma subtree_elem t x y : tree_ok t -> is_Some (link t x) -> y ∈ subtree t x <-> below (link t) x y.
Proof. intros HO Hx. apply order_elem; [apply HO|]. by apply walk_enough; [apply HO|]. Qed.

Lemma below_live L id x : below L id x -> is_Some (L x).
Proof. intros (l & Hl & _). by eapply lpath_live. Qed.

Lemma live_gen t x : tree_ok t -> is_Some (link t x) ->
  generations t !z (n_index x) = Some (n_generation x) /\ 1 <= n_generation x <= U32_MAX.
Proof.
  intros HO H%live_slot. apply (so_ids _ _ _ _ (ok_slots _ HO)) in H as [_ H]. split; [done|].
  by eapply (so_gens _ _ _ _ (ok_slots _ HO)).
Qed.

(** [t'] is [t] without the subtree of [id]. *)
Definition destroyed (t t' : UiTree) (id : UiNodeId) : Prop :=
  exists p ch, link t id = Some (Some p, ch) /\
  (forall x, find_node t' x =
     if decide (x ∈ subtree t id) then None
     else if decide (x = p) then (fun n => nd_with_children n (without id (nd_children n))) <$> find_node t x
     else find_node t x) /\
  bumped t t' (subtree t id) /\
  count t' = count t - zlen (subtree t id).

(** The generation check of [destroy] tests [can_bump]. *)
Lemma check_generations_live t ids : tree_ok t -> (forall x, x ∈ ids -> is_Some (link t x)) ->
  check_generations t ids = Some (if can_bump t ids then Ok tt else Err UiError.IndexOverflow).
Proof.
  intros HO Hl. destruct (check_generations_spec t ids) as [->|(x & g & Hx & Hg & Hbad)].
  { intros x Hx. destruct (live_gen t x HO (Hl _ Hx)) as [-> ?]. eexists. split; [done|lia]. }
  2: { apply (so_gens _ _ _ _ (ok_slots _ HO)) in Hg. lia. }
  f_equal. replace (bool_decide _) with (can_bump t ids); [done|]. apply bool_decide_ext.
  rewrite !list.Forall_forall. apply forall_proper. intros x.
  split; intros H Hx; specialize (H Hx); destruct (live_gen t x HO (Hl _ Hx)) as [Eg _]; congruence.
Qed.

Lemma subtree_live t id x : tree_ok t -> is_Some (link t id) -> x ∈ subtree t id -> is_Some (link t x).
Proof. intros HO Hid Hx%subtree_elem; [by eapply below_live|done|done]. Qed.

(** Taking the subtree out keeps the tree well formed. *)
Lemma drop_subtree_tree_ok t t1 t' id p ch : tree_ok t -> link t id = Some (Some p, ch) -> same_base t t1 ->
  released t1 t' (rev (subtree t id)) ->
  (forall x, find_node t' x =
     if decide (x ∈ subtree t id) then None
     else if decide (x = p) then (fun n => nd_with_children n (without id (nd_children n))) <$> find_node t x
     else find_node t x) -> tree_ok t'.
Proof.
  intros HO Hid B1 [S' F' G' R' K' C'] HF. constructor; [done| | |].
  - rewrite R', (sb_root _ _ B1). eapply links_ok_ext; [|apply (drop_subtree_ok _ _ (subtree t id) p id ch (ok_links _ HO) Hid)].
    + intros x. unfold drop_subtree, link. rewrite HF. case_decide; [done|].
      destruct (decide (x = p)) as [->|]; [by destruct (find_node t p)|]. by destruct (find_node t x).
    + intros x. apply subtree_elem; [done|]. eauto.
  - rewrite K', (sb_config _ _ B1). apply HO.
  - rewrite K', (sb_config _ _ B1), C', (sb_count _ _ B1). pose proof (ok_nodes _ HO).
    pose proof (zlen_nonneg (rev (subtree t id))). lia.
Qed.

(** The part of [destroy] after its checks. *)
Lemma unlink_release t id p ch : tree_ok t -> link t id = Some (Some p, ch) -> can_bump t (subtree t id) = true ->
  exists t1 t', unlink t p id = (t1, Ok tt) /\ release_all t1 (rev (subtree t id)) = Some t' /\
  tree_ok t' /\ root t' = root t /\ config t' = config t /\ destroyed t t' id.
Proof.
  intros HO Hid Hcan. pose proof (ok_links _ HO) as L. assert (Hlive : is_Some (link t id)) by eauto.
  destruct (l_path _ _ L id Hlive) as [lid Hlid].
  assert (exists lp, lpath (link t) p lp) as (lp & Hlp).
  { destruct Hlid as [|? p' ? l' Hp Hl']; simplify_eq. by exists l'. }
  destruct (find_path _ _ _ Hlp) as [pn Hpn].
  destruct (update_node_spec t p (fun n => nd_with_children n (without id (nd_children n))) pn Hpn
    (proj1 (proj1 (find_node_Some _ _ _) Hpn))) as (E1 & B1 & F1). set (t1 := set_node t _) in *.
  assert (Hfd : forall x, is_Some (link t1 x) <-> is_Some (link t x)).
  { intros x. unfold link. rewrite F1. destruct (decide (x = p)) as [->|]; [rewrite Hpn; cbn|done]. split; eauto. }
  assert (Hnd : NoDup (subtree t id)) by (by apply order_nodup, walk_enough).
  assert (Erev : forall x, x ∈ rev (subtree t id) <-> x ∈ subtree t id) by (intros x; by rewrite !list_elem_of_In, <- in_rev).
  destruct (release_all_spec (rev (subtree t id)) t1) as (t' & Hr & [S' F' G' R' K' C']).
  { rewrite (sb_ids _ _ B1), (sb_gens _ _ B1), (sb_free _ _ B1), (sb_count _ _ B1). apply HO. }
  { rewrite NoDup_ListNoDup. apply NoDup_rev. by apply NoDup_ListNoDup. }
  { intros x Hx%Erev. split; [by apply Hfd, (subtree_live t id)|].
    destruct (live_gen t x HO (subtree_live t id x HO Hlive Hx)) as [_ Hg]. unfold can_bump in Hcan.
    apply bool_decide_eq_true in Hcan. rewrite list.Forall_forall in Hcan. specialize (Hcan _ Hx). lia. }
  exists t1, t'. split; [exact E1|]. split; [done|].
  assert (HF : forall x, find_node t' x =
   if decide (x ∈ subtree t id) then None
   else if decide (x = p) then (fun n => nd_with_children n (without id (nd_children n))) <$> find_node t x
   else find_node t x).
  { intros x. rewrite F', F1, (decide_ext _ _ _ _ (Erev x)).
    destruct (decide (x ∈ subtree t id)); [done|]. destruct (decide (x = p)) as [->|]; [by rewrite Hpn|done]. }
  split; [|rewrite R', (sb_root _ _ B1), K', (sb_config _ _ B1); do 2 (split; [done|])].
  - by apply (drop_subtree_tree_ok t t1 t' id p ch).
  - exists p, ch. split; [done|]. split; [done|]. split.
    + intros i. rewrite G', (sb_gens _ _ B1). f_equal. apply decide_ext.
      rewrite !list_elem_of_In, !in_map_iff. setoid_rewrite <- list_elem_of_In. by setoid_rewrite Erev.
    + rewrite C', (sb_count _ _ B1). unfold zlen. by rewrite length_rev.
Qed.

Lemma destroy_spec A t id : tree_ok t -> exists t' r,
  destroy A t id = Some (t', r) /\ tree_ok t' /\ root t' = root t /\ config t' = config t /\
  match r with
  | Err e => t' = t
  | Ok _ => id <> root t /\ destroyed t t' id
  end /\
  r = if bool_decide (id = root t) then Err UiError.InvalidNode
      else if negb (A 0%nat) then Err UiError.AllocationFailed
      else if negb (contains t id) then Err UiError.InvalidNode
      else if negb (A 1%nat) then Err UiError.AllocationFailed
      else if negb (can_bump t (subtree t id)) then Err UiError.IndexOverflow
      else Ok tt.
Proof.
  intros HO. pose proof (ok_links _ HO) as L. unfold destroy.
  destruct (bool_decide_reflect (id = root t)) as [|Hroot]; [eexists _, _; eauto 10|].
  destruct (A 0%nat); cbn [negb]; [|eexists _, _; eauto 10].
  unfold contains. destruct (valid_slot t id) eqn:Hv; cbn [negb].
  2: { exists t, (Err UiError.InvalidNode). split; [|by eauto 10]. cbn [collect_subtree walk_fuel].
       unfold children, node. destruct (find_node t id) as [n|] eqn:Hn; [|done].
       apply link_find in Hn. rewrite (proj2 (valid_live t id HO)) in Hv; [done|eauto]. }
  apply (valid_live t id HO) in Hv as Hlive.
  rewrite (collect_spec t L _ _ _ (walk_enough t L id Hlive)). cbn [app]. fold (subtree t id).
  destruct (A 1%nat); cbn [negb]; [|eexists _, _; eauto 10].
  rewrite check_generations_live by (done || (intros x; by apply subtree_live)).
  destruct (can_bump t (subtree t id)) eqn:Hcan; cbn [negb]; [|eexists _, _; eauto 10].
  destruct Hlive as [[q ch] Hid]. destruct q as [p|]; [|destruct Hroot; by eapply (l_only _ _ L)].
  pose proof (link_Some t id (Some p, ch)) as [(n & Hn & [= Hn1 Hn2]) _]; [done|].
  unfold parent, node. rewrite Hn. cbn [ok_or result_bind]. rewrite <- Hn1.
  destruct (unlink_release t id p ch HO Hid Hcan) as (t1 & t' & -> & -> & HO' & HR & HK & HD).
  exists t', (Ok tt). eauto 10.
Qed.

(** ** Counting and reading back *)
Lemma omap_indexed (ids : list (option UiNodeId)) : forall k,
  (forall i x, ids !! i = Some (Some x) -> n_index x = k + Z.of_nat i) ->
  NoDup (omap id ids) /\ forall x, x ∈ omap id ids -> k <= n_index x.
Proof.
  induction ids as [|o ids IH]; intros k H; [split; [constructor|by intros x ?%elem_of_nil]|].
  destruct (IH (k + 1)) as [HN HE].
  { intros i x Hi. rewrite (H (S i) x Hi). lia. }
  destruct o as [y|]; cbn.
  - pose proof (H 0%nat y eq_refl) as Hy. split.
    + apply NoDup_cons_2; [|done]. intros Hin%HE. lia.
    + intros x [->|Hx%HE]%elem_of_cons; lia.
  - split; [done|]. intros x Hx%HE. lia.
Qed.

Lemma live_count t l : tree_ok t -> NoDup l -> (forall x, x ∈ l <-> is_Some (link t x)) ->
  zlen l = count t.
Proof.
  intros HO HN Hl. rewrite (so_count _ _ _ _ (ok_slots _ HO)). unfold occupied, zlen. f_equal.
  apply Permutation_length, NoDup_Permutation; [done| |].
  - apply (omap_indexed _ 0). intros i x Hi. rewrite <- zget_nat in Hi.
    apply (so_ids _ _ _ _ (ok_slots _ HO)) in Hi as [-> _]. lia.
  - intros x. rewrite Hl, live_slot, list_elem_of_omap. split.
    + intros Hx. exists (Some x). split; [|done]. pose proof (zget_Some _ _ _ Hx).
      rewrite zget_lookup in Hx by lia. by eapply list_elem_of_lookup_2.
    + intros (o & Ho & E). cbn in E. subst o. apply list_elem_of_lookup in Ho as [i Hi].
      rewrite <- zget_nat in Hi. pose proof Hi as Hi'.
      apply (so_ids _ _ _ _ (ok_slots _ HO)) in Hi' as [-> _]. done.
Qed.

Lemma subtree_unfold t x : tree_ok t -> is_Some (link t x) ->
  subtree t x = x :: (kids t x ≫= subtree t).
Proof.
  intros HO Hx. pose proof (ok_links _ HO) as L. unfold subtree at 1, walk_fuel. cbn [order]. f_equal.
  assert (K : forall c, c ∈ kids t x -> order (length (slots t)) t c = subtree t c).
  { intros c Hc. destruct (l_path _ _ L x Hx) as [l Hl]. apply (order_fuel t L).
    - exists (c :: l). split; [by apply (kid_path t L x)|]. destruct (lpath_head _ _ _ Hl) as [? ->]. cbn. lia.
    - apply walk_enough; [done|]. eapply lpath_live. by apply (kid_path t L x). }
  by apply bind_ext.
Qed.

Lemma root_live t : tree_ok t -> is_Some (link t (root t)).
Proof. intros HO. destruct (l_root _ _ (ok_links _ HO)) as [cs ->]. eauto. Qed.

Lemma below_root t x : tree_ok t -> below (link t) (root t) x <-> is_Some (link t x).
Proof.
  intros HO. split; [apply below_live|]. intros Hx.
  destruct (l_path _ _ (ok_links _ HO) x Hx) as [l Hl]. exists l. split; [done|].
  clear Hx. induction Hl as [x cs Hx|x p cs l Hx Hp IH].
  - apply list_elem_of_singleton. symmetry. by eapply (l_only _ _ (ok_links _ HO)).
  - apply elem_of_cons. by right.
Qed.

Lemma contains_false t x : tree_ok t -> contains t x = false <-> find_node t x = None.
Proof.
  intros HO. rewrite <- link_None. unfold contains. pose proof (valid_live t x HO) as H.
  destruct (valid_slot t x), (link t x); split; try done.
  - intros E. by destruct (proj1 H eq_refl).
  - intros _. by discriminate (proj2 H (ex_intro _ _ eq_refl)).
Qed.

Lemma contains_true t x : tree_ok t -> contains t x = true <-> exists n, find_node t x = Some n.
Proof.
  intros HO. unfold contains. rewrite (valid_live t x HO). unfold link. rewrite fmap_is_Some. done.
Qed.

Lemma without_notin (x : UiNodeId) cs : x ∉ cs -> without x cs = cs.
Proof.
  induction cs as [|c cs IH]; [done|]. rewrite elem_of_cons. intros H. cbn.
  rewrite bool_decide_false by (intros ->; tauto). cbn. f_equal. apply IH. tauto.
Qed.

Lemma nd_same_children n : nd_with_children n (nd_children n) = n.
Proof. by destruct n. Qed.
