(* ===== verification/UiCommands.v ===== *)
(** Deferred UI mutations ([ui/commands.rs]) and the theorems over sequences
    of tree operations: whatever the operations and whichever reservations
    fail, the tree stays well formed and every walk ends; a destroyed handle is
    never valid again; component values stay sane and texts within budget. *)

From S2P Require Import Prelude F32 UiComponents UiTree UiTreeInv.

Local Open Scope Z_scope.
Local Open Scope kit_scope.

(** ** Commands *)
Module UiCommand.
Inductive UiCommand :=
| Create (parent : UiNodeId) (content : UiNodeContent)
| Destroy (node : UiNodeId)
| Reparent (node parent : UiNodeId)
| SetStyle (node : UiNodeId) (style : UiStyle)
| SetText (node : UiNodeId) (text : UiText)
| SetVisible (node : UiNodeId) (visible : bool)
| SetZIndex (node : UiNodeId) (z_index : Z)
| SetAccessibility (node : UiNodeId) (accessibility : UiAccessibility).
End UiCommand.
Abbreviation UiCommand := UiCommand.UiCommand.

Record UiCommandBuffer := { commands : list UiCommand; cmd_capacity : Z }.

Definition buffer_try_with_capacity (A : alloc) (capacity : Z) : result UiError UiCommandBuffer :=
  if A 0%nat then Ok {| commands := []; cmd_capacity := capacity |}
  else Err UiError.AllocationFailed.

Definition buffer_try_push (b : UiCommandBuffer) (c : UiCommand)
  : UiCommandBuffer * result UiError unit :=
  if cmd_capacity b <=? zlen (commands b) then (b, Err UiError.CapacityExceeded)
  else ({| commands := commands b ++ [c]; cmd_capacity := cmd_capacity b |}, Ok tt).

(** One arm of the [match] in [apply]. *)
Definition apply_command (A : alloc) (t : UiTree) (c : UiCommand)
  : option (UiTree * result UiError unit) :=
  match c with
  | UiCommand.Create p content =>
      match create A t p content with
      | Some (t, r) => Some (t, let? _ := r in Ok tt)
      | None => None
      end
  | UiCommand.Destroy node => destroy A t node
  | UiCommand.Reparent node p => reparent A t node p
  | UiCommand.SetStyle node style =>
      if style_sane style then Some (content_mut t node (fun c => with_style c style))
      else Some (t, Err UiError.InvalidValue)
  | UiCommand.SetText node text =>
      if text_byte_len text <=? max_text_bytes (config t)
      then Some (content_mut t node (fun c => with_text c (Some text)))
      else Some (t, Err UiError.CapacityExceeded)
  | UiCommand.SetVisible node v => Some (content_mut t node (fun c => with_visible c v))
  | UiCommand.SetZIndex node z => Some (content_mut t node (fun c => with_z_index c z))
  | UiCommand.SetAccessibility node a =>
      Some (content_mut t node (fun c => with_accessibility c a))
  end.

(** The loop over [drain(..)]: the [k]-th command runs under the oracle
    [As k]; the count of successes saturates. *)
Fixpoint apply_all (As : nat -> alloc) (k : nat) (t : UiTree) (cs : list UiCommand) (applied : Z)
  : option (UiTree * Z) :=
  match cs with
  | [] => Some (t, applied)
  | c :: cs =>
      match apply_command (As k) t c with
      | None => None
      | Some (t, r) =>
          apply_all As (S k) t cs (if is_ok r then saturating_add 64 applied 1 else applied)
      end
  end.

Definition buffer_apply (As : nat -> alloc) (b : UiCommandBuffer) (t : UiTree)
  : option (UiCommandBuffer * UiTree * Z) :=
  match apply_all As 0 t (commands b) 0 with
  | Some (t, n) => Some ({| commands := []; cmd_capacity := cmd_capacity b |}, t, n)
  | None => None
  end.

(** ** Operations on a tree

    What any client can do: the commands, the two setters, and an edit of a
    content through [content_mut]. *)
Inductive tree_op :=
| OpCommand (c : UiCommand)
| OpSetContent (node : UiNodeId) (c : UiNodeContent)
| OpSetRect (node : UiNodeId) (r : UiRect)
| OpEdit (node : UiNodeId) (f : UiNodeContent -> UiNodeContent).

Definition run_op (A : alloc) (t : UiTree) (o : tree_op) : option UiTree :=
  match o with
  | OpCommand c => fst <$> apply_command A t c
  | OpSetContent x c => fst <$> set_content t x c
  | OpSetRect x r => Some (fst (set_rect t x r))
  | OpEdit x f => Some (fst (content_mut t x f))
  end.

Fixpoint run_ops (t : UiTree) (ops : list (alloc * tree_op)) : option UiTree :=
  match ops with
  | [] => Some t
  | (A, o) :: ops => match run_op A t o with Some t => run_ops t ops | None => None end
  end.

(** ** One step

    Every operation is one of: a step that keeps the handles (with the effect
    on contents and rectangles bounded by [edit]), a creation, a destruction. *)
Definition payload_ok (t : UiTree) (v : UiNodeContent * UiRect) : Prop :=
  content_sane v.1 = true /\ text_too_long t v.1 = false /\ rect_sane v.2 = true.

Definition values_ok (t : UiTree) : Prop :=
  forall x v, payload t x = Some v -> payload_ok t v.

(** Raw edits are unchecked. *)
Definition checked (o : tree_op) : Prop := match o with OpEdit _ _ => False | _ => True end.

Record op_step (t t' : UiTree) (o : tree_op) : Prop := {
  os_ok : tree_ok t';
  os_root : root t' = root t;
  os_config : config t' = config t;
  os_gens : gens_le t t';
  os_gone : forall x, is_Some (link t x) -> link t' x = None ->
    exists g, generations t' !z (n_index x) = Some g /\ n_generation x < g;
  os_values : checked o -> values_ok t -> values_ok t'
}.

Lemma payload_find t x v : payload t x = Some v <->
  exists n, find_node t x = Some n /\ v = (nd_content n, nd_rect n).
Proof. unfold payload. by rewrite fmap_Some. Qed.

Lemma too_long_config t t' c : config t' = config t -> text_too_long t' c = text_too_long t c.
Proof. intros E. unfold text_too_long. by rewrite E. Qed.

Lemma values_ok_step t t' : config t' = config t ->
  (forall x v, payload t' x = Some v -> payload t x = Some v \/ payload_ok t v) ->
  values_ok t -> values_ok t'.
Proof.
  intros E H Hv x v Hx. unfold payload_ok. rewrite (too_long_config t t' _ E).
  destruct (H x v Hx) as [Hx'|Hx']; [by apply (Hv x)|done].
Qed.

Lemma same_shape_step t t' o : tree_ok t -> same_shape t t' ->
  (checked o -> values_ok t -> values_ok t') -> op_step t t' o.
Proof.
  intros HO Sh Hv. constructor; try by destruct Sh.
  - by apply (same_shape_ok t).
  - apply gens_le_eq. by destruct Sh.
  - intros x [v Hx] Hx'. rewrite (sh_link _ _ Sh) in Hx. congruence.
Qed.

Lemma edit_step t x f o : tree_ok t ->
  (checked o -> forall c, content_sane c = true -> text_too_long t c = false ->
     content_sane (f c) = true /\ text_too_long t (f c) = false) ->
  op_step t (content_mut t x f).1 o.
Proof.
  intros HO Hf. pose proof (content_mut_spec t x f HO) as H.
  destruct (find_node t x) as [n|] eqn:Hn.
  2: { rewrite H. by apply same_shape_step. }
  destruct H as (t' & -> & Sh & H). apply same_shape_step; [done|done|]. intros Hc Hv.
  apply (values_ok_step t); [by destruct Sh| |done]. intros y v. unfold payload. rewrite H.
  destruct (decide (y = x)) as [->|]; [|by left]. cbn. intros [= <-]. right.
  destruct (Hv x (nd_content n, nd_rect n)) as (H1 & H2 & H3).
  { apply payload_find. eauto. }
  split; cbn; [|split; [|done]]; by apply Hf.
Qed.

Lemma set_rect_step t x r o : tree_ok t -> op_step t (set_rect t x r).1 o.
Proof.
  intros HO. destruct (set_rect_spec t x r) as (t' & res & -> & Sh & H). cbn.
  apply same_shape_step; [done|done|]. intros _ Hv. destruct res; [|by destruct H as [-> _]].
  destruct H as (Hr & n & Hn & H). apply (values_ok_step t); [by destruct Sh| |done].
  intros y v. unfold payload. rewrite H.
  destruct (decide (y = x)) as [->|]; [|by left]. cbn. intros [= <-]. right.
  destruct (Hv x (nd_content n, nd_rect n)) as (H1 & H2 & _); [apply payload_find; eauto|done].
Qed.

Lemma set_content_step t x c o : tree_ok t ->
  exists t' r, set_content t x c = Some (t', r) /\ op_step t t' o.
Proof.
  intros HO. destruct (set_content_spec t x c HO) as (t' & r & -> & Sh & H).
  exists t', r. split; [done|]. apply same_shape_step; [done|done|]. intros _ Hv.
  destruct r; [|by subst]. destruct H as (Hs & Ht & n & l & Hn & _ & H).
  apply (values_ok_step t); [by destruct Sh| |done]. intros y v Hy.
  assert (Hp : payload t' y = if decide (y = x) then Some (c, nd_rect n) else payload t y).
  { unfold payload. rewrite H. cbv zeta. destruct (decide (y = x)) as [->|].
    - destruct (decide (x ∈ l)); done.
    - destruct (decide (y ∈ l)); [|done]. by destruct (find_node t y). }
  rewrite Hp in Hy. destruct (decide (y = x)) as [->|]; [|by left]. injection Hy as <-. right.
  destruct (Hv x (nd_content n, nd_rect n)) as (_ & _ & ?); [apply payload_find; eauto|done].
Qed.

Lemma create_step A t p c o : tree_ok t ->
  exists t' r, create A t p c = Some (t', r) /\ op_step t t' o.
Proof.
  intros HO. destruct (create_spec A t p c HO) as (t' & r & -> & HO' & HR & HK & HG & H).
  exists t', r. split; [done|]. destruct r as [id|e].
  - destruct H as (Hp & Hs & Ht & [Hd Hc] & _). constructor; try done.
    + intros x [v (n & Hx & _)%link_Some] Hx'%link_None. rewrite Hc in Hx'.
      destruct (decide (x = id)); [done|]. destruct (decide (x = p)); [by rewrite Hx in Hx'|congruence].
    + intros _ Hv. apply (values_ok_step t); [done| |done]. intros y v. unfold payload. rewrite Hc.
      destruct (decide (y = id)) as [->|]; [cbn; intros [= <-]; right; by repeat split|].
      destruct (decide (y = p)); [|by left]. left. by destruct (find_node t y).
  - destruct H as [HF _]. constructor; try done.
    + intros x [v Hx] Hx'. rewrite <- (links_find _ _ HF) in Hx'. congruence.
    + intros _ Hv. apply (values_ok_step t); [done| |done]. intros y v. unfold payload. rewrite HF. by left.
Qed.

Lemma destroy_step A t x o : tree_ok t ->
  exists t' r, destroy A t x = Some (t', r) /\ op_step t t' o.
Proof.
  intros HO. destruct (destroy_spec A t x HO) as (t' & r & -> & HO' & HR & HK & H & _).
  exists t', r. split; [done|]. destruct r as [[]|e].
  2: { subst. by apply same_shape_step. }
  destruct H as (_ & p & ch & Hid & HF & HB & _). constructor; try done.
  - intros i g Hg. rewrite HB, Hg. eexists. split; [done|]. case_match; unfold id; lia.
  - intros y [v Hy] Hy'. destruct (live_gen t y HO ltac:(eauto)) as [Hg _]. rewrite HB, Hg.
    eexists. split; [done|].
    assert (y ∈ subtree t x) as Hin.
    { apply link_None in Hy'. rewrite HF in Hy'. destruct (decide (y ∈ subtree t x)); [done|].
      apply link_Some in Hy as (m & Hm & _). destruct (decide (y = p)); [by rewrite Hm in Hy'|congruence]. }
    rewrite decide_True; [lia|]. apply list_elem_of_In, in_map_iff. exists y.
    split; [done|]. by apply list_elem_of_In.
  - intros _ Hv. apply (values_ok_step t); [done| |done]. intros y v. unfold payload. rewrite HF.
    destruct (decide (y ∈ subtree t x)); [done|]. destruct (decide (y = p)); [|by left].
    left. by destruct (find_node t y).
Qed.

Lemma reparent_step A t x p o : tree_ok t ->
  exists t' r, reparent A t x p = Some (t', r) /\ op_step t t' o.
Proof.
  intros HO. destruct (reparent_spec A t x p HO) as (t' & r & -> & HO' & B & HP & H).
  exists t', r. split; [done|]. constructor; try by destruct B.
  - apply gens_le_eq. by destruct B.
  - intros y [v Hy] Hy'. destruct r; [|subst; congruence].
    destruct H as (op & ch & lnp & _ & _ & _ & HL). rewrite HL in Hy'. unfold move_link in Hy'.
    rewrite Hy in Hy'. by destruct v.
  - intros _ Hv. apply (values_ok_step t); [by destruct B| |done]. intros y v. rewrite HP. by left.
Qed.

Lemma apply_command_step A t c : tree_ok t -> exists t' r,
  apply_command A t c = Some (t', r) /\ op_step t t' (OpCommand c).
Proof.
  intros HO.
  assert (Edit : forall x f, (forall c, content_sane c = true -> text_too_long t c = false ->
     content_sane (f c) = true /\ text_too_long t (f c) = false) -> exists t' r,
     Some (content_mut t x f) = Some (t', r) /\ op_step t t' (OpCommand c)).
  { intros x f Hf. destruct (content_mut t x f) as [t' r] eqn:E. exists t', r. split; [done|].
    pose proof (edit_step t x f (OpCommand c) HO (fun _ => Hf)) as K. by rewrite E in K. }
  assert (Stay : forall e : UiError, exists t' r,
     Some (t, Err (A := unit) e) = Some (t', r) /\ op_step t t' (OpCommand c)).
  { intros e. exists t, (Err e). split; [done|]. by apply same_shape_step. }
  destruct c as [p c|x|x p|x s|x s|x v|x z|x a]; cbn [apply_command].
  - destruct (create_step A t p c (OpCommand (UiCommand.Create p c)) HO) as (t' & r & -> & H). eauto.
  - by apply destroy_step.
  - by apply reparent_step.
  - destruct (style_sane s) eqn:Hs; [|apply Stay]. apply Edit. intros c Hc Ht.
    split; [by apply with_style_sane|done].
  - destruct (Z.leb_spec (text_byte_len s) (max_text_bytes (config t))) as [Hs|Hs]; [|apply Stay].
    apply Edit. intros c Hc Ht. split; [done|]. unfold text_too_long. cbn. lia.
  - by apply Edit.
  - by apply Edit.
  - by apply Edit.
Qed.

Lemma run_op_step A t o : tree_ok t -> exists t', run_op A t o = Some t' /\ op_step t t' o.
Proof.
  intros HO. destruct o as [c|x c|x r|x f]; cbn [run_op].
  - destruct (apply_command_step A t c HO) as (t' & r & -> & H). eauto.
  - destruct (set_content_step t x c (OpSetContent x c) HO) as (t' & r & -> & H). eauto.
  - eexists. split; [done|]. by apply set_rect_step.
  - eexists. split; [done|]. apply edit_step; [done|]. by intros [].
Qed.

(** ** Sequences *)
Lemma zget_one {A} (x y : A) i : [y] !z i = Some x -> i = 0 /\ x = y.
Proof.
  intros H. pose proof (zget_Some _ _ _ H) as Hi. change (0 <= i < 1) in Hi.
  assert (i = 0) as -> by lia. by injection H as <-.
Qed.

Lemma tree_try_new_ok A c t : 0 <= max_nodes c -> 0 <= max_depth c ->
  tree_try_new A c = Ok t -> tree_ok t /\ values_ok t /\ config t = c.
Proof.
  intros Hn Hd. unfold tree_try_new.
  destruct ((max_nodes c =? 0) || (max_depth c =? 0)) eqn:E; [done|].
  apply orb_false_iff in E as [E1%Z.eqb_neq E2%Z.eqb_neq].
  case_match; [done|]. intros [= <-]. set (r := {| n_index := 0; n_generation := 1 |}).
  assert (HF : forall t x, slots t = [Some {| nd_id := r; nd_parent := None; nd_children := [];
       nd_content := content_new UiNodeKind.Root; nd_rect := rect_zero; nd_dirty := true |}] ->
    find_node t x = if decide (x = r) then Some {| nd_id := r; nd_parent := None; nd_children := [];
       nd_content := content_new UiNodeKind.Root; nd_rect := rect_zero; nd_dirty := true |} else None).
  { intros t x Hs. apply option_eq. intros m. rewrite find_node_Some, Hs.
    destruct (decide (x = r)) as [->|Hx].
    - split; [intros [_ H2]; by injection H2 as <-|]. by intros [= <-].
    - split; [|done]. intros [H1 [_ H2]%zget_one]. by injection H2 as ->. }
  split; [|split; [|done]].
  - constructor; cbn; [|apply links_ok_root|lia|lia].
    + constructor; cbn; try done.
      * intros i x [-> [= ->]]%zget_one. done.
      * intros i g [-> ->]%zget_one. unfold U32_MAX. lia.
      * constructor.
      * by intros i ?%elem_of_nil.
    + exists []. unfold link. rewrite HF by done. done.
    + intros x Hx. unfold link. rewrite HF by done. by rewrite decide_False.
    + intros cs. unfold link. rewrite HF by done. cbn. by intros [= <-].
  - intros x v. unfold payload. rewrite HF by done. destruct (decide (x = r)); [|done].
    cbn [fmap option_fmap option_map nd_content nd_rect]. intros [= <-]. by vm_compute.
Qed.

Lemma run_ops_app t o1 o2 : run_ops t (o1 ++ o2) =
  match run_ops t o1 with Some t1 => run_ops t1 o2 | None => None end.
Proof. revert t. induction o1 as [|[A o] o1 IH]; intros t; cbn; [done|]. by case_match. Qed.

Lemma run_ops_ok ops : forall t, tree_ok t -> exists t', run_ops t ops = Some t' /\ tree_ok t' /\
  config t' = config t /\ (Forall (fun o => checked o.2) ops -> values_ok t -> values_ok t').
Proof.
  induction ops as [|[A o] ops IH]; intros t HO; cbn [run_ops]; [eauto|].
  destruct (run_op_step A t o HO) as (t1 & -> & H). destruct (IH t1 (os_ok _ _ _ H)) as (t' & -> & HO' & HK & HV).
  exists t'. split; [done|]. split; [done|]. split; [rewrite HK; apply H|].
  rewrite list.Forall_cons. intros [Hc HF] Hv. apply HV; [done|]. by apply H.
Qed.

(** A handle older than its slot's generation. *)
Definition stale (t : UiTree) (x : UiNodeId) : Prop :=
  exists g, generations t !z (n_index x) = Some g /\ n_generation x < g.

Lemma stale_invalid t x : stale t x -> contains t x = false.
Proof.
  intros (g & Hg & Hlt). unfold contains, valid_slot. rewrite Hg, bool_decide_false; [done|].
  intros [= ->]. lia.
Qed.

Lemma stale_run ops : forall t t' x, tree_ok t -> stale t x -> run_ops t ops = Some t' -> stale t' x.
Proof.
  induction ops as [|[A o] ops IH]; intros t t' x HO Hs; cbn [run_ops]; [by intros [= <-]|].
  destruct (run_op_step A t o HO) as (t1 & -> & H). intros Hr. apply (IH t1); [apply H| |done].
  destruct Hs as (g & Hg & Hlt). destruct (os_gens _ _ _ H _ _ Hg) as (g' & Hg' & Hle).
  exists g'. split; [done|lia].
Qed.

Lemma gone_stale ops : forall t t' x, tree_ok t -> contains t x = true ->
  run_ops t ops = Some t' -> contains t' x = false -> stale t' x.
Proof.
  induction ops as [|[A o] ops IH]; intros t t' x HO Hx; cbn [run_ops].
  { intros [= <-]. congruence. }
  destruct (run_op_step A t o HO) as (t1 & -> & H). intros Hr Hx'.
  destruct (contains t1 x) eqn:Hx1; [by apply (IH t1); [apply H| | |]|].
  apply (stale_run ops t1); [apply H| |done]. apply H.
  - by apply valid_live.
  - apply eq_None_not_Some. intros Hl. apply (valid_live t1 x (os_ok _ _ _ H)) in Hl.
    unfold contains in Hx1. congruence.
Qed.

(** ** Properties *)

(** From a new tree, every sequence of operations, with
    any reservation of any operation failing, returns: no index is out of
    range and no parent walk or recursive collection runs forever.  The
    resulting tree is well formed (one root, parents and children agree, every
    node reaches the root, generations match slots, the free list holds dead
    slots once, the count is the number of live nodes) and within its node
    quota. *)
Theorem ui_tree_operations_safe (A : alloc) (c : UiConfig) (t0 : UiTree)
    (Hn : 0 <= max_nodes c) (Hd : 0 <= max_depth c) (Hnew : tree_try_new A c = Ok t0)
    (ops : list (alloc * tree_op)) :
  exists t, run_ops t0 ops = Some t /\ tree_ok t /\ count t <= max_nodes c.
Proof.
  destruct (tree_try_new_ok A c t0 Hn Hd Hnew) as (HO & _ & HK).
  destruct (run_ops_ok ops t0 HO) as (t & Hr & HO' & HK' & _).
  exists t. split; [done|]. split; [done|]. rewrite <- HK, <- HK'. apply HO'.
Qed.

(** A handle that was valid and no longer is (its node was
    destroyed) stays invalid after any further operations, whatever is created
    in its slot. *)
Theorem ui_stale_handles (t t1 t2 : UiTree) (id : UiNodeId) (ops1 ops2 : list (alloc * tree_op))
    (Hok : tree_ok t) (Hlive : contains t id = true)
    (Hrun1 : run_ops t ops1 = Some t1) (Hgone : contains t1 id = false)
    (Hrun2 : run_ops t1 ops2 = Some t2) :
  contains t2 id = false /\ node t2 id = Err UiError.InvalidNode.
Proof.
  destruct (run_ops_ok ops1 t Hok) as (t1' & E1 & HO1 & _). rewrite Hrun1 in E1. injection E1 as <-.
  destruct (run_ops_ok ops2 t1 HO1) as (t2' & E2 & HO2 & _). rewrite Hrun2 in E2. injection E2 as <-.
  pose proof (gone_stale ops1 t t1 id Hok Hlive Hrun1 Hgone) as Hs.
  pose proof (stale_invalid _ _ (stale_run ops2 t1 t2 id HO1 Hs Hrun2)) as H.
  split; [done|]. unfold node. by rewrite (proj1 (contains_false t2 id HO2) H).
Qed.

(** C36: Well-typed values: starting from a new tree, the commands
    and setters (everything but a raw [content_mut] edit) keep each node's
    content sane (finite, ordered style values and an opacity in [0, 1]), its
    text within the byte budget and its rectangle sane. *)
Theorem ui_values_well_typed (A : alloc) (c : UiConfig) (t0 t : UiTree)
    (Hn : 0 <= max_nodes c) (Hd : 0 <= max_depth c) (Hnew : tree_try_new A c = Ok t0)
    (ops : list (alloc * tree_op)) (Hchk : Forall (fun o => checked o.2) ops)
    (Hrun : run_ops t0 ops = Some t) (x : UiNodeId) :
  match content t x, rect t x with
  | Ok v, Ok r => content_sane v = true /\ rect_sane r = true /\
      match text v with Some s => text_byte_len s <= max_text_bytes c | None => True end
  | Err e, Err e' => contains t x = false /\ e = UiError.InvalidNode /\ e' = UiError.InvalidNode
  | _, _ => False
  end.
Proof.
  destruct (tree_try_new_ok A c t0 Hn Hd Hnew) as (HO & HV & HK).
  destruct (run_ops_ok ops t0 HO) as (t' & E & HO' & HK' & HV'). rewrite Hrun in E. injection E as <-.
  specialize (HV' Hchk HV). unfold content, rect, node.
  destruct (find_node t x) as [n|] eqn:Hx; cbn.
  - destruct (HV' x (nd_content n, nd_rect n)) as (H1 & H2 & H3); [apply payload_find; eauto|].
    split; [done|]. split; [done|]. unfold text_too_long in H2. rewrite HK', HK in H2. cbn in H2.
    destruct (text (nd_content n)); [|done]. by apply Z.ltb_ge in H2.
  - split; [|done]. by apply contains_false.
Qed.

(** The preorder of a well-formed tree returns the
    list [O root], where [O] is the function that maps each live node to itself
    followed by the concatenation of its children's lists in sibling order;
    it repeats nothing, holds exactly the live handles, and its length is
    [len()].  The recursion of [collect_subtree] ends. *)
Theorem ui_preorder_correct (A : alloc) (t : UiTree) (Hok : tree_ok t) (HA : A 0%nat = true) :
  exists O : UiNodeId -> list UiNodeId,
    preorder A t = Some (O (root t), Ok tt) /\
    (forall x n, find_node t x = Some n -> O x = x :: (nd_children n ≫= O)) /\
    NoDup (O (root t)) /\
    (forall x, x ∈ O (root t) <-> contains t x = true) /\
    zlen (O (root t)) = count t.
Proof.
  pose proof (ok_links _ Hok) as L. pose proof (root_live _ Hok) as HR.
  assert (HN : NoDup (subtree t (root t))) by (apply (order_nodup t L), (walk_enough t L), HR).
  assert (HE : forall x, x ∈ subtree t (root t) <-> is_Some (link t x)).
  { intros x. by rewrite (subtree_elem _ _ _ Hok HR), below_root. }
  exists (subtree t). split; [|split; [|split; [done|split]]].
  - unfold preorder. rewrite HA. by rewrite (collect_spec t L _ _ _ (walk_enough t L _ HR)).
  - intros x n Hn. rewrite (subtree_unfold t x Hok) by (rewrite (link_find _ _ _ Hn); eauto).
    unfold kids. by rewrite Hn.
  - intros x. rewrite HE. symmetry. by apply valid_live.
  - by apply live_count.
Qed.

(** [destroy] returns on every well-formed tree, with the
    error the source's guards give in order; on an error the tree is unchanged;
    on success exactly the handles below [id] are gone, their slots have the
    next generation, and each survivor is as before but for [id] taken out of
    its parent's children. *)
Theorem ui_destroy_exact (A : alloc) (t : UiTree) (id : UiNodeId) (Hok : tree_ok t) :
  exists t' r, destroy A t id = Some (t', r) /\ tree_ok t' /\
    r = (if bool_decide (id = root t) then Err UiError.InvalidNode
         else if negb (A 0%nat) then Err UiError.AllocationFailed
         else if negb (contains t id) then Err UiError.InvalidNode
         else if negb (A 1%nat) then Err UiError.AllocationFailed
         else if negb (can_bump t (subtree t id)) then Err UiError.IndexOverflow
         else Ok tt) /\
    match r with
    | Err _ => t' = t
    | Ok _ =>
        (forall x, contains t' x = true <-> contains t x = true /\ ~ below (link t) id x) /\
        (forall x n', find_node t' x = Some n' -> exists n,
           find_node t x = Some n /\ n' = nd_with_children n (without id (nd_children n))) /\
        (forall x, below (link t) id x ->
           generations t' !z (n_index x) = Some (n_generation x + 1)) /\
        count t' = count t - zlen (subtree t id)
    end.
Proof.
  destruct (destroy_spec A t id Hok) as (t' & r & E & HO' & _ & _ & H & Hr).
  exists t', r. do 3 (split; [done|]). destruct r as [[]|e]; [|done].
  destruct H as (_ & p & ch & Hid & HF & HB & HC).
  assert (Hlive : is_Some (link t id)) by eauto.
  pose proof (fun x => subtree_elem t id x Hok Hlive) as Hsub.
  assert (HF' : forall x n', find_node t' x = Some n' ->
    x ∉ subtree t id /\ exists n, find_node t x = Some n /\ n' = nd_with_children n (without id (nd_children n))).
  { intros x n'. rewrite HF. destruct (decide (x ∈ subtree t id)) as [|Hx]; [done|]. intros Hn'. split; [done|].
    destruct (decide (x = p)) as [->|Hne]; [apply fmap_Some in Hn'; naive_solver|].
    exists n'. split; [done|]. rewrite without_notin; [by rewrite nd_same_children|].
    intros Hin. apply (l_child _ _ (ok_links _ Hok) _ _ _ _ (link_find _ _ _ Hn')) in Hin as [? ?]. congruence. }
  split; [|split; [|split; [|done]]].
  - intros x. rewrite (contains_true _ _ HO'), (contains_true _ _ Hok), <- Hsub. split.
    + intros [n' [Hx (n & Hn & _)]%HF']. eauto.
    + intros [[n Hn] Hx]. rewrite HF, decide_False by done.
      destruct (decide (x = p)) as [->|]; [rewrite Hn; cbn|]; eauto.
  - intros x n' Hn'. by apply HF'.
  - intros x Hx. destruct (live_gen t x Hok (below_live _ _ _ Hx)) as [Hg _].
    rewrite HB, Hg. cbn. rewrite decide_True; [done|]. apply list_elem_of_In, in_map_iff.
    exists x. split; [done|]. by apply list_elem_of_In, Hsub.
Qed.

(** The tree after [id] was moved under [np]. *)
Definition moved (t t' : UiTree) (id np : UiNodeId) : Prop :=
  parent t' id = Ok (Some np) /\
  children t' np = (let? cs := children t np in Ok (without id cs ++ [id])) /\
  (forall x, x <> id -> parent t' x = parent t x) /\
  (forall x, x <> np -> children t' x = (let? cs := children t x in Ok (without id cs))) /\
  (forall x, payload t' x = payload t x).

Lemma move_link_moved t t' id op np ch : tree_ok t -> link t id = Some (Some op, ch) ->
  (forall x, payload t' x = payload t x) -> (forall x, link t' x = move_link (link t) op np id x) ->
  moved t t' id np.
Proof.
  intros Hok Hid HP HL.
  assert (P : forall x, parent t' x = if decide (x = id) then
      match link t x with Some _ => Ok (Some np) | None => Err UiError.InvalidNode end else parent t x).
  { intros x. specialize (HL x). unfold move_link, link in HL. unfold parent, node, link.
    destruct (find_node t x) as [n|], (find_node t' x) as [n'|]; cbn in *; try done.
    - injection HL as -> _. by destruct (decide (x = id)).
    - by destruct (decide (x = id)). }
  assert (C : forall x, children t' x =
     let? cs := children t x in
     let cs := if decide (x = op) then without id cs else cs in
     Ok (if decide (x = np) then cs ++ [id] else cs)).
  { intros x. specialize (HL x). unfold move_link, link in HL. unfold children, node.
    destruct (find_node t x) as [n|], (find_node t' x) as [n'|]; cbn in *; try done.
    by injection HL as _ ->. }
  assert (W : forall x cs, children t x = Ok cs -> x <> op -> without id cs = cs).
  { intros x cs. unfold children, node. destruct (find_node t x) as [n|] eqn:Hn; [|done].
    cbn. intros [= <-] Hne. apply without_notin. intros Hin.
    apply (l_child _ _ (ok_links _ Hok) _ _ _ _ (link_find _ _ _ Hn)) in Hin as [? ?]. congruence. }
  split; [by rewrite P, decide_True, Hid|]. split; [|split; [|split; [|done]]].
  - rewrite C. destruct (children t np) as [cs|e] eqn:Ec; [cbn|done].
    rewrite (decide_True (P := np = np)) by done. destruct (decide (np = op)); [done|]. by rewrite (W np).
  - intros x Hx. by rewrite P, decide_False.
  - intros x Hx. rewrite C. destruct (children t x) as [cs|e] eqn:Ec; [cbn|done].
    rewrite (decide_False (P := x = np)) by done. destruct (decide (x = op)); [done|]. by rewrite (W x).
Qed.

(** [reparent] under a live new parent [np] with ancestor
    walk [lnp]: refused in the source's order (the root, a cycle, the depth of
    [np], a dead node), with the tree unchanged, also when the reservation
    fails; otherwise [id] becomes the last child of [np], leaves its old parent,
    and no other parent link, content or rectangle changes. *)
Theorem ui_reparent_correct (A : alloc) (t : UiTree) (id np : UiNodeId)
    (Hok : tree_ok t) (Hnp : contains t np = true) :
  exists lnp t' r, lpath (link t) np lnp /\ reparent A t id np = Some (t', r) /\ tree_ok t' /\
    match reparent_refused t id np lnp with
    | Some e => r = Err e /\ t' = t
    | None =>
        if A 0%nat then r = Ok tt /\ moved t t' id np
        else r = Err UiError.AllocationFailed /\ t' = t
    end.
Proof.
  destruct (reparent_guards A t id np Hok) as [[? _]|(lnp & Hl & E)]; [congruence|].
  destruct (reparent_spec A t id np Hok) as (t' & r & E' & HO' & _ & HP & H).
  exists lnp, t', r. do 3 (split; [done|]). rewrite E' in E.
  destruct (reparent_refused t id np lnp) as [e|] eqn:Er; [by injection E as -> ->|].
  destruct (A 0%nat); [|by injection E as -> ->].
  destruct r as [[]|e].
  2: { subst t'. destruct (link t id) as [[[op|] ch]|] eqn:Hid; try done.
       unfold reparent_refused in Er. destruct (bool_decide_reflect (id = root t)); [done|].
       destruct (contains t np); [|done]. cbn [orb negb] in Er.
       destruct (bool_decide_reflect (id ∈ lnp)) as [|Hin]; [done|].
       destruct (relink_spec t op np id ch lnp Hok Hid Hl Hin) as (t1 & E1 & _). rewrite E1 in E.
       done. }
  destruct H as (op & ch & lnp' & Hid & Hl' & _ & HL).
  split; [done|]. by eapply move_link_moved.
Qed.

(** ** A run on a concrete tree *)
Definition demo_r : UiNodeId := {| n_index := 0; n_generation := 1 |}.
Definition demo_a : UiNodeId := {| n_index := 1; n_generation := 1 |}.
Definition demo_b : UiNodeId := {| n_index := 2; n_generation := 1 |}.
Definition panel : UiNodeContent := content_new UiNodeKind.Panel.

Definition demo_config : UiConfig := {|
  max_nodes := 8; max_depth := 4; max_text_bytes := 16; max_glyphs := 64; max_clips := 16;
  max_paint_items := 16; max_batches := 16; max_commands := 8; max_upload_bytes := 4096;
  max_layout_iterations := 8; dpi_scale := f32_one |}.

Definition demo_tree : UiTree :=
  match tree_try_new alloc_all demo_config with
  | Ok t => t
  | Err _ => {| slots := []; generations := []; free := []; root := demo_r; count := 0;
                config := demo_config |}
  end.

Definition demo_ops : list (alloc * tree_op) := [
  (alloc_all, OpCommand (UiCommand.Create demo_r panel));
  (alloc_all, OpCommand (UiCommand.Create demo_a panel));
  (alloc_all, OpCommand (UiCommand.SetText demo_b {| text_value := [72; 105; 8364] |}));
  (alloc_all, OpCommand (UiCommand.Reparent demo_b demo_r))].

Definition demo_destroy : list (alloc * tree_op) := [(alloc_all, OpCommand (UiCommand.Destroy demo_a))].
Definition demo_reuse : list (alloc * tree_op) := [(alloc_all, OpCommand (UiCommand.Create demo_b panel))].

Definition demo_run (ops : list (alloc * tree_op)) : UiTree :=
  match run_ops demo_tree ops with Some t => t | None => demo_tree end.

Lemma ui_tree_operations_safe_witness :
  exists t, run_ops demo_tree demo_ops = Some t /\ tree_ok t /\ count t <= 8.
Proof.
  apply (ui_tree_operations_safe alloc_all demo_config demo_tree); [cbn; lia|cbn; lia|reflexivity].
Defined.

Lemma ui_stale_handles_witness :
  contains (demo_run (demo_ops ++ demo_destroy ++ demo_reuse)) demo_a = false /\
  node (demo_run (demo_ops ++ demo_destroy ++ demo_reuse)) demo_a = Err UiError.InvalidNode.
Proof.
  apply (ui_stale_handles (demo_run demo_ops) (demo_run (demo_ops ++ demo_destroy)) _ demo_a
    demo_destroy demo_reuse).
  - destruct (tree_try_new_ok alloc_all demo_config demo_tree) as (HO & _ & _);
      [cbn; lia|cbn; lia|reflexivity|].
    destruct (run_ops_ok demo_ops demo_tree HO) as (t & E & HO' & _).
    unfold demo_run. rewrite E. exact HO'.
  - vm_compute. reflexivity.
  - vm_compute. reflexivity.
  - vm_compute. reflexivity.
  - vm_compute. reflexivity.
Defined.

Lemma ui_values_well_typed_witness :
  match content (demo_run demo_ops) demo_b, rect (demo_run demo_ops) demo_b with
  | Ok v, Ok w => content_sane v = true /\ rect_sane w = true /\
      match text v with Some s => text_byte_len s <= 16 | None => True end
  | Err e, Err e' =>
      contains (demo_run demo_ops) demo_b = false /\ e = UiError.InvalidNode /\ e' = UiError.InvalidNode
  | _, _ => False
  end.
Proof.
  apply (ui_values_well_typed alloc_all demo_config demo_tree (demo_run demo_ops)) with demo_ops;
    [cbn; lia|cbn; lia|reflexivity| |vm_compute; reflexivity].
  repeat (constructor; [exact I|]). constructor.
Defined.

Lemma demo_run_ok ops : tree_ok (demo_run ops).
Proof.
  destruct (tree_try_new_ok alloc_all demo_config demo_tree) as (HO & _ & _);
    [cbn; lia|cbn; lia|reflexivity|].
  destruct (run_ops_ok ops demo_tree HO) as (t & E & HO' & _). unfold demo_run. by rewrite E.
Qed.

Lemma ui_preorder_correct_witness : exists O : UiNodeId -> list UiNodeId,
  let t := demo_run demo_ops in
  preorder alloc_all t = Some (O (root t), Ok tt) /\
  (forall x n, find_node t x = Some n -> O x = x :: (nd_children n ≫= O)) /\
  NoDup (O (root t)) /\
  (forall x, x ∈ O (root t) <-> contains t x = true) /\
  zlen (O (root t)) = count t.
Proof. apply (ui_preorder_correct alloc_all (demo_run demo_ops)); [apply demo_run_ok|reflexivity]. Defined.

Lemma ui_destroy_exact_witness :
  exists t' r, destroy alloc_all (demo_run demo_ops) demo_a = Some (t', r) /\ r = Ok tt /\
    contains t' demo_a = false.
Proof.
  destruct (ui_destroy_exact alloc_all (demo_run demo_ops) demo_a (demo_run_ok _))
    as (t' & r & E & _ & Hr & H).
  exists t', r. split; [exact E|].
  assert (Hk : r = Ok tt) by (rewrite Hr; vm_compute; reflexivity).
  split; [exact Hk|]. rewrite Hk in H. destruct H as (H & _ & Hb & _).
  destruct (contains t' demo_a) eqn:Hc; [|reflexivity]. destruct (proj1 (H demo_a) Hc) as [_ Hn].
  destruct Hn. exists [demo_a; demo_r]. split; [|apply list_elem_of_here].
  eapply lpath_up; [vm_compute; reflexivity|]. eapply lpath_root. vm_compute. reflexivity.
Defined.

Lemma ui_reparent_correct_witness :
  exists lnp t' r, lpath (link (demo_run demo_ops)) demo_a lnp /\
    reparent alloc_all (demo_run demo_ops) demo_b demo_a = Some (t', r) /\ tree_ok t' /\
    match reparent_refused (demo_run demo_ops) demo_b demo_a lnp with
    | Some e => r = Err e /\ t' = demo_run demo_ops
    | None => r = Ok tt /\ moved (demo_run demo_ops) t' demo_b demo_a
    end.
Proof.
  apply (ui_reparent_correct alloc_all (demo_run demo_ops) demo_b demo_a);
    [apply demo_run_ok|vm_compute; reflexivity].
Defined.

(** A failed reservation of the children vector comes after the free index
    was popped: the slot is never used again. *)
Example create_leaks_a_slot :
  let t := demo_run (demo_ops ++ demo_destroy) in
  free t = [1] /\
  match create (fun k => negb (Nat.eqb k 2)) t demo_r panel with
  | Some (t', res) => res = Err UiError.AllocationFailed /\ free t' = [] /\
      slots t' !z 1 = Some None /\ count t' = count t
  | None => False
  end.
Proof. vm_compute. repeat split. Qed.

(** [reparent] checks the depth of the new parent only: with a limit of 4, a
    chain of three nodes moved below another node ends up with a node at
    depth 4, which [create] refuses (depths are below the limit there). *)
Example reparent_exceeds_max_depth :
  let c i := {| n_index := i; n_generation := 1 |} in
  let t := demo_run [
    (alloc_all, OpCommand (UiCommand.Create demo_r panel));
    (alloc_all, OpCommand (UiCommand.Create (c 1) panel));
    (alloc_all, OpCommand (UiCommand.Create (c 2) panel));
    (alloc_all, OpCommand (UiCommand.Create demo_r panel));
    (alloc_all, OpCommand (UiCommand.Reparent (c 1) (c 4)))] in
  [parent t (c 3); parent t (c 2); parent t (c 1); parent t (c 4)] =
    [Ok (Some (c 2)); Ok (Some (c 1)); Ok (Some (c 4)); Ok (Some demo_r)] /\
  max_depth (config t) = 4 /\
  depth (walk_fuel t) t (c 3) 0 = Some (Err UiError.DepthExceeded).
Proof. vm_compute. repeat split. Qed.
