(* ===== verification/UiEffects.v ===== *)
(** What a UI command does, on the tree as its readers see it: parent, children
    and content of every handle ([parent], [children] and [content] of
    [ui/tree.rs]).  [command_effect] says it for each command of
    [ui/commands.rs] without the slot table, generations, dirty flags or walks;
    [command_refused] lists the only reasons a command may have no effect. *)

From S2P Require Import Prelude F32 UiComponents UiTree UiTreeInv UiCommands.

Local Open Scope Z_scope.
Local Open Scope kit_scope.

Definition view : Type := UiNodeId -> option (option UiNodeId * list UiNodeId * UiNodeContent).

Definition shown (t : UiTree) : view := fun x =>
  (fun n => (nd_parent n, nd_children n, nd_content n)) <$> find_node t x.

(** [y] is [x] or a descendant of [x]. *)
Inductive under (v : view) (x : UiNodeId) : UiNodeId -> Prop :=
| under_self : is_Some (v x) -> under v x x
| under_child y p cs c : v y = Some (Some p, cs, c) -> under v x p -> under v x y.

Definition edited (v v' : view) (x : UiNodeId) (f : UiNodeContent -> UiNodeContent) : Prop :=
  exists q cs c, v x = Some (q, cs, c) /\
  forall y, v' y = if decide (y = x) then Some (q, cs, f c) else v y.

Definition command_effect (v v' : view) (c : UiCommand) : Prop :=
  match c with
  | UiCommand.Create p content =>
      exists id q cs c0, v id = None /\ v p = Some (q, cs, c0) /\
      forall y, v' y = if decide (y = id) then Some (Some p, [], content)
                       else if decide (y = p) then Some (q, cs ++ [id], c0) else v y
  | UiCommand.Destroy x =>
      exists p cs c0, v x = Some (Some p, cs, c0) /\
      (forall y, under v x y -> v' y = None) /\
      (forall y, ~ under v x y ->
         v' y = if decide (y = p) then (fun '(q, cs, c) => (q, without x cs, c)) <$> v y else v y)
  | UiCommand.Reparent x p =>
      exists op cs c0, v x = Some (Some op, cs, c0) /\ is_Some (v p) /\ ~ under v x p /\
      forall y, v' y = (fun '(q, cs, c) =>
        (if decide (y = x) then Some p else q,
         let cs := if decide (y = op) then without x cs else cs in
         if decide (y = p) then cs ++ [x] else cs, c)) <$> v y
  | UiCommand.SetStyle x s => edited v v' x (fun c => with_style c s)
  | UiCommand.SetText x s => edited v v' x (fun c => with_text c (Some s))
  | UiCommand.SetVisible x b => edited v v' x (fun c => with_visible c b)
  | UiCommand.SetZIndex x z => edited v v' x (fun c => with_z_index c z)
  | UiCommand.SetAccessibility x a => edited v v' x (fun c => with_accessibility c a)
  end.

(** The node [x] is [max_depth] or more levels below the top. *)
Definition too_deep (t : UiTree) (x : UiNodeId) : Prop :=
  exists l, lpath (link t) x l /\ max_depth (config t) <= zlen l.

Definition memory_refused (A : alloc) : Prop := exists k, A k = false.

Definition command_refused (A : alloc) (t : UiTree) (c : UiCommand) : Prop :=
  match c with
  | UiCommand.Create p content =>
      shown t p = None \/ content_sane content = false \/ text_too_long t content = true \/
      too_deep t p \/ max_nodes (config t) <= count t \/ U32_MAX < zlen (slots t) \/ memory_refused A
  | UiCommand.Destroy x =>
      x = root t \/ shown t x = None \/ memory_refused A \/
      exists y, under (shown t) x y /\ n_generation y = U32_MAX
  | UiCommand.Reparent x p =>
      x = root t \/ shown t x = None \/ shown t p = None \/ under (shown t) x p \/
      too_deep t p \/ memory_refused A
  | UiCommand.SetStyle x s => shown t x = None \/ style_sane s = false
  | UiCommand.SetText x s => shown t x = None \/ max_text_bytes (config t) < text_byte_len s
  | UiCommand.SetVisible x _ | UiCommand.SetZIndex x _ | UiCommand.SetAccessibility x _ =>
      shown t x = None
  end.

(** One command with its answer. *)
Definition command_done (A : alloc) (t t' : UiTree) (c : UiCommand) (r : result UiError unit) : Prop :=
  match r with
  | Ok _ => command_effect (shown t) (shown t') c
  | Err _ => command_refused A t c /\ forall x, shown t' x = shown t x
  end.

(** A queue of commands played on a tree, first to last; the [k]-th runs under
    the oracle [As k]. *)
Inductive played (As : nat -> alloc) : nat -> list UiCommand -> UiTree -> UiTree -> Prop :=
| played_nil k t : played As k [] t t
| played_cons k c cs t t1 t' r :
    apply_command (As k) t c = Some (t1, r) -> command_done (As k) t t1 c r ->
    played As (S k) cs t1 t' -> played As k (c :: cs) t t'.

(** ** The commands do what is said *)
Lemma shown_None t x : shown t x = None <-> find_node t x = None.
Proof. unfold shown. by rewrite fmap_None. Qed.

Lemma contains_shown t x : tree_ok t -> contains t x = false <-> shown t x = None.
Proof. intros HO. rewrite shown_None. by apply contains_false. Qed.

Lemma shown_link t x p cs c : shown t x = Some (p, cs, c) -> link t x = Some (p, cs).
Proof. unfold shown, link. destruct (find_node t x); [|done]. by intros [= <- <- <-]. Qed.

Lemma link_shown t x p cs : link t x = Some (p, cs) -> exists c, shown t x = Some (p, cs, c).
Proof.
  intros (n & Hn & E)%link_Some. simplify_eq. exists (nd_content n). unfold shown. by rewrite Hn.
Qed.

Lemma under_below t x y : tree_ok t -> under (shown t) x y <-> below (link t) x y.
Proof.
  intros HO. split.
  - induction 1 as [[[[p cs] c] Hx]|y p cs c Hy _ (l & Hl & Hin)].
    + apply shown_link in Hx. destruct (l_path _ _ (ok_links _ HO) x) as [l Hl]; [eauto|].
      exists l. split; [done|]. destruct (lpath_head _ _ _ Hl) as [l' ->]. apply list_elem_of_here.
    + exists (y :: l). split; [|by apply list_elem_of_further]. eapply lpath_up; [by eapply shown_link|done].
  - intros (l & Hl & Hin). revert Hin. induction Hl as [y cs Hy|y p cs l Hy Hl IH]; intros Hin;
      apply link_shown in Hy as [c Hy].
    + apply list_elem_of_singleton in Hin as ->. apply under_self. eauto.
    + apply elem_of_cons in Hin as [->|Hin]; [apply under_self; eauto|].
      eapply under_child; [exact Hy|by apply IH].
Qed.

Lemma under_subtree t x y : tree_ok t -> is_Some (shown t x) ->
  under (shown t) x y <-> y ∈ subtree t x.
Proof.
  intros HO [[[p cs] c] Hx%shown_link]. rewrite subtree_elem by eauto. by apply under_below.
Qed.

Lemma take_slot_error A t t' e : take_slot A t = Some (t', Err e) ->
  U32_MAX < zlen (slots t) \/ memory_refused A.
Proof.
  unfold take_slot. destruct (vec_pop (free t)) as [[i rest]|]; [by destruct (_ !z i)|].
  destruct (Z.ltb_spec U32_MAX (zlen (slots t))); [by left|right].
  destruct (A 0%nat) eqn:E0; [|by exists 0%nat]. destruct (A 1%nat) eqn:E1; [done|by exists 1%nat].
Qed.

Lemma link_node_error A t p c i g t' e : find_node t p <> None ->
  link_node A t p c i g = Some (t', Err e) -> memory_refused A.
Proof.
  intros Hp. unfold link_node. destruct (A 2%nat) eqn:E2; [|by exists 2%nat].
  destruct (find_node t p); [|done]. destruct (A 3%nat) eqn:E3; [|by exists 3%nat].
  cbn [negb]. by destruct (_ && _).
Qed.

Lemma create_effect A t p content : tree_ok t -> exists t' r,
  create A t p content = Some (t', r) /\
  match r with
  | Ok _ => command_effect (shown t) (shown t') (UiCommand.Create p content)
  | Err _ => command_refused A t (UiCommand.Create p content) /\ forall x, shown t' x = shown t x
  end.
Proof.
  intros HO. destruct (create_spec A t p content HO) as (t' & r & E & _ & _ & _ & _ & H).
  exists t', r. split; [done|]. destruct r as [id|e].
  - destruct H as ([[q cs] Hp] & _ & _ & [Hid Hf] & _). apply link_shown in Hp as [c0 Hp].
    exists id, q, cs, c0. split; [by apply shown_None|]. split; [done|]. intros y. unfold shown at 1. rewrite Hf.
    destruct (decide (y = id)); [done|]. destruct (decide (y = p)) as [->|]; [|done].
    unfold shown in Hp. destruct (find_node t p); [|done]. cbn in Hp |- *. by simplify_eq.
  - destruct H as [Hf _]. split; [|intros x; unfold shown; by rewrite Hf].
    cbn [command_refused]. destruct (create_guards A t p content HO) as [[Hc _]|(d & (l & Hl & ->) & _ & E')].
    { left. by apply contains_shown. }
    rewrite E' in E. clear E'. unfold create_refused in E.
    destruct (contains t p) eqn:Hc; [|left; by apply contains_shown]. cbn [negb] in E.
    destruct (content_sane content); [|naive_solver]. cbn [negb] in E.
    destruct (text_too_long t content); [naive_solver|].
    destruct (Z.leb_spec (max_depth (config t)) (zlen l - 1 + 1)).
    { do 3 right. left. exists l. split; [done|lia]. }
    destruct (Z.leb_spec (max_nodes (config t)) (count t)); [naive_solver|].
    do 5 right. destruct (take_slot_spec A t HO) as (t1 & r1 & Et & _ & HF & _). rewrite Et in E.
    destruct r1 as [[i g]|e1]; [right|by eapply take_slot_error].
    eapply link_node_error; [|exact E]. rewrite HF. intros Hn%(contains_false t p HO). congruence.
Qed.

Lemma destroy_effect A t x : tree_ok t -> exists t' r,
  destroy A t x = Some (t', r) /\ command_done A t t' (UiCommand.Destroy x) r.
Proof.
  intros HO. destruct (destroy_spec A t x HO) as (t' & r & E & _ & _ & _ & H & Hr).
  exists t', r. split; [done|]. destruct r as [[]|e].
  - destruct H as (_ & p & cs & Hx & Hf & _). apply link_shown in Hx as [c Hx].
    assert (forall y, under (shown t) x y <-> y ∈ subtree t x) as Hu by (intros y; apply under_subtree; eauto).
    exists p, cs, c. split; [done|]. unfold shown at 2 4 5. split; intros y Hy; rewrite Hu in Hy; rewrite Hf.
    + by rewrite decide_True.
    + rewrite decide_False by done. destruct (decide (y = p)); [|done]. by destruct (find_node t y).
  - subst t'. split; [|done]. cbn [command_refused].
    destruct (bool_decide_reflect (x = root t)); [by left|right].
    destruct (A 0%nat) eqn:E0; [|right; left; by exists 0%nat]. cbn [negb] in Hr.
    destruct (contains t x) eqn:Hc; [|left; by apply contains_shown]. cbn [negb] in Hr. right.
    destruct (A 1%nat) eqn:E1; [|left; by exists 1%nat]. cbn [negb] in Hr. right.
    destruct (can_bump t (subtree t x)) eqn:Hb; [done|]. apply bool_decide_eq_false in Hb.
    apply not_Forall_Exists in Hb; [|intros y; apply _]. apply Exists_exists in Hb as (y & Hy & Hg).
    exists y. split; [|by apply dec_stable].
    apply under_subtree; [done| |by apply list_elem_of_In]. destruct (shown t x) eqn:Hx; [eauto|].
    apply contains_shown in Hx; [congruence|done].
Qed.

Lemma reparent_effect A t x p : tree_ok t -> exists t' r,
  reparent A t x p = Some (t', r) /\ command_done A t t' (UiCommand.Reparent x p) r.
Proof.
  intros HO. destruct (reparent_spec A t x p HO) as (t' & r & E & _ & _ & HP & H).
  exists t', r. split; [done|]. destruct r as [[]|e].
  - destruct H as (op & cs & lnp & Hx & Hl & Hr & HL). apply link_shown in Hx as [c Hx].
    unfold reparent_refused in Hr. destruct (bool_decide_reflect (x = root t)) as [|Hroot]; [done|].
    destruct (contains t p) eqn:Hc; [|done]. cbn [negb orb] in Hr.
    destruct (bool_decide_reflect (x ∈ lnp)) as [|Hin]; [done|].
    exists op, cs, c. split; [done|]. split.
    { destruct (shown t p) eqn:Hp; [eauto|]. apply contains_shown in Hp; [congruence|done]. }
    split. { intros (l & Hl' & ?)%under_below; [|done]. by rewrite (lpath_fun _ _ _ _ Hl Hl') in Hin. }
    intros y. specialize (HL y). specialize (HP y). unfold payload, move_link, link in *. unfold shown.
    destruct (find_node t y), (find_node t' y); try done. cbn in *. simplify_eq. cbn. congruence.
  - subst t'. split; [|done]. cbn [command_refused].
    destruct (reparent_guards A t x p HO) as [[Hc _]|(lnp & Hl & E')].
    { do 2 right. left. by apply contains_shown. }
    rewrite E' in E. clear E'. unfold reparent_refused in E.
    destruct (bool_decide_reflect (x = root t)); [by left|right].
    destruct (contains t p) eqn:Hp; [|right; left; by apply contains_shown]. cbn [negb orb] in E.
    destruct (bool_decide_reflect (x ∈ lnp)).
    { do 2 right. left. apply under_below; [done|]. by exists lnp. }
    destruct (Z.leb_spec (max_depth (config t)) (zlen lnp)).
    { do 3 right. left. by exists lnp. }
    destruct (contains t x) eqn:Hx; [|left; by apply contains_shown]. cbn [negb] in E.
    do 4 right. destruct (A 0%nat) eqn:E0; [|by exists 0%nat].
    apply (valid_live t x HO) in Hx as [[[op|] cs] Hx]; rewrite Hx in E; [|done].
    destruct (relink_spec t op p x cs lnp HO Hx Hl) as (t2 & E2 & _); [done|]. congruence.
Qed.

Lemma edit_effect t x f : tree_ok t ->
  let '(t', r) := content_mut t x f in
  match r with
  | Ok _ => edited (shown t) (shown t') x f
  | Err _ => shown t x = None /\ forall y, shown t' y = shown t y
  end.
Proof.
  intros HO. pose proof (content_mut_spec t x f HO) as H. destruct (find_node t x) as [n|] eqn:Hn.
  - destruct H as (t' & -> & _ & Hf). exists (nd_parent n), (nd_children n), (nd_content n).
    unfold shown. rewrite Hn. split; [done|]. intros y. rewrite Hf. by destruct (decide (y = x)).
  - rewrite H. split; [by apply shown_None|done].
Qed.

Lemma apply_command_effect A t c : tree_ok t -> exists t' r,
  apply_command A t c = Some (t', r) /\ command_done A t t' c r.
Proof.
  intros HO.
  assert (Edit : forall x f, (forall v v', edited v v' x f -> command_effect v v' c) ->
    (shown t x = None -> command_refused A t c) ->
    exists t' r, Some (content_mut t x f) = Some (t', r) /\ command_done A t t' c r).
  { intros x f H1 H2. pose proof (edit_effect t x f HO) as H. destruct (content_mut t x f) as [t' r].
    exists t', r. split; [done|]. destruct r; [by apply H1|]. destruct H as [H ?]. split; [by apply H2|done]. }
  destruct c as [p c|x|x p|x s|x s|x v|x z|x a]; cbn [apply_command].
  - destruct (create_effect A t p c HO) as (t' & r & -> & H). eexists _, _. split; [done|]. by destruct r.
  - by apply destroy_effect.
  - by apply reparent_effect.
  - destruct (style_sane s) eqn:Hs; [apply Edit; [done|by left]|].
    eexists _, _. split; [done|]. split; [by right|done].
  - destruct (Z.leb_spec (text_byte_len s) (max_text_bytes (config t))); [apply Edit; [done|by left]|].
    eexists _, _. split; [done|]. split; [by right|done].
  - by apply Edit.
  - by apply Edit.
  - by apply Edit.
Qed.

(** Draining a buffer plays its commands. *)
Lemma apply_all_played As cs : forall k t n, tree_ok t -> exists t' n',
  apply_all As k t cs n = Some (t', n') /\ tree_ok t' /\ played As k cs t t'.
Proof.
  induction cs as [|c cs IH]; intros k t n HO; cbn [apply_all].
  { exists t, n. split; [done|]. split; [done|constructor]. }
  destruct (apply_command_effect (As k) t c HO) as (t1 & r & E & Hd).
  destruct (apply_command_step (As k) t c HO) as (t1' & r' & E' & Hs). rewrite E in E'. simplify_eq. rewrite E.
  destruct (IH (S k) t1' (if is_ok r' then saturating_add 64 n 1 else n) (os_ok _ _ _ Hs)) as (t' & n' & -> & HO' & Hp).
  exists t', n'. split; [done|]. split; [done|]. by econstructor.
Qed.
