(* ===== verification/UiInput.v ===== *)
(** Focus, capture and hit testing ([ui/input.rs]).  Theorems: the hit test
    picks the topmost hittable node (largest z-index, then latest in preorder),
    and routing keeps focus and capture on live nodes, captures on press and
    releases on release. *)

From S2P Require Import Prelude F32 UiComponents UiTree UiTreeInv UiCommands.

Local Open Scope Z_scope.
Local Open Scope kit_scope.

Module UiInputEvent.
Inductive UiInputEvent :=
| PointerMove (x y : Z)
| PointerButton (button : Z) (pressed : bool) (x y : Z)
| Key (key : Z) (pressed : bool)
| TextByte (byte : Z).
End UiInputEvent.
Abbreviation UiInputEvent := UiInputEvent.UiInputEvent.

Record UiInputResult := {
  target : option UiNodeId;
  res_focused : option UiNodeId;
  consumed : bool
}.

Record UiFocusCapture := { focused : option UiNodeId; captured : option UiNodeId }.
Definition focus_default : UiFocusCapture := {| focused := None; captured := None |}.

(** [if x.is_some_and(|id| !tree.contains(id)) { x = None }]. *)
Definition keep_live (t : UiTree) (x : option UiNodeId) : option UiNodeId :=
  match x with Some id => if contains t id then Some id else None | None => None end.
Definition clear_stale (f : UiFocusCapture) (t : UiTree) : UiFocusCapture :=
  {| focused := keep_live t (focused f); captured := keep_live t (captured f) |}.

(** The walk over the ancestors from [cursor]. *)
Fixpoint ancestors_allow (fuel : nat) (t : UiTree) (cursor : option UiNodeId) (x y : f32)
  : option bool :=
  match cursor with
  | None => Some true
  | Some id =>
      match fuel with
      | O => None
      | S fuel =>
          match content t id with
          | Err _ => Some false
          | Ok c =>
              if negb (visible c) then Some false
              else
                let inside :=
                  match overflow (style c) with
                  | UiOverflow.Visible => true
                  | _ => match rect t id with Ok r => rect_contains r x y | Err _ => false end
                  end in
                if inside
                then ancestors_allow fuel t
                       (match parent t id with Ok p => p | Err _ => None end) x y
                else Some false
          end
      end
  end.

Definition ancestors_allow_hit (t : UiTree) (node : UiNodeId) (x y : f32) : option bool :=
  ancestors_allow (walk_fuel t) t (match parent t node with Ok p => p | Err _ => None end) x y.

(** The conditions on the node itself. *)
Definition hit_self (t : UiTree) (id : UiNodeId) (x y : f32) : bool :=
  match content t id, rect t id with
  | Ok c, Ok r =>
      visible c && hit_testable (interaction c) && negb (disabled (interaction c)) &&
      rect_contains r x y
  | _, _ => false
  end.

Definition z_of (t : UiTree) (id : UiNodeId) : Z :=
  match content t id with Ok c => z_index c | Err _ => 0 end.

(** [(z, i) >= (z', i')] on tuples. *)
Definition hit_ge (a b : Z * Z) : bool :=
  (b.1 <? a.1) || ((b.1 =? a.1) && (b.2 <=? a.2)).

Fixpoint hit_loop (t : UiTree) (x y : f32) (ids : list UiNodeId) (i : Z)
    (best : option (Z * Z * UiNodeId)) : option (option (Z * Z * UiNodeId)) :=
  match ids with
  | [] => Some best
  | id :: ids =>
      if hit_self t id x y then
        match ancestors_allow_hit t id x y with
        | None => None
        | Some false => hit_loop t x y ids (i + 1) best
        | Some true =>
            let candidate := (z_of t id, i, id) in
            let best :=
              match best with
              | Some current => if hit_ge candidate.1 current.1 then Some candidate else best
              | None => Some candidate
              end in
            hit_loop t x y ids (i + 1) best
        end
      else hit_loop t x y ids (i + 1) best
  end.

Definition hit_test (A : alloc) (t : UiTree) (x y : f32) : option (option UiNodeId) :=
  match preorder A t with
  | None => None
  | Some (_, Err _) => Some None
  | Some (order, Ok _) =>
      match hit_loop t x y order 0 None with
      | None => None
      | Some best => Some (snd <$> best)
      end
  end.

(** [x as f32]. *)
Definition pointer (e : UiInputEvent) : option (f32 * f32) :=
  match e with
  | UiInputEvent.PointerMove x y | UiInputEvent.PointerButton _ _ x y =>
      Some (f32_of_Z x, f32_of_Z y)
  | _ => None
  end.

Definition is_focusable (t : UiTree) (id : UiNodeId) : bool :=
  match content t id with Ok c => focusable (interaction c) | Err _ => false end.

Definition route (A : alloc) (f : UiFocusCapture) (t : UiTree) (e : UiInputEvent)
  : option (UiFocusCapture * UiInputResult) :=
  let f := clear_stale f t in
  let hit :=
    match captured f with
    | Some id => Some (Some id)
    | None => match pointer e with Some (x, y) => hit_test A t x y | None => Some None end
    end in
  match hit with
  | None => None
  | Some target =>
      let f :=
        match e with
        | UiInputEvent.PointerButton _ true _ _ =>
            match target with
            | Some id => {| focused := if is_focusable t id then Some id else None;
                            captured := target |}
            | None => f
            end
        | UiInputEvent.PointerButton _ false _ _ => {| focused := focused f; captured := None |}
        | _ => f
        end in
      Some (f, {| target := target; res_focused := focused f;
                  consumed := bool_decide (is_Some target) || bool_decide (is_Some (focused f)) |})
  end.

(** ** The topmost node *)
Definition clips (t : UiTree) (id : UiNodeId) (x y : f32) : bool :=
  match content t id with
  | Ok c => visible c &&
      match overflow (style c), rect t id with
      | UiOverflow.Visible, _ => true
      | _, Ok r => rect_contains r x y
      | _, Err _ => false
      end
  | Err _ => false
  end.

(** [l] is the walk from [id] to the root, [id] included. *)
Definition hittable (t : UiTree) (id : UiNodeId) (x y : f32) : Prop :=
  hit_self t id x y = true /\
  exists l, lpath (link t) id l /\ forall a, a ∈ l -> a <> id -> clips t a x y = true.

Lemma parent_link t id : parent t id =
  match link t id with Some (p, _) => Ok p | None => Err UiError.InvalidNode end.
Proof. unfold parent, node, link. by destruct (find_node t id). Qed.

Lemma ancestors_allow_spec fuel t x y : forall id l, lpath (link t) id l -> (length l <= fuel)%nat ->
  ancestors_allow fuel t (Some id) x y = Some (forallb (fun a => clips t a x y) l).
Proof.
  induction fuel as [|fuel IH]; intros id l Hl Hlen.
  { destruct (lpath_head _ _ _ Hl) as [? ->]. cbn in Hlen. lia. }
  cbn [ancestors_allow]. destruct (find_path _ _ _ Hl) as [n Hn].
  assert (Hc : content t id = Ok (nd_content n)) by (unfold content, node; by rewrite Hn).
  assert (Hr : rect t id = Ok (nd_rect n)) by (unfold rect, node; by rewrite Hn).
  assert (Hcl : clips t id x y = visible (nd_content n) &&
    match overflow (style (nd_content n)) with
    | UiOverflow.Visible => true | _ => rect_contains (nd_rect n) x y end).
  { unfold clips. rewrite Hc, Hr. by destruct (overflow _). }
  rewrite Hc, Hr, parent_link, (link_find _ _ _ Hn).
  pose proof (lpath_step _ _ _ _ Hl Hn) as Hst.
  destruct (nd_parent n) as [p|].
  - destruct Hst as (l' & -> & Hp). cbn in Hlen. cbn [forallb]. rewrite Hcl.
    rewrite (IH p l' Hp) by lia. destruct (visible _); [|done]. cbn [negb andb].
    by destruct (match overflow _ with UiOverflow.Visible => _ | _ => _ end).
  - subst l. cbn [forallb]. rewrite Hcl. destruct (visible _); [|done]. cbn [negb andb].
    destruct (match overflow _ with UiOverflow.Visible => _ | _ => _ end); [|done].
    by destruct fuel.
Qed.

Lemma allow_hit_spec t id x y : tree_ok t -> is_Some (link t id) ->
  exists b, ancestors_allow_hit t id x y = Some b /\
  (b = true <-> exists l, lpath (link t) id l /\ forall a, a ∈ l -> a <> id -> clips t a x y = true).
Proof.
  intros HO Hid. destruct (l_path _ _ (ok_links _ HO) id Hid) as [l Hl].
  unfold ancestors_allow_hit. rewrite parent_link. destruct (find_path _ _ _ Hl) as [n Hn].
  rewrite (link_find _ _ _ Hn). pose proof (lpath_step _ _ _ _ Hl Hn) as Hst.
  assert (U : forall l', lpath (link t) id l' -> l' = l) by (intros; by eapply lpath_fun).
  destruct (nd_parent n) as [p|].
  - destruct Hst as (l' & -> & Hp). pose proof (lpath_short _ _ _ Hp).
    rewrite (ancestors_allow_spec _ _ _ _ _ _ Hp) by lia. eexists. split; [done|].
    pose proof (lpath_nodup _ _ _ Hl) as [Hni _]%list.NoDup_cons.
    rewrite forallb_forall. split.
    + intros H'. exists (id :: l'). split; [done|]. intros a [->|Ha]%elem_of_cons Hne; [done|].
      apply H'. by apply list_elem_of_In.
    + intros (l2 & Hl2 & H') a Ha%list_elem_of_In. apply U in Hl2 as ->. apply H'.
      * by apply elem_of_cons; right.
      * by intros ->.
  - subst l. exists true. split; [by destruct (walk_fuel t)|]. split; [|done]. intros _.
    exists [id]. split; [done|]. by intros a ->%list_elem_of_singleton.
Qed.

(** What the loop keeps: the best of the hittable nodes seen so far. *)
Definition is_best (t : UiTree) (x y : f32) (ids : list UiNodeId) (b : option (Z * Z * UiNodeId)) : Prop :=
  match b with
  | None => forall id, id ∈ ids -> ~ hittable t id x y
  | Some (z, i, id) => ids !z i = Some id /\ hittable t id x y /\ z = z_of t id /\
      forall j id', ids !z j = Some id' -> hittable t id' x y ->
        z_of t id' < z \/ z_of t id' = z /\ j <= i
  end.

Lemma is_best_skip t x y ids id b : ~ hittable t id x y -> is_best t x y ids b ->
  is_best t x y (ids ++ [id]) b.
Proof.
  intros Hn Hb. destruct b as [[[z i] w]|]; cbn in *.
  - destruct Hb as (Hi & Hh & Hz & Hmax). pose proof (zget_Some _ _ _ Hi).
    split; [by rewrite zget_app_l by lia|]. split; [done|]. split; [done|].
    intros j id'. rewrite zget_snoc_new. case_decide; [by intros [= <-]|]. apply Hmax.
  - intros id' [Hid| ->%list_elem_of_singleton]%elem_of_app; [by apply Hb|done].
Qed.

Lemma is_best_take t x y ids id b : hittable t id x y -> is_best t x y ids b ->
  is_best t x y (ids ++ [id])
    (match b with
     | Some c => if hit_ge (z_of t id, zlen ids) c.1 then Some (z_of t id, zlen ids, id) else b
     | None => Some (z_of t id, zlen ids, id)
     end).
Proof.
  intros Hh Hb.
  assert (New : (forall j id', ids !z j = Some id' -> hittable t id' x y ->
      z_of t id' < z_of t id \/ z_of t id' = z_of t id /\ j <= zlen ids) ->
    is_best t x y (ids ++ [id]) (Some (z_of t id, zlen ids, id))).
  { intros Hmax. cbn. split; [by rewrite zget_snoc|]. split; [done|]. split; [done|].
    intros j id'. rewrite zget_snoc_new. case_decide; [|apply Hmax]. intros [= <-] _. lia. }
  destruct b as [[[z i] w]|]; cbn [is_best] in Hb.
  - destruct Hb as (Hi & Hhw & Hz & Hmax). pose proof (zget_Some _ _ _ Hi) as Hib.
    unfold hit_ge. cbn [fst snd]. destruct (_ || _) eqn:E.
    + apply New. intros j id' Hj Hh'. pose proof (zget_Some _ _ _ Hj). specialize (Hmax _ _ Hj Hh'). lia.
    + cbn [is_best]. split; [by rewrite zget_app_l by lia|]. split; [done|]. split; [done|].
      intros j id'. rewrite zget_snoc_new. case_decide; [|apply Hmax]. intros [= <-] _. subst z. lia.
  - apply New. intros j id' Hj Hh'. destruct (Hb id'); [|done].
    apply list_elem_of_lookup. pose proof (zget_Some _ _ _ Hj). rewrite zget_lookup in Hj by lia. eauto.
Qed.

Lemma hit_loop_spec t x y : tree_ok t -> forall ids done b,
  (forall id, id ∈ ids -> is_Some (link t id)) -> is_best t x y done b ->
  exists b', hit_loop t x y ids (zlen done) b = Some b' /\ is_best t x y (done ++ ids) b'.
Proof.
  intros HO. induction ids as [|id ids IH]; intros done b Hl Hb; cbn [hit_loop].
  { exists b. by rewrite app_nil_r. }
  assert (Hnext : forall b', is_best t x y (done ++ [id]) b' -> exists b'',
     hit_loop t x y ids (zlen done + 1) b' = Some b'' /\ is_best t x y (done ++ id :: ids) b'').
  { intros b' Hb'. destruct (IH (done ++ [id]) b') as (b'' & E & H); [|done|].
    - intros w Hw. apply Hl. by apply elem_of_cons; right.
    - exists b''. rewrite <- app_assoc in H. rewrite zlen_app in E. done. }
  pose proof (Hl id (list_elem_of_here _ _)) as Hid.
  destruct (hit_self t id x y) eqn:Hs.
  - destruct (allow_hit_spec t id x y HO Hid) as ([] & -> & Hb1).
    + apply Hnext. apply is_best_take; [|done]. split; [done|]. by apply Hb1.
    + apply Hnext. apply is_best_skip; [|done]. intros [_ H]. by apply Hb1 in H.
  - apply Hnext. apply is_best_skip; [|done]. intros [H _]. congruence.
Qed.

Lemma preorder_spec A t : tree_ok t -> A 0%nat = true ->
  preorder A t = Some (subtree t (root t), Ok tt) /\
  forall id, id ∈ subtree t (root t) <-> contains t id = true.
Proof.
  intros Hok HA. pose proof (ok_links _ Hok) as L. pose proof (root_live _ Hok) as HR. split.
  - unfold preorder. rewrite HA. apply (collect_spec t L _ _ [] (walk_enough t L _ HR)).
  - intros id. rewrite (subtree_elem _ _ _ Hok HR), below_root by done. symmetry. by apply valid_live.
Qed.

Lemma hit_test_best A t x y : tree_ok t -> A 0%nat = true -> exists b,
  hit_test A t x y = Some (snd <$> b) /\ is_best t x y (subtree t (root t)) b.
Proof.
  intros Hok HA. destruct (preorder_spec A t Hok HA) as [E HE]. unfold hit_test. rewrite E.
  destruct (hit_loop_spec t x y Hok (subtree t (root t)) [] None) as (b & Eb & Hb).
  - intros id Hid. apply valid_live; [done|]. by apply HE.
  - intros id ?%elem_of_nil. done.
  - change (zlen []) with 0 in Eb. rewrite Eb. by exists b.
Qed.

Lemma hit_test_live A t x y : tree_ok t -> exists h, hit_test A t x y = Some h /\
  forall id, h = Some id -> contains t id = true.
Proof.
  intros Hok. destruct (A 0%nat) eqn:HA.
  - destruct (hit_test_best A t x y Hok HA) as (b & -> & Hb). eexists. split; [done|].
    intros id Hid. destruct b as [[[z i] w]|]; [|done]. injection Hid as <-.
    apply (preorder_spec A t Hok HA). destruct Hb as [Hi _]. pose proof (zget_Some _ _ _ Hi).
    rewrite zget_lookup in Hi by lia. by eapply list_elem_of_lookup_2.
  - unfold hit_test, preorder. rewrite HA. by exists None.
Qed.

Lemma keep_live_spec t o id : keep_live t o = Some id -> contains t id = true.
Proof. destruct o as [w|]; cbn; [|done]. destruct (contains t w) eqn:E; [|done]. by intros [= <-]. Qed.

(** The target of an event. *)
Lemma route_target A f t e : tree_ok t ->
  exists h, match captured (clear_stale f t) with
      | Some id => Some (Some id)
      | None => match pointer e with Some (x, y) => hit_test A t x y | None => Some None end
      end = Some h /\ (forall id, h = Some id -> contains t id = true) /\
      (forall id, captured f = Some id -> contains t id = true -> h = Some id).
Proof.
  intros Hok. destruct (captured (clear_stale f t)) as [w|] eqn:Ec.
  - eexists. split; [done|]. split; [intros id [= <-]; by apply (keep_live_spec t (captured f))|].
    intros id Hf Hid. cbn in Ec. rewrite Hf in Ec. cbn in Ec. by rewrite Hid in Ec.
  - assert (Hno : forall id, captured f = Some id -> contains t id = true -> False).
    { intros id Hf Hid. cbn in Ec. rewrite Hf in Ec. cbn in Ec. by rewrite Hid in Ec. }
    destruct (pointer e) as [[x y]|].
    + destruct (hit_test_live A t x y Hok) as (h & -> & Hh). exists h. split; [done|].
      split; [done|]. intros id H1 H2. by destruct (Hno id).
    + exists None. split; [done|]. split; [done|]. intros id H1 H2. by destruct (Hno id).
Qed.

Lemma route_total A f t e : tree_ok t -> exists f' r, route A f t e = Some (f', r).
Proof.
  intros Hok. unfold route. cbv zeta. destruct (route_target A f t e Hok) as (h & -> & _). eauto.
Qed.

(** ** Properties *)

(** The hit test returns; when its vector could be reserved
    it answers the topmost hittable node at the point: hittable itself
    (visible, enabled, containing the point) and under ancestors that are all
    visible and, where they clip, contain the point, and no hittable node has a
    larger z-index or the same one at a later place of the preorder.  It answers
    nothing only when no node is hittable. *)
Theorem ui_hit_topmost (A : alloc) (t : UiTree) (x y : f32) (Hok : tree_ok t) (HA : A 0%nat = true) :
  exists order, preorder A t = Some (order, Ok tt) /\
  exists h, hit_test A t x y = Some h /\
  match h with
  | None => forall id, contains t id = true -> ~ hittable t id x y
  | Some id => exists i, order !z i = Some id /\ hittable t id x y /\
      forall j id', order !z j = Some id' -> hittable t id' x y ->
        z_of t id' < z_of t id \/ z_of t id' = z_of t id /\ j <= i
  end.
Proof.
  destruct (preorder_spec A t Hok HA) as [E HE].
  destruct (hit_test_best A t x y Hok HA) as (b & Eb & Hb).
  exists (subtree t (root t)). split; [done|]. eexists. split; [done|].
  destruct b as [[[z i] id]|]; cbn.
  - destruct Hb as (Hi & Hh & -> & Hmax). eauto.
  - intros id Hid. by apply Hb, HE.
Qed.

(** Routing an event from any focus state: it returns; the
    new focus and capture are live nodes; a press on a target captures it and
    focuses it exactly when it is focusable; a release drops the capture and
    keeps the focus; other events keep both, cleared of dead nodes; a captured
    live node receives every event. *)
Theorem ui_route_focus (A : alloc) (f : UiFocusCapture) (t : UiTree) (e : UiInputEvent)
    (Hok : tree_ok t) :
  exists f' r, route A f t e = Some (f', r) /\
    (forall id, focused f' = Some id \/ captured f' = Some id \/ target r = Some id ->
       contains t id = true) /\
    (forall id, captured f = Some id -> contains t id = true -> target r = Some id) /\
    match e with
    | UiInputEvent.PointerButton _ true _ _ =>
        match target r with
        | Some id => captured f' = Some id /\
            focused f' = if is_focusable t id then Some id else None
        | None => f' = clear_stale f t
        end
    | UiInputEvent.PointerButton _ false _ _ =>
        captured f' = None /\ focused f' = keep_live t (focused f)
    | _ => f' = clear_stale f t
    end /\
    (consumed r = true <-> is_Some (target r) \/ is_Some (focused f')).
Proof.
  unfold route. cbv zeta.
  assert (K := keep_live_spec t).
  destruct (route_target A f t e Hok) as (h & -> & Hlive & Hcap).
  assert (C : forall (f' : UiFocusCapture) (h : option UiNodeId),
     bool_decide (is_Some h) || bool_decide (is_Some (focused f')) = true <->
     is_Some h \/ is_Some (focused f')).
  { intros f' h'. by rewrite orb_true_iff, !bool_decide_eq_true. }
  eexists _, _. split; [done|]. cbn [target consumed res_focused]. split; [|split; [done|split; [|apply C]]].
  - intros id [Hf|[Hc|Ht]]; [| |by apply Hlive].
    + destruct e as [|? [] ? ?| |]; try (by apply (K (focused f))).
      destruct h as [w|]; [|by apply (K (focused f))]. cbn in Hf.
      destruct (is_focusable t w); [|done]. apply Hlive. congruence.
    + destruct e as [|? [] ? ?| |]; try (by apply (K (captured f))).
      destruct h as [w|]; [|by apply (K (captured f))]. apply Hlive. done.
  - destruct e as [|? [] ? ?| |]; try done. by destruct h.
Qed.

(** ** A press on overlapping nodes *)
Definition demo_hit : UiTree :=
  let c i := {| n_index := i; n_generation := 1 |} in
  let box w := {| r_x := f32_zero; r_y := f32_zero; r_width := f32_of_Z w; r_height := f32_of_Z w |} in
  demo_run [
    (alloc_all, OpCommand (UiCommand.Create demo_r panel));
    (alloc_all, OpCommand (UiCommand.Create demo_r panel));
    (alloc_all, OpCommand (UiCommand.SetZIndex (c 1) 3));
    (alloc_all, OpSetRect demo_r (box 100)); (alloc_all, OpSetRect (c 1) (box 50));
    (alloc_all, OpSetRect (c 2) (box 60))].

Example hit_prefers_z :
  hit_test alloc_all demo_hit (f32_of_Z 10) (f32_of_Z 20) = Some (Some demo_a) /\
  hit_test alloc_all demo_hit (f32_of_Z 55) (f32_of_Z 20) = Some (Some demo_b) /\
  hit_test alloc_all demo_hit (f32_of_Z 100) (f32_of_Z 20) = Some None.
Proof. vm_compute. repeat split. Qed.

Lemma ui_hit_topmost_witness :
  exists order, preorder alloc_all demo_hit = Some (order, Ok tt) /\
  exists h, hit_test alloc_all demo_hit (f32_of_Z 10) (f32_of_Z 20) = Some h /\
  match h with
  | None => forall id, contains demo_hit id = true ->
      ~ hittable demo_hit id (f32_of_Z 10) (f32_of_Z 20)
  | Some id => exists i, order !z i = Some id /\ hittable demo_hit id (f32_of_Z 10) (f32_of_Z 20) /\
      forall j id', order !z j = Some id' -> hittable demo_hit id' (f32_of_Z 10) (f32_of_Z 20) ->
        z_of demo_hit id' < z_of demo_hit id \/ z_of demo_hit id' = z_of demo_hit id /\ j <= i
  end.
Proof.
  apply (ui_hit_topmost alloc_all demo_hit (f32_of_Z 10) (f32_of_Z 20));
    [apply demo_run_ok|reflexivity].
Defined.

Lemma ui_route_focus_witness :
  exists f' r, route alloc_all focus_default demo_hit (UiInputEvent.PointerButton 0 true 10 20) =
    Some (f', r) /\ (consumed r = true <-> is_Some (target r) \/ is_Some (focused f')).
Proof.
  destruct (ui_route_focus alloc_all focus_default demo_hit (UiInputEvent.PointerButton 0 true 10 20))
    as (f' & r & E & _ & _ & _ & H); [apply demo_run_ok|].
  exists f', r. split; [exact E|exact H].
Defined.
