(* ===== verification/UiText.v ===== *)
(** The fallback glyph provider and the glyph atlas ([ui/text.rs]).  Theorems:
    wrapping gives exactly the lines of a reference definition (split at
    newlines, then cut into full rows), within the glyph budget; the atlas hands
    out cells in rotation without overflow, distinct cells for the last
    [capacity] allocations, with a fresh generation each. *)

From S2P Require Import Prelude F32 UiComponents.

Local Open Scope Z_scope.
Local Open Scope kit_scope.

Record Glyph := {
  codepoint : Z;
  g_advance : f32;
  atlas_x : Z;
  atlas_y : Z;
  g_width : Z;
  g_height : Z
}.

Record GlyphRun := { glyphs : list Glyph; run_width : f32; run_height : f32 }.
Definition run_default : GlyphRun := {| glyphs := []; run_width := f32_zero; run_height := f32_zero |}.

Record FallbackGlyphProvider := { advance : f32; line_height : f32 }.
Definition provider_default : FallbackGlyphProvider :=
  {| advance := f32_of_Z 8; line_height := f32_of_Z 16 |}.

Definition f32_u16max : f32 := f32_of_Z 65535.

(** The first guard of both shapers, negated. *)
Definition metrics_ok (p : FallbackGlyphProvider) : bool :=
  is_finite (advance p) && fgt (advance p) f32_zero && fle (advance p) f32_u16max &&
  is_finite (line_height p) && fgt (line_height p) f32_zero && fle (line_height p) f32_u16max.

(** The glyph pushed for the [index]-th character. *)
Definition glyph_at (p : FallbackGlyphProvider) (index ch : Z) : Glyph := {|
  codepoint := ch;
  g_advance := advance p;
  atlas_x := wrap 16 (index mod 256);
  atlas_y := wrap 16 (index / 256);
  g_width := f32_as_int 0 U16_MAX (advance p);
  g_height := f32_as_int 0 U16_MAX (line_height p) |}.

Fixpoint push_glyphs (p : FallbackGlyphProvider) (index : Z) (text : list Z) : list Glyph :=
  match text with
  | [] => []
  | ch :: text => glyph_at p index ch :: push_glyphs p (index + 1) text
  end.

Definition shape (A : alloc) (p : FallbackGlyphProvider) (text : list Z) (max_glyphs : Z)
  : result UiError GlyphRun :=
  if negb (metrics_ok p) then Err UiError.InvalidValue
  else if max_glyphs <? zlen text then Err UiError.CapacityExceeded
  else if negb (A 0%nat) then Err UiError.AllocationFailed
  else Ok {| glyphs := push_glyphs p 0 text;
             run_width := fmul (advance p) (f32_of_Z (zlen text));
             run_height := line_height p |}.

Definition NEWLINE : Z := 10.

Record WrapState := { w_glyphs : list Glyph; w_line : Z; w_column : Z; w_width : f32 }.

Fixpoint wrap_loop (p : FallbackGlyphProvider) (columns index : Z) (text : list Z) (s : WrapState)
  : result UiError WrapState :=
  match text with
  | [] => Ok s
  | ch :: text =>
      let break := (ch =? NEWLINE) || (columns <=? w_column s) in
      let? s :=
        if break then
          let? line := ok_or UiError.IndexOverflow (checked_add 64 (w_line s) 1) in
          Ok {| w_glyphs := w_glyphs s; w_line := line; w_column := 0; w_width := w_width s |}
        else Ok s in
      if ch =? NEWLINE then wrap_loop p columns (index + 1) text s
      else
        let column := saturating_add 64 (w_column s) 1 in
        wrap_loop p columns (index + 1) text
          {| w_glyphs := w_glyphs s ++ [glyph_at p index ch];
             w_line := w_line s;
             w_column := column;
             w_width := fmax (w_width s) (fmul (f32_of_Z column) (advance p)) |}
  end.

Definition wrap_start : WrapState :=
  {| w_glyphs := []; w_line := 0; w_column := 0; w_width := f32_zero |}.

Definition columns_of (p : FallbackGlyphProvider) (max_width : f32) : Z :=
  f32_floor_as_int 0 USIZE_MAX (fdiv max_width (advance p)).

Definition shape_wrapped (A : alloc) (p : FallbackGlyphProvider) (text : list Z)
    (max_glyphs : Z) (max_width : f32) : result UiError GlyphRun :=
  if negb (metrics_ok p) || negb (is_finite max_width) || fle max_width f32_zero
  then Err UiError.InvalidValue
  else if max_glyphs <? zlen text then Err UiError.CapacityExceeded
  else
    let columns := columns_of p max_width in
    if columns =? 0 then Err UiError.InvalidValue
    else if negb (A 0%nat) then Err UiError.AllocationFailed
    else
      let? s := wrap_loop p columns 0 text wrap_start in
      let lines := saturating_add 64 (w_line s) 1 in
      Ok {| glyphs := w_glyphs s;
            run_width := w_width s;
            run_height := fmul (f32_of_Z lines) (line_height p) |}.

(** ** The atlas *)
Record AtlasSlot := { a_generation : Z; a_x : Z; a_y : Z; a_width : Z; a_height : Z }.
Record GlyphAtlas := { at_slots : list (option AtlasSlot); at_capacity : Z; at_next : Z }.

Definition atlas_try_new (A : alloc) (c : UiConfig) : result UiError GlyphAtlas :=
  let capacity := Z.min (max_glyphs c) 65536 in
  if A 0%nat
  then Ok {| at_slots := resize capacity None []; at_capacity := capacity; at_next := 0 |}
  else Err UiError.AllocationFailed.

(** [None]: a panic (the [u16] product overflowing, or the index out of
    range). *)
Definition atlas_allocate (a : GlyphAtlas) (width height : Z)
  : option (GlyphAtlas * result UiError AtlasSlot) :=
  if (width =? 0) || (height =? 0) || (at_capacity a =? 0) then Some (a, Err UiError.InvalidValue)
  else
    let index := at_next a mod at_capacity a in
    match checked_add 64 (at_next a) 1 with
    | None => Some (a, Err UiError.IndexOverflow)
    | Some next =>
        let a := {| at_slots := at_slots a; at_capacity := at_capacity a; at_next := next |} in
        if U32_MAX <? next then Some (a, Err UiError.IndexOverflow)
        else
          match checked_mul 16 (wrap 16 (index mod 256)) 64,
                checked_mul 16 (wrap 16 (index / 256)) 64 with
          | Some x, Some y =>
              let slot := {| a_generation := next; a_x := x; a_y := y;
                             a_width := width; a_height := height |} in
              if index <? zlen (at_slots a)
              then Some ({| at_slots := zset (at_slots a) index (Some slot);
                            at_capacity := at_capacity a; at_next := next |}, Ok slot)
              else None
          | _, _ => None
          end
    end.

Definition slot_has (generation : Z) (s : option AtlasSlot) : bool :=
  match s with Some v => a_generation v =? generation | None => false end.

Definition evict_generation (a : GlyphAtlas) (generation : Z) : GlyphAtlas * Z :=
  ({| at_slots := map (fun s => if slot_has generation s then None else s) (at_slots a);
      at_capacity := at_capacity a; at_next := at_next a |},
   zlen (List.filter (slot_has generation) (at_slots a))).

Definition occupied_slots (a : GlyphAtlas) : Z :=
  zlen (List.filter (fun s => match s with Some _ => true | None => false end) (at_slots a)).

(** ** Wrapping: the reference

    Lines end at newlines; a line is cut into rows of [k] characters, the
    empty line being one empty row.  Characters carry their index in the
    text. *)
Fixpoint number (i : Z) (text : list Z) : list (Z * Z) :=
  match text with [] => [] | c :: text => (i, c) :: number (i + 1) text end.

Fixpoint split_lines (text : list (Z * Z)) : list (list (Z * Z)) :=
  match text with
  | [] => [[]]
  | (i, c) :: text =>
      if c =? NEWLINE then [] :: split_lines text
      else match split_lines text with
           | l :: ls => ((i, c) :: l) :: ls
           | [] => []
           end
  end.

Fixpoint chunk_fuel {X} (n k : nat) (l : list X) : list (list X) :=
  match n with
  | O => [l]
  | S n => if Nat.leb (length l) k then [l] else take k l :: chunk_fuel n k (drop k l)
  end.
Definition chunks {X} (k : nat) (l : list X) : list (list X) := chunk_fuel (length l) k l.

Definition wrapped_rows (k : nat) (text : list Z) : list (list (Z * Z)) :=
  split_lines (number 0 text) ≫= chunks k.

Lemma chunks_short {X} k (l : list X) : (length l <= k)%nat -> chunks k l = [l].
Proof.
  intros H. unfold chunks. destruct (length l) eqn:E; [done|]. cbn.
  rewrite (proj2 (Nat.leb_le _ _)) by lia. done.
Qed.

Lemma chunk_fuel_enough {X} k n : (1 <= k)%nat -> forall m (l : list X),
  (length l <= n)%nat -> (length l <= m)%nat -> chunk_fuel n k l = chunk_fuel m k l.
Proof.
  intros Hk. induction n as [|n IH]; intros m l Hn Hm; cbn.
  - destruct l; [|cbn in Hn; lia]. by destruct m.
  - destruct m as [|m]; cbn.
    + destruct l; [|cbn in Hm; lia]. done.
    + destruct (Nat.leb_spec (length l) k); [done|]. f_equal.
      apply IH; rewrite length_drop; lia.
Qed.

Lemma chunks_long {X} k (r l : list X) : (1 <= k)%nat -> length r = k -> l <> [] ->
  chunks k (r ++ l) = r :: chunks k l.
Proof.
  intros Hk Hr Hl. unfold chunks. rewrite length_app.
  assert (1 <= length l)%nat by (destruct l; cbn; [done|lia]).
  destruct (length r + length l)%nat as [|n] eqn:En; [lia|]. cbn.
  rewrite length_app, (proj2 (Nat.leb_gt _ _)) by lia.
  rewrite <- Hr at 1. rewrite take_app_length. rewrite <- Hr at 2. rewrite drop_app_length. f_equal.
  apply chunk_fuel_enough; lia.
Qed.

Lemma chunks_rows {X} k (l : list X) : (1 <= k)%nat ->
  concat (chunks k l) = l /\ Forall (fun r => length r <= k)%nat (chunks k l) /\
  (1 <= length (chunks k l) <= length l + 1)%nat.
Proof.
  intros Hk. unfold chunks. remember (length l) as n eqn:E. assert (Hn : (length l <= n)%nat) by lia.
  clear E. revert l Hn. induction n as [|n IH]; intros l Hn; cbn.
  - rewrite app_nil_r. split; [done|]. split; [|lia]. constructor; [|done].
    destruct l; cbn in *; lia.
  - destruct (Nat.leb_spec (length l) k); cbn.
    + rewrite app_nil_r. split; [done|]. split; [|lia]. by constructor.
    + destruct (IH (drop k l)) as (H1 & H2 & H3); [rewrite length_drop; lia|].
      rewrite H1, take_drop. split; [done|]. split; [|lia]. constructor; [|done].
      rewrite length_take. lia.
Qed.

(** The rows still to come when [r] is the open row. *)
Definition rows_from (k : nat) (r : list (Z * Z)) (text : list (Z * Z)) : list (list (Z * Z)) :=
  match split_lines text with
  | l :: ls => chunks k (r ++ l) ++ (ls ≫= chunks k)
  | [] => []
  end.

Lemma split_lines_cons text : exists l ls, split_lines text = l :: ls.
Proof.
  induction text as [|[i c] text (l & ls & IH)]; cbn; [eauto|].
  destruct (c =? NEWLINE); [eauto|]. rewrite IH. eauto.
Qed.

Lemma rows_from_nil k text : rows_from k [] text = split_lines text ≫= chunks k.
Proof. unfold rows_from. destruct (split_lines_cons text) as (l & ls & ->). done. Qed.

Lemma rows_from_step k r i c text : (1 <= k)%nat -> (length r <= k)%nat ->
  rows_from k r ((i, c) :: text) =
  if c =? NEWLINE then r :: rows_from k [] text
  else if Nat.leb k (length r) then r :: rows_from k [(i, c)] text
  else rows_from k (r ++ [(i, c)]) text.
Proof.
  intros Hk Hr. destruct (split_lines_cons text) as (l & ls & E).
  unfold rows_from. cbn [split_lines]. destruct (c =? NEWLINE).
  - rewrite app_nil_r, chunks_short by done. rewrite E. done.
  - rewrite E. destruct (Nat.leb_spec k (length r)).
    + rewrite (chunks_long k r) by (done || lia). done.
    + by rewrite <- app_assoc.
Qed.

Lemma rows_from_pos k r text : (1 <= k)%nat -> (1 <= length (rows_from k r text))%nat.
Proof.
  intros Hk. unfold rows_from. destruct (split_lines_cons text) as (l & ls & ->).
  rewrite length_app. pose proof (proj2 (proj2 (chunks_rows k (r ++ l) Hk))). lia.
Qed.

Definition row_glyphs (p : FallbackGlyphProvider) (l : list (Z * Z)) : list Glyph :=
  map (fun q => glyph_at p q.1 q.2) l.

Lemma row_glyphs_app p a b : row_glyphs p (a ++ b) = row_glyphs p a ++ row_glyphs p b.
Proof. apply map_app. Qed.

(** With [r] the open row and [G] the glyphs of the finished ones. *)
Lemma wrap_loop_spec p columns k (Hc : columns = Z.of_nat k) (Hk : (1 <= k)%nat) :
  forall text index r G s, w_column s = zlen r -> (length r <= k)%nat ->
  w_glyphs s = G ++ row_glyphs p r ->
  w_line s + zlen text < U64_MAX -> zlen r + zlen text < U64_MAX ->
  exists s', wrap_loop p columns index text s = Ok s' /\
    w_glyphs s' = G ++ row_glyphs p (concat (rows_from k r (number index text))) /\
    w_line s' + 1 = w_line s + zlen (rows_from k r (number index text)) /\
    w_line s' <= w_line s + zlen text.
Proof.
  induction text as [|c text IH]; intros index r G s Hcol Hr Hg Hl Hru.
  - exists s. split; [done|]. cbn [number]. unfold rows_from. cbn [split_lines mbind list_bind].
    rewrite app_nil_r, app_nil_r, chunks_short by done. cbn [concat]. rewrite app_nil_r.
    split; [done|]. change (zlen [r]) with 1. rewrite zlen_nil. lia.
  - rewrite zlen_cons in *. pose proof (zlen_nonneg text). pose proof (zlen_nonneg r).
    assert (Z1 : forall x : Z * Z, zlen [x] = 1) by done.
    cbn [wrap_loop number]. rewrite (rows_from_step k r) by done.
    assert (Hcl : (columns <=? w_column s) = Nat.leb k (length r)).
    { rewrite Hcol, Hc. unfold zlen. destruct (Nat.leb_spec k (length r)); lia. }
    rewrite Hcl. destruct (Z.eqb_spec c NEWLINE) as [->|Hne]; cbn [orb].
    + rewrite checked_add_ok by (unfold U64_MAX, umax in *; lia). cbn [ok_or result_bind].
      edestruct (IH (index + 1) [] (G ++ row_glyphs p r)) as (s' & -> & H1 & H2 & H3);
        [| | | | |exists s'; split; [done|]]; cbn [w_glyphs w_line w_column] in *;
        rewrite ?zlen_nil; try done; try lia; [cbn; lia|cbn; by rewrite app_nil_r|].
      rewrite H1, H2. cbn [concat]. rewrite row_glyphs_app, app_assoc, zlen_cons. split; [done|lia].
    + destruct (Nat.leb_spec k (length r)) as [Hfull|Hopen].
      * rewrite checked_add_ok by (unfold U64_MAX, umax in *; lia).
        cbn [ok_or result_bind w_line w_column w_glyphs w_width]. change (saturating_add 64 0 1) with 1.
        edestruct (IH (index + 1) [(index, c)] (G ++ row_glyphs p r)) as (s' & -> & H1 & H2 & H3);
          [| | | | |exists s'; split; [done|]]; cbn [w_glyphs w_line w_column] in *;
          rewrite ?Z1; try done; try lia; [by rewrite Hg|].
        rewrite H1, H2. cbn [concat]. rewrite row_glyphs_app, app_assoc, zlen_cons. split; [done|lia].
      * cbn [result_bind]. assert (Hs : saturating_add 64 (w_column s) 1 = zlen r + 1).
        { unfold saturating_add, U64_MAX, umax in *. lia. }
        edestruct (IH (index + 1) (r ++ [(index, c)]) G) as (s' & -> & H1 & H2 & H3);
          [| | | | |exists s'; split; [done|]]; cbn [w_glyphs w_line w_column] in *;
          rewrite ?zlen_app, ?Z1; try done; try lia.
        -- rewrite length_app. cbn. lia.
        -- rewrite Hg, row_glyphs_app, app_assoc. done.
        -- split; [done|]. split; [done|lia].
Qed.

Lemma split_lines_join text : concat (split_lines text) =
  List.filter (fun q => negb (q.2 =? NEWLINE)) text.
Proof.
  induction text as [|[i c] text IH]; cbn; [done|]. destruct (c =? NEWLINE); cbn; [done|].
  destruct (split_lines_cons text) as (l & ls & E). rewrite E in *. cbn in *. congruence.
Qed.

Lemma concat_chunks {X} k (ls : list (list X)) : (1 <= k)%nat ->
  concat (ls ≫= chunks k) = concat ls.
Proof.
  intros Hk. induction ls as [|l ls IH]; cbn; [done|].
  rewrite concat_app, IH. f_equal. by apply chunks_rows.
Qed.

Lemma wrapped_rows_bound {X} k (ls : list (list X)) : (1 <= k)%nat ->
  Forall (fun r => length r <= k)%nat (ls ≫= chunks k).
Proof.
  intros Hk. induction ls as [|l ls IH]; cbn; [constructor|]. apply list.Forall_app.
  split; [by apply chunks_rows|done].
Qed.

(** ** Properties *)

(** Wrapping against the reference: when the metrics and
    the width are accepted, the text is within the budget and the vector is
    reserved, shaping succeeds; the glyphs are those of the reference rows in
    order (the characters but the newlines, each with its index's atlas cell),
    no row is wider than the columns that fit, and the height is the number of
    rows times the line height. *)
Theorem ui_wrapping_correct (A : alloc) (p : FallbackGlyphProvider) (text : list Z)
    (max_glyphs : Z) (max_width : f32)
    (Hm : metrics_ok p = true) (Hw : is_finite max_width && fgt max_width f32_zero = true)
    (Hlen : zlen text <= max_glyphs < U64_MAX) (HA : A 0%nat = true)
    (Hcol : columns_of p max_width <> 0) :
  let k := Z.to_nat (columns_of p max_width) in
  let rs := wrapped_rows k text in
  exists run, shape_wrapped A p text max_glyphs max_width = Ok run /\
    glyphs run = row_glyphs p (concat rs) /\
    concat rs = List.filter (fun q => negb (q.2 =? NEWLINE)) (number 0 text) /\
    Forall (fun r => zlen r <= columns_of p max_width) rs /\
    run_height run = fmul (f32_of_Z (zlen rs)) (line_height p).
Proof.
  intros k rs.
  assert (Hc0 : 0 <= columns_of p max_width <= USIZE_MAX).
  { unfold columns_of, f32_floor_as_int, f32_as_int, USIZE_MAX, U64_MAX.
    destruct (fdiv max_width (advance p)) as [|[]| |]; lia. }
  assert (Hk : columns_of p max_width = Z.of_nat k) by lia.
  apply andb_true_iff in Hw as [Hw1 Hw2].
  unfold shape_wrapped. rewrite Hm, Hw1, HA. cbn [negb orb].
  assert (Hle : fle max_width f32_zero = false).
  { unfold fgt in Hw2. destruct (flt_nan _ _ Hw2). rewrite flt_negb in Hw2 by done.
    by apply negb_true_iff in Hw2. }
  rewrite Hle, (proj2 (Z.ltb_ge _ _)) by lia. rewrite (proj2 (Z.eqb_neq _ _)) by done.
  destruct (wrap_loop_spec p (columns_of p max_width) k Hk ltac:(lia) text 0 [] [] wrap_start)
    as (s & -> & H1 & H2 & H3); try done; try (cbn; lia).
  { rewrite zlen_nil. lia. }
  rewrite rows_from_nil in H1, H2. fold (wrapped_rows k text) in H1, H2. fold rs in H1, H2.
  eexists. split; [done|]. cbn [glyphs run_height]. split; [done|]. split; [|split].
  - unfold rs, wrapped_rows. rewrite concat_chunks by lia. apply split_lines_join.
  - eapply Forall_impl; [|apply (wrapped_rows_bound k (split_lines (number 0 text))); lia].
    intros r Hr. cbn in Hr. unfold zlen. lia.
  - cbn [wrap_start w_line] in *. replace (saturating_add 64 (w_line s) 1) with (zlen rs); [done|].
    unfold saturating_add, umax, U64_MAX in *. lia.
Qed.

Lemma ui_wrapping_correct_witness :
  let text := [97; 98; 99; 10; 10; 100] in
  let k := Z.to_nat (columns_of provider_default (f32_of_Z 23)) in
  let rs := wrapped_rows k text in
  rs = [[(0, 97); (1, 98)]; [(2, 99)]; []; [(5, 100)]] /\
  exists run, shape_wrapped alloc_all provider_default text 16 (f32_of_Z 23) = Ok run /\
    glyphs run = row_glyphs provider_default (concat rs) /\
    concat rs = List.filter (fun q => negb (q.2 =? NEWLINE)) (number 0 text) /\
    Forall (fun r => zlen r <= columns_of provider_default (f32_of_Z 23)) rs /\
    run_height run = fmul (f32_of_Z (zlen rs)) (line_height provider_default).
Proof.
  split; [vm_compute; reflexivity|].
  apply (ui_wrapping_correct alloc_all provider_default [97; 98; 99; 10; 10; 100] 16 (f32_of_Z 23));
    try (vm_compute; reflexivity).
  - split; vm_compute; [discriminate|reflexivity].
  - vm_compute. discriminate.
Defined.

(** ** The atlas over time *)
Inductive atlas_op := AtAllocate (width height : Z) | AtEvict (generation : Z).

Definition atlas_step (a : GlyphAtlas) (o : atlas_op) : option GlyphAtlas :=
  match o with
  | AtAllocate w h => fst <$> atlas_allocate a w h
  | AtEvict g => Some (fst (evict_generation a g))
  end.

Fixpoint atlas_run (a : GlyphAtlas) (ops : list atlas_op) : option GlyphAtlas :=
  match ops with
  | [] => Some a
  | o :: ops => match atlas_step a o with Some a => atlas_run a ops | None => None end
  end.

Record atlas_ok (a : GlyphAtlas) : Prop := {
  at_len : zlen (at_slots a) = at_capacity a;
  at_cap : 0 <= at_capacity a <= 65536;
  at_pos : 0 <= at_next a;
  at_cell : forall i v, at_slots a !z i = Some (Some v) ->
    a_x v = i mod 256 * 64 /\ a_y v = i / 256 * 64 /\
    1 <= a_generation v <= Z.min (at_next a) U32_MAX /\
    (a_generation v - 1) mod at_capacity a = i
}.

Lemma cell_u16 i : 0 <= i < 65536 ->
  checked_mul 16 (wrap 16 (i mod 256)) 64 = Some (i mod 256 * 64) /\
  checked_mul 16 (wrap 16 (i / 256)) 64 = Some (i / 256 * 64).
Proof.
  intros Hi. pose proof (Z.mod_pos_bound i 256 ltac:(lia)).
  assert (0 <= i / 256 < 256) by (split; [apply Z.div_pos; lia|apply Z.div_lt_upper_bound; lia]).
  rewrite !wrap_small by (unfold is_u; lia).
  unfold checked_mul, umax. rewrite !(proj2 (Z.leb_le _ _)) by lia. done.
Qed.

Lemma atlas_allocate_spec a w h : atlas_ok a -> exists a' r,
  atlas_allocate a w h = Some (a', r) /\ atlas_ok a' /\
  match r with
  | Ok v => let i := at_next a mod at_capacity a in
      a_generation v = at_next a + 1 /\ a_x v = i mod 256 * 64 /\ a_y v = i / 256 * 64 /\
      a_width v = w /\ a_height v = h /\ at_slots a' = zset (at_slots a) i (Some v)
  | Err _ => at_slots a' = at_slots a
  end.
Proof.
  intros [Hl Hc Hn Hcell]. unfold atlas_allocate.
  destruct ((w =? 0) || (h =? 0) || (at_capacity a =? 0)) eqn:E; [by eexists _, _|].
  assert (Hcap : at_capacity a <> 0) by lia.
  unfold checked_add. destruct (at_next a + 1 <=? umax 64) eqn:E1; [|by eexists _, _].
  set (i := at_next a mod at_capacity a).
  assert (Hi : 0 <= i < at_capacity a) by (apply Z.mod_pos_bound; lia).
  destruct (Z.ltb_spec U32_MAX (at_next a + 1)).
  - eexists _, _. split; [done|]. split; [|done]. constructor; cbn; try lia.
    intros j v Hj. destruct (Hcell j v Hj) as (H1 & H2 & H3 & H4). repeat split; try done; lia.
  - destruct (cell_u16 i) as [-> ->]; [lia|]. cbn [at_slots].
    rewrite (proj2 (Z.ltb_lt _ _)) by lia. eexists _, _. split; [done|]. split; [|by repeat split].
    constructor; cbn; rewrite ?zlen_zset; try lia. intros j v.
    destruct (decide (j = i)) as [->|Hj].
    + rewrite zget_zset_eq by lia. intros [= <-]. cbn.
      replace (at_next a + 1 - 1) with (at_next a) by lia. repeat split; try done; lia.
    + rewrite zget_zset_ne by done. intros Hv.
      destruct (Hcell j v Hv) as (H1 & H2 & H3 & H4). repeat split; try done; lia.
Qed.

Lemma zget_map {X Y} (f : X -> Y) l i : map f l !z i = f <$> l !z i.
Proof. unfold zget. case_match; [done|]. apply list_lookup_fmap. Qed.

Lemma evict_ok a g : atlas_ok a -> atlas_ok (evict_generation a g).1.
Proof.
  intros [Hl Hc Hn Hcell]. constructor; cbn; try done.
  - unfold zlen. by rewrite length_map.
  - intros i v. rewrite zget_map. destruct (at_slots a !z i) as [o|] eqn:E; [cbn|done].
    destruct (slot_has g o); [done|]. intros [= ->]. by apply Hcell.
Qed.

Lemma atlas_run_ok ops : forall a, atlas_ok a -> exists a', atlas_run a ops = Some a' /\ atlas_ok a'.
Proof.
  induction ops as [|o ops IH]; intros a Ha; cbn [atlas_run]; [eauto|].
  destruct o as [w h|g]; cbn [atlas_step].
  - destruct (atlas_allocate_spec a w h Ha) as (a' & r & -> & Ha' & _). cbn. by apply IH.
  - by apply IH, evict_ok.
Qed.

(** An occupied slot has the size some call asked for. *)
Lemma atlas_run_size ops : forall a a' i v, atlas_ok a -> atlas_run a ops = Some a' ->
  at_slots a' !z i = Some (Some v) ->
  AtAllocate (a_width v) (a_height v) ∈ ops \/ at_slots a !z i = Some (Some v).
Proof.
  induction ops as [|o ops IH]; intros a a' i v Ha; cbn [atlas_run]; [intros [= <-]; by right|].
  destruct o as [w h|g]; cbn [atlas_step].
  - destruct (atlas_allocate_spec a w h Ha) as (a1 & r & -> & Ha1 & Hr). cbn [fmap option_fmap option_map fst].
    intros Hrun Hv. destruct (IH a1 a' i v Ha1 Hrun Hv) as [Hin|Hold]; [left; by apply list_elem_of_further|].
    destruct r as [x|e]; [|rewrite Hr in Hold; by right].
    destruct Hr as (_ & _ & _ & Hw & Hh & Hs). rewrite Hs in Hold.
    destruct (Z.eq_dec (at_next a mod at_capacity a) i) as [<-|Hne].
    + left. pose proof (zget_Some _ _ _ Hold) as Hb. rewrite zlen_zset in Hb. rewrite zget_zset_eq in Hold by done.
      injection Hold as ->. rewrite Hw, Hh. apply list_elem_of_here.
    + rewrite zget_zset_ne in Hold by done. by right.
  - intros Hrun Hv. destruct (IH _ a' i v (evict_ok a g Ha) Hrun Hv) as [Hin|Hold]; [left; by apply list_elem_of_further|].
    cbn in Hold. rewrite zget_map in Hold. destruct (at_slots a !z i) as [x|]; [cbn in Hold|done].
    destruct (slot_has g x); [done|]. by right.
Qed.

(** The size fits a cell. *)
Definition fits_cell (v : AtlasSlot) : Prop := a_width v <= 64 /\ a_height v <= 64.

(** The rectangles of two slots have no pixel in common. *)
Definition apart (v w : AtlasSlot) : Prop :=
  a_x v + a_width v <= a_x w \/ a_x w + a_width w <= a_x v \/
  a_y v + a_height v <= a_y w \/ a_y w + a_height w <= a_y v.

(** C37: The atlas over any sequence of allocations and evictions: no [u16]
    product overflows and no index is out of range; the origin of an occupied
    slot is the origin of its own 64-pixel cell of the 16384-pixel square, two
    occupied slots differ in cell and in generation, and a slot's size is what
    one of the calls asked for.  The code does not bound that size: a slot that
    fits its cell lies inside the square, and two slots that fit share no
    pixel, while a larger one may run over its neighbours ([atlas_overlap]). *)
Theorem ui_atlas_cells (A : alloc) (c : UiConfig) (a : GlyphAtlas) (ops : list atlas_op)
    (Hc : 0 <= max_glyphs c) (Hnew : atlas_try_new A c = Ok a) :
  exists a', atlas_run a ops = Some a' /\
    (forall i v, at_slots a' !z i = Some (Some v) ->
       a_x v = i mod 256 * 64 /\ a_y v = i / 256 * 64 /\
       0 <= a_x v <= 16320 /\ 0 <= a_y v <= 16320 /\ 1 <= a_generation v <= U32_MAX /\
       AtAllocate (a_width v) (a_height v) ∈ ops /\
       (fits_cell v -> a_x v + a_width v <= 16384 /\ a_y v + a_height v <= 16384)) /\
    (forall i j v w, at_slots a' !z i = Some (Some v) -> at_slots a' !z j = Some (Some w) -> i <> j ->
       (a_x v, a_y v) <> (a_x w, a_y w) /\ a_generation v <> a_generation w /\
       (fits_cell v -> fits_cell w -> apart v w)).
Proof.
  unfold atlas_try_new in Hnew. destruct (A 0%nat); [|done]. injection Hnew as <-.
  assert (Hr : forall n, resize n (None : option AtlasSlot) [] = replicate (Z.to_nat n) None).
  { intros n. unfold resize. by rewrite resize_nil. }
  set (a0 := {| at_slots := _; at_capacity := _; at_next := 0 |}).
  assert (Hempty : forall i v, at_slots a0 !z i <> Some (Some v)).
  { intros i v Hi. cbn in Hi. rewrite Hr in Hi. pose proof (zget_Some _ _ _ Hi). rewrite zget_lookup in Hi by lia.
    apply lookup_replicate in Hi as [? _]. done. }
  assert (H0 : atlas_ok a0).
  { constructor; cbn; rewrite ?zlen_resize by lia; try lia. intros i v Hi. by destruct (Hempty i v). }
  destruct (atlas_run_ok ops a0 H0) as (a' & Hrun & [Hl Hcap Hn Hcell]). exists a'. split; [done|].
  split.
  - intros i v Hi. destruct (Hcell i v Hi) as (Hx & Hy & Hg & _). pose proof (zget_Some _ _ _ Hi).
    pose proof (Z.mod_pos_bound i 256 ltac:(lia)).
    assert (0 <= i / 256 < 256) by (split; [apply Z.div_pos; lia|apply Z.div_lt_upper_bound; lia]).
    destruct (atlas_run_size ops a0 a' i v H0 Hrun Hi) as [Hin|Hold]; [|by destruct (Hempty i v)].
    do 2 (split; [done|]). do 3 (split; [lia|]). split; [done|]. intros [? ?]. lia.
  - intros i j v w Hi Hj Hne. destruct (Hcell i v Hi) as (Hx & Hy & _ & Hg).
    destruct (Hcell j w Hj) as (Hx' & Hy' & _ & Hg').
    pose proof (Z.div_mod i 256 ltac:(lia)). pose proof (Z.div_mod j 256 ltac:(lia)).
    split; [intros [= E1 E2]; apply Hne; lia|]. split; [congruence|]. intros [? ?] [? ?]. unfold apart.
    rewrite Hx, Hy, Hx', Hy'. lia.
Qed.

Lemma ui_atlas_cells_witness :
  exists a', atlas_run {| at_slots := [None; None]; at_capacity := 2; at_next := 0 |}
      [AtAllocate 8 8; AtAllocate 8 16; AtAllocate 4 4; AtEvict 2] = Some a' /\
    (forall i v, at_slots a' !z i = Some (Some v) ->
       a_x v = i mod 256 * 64 /\ a_y v = i / 256 * 64 /\
       0 <= a_x v <= 16320 /\ 0 <= a_y v <= 16320 /\ 1 <= a_generation v <= U32_MAX /\
       AtAllocate (a_width v) (a_height v) ∈ [AtAllocate 8 8; AtAllocate 8 16; AtAllocate 4 4; AtEvict 2] /\
       (fits_cell v -> a_x v + a_width v <= 16384 /\ a_y v + a_height v <= 16384)) /\
    (forall i j v w, at_slots a' !z i = Some (Some v) -> at_slots a' !z j = Some (Some w) -> i <> j ->
       (a_x v, a_y v) <> (a_x w, a_y w) /\ a_generation v <> a_generation w /\
       (fits_cell v -> fits_cell w -> apart v w)).
Proof.
  apply (ui_atlas_cells alloc_all
    {| max_nodes := 4; max_depth := 4; max_text_bytes := 4; max_glyphs := 2; max_clips := 4;
       max_paint_items := 4; max_batches := 4; max_commands := 4; max_upload_bytes := 4;
       max_layout_iterations := 4; dpi_scale := f32_one |}); [cbn; lia|reflexivity].
Defined.

(** A glyph may be larger than its cell: [allocate] does not compare its size
    with the 64-pixel pitch, so two live slots can overlap. *)
Example atlas_overlap :
  match atlas_run {| at_slots := [None; None]; at_capacity := 2; at_next := 0 |}
          [AtAllocate 100 8; AtAllocate 8 8] with
  | Some a => match at_slots a with
              | [Some v; Some w] => a_x v + a_width v = 100 /\ a_x w = 64 /\ a_y v = a_y w
              | _ => False
              end
  | None => False
  end.
Proof. vm_compute. repeat split. Qed.
