(* ===== verification/UiPaint.v ===== *)
(** The paint list ([ui/paint.rs]) and the command plan built from its snapshot
    ([UiCommandPlan] of [subsystems/renderer.rs]).  Theorems: a built list's
    batches partition the items into maximal runs of equal keys, every clip is
    the viewport cut by the rectangles on the node's path to the root, the
    plan's counts and bytes are exact, and the snapshot of a built list is
    always accepted by the command plan, with draws that cover the items once
    in order. *)

From S2P Require Import Prelude F32 UiComponents UiTree UiTreeInv UiCommands UiInput UiText.

Local Open Scope Z_scope.
Local Open Scope kit_scope.

Definition UI_ITEM_STRIDE_BYTES : Z := 80.
Definition UI_GLYPH_STRIDE_BYTES : Z := 32.

(** A [ClipId] is its number. *)
Abbreviation ClipId := Z.

Record UiClip := { clip_id : ClipId; clip_rect : UiRect }.

Module PaintKind.
Inductive PaintKind :=
| Rect (color : rgba)
| Gradient (from to : rgba)
| RoundedRect (color : rgba) (radius : f32)
| Border (color : rgba) (width : f32)
| Image (texture : TextureId)
| Glyphs (font : FontId) (run : GlyphRun)
| Custom (token : Z).
End PaintKind.
Abbreviation PaintKind := PaintKind.PaintKind.

Record PaintItem := {
  p_node : UiNodeId;
  p_rect : UiRect;
  p_clip : ClipId;
  p_z : Z;
  p_opacity : f32;
  p_kind : PaintKind
}.

Record UiBatchKey := {
  k_pass : Z;
  k_clip : ClipId;
  k_texture : option TextureId;
  k_font : option FontId;
  k_z : Z;
  k_kind : Z
}.
#[global] Instance UiBatchKey_eq_dec : EqDecision UiBatchKey.
Proof. solve_decision. Defined.

Record UiBatch := { b_key : UiBatchKey; b_first : Z; b_count : Z }.
Record UiUploadPlan := { up_items : Z; up_batches : Z; up_glyphs : Z; up_bytes : Z }.

Record UiPaintList := {
  pl_clips : list UiClip;
  pl_items : list PaintItem;
  pl_batches : list UiBatch;
  node_clips : list (UiNodeId * ClipId);
  pl_order : list UiNodeId;
  pl_config : UiConfig
}.

Definition paint_try_new (A : alloc) (c : UiConfig) : result UiError UiPaintList :=
  if A 0%nat && A 1%nat && A 2%nat && A 3%nat && A 4%nat
  then Ok {| pl_clips := []; pl_items := []; pl_batches := []; node_clips := []; pl_order := [];
             pl_config := c |}
  else Err UiError.AllocationFailed.

Definition with_clips (p : UiPaintList) (c : list UiClip) : UiPaintList :=
  {| pl_clips := c; pl_items := pl_items p; pl_batches := pl_batches p;
     node_clips := node_clips p; pl_order := pl_order p; pl_config := pl_config p |}.
Definition with_items (p : UiPaintList) (i : list PaintItem) : UiPaintList :=
  {| pl_clips := pl_clips p; pl_items := i; pl_batches := pl_batches p;
     node_clips := node_clips p; pl_order := pl_order p; pl_config := pl_config p |}.
Definition with_batches (p : UiPaintList) (b : list UiBatch) : UiPaintList :=
  {| pl_clips := pl_clips p; pl_items := pl_items p; pl_batches := b;
     node_clips := node_clips p; pl_order := pl_order p; pl_config := pl_config p |}.
Definition with_node_clip (p : UiPaintList) (n : UiNodeId) (c : ClipId) : UiPaintList :=
  {| pl_clips := pl_clips p; pl_items := pl_items p; pl_batches := pl_batches p;
     node_clips := node_clips p ++ [(n, c)]; pl_order := pl_order p; pl_config := pl_config p |}.

Definition try_u32 (n : Z) : result UiError Z :=
  if n <=? U32_MAX then Ok n else Err UiError.IndexOverflow.

Definition push_clip (p : UiPaintList) (r : UiRect) : UiPaintList * result UiError ClipId :=
  if max_clips (pl_config p) <=? zlen (pl_clips p) then (p, Err UiError.CapacityExceeded)
  else match try_u32 (zlen (pl_clips p)) with
       | Err e => (p, Err e)
       | Ok id => (with_clips p (pl_clips p ++ [{| clip_id := id; clip_rect := r |}]), Ok id)
       end.

Definition push_item (p : UiPaintList) (i : PaintItem) : UiPaintList * result UiError unit :=
  if max_paint_items (pl_config p) <=? zlen (pl_items p) then (p, Err UiError.CapacityExceeded)
  else (with_items p (pl_items p ++ [i]), Ok tt).

(** ** Batches *)
Definition key (i : PaintItem) : UiBatchKey :=
  let k pass texture font kind := {| k_pass := pass; k_clip := p_clip i; k_texture := texture;
    k_font := font; k_z := p_z i; k_kind := kind |} in
  match p_kind i with
  | PaintKind.Rect _ => k 0 None None 0
  | PaintKind.Gradient _ _ => k 0 None None 5
  | PaintKind.RoundedRect _ _ => k 0 None None 6
  | PaintKind.Border _ _ => k 0 None None 1
  | PaintKind.Image texture => k 0 (Some texture) None 2
  | PaintKind.Glyphs font _ => k 1 None (Some font) 3
  | PaintKind.Custom _ => k 2 None None 4
  end.

(** The extension of the last batch by the item at [index], when it applies. *)
Definition extend_last (batches : list UiBatch) (k : UiBatchKey) (index : Z) : option (list UiBatch) :=
  match vec_pop batches with
  | Some (last, rest) =>
      if bool_decide (b_key last = k) &&
         bool_decide (checked_add 32 (b_first last) (b_count last) = Some index)
      then Some (rest ++ [{| b_key := b_key last; b_first := b_first last;
                             b_count := saturating_add 32 (b_count last) 1 |}])
      else None
  | None => None
  end.

Fixpoint batch_items (max_batches index : Z) (items : list PaintItem) (batches : list UiBatch)
  : list UiBatch * result UiError unit :=
  match items with
  | [] => (batches, Ok tt)
  | i :: items =>
      match try_u32 index with
      | Err e => (batches, Err e)
      | Ok idx =>
          match extend_last batches (key i) idx with
          | Some batches => batch_items max_batches (index + 1) items batches
          | None =>
              if max_batches <=? zlen batches then (batches, Err UiError.CapacityExceeded)
              else batch_items max_batches (index + 1) items
                     (batches ++ [{| b_key := key i; b_first := idx; b_count := 1 |}])
          end
      end
  end.

Definition build_batches (p : UiPaintList) : UiPaintList * result UiError unit :=
  let '(b, r) := batch_items (max_batches (pl_config p)) 0 (pl_items p) (pl_batches p) in
  (with_batches p b, r).

(** ** One node *)
Definition fallback (d : UiDiagnostics) : UiDiagnostics := record_error d.
Definition clipped (d : UiDiagnostics) : UiDiagnostics := {|
  dirty_nodes := dirty_nodes d; layout_passes := layout_passes d;
  d_paint_items := d_paint_items d; d_batches := d_batches d; d_glyphs := d_glyphs d;
  d_uploaded_bytes := d_uploaded_bytes d;
  clipped_items := saturating_add 64 (clipped_items d) 1;
  overflow_fallbacks := overflow_fallbacks d |}.

Definition find_clip (l : list (UiNodeId * ClipId)) (n : UiNodeId) : option ClipId :=
  snd <$> find (fun q => bool_decide (q.1 = n)) l.

Definition parent_clip (p : UiPaintList) (t : UiTree) (n : UiNodeId) : ClipId :=
  match parent t n with
  | Ok (Some q) => match find_clip (node_clips p) q with Some c => c | None => 0 end
  | _ => 0
  end.

Definition clip_rect_at (p : UiPaintList) (c : ClipId) (default : UiRect) : UiRect :=
  match pl_clips p !z c with Some q => clip_rect q | None => default end.

Definition text_kind (A : alloc) (p : UiPaintList) (c : UiNodeContent) (r : UiRect)
    (resources : option UiResourceTable) (d : UiDiagnostics)
  : UiDiagnostics * result UiError PaintKind :=
  let unavailable :=
    match resources, font c with
    | Some table, Some f => negb (font_ready table f)
    | _, _ => false
    end in
  if unavailable then (fallback d, Ok (PaintKind.Rect (background (style c))))
  else
    let f := match font c with Some f => f | None => {| f_index := 0; f_generation := 1 |} end in
    (d,
     let? run := match text c with
                 | Some s => shape_wrapped A provider_default (text_value s)
                               (max_glyphs (pl_config p)) (fmax (r_width r) f32_one)
                 | None => Ok run_default
                 end in
     Ok (PaintKind.Glyphs f run)).

Definition image_kind (c : UiNodeContent) (resources : option UiResourceTable)
    (d : UiDiagnostics) : UiDiagnostics * PaintKind :=
  match image c with
  | Some i =>
      if match resources with Some table => texture_ready table (i_texture i) | None => true end
      then (d, PaintKind.Image (i_texture i))
      else (fallback d, PaintKind.Rect (background (style c)))
  | None => (fallback d, PaintKind.Rect (background (style c)))
  end.

Definition panel_kind (c : UiNodeContent) : PaintKind :=
  match gradient (style c) with
  | Some (from, to) => PaintKind.Gradient from to
  | None =>
      if fgt (corner_radius (style c)) f32_zero
      then PaintKind.RoundedRect (background (style c)) (corner_radius (style c))
      else PaintKind.Rect (background (style c))
  end.

Definition node_kind (A : alloc) (p : UiPaintList) (n : UiNodeId) (c : UiNodeContent) (r : UiRect)
    (resources : option UiResourceTable) (d : UiDiagnostics)
  : UiDiagnostics * result UiError PaintKind :=
  match kind c with
  | UiNodeKind.Root | UiNodeKind.Panel => (d, Ok (panel_kind c))
  | UiNodeKind.Text => text_kind A p c r resources d
  | UiNodeKind.Image => let '(d, k) := image_kind c resources d in (d, Ok k)
  | UiNodeKind.Custom => (d, Ok (PaintKind.Custom (n_index n)))
  end.

Definition has_border (c : UiNodeContent) : bool :=
  fgt (border_width (style c)) f32_zero &&
  existsb (fun v => fgt v f32_zero) (rgba_list (border (style c))).

(** The items of a visible node with a non-empty clip. *)
Definition paint_visible (p : UiPaintList) (n : UiNodeId) (c : UiNodeContent) (r : UiRect)
    (clip : ClipId) (k : PaintKind) : UiPaintList * result UiError unit :=
  let item k := {| p_node := n; p_rect := r; p_clip := clip; p_z := z_index c;
                   p_opacity := opacity c; p_kind := k |} in
  match push_item p (item k) with
  | (p, Err e) => (p, Err e)
  | (p, Ok _) =>
      if has_border c
      then push_item p (item (PaintKind.Border (border (style c)) (border_width (style c))))
      else (p, Ok tt)
  end.

Definition paint_node (A : alloc) (p : UiPaintList) (t : UiTree) (viewport : UiRect)
    (resources : option UiResourceTable) (d : UiDiagnostics) (n : UiNodeId)
  : UiPaintList * UiDiagnostics * result UiError unit :=
  match content t n, rect t n with
  | Ok c, Ok r =>
      let parent_rect := clip_rect_at p (parent_clip p t n) viewport in
      let cr := rect_intersect parent_rect r in
      match push_clip p cr with
      | (p, Err e) => (p, d, Err e)
      | (p, Ok id) =>
          let p := with_node_clip p n id in
          if negb (visible c) || fle (rect_area cr) f32_zero then (p, clipped d, Ok tt)
          else
            match node_kind A p n c r resources d with
            | (d, Err e) => (p, d, Err e)
            | (d, Ok k) => let '(p, res) := paint_visible p n c r id k in (p, d, res)
            end
      end
  | Err e, _ => (p, d, Err e)
  | _, Err e => (p, d, Err e)
  end.

Fixpoint paint_nodes (A : alloc) (k : nat) (p : UiPaintList) (t : UiTree) (viewport : UiRect)
    (resources : option UiResourceTable) (d : UiDiagnostics) (ns : list UiNodeId)
  : UiPaintList * UiDiagnostics * result UiError unit :=
  match ns with
  | [] => (p, d, Ok tt)
  | n :: ns =>
      match paint_node (shift k A) p t viewport resources d n with
      | (p, d, Ok _) => paint_nodes A (S k) p t viewport resources d ns
      | (p, d, Err e) => (p, d, Err e)
      end
  end.

(** ** The frame *)
Definition item_glyphs (i : PaintItem) : list Glyph :=
  match p_kind i with PaintKind.Glyphs _ run => glyphs run | _ => [] end.

Fixpoint sum_glyphs (items : list PaintItem) (acc : Z) : result UiError Z :=
  match items with
  | [] => Ok acc
  | i :: items =>
      match p_kind i with
      | PaintKind.Glyphs _ run =>
          let? acc := ok_or UiError.IndexOverflow (checked_add 64 acc (zlen (glyphs run))) in
          sum_glyphs items acc
      | _ => sum_glyphs items acc
      end
  end.

Definition bytes_for (items n_glyphs : Z) : result UiError Z :=
  ok_or UiError.IndexOverflow
    (b ← checked_mul 64 items UI_ITEM_STRIDE_BYTES;
     g ← checked_mul 64 n_glyphs UI_GLYPH_STRIDE_BYTES;
     checked_add 64 b g).

Definition paint_plan (p : UiPaintList) : result UiError UiUploadPlan :=
  let? n := sum_glyphs (pl_items p) 0 in
  let? items := try_u32 (zlen (pl_items p)) in
  let? batches := try_u32 (zlen (pl_batches p)) in
  let? g := try_u32 n in
  let? bytes := bytes_for (zlen (pl_items p)) n in
  if max_upload_bytes (pl_config p) <? bytes then Err UiError.CapacityExceeded
  else Ok {| up_items := items; up_batches := batches; up_glyphs := g; up_bytes := bytes |}.

Definition painted (d : UiDiagnostics) (u : UiUploadPlan) : UiDiagnostics := {|
  dirty_nodes := dirty_nodes d; layout_passes := layout_passes d;
  d_paint_items := up_items u; d_batches := up_batches u; d_glyphs := up_glyphs u;
  d_uploaded_bytes := up_bytes u;
  clipped_items := clipped_items d; overflow_fallbacks := overflow_fallbacks d |}.

Definition paint_clear (p : UiPaintList) (order : list UiNodeId) : UiPaintList := {|
  pl_clips := []; pl_items := []; pl_batches := []; node_clips := []; pl_order := order;
  pl_config := pl_config p |}.

(** After the preorder: clips, items, batches, counts.  Reservation site 0 is
    the preorder's, the ones from 1 are those of the nodes' glyph vectors. *)
Definition paint_order (A : alloc) (p : UiPaintList) (t : UiTree) (viewport : UiRect)
    (resources : option UiResourceTable) (d : UiDiagnostics) (order : list UiNodeId)
  : UiPaintList * UiDiagnostics * result UiError UiUploadPlan :=
  match push_clip (paint_clear p order) viewport with
  | (p, Err e) => (p, d, Err e)
  | (p, Ok _) =>
      match paint_nodes A 1 p t viewport resources d order with
      | (p, d, Err e) => (p, d, Err e)
      | (p, d, Ok _) =>
          match build_batches p with
          | (p, Err e) => (p, d, Err e)
          | (p, Ok _) =>
              match paint_plan p with
              | Err e => (p, d, Err e)
              | Ok u => (p, painted d u, Ok u)
              end
          end
      end
  end.

Definition build_with_resources (A : alloc) (p : UiPaintList) (t : UiTree) (viewport : UiRect)
    (resources : option UiResourceTable) (d : UiDiagnostics)
  : option (UiPaintList * UiDiagnostics * result UiError UiUploadPlan) :=
  if negb (rect_sane viewport) then Some (p, d, Err UiError.InvalidValue)
  else
    match preorder A t with
    | None => None
    | Some (order, Err e) => Some (paint_clear p order, d, Err e)
    | Some (order, Ok _) => Some (paint_order A p t viewport resources d order)
    end.

Definition build (A : alloc) (p : UiPaintList) (t : UiTree) (viewport : UiRect)
    (d : UiDiagnostics) := build_with_resources A p t viewport None d.

(** ** The snapshot *)
Record UiRenderItem := {
  i_node : UiNodeId;
  i_rect : UiRect;
  i_clip_rect : UiRect;
  i_color : rgba;
  i_clip : ClipId;
  i_z : Z;
  i_opacity : f32;
  i_kind : Z;
  i_tex : option TextureId;
  i_font : option FontId;
  i_glyph_count : Z;
  i_glyph_offset : Z
}.

Record UiRenderSnapshot := {
  sn_items : list UiRenderItem;
  sn_batches : list UiBatch;
  sn_glyphs : list Glyph;
  sn_upload : UiUploadPlan
}.

Definition white : rgba := rgba_splat f32_one.

(** The tuple of the [match] on the item's kind. *)
Definition render_kind (k : PaintKind)
  : result UiError (Z * option TextureId * option FontId * Z * rgba) :=
  match k with
  | PaintKind.Rect color => Ok (0, None, None, 0, color)
  | PaintKind.Gradient from _ => Ok (5, None, None, 0, from)
  | PaintKind.RoundedRect color _ => Ok (6, None, None, 0, color)
  | PaintKind.Border color _ => Ok (1, None, None, 0, color)
  | PaintKind.Image texture => Ok (2, Some texture, None, 0, white)
  | PaintKind.Glyphs font run =>
      let? n := try_u32 (zlen (glyphs run)) in Ok (3, None, Some font, n, white)
  | PaintKind.Custom _ => Ok (4, None, None, 0, white)
  end.

Definition render_item (clips : list UiClip) (i : PaintItem) (offset : Z)
    (q : Z * option TextureId * option FontId * Z * rgba) : UiRenderItem :=
  let '(kind, texture, font, glyph_count, color) := q in
  {| i_node := p_node i; i_rect := p_rect i;
     i_clip_rect := match clips !z (p_clip i) with Some c => clip_rect c | None => rect_zero end;
     i_color := color; i_clip := p_clip i; i_z := p_z i; i_opacity := p_opacity i;
     i_kind := kind; i_tex := texture; i_font := font;
     i_glyph_count := glyph_count; i_glyph_offset := offset |}.

(** [A k]: the reservation of the [k]-th item's glyphs. *)
Fixpoint snapshot_items (A : alloc) (k : nat) (clips : list UiClip) (items : list PaintItem)
    (out : list UiRenderItem) (gs : list Glyph) : result UiError (list UiRenderItem * list Glyph) :=
  match items with
  | [] => Ok (out, gs)
  | i :: items =>
      let? offset := try_u32 (zlen gs) in
      let? gs' := match p_kind i with
                  | PaintKind.Glyphs _ run =>
                      if A k then Ok (gs ++ glyphs run) else Err UiError.AllocationFailed
                  | _ => Ok gs
                  end in
      let? q := render_kind (p_kind i) in
      snapshot_items A (S k) clips items (out ++ [render_item clips i offset q]) gs'
  end.

Fixpoint sum_counts (items : list UiRenderItem) (acc : Z) : result UiError Z :=
  match items with
  | [] => Ok acc
  | i :: items =>
      let? acc := ok_or UiError.IndexOverflow (checked_add 64 acc (i_glyph_count i)) in
      sum_counts items acc
  end.

Definition snapshot (A : alloc) (p : UiPaintList) : result UiError UiRenderSnapshot :=
  if negb (A 0%nat) then Err UiError.AllocationFailed
  else
    let? (items, gs) := snapshot_items A 2 (pl_clips p) (pl_items p) [] [] in
    if negb (A 1%nat) then Err UiError.AllocationFailed
    else
      let? n := sum_counts items 0 in
      let? bytes := bytes_for (zlen items) n in
      let? item_count := try_u32 (zlen (pl_items p)) in
      let? batch_count := try_u32 (zlen (pl_batches p)) in
      let? glyph_count := try_u32 n in
      Ok {| sn_items := items; sn_batches := pl_batches p; sn_glyphs := gs;
            sn_upload := {| up_items := item_count; up_batches := batch_count;
                            up_glyphs := glyph_count; up_bytes := bytes |} |}.

(** ** The command plan *)
Record UiCommandPlan := { cp_items : Z; cp_draws : Z; cp_bytes : Z }.

Module UiCommandPlanError.
Inductive UiCommandPlanError := InvalidBatch | IndexOverflow.
End UiCommandPlanError.
Abbreviation UiCommandPlanError := UiCommandPlanError.UiCommandPlanError.

Record UiDrawCommand := {
  ud_vertex_count : Z;
  ud_instance_count : Z;
  ud_first_vertex : Z;
  ud_first_instance : Z
}.

Definition try_u32_plan (n : Z) : result UiCommandPlanError Z :=
  if n <=? U32_MAX then Ok n else Err UiCommandPlanError.IndexOverflow.

Fixpoint check_batches (item_count expected : Z) (bs : list UiBatch) : result UiCommandPlanError Z :=
  match bs with
  | [] => Ok expected
  | b :: bs =>
      if (b_count b =? 0) || negb (b_first b =? expected) then Err UiCommandPlanError.InvalidBatch
      else
        let? e := ok_or UiCommandPlanError.IndexOverflow (checked_add 32 (b_first b) (b_count b)) in
        if item_count <? e then Err UiCommandPlanError.InvalidBatch
        else check_batches item_count e bs
  end.

Definition plan_try_build (s : UiRenderSnapshot) : result UiCommandPlanError UiCommandPlan :=
  let? item_count := try_u32_plan (zlen (sn_items s)) in
  let? draw_count := try_u32_plan (zlen (sn_batches s)) in
  let? e := check_batches item_count 0 (sn_batches s) in
  if negb (e =? item_count) then Err UiCommandPlanError.InvalidBatch
  else Ok {| cp_items := item_count; cp_draws := draw_count; cp_bytes := up_bytes (sn_upload s) |}.

Definition draw_of (b : UiBatch) : UiDrawCommand :=
  {| ud_vertex_count := 6; ud_instance_count := b_count b; ud_first_vertex := 0;
     ud_first_instance := b_first b |}.

Definition build_draw_commands (A : alloc) (s : UiRenderSnapshot)
  : result UiCommandPlanError (list UiDrawCommand) :=
  let? _ := plan_try_build s in
  if A 0%nat then Ok (map draw_of (sn_batches s)) else Err UiCommandPlanError.IndexOverflow.

(** ** Batches: the contract *)

(** [bs] are consecutive runs from [from] that cover [items] exactly, each
    non-empty and of one key, neighbours of different keys. *)
Fixpoint runs (from : Z) (items : list PaintItem) (bs : list UiBatch) : Prop :=
  match bs with
  | [] => items = []
  | b :: bs => exists xs rest, items = xs ++ rest /\ xs <> [] /\
      b_first b = from /\ b_count b = zlen xs /\
      Forall (fun i => key i = b_key b) xs /\
      match bs with b' :: _ => b_key b' <> b_key b | [] => True end /\
      runs (from + zlen xs) rest bs
  end.

Lemma runs_nil bs from : runs from [] bs -> bs = [].
Proof. destruct bs as [|b bs]; [done|]. intros ([|x xs] & rest & E & Hne & _); done. Qed.

(** Adding an item to the last run, or opening a run. *)
Lemma runs_extend bs : forall from items b i, runs from items (bs ++ [b]) -> key i = b_key b ->
  runs from (items ++ [i])
    (bs ++ [{| b_key := b_key b; b_first := b_first b; b_count := b_count b + 1 |}]).
Proof.
  induction bs as [|c bs IH]; intros from items b i Hr Hk.
  - destruct Hr as (xs & rest & -> & Hne & Hf & Hc & Ha & _ & ->). rewrite app_nil_r.
    exists (xs ++ [i]), []. rewrite app_nil_r. split; [done|]. split; [by destruct xs|].
    cbn. split; [done|]. split; [rewrite Hc, zlen_app; done|]. split; [|done].
    apply list.Forall_app. split; [done|]. by repeat constructor.
  - destruct Hr as (xs & rest & -> & Hne & Hf & Hc & Ha & Hn & Hr). cbn [app].
    exists xs, (rest ++ [i]). rewrite app_assoc. do 5 (split; [done|]). split; [|by apply IH].
    destruct bs; done.
Qed.

Lemma runs_open bs : forall from items i,
  runs from items bs -> (forall b rest, bs = rest ++ [b] -> b_key b <> key i) ->
  runs from (items ++ [i])
    (bs ++ [{| b_key := key i; b_first := from + zlen items; b_count := 1 |}]).
Proof.
  induction bs as [|c bs IH]; intros from items i Hr Hlast.
  - cbn in Hr. subst items. exists [i], []. cbn. rewrite zlen_nil. repeat split; try done; [lia|].
    by repeat constructor.
  - destruct Hr as (xs & rest & -> & Hne & Hf & Hc & Ha & Hn & Hr). cbn [app].
    exists xs, (rest ++ [i]). rewrite app_assoc. do 5 (split; [done|]). split.
    + destruct bs as [|b' bs]; [|done]. cbn. by apply not_eq_sym, (Hlast c []).
    + rewrite zlen_app. replace (from + (zlen xs + zlen rest)) with (from + zlen xs + zlen rest) by lia.
      apply IH; [done|]. intros b rest' E. apply (Hlast b (c :: rest')). by rewrite E.
Qed.

(** The end of the last run. *)
Lemma runs_last bs : forall from items b rest, runs from items bs -> bs = rest ++ [b] ->
  b_first b + b_count b = from + zlen items /\ from <= b_first b /\ 0 < b_count b.
Proof.
  induction bs as [|c bs IH]; intros from items b rest Hr E; [by destruct rest|].
  destruct Hr as (xs & r & -> & Hne & Hf & Hc & Ha & _ & Hr).
  assert (0 < zlen xs) by (destruct xs; [done|]; rewrite zlen_cons; pose proof (zlen_nonneg xs); lia).
  destruct rest as [|d rest]; simplify_eq/=.
  - rewrite app_nil_r. lia.
  - rewrite zlen_app. destruct (IH _ _ b rest Hr eq_refl). lia.
Qed.

Lemma extend_last_spec bs k index from items : runs from items bs -> from + zlen items = index ->
  0 <= from -> index < U32_MAX ->
  match extend_last bs k index with
  | Some bs' => exists b rest, bs = rest ++ [b] /\ b_key b = k /\
      bs' = rest ++ [{| b_key := b_key b; b_first := b_first b; b_count := b_count b + 1 |}]
  | None => forall b rest, bs = rest ++ [b] -> b_key b <> k
  end.
Proof.
  intros Hr Hi H0 Hu. unfold extend_last. destruct (vec_pop bs) as [[last rest]|] eqn:E.
  - apply vec_pop_Some in E as ->. destruct (runs_last _ _ _ _ _ Hr eq_refl) as (Hs & Hf & Hc).
    rewrite checked_add_ok by (unfold umax, U32_MAX in *; lia).
    rewrite (bool_decide_true (Some _ = Some _)) by (f_equal; lia). rewrite andb_true_r.
    destruct (bool_decide_reflect (b_key last = k)).
    + exists last, rest. split; [done|]. split; [done|]. do 4 f_equal.
      unfold saturating_add, umax, U32_MAX in *. lia.
    + intros b rest' E. apply app_inj_tail in E as [_ <-]. done.
  - apply vec_pop_None in E as ->. intros b rest E. by destruct rest.
Qed.

Lemma batch_items_spec m : forall items index bs seen, runs 0 seen bs -> index = zlen seen ->
  zlen (seen ++ items) <= U32_MAX ->
  match batch_items m index items bs with
  | (bs', Ok _) => runs 0 (seen ++ items) bs'
  | (_, Err e) => e = UiError.IndexOverflow \/ e = UiError.CapacityExceeded
  end.
Proof.
  induction items as [|i items IH]; intros index bs seen Hr Hi Hmax; cbn [batch_items].
  - by rewrite app_nil_r.
  - rewrite zlen_app, zlen_cons in Hmax. pose proof (zlen_nonneg items).
    unfold try_u32. destruct (Z.leb_spec index U32_MAX) as [_|Hu]; [|by left].
    assert (Hu : index < U32_MAX) by lia.
    pose proof (extend_last_spec bs (key i) index 0 seen Hr ltac:(lia) ltac:(lia) Hu) as He.
    assert (Hn : index + 1 = zlen (seen ++ [i])) by (rewrite zlen_app; change (zlen [i]) with 1; lia).
    destruct (extend_last bs (key i) index) as [bs'|].
    + destruct He as (b & rest & -> & Hk & ->).
      change (seen ++ i :: items) with (seen ++ [i] ++ items). rewrite app_assoc. apply IH; [by apply runs_extend|done|].
      rewrite <- app_assoc. cbn [app]. rewrite zlen_app, zlen_cons. lia.
    + destruct (m <=? zlen bs); [by right|].
      change (seen ++ i :: items) with (seen ++ [i] ++ items). rewrite app_assoc. apply IH; [|done|].
      { rewrite Hi. by apply (runs_open bs 0 seen i). }
      rewrite <- app_assoc. cbn [app]. rewrite zlen_app, zlen_cons. lia.
Qed.

(** ** Parents come first *)
Lemma bind_split {X Y} (f : X -> list Y) (cs : list X) : forall pre y post,
  cs ≫= f = pre ++ y :: post ->
  exists c a b pre0, c ∈ cs /\ f c = a ++ y :: b /\ pre = pre0 ++ a.
Proof.
  induction cs as [|c cs IH]; intros pre y post E; [by destruct pre|].
  change (f c ++ (cs ≫= f) = pre ++ y :: post) in E.
  apply app_eq_inv in E as [(k & E1 & E2)|(k & E1 & E2)].
  - destruct k as [|z k]; simplify_eq/=.
    + destruct (IH [] y post) as (c' & a & b & pre0 & Hc & Hf & Hp); [done|].
      symmetry in Hp. apply app_nil in Hp as [-> ->].
      exists c', [], b, (pre ++ []). rewrite !app_nil_r. split; [by apply elem_of_cons; right|]. done.
    + exists c, pre, k, []. split; [apply list_elem_of_here|]. done.
  - destruct (IH k y post E2) as (c' & a & b & pre0 & Hc & Hf & ->).
    exists c', a, b, (f c ++ pre0). split; [by apply elem_of_cons; right|].
    split; [done|]. by rewrite <- app_assoc.
Qed.

Lemma order_parent_first t (HL : links_ok (link t) (root t)) fuel : forall x, enough t fuel x ->
  forall pre y post, order fuel t x = pre ++ y :: post ->
  pre = [] /\ y = x \/ exists p cs, link t y = Some (Some p, cs) /\ p ∈ pre.
Proof.
  induction fuel as [|fuel IH]; intros x Hx pre y post E; [by destruct pre|].
  cbn [order] in E. destruct pre as [|z pre]; [left; by injection E|].
  injection E as <- E. right. destruct (bind_split _ _ _ _ _ E) as (c & a & b & pre0 & Hc & Hf & ->).
  destruct (IH c (kid_enough t HL _ _ _ Hx Hc) a y b Hf) as [[-> ->]|(p & cs & Hp & Hin)].
  - assert (Hl : is_Some (link t x)) by (destruct Hx as (l & Hl & _); by eapply lpath_live).
    apply (kid_parent t HL) in Hc as [ds Hd]; [|done]. exists x, ds. split; [done|].
    apply list_elem_of_here.
  - exists p, cs. split; [done|]. apply elem_of_cons. right. apply elem_of_app. by right.
Qed.

(** ** Clips *)

(** The viewport cut by the rectangles of the nodes of [l]. *)
Definition rect_of (t : UiTree) (x : UiNodeId) : UiRect :=
  match rect t x with Ok r => r | Err _ => rect_zero end.
Definition path_clip (t : UiTree) (viewport : UiRect) (l : list UiNodeId) : UiRect :=
  foldr (fun x r => rect_intersect r (rect_of t x)) viewport l.

(** An item of a painted list: its node, shown, under the node's own clip. *)
Definition item_ok (t : UiTree) (viewport : UiRect) (seen : list UiNodeId) (i : PaintItem) : Prop :=
  exists k c l, seen !z k = Some (p_node i) /\ p_clip i = k + 1 /\
    content t (p_node i) = Ok c /\ visible c = true /\ p_z i = z_index c /\ p_opacity i = opacity c /\
    rect t (p_node i) = Ok (p_rect i) /\
    lpath (link t) (p_node i) l /\ fle (rect_area (path_clip t viewport l)) f32_zero = false.

Record paint_inv (t : UiTree) (viewport : UiRect) (seen : list UiNodeId) (p : UiPaintList) : Prop := {
  pi_len : zlen (pl_clips p) = zlen seen + 1;
  pi_root : pl_clips p !z 0 = Some {| clip_id := 0; clip_rect := viewport |};
  pi_clip : forall k x l, seen !z k = Some x -> lpath (link t) x l ->
    pl_clips p !z (k + 1) = Some {| clip_id := k + 1; clip_rect := path_clip t viewport l |};
  pi_seen : forall k x, seen !z k = Some x -> find_clip (node_clips p) x = Some (k + 1);
  pi_unseen : forall x, x ∉ seen -> find_clip (node_clips p) x = None;
  pi_items : Forall (item_ok t viewport seen) (pl_items p);
  pi_batches : pl_batches p = []
}.

Lemma find_clip_snoc l n id x : find_clip (l ++ [(n, id)]) x =
  match find_clip l x with Some c => Some c | None => if decide (n = x) then Some id else None end.
Proof.
  unfold find_clip. induction l as [|[m c] l IH]; cbn.
  - case_bool_decide; by case_decide.
  - case_bool_decide; done.
Qed.

Lemma push_clip_spec p r : match push_clip p r with
  | (p', Ok id) => id = zlen (pl_clips p) /\
      p' = with_clips p (pl_clips p ++ [{| clip_id := id; clip_rect := r |}])
  | (p', Err _) => p' = p
  end.
Proof.
  unfold push_clip, try_u32. destruct (_ <=? _); [done|]. by destruct (_ <=? U32_MAX).
Qed.

Lemma paint_visible_spec p n c r clip k : match paint_visible p n c r clip k with
  | (p', _) => pl_clips p' = pl_clips p /\ node_clips p' = node_clips p /\
      pl_batches p' = pl_batches p /\ exists more, pl_items p' = pl_items p ++ more /\
      Forall (fun i => p_node i = n /\ p_rect i = r /\ p_clip i = clip /\ p_z i = z_index c /\
                       p_opacity i = opacity c) more
  end.
Proof.
  unfold paint_visible, push_item.
  destruct (max_paint_items (pl_config p) <=? zlen (pl_items p)).
  { do 3 (split; [done|]). exists []. rewrite app_nil_r. by split. }
  destruct (has_border c).
  2: { do 3 (split; [done|]). eexists [_]. split; [done|]. by repeat constructor. }
  match goal with |- context [if ?b then _ else _] => destruct b end.
  - do 3 (split; [done|]). eexists [_]. split; [done|]. by repeat constructor.
  - do 3 (split; [done|]). eexists [_; _]. split; [cbn; by rewrite <- app_assoc|]. by repeat constructor.
Qed.

Lemma item_ok_weaken t v seen n i : item_ok t v seen i -> item_ok t v (seen ++ [n]) i.
Proof.
  intros (k & c & l & Hk & H). exists k, c, l. split; [|done]. pose proof (zget_Some _ _ _ Hk).
  by rewrite zget_app_l by lia.
Qed.

(** The clip a node is painted with: its parent's, cut by its own rectangle. *)
Lemma node_clip_path p t v n nd seen l :
  paint_inv t v seen p -> lpath (link t) n l -> find_node t n = Some nd ->
  (nd_parent <$> find_node t n = Some None \/
   exists q cs, link t n = Some (Some q, cs) /\ q ∈ seen) ->
  rect_intersect (clip_rect_at p (parent_clip p t n) v) (nd_rect nd) = path_clip t v l.
Proof.
  intros [I1 I2 I3 I4 I5 I6 I7] Hl Hnd Hpar.
  assert (Hr : rect t n = Ok (nd_rect nd)) by (unfold rect, node; by rewrite Hnd).
  pose proof (lpath_step _ _ _ _ Hl Hnd) as Hst. unfold parent_clip, parent, node. rewrite Hnd.
  cbn [ok_or result_bind]. destruct Hpar as [Hroot|(q & cs & Hq & Hin)].
  - rewrite Hnd in Hroot. cbn in Hroot. injection Hroot as Hroot. rewrite Hroot in *. subst l.
    unfold clip_rect_at. rewrite I2. cbn. unfold rect_of. by rewrite Hr.
  - rewrite (link_find _ _ _ Hnd) in Hq. injection Hq as Hq _. rewrite Hq in *.
    destruct Hst as (l' & -> & Hl'). apply list_elem_of_lookup in Hin as [j Hj].
    rewrite <- zget_nat in Hj. rewrite (I4 _ _ Hj). unfold clip_rect_at.
    rewrite (I3 _ _ _ Hj Hl'). cbn. unfold rect_of. by rewrite Hr.
Qed.

(** The invariant when a node's clip and its items have been added. *)
Lemma paint_inv_snoc p p2 t v n seen l more : paint_inv t v seen p -> n ∉ seen -> lpath (link t) n l ->
  pl_clips p2 = pl_clips p ++ [{| clip_id := zlen (pl_clips p); clip_rect := path_clip t v l |}] ->
  node_clips p2 = node_clips p ++ [(n, zlen (pl_clips p))] ->
  pl_batches p2 = [] -> pl_items p2 = pl_items p ++ more ->
  Forall (item_ok t v (seen ++ [n])) more -> paint_inv t v (seen ++ [n]) p2.
Proof.
  intros [I1 I2 I3 I4 I5 I6 I7] Hn Hl E1 E2 E3 E4 Hm.
  assert (Hid : zlen (pl_clips p) = zlen seen + 1) by done.
  constructor; rewrite ?E1, ?E2, ?E4.
  - rewrite !zlen_app, I1. done.
  - rewrite zget_app_l; [done|]. pose proof (zlen_nonneg seen). lia.
  - intros k x lx. rewrite !zget_snoc_new. destruct (decide (k = zlen seen)) as [->|Hk].
    + intros [= <-] Hlx. rewrite decide_True by lia. rewrite (lpath_fun _ _ _ _ Hlx Hl).
      by rewrite <- Hid.
    + intros Hx Hlx. rewrite decide_False by lia. by apply I3 with x.
  - intros k x. rewrite zget_snoc_new, find_clip_snoc. destruct (decide (k = zlen seen)) as [->|Hk].
    + intros [= <-]. rewrite I5 by done. rewrite decide_True by done. by rewrite <- Hid.
    + intros Hx. by rewrite (I4 _ _ Hx).
  - intros x Hx. rewrite elem_of_app, list_elem_of_singleton in Hx. rewrite find_clip_snoc, I5 by tauto.
    rewrite decide_False; [done|]. intros ->. tauto.
  - apply list.Forall_app. split; [|done]. eapply Forall_impl; [|exact I6].
    intros i. apply item_ok_weaken.
  - done.
Qed.

Lemma paint_node_inv A p t v resources d n seen l :
  paint_inv t v seen p -> n ∉ seen -> lpath (link t) n l ->
  (nd_parent <$> find_node t n = Some None \/
   exists q cs, link t n = Some (Some q, cs) /\ q ∈ seen) ->
  match paint_node A p t v resources d n with
  | (p', _, Ok _) => paint_inv t v (seen ++ [n]) p'
  | (_, _, Err _) => True
  end.
Proof.
  intros I Hn Hl Hpar. pose proof I as [I1 I2 I3 I4 I5 I6 I7].
  destruct (find_path _ _ _ Hl) as [nd Hnd]. unfold paint_node.
  assert (Hc : content t n = Ok (nd_content nd)) by (unfold content, node; by rewrite Hnd).
  assert (Hr : rect t n = Ok (nd_rect nd)) by (unfold rect, node; by rewrite Hnd).
  rewrite Hc, Hr.
  pose proof (node_clip_path p t v n nd seen l I Hl Hnd Hpar) as Hcr.
  rewrite Hcr. pose proof (push_clip_spec p (path_clip t v l)) as Hpush.
  destruct (push_clip p (path_clip t v l)) as [p1 [id|e]]; [|done]. destruct Hpush as [-> ->].
  set (id := zlen (pl_clips p)). set (p1 := with_node_clip _ n id).
  assert (J : forall p2 more, pl_clips p2 = pl_clips p1 -> node_clips p2 = node_clips p1 ->
    pl_batches p2 = [] -> pl_items p2 = pl_items p ++ more ->
    Forall (item_ok t v (seen ++ [n])) more -> paint_inv t v (seen ++ [n]) p2)
    by (intros p2 more E1 E2; by apply (paint_inv_snoc p p2 t v n seen l)).
  destruct (negb (visible (nd_content nd)) || fle (rect_area (path_clip t v l)) f32_zero) eqn:Ev.
  { apply (J p1 []); try done. by rewrite app_nil_r. }
  apply orb_false_iff in Ev as [Hvis%negb_false_iff Harea].
  destruct (node_kind A p1 n (nd_content nd) (nd_rect nd) resources d) as [d' [k|e]]; [|done].
  pose proof (paint_visible_spec p1 n (nd_content nd) (nd_rect nd) id k) as Hpv.
  destruct (paint_visible p1 n (nd_content nd) (nd_rect nd) id k) as [p2 [u|e]]; [|done].
  destruct Hpv as (E1 & E2 & E3 & more & E4 & Hm). apply (J p2 more); try done.
  - by rewrite E3.
  - eapply Forall_impl; [|exact Hm]. intros i (H1 & H2 & H3 & H4 & H5).
    exists (zlen seen), (nd_content nd), l. rewrite H1, zget_snoc. split; [done|]. split; [by rewrite H3|].
    rewrite Hc, H2, Hr. done.
Qed.

Lemma paint_nodes_inv A t v resources (HO : tree_ok t) : forall ns seen k p d,
  subtree t (root t) = seen ++ ns -> paint_inv t v seen p ->
  match paint_nodes A k p t v resources d ns with
  | (p', _, Ok _) => paint_inv t v (seen ++ ns) p'
  | (_, _, Err _) => True
  end.
Proof.
  pose proof (ok_links _ HO) as L. pose proof (root_live _ HO) as HR.
  induction ns as [|n ns IH]; intros seen k p d E I; cbn [paint_nodes]; [by rewrite app_nil_r|].
  assert (HN : NoDup (subtree t (root t))) by (apply (order_nodup t L), (walk_enough t L), HR).
  assert (Hnew : n ∉ seen).
  { rewrite E in HN. apply list.NoDup_app in HN as (_ & Hdis & _). intros Hin.
    apply (Hdis n Hin), list_elem_of_here. }
  assert (Hlive : is_Some (link t n)).
  { apply below_root; [done|]. apply (subtree_elem t (root t) n HO HR). rewrite E.
    apply elem_of_app. right. apply list_elem_of_here. }
  destruct (l_path _ _ L n Hlive) as [l Hl].
  assert (Hpar : nd_parent <$> find_node t n = Some None \/
    exists q cs, link t n = Some (Some q, cs) /\ q ∈ seen).
  { destruct (order_parent_first t L _ _ (walk_enough t L _ HR) seen n ns E) as [[-> ->]|H]; [left|by right].
    destruct (l_root _ _ L) as [cs Hr]. apply link_Some in Hr as (m & -> & [= Hm _]). cbn. by rewrite <- Hm. }
  pose proof (paint_node_inv (shift k A) p t v resources d n seen l I Hnew Hl Hpar) as H.
  destruct (paint_node (shift k A) p t v resources d n) as [[p1 d1] [u|e]]; [|done].
  change (seen ++ n :: ns) with (seen ++ [n] ++ ns) in *. rewrite app_assoc in *. by apply IH.
Qed.

(** ** Budgets *)
Definition within (c : UiConfig) (p : UiPaintList) : Prop :=
  pl_config p = c /\ zlen (pl_clips p) <= max_clips c /\ zlen (pl_items p) <= max_paint_items c.

Lemma push_clip_within c p r : within c p -> within c (push_clip p r).1.
Proof.
  intros (Hc & H1 & H2). unfold push_clip, try_u32. rewrite Hc.
  destruct (Z.leb_spec (max_clips c) (zlen (pl_clips p))); [done|].
  destruct (_ <=? U32_MAX); [|done]. unfold within. cbn. rewrite zlen_app.
  change (zlen [_]) with 1. split; [done|lia].
Qed.

Lemma push_item_within c p i : within c p -> within c (push_item p i).1.
Proof.
  intros (Hc & H1 & H2). unfold push_item. rewrite Hc.
  destruct (Z.leb_spec (max_paint_items c) (zlen (pl_items p))); [done|].
  unfold within. cbn. rewrite zlen_app. change (zlen [_]) with 1. split; [done|lia].
Qed.

Lemma paint_node_within c A p t v resources d n : within c p ->
  within c (paint_node A p t v resources d n).1.1.
Proof.
  intros W. unfold paint_node. destruct (content t n) as [k|]; [|by destruct (rect t n)].
  destruct (rect t n) as [r|]; [|done].
  set (cr := rect_intersect _ _). pose proof (push_clip_within c p cr W) as W1.
  destruct (push_clip p cr) as [p1 [id|]]; [|done]. cbn [fst] in W1.
  assert (W2 : within c (with_node_clip p1 n id)) by done.
  destruct (negb (visible k) || _); [done|].
  destruct (node_kind _ _ _ _ _ _ _) as [d' [q|]]; [|done]. unfold paint_visible.
  match goal with |- context [push_item ?p ?i] => pose proof (push_item_within c p i W2) as W3;
    destruct (push_item p i) as [p2 [u|]]; [|done] end. cbn [fst] in W3.
  destruct (has_border k); [|done].
  match goal with |- context [push_item ?p ?i] => pose proof (push_item_within c p i W3) as W4;
    by destruct (push_item p i) end.
Qed.

Lemma paint_nodes_within c A t v resources : forall ns k p d, within c p ->
  within c (paint_nodes A k p t v resources d ns).1.1.
Proof.
  induction ns as [|n ns IH]; intros k p d W; cbn [paint_nodes]; [done|].
  pose proof (paint_node_within c (shift k A) p t v resources d n W) as W1.
  destruct (paint_node (shift k A) p t v resources d n) as [[p1 d1] [u|e]]; [by apply IH|done].
Qed.

Lemma extend_last_len bs k i bs' : extend_last bs k i = Some bs' -> zlen bs' = zlen bs.
Proof.
  unfold extend_last. destruct (vec_pop bs) as [[b rest]|] eqn:E; [|done].
  apply vec_pop_Some in E as ->. destruct (_ && _); [|done]. intros [= <-]. by rewrite !zlen_app.
Qed.

Lemma batch_items_len m : forall items i bs, zlen bs <= m -> zlen (batch_items m i items bs).1 <= m.
Proof.
  induction items as [|x items IH]; intros i bs H; cbn [batch_items]; [done|].
  unfold try_u32. destruct (i <=? U32_MAX); [|done].
  destruct (extend_last bs (key x) i) as [bs'|] eqn:E.
  - apply IH. by rewrite (extend_last_len _ _ _ _ E).
  - destruct (Z.leb_spec m (zlen bs)); [done|]. apply IH. rewrite zlen_app.
    change (zlen [_]) with 1. lia.
Qed.

(** ** Counts *)
Definition total_glyphs (items : list PaintItem) : Z := zlen (concat (map item_glyphs items)).

Lemma total_glyphs_cons i items : total_glyphs (i :: items) = zlen (item_glyphs i) + total_glyphs items.
Proof. unfold total_glyphs. cbn. by rewrite zlen_app. Qed.

Lemma sum_glyphs_spec items : forall acc n, sum_glyphs items acc = Ok n ->
  n = acc + total_glyphs items.
Proof.
  induction items as [|i items IH]; intros acc n; cbn [sum_glyphs].
  - intros [= <-]. unfold total_glyphs. cbn. rewrite zlen_nil. lia.
  - rewrite total_glyphs_cons. unfold item_glyphs. destruct (p_kind i).
    6: { destruct (checked_add 64 acc (zlen (glyphs run))) as [a|] eqn:E; [|done].
         apply checked_add_Some in E as [-> _]. cbn [ok_or result_bind]. intros H%IH. lia. }
    all: intros H%IH; rewrite zlen_nil; lia.
Qed.

Lemma bytes_for_spec i g b : bytes_for i g = Ok b -> b = i * 80 + g * 32.
Proof.
  unfold bytes_for, checked_mul, UI_ITEM_STRIDE_BYTES, UI_GLYPH_STRIDE_BYTES.
  destruct (i * 80 <=? _); cbn [mbind option_bind ok_or]; [|done].
  destruct (g * 32 <=? _); cbn [mbind option_bind ok_or]; [|done].
  destruct (checked_add 64 (i * 80) (g * 32)) as [c|] eqn:E; [|done].
  apply checked_add_Some in E as [-> _]. by intros [= <-].
Qed.

Lemma try_u32_spec n m : try_u32 n = Ok m -> m = n /\ n <= U32_MAX.
Proof. unfold try_u32. destruct (Z.leb_spec n U32_MAX); [|done]. by intros [= <-]. Qed.

(** A built list: what the theorems below state of it. *)
Record built (t : UiTree) (v : UiRect) (p : UiPaintList) (u : UiUploadPlan) : Prop := {
  bt_inv : paint_inv t v (subtree t (root t)) (with_batches p []);
  bt_runs : runs 0 (pl_items p) (pl_batches p);
  bt_items : up_items u = zlen (pl_items p) /\ up_items u <= U32_MAX;
  bt_batches : up_batches u = zlen (pl_batches p) /\ up_batches u <= U32_MAX;
  bt_glyphs : up_glyphs u = total_glyphs (pl_items p) /\ up_glyphs u <= U32_MAX;
  bt_bytes : up_bytes u = up_items u * 80 + up_glyphs u * 32;
  bt_upload : up_bytes u <= max_upload_bytes (pl_config p);
  bt_clips_max : zlen (pl_clips p) <= max_clips (pl_config p);
  bt_items_max : zlen (pl_items p) <= max_paint_items (pl_config p);
  bt_batches_max : zlen (pl_batches p) <= max_batches (pl_config p)
}.

Lemma paint_plan_spec p u : paint_plan p = Ok u ->
  (up_items u = zlen (pl_items p) /\ up_items u <= U32_MAX) /\
  (up_batches u = zlen (pl_batches p) /\ up_batches u <= U32_MAX) /\
  (up_glyphs u = total_glyphs (pl_items p) /\ up_glyphs u <= U32_MAX) /\
  up_bytes u = up_items u * 80 + up_glyphs u * 32 /\ up_bytes u <= max_upload_bytes (pl_config p).
Proof.
  unfold paint_plan. destruct (sum_glyphs (pl_items p) 0) as [n|] eqn:En; [cbn|done].
  apply sum_glyphs_spec in En.
  destruct (try_u32 (zlen (pl_items p))) as [i|] eqn:Ei; [cbn|done]. apply try_u32_spec in Ei as [-> Hi].
  destruct (try_u32 (zlen (pl_batches p))) as [b|] eqn:Eb; [cbn|done]. apply try_u32_spec in Eb as [-> Hb].
  destruct (try_u32 n) as [g|] eqn:Eg; [cbn|done]. apply try_u32_spec in Eg as [-> Hg].
  destruct (bytes_for _ _) as [by_|] eqn:Ey; [cbn|done]. apply bytes_for_spec in Ey.
  destruct (Z.ltb_spec (max_upload_bytes (pl_config p)) by_); [done|]. intros [= <-]. cbn. lia.
Qed.

Definition limits_ok (c : UiConfig) : Prop :=
  0 <= max_clips c /\ 0 <= max_paint_items c /\ 0 <= max_batches c.

Lemma zget_nil {X} i : (@nil X) !z i = None.
Proof. unfold zget. by destruct (i <? 0). Qed.

Lemma build_built A p t v resources d : tree_ok t -> limits_ok (pl_config p) ->
  exists p' d' r, build_with_resources A p t v resources d = Some (p', d', r) /\
  match r with Ok u => rect_sane v = true /\ built t v p' u | Err _ => True end.
Proof.
  intros HO (L1 & L2 & L3). unfold build_with_resources.
  destruct (rect_sane v); [|by eexists _, _, _]. cbn [negb]. unfold preorder.
  destruct (A 0%nat); [|by eexists _, _, _].
  pose proof (ok_links _ HO) as L. pose proof (root_live _ HO) as HR.
  rewrite (collect_spec t L _ _ [] (walk_enough t L _ HR)). cbn [app]. fold (subtree t (root t)).
  set (order := subtree t (root t)).
  destruct (paint_order A p t v resources d order) as [[p' d'] r] eqn:E.
  exists p', d', r. split; [done|]. destruct r as [u|]; [|done]. split; [done|]. revert E.
  unfold paint_order. set (p0 := paint_clear p order).
  assert (W0 : within (pl_config p) p0) by (split; [done|split; done]).
  pose proof (push_clip_within _ p0 v W0) as W1. pose proof (push_clip_spec p0 v) as S1.
  destruct (push_clip p0 v) as [p1 [id|]]; [|done]. destruct S1 as [-> ->]. cbn [fst] in W1.
  set (p1 := with_clips p0 _) in *.
  assert (I1 : paint_inv t v [] p1).
  { constructor; try done; intros k x; by rewrite zget_nil. }
  pose proof (paint_nodes_inv A t v resources HO order [] 1 p1 d eq_refl I1) as I2.
  pose proof (paint_nodes_within _ A t v resources order 1 p1 d W1) as W2.
  destruct (paint_nodes A 1 p1 t v resources d order) as [[p2 d2] [x|]]; [|done].
  cbn [fst app] in *. destruct W2 as (Hc & Hcl & Hit). unfold build_batches.
  rewrite (pi_batches _ _ _ _ I2), Hc.
  pose proof (batch_items_spec (max_batches (pl_config p)) (pl_items p2) 0 [] [] eq_refl eq_refl) as Hb.
  pose proof (batch_items_len (max_batches (pl_config p)) (pl_items p2) 0 []) as Hbl.
  destruct (batch_items _ 0 (pl_items p2) []) as [bs [y|]]; [|done]. cbn [fst app] in *.
  destruct (paint_plan (with_batches p2 bs)) as [u'|] eqn:Ep; [|done]. intros [= <- <- <-].
  apply paint_plan_spec in Ep as (P1 & P2 & P3 & P4 & P5). cbn in P1, P2, P3, P4, P5.
  constructor; cbn; rewrite ?Hc; try done; try lia.
  - destruct I2. by constructor.
  - apply Hb. lia.
  - by rewrite <- Hc.
  - apply Hbl. rewrite zlen_nil. lia.
Qed.

(** ** Properties *)

(** C38: Painting a well-formed tree returns; when it succeeds,
    the clip table is the viewport followed by one clip per node in preorder,
    each the viewport cut by the rectangles of the node and of all its
    ancestors, and every paint item stands for a visible node of the tree with
    that node's rectangle, z-index, opacity and own clip, whose area is not
    empty. *)
Theorem ui_paint_clips (A : alloc) (p : UiPaintList) (t : UiTree) (v : UiRect)
    (resources : option UiResourceTable) (d : UiDiagnostics)
    (Hok : tree_ok t) (Hlim : limits_ok (pl_config p)) :
  exists p' d' r, build_with_resources A p t v resources d = Some (p', d', r) /\
  match r with
  | Err _ => True
  | Ok _ => exists order, preorder A t = Some (order, Ok tt) /\
      zlen (pl_clips p') = zlen order + 1 /\
      pl_clips p' !z 0 = Some {| clip_id := 0; clip_rect := v |} /\
      (forall k x l, order !z k = Some x -> lpath (link t) x l ->
         pl_clips p' !z (k + 1) = Some {| clip_id := k + 1; clip_rect := path_clip t v l |}) /\
      Forall (item_ok t v order) (pl_items p')
  end.
Proof.
  destruct (build_built A p t v resources d Hok Hlim) as (p' & d' & r & E & H).
  exists p', d', r. split; [done|]. destruct r as [u|]; [|done]. destruct H as [Hv [[]]].
  exists (subtree t (root t)). split; [|by repeat split].
  revert E. unfold build_with_resources. rewrite Hv. cbn [negb]. unfold preorder.
  destruct (A 0%nat); [|done]. intros _.
  pose proof (ok_links _ Hok) as L. pose proof (root_live _ Hok) as HR.
  apply (collect_spec t L _ _ [] (walk_enough t L _ HR)).
Qed.

(** ** The snapshot of a built list *)

(** The row of [render_kind], the glyph count unguarded. *)
Definition kind_row (k : PaintKind) : Z * option TextureId * option FontId * Z * rgba :=
  match k with
  | PaintKind.Glyphs font run => (3, None, Some font, zlen (glyphs run), white)
  | _ => match render_kind k with Ok q => q | Err _ => (0, None, None, 0, white) end
  end.

(** The reference: each item at the offset its predecessors' glyphs leave. *)
Fixpoint rendered (clips : list UiClip) (items : list PaintItem) (offset : Z) : list UiRenderItem :=
  match items with
  | [] => []
  | i :: items => render_item clips i offset (kind_row (p_kind i)) ::
                  rendered clips items (offset + zlen (item_glyphs i))
  end.

Lemma render_kind_row k : zlen (match k with PaintKind.Glyphs _ run => glyphs run | _ => [] end) <= U32_MAX ->
  render_kind k = Ok (kind_row k).
Proof.
  destruct k; try done. intros H. cbn [render_kind kind_row]. unfold try_u32.
  by rewrite (proj2 (Z.leb_le _ _)).
Qed.

Lemma snapshot_items_spec A clips : forall items k out gs,
  zlen gs + total_glyphs items <= U32_MAX ->
  match snapshot_items A k clips items out gs with
  | Ok (its, gs') => its = out ++ rendered clips items (zlen gs) /\
      gs' = gs ++ concat (map item_glyphs items)
  | Err e => e = UiError.AllocationFailed
  end /\
  ((forall j, A j = true) -> exists q, snapshot_items A k clips items out gs = Ok q).
Proof.
  induction items as [|i items IH]; intros k out gs Hg; cbn [snapshot_items].
  { cbn. rewrite !app_nil_r. split; [done|eauto]. }
  rewrite total_glyphs_cons in Hg.
  pose proof (zlen_nonneg (concat (map item_glyphs items))) as Ht. fold (total_glyphs items) in Ht.
  pose proof (zlen_nonneg (item_glyphs i)). pose proof (zlen_nonneg gs).
  assert (H32 : try_u32 (zlen gs) = Ok (zlen gs)).
  { unfold try_u32. by rewrite (proj2 (Z.leb_le _ _)) by lia. }
  rewrite H32. cbn [result_bind].
  assert (Hq : render_kind (p_kind i) = Ok (kind_row (p_kind i))).
  { apply render_kind_row. unfold item_glyphs in *. lia. }
  assert (Hcase : (exists gs', (match p_kind i with
      | PaintKind.Glyphs _ run => if A k then Ok (gs ++ glyphs run) else Err UiError.AllocationFailed
      | _ => Ok gs end) = Ok gs' /\ gs' = gs ++ item_glyphs i) \/
      A k = false /\ (match p_kind i with
      | PaintKind.Glyphs _ run => if A k then Ok (gs ++ glyphs run) else Err UiError.AllocationFailed
      | _ => Ok gs end) = Err UiError.AllocationFailed).
  { unfold item_glyphs. destruct (p_kind i); rewrite ?app_nil_r; eauto.
    destruct (A k); eauto. }
  destruct Hcase as [(gs' & -> & ->)|[Hk ->]].
  - rewrite Hq. cbn [result_bind].
    destruct (IH (S k) (out ++ [render_item clips i (zlen gs) (kind_row (p_kind i))])
      (gs ++ item_glyphs i)) as [H1 H2]; [rewrite zlen_app; lia|]. split; [|exact H2].
    destruct (snapshot_items _ _ _ _ _ _) as [[its gs']|]; [|done]. destruct H1 as [-> ->].
    cbn [rendered map concat]. rewrite zlen_app, <- !app_assoc. done.
  - cbn [result_bind]. split; [done|]. intros H'. rewrite H' in Hk. done.
Qed.

Lemma rendered_length clips items : forall o, zlen (rendered clips items o) = zlen items.
Proof. induction items as [|i items IH]; intros o; [done|]. cbn [rendered]. by rewrite !zlen_cons, IH. Qed.

Lemma kind_row_count k c t f n col : kind_row k = (c, t, f, n, col) ->
  n = zlen (match k with PaintKind.Glyphs _ run => glyphs run | _ => [] end).
Proof. destruct k; cbn; by intros [= <- <- <- <- <-]. Qed.

Lemma sum_counts_rendered clips items : forall o acc,
  acc + total_glyphs items <= U64_MAX -> 
  sum_counts (rendered clips items o) acc = Ok (acc + total_glyphs items).
Proof.
  induction items as [|i items IH]; intros o acc Ha; cbn [rendered sum_counts].
  - unfold total_glyphs. cbn. rewrite zlen_nil. f_equal. lia.
  - rewrite total_glyphs_cons in *.
    pose proof (zlen_nonneg (concat (map item_glyphs items))) as Ht. fold (total_glyphs items) in Ht.
    assert (Hc : i_glyph_count (render_item clips i o (kind_row (p_kind i))) = zlen (item_glyphs i)).
    { unfold render_item, item_glyphs. destruct (kind_row (p_kind i)) as [[[[c t] f] n] col] eqn:E.
      cbn. by apply kind_row_count in E. }
    rewrite Hc. rewrite checked_add_ok by (unfold umax, U64_MAX in *; lia). cbn [ok_or result_bind].
    rewrite IH by lia. f_equal. lia.
Qed.

(** What two items of one draw share: clip, texture, font, depth, kind. *)
Definition draw_state (i : UiRenderItem) : ClipId * option TextureId * option FontId * Z * Z :=
  (i_clip i, i_tex i, i_font i, i_z i, i_kind i).
Definition key_state (k : UiBatchKey) : ClipId * option TextureId * option FontId * Z * Z :=
  (k_clip k, k_texture k, k_font k, k_z k, k_kind k).

Lemma draw_state_key clips i o : draw_state (render_item clips i o (kind_row (p_kind i))) = key_state (key i).
Proof. unfold draw_state, key_state, render_item, key. by destruct (p_kind i). Qed.

Lemma rendered_app clips xs ys : forall o,
  rendered clips (xs ++ ys) o = rendered clips xs o ++ rendered clips ys (o + total_glyphs xs).
Proof.
  induction xs as [|x xs IH]; intros o; cbn [rendered app].
  - unfold total_glyphs. cbn. rewrite zlen_nil. by rewrite Z.add_0_r.
  - rewrite IH, total_glyphs_cons. by rewrite Z.add_assoc.
Qed.

Lemma rendered_states clips k xs : forall o, Forall (fun i => key i = k) xs ->
  Forall (fun i => draw_state i = key_state k) (rendered clips xs o).
Proof.
  induction xs as [|x xs IH]; intros o H; [constructor|]. apply list.Forall_cons in H as [Hx H].
  cbn [rendered]. constructor; [|by apply IH]. by rewrite draw_state_key, Hx.
Qed.

(** [ds] draw the items of [its] from [from] once, in order, each draw a
    non-empty range of items that share their state. *)
Fixpoint draws (from : Z) (its : list UiRenderItem) (ds : list UiDrawCommand) : Prop :=
  match ds with
  | [] => its = []
  | d :: ds => exists xs rest st, its = xs ++ rest /\ xs <> [] /\
      d = {| ud_vertex_count := 6; ud_instance_count := zlen xs; ud_first_vertex := 0;
             ud_first_instance := from |} /\
      Forall (fun i => draw_state i = st) xs /\
      draws (from + zlen xs) rest ds
  end.

Lemma runs_draws clips bs : forall from items o, runs from items bs ->
  draws from (rendered clips items o) (map draw_of bs).
Proof.
  induction bs as [|b bs IH]; intros from items o Hr; [by cbn in *; subst|].
  destruct Hr as (xs & rest & -> & Hne & Hf & Hc & Ha & _ & Hr). cbn [map draws].
  exists (rendered clips xs o), (rendered clips rest (o + total_glyphs xs)), (key_state (b_key b)).
  rewrite rendered_app, rendered_length. split; [done|]. split; [by destruct xs|].
  split; [unfold draw_of; by rewrite Hf, Hc|]. split; [by apply rendered_states|]. by apply IH.
Qed.

Lemma runs_check bs : forall from items n, runs from items bs -> 0 <= from ->
  from + zlen items <= n -> n <= U32_MAX -> check_batches n from bs = Ok (from + zlen items).
Proof.
  induction bs as [|b bs IH]; intros from items n Hr H0 Hn Hu.
  - cbn in Hr. subst. cbn. rewrite zlen_nil. f_equal. lia.
  - destruct Hr as (xs & rest & -> & Hne & Hf & Hc & Ha & _ & Hr). rewrite zlen_app in *.
    assert (0 < zlen xs) by (destruct xs; [done|]; rewrite zlen_cons; pose proof (zlen_nonneg xs); lia).
    pose proof (zlen_nonneg rest). cbn [check_batches]. rewrite Hf, Hc.
    rewrite (proj2 (Z.eqb_neq (zlen xs) 0)) by lia. rewrite Z.eqb_refl. cbn [orb negb].
    rewrite checked_add_ok by (unfold umax, U32_MAX in *; lia). cbn [ok_or result_bind].
    rewrite (proj2 (Z.ltb_ge _ _)) by lia. rewrite (IH _ _ _ Hr) by lia. f_equal. lia.
Qed.

Lemma snapshot_spec (B : alloc) (t : UiTree) (v : UiRect) (p' : UiPaintList) (u : UiUploadPlan)
    (Hbuilt : built t v p' u) :
  up_items u = zlen (pl_items p') /\ up_batches u = zlen (pl_batches p') /\
  up_glyphs u = total_glyphs (pl_items p') /\
  up_bytes u = up_items u * 80 + up_glyphs u * 32 /\
  up_bytes u <= max_upload_bytes (pl_config p') /\
  zlen (pl_clips p') <= max_clips (pl_config p') /\
  zlen (pl_items p') <= max_paint_items (pl_config p') /\
  zlen (pl_batches p') <= max_batches (pl_config p') /\
  ((forall k, B k = true) -> exists s, snapshot B p' = Ok s) /\
  match snapshot B p' with
  | Err e => e = UiError.AllocationFailed
  | Ok s =>
      sn_items s = rendered (pl_clips p') (pl_items p') 0 /\
      sn_glyphs s = concat (map item_glyphs (pl_items p')) /\
      sn_upload s = u /\
      plan_try_build s = Ok {| cp_items := up_items u; cp_draws := up_batches u; cp_bytes := up_bytes u |} /\
      exists ds, build_draw_commands alloc_all s = Ok ds /\ draws 0 (sn_items s) ds
  end.
Proof.
  destruct Hbuilt as [_ Hr [Ei Hi] [Eb Hb] [Eg Hg] Ey Hup Hc Hit Hba].
  do 8 (split; [done|]).
  pose proof (zlen_nonneg (pl_items p')). pose proof (zlen_nonneg (pl_batches p')).
  assert (0 <= total_glyphs (pl_items p')) by apply zlen_nonneg.
  destruct (snapshot_items_spec B (pl_clips p') (pl_items p') 2 [] []) as [S1 S2];
    [rewrite zlen_nil; lia|].
  assert (U : forall n, n <= U32_MAX -> try_u32 n = Ok n).
  { intros n Hn. unfold try_u32. by rewrite (proj2 (Z.leb_le _ _)). }
  assert (Y : bytes_for (zlen (pl_items p')) (total_glyphs (pl_items p')) = Ok (up_bytes u)).
  { unfold bytes_for, checked_mul, UI_ITEM_STRIDE_BYTES, UI_GLYPH_STRIDE_BYTES.
    unfold U32_MAX, umax in *. rewrite !(proj2 (Z.leb_le _ _)) by lia. cbn [mbind option_bind].
    rewrite checked_add_ok by (unfold umax; lia). cbn [ok_or]. f_equal. lia. }
  unfold snapshot.
  assert (F : forall its gs, its = rendered (pl_clips p') (pl_items p') 0 ->
    (let? n := sum_counts its 0 in
     let? bytes := bytes_for (zlen its) n in
     let? item_count := try_u32 (zlen (pl_items p')) in
     let? batch_count := try_u32 (zlen (pl_batches p')) in
     let? glyph_count := try_u32 n in
     Ok {| sn_items := its; sn_batches := pl_batches p'; sn_glyphs := gs;
           sn_upload := {| up_items := item_count; up_batches := batch_count;
                           up_glyphs := glyph_count; up_bytes := bytes |} |}) =
    Ok {| sn_items := its; sn_batches := pl_batches p'; sn_glyphs := gs; sn_upload := u |}).
  { intros its gs ->. rewrite sum_counts_rendered by (unfold U32_MAX, U64_MAX in *; lia).
    cbn [result_bind]. rewrite rendered_length, Z.add_0_l, Y, !U by lia. cbn [result_bind].
    destruct u. cbn in *. by subst. }
  split.
  - intros HB. rewrite HB. cbn [negb]. destruct (S2 HB) as [[its gs] Es]. rewrite Es in S1 |- *.
    destruct S1 as [S1 _]. cbn [result_bind app] in *. rewrite HB. cbn [negb].
    rewrite F by done. eauto.
  - destruct (B 0%nat); [cbn [negb]|done].
    destruct (snapshot_items B 2 (pl_clips p') (pl_items p') [] []) as [[its gs]|e]; [|done].
    destruct S1 as [S1 S3]. cbn [result_bind app] in *. destruct (B 1%nat); [cbn [negb]|done].
    rewrite F by done. cbn [sn_items sn_glyphs sn_upload]. do 3 (split; [done|]).
    assert (P : plan_try_build {| sn_items := its; sn_batches := pl_batches p'; sn_glyphs := gs; sn_upload := u |}
      = Ok {| cp_items := up_items u; cp_draws := up_batches u; cp_bytes := up_bytes u |}).
    { unfold plan_try_build, try_u32_plan. cbn. rewrite S1. change (zlen []) with 0. rewrite rendered_length.
      rewrite !(proj2 (Z.leb_le _ _)) by lia. cbn [result_bind].
      rewrite (runs_check _ _ _ (zlen (pl_items p')) Hr) by lia. cbn [result_bind].
      rewrite Z.add_0_l, Z.eqb_refl. cbn. by rewrite Ei, Eb. }
    split; [done|]. exists (map draw_of (pl_batches p')). unfold build_draw_commands. rewrite P. cbn.
    split; [done|]. rewrite S1. by apply runs_draws.
Qed.

(** From a painted frame to the draws: a built paint list has
    its item, batch and glyph counts and its byte size in the upload plan
    exactly, all within the configured budgets; the snapshot fails only for
    lack of memory; and the command plan accepts every snapshot of a built list,
    with draws that are non-empty ranges covering the items once in order,
    each over items that share clip, texture, font, depth and kind. *)
Theorem ui_draws_cover (A : alloc) (p : UiPaintList) (t : UiTree) (v : UiRect)
    (resources : option UiResourceTable) (d : UiDiagnostics)
    (Hok : tree_ok t) (Hlim : limits_ok (pl_config p))
    (p' : UiPaintList) (d' : UiDiagnostics) (u : UiUploadPlan)
    (Hbuild : build_with_resources A p t v resources d = Some (p', d', Ok u)) (B : alloc) :
  up_items u = zlen (pl_items p') /\ up_batches u = zlen (pl_batches p') /\
  up_glyphs u = total_glyphs (pl_items p') /\
  up_bytes u = up_items u * 80 + up_glyphs u * 32 /\
  up_bytes u <= max_upload_bytes (pl_config p') /\
  zlen (pl_clips p') <= max_clips (pl_config p') /\
  zlen (pl_items p') <= max_paint_items (pl_config p') /\
  zlen (pl_batches p') <= max_batches (pl_config p') /\
  ((forall k, B k = true) -> exists s, snapshot B p' = Ok s) /\
  match snapshot B p' with
  | Err e => e = UiError.AllocationFailed
  | Ok s =>
      sn_items s = rendered (pl_clips p') (pl_items p') 0 /\
      sn_glyphs s = concat (map item_glyphs (pl_items p')) /\
      sn_upload s = u /\
      plan_try_build s = Ok {| cp_items := up_items u; cp_draws := up_batches u; cp_bytes := up_bytes u |} /\
      exists ds, build_draw_commands alloc_all s = Ok ds /\ draws 0 (sn_items s) ds
  end.
Proof.
  destruct (build_built A p t v resources d Hok Hlim) as (q & dq & r & E & H).
  rewrite Hbuild in E. injection E as <- <- <-. by apply (snapshot_spec B t v), H.
Qed.

(** ** A painted tree *)
Definition demo_box (x w : Z) : UiRect :=
  {| r_x := f32_of_Z x; r_y := f32_zero; r_width := f32_of_Z w; r_height := f32_of_Z w |}.
Definition demo_id (i : Z) : UiNodeId := {| n_index := i; n_generation := 1 |}.

(** A root of 100 points, a panel of 20 with a child 30 points to its right, a
    text. *)
Definition demo_paint_tree : UiTree := demo_run [
  (alloc_all, OpCommand (UiCommand.Create demo_r panel));
  (alloc_all, OpCommand (UiCommand.Create (demo_id 1) panel));
  (alloc_all, OpCommand (UiCommand.Create demo_r (content_new UiNodeKind.Text)));
  (alloc_all, OpCommand (UiCommand.SetText (demo_id 3) {| text_value := [97; 98; 99] |}));
  (alloc_all, OpSetRect demo_r (demo_box 0 100)); (alloc_all, OpSetRect (demo_id 1) (demo_box 0 20));
  (alloc_all, OpSetRect (demo_id 2) (demo_box 30 20)); (alloc_all, OpSetRect (demo_id 3) (demo_box 50 40))].

Definition demo_list : UiPaintList := {|
  pl_clips := []; pl_items := []; pl_batches := []; node_clips := []; pl_order := [];
  pl_config := demo_config |}.

Definition demo_frame : UiPaintList * UiDiagnostics * result UiError UiUploadPlan :=
  match build alloc_all demo_list demo_paint_tree (demo_box 0 100) ui_diagnostics_default with
  | Some r => r
  | None => (demo_list, ui_diagnostics_default, Err UiError.Cycle)
  end.

Example demo_frame_counts :
  demo_frame.2 = Ok {| up_items := 3; up_batches := 3; up_glyphs := 3; up_bytes := 336 |} /\
  map p_node (pl_items demo_frame.1.1) = [demo_r; demo_id 1; demo_id 3].
Proof. vm_compute. split; reflexivity. Qed.

Lemma ui_paint_clips_witness :
  exists p' d' r, build_with_resources alloc_all demo_list demo_paint_tree (demo_box 0 100) None
    ui_diagnostics_default = Some (p', d', r) /\
  match r with
  | Err _ => True
  | Ok _ => exists order, preorder alloc_all demo_paint_tree = Some (order, Ok tt) /\
      zlen (pl_clips p') = zlen order + 1 /\
      pl_clips p' !z 0 = Some {| clip_id := 0; clip_rect := demo_box 0 100 |} /\
      (forall k x l, order !z k = Some x -> lpath (link demo_paint_tree) x l ->
         pl_clips p' !z (k + 1) =
           Some {| clip_id := k + 1; clip_rect := path_clip demo_paint_tree (demo_box 0 100) l |}) /\
      Forall (item_ok demo_paint_tree (demo_box 0 100) order) (pl_items p')
  end.
Proof.
  apply (ui_paint_clips alloc_all demo_list demo_paint_tree (demo_box 0 100) None
    ui_diagnostics_default); [apply demo_run_ok|repeat split; discriminate].
Defined.

Lemma ui_draws_cover_witness :
  let p' := demo_frame.1.1 in
  up_items {| up_items := 3; up_batches := 3; up_glyphs := 3; up_bytes := 336 |} = zlen (pl_items p') /\
  ((forall k, alloc_all k = true) -> exists s, snapshot alloc_all p' = Ok s).
Proof.
  destruct (ui_draws_cover alloc_all demo_list demo_paint_tree (demo_box 0 100) None
    ui_diagnostics_default ltac:(apply demo_run_ok) ltac:(repeat split; discriminate)
    demo_frame.1.1 demo_frame.1.2
    {| up_items := 3; up_batches := 3; up_glyphs := 3; up_bytes := 336 |}
    ltac:(vm_compute; reflexivity) alloc_all) as (H1 & _ & _ & _ & _ & _ & _ & _ & H2 & _).
  split; [exact H1|exact H2].
Defined.

(** The paint clips every node by all its ancestors, also by those whose
    overflow is [Visible]; the hit test does not: node 2, drawn nowhere, is
    hit. *)
Example paint_clips_visible_overflow :
  overflow (style panel) = UiOverflow.Visible /\
  UiInput.hit_test alloc_all demo_paint_tree (f32_of_Z 40) (f32_of_Z 10) = Some (Some (demo_id 2)) /\
  forallb (fun i => negb (bool_decide (p_node i = demo_id 2))) (pl_items demo_frame.1.1) = true.
Proof. vm_compute. repeat split. Qed.
