(* ===== verification/UiUpload.v ===== *)
(** The UI's upload stream ([UiRenderSnapshot] of [ui/paint.rs]): the byte
    records of items and glyphs, and the dirty ranges between two frames.
    Theorems: the stream has the size of the upload plan and decodes back to
    every encoded field; applying the dirty ranges to the previous stream, cut
    or extended to the new size, gives the current one, and the ranges are
    disjoint, in order and in bounds. *)

From S2P Require Import Prelude F32 UiComponents UiTree UiTreeInv UiCommands UiText UiPaint Wire.

Local Open Scope Z_scope.
Local Open Scope kit_scope.

(** ** Encoding *)
Definition le32 (z : Z) : list Z := to_le_bytes 4 z.
Definition le16 (z : Z) : list Z := to_le_bytes 2 z.
Definition lef (x : f32) : list Z := le32 (f32_bits x).

Definition rect_floats (r : UiRect) : list f32 := [r_x r; r_y r; r_width r; r_height r].

(** The 78 bytes of an item before the padding. *)
Definition item_fields (i : UiRenderItem) : list Z :=
  flat_map lef (rect_floats (i_rect i)) ++
  flat_map lef (rect_floats (i_clip_rect i)) ++
  flat_map lef (rgba_list (i_color i)) ++
  le32 (i_clip i) ++ le32 (i_z i) ++ lef (i_opacity i) ++ [i_kind i] ++ [0] ++
  le32 (i_glyph_count i) ++ le32 (i_glyph_offset i) ++
  le32 (match i_tex i with Some t => t_index t | None => U32_MAX end) ++
  le32 (match i_font i with Some f => f_index f | None => U32_MAX end).

(** The 16 bytes of a glyph before the padding. *)
Definition glyph_fields (g : Glyph) : list Z :=
  le32 (codepoint g) ++ lef (g_advance g) ++ le16 (atlas_x g) ++ le16 (atlas_y g) ++
  le16 (g_width g) ++ le16 (g_height g).

(** [output.resize(output.len().checked_add(n)?, 0)]. *)
Definition pad (n : Z) (output : list Z) : result UiError (list Z) :=
  let? len := ok_or UiError.IndexOverflow (checked_add 64 (zlen output) n) in
  Ok (resize len 0 output).

Fixpoint encode_items (items : list UiRenderItem) (output : list Z) : result UiError (list Z) :=
  match items with
  | [] => Ok output
  | i :: items =>
      let? output := pad (UI_ITEM_STRIDE_BYTES - 78) (output ++ item_fields i) in
      encode_items items output
  end.

Fixpoint encode_glyphs (gs : list Glyph) (output : list Z) : result UiError (list Z) :=
  match gs with
  | [] => Ok output
  | g :: gs =>
      let? output := pad (UI_GLYPH_STRIDE_BYTES - 16) (output ++ glyph_fields g) in
      encode_glyphs gs output
  end.

Definition encode_bytes (A : alloc) (s : UiRenderSnapshot) : result UiError (list Z) :=
  let? _ := bytes_for (zlen (sn_items s)) (zlen (sn_glyphs s)) in
  if A 0%nat then
    let? output := encode_items (sn_items s) [] in
    encode_glyphs (sn_glyphs s) output
  else Err UiError.AllocationFailed.

(** ** Dirty ranges *)
Record UiUploadRange := { ur_offset : Z; ur_bytes : list Z }.

(** [slice.get(start..end)]. *)
Definition get_range (l : list Z) (a b : Z) : option (list Z) :=
  if (a <=? b) && (b <=? zlen l) then Some (slice (Z.to_nat a) (Z.to_nat b) l) else None.

Definition chunk_changed (current old : list Z) (start chunk_end : Z) : bool :=
  let e := Z.min chunk_end (zlen current) in
  let old_e := Z.min chunk_end (zlen old) in
  negb (bool_decide (get_range current start e = get_range old start old_e)) ||
  (negb (zlen current =? zlen old) && negb (e =? old_e)).

(** The body of the loop once [changed] is known; [A] is the reservation of the
    range's bytes. *)
Definition close_range (ok : bool) (current : list Z) (start : Z) (changed is_last : bool)
    (pending : option Z) (ranges : list UiUploadRange)
  : result UiError (option Z * list UiUploadRange) :=
  let pending := if changed then match pending with None => Some start | _ => pending end
                 else pending in
  if (negb changed && bool_decide (is_Some pending)) || (changed && is_last) then
    let range_start := match pending with Some s => s | None => start end in
    let range_end := if changed && is_last then zlen current else Z.min start (zlen current) in
    if range_start <? range_end then
      if ok then
        Ok (None, ranges ++ [{| ur_offset := range_start;
              ur_bytes := slice (Z.to_nat range_start) (Z.to_nat range_end) current |}])
      else Err UiError.AllocationFailed
    else Ok (None, ranges)
  else Ok (pending, ranges).

(** [n] chunks are left, the next one is [chunk] of [count]. *)
Fixpoint dirty_loop (A : alloc) (current old : list Z) (count : Z) (n : nat) (chunk : Z)
    (pending : option Z) (ranges : list UiUploadRange) : result UiError (list UiUploadRange) :=
  match n with
  | O => Ok ranges
  | S n =>
      let? start := ok_or UiError.IndexOverflow (checked_mul 64 chunk 32) in
      let? chunk_end := ok_or UiError.IndexOverflow (checked_add 64 start 32) in
      let changed := chunk_changed current old start chunk_end in
      let? (pending, ranges) :=
        close_range (A n) current start changed (chunk + 1 =? count) pending ranges in
      dirty_loop A current old count n (chunk + 1) pending ranges
  end.

Definition encode_dirty_ranges (A : alloc) (s : UiRenderSnapshot) (previous : option UiRenderSnapshot)
  : result UiError (list UiUploadRange) :=
  let? current := encode_bytes A s in
  match previous with
  | None => Ok [{| ur_offset := 0; ur_bytes := current |}]
  | Some p =>
      let? old := encode_bytes (shift 1 A) p in
      let count := (Z.max (zlen current) (zlen old) + 31) / 32 in
      if A 2%nat
      then dirty_loop (shift 3 A) current old count (Z.to_nat count) 0 None []
      else Err UiError.AllocationFailed
  end.

(** ** Decoding: the reference *)
Definition u32_at (o : nat) (l : list Z) : Z := from_le_bytes (slice o (o + 4) l).
Definition u16_at (o : nat) (l : list Z) : Z := from_le_bytes (slice o (o + 2) l).

(** The fields of a record as bit patterns. *)
Record RawItem := {
  raw_floats : list Z;
  raw_clip : Z;
  raw_z : Z;
  raw_opacity : Z;
  raw_kind : option Z;
  raw_glyph_count : Z;
  raw_glyph_offset : Z;
  raw_texture : Z;
  raw_font : Z
}.
Record RawGlyph := {
  raw_codepoint : Z;
  raw_advance : Z;
  raw_atlas : Z * Z;
  raw_size : Z * Z
}.

Definition raw_item (i : UiRenderItem) : RawItem := {|
  raw_floats := map f32_bits (rect_floats (i_rect i) ++ rect_floats (i_clip_rect i) ++ rgba_list (i_color i));
  raw_clip := i_clip i; raw_z := wrap 32 (i_z i); raw_opacity := f32_bits (i_opacity i);
  raw_kind := Some (i_kind i); raw_glyph_count := i_glyph_count i; raw_glyph_offset := i_glyph_offset i;
  raw_texture := match i_tex i with Some t => t_index t | None => U32_MAX end;
  raw_font := match i_font i with Some f => f_index f | None => U32_MAX end |}.
Definition raw_glyph (g : Glyph) : RawGlyph := {|
  raw_codepoint := codepoint g; raw_advance := f32_bits (g_advance g);
  raw_atlas := (atlas_x g, atlas_y g); raw_size := (g_width g, g_height g) |}.

Definition decode_item (l : list Z) : RawItem := {|
  raw_floats := map (fun k => u32_at (4 * k) l) (seq 0 12);
  raw_clip := u32_at 48 l; raw_z := u32_at 52 l; raw_opacity := u32_at 56 l;
  raw_kind := l !! 60%nat; raw_glyph_count := u32_at 62 l; raw_glyph_offset := u32_at 66 l;
  raw_texture := u32_at 70 l; raw_font := u32_at 74 l |}.
Definition decode_glyph (l : list Z) : RawGlyph := {|
  raw_codepoint := u32_at 0 l; raw_advance := u32_at 4 l;
  raw_atlas := (u16_at 8 l, u16_at 10 l); raw_size := (u16_at 12 l, u16_at 14 l) |}.

Fixpoint decode_records {R} (decode : list Z -> R) (stride n : nat) (l : list Z) : list R :=
  match n with
  | O => []
  | S n => decode (take stride l) :: decode_records decode stride n (drop stride l)
  end.

Definition decode_stream (n_items n_glyphs : nat) (l : list Z) : list RawItem * list RawGlyph :=
  (decode_records decode_item 80 n_items l,
   decode_records decode_glyph 32 n_glyphs (drop (80 * n_items) l)).

(** Fields in range of their machine types. *)
Record item_typed (i : UiRenderItem) : Prop := {
  ty_floats : Forall valid_f32 (rect_floats (i_rect i) ++ rect_floats (i_clip_rect i) ++ rgba_list (i_color i));
  ty_opacity : valid_f32 (i_opacity i);
  ty_words : Forall (is_u 32) [i_clip i; i_glyph_count i; i_glyph_offset i];
  ty_ids : (forall t, i_tex i = Some t -> is_u 32 (t_index t)) /\
           (forall f, i_font i = Some f -> is_u 32 (f_index f))
}.
Definition glyph_typed (g : Glyph) : Prop :=
  is_u 32 (codepoint g) /\ valid_f32 (g_advance g) /\
  Forall (is_u 16) [atlas_x g; atlas_y g; g_width g; g_height g].

(** ** Floats fit in four bytes *)
Lemma f32_bits_u32 x : valid_f32 x -> is_u 32 (f32_bits x).
Proof.
  unfold valid_f32, is_u. destruct x as [s|s| |s m e]; cbn [valid_binary f32_bits].
  1-3: try destruct s; lia.
  unfold bounded, canonical_mantissa. intros H. apply andb_true_iff in H as [H1%Z.eqb_eq H2%Z.leb_le].
  pose proof (pos_digits m) as Hd. set (d := Z.pos (digits2_pos m)) in *.
  unfold fexp, emin in H1. assert (d <= 24 /\ -149 <= e <= 104) as [Hd' He] by lia.
  assert (Z.pos m < 2 ^ 24).
  { eapply Z.lt_le_trans; [exact Hd|]. apply Z.pow_le_mono_r; lia. }
  destruct (Z.ltb_spec (Z.pos m) (2 ^ 23)); destruct s; lia.
Qed.

(** ** The records *)
Definition item_record (i : UiRenderItem) : list Z := item_fields i ++ [0; 0].
Definition glyph_record (g : Glyph) : list Z := glyph_fields g ++ replicate 16 0.

Lemma pad_spec n output : 0 <= n -> zlen output + n <= U64_MAX ->
  pad n output = Ok (output ++ replicate (Z.to_nat n) 0).
Proof.
  intros H0 H. unfold pad. rewrite checked_add_ok by (unfold umax, U64_MAX in *; lia). cbn [ok_or result_bind].
  f_equal. unfold resize. rewrite resize_ge by (unfold zlen; lia). do 2 f_equal. unfold zlen. lia.
Qed.

Lemma item_record_len i : zlen (item_record i) = 80.
Proof. reflexivity. Qed.
Lemma glyph_record_len g : zlen (glyph_record g) = 32.
Proof. reflexivity. Qed.

Lemma encode_items_spec items : forall output, zlen output + 80 * zlen items <= U64_MAX ->
  encode_items items output = Ok (output ++ flat_map item_record items).
Proof.
  induction items as [|i items IH]; intros output H; cbn [encode_items flat_map].
  { by rewrite app_nil_r. }
  rewrite zlen_cons in H. pose proof (zlen_nonneg items).
  assert (Hf : zlen (item_fields i) = 78) by reflexivity.
  rewrite pad_spec; [|done|rewrite zlen_app, Hf; change (UI_ITEM_STRIDE_BYTES - 78) with 2; lia].
  cbn [result_bind]. change (replicate (Z.to_nat (UI_ITEM_STRIDE_BYTES - 78)) 0) with [0; 0].
  rewrite <- (app_assoc output). fold (item_record i).
  rewrite IH by (rewrite zlen_app, item_record_len; lia). by rewrite app_assoc.
Qed.

Lemma encode_glyphs_spec gs : forall output, zlen output + 32 * zlen gs <= U64_MAX ->
  encode_glyphs gs output = Ok (output ++ flat_map glyph_record gs).
Proof.
  induction gs as [|g gs IH]; intros output H; cbn [encode_glyphs flat_map].
  { by rewrite app_nil_r. }
  rewrite zlen_cons in H. pose proof (zlen_nonneg gs).
  assert (Hf : zlen (glyph_fields g) = 16) by reflexivity.
  rewrite pad_spec; [|done|rewrite zlen_app, Hf; change (UI_GLYPH_STRIDE_BYTES - 16) with 16; lia].
  cbn [result_bind]. change (Z.to_nat (UI_GLYPH_STRIDE_BYTES - 16)) with 16%nat.
  rewrite <- (app_assoc output). fold (glyph_record g).
  rewrite IH by (rewrite zlen_app, glyph_record_len; lia). by rewrite app_assoc.
Qed.

Lemma zlen_flat_map {X} (f : X -> list Z) n l : (forall x, zlen (f x) = n) ->
  zlen (flat_map f l) = n * zlen l.
Proof.
  intros H. induction l as [|x l IH]; cbn; [change (0 = n * 0); lia|].
  rewrite zlen_app, zlen_cons, H, IH. lia.
Qed.

Definition stream (s : UiRenderSnapshot) : list Z :=
  flat_map item_record (sn_items s) ++ flat_map glyph_record (sn_glyphs s).

Lemma stream_len s : zlen (stream s) = 80 * zlen (sn_items s) + 32 * zlen (sn_glyphs s).
Proof.
  unfold stream. rewrite zlen_app, (zlen_flat_map _ 80), (zlen_flat_map _ 32); auto using item_record_len, glyph_record_len.
Qed.

Lemma encode_bytes_spec A s : match encode_bytes A s with
  | Ok bytes => bytes = stream s /\ A 0%nat = true
  | Err UiError.AllocationFailed => A 0%nat = false
  | Err UiError.IndexOverflow => U64_MAX < 80 * zlen (sn_items s) + 32 * zlen (sn_glyphs s)
  | Err _ => False
  end.
Proof.
  unfold encode_bytes. pose proof (zlen_nonneg (sn_items s)). pose proof (zlen_nonneg (sn_glyphs s)).
  destruct (bytes_for (zlen (sn_items s)) (zlen (sn_glyphs s))) as [b|e] eqn:Eb; cbn [result_bind].
  - assert (Hb : 80 * zlen (sn_items s) + 32 * zlen (sn_glyphs s) <= U64_MAX).
    { revert Eb. unfold bytes_for. destruct (checked_mul 64 _ UI_ITEM_STRIDE_BYTES) as [x|] eqn:E1; [|done].
      destruct (checked_mul 64 _ UI_GLYPH_STRIDE_BYTES) as [y|] eqn:E2; [|done].
      cbn [mbind option_bind]. destruct (checked_add 64 x y) as [z|] eqn:E3; [|done]. intros _.
      apply checked_add_Some in E3 as [-> E3]. unfold checked_mul in E1, E2.
      destruct (_ <=? _) in E1; [|done]. destruct (_ <=? _) in E2; [|done]. simplify_eq.
      unfold umax, UI_ITEM_STRIDE_BYTES, UI_GLYPH_STRIDE_BYTES, U64_MAX in *. lia. }
    destruct (A 0%nat) eqn:HA; [|done]. rewrite encode_items_spec by (rewrite zlen_nil; lia).
    cbn [result_bind app]. rewrite encode_glyphs_spec; [done|].
    rewrite (zlen_flat_map _ 80) by apply item_record_len. lia.
  - revert Eb. unfold bytes_for, checked_mul, UI_ITEM_STRIDE_BYTES, UI_GLYPH_STRIDE_BYTES.
    destruct (Z.leb_spec (zlen (sn_items s) * 80) (umax 64)); cbn [mbind option_bind ok_or].
    2: { intros [= <-]. unfold umax, U64_MAX in *. lia. }
    destruct (Z.leb_spec (zlen (sn_glyphs s) * 32) (umax 64)); cbn [mbind option_bind ok_or].
    2: { intros [= <-]. unfold umax, U64_MAX in *. lia. }
    unfold checked_add. destruct (Z.leb_spec (zlen (sn_items s) * 80 + zlen (sn_glyphs s) * 32) (umax 64));
      [done|]. cbn. intros [= <-]. unfold umax, U64_MAX in *. lia.
Qed.

Lemma from_to_4 z : is_u 32 z -> from_le_bytes (to_le_bytes 4 z) = z.
Proof. intros H. by apply from_to_le. Qed.
Lemma from_to_2 z : is_u 16 z -> from_le_bytes (to_le_bytes 2 z) = z.
Proof. intros H. by apply from_to_le. Qed.

Lemma decode_item_record i : item_typed i -> decode_item (item_record i) = raw_item i.
Proof.
  intros [HF HO HW [HT HN]]. unfold decode_item, raw_item.
  assert (D : forall z, is_u 32 z -> from_le_bytes (to_le_bytes 4 z) = z) by apply from_to_4.
  assert (Hz : from_le_bytes (to_le_bytes 4 (i_z i)) = wrap 32 (i_z i)).
  { rewrite <- (to_le_wrap 4 (i_z i)). apply D. apply wrap_range. lia. }
  assert (Ht : is_u 32 (match i_tex i with Some t => t_index t | None => U32_MAX end)).
  { destruct (i_tex i); [by apply HT|]. unfold is_u, U32_MAX. lia. }
  assert (Hf : is_u 32 (match i_font i with Some f => f_index f | None => U32_MAX end)).
  { destruct (i_font i); [by apply HN|]. unfold is_u, U32_MAX. lia. }
  repeat (rewrite list.Forall_cons in HW; destruct HW as [? HW]).
  unfold rect_floats, rgba_list in HF. cbn [app] in HF.
  repeat (rewrite list.Forall_cons in HF; destruct HF as [?%f32_bits_u32 HF]).
  apply f32_bits_u32 in HO.
  f_equal; try (by apply D); try reflexivity; [|exact Hz].
  cbn [rect_floats rgba_list app map seq].
  repeat (f_equal; [by apply D|]). f_equal. by apply D.
Qed.

Lemma decode_glyph_record g : glyph_typed g -> decode_glyph (glyph_record g) = raw_glyph g.
Proof.
  intros (H1 & H2%f32_bits_u32 & H3). unfold decode_glyph, raw_glyph.
  repeat (rewrite list.Forall_cons in H3; destruct H3 as [? H3]).
  f_equal; try (by apply from_to_4); f_equal; by apply from_to_2.
Qed.

Lemma decode_records_spec {X R} (enc : X -> list Z) (dec : list Z -> R) (raw : X -> R) n l rest :
  (forall x, length (enc x) = n) -> Forall (fun x => dec (enc x) = raw x) l ->
  decode_records dec n (length l) (flat_map enc l ++ rest) = map raw l.
Proof.
  intros Hn H. induction H as [|x l Hx _ IH]; cbn [flat_map decode_records length map app]; [done|].
  rewrite <- app_assoc. rewrite take_app_length' by done. rewrite drop_app_length' by done.
  by rewrite Hx, IH.
Qed.

(** ** Pointwise *)
Lemma zget_ext {X} (a b : list X) : zlen a = zlen b ->
  (forall i, 0 <= i < zlen a -> a !z i = b !z i) -> a = b.
Proof.
  intros Hl H. apply list_eq. intros i. rewrite <- !zget_nat. destruct (decide (Z.of_nat i < zlen a)).
  - apply H. lia.
  - rewrite !(proj2 (zget_None _ _)) by lia. done.
Qed.

Lemma zget_slice l a b i : 0 <= a -> a <= b -> b <= zlen l -> 0 <= i < b - a ->
  slice (Z.to_nat a) (Z.to_nat b) l !z i = l !z (a + i).
Proof.
  intros Ha Hb Hl Hi. unfold slice. rewrite !zget_lookup by lia.
  rewrite lookup_take_lt by lia. rewrite lookup_drop. f_equal. lia.
Qed.

Lemma zlen_slice l a b : 0 <= a <= b -> b <= zlen l -> zlen (slice (Z.to_nat a) (Z.to_nat b) l) = b - a.
Proof. intros Ha Hl. unfold slice, zlen in *. rewrite length_take, length_drop. lia. Qed.

Lemma get_range_eq l k a b c : 0 <= a -> get_range l a b = get_range k a c ->
  a <= b -> b <= zlen l -> b = c /\ forall i, a <= i < b -> l !z i = k !z i.
Proof.
  intros Ha E Hab Hb. unfold get_range in E. rewrite (proj2 (Z.leb_le a b)), (proj2 (Z.leb_le b _)) in E by lia.
  cbn [andb] in E. destruct ((a <=? c) && (c <=? zlen k)) eqn:Ec; [|done]. injection E as E.
  assert (Hc : a <= c <= zlen k) by lia.
  pose proof (f_equal zlen E) as El. rewrite !zlen_slice in El by lia.
  split; [lia|]. intros i Hi. pose proof (f_equal (fun s => s !z (i - a)) E) as Ei. cbn in Ei.
  rewrite !zget_slice in Ei by lia. by replace (a + (i - a)) with i in Ei by lia.
Qed.

(** ** Applying ranges *)
Definition apply_range (l : list Z) (r : UiUploadRange) : list Z :=
  list_inserts (Z.to_nat (ur_offset r)) (ur_bytes r) l.
Definition apply_ranges (l : list Z) (rs : list UiUploadRange) : list Z := foldl apply_range l rs.

Lemma apply_ranges_snoc l rs r : apply_ranges l (rs ++ [r]) = apply_range (apply_ranges l rs) r.
Proof. unfold apply_ranges. by rewrite foldl_app. Qed.

Lemma zlen_apply l r : zlen (apply_range l r) = zlen l.
Proof. unfold apply_range, zlen. by rewrite length_inserts. Qed.

Lemma zget_apply l a b cur i : 0 <= a <= b -> b <= zlen cur -> zlen l = zlen cur -> 0 <= i ->
  apply_range l {| ur_offset := a; ur_bytes := slice (Z.to_nat a) (Z.to_nat b) cur |} !z i =
  if (a <=? i) && (i <? b) then cur !z i else l !z i.
Proof.
  intros Ha Hb Hl Hi. unfold apply_range. cbn [ur_offset ur_bytes].
  pose proof (zlen_slice cur a b Ha Hb) as Hs. unfold zlen in Hs.
  destruct ((a <=? i) && (i <? b)) eqn:E.
  - rewrite zget_lookup by lia. rewrite list_lookup_inserts by (unfold zlen in *; lia).
    rewrite <- (zget_nat (slice _ _ _)). rewrite zget_slice by lia. f_equal. lia.
  - rewrite !zget_lookup by lia. destruct (Z.ltb_spec i a).
    + rewrite list_lookup_inserts_lt by lia. done.
    + rewrite list_lookup_inserts_ge by lia. done.
Qed.

(** [rs] are non-empty, in order, apart, and end at or before [e]. *)
Fixpoint ordered (from : Z) (rs : list UiUploadRange) (e : Z) : Prop :=
  match rs with
  | [] => from <= e
  | r :: rs => from <= ur_offset r /\ ur_bytes r <> [] /\ ordered (ur_offset r + zlen (ur_bytes r)) rs e
  end.

Lemma ordered_weaken rs : forall from e e', e <= e' -> ordered from rs e -> ordered from rs e'.
Proof. induction rs as [|r rs IH]; intros from e e' He; cbn; [lia|]. intros (H1 & H2 & H3). eauto. Qed.

Lemma ordered_snoc rs : forall from e r e', ordered from rs e -> e <= ur_offset r -> ur_bytes r <> [] ->
  ur_offset r + zlen (ur_bytes r) <= e' -> ordered from (rs ++ [r]) e'.
Proof.
  induction rs as [|s rs IH]; intros from e r e'; cbn.
  - intros H1 H2 H3 H4. split; [lia|]. by split.
  - intros (H1 & H2 & H3) H4 H5 H6. eauto.
Qed.

(** After the ranges, [base] agrees with [cur] below [c] and is untouched from
    [c] on. *)
Record patched (cur base : list Z) (rs : list UiUploadRange) (c : Z) : Prop := {
  pt_low : forall i, 0 <= i < Z.min c (zlen cur) -> apply_ranges base rs !z i = cur !z i;
  pt_high : forall i, c <= i < zlen cur -> apply_ranges base rs !z i = base !z i;
  pt_len : zlen (apply_ranges base rs) = zlen cur;
  pt_order : ordered 0 rs (Z.min c (zlen cur))
}.

Lemma patched_skip cur base rs c c' : 0 <= c <= c' -> patched cur base rs c ->
  (forall i, c <= i < Z.min c' (zlen cur) -> base !z i = cur !z i) -> patched cur base rs c'.
Proof.
  intros Hc [P1 P2 P3 P4] H. constructor; [| |done|].
  - intros i Hi. destruct (Z.ltb_spec i c); [apply P1; lia|]. rewrite P2 by lia. apply H. lia.
  - intros i Hi. apply P2. lia.
  - eapply ordered_weaken; [|exact P4]. lia.
Qed.

Lemma patched_range cur base rs c e : 0 <= c < e -> e <= zlen cur -> patched cur base rs c ->
  patched cur base (rs ++ [{| ur_offset := c; ur_bytes := slice (Z.to_nat c) (Z.to_nat e) cur |}]) e.
Proof.
  intros Hc He [P1 P2 P3 P4]. constructor; rewrite ?apply_ranges_snoc.
  - intros i Hi. rewrite (zget_apply _ c e cur i) by lia.
    destruct ((c <=? i) && (i <? e)) eqn:E; [done|]. apply P1. lia.
  - intros i Hi. rewrite (zget_apply _ c e cur i) by lia.
    rewrite (proj2 (andb_false_iff _ _)) by (right; lia). apply P2. lia.
  - by rewrite zlen_apply.
  - apply (ordered_snoc rs 0 (Z.min c (zlen cur))); [done|cbn; lia| |].
    + cbn. intros E. apply (f_equal zlen) in E. rewrite zlen_slice in E by lia.
      change (zlen []) with 0 in E. lia.
    + cbn. rewrite zlen_slice by lia. lia.
Qed.

(** [base] is the old stream at the new length. *)
Definition rebase (cur old : list Z) : list Z := resize (zlen cur) 0 old.

Lemma rebase_len cur old : zlen (rebase cur old) = zlen cur.
Proof. unfold rebase. apply zlen_resize, zlen_nonneg. Qed.

Lemma rebase_get cur old i : 0 <= i < zlen cur -> i < zlen old -> rebase cur old !z i = old !z i.
Proof.
  intros H1 H2. unfold rebase, resize. rewrite !zget_lookup by lia.
  apply lookup_resize; unfold zlen in *; lia.
Qed.

Lemma unchanged_same cur old start i : 0 <= start ->
  chunk_changed cur old start (start + 32) = false -> start <= i < Z.min (start + 32) (zlen cur) ->
  rebase cur old !z i = cur !z i.
Proof.
  intros H0 H Hi. unfold chunk_changed in H. apply orb_false_iff in H as [H1 H2].
  apply negb_false_iff, bool_decide_eq_true in H1.
  destruct (get_range_eq cur old _ _ _ H0 H1) as [E He]; [lia|lia|].
  rewrite rebase_get by lia. symmetry. apply He. lia.
Qed.

(** The state between two chunks: what is not yet settled starts at the pending
    range, or at the next chunk. *)
Definition settled (pending : option Z) (start : Z) : Z :=
  match pending with Some s => s | None => start end.

Lemma close_range_spec ok cur old start is_last pending ranges :
  let changed := chunk_changed cur old start (start + 32) in
  0 <= start -> (forall s, pending = Some s -> 0 <= s < start) ->
  (is_last = true -> zlen cur <= start + 32) ->
  patched cur (rebase cur old) ranges (settled pending start) ->
  match close_range ok cur start changed is_last pending ranges with
  | Ok (pending', ranges') =>
      patched cur (rebase cur old) ranges' (settled pending' (start + 32)) /\
      (forall s, pending' = Some s -> 0 <= s < start + 32) /\ (is_last = true -> pending' = None)
  | Err e => e = UiError.AllocationFailed /\ ok = false
  end.
Proof.
  intros changed H0 Hp Hlast P. unfold close_range.
  assert (Hs : 0 <= settled pending start <= start).
  { unfold settled. destruct pending as [s|]; [specialize (Hp s eq_refl)|]; lia. }
  destruct changed eqn:Ec; cbn [negb andb orb].
  - set (pending1 := match pending with None => Some start | _ => pending end).
    assert (Es : match pending1 with Some s => s | None => start end = settled pending start)
      by (by destruct pending).
    destruct is_last; cbn [andb orb].
    + rewrite Es. destruct (Z.ltb_spec (settled pending start) (zlen cur)).
      * destruct ok; [|done]. split; [|done]. cbn [settled].
        apply (patched_skip _ _ _ (zlen cur)); [lia| |intros; lia].
        apply patched_range; [lia|lia|done].
      * split; [|done]. cbn [settled]. apply (patched_skip _ _ _ (settled pending start)); [lia|done|intros; lia].
    + split; [|split; [|done]].
      * unfold settled in *. unfold pending1. by destruct pending.
      * intros s. unfold pending1. destruct pending as [s'|]; intros [= <-]; [|lia].
        specialize (Hp s' eq_refl). lia.
  - assert (Hsame : forall i, start <= i < Z.min (start + 32) (zlen cur) -> rebase cur old !z i = cur !z i).
    { intros i Hi. by apply (unchanged_same cur old start). }
    rewrite orb_false_r. destruct pending as [s|]; cbn [settled] in *.
    + rewrite bool_decide_true by eauto. specialize (Hp s eq_refl).
      destruct (Z.ltb_spec s (Z.min start (zlen cur))).
      * destruct ok; [|done]. split; [|done]. cbn [settled].
        apply (patched_skip _ _ _ (Z.min start (zlen cur))); [lia| |].
        -- apply patched_range; [lia|lia|done].
        -- intros i Hi. apply Hsame. lia.
      * split; [|done]. cbn [settled]. apply (patched_skip _ _ _ s); [lia|done|intros; lia].
    + rewrite bool_decide_false by (by intros [? ?]). split; [|done]. cbn [settled].
      apply (patched_skip _ _ _ start); [lia|done|done].
Qed.

Lemma dirty_loop_spec A cur old count : zlen cur <= 32 * count -> 32 * count + 32 <= U64_MAX ->
  forall n chunk pending ranges, 0 <= chunk -> chunk + Z.of_nat n = count ->
  (forall s, pending = Some s -> 0 <= s < 32 * chunk) -> (n = O -> pending = None) ->
  patched cur (rebase cur old) ranges (settled pending (32 * chunk)) ->
  match dirty_loop A cur old count n chunk pending ranges with
  | Ok rs => patched cur (rebase cur old) rs (32 * count)
  | Err e => e = UiError.AllocationFailed /\ exists k, A k = false
  end.
Proof.
  intros Hlen Hu. induction n as [|n IH]; intros chunk pending ranges Hc Hn Hp H0 P; cbn [dirty_loop].
  { rewrite H0 in P by done. cbn in P. by replace (32 * count) with (32 * chunk) by lia. }
  assert (E1 : checked_mul 64 chunk 32 = Some (32 * chunk)).
  { unfold checked_mul, umax, U64_MAX in *. rewrite (proj2 (Z.leb_le _ _)) by lia. f_equal. lia. }
  rewrite E1. cbn [ok_or result_bind].
  rewrite checked_add_ok by (unfold umax, U64_MAX in *; lia). cbn [ok_or result_bind].
  pose proof (close_range_spec (A n) cur old (32 * chunk) (chunk + 1 =? count) pending ranges
    ltac:(lia) Hp ltac:(lia) P) as H.
  destruct (close_range _ _ _ _ _ _ _) as [[pending' ranges']|e]; cbn [result_bind].
  - destruct H as (H1 & H2 & H3). apply IH; [lia|lia| | |].
    + intros s Hs. specialize (H2 s Hs). lia.
    + intros ->. apply H3. lia.
    + by replace (32 * (chunk + 1)) with (32 * chunk + 32) by lia.
  - destruct H as [-> H]. split; [done|]. by exists n.
Qed.

Lemma dirty_ranges_spec (A : alloc) (s : UiRenderSnapshot) (previous : option UiRenderSnapshot)
    (rs : list UiUploadRange)
    (Hsize : zlen (stream s) + 96 <= U64_MAX)
    (Hprev : forall p, previous = Some p -> zlen (stream p) + 96 <= U64_MAX)
    (Hrun : encode_dirty_ranges A s previous = Ok rs) :
  encode_bytes A s = Ok (stream s) /\
  match previous with
  | None => rs = [{| ur_offset := 0; ur_bytes := stream s |}]
  | Some p =>
      apply_ranges (rebase (stream s) (stream p)) rs = stream s /\
      ordered 0 rs (zlen (stream s))
  end.
Proof.
  revert Hrun. unfold encode_dirty_ranges. pose proof (encode_bytes_spec A s) as E.
  destruct (encode_bytes A s) as [cur|e]; cbn [result_bind]; [|done]. destruct E as [-> _].
  destruct previous as [p|]; [|by intros [= <-]].
  pose proof (encode_bytes_spec (shift 1 A) p) as E.
  destruct (encode_bytes (shift 1 A) p) as [old|e]; cbn [result_bind]; [|done]. destruct E as [-> _].
  specialize (Hprev p eq_refl). set (cur := stream s) in *. set (old := stream p) in *.
  set (count := (Z.max (zlen cur) (zlen old) + 31) / 32).
  assert (Hcount : Z.max (zlen cur) (zlen old) <= 32 * count <= Z.max (zlen cur) (zlen old) + 31).
  { unfold count. pose proof (Z.div_mod (Z.max (zlen cur) (zlen old) + 31) 32 ltac:(lia)).
    pose proof (Z.mod_pos_bound (Z.max (zlen cur) (zlen old) + 31) 32 ltac:(lia)). lia. }
  pose proof (zlen_nonneg cur). pose proof (zlen_nonneg old).
  destruct (A 2%nat); [|done]. intros Hrun.
  pose proof (dirty_loop_spec (shift 3 A) cur old count ltac:(lia) ltac:(lia) (Z.to_nat count) 0 None []) as P.
  rewrite Hrun in P. destruct P as [P1 P2 P3 P4]; try done; try lia.
  { constructor; cbn; try lia; try done. apply rebase_len. }
  split; [done|]. split.
  - apply zget_ext; [done|]. intros i Hi. apply P1. rewrite P3 in Hi. lia.
  - eapply ordered_weaken; [|exact P4]. lia.
Qed.

(** With enough memory the ranges are always produced. *)
Lemma encode_bytes_ok A s : A 0%nat = true -> zlen (stream s) <= U64_MAX -> encode_bytes A s = Ok (stream s).
Proof.
  intros HA Hs. pose proof (encode_bytes_spec A s) as H. rewrite stream_len in Hs.
  destruct (encode_bytes A s) as [b|[]]; try done; [by destruct H as [-> _]|congruence|lia].
Qed.

Lemma dirty_ranges_ok A s previous : (forall k, A k = true) -> zlen (stream s) + 96 <= U64_MAX ->
  (forall p, previous = Some p -> zlen (stream p) + 96 <= U64_MAX) ->
  exists rs, encode_dirty_ranges A s previous = Ok rs.
Proof.
  intros HA Hs Hp. unfold encode_dirty_ranges. rewrite encode_bytes_ok by (done || lia). cbn [result_bind].
  destruct previous as [p|]; [|eauto]. specialize (Hp p eq_refl).
  rewrite encode_bytes_ok by (apply HA || lia). cbn [result_bind]. rewrite HA.
  set (cur := stream s) in *. set (old := stream p) in *.
  set (count := (Z.max (zlen cur) (zlen old) + 31) / 32).
  assert (Hcount : Z.max (zlen cur) (zlen old) <= 32 * count <= Z.max (zlen cur) (zlen old) + 31).
  { unfold count. pose proof (Z.div_mod (Z.max (zlen cur) (zlen old) + 31) 32 ltac:(lia)).
    pose proof (Z.mod_pos_bound (Z.max (zlen cur) (zlen old) + 31) 32 ltac:(lia)). lia. }
  pose proof (zlen_nonneg cur). pose proof (zlen_nonneg old).
  pose proof (dirty_loop_spec (shift 3 A) cur old count ltac:(lia) ltac:(lia) (Z.to_nat count) 0 None []) as P.
  destruct (dirty_loop _ _ _ _ _ _ _ _) as [rs|e]; [eauto|].
  destruct P as [_ [k Hk]]; try done; try lia; [|by unfold shift in Hk; rewrite HA in Hk].
  constructor; cbn; try lia; try done. apply rebase_len.
Qed.

(** ** Properties *)

(** The stream: encoding fails only for lack of memory or when
    the size does not fit; otherwise the bytes are as many as the upload plan
    says (80 per item, 32 per glyph) and decode, record by record, to every
    encoded field of every item and glyph: rectangles, clip, colour and opacity
    as bit patterns, depth modulo [2^32], indices of texture and font (all ones
    for none), glyph range. *)
Theorem ui_encode_roundtrip (A : alloc) (s : UiRenderSnapshot)
    (Hitems : Forall item_typed (sn_items s)) (Hglyphs : Forall glyph_typed (sn_glyphs s)) :
  match encode_bytes A s with
  | Ok bytes =>
      zlen bytes = 80 * zlen (sn_items s) + 32 * zlen (sn_glyphs s) /\
      decode_stream (length (sn_items s)) (length (sn_glyphs s)) bytes =
        (map raw_item (sn_items s), map raw_glyph (sn_glyphs s))
  | Err e => (e = UiError.AllocationFailed /\ A 0%nat = false) \/
      (e = UiError.IndexOverflow /\ U64_MAX < 80 * zlen (sn_items s) + 32 * zlen (sn_glyphs s))
  end.
Proof.
  pose proof (encode_bytes_spec A s) as H. destruct (encode_bytes A s) as [bytes|e].
  - destruct H as [-> _]. split; [apply stream_len|]. unfold decode_stream, stream. f_equal.
    + apply decode_records_spec; [done|]. eapply Forall_impl; [|exact Hitems]. apply decode_item_record.
    + rewrite drop_app_ge.
      2: { pose proof (zlen_flat_map item_record 80 (sn_items s) item_record_len). unfold zlen in *. lia. }
      replace (80 * length (sn_items s) - length (flat_map item_record (sn_items s)))%nat with 0%nat.
      2: { pose proof (zlen_flat_map item_record 80 (sn_items s) item_record_len). unfold zlen in *. lia. }
      rewrite drop_0, <- (app_nil_r (flat_map _ _)).
      apply decode_records_spec; [done|]. eapply Forall_impl; [|exact Hglyphs]. apply decode_glyph_record.
  - destruct e; try done; [by left|by right].
Qed.

(** C39: Dirty ranges: with a previous frame of any size, applying
    the returned ranges to its stream, cut or zero-extended to the new length,
    gives exactly the current stream; the ranges are non-empty, in increasing
    order, do not overlap and end within the stream.  Without a previous frame
    the single range is the whole stream. *)
Theorem ui_dirty_ranges_exact (A : alloc) (s : UiRenderSnapshot) (previous : option UiRenderSnapshot)
    (rs : list UiUploadRange)
    (Hsize : zlen (stream s) + 96 <= U64_MAX)
    (Hprev : forall p, previous = Some p -> zlen (stream p) + 96 <= U64_MAX)
    (Hrun : encode_dirty_ranges A s previous = Ok rs) :
  encode_bytes A s = Ok (stream s) /\
  match previous with
  | None => rs = [{| ur_offset := 0; ur_bytes := stream s |}]
  | Some p =>
      apply_ranges (rebase (stream s) (stream p)) rs = stream s /\
      ordered 0 rs (zlen (stream s))
  end.
Proof. by apply (dirty_ranges_spec A). Qed.

(** ** Two frames *)
Definition demo_snapshot (x : Z) : UiRenderSnapshot :=
  match build alloc_all demo_list
          (match run_ops demo_paint_tree [(alloc_all, OpSetRect (demo_id 3) (demo_box x 40))] with
           | Some t => t | None => demo_paint_tree end)
          (demo_box 0 100) ui_diagnostics_default with
  | Some (p, _, _) =>
      match snapshot alloc_all p with
      | Ok s => s
      | Err _ => {| sn_items := []; sn_batches := []; sn_glyphs := [];
                    sn_upload := {| up_items := 0; up_batches := 0; up_glyphs := 0; up_bytes := 0 |} |}
      end
  | None => {| sn_items := []; sn_batches := []; sn_glyphs := [];
               sn_upload := {| up_items := 0; up_batches := 0; up_glyphs := 0; up_bytes := 0 |} |}
  end.

Definition is_ub (w z : Z) : bool := (0 <=? z) && (z <? 2 ^ w).
Definition item_typedb (i : UiRenderItem) : bool :=
  forallb (valid_binary 24 128)
    (i_opacity i :: rect_floats (i_rect i) ++ rect_floats (i_clip_rect i) ++ rgba_list (i_color i)) &&
  forallb (is_ub 32) [i_clip i; i_glyph_count i; i_glyph_offset i] &&
  match i_tex i with Some t => is_ub 32 (t_index t) | None => true end &&
  match i_font i with Some f => is_ub 32 (f_index f) | None => true end.
Definition glyph_typedb (g : Glyph) : bool :=
  is_ub 32 (codepoint g) && valid_binary 24 128 (g_advance g) &&
  forallb (is_ub 16) [atlas_x g; atlas_y g; g_width g; g_height g].

Lemma is_ub_spec w z : is_ub w z = true -> is_u w z.
Proof. unfold is_ub, is_u. lia. Qed.

Lemma forallb_Forall {X} (f : X -> bool) (P : X -> Prop) l : (forall x, f x = true -> P x) ->
  forallb f l = true -> Forall P l.
Proof.
  intros H. induction l as [|x l IH]; cbn; [constructor|]. intros [Hx Hl]%andb_true_iff. auto.
Qed.

Lemma item_typedb_ok i : item_typedb i = true -> item_typed i.
Proof.
  unfold item_typedb. rewrite !andb_true_iff. intros [[[H1 H2] H3] H4].
  apply (forallb_Forall _ valid_f32 _ (fun _ H => H)), list.Forall_cons in H1 as [H0 H1].
  constructor; [done|done|exact (forallb_Forall _ _ _ (is_ub_spec 32) H2)|].
  split; [intros t E; rewrite E in H3|intros t E; rewrite E in H4]; by apply is_ub_spec.
Qed.

Lemma glyph_typedb_ok g : glyph_typedb g = true -> glyph_typed g.
Proof.
  unfold glyph_typedb. rewrite !andb_true_iff. intros [[H1 H2] H3].
  split; [by apply is_ub_spec|]. split; [done|]. exact (forallb_Forall _ _ _ (is_ub_spec 16) H3).
Qed.

Lemma ui_encode_roundtrip_witness :
  zlen (sn_items (demo_snapshot 50)) = 3 /\
  match encode_bytes alloc_all (demo_snapshot 50) with
  | Ok bytes =>
      zlen bytes = 80 * zlen (sn_items (demo_snapshot 50)) + 32 * zlen (sn_glyphs (demo_snapshot 50)) /\
      decode_stream (length (sn_items (demo_snapshot 50))) (length (sn_glyphs (demo_snapshot 50))) bytes =
        (map raw_item (sn_items (demo_snapshot 50)), map raw_glyph (sn_glyphs (demo_snapshot 50)))
  | Err e => (e = UiError.AllocationFailed /\ alloc_all 0%nat = false) \/
      (e = UiError.IndexOverflow /\ U64_MAX < 80 * zlen (sn_items (demo_snapshot 50)) +
                                              32 * zlen (sn_glyphs (demo_snapshot 50)))
  end.
Proof.
  split; [vm_compute; reflexivity|].
  apply (ui_encode_roundtrip alloc_all (demo_snapshot 50)).
  - apply (forallb_Forall _ _ _ item_typedb_ok). vm_compute. reflexivity.
  - apply (forallb_Forall _ _ _ glyph_typedb_ok). vm_compute. reflexivity.
Defined.

Lemma ui_dirty_ranges_exact_witness :
  exists rs, encode_dirty_ranges alloc_all (demo_snapshot 60) (Some (demo_snapshot 50)) = Ok rs /\
  map ur_offset rs = [160] /\ map (fun r => zlen (ur_bytes r)) rs = [32] /\
  encode_bytes alloc_all (demo_snapshot 60) = Ok (stream (demo_snapshot 60)) /\
  apply_ranges (rebase (stream (demo_snapshot 60)) (stream (demo_snapshot 50))) rs =
    stream (demo_snapshot 60) /\
  ordered 0 rs (zlen (stream (demo_snapshot 60))).
Proof.
  destruct (encode_dirty_ranges alloc_all (demo_snapshot 60) (Some (demo_snapshot 50))) as [rs|e] eqn:E.
  2: { exfalso. vm_compute in E. discriminate. }
  exists rs. split; [reflexivity|]. split; [|split].
  - vm_compute in E. injection E as <-. reflexivity.
  - vm_compute in E. injection E as <-. reflexivity.
  - apply (ui_dirty_ranges_exact alloc_all (demo_snapshot 60) (Some (demo_snapshot 50)) rs).
    + vm_compute. discriminate.
    + assert (Hs : zlen (stream (demo_snapshot 50)) + 96 <= U64_MAX) by (vm_compute; discriminate).
      exact (fun p Hp => match Hp in _ = o return
               match o with Some q => zlen (stream q) + 96 <= U64_MAX | None => True end
             with eq_refl => Hs end).
    + exact E.
Defined.
