(* ===== verification/UiLayout.v ===== *)
(** The two-pass layout ([ui/layout.rs]): intrinsic sizes from the leaves, then
    rectangles from the root.  Theorem: on a well-formed tree the pass returns
    (no [clamp] panics and every loop ends), changes nothing but rectangles and
    dirty flags, and on success every node has a sane rectangle and is clean. *)

From S2P Require Import Prelude F32 UiComponents UiTree UiTreeInv UiCommands UiPaint.

Local Open Scope Z_scope.
Local Open Scope kit_scope.

Record LayoutStats := { ls_visited : Z; ls_dirty : Z; ls_iterations : Z }.
Definition layout_stats_default : LayoutStats :=
  {| ls_visited := 0; ls_dirty := 0; ls_iterations := 0 |}.

Record UiLayoutEngine := {
  le_config : UiConfig;
  le_order : list UiNodeId;
  le_intrinsic : list (UiNodeId * UiRect)
}.

Definition layout_try_new (A : alloc) (c : UiConfig) : result UiError UiLayoutEngine :=
  if A 0%nat && A 1%nat then Ok {| le_config := c; le_order := []; le_intrinsic := [] |}
  else Err UiError.AllocationFailed.

(** ** Measuring *)
Definition f32_of_len {X} (l : list X) : f32 := f32_of_Z (zlen l).

(** [iter().find(|(id, _)| *id == node).map(..).unwrap_or(zero)]. *)
Definition intrinsic_of (l : list (UiNodeId * UiRect)) (n : UiNodeId) : UiRect :=
  match find (fun q => bool_decide (q.1 = n)) l with Some q => q.2 | None => rect_zero end.

Definition text_size (c : UiConfig) (t : option UiText) : f32 * f32 :=
  match t with
  | Some s =>
      let glyphs := Z.min (zlen (text_value s)) (max_glyphs c) in
      (fmin (fmul (f32_of_Z glyphs) (f32_of_Z 8)) (f32_of_Z (max_upload_bytes c)),
       if glyphs =? 0 then f32_zero else f32_of_Z 16)
  | None => (f32_zero, f32_zero)
  end.

Definition add_child (d : UiDirection) (size : f32 * f32) (r : UiRect) : f32 * f32 :=
  match d with
  | UiDirection.Row => (fadd size.1 (r_width r), fmax size.2 (r_height r))
  | UiDirection.Column => (fmax size.1 (r_width r), fadd size.2 (r_height r))
  end.

Definition children_size (s : UiStyle) (intrinsic : list (UiNodeId * UiRect)) (cs : list UiNodeId)
  : f32 * f32 :=
  let size := foldl (fun size c => add_child (direction s) size (intrinsic_of intrinsic c))
                (f32_zero, f32_zero) cs in
  let gaps := fmul (gap s) (f32_of_Z (saturating_sub (zlen cs) 1)) in
  match direction s with
  | UiDirection.Row => (fadd size.1 gaps, size.2)
  | UiDirection.Column => (size.1, fadd size.2 gaps)
  end.

Definition measure_node (c : UiConfig) (t : UiTree) (intrinsic : list (UiNodeId * UiRect)) (n : UiNodeId)
  : result UiError (list (UiNodeId * UiRect)) :=
  let? k := content t n in
  let? cs := children t n in
  let size := text_size c (text k) in
  let size :=
    match cs with
    | [] => size
    | _ => let '(cw, ch) := children_size (style k) intrinsic cs in (fmax size.1 cw, fmax size.2 ch)
    end in
  let width := fadd size.1 (edges_horizontal (padding (style k))) in
  let height := fadd size.2 (edges_vertical (padding (style k))) in
  if negb (is_finite width) || negb (is_finite height) then Err UiError.IndexOverflow
  else Ok (intrinsic ++
    [(n, {| r_x := f32_zero; r_y := f32_zero;
            r_width := fmin width (max_width (style k)); r_height := fmin height (max_height (style k)) |})]).

Fixpoint measure_loop (c : UiConfig) (t : UiTree) (ns : list UiNodeId)
    (intrinsic : list (UiNodeId * UiRect)) : list (UiNodeId * UiRect) * result UiError unit :=
  match ns with
  | [] => (intrinsic, Ok tt)
  | n :: ns =>
      match measure_node c t intrinsic n with
      | Ok intrinsic => measure_loop c t ns intrinsic
      | Err e => (intrinsic, Err e)
      end
  end.

Definition measure (e : UiLayoutEngine) (t : UiTree) : UiLayoutEngine * result UiError unit :=
  let '(i, r) := measure_loop (le_config e) t (rev (le_order e)) [] in
  ({| le_config := le_config e; le_order := le_order e; le_intrinsic := i |}, r).

(** ** One node *)
Definition inner_rect (r : UiRect) (s : UiStyle) : UiRect := {|
  r_x := fadd (r_x r) (e_left (padding s));
  r_y := fadd (r_y r) (e_top (padding s));
  r_width := fmax (fsub (r_width r) (edges_horizontal (padding s))) f32_zero;
  r_height := fmax (fsub (r_height r) (edges_vertical (padding s))) f32_zero |}.

(** The share of the main axis of a child without a size of its own. *)
Definition auto_main (inner : UiRect) (s : UiStyle) (siblings : list UiNodeId) : f32 :=
  let count := f32_of_Z (Z.max (zlen siblings) 1) in
  let gap_total := fmul (gap s) (fmax (fsub count f32_one) f32_zero) in
  let available :=
    match direction s with
    | UiDirection.Row => fmax (fsub (r_width inner) gap_total) f32_zero
    | UiDirection.Column => fmax (fsub (r_height inner) gap_total) f32_zero
    end in
  fdiv available count.

Definition resolve_or (l : UiLength) (available intrinsic default : f32) : f32 :=
  match length_resolve l available with
  | Some v => v
  | None => if fgt intrinsic f32_zero then intrinsic else default
  end.

(** The three clamps of one axis: own limits cut to the inner size, then the
    inner size itself; [None] is a panic of [clamp]. *)
Definition clamp_axis (v min_ max_ available : f32) : option f32 :=
  let lo := fmax (fmin min_ available) f32_zero in
  let hi := fmin max_ available in
  v ← fclamp v lo (fmax hi lo);
  fclamp v f32_zero available.

(** Width and height of the child before margins. *)
Definition child_size (inner : UiRect) (ps cs : UiStyle) (intrinsic : UiRect)
    (siblings : list UiNodeId) : option (f32 * f32) :=
  let auto := auto_main inner ps siblings in
  let w := match direction ps with
           | UiDirection.Row => resolve_or (s_width cs) (r_width inner) (r_width intrinsic) auto
           | UiDirection.Column =>
               resolve_or (s_width cs) (r_width inner) (r_width intrinsic) (r_width inner)
           end in
  let h := match direction ps with
           | UiDirection.Row =>
               resolve_or (s_height cs) (r_height inner) (r_height intrinsic) (r_height inner)
           | UiDirection.Column => resolve_or (s_height cs) (r_height inner) (r_height intrinsic) auto
           end in
  w ← clamp_axis w (min_width cs) (max_width cs) (r_width inner);
  h ← clamp_axis h (min_height cs) (max_height cs) (r_height inner);
  Some (w, h).

(** [try_fold] over the earlier siblings. *)
Fixpoint main_offset (t : UiTree) (s : UiStyle) (earlier : list UiNodeId) (sum : f32) : option f32 :=
  match earlier with
  | [] => Some sum
  | c :: earlier =>
      match rect t c with
      | Ok r =>
          let size := match direction s with UiDirection.Row => r_width r | _ => r_height r end in
          main_offset t s earlier (fadd (fadd sum size) (gap s))
      | Err _ => None
      end
  end.

(** Margins, alignment and scrolling of a child in flow. *)
Definition flow_rect (inner r : UiRect) (ps : UiStyle) (m : UiEdges) : UiRect :=
  let x := fadd (r_x r) (e_left m) in
  let y := fadd (r_y r) (e_top m) in
  let w := fmax (fsub (r_width r) (edges_horizontal m)) f32_zero in
  let h := fmax (fsub (r_height r) (edges_vertical m)) f32_zero in
  let cross_available := match direction ps with
                         | UiDirection.Row => r_height inner | UiDirection.Column => r_width inner end in
  let cross_size := match direction ps with UiDirection.Row => h | UiDirection.Column => w end in
  let cross_offset :=
    match align ps with
    | UiAlign.Start | UiAlign.Stretch => f32_zero
    | UiAlign.Center =>
        fmul (fmax (fsub cross_available cross_size) f32_zero) (fdiv f32_one (f32_of_Z 2))
    | UiAlign.End_ => fmax (fsub cross_available cross_size) f32_zero
    end in
  let y := match direction ps with UiDirection.Row => fadd y cross_offset | _ => y end in
  let x := match direction ps with UiDirection.Column => fadd x cross_offset | _ => x end in
  let h := match align ps, direction ps with
           | UiAlign.Stretch, UiDirection.Row =>
               fmax (fsub cross_available (edges_vertical m)) f32_zero
           | _, _ => h end in
  let w := match align ps, direction ps with
           | UiAlign.Stretch, UiDirection.Column =>
               fmax (fsub cross_available (edges_horizontal m)) f32_zero
           | _, _ => w end in
  match overflow ps with
  | UiOverflow.Scroll =>
      {| r_x := fsub x (scroll_x ps); r_y := fsub y (scroll_y ps); r_width := w; r_height := h |}
  | _ => {| r_x := x; r_y := y; r_width := w; r_height := h |}
  end.

Definition placed_rect (inner : UiRect) (ps cs : UiStyle) (offset w h : f32) : UiRect :=
  let r := match direction ps with
           | UiDirection.Row =>
               {| r_x := fadd (r_x inner) offset; r_y := r_y inner; r_width := w; r_height := h |}
           | UiDirection.Column =>
               {| r_x := r_x inner; r_y := fadd (r_y inner) offset; r_width := w; r_height := h |}
           end in
  match position cs with
  | UiPosition.Absolute l t =>
      {| r_x := fadd (fadd (r_x inner) l) (e_left (margin cs));
         r_y := fadd (fadd (r_y inner) t) (e_top (margin cs));
         r_width := r_width r; r_height := r_height r |}
  | UiPosition.Flow => flow_rect inner r ps (margin cs)
  end.

(** The rectangle of [n] from its parent's rectangle and the two styles. *)
Definition sized_rect (t : UiTree) (intrinsic : list (UiNodeId * UiRect)) (n : UiNodeId)
    (pr : UiRect) (ps cs : UiStyle) (siblings : list UiNodeId) (index : Z)
  : option (result UiError UiRect) :=
  let inner := inner_rect pr ps in
  match child_size inner ps cs (intrinsic_of intrinsic n) siblings with
  | None => None
  | Some (w, h) =>
      Some (let? offset := ok_or UiError.IndexOverflow
              (main_offset t ps (take (Z.to_nat index) siblings) f32_zero) in
            Ok (placed_rect inner ps cs offset w h))
  end.

(** The rectangle computed for [n]; [None] is a panic. *)
Definition node_rect (t : UiTree) (intrinsic : list (UiNodeId * UiRect)) (n : UiNodeId)
  : option (result UiError UiRect) :=
  match parent t n with
  | Err e => Some (Err e)
  | Ok None => Some (Err UiError.InvalidParent)
  | Ok (Some p) =>
      match rect t p, children t p with
      | Ok pr, Ok siblings =>
          match vec_position (fun c => bool_decide (c = n)) siblings with
          | None => Some (Err UiError.InvalidNode)
          | Some index =>
              match content t n with
              | Err e => Some (Err e)
              | Ok c =>
                  if negb (content_sane c) then Some (Err UiError.InvalidValue)
                  else
                    match content t p with
                    | Err e => Some (Err e)
                    | Ok pc => sized_rect t intrinsic n pr (style pc) (style c) siblings index
                    end
              end
          end
      | Err e, _ => Some (Err e)
      | _, Err e => Some (Err e)
      end
  end.

Definition visit (s : LayoutStats) (was_dirty : bool) : LayoutStats := {|
  ls_visited := saturating_add 64 (ls_visited s) 1;
  ls_dirty := if was_dirty then saturating_add 64 (ls_dirty s) 1 else ls_dirty s;
  ls_iterations := ls_iterations s |}.

Fixpoint place_nodes (t : UiTree) (intrinsic : list (UiNodeId * UiRect)) (ns : list UiNodeId)
    (s : LayoutStats) : option (UiTree * result UiError LayoutStats) :=
  match ns with
  | [] => Some (t, Ok s)
  | n :: ns =>
      match node_rect t intrinsic n with
      | None => None
      | Some (Err e) => Some (t, Err e)
      | Some (Ok r) =>
          match is_dirty t n with
          | Err e => Some (t, Err e)
          | Ok was_dirty =>
              match set_rect t n r with
              | (t, Err e) => Some (t, Err e)
              | (t, Ok _) => place_nodes t intrinsic ns (visit s was_dirty)
              end
          end
      end
  end.

(** ** The pass *)
Definition laid_out (d : UiDiagnostics) (s : LayoutStats) : UiDiagnostics := {|
  dirty_nodes := ls_dirty s; layout_passes := saturating_add 64 (layout_passes d) 1;
  d_paint_items := d_paint_items d; d_batches := d_batches d; d_glyphs := d_glyphs d;
  d_uploaded_bytes := d_uploaded_bytes d; clipped_items := clipped_items d;
  overflow_fallbacks := overflow_fallbacks d |}.

(** From the measured engine on. *)
Definition place (e : UiLayoutEngine) (t : UiTree) (viewport : UiRect) (d : UiDiagnostics)
  : option (UiLayoutEngine * UiTree * UiDiagnostics * result UiError LayoutStats) :=
  match set_rect t (root t) viewport with
  | (t, Err x) => Some (e, t, d, Err x)
  | (t, Ok _) =>
      match place_nodes t (le_intrinsic e) (tail (le_order e))
              {| ls_visited := 0; ls_dirty := 0; ls_iterations := 1 |} with
      | None => None
      | Some (t, Err x) => Some (e, t, d, Err x)
      | Some (t, Ok s) =>
          if max_layout_iterations (le_config e) <? ls_iterations s
          then Some (e, t, d, Err UiError.LayoutDidNotConverge)
          else Some (e, t, laid_out d s, Ok s)
      end
  end.

Definition layout (A : alloc) (e : UiLayoutEngine) (t : UiTree) (viewport : UiRect)
    (d : UiDiagnostics)
  : option (UiLayoutEngine * UiTree * UiDiagnostics * result UiError LayoutStats) :=
  if negb (rect_sane viewport) then Some (e, t, d, Err UiError.InvalidValue)
  else if negb (is_finite (dpi_scale (le_config e))) || fle (dpi_scale (le_config e)) f32_zero
  then Some (e, t, d, Err UiError.InvalidValue)
  else
    match preorder A t with
    | None => None
    | Some (order, Err x) =>
        Some ({| le_config := le_config e; le_order := order; le_intrinsic := le_intrinsic e |},
              t, d, Err x)
    | Some (order, Ok _) =>
        match measure {| le_config := le_config e; le_order := order;
                         le_intrinsic := le_intrinsic e |} t with
        | (e, Err x) => Some (e, t, d, Err x)
        | (e, Ok _) => place e t viewport d
        end
    end.

(** ** No clamp panics *)
Lemma zero_not_nan : is_nan f32_zero = false.
Proof. reflexivity. Qed.

Lemma clamp_axis_total v lo hi x : is_Some (clamp_axis v lo hi (fmax x f32_zero)).
Proof.
  unfold clamp_axis. set (a := fmax x f32_zero).
  assert (Ha : fle f32_zero a = true) by (apply fmax_ge_r, zero_not_nan).
  destruct (fclamp_some v (fmax (fmin lo a) f32_zero) (fmax (fmin hi a) (fmax (fmin lo a) f32_zero))) as [w ->].
  { apply fmax_ge_r, fmax_nan, zero_not_nan. }
  cbn [mbind option_bind]. by apply fclamp_some.
Qed.

Lemma child_size_total pr ps cs intrinsic siblings :
  is_Some (child_size (inner_rect pr ps) ps cs intrinsic siblings).
Proof.
  unfold child_size. cbn [inner_rect r_width r_height].
  match goal with |- context [clamp_axis ?v ?a ?b (fmax ?x f32_zero)] =>
    destruct (clamp_axis_total v a b x) as [w ->] end.
  cbn [mbind option_bind].
  match goal with |- context [clamp_axis ?v ?a ?b (fmax ?x f32_zero)] =>
    destruct (clamp_axis_total v a b x) as [h ->] end.
  cbn [mbind option_bind]. eauto.
Qed.

Lemma node_rect_total t intrinsic n : is_Some (node_rect t intrinsic n).
Proof.
  unfold node_rect. destruct (parent t n) as [[p|]|]; [|eauto|eauto].
  destruct (rect t p) as [pr|], (children t p) as [siblings|]; eauto.
  destruct (vec_position _ _) as [i|]; [|eauto]. destruct (content t n) as [c|]; [|eauto].
  destruct (negb (content_sane c)); [eauto|]. destruct (content t p) as [pc|]; [|eauto].
  unfold sized_rect. destruct (child_size_total pr (style pc) (style c) (intrinsic_of intrinsic n) siblings)
    as [[w h] ->]. eauto.
Qed.

(** ** Placement *)
Definition placed (t : UiTree) (x : UiNodeId) : Prop :=
  exists n, find_node t x = Some n /\ rect_sane (nd_rect n) = true /\ nd_dirty n = false.

Lemma set_rect_placed t x r t' u : set_rect t x r = (t', Ok u) ->
  same_shape t t' /\ placed t' x /\ (forall y, placed t y -> placed t' y) /\
  (forall y, content t' y = content t y).
Proof.
  intros E. destruct (set_rect_spec t x r) as (t1 & res & E' & Sh & H). rewrite E in E'.
  injection E' as <- <-. destruct H as (Hr & n & Hn & H). split; [done|]. split; [|split].
  - exists (nd_with_rect n r false). rewrite H, decide_True by done. done.
  - intros y (m & Hm & H1 & H2). destruct (decide (y = x)) as [->|Hne].
    + exists (nd_with_rect n r false). rewrite H, decide_True by done. done.
    + exists m. rewrite H, decide_False by done. done.
  - intros y. unfold content, node. rewrite H. destruct (decide (y = x)) as [->|]; [|done].
    by rewrite Hn.
Qed.

Lemma set_rect_other t x r t' u y : set_rect t x r = (t', Ok u) -> y <> x -> rect t' y = rect t y.
Proof.
  intros E Hne. destruct (set_rect_spec t x r) as (t1 & res & E' & _ & H). rewrite E in E'.
  injection E' as <- <-. destruct H as (_ & n & _ & H). unfold rect, node. by rewrite H, decide_False.
Qed.

Lemma set_rect_same t x r t' u : set_rect t x r = (t', Ok u) -> rect t' x = Ok r.
Proof.
  intros E. destruct (set_rect_spec t x r) as (t1 & res & E' & _ & H). rewrite E in E'.
  injection E' as <- <-. destruct H as (_ & n & _ & H). unfold rect, node. by rewrite H, decide_True.
Qed.

Lemma place_nodes_spec intrinsic : forall ns t s, ls_visited s + zlen ns <= umax 64 -> exists t' r,
  place_nodes t intrinsic ns s = Some (t', r) /\ same_shape t t' /\
  (forall y, content t' y = content t y) /\ (forall y, placed t y -> placed t' y) /\
  (forall y, y ∉ ns -> rect t' y = rect t y) /\
  match r with
  | Ok s' => (forall y, y ∈ ns -> placed t' y) /\ ls_visited s' = ls_visited s + zlen ns /\
      ls_iterations s' = ls_iterations s
  | Err _ => True
  end.
Proof.
  induction ns as [|n ns IH]; intros t s Hs; cbn [place_nodes].
  { eexists _, _. split; [done|]. split; [reflexivity|]. do 2 (split; [done|]).
    split; [done|]. split; [by intros y ?%elem_of_nil|]. rewrite zlen_nil. split; [lia|done]. }
  rewrite zlen_cons in *. pose proof (zlen_nonneg ns).
  destruct (node_rect_total t intrinsic n) as [[r|e] ->].
  2: { eexists _, _. split; [done|]. split; [reflexivity|]. done. }
  destruct (is_dirty t n) as [was|e].
  2: { eexists _, _. split; [done|]. split; [reflexivity|]. done. }
  destruct (set_rect t n r) as [t1 [u|e]] eqn:E.
  - destruct (set_rect_placed _ _ _ _ _ E) as (Sh & Hp & Hm & Hc).
    assert (Hv : ls_visited (visit s was) = ls_visited s + 1).
    { cbn. unfold saturating_add. lia. }
    destruct (IH t1 (visit s was)) as (t' & r' & -> & Sh' & Hc' & Hm' & Hr' & H'); [lia|].
    exists t', r'. split; [done|]. split; [by etransitivity|]. split; [intros y; by rewrite Hc'|].
    split; [auto|]. split.
    { intros y [Hne Hy]%not_elem_of_cons. rewrite Hr' by done. by eapply set_rect_other. }
    destruct r' as [s'|]; [|done]. destruct H' as (H1 & H2 & H3).
    split; [|split; [lia|done]]. intros y [->|Hy]%elem_of_cons; auto.
  - destruct (set_rect_spec t n r) as (t2 & res & E2 & Sh & H2). rewrite E in E2. injection E2 as <- <-.
    destruct H2 as [-> _]. eexists _, _. split; [done|]. split; [reflexivity|]. done.
Qed.

Lemma occupied_le_len ids : occupied ids <= zlen ids.
Proof. unfold occupied, zlen. induction ids as [|[x|] ids IH]; cbn in *; lia. Qed.

Lemma shape_view t t' : tree_ok t -> same_shape t t' -> forall x,
  contains t' x = contains t x /\ parent t' x = parent t x /\ children t' x = children t x.
Proof.
  intros HO Sh x. pose proof (same_shape_ok _ _ Sh HO) as HO'. pose proof (sh_link _ _ Sh x) as HL.
  split; [|unfold link in HL; unfold parent, children, node].
  - apply eq_true_iff_eq. unfold contains. rewrite (valid_live t' x HO'), (valid_live t x HO). by rewrite HL.
  - destruct (find_node t x), (find_node t' x); cbn in *; try done. injection HL as -> ->. done.
Qed.

Lemma all_clean t : tree_ok t -> (forall x, contains t x = true -> placed t x) -> dirty_count t = 0.
Proof.
  intros HO H. unfold dirty_count.
  assert (E : List.filter nd_dirty (omap id (slots t)) = []); [|by rewrite E].
  destruct (List.filter nd_dirty (omap id (slots t))) as [|n l] eqn:E; [done|exfalso].
  assert (Hn : In n (List.filter nd_dirty (omap id (slots t)))) by (rewrite E; by left).
  apply filter_In in Hn as [Hn Hd]. apply list_elem_of_In, list_elem_of_omap in Hn as (o & Ho & Eo).
  cbn in Eo. subst o. apply list_elem_of_lookup in Ho as [i Hi]. rewrite <- zget_nat in Hi.
  destruct (so_ids _ _ _ _ (ok_slots _ HO) (Z.of_nat i) (nd_id n)) as [Hx _].
  { by rewrite slot_ids_get, Hi. }
  assert (Hf : find_node t (nd_id n) = Some n) by (apply find_node_Some; by rewrite Hx).
  destruct (H (nd_id n)) as (m & Hm & _ & Hm'); [apply contains_true; eauto|]. congruence.
Qed.

Lemma measure_config e t : le_config (measure e t).1 = le_config e /\ le_order (measure e t).1 = le_order e.
Proof. unfold measure. by destruct (measure_loop _ _ _ _). Qed.

(** The nodes the layout visits: all live ones, the root first. *)
Lemma layout_nodes t : tree_ok t -> exists ns,
  subtree t (root t) = root t :: ns /\ ns = kids t (root t) ≫= subtree t /\ NoDup (root t :: ns) /\
  (zlen ns + 1 = count t /\ count t <= 2 ^ 32) /\ forall x, contains t x = true -> x ∈ root t :: ns.
Proof.
  intros HO. pose proof (ok_links _ HO) as L. pose proof (root_live _ HO) as HR. exists (kids t (root t) ≫= subtree t).
  pose proof (subtree_unfold t (root t) HO HR) as Hu. split; [done|]. split; [done|]. rewrite <- Hu.
  assert (NoDup (subtree t (root t))) as Hnd by apply (order_nodup t L), (walk_enough t L), HR.
  split; [done|]. split; [split|].
  - assert (zlen (subtree t (root t)) = count t) as Hc; [|rewrite Hu, zlen_cons in Hc; lia].
    apply live_count; [done|done|]. intros x. by rewrite (subtree_elem _ _ _ HO HR), below_root.
  - rewrite (so_count _ _ _ _ (ok_slots _ HO)). etransitivity; [|apply (so_max _ _ _ _ (ok_slots _ HO))]. apply occupied_le_len.
  - intros x Hx. apply subtree_elem; [done|done|]. apply below_root; [done|]. by apply valid_live.
Qed.

Lemma layout_spec (A : alloc) (e : UiLayoutEngine) (t : UiTree) (v : UiRect)
    (d : UiDiagnostics) (Hok : tree_ok t) :
  exists e' t' d' r, layout A e t v d = Some (e', t', d', r) /\ tree_ok t' /\ same_shape t t' /\
    (forall x, contains t' x = contains t x /\ parent t' x = parent t x /\
               children t' x = children t x /\ content t' x = content t x) /\
    match r with
    | Err _ => True
    | Ok s => rect t' (root t') = Ok v /\
        (forall x, contains t' x = true -> placed t' x) /\
        dirty_count t' = 0 /\
        ls_visited s = count t - 1 /\ ls_iterations s = 1 /\ dirty_nodes d' = ls_dirty s
    end.
Proof.
  assert (K : forall (e1 : UiLayoutEngine) (x : UiError), exists e' t' d' r,
    Some (e1, t, d, Err (A := LayoutStats) x) = Some (e', t', d', r) /\ tree_ok t' /\ same_shape t t' /\
    (forall x, contains t' x = contains t x /\ parent t' x = parent t x /\
               children t' x = children t x /\ content t' x = content t x) /\
    match r with
    | Err _ => True
    | Ok s => rect t' (root t') = Ok v /\ (forall x, contains t' x = true -> placed t' x) /\
        dirty_count t' = 0 /\ ls_visited s = count t - 1 /\ ls_iterations s = 1 /\
        dirty_nodes d' = ls_dirty s
    end) by (intros e1 x; by exists e1, t, d, (Err x)).
  unfold layout. destruct (rect_sane v) eqn:Ev; cbn [negb]; [|apply K].
  destruct (negb _ || _); [apply K|]. unfold preorder. destruct (A 0%nat); [|apply K].
  pose proof (ok_links _ Hok) as L. pose proof (root_live _ Hok) as HR.
  rewrite (collect_spec t L _ _ [] (walk_enough t L _ HR)). cbn [app]. fold (subtree t (root t)).
  set (e1 := {| le_config := _ |}). pose proof (measure_config e1 t) as [_ Ho].
  destruct (measure e1 t) as [e2 [u|x]]; [|apply K]. cbn [fst] in Ho. unfold place.
  destruct (set_rect t (root t) v) as [t1 [u1|x]] eqn:E1.
  2: { destruct (set_rect_spec t (root t) v) as (t2 & res & E2 & _ & H2). rewrite E1 in E2.
       injection E2 as <- <-. destruct H2 as [-> _]. apply K. }
  destruct (set_rect_placed _ _ _ _ _ E1) as (Sh1 & Hp1 & _ & Hc1).
  destruct (layout_nodes t Hok) as (ns & Hns & _ & Hnd & [Hcount Hmax] & Hlive).
  rewrite Ho. cbn [e1 le_order]. rewrite Hns. cbn [tail].
  destruct (place_nodes_spec (le_intrinsic e2) ns t1
    {| ls_visited := 0; ls_dirty := 0; ls_iterations := 1 |}) as (t' & r & -> & Sh2 & Hc2 & Hm2 & Hr2 & H2).
  { cbn. unfold umax. lia. }
  assert (Sh : same_shape t t') by (by etransitivity).
  pose proof (same_shape_ok _ _ Sh Hok) as HO'.
  assert (View : forall x, contains t' x = contains t x /\ parent t' x = parent t x /\
               children t' x = children t x /\ content t' x = content t x).
  { intros x. destruct (shape_view t t' Hok Sh x) as (? & ? & ?). repeat split; try done. by rewrite Hc2, Hc1. }
  destruct r as [s|x]; [|by eexists _, t', _, _]. destruct H2 as (H2 & H3 & H4).
  cbn in H3, H4. rewrite H4.
  destruct (Z.ltb_spec (max_layout_iterations (le_config e2)) 1); [by eexists _, t', _, _|].
  assert (Hall : forall x, contains t' x = true -> placed t' x).
  { intros x Hx. destruct (View x) as [Ex _]. rewrite Ex in Hx. apply Hlive, elem_of_cons in Hx as [->|Hin]; [by apply Hm2|by apply H2]. }
  eexists _, t', _, _. split; [done|]. do 3 (split; [done|]). cbn [laid_out dirty_nodes].
  split; [|split; [done|split; [by apply all_clean|split; [lia|done]]]].
  rewrite (sh_root _ _ Sh), Hr2 by (by apply list.NoDup_cons in Hnd as [? _]).
  by apply set_rect_same in E1.
Qed.


(** ** Property *)

(** C40: Laying out a well-formed tree returns: no [clamp] is
    called with bounds out of order or NaN, whatever the style values, and the
    walks end.  The links, handles and contents of the tree are unchanged.  On
    success the root has the viewport, every live node has a sane rectangle and
    is clean, each node but the root was visited once and the pass took one
    iteration. *)
Theorem ui_layout_total (A : alloc) (e : UiLayoutEngine) (t : UiTree) (v : UiRect)
    (d : UiDiagnostics) (Hok : tree_ok t) :
  exists e' t' d' r, layout A e t v d = Some (e', t', d', r) /\ tree_ok t' /\
    (forall x, contains t' x = contains t x /\ parent t' x = parent t x /\
               children t' x = children t x /\ content t' x = content t x) /\
    match r with
    | Err _ => True
    | Ok s => rect t' (root t') = Ok v /\
        (forall x, contains t' x = true -> placed t' x) /\
        dirty_count t' = 0 /\
        ls_visited s = count t - 1 /\ ls_iterations s = 1 /\ dirty_nodes d' = ls_dirty s
    end.
Proof.
  destruct (layout_spec A e t v d Hok) as (e' & t' & d' & r & E & HO & _ & H). by exists e', t', d', r.
Qed.

(** ** A laid out tree *)
Definition demo_engine : UiLayoutEngine :=
  {| le_config := demo_config; le_order := []; le_intrinsic := [] |}.

(** Node 3, a text of three glyphs, gets its 24 by 16 points below the panel. *)
Example demo_layout :
  match layout alloc_all demo_engine demo_paint_tree (demo_box 0 100) ui_diagnostics_default with
  | Some (_, t, _, Ok s) => ls_visited s = 3 /\
      rect t demo_r = Ok (demo_box 0 100) /\
      match rect t (demo_id 3) with
      | Ok r => fle (r_x r) f32_zero = true /\ fle (r_height r) (f32_of_Z 100) = true
      | Err _ => False
      end
  | _ => False
  end.
Proof. vm_compute. repeat split. Qed.

Lemma ui_layout_total_witness :
  exists e' t' d' r, layout alloc_all demo_engine demo_paint_tree (demo_box 0 100)
      ui_diagnostics_default = Some (e', t', d', r) /\ tree_ok t' /\
    match r with
    | Err _ => True
    | Ok s => rect t' (root t') = Ok (demo_box 0 100) /\ dirty_count t' = 0
    end.
Proof.
  destruct (ui_layout_total alloc_all demo_engine demo_paint_tree (demo_box 0 100)
    ui_diagnostics_default (demo_run_ok _)) as (e' & t' & d' & r & E & HO & _ & H).
  exists e', t', d', r. split; [exact E|]. split; [exact HO|]. destruct r as [s|x]; [|exact I].
  destruct H as (H1 & _ & H2 & _). split; [exact H1|exact H2].
Defined.
