(* ===== verification/Messages.v ===== *)
(** What subsystem drivers exchange ([subsystems/messages.rs]) and the loop
    [for envelope in ctx.receive()] they all start with.

    [Payload T P] is the interface between a driver and the bus payloads: [P] is
    [Box<dyn Any + Send>], [into] boxes a [T] and [downcast] is [downcast::<T>].
    Drivers are verified against the interface; a concrete [P] is a sum of the
    message types. *)

From stdpp Require Import strings.
From S2P Require Import Prelude Arena Ring Bus World Deferred Scheduler Kernel.

Local Open Scope Z_scope.

Class Payload (T P : Type) := {
  into : T -> P;
  downcast : P -> option T;
  downcast_into v : downcast (into v) = Some v
}.

Record WindowResized := { wr_width : Z; wr_height : Z }.

Record UiAssetReady := { ar_kind : Z; ar_index : Z; ar_generation : Z; ar_state : Z }.

Module InputEvent.
Inductive InputEvent :=
| Key (key : Z) (pressed : bool)
| MouseButton (button : Z) (pressed : bool)
| MouseMoved (x y : Z)
| TextByte (byte : Z).
End InputEvent.
Abbreviation InputEvent := InputEvent.InputEvent.

Record InputEventMessage := { iem_event : InputEvent }.

(** The three key arrays have 32 entries and the text array 64; the counts say
    how many are meaningful. *)
Record InputFrame := {
  if_mouse_x : Z; if_mouse_y : Z;
  if_mouse_buttons : Z; if_pressed_buttons : Z; if_released_buttons : Z;
  if_key_count : Z; if_keys : list Z;
  if_pressed_key_count : Z; if_pressed_keys : list Z;
  if_released_key_count : Z; if_released_keys : list Z;
  if_text_count : Z; if_text : list Z
}.

(** [array.iter().take(usize::from(count))]. *)
Definition counted (n : Z) (l : list Z) : list Z := take (Z.to_nat n) l.

(** ** Draining the inbox

    [handle k s e] treats the [k]-th message [e] in driver state [s]; [None] is
    a panic.  The handlers do not touch the bus, so the inbox only shrinks and
    its length is enough fuel. *)
Section Receive.
Context {P V St : Type} (handle : nat -> St -> Envelope P -> option St).
Implicit Types (c : KernelContext P V) (s : St).

Fixpoint receive_loop (fuel k : nat) c s : option (KernelContext P V * St) :=
  match fuel with
  | O => None
  | S fuel =>
      '(c, x) ← ctx_receive_next c;
      match x with
      | None => Some (c, s)
      | Some e => s ← handle k s e; receive_loop fuel (S k) c s
      end
  end.

Definition receive_all c s : option (KernelContext P V * St) :=
  receive_loop (S (Z.to_nat (bus_inbox_len (sh_bus (kc_shared c)) (kc_id c)))) 0 c s.

(** The handler on the messages of a queue in order. *)
Fixpoint handle_all (k : nat) (q : list (Envelope P)) s : option St :=
  match q with
  | [] => Some s
  | e :: q => s ← handle k s e; handle_all (S k) q s
  end.

Definition inbox_of (qs : list (list (Envelope P))) (id : SubscriberId) : list (Envelope P) :=
  match qs !z id with Some q => q | None => [] end.

Definition ctx_with_bus c b : KernelContext P V := with_shared c (with_bus (kc_shared c) b).

Lemma zset_inbox_nil qs id : inbox_of qs id = [] -> zset qs id [] = qs.
Proof.
  unfold inbox_of, zset, zget. destruct (Z.ltb_spec id 0); [done|].
  destruct (qs !! Z.to_nat id) as [q|] eqn:E; intros Hq.
  - subst q. by apply list_insert_id.
  - apply list_insert_ge. by apply lookup_ge_None.
Qed.

Lemma receive_loop_spec q : forall fuel k c s qs,
  bus_repr (sh_bus (kc_shared c)) qs -> inbox_of qs (kc_id c) = q -> (length q < fuel)%nat ->
  exists b, bus_repr b (zset qs (kc_id c) []) /\
  bus_next_seq b = bus_next_seq (sh_bus (kc_shared c)) /\
  receive_loop fuel k c s = (s' ← handle_all k q s; Some (ctx_with_bus c b, s')) \/
  handle_all k q s = None /\ receive_loop fuel k c s = None.
Proof.
  induction q as [|e q IH]; intros fuel k c s qs Hb Hq Hf; destruct fuel as [|fuel]; cbn [length] in Hf; try lia.
  - cbn [receive_loop handle_all]. unfold ctx_receive_next.
    destruct (pop_inbox_refines _ qs (kc_id c) Hb) as (b & -> & Hb' & Hn & _). cbn [mbind option_bind].
    exists b. left. rewrite zset_inbox_nil by done. unfold inbox_of in Hq.
    destruct (qs !z (kc_id c)) as [[|]|]; done.
  - cbn [receive_loop handle_all]. unfold ctx_receive_next.
    destruct (pop_inbox_refines _ qs (kc_id c) Hb) as (b & -> & Hb' & Hn & _). cbn [mbind option_bind].
    unfold inbox_of in Hq. destruct (qs !z (kc_id c)) as [q'|] eqn:E; [|done]. subst q'.
    destruct (handle k s e) as [s1|]; cbn [mbind option_bind]; [|exists b; by right].
    destruct (IH fuel (S k) (ctx_with_bus c b) s1 (zset qs (kc_id c) q)) as (b' & H); [done| |lia|].
    { unfold inbox_of. cbn. by rewrite zget_zset_eq by (by eapply zget_Some). }
    exists b'. destruct H as [(Hb1 & Hn1 & H)|[H1 H2]]; [left|by right].
    cbn in Hb1, Hn1. split; [|split; [congruence|exact H]].
    by rewrite zset_zset in Hb1.
Qed.

Lemma drain_inbox_spec c s qs : bus_repr (sh_bus (kc_shared c)) qs ->
  match handle_all 0 (inbox_of qs (kc_id c)) s with
  | None => receive_all c s = None
  | Some s' => exists b, bus_repr b (zset qs (kc_id c) []) /\
      bus_next_seq b = bus_next_seq (sh_bus (kc_shared c)) /\
      receive_all c s = Some (ctx_with_bus c b, s')
  end.
Proof.
  intros Hb. unfold receive_all.
  assert (Hf : (length (inbox_of qs (kc_id c)) <
    S (Z.to_nat (bus_inbox_len (sh_bus (kc_shared c)) (kc_id c))))%nat).
  { unfold inbox_of. destruct (qs !z (kc_id c)) as [q|] eqn:E; [|cbn; lia].
    rewrite (inbox_len_refines _ _ _ _ Hb E). unfold zlen. lia. }
  destruct (receive_loop_spec (inbox_of qs (kc_id c)) _ 0 c s qs Hb eq_refl Hf) as (b & [(H1 & H2 & ->)|[H ->]]).
  - destruct (handle_all 0 _ s) as [s'|]; [|done]. by exists b.
  - by rewrite H.
Qed.

(** A handler that never panics under an invariant keeps the invariant. *)
Lemma handle_all_inv (I : St -> Prop) : (forall k s e, I s -> exists s', handle k s e = Some s' /\ I s') ->
  forall q k s, I s -> exists s', handle_all k q s = Some s' /\ I s'.
Proof.
  intros H q. induction q as [|e q IH]; intros k s Hs; cbn [handle_all]; [eauto|].
  destruct (H k s e Hs) as (s1 & -> & H1). cbn [mbind option_bind]. auto.
Qed.
End Receive.

(** Publishing in a release build: the queue of the addressee, if any and not
    full, ends with the message; the error is ignored by every driver. *)
Lemma ctx_publish_spec {P V} (c : KernelContext P V) qs to topic payload :
  bus_repr (sh_bus (kc_shared c)) qs ->
  exists b r, ctx_publish false c to topic payload = Some (ctx_with_bus c b, r) /\
  bus_repr b (deliver qs (mkEnvelope (kc_id c) to topic (bus_next_seq (sh_bus (kc_shared c))) payload)).1 /\
  r = (deliver qs (mkEnvelope (kc_id c) to topic (bus_next_seq (sh_bus (kc_shared c))) payload)).2.
Proof.
  intros Hb. unfold ctx_publish, bus_envelope, bus_take_seq.
  set (e := mkEnvelope _ _ _ _ _).
  set (b1 := with_next_seq _ _).
  assert (bus_repr b1 qs) as Hb1 by (destruct Hb; by split).
  destruct (publish_refines b1 qs e Hb1) as (b' & -> & Hr' & _). cbn [mbind option_bind].
  by exists b', (deliver qs e).2.
Qed.

(** ** Two subscribers in an empty world, for examples *)
Definition two_subscribers {P} : MessageBus P :=
  match bus_try_new alloc_all with
  | Ok b => (bus_try_add_subscriber alloc_all (bus_try_add_subscriber alloc_all b).1).1
  | Err _ => mkMessageBus (mkMpscRing 0 [] 0 0 0) [] [] 0 0
  end.

Definition context_on {P V} (b : MessageBus P) (names : list string) (id : SubscriberId) : KernelContext P V := {|
  kc_shared := {| sh_bus := b; sh_world := world_new; sh_deferred := mkDeferredCommands [] 8 8;
                  sh_arena := mkBumpArena 4096 64 0 0 |};
  kc_names := names; kc_id := id; kc_dt_ns := 16 |}.

Lemma two_subscribers_repr {P} : bus_repr (two_subscribers (P := P)) [[]; []].
Proof.
  assert (E : exists b0, bus_try_new (P := P) alloc_all = Ok b0) by (eexists; reflexivity).
  destruct E as [b0 E]. pose proof (order_start alloc_all b0 E) as [H0 _ _ _].
  unfold two_subscribers. rewrite E.
  destruct (bus_try_add_subscriber alloc_all b0) as [b1 r1] eqn:E1. cbn [fst].
  destruct (bus_try_add_subscriber alloc_all b1) as [b2 r2] eqn:E2. cbn [fst].
  assert (K1 : exists id, r1 = Ok id).
  { revert E1. injection E as <-. intros E1. vm_compute in E1. injection E1 as _ <-. eauto. }
  destruct K1 as [id1 ->]. destruct (add_repr _ _ _ _ _ H0 E1) as [H1 _].
  assert (K2 : exists id, r2 = Ok id).
  { revert E1 E2. injection E as <-. intros E1. vm_compute in E1. injection E1 as <- _. intros E2.
    vm_compute in E2. injection E2 as _ <-. eauto. }
  destruct K2 as [id2 ->]. by destruct (add_repr _ _ _ _ _ H1 E2) as [H2 _].
Qed.
