(* ===== verification/UiSubsystem.v ===== *)
(** The retained UI as a kernel subsystem ([ui/mod.rs]): it drains its inbox
    (resize, input, asset states, commands), applies the deferred commands,
    lays the tree out, paints it and sends the renderer a frame packet with the
    byte ranges that changed since the last packet.

    Theorems: a tick returns, whatever the messages, the tree values and the
    failing allocations, and keeps the subsystem well formed; it plays the
    commands of its inbox on the tree in order; the packet it sends is one the
    renderer's command plan accepts. *)

From stdpp Require Import strings.
From S2P Require Import Prelude Arena Ring Bus World Deferred Scheduler Kernel.
From S2P Require Import F32 UiComponents UiTree UiTreeInv UiCommands UiEffects UiInput UiText UiPaint UiUpload UiLayout.
From S2P Require Import Messages.

Local Open Scope Z_scope.
Local Open Scope kit_scope.

Record UiFrameReady := {
  fr_nodes : Z; fr_paint_items : Z; fr_batches : Z; fr_glyphs : Z; fr_uploaded_bytes : Z
}.
Definition frame_ready_default : UiFrameReady :=
  {| fr_nodes := 0; fr_paint_items := 0; fr_batches := 0; fr_glyphs := 0; fr_uploaded_bytes := 0 |}.

Record UiFramePacket := {
  fp_ready : UiFrameReady;
  fp_snapshot : UiRenderSnapshot;
  fp_upload_ranges : list UiUploadRange
}.

Record UiSubsystem := {
  us_config : UiConfig;
  us_tree : UiTree;
  us_commands : UiCommandBuffer;
  us_layout : UiLayoutEngine;
  us_paint : UiPaintList;
  us_resources : UiResourceTable;
  us_focus : UiFocusCapture;
  us_diagnostics : UiDiagnostics;
  us_viewport : UiRect;
  us_last_frame : UiFrameReady;
  us_last_packet : option UiFramePacket;
  us_layout_scratch : LayoutStats
}.

Definition initial_viewport : UiRect :=
  {| r_x := f32_zero; r_y := f32_zero; r_width := f32_of_Z 1280; r_height := f32_of_Z 720 |}.

(** [As k] is the oracle of the [k]-th constructor. *)
Definition subsystem_try_new (As : nat -> alloc) (c : UiConfig) : result UiError UiSubsystem :=
  if negb (is_finite (dpi_scale c)) || fle (dpi_scale c) f32_zero then Err UiError.InvalidValue
  else
    let? tree := tree_try_new (As 0%nat) c in
    let? commands := buffer_try_with_capacity (As 1%nat) (max_commands c) in
    let? layout := layout_try_new (As 2%nat) c in
    let? paint := paint_try_new (As 3%nat) c in
    let? resources := resources_try_new (As 4%nat) c in
    Ok {| us_config := c; us_tree := tree; us_commands := commands; us_layout := layout;
          us_paint := paint; us_resources := resources; us_focus := focus_default;
          us_diagnostics := ui_diagnostics_default; us_viewport := initial_viewport;
          us_last_frame := frame_ready_default; us_last_packet := None;
          us_layout_scratch := layout_stats_default |}.

(** ** Field updates *)
Definition us_with_focus (s : UiSubsystem) (f : UiFocusCapture) : UiSubsystem := {|
  us_config := us_config s; us_tree := us_tree s; us_commands := us_commands s;
  us_layout := us_layout s; us_paint := us_paint s; us_resources := us_resources s;
  us_focus := f; us_diagnostics := us_diagnostics s; us_viewport := us_viewport s;
  us_last_frame := us_last_frame s; us_last_packet := us_last_packet s;
  us_layout_scratch := us_layout_scratch s |}.
Definition us_with_commands (s : UiSubsystem) (b : UiCommandBuffer) (t : UiTree) : UiSubsystem := {|
  us_config := us_config s; us_tree := t; us_commands := b;
  us_layout := us_layout s; us_paint := us_paint s; us_resources := us_resources s;
  us_focus := us_focus s; us_diagnostics := us_diagnostics s; us_viewport := us_viewport s;
  us_last_frame := us_last_frame s; us_last_packet := us_last_packet s;
  us_layout_scratch := us_layout_scratch s |}.
Definition us_with_resources (s : UiSubsystem) (r : UiResourceTable) (d : UiDiagnostics) : UiSubsystem := {|
  us_config := us_config s; us_tree := us_tree s; us_commands := us_commands s;
  us_layout := us_layout s; us_paint := us_paint s; us_resources := r;
  us_focus := us_focus s; us_diagnostics := d; us_viewport := us_viewport s;
  us_last_frame := us_last_frame s; us_last_packet := us_last_packet s;
  us_layout_scratch := us_layout_scratch s |}.
Definition us_with_viewport (s : UiSubsystem) (v : UiRect) : UiSubsystem := {|
  us_config := us_config s; us_tree := us_tree s; us_commands := us_commands s;
  us_layout := us_layout s; us_paint := us_paint s; us_resources := us_resources s;
  us_focus := us_focus s; us_diagnostics := us_diagnostics s; us_viewport := v;
  us_last_frame := us_last_frame s; us_last_packet := us_last_packet s;
  us_layout_scratch := us_layout_scratch s |}.
Definition us_with_layout (s : UiSubsystem) (e : UiLayoutEngine) (t : UiTree) (d : UiDiagnostics)
    (l : LayoutStats) : UiSubsystem := {|
  us_config := us_config s; us_tree := t; us_commands := us_commands s;
  us_layout := e; us_paint := us_paint s; us_resources := us_resources s;
  us_focus := us_focus s; us_diagnostics := d; us_viewport := us_viewport s;
  us_last_frame := us_last_frame s; us_last_packet := us_last_packet s;
  us_layout_scratch := l |}.
Definition us_with_frame (s : UiSubsystem) (p : UiPaintList) (d : UiDiagnostics) (f : UiFrameReady)
    (k : option UiFramePacket) : UiSubsystem := {|
  us_config := us_config s; us_tree := us_tree s; us_commands := us_commands s;
  us_layout := us_layout s; us_paint := p; us_resources := us_resources s;
  us_focus := us_focus s; us_diagnostics := d; us_viewport := us_viewport s;
  us_last_frame := f; us_last_packet := k; us_layout_scratch := us_layout_scratch s |}.
Definition us_record_error (s : UiSubsystem) : UiSubsystem :=
  us_with_resources s (us_resources s) (record_error (us_diagnostics s)).

Definition route_input (A : alloc) (s : UiSubsystem) (e : UiInputEvent)
  : option (UiSubsystem * UiInputResult) :=
  '(f, r) ← route A (us_focus s) (us_tree s) e;
  Some (us_with_focus s f, r).

(** ** Messages *)
(** [(v as f32 / scale) as i32]. *)
Definition logical (scale : f32) (v : Z) : Z :=
  f32_as_int (- 2 ^ 31) (2 ^ 31 - 1) (fdiv (f32_of_Z v) scale).

Definition button_events (i : InputFrame) (x y : Z) (button : Z) : list UiInputEvent :=
  let mask := Z.shiftl 1 button in
  (if negb (Z.land (if_pressed_buttons i) mask =? 0)
   then [UiInputEvent.PointerButton button true x y] else []) ++
  (if negb (Z.land (if_released_buttons i) mask =? 0)
   then [UiInputEvent.PointerButton button false x y] else []).

(** The events one [InputFrame] is routed as, in order. *)
Definition frame_events (scale : f32) (i : InputFrame) : list UiInputEvent :=
  let x := logical scale (if_mouse_x i) in
  let y := logical scale (if_mouse_y i) in
  UiInputEvent.PointerMove x y ::
  flat_map (fun b => button_events i x y (Z.of_nat b)) (seq 0 16) ++
  map (fun k => UiInputEvent.Key k true) (counted (if_pressed_key_count i) (if_pressed_keys i)) ++
  map (fun k => UiInputEvent.Key k false) (counted (if_released_key_count i) (if_released_keys i)) ++
  map UiInputEvent.TextByte (counted (if_text_count i) (if_text i)).

Fixpoint route_events (As : nat -> alloc) (k : nat) (t : UiTree) (f : UiFocusCapture)
    (es : list UiInputEvent) : option UiFocusCapture :=
  match es with
  | [] => Some f
  | e :: es => '(f, _) ← route (As k) f t e; route_events As (S k) t f es
  end.

Definition asset_state (n : Z) : option UiAssetState :=
  if n =? 0 then Some UiAssetState.Missing
  else if n =? 1 then Some UiAssetState.Loading
  else if n =? 2 then Some UiAssetState.Ready
  else if n =? 3 then Some UiAssetState.Failed
  else None.

Definition handle_asset (s : UiSubsystem) (a : UiAssetReady) : UiSubsystem :=
  match asset_state (ar_state a) with
  | None => us_record_error s
  | Some state =>
      let '(table, r) :=
        if ar_kind a =? 0 then
          set_texture_state (us_resources s) {| t_index := ar_index a; t_generation := ar_generation a |} state
        else if ar_kind a =? 1 then
          set_font_state (us_resources s) {| f_index := ar_index a; f_generation := ar_generation a |} state
        else (us_resources s, Err UiError.InvalidValue) in
      us_with_resources s table
        (if is_ok r then us_diagnostics s else record_error (us_diagnostics s))
  end.

Definition handle_command (s : UiSubsystem) (c : UiCommand) : UiSubsystem :=
  match buffer_try_push (us_commands s) c with
  | (b, Ok _) => us_with_commands s b (us_tree s)
  | (b, Err _) => us_record_error (us_with_commands s b (us_tree s))
  end.

Record UiCommandMessage := { ucm_command : UiCommand }.

Section Driver.
Context {P V : Type} `{!Payload WindowResized P} `{!Payload InputFrame P}
  `{!Payload UiAssetReady P} `{!Payload UiCommandMessage P} `{!Payload UiFramePacket P}.

(** The state of the receive loop: the subsystem and [resized]. *)
Definition handle_message (As : nat -> nat -> alloc) (k : nat)
    (q : UiSubsystem * option (Z * Z)) (e : Envelope P) : option (UiSubsystem * option (Z * Z)) :=
  let '(s, resized) := q in
  if env_topic e =? 1 then
    match envelope_downcast (downcast (T := WindowResized)) e with
    | Ok size => Some (s, Some (wr_width size, wr_height size))
    | Err _ => Some (s, resized)
    end
  else if env_topic e =? 2 then
    match envelope_downcast (downcast (T := InputFrame)) e with
    | Ok input =>
        f ← route_events (As k) 0 (us_tree s) (us_focus s) (frame_events (dpi_scale (us_config s)) input);
        Some (us_with_focus s f, resized)
    | Err _ => Some (s, resized)
    end
  else if env_topic e =? 3 then
    match envelope_downcast (downcast (T := UiAssetReady)) e with
    | Ok asset => Some (handle_asset s asset, resized)
    | Err _ => Some (s, resized)
    end
  else if env_topic e =? 4 then
    match envelope_downcast (downcast (T := UiCommandMessage)) e with
    | Ok message => Some (handle_command s (ucm_command message), resized)
    | Err _ => Some (s, resized)
    end
  else Some (s, resized).

Definition resize_viewport (s : UiSubsystem) (resized : option (Z * Z)) : UiSubsystem :=
  match resized with
  | Some (width, height) =>
      if (0 <? width) && (0 <? height) then
        us_with_viewport s
          {| r_x := r_x (us_viewport s); r_y := r_y (us_viewport s);
             r_width := fdiv (f32_of_Z width) (dpi_scale (us_config s));
             r_height := fdiv (f32_of_Z height) (dpi_scale (us_config s)) |}
      else s
  | None => s
  end.

(** The allocations of one frame. *)
Record FrameAlloc := {
  fa_route : nat -> nat -> alloc;
  fa_apply : nat -> alloc;
  fa_layout : alloc;
  fa_paint : alloc;
  fa_snapshot : alloc;
  fa_encode : alloc
}.

Definition apply_commands (A : FrameAlloc) (s : UiSubsystem) : option UiSubsystem :=
  '(b, t, _) ← buffer_apply (fa_apply A) (us_commands s) (us_tree s);
  let s := us_with_commands s b t in
  Some (us_with_focus s (clear_stale (us_focus s) (us_tree s))).

Definition layout_frame (A : FrameAlloc) (s : UiSubsystem) : option UiSubsystem :=
  '(e, t, d, r) ← layout (fa_layout A) (us_layout s) (us_tree s) (us_viewport s) (us_diagnostics s);
  Some (us_with_layout s e t d (match r with Ok stats => stats | Err _ => us_layout_scratch s end)).

(** A snapshot that fails leaves the previous packet in place; ranges that
    cannot be encoded become no ranges. *)
Definition paint_frame (A : FrameAlloc) (s : UiSubsystem) : option UiSubsystem :=
  '(p, d, r) ← build_with_resources (fa_paint A) (us_paint s) (us_tree s) (us_viewport s)
                 (Some (us_resources s)) (us_diagnostics s);
  match r with
  | Ok plan =>
      let ready := {|
        fr_nodes := count (us_tree s); fr_paint_items := up_items plan; fr_batches := up_batches plan;
        fr_glyphs := up_glyphs plan; fr_uploaded_bytes := up_bytes plan |} in
      match snapshot (fa_snapshot A) p with
      | Ok sn =>
          let ranges := match encode_dirty_ranges (fa_encode A) sn (fp_snapshot <$> us_last_packet s) with
                        | Ok rs => rs | Err _ => [] end in
          Some (us_with_frame s p d ready
            (Some {| fp_ready := ready; fp_snapshot := sn; fp_upload_ranges := ranges |}))
      | Err _ => Some (us_with_frame s p d ready (us_last_packet s))
      end
  | Err _ =>
      Some (us_with_frame s p (record_error d)
        {| fr_nodes := count (us_tree s); fr_paint_items := 0; fr_batches := 0; fr_glyphs := 0;
           fr_uploaded_bytes := 0 |} None)
  end.

Definition publish_frame (debug : bool) (s : UiSubsystem) (c : KernelContext P V)
  : option (KernelContext P V) :=
  match ctx_resolve c "renderer" with
  | Some renderer =>
      match us_last_packet s with
      | Some packet => '(c, _) ← ctx_publish debug c renderer 2 (into packet); Some c
      | None => Some c
      end
  | None => Some c
  end.

(** What a tick does after the inbox is drained and before it publishes. *)
Definition ui_frame (A : FrameAlloc) (s : UiSubsystem) (resized : option (Z * Z)) : option UiSubsystem :=
  s ← apply_commands A (resize_viewport s resized);
  s ← layout_frame A s;
  paint_frame A s.

Definition ui_tick (debug : bool) (A : FrameAlloc) (s : UiSubsystem) (c : KernelContext P V)
  : option (UiSubsystem * KernelContext P V) :=
  '(c, (s, resized)) ← receive_all (handle_message (fa_route A)) c (s, None);
  s ← ui_frame A s resized;
  c ← publish_frame debug s c;
  Some (s, c).
End Driver.

(** ** The invariant *)

(** A packet the renderer can use: its command plan is accepted and turns into
    draws that cover the items, and its stream has the advertised size within
    the upload budget. *)
Record packet_ok (c : UiConfig) (k : UiFramePacket) : Prop := {
  pk_plan : exists plan, plan_try_build (fp_snapshot k) = Ok plan /\
    cp_items plan = zlen (sn_items (fp_snapshot k)) /\ cp_draws plan = zlen (sn_batches (fp_snapshot k)) /\
    cp_bytes plan = up_bytes (sn_upload (fp_snapshot k));
  pk_draws : exists ds, build_draw_commands alloc_all (fp_snapshot k) = Ok ds /\
    draws 0 (sn_items (fp_snapshot k)) ds;
  pk_bytes : up_bytes (sn_upload (fp_snapshot k)) = zlen (stream (fp_snapshot k));
  pk_budget : up_bytes (sn_upload (fp_snapshot k)) <= max_upload_bytes c
}.

Record ui_ok (s : UiSubsystem) : Prop := {
  uk_tree : tree_ok (us_tree s);
  uk_limits : limits_ok (us_config s);
  uk_paint : pl_config (us_paint s) = us_config s;
  uk_upload : max_upload_bytes (us_config s) + 96 <= U64_MAX;
  uk_packet : forall k, us_last_packet s = Some k -> packet_ok (us_config s) k
}.

(** A packet made after [prev]: its ranges are those that changed. *)
Record follows (A : alloc) (c : UiConfig) (prev : option UiFramePacket) (k : UiFramePacket) : Prop := {
  fo_packet : packet_ok c k;
  fo_prev : forall p, prev = Some p -> packet_ok c p;
  fo_ranges : encode_dirty_ranges A (fp_snapshot k) (fp_snapshot <$> prev) = Ok (fp_upload_ranges k)
}.

(** Only live nodes are focused or captured. *)
Definition focus_live (s : UiSubsystem) : Prop := forall id,
  focused (us_focus s) = Some id \/ captured (us_focus s) = Some id -> contains (us_tree s) id = true.

Lemma route_events_total As t (Hok : tree_ok t) : forall es k f, exists f', route_events As k t f es = Some f'.
Proof.
  induction es as [|e es IH]; intros k f; cbn [route_events]; [eauto|].
  destruct (route_total (As k) f t e Hok) as (f' & r & ->). cbn [mbind option_bind]. apply IH.
Qed.

Lemma paint_config A p t v resources d p' d' r : limits_ok (pl_config p) ->
  build_with_resources A p t v resources d = Some (p', d', r) -> pl_config p' = pl_config p.
Proof.
  intros (L1 & L2 & L3). unfold build_with_resources.
  destruct (rect_sane v); cbn [negb]; [|by intros [= <- <- <-]].
  destruct (preorder A t) as [[order [u|e]]|]; [|by intros [= <- <- <-]|done].
  intros [= E]. revert E. unfold paint_order. set (p0 := paint_clear p order).
  assert (W0 : within (pl_config p) p0) by (split; [done|split; done]).
  pose proof (push_clip_within _ p0 v W0) as W1.
  destruct (push_clip p0 v) as [p1 [id|]]; cbn [fst] in W1; [|intros [= <- <- <-]; apply W1].
  pose proof (paint_nodes_within _ A t v resources order 1 p1 d W1) as W2.
  destruct (paint_nodes A 1 p1 t v resources d order) as [[p2 d2] [x|]]; cbn [fst] in W2;
    [|intros [= <- <- <-]; apply W2].
  unfold build_batches. destruct (batch_items _ _ _ _) as [bs [y|]]; [|intros [= <- <- <-]; apply W2].
  destruct (paint_plan _); intros [= <- <- <-]; apply W2.
Qed.

(** ** The phases keep the invariant *)
Lemma ui_ok_same s s' : us_tree s' = us_tree s -> us_config s' = us_config s ->
  us_paint s' = us_paint s -> us_last_packet s' = us_last_packet s -> ui_ok s -> ui_ok s'.
Proof. intros E1 E2 E3 E4 []. constructor; rewrite ?E1, ?E2, ?E3, ?E4; done. Qed.

Lemma handle_asset_ok s a : ui_ok s -> ui_ok (handle_asset s a).
Proof.
  apply ui_ok_same; unfold handle_asset; destruct (asset_state _); try done;
    by repeat (case_match; try done).
Qed.

Lemma handle_command_ok s c : ui_ok s -> ui_ok (handle_command s c).
Proof.
  apply ui_ok_same; unfold handle_command; by destruct (buffer_try_push _ _) as [b [|]].
Qed.

Lemma resize_ok s r : ui_ok s -> ui_ok (resize_viewport s r).
Proof.
  apply ui_ok_same; unfold resize_viewport; destruct r as [[w h]|]; try done; by destruct (_ && _).
Qed.

Lemma apply_commands_ok A s : ui_ok s -> exists s', apply_commands A s = Some s' /\ ui_ok s' /\
  commands (us_commands s') = [] /\ focus_live s' /\ us_last_packet s' = us_last_packet s.
Proof.
  intros [HT HL HP HU HK]. unfold apply_commands, buffer_apply.
  destruct (apply_all_played (fa_apply A) (commands (us_commands s)) 0 (us_tree s) 0 HT) as (t & n & -> & HT' & _).
  cbn [mbind option_bind]. eexists. split; [done|]. split; [by constructor|]. split; [done|]. split; [|done].
  intros id [H|H]; cbn in H |- *; by apply keep_live_spec in H.
Qed.

Lemma layout_frame_ok A s : ui_ok s -> exists s', layout_frame A s = Some s' /\ ui_ok s' /\
  us_commands s' = us_commands s /\ (focus_live s -> focus_live s') /\ us_last_packet s' = us_last_packet s.
Proof.
  intros [HT HL HP HU HK]. unfold layout_frame.
  destruct (layout_spec (fa_layout A) (us_layout s) (us_tree s) (us_viewport s) (us_diagnostics s) HT)
    as (e & t & d & r & -> & HT' & _ & Hv & _).
  cbn [mbind option_bind]. eexists. split; [done|]. split; [by constructor|]. split; [done|]. split; [|done].
  intros HF id Hid. cbn in Hid |- *. destruct (Hv id) as [-> _]. by apply HF.
Qed.

(** Neither the messages nor the first two phases touch the packet or the
    configuration. *)
Definition same_packet (s s' : UiSubsystem) : Prop :=
  us_last_packet s' = us_last_packet s /\ us_config s' = us_config s.

Lemma handle_asset_packet s a : same_packet s (handle_asset s a).
Proof. unfold handle_asset. destruct (asset_state _); [|done]. by repeat (case_match; try done). Qed.

Lemma handle_command_packet s c : same_packet s (handle_command s c).
Proof. unfold handle_command. by destruct (buffer_try_push _ _) as [b [|]]. Qed.

Lemma frame_phases_packet A s r s1 : apply_commands A (resize_viewport s r) ≫= layout_frame A = Some s1 ->
  same_packet s s1.
Proof.
  unfold apply_commands, layout_frame.
  assert (E : us_last_packet (resize_viewport s r) = us_last_packet s /\ us_config (resize_viewport s r) = us_config s)
    by (unfold resize_viewport; destruct r as [[w h]|]; [|done]; by destruct (_ && _)).
  destruct (buffer_apply _ _ _) as [[[b t] n]|]; cbn [mbind option_bind]; [|done].
  destruct (layout _ _ _ _ _) as [[[[e t'] d] x]|]; cbn [mbind option_bind]; [|done].
  by intros [= <-].
Qed.

(** A snapshot of a built list makes a good packet. *)
Lemma snapshot_packet_ok B t v p u sn c ready rs : built t v p u -> pl_config p = c ->
  snapshot B p = Ok sn ->
  packet_ok c {| fp_ready := ready; fp_snapshot := sn; fp_upload_ranges := rs |}.
Proof.
  intros Hb Hc Hs.
  destruct (snapshot_spec B t v p u Hb) as (Ei & Eb & Eg & Ey & Hup & _ & _ & _ & _ & H).
  rewrite Hs in H. destruct H as (Hit & Hgl & Hu & Hp & ds & Hd & Hdr).
  assert (Hlen : zlen (sn_items sn) = up_items u) by (by rewrite Hit, rendered_length).
  constructor; cbn.
  - exists {| cp_items := up_items u; cp_draws := up_batches u; cp_bytes := up_bytes u |}.
    split; [done|]. cbn. rewrite Hu, Hlen. split; [done|]. split; [|done].
    rewrite Eb. revert Hs. unfold snapshot. destruct (negb (B 0%nat)); [done|].
    destruct (snapshot_items _ _ _ _ _ _) as [[its gs]|]; cbn [result_bind]; [|done].
    destruct (negb (B 1%nat)); [done|].
    destruct (sum_counts _ _); cbn [result_bind]; [|done]. destruct (bytes_for _ _); cbn [result_bind]; [|done].
    destruct (try_u32 (zlen (pl_items p))); cbn [result_bind]; [|done].
    destruct (try_u32 (zlen (pl_batches p))); cbn [result_bind]; [|done].
    destruct (try_u32 _); cbn [result_bind]; [|done]. by intros [= <-].
  - by exists ds.
  - rewrite Hu, stream_len, Hlen, Ey, Eg, Hgl. unfold total_glyphs. lia.
  - by rewrite Hu, <- Hc.
Qed.

Lemma paint_frame_ok A s : ui_ok s -> exists s', paint_frame A s = Some s' /\ ui_ok s' /\
  us_commands s' = us_commands s /\ (focus_live s -> focus_live s').
Proof.
  intros [HT HL HP HU HK]. unfold paint_frame. assert (HL' : limits_ok (pl_config (us_paint s))) by (by rewrite HP).
  destruct (build_built (fa_paint A) (us_paint s) (us_tree s) (us_viewport s) (Some (us_resources s))
    (us_diagnostics s) HT HL') as (p & d & r & E & H).
  pose proof (paint_config _ _ _ _ _ _ _ _ _ HL' E) as Hc. rewrite E. cbn [mbind option_bind].
  rewrite HP in Hc. destruct r as [u|x].
  - destruct H as [_ Hb]. destruct (snapshot (fa_snapshot A) p) as [sn|x] eqn:Es.
    + eexists. split; [done|]. split; [|done]. constructor; try done. cbn. intros k [= <-].
      by eapply snapshot_packet_ok.
    + eexists. split; [done|]. split; [|done]. by constructor.
  - eexists. split; [done|]. split; [|done]. by constructor.
Qed.

Lemma ui_frame_ok A s r : ui_ok s -> exists s', ui_frame A s r = Some s' /\ ui_ok s' /\
  commands (us_commands s') = [] /\ focus_live s'.
Proof.
  intros H. unfold ui_frame.
  destruct (apply_commands_ok A _ (resize_ok s r H)) as (s1 & -> & H1 & C1 & F1 & _). cbn [mbind option_bind].
  destruct (layout_frame_ok A s1 H1) as (s2 & -> & H2 & C2 & F2 & _). cbn [mbind option_bind].
  destruct (paint_frame_ok A s2 H2) as (s3 & -> & H3 & C3 & F3).
  exists s3. split; [done|]. split; [done|]. split; [by rewrite C3, C2|]. auto.
Qed.

(** ** What the phases do to the tree and to the queue *)
Lemma layout_shown A s s' : tree_ok (us_tree s) -> layout_frame A s = Some s' ->
  forall x, shown (us_tree s') x = shown (us_tree s) x.
Proof.
  intros HT. unfold layout_frame.
  destruct (layout_spec (fa_layout A) (us_layout s) (us_tree s) (us_viewport s) (us_diagnostics s) HT)
    as (e & t & d & r & -> & _ & _ & Hv & _).
  cbn [mbind option_bind]. intros [= <-] x. destruct (Hv x) as (_ & Hp & Hc & Hn).
  unfold parent, children, content, node, shown in *. cbn [us_tree us_with_layout].
  destruct (find_node t x), (find_node (us_tree s) x); cbn in *; try done. congruence.
Qed.

Lemma paint_tree A s s' : paint_frame A s = Some s' -> us_tree s' = us_tree s /\ us_config s' = us_config s.
Proof.
  unfold paint_frame. destruct (build_with_resources _ _ _ _ _ _) as [[[p d] r]|]; cbn [mbind option_bind]; [|done].
  destruct r as [u|x]; [|by intros [= <-]]. by destruct (snapshot _ _); intros [= <-].
Qed.

(** A frame plays the queue on the tree, in order. *)
Lemma ui_frame_plays A s r s' : ui_ok s -> ui_frame A s r = Some s' ->
  (exists t, played (fa_apply A) 0 (commands (us_commands s)) (us_tree s) t /\
     forall x, shown (us_tree s') x = shown t x) /\
  us_config s' = us_config s /\ cmd_capacity (us_commands s') = cmd_capacity (us_commands s).
Proof.
  intros Hs. unfold ui_frame. pose proof (resize_ok s r Hs) as Hr.
  assert (us_tree (resize_viewport s r) = us_tree s /\ us_commands (resize_viewport s r) = us_commands s /\
    us_config (resize_viewport s r) = us_config s) as (E1 & E2 & E3).
  { unfold resize_viewport. destruct r as [[w h]|]; [|done]. by destruct (_ && _). }
  rewrite <- E1, <- E2, <- E3. clear E1 E2 E3. revert Hr. generalize (resize_viewport s r). clear s Hs.
  intros s Hs. destruct (apply_all_played (fa_apply A) (commands (us_commands s)) 0 (us_tree s) 0 (uk_tree _ Hs))
    as (t & n & Et & HT & Hp).
  destruct (apply_commands_ok A s Hs) as (s1 & E1 & H1 & _). rewrite E1. cbn [mbind option_bind].
  destruct (layout_frame_ok A s1 H1) as (s2 & E2 & H2 & C2 & _). rewrite E2. cbn [mbind option_bind].
  intros E3. destruct (paint_frame_ok A s2 H2) as (s3 & E3' & _ & C3 & _). rewrite E3 in E3'. injection E3' as <-.
  destruct (paint_tree _ _ _ E3) as [T3 K3].
  assert (us_config s2 = us_config s1) as K2.
  { revert E2. unfold layout_frame. destruct (layout _ _ _ _ _) as [[[[? ?] ?] ?]|]; [|done]. by intros [= <-]. }
  unfold apply_commands, buffer_apply in E1. rewrite Et in E1. cbn [mbind option_bind] in E1. injection E1 as <-.
  rewrite C3, C2, K3, K2. split; [|done]. exists t. split; [done|]. intros x. rewrite T3.
  refine (layout_shown A _ _ _ E2 x). exact HT.
Qed.

(** With memory for the snapshot and the ranges, a new packet carries exactly
    the ranges relative to the previous one. *)
Lemma paint_frame_packet A s s' k : ui_ok s -> (forall n, fa_snapshot A n = true) ->
  (forall n, fa_encode A n = true) -> paint_frame A s = Some s' -> us_last_packet s' = Some k ->
  encode_dirty_ranges (fa_encode A) (fp_snapshot k) (fp_snapshot <$> us_last_packet s) = Ok (fp_upload_ranges k).
Proof.
  intros Hs HS HE. destruct (paint_frame_ok A s Hs) as (s2 & E2 & H2 & _). rewrite E2. intros [= <-] Hk.
  assert (Hbig : forall k c, packet_ok c k -> max_upload_bytes c + 96 <= U64_MAX ->
    zlen (stream (fp_snapshot k)) + 96 <= U64_MAX).
  { intros k0 c [_ _ Hb Hu] Hc. lia. }
  pose proof (Hbig _ _ (uk_packet _ H2 k Hk) (uk_upload _ H2)) as Hlen.
  assert (Hprev : forall p, fp_snapshot <$> us_last_packet s = Some p -> zlen (stream p) + 96 <= U64_MAX).
  { intros p Hp. apply fmap_Some in Hp as (k0 & Hk0 & ->). eapply Hbig; [by apply (uk_packet _ Hs)|apply Hs]. }
  revert E2 Hk. unfold paint_frame. assert (HL' : limits_ok (pl_config (us_paint s))) by (rewrite (uk_paint _ Hs); apply Hs).
  destruct (build_built (fa_paint A) (us_paint s) (us_tree s) (us_viewport s) (Some (us_resources s))
    (us_diagnostics s) (uk_tree _ Hs) HL') as (p & d & r & -> & H). cbn [mbind option_bind].
  destruct r as [u|x]; [|by intros [= <-]]. destruct H as [_ Hb].
  destruct (snapshot_spec (fa_snapshot A) _ _ _ _ Hb) as (_ & _ & _ & _ & _ & _ & _ & _ & Hsn & _).
  destruct (Hsn HS) as [sn ->]. intros [= <-]. cbn. intros [= <-]. cbn in Hlen |- *.
  destruct (dirty_ranges_ok (fa_encode A) sn (fp_snapshot <$> us_last_packet s) HE Hlen Hprev) as [rs ->]. done.
Qed.

Section Tick.
Context {P V : Type} `{!Payload WindowResized P} `{!Payload InputFrame P}
  `{!Payload UiAssetReady P} `{!Payload UiCommandMessage P} `{!Payload UiFramePacket P}.
Implicit Types (c : KernelContext P V).

Lemma handle_message_ok As k (q : UiSubsystem * option (Z * Z)) (e : Envelope P) : ui_ok q.1 ->
  exists q', handle_message As k q e = Some q' /\ ui_ok q'.1.
Proof.
  intros H. destruct q as [s r]. cbn [fst] in H. unfold handle_message, envelope_downcast.
  destruct (env_topic e =? 1); [destruct (downcast _); eauto|].
  destruct (env_topic e =? 2).
  { destruct (downcast _) as [i|]; [|eauto].
    destruct (route_events_total (As k) (us_tree s) (uk_tree s H) (frame_events (dpi_scale (us_config s)) i)
      0 (us_focus s)) as [f ->]. cbn [mbind option_bind]. eexists. split; [done|].
    by apply (ui_ok_same s). }
  destruct (env_topic e =? 3).
  { destruct (downcast _); [|eauto]. eexists. split; [done|]. by apply handle_asset_ok. }
  destruct (env_topic e =? 4); [|eauto].
  destruct (downcast _); [|eauto]. eexists. split; [done|]. by apply handle_command_ok.
Qed.

Lemma handle_message_packet As k (q : UiSubsystem * option (Z * Z)) (e : Envelope P) q' :
  handle_message As k q e = Some q' -> same_packet q.1 q'.1.
Proof.
  destruct q as [s r]. unfold handle_message. cbn [fst].
  destruct (env_topic e =? 1); [by destruct (envelope_downcast _ _); intros [= <-]|].
  destruct (env_topic e =? 2).
  { destruct (envelope_downcast _ _); [|by intros [= <-]].
    destruct (route_events _ _ _ _ _); cbn [mbind option_bind]; [|done]. by intros [= <-]. }
  destruct (env_topic e =? 3).
  { destruct (envelope_downcast _ _); intros [= <-]; [apply handle_asset_packet|done]. }
  destruct (env_topic e =? 4); [|by intros [= <-]].
  destruct (envelope_downcast _ _); intros [= <-]; [apply handle_command_packet|done].
Qed.

Lemma handle_all_packet As q : forall k s s', handle_all (handle_message As) k q s = Some s' -> same_packet s.1 s'.1.
Proof.
  induction q as [|e q IH]; intros k s s'; cbn [handle_all]; [by intros [= <-]|].
  destruct (handle_message As k s e) as [s1|] eqn:E; cbn [mbind option_bind]; [|done].
  intros H. apply handle_message_packet in E as [E1 E2]. apply IH in H as [H1 H2]. split; congruence.
Qed.

(** The UI commands among the messages of an inbox, in order. *)
Definition posted (q : list (Envelope P)) : list UiCommand :=
  omap (fun e => if env_topic e =? 4
                 then match envelope_downcast (downcast (T := UiCommandMessage)) e with
                      | Ok m => Some (ucm_command m) | Err _ => None end
                 else None) q.

(** The receive loop leaves the tree alone and queues those commands, as far
    as the buffer has room. *)
Lemma handle_message_queues As k s r e s1 r1 : handle_message As k (s, r) e = Some (s1, r1) ->
  zlen (commands (us_commands s)) <= Z.max 0 (cmd_capacity (us_commands s)) ->
  us_tree s1 = us_tree s /\ us_config s1 = us_config s /\
  cmd_capacity (us_commands s1) = cmd_capacity (us_commands s) /\
  commands (us_commands s1) =
    take (Z.to_nat (cmd_capacity (us_commands s))) (commands (us_commands s) ++ posted [e]) /\
  zlen (commands (us_commands s1)) <= Z.max 0 (cmd_capacity (us_commands s)).
Proof.
  intros H Hlen.
  assert (Same : us_tree s1 = us_tree s -> us_config s1 = us_config s -> us_commands s1 = us_commands s ->
    posted [e] = [] -> us_tree s1 = us_tree s /\ us_config s1 = us_config s /\
    cmd_capacity (us_commands s1) = cmd_capacity (us_commands s) /\
    commands (us_commands s1) = take (Z.to_nat (cmd_capacity (us_commands s))) (commands (us_commands s) ++ posted [e]) /\
    zlen (commands (us_commands s1)) <= Z.max 0 (cmd_capacity (us_commands s))).
  { intros -> -> -> ->. rewrite app_nil_r, take_ge by (unfold zlen in Hlen; lia). done. }
  revert H. unfold handle_message, posted in *. cbn [omap list_omap] in *.
  destruct (Z.eqb_spec (env_topic e) 4) as [->|Ht].
  2: { destruct (env_topic e =? 1); [by destruct (envelope_downcast _ e); intros [= <- <-]; apply Same|].
       destruct (env_topic e =? 2).
       { destruct (envelope_downcast _ e); [|by intros [= <- <-]; apply Same].
         destruct (route_events _ _ _ _ _); cbn [mbind option_bind]; [|done]. by intros [= <- <-]; apply Same. }
       destruct (env_topic e =? 3); [|by intros [= <- <-]; apply Same].
       destruct (envelope_downcast _ e); intros [= <- <-]; [|by apply Same].
       apply Same; try done; unfold handle_asset; destruct (asset_state _); try done; by repeat (case_match; try done). }
  cbn [Z.eqb Pos.eqb]. destruct (envelope_downcast _ e) as [m|]; intros [= <- <-]; [|by apply Same]. clear Same.
  unfold handle_command, buffer_try_push.
  destruct (Z.leb_spec (cmd_capacity (us_commands s)) (zlen (commands (us_commands s)))) as [Hf|Hf];
    cbn [us_record_error us_with_resources us_with_commands us_tree us_config us_commands commands cmd_capacity];
    do 3 (split; [done|]).
  - rewrite take_app_le, take_ge by (unfold zlen in *; lia). done.
  - rewrite take_ge; [|rewrite length_app; unfold zlen in *; cbn; lia]. split; [done|]. zsimp. lia.
Qed.

Lemma posted_cons e q : posted (e :: q) = posted [e] ++ posted q.
Proof. unfold posted. cbn. by case_match. Qed.

Lemma take_app_take {A} n (l m : list A) : take n (take n l ++ m) = take n (l ++ m).
Proof. rewrite !take_app, take_take, Nat.min_id, length_take. f_equal. f_equal. lia. Qed.

Lemma handle_all_queues As q : forall k s r s1 r1, handle_all (handle_message As) k q (s, r) = Some (s1, r1) ->
  zlen (commands (us_commands s)) <= Z.max 0 (cmd_capacity (us_commands s)) ->
  us_tree s1 = us_tree s /\ us_config s1 = us_config s /\
  cmd_capacity (us_commands s1) = cmd_capacity (us_commands s) /\
  commands (us_commands s1) =
    take (Z.to_nat (cmd_capacity (us_commands s))) (commands (us_commands s) ++ posted q).
Proof.
  induction q as [|e q IH]; intros k s r s1 r1; cbn [handle_all].
  { intros [= <- <-] Hlen. cbn. rewrite app_nil_r, take_ge by (unfold zlen in Hlen; lia). done. }
  destruct (handle_message As k (s, r) e) as [[s2 r2]|] eqn:E; cbn [mbind option_bind]; [|done].
  intros H Hlen. destruct (handle_message_queues _ _ _ _ _ _ _ E Hlen) as (T2 & K2 & C2 & Q2 & L2).
  destruct (IH _ _ _ _ _ H) as (T1 & K1 & C1 & Q1); [by rewrite C2|].
  rewrite T1, K1, C1, T2, K2, C2. do 3 (split; [done|]). rewrite Q1, C2, Q2, (posted_cons e q).
  by rewrite (assoc_L (++)), take_app_take.
Qed.

(** The queues after a packet, if any, went to the renderer, if any. *)
Definition publish_queues (qs : list (list (Envelope P))) (id : SubscriberId) (seqno : Z)
    (renderer : option SubscriberId) (packet : option UiFramePacket) : list (list (Envelope P)) :=
  match renderer, packet with
  | Some r, Some k => (deliver qs (mkEnvelope id r 2 seqno (into k))).1
  | _, _ => qs
  end.

Lemma publish_frame_ok s c qs : bus_repr (sh_bus (kc_shared c)) qs ->
  exists b, publish_frame false s c = Some (ctx_with_bus c b) /\
  bus_repr b (publish_queues qs (kc_id c) (bus_next_seq (sh_bus (kc_shared c)))
                (ctx_resolve c "renderer") (us_last_packet s)).
Proof.
  intros Hb. unfold publish_frame, publish_queues.
  assert (K : exists b, Some c = Some (ctx_with_bus c b) /\ bus_repr b qs).
  { exists (sh_bus (kc_shared c)). split; [|done]. by destruct c as [[] ? ? ?]. }
  destruct (ctx_resolve c "renderer") as [r|]; [|done]. destruct (us_last_packet s) as [k|]; [|done].
  destruct (ctx_publish_spec c qs r 2 (into k) Hb) as (b & r' & -> & Hb' & _). cbn [mbind option_bind].
  by exists b.
Qed.

Lemma ui_tick_spec A s c qs : ui_ok s -> bus_repr (sh_bus (kc_shared c)) qs ->
  exists s1 r s' b,
    handle_all (handle_message (fa_route A)) 0 (inbox_of qs (kc_id c)) (s, None) = Some (s1, r) /\
    ui_ok s1 /\ ui_frame A s1 r = Some s' /\
    ui_tick false A s c = Some (s', ctx_with_bus c b) /\ ui_ok s' /\
    commands (us_commands s') = [] /\ focus_live s' /\
    bus_repr b (publish_queues (zset qs (kc_id c) []) (kc_id c) (bus_next_seq (sh_bus (kc_shared c)))
                  (ctx_resolve c "renderer") (us_last_packet s')).
Proof.
  intros Hs Hb. unfold ui_tick.
  destruct (handle_all_inv (handle_message (fa_route A)) (fun q => ui_ok q.1)
    (handle_message_ok (fa_route A)) (inbox_of qs (kc_id c)) 0 (s, None) Hs) as ([s1 r] & E1 & H1).
  pose proof (drain_inbox_spec (handle_message (fa_route A)) c (s, None) qs Hb) as R. rewrite E1 in R.
  destruct R as (b & Hb1 & Hn & ->). cbn [mbind option_bind].
  destruct (ui_frame_ok A s1 r H1) as (s' & E2 & H2 & C2 & F2). rewrite E2. cbn [mbind option_bind].
  destruct (publish_frame_ok s' (ctx_with_bus c b) _ Hb1) as (b' & -> & Hb'). cbn [mbind option_bind].
  exists s1, r, s', b'. cbn in Hb'. rewrite Hn in Hb'. by repeat (split; [done|]).
Qed.
(** The tick's packet is made from the packet before the tick. *)
Lemma paint_frame_config A s s' : paint_frame A s = Some s' -> us_config s' = us_config s.
Proof.
  unfold paint_frame. destruct (build_with_resources _ _ _ _ _ _) as [[[p d] r]|]; cbn [mbind option_bind]; [|done].
  destruct r as [u|x]; [|by intros [= <-]]. by destruct (snapshot _ _); intros [= <-].
Qed.

Lemma ui_frame_follows A s r s' k : ui_ok s -> (forall n, fa_snapshot A n = true) ->
  (forall n, fa_encode A n = true) -> ui_frame A s r = Some s' -> us_last_packet s' = Some k ->
  follows (fa_encode A) (us_config s) (us_last_packet s) k /\ us_config s' = us_config s.
Proof.
  intros Hs HS HE. destruct (ui_frame_ok A s r Hs) as (s3 & E3 & H3 & _). rewrite E3. intros [= <-] Hk. revert E3.
  unfold ui_frame. destruct (apply_commands_ok A _ (resize_ok s r Hs)) as (s1 & E1 & H1 & _).
  destruct (layout_frame_ok A s1 H1) as (s2 & E2 & H2 & _). rewrite E1. cbn [mbind option_bind]. rewrite E2.
  cbn [mbind option_bind]. intros E3.
  destruct (frame_phases_packet A s r s2) as [K1 K2]; [by rewrite E1|].
  pose proof (paint_frame_config _ _ _ E3) as K3. split; [|congruence].
  constructor.
  - rewrite <- K2, <- K3. by apply (uk_packet _ H3).
  - intros p Hp. by apply (uk_packet _ Hs).
  - rewrite <- K1. by eapply paint_frame_packet.
Qed.

Lemma ui_tick_follows A s c qs s' b k : ui_ok s -> bus_repr (sh_bus (kc_shared c)) qs ->
  (forall n, fa_snapshot A n = true) -> (forall n, fa_encode A n = true) ->
  ui_tick false A s c = Some (s', ctx_with_bus c b) -> us_last_packet s' = Some k ->
  follows (fa_encode A) (us_config s) (us_last_packet s) k /\ us_config s' = us_config s.
Proof.
  intros Hs Hb HS HE. destruct (ui_tick_spec A s c qs Hs Hb) as (s1 & r & s2 & b2 & E1 & H1 & E2 & -> & _).
  intros [= <- _] Hk. destruct (handle_all_packet _ _ _ _ _ E1) as [K1 K2]. cbn in K1, K2.
  rewrite <- K1, <- K2. by eapply ui_frame_follows.
Qed.
End Tick.

(** ** From construction on *)
Lemma subsystem_try_new_ok As c s : 0 <= max_nodes c -> 0 <= max_depth c -> limits_ok c ->
  max_upload_bytes c + 96 <= U64_MAX -> subsystem_try_new As c = Ok s -> ui_ok s.
Proof.
  intros Hn Hd Hl Hu. unfold subsystem_try_new. destruct (_ || _); [done|].
  destruct (tree_try_new _ _) as [t|] eqn:Et; cbn [result_bind]; [|done].
  destruct (buffer_try_with_capacity _ _) as [b|]; cbn [result_bind]; [|done].
  destruct (layout_try_new _ _) as [l|]; cbn [result_bind]; [|done].
  destruct (paint_try_new _ _) as [p|] eqn:Ep; cbn [result_bind]; [|done].
  destruct (resources_try_new _ _) as [r|]; cbn [result_bind]; [|done].
  intros [= <-]. destruct (tree_try_new_ok _ _ _ Hn Hd Et) as (HT & _).
  constructor; try done. cbn. revert Ep. unfold paint_try_new. by repeat case_match; intros [= <-].
Qed.

(** Ticks in the contexts the kernel passes. *)
Fixpoint ui_ticks {P V} `{!Payload WindowResized P} `{!Payload InputFrame P} `{!Payload UiAssetReady P}
    `{!Payload UiCommandMessage P} `{!Payload UiFramePacket P}
    (s : UiSubsystem) (ticks : list (FrameAlloc * KernelContext P V)) : option UiSubsystem :=
  match ticks with
  | [] => Some s
  | (A, c) :: ticks => '(s, _) ← ui_tick false A s c; ui_ticks s ticks
  end.

(** What each tick must do to the tree: the UI commands waiting in the inbox,
    as many as the command buffer holds, are played in order, and nothing else
    changes what the tree shows. *)
Definition tick_plays {P V} `{!Payload UiCommandMessage P} (c : UiConfig) (A : FrameAlloc)
    (k : KernelContext P V) (s s' : UiSubsystem) : Prop :=
  forall qs, bus_repr (sh_bus (kc_shared k)) qs ->
  exists t, played (fa_apply A) 0 (take (Z.to_nat (max_commands c)) (posted (inbox_of qs (kc_id k)))) (us_tree s) t /\
  forall x, shown (us_tree s') x = shown t x.

Fixpoint ticks_play {P V} `{!Payload WindowResized P} `{!Payload InputFrame P} `{!Payload UiAssetReady P}
    `{!Payload UiCommandMessage P} `{!Payload UiFramePacket P} (c : UiConfig)
    (s : UiSubsystem) (ticks : list (FrameAlloc * KernelContext P V)) : Prop :=
  match ticks with
  | [] => True
  | (A, k) :: ticks =>
      exists s' k', ui_tick false A s k = Some (s', k') /\ tick_plays c A k s s' /\ ticks_play c s' ticks
  end.

Definition queue_clear (c : UiConfig) (s : UiSubsystem) : Prop :=
  commands (us_commands s) = [] /\ cmd_capacity (us_commands s) = max_commands c.

Lemma subsystem_try_new_queue As c s : subsystem_try_new As c = Ok s -> queue_clear c s.
Proof.
  unfold subsystem_try_new. destruct (_ || _); [done|].
  destruct (tree_try_new _ _) as [t|]; cbn [result_bind]; [|done].
  destruct (buffer_try_with_capacity _ _) as [b|] eqn:Eb; cbn [result_bind]; [|done].
  destruct (layout_try_new _ _) as [l|]; cbn [result_bind]; [|done].
  destruct (paint_try_new _ _) as [p|]; cbn [result_bind]; [|done].
  destruct (resources_try_new _ _) as [r|]; cbn [result_bind]; [|done].
  intros [= <-]. revert Eb. unfold buffer_try_with_capacity. destruct (As 1%nat 0%nat); [|done]. by intros [= <-].
Qed.

Lemma ui_tick_plays {P V} `{!Payload WindowResized P} `{!Payload InputFrame P} `{!Payload UiAssetReady P}
    `{!Payload UiCommandMessage P} `{!Payload UiFramePacket P} c A s (k : KernelContext P V) qs :
  ui_ok s -> queue_clear c s -> bus_repr (sh_bus (kc_shared k)) qs ->
  exists s' k', ui_tick false A s k = Some (s', k') /\ ui_ok s' /\ queue_clear c s' /\ focus_live s' /\
  tick_plays c A k s s'.
Proof.
  intros Hs [Q0 C0] Hb. destruct (ui_tick_spec A s k qs Hs Hb) as (s1 & r & s' & b & E1 & H1 & E2 & E & H2 & C2 & F2 & _).
  exists s', (ctx_with_bus k b). do 2 (split; [done|]).
  assert (0 <= Z.max 0 (cmd_capacity (us_commands s))) as Hcap by lia.
  destruct (handle_all_queues _ _ _ _ _ _ _ E1) as (_ & _ & C1 & _); [by rewrite Q0|].
  destruct (ui_frame_plays A s1 r s' H1 E2) as (_ & _ & C3).
  split; [split; [done|congruence]|]. split; [done|]. intros qs' Hb'.
  destruct (ui_tick_spec A s k qs' Hs Hb') as (s3 & r3 & s4 & b4 & E3 & H3 & E4 & E5 & _).
  rewrite E in E5. injection E5 as <- _.
  destruct (handle_all_queues _ _ _ _ _ _ _ E3) as (T3 & _ & _ & Q3); [by rewrite Q0|].
  rewrite Q0, C0 in Q3. cbn [app] in Q3. destruct (ui_frame_plays A s3 r3 s' H3 E4) as ((t & Hp & Ht) & _).
  rewrite Q3, T3 in Hp. by exists t.
Qed.

(** C9: The UI is safe for ever: from construction on, whatever messages
    arrive, whatever the other subsystems did to the shared state in between
    and whichever allocations fail, every tick returns.  Every tick plays the
    UI commands of its inbox on the tree, first to last, as many as the buffer
    holds ([max_commands]): each one has exactly the effect [command_effect]
    gives it on parents, children and contents, or none for one of the reasons
    of [command_refused], and nothing else changes what the tree shows.  The
    tick leaves no command behind, focus and capture on live nodes only, the
    tree well formed, and as last packet only one that the renderer's command
    plan accepts, whose draws cover its items and whose bytes are as many as
    announced and within the upload budget. *)
Theorem ui_ticks_safe {P V} `{!Payload WindowResized P} `{!Payload InputFrame P} `{!Payload UiAssetReady P}
    `{!Payload UiCommandMessage P} `{!Payload UiFramePacket P}
    (As : nat -> alloc) (c : UiConfig) (s : UiSubsystem) (ticks : list (FrameAlloc * KernelContext P V))
    (Hn : 0 <= max_nodes c) (Hd : 0 <= max_depth c) (Hl : limits_ok c)
    (Hu : max_upload_bytes c + 96 <= U64_MAX) (Hnew : subsystem_try_new As c = Ok s)
    (Hbus : Forall (fun x => exists qs, bus_repr (sh_bus (kc_shared x.2)) qs) ticks) :
  exists s', ui_ticks s ticks = Some s' /\ ui_ok s' /\ ticks_play c s ticks /\
    (ticks <> [] -> commands (us_commands s') = [] /\ focus_live s').
Proof.
  pose proof (subsystem_try_new_ok As c s Hn Hd Hl Hu Hnew) as Hs.
  pose proof (subsystem_try_new_queue As c s Hnew) as Hq. clear Hnew.
  revert s Hs Hq. induction Hbus as [|[A k] ticks [qs Hb] _ IH]; intros s Hs Hq; cbn [ui_ticks ticks_play]; [by exists s|].
  destruct (ui_tick_plays c A s k qs Hs Hq Hb) as (s2 & k2 & E & H2 & Q2 & F2 & P2). rewrite E.
  cbn [mbind option_bind]. destruct (IH s2 H2 Q2) as (s' & E' & H & HP & HT). exists s'. do 2 (split; [done|]).
  split; [by exists s2, k2|]. intros _. destruct ticks as [|x ticks]; [|by apply HT]. cbn in E'. injection E' as <-.
  split; [apply Q2|done].
Qed.

(** ** A concrete payload *)
Variant any :=
| AnyResized (v : WindowResized) | AnyInput (v : InputFrame) | AnyAsset (v : UiAssetReady)
| AnyCommand (v : UiCommandMessage) | AnyFrame (v : UiFramePacket).

#[export] Instance any_resized : Payload WindowResized any :=
  {| into := AnyResized; downcast := fun p => match p with AnyResized v => Some v | _ => None end;
     downcast_into := fun v => eq_refl |}.
#[export] Instance any_input : Payload InputFrame any :=
  {| into := AnyInput; downcast := fun p => match p with AnyInput v => Some v | _ => None end;
     downcast_into := fun v => eq_refl |}.
#[export] Instance any_asset : Payload UiAssetReady any :=
  {| into := AnyAsset; downcast := fun p => match p with AnyAsset v => Some v | _ => None end;
     downcast_into := fun v => eq_refl |}.
#[export] Instance any_command : Payload UiCommandMessage any :=
  {| into := AnyCommand; downcast := fun p => match p with AnyCommand v => Some v | _ => None end;
     downcast_into := fun v => eq_refl |}.
#[export] Instance any_frame : Payload UiFramePacket any :=
  {| into := AnyFrame; downcast := fun p => match p with AnyFrame v => Some v | _ => None end;
     downcast_into := fun v => eq_refl |}.

(** Two subscribers, the UI (0) and the renderer (1), in an empty world. *)
Definition demo_ui_bus : MessageBus any := two_subscribers.
Definition demo_ui_context {V} (b : MessageBus any) (id : SubscriberId) : KernelContext any V :=
  context_on b ["ui"%string; "renderer"%string] id.

Definition demo_post (b : MessageBus any) (c : UiCommand) : MessageBus any :=
  match ctx_publish false (demo_ui_context (V := Z) b 1) 0 4 (into {| ucm_command := c |}) with
  | Some (c, _) => sh_bus (kc_shared c)
  | None => b
  end.

Lemma demo_ui_bus_repr : bus_repr demo_ui_bus [[]; []].
Proof. exact two_subscribers_repr. Qed.

Lemma demo_post_repr b qs c : bus_repr b qs -> exists qs', bus_repr (demo_post b c) qs'.
Proof.
  intros H. unfold demo_post.
  destruct (ctx_publish_spec (demo_ui_context (V := Z) b 1) qs 0 4 (into {| ucm_command := c |}) H) as (b' & r & -> & Hb & _).
  by eexists.
Qed.

Definition demo_alloc : FrameAlloc := {|
  fa_route := fun _ _ => alloc_all; fa_apply := fun _ => alloc_all; fa_layout := alloc_all;
  fa_paint := alloc_all; fa_snapshot := alloc_all; fa_encode := alloc_all |}.

(** A frame with a command to create a panel under the root and one on a node
    that does not exist; then one without memory. *)
Definition demo_ticks : list (FrameAlloc * KernelContext any Z) := [
  (demo_alloc, demo_ui_context (demo_post (demo_post demo_ui_bus
     (UiCommand.Create demo_r panel)) (UiCommand.Destroy demo_b)) 0);
  ({| fa_route := fun _ _ _ => false; fa_apply := fun _ _ => false; fa_layout := fun _ => false;
      fa_paint := fun _ => false; fa_snapshot := fun _ => false; fa_encode := fun _ => false |},
   demo_ui_context demo_ui_bus 0)].

Definition demo_new : result UiError UiSubsystem := subsystem_try_new (fun _ => alloc_all) demo_config.

Example demo_ticks_run :
  match demo_new with
  | Ok s => (fun s' => (count (us_tree s'), zlen (commands (us_commands s')))) <$> ui_ticks s demo_ticks
  | Err _ => None
  end = Some (2, 0).
Proof. vm_compute. reflexivity. Qed.

Lemma ui_ticks_safe_witness :
  match demo_new with
  | Ok s => exists s', ui_ticks s demo_ticks = Some s' /\ ui_ok s' /\ ticks_play demo_config s demo_ticks /\
      commands (us_commands s') = [] /\ focus_live s'
  | Err _ => False
  end.
Proof.
  destruct demo_new as [s|] eqn:E; [|vm_compute in E; discriminate E].
  destruct (ui_ticks_safe (fun _ => alloc_all) demo_config s demo_ticks) as (s' & H & H1 & HP & H2).
  - cbn; lia.
  - cbn; lia.
  - repeat split; discriminate.
  - cbn. unfold U64_MAX. lia.
  - exact E.
  - destruct (demo_post_repr _ _ (UiCommand.Create demo_r panel) demo_ui_bus_repr) as [qs H].
    destruct (demo_post_repr _ _ (UiCommand.Destroy demo_b) H) as [qs' H'].
    repeat constructor; [by exists qs'|]. exists [[]; []]. exact demo_ui_bus_repr.
  - exists s'. split; [exact H|]. split; [exact H1|]. split; [exact HP|]. apply H2. discriminate.
Defined.
