(* ===== verification/Present.v ===== *)
(** The presentation engine ([platform/linux/present.rs]): the upload mirrors a
    renderer fills and [present_frame], the chain wait - acquire - record -
    submit - present, with the wrappers of [platform/linux/vulkan.rs] and
    [swapchain.rs] it calls.

    The Vulkan driver is a parameter: [Driver] gives the outcome of the [k]-th
    external call.  What the calls do to the objects the engine shares with the
    GPU is Vulkan's documented behaviour: a fence is signalled, pending (a
    submission will signal it) or unsignalled, and an infinite wait on an
    unsignalled one without a submission never returns; acquiring signals the
    semaphore, also with [VK_SUBOPTIMAL_KHR]; acquiring with a semaphore that is
    already signalled is invalid.

    Theorems: what a presented frame executes, that host writes and submissions
    happen only when no submission is pending, and that the chain cannot block
    unless a submission failed after its fence was reset (it then does). *)

From S2P Require Import Prelude F32 GpuUpload UiComponents UiPaint UiUpload.

Local Open Scope Z_scope.
Local Open Scope kit_scope.

Definition UI_UPLOAD_CAPACITY : Z := 16 * 1024 * 1024.
Definition WORLD_UPLOAD_CAPACITY : Z := 4 * 1024 * 1024.

Module VulkanLoaderError.
Inductive VulkanLoaderError :=
| Library | MissingEntry | ApiQuery (r : Z) | MissingCommand | Api (r : Z) | NoPhysicalDevices
| InvalidQueuePlan | OutOfDate | Suboptimal | AllocationFailed.
End VulkanLoaderError.
Abbreviation VulkanLoaderError := VulkanLoaderError.VulkanLoaderError.

Module PresentError.
Inductive PresentError :=
| Vulkan (e : VulkanLoaderError) | NoSuitableDevice | NullWindowHandle | FormatUnavailable
| AllocationFailed.
End PresentError.
Abbreviation PresentError := PresentError.PresentError.

Module PresentStatus.
Inductive PresentStatus := Presented | OutOfDate.
End PresentStatus.
Abbreviation PresentStatus := PresentStatus.PresentStatus.

Record Extent2D := { e_width : Z; e_height : Z }.

(** ** The state *)
Variant fence_status := Signalled | Pending | Unsignalled.

(** The fence, whether [image_ready] is signalled, and the commands recorded in
    [buffer]. *)
Variant gpu_command :=
| CopyBuffer (world : bool) (size : Z)
| BufferBarrier (world : bool) (size : Z) (reader_is_shader : bool)
| WorldPass (image : Z) (extent : Extent2D) (color : rgba) (camera : list Z) (draws : list WorldDrawCommand)
| UiPass (image : Z) (extent : Extent2D) (color : rgba) (draws : list UiDrawCommand)
| ImageTransition (image old_layout new_layout : Z)
| ClearImage (image : Z) (color : rgba).

Record FrameState := {
  fs_fence : fence_status;
  fs_image_ready : bool;
  fs_buffer : list gpu_command
}.

(** [nb_coherent] and [nb_host_visible] are the memory property bits; [nb_bytes]
    are the bytes last written at offset 0. *)
Record NativeBuffer := {
  nb_size : Z;
  nb_host_visible : bool;
  nb_coherent : bool;
  nb_bytes : list Z
}.

Record PresentEngine := {
  pe_ui_pipeline : bool;
  pe_world_pipeline : bool;
  pe_ui_targets : option Z;      (* the number of framebuffers *)
  pe_images : Z;                 (* the number of swapchain images *)
  pe_frames : list FrameState;
  pe_image_index : Z;
  pe_color : rgba;
  pe_extent : Extent2D;
  pe_ui_staging : NativeBuffer;
  pe_world_staging : NativeBuffer;
  pe_ui_device : list Z;
  pe_world_device : list Z;
  pe_ui_upload : list Z;
  pe_ui_draw_commands : list UiDrawCommand;
  pe_world_upload : list Z;
  pe_world_transfer : UploadState;
  pe_world_view_projection : list Z;
  pe_world_draw_commands : list WorldDrawCommand
}.

(** ** Field updates *)
Definition pe_with_frames (e : PresentEngine) (f : list FrameState) (i : Z) : PresentEngine := {|
  pe_ui_pipeline := pe_ui_pipeline e; pe_world_pipeline := pe_world_pipeline e;
  pe_ui_targets := pe_ui_targets e; pe_images := pe_images e; pe_frames := f; pe_image_index := i;
  pe_color := pe_color e; pe_extent := pe_extent e; pe_ui_staging := pe_ui_staging e;
  pe_world_staging := pe_world_staging e; pe_ui_device := pe_ui_device e;
  pe_world_device := pe_world_device e; pe_ui_upload := pe_ui_upload e;
  pe_ui_draw_commands := pe_ui_draw_commands e; pe_world_upload := pe_world_upload e;
  pe_world_transfer := pe_world_transfer e; pe_world_view_projection := pe_world_view_projection e;
  pe_world_draw_commands := pe_world_draw_commands e |}.
Definition pe_with_memory (e : PresentEngine) (us ws : NativeBuffer) (ud wd : list Z)
    (t : UploadState) : PresentEngine := {|
  pe_ui_pipeline := pe_ui_pipeline e; pe_world_pipeline := pe_world_pipeline e;
  pe_ui_targets := pe_ui_targets e; pe_images := pe_images e; pe_frames := pe_frames e;
  pe_image_index := pe_image_index e;
  pe_color := pe_color e; pe_extent := pe_extent e; pe_ui_staging := us;
  pe_world_staging := ws; pe_ui_device := ud; pe_world_device := wd; pe_ui_upload := pe_ui_upload e;
  pe_ui_draw_commands := pe_ui_draw_commands e; pe_world_upload := pe_world_upload e;
  pe_world_transfer := t; pe_world_view_projection := pe_world_view_projection e;
  pe_world_draw_commands := pe_world_draw_commands e |}.
Definition pe_with_ui (e : PresentEngine) (u : list Z) (c : list UiDrawCommand) : PresentEngine := {|
  pe_ui_pipeline := pe_ui_pipeline e; pe_world_pipeline := pe_world_pipeline e;
  pe_ui_targets := pe_ui_targets e; pe_images := pe_images e; pe_frames := pe_frames e;
  pe_image_index := pe_image_index e;
  pe_color := pe_color e; pe_extent := pe_extent e; pe_ui_staging := pe_ui_staging e;
  pe_world_staging := pe_world_staging e; pe_ui_device := pe_ui_device e;
  pe_world_device := pe_world_device e; pe_ui_upload := u;
  pe_ui_draw_commands := c; pe_world_upload := pe_world_upload e;
  pe_world_transfer := pe_world_transfer e; pe_world_view_projection := pe_world_view_projection e;
  pe_world_draw_commands := pe_world_draw_commands e |}.
Definition pe_with_world (e : PresentEngine) (u : list Z) (t : UploadState) (v : list Z)
    (c : list WorldDrawCommand) : PresentEngine := {|
  pe_ui_pipeline := pe_ui_pipeline e; pe_world_pipeline := pe_world_pipeline e;
  pe_ui_targets := pe_ui_targets e; pe_images := pe_images e; pe_frames := pe_frames e;
  pe_image_index := pe_image_index e;
  pe_color := pe_color e; pe_extent := pe_extent e; pe_ui_staging := pe_ui_staging e;
  pe_world_staging := pe_world_staging e; pe_ui_device := pe_ui_device e;
  pe_world_device := pe_world_device e; pe_ui_upload := pe_ui_upload e;
  pe_ui_draw_commands := pe_ui_draw_commands e; pe_world_upload := u;
  pe_world_transfer := t; pe_world_view_projection := v; pe_world_draw_commands := c |}.
Definition pe_with_targets (e : PresentEngine) (u w : bool) (t : option Z) (n : Z) (x : Extent2D)
  : PresentEngine := {|
  pe_ui_pipeline := u; pe_world_pipeline := w;
  pe_ui_targets := t; pe_images := n; pe_frames := pe_frames e; pe_image_index := pe_image_index e;
  pe_color := pe_color e; pe_extent := x; pe_ui_staging := pe_ui_staging e;
  pe_world_staging := pe_world_staging e; pe_ui_device := pe_ui_device e;
  pe_world_device := pe_world_device e; pe_ui_upload := pe_ui_upload e;
  pe_ui_draw_commands := pe_ui_draw_commands e; pe_world_upload := pe_world_upload e;
  pe_world_transfer := pe_world_transfer e; pe_world_view_projection := pe_world_view_projection e;
  pe_world_draw_commands := pe_world_draw_commands e |}.

(** ** The mirrors *)
Definition set_ui_upload (A : alloc) (e : PresentEngine) (bytes : list Z)
  : PresentEngine * result PresentError unit :=
  if UI_UPLOAD_CAPACITY <? zlen bytes then (e, Err PresentError.AllocationFailed)
  else if A 0%nat then (pe_with_ui e bytes (pe_ui_draw_commands e), Ok tt)
  else (e, Err PresentError.AllocationFailed).

(** The loop over the ranges; [copy_from_slice] has equal lengths. *)
Fixpoint copy_ranges (mirror : list Z) (ranges : list UiUploadRange) (total_bytes : Z)
  : list Z * result PresentError unit :=
  match ranges with
  | [] => (mirror, Ok tt)
  | r :: ranges =>
      match checked_add 64 (ur_offset r) (zlen (ur_bytes r)) with
      | None => (mirror, Err PresentError.AllocationFailed)
      | Some end_ =>
          if total_bytes <? end_ then (mirror, Err PresentError.AllocationFailed)
          else copy_ranges (apply_range mirror r) ranges total_bytes
      end
  end.

Definition set_ui_upload_ranges (A : alloc) (e : PresentEngine) (ranges : list UiUploadRange)
    (total_bytes : Z) : PresentEngine * result PresentError unit :=
  if UI_UPLOAD_CAPACITY <? total_bytes then (e, Err PresentError.AllocationFailed)
  else if A 0%nat then
    let '(mirror, r) := copy_ranges (resize total_bytes 0 (pe_ui_upload e)) ranges total_bytes in
    (pe_with_ui e mirror (pe_ui_draw_commands e), r)
  else (e, Err PresentError.AllocationFailed).

Definition set_ui_draw_commands (A : alloc) (e : PresentEngine) (commands : list UiDrawCommand)
  : PresentEngine * result PresentError unit :=
  if A 0%nat then (pe_with_ui e (pe_ui_upload e) commands, Ok tt)
  else (e, Err PresentError.AllocationFailed).

Definition set_world_upload (A : alloc) (e : PresentEngine) (bytes camera : list Z)
    (commands : list WorldDrawCommand) : PresentEngine * result PresentError unit :=
  if negb (valid_world_packet bytes WORLD_UPLOAD_CAPACITY camera commands)
  then (e, Err PresentError.AllocationFailed)
  else if A 0%nat && A 1%nat then
    (pe_with_world e bytes (upload_invalidate (pe_world_transfer e)) camera commands, Ok tt)
  else (e, Err PresentError.AllocationFailed).

Definition set_world_camera (e : PresentEngine) (camera : list Z)
  : PresentEngine * result PresentError unit :=
  if forallb GpuUpload.is_finite camera then
    (pe_with_world e (pe_world_upload e) (pe_world_transfer e) camera (pe_world_draw_commands e), Ok tt)
  else (e, Err PresentError.AllocationFailed).

(** ** External calls *)

(** The [k]-th external call fails with [dr_call k], if that is an error; the
    acquisition among them yields [dr_acquire k], the surface configuration for
    a window size [dr_configure k size], the images of a new swapchain are
    [dr_images k] many.  The two flags say whether the shaders were embedded
    when the program was built. *)
Record Driver := {
  dr_call : nat -> option VulkanLoaderError;
  dr_acquire : nat -> result VulkanLoaderError Z;
  dr_configure : nat -> Extent2D -> result PresentError Extent2D;
  dr_images : nat -> result VulkanLoaderError Z;
  dr_ui_shaders : bool;
  dr_world_shaders : bool
}.

Variant event :=
| EvWait (frame : Z)
| EvAcquire (frame : Z)
| EvHostWrite (world : bool) (bytes : list Z)
| EvSubmit (frame : Z) (commands : list gpu_command)
| EvPresent (image : Z).

(** [ps_log] is a ghost journal of what the GPU or the driver is given. *)
Record PresentState := {
  ps_engine : PresentEngine;
  ps_calls : nat;
  ps_log : list event
}.

(** [Blocked]: the call never returns.  [Invalid]: a panic or an invalid use of
    Vulkan. *)
Inductive outcome (A : Type) :=
| Ret (s : PresentState) (r : result PresentError A)
| Blocked
| Invalid.
Arguments Ret {A} s r. Arguments Blocked {A}. Arguments Invalid {A}.

Definition PM (A : Type) : Type := PresentState -> outcome A.
Definition pm_ret {A} (a : A) : PM A := fun s => Ret s (Ok a).
Definition pm_fail {A} (e : PresentError) : PM A := fun s => Ret s (Err e).
Definition pm_bind {A B} (m : PM A) (f : A -> PM B) : PM B := fun s =>
  match m s with
  | Ret s (Ok a) => f a s
  | Ret s (Err e) => Ret s (Err e)
  | Blocked => Blocked
  | Invalid => Invalid
  end.

Declare Scope present_scope.
Delimit Scope present_scope with present.
Notation "x <~ m ;; k" := (pm_bind m (fun x => k))
  (at level 100, m at next level, right associativity) : present_scope.
Notation "m ;;; k" := (pm_bind m (fun _ => k)) (at level 100, right associativity) : present_scope.
Local Open Scope present_scope.

Definition engine : PM PresentEngine := fun s => Ret s (Ok (ps_engine s)).
Definition update (f : PresentEngine -> PresentEngine) : PM unit := fun s =>
  Ret {| ps_engine := f (ps_engine s); ps_calls := ps_calls s; ps_log := ps_log s |} (Ok tt).
Definition emit (e : event) : PM unit := fun s =>
  Ret {| ps_engine := ps_engine s; ps_calls := ps_calls s; ps_log := ps_log s ++ [e] |} (Ok tt).

Section Calls.
Context (D : Driver).

(** One external call. *)
Definition ext : PM unit := fun s =>
  Ret {| ps_engine := ps_engine s; ps_calls := S (ps_calls s); ps_log := ps_log s |}
    (match dr_call D (ps_calls s) with
     | None => Ok tt
     | Some e => Err (PresentError.Vulkan e)
     end).

Definition frame_at (i : Z) : PM FrameState := fun s =>
  match pe_frames (ps_engine s) !z i with
  | Some f => Ret s (Ok f)
  | None => Invalid
  end.

Definition update_frame (i : Z) (f : FrameState -> FrameState) : PM unit :=
  update (fun e =>
    match pe_frames e !z i with
    | Some x => pe_with_frames e (zset (pe_frames e) i (f x)) (pe_image_index e)
    | None => e
    end).

Definition with_fence (st : fence_status) (f : FrameState) : FrameState :=
  {| fs_fence := st; fs_image_ready := fs_image_ready f; fs_buffer := fs_buffer f |}.
Definition with_ready (b : bool) (f : FrameState) : FrameState :=
  {| fs_fence := fs_fence f; fs_image_ready := b; fs_buffer := fs_buffer f |}.
Definition with_buffer (b : list gpu_command) (f : FrameState) : FrameState :=
  {| fs_fence := fs_fence f; fs_image_ready := fs_image_ready f; fs_buffer := b |}.

(** [fence.wait(UINT64_MAX)]. *)
Definition fence_wait (i : Z) : PM unit :=
  f <~ frame_at i;;
  match fs_fence f with
  | Unsignalled => fun _ => Blocked
  | _ => ext;;; emit (EvWait i);;; update_frame i (with_fence Signalled)
  end.

Definition fence_reset (i : Z) : PM unit := ext;;; update_frame i (with_fence Unsignalled).

(** Reuse of a signalled semaphore is invalid; [VK_SUBOPTIMAL_KHR] is a success
    of the driver that the wrapper reports as an error. *)
Definition swapchain_acquire (i : Z) : PM (result VulkanLoaderError Z) :=
  f <~ frame_at i;;
  if fs_image_ready f then fun _ => Invalid
  else fun s =>
    let r := dr_acquire D (ps_calls s) in
    (emit (EvAcquire i);;;
     match r with
     | Ok _ | Err VulkanLoaderError.Suboptimal => update_frame i (with_ready true)
     | Err _ => pm_ret tt
     end;;;
     pm_ret r)
    {| ps_engine := ps_engine s; ps_calls := S (ps_calls s); ps_log := ps_log s |}.

(** The checks of [write_host_visible] at offset 0. *)
Definition host_write_fits (b : NativeBuffer) (bytes : list Z) (non_coherent_atom_size : Z) : bool :=
  let atom := if nb_coherent b then 1 else non_coherent_atom_size in
  nb_host_visible b && (zlen bytes <=? nb_size b) && negb (atom =? 0) &&
  match checked_add 64 (zlen bytes) (atom - 1) with
  | Some m => m / atom * atom <=? nb_size b
  | None => false
  end.

Definition staging (world : bool) (e : PresentEngine) : NativeBuffer :=
  if world then pe_world_staging e else pe_ui_staging e.
Definition upload (world : bool) (e : PresentEngine) : list Z :=
  if world then pe_world_upload e else pe_ui_upload e.

(** The bytes replace the beginning of the buffer. *)
Definition written (b : NativeBuffer) (bytes : list Z) : NativeBuffer :=
  {| nb_size := nb_size b; nb_host_visible := nb_host_visible b; nb_coherent := nb_coherent b;
     nb_bytes := bytes ++ drop (length bytes) (nb_bytes b) |}.

Definition store_staging (world : bool) (b : NativeBuffer) (e : PresentEngine) : PresentEngine :=
  if world then pe_with_memory e (pe_ui_staging e) b (pe_ui_device e) (pe_world_device e) (pe_world_transfer e)
  else pe_with_memory e b (pe_world_staging e) (pe_ui_device e) (pe_world_device e) (pe_world_transfer e).

(** Map, copy, and flush when the memory is not coherent. *)
Definition write_staging (world : bool) : PM unit :=
  e <~ engine;;
  let b := staging world e in
  let bytes := upload world e in
  if negb (host_write_fits b bytes 256) then pm_fail (PresentError.Vulkan VulkanLoaderError.InvalidQueuePlan)
  else
    ext;;;
    update (store_staging world (written b bytes));;;
    emit (EvHostWrite world bytes);;;
    if nb_coherent b then pm_ret tt else ext.

Definition record (i : Z) (c : gpu_command) : PM unit :=
  ext;;; update_frame i (fun f => with_buffer (fs_buffer f ++ [c]) f).

(** [u64::try_from] and the [size == 0] checks hold of a non-empty upload. *)
Definition record_upload (i : Z) (world reader_is_shader : bool) : PM unit :=
  write_staging world;;;
  e <~ engine;;
  record i (CopyBuffer world (zlen (upload world e)));;;
  record i (BufferBarrier world (zlen (upload world e)) reader_is_shader).

Definition draw_range_bad (vertex_count instance_count first_vertex : Z) : bool :=
  (vertex_count =? 0) || (instance_count =? 0) ||
  match checked_add 32 first_vertex vertex_count with Some e => 36 <? e | None => true end.

(** The guards shared by [cmd_ui_draw] and [cmd_world_draw]; the handles are
    live. *)
Definition pass_ok (x : Extent2D) (draws : list (Z * Z * Z)) : bool :=
  negb (e_width x =? 0) && negb (e_height x =? 0) && negb (zlen draws =? 0) &&
  forallb (fun '(v, n, f) => negb (draw_range_bad v n f)) draws.

Definition framebuffer (image : Z) : PM unit :=
  e <~ engine;;
  match pe_ui_targets e with
  | Some n => if image <? n then pm_ret tt
              else pm_fail (PresentError.Vulkan VulkanLoaderError.InvalidQueuePlan)
  | None => pm_fail (PresentError.Vulkan VulkanLoaderError.InvalidQueuePlan)
  end.

Definition cmd_world_draw (i image : Z) : PM unit :=
  e <~ engine;;
  if pass_ok (pe_extent e)
       (map (fun d => (wd_vertex_count d, wd_instance_count d, wd_first_vertex d)) (pe_world_draw_commands e))
  then record i (WorldPass image (pe_extent e) (pe_color e) (pe_world_view_projection e) (pe_world_draw_commands e))
  else pm_fail (PresentError.Vulkan VulkanLoaderError.InvalidQueuePlan).

Definition cmd_ui_draw (i image : Z) : PM unit :=
  e <~ engine;;
  if pass_ok (pe_extent e)
       (map (fun d => (ud_vertex_count d, ud_instance_count d, ud_first_vertex d)) (pe_ui_draw_commands e))
  then record i (UiPass image (pe_extent e) (pe_color e) (pe_ui_draw_commands e))
  else pm_fail (PresentError.Vulkan VulkanLoaderError.InvalidQueuePlan).

Definition nonempty {X} (l : list X) : bool := negb (zlen l =? 0).

Definition LAYOUT_UNDEFINED : Z := 0.
Definition LAYOUT_GENERAL : Z := 1.
Definition LAYOUT_PRESENT_SRC : Z := 1000001002.

(** [images()[image]] panics out of range. *)
Definition record_clear (i image : Z) : PM unit :=
  e <~ engine;;
  if pe_images e <=? image then fun _ => Invalid
  else
    record i (ImageTransition image LAYOUT_UNDEFINED LAYOUT_GENERAL);;;
    record i (ClearImage image (pe_color e));;;
    record i (ImageTransition image LAYOUT_GENERAL LAYOUT_PRESENT_SRC).

(** The recording between [begin] and [end]: whether the world was rendered. *)
Definition record_frame (i image : Z) : PM bool :=
  e <~ engine;;
  world_rendered <~
    (if nonempty (pe_world_upload e) && pe_world_pipeline e && negb (nonempty (pe_ui_upload e)) then
       (if upload_pending (pe_world_transfer e) then record_upload i true true else pm_ret tt);;;
       framebuffer image;;;
       cmd_world_draw i image;;;
       pm_ret true
     else if nonempty (pe_ui_upload e) then
       record_upload i false (pe_ui_pipeline e && nonempty (pe_ui_draw_commands e));;;
       pm_ret false
     else pm_ret false);;
  (if negb world_rendered && nonempty (pe_ui_draw_commands e) && pe_ui_pipeline e &&
      bool_decide (is_Some (pe_ui_targets e))
   then framebuffer image;;; cmd_ui_draw i image
   else if negb world_rendered then record_clear i image
   else pm_ret tt);;;
  pm_ret world_rendered.

(** What the GPU does with a submission: the copies, in order. *)
Definition gpu_copy (e : PresentEngine) (c : gpu_command) : PresentEngine :=
  match c with
  | CopyBuffer true n =>
      pe_with_memory e (pe_ui_staging e) (pe_world_staging e) (pe_ui_device e)
        (take (Z.to_nat n) (nb_bytes (pe_world_staging e)) ++ drop (Z.to_nat n) (pe_world_device e))
        (pe_world_transfer e)
  | CopyBuffer false n =>
      pe_with_memory e (pe_ui_staging e) (pe_world_staging e)
        (take (Z.to_nat n) (nb_bytes (pe_ui_staging e)) ++ drop (Z.to_nat n) (pe_ui_device e))
        (pe_world_device e) (pe_world_transfer e)
  | _ => e
  end.

(** [queue_submit] waits on [image_ready] and signals the fence when done. *)
Definition queue_submit (i : Z) : PM unit :=
  ext;;;
  f <~ frame_at i;;
  emit (EvSubmit i (fs_buffer f));;;
  update_frame i (fun f => with_ready false (with_fence Pending f));;;
  update (fun e => foldl gpu_copy e (fs_buffer f)).

Definition swapchain_present (image : Z) : PM (result VulkanLoaderError unit) := fun s =>
  let s' := {| ps_engine := ps_engine s; ps_calls := S (ps_calls s); ps_log := ps_log s ++ [EvPresent image] |} in
  Ret s' (Ok (match dr_call D (ps_calls s) with None => Ok tt | Some e => Err e end)).

Fixpoint wait_frames (l : list Z) : PM unit :=
  match l with
  | [] => pm_ret tt
  | i :: l => fence_wait i;;; wait_frames l
  end.

Definition world_submitted : PM unit :=
  update (fun e => pe_with_memory e (pe_ui_staging e) (pe_world_staging e) (pe_ui_device e)
    (pe_world_device e) (upload_submitted (pe_world_transfer e) (zlen (pe_world_upload e)))).

(** From the acquired image on. *)
Definition present_image (i image : Z) : PM PresentStatus :=
  update (fun e => pe_with_frames e (pe_frames e) (wrapping_add 32 (pe_image_index e) 1));;;
  ext;;; update_frame i (with_buffer []);;;
  ext;;;
  world_rendered <~ record_frame i image;;
  ext;;;
  fence_reset i;;;
  queue_submit i;;;
  (if world_rendered : bool then world_submitted else pm_ret tt);;;
  r <~ swapchain_present image;;
  match r with
  | Ok _ => pm_ret PresentStatus.Presented
  | Err VulkanLoaderError.OutOfDate => pm_ret PresentStatus.OutOfDate
  | Err e => pm_fail (PresentError.Vulkan e)
  end.

Definition present_frame : PM PresentStatus :=
  e <~ engine;;
  if nonempty (pe_world_upload e) && nonempty (pe_ui_upload e) then pm_fail PresentError.AllocationFailed
  else if nonempty (pe_world_upload e) && negb (pe_world_pipeline e)
  then pm_fail (PresentError.Vulkan VulkanLoaderError.InvalidQueuePlan)
  else
    wait_frames (map Z.of_nat (seq 0 (length (pe_frames e))));;;
    if zlen (pe_frames e) =? 0 then fun _ => Invalid
    else
      let i := pe_image_index e mod zlen (pe_frames e) in
      fence_wait i;;;
      r <~ swapchain_acquire i;;
      match r with
      | Ok image => present_image i image
      | Err VulkanLoaderError.OutOfDate => pm_ret PresentStatus.OutOfDate
      | Err e => pm_fail (PresentError.Vulkan e)
      end.

Definition lift {A} (r : result PresentError A) : PM A := fun s => Ret s r.
Definition counted_call {A} (f : nat -> result PresentError A) : PM A := fun s =>
  lift (f (ps_calls s)) {| ps_engine := ps_engine s; ps_calls := S (ps_calls s); ps_log := ps_log s |}.

(** [recreate]: the old pipelines and targets go first, so an error half-way
    leaves the engine without them.  The frame slots stay as they are.  Here it
    is what a frame sees of it; the objects, and the replacement swapchain that
    does not survive, are in [PresentBuild]. *)
Definition recreate (size : Extent2D) : PM unit :=
  ext;;;
  extent <~ counted_call (fun k => dr_configure D k size);;
  update (fun e => pe_with_targets e false false None (pe_images e) extent);;;
  ext;;;
  images <~ counted_call (fun k => map_err PresentError.Vulkan (dr_images D k));;
  update (fun e => pe_with_targets e false false None images extent);;;
  ext;;;
  update (fun e => pe_with_targets e false false (Some images) images extent);;;
  ext;;;
  update (fun e => pe_with_targets e (dr_ui_shaders D) false (Some images) images extent);;;
  ext;;;
  update (fun e => pe_with_targets e (dr_ui_shaders D) (dr_world_shaders D) (Some images) images extent).
End Calls.

(** ** Specifications

    [runs m s Q E]: [m] returns from [s], in a state of [Q] with its value or in
    a state of [E] with an error. *)
Definition runs {A} (m : PM A) (s : PresentState) (Q : A -> PresentState -> Prop)
    (E : PresentState -> Prop) : Prop :=
  match m s with
  | Ret s (Ok a) => Q a s
  | Ret s (Err _) => E s
  | _ => False
  end.

Lemma runs_bind {A B} (m : PM A) (f : A -> PM B) s Q E :
  runs m s (fun a s => runs (f a) s Q E) E -> runs (pm_bind m f) s Q E.
Proof. unfold runs, pm_bind. by destruct (m s) as [s' [a|e]| |]. Qed.

Lemma runs_assoc {A B C} (m : PM A) (f : A -> PM B) (g : B -> PM C) s Q E :
  runs (pm_bind (pm_bind m f) g) s Q E -> runs (pm_bind m (fun a => pm_bind (f a) g)) s Q E.
Proof. unfold runs, pm_bind. by destruct (m s) as [s' [a|e]| |]. Qed.

Lemma runs_mono {A} (m : PM A) s (Q Q' : A -> PresentState -> Prop) (E E' : PresentState -> Prop) :
  runs m s Q E -> (forall a s, Q a s -> Q' a s) -> (forall s, E s -> E' s) -> runs m s Q' E'.
Proof. unfold runs. destruct (m s) as [s' [a|e]| |]; auto. Qed.

(** What a frame reads and does not change. *)
Definition inputs (e : PresentEngine) :=
  (pe_ui_pipeline e, pe_world_pipeline e, pe_ui_targets e, pe_images e, pe_color e, pe_extent e,
   pe_ui_upload e, pe_ui_draw_commands e, (pe_world_upload e, pe_world_view_projection e, pe_world_draw_commands e)).

(** The journal of one complete frame. *)
Definition frame_writes (e : PresentEngine) : list event :=
  if nonempty (pe_world_upload e)
  then (if upload_pending (pe_world_transfer e) then [EvHostWrite true (pe_world_upload e)] else [])
  else if nonempty (pe_ui_upload e) then [EvHostWrite false (pe_ui_upload e)] else [].

Definition ui_drawn (e : PresentEngine) : bool :=
  nonempty (pe_ui_draw_commands e) && pe_ui_pipeline e && bool_decide (is_Some (pe_ui_targets e)).

Definition upload_commands (world : bool) (bytes : list Z) (shader : bool) : list gpu_command :=
  [CopyBuffer world (zlen bytes); BufferBarrier world (zlen bytes) shader].

Definition frame_plan (e : PresentEngine) (image : Z) : list gpu_command :=
  if nonempty (pe_world_upload e) then
    (if upload_pending (pe_world_transfer e) then upload_commands true (pe_world_upload e) true else []) ++
    [WorldPass image (pe_extent e) (pe_color e) (pe_world_view_projection e) (pe_world_draw_commands e)]
  else
    (if nonempty (pe_ui_upload e)
     then upload_commands false (pe_ui_upload e) (pe_ui_pipeline e && nonempty (pe_ui_draw_commands e))
     else []) ++
    (if ui_drawn e then [UiPass image (pe_extent e) (pe_color e) (pe_ui_draw_commands e)]
     else [ImageTransition image LAYOUT_UNDEFINED LAYOUT_GENERAL; ClearImage image (pe_color e);
           ImageTransition image LAYOUT_GENERAL LAYOUT_PRESENT_SRC]).

Definition frame_ids (e : PresentEngine) : list Z := map Z.of_nat (seq 0 (length (pe_frames e))).
Definition current_frame (e : PresentEngine) : Z := pe_image_index e mod zlen (pe_frames e).

Definition frame_waits (e : PresentEngine) : list event :=
  map EvWait (frame_ids e) ++ [EvWait (current_frame e)].

Definition frame_journal (e : PresentEngine) (image : Z) : list event :=
  frame_waits e ++ EvAcquire (current_frame e) :: frame_writes e ++
  [EvSubmit (current_frame e) (frame_plan e image); EvPresent image].

(** Between two frames: no fence is unsignalled, no semaphore signalled. *)
Definition frame_idle (f : FrameState) : Prop := fs_fence f <> Unsignalled /\ fs_image_ready f = false.

Record engine_ok (e : PresentEngine) : Prop := {
  eo_frames : 0 < zlen (pe_frames e);
  eo_idle : Forall frame_idle (pe_frames e)
}.

(** The driver hands out images of the swapchain. *)
Definition driver_ok (D : Driver) (images : Z) : Prop :=
  forall k i, dr_acquire D k = Ok i -> 0 <= i < images.

(** ** Stages of a frame

    [e0] and [log0] are the engine and the journal before the frame. *)
Lemma prefix_of_map_seq n m : (n <= m)%nat ->
  map EvWait (map Z.of_nat (seq 0 n)) `prefix_of` map EvWait (map Z.of_nat (seq 0 m)).
Proof.
  intros H. replace m with (n + (m - n))%nat by lia. rewrite seq_app, !map_app. apply prefix_app_r. done.
Qed.

Section Stages.
Context (D : Driver) (e0 : PresentEngine) (log0 : list event).

Record stage (l : list event) (fs : list FrameState) (s : PresentState) : Prop := {
  sg_log : ps_log s = log0 ++ l;
  sg_frames : pe_frames (ps_engine s) = fs;
  sg_inputs : inputs (ps_engine s) = inputs e0;
  sg_transfer : pe_world_transfer (ps_engine s) = pe_world_transfer e0;
  sg_devices : (pe_ui_device (ps_engine s), pe_world_device (ps_engine s)) = (pe_ui_device e0, pe_world_device e0);
  sg_staged : forall w, EvHostWrite w (upload w e0) ∈ l ->
    take (length (upload w e0)) (nb_bytes (staging w (ps_engine s))) = upload w e0
}.

(** An error leaves a journal that is the beginning of [full], and no fence
    unsignalled. *)
Definition broken (full : list event) (s : PresentState) : Prop := exists l fs,
  stage l fs s /\ l `prefix_of` full /\ Forall (fun f => fs_fence f <> Unsignalled) fs.

Lemma stage_call l fs s k : stage l fs s ->
  stage l fs {| ps_engine := ps_engine s; ps_calls := k; ps_log := ps_log s |}.
Proof. intros []. by constructor. Qed.

Lemma runs_ext l fs s (Q : PresentState -> Prop) E : stage l fs s ->
  (forall s, stage l fs s -> Q s) -> (forall s, stage l fs s -> E s) ->
  runs (ext D) s (fun _ => Q) E.
Proof.
  intros H HQ HE. unfold runs, ext. destruct (dr_call D (ps_calls s)); [apply HE|apply HQ]; by apply stage_call.
Qed.

Lemma runs_emit l fs s ev (Q : PresentState -> Prop) E : stage l fs s ->
  (forall w b, ev <> EvHostWrite w b) -> (forall s, stage (l ++ [ev]) fs s -> Q s) ->
  runs (emit ev) s (fun _ => Q) E.
Proof.
  intros [] Hev HQ. apply HQ. constructor; cbn; try done; [by rewrite sg_log0, (assoc_L (++))|].
  intros w [H|H%list_elem_of_singleton]%elem_of_app; [auto|]. by destruct (Hev w (upload w e0)).
Qed.

Lemma runs_update_frame l fs s i g f (Q : PresentState -> Prop) E : stage l fs s -> fs !z i = Some f ->
  (forall s, stage l (zset fs i (g f)) s -> Q s) -> runs (update_frame i g) s (fun _ => Q) E.
Proof.
  intros [] Hf HQ. apply HQ. cbn. rewrite sg_frames0, Hf. by constructor.
Qed.

Lemma runs_frame_at l fs s i f (Q : FrameState -> PresentState -> Prop) E : stage l fs s ->
  fs !z i = Some f -> Q f s -> runs (frame_at i) s Q E.
Proof. intros [] Hf HQ. unfold runs, frame_at. by rewrite sg_frames0, Hf. Qed.

Lemma runs_fence_wait l fs s i f (Q : PresentState -> Prop) E : stage l fs s -> fs !z i = Some f ->
  fs_fence f <> Unsignalled ->
  (forall s, stage (l ++ [EvWait i]) (zset fs i (with_fence Signalled f)) s -> Q s) ->
  (forall s, stage l fs s -> E s) -> runs (fence_wait D i) s (fun _ => Q) E.
Proof.
  intros H Hf Hs HQ HE. apply runs_bind, (runs_frame_at l fs s i f); [done..|].
  assert (K : runs (ext D;;; emit (EvWait i);;; update_frame i (with_fence Signalled))%present s (fun _ => Q) E).
  { apply runs_bind, (runs_ext l fs); [done| |done]. intros s1 H1.
    apply runs_bind, (runs_emit l fs); [done|done|]. intros s2 H2.
    by apply (runs_update_frame (l ++ [EvWait i]) fs _ _ _ f). }
  by destruct (fs_fence f).
Qed.

Lemma runs_get l fs s (Q : PresentEngine -> PresentState -> Prop) E : stage l fs s ->
  (inputs (ps_engine s) = inputs e0 -> Q (ps_engine s) s) -> runs engine s Q E.
Proof. intros [] HQ. by apply HQ. Qed.

(** *** Waiting for every frame *)
Definition waited (fs : list FrameState) (n : nat) : list FrameState :=
  map (with_fence Signalled) (take n fs) ++ drop n fs.

Lemma waited_next fs n f : fs !! n = Some f ->
  zset (waited fs n) (Z.of_nat n) (with_fence Signalled f) = waited fs (S n) /\
  waited fs n !z (Z.of_nat n) = Some f.
Proof.
  intros Hf. pose proof (lookup_lt_Some _ _ _ Hf). unfold waited.
  assert (Hl : length (map (with_fence Signalled) (take n fs)) = n) by (rewrite length_map, length_take; lia).
  rewrite zget_nat, (take_S_r _ _ _ Hf), map_app, <- (assoc_L (++)), (drop_S _ _ _ Hf). cbn [map app].
  unfold zset. rewrite (proj2 (Z.ltb_ge _ _)), Nat2Z.id by lia. split.
  - replace n with (length (map (with_fence Signalled) (take n fs)) + 0)%nat at 1 by lia.
    by rewrite insert_app_r.
  - rewrite lookup_app_r by lia. by replace (n - _)%nat with 0%nat by lia.
Qed.

Lemma fence_ok_waited fs n : Forall (fun f => fs_fence f <> Unsignalled) fs ->
  Forall (fun f => fs_fence f <> Unsignalled) (waited fs n).
Proof.
  intros H. unfold waited. apply list.Forall_app. split; [|by apply Forall_drop].
  apply Forall_map, Forall_true. done.
Qed.

Lemma runs_wait_frames fs full (Q : PresentState -> Prop) : Forall (fun f => fs_fence f <> Unsignalled) fs ->
  map EvWait (map Z.of_nat (seq 0 (length fs))) `prefix_of` full ->
  forall k n s, (n + k = length fs)%nat ->
  stage (map EvWait (map Z.of_nat (seq 0 n))) (waited fs n) s ->
  (forall s, stage (map EvWait (map Z.of_nat (seq 0 (length fs)))) (waited fs (length fs)) s -> Q s) ->
  runs (wait_frames D (map Z.of_nat (seq n k))) s (fun _ => Q) (broken full).
Proof.
  intros Hfs Hfull. induction k as [|k IH]; intros n s Hn H HQ.
  - apply HQ. replace (length fs) with n by lia. done.
  - cbn [seq map wait_frames]. destruct (lookup_lt_is_Some_2 fs n) as [f Hf]; [lia|].
    destruct (waited_next fs n f Hf) as [E1 E2]. apply runs_bind.
    apply (runs_fence_wait _ _ s (Z.of_nat n) f) with (1 := H); [done| | |].
    + by apply (Forall_lookup_1 _ _ _ _ Hfs Hf).
    + intros s1 H1. apply IH; [lia| |done]. rewrite E1 in H1. rewrite seq_S, !map_app. done.
    + intros s1 H1. eexists _, _. split; [done|]. split; [|by apply fence_ok_waited].
      etransitivity; [|exact Hfull]. apply prefix_of_map_seq. lia.
Qed.

(** *** Recording *)
Section Frame.
Context (fs0 : list FrameState) (i : Z) (full : list event).
Context (Hi : 0 <= i < zlen fs0) (Hfs0 : Forall (fun f => fs_fence f <> Unsignalled) fs0).

(** The current frame is recording [buf]. *)
Definition recording (l : list event) (buf : list gpu_command) (s : PresentState) : Prop :=
  exists f, stage l (zset fs0 i f) s /\ fs_buffer f = buf /\ fs_fence f <> Unsignalled /\
    fs_image_ready f = true.

Lemma recording_broken l buf s : recording l buf s -> l `prefix_of` full -> broken full s.
Proof.
  intros (f & H & _ & Hf & _) Hl. exists l, (zset fs0 i f). split; [done|]. split; [done|].
  unfold zset. destruct (i <? 0); [done|]. by apply Forall_insert.
Qed.

Lemma runs_ext_rec l buf s (Q : PresentState -> Prop) : recording l buf s -> l `prefix_of` full ->
  (forall s, recording l buf s -> Q s) -> runs (ext D) s (fun _ => Q) (broken full).
Proof.
  intros (f & H & Hr) Hl HQ. apply (runs_ext _ _ _ _ _ H); intros s1 H1.
  - apply HQ. by exists f.
  - apply (recording_broken l buf); [by exists f|done].
Qed.

Lemma runs_record l buf s c (Q : PresentState -> Prop) : recording l buf s -> l `prefix_of` full ->
  (forall s, recording l (buf ++ [c]) s -> Q s) -> runs (record D i c) s (fun _ => Q) (broken full).
Proof.
  intros H Hl HQ. apply runs_bind, (runs_ext_rec l buf); [done..|]. clear s H. intros s (f & H & <- & Hr).
  apply (runs_update_frame l (zset fs0 i f) s i _ f); [done|by apply zget_zset_eq|].
  intros s1 H1. apply HQ. eexists. rewrite zset_zset in H1. by split; [exact H1|].
Qed.

Lemma runs_get_rec l buf s (Q : PresentEngine -> PresentState -> Prop) : recording l buf s ->
  (inputs (ps_engine s) = inputs e0 -> Q (ps_engine s) s) -> runs engine s Q (broken full).
Proof. intros (f & H & _) HQ. by apply (runs_get l (zset fs0 i f)). Qed.

Lemma runs_fail_rec {A} l buf s e (Q : A -> PresentState -> Prop) : recording l buf s -> l `prefix_of` full ->
  runs (pm_fail e) s Q (broken full).
Proof. apply recording_broken. Qed.

(** The bytes of an upload end at the beginning of its staging buffer. *)
Lemma upload_inputs e : inputs e = inputs e0 -> forall w, upload w e = upload w e0.
Proof. intros [=] []; done. Qed.

Lemma runs_write_staging w l buf s (Q : PresentState -> Prop) : recording l buf s ->
  l ++ [EvHostWrite w (upload w e0)] `prefix_of` full ->
  (forall s, recording (l ++ [EvHostWrite w (upload w e0)]) buf s -> Q s) ->
  runs (write_staging D w) s (fun _ => Q) (broken full).
Proof.
  intros H Hl HQ. assert (Hl' : l `prefix_of` full) by (etransitivity; [|exact Hl]; by apply prefix_app_r).
  apply runs_bind, (runs_get_rec l buf); [done|]. intros Hin.
  rewrite (upload_inputs _ Hin w). set (b := staging w (ps_engine s)). cbv zeta.
  destruct (negb (host_write_fits b (upload w e0) 256)); [by apply (runs_fail_rec l buf)|].
  apply runs_bind, (runs_ext_rec l buf); [done..|]. intros s1 (f & H1 & Hr).
  apply runs_bind. unfold runs at 1, update. cbn [ps_engine ps_calls ps_log].
  apply runs_bind. unfold runs at 1, emit. cbn [ps_engine ps_calls ps_log].
  set (s2 := {| ps_engine := _ |}).
  assert (H2 : recording (l ++ [EvHostWrite w (upload w e0)]) buf s2).
  { exists f. split; [|done]. destruct H1. constructor; cbn; [by rewrite sg_log0, (assoc_L (++))| | | | |];
      try by destruct w.
    intros w' Hw'. destruct (Bool.bool_dec w' w) as [->|Hne].
    - replace (staging w _) with (written b (upload w e0)) by (by destruct w). cbn.
      by rewrite take_app_length.
    - apply elem_of_app in Hw' as [Hw'|Hw'%list_elem_of_singleton]; [|congruence].
      replace (staging w' _) with (staging w' (ps_engine s1)) by (by destruct w, w'). auto. }
  destruct (nb_coherent b); [by apply HQ|]. eapply runs_ext_rec; [exact H2|exact Hl|exact HQ].
Qed.

Lemma runs_record_upload w sh l buf s (Q : PresentState -> Prop) : recording l buf s ->
  l ++ [EvHostWrite w (upload w e0)] `prefix_of` full ->
  (forall s, recording (l ++ [EvHostWrite w (upload w e0)]) (buf ++ upload_commands w (upload w e0) sh) s -> Q s) ->
  runs (record_upload D i w sh) s (fun _ => Q) (broken full).
Proof.
  intros H Hl HQ. apply runs_bind, (runs_write_staging w l buf); [done..|]. clear s H. intros s H.
  eapply runs_bind, runs_get_rec; [exact H|]. intros Hin.
  rewrite (upload_inputs _ Hin w). eapply runs_bind, runs_record; [exact H|done|]. intros s1 H1.
  eapply runs_record; [exact H1|done|]. intros s2 H2. apply HQ. by rewrite <- (assoc_L (++)) in H2.
Qed.

(** [m] returns what a frame's passes need, or an error. *)
Lemma runs_framebuffer l buf s image (Q : PresentState -> Prop) : recording l buf s -> l `prefix_of` full ->
  Q s -> runs (framebuffer image) s (fun _ => Q) (broken full).
Proof.
  intros H Hl HQ. apply runs_bind, (runs_get_rec l buf); [done|]. intros _.
  destruct (pe_ui_targets (ps_engine s)) as [n|]; [|by apply (runs_fail_rec l buf)].
  destruct (image <? n); [done|by apply (runs_fail_rec l buf)].
Qed.

Lemma runs_world_draw l buf s image (Q : PresentState -> Prop) : recording l buf s -> l `prefix_of` full ->
  (forall s, recording l (buf ++ [WorldPass image (pe_extent e0) (pe_color e0) (pe_world_view_projection e0) (pe_world_draw_commands e0)]) s -> Q s) ->
  runs (cmd_world_draw D i image) s (fun _ => Q) (broken full).
Proof.
  intros H Hl HQ. apply runs_bind, (runs_get_rec l buf); [done|]. intros Hin.
  destruct (pass_ok _ _); [|by apply (runs_fail_rec l buf)]. injection Hin as _ _ _ _ -> -> _ _ _ -> ->.
  by apply (runs_record l buf).
Qed.

Lemma runs_ui_draw l buf s image (Q : PresentState -> Prop) : recording l buf s -> l `prefix_of` full ->
  (forall s, recording l (buf ++ [UiPass image (pe_extent e0) (pe_color e0) (pe_ui_draw_commands e0)]) s -> Q s) ->
  runs (cmd_ui_draw D i image) s (fun _ => Q) (broken full).
Proof.
  intros H Hl HQ. apply runs_bind, (runs_get_rec l buf); [done|]. intros Hin.
  destruct (pass_ok _ _); [|by apply (runs_fail_rec l buf)]. injection Hin as _ _ _ _ -> -> _ -> _ _ _.
  by apply (runs_record l buf).
Qed.

Lemma runs_clear l buf s image (Q : PresentState -> Prop) : recording l buf s -> l `prefix_of` full ->
  image < pe_images e0 ->
  (forall s, recording l (buf ++ [ImageTransition image LAYOUT_UNDEFINED LAYOUT_GENERAL; ClearImage image (pe_color e0);
           ImageTransition image LAYOUT_GENERAL LAYOUT_PRESENT_SRC]) s -> Q s) ->
  runs (record_clear D i image) s (fun _ => Q) (broken full).
Proof.
  intros H Hl Hn HQ. apply runs_bind, (runs_get_rec l buf); [done|]. intros Hin.
  injection Hin as _ _ _ -> -> _ _ _ _ _ _. rewrite (proj2 (Z.leb_gt _ _)) by lia.
  apply runs_bind, (runs_record l buf); [done..|]. clear s H. intros s H.
  eapply runs_bind, runs_record; [exact H|done|]. clear s H. intros s H.
  eapply runs_record; [exact H|done|]. intros s1 H1. apply HQ. by rewrite <- !(assoc_L (++)) in H1.
Qed.

(** The whole recording. *)
Lemma runs_record_frame pre image s (Q : bool -> PresentState -> Prop) : recording pre [] s ->
  negb (nonempty (pe_world_upload e0) && nonempty (pe_ui_upload e0)) = true ->
  negb (nonempty (pe_world_upload e0) && negb (pe_world_pipeline e0)) = true ->
  image < pe_images e0 -> pre ++ frame_writes e0 `prefix_of` full ->
  (forall s, recording (pre ++ frame_writes e0) (frame_plan e0 image) s -> Q (nonempty (pe_world_upload e0)) s) ->
  runs (record_frame D i image) s Q (broken full).
Proof.
  intros H H1 H2 Hn Hl HQ. apply runs_bind, (runs_get_rec pre []); [done|]. intros Hin.
  assert (Ht : pe_world_transfer (ps_engine s) = pe_world_transfer e0) by (destruct H as (f & [] & _); done).
  rewrite Ht. injection Hin as -> -> -> _ _ _ -> -> -> _ _. unfold frame_writes, frame_plan in *.
  assert (Hpre : pre `prefix_of` full) by (etransitivity; [|exact Hl]; by apply prefix_app_r).
  destruct (nonempty (pe_world_upload e0)) eqn:Ew; cbn [andb] in *.
  - destruct (pe_world_pipeline e0); [|done]. rewrite H1. cbn [negb].
    assert (Rest : forall l buf s, recording l buf s -> l `prefix_of` full ->
      (forall s, recording l (buf ++ [WorldPass image (pe_extent e0) (pe_color e0) (pe_world_view_projection e0) (pe_world_draw_commands e0)]) s -> Q true s) ->
      runs (framebuffer image;;; cmd_world_draw D i image;;; pm_ret true)%present s
        (fun w s => runs ((if negb w && nonempty (pe_ui_draw_commands e0) && pe_ui_pipeline e0 &&
             bool_decide (is_Some (pe_ui_targets e0))
           then framebuffer image;;; cmd_ui_draw D i image
           else if negb w then record_clear D i image else pm_ret tt);;; pm_ret w)%present s Q (broken full))
        (broken full)).
    { intros l buf s1 K1 K2 K3. apply runs_bind, (runs_framebuffer l buf); [done..|].
      apply runs_bind, (runs_world_draw l buf); [done..|]. intros s2 K4. apply (K3 s2 K4). }
    apply runs_bind, runs_bind. destruct (upload_pending (pe_world_transfer e0)).
    + eapply runs_record_upload; [exact H|exact Hl|]. intros s1 K. by apply (Rest _ _ s1 K).
    + rewrite app_nil_r in Hl, HQ. by apply (Rest pre [] s).
  - assert (Rest : forall l buf s, recording l buf s -> l `prefix_of` full ->
      (forall s, recording l (buf ++ (if ui_drawn e0 then [UiPass image (pe_extent e0) (pe_color e0) (pe_ui_draw_commands e0)]
         else [ImageTransition image LAYOUT_UNDEFINED LAYOUT_GENERAL; ClearImage image (pe_color e0);
           ImageTransition image LAYOUT_GENERAL LAYOUT_PRESENT_SRC])) s -> Q false s) ->
      runs ((if negb false && nonempty (pe_ui_draw_commands e0) && pe_ui_pipeline e0 &&
             bool_decide (is_Some (pe_ui_targets e0))
           then framebuffer image;;; cmd_ui_draw D i image
           else if negb false then record_clear D i image else pm_ret tt);;; pm_ret false)%present s Q (broken full)).
    { intros l buf s1 K1 K2 K3. cbn [negb andb]. change (_ && _ && _) with (ui_drawn e0).
      apply runs_bind. destruct (ui_drawn e0).
      - apply runs_bind, (runs_framebuffer l buf); [done..|]. by apply (runs_ui_draw l buf).
      - by apply (runs_clear l buf). }
    apply runs_bind. destruct (nonempty (pe_ui_upload e0)).
    + apply runs_bind. eapply runs_record_upload; [exact H|exact Hl|]. intros s1 K. by apply (Rest _ _ s1 K).
    + rewrite app_nil_r in Hl, HQ. by apply (Rest pre [] s).
Qed.

(** *** Submission and presentation *)

(** How an error can end a frame: the journal is a beginning of [full]; and
    either no fence is unsignalled or nothing was submitted. *)
Definition interrupted (s : PresentState) : Prop := exists l,
  ps_log s = log0 ++ l /\ l `prefix_of` full /\ inputs (ps_engine s) = inputs e0 /\
  (Forall (fun f => fs_fence f <> Unsignalled) (pe_frames (ps_engine s)) \/ forall j c, EvSubmit j c ∉ l).

Lemma broken_interrupted s : broken full s -> interrupted s.
Proof. intros (l & fs & [] & Hl & Hf). exists l. rewrite sg_frames0. auto. Qed.

(** After the copies the device buffer begins with the upload. *)
Definition delivered (e : PresentEngine) : Prop :=
  (if nonempty (pe_world_upload e0) && upload_pending (pe_world_transfer e0)
   then take (length (pe_world_upload e0)) (pe_world_device e) = pe_world_upload e0
   else pe_world_device e = pe_world_device e0) /\
  (if negb (nonempty (pe_world_upload e0)) && nonempty (pe_ui_upload e0)
   then take (length (pe_ui_upload e0)) (pe_ui_device e) = pe_ui_upload e0
   else pe_ui_device e = pe_ui_device e0).

Definition submitted_transfer : UploadState :=
  if nonempty (pe_world_upload e0)
  then upload_submitted (pe_world_transfer e0) (zlen (pe_world_upload e0)) else pe_world_transfer e0.

(** A frame whose submission was accepted. *)
Record submitted (l : list event) (t : UploadState) (s : PresentState) : Prop := {
  sb_log : ps_log s = log0 ++ l;
  sb_frames : exists f, pe_frames (ps_engine s) = zset fs0 i f /\ frame_idle f;
  sb_inputs : inputs (ps_engine s) = inputs e0;
  sb_delivered : delivered (ps_engine s);
  sb_transfer : pe_world_transfer (ps_engine s) = t
}.

Lemma copies_keep cs : forall e, pe_frames (foldl gpu_copy e cs) = pe_frames e /\
  inputs (foldl gpu_copy e cs) = inputs e /\ pe_world_transfer (foldl gpu_copy e cs) = pe_world_transfer e.
Proof.
  induction cs as [|c cs IH]; intros e; [done|]. cbn [foldl]. destruct (IH (gpu_copy e c)) as (-> & -> & ->).
  by destruct c as [[]| | | | |].
Qed.

Lemma take_copied (u st d : list Z) : take (length u) st = u ->
  take (length u) (take (Z.to_nat (zlen u)) st ++ drop (Z.to_nat (zlen u)) d) = u.
Proof. intros H. replace (Z.to_nat (zlen u)) with (length u) by (unfold zlen; lia). by rewrite H, take_app_length. Qed.

Lemma copies_deliver e image : inputs e = inputs e0 ->
  (pe_ui_device e, pe_world_device e) = (pe_ui_device e0, pe_world_device e0) ->
  (forall w, EvHostWrite w (upload w e0) ∈ frame_writes e0 ->
     take (length (upload w e0)) (nb_bytes (staging w e)) = upload w e0) ->
  delivered (foldl gpu_copy e (frame_plan e0 image)).
Proof.
  intros Hin [= Hu Hw] Hst. unfold delivered, frame_plan, frame_writes, upload_commands in *.
  destruct (nonempty (pe_world_upload e0)); cbn [andb negb].
  - destruct (upload_pending (pe_world_transfer e0)); cbn; [|done]. split; [|done].
    apply take_copied, (Hst true). by apply list_elem_of_singleton.
  - destruct (nonempty (pe_ui_upload e0)); destruct (ui_drawn e0); cbn; split; try done;
      apply take_copied, (Hst false); by apply list_elem_of_singleton.
Qed.

Lemma runs_submit l image s (Q : PresentState -> Prop) :
  recording l (frame_plan e0 image) s ->
  (forall w, EvHostWrite w (upload w e0) ∈ frame_writes e0 -> EvHostWrite w (upload w e0) ∈ l) ->
  l `prefix_of` full -> (forall j c, EvSubmit j c ∉ l) ->
  (forall s, submitted (l ++ [EvSubmit i (frame_plan e0 image)]) (pe_world_transfer e0) s -> Q s) ->
  runs (fence_reset D i;;; queue_submit D i)%present s (fun _ => Q) interrupted.
Proof.
  intros H Hw Hl Hno HQ. destruct H as (f & H & Hb & Hf & Hr).
  apply runs_bind, runs_bind, (runs_ext _ _ _ _ _ H).
  2: { intros s1 H1. apply broken_interrupted, (recording_broken l (frame_plan e0 image)); [by exists f|done]. }
  clear s H. intros s H.
  apply (runs_update_frame l (zset fs0 i f) s i _ f); [done|by apply zget_zset_eq|]. clear s H. intros s H.
  rewrite zset_zset in H.
  apply runs_bind, (runs_ext _ _ _ _ _ H).
  2: { intros s1 [L _ I _ _ _]. exists l. auto. }
  clear s H. intros s H.
  apply runs_bind. apply (runs_frame_at _ _ s i (with_fence Unsignalled f) _ _ H); [by apply zget_zset_eq|].
  cbn [fs_buffer with_fence]. rewrite Hb.
  apply runs_bind. apply (runs_emit _ _ _ (EvSubmit i (frame_plan e0 image)) _ _ H); [done|]. clear s H. intros s H.
  apply runs_bind. apply (runs_update_frame _ (zset fs0 i (with_fence Unsignalled f)) s i _ (with_fence Unsignalled f) _ _ H);
    [by apply zget_zset_eq|]. clear s H. intros s [L F I T Dv S]. rewrite zset_zset in F.
  apply HQ. destruct (copies_keep (frame_plan e0 image) (ps_engine s)) as (K1 & K2 & K3).
  constructor; cbn [ps_log ps_engine]; [done| |by rewrite K2| |by rewrite K3].
  - eexists. rewrite K1. split; [exact F|done].
  - apply copies_deliver; [done|done|]. intros w Hw'. apply S. apply elem_of_app. auto.
Qed.

Lemma runs_present image s l t (Q : PresentStatus -> PresentState -> Prop) : submitted l t s ->
  full = l ++ [EvPresent image] ->
  (forall s st, submitted full t s -> Q st s) ->
  runs (r <~ swapchain_present D image;;
        match r with
        | Ok _ => pm_ret PresentStatus.Presented
        | Err VulkanLoaderError.OutOfDate => pm_ret PresentStatus.OutOfDate
        | Err e => pm_fail (PresentError.Vulkan e)
        end)%present s Q interrupted.
Proof.
  intros [L F I Dv T] Hfull HQ. apply runs_bind. unfold runs at 1, swapchain_present.
  set (s' := {| ps_engine := _ |}).
  assert (H' : submitted full t s') by (constructor; cbn; try done; by rewrite L, Hfull, (assoc_L (++))).
  assert (Hb : interrupted s').
  { exists full. destruct H' as [L' (f & F' & [Hf _]) I' _ _]. split; [done|]. split; [done|]. split; [done|].
    left. rewrite F'. unfold zset. destruct (i <? 0); [done|]. by apply Forall_insert. }
  destruct (dr_call D (ps_calls s)) as [[]|]; try exact Hb; by apply HQ.
Qed.

Lemma runs_present_image l image s (Q : PresentStatus -> PresentState -> Prop) f :
  stage l (zset fs0 i f) s -> fs_fence f <> Unsignalled -> fs_image_ready f = true ->
  full = l ++ frame_writes e0 ++ [EvSubmit i (frame_plan e0 image); EvPresent image] ->
  (forall w b, EvHostWrite w b ∉ l) -> (forall j c, EvSubmit j c ∉ l) ->
  negb (nonempty (pe_world_upload e0) && nonempty (pe_ui_upload e0)) = true ->
  negb (nonempty (pe_world_upload e0) && negb (pe_world_pipeline e0)) = true ->
  image < pe_images e0 ->
  (forall s st, submitted full submitted_transfer s -> Q st s) ->
  runs (present_image D i image) s Q interrupted.
Proof.
  intros H Hf Hr Hfull Hnw Hns H1 H2 Hn HQ.
  assert (Hl2 : l ++ frame_writes e0 `prefix_of` full) by (rewrite Hfull, (assoc_L (++)); by apply prefix_app_r).
  assert (Hl1 : l `prefix_of` full) by (etransitivity; [|exact Hl2]; by apply prefix_app_r).
  assert (Hsub : l ++ frame_writes e0 ++ [EvSubmit i (frame_plan e0 image)] `prefix_of` full).
  { rewrite Hfull. do 2 apply prefix_app. by exists [EvPresent image]. }
  assert (Hrec : forall s, stage l (zset fs0 i f) s -> recording l (fs_buffer f) s) by (intros s1 K; by exists f).
  assert (W : forall s (R : Type) (m : PM R) (P : R -> PresentState -> Prop),
    runs m s P (broken full) -> runs m s P interrupted).
  { intros s1 R m P K. eapply runs_mono; [exact K|done|]. apply broken_interrupted. }
  apply runs_bind. unfold runs at 1, update. set (s1 := {| ps_engine := _ |}).
  assert (K1 : stage l (zset fs0 i f) s1) by (destruct H; by constructor).
  apply runs_bind, W, (runs_ext_rec l (fs_buffer f)); [by apply Hrec|done|]. clear s H s1 K1 Hrec.
  intros s (f1 & H & _ & Hf1 & Hr1). clear f Hf Hr.
  apply runs_bind, W, (runs_update_frame l (zset fs0 i f1) s i _ f1); [done|by apply zget_zset_eq|].
  clear s H. intros s H. rewrite zset_zset in H.
  assert (K : recording l [] s) by (by exists (with_buffer [] f1)). clear f1 H Hf1 Hr1.
  apply runs_bind, W, (runs_ext_rec l []); [done..|]. clear s K. intros s K.
  apply runs_bind, W, (runs_record_frame l image); [done..|]. clear s K. intros s K.
  apply runs_bind, W, (runs_ext_rec _ _ _ _ K); [done|]. clear s K. intros s K.
  apply runs_assoc, runs_bind, (runs_submit _ _ _ _ K); [|done| |].
  { intros w Hw. apply elem_of_app. by right. }
  { intros j c [Hj|Hj]%elem_of_app; [by apply Hns in Hj|]. unfold frame_writes in Hj.
    by repeat (case_match; try apply list_elem_of_singleton in Hj; try apply elem_of_nil in Hj). }
  clear s K. intros s K. rewrite <- (assoc_L (++)) in K.
  apply runs_bind. remember (l ++ frame_writes e0 ++ [EvSubmit i (frame_plan e0 image)]) as l' eqn:El'.
  assert (Hpres : forall s, submitted l' submitted_transfer s ->
    runs (r <~ swapchain_present D image;;
        match r with
        | Ok _ => pm_ret PresentStatus.Presented
        | Err VulkanLoaderError.OutOfDate => pm_ret PresentStatus.OutOfDate
        | Err e => pm_fail (PresentError.Vulkan e)
        end)%present s Q interrupted).
  { intros s1 K1. apply (runs_present image s1 l' submitted_transfer); [done| |done].
    by rewrite Hfull, El', <- !(assoc_L (++)). }
  unfold submitted_transfer in Hpres. destruct (nonempty (pe_world_upload e0)); [|by apply Hpres].
  apply Hpres. destruct K as [L F I Dv T]. constructor; cbn; try done. rewrite T.
  by injection I as _ _ _ _ _ _ _ _ -> _ _.
Qed.
End Frame.
End Stages.

(** ** One frame *)
Lemma waited_all fs : waited fs (length fs) = map (with_fence Signalled) fs.
Proof. unfold waited. by rewrite take_ge, drop_ge, app_nil_r by lia. Qed.

Lemma idle_waited fs : Forall frame_idle fs -> Forall frame_idle (map (with_fence Signalled) fs).
Proof. rewrite Forall_map. apply Forall_impl. intros f [_ H]. done. Qed.

Lemma idle_fence fs : Forall frame_idle fs -> Forall (fun f => fs_fence f <> Unsignalled) fs.
Proof. apply Forall_impl. by intros f []. Qed.

Lemma runs_acquire D e0 log0 l fs s i f (Q : result VulkanLoaderError Z -> PresentState -> Prop) E :
  stage e0 log0 l fs s -> fs !z i = Some f -> fs_image_ready f = false ->
  (forall k s, stage e0 log0 (l ++ [EvAcquire i])
     (match dr_acquire D k with
      | Ok _ | Err VulkanLoaderError.Suboptimal => zset fs i (with_ready true f)
      | Err _ => fs
      end) s -> Q (dr_acquire D k) s) ->
  runs (swapchain_acquire D i) s Q E.
Proof.
  intros H Hf Hr HQ. apply runs_bind, (runs_frame_at e0 log0 l fs s i f _ _ H Hf). rewrite Hr.
  set (s1 := {| ps_engine := ps_engine s; ps_calls := S (ps_calls s); ps_log := ps_log s |}).
  assert (H1 : stage e0 log0 l fs s1) by (by apply stage_call). specialize (HQ (ps_calls s)).
  change (runs (emit (EvAcquire i);;;
     match dr_acquire D (ps_calls s) with
     | Ok _ | Err VulkanLoaderError.Suboptimal => update_frame i (with_ready true)
     | Err _ => pm_ret tt
     end;;; pm_ret (dr_acquire D (ps_calls s)))%present s1 Q E).
  apply runs_bind, (runs_emit e0 log0 l fs _ _ _ _ H1); [done|]. clear H1. intros s2 H2.
  apply runs_bind. destruct (dr_acquire D (ps_calls s)) as [image|[]]; try exact (HQ s2 H2);
    by apply (runs_update_frame e0 log0 _ fs s2 i _ f _ _ H2).
Qed.

(** What a frame leaves behind. *)
Definition frame_result (s s' : PresentState) (r : result PresentError PresentStatus) : Prop :=
  exists l image, ps_log s' = ps_log s ++ l /\ l `prefix_of` frame_journal (ps_engine s) image /\
  inputs (ps_engine s') = inputs (ps_engine s) /\
  match r with
  | Ok st =>
      engine_ok (ps_engine s') /\
      match st with
      | PresentStatus.Presented => l = frame_journal (ps_engine s) image /\
          delivered (ps_engine s) (ps_engine s') /\
          pe_world_transfer (ps_engine s') = submitted_transfer (ps_engine s)
      | PresentStatus.OutOfDate => True
      end
  | Err _ =>
      Forall (fun f => fs_fence f <> Unsignalled) (pe_frames (ps_engine s')) \/
      forall j c, EvSubmit j c ∉ l
  end.

Lemma submitted_ok e0 log0 fs i l t s : 0 < zlen fs -> Forall frame_idle fs ->
  submitted e0 log0 fs i l t s -> engine_ok (ps_engine s).
Proof.
  intros Hn Hfs [_ (f & F & Hf) _ _ _]. constructor; rewrite F, ?zlen_zset; [done|].
  unfold zset. destruct (i <? 0); [done|]. by apply Forall_insert.
Qed.

Lemma frame_log_facts e : (forall w b, EvHostWrite w b ∉ frame_waits e ++ [EvAcquire (current_frame e)]) /\
  (forall j c, EvSubmit j c ∉ frame_waits e ++ [EvAcquire (current_frame e)]).
Proof.
  assert (W : forall ev, ev ∈ frame_waits e ++ [EvAcquire (current_frame e)] ->
    (exists j, ev = EvWait j) \/ ev = EvAcquire (current_frame e)).
  { intros ev [[H|H%list_elem_of_singleton]%elem_of_app|H%list_elem_of_singleton]%elem_of_app; [|eauto..].
    apply list_elem_of_In, in_map_iff in H as (j & <- & _). eauto. }
  split; [intros w b H|intros j c H]; apply W in H as [[? H]|H]; discriminate.
Qed.

(** A frame cut short leaves a [frame_result]. *)
Lemma interrupted_result s image s' e :
  interrupted (ps_engine s) (ps_log s) (frame_journal (ps_engine s) image) s' -> frame_result s s' (Err e).
Proof. intros (l & H1 & H2 & H3 & H4). exists l, image. auto. Qed.

Lemma stopped_result s l fs s' e : l `prefix_of` frame_waits (ps_engine s) ++ [EvAcquire (current_frame (ps_engine s))] ->
  stage (ps_engine s) (ps_log s) l fs s' -> Forall (fun f => fs_fence f <> Unsignalled) fs -> frame_result s s' (Err e).
Proof.
  intros Hl H Hf. apply (interrupted_result s 0), broken_interrupted. exists l, fs. split; [done|]. split; [|done].
  etransitivity; [exact Hl|]. unfold frame_journal. apply prefix_app, prefix_cons, prefix_nil.
Qed.

Lemma idle_zset (fs : list FrameState) i g : Forall frame_idle fs -> frame_idle g -> Forall frame_idle (zset fs i g).
Proof. intros Hfs Hg. unfold zset. destruct (i <? 0); [done|]. by apply Forall_insert. Qed.

(** A frame from the acquisition on, all fences signalled. *)
Lemma runs_acquired D s fs f s1 : let e := ps_engine s in let i := current_frame e in
  0 < zlen (pe_frames e) -> zlen fs = zlen (pe_frames e) -> Forall frame_idle fs -> frame_idle f -> driver_ok D (pe_images e) ->
  nonempty (pe_world_upload e) && nonempty (pe_ui_upload e) = false ->
  nonempty (pe_world_upload e) && negb (pe_world_pipeline e) = false ->
  stage e (ps_log s) (frame_waits e) (zset fs i (with_fence Signalled f)) s1 ->
  runs (r <~ swapchain_acquire D i;;
        match r with
        | Ok image => present_image D i image
        | Err VulkanLoaderError.OutOfDate => pm_ret PresentStatus.OutOfDate
        | Err e => pm_fail (PresentError.Vulkan e)
        end) s1 (fun st s' => frame_result s s' (Ok st)) (fun s' => forall e, frame_result s s' (Err e)).
Proof.
  intros e0 i Hn Hlen Hfs Hfi HD C1 C2 K. set (log0 := ps_log s) in *.
  assert (Hi : 0 <= i < zlen fs) by (rewrite Hlen; apply Z.mod_pos_bound; lia).
  apply runs_bind. apply (runs_acquire D e0 log0 _ _ s1 i (with_fence Signalled f) _ _ K);
    [by apply zget_zset_eq|apply Hfi|]. clear s1 K. intros k s1 K. rewrite zset_zset in K.
  destruct (frame_log_facts e0) as [F1 F2]. fold i in F1, F2.
  assert (Hset : forall g, fs_fence g <> Unsignalled -> Forall (fun f => fs_fence f <> Unsignalled) (zset fs i g)).
  { intros g Hg. unfold zset. destruct (i <? 0); [by apply idle_fence|]. apply Forall_insert; [by apply idle_fence|done]. }
  destruct (dr_acquire D k) as [image|e] eqn:Ea.
  - eapply runs_mono; [| |intros s2 K2 e; by apply (interrupted_result s image)].
    + apply (runs_present_image D e0 log0 fs i (frame_journal e0 image) Hi (idle_fence _ Hfs)
        (frame_waits e0 ++ [EvAcquire i]) image s1
        (fun _ s => submitted e0 log0 fs i (frame_journal e0 image) (submitted_transfer e0) s) _ K);
        try done; [|by rewrite C1|by rewrite C2|by apply (HD k)].
      unfold frame_journal. by rewrite <- (assoc_L (++)).
    + intros st s2 K2. exists (frame_journal e0 image), image. cbn beta in K2.
      assert (engine_ok (ps_engine s2)) by (eapply submitted_ok; [|exact Hfs|exact K2]; rewrite Hlen; exact Hn).
      destruct K2 as [L _ I Dv T]. split; [done|]. split; [done|]. split; [done|]. split; [done|]. by destruct st.
  - destruct e; try (intros e1; eapply stopped_result; [done|exact K|by apply Hset]).
    exists (frame_waits e0 ++ [EvAcquire i]), 0. destruct K as [L F I T Dv S]. split; [done|].
    split; [unfold frame_journal; apply prefix_app, prefix_cons, prefix_nil|]. split; [done|]. split; [|done].
    constructor; rewrite F, ?zlen_zset; [lia|]. apply idle_zset; [done|]. split; [done|apply Hfi].
Qed.

(** [present_frame] returns and leaves a [frame_result]. *)
Lemma present_frame_spec D s : engine_ok (ps_engine s) -> driver_ok D (pe_images (ps_engine s)) ->
  exists s' r, present_frame D s = Ret s' r /\ frame_result s s' r.
Proof.
  intros [Hn Hidle] HD. set (e0 := ps_engine s) in *. set (log0 := ps_log s). set (i := current_frame e0).
  assert (G : runs (present_frame D) s (fun st s' => frame_result s s' (Ok st))
     (fun s' => forall e, frame_result s s' (Err e))).
  2: { unfold runs in G. destruct (present_frame D s) as [s' [st|e]| |]; [eauto..|done|done]. }
  assert (S0 : stage e0 log0 [] (waited (pe_frames e0) 0) s).
  { constructor; try done; [by rewrite app_nil_r|]. by intros w ?%elem_of_nil. }
  assert (Here : forall e, frame_result s s (Err e)).
  { intros e. eapply stopped_result; [apply prefix_nil|exact S0|]. by apply idle_fence. }
  assert (Hids : map EvWait (frame_ids e0) `prefix_of` frame_waits e0 ++ [EvAcquire i])
    by (unfold frame_waits; rewrite <- (assoc_L (++)); by apply prefix_app_r).
  unfold present_frame. apply runs_bind. unfold runs at 1, engine. fold e0.
  destruct (nonempty (pe_world_upload e0) && nonempty (pe_ui_upload e0)) eqn:C1; [exact (fun e => Here e)|].
  destruct (nonempty (pe_world_upload e0) && negb (pe_world_pipeline e0)) eqn:C2; [exact (fun e => Here e)|].
  apply runs_bind. eapply runs_mono.
  { apply (runs_wait_frames D e0 log0 (pe_frames e0) (map EvWait (frame_ids e0))
      (fun s => stage e0 log0 (map EvWait (frame_ids e0)) (map (with_fence Signalled) (pe_frames e0)) s))
      with (n := 0%nat); [by apply idle_fence|done|lia|exact S0|]. intros s1 K. by rewrite waited_all in K. }
  2: { intros s1 (l1 & fs & K1 & K2 & K3) e. eapply stopped_result; [|exact K1|exact K3]. by etransitivity. }
  clear S0. intros [] s1 K. cbn beta in K. set (fs := map (with_fence Signalled) (pe_frames e0)) in *.
  assert (Hlen : zlen fs = zlen (pe_frames e0)) by (unfold fs, zlen; by rewrite length_map).
  assert (Hfs : Forall frame_idle fs) by (by apply idle_waited).
  assert (Hi : 0 <= i < zlen fs) by (rewrite Hlen; apply Z.mod_pos_bound; lia).
  rewrite (proj2 (Z.eqb_neq _ _)) by lia. fold (current_frame e0). fold i.
  destruct (proj2 (zget_is_Some fs i) Hi) as [f Hf].
  assert (Hfi : frame_idle f).
  { rewrite zget_lookup in Hf by lia. by apply (Forall_lookup_1 _ _ _ _ Hfs Hf). }
  apply runs_bind. apply (runs_fence_wait D e0 log0 _ fs s1 i f _ _ K Hf); [by apply Hfi| |].
  2: { intros s2 K2 e. eapply stopped_result; [exact Hids|exact K2|by apply idle_fence]. }
  clear s1 K. intros s1 K. fold (frame_waits e0) in K. by apply (runs_acquired D s fs f s1).
Qed.

(** What [recreate] keeps. *)
Record rebuilt (e0 e : PresentEngine) : Prop := {
  rb_frames : pe_frames e = pe_frames e0;
  rb_ui : pe_ui_upload e = pe_ui_upload e0;
  rb_draws : pe_ui_draw_commands e = pe_ui_draw_commands e0;
  rb_world : pe_world_upload e = pe_world_upload e0;
  rb_transfer : pe_world_transfer e = pe_world_transfer e0
}.

Lemma rebuilt_targets e0 e u w t n x : rebuilt e0 e -> rebuilt e0 (pe_with_targets e u w t n x).
Proof. intros []. by constructor. Qed.

Lemma recreate_spec D size s : exists s' r, recreate D size s = Ret s' r /\
  rebuilt (ps_engine s) (ps_engine s') /\
  (is_ok r = true -> exists n, pe_ui_targets (ps_engine s') = Some n /\ pe_images (ps_engine s') = n /\
     pe_ui_pipeline (ps_engine s') = dr_ui_shaders D /\ pe_world_pipeline (ps_engine s') = dr_world_shaders D).
Proof.
  assert (G : runs (recreate D size) s
    (fun _ s' => rebuilt (ps_engine s) (ps_engine s') /\ exists n, pe_ui_targets (ps_engine s') = Some n /\
       pe_images (ps_engine s') = n /\ pe_ui_pipeline (ps_engine s') = dr_ui_shaders D /\
       pe_world_pipeline (ps_engine s') = dr_world_shaders D)
    (fun s' => rebuilt (ps_engine s) (ps_engine s'))).
  2: { unfold runs in G. destruct (recreate D size s) as [s' [u|e]| |]; [|by exists s', (Err e)|done..].
       exists s', (Ok u). split; [done|]. by destruct G. }
  assert (X : forall (Q : PresentState -> Prop) s1, rebuilt (ps_engine s) (ps_engine s1) ->
    (forall s2, ps_engine s2 = ps_engine s1 -> Q s2) ->
    runs (ext D) s1 (fun _ => Q) (fun s' => rebuilt (ps_engine s) (ps_engine s'))).
  { intros Q s1 H HQ. unfold runs, ext. destruct (dr_call D (ps_calls s1)); [done|by apply HQ]. }
  assert (U : forall (Q : PresentState -> Prop) s1 u w t n x, rebuilt (ps_engine s) (ps_engine s1) ->
    (forall s2, ps_engine s2 = pe_with_targets (ps_engine s1) u w t n x -> rebuilt (ps_engine s) (ps_engine s2) -> Q s2) ->
    runs (update (fun e => pe_with_targets e u w t n x)) s1 (fun _ => Q) (fun s' => rebuilt (ps_engine s) (ps_engine s'))).
  { intros Q s1 u w t n x H HQ. apply HQ; [done|]. by apply rebuilt_targets. }
  assert (R0 : rebuilt (ps_engine s) (ps_engine s)) by by constructor.
  apply runs_bind, X; [done|]. intros s1 E1. rewrite <- E1 in R0 at 2. clear E1.
  apply runs_bind. unfold runs at 1, counted_call, lift. destruct (dr_configure D (ps_calls s1) size) as [x|]; [|done].
  set (s2 := {| ps_engine := ps_engine s1 |}). assert (R2 : rebuilt (ps_engine s) (ps_engine s2)) by done.
  clearbody s2. clear s1 R0.
  apply runs_bind. unfold runs at 1, update. set (s3 := {| ps_engine := _ |}).
  assert (R3 : rebuilt (ps_engine s) (ps_engine s3)) by (by apply rebuilt_targets). clearbody s3. clear s2 R2.
  apply runs_bind, X; [done|]. intros s4 E4. assert (R4 : rebuilt (ps_engine s) (ps_engine s4)) by (by rewrite E4). clear s3 R3 E4.
  apply runs_bind. unfold runs at 1, counted_call, lift, map_err. destruct (dr_images D (ps_calls s4)) as [n|]; [|done].
  set (s5 := {| ps_engine := ps_engine s4 |}). assert (R5 : rebuilt (ps_engine s) (ps_engine s5)) by done.
  clearbody s5. clear s4 R4.
  apply runs_bind, U; [done|]. intros s6 _ R6. apply runs_bind, X; [done|]. intros s7 E7.
  apply runs_bind, U; [by rewrite E7|]. intros s8 E8 R8. apply runs_bind, X; [done|]. intros s9 E9.
  apply runs_bind, U; [by rewrite E9|]. intros s10 E10 R10. apply runs_bind, X; [done|]. intros s11 E11.
  apply U; [by rewrite E11|]. intros s12 E12 R12. split; [done|]. exists n. by rewrite E12.
Qed.

(** Frames until the first error. *)
Fixpoint present_frames (D : Driver) (n : nat) (s : PresentState) : outcome (list PresentStatus) :=
  match n with
  | O => Ret s (Ok [])
  | S n =>
      match present_frame D s with
      | Ret s (Ok st) =>
          match present_frames D n s with
          | Ret s (Ok l) => Ret s (Ok (st :: l))
          | o => o
          end
      | Ret s (Err e) => Ret s (Err e)
      | Blocked => Blocked
      | Invalid => Invalid
      end
  end.

(** ** Properties *)

(** C3: One frame, whatever each call to the driver answers: it returns, and its
    actions are a beginning, in this order, of: wait for every frame's fence
    and for the current one, acquire, write the staging buffer, submit, present.
    So the shared staging memory is written and a command buffer is submitted
    only when no earlier submission can be pending.  When the frame was
    presented all of them happened, the submitted commands are exactly the
    upload copy and its barrier and the one pass for what is to be drawn, the
    device buffer then begins with the upload, and fences and semaphores are
    ready for the next frame; no error leaves a fence unsignalled once something
    was submitted. *)
Theorem present_frame_chain (D : Driver) (s : PresentState) (Hok : engine_ok (ps_engine s))
    (Hdriver : driver_ok D (pe_images (ps_engine s))) :
  exists s' r, present_frame D s = Ret s' r /\
  exists l image, ps_log s' = ps_log s ++ l /\ l `prefix_of` frame_journal (ps_engine s) image /\
  inputs (ps_engine s') = inputs (ps_engine s) /\
  match r with
  | Ok st =>
      engine_ok (ps_engine s') /\
      match st with
      | PresentStatus.Presented => l = frame_journal (ps_engine s) image /\
          delivered (ps_engine s) (ps_engine s') /\
          pe_world_transfer (ps_engine s') = submitted_transfer (ps_engine s)
      | PresentStatus.OutOfDate => True
      end
  | Err _ =>
      Forall (fun f => fs_fence f <> Unsignalled) (pe_frames (ps_engine s')) \/
      forall j c, EvSubmit j c ∉ l
  end.
Proof. exact (present_frame_spec D s Hok Hdriver). Qed.

(** Presenting frame after frame never waits for ever and never misuses the
    driver: any number of frames returns, with one status per frame or the
    first error. *)
Theorem present_frames_return (D : Driver) (n : nat) (s : PresentState) (Hok : engine_ok (ps_engine s))
    (Hdriver : driver_ok D (pe_images (ps_engine s))) :
  exists s' r, present_frames D n s = Ret s' r /\
  match r with Ok l => length l = n /\ engine_ok (ps_engine s') | Err _ => True end.
Proof.
  revert s Hok Hdriver. induction n as [|n IH]; intros s Hok HD; cbn [present_frames]; [by exists s, (Ok [])|].
  destruct (present_frame_spec D s Hok HD) as (s1 & r & -> & l & image & _ & _ & Hin & H).
  destruct r as [st|e]; [|by exists s1, (Err e)]. destruct H as [H1 _].
  destruct (IH s1 H1) as (s2 & r & -> & H2).
  { by injection Hin as _ _ _ -> _ _ _ _ _ _. }
  destruct r as [l2|e]; eexists _, _; (split; [done|]); [|done]. cbn [length]. by destruct H2 as [<- H2].
Qed.

(** ** A two-frame engine *)
Definition demo_buffer : NativeBuffer :=
  {| nb_size := UI_UPLOAD_CAPACITY; nb_host_visible := true; nb_coherent := true; nb_bytes := [] |}.
Definition demo_native_frame : FrameState :=
  {| fs_fence := Signalled; fs_image_ready := false; fs_buffer := [] |}.
Definition demo_present_engine (ui : list Z) : PresentEngine := {|
  pe_ui_pipeline := true; pe_world_pipeline := true; pe_ui_targets := Some 2; pe_images := 2;
  pe_frames := [demo_native_frame; demo_native_frame]; pe_image_index := 0;
  pe_color := rgba_splat f32_zero; pe_extent := {| e_width := 640; e_height := 480 |};
  pe_ui_staging := demo_buffer; pe_world_staging := demo_buffer; pe_ui_device := [];
  pe_world_device := []; pe_ui_upload := ui;
  pe_ui_draw_commands := [{| ud_vertex_count := 6; ud_instance_count := 1; ud_first_vertex := 0; ud_first_instance := 0 |}];
  pe_world_upload := []; pe_world_transfer := upload_state_default; pe_world_view_projection := [];
  pe_world_draw_commands := [] |}.
Definition demo_state (ui : list Z) : PresentState :=
  {| ps_engine := demo_present_engine ui; ps_calls := 0; ps_log := [] |}.
Definition demo_driver : Driver := {| dr_call := fun _ => None; dr_acquire := fun k => Ok (Z.of_nat (k mod 2));
  dr_configure := fun _ size => Ok size; dr_images := fun _ => Ok 2; dr_ui_shaders := true; dr_world_shaders := true |}.

Lemma demo_engine_ok ui : engine_ok (demo_present_engine ui).
Proof. constructor; [done|]. repeat constructor; discriminate. Qed.

Lemma demo_driver_ok : driver_ok demo_driver 2.
Proof. intros k i [= <-]. pose proof (Nat.mod_upper_bound k 2). lia. Qed.

Lemma present_frame_chain_witness :
  exists s' l image, present_frame demo_driver (demo_state [1; 2; 3]) = Ret s' (Ok PresentStatus.Presented) /\
    ps_log s' = l /\ l = frame_journal (demo_present_engine [1; 2; 3]) image /\
    take 3 (pe_ui_device (ps_engine s')) = [1; 2; 3].
Proof.
  destruct (present_frame_chain demo_driver (demo_state [1; 2; 3]) (demo_engine_ok _) demo_driver_ok)
    as (s' & r & E & l & image & Hl & _ & _ & H).
  assert (Hr : r = Ok PresentStatus.Presented) by (vm_compute in E; by injection E as _ <-).
  rewrite Hr in H, E. destruct H as (_ & H1 & [_ H2] & _).
  exists s', l, image. split; [exact E|]. split; [exact Hl|]. split; [exact H1|exact H2].
Defined.

Lemma present_frames_return_witness :
  exists s' l, present_frames demo_driver 5 (demo_state [7]) = Ret s' (Ok l) /\ length l = 5%nat.
Proof.
  destruct (present_frames_return demo_driver 5 (demo_state [7]) (demo_engine_ok _) demo_driver_ok)
    as (s' & r & E & H).
  destruct r as [l|e]; [|vm_compute in E; discriminate E]. exists s', l. split; [exact E|apply H].
Defined.

(** ** What goes wrong *)

(** The fence is reset before the submission.  When the submission fails
    (here for lack of device memory), nobody will signal the
    fence, and the next frame waits for it for ever. *)
Definition failing_submit : Driver := {|
  dr_call := fun k => if Nat.eqb k 12 then Some (VulkanLoaderError.Api (-2)) else None;
  dr_acquire := dr_acquire demo_driver; dr_configure := dr_configure demo_driver;
  dr_images := dr_images demo_driver; dr_ui_shaders := true; dr_world_shaders := true |}.

Example failed_submit_blocks :
  match present_frame failing_submit (demo_state [1]) with
  | Ret s' r => r = Err (PresentError.Vulkan (VulkanLoaderError.Api (-2))) /\
      present_frame demo_driver s' = Blocked
  | _ => False
  end.
Proof. vm_compute. split; reflexivity. Qed.

(** [VK_SUBOPTIMAL_KHR] is a successful acquisition: the image is acquired and
    the semaphore will be signalled, but the wrapper reports an error and
    nothing waits for the semaphore, so acquiring with it again is invalid. *)
Definition suboptimal_once : Driver := {|
  dr_call := fun _ => None;
  dr_acquire := fun k => Err VulkanLoaderError.Suboptimal; dr_configure := dr_configure demo_driver;
  dr_images := dr_images demo_driver; dr_ui_shaders := true; dr_world_shaders := true |}.

Example suboptimal_acquire_invalid :
  match present_frame suboptimal_once (demo_state [1]) with
  | Ret s' r => r = Err (PresentError.Vulkan VulkanLoaderError.Suboptimal) /\
      present_frame demo_driver s' = Invalid
  | _ => False
  end.
Proof. vm_compute. split; reflexivity. Qed.

(** An engine with both a world and a UI upload presents nothing. *)
Lemma world_and_ui_rejected D s : pe_world_upload (ps_engine s) <> [] -> pe_ui_upload (ps_engine s) <> [] ->
  present_frame D s = Ret s (Err PresentError.AllocationFailed).
Proof.
  intros H1 H2. assert (N : forall X (l : list X), l <> [] -> nonempty l = true).
  { intros X [|x l] H; [done|]. unfold nonempty. rewrite zlen_cons. pose proof (zlen_nonneg l).
    by rewrite (proj2 (Z.eqb_neq _ _)) by lia. }
  unfold present_frame, pm_bind, engine. by rewrite !N.
Qed.
