(* ===== verification/Renderer.v ===== *)
(** The renderer as a kernel subsystem ([subsystems/renderer.rs]): it drains
    resizes and UI packets, extracts the world, builds the manifest and the GPU
    preparation, and submits the frame to the native lane or to the headless
    backend.

    Theorems: a tick of the UI followed by a tick of the renderer leaves in the
    presentation engine exactly the bytes and draws of the UI's new packet, so
    that the incremental uploads stay in step frame after frame; and the tick
    itself, on every path. *)

From stdpp Require Import strings.
From S2P Require Import Prelude Arena Ring Bus Entities World Deferred Scheduler Kernel.
From S2P Require Import RenderScene GpuUpload F32 UiComponents UiTree UiTreeInv UiCommands UiText UiPaint UiUpload.
From S2P Require Import Messages UiSubsystem Present.

Local Open Scope Z_scope.
Local Open Scope kit_scope.

Variant RendererState := RendererNew | RendererReady | RendererShutdown.

Record RenderStats := { rd_frames : Z; rd_total_dt_ns : Z }.

(** The engine with the driver's call counter and journal. *)
Record NativeLane := {
  nl_engine : PresentState;
  nl_size : Extent2D;
  nl_color : rgba
}.

Definition on_engine (s : PresentState) (e : PresentEngine) : PresentState :=
  {| ps_engine := e; ps_calls := ps_calls s; ps_log := ps_log s |}.
Definition lane_with (l : NativeLane) (s : PresentState) : NativeLane :=
  {| nl_engine := s; nl_size := nl_size l; nl_color := nl_color l |}.

(** The UI part of [NativeLane::submit]: the mirror, then the draws.  Allocation
    sites 0 and 1. *)
Definition stage_ui (A : alloc) (e : PresentEngine) (ui : option UiCommandPlan)
    (ui_commands : option (list UiDrawCommand)) (ui_ranges : option (list UiUploadRange))
    (ui_upload_bytes : option Z) : PresentEngine * result RenderSubmitError unit :=
  match ui, ui_commands, ui_ranges, ui_upload_bytes with
  | Some plan, Some commands, Some ranges, Some total_bytes =>
      match set_ui_upload_ranges A e ranges total_bytes with
      | (e, Err _) => (e, Err RenderSubmitError.Unsupported)
      | (e, Ok _) =>
          if negb (zlen commands =? cp_draws plan) then (e, Err RenderSubmitError.InvalidPreparation)
          else
            let '(e, r) := set_ui_draw_commands (shift 1 A) e commands in
            (e, map_err (fun _ => RenderSubmitError.Unsupported) r)
      end
  | _, _, _, _ =>
      match set_ui_upload A e [] with
      | (e, Err _) => (e, Err RenderSubmitError.Unsupported)
      | (e, Ok _) =>
          let '(e, r) := set_ui_draw_commands (shift 1 A) e [] in
          (e, map_err (fun _ => RenderSubmitError.Unsupported) r)
      end
  end.

(** [None]: presenting does not return. *)
Definition native_submit (D : Driver) (A : alloc) (l : NativeLane) (preparation : GpuFramePreparation)
    (ui : option UiCommandPlan) (ui_commands : option (list UiDrawCommand))
    (ui_ranges : option (list UiUploadRange)) (ui_upload_bytes : option Z)
  : option (NativeLane * result RenderSubmitError RenderSubmissionStats) :=
  match preparation_validate preparation with
  | Err _ => Some (l, Err RenderSubmitError.InvalidPreparation)
  | Ok _ =>
      let '(e, r) := stage_ui A (ps_engine (nl_engine l)) ui ui_commands ui_ranges ui_upload_bytes in
      let l := lane_with l (on_engine (nl_engine l) e) in
      match r with
      | Err x => Some (l, Err x)
      | Ok _ =>
          match present_frame D (nl_engine l) with
          | Ret s (Ok PresentStatus.Presented) =>
              Some (lane_with l s,
                Ok (mkSubmissionStats 1 (zlen (gp_instances preparation)) (zlen (gp_commands preparation))))
          | Ret s (Ok PresentStatus.OutOfDate) => Some (lane_with l s, Err RenderSubmitError.OutOfDate)
          | Ret s (Err _) => Some (lane_with l s, Err RenderSubmitError.DeviceLost)
          | _ => None
          end
      end
  end.

(** [let _ = lane.engine.recreate(size)]. *)
Definition lane_recreate (D : Driver) (l : NativeLane) (size : Extent2D) : option NativeLane :=
  match recreate D size (nl_engine l) with
  | Ret s _ => Some (lane_with l s)
  | _ => None
  end.

Record RendererSubsystem := {
  rs_state : RendererState;
  rs_stats : RenderStats;
  rs_native : option NativeLane;
  rs_last_resize : option (Z * Z);
  rs_render_world : RenderWorld;
  rs_manifest : CpuRenderManifest;
  rs_gpu_preparation : GpuFramePreparation;
  rs_headless : RenderSubmissionStats;
  rs_last_submission : option RenderSubmissionStats;
  rs_last_extraction : option ExtractionStats;
  rs_extraction_overflowed : bool;
  rs_manifest_overflowed : bool;
  rs_last_ui_frame : option UiFrameReady;
  rs_last_ui_packet : option UiFramePacket;
  rs_last_ui_command_plan : option UiCommandPlan;
  rs_last_ui_draw_commands : option (list UiDrawCommand)
}.

(** The constructors panic when an allocation fails. *)
Definition renderer_with (A : nat -> alloc) (native : option NativeLane) : option RendererSubsystem :=
  match render_world_try_with_capacity (A 0%nat) 4096, manifest_try_with_capacity (A 1%nat) 4096 4096,
        preparation_try_with_capacity (A 2%nat) 4096 4096 with
  | Ok world, Ok manifest, Ok preparation =>
      Some {| rs_state := RendererNew; rs_stats := {| rd_frames := 0; rd_total_dt_ns := 0 |};
              rs_native := native; rs_last_resize := None; rs_render_world := world;
              rs_manifest := manifest; rs_gpu_preparation := preparation;
              rs_headless := submission_stats_default; rs_last_submission := None;
              rs_last_extraction := None; rs_extraction_overflowed := false;
              rs_manifest_overflowed := false; rs_last_ui_frame := None; rs_last_ui_packet := None;
              rs_last_ui_command_plan := None; rs_last_ui_draw_commands := None |}
  | _, _, _ => None
  end.
Definition renderer_new (A : nat -> alloc) : option RendererSubsystem := renderer_with A None.
Definition renderer_with_native (A : nat -> alloc) (engine : PresentState) (size : Extent2D) (color : rgba) :=
  renderer_with A (Some {| nl_engine := engine; nl_size := size; nl_color := color |}).

(** ** Field updates *)
Definition rs_with_state (r : RendererSubsystem) (st : RendererState) (stats : RenderStats) : RendererSubsystem := {|
  rs_state := st; rs_stats := stats; rs_native := rs_native r; rs_last_resize := rs_last_resize r;
  rs_render_world := rs_render_world r; rs_manifest := rs_manifest r;
  rs_gpu_preparation := rs_gpu_preparation r; rs_headless := rs_headless r;
  rs_last_submission := rs_last_submission r; rs_last_extraction := rs_last_extraction r;
  rs_extraction_overflowed := rs_extraction_overflowed r; rs_manifest_overflowed := rs_manifest_overflowed r;
  rs_last_ui_frame := rs_last_ui_frame r; rs_last_ui_packet := rs_last_ui_packet r;
  rs_last_ui_command_plan := rs_last_ui_command_plan r; rs_last_ui_draw_commands := rs_last_ui_draw_commands r |}.
Definition rs_with_resize (r : RendererSubsystem) (l : option NativeLane) (x : option (Z * Z)) : RendererSubsystem := {|
  rs_state := rs_state r; rs_stats := rs_stats r; rs_native := l; rs_last_resize := x;
  rs_render_world := rs_render_world r; rs_manifest := rs_manifest r;
  rs_gpu_preparation := rs_gpu_preparation r; rs_headless := rs_headless r;
  rs_last_submission := rs_last_submission r; rs_last_extraction := rs_last_extraction r;
  rs_extraction_overflowed := rs_extraction_overflowed r; rs_manifest_overflowed := rs_manifest_overflowed r;
  rs_last_ui_frame := rs_last_ui_frame r; rs_last_ui_packet := rs_last_ui_packet r;
  rs_last_ui_command_plan := rs_last_ui_command_plan r; rs_last_ui_draw_commands := rs_last_ui_draw_commands r |}.
Definition rs_with_packet (r : RendererSubsystem) (k : UiFramePacket) (p : option UiCommandPlan)
    (d : option (list UiDrawCommand)) : RendererSubsystem := {|
  rs_state := rs_state r; rs_stats := rs_stats r; rs_native := rs_native r; rs_last_resize := rs_last_resize r;
  rs_render_world := rs_render_world r; rs_manifest := rs_manifest r;
  rs_gpu_preparation := rs_gpu_preparation r; rs_headless := rs_headless r;
  rs_last_submission := rs_last_submission r; rs_last_extraction := rs_last_extraction r;
  rs_extraction_overflowed := rs_extraction_overflowed r; rs_manifest_overflowed := rs_manifest_overflowed r;
  rs_last_ui_frame := Some (fp_ready k); rs_last_ui_packet := Some k;
  rs_last_ui_command_plan := p; rs_last_ui_draw_commands := d |}.
Definition rs_with_scene (r : RendererSubsystem) (w : RenderWorld) (m : CpuRenderManifest)
    (p : GpuFramePreparation) (x : option ExtractionStats) (eo mo : bool) : RendererSubsystem := {|
  rs_state := rs_state r; rs_stats := rs_stats r; rs_native := rs_native r; rs_last_resize := rs_last_resize r;
  rs_render_world := w; rs_manifest := m;
  rs_gpu_preparation := p; rs_headless := rs_headless r;
  rs_last_submission := rs_last_submission r; rs_last_extraction := x;
  rs_extraction_overflowed := eo; rs_manifest_overflowed := mo;
  rs_last_ui_frame := rs_last_ui_frame r; rs_last_ui_packet := rs_last_ui_packet r;
  rs_last_ui_command_plan := rs_last_ui_command_plan r; rs_last_ui_draw_commands := rs_last_ui_draw_commands r |}.
Definition rs_with_submission (r : RendererSubsystem) (l : option NativeLane) (h : RenderSubmissionStats)
    (s : option RenderSubmissionStats) : RendererSubsystem := {|
  rs_state := rs_state r; rs_stats := rs_stats r; rs_native := l; rs_last_resize := rs_last_resize r;
  rs_render_world := rs_render_world r; rs_manifest := rs_manifest r;
  rs_gpu_preparation := rs_gpu_preparation r; rs_headless := h;
  rs_last_submission := s; rs_last_extraction := rs_last_extraction r;
  rs_extraction_overflowed := rs_extraction_overflowed r; rs_manifest_overflowed := rs_manifest_overflowed r;
  rs_last_ui_frame := rs_last_ui_frame r; rs_last_ui_packet := rs_last_ui_packet r;
  rs_last_ui_command_plan := rs_last_ui_command_plan r; rs_last_ui_draw_commands := rs_last_ui_draw_commands r |}.

(** ** The tick *)
Section Tick.
Context {P X : Type} `{!Payload WindowResized P} `{!Payload UiFramePacket P}.
Context (D : Driver) (transform_type material_type : TypeId)
  (sort : list RenderInstance -> list RenderInstance).

Definition result_ok {E A} (r : result E A) : option A := match r with Ok a => Some a | Err _ => None end.

(** The draws' vector is the [k]-th message's allocation. *)
Definition renderer_message (As : nat -> alloc) (k : nat) (r : RendererSubsystem) (e : Envelope P)
  : option RendererSubsystem :=
  if env_topic e =? 1 then
    match envelope_downcast (downcast (T := WindowResized)) e with
    | Ok size =>
        let resize := Some (wr_width size, wr_height size) in
        match rs_native r with
        | None => Some (rs_with_resize r None resize)
        | Some l =>
            let x := {| e_width := wr_width size; e_height := wr_height size |} in
            l ← lane_recreate D {| nl_engine := nl_engine l; nl_size := x; nl_color := nl_color l |} x;
            Some (rs_with_resize r (Some l) resize)
        end
    | Err _ => Some r
    end
  else if env_topic e =? 2 then
    match envelope_downcast (downcast (T := UiFramePacket)) e with
    | Ok packet =>
        Some (rs_with_packet r packet (result_ok (plan_try_build (fp_snapshot packet)))
          (result_ok (build_draw_commands (As k) (fp_snapshot packet))))
    | Err _ => Some r
    end
  else Some r.

Record RenderAlloc := {
  ra_messages : nat -> alloc; ra_extract : alloc; ra_manifest : alloc; ra_prepare : alloc; ra_submit : alloc
}.

(** Extraction, manifest and preparation: whether a frame can be submitted. *)
Definition renderer_scene (A : RenderAlloc) (r : RendererSubsystem) (w : World (component X))
  : option (RendererSubsystem * bool) :=
  '(rw, res) ← extract_typed transform_type material_type (ra_extract A) (rs_render_world r) w;
  match res with
  | Err _ => Some (rs_with_scene r rw (rs_manifest r) (rs_gpu_preparation r) (rs_last_extraction r) true true, false)
  | Ok stats =>
      '(m, built) ← manifest_build sort (ra_manifest A) (rs_manifest r) rw;
      if negb (is_ok built)
      then Some (rs_with_scene r rw m (rs_gpu_preparation r) (Some stats) false true, false)
      else
        let '(p, prepared) := preparation_prepare (ra_prepare A) (rs_gpu_preparation r) m in
        Some (rs_with_scene r rw m p (Some stats) false (negb (is_ok prepared)), is_ok prepared)
  end.

Definition renderer_submit (A : RenderAlloc) (r : RendererSubsystem) : option RendererSubsystem :=
  match rs_native r with
  | Some l =>
      '(l, res) ← native_submit D (ra_submit A) l (rs_gpu_preparation r) (rs_last_ui_command_plan r)
        (rs_last_ui_draw_commands r) (fp_upload_ranges <$> rs_last_ui_packet r)
        ((fun k => up_bytes (sn_upload (fp_snapshot k))) <$> rs_last_ui_packet r);
      match res with
      | Ok stats => Some (rs_with_submission r (Some l) (rs_headless r) (Some stats))
      | Err RenderSubmitError.OutOfDate =>
          l ← lane_recreate D l (nl_size l);
          Some (rs_with_submission r (Some l) (rs_headless r) (rs_last_submission r))
      | Err _ => Some (rs_with_submission r (Some l) (rs_headless r) None)
      end
  | None =>
      let '(h, res) := headless_submit (rs_headless r) (rs_gpu_preparation r) in
      Some (rs_with_submission r None h
        (match res with Ok stats => Some stats | Err _ => rs_last_submission r end))
  end.

Definition count_frame (r : RendererSubsystem) (dt_ns : Z) : RendererSubsystem :=
  rs_with_state r (rs_state r) {|
    rd_frames := saturating_add 64 (rd_frames (rs_stats r)) 1;
    rd_total_dt_ns := saturating_add 128 (rd_total_dt_ns (rs_stats r)) dt_ns |}.

(** The tick after the inbox is drained. *)
Definition renderer_frame (A : RenderAlloc) (r : RendererSubsystem) (w : World (component X)) (dt_ns : Z)
  : option RendererSubsystem :=
  '(r, submit) ← renderer_scene A r w;
  r ← (if submit : bool then renderer_submit A r else Some r);
  Some (count_frame r dt_ns).

Definition renderer_tick (A : RenderAlloc) (r : RendererSubsystem) (c : KernelContext P (component X)) (dt_ns : Z)
  : option (RendererSubsystem * KernelContext P (component X)) :=
  match rs_state r with
  | RendererReady =>
      '(c, r) ← receive_all (renderer_message (ra_messages A)) c r;
      r ← renderer_frame A r (sh_world (kc_shared c)) dt_ns;
      Some (r, c)
  | _ => Some (r, c)
  end.

Definition renderer_init (r : RendererSubsystem) : RendererSubsystem :=
  rs_with_state r RendererReady (rs_stats r).

Definition renderer_shutdown (r : RendererSubsystem) : RendererSubsystem :=
  match rs_state r with
  | RendererReady => rs_with_state r RendererShutdown (rs_stats r)
  | _ => r
  end.
End Tick.

(** ** The upload mirror *)
Lemma copy_ranges_spec rs : forall m from total, ordered from rs total -> 0 <= from -> total <= U64_MAX ->
  copy_ranges m rs total = (apply_ranges m rs, Ok tt).
Proof.
  induction rs as [|r rs IH]; intros m from total; cbn [ordered copy_ranges]; [done|].
  intros (H1 & _ & H2) H0 Ht. pose proof (zlen_nonneg (ur_bytes r)).
  assert (Hend : ur_offset r + zlen (ur_bytes r) <= total).
  { clear IH. revert H2. generalize (ur_offset r + zlen (ur_bytes r)). clear. induction rs as [|x rs IH]; cbn; [done|].
    intros z (Hz & _ & Hx). apply IH in Hx. pose proof (zlen_nonneg (ur_bytes x)). lia. }
  rewrite checked_add_ok by (unfold umax, U64_MAX in *; lia). rewrite (proj2 (Z.ltb_ge _ _)) by lia.
  rewrite (IH _ _ _ H2) by lia. done.
Qed.

Lemma apply_whole m (bytes : list Z) : length m = length bytes ->
  apply_range m {| ur_offset := 0; ur_bytes := bytes |} = bytes.
Proof.
  intros H. unfold apply_range. cbn [ur_offset ur_bytes]. change (Z.to_nat 0) with 0%nat. apply list_eq. intros i.
  destruct (decide (i < length bytes)%nat).
  - rewrite list_lookup_inserts by lia. by rewrite Nat.sub_0_r.
  - rewrite list_lookup_inserts_ge by lia. by rewrite !lookup_ge_None_2 by lia.
Qed.

(** The engine holds the stream of the last packet. *)
Definition mirrored (k : option UiFramePacket) (e : PresentEngine) : Prop :=
  match k with Some k => pe_ui_upload e = stream (fp_snapshot k) | None => True end.

Lemma ranges_mirror A c prev k e : follows A c prev k -> max_upload_bytes c <= UI_UPLOAD_CAPACITY ->
  mirrored prev e ->
  set_ui_upload_ranges alloc_all e (fp_upload_ranges k) (up_bytes (sn_upload (fp_snapshot k))) =
    (pe_with_ui e (stream (fp_snapshot k)) (pe_ui_draw_commands e), Ok tt).
Proof.
  intros [[_ _ Hb Hbud] Hp Hr] Hc Hm. unfold set_ui_upload_ranges. unfold UI_UPLOAD_CAPACITY in *.
  rewrite Hb in *. rewrite (proj2 (Z.ltb_ge _ _)) by lia. cbn [alloc_all].
  assert (Hs : zlen (stream (fp_snapshot k)) + 96 <= U64_MAX) by (unfold U64_MAX; lia).
  assert (Hps : forall p, fp_snapshot <$> prev = Some p -> zlen (stream p) + 96 <= U64_MAX).
  { intros p Hpe. apply fmap_Some in Hpe as (q & Hq & ->). destruct (Hp q Hq) as [_ _ Hb2 Hbud2].
    rewrite Hb2 in Hbud2. unfold U64_MAX. lia. }
  destruct (dirty_ranges_spec A _ _ _ Hs Hps Hr) as [_ Hd]. pose proof (zlen_nonneg (stream (fp_snapshot k))).
  destruct prev as [p|]; cbn [fmap option_fmap option_map] in Hd.
  - destruct Hd as [Hd1 Hd2]. rewrite (copy_ranges_spec _ _ 0 _ Hd2) by (unfold U64_MAX in *; lia).
    cbn in Hm. rewrite Hm. unfold rebase in Hd1. by rewrite Hd1.
  - rewrite Hd. cbn [copy_ranges ur_offset ur_bytes]. rewrite checked_add_ok by (unfold umax, U64_MAX in *; lia).
    rewrite Z.add_0_l, Z.ltb_irrefl, apply_whole; [done|].
    pose proof (zlen_resize (pe_ui_upload e) (zlen (stream (fp_snapshot k))) 0 ltac:(lia)) as Hl.
    by apply Nat2Z.inj.
Qed.

(** Staging a good packet: the mirror becomes its stream and the draws its
    draws. *)
Lemma stage_ui_spec A c prev k e : follows A c prev k -> max_upload_bytes c <= UI_UPLOAD_CAPACITY ->
  mirrored prev e ->
  exists ds, build_draw_commands alloc_all (fp_snapshot k) = Ok ds /\ draws 0 (sn_items (fp_snapshot k)) ds /\
  stage_ui alloc_all e (result_ok (plan_try_build (fp_snapshot k)))
    (result_ok (build_draw_commands alloc_all (fp_snapshot k))) (Some (fp_upload_ranges k))
    (Some (up_bytes (sn_upload (fp_snapshot k)))) =
  (pe_with_ui e (stream (fp_snapshot k)) ds, Ok tt).
Proof.
  intros F Hc Hm. pose proof (ranges_mirror A c prev k e F Hc Hm) as E. destruct F as [[Hp Hd _ _] _ _].
  destruct Hp as (plan & Hplan & _ & Hdraws & _). destruct Hd as (ds & Hds & Hcov).
  exists ds. split; [done|]. split; [done|]. unfold stage_ui. rewrite Hplan, Hds. cbn [result_ok]. rewrite E.
  assert (Hlen : zlen ds = cp_draws plan).
  { revert Hds. unfold build_draw_commands. rewrite Hplan. cbn. intros [= <-].
    unfold zlen in *. by rewrite length_map, Hdraws. }
  rewrite Hlen, Z.eqb_refl. by cbn.
Qed.

(** ** One submission *)
Lemma native_submit_spec D A c prev k l preparation : preparation_validate preparation = Ok tt ->
  follows A c prev k -> max_upload_bytes c <= UI_UPLOAD_CAPACITY ->
  mirrored prev (ps_engine (nl_engine l)) -> engine_ok (ps_engine (nl_engine l)) ->
  driver_ok D (pe_images (ps_engine (nl_engine l))) ->
  exists l' res ds,
  native_submit D alloc_all l preparation (result_ok (plan_try_build (fp_snapshot k)))
    (result_ok (build_draw_commands alloc_all (fp_snapshot k))) (Some (fp_upload_ranges k))
    (Some (up_bytes (sn_upload (fp_snapshot k)))) = Some (l', res) /\
  build_draw_commands alloc_all (fp_snapshot k) = Ok ds /\ draws 0 (sn_items (fp_snapshot k)) ds /\
  inputs (ps_engine (nl_engine l')) =
    inputs (pe_with_ui (ps_engine (nl_engine l)) (stream (fp_snapshot k)) ds) /\
  match res with
  | Ok _ => engine_ok (ps_engine (nl_engine l')) /\
      delivered (pe_with_ui (ps_engine (nl_engine l)) (stream (fp_snapshot k)) ds) (ps_engine (nl_engine l'))
  | Err RenderSubmitError.OutOfDate => engine_ok (ps_engine (nl_engine l'))
  | Err _ => True
  end.
Proof.
  intros Hv F Hc Hm He HD. destruct (stage_ui_spec A c prev k _ F Hc Hm) as (ds & Hds & Hdr & Hst).
  unfold native_submit. rewrite Hv, Hst. cbn [ps_engine on_engine nl_engine lane_with].
  set (e := pe_with_ui _ _ _). set (s := on_engine _ e).
  assert (engine_ok (ps_engine s)) as Hs by (destruct He; by constructor).
  destruct (present_frame_spec D s Hs HD) as (s' & r & -> & log & image & _ & _ & Hin & H).
  destruct r as [[|]|x]; eexists _, _, ds; (split; [reflexivity|]); (split; [done|]); (split; [done|]);
    (split; [exact Hin|]); [|apply H|done].
  destruct H as (H1 & _ & H2 & _). by split.
Qed.

(** ** A tick of the UI, then one of the renderer *)
Section Screen.
Context {P X : Type} `{!Payload WindowResized P} `{!Payload InputFrame P} `{!Payload UiAssetReady P}
  `{!Payload UiCommandMessage P} `{!Payload UiFramePacket P}.
Context (D : Driver) (T M : TypeId) (sort : list RenderInstance -> list RenderInstance).
Implicit Types (c : KernelContext P (component X)) (w : World (component X)) (r : RendererSubsystem).

(** The context the kernel passes to another subscriber after [c]. *)
Definition at_subscriber c (id : SubscriberId) : KernelContext P (component X) :=
  mkKernelContext (kc_shared c) (kc_names c) id (kc_dt_ns c).

Definition with_memory : RenderAlloc := {|
  ra_messages := fun _ => alloc_all; ra_extract := alloc_all; ra_manifest := alloc_all;
  ra_prepare := alloc_all; ra_submit := alloc_all |}.

(** The two subsystems agree on what the last packet was. *)
Record in_step (s : UiSubsystem) r (l : NativeLane) : Prop := {
  is_ui : ui_ok s;
  is_budget : max_upload_bytes (us_config s) <= UI_UPLOAD_CAPACITY;
  is_ready : rs_state r = RendererReady;
  is_lane : rs_native r = Some l;
  is_mirror : mirrored (us_last_packet s) (ps_engine (nl_engine l));
  is_engine : engine_ok (ps_engine (nl_engine l))
}.

(** What became of the renderer's submission. *)
Inductive outcome (s : UiSubsystem) (k : UiFramePacket) r r' (l l' : NativeLane) : Prop :=
| Presented :
    in_step s r' l' -> is_Some (rs_last_submission r') ->
    (pe_world_upload (ps_engine (nl_engine l)) = [] -> stream (fp_snapshot k) <> [] ->
     take (length (stream (fp_snapshot k))) (pe_ui_device (ps_engine (nl_engine l'))) = stream (fp_snapshot k)) ->
    outcome s k r r' l l'
| OutOfDate : in_step s r' l' -> rs_last_submission r' = rs_last_submission r -> outcome s k r r' l l'
| Lost : rs_last_submission r' = None -> outcome s k r r' l l'.

Lemma scene_packet A r w k p d :
  renderer_scene T M sort A (rs_with_packet r k p d) w =
  ((fun x => (rs_with_packet x.1 k p d, x.2)) <$> renderer_scene T M sort A r w).
Proof.
  unfold renderer_scene. cbn [rs_with_packet rs_render_world rs_manifest rs_gpu_preparation].
  destruct (extract_typed _ _ _ _ _) as [[rw [st|e]]|]; cbn [mbind option_bind]; [|done..].
  destruct (manifest_build _ _ _ _) as [[m b]|]; cbn [mbind option_bind]; [|done].
  destruct (negb _); [done|]. by destruct (preparation_prepare _ _ _).
Qed.

Lemma scene_keeps A r w r1 : renderer_scene T M sort A r w = Some (r1, true) ->
  rs_native r1 = rs_native r /\ rs_state r1 = rs_state r /\ rs_last_submission r1 = rs_last_submission r /\
  preparation_validate (rs_gpu_preparation r1) = Ok tt.
Proof.
  unfold renderer_scene. destruct (extract_typed _ _ _ _ _) as [[rw [st|e]]|]; cbn [mbind option_bind]; [|done..].
  destruct (manifest_build _ _ _ _) as [[m b]|]; cbn [mbind option_bind]; [|done].
  destruct (negb _); [done|]. destruct (preparation_prepare _ _ _) as [p [[]|x]] eqn:Ep; intros [= <-].
  cbn. repeat (split; [done|]). by eapply prepare_validates.
Qed.

(** The renderer with a new packet, the scene prepared. *)
Lemma submit_packet A s s' r l k : follows A (us_config s) (us_last_packet s) k -> in_step s r l ->
  driver_ok D (pe_images (ps_engine (nl_engine l))) ->
  ui_ok s' -> us_config s' = us_config s -> us_last_packet s' = Some k ->
  preparation_validate (rs_gpu_preparation r) = Ok tt ->
  rs_last_ui_packet r = Some k -> rs_last_ui_command_plan r = result_ok (plan_try_build (fp_snapshot k)) ->
  rs_last_ui_draw_commands r = result_ok (build_draw_commands alloc_all (fp_snapshot k)) ->
  exists r' l' ds, renderer_submit D with_memory r = Some r' /\ rs_native r' = Some l' /\
  rs_last_ui_packet r' = Some k /\
  build_draw_commands alloc_all (fp_snapshot k) = Ok ds /\ draws 0 (sn_items (fp_snapshot k)) ds /\
  pe_ui_upload (ps_engine (nl_engine l')) = stream (fp_snapshot k) /\
  pe_ui_draw_commands (ps_engine (nl_engine l')) = ds /\ outcome s' k r r' l l'.
Proof.
  intros F [Hs Hc Hr Hl Hm He] HD Hs' Hconf Hk Hv Kk Kp Kd.
  destruct (native_submit_spec D A _ _ k l _ Hv F Hc Hm He HD) as (l' & res & ds & E & Hds & Hdr & Hin & H).
  unfold renderer_submit. rewrite Hl, Kk, Kp, Kd. cbn [fmap option_fmap option_map ra_submit with_memory].
  rewrite E. cbn [mbind option_bind].
  assert (pe_ui_upload (ps_engine (nl_engine l')) = stream (fp_snapshot k)) as Hu by (by injection Hin).
  assert (pe_ui_draw_commands (ps_engine (nl_engine l')) = ds) as Hd by (by injection Hin).
  assert (Hstep : forall r' l', rs_state r' = RendererReady -> rs_native r' = Some l' ->
    pe_ui_upload (ps_engine (nl_engine l')) = stream (fp_snapshot k) ->
    engine_ok (ps_engine (nl_engine l')) -> in_step s' r' l').
  { intros. constructor; try done; [by rewrite Hconf|by rewrite Hk]. }
  destruct res as [st|x].
  - destruct H as [H1 H2]. eexists _, l', ds. split; [reflexivity|]. repeat (split; [done|]).
    apply Presented; [by apply Hstep|by exists st|]. intros Hw Hst. destruct H2 as [_ H2]. cbn in H2. rewrite Hw in H2.
    assert (nonempty (stream (fp_snapshot k)) = true) as Hne; [|by rewrite Hne in H2].
    destruct (stream (fp_snapshot k)) as [|b bs]; [done|]. unfold nonempty. rewrite zlen_cons. pose proof (zlen_nonneg bs).
    by rewrite (proj2 (Z.eqb_neq _ _)) by lia.
  - destruct x; try (eexists _, l', ds; split; [reflexivity|]; repeat (split; [done|]); by apply Lost).
    unfold lane_recreate. destruct (recreate_spec D (nl_size l') (nl_engine l')) as (s2 & y & -> & [R1 R2 R3 _ _] & _).
    cbn [mbind option_bind]. eexists _, (lane_with l' s2), ds. split; [reflexivity|]. cbn.
    repeat (split; [done|]). split; [by rewrite R2|]. split; [by rewrite R3|].
    apply OutOfDate; [apply Hstep; try done; cbn; [by rewrite R2|]|done].
    destruct H as [H1 H2]. constructor; by rewrite R1.
Qed.

(** The inbox of a renderer that has one packet. *)
Lemma message_packet id rid n k r :
  handle_all (renderer_message D (fun _ => alloc_all)) 0 [mkEnvelope id rid 2 n (into k)] r =
  Some (rs_with_packet r k (result_ok (plan_try_build (fp_snapshot k)))
    (result_ok (build_draw_commands alloc_all (fp_snapshot k)))).
Proof. cbn. unfold renderer_message, envelope_downcast. cbn. by rewrite downcast_into. Qed.

Lemma publish_inbox qs c rid s k n : qs !z rid = Some [] -> kc_id c <> rid -> us_last_packet s = Some k ->
  inbox_of (publish_queues (P := P) (zset qs (kc_id c) []) (kc_id c) n (Some rid) (us_last_packet s)) rid =
  [mkEnvelope (kc_id c) rid 2 n (into k)].
Proof.
  intros Hq Hne ->. unfold publish_queues, deliver, inbox_of. cbn [env_to]. rewrite zget_zset_ne by done. rewrite Hq.
  change (zlen [] <? DEFAULT_INBOX_CAPACITY) with true. cbn [fst].
  by rewrite zget_zset_eq by (rewrite zlen_zset; by eapply zget_Some).
Qed.

(** C1: What the UI paints is what the presentation engine holds.  Let the two
    subsystems be in step, the renderer's inbox empty, the images the driver
    hands out those of the swapchain, and let there be memory for the UI's
    packet and for the renderer.  After a tick of the UI that made
    a packet and a tick of the renderer whose scene was prepared, in one frame of
    the kernel, the engine's upload is byte for byte the encoding of that
    packet, although only the changed ranges were sent, and its draw commands are the packet's and
    cover its items.  If the frame was presented, the device
    buffer begins with these bytes; and the two are in step for the next
    frame, unless the submission failed. *)
Theorem ui_reaches_screen (A : FrameAlloc) (s : UiSubsystem) r (l : NativeLane) c qs (rid : SubscriberId) (dt_ns : Z) r1
    (Hstep : in_step s r l) (Hdriver : driver_ok D (pe_images (ps_engine (nl_engine l))))
    (Hbus : bus_repr (sh_bus (kc_shared c)) qs) (Hinbox : qs !z rid = Some []) (Hrid : kc_id c <> rid)
    (Hname : ctx_resolve c "renderer" = Some rid)
    (Hsnapshot : forall n, fa_snapshot A n = true) (Hencode : forall n, fa_encode A n = true)
    (Hscene : renderer_scene T M sort with_memory r (sh_world (kc_shared c)) = Some (r1, true)) :
  exists s' c', ui_tick false A s c = Some (s', c') /\
  forall k, us_last_packet s' = Some k ->
  exists r' c'' l' ds,
    renderer_tick D T M sort with_memory r (at_subscriber c' rid) dt_ns = Some (r', c'') /\
    rs_native r' = Some l' /\ rs_last_ui_packet r' = Some k /\
    build_draw_commands alloc_all (fp_snapshot k) = Ok ds /\ draws 0 (sn_items (fp_snapshot k)) ds /\
    pe_ui_upload (ps_engine (nl_engine l')) = stream (fp_snapshot k) /\
    pe_ui_draw_commands (ps_engine (nl_engine l')) = ds /\ outcome s' k r r' l l'.
Proof.
  pose proof (is_ui _ _ _ Hstep) as Hs.
  destruct (ui_tick_spec A s c qs Hs Hbus) as (s1 & x & s' & b & _ & _ & _ & E & H' & _ & _ & Hb).
  exists s', (ctx_with_bus c b). split; [done|]. intros k Hk.
  destruct (ui_tick_follows A s c qs s' b k Hs Hbus Hsnapshot Hencode E Hk) as [F Hconf].
  rewrite Hname in Hb. unfold renderer_tick. rewrite (is_ready _ _ _ Hstep).
  pose proof (drain_inbox_spec (renderer_message D (fun _ => alloc_all)) (at_subscriber (ctx_with_bus c b) rid) r _ Hb) as R.
  cbn [kc_id at_subscriber] in R. rewrite (publish_inbox qs c rid s' k _ Hinbox Hrid Hk), message_packet in R.
  destruct R as (b' & _ & _ & R). cbn [ra_messages with_memory]. rewrite R. cbn [mbind option_bind].
  unfold renderer_frame. rewrite scene_packet. cbn [sh_world kc_shared ctx_with_bus with_shared at_subscriber with_bus].
  rewrite Hscene. cbn [fmap option_fmap option_map mbind option_bind fst snd].
  destruct (scene_keeps _ _ _ _ Hscene) as (N1 & N2 & N3 & N4).
  assert (Hstep1 : in_step s (rs_with_packet r1 k (result_ok (plan_try_build (fp_snapshot k)))
    (result_ok (build_draw_commands alloc_all (fp_snapshot k)))) l).
  { destruct Hstep. constructor; try done; cbn; congruence. }
  destruct (submit_packet _ s s' _ l k F Hstep1 Hdriver H' Hconf Hk) as
    (r' & l' & ds & -> & G1 & G2 & G3 & G4 & G5 & G6 & G7); try done.
  cbn [mbind option_bind]. eexists _, _, l', ds. split; [reflexivity|]. repeat (split; [done|]).
  destruct G7 as [[] G|[] G|G]; [apply Presented|apply OutOfDate|apply Lost]; cbn in *; try done; congruence.
Qed.
End Screen.

(** ** A screen *)
Definition screen_tick (A : RenderAlloc) (s : UiSubsystem) (r : RendererSubsystem)
    (c : KernelContext any (component Empty_set)) :
    option (UiSubsystem * RendererSubsystem * KernelContext any (component Empty_set)) :=
  '(s, c) ← ui_tick false demo_alloc s c;
  '(r, c) ← renderer_tick demo_driver 0 1 by_key A r (at_subscriber c 1) 16;
  Some (s, r, c).

Definition screen_renderer : option RendererSubsystem :=
  renderer_init <$> renderer_with_native (fun _ => alloc_all) (demo_state [])
    {| e_width := 640; e_height := 480 |} (rgba_splat f32_zero).

(** One tick with the given commands for the UI. *)
Definition screen_frame (A : RenderAlloc) (q : UiSubsystem * RendererSubsystem) (cs : list UiCommand) :
    option (UiSubsystem * RendererSubsystem) :=
  fst <$> screen_tick A q.1 q.2 (demo_ui_context (foldl demo_post demo_ui_bus cs) 0).

(** The engine's upload against the last packet, and whether the renderer
    reports a submission. *)
Definition screen_faithful (q : UiSubsystem * RendererSubsystem) : option (bool * bool) :=
  k ← us_last_packet q.1;
  l ← rs_native q.2;
  Some (bool_decide (pe_ui_upload (ps_engine (nl_engine l)) = stream (fp_snapshot k)),
        bool_decide (is_Some (rs_last_submission q.2))).

Definition screen_start : option (UiSubsystem * RendererSubsystem) :=
  match demo_new with Ok s => (fun r => (s, r)) <$> screen_renderer | Err _ => None end.

(** A frame of the renderer without memory for the mirror loses a packet.  The
    next one carries only the bytes that changed since, so the engine then holds, and
    presents, bytes no packet had. *)
Definition no_mirror : RenderAlloc := {|
  ra_messages := fun _ => alloc_all; ra_extract := alloc_all; ra_manifest := alloc_all;
  ra_prepare := alloc_all; ra_submit := fun _ => false |}.

Example lost_packet_desynchronises :
  (q ← screen_start;
   q1 ← screen_frame with_memory q [];
   q2 ← screen_frame no_mirror q1 [UiCommand.Create demo_r panel];
   q3 ← screen_frame with_memory q2 [];
   f1 ← screen_faithful q1; f2 ← screen_faithful q2; f3 ← screen_faithful q3;
   Some [f1; f2; f3]) = Some [(true, true); (false, false); (false, true)].
Proof. vm_compute. reflexivity. Qed.

Lemma screen_in_step s r l : demo_new = Ok s -> screen_renderer = Some r -> rs_native r = Some l ->
  in_step s r l.
Proof.
  intros Hs Hr Hl.
  assert (H : ui_ok s).
  { apply (subsystem_try_new_ok (fun _ => alloc_all) demo_config); [cbn; lia|cbn; lia|repeat split; discriminate| |exact Hs].
    cbn. unfold U64_MAX. lia. }
  vm_compute in Hr. injection Hr as <-. injection Hl as <-. vm_compute in Hs. injection Hs as <-.
  constructor; [exact H|done..|]. constructor; [done|]. repeat constructor; discriminate.
Qed.

Lemma ui_reaches_screen_witness :
  match screen_start with
  | Some (s, r) =>
      exists s' (c' : KernelContext any (component Empty_set)) k r' c'' l',
        ui_tick false demo_alloc s (demo_ui_context demo_ui_bus 0) = Some (s', c') /\
      us_last_packet s' = Some k /\
      renderer_tick demo_driver 0 1 by_key with_memory r (at_subscriber c' 1) 16 = Some (r', c'') /\
      rs_native r' = Some l' /\ pe_ui_upload (ps_engine (nl_engine l')) = stream (fp_snapshot k)
  | None => False
  end.
Proof.
  unfold screen_start. destruct demo_new as [s|] eqn:Es; [|vm_compute in Es; discriminate Es].
  destruct screen_renderer as [r|] eqn:Er; [|vm_compute in Er; discriminate Er]. cbn [fmap option_fmap option_map].
  destruct (rs_native r) as [l|] eqn:El; [|vm_compute in Er; injection Er as <-; discriminate El].
  destruct (renderer_scene (X := Empty_set) 0 1 by_key with_memory r world_new) as [[r1 b]|] eqn:Ec;
    [|vm_compute in Er; injection Er as <-; vm_compute in Ec; discriminate Ec].
  assert (Hb : b = true) by (vm_compute in Er; injection Er as <-; vm_compute in Ec; by injection Ec).
  rewrite Hb in Ec. clear Hb.
  destruct (ui_reaches_screen (X := Empty_set) demo_driver 0 1 by_key demo_alloc s r l (demo_ui_context demo_ui_bus 0) [[]; []] 1 16 r1)
    as (s' & c' & E & H).
  - exact (screen_in_step s r l Es Er El).
  - vm_compute in Er. injection Er as <-. injection El as <-. exact demo_driver_ok.
  - exact demo_ui_bus_repr.
  - reflexivity.
  - discriminate.
  - reflexivity.
  - reflexivity.
  - reflexivity.
  - exact Ec.
  - destruct (us_last_packet s') as [k|] eqn:Ek.
    + destruct (H k eq_refl) as (r' & c'' & l' & ds & H1 & H2 & _ & _ & _ & H3 & _).
      exists s', c', k, r', c'', l'. repeat (split; [done|]). exact H3.
    + exfalso. vm_compute in Es. injection Es as <-. vm_compute in E. injection E as <- _. discriminate Ek.
Defined.
