(* ===== verification/Simulation.v ===== *)
(** The simulation subsystems: the scripting VM ([subsystems/scripting.rs]), the
    fixed-point physics ([physics.rs]) and the audio voices ([audio.rs]).

    Theorems: the VM's loop is the interpreter of the program as a list of
    instructions, so it ends, stays within stack and budget, and evaluates
    every compiled arithmetic expression; physics and audio advance exactly as
    the formulas say, saturating and wrapping where the code does. *)

From S2P Require Import Prelude Arena Ring Bus World Deferred Scheduler Kernel Messages.

Local Open Scope Z_scope.
Local Open Scope kit_scope.

(** ** The scripting VM *)
Module Instruction.
Inductive Instruction := Push (value : Z) | Add | Sub | Mul | Halt.
End Instruction.
Abbreviation Instruction := Instruction.Instruction.

Module ScriptError.
Inductive ScriptError := StackOverflow | StackUnderflow | InstructionBudgetExceeded | AllocationFailed.
End ScriptError.
Abbreviation ScriptError := ScriptError.ScriptError.

(** The capacities are those of the vectors reserved at construction. *)
Record ScriptingSubsystem := {
  sc_program : list Instruction; sc_program_capacity : Z;
  sc_stack : list Z; sc_stack_capacity : Z;
  sc_budget : Z; sc_pc : Z; sc_halted : bool; sc_last_error : option ScriptError
}.

Definition script_try_with_capacity (A : alloc) (program_capacity stack_capacity budget : Z)
  : result ScriptError ScriptingSubsystem :=
  if negb (A 0%nat) then Err ScriptError.AllocationFailed
  else if negb (A 1%nat) then Err ScriptError.AllocationFailed
  else Ok {| sc_program := []; sc_program_capacity := program_capacity; sc_stack := [];
             sc_stack_capacity := stack_capacity; sc_budget := budget; sc_pc := 0;
             sc_halted := false; sc_last_error := None |}.

Definition script_load (s : ScriptingSubsystem) (program : list Instruction) : ScriptingSubsystem * bool :=
  if sc_program_capacity s <? zlen program then (s, false)
  else ({| sc_program := program; sc_program_capacity := sc_program_capacity s; sc_stack := [];
           sc_stack_capacity := sc_stack_capacity s; sc_budget := sc_budget s; sc_pc := 0;
           sc_halted := false; sc_last_error := None |}, true).

Definition sc_with (s : ScriptingSubsystem) (stack : list Z) (pc : Z) (halted : bool)
    (error : option ScriptError) : ScriptingSubsystem :=
  {| sc_program := sc_program s; sc_program_capacity := sc_program_capacity s; sc_stack := stack;
     sc_stack_capacity := sc_stack_capacity s; sc_budget := sc_budget s; sc_pc := pc;
     sc_halted := halted; sc_last_error := error |}.

(** [None] for [Push] and [Halt], which do not get here. *)
Definition arithmetic (i : Instruction) (lhs rhs : Z) : option Z :=
  match i with
  | Instruction.Add => Some (clamp_i64 (lhs + rhs))
  | Instruction.Sub => Some (clamp_i64 (lhs - rhs))
  | Instruction.Mul => Some (clamp_i64 (lhs * rhs))
  | Instruction.Push _ | Instruction.Halt => None
  end.

Definition script_fail (s : ScriptingSubsystem) (e : ScriptError) : ScriptingSubsystem :=
  sc_with s (sc_stack s) (sc_pc s) (sc_halted s) (Some e).

(** The [while] loop; [None]: out of fuel or a panic. *)
Fixpoint execute_loop (fuel : nat) (s : ScriptingSubsystem) (executed : Z) : option ScriptingSubsystem :=
  match fuel with
  | O => None
  | S fuel =>
      if negb (sc_halted s) && (sc_pc s <? zlen (sc_program s)) then
        if executed =? sc_budget s then Some (script_fail s ScriptError.InstructionBudgetExceeded)
        else
          instruction ← sc_program s !z (sc_pc s);
          let s := sc_with s (sc_stack s) (sc_pc s + 1) (sc_halted s) (sc_last_error s) in
          match instruction with
          | Instruction.Push value =>
              if zlen (sc_stack s) =? sc_stack_capacity s then Some (script_fail s ScriptError.StackOverflow)
              else execute_loop fuel
                     (sc_with s (sc_stack s ++ [value]) (sc_pc s) (sc_halted s) (sc_last_error s)) (executed + 1)
          | Instruction.Halt =>
              execute_loop fuel (sc_with s (sc_stack s) (sc_pc s) true (sc_last_error s)) (executed + 1)
          | Instruction.Add | Instruction.Sub | Instruction.Mul =>
              match vec_pop (sc_stack s) with
              | None => Some (script_fail s ScriptError.StackUnderflow)
              | Some (rhs, stack) =>
                  let s := sc_with s stack (sc_pc s) (sc_halted s) (sc_last_error s) in
                  match vec_pop stack with
                  | None => Some (script_fail s ScriptError.StackUnderflow)
                  | Some (lhs, stack) =>
                      value ← arithmetic instruction lhs rhs;
                      execute_loop fuel
                        (sc_with s (stack ++ [value]) (sc_pc s) (sc_halted s) (sc_last_error s)) (executed + 1)
                  end
              end
          end
      else Some s
  end.

Definition execute (s : ScriptingSubsystem) : option ScriptingSubsystem :=
  execute_loop (S (length (sc_program s))) s 0.

Definition script_tick (s : ScriptingSubsystem) : option ScriptingSubsystem :=
  if negb (sc_halted s) && bool_decide (sc_last_error s = None) then execute s else Some s.

(** ** The reference: the rest of the program, instruction by instruction *)
Variant script_end := Ended | Halted | Failed (e : ScriptError).

Fixpoint interpret (capacity budget : Z) (code : list Instruction) (stack : list Z) : list Z * Z * script_end :=
  match code with
  | [] => (stack, 0, Ended)
  | i :: code =>
      if budget =? 0 then (stack, 0, Failed ScriptError.InstructionBudgetExceeded)
      else
        match i with
        | Instruction.Push v =>
            if zlen stack =? capacity then (stack, 1, Failed ScriptError.StackOverflow)
            else let '(st, n, e) := interpret capacity (budget - 1) code (stack ++ [v]) in (st, n + 1, e)
        | Instruction.Halt => (stack, 1, Halted)
        | _ =>
            match vec_pop stack with
            | None => (stack, 1, Failed ScriptError.StackUnderflow)
            | Some (rhs, rest) =>
                match vec_pop rest with
                | None => (rest, 1, Failed ScriptError.StackUnderflow)
                | Some (lhs, rest) =>
                    match arithmetic i lhs rhs with
                    | Some v => let '(st, n, e) := interpret capacity (budget - 1) code (rest ++ [v]) in (st, n + 1, e)
                    | None => (rest, 1, Ended)
                    end
                end
            end
        end
  end.

Definition script_after (s : ScriptingSubsystem) (r : list Z * Z * script_end) : ScriptingSubsystem :=
  let '(stack, n, e) := r in
  sc_with s stack (sc_pc s + n) (match e with Halted => true | _ => sc_halted s end)
    (match e with Failed x => Some x | _ => sc_last_error s end).

Lemma sc_with_same s : sc_with s (sc_stack s) (sc_pc s) (sc_halted s) (sc_last_error s) = s.
Proof. by destruct s. Qed.

Lemma script_after_step s stack (r : list Z * Z * script_end) :
  script_after (sc_with s stack (sc_pc s + 1) (sc_halted s) (sc_last_error s)) r =
  script_after s (let '(st, n, e) := r in (st, n + 1, e)).
Proof. destruct r as [[st n] e]. unfold script_after, sc_with. cbn. f_equal. lia. Qed.

Lemma execute_loop_spec (code : list Instruction) : forall fuel s executed,
  sc_halted s = false -> drop (Z.to_nat (sc_pc s)) (sc_program s) = code -> 0 <= sc_pc s ->
  sc_pc s <= zlen (sc_program s) -> (length code < fuel)%nat ->
  execute_loop fuel s executed =
  Some (script_after s (interpret (sc_stack_capacity s) (sc_budget s - executed) code (sc_stack s))).
Proof.
  induction code as [|i code IH]; intros fuel s executed Hh Hd H0 Hn Hf; destruct fuel as [|fuel]; cbn [length] in Hf; try lia;
    cbn [execute_loop interpret]; rewrite Hh; cbn [negb andb].
  - assert (sc_pc s = zlen (sc_program s)) as He.
    { apply (f_equal length) in Hd. rewrite length_drop in Hd. cbn in Hd. unfold zlen in *. lia. }
    rewrite He, Z.ltb_irrefl. cbn [script_after]. rewrite Z.add_0_r. by rewrite sc_with_same.
  - assert (sc_program s !! Z.to_nat (sc_pc s) = Some i) as Hi.
    { rewrite <- (Nat.add_0_r (Z.to_nat _)), <- lookup_drop, Hd. done. }
    assert (drop (Z.to_nat (sc_pc s + 1)) (sc_program s) = code) as Hd'.
    { rewrite Z2Nat.inj_add by lia. change (Z.to_nat 1) with 1%nat. rewrite <- drop_drop, Hd. done. }
    pose proof (lookup_lt_Some _ _ _ Hi) as Hlt.
    rewrite (proj2 (Z.ltb_lt _ _)) by (unfold zlen; lia).
    destruct (Z.eqb_spec executed (sc_budget s)) as [->|Hb].
    { rewrite Z.sub_diag. unfold script_fail. cbn [Z.eqb script_after]. by rewrite Z.add_0_r. }
    rewrite (proj2 (Z.eqb_neq (sc_budget s - executed) 0)) by lia.
    unfold zget. rewrite (proj2 (Z.ltb_ge _ _)) by done. rewrite Hi. cbn [mbind option_bind].
    assert (K : forall stack, execute_loop fuel (sc_with s stack (sc_pc s + 1) (sc_halted s) (sc_last_error s)) (executed + 1) =
      Some (script_after s (let '(st, n, e) := interpret (sc_stack_capacity s) (sc_budget s - executed - 1) code stack in (st, n + 1, e)))).
    { intros stack. rewrite IH; [|exact Hh|exact Hd'|cbn; lia|cbn; unfold zlen; lia|lia].
      rewrite <- (script_after_step s stack). cbn. by rewrite Z.sub_add_distr. }
    unfold script_fail. rewrite Hh in K.
    assert (F : forall stack e, Some (sc_with s stack (sc_pc s + 1) false (Some e)) =
      Some (script_after s (stack, 1, Failed e))) by (intros; cbn; by rewrite Hh).
    destruct i; cbn [sc_stack sc_pc sc_halted sc_last_error sc_with sc_stack_capacity];
      try (destruct (vec_pop (sc_stack s)) as [[rhs rest]|]; [|apply F];
           destruct (vec_pop rest) as [[lhs rest']|]; [|apply F]; cbn [arithmetic mbind option_bind]; apply K).
    + destruct (_ =? _); [apply F|apply K].
    + destruct fuel as [|fuel]; [lia|]. cbn. done.
Qed.

(** *** Expressions compiled to postfix *)
Inductive expr := Const (v : Z) | Bin (i : Instruction) (a b : expr).

Definition is_binary (i : Instruction) : bool :=
  match i with Instruction.Push _ | Instruction.Halt => false | _ => true end.
Definition apply_op (i : Instruction) (x y : Z) : Z :=
  match arithmetic i x y with Some v => v | None => x end.

Fixpoint wf_expr (e : expr) : bool :=
  match e with Const _ => true | Bin i a b => is_binary i && wf_expr a && wf_expr b end.
Fixpoint value_of (e : expr) : Z :=
  match e with Const v => v | Bin i a b => apply_op i (value_of a) (value_of b) end.
Fixpoint compile (e : expr) : list Instruction :=
  match e with Const v => [Instruction.Push v] | Bin i a b => compile a ++ compile b ++ [i] end.
(** Stack places and instructions needed. *)
Fixpoint depth_of (e : expr) : Z :=
  match e with Const _ => 1 | Bin _ a b => Z.max (depth_of a) (1 + depth_of b) end.
Fixpoint size_of (e : expr) : Z :=
  match e with Const _ => 1 | Bin _ a b => size_of a + size_of b + 1 end.

Lemma size_pos e : 1 <= size_of e.
Proof. induction e; cbn; lia. Qed.

Lemma depth_pos e : 1 <= depth_of e.
Proof. induction e; cbn; lia. Qed.

Lemma zlen_compile e : zlen (compile e) = size_of e.
Proof. induction e; cbn [compile size_of]; [done|]. rewrite !zlen_app. change (zlen [i]) with 1. lia. Qed.

Lemma vec_pop_snoc {A} (l : list A) x : vec_pop (l ++ [x]) = Some (x, l).
Proof. unfold vec_pop. rewrite last_snoc. cbn. by rewrite removelast_last. Qed.

Lemma interpret_compile capacity e : wf_expr e = true -> forall budget rest stack,
  zlen stack + depth_of e <= capacity -> size_of e <= budget ->
  interpret capacity budget (compile e ++ rest) stack =
  (let '(st, n, x) := interpret capacity (budget - size_of e) rest (stack ++ [value_of e]) in (st, n + size_of e, x)).
Proof.
  induction e as [v|i a IHa b IHb]; cbn [wf_expr compile size_of depth_of value_of]; intros Hwf budget rest stack Hd Hb.
  - cbn [app interpret]. rewrite (proj2 (Z.eqb_neq budget 0)), (proj2 (Z.eqb_neq (zlen stack) capacity)) by lia. done.
  - apply andb_true_iff in Hwf as [[Hi Ha]%andb_true_iff Hwb].
    pose proof (size_pos a). pose proof (size_pos b).
    rewrite <- !(assoc_L (++)), IHa by (done || lia).
    rewrite IHb by (done || (rewrite zlen_app; change (zlen [_]) with 1; lia) || lia).
    cbn [app interpret]. rewrite (proj2 (Z.eqb_neq _ 0)) by lia.
    replace (budget - (size_of a + size_of b + 1)) with (budget - size_of a - size_of b - 1) by lia.
    rewrite !vec_pop_snoc. unfold apply_op.
    destruct i; try done; cbn [arithmetic];
      match goal with |- context [interpret ?c ?k ?r ?s] => destruct (interpret c k r s) as [[st n] x] end;
      f_equal; f_equal; lia.
Qed.

(** ** Physics *)
Definition NANOS_PER_SECOND : Z := 1000000000.

Record Body := { b_position : Z * Z; b_velocity : Z * Z }.
Record PhysicsSubsystem := {
  ph_bodies : list Body; ph_capacity : Z; ph_last_input : option InputFrame
}.

Module PhysicsError.
Inductive PhysicsError := AllocationFailed.
End PhysicsError.
Abbreviation PhysicsError := PhysicsError.PhysicsError.

Definition physics_try_with_capacity (A : alloc) (capacity : Z) : result PhysicsError PhysicsSubsystem :=
  if A 0%nat then Ok {| ph_bodies := []; ph_capacity := capacity; ph_last_input := None |}
  else Err PhysicsError.AllocationFailed.

Definition add_body (p : PhysicsSubsystem) (body : Body) : PhysicsSubsystem * option Z :=
  if zlen (ph_bodies p) =? ph_capacity p then (p, None)
  else ({| ph_bodies := ph_bodies p ++ [body]; ph_capacity := ph_capacity p; ph_last_input := ph_last_input p |},
        Some (zlen (ph_bodies p ++ [body]) - 1)).

(** One axis; [i64] division truncates toward zero. *)
Definition integrate_axis (dt position velocity : Z) : Z :=
  clamp_i64 (position + Z.quot (clamp_i64 (velocity * dt)) NANOS_PER_SECOND).

Definition integrate_body (dt : Z) (b : Body) : Body :=
  {| b_position := (integrate_axis dt (fst (b_position b)) (fst (b_velocity b)),
                    integrate_axis dt (snd (b_position b)) (snd (b_velocity b)));
     b_velocity := b_velocity b |}.

Definition integrate (p : PhysicsSubsystem) (dt_ns : Z) : PhysicsSubsystem :=
  let dt := if dt_ns <=? I64_MAX then dt_ns else I64_MAX in
  {| ph_bodies := map (integrate_body dt) (ph_bodies p); ph_capacity := ph_capacity p;
     ph_last_input := ph_last_input p |}.

Section Physics.
Context {P V : Type} `{!Payload InputFrame P}.

Definition physics_message (k : nat) (p : PhysicsSubsystem) (e : Envelope P) : option PhysicsSubsystem :=
  if env_topic e =? 2 then
    match envelope_downcast (downcast (T := InputFrame)) e with
    | Ok input => Some {| ph_bodies := ph_bodies p; ph_capacity := ph_capacity p; ph_last_input := Some input |}
    | Err _ => Some p
    end
  else Some p.

Definition physics_tick (p : PhysicsSubsystem) (c : KernelContext P V) (dt_ns : Z)
  : option (PhysicsSubsystem * KernelContext P V) :=
  '(c, p) ← receive_all physics_message c p;
  Some (integrate p dt_ns, c).
End Physics.

(** ** Audio *)
Record Voice := { v_phase : Z; v_phase_step : Z; v_gain_milli : Z; v_active : bool }.
Record AudioSubsystem := { au_voices : list Voice; au_capacity : Z }.

Module AudioError.
Inductive AudioError := AllocationFailed.
End AudioError.
Abbreviation AudioError := AudioError.AudioError.

Definition audio_try_with_capacity (A : alloc) (capacity : Z) : result AudioError AudioSubsystem :=
  if A 0%nat then Ok {| au_voices := []; au_capacity := capacity |} else Err AudioError.AllocationFailed.

Definition add_voice (a : AudioSubsystem) (phase_step gain_milli : Z) : AudioSubsystem * option Z :=
  if zlen (au_voices a) =? au_capacity a then (a, None)
  else
    let voices := au_voices a ++
      [{| v_phase := 0; v_phase_step := phase_step; v_gain_milli := gain_milli; v_active := true |}] in
    ({| au_voices := voices; au_capacity := au_capacity a |}, Some (zlen voices - 1)).

Definition stop_voice (a : AudioSubsystem) (index : Z) : AudioSubsystem * bool :=
  match au_voices a !z index with
  | None => (a, false)
  | Some v =>
      ({| au_voices := zset (au_voices a) index
            {| v_phase := v_phase v; v_phase_step := v_phase_step v; v_gain_milli := v_gain_milli v; v_active := false |};
          au_capacity := au_capacity a |}, true)
  end.

Definition advance_voice (dt_ns : Z) (v : Voice) : Voice :=
  if v_active v then
    {| v_phase := wrapping_add 64 (v_phase v) (saturating_mul 64 (v_phase_step v) dt_ns);
       v_phase_step := v_phase_step v; v_gain_milli := v_gain_milli v; v_active := true |}
  else v.

Definition audio_advance (a : AudioSubsystem) (dt_ns : Z) : AudioSubsystem :=
  {| au_voices := map (advance_voice dt_ns) (au_voices a); au_capacity := au_capacity a |}.

(** ** Theorems *)
Definition is_i64 (z : Z) : Prop := I64_MIN <= z <= I64_MAX.

Lemma clamp_i64_range z : is_i64 (clamp_i64 z).
Proof. unfold is_i64, clamp_i64, I64_MIN, I64_MAX. lia. Qed.

Lemma clamp_i64_id z : is_i64 z -> clamp_i64 z = z.
Proof. unfold is_i64, clamp_i64, I64_MIN, I64_MAX. lia. Qed.

Definition instruction_ok (i : Instruction) : Prop :=
  match i with Instruction.Push v => is_i64 v | _ => True end.

Record script_ok (s : ScriptingSubsystem) : Prop := {
  so_pc : 0 <= sc_pc s <= zlen (sc_program s);
  so_stack : zlen (sc_stack s) <= sc_stack_capacity s;
  so_values : Forall is_i64 (sc_stack s);
  so_program : Forall instruction_ok (sc_program s)
}.

Definition stack_ok (capacity : Z) (l : list Z) : Prop := zlen l <= capacity /\ Forall is_i64 l.

Lemma stack_pop capacity l rest x : vec_pop l = Some (x, rest) -> stack_ok capacity l ->
  stack_ok (capacity - 1) rest.
Proof.
  intros ->%vec_pop_Some [H1 [H2 _]%list.Forall_app]. split; [|done].
  rewrite zlen_app in H1. change (zlen [x]) with 1 in H1. lia.
Qed.

Lemma stack_push capacity l x : stack_ok (capacity - 1) l -> is_i64 x -> stack_ok capacity (l ++ [x]).
Proof.
  intros [H1 H2] Hx. split; [rewrite zlen_app; change (zlen [x]) with 1; lia|].
  apply list.Forall_app. split; [done|]. by constructor.
Qed.

Lemma stack_weaken capacity capacity' l : stack_ok capacity l -> capacity <= capacity' -> stack_ok capacity' l.
Proof. intros [H1 H2] ?. split; [lia|done]. Qed.

Lemma arithmetic_range i x y v : arithmetic i x y = Some v -> is_i64 v.
Proof. destruct i; intros [= <-]; apply clamp_i64_range. Qed.

(** What the interpreter leaves. *)
Definition left_ok (capacity : Z) (code : list Instruction) (r : list Z * Z * script_end) : Prop :=
  let '(st, n, e) := r in stack_ok capacity st /\ 0 <= n <= zlen code /\ (e = Ended -> n = zlen code).

Lemma left_stop capacity (code : list Instruction) st n e : stack_ok capacity st -> 0 <= n <= zlen code -> e <> Ended ->
  left_ok capacity code (st, n, e).
Proof. intros. by split; [|split]. Qed.

Lemma left_next capacity i (code : list Instruction) r : left_ok capacity code r ->
  left_ok capacity (i :: code) (let '(st, n, e) := r in (st, n + 1, e)).
Proof.
  destruct r as [[st n] e]. intros (H1 & H2 & H3). unfold left_ok. rewrite zlen_cons. split; [done|]. split; [lia|].
  intros He. rewrite (H3 He). lia.
Qed.

Lemma interpret_ok capacity (code : list Instruction) : Forall instruction_ok code ->
  forall budget stack, stack_ok capacity stack -> left_ok capacity code (interpret capacity budget code stack).
Proof.
  intros Hc. induction Hc as [|i code Hi Hc IH]; intros budget stack Hs; cbn [interpret]; [by split|].
  assert (0 <= 1 <= zlen (i :: code)) as Hn by (rewrite zlen_cons; pose proof (zlen_nonneg code); lia).
  destruct (budget =? 0); [apply left_stop; [done|lia|done]|].
  destruct i as [v| | | |]; try (by apply left_stop);
    try (destruct (vec_pop stack) as [[rhs rest]|] eqn:E1; [|by apply left_stop];
      pose proof (stack_pop _ _ _ _ E1 Hs) as H1;
      destruct (vec_pop rest) as [[lhs rest']|] eqn:E2; [|apply left_stop; [eapply stack_weaken; [done|lia]|done|done]];
      pose proof (stack_pop _ _ _ _ E2 H1) as H2; cbn [arithmetic];
      apply left_next, IH, stack_push; [eapply stack_weaken; [done|lia]|apply clamp_i64_range]).
  destruct (Z.eqb_spec (zlen stack) capacity); [by apply left_stop|].
  apply left_next, IH, stack_push; [|done]. destruct Hs. split; [lia|done].
Qed.

(** One tick of the VM on a loaded program.  It ends; unless the VM had
    already halted or failed, the result is the interpreter's on the rest of
    the program with the whole budget.  The stack stays within its capacity and
    its values within [i64], and the VM has then halted, failed, or reached the
    end: another tick changes nothing. *)
Theorem script_tick_settles (s : ScriptingSubsystem) (Hok : script_ok s) :
  exists s', script_tick s = Some s' /\ script_ok s' /\
  (sc_halted s = false -> sc_last_error s = None ->
   s' = script_after s (interpret (sc_stack_capacity s) (sc_budget s)
          (drop (Z.to_nat (sc_pc s)) (sc_program s)) (sc_stack s))) /\
  (sc_halted s' = true \/ sc_last_error s' <> None \/ sc_pc s' = zlen (sc_program s')) /\
  script_tick s' = Some s'.
Proof.
  destruct Hok as [Hpc Hst Hv Hp].
  unfold script_tick at 1. destruct (sc_halted s) eqn:Hh; cbn [negb andb].
  { exists s. split; [done|]. split; [done|]. split; [done|]. split; [by left|]. unfold script_tick. by rewrite Hh. }
  case_bool_decide as He.
  2: { exists s. split; [done|]. split; [done|]. split; [done|]. split; [by right; left|]. unfold script_tick.
       rewrite Hh, bool_decide_false by done. done. }
  unfold execute. rewrite (execute_loop_spec _ _ _ _ Hh eq_refl) by (rewrite ?length_drop; lia). rewrite Z.sub_0_r.
  pose proof (interpret_ok (sc_stack_capacity s) (drop (Z.to_nat (sc_pc s)) (sc_program s))
    (Forall_drop _ _ _ Hp) (sc_budget s) (sc_stack s) (conj Hst Hv)) as Hleft.
  destruct (interpret _ _ _ _) as [[st n] e]. destruct Hleft as ([H1 H2] & H3 & H4).
  assert (zlen (drop (Z.to_nat (sc_pc s)) (sc_program s)) = zlen (sc_program s) - sc_pc s) as Hd
    by (unfold zlen; rewrite length_drop; unfold zlen in Hpc; lia).
  eexists. split; [done|]. split; [constructor; cbn; lia || done|]. split; [done|].
  unfold script_tick, script_after, execute. rewrite He, Hh.
  destruct e; cbn; rewrite ?bool_decide_true, ?bool_decide_false by done; [|by auto..].
  rewrite (H4 eq_refl), Hd. split; [right; right; lia|].
  replace (sc_pc s + (zlen (sc_program s) - sc_pc s)) with (zlen (sc_program s)) by lia.
  by rewrite Z.ltb_irrefl.
Qed.

(** The VM computes arithmetic: loading the postfix code of an expression
    and a [Halt] into a VM with room for the code, enough stack for its depth
    and enough budget for its size, a tick leaves exactly its value, with
    every operation saturating at the bounds of [i64]. *)
Theorem script_evaluates (s : ScriptingSubsystem) (e : expr) (Hwf : wf_expr e = true)
    (Hroom : size_of e + 1 <= sc_program_capacity s) (Hdepth : depth_of e <= sc_stack_capacity s)
    (Hbudget : size_of e + 1 <= sc_budget s) :
  exists s', script_load s (compile e ++ [Instruction.Halt]) = (s', true) /\
  exists s'', script_tick s' = Some s'' /\ sc_stack s'' = [value_of e] /\
    sc_halted s'' = true /\ sc_last_error s'' = None.
Proof.
  unfold script_load. rewrite zlen_app, zlen_compile. change (zlen [Instruction.Halt]) with 1.
  rewrite (proj2 (Z.ltb_ge _ _)) by lia. eexists. split; [done|].
  unfold script_tick. cbn [sc_halted sc_last_error negb andb]. rewrite bool_decide_true by done. unfold execute.
  rewrite (execute_loop_spec (compile e ++ [Instruction.Halt])) by (cbn; try done; unfold zlen; lia).
  cbn [sc_stack_capacity sc_budget sc_stack].
  rewrite interpret_compile by (done || (rewrite ?zlen_nil; lia)). cbn [app interpret].
  rewrite (proj2 (Z.eqb_neq _ 0)) by lia. eexists. split; [done|]. done.
Qed.

Definition demo_script : ScriptingSubsystem := {|
  sc_program := []; sc_program_capacity := 8; sc_stack := []; sc_stack_capacity := 2; sc_budget := 8;
  sc_pc := 0; sc_halted := false; sc_last_error := None |}.

Lemma script_tick_settles_witness :
  exists s', script_tick (script_load demo_script [Instruction.Push 1; Instruction.Push 2; Instruction.Push 3]).1 = Some s' /\
  sc_stack s' = [1; 2] /\ sc_last_error s' = Some ScriptError.StackOverflow /\ script_tick s' = Some s'.
Proof.
  destruct (script_tick_settles (script_load demo_script [Instruction.Push 1; Instruction.Push 2; Instruction.Push 3]).1)
    as (s' & E & _ & H & _ & H').
  - constructor; [split; vm_compute; discriminate|vm_compute; discriminate|constructor|].
    repeat constructor; vm_compute; discriminate.
  - exists s'. split; [exact E|]. rewrite (H eq_refl eq_refl) in *. split; [reflexivity|]. split; [reflexivity|]. exact H'.
Defined.

Lemma script_evaluates_witness :
  let e := Bin Instruction.Mul (Const I64_MAX) (Bin Instruction.Sub (Const 2) (Const 7)) in
  exists s', script_load {| sc_program := []; sc_program_capacity := 8; sc_stack := []; sc_stack_capacity := 3; sc_budget := 8;
      sc_pc := 0; sc_halted := false; sc_last_error := None |} (compile e ++ [Instruction.Halt]) = (s', true) /\
  exists s'', script_tick s' = Some s'' /\ sc_stack s'' = [I64_MIN] /\ sc_halted s'' = true /\ sc_last_error s'' = None.
Proof. apply script_evaluates; vm_compute; first [reflexivity|discriminate]. Defined.

(** *** Physics *)
Definition body_ok (b : Body) : Prop :=
  is_i64 (fst (b_position b)) /\ is_i64 (snd (b_position b)) /\
  is_i64 (fst (b_velocity b)) /\ is_i64 (snd (b_velocity b)).

(** The displacement of one axis when nothing saturates: the exact one cut to
    whole units toward zero. *)
Definition axis_exact (dt p v p' : Z) : Prop :=
  is_i64 (v * dt) -> is_i64 (p + Z.quot (v * dt) NANOS_PER_SECOND) ->
  Z.abs (NANOS_PER_SECOND * (p' - p) - v * dt) < NANOS_PER_SECOND /\
  NANOS_PER_SECOND * Z.abs (p' - p) <= Z.abs (v * dt).

Lemma integrate_axis_spec dt p v : is_i64 (integrate_axis dt p v) /\ axis_exact dt p v (integrate_axis dt p v).
Proof.
  split; [apply clamp_i64_range|]. intros H1 H2. unfold integrate_axis. rewrite (clamp_i64_id (v * dt)), clamp_i64_id by done.
  replace (p + Z.quot (v * dt) NANOS_PER_SECOND - p) with (Z.quot (v * dt) NANOS_PER_SECOND) by lia.
  pose proof (Z.quot_rem' (v * dt) NANOS_PER_SECOND) as E.
  pose proof (Z.rem_bound_abs (v * dt) NANOS_PER_SECOND ltac:(done)) as B.
  pose proof (Z.rem_sign_mul (v * dt) NANOS_PER_SECOND ltac:(done)) as S.
  unfold NANOS_PER_SECOND in *. nia.
Qed.

Section PhysicsSpec.
Context {P V : Type} `{!Payload InputFrame P}.

Definition input_of (e : Envelope P) : option InputFrame :=
  if env_topic e =? 2 then
    match envelope_downcast (downcast (T := InputFrame)) e with Ok i => Some i | Err _ => None end
  else None.

Definition last_input_of (q : list (Envelope P)) (previous : option InputFrame) : option InputFrame :=
  match list.last (omap input_of q) with Some i => Some i | None => previous end.

Lemma physics_messages q : forall k p, handle_all physics_message k q p =
  Some {| ph_bodies := ph_bodies p; ph_capacity := ph_capacity p; ph_last_input := last_input_of q (ph_last_input p) |}.
Proof.
  induction q as [|e q IH]; intros k p; cbn [handle_all]; [by destruct p|].
  assert (physics_message k p e = Some {| ph_bodies := ph_bodies p; ph_capacity := ph_capacity p;
    ph_last_input := match input_of e with Some i => Some i | None => ph_last_input p end |}) as ->.
  { unfold physics_message, input_of. destruct (_ =? 2); [|by destruct p]. destruct (envelope_downcast _ _); [done|by destruct p]. }
  cbn [mbind option_bind]. rewrite IH. do 2 f_equal. cbn [ph_last_input]. unfold last_input_of. cbn [omap list_omap].
  destruct (input_of e) as [i|]; [|done]. rewrite list.last_cons. by destruct (list.last (omap input_of q)).
Qed.

(** A tick of the physics empties its inbox, keeps the newest input frame,
    and moves every body by its velocity: positions stay within [i64], and
    when nothing saturates the displacement is the exact one rounded toward
    zero to whole units. *)
Theorem physics_tick_exact (p : PhysicsSubsystem) (c : KernelContext P V) (dt_ns : Z) qs
    (Hbus : bus_repr (sh_bus (kc_shared c)) qs) (Hdt : is_u 64 dt_ns) :
  exists p' b, physics_tick p c dt_ns = Some (p', ctx_with_bus c b) /\
  bus_repr b (zset qs (kc_id c) []) /\
  ph_last_input p' = last_input_of (inbox_of qs (kc_id c)) (ph_last_input p) /\
  Forall2 (fun x y => b_velocity y = b_velocity x /\ is_i64 (fst (b_position y)) /\ is_i64 (snd (b_position y)) /\
    axis_exact (Z.min dt_ns I64_MAX) (fst (b_position x)) (fst (b_velocity x)) (fst (b_position y)) /\
    axis_exact (Z.min dt_ns I64_MAX) (snd (b_position x)) (snd (b_velocity x)) (snd (b_position y)))
    (ph_bodies p) (ph_bodies p').
Proof.
  unfold physics_tick. pose proof (drain_inbox_spec physics_message c p qs Hbus) as R. rewrite physics_messages in R.
  destruct R as (b & Hb & _ & ->). cbn [mbind option_bind]. eexists _, b. split; [done|]. split; [done|]. split; [done|].
  cbn. apply Forall2_fmap_r, Forall_Forall2_diag, list.Forall_forall. intros x _.
  replace (if dt_ns <=? I64_MAX then dt_ns else I64_MAX) with (Z.min dt_ns I64_MAX) by (destruct (Z.leb_spec dt_ns I64_MAX); lia).
  cbn. split; [done|].
  destruct (integrate_axis_spec (Z.min dt_ns I64_MAX) (fst (b_position x)) (fst (b_velocity x))).
  destruct (integrate_axis_spec (Z.min dt_ns I64_MAX) (snd (b_position x)) (snd (b_velocity x))). done.
Qed.
End PhysicsSpec.

(** *** Audio *)
Definition phase_after (dts : list Z) (v : Voice) : Z :=
  wrap 64 (v_phase v + foldr (fun dt n => saturating_mul 64 (v_phase_step v) dt + n) 0 dts).

Lemma advance_voices dts : forall a, au_voices (foldl audio_advance a dts) =
  map (fun v => foldl (fun v dt => advance_voice dt v) v dts) (au_voices a).
Proof.
  induction dts as [|dt dts IH]; intros a; cbn [foldl]; [by rewrite map_id|].
  rewrite IH. cbn [au_voices audio_advance]. by rewrite map_map.
Qed.

Lemma advance_phase dts : forall v, is_u 64 (v_phase v) -> v_active v = true ->
  foldl (fun v dt => advance_voice dt v) v dts =
  {| v_phase := phase_after dts v; v_phase_step := v_phase_step v; v_gain_milli := v_gain_milli v; v_active := true |}.
Proof.
  induction dts as [|dt dts IH]; intros v Hv Ha; cbn [foldl].
  - unfold phase_after. cbn [foldr]. rewrite Z.add_0_r, wrap_small by done. destruct v. cbn in *. by subst.
  - unfold advance_voice at 2. rewrite Ha. rewrite IH; [|by apply wrap_range|done]. cbn. f_equal.
    unfold phase_after. cbn. unfold wrapping_add. rewrite wrap_add_l by done. f_equal. lia.
Qed.

Lemma advance_stopped dts : forall v, v_active v = false -> foldl (fun v dt => advance_voice dt v) v dts = v.
Proof. induction dts as [|dt dts IH]; intros v Hv; cbn [foldl]; [done|]. unfold advance_voice at 2. rewrite Hv. by apply IH. Qed.

(** After any ticks a voice that plays has advanced by its step times the
    elapsed time, modulo [2^64], however the time was split into ticks, unless
    a single product saturates; a stopped voice is as it was. *)
Theorem audio_phase_total (a : AudioSubsystem) (dts : list Z) (k : Z) (v : Voice)
    (Hv : au_voices a !z k = Some v) (Hphase : is_u 64 (v_phase v))
    (Hfit : Forall (fun dt => v_phase_step v * dt <= U64_MAX) dts) :
  au_voices (foldl audio_advance a dts) !z k = Some
    (if v_active v then
       {| v_phase := wrap 64 (v_phase v + v_phase_step v * foldr Z.add 0 dts); v_phase_step := v_phase_step v;
          v_gain_milli := v_gain_milli v; v_active := true |}
     else v).
Proof.
  rewrite advance_voices. unfold zget in *. destruct (k <? 0); [done|]. rewrite list_lookup_fmap, Hv. cbn. f_equal.
  destruct (v_active v) eqn:Ha; [|by apply advance_stopped]. rewrite advance_phase by done. f_equal.
  unfold phase_after. f_equal. f_equal. induction Hfit as [|dt dts Hdt _ IH]; cbn [foldr]; [lia|].
  rewrite IH. unfold saturating_mul, umax. unfold U64_MAX in Hdt. lia.
Qed.

(** *** At concrete inputs *)
Definition demo_physics : PhysicsSubsystem := {|
  ph_bodies := [{| b_position := (0, I64_MAX); b_velocity := (-3, 5) |}]; ph_capacity := 1; ph_last_input := None |}.

Definition input_payload : Payload InputFrame InputFrame :=
  {| into := fun v => v; downcast := fun p => Some p; downcast_into := fun v => eq_refl |}.

Lemma physics_tick_exact_witness :
  exists p' b, physics_tick (Payload0 := input_payload) (V := Z) demo_physics (context_on two_subscribers [] 0) 500000000 =
    Some (p', ctx_with_bus (context_on two_subscribers [] 0) b) /\ bus_repr b [[]; []].
Proof.
  destruct (physics_tick_exact (Payload0 := input_payload) (V := Z) demo_physics (context_on two_subscribers [] 0) 500000000 [[]; []])
    as (p' & b & E & H & _); [exact two_subscribers_repr|split; [discriminate|reflexivity]|].
  exists p', b. split; [exact E|exact H].
Defined.

Example physics_saturates :
  ph_bodies (integrate demo_physics 500000000) = [{| b_position := (-1, I64_MAX); b_velocity := (-3, 5) |}].
Proof. reflexivity. Qed.

Definition demo_audio : AudioSubsystem := {|
  au_voices := [{| v_phase := U64_MAX; v_phase_step := 3; v_gain_milli := 500; v_active := true |}]; au_capacity := 2 |}.

Lemma audio_phase_total_witness :
  au_voices (foldl audio_advance demo_audio [10; 20]) !z 0 =
  Some {| v_phase := 89; v_phase_step := 3; v_gain_milli := 500; v_active := true |}.
Proof.
  apply (audio_phase_total demo_audio [10; 20] 0 {| v_phase := U64_MAX; v_phase_step := 3; v_gain_milli := 500; v_active := true |}).
  - reflexivity.
  - split; [discriminate|reflexivity].
  - repeat constructor; vm_compute; discriminate.
Defined.
