(* ===== verification/Input.v ===== *)
(** The window and input drivers ([subsystems/window.rs], [subsystems/input.rs]):
    bounded event queues, the input snapshot and the frame that the input
    driver sends to the UI, the physics and the games.

    Theorems: the frame reports the held keys and buttons after the queued
    events, the changes since the last frame, and the text, each cut to the
    frame's arrays; a window keeps its newest state and loses no event. *)

From Stdlib Require Import Sorting.Sorted.
From stdpp Require Import gmap sets strings.
From S2P Require Import Prelude Arena Ring Bus World Deferred Scheduler Kernel Messages.

Local Open Scope Z_scope.
Local Open Scope kit_scope.

(** ** The window *)
Record WindowSize := { ws_width : Z; ws_height : Z }.
Definition window_size_new (width height : Z) : option WindowSize :=
  if (width =? 0) || (height =? 0) then None else Some {| ws_width := width; ws_height := height |}.

Module WindowEvent.
Inductive WindowEvent := Resized (size : WindowSize) | CloseRequested | Focused (b : bool).
End WindowEvent.
Abbreviation WindowEvent := WindowEvent.WindowEvent.

Module WindowError.
Inductive WindowError := AllocationFailed.
End WindowError.
Abbreviation WindowError := WindowError.WindowError.

Record HeadlessWindow := {
  hw_id : Z; hw_size : WindowSize; hw_open : bool; hw_focused : bool; hw_events : list WindowEvent
}.

Definition headless_window_new (id : Z) (size : WindowSize) : HeadlessWindow :=
  {| hw_id := id; hw_size := size; hw_open := true; hw_focused := true; hw_events := [] |}.

Definition try_push_event (A : alloc) (w : HeadlessWindow) (e : WindowEvent)
  : HeadlessWindow * result WindowError unit :=
  if negb (A 0%nat) then (w, Err WindowError.AllocationFailed)
  else
    ({| hw_id := hw_id w;
        hw_size := match e with WindowEvent.Resized s => s | _ => hw_size w end;
        hw_open := match e with WindowEvent.CloseRequested => false | _ => hw_open w end;
        hw_focused := match e with WindowEvent.Focused b => b | _ => hw_focused w end;
        hw_events := hw_events w ++ [e] |}, Ok tt).

(** [out.clear()] and the drained events. *)
Definition drain_events (w : HeadlessWindow) : HeadlessWindow * list WindowEvent :=
  ({| hw_id := hw_id w; hw_size := hw_size w; hw_open := hw_open w; hw_focused := hw_focused w; hw_events := [] |},
   hw_events w).

Record WindowSubsystem := { wn_window : HeadlessWindow; wn_frame_events : list WindowEvent }.

Definition window_try_new (A : alloc) (id : Z) (size : WindowSize) : result WindowError WindowSubsystem :=
  if negb (A 0%nat) then Err WindowError.AllocationFailed
  else Ok {| wn_window := headless_window_new id size; wn_frame_events := [] |}.

Definition is_resized (e : WindowEvent) : bool := match e with WindowEvent.Resized _ => true | _ => false end.

Section Window.
Context {P V : Type} `{!Payload WindowResized P}.

Definition window_tick (debug : bool) (s : WindowSubsystem) (c : KernelContext P V)
  : option (WindowSubsystem * KernelContext P V) :=
  let '(w, events) := drain_events (wn_window s) in
  let s := {| wn_window := w; wn_frame_events := events |} in
  if existsb is_resized events then
    match ctx_resolve c "renderer" with
    | Some renderer =>
        '(c, _) ← ctx_publish debug c renderer 1
          (into {| wr_width := ws_width (hw_size w); wr_height := ws_height (hw_size w) |});
        Some (s, c)
    | None => Some (s, c)
    end
  else Some (s, c).
End Window.

(** ** The input snapshot *)
Module InputError.
Inductive InputError := AllocationFailed.
End InputError.
Abbreviation InputError := InputError.InputError.

Record InputSnapshot := {
  in_keys : list Z; in_buttons : Z; in_position : Z * Z; in_text : list Z; in_text_count : Z
}.
Definition input_snapshot_default : InputSnapshot :=
  {| in_keys := []; in_buttons := 0; in_position := (0, 0); in_text := replicate 64 0; in_text_count := 0 |}.

(** [slice::binary_search] on a sorted slice without duplicates: the index of
    the key, or the one to insert it at. *)
Fixpoint binary_search (l : list Z) (key : Z) : result nat nat :=
  match l with
  | [] => Err 0%nat
  | x :: l =>
      if x =? key then Ok 0%nat
      else if key <? x then Err 0%nat
      else match binary_search l key with Ok i => Ok (S i) | Err i => Err (S i) end
  end.

Definition key_down (s : InputSnapshot) (key : Z) : bool := is_ok (binary_search (in_keys s) key).
Definition mouse_button_down (s : InputSnapshot) (button : Z) : bool :=
  (button <? 16) && negb (Z.land (in_buttons s) (Z.shiftl 1 button) =? 0).
Definition snapshot_text (s : InputSnapshot) : list Z := take (Z.to_nat (in_text_count s)) (in_text s).

Definition in_with_keys (s : InputSnapshot) (keys : list Z) : InputSnapshot :=
  {| in_keys := keys; in_buttons := in_buttons s; in_position := in_position s; in_text := in_text s;
     in_text_count := in_text_count s |}.
Definition in_with_buttons (s : InputSnapshot) (b : Z) : InputSnapshot :=
  {| in_keys := in_keys s; in_buttons := b; in_position := in_position s; in_text := in_text s;
     in_text_count := in_text_count s |}.
Definition in_with_position (s : InputSnapshot) (p : Z * Z) : InputSnapshot :=
  {| in_keys := in_keys s; in_buttons := in_buttons s; in_position := p; in_text := in_text s;
     in_text_count := in_text_count s |}.
Definition in_with_text (s : InputSnapshot) (t : list Z) (n : Z) : InputSnapshot :=
  {| in_keys := in_keys s; in_buttons := in_buttons s; in_position := in_position s; in_text := t; in_text_count := n |}.

Definition try_apply (A : alloc) (s : InputSnapshot) (e : InputEvent) : InputSnapshot * result InputError unit :=
  match e with
  | InputEvent.Key key pressed =>
      match pressed, binary_search (in_keys s) key with
      | true, Err index =>
          if negb (A 0%nat) then (s, Err InputError.AllocationFailed)
          else (in_with_keys s (take index (in_keys s) ++ key :: drop index (in_keys s)), Ok tt)
      | false, Ok index => (in_with_keys s (take index (in_keys s) ++ drop (S index) (in_keys s)), Ok tt)
      | _, _ => (s, Ok tt)
      end
  | InputEvent.MouseButton button pressed =>
      if button <? 16 then
        let mask := Z.shiftl 1 button in
        (in_with_buttons s
           (if pressed then Z.lor (in_buttons s) mask else Z.land (in_buttons s) (lnot_w 16 mask)), Ok tt)
      else (s, Ok tt)
  | InputEvent.MouseMoved x y => (in_with_position s (x, y), Ok tt)
  | InputEvent.TextByte byte =>
      if in_text_count s <? zlen (in_text s) then
        (in_with_text s (zset (in_text s) (in_text_count s) byte) (saturating_add 8 (in_text_count s) 1), Ok tt)
      else (s, Ok tt)
  end.

Record HeadlessInput := { hi_pending : list InputEvent; hi_current : InputSnapshot }.

Definition input_try_push (A : alloc) (h : HeadlessInput) (e : InputEvent) : HeadlessInput * result InputError unit :=
  if negb (A 0%nat) then (h, Err InputError.AllocationFailed)
  else ({| hi_pending := hi_pending h ++ [e]; hi_current := hi_current h |}, Ok tt).

(** The loop of [try_advance]: an event that cannot be applied stays in front. *)
Fixpoint advance_loop (As : nat -> alloc) (k : nat) (s : InputSnapshot) (pending : list InputEvent)
  : HeadlessInput * result InputError unit :=
  match pending with
  | [] => ({| hi_pending := []; hi_current := s |}, Ok tt)
  | e :: rest =>
      match try_apply (As k) s e with
      | (s, Err x) => ({| hi_pending := pending; hi_current := s |}, Err x)
      | (s, Ok _) => advance_loop As (S k) s rest
      end
  end.

Definition input_try_advance (As : nat -> alloc) (h : HeadlessInput) : HeadlessInput * result InputError unit :=
  advance_loop As 0 (in_with_text (hi_current h) (in_text (hi_current h)) 0) (hi_pending h).

(** [advance] panics when [try_advance] fails. *)
Definition input_advance (As : nat -> alloc) (h : HeadlessInput) : option HeadlessInput :=
  match input_try_advance As h with (h, Ok _) => Some h | (_, Err _) => None end.

(** ** The driver *)
Record InputSubsystem := { ip_input : HeadlessInput; ip_previous_buttons : Z; ip_previous_keys : list Z }.
Definition input_subsystem_default : InputSubsystem :=
  {| ip_input := {| hi_pending := []; hi_current := input_snapshot_default |};
     ip_previous_buttons := 0; ip_previous_keys := [] |}.

(** An array of [n] filled from a list. *)
Definition filled (n : nat) (l : list Z) : list Z := take n l ++ replicate (n - length l) 0.

Definition contains_key (l : list Z) (k : Z) : bool := existsb (Z.eqb k) l.

(** The two edge loops: the keys of [now] not in [before], up to 32. *)
Fixpoint edge_keys (now before : list Z) (count : nat) (acc : list Z) : list Z :=
  match now with
  | [] => acc
  | k :: now =>
      if negb (contains_key before k) && (count <? 32)%nat
      then edge_keys now before (S count) (acc ++ [k]) else edge_keys now before count acc
  end.

Definition frame_buttons (s : InputSnapshot) : Z :=
  foldl (fun b i => if mouse_button_down s (Z.of_nat i) then Z.lor b (Z.shiftl 1 (Z.of_nat i)) else b) 0 (seq 0 16).

(** [u8::try_from(n).unwrap_or(default)]. *)
Definition u8_or (default n : Z) : Z := if n <=? 255 then n else default.

Definition input_frame (p : InputSubsystem) : InputFrame :=
  let s := hi_current (ip_input p) in
  let buttons := frame_buttons s in
  let pressed := edge_keys (in_keys s) (ip_previous_keys p) 0 [] in
  let released := edge_keys (ip_previous_keys p) (in_keys s) 0 [] in
  {| if_mouse_x := fst (in_position s); if_mouse_y := snd (in_position s);
     if_mouse_buttons := buttons;
     if_pressed_buttons := Z.land buttons (lnot_w 16 (ip_previous_buttons p));
     if_released_buttons := Z.land (ip_previous_buttons p) (lnot_w 16 buttons);
     if_key_count := u8_or 32 (Z.min (zlen (in_keys s)) 32); if_keys := filled 32 (in_keys s);
     if_pressed_key_count := u8_or 32 (zlen pressed); if_pressed_keys := filled 32 pressed;
     if_released_key_count := u8_or 32 (zlen released); if_released_keys := filled 32 released;
     if_text_count := u8_or 64 (zlen (snapshot_text s)); if_text := filled 64 (snapshot_text s) |}.

Section Driver.
Context {P V : Type} `{!Payload InputEventMessage P} `{!Payload InputFrame P}.

Definition input_message (As : nat -> alloc) (k : nat) (h : HeadlessInput) (e : Envelope P) : option HeadlessInput :=
  if env_topic e =? 4 then
    match envelope_downcast (downcast (T := InputEventMessage)) e with
    | Ok m => Some (fst (input_try_push (As k) h (iem_event m)))
    | Err _ => Some h
    end
  else Some h.

Fixpoint publish_to (debug : bool) (c : KernelContext P V) (names : list string) (topic : Z) (payload : P)
  : option (KernelContext P V) :=
  match names with
  | [] => Some c
  | name :: names =>
      match ctx_resolve c name with
      | Some to => '(c, _) ← ctx_publish debug c to topic payload; publish_to debug c names topic payload
      | None => publish_to debug c names topic payload
      end
  end.

Definition frame_readers : list string := ["ui"; "physics"; "sudoku-game"; "rubik-driver"]%string.

Definition input_tick (debug : bool) (Ar Aa : nat -> alloc) (p : InputSubsystem) (c : KernelContext P V)
  : option (InputSubsystem * KernelContext P V) :=
  '(c, h) ← receive_all (input_message Ar) c (ip_input p);
  h ← input_advance Aa h;
  let p := {| ip_input := h; ip_previous_buttons := ip_previous_buttons p; ip_previous_keys := ip_previous_keys p |} in
  let frame := input_frame p in
  c ← publish_to debug c frame_readers 2 (into frame);
  Some ({| ip_input := h; ip_previous_buttons := frame_buttons (hi_current h);
           ip_previous_keys := in_keys (hi_current h) |}, c).
End Driver.

(** ** Specification *)
Definition held (S : gset Z) (e : InputEvent) : gset Z :=
  match e with
  | InputEvent.Key k true => {[k]} ∪ S
  | InputEvent.Key k false => S ∖ {[k]}
  | _ => S
  end.

Definition button_after (i : Z) (b : bool) (e : InputEvent) : bool :=
  match e with InputEvent.MouseButton j p => if i =? j then p else b | _ => b end.

Definition position_after (p : Z * Z) (e : InputEvent) : Z * Z :=
  match e with InputEvent.MouseMoved x y => (x, y) | _ => p end.

Definition text_byte (e : InputEvent) : option Z :=
  match e with InputEvent.TextByte b => Some b | _ => None end.

(** The keys of a snapshot are a set in order, its text array has 64 places. *)
Record snapshot_ok (s : InputSnapshot) : Prop := {
  sk_keys : StronglySorted Z.lt (in_keys s);
  sk_text : zlen (in_text s) = 64;
  sk_count : 0 <= in_text_count s <= 64
}.

(** *** Sorted keys *)
Lemma search_spec l key : StronglySorted Z.lt l ->
  match binary_search l key with
  | Ok i => exists a b, l = a ++ key :: b /\ length a = i
  | Err i => exists a b, l = a ++ b /\ length a = i /\
      Forall (fun x => x < key) a /\ Forall (fun x => key < x) b
  end.
Proof.
  induction 1 as [|x l Hs IH Hx]; cbn [binary_search]; [by exists [], []|].
  destruct (Z.eqb_spec x key) as [->|Hne]; [by exists [], l|].
  destruct (Z.ltb_spec key x).
  - exists [], (x :: l). repeat split; [constructor|]. constructor; [lia|].
    eapply list.Forall_impl; [exact Hx|]. cbn. lia.
  - destruct (binary_search l key) as [i|i].
    + destruct IH as (a & b & -> & <-). by exists (x :: a), b.
    + destruct IH as (a & b & -> & <- & Ha & Hb). exists (x :: a), b. repeat split; [|done]. constructor; [lia|done].
Qed.

Lemma sorted_app_iff (a b : list Z) : StronglySorted Z.lt (a ++ b) <->
  StronglySorted Z.lt a /\ StronglySorted Z.lt b /\ Forall (fun x => Forall (fun y => x < y) b) a.
Proof.
  induction a as [|x a IH]; cbn.
  - split; [intros H; repeat split; [constructor|done|constructor]|by intros (_ & ? & _)].
  - split.
    + intros H. inv H. apply IH in H2 as (H1 & H4 & H5). apply list.Forall_app in H3 as [H6 H7].
      repeat split; [by constructor|done|by constructor].
    + intros (H1 & H2 & H3). inv H1. inv H3. constructor; [by apply IH|]. by apply list.Forall_app.
Qed.

Lemma key_insert a b key : StronglySorted Z.lt (a ++ b) -> Forall (fun x => x < key) a -> Forall (fun x => key < x) b ->
  StronglySorted Z.lt (a ++ key :: b).
Proof.
  intros (Ha & Hb & Hab)%sorted_app_iff H1 H2. apply sorted_app_iff. split; [done|]. split; [by constructor|].
  rewrite list.Forall_forall in *. intros x Hx. constructor; [by apply H1|by apply Hab].
Qed.

Lemma key_remove (a b : list Z) key : StronglySorted Z.lt (a ++ key :: b) ->
  StronglySorted Z.lt (a ++ b) /\ key ∉ a ++ b.
Proof.
  intros (Ha & Hb & Hab)%sorted_app_iff. inv Hb. rewrite list.Forall_forall in *. split.
  - apply sorted_app_iff. repeat split; [done|done|]. apply list.Forall_forall. intros x Hx. apply Hab in Hx. by inv Hx.
  - intros [Hk|Hk]%elem_of_app; [apply Hab in Hk; inv Hk; lia|]. apply H2 in Hk. lia.
Qed.

Lemma take_drop_at {A} (a b : list A) x : take (length a) (a ++ x :: b) = a /\ drop (S (length a)) (a ++ x :: b) = b.
Proof.
  split; [by rewrite take_app_length|]. rewrite drop_app_ge by lia. by replace (S (length a) - length a)%nat with 1%nat by lia.
Qed.

(** Applying an event with memory. *)
Lemma try_apply_keys s key pressed : snapshot_ok s -> exists ks,
  try_apply alloc_all s (InputEvent.Key key pressed) = (in_with_keys s ks, Ok tt) /\ StronglySorted Z.lt ks /\
  list_to_set ks = held (list_to_set (in_keys s)) (InputEvent.Key key pressed).
Proof.
  intros [Hk _ _]. cbn [try_apply alloc_all negb]. pose proof (search_spec _ key Hk) as H.
  assert (K : (s, Ok tt) = (in_with_keys s (in_keys s), @Ok InputError unit tt)) by (by destruct s).
  destruct (binary_search (in_keys s) key) as [i|i], pressed.
  - destruct H as (a & b & E & _). exists (in_keys s). rewrite K. split; [done|]. split; [done|]. cbn. rewrite E. set_solver.
  - destruct H as (a & b & E & <-). rewrite E in *. destruct (take_drop_at a b key) as [-> ->].
    destruct (key_remove _ _ _ Hk) as [H1 H2]. exists (a ++ b). split; [done|]. split; [done|]. cbn. set_solver.
  - destruct H as (a & b & E & <- & Ha & Hb). rewrite E in *. rewrite take_app_length, drop_app_length.
    exists (a ++ key :: b). split; [done|]. split; [by apply key_insert|]. cbn. set_solver.
  - destruct H as (a & b & E & _ & Ha & Hb). exists (in_keys s). rewrite K. split; [done|]. split; [done|]. cbn.
    assert (key ∉ in_keys s); [|set_solver]. rewrite E. rewrite list.Forall_forall in *.
    intros [Hin|Hin]%elem_of_app; [apply Ha in Hin|apply Hb in Hin]; lia.
Qed.

(** *** Buttons *)
Lemma pow2_bit i j : 0 <= i -> 0 <= j -> Z.testbit (Z.shiftl 1 j) i = (i =? j).
Proof.
  intros. rewrite Z.shiftl_1_l. destruct (Z.eqb_spec i j) as [->|]; [by apply Z.pow2_bits_true|]. apply Z.pow2_bits_false. lia.
Qed.

Lemma lnot_bit i x : 0 <= i < 16 -> Z.testbit (lnot_w 16 x) i = negb (Z.testbit x i).
Proof. intros. unfold lnot_w, wrap. rewrite Z.mod_pow2_bits_low by lia. apply Z.lnot_spec. lia. Qed.

Lemma button_mask b i j p : 0 <= i < 16 -> 0 <= j ->
  Z.testbit (if (p : bool) then Z.lor b (Z.shiftl 1 j) else Z.land b (lnot_w 16 (Z.shiftl 1 j))) i =
  if i =? j then p else Z.testbit b i.
Proof.
  intros. destruct p.
  - rewrite Z.lor_spec, pow2_bit by lia. by destruct (i =? j); rewrite ?orb_true_r, ?orb_false_r.
  - rewrite Z.land_spec, lnot_bit, pow2_bit by lia. by destruct (i =? j); rewrite ?andb_false_r, ?andb_true_r.
Qed.

Lemma button_down_bit s i : 0 <= i -> mouse_button_down s i = (i <? 16) && Z.testbit (in_buttons s) i.
Proof.
  intros Hi. unfold mouse_button_down. f_equal. set (b := in_buttons s).
  assert (K : forall n, 0 <= n -> Z.testbit (Z.land b (Z.shiftl 1 i)) n = Z.testbit b n && (n =? i))
    by (intros; by rewrite Z.land_spec, pow2_bit by lia).
  destruct (Z.testbit b i) eqn:E.
  - destruct (Z.eqb_spec (Z.land b (Z.shiftl 1 i)) 0) as [H0|]; [|done].
    specialize (K i Hi). by rewrite H0, Z.testbit_0_l, E, Z.eqb_refl in K.
  - replace (Z.land b (Z.shiftl 1 i)) with 0; [done|]. symmetry. apply Z.bits_inj'. intros n Hn. rewrite K, Z.testbit_0_l by done.
    destruct (Z.eqb_spec n i) as [->|]; [by rewrite E|by rewrite andb_false_r].
Qed.

Lemma gather_bits s (l : list nat) : forall acc i, 0 <= i ->
  Z.testbit (foldl (fun b k => if mouse_button_down s (Z.of_nat k) then Z.lor b (Z.shiftl 1 (Z.of_nat k)) else b) acc l) i =
  Z.testbit acc i || existsb (fun k => (i =? Z.of_nat k) && mouse_button_down s i) l.
Proof.
  induction l as [|k l IH]; intros acc i Hi; cbn [foldl existsb]; [by rewrite orb_false_r|].
  rewrite IH by done. destruct (mouse_button_down s (Z.of_nat k)) eqn:E.
  - rewrite Z.lor_spec, pow2_bit by lia. destruct (Z.eqb_spec i (Z.of_nat k)) as [->|]; [|by rewrite !orb_false_r].
    rewrite E. cbn. by rewrite !orb_true_r.
  - destruct (Z.eqb_spec i (Z.of_nat k)) as [->|]; [by rewrite E|done].
Qed.

Lemma frame_buttons_bit s i : 0 <= i -> Z.testbit (frame_buttons s) i = (i <? 16) && Z.testbit (in_buttons s) i.
Proof.
  intros Hi. unfold frame_buttons. rewrite gather_bits, Z.testbit_0_l, button_down_bit by done. cbn [orb].
  destruct ((i <? 16) && Z.testbit (in_buttons s) i) eqn:E.
  - apply existsb_exists. exists (Z.to_nat i). apply andb_true_iff in E as [H1 _]. apply Z.ltb_lt in H1. split.
    + apply in_seq. lia.
    + rewrite Z2Nat.id by done. by rewrite Z.eqb_refl.
  - apply not_true_iff_false. intros (k & _ & H)%existsb_exists. by rewrite andb_false_r in H.
Qed.

(** *** A queue of events *)
Definition event_ok (e : InputEvent) : Prop :=
  match e with InputEvent.MouseButton j _ => 0 <= j | _ => True end.

Record applied (es : list InputEvent) (s s' : InputSnapshot) : Prop := {
  ap_ok : snapshot_ok s';
  ap_keys : list_to_set (in_keys s') = foldl held (list_to_set (in_keys s)) es;
  ap_buttons i : 0 <= i < 16 ->
    Z.testbit (in_buttons s') i = foldl (button_after i) (Z.testbit (in_buttons s) i) es;
  ap_position : in_position s' = foldl position_after (in_position s) es;
  ap_text : snapshot_text s' = take 64 (snapshot_text s ++ omap text_byte es)
}.

Lemma text_len s : snapshot_ok s -> zlen (snapshot_text s) = in_text_count s.
Proof. intros [_ H1 H2]. unfold snapshot_text, zlen in *. rewrite length_take. lia. Qed.

Lemma applied_nil s : snapshot_ok s -> applied [] s s.
Proof.
  intros H. constructor; try done. cbn. rewrite app_nil_r, take_ge; [done|].
  pose proof (text_len s H) as E. destruct H. unfold zlen in E. lia.
Qed.

Lemma take_take_app {A} n (a b : list A) : take n (take n a ++ b) = take n (a ++ b).
Proof.
  destruct (decide (n <= length a)%nat).
  - rewrite (take_app_le (take n a)) by (rewrite length_take; lia). rewrite take_take, Nat.min_id. by rewrite take_app_le.
  - by rewrite (take_ge a) by lia.
Qed.

Lemma applied_cons e es s s1 s' : applied [e] s s1 -> applied es s1 s' -> applied (e :: es) s s'.
Proof.
  intros [_ K1 B1 P1 T1] [O2 K2 B2 P2 T2]. constructor; cbn [foldl omap list_omap] in *.
  - done.
  - by rewrite K2, K1.
  - intros i Hi. by rewrite B2, B1.
  - by rewrite P2, P1.
  - rewrite T2, T1, take_take_app, <- (assoc_L (++)). f_equal. f_equal. by destruct (text_byte e).
Qed.

Lemma text_push s b : snapshot_ok s -> in_text_count s < 64 ->
  take (Z.to_nat (in_text_count s + 1)) (zset (in_text s) (in_text_count s) b) = snapshot_text s ++ [b].
Proof.
  intros [_ H1 H2] Hlt. unfold snapshot_text, zset, zlen in *. rewrite (proj2 (Z.ltb_ge _ _)) by lia.
  rewrite Z2Nat.inj_add by lia. change (Z.to_nat 1) with 1%nat. rewrite Nat.add_1_r.
  rewrite (take_S_r _ _ b); [|apply list_lookup_insert_eq; lia]. f_equal. by rewrite take_insert_ge by lia.
Qed.

Lemma try_apply_spec s e : snapshot_ok s -> event_ok e -> exists s', try_apply alloc_all s e = (s', Ok tt) /\ applied [e] s s'.
Proof.
  intros Hs He. pose proof (applied_nil s Hs) as [O K B Q X]. cbn in Q, X. destruct e as [key pressed|j p|x y|b].
  - destruct (try_apply_keys s key pressed Hs) as (ks & E & H1 & H2). eexists. split; [exact E|].
    destruct Hs. by constructor.
  - cbn [try_apply]. destruct (Z.ltb_spec j 16) as [Hj|Hj]; eexists; (split; [reflexivity|]); constructor; try done; cbn.
    + destruct Hs. by constructor.
    + intros i Hi. by apply button_mask.
    + intros i Hi. destruct (Z.eqb_spec i j); [lia|done].
  - eexists. split; [reflexivity|]. destruct Hs. by constructor.
  - cbn [try_apply]. destruct Hs as [H1 H2 H3]. rewrite H2. destruct (Z.ltb_spec (in_text_count s) 64) as [Hlt|Hge].
    + eexists. split; [reflexivity|]. assert (saturating_add 8 (in_text_count s) 1 = in_text_count s + 1) as Ec
        by (unfold saturating_add, umax; lia).
      constructor; try done; cbn.
      * constructor; cbn; [done|by rewrite zlen_zset|lia].
      * unfold snapshot_text at 1. cbn. rewrite Ec, text_push by (done || by constructor). rewrite take_ge; [done|].
        rewrite length_app. pose proof (text_len s ltac:(by constructor)) as E. unfold zlen in E. cbn. lia.
    + exists s. split; [done|]. constructor; try done. cbn.
      pose proof (text_len s ltac:(by constructor)) as E. unfold zlen in E.
      rewrite take_app_le by lia. rewrite take_ge by lia. done.
Qed.

Lemma advance_spec es : forall k s, snapshot_ok s -> Forall event_ok es -> exists s',
  advance_loop (fun _ => alloc_all) k s es = ({| hi_pending := []; hi_current := s' |}, Ok tt) /\ applied es s s'.
Proof.
  induction es as [|e es IH]; intros k s Hs He; cbn [advance_loop]; [exists s; split; [done|by apply applied_nil]|].
  inv He. destruct (try_apply_spec s e Hs H1) as (s1 & -> & A1). destruct (IH (S k) s1) as (s' & -> & A2); [apply A1|done|].
  exists s'. split; [done|]. by eapply applied_cons.
Qed.

(** *** The frame *)
Lemma contains_key_spec l k : contains_key l k = bool_decide (k ∈ l).
Proof.
  unfold contains_key. apply Bool.eq_true_iff_eq. rewrite existsb_exists, bool_decide_eq_true. split.
  - intros (x & Hx & ->%Z.eqb_eq). by apply list_elem_of_In.
  - intros H. exists k. split; [by apply list_elem_of_In|apply Z.eqb_refl].
Qed.

Lemma edge_keys_spec now before : forall n acc, (n <= 32)%nat ->
  edge_keys now before n acc = acc ++ take (32 - n) (filter (fun k => k ∉ before) now).
Proof.
  induction now as [|k now IH]; intros n acc Hn; cbn [edge_keys]; [by rewrite filter_nil, take_nil, app_nil_r|].
  rewrite filter_cons, contains_key_spec. destruct (decide (k ∉ before)) as [Hk|Hk].
  - rewrite bool_decide_false by done. cbn [negb andb]. destruct (Nat.ltb_spec n 32).
    + rewrite IH by lia. rewrite <- (assoc_L (++)). f_equal. by replace (32 - n)%nat with (S (32 - S n)) by lia.
    + rewrite IH by done. by replace (32 - n)%nat with 0%nat by lia.
  - rewrite bool_decide_true by (by destruct (decide (k ∈ before))). cbn [negb andb]. by apply IH.
Qed.

Lemma counted_filled n l : (length l <= n)%nat -> counted (zlen l) (filled n l) = l.
Proof.
  intros H. unfold counted, filled, zlen. rewrite Nat2Z.id, (take_ge l) by done. by rewrite take_app_length.
Qed.

Lemma counted_cut l : counted (Z.min (zlen l) 32) (filled 32 l) = take 32 l.
Proof.
  unfold counted, filled, zlen. replace (Z.to_nat (Z.min (Z.of_nat (length l)) 32)) with (length (take 32 l))
    by (rewrite length_take; lia). by rewrite take_app_length.
Qed.

Lemma u8_or_small d n : n <= 255 -> u8_or d n = n.
Proof. intros. unfold u8_or. by rewrite (proj2 (Z.leb_le _ _)) by done. Qed.

(** What a frame reports of the snapshot [s], given the keys and buttons at the
    previous frame. *)
Record reports (s : InputSnapshot) (previous_keys : list Z) (previous_buttons : Z) (f : InputFrame) : Prop := {
  rf_keys : counted (if_key_count f) (if_keys f) = take 32 (in_keys s);
  rf_pressed : counted (if_pressed_key_count f) (if_pressed_keys f) = take 32 (filter (fun k => k ∉ previous_keys) (in_keys s));
  rf_released : counted (if_released_key_count f) (if_released_keys f) = take 32 (filter (fun k => k ∉ in_keys s) previous_keys);
  rf_buttons i : 0 <= i < 16 ->
    Z.testbit (if_mouse_buttons f) i = Z.testbit (in_buttons s) i /\
    Z.testbit (if_pressed_buttons f) i = Z.testbit (in_buttons s) i && negb (Z.testbit previous_buttons i) /\
    Z.testbit (if_released_buttons f) i = Z.testbit previous_buttons i && negb (Z.testbit (in_buttons s) i);
  rf_position : (if_mouse_x f, if_mouse_y f) = in_position s;
  rf_text : counted (if_text_count f) (if_text f) = snapshot_text s
}.

Lemma input_frame_spec p : snapshot_ok (hi_current (ip_input p)) ->
  reports (hi_current (ip_input p)) (ip_previous_keys p) (ip_previous_buttons p) (input_frame p).
Proof.
  intros Hs. unfold input_frame. set (s := hi_current (ip_input p)) in *.
  assert (E : forall now before, counted (u8_or 32 (zlen (edge_keys now before 0 []))) (filled 32 (edge_keys now before 0 [])) =
    take 32 (filter (fun k => k ∉ before) now)).
  { intros now before. rewrite edge_keys_spec by lia. change ([] ++ ?l) with l. change (32 - 0)%nat with 32%nat.
    set (l := take 32 _). assert (length l <= 32)%nat by (unfold l; rewrite length_take; lia).
    rewrite u8_or_small by (unfold zlen; lia). by apply counted_filled. }
  pose proof (text_len s Hs) as Ht. destruct Hs.
  constructor; cbn [if_key_count if_keys if_pressed_key_count if_pressed_keys if_released_key_count if_released_keys
    if_mouse_buttons if_pressed_buttons if_released_buttons if_mouse_x if_mouse_y if_text_count if_text]; try apply E.
  - rewrite u8_or_small by lia. apply counted_cut.
  - intros i Hi. rewrite !Z.land_spec, !lnot_bit, frame_buttons_bit by lia. rewrite (proj2 (Z.ltb_lt _ _)) by lia. done.
  - by destruct (in_position s).
  - rewrite u8_or_small by lia. apply counted_filled. unfold zlen in Ht. lia.
Qed.

Section Tick.
Context {P V : Type} `{!Payload InputEventMessage P} `{!Payload InputFrame P}.
Implicit Types (c : KernelContext P V).

Definition event_of (e : Envelope P) : option InputEvent :=
  if env_topic e =? 4 then
    match envelope_downcast (downcast (T := InputEventMessage)) e with Ok m => Some (iem_event m) | Err _ => None end
  else None.

Lemma input_messages q : forall k h, handle_all (input_message (fun _ => alloc_all)) k q h =
  Some {| hi_pending := hi_pending h ++ omap event_of q; hi_current := hi_current h |}.
Proof.
  induction q as [|e q IH]; intros k h; cbn [handle_all omap list_omap]; [rewrite app_nil_r; by destruct h|].
  assert (input_message (fun _ => alloc_all) k h e = Some {| hi_pending := hi_pending h ++
    match event_of e with Some x => [x] | None => [] end; hi_current := hi_current h |}) as ->.
  { unfold input_message, event_of. destruct (_ =? 4); [|rewrite app_nil_r; by destruct h].
    destruct (envelope_downcast _ _); [done|rewrite app_nil_r; by destruct h]. }
  cbn [mbind option_bind]. rewrite IH. cbn. rewrite <- (assoc_L (++)). by destruct (event_of e).
Qed.

(** The queues after the frame went to each reader that exists. *)
Fixpoint sent_to (id : SubscriberId) (resolve : string -> option SubscriberId)
    (qs : list (list (Envelope P))) (names : list string) (topic : Z) (payload : P)
    (qs' : list (list (Envelope P))) : Prop :=
  match names with
  | [] => qs' = qs
  | name :: names =>
      match resolve name with
      | Some to => exists n, sent_to id resolve (deliver qs (mkEnvelope id to topic n payload)).1 names topic payload qs'
      | None => sent_to id resolve qs names topic payload qs'
      end
  end.

Lemma publish_to_spec names topic payload : forall c qs, bus_repr (sh_bus (kc_shared c)) qs ->
  exists b qs', publish_to false c names topic payload = Some (ctx_with_bus c b) /\ bus_repr b qs' /\
  sent_to (kc_id c) (ctx_resolve c) qs names topic payload qs'.
Proof.
  induction names as [|name names IH]; intros c qs Hb; cbn [publish_to sent_to].
  - exists (sh_bus (kc_shared c)), qs. split; [|done]. by destruct c as [[] ? ? ?].
  - destruct (ctx_resolve c name) as [to|]; [|by apply IH].
    destruct (ctx_publish_spec c qs to topic payload Hb) as (b & r & -> & Hb' & _). cbn [mbind option_bind].
    destruct (IH (ctx_with_bus c b) _ Hb') as (b2 & qs' & -> & Hb2 & H). exists b2, qs'. split; [done|]. split; [done|].
    exists (bus_next_seq (sh_bus (kc_shared c))). exact H.
Qed.

(** C20: With memory for the queues, a tick of the input driver takes every
    event that was queued or arrived, in order, and sends each existing reader
    the same frame.  The frame has the held keys in increasing order, those
    pressed and those released since the last frame (each cut to 32), the
    buttons with their changes, the last position, and the first 64 text
    bytes; the next frame's changes are relative to this one. *)
Theorem input_frame_reports (p : InputSubsystem) c qs (Hbus : bus_repr (sh_bus (kc_shared c)) qs)
    (Hok : snapshot_ok (hi_current (ip_input p))) (Hqueue : Forall event_ok (hi_pending (ip_input p)))
    (Hinbox : Forall event_ok (omap event_of (inbox_of qs (kc_id c)))) :
  let es := hi_pending (ip_input p) ++ omap event_of (inbox_of qs (kc_id c)) in
  exists p' b qs' f s0,
    input_tick false (fun _ => alloc_all) (fun _ => alloc_all) p c = Some (p', ctx_with_bus c b) /\
    s0 = in_with_text (hi_current (ip_input p)) (in_text (hi_current (ip_input p))) 0 /\
    applied es s0 (hi_current (ip_input p')) /\ hi_pending (ip_input p') = [] /\
    reports (hi_current (ip_input p')) (ip_previous_keys p) (ip_previous_buttons p) f /\
    bus_repr b qs' /\ sent_to (kc_id c) (ctx_resolve c) (zset qs (kc_id c) []) frame_readers 2 (into f) qs' /\
    ip_previous_keys p' = in_keys (hi_current (ip_input p')) /\
    (forall i, 0 <= i < 16 -> Z.testbit (ip_previous_buttons p') i = Z.testbit (in_buttons (hi_current (ip_input p'))) i).
Proof.
  intros es. unfold input_tick.
  pose proof (drain_inbox_spec (input_message (fun _ => alloc_all)) c (ip_input p) qs Hbus) as R. rewrite input_messages in R.
  destruct R as (b & Hb & _ & ->). cbn [mbind option_bind]. unfold input_advance, input_try_advance. cbn [hi_pending hi_current].
  set (s0 := in_with_text _ _ 0).
  assert (Hs0 : snapshot_ok s0) by (destruct Hok; constructor; cbn; try done; lia).
  destruct (advance_spec es 0 s0 Hs0) as (s' & E & A); [by apply list.Forall_app|]. fold es. rewrite E. cbn [mbind option_bind].
  set (p1 := {| ip_input := {| hi_pending := []; hi_current := s' |};
    ip_previous_buttons := ip_previous_buttons p; ip_previous_keys := ip_previous_keys p |}). pose proof (input_frame_spec p1 (ap_ok _ _ _ A)) as F.
  destruct (publish_to_spec frame_readers 2 (into (input_frame p1)) (ctx_with_bus c b) _ Hb) as (b2 & qs' & -> & Hb2 & H).
  cbn [mbind option_bind]. eexists _, b2, qs', (input_frame p1), s0. split; [done|]. split; [done|]. split; [exact A|].
  split; [done|]. split; [exact F|]. split; [done|]. split; [exact H|]. split; [done|].
  intros i Hi. cbn [ip_previous_buttons ip_input hi_current]. rewrite frame_buttons_bit by lia. by rewrite (proj2 (Z.ltb_lt _ _)) by lia.
Qed.
End Tick.

(** ** At a concrete input *)
Variant any_input := AnyEvent (m : InputEventMessage) | AnyFrame (f : InputFrame).
#[export] Instance any_event : Payload InputEventMessage any_input :=
  {| into := AnyEvent; downcast := fun p => match p with AnyEvent v => Some v | _ => None end;
     downcast_into := fun v => eq_refl |}.
#[export] Instance any_input_frame : Payload InputFrame any_input :=
  {| into := AnyFrame; downcast := fun p => match p with AnyFrame v => Some v | _ => None end;
     downcast_into := fun v => eq_refl |}.

(** Key 7 is held; it is released, 9 and then 4 are pressed, 9 is released. *)
Definition demo_input : InputSubsystem := {|
  ip_input := {| hi_pending := [InputEvent.Key 7 false; InputEvent.Key 9 true; InputEvent.Key 4 true;
                   InputEvent.MouseButton 3 true; InputEvent.TextByte 65; InputEvent.Key 9 false];
                 hi_current := in_with_keys input_snapshot_default [7] |};
  ip_previous_buttons := 1; ip_previous_keys := [7] |}.
Definition demo_names : list string := ["input"; "ui"]%string.

Lemma input_frame_reports_witness :
  exists p' b f, input_tick (V := Z) false (fun _ => alloc_all) (fun _ => alloc_all) demo_input
    (context_on (P := any_input) two_subscribers demo_names 0) =
    Some (p', ctx_with_bus (context_on two_subscribers demo_names 0) b) /\
  counted (if_pressed_key_count f) (if_pressed_keys f) = [4] /\
  counted (if_released_key_count f) (if_released_keys f) = [7] /\
  Z.testbit (if_pressed_buttons f) 3 = true.
Proof.
  destruct (input_frame_reports (V := Z) demo_input (context_on (P := any_input) two_subscribers demo_names 0) [[]; []])
    as (p' & b & qs' & f & s0 & E & E0 & A & _ & R & _).
  - exact two_subscribers_repr.
  - constructor; [repeat constructor|reflexivity|vm_compute; split; discriminate].
  - repeat constructor; discriminate.
  - constructor.
  - exists p', b, f. split; [exact E|].
    assert (Hk : hi_current (ip_input p') = in_with_buttons (in_with_keys (in_with_text input_snapshot_default
      (65 :: replicate 63 0) 1) [4]) 8) by (vm_compute in E; injection E as <- _; reflexivity).
    destruct R as [_ R1 R2 R3 _ _]. rewrite Hk in R1, R2, R3. split; [exact R1|]. split; [exact R2|].
    destruct (R3 3) as (_ & H & _); [lia|exact H].
Defined.

(** A key pressed and released within one frame leaves no trace in it. *)
Example tap_within_a_frame_lost :
  match input_try_advance (fun _ => alloc_all)
    {| hi_pending := [InputEvent.Key 9 true; InputEvent.Key 9 false]; hi_current := input_snapshot_default |} with
  | (h, Ok _) =>
      let f := input_frame {| ip_input := h; ip_previous_buttons := 0; ip_previous_keys := [] |} in
      if_pressed_key_count f = 0 /\ if_released_key_count f = 0
  | _ => False
  end.
Proof. split; reflexivity. Qed.

(** ** What the window reports *)
Definition window_events (w : HeadlessWindow) (es : list (alloc * WindowEvent)) : HeadlessWindow :=
  foldl (fun w x => fst (try_push_event (fst x) w (snd x))) w es.

(** The events whose reservation succeeded. *)
Definition accepted (es : list (alloc * WindowEvent)) : list WindowEvent :=
  omap (fun x : alloc * WindowEvent => if fst x 0%nat then Some (snd x) else None) es.

Definition size_after (s : WindowSize) (e : WindowEvent) : WindowSize :=
  match e with WindowEvent.Resized s => s | _ => s end.
Definition open_after (b : bool) (e : WindowEvent) : bool :=
  match e with WindowEvent.CloseRequested => false | _ => b end.
Definition focused_after (b : bool) (e : WindowEvent) : bool :=
  match e with WindowEvent.Focused b => b | _ => b end.

Lemma window_events_spec es : forall w, window_events w es =
  {| hw_id := hw_id w; hw_size := foldl size_after (hw_size w) (accepted es);
     hw_open := foldl open_after (hw_open w) (accepted es);
     hw_focused := foldl focused_after (hw_focused w) (accepted es);
     hw_events := hw_events w ++ accepted es |}.
Proof.
  induction es as [|[A e] es IH]; intros w; unfold window_events, accepted in *; cbn [foldl omap list_omap fst snd];
    [rewrite app_nil_r; by destruct w|].
  rewrite IH. unfold try_push_event. destruct (A 0%nat); cbn [negb fst]; [|done].
  cbn [hw_id hw_size hw_open hw_focused hw_events]. rewrite <- (assoc_L (++)). destruct e; cbn; by f_equal.
Qed.

(** After any pushed events a tick of the window driver has every accepted
    event of the frame, in order and once, the window shows the newest size,
    focus and open state, and exactly when a resize was among them the
    renderer is sent one message with the newest size. *)
Theorem window_tick_reports {P V} `{!Payload WindowResized P} (s : WindowSubsystem) (c : KernelContext P V)
    (es : list (alloc * WindowEvent)) qs (Hbus : bus_repr (sh_bus (kc_shared c)) qs)
    (Hempty : hw_events (wn_window s) = []) :
  exists s' b, window_tick false {| wn_window := window_events (wn_window s) es; wn_frame_events := wn_frame_events s |} c =
    Some (s', ctx_with_bus c b) /\
  wn_frame_events s' = accepted es /\ hw_events (wn_window s') = [] /\
  hw_size (wn_window s') = foldl size_after (hw_size (wn_window s)) (accepted es) /\
  hw_open (wn_window s') = foldl open_after (hw_open (wn_window s)) (accepted es) /\
  hw_focused (wn_window s') = foldl focused_after (hw_focused (wn_window s)) (accepted es) /\
  bus_repr b
    (match ctx_resolve c "renderer" with
     | Some r => if existsb is_resized (accepted es) then
                   (deliver qs (mkEnvelope (kc_id c) r 1 (bus_next_seq (sh_bus (kc_shared c)))
                      (into {| wr_width := ws_width (hw_size (wn_window s')); wr_height := ws_height (hw_size (wn_window s')) |}))).1
                 else qs
     | None => qs
     end).
Proof.
  unfold window_tick. rewrite window_events_spec. unfold drain_events. cbn [hw_events wn_window]. rewrite Hempty.
  change ([] ++ ?l) with l. assert (Some c = Some (ctx_with_bus c (sh_bus (kc_shared c)))) as Ec by (by destruct c as [[] ? ? ?]).
  injection Ec as Ec.
  assert (K : forall (x : WindowSubsystem), Some (x, c) = Some (x, ctx_with_bus c (sh_bus (kc_shared c)))) by (intros; by rewrite <- Ec).
  destruct (existsb is_resized (accepted es)).
  - destruct (ctx_resolve c "renderer") as [r|].
    + destruct (ctx_publish_spec c qs r 1 (into {| wr_width := ws_width (foldl size_after (hw_size (wn_window s)) (accepted es));
        wr_height := ws_height (foldl size_after (hw_size (wn_window s)) (accepted es)) |}) Hbus) as (b & x & E & Hb & _).
      cbn [hw_size]. rewrite E. cbn [mbind option_bind]. eexists _, b. split; [done|]. do 5 (split; [done|]). exact Hb.
    + eexists _, _. split; [apply K|]. by do 5 (split; [done|]).
  - eexists _, _. split; [apply K|]. do 5 (split; [done|]). by destruct (ctx_resolve c "renderer").
Qed.

Lemma window_tick_reports_witness :
  let size w h := {| ws_width := w; ws_height := h |} in
  exists s' b, window_tick (P := WindowResized) (V := Z) false
      (Payload0 := {| into := fun v => v; downcast := fun p => Some p; downcast_into := fun v => eq_refl |})
      {| wn_window := window_events (headless_window_new 0 (size 1 1))
           [(alloc_all, WindowEvent.Resized (size 3 2)); (fun _ => false, WindowEvent.CloseRequested)];
         wn_frame_events := [] |} (context_on two_subscribers ["window"; "renderer"]%string 0) =
    Some (s', ctx_with_bus (context_on two_subscribers ["window"; "renderer"]%string 0) b) /\
  wn_frame_events s' = [WindowEvent.Resized (size 3 2)] /\ hw_open (wn_window s') = true.
Proof.
  intros size.
  destruct (window_tick_reports (P := WindowResized) (V := Z)
    (Payload0 := {| into := fun v => v; downcast := fun p => Some p; downcast_into := fun v => eq_refl |})
    {| wn_window := headless_window_new 0 (size 1 1); wn_frame_events := [] |}
    (context_on two_subscribers ["window"; "renderer"]%string 0)
    [(alloc_all, WindowEvent.Resized (size 3 2)); (fun _ => false, WindowEvent.CloseRequested)] [[]; []])
    as (s' & b & E & H1 & _ & _ & H2 & _); [exact two_subscribers_repr|reflexivity|].
  exists s', b. split; [exact E|]. split; [exact H1|exact H2].
Defined.
