(* ===== verification/MeshTables.v ===== *)
(** The 3D resource tables of [subsystems/renderer_3d.rs]: meshes (an upload
    stream and a slot table of ranges into it), materials, and the validation
    of views and world passes.

    Both tables keep generational slots and a free list; the slot machinery is
    proved once, for any record type, and the two tables use it.

    Theorems: a mesh table answers every sequence of insertions, removals and
    reads exactly like a store of immutable meshes, with the bytes of a live
    mesh unchanged whatever happened since; bytes of removed meshes are never
    reclaimed; a material table is a store of valid materials; a validated pass
    has a non-empty viewport and an ordered finite depth range. *)

From stdpp Require Import sets.
From S2P Require Import Prelude Pool F32.

Module Renderer3dError.
Inductive Renderer3dError :=
| CapacityExceeded
| AllocationFailed
| InvalidHandle
| InvalidVertexFormat
| InvalidIndexData
| InvalidBounds
| IntegerOverflow
| InvalidView
| InvalidPass.
End Renderer3dError.
Abbreviation Renderer3dError := Renderer3dError.Renderer3dError.

Definition INITIAL_GENERATION : Z := 1.

Record MeshHandle := mkMeshHandle { mh_index : Z; mh_generation : Z }.
Definition MeshHandle_INVALID : MeshHandle := mkMeshHandle U32_MAX 0.
Definition mesh_handle_is_valid (h : MeshHandle) : bool :=
  negb (mh_index h =? U32_MAX) && negb (mh_generation h =? 0).

Record MaterialHandle := mkMaterialHandle { ml_index : Z; ml_generation : Z }.
Definition MaterialHandle_INVALID : MaterialHandle := mkMaterialHandle U32_MAX 0.
Definition material_handle_is_valid (h : MaterialHandle) : bool :=
  negb (ml_index h =? U32_MAX) && negb (ml_generation h =? 0).

(** [[f32; 4]]. *)
Abbreviation vec4 := (f32 * f32 * f32 * f32)%type.
Definition components (v : vec4) : list f32 := let '(x, y, z, w) := v in [x; y; z; w].

Record MeshRecord := {
  me_vertex_offset : Z;
  me_vertex_bytes : Z;
  me_vertex_stride : Z;
  me_vertex_count : Z;
  me_index_offset : Z;
  me_index_bytes : Z;
  me_index_count : Z;
  me_bounds : vec4
}.

(** [MeshSlot] and [MaterialSlot]: the two differ in the record's type. *)
Record Slot (R : Type) := mkSlot { sl_generation : Z; sl_record : option R }.
Arguments mkSlot {R}. Arguments sl_generation {R}. Arguments sl_record {R}.

Definition next_generation (generation : Z) : Z :=
  match checked_add 32 generation 1 with
  | Some value => if negb (value =? 0) then value else 1
  | None => 1
  end.

(** [Vec::try_reserve(1)]: does nothing while the capacity suffices, and may
    fail beyond it. *)
Definition reserve_one (capacity len : Z) (ok : bool) : bool := (len <? capacity) || ok.

(** ** The slot machinery

    Written out in both tables of the source. *)
Section Slots.
Context {R : Type}.
Implicit Types (slots : list (Slot R)) (free : list Z).

(** The slot of a new record: a free one, or one more at the end. *)
Definition claim_slot (capacity : Z) (ok : bool) slots free :
    list (Slot R) * list Z * result Renderer3dError Z :=
  match vec_pop free with
  | Some (index, free) => (slots, free, Ok index)
  | None =>
      if U32_MAX <? zlen slots then (slots, free, Err Renderer3dError.IntegerOverflow)
      else if negb (reserve_one capacity (zlen slots) ok) then
        (slots, free, Err Renderer3dError.AllocationFailed)
      else (slots ++ [mkSlot INITIAL_GENERATION None], free, Ok (zlen slots))
  end.

(** [get_mut(slot_index)] and the write of the record; the generation goes
    into the new handle. *)
Definition put_record slots (index : Z) (record : R) : list (Slot R) * result Renderer3dError Z :=
  match slots !z index with
  | None => (slots, Err Renderer3dError.InvalidHandle)
  | Some slot => (zset slots index (mkSlot (sl_generation slot) (Some record)), Ok (sl_generation slot))
  end.

(** The slot a handle names, if it is live. *)
Definition checked_slot (valid : bool) slots (index generation : Z) : result Renderer3dError R :=
  if negb valid then Err Renderer3dError.InvalidHandle
  else
    let? slot := ok_or Renderer3dError.InvalidHandle (slots !z index) in
    if negb (sl_generation slot =? generation) then Err Renderer3dError.InvalidHandle
    else ok_or Renderer3dError.InvalidHandle (sl_record slot).

(** Removal: the generation advances and the slot is free again; [ok] is the
    reservation of the free list. *)
Definition remove_slot (ok : bool) (valid : bool) slots free (index generation : Z) :
    list (Slot R) * list Z * result Renderer3dError R :=
  match checked_slot valid slots index generation with
  | Err e => (slots, free, Err e)
  | Ok record =>
      if negb ok then (slots, free, Err Renderer3dError.AllocationFailed)
      else (zset slots index (mkSlot (next_generation generation) None), free ++ [index], Ok record)
  end.
End Slots.

(** ** Meshes *)
Record MeshTable := {
  mt_slots : list (Slot MeshRecord);
  mt_free : list Z;
  mt_vertex_data : list Z;
  mt_index_data : list Z;
  mt_max_meshes : Z;
  mt_max_vertex_bytes : Z;
  mt_max_index_bytes : Z
}.

Definition mesh_try_with_capacity (A : alloc) (max_meshes max_vertex_bytes max_index_bytes : Z) :
    result Renderer3dError MeshTable :=
  if negb (A 0%nat) then Err Renderer3dError.AllocationFailed
  else if negb (A 1%nat) then Err Renderer3dError.AllocationFailed
  else if negb (A 2%nat) then Err Renderer3dError.AllocationFailed
  else Ok {| mt_slots := []; mt_free := []; mt_vertex_data := []; mt_index_data := [];
             mt_max_meshes := max_meshes; mt_max_vertex_bytes := max_vertex_bytes;
             mt_max_index_bytes := max_index_bytes |}.

Definition mesh_len (t : MeshTable) : Z := zlen (mt_slots t) - zlen (mt_free t).

Definition validate_mesh_input (vertex_bytes : list Z) (vertex_stride : Z) (index_bytes : list Z)
    (bounds : vec4) : result Renderer3dError unit :=
  if (vertex_stride <? 12) || negb (vertex_stride mod 4 =? 0) || (zlen vertex_bytes =? 0) ||
     negb (zlen vertex_bytes mod vertex_stride =? 0)
  then Err Renderer3dError.InvalidVertexFormat
  else if (zlen index_bytes =? 0) || negb (zlen index_bytes mod 4 =? 0)
  then Err Renderer3dError.InvalidIndexData
  else
    let '(_, _, _, radius) := bounds in
    if negb (forallb is_finite (components bounds)) || flt radius f32_zero
    then Err Renderer3dError.InvalidBounds
    else Ok tt.

(** [u32::try_from] of a [usize]; the conversions between [usize] and [u64]
    cannot fail on the 64-bit targets of the crate. *)
Definition u32_try_from (n : Z) : result Renderer3dError Z :=
  if n <=? U32_MAX then Ok n else Err Renderer3dError.IntegerOverflow.

Definition mesh_try_insert (ok : bool) (t : MeshTable) (vertex_bytes : list Z) (vertex_stride : Z)
    (index_bytes : list Z) (bounds : vec4) : MeshTable * result Renderer3dError MeshHandle :=
  let checked :=
    let? _ := validate_mesh_input vertex_bytes vertex_stride index_bytes bounds in
    if mt_max_meshes t <=? mesh_len t then Err Renderer3dError.CapacityExceeded
    else
      let? vertex_end := ok_or Renderer3dError.IntegerOverflow
                           (checked_add 64 (zlen (mt_vertex_data t)) (zlen vertex_bytes)) in
      let? index_end := ok_or Renderer3dError.IntegerOverflow
                          (checked_add 64 (zlen (mt_index_data t)) (zlen index_bytes)) in
      if (mt_max_vertex_bytes t <? vertex_end) || (mt_max_index_bytes t <? index_end)
      then Err Renderer3dError.CapacityExceeded
      else
        let? vertex_count := u32_try_from (zlen vertex_bytes / vertex_stride) in
        let? index_count := u32_try_from (zlen index_bytes / 4) in
        Ok {| me_vertex_offset := zlen (mt_vertex_data t);
              me_vertex_bytes := zlen vertex_bytes;
              me_vertex_stride := vertex_stride;
              me_vertex_count := vertex_count;
              me_index_offset := zlen (mt_index_data t);
              me_index_bytes := zlen index_bytes;
              me_index_count := index_count;
              me_bounds := bounds |} in
  match checked with
  | Err e => (t, Err e)
  | Ok record =>
      let '(slots, free, slot_index) := claim_slot (mt_max_meshes t) ok (mt_slots t) (mt_free t) in
      let with_data slots vertex_data index_data :=
        {| mt_slots := slots; mt_free := free; mt_vertex_data := vertex_data;
           mt_index_data := index_data; mt_max_meshes := mt_max_meshes t;
           mt_max_vertex_bytes := mt_max_vertex_bytes t;
           mt_max_index_bytes := mt_max_index_bytes t |} in
      match slot_index with
      | Err e => (with_data slots (mt_vertex_data t) (mt_index_data t), Err e)
      | Ok slot_index =>
          match put_record slots slot_index record with
          | (slots, Err e) => (with_data slots (mt_vertex_data t) (mt_index_data t), Err e)
          | (slots, Ok generation) =>
              (with_data slots (mt_vertex_data t ++ vertex_bytes) (mt_index_data t ++ index_bytes),
               Ok (mkMeshHandle slot_index generation))
          end
      end
  end.

Definition mesh_get (t : MeshTable) (h : MeshHandle) : result Renderer3dError MeshRecord :=
  checked_slot (mesh_handle_is_valid h) (mt_slots t) (mh_index h) (mh_generation h).

(** [data.get(start..start + len)]. *)
Definition range_of (data : list Z) (start len : Z) : result Renderer3dError (list Z) :=
  let? finish := ok_or Renderer3dError.IntegerOverflow (checked_add 64 start len) in
  if finish <=? zlen data then Ok (take (Z.to_nat len) (drop (Z.to_nat start) data))
  else Err Renderer3dError.InvalidHandle.

Definition mesh_vertex_bytes (t : MeshTable) (h : MeshHandle) : result Renderer3dError (list Z) :=
  let? record := mesh_get t h in
  range_of (mt_vertex_data t) (me_vertex_offset record) (me_vertex_bytes record).

Definition mesh_index_bytes (t : MeshTable) (h : MeshHandle) : result Renderer3dError (list Z) :=
  let? record := mesh_get t h in
  range_of (mt_index_data t) (me_index_offset record) (me_index_bytes record).

Definition mesh_remove (ok : bool) (t : MeshTable) (h : MeshHandle) :
    MeshTable * result Renderer3dError MeshRecord :=
  let '(slots, free, r) :=
    remove_slot ok (mesh_handle_is_valid h) (mt_slots t) (mt_free t) (mh_index h) (mh_generation h) in
  ({| mt_slots := slots; mt_free := free; mt_vertex_data := mt_vertex_data t;
      mt_index_data := mt_index_data t; mt_max_meshes := mt_max_meshes t;
      mt_max_vertex_bytes := mt_max_vertex_bytes t; mt_max_index_bytes := mt_max_index_bytes t |}, r).

(** ** Materials *)
Record MaterialRecord := { ma_base_color : vec4; ma_metallic : f32; ma_roughness : f32 }.

Record MaterialTable := {
  ml_slots : list (Slot MaterialRecord);
  ml_free : list Z;
  ml_max_materials : Z
}.

Definition material_try_with_capacity (A : alloc) (max_materials : Z) : result Renderer3dError MaterialTable :=
  if negb (A 0%nat) then Err Renderer3dError.AllocationFailed
  else Ok {| ml_slots := []; ml_free := []; ml_max_materials := max_materials |}.

Definition material_len (t : MaterialTable) : Z := zlen (ml_slots t) - zlen (ml_free t).

(** [(0.0..=1.0).contains(&value)]. *)
Definition in_unit (x : f32) : bool := fle f32_zero x && fle x f32_one.

Definition material_valid (record : MaterialRecord) : bool :=
  forallb is_finite (components (ma_base_color record)) && is_finite (ma_metallic record) &&
  is_finite (ma_roughness record) && in_unit (ma_metallic record) && in_unit (ma_roughness record).

Definition material_try_insert (ok : bool) (t : MaterialTable) (record : MaterialRecord) :
    MaterialTable * result Renderer3dError MaterialHandle :=
  if (ml_max_materials t <=? material_len t) || negb (material_valid record)
  then (t, Err Renderer3dError.CapacityExceeded)
  else
    let '(slots, free, slot_index) := claim_slot (ml_max_materials t) ok (ml_slots t) (ml_free t) in
    let table slots := {| ml_slots := slots; ml_free := free; ml_max_materials := ml_max_materials t |} in
    match slot_index with
    | Err e => (table slots, Err e)
    | Ok slot_index =>
        match put_record slots slot_index record with
        | (slots, Err e) => (table slots, Err e)
        | (slots, Ok generation) => (table slots, Ok (mkMaterialHandle slot_index generation))
        end
    end.

Definition material_get (t : MaterialTable) (h : MaterialHandle) : result Renderer3dError MaterialRecord :=
  checked_slot (material_handle_is_valid h) (ml_slots t) (ml_index h) (ml_generation h).

Definition material_remove (ok : bool) (t : MaterialTable) (h : MaterialHandle) :
    MaterialTable * result Renderer3dError MaterialRecord :=
  let '(slots, free, r) :=
    remove_slot ok (material_handle_is_valid h) (ml_slots t) (ml_free t) (ml_index h) (ml_generation h) in
  ({| ml_slots := slots; ml_free := free; ml_max_materials := ml_max_materials t |}, r).

(** ** Views and passes *)
Record RenderView := {
  rv_view_projection : list f32;
  rv_viewport_width : Z;
  rv_viewport_height : Z;
  rv_near_plane : f32;
  rv_far_plane : f32
}.

Definition view_validate (v : RenderView) : result Renderer3dError RenderView :=
  if (rv_viewport_width v =? 0) || (rv_viewport_height v =? 0) ||
     negb (forallb is_finite (rv_view_projection v)) ||
     negb (is_finite (rv_near_plane v)) || negb (is_finite (rv_far_plane v)) ||
     fle (rv_near_plane v) f32_zero || fle (rv_far_plane v) (rv_near_plane v)
  then Err Renderer3dError.InvalidView
  else Ok v.

Record WorldPassConfig := { wp_view : RenderView; wp_clear_color : vec4; wp_clear_depth : f32 }.

Definition pass_validate (p : WorldPassConfig) : result Renderer3dError WorldPassConfig :=
  let? _ := view_validate (wp_view p) in
  if negb (forallb is_finite (components (wp_clear_color p))) ||
     negb (is_finite (wp_clear_depth p)) || negb (in_unit (wp_clear_depth p))
  then Err Renderer3dError.InvalidPass
  else Ok p.

(** ** What the slots promise

    Handles are numbered in the order they were issued; [os] has the record of
    each, [None] once removed.  A handle is the pair of its index and its
    generation; [n] bounds the generations. *)
Section SlotsRefine.
Context {R : Type}.
Implicit Types (slots : list (Slot R)) (free : list Z) (hs : list (Z * Z)) (os : objects R).

Definition handle_state slots (h : Z * Z) (o : option R) : Prop :=
  exists s, slots !z (h.1) = Some s /\ 1 <= h.2 /\
  match o with
  | Some r => sl_generation s = h.2 /\ sl_record s = Some r
  | None => h.2 < sl_generation s
  end.

Record slots_rel slots free hs os (n : Z) : Prop := {
  sr_generations i s : slots !z i = Some s -> 1 <= sl_generation s <= n;
  sr_free_nodup : NoDup free;
  sr_free i : i ∈ free <-> exists s, slots !z i = Some s /\ sl_record s = None;
  sr_count : zlen slots = zlen free + n_live os;
  sr_length : length hs = length os;
  sr_nodup : NoDup hs;
  sr_handle k h o : hs !! k = Some h -> os !! k = Some o -> handle_state slots h o;
  sr_owner i s r : slots !z i = Some s -> sl_record s = Some r ->
    exists k g, hs !! k = Some (i, g) /\ os !! k = Some (Some r)
}.

Lemma slots_rel_nil : slots_rel [] [] [] [] 1.
Proof.
  split; try done; try by constructor.
  - intros i s Hs. apply zget_Some in Hs. zsimp. lia.
  - intros i. split; [intros Hi; by apply not_elem_of_nil in Hi|].
    intros (s & Hs & _). apply zget_Some in Hs. zsimp. lia.
  - intros i s r Hs. apply zget_Some in Hs. zsimp. lia.
Qed.

Lemma slots_rel_weaken slots free hs os n n' : n <= n' ->
  slots_rel slots free hs os n -> slots_rel slots free hs os n'.
Proof. intros ? []. split; try done. intros i s Hs. specialize (sr_generations0 i s Hs). lia. Qed.

(** Live handles of one slot are one handle. *)
Lemma owner_unique slots free hs os n k k' h h' r r' :
  slots_rel slots free hs os n -> hs !! k = Some h -> os !! k = Some (Some r) ->
  hs !! k' = Some h' -> os !! k' = Some (Some r') -> h.1 = h'.1 -> k = k'.
Proof.
  intros Hr Hh Ho Hh' Ho' He.
  destruct (sr_handle _ _ _ _ _ Hr k h _ Hh Ho) as (s & Hs & _ & Hg & _).
  destruct (sr_handle _ _ _ _ _ Hr k' h' _ Hh' Ho') as (s' & Hs' & _ & Hg' & _).
  assert (h = h') as -> by (destruct h, h'; simplify_eq/=; congruence).
  exact (NoDup_lookup hs k k' h' (sr_nodup _ _ _ _ _ Hr) Hh Hh').
Qed.

(** A table below its maximum has a slot to give: a free one, or a new one
    within the reserved capacity. *)
Lemma claim_slot_spec slots free hs os n max ok :
  slots_rel slots free hs os n -> 1 <= n -> n_live os < max -> max <= U32_MAX ->
  exists slots' free' i s, claim_slot max ok slots free = (slots', free', Ok i) /\
  slots' !z i = Some s /\ sl_record s = None /\ i ∉ free' /\ zlen slots' <= Z.max (zlen slots) max /\
  slots_rel slots' (free' ++ [i]) hs os n.
Proof.
  intros Hr Hn Hlive Hmax. unfold claim_slot. destruct (vec_pop free) as [[i rest]|] eqn:Hpop.
  - apply vec_pop_Some in Hpop as ->.
    destruct (proj1 (sr_free _ _ _ _ _ Hr i)) as (s & Hs & Hn'); [set_solver|].
    pose proof (sr_free_nodup _ _ _ _ _ Hr) as Hnd. apply list.NoDup_app in Hnd as (_ & Hni & _).
    pose proof (zget_Some _ _ _ Hs).
    exists slots, rest, i, s. split_and!; try done; try lia. intros Hin. specialize (Hni i Hin). set_solver.
  - apply vec_pop_None in Hpop as ->. pose proof (sr_count _ _ _ _ _ Hr) as Hc. zsimp.
    pose proof (zlen_nonneg slots).
    destruct (Z.ltb_spec U32_MAX (zlen slots)); [lia|].
    unfold reserve_one. destruct (Z.ltb_spec (zlen slots) max); [|lia]. simpl.
    exists (slots ++ [mkSlot INITIAL_GENERATION None]), [], (zlen slots), (mkSlot INITIAL_GENERATION None).
    rewrite zget_snoc. split_and!; try done; try (zsimp; lia); [by apply not_elem_of_nil|].
    assert (forall i s, (slots ++ [mkSlot INITIAL_GENERATION None]) !z i = Some s ->
      slots !z i = Some s \/ i = zlen slots /\ s = mkSlot INITIAL_GENERATION None) as Hold.
    { intros i s Hs. pose proof (zget_Some _ _ _ Hs) as Hi. zsimp. destruct (decide (i = zlen slots)) as [->|].
      - rewrite zget_snoc in Hs. right. by simplify_eq.
      - left. rewrite zget_app_l in Hs; [done|]. lia. }
    assert (forall i s, slots !z i = Some s -> (slots ++ [mkSlot INITIAL_GENERATION None]) !z i = Some s) as Hnew.
    { intros i s Hs. rewrite zget_app_l; [done|]. apply zget_Some in Hs. lia. }
    destruct Hr. split; try done.
    + intros i s Hs. apply Hold in Hs as [Hs|[-> ->]]; [by eapply sr_generations0|]. simpl. unfold INITIAL_GENERATION. lia.
    + by apply NoDup_singleton.
    + intros i. split.
      * intros ->%list_elem_of_singleton. eexists. by rewrite zget_snoc.
      * intros (s & Hs & He). apply Hold in Hs as [Hs|[-> ->]]; [|set_solver].
        exfalso. apply (not_elem_of_nil i). apply sr_free0. eauto.
    + zsimp. lia.
    + intros k h o Hh Ho. destruct (sr_handle0 k h o Hh Ho) as (s & Hs & ?). exists s. auto.
    + intros i s r Hs He. apply Hold in Hs as [Hs|[-> ->]]; [by eapply sr_owner0|done].
Qed.

Lemma put_record_spec slots free hs os n i s (r : R) :
  slots_rel slots (free ++ [i]) hs os n -> slots !z i = Some s -> sl_record s = None -> i ∉ free ->
  exists slots', put_record slots i r = (slots', Ok (sl_generation s)) /\ zlen slots' = zlen slots /\
  slots_rel slots' free (hs ++ [(i, sl_generation s)]) (os ++ [Some r]) n.
Proof.
  intros Hr Hs He Hif. unfold put_record. rewrite Hs. eexists. split; [done|]. rewrite zlen_zset. split; [done|].
  pose proof (zget_Some _ _ _ Hs) as Hi. pose proof (sr_generations _ _ _ _ _ Hr i s Hs) as Hg.
  assert (forall k h o, hs !! k = Some h -> os !! k = Some o -> h <> (i, sl_generation s) /\ (is_Some o -> h.1 <> i)) as Hold.
  { intros k h o Hh Ho. destruct (sr_handle _ _ _ _ _ Hr k h o Hh Ho) as (s' & Hs' & _ & Hst). destruct o as [r'|].
    - destruct Hst as [_ Hst]. split; [intros ->|intros _ Heq; rewrite Heq in *]; simpl in *; congruence.
    - split; [intros ->; simpl in *; simplify_eq; lia|by intros []]. }
  assert (forall j s', (zset slots i (mkSlot (sl_generation s) (Some r))) !z j = Some s' ->
    j = i /\ s' = mkSlot (sl_generation s) (Some r) \/ j <> i /\ slots !z j = Some s') as Hget.
  { intros j s'. destruct (decide (j = i)) as [->|Hne].
    - rewrite zget_zset_eq by done. intros [= <-]. by left.
    - rewrite zget_zset_ne by done. by right. }
  destruct Hr. apply list.NoDup_app in sr_free_nodup0 as (Hnd & _ & _). split; try done.
  - intros j s' Hj. apply Hget in Hj as [[-> ->]|[_ Hj]]; [done|by eapply sr_generations0].
  - intros j. split.
    + intros Hj. destruct (proj1 (sr_free0 j)) as (s' & Hs' & He'); [set_solver|]. exists s'.
      rewrite zget_zset_ne; [done|]. set_solver.
    + intros (s' & Hs' & He'). apply Hget in Hs' as [[-> ->]|[Hne Hj]]; [done|].
      assert (j ∈ free ++ [i]) by (apply sr_free0; eauto). set_solver.
  - zsimp. rewrite n_live_snoc. lia.
  - rewrite !length_app. simpl. lia.
  - apply list.NoDup_app. split; [done|]. split; [|by apply NoDup_singleton].
    intros h Hin. apply list_elem_of_lookup in Hin as [k Hk].
    destruct (lookup_lt_is_Some_2 os k) as [o Ho]; [apply lookup_lt_Some in Hk; lia|].
    destruct (Hold k h o Hk Ho) as [Hne _]. set_solver.
  - intros k h o Hh Ho. apply lookup_app_Some in Hh as [Hh|[Hge Hh]].
    + rewrite lookup_app_l in Ho by (apply lookup_lt_Some in Hh; lia).
      destruct (sr_handle0 k h o Hh Ho) as (s' & Hs' & H1 & Hst).
      destruct (decide (h.1 = i)) as [Heq|Hne]; [|exists s'; by rewrite zget_zset_ne].
      destruct o as [r'|]; [by destruct (proj2 (Hold k h _ Hh Ho))|]. rewrite Heq in *. simplify_eq.
      eexists. rewrite zget_zset_eq by done. eauto.
    + rewrite lookup_app_r in Ho by lia. rewrite <- sr_length0 in Ho.
      destruct (k - length hs)%nat; [|done]. simplify_eq/=. eexists. rewrite zget_zset_eq by done.
      split; [done|]. simpl. split; [lia|done].
  - intros j s' r' Hj He'. apply Hget in Hj as [[-> ->]|[Hne Hj]].
    + simplify_eq/=. exists (length hs), (sl_generation s). split; [by apply list_lookup_middle|].
      rewrite sr_length0. by apply list_lookup_middle.
    + destruct (sr_owner0 j s' r' Hj He') as (k & g & Hh & Ho). exists k, g. split; by apply lookup_app_l_Some.
Qed.

Lemma checked_slot_live slots free hs os n k h r :
  slots_rel slots free hs os n -> hs !! k = Some h -> os !! k = Some (Some r) ->
  checked_slot true slots (h.1) (h.2) = Ok r.
Proof.
  intros Hr Hh Ho. destruct (sr_handle _ _ _ _ _ Hr k h _ Hh Ho) as (s & Hs & _ & Hg & He).
  unfold checked_slot. rewrite Hs. simpl. by rewrite Hg, Z.eqb_refl, He.
Qed.

Lemma checked_slot_stale slots free hs os n k h valid :
  slots_rel slots free hs os n -> hs !! k = Some h -> os !! k = Some None ->
  checked_slot valid slots (h.1) (h.2) = Err Renderer3dError.InvalidHandle.
Proof.
  intros Hr Hh Ho. destruct (sr_handle _ _ _ _ _ Hr k h _ Hh Ho) as (s & Hs & _ & Hg).
  unfold checked_slot. destruct valid; [|done]. rewrite Hs. simpl.
  by replace (sl_generation s =? h.2) with false by lia.
Qed.

Lemma next_generation_spec n : 0 <= n < U32_MAX -> next_generation n = n + 1.
Proof.
  unfold next_generation, U32_MAX. intros ?. rewrite checked_add_ok by (unfold umax; lia). simpl.
  by replace (n + 1 =? 0) with false by lia.
Qed.

Lemma remove_slot_live slots free hs os n k h r :
  slots_rel slots free hs os n -> n < U32_MAX -> hs !! k = Some h -> os !! k = Some (Some r) ->
  exists slots', remove_slot true true slots free (h.1) (h.2) = (slots', free ++ [h.1], Ok r) /\
  zlen slots' = zlen slots /\ slots_rel slots' (free ++ [h.1]) hs (<[k := None]> os) (n + 1).
Proof.
  intros Hr Hn Hh Ho. destruct (sr_handle _ _ _ _ _ Hr k h _ Hh Ho) as (s & Hs & H1 & Hg & He).
  pose proof (sr_generations _ _ _ _ _ Hr _ _ Hs) as Hgs. pose proof (zget_Some _ _ _ Hs) as Hi.
  unfold remove_slot. rewrite (checked_slot_live _ _ _ _ _ _ _ _ Hr Hh Ho). simpl.
  rewrite next_generation_spec by lia. eexists. split; [done|]. rewrite zlen_zset. split; [done|].
  assert (forall k' h' r', hs !! k' = Some h' -> os !! k' = Some (Some r') -> h'.1 = h.1 -> k' = k) as Hu
    by (intros k' h' r' ? ? ?; by eapply owner_unique).
  assert (h.1 ∉ free) as Hf.
  { intros Hin. apply (sr_free _ _ _ _ _ Hr) in Hin as (s' & Hs' & He'). congruence. }
  assert (forall j s', (zset slots (h.1) (mkSlot (h.2 + 1) (@None R))) !z j = Some s' ->
    j = h.1 /\ s' = mkSlot (h.2 + 1) None \/ j <> h.1 /\ slots !z j = Some s') as Hget.
  { intros j s'. destruct (decide (j = h.1)) as [->|Hne].
    - rewrite zget_zset_eq by done. intros [= <-]. by left.
    - rewrite zget_zset_ne by done. by right. }
  destruct Hr. split; try done.
  - intros j s' Hj. apply Hget in Hj as [[-> ->]|[_ Hj]]; [simpl; lia|]. specialize (sr_generations0 j s' Hj). lia.
  - apply list.NoDup_app. split; [done|]. split; [set_solver|by apply NoDup_singleton].
  - intros j. split.
    + intros [Hj| ->%list_elem_of_singleton]%elem_of_app.
      * destruct (proj1 (sr_free0 j) Hj) as (s' & Hs' & He'). exists s'. rewrite zget_zset_ne; [done|]. set_solver.
      * eexists. by rewrite zget_zset_eq.
    + intros (s' & Hs' & He'). apply Hget in Hs' as [[-> ->]|[Hne Hj]]; [set_solver|].
      assert (j ∈ free) by (apply sr_free0; eauto). set_solver.
  - zsimp. rewrite (n_live_insert _ _ _ None Ho). lia.
  - by rewrite length_insert.
  - intros k' h' o Hh' Ho'. apply list_lookup_insert_Some in Ho' as [(-> & <- & _)|[Hne Ho']].
    + simplify_eq. eexists. rewrite zget_zset_eq by done. split; [done|]. simpl. lia.
    + destruct (sr_handle0 k' h' o Hh' Ho') as (s' & Hs' & H1' & Hst).
      destruct (decide (h'.1 = h.1)) as [Heq|Hne']; [|exists s'; by rewrite zget_zset_ne].
      destruct o as [r'|]; [by destruct Hne; eapply eq_sym, Hu|].
      exists (mkSlot (h.2 + 1) None). rewrite Heq in *. rewrite zget_zset_eq by done. simplify_eq/=.
      split; [done|]. lia.
  - intros j s' r' Hj He'. apply Hget in Hj as [[-> ->]|[Hne Hj]]; [done|].
    destruct (sr_owner0 j s' r' Hj He') as (k' & g & Hh' & Ho'). exists k', g. split; [done|].
    rewrite list_lookup_insert_ne; [done|]. intros <-. simplify_eq/=.
Qed.
End SlotsRefine.

(** ** The mesh store

    What a mesh table promises: meshes are immutable and numbered in the order
    they were inserted; a removed one is gone but its bytes still count. *)
Record MeshData := {
  md_vertices : list Z;
  md_stride : Z;
  md_indices : list Z;
  md_bounds : vec4
}.

Abbreviation store := (list (MeshData * bool)%type).
Definition stream (f : MeshData -> list Z) (ds : list MeshData) : list Z := concat (map f ds).

(** The record of the [k]-th mesh: its ranges of the upload streams. *)
Definition record_at (ds : list MeshData) (k : nat) (d : MeshData) : MeshRecord :=
  {| me_vertex_offset := zlen (stream md_vertices (take k ds));
     me_vertex_bytes := zlen (md_vertices d);
     me_vertex_stride := md_stride d;
     me_vertex_count := zlen (md_vertices d) / md_stride d;
     me_index_offset := zlen (stream md_indices (take k ds));
     me_index_bytes := zlen (md_indices d);
     me_index_count := zlen (md_indices d) / 4;
     me_bounds := md_bounds d |}.

Definition store_records (st : store) : objects MeshRecord :=
  imap (fun k (p : MeshData * bool) => if p.2 then Some (record_at (map fst st) k p.1) else None) st.

Inductive mesh_event :=
| MeshInsert (ok : bool) (d : MeshData)
| MeshRemove (ok : bool) (k : nat)
| MeshRead (k : nat).

Inductive mesh_answer :=
| AInserted (r : result Renderer3dError unit)
| ARemoved (r : result Renderer3dError MeshRecord)
| ARead (record : result Renderer3dError MeshRecord) (vertices indices : result Renderer3dError (list Z)).

Definition store_exec (max max_vertex max_index : Z) (st : store) (ev : mesh_event) : store * mesh_answer :=
  match ev with
  | MeshInsert _ d =>
      match validate_mesh_input (md_vertices d) (md_stride d) (md_indices d) (md_bounds d) with
      | Err e => (st, AInserted (Err e))
      | Ok _ =>
          if (max <=? n_live (store_records st)) ||
             (max_vertex <? zlen (stream md_vertices (map fst st)) + zlen (md_vertices d)) ||
             (max_index <? zlen (stream md_indices (map fst st)) + zlen (md_indices d))
          then (st, AInserted (Err Renderer3dError.CapacityExceeded))
          else if (U32_MAX <? zlen (md_vertices d) / md_stride d) || (U32_MAX <? zlen (md_indices d) / 4)
          then (st, AInserted (Err Renderer3dError.IntegerOverflow))
          else (st ++ [(d, true)], AInserted (Ok tt))
      end
  | MeshRemove ok k =>
      match st !! k with
      | Some (d, true) =>
          if ok then (<[k := (d, false)]> st, ARemoved (Ok (record_at (map fst st) k d)))
          else (st, ARemoved (Err Renderer3dError.AllocationFailed))
      | _ => (st, ARemoved (Err Renderer3dError.InvalidHandle))
      end
  | MeshRead k =>
      match st !! k with
      | Some (d, true) => (st, ARead (Ok (record_at (map fst st) k d)) (Ok (md_vertices d)) (Ok (md_indices d)))
      | _ => (st, ARead (Err Renderer3dError.InvalidHandle) (Err Renderer3dError.InvalidHandle)
                    (Err Renderer3dError.InvalidHandle))
      end
  end.

(** The table under the same events; a number not issued yet stands for
    [MeshHandle::INVALID]. *)
Definition nth_mesh (hs : list MeshHandle) (k : nat) : MeshHandle := default MeshHandle_INVALID (hs !! k).

Definition mesh_exec (s : MeshTable * list MeshHandle) (ev : mesh_event) :
    MeshTable * list MeshHandle * mesh_answer :=
  let '(t, hs) := s in
  match ev with
  | MeshInsert ok d =>
      match mesh_try_insert ok t (md_vertices d) (md_stride d) (md_indices d) (md_bounds d) with
      | (t, Ok h) => (t, hs ++ [h], AInserted (Ok tt))
      | (t, Err e) => (t, hs, AInserted (Err e))
      end
  | MeshRemove ok k => let '(t, r) := mesh_remove ok t (nth_mesh hs k) in (t, hs, ARemoved r)
  | MeshRead k =>
      let h := nth_mesh hs k in
      (t, hs, ARead (mesh_get t h) (mesh_vertex_bytes t h) (mesh_index_bytes t h))
  end.

Fixpoint store_run max max_vertex max_index (st : store) (evs : list mesh_event) : store * list mesh_answer :=
  match evs with
  | [] => (st, [])
  | ev :: evs =>
      let '(st, a) := store_exec max max_vertex max_index st ev in
      let '(st, l) := store_run max max_vertex max_index st evs in (st, a :: l)
  end.

Fixpoint mesh_run (s : MeshTable * list MeshHandle) (evs : list mesh_event) :
    MeshTable * list MeshHandle * list mesh_answer :=
  match evs with
  | [] => (s, [])
  | ev :: evs => let '(s, a) := mesh_exec s ev in let '(s, l) := mesh_run s evs in (s, a :: l)
  end.

(** A byte slice is at most [isize::MAX] long. *)
Definition mesh_event_ok (ev : mesh_event) : Prop :=
  match ev with MeshInsert _ d => zlen (md_vertices d) <= I64_MAX /\ zlen (md_indices d) <= I64_MAX | _ => True end.

Definition mesh_pair (h : MeshHandle) : Z * Z := (mh_index h, mh_generation h).

Record mesh_rel (t : MeshTable) (hs : list MeshHandle) (st : store) (n : Z) : Prop := {
  mr_slots : slots_rel (mt_slots t) (mt_free t) (map mesh_pair hs) (store_records st) n;
  mr_vertices : mt_vertex_data t = stream md_vertices (map fst st);
  mr_indices : mt_index_data t = stream md_indices (map fst st);
  mr_max : zlen (mt_slots t) <= Z.max 0 (mt_max_meshes t) <= U32_MAX;
  mr_vertex_max : zlen (mt_vertex_data t) <= mt_max_vertex_bytes t <= I64_MAX;
  mr_index_max : zlen (mt_index_data t) <= mt_max_index_bytes t <= I64_MAX
}.

Lemma store_records_snoc (st : store) d :
  store_records (st ++ [(d, true)]) = store_records st ++ [Some (record_at (map fst st) (length st) d)].
Proof.
  unfold store_records. rewrite imap_app. simpl. f_equal.
  - apply imap_ext. intros k [d' b] Hk. simpl. destruct b; [|done]. f_equal. unfold record_at.
    apply lookup_lt_Some in Hk. rewrite map_app, take_app_le; [done|]. rewrite length_map. lia.
  - rewrite Nat.add_0_r. do 2 f_equal. unfold record_at. rewrite map_app, take_app_length'; [|by rewrite length_map].
    by rewrite firstn_all2 by (rewrite length_map; lia).
Qed.

Lemma store_records_remove (st : store) k d : st !! k = Some (d, true) ->
  store_records (<[k := (d, false)]> st) = <[k := None]> (store_records st).
Proof.
  intros Hk. unfold store_records. apply list_eq. intros j.
  replace (map fst (<[k:=(d, false)]> st)) with (map fst st).
  2: { change (fst <$> st = fst <$> (<[k:=(d, false)]> st)). rewrite list_fmap_insert. simpl. symmetry.
       apply list_insert_id. by rewrite list_lookup_fmap, Hk. }
  destruct (decide (j = k)) as [->|Hne].
  - rewrite list_lookup_insert_eq by (rewrite length_imap; by apply lookup_lt_Some in Hk).
    rewrite list_lookup_imap, list_lookup_insert_eq; [done|]. by apply lookup_lt_Some in Hk.
  - by rewrite list_lookup_imap, !list_lookup_insert_ne, list_lookup_imap by done.
Qed.

Lemma store_records_lookup (st : store) k :
  store_records st !! k = (fun p : MeshData * bool => if p.2 then Some (record_at (map fst st) k p.1) else None) <$> st !! k.
Proof. apply list_lookup_imap. Qed.

Lemma stream_snoc f (ds : list MeshData) d : stream f (ds ++ [d]) = stream f ds ++ f d.
Proof. unfold stream. rewrite map_app, concat_app. simpl. by rewrite app_nil_r. Qed.

Lemma stream_range f ds k d : ds !! k = Some d -> zlen (stream f ds) <= U64_MAX ->
  range_of (stream f ds) (zlen (stream f (take k ds))) (zlen (f d)) = Ok (f d).
Proof.
  intros Hk Hm. rewrite <- (take_drop_middle ds k d Hk) in Hm |- * at 1. unfold stream in *.
  rewrite map_app, concat_app in *. simpl in *. rewrite !zlen_app in Hm. pose proof (zlen_nonneg (concat (map f (drop (S k) ds)))).
  unfold range_of. rewrite checked_add_ok by (unfold umax, U64_MAX in *; lia). simpl. zsimp.
  destruct (Z.leb_spec (zlen (concat (map f (take k ds))) + zlen (f d))
    (zlen (concat (map f (take k ds))) + (zlen (f d) + zlen (concat (map f (drop (S k) ds)))))); [|lia].
  unfold zlen. rewrite !Nat2Z.id, drop_app_length. by rewrite take_app_length.
Qed.

Lemma mesh_length t hs st n : mesh_rel t hs st n -> length hs = length st.
Proof.
  intros Hr. pose proof (sr_length _ _ _ _ _ (mr_slots _ _ _ _ Hr)) as Hl.
  unfold store_records in Hl. by rewrite length_map, length_imap in Hl.
Qed.

Lemma mesh_len_live t hs st n : mesh_rel t hs st n -> mesh_len t = n_live (store_records st).
Proof. intros Hr. pose proof (sr_count _ _ _ _ _ (mr_slots _ _ _ _ Hr)). unfold mesh_len. lia. Qed.

(** An issued handle passes [is_valid]. *)
Lemma mesh_issued t hs st n k h : mesh_rel t hs st n -> hs !! k = Some h -> mesh_handle_is_valid h = true.
Proof.
  intros Hr Hh. pose proof (mesh_length _ _ _ _ Hr) as Hl.
  destruct (lookup_lt_is_Some_2 (store_records st) k) as [o Ho].
  { unfold store_records. rewrite length_imap, <- Hl. by apply lookup_lt_Some in Hh. }
  destruct (sr_handle _ _ _ _ _ (mr_slots _ _ _ _ Hr) k (mesh_pair h) o) as (s & Hs & Hg & _);
    [by rewrite list_lookup_fmap, Hh|done|].
  apply zget_Some in Hs. pose proof (mr_max _ _ _ _ Hr). unfold mesh_handle_is_valid. cbn in *.
  assert (0 < mt_max_meshes t) by lia. lia.
Qed.

Lemma mesh_get_spec t hs st n k : mesh_rel t hs st n ->
  mesh_get t (nth_mesh hs k) =
  match st !! k with
  | Some (d, true) => Ok (record_at (map fst st) k d)
  | _ => Err Renderer3dError.InvalidHandle
  end.
Proof.
  intros Hr. unfold mesh_get, nth_mesh. destruct (hs !! k) as [h|] eqn:Hh; simpl.
  - rewrite (mesh_issued _ _ _ _ _ _ Hr Hh). pose proof (mr_slots _ _ _ _ Hr) as Hs.
    assert (map mesh_pair hs !! k = Some (mesh_pair h)) as Hp by by rewrite list_lookup_fmap, Hh.
    destruct (lookup_lt_is_Some_2 st k) as [[d [|]] Hd].
    { rewrite <- (mesh_length _ _ _ _ Hr). by apply lookup_lt_Some in Hh. }
    + rewrite Hd. apply (checked_slot_live _ _ _ _ _ k (mesh_pair h) _ Hs Hp).
      by rewrite store_records_lookup, Hd.
    + rewrite Hd. apply (checked_slot_stale _ _ _ _ _ k (mesh_pair h) true Hs Hp).
      by rewrite store_records_lookup, Hd.
  - replace (st !! k) with (@None (MeshData * bool)); [done|]. symmetry. apply lookup_ge_None.
    rewrite <- (mesh_length _ _ _ _ Hr). by apply lookup_ge_None.
Qed.

Lemma mesh_read_refines t hs st n k : mesh_rel t hs st n ->
  mesh_exec (t, hs) (MeshRead k) = (t, hs, (store_exec (mt_max_meshes t) (mt_max_vertex_bytes t)
    (mt_max_index_bytes t) st (MeshRead k)).2).
Proof.
  intros Hr. cbn [mesh_exec store_exec]. unfold mesh_vertex_bytes, mesh_index_bytes.
  rewrite (mesh_get_spec _ _ _ _ _ Hr), (mr_vertices _ _ _ _ Hr), (mr_indices _ _ _ _ Hr).
  destruct (st !! k) as [[d [|]]|] eqn:Hd; try done. cbn [result_bind].
  assert (map fst st !! k = Some d) as Hk by by rewrite list_lookup_fmap, Hd.
  pose proof (mr_vertex_max _ _ _ _ Hr) as Hv. pose proof (mr_index_max _ _ _ _ Hr) as Hi.
  rewrite (mr_vertices _ _ _ _ Hr) in Hv. rewrite (mr_indices _ _ _ _ Hr) in Hi.
  unfold record_at at 2 3 4 5. cbn.
  rewrite !stream_range by (done || unfold I64_MAX, U64_MAX in *; lia). done.
Qed.

Lemma mesh_remove_refines t hs st n k ok : mesh_rel t hs st n -> n < U32_MAX ->
  let out := store_exec (mt_max_meshes t) (mt_max_vertex_bytes t) (mt_max_index_bytes t) st (MeshRemove ok k) in
  exists t', mesh_exec (t, hs) (MeshRemove ok k) = (t', hs, out.2) /\ mesh_rel t' hs out.1 (n + 1) /\
  (mt_max_meshes t', mt_max_vertex_bytes t', mt_max_index_bytes t') =
  (mt_max_meshes t, mt_max_vertex_bytes t, mt_max_index_bytes t).
Proof.
  intros Hr Hn out. pose proof (mesh_get_spec _ _ _ _ k Hr) as Hg. unfold mesh_get in Hg.
  assert (mesh_rel t hs st (n + 1)) as Hr1.
  { destruct Hr. split; try done. eapply slots_rel_weaken; [|done]. lia. }
  subst out. cbn [mesh_exec store_exec]. unfold mesh_remove.
  destruct (st !! k) as [[d [|]]|] eqn:Hd.
  2, 3: unfold remove_slot; rewrite Hg; exists t; by destruct t.
  destruct ok; [|unfold remove_slot; rewrite Hg; exists t; by destruct t].
  destruct (lookup_lt_is_Some_2 hs k) as [h Hh].
  { rewrite (mesh_length _ _ _ _ Hr). by apply lookup_lt_Some in Hd. }
  unfold nth_mesh. rewrite Hh. simpl. rewrite (mesh_issued _ _ _ _ _ _ Hr Hh).
  destruct (remove_slot_live _ _ _ _ _ k (mesh_pair h) (record_at (map fst st) k d) (mr_slots _ _ _ _ Hr) Hn)
    as (slots' & He & Hl & Hs').
  { by rewrite list_lookup_fmap, Hh. } { by rewrite store_records_lookup, Hd. }
  simpl in He. rewrite He. eexists. split; [done|]. split; [|done].
  assert (map fst (<[k := (d, false)]> st) = map fst st) as Hm.
  { change (fst <$> (<[k:=(d, false)]> st) = fst <$> st). rewrite list_fmap_insert. simpl.
    apply list_insert_id. by rewrite list_lookup_fmap, Hd. }
  destruct Hr. split; cbn; rewrite ?Hm, ?Hl; try done. by rewrite (store_records_remove _ _ _ Hd).
Qed.

Lemma mesh_insert_refines t hs st n ok d : mesh_rel t hs st n -> 1 <= n -> mesh_event_ok (MeshInsert ok d) ->
  let out := store_exec (mt_max_meshes t) (mt_max_vertex_bytes t) (mt_max_index_bytes t) st (MeshInsert ok d) in
  exists t' hs', mesh_exec (t, hs) (MeshInsert ok d) = (t', hs', out.2) /\ mesh_rel t' hs' out.1 n /\
  (mt_max_meshes t', mt_max_vertex_bytes t', mt_max_index_bytes t') =
  (mt_max_meshes t, mt_max_vertex_bytes t, mt_max_index_bytes t).
Proof.
  intros Hr Hn [Hv Hi] out. subst out. cbn [mesh_exec store_exec]. unfold mesh_try_insert.
  pose proof (mr_vertices _ _ _ _ Hr) as Ev. pose proof (mr_indices _ _ _ _ Hr) as Ei.
  rewrite <- Ev, <- Ei. rewrite (mesh_len_live _ _ _ _ Hr). pose proof (mr_vertex_max _ _ _ _ Hr).
  pose proof (mr_index_max _ _ _ _ Hr). pose proof (mr_max _ _ _ _ Hr).
  destruct (validate_mesh_input _ _ _ _) as [[]|e]; [|by exists t, hs]. cbn [result_bind].
  destruct (Z.leb_spec (mt_max_meshes t) (n_live (store_records st))) as [|Hlive]; [by exists t, hs|]. cbn [orb].
  rewrite !checked_add_ok by (unfold umax, I64_MAX in *; lia). cbn [ok_or result_bind].
  destruct (_ || _) eqn:Hcap; [by exists t, hs|]. unfold u32_try_from.
  apply orb_false_iff in Hcap as [Hc1 Hc2]. zbool.
  destruct (Z.leb_spec (zlen (md_vertices d) / md_stride d) U32_MAX), (Z.ltb_spec U32_MAX (zlen (md_vertices d) / md_stride d));
    try lia; cbn [result_bind]; [|by exists t, hs].
  destruct (Z.leb_spec (zlen (md_indices d) / 4) U32_MAX), (Z.ltb_spec U32_MAX (zlen (md_indices d) / 4));
    try lia; cbn [result_bind orb]; [|by exists t, hs].
  destruct (claim_slot_spec _ _ _ _ _ (mt_max_meshes t) ok (mr_slots _ _ _ _ Hr) Hn Hlive)
    as (slots & free & i & s & -> & Hs & He & Hif & Hl & Hrel); [lia|]. cbn [fst snd].
  destruct (put_record_spec _ _ _ _ _ _ _ (record_at (map fst st) (length st) d) Hrel Hs He Hif) as (slots' & Hput & Hl' & Hrel').
  assert (take (length st) (map fst st) = map fst st) as Htake by (apply firstn_all2; by rewrite length_map).
  unfold record_at in Hput. rewrite Htake, <- Ev, <- Ei in Hput. rewrite Hput.
  do 2 eexists. split; [done|]. split; [|done]. split; cbn; rewrite ?map_app, ?zlen_app; cbn [map fst]; rewrite ?stream_snoc; try congruence; try lia.
  rewrite store_records_snoc. exact Hrel'.
Qed.

Definition limits (t : MeshTable) : Z * Z * Z :=
  (mt_max_meshes t, mt_max_vertex_bytes t, mt_max_index_bytes t).

Lemma mesh_run_refines max max_vertex max_index evs : Forall mesh_event_ok evs -> forall t hs st n,
  mesh_rel t hs st n -> 1 <= n -> n + zlen evs <= U32_MAX -> limits t = (max, max_vertex, max_index) ->
  exists t' hs', mesh_run (t, hs) evs = (t', hs', (store_run max max_vertex max_index st evs).2) /\
  mesh_rel t' hs' (store_run max max_vertex max_index st evs).1 (n + zlen evs) /\
  limits t' = (max, max_vertex, max_index).
Proof.
  unfold limits. induction 1 as [|ev evs Hev _ IH]; intros t hs st n Hr Hn Hb Hlim.
  - exists t, hs. split_and!; try done. by rewrite Z.add_0_r.
  - rewrite zlen_cons in Hb. pose proof (zlen_nonneg evs). simplify_eq.
    assert (exists t' hs', mesh_exec (t, hs) ev = (t', hs', (store_exec (mt_max_meshes t) (mt_max_vertex_bytes t) (mt_max_index_bytes t) st ev).2)
      /\ mesh_rel t' hs' (store_exec (mt_max_meshes t) (mt_max_vertex_bytes t) (mt_max_index_bytes t) st ev).1 (n + 1) /\
      (mt_max_meshes t', mt_max_vertex_bytes t', mt_max_index_bytes t') =
      (mt_max_meshes t, mt_max_vertex_bytes t, mt_max_index_bytes t)) as (t1 & hs1 & He & Hr1 & Hl1).
    { destruct ev as [ok d|ok k|k].
      - destruct (mesh_insert_refines _ _ _ _ ok d Hr Hn Hev) as (t' & hs' & He & Hr' & Hl). exists t', hs'.
        split_and!; try done. destruct Hr'. split; try done. eapply slots_rel_weaken; [|done]. lia.
      - destruct (mesh_remove_refines _ _ _ _ k ok Hr) as (t' & He & Hr' & Hl); [lia|]. by exists t', hs.
      - exists t, hs. rewrite (mesh_read_refines _ _ _ _ _ Hr). split_and!; try done. cbn [store_exec].
        destruct Hr. repeat case_match; split; try done; (eapply slots_rel_weaken; [|done]; lia). }
    cbn [mesh_run store_run]. rewrite He. destruct (store_exec _ _ _ st ev) as [st1 a]. cbn [fst snd] in *.
    destruct (IH t1 hs1 st1 (n + 1) Hr1) as (t' & hs' & Hrun & Hr' & Hl'); [lia|lia|congruence|].
    rewrite Hrun. destruct (store_run _ _ _ st1 evs) as [st2 l]. cbn [fst snd] in *.
    exists t', hs'. split_and!; try done. rewrite zlen_cons. by replace (n + (zlen evs + 1)) with (n + 1 + zlen evs) by lia.
Qed.

(** C30: A mesh table answers any sequence of insertions, removals and reads
    (shorter than the generations last) exactly like the store of immutable
    meshes, error codes included: a live handle yields the bytes inserted under
    it, a removed or unknown one is refused, rejected input changes nothing.
    The upload streams are the bytes of every mesh ever inserted: removal
    reclaims none. *)
Theorem mesh_store_refines (A : alloc) (max max_vertex max_index : Z) (t : MeshTable) (evs : list mesh_event)
    (Hnew : mesh_try_with_capacity A max max_vertex max_index = Ok t)
    (Hmax : max <= U32_MAX) (Hv : 0 <= max_vertex <= I64_MAX) (Hi : 0 <= max_index <= I64_MAX)
    (Hevs : Forall mesh_event_ok evs) (Hlen : zlen evs < U32_MAX) :
  let '(st, answers) := store_run max max_vertex max_index [] evs in
  exists t' hs', mesh_run (t, []) evs = (t', hs', answers) /\
  mesh_len t' = n_live (store_records st) /\
  mt_vertex_data t' = stream md_vertices (map fst st) /\
  mt_index_data t' = stream md_indices (map fst st).
Proof.
  assert (t = {| mt_slots := []; mt_free := []; mt_vertex_data := []; mt_index_data := [];
                 mt_max_meshes := max; mt_max_vertex_bytes := max_vertex; mt_max_index_bytes := max_index |}) as ->.
  { unfold mesh_try_with_capacity in Hnew. repeat case_match; congruence. }
  destruct (mesh_run_refines max max_vertex max_index evs Hevs
    {| mt_slots := []; mt_free := []; mt_vertex_data := []; mt_index_data := [];
       mt_max_meshes := max; mt_max_vertex_bytes := max_vertex; mt_max_index_bytes := max_index |} [] [] 1)
    as (t' & hs' & Hrun & Hr & _); try done; try lia.
  { split; cbn; try done; [apply slots_rel_nil|..]; zsimp; unfold U32_MAX in *; lia. }
  destruct (store_run max max_vertex max_index [] evs) as [st answers]. cbn [fst snd] in *. exists t', hs'.
  split; [done|]. split; [by eapply mesh_len_live|]. split; [apply (mr_vertices _ _ _ _ Hr)|apply (mr_indices _ _ _ _ Hr)].
Qed.

Definition demo_mesh : MeshData :=
  {| md_vertices := replicate 12 7; md_stride := 12; md_indices := [0; 0; 0; 0];
     md_bounds := (f32_zero, f32_zero, f32_zero, f32_one) |}.

Lemma mesh_store_refines_witness :
  let evs := [MeshInsert true demo_mesh; MeshRemove true 0; MeshRead 0; MeshInsert true demo_mesh; MeshRead 1] in
  let '(st, answers) := store_run 1 24 8 [] evs in
  exists t' hs', mesh_run (default {| mt_slots := []; mt_free := []; mt_vertex_data := []; mt_index_data := [];
      mt_max_meshes := 0; mt_max_vertex_bytes := 0; mt_max_index_bytes := 0 |}
      (match mesh_try_with_capacity alloc_all 1 24 8 with Ok t => Some t | Err _ => None end), []) evs = (t', hs', answers) /\
  mesh_len t' = n_live (store_records st) /\
  mt_vertex_data t' = stream md_vertices (map fst st) /\
  mt_index_data t' = stream md_indices (map fst st).
Proof.
  apply (mesh_store_refines alloc_all 1 24 8); try done.
  repeat constructor; vm_compute; congruence.
Defined.

(** Inserting and removing one mesh uses up the byte budget: an empty table
    refuses the mesh it held. *)
Example removed_bytes_not_reclaimed :
  match mesh_try_with_capacity alloc_all 1 12 4 with
  | Ok t =>
      let '(t, _, answers) := mesh_run (t, []) [MeshInsert true demo_mesh; MeshRemove true 0; MeshInsert true demo_mesh] in
      mesh_len t = 0 /\ list.last answers = Some (AInserted (Err Renderer3dError.CapacityExceeded))
  | Err _ => False
  end.
Proof. vm_compute. done. Qed.

(** ** Materials *)
Inductive material_event :=
| MaterialInsert (ok : bool) (r : MaterialRecord)
| MaterialRemove (ok : bool) (k : nat)
| MaterialGet (k : nat).

Abbreviation material_answer := (result Renderer3dError (option MaterialRecord)).

(** The abstract table: the materials in the order of insertion, [None] once
    removed. *)
Definition materials_exec (max : Z) (os : objects MaterialRecord) (ev : material_event) :
    objects MaterialRecord * material_answer :=
  match ev with
  | MaterialInsert _ r =>
      if (n_live os <? max) && material_valid r then (os ++ [Some r], Ok None)
      else (os, Err Renderer3dError.CapacityExceeded)
  | MaterialRemove ok k =>
      match os !! k with
      | Some (Some r) =>
          if ok then (<[k := None]> os, Ok (Some r)) else (os, Err Renderer3dError.AllocationFailed)
      | _ => (os, Err Renderer3dError.InvalidHandle)
      end
  | MaterialGet k =>
      match os !! k with
      | Some (Some r) => (os, Ok (Some r))
      | _ => (os, Err Renderer3dError.InvalidHandle)
      end
  end.

Definition nth_material (hs : list MaterialHandle) (k : nat) : MaterialHandle :=
  default MaterialHandle_INVALID (hs !! k).

Definition material_exec (s : MaterialTable * list MaterialHandle) (ev : material_event) :
    MaterialTable * list MaterialHandle * material_answer :=
  let '(t, hs) := s in
  match ev with
  | MaterialInsert ok r =>
      match material_try_insert ok t r with
      | (t, Ok h) => (t, hs ++ [h], Ok None)
      | (t, Err e) => (t, hs, Err e)
      end
  | MaterialRemove ok k => let '(t, r) := material_remove ok t (nth_material hs k) in (t, hs, let? m := r in Ok (Some m))
  | MaterialGet k => (t, hs, let? m := material_get t (nth_material hs k) in Ok (Some m))
  end.

Fixpoint materials_run (max : Z) (os : objects MaterialRecord) (evs : list material_event) :
    objects MaterialRecord * list material_answer :=
  match evs with
  | [] => (os, [])
  | ev :: evs =>
      let '(os, a) := materials_exec max os ev in let '(os, l) := materials_run max os evs in (os, a :: l)
  end.

Fixpoint material_run (s : MaterialTable * list MaterialHandle) (evs : list material_event) :
    MaterialTable * list MaterialHandle * list material_answer :=
  match evs with
  | [] => (s, [])
  | ev :: evs => let '(s, a) := material_exec s ev in let '(s, l) := material_run s evs in (s, a :: l)
  end.

Definition material_pair (h : MaterialHandle) : Z * Z := (ml_index h, ml_generation h).

Record material_rel (max : Z) (t : MaterialTable) (hs : list MaterialHandle) (os : objects MaterialRecord)
    (n : Z) : Prop := {
  ma_slots : slots_rel (ml_slots t) (ml_free t) (map material_pair hs) os n;
  ma_max : zlen (ml_slots t) <= Z.max 0 (ml_max_materials t) <= U32_MAX;
  ma_limit : ml_max_materials t = max;
  ma_valid k r : os !! k = Some (Some r) -> material_valid r = true
}.

Lemma material_rel_weaken max t hs os n : material_rel max t hs os n -> material_rel max t hs os (n + 1).
Proof. intros []. split; try done. eapply slots_rel_weaken; [|done]. lia. Qed.

Lemma material_issued max t hs os n k h : material_rel max t hs os n -> hs !! k = Some h ->
  material_handle_is_valid h = true /\ is_Some (os !! k).
Proof.
  intros Hr Hh. pose proof (sr_length _ _ _ _ _ (ma_slots _ _ _ _ _ Hr)) as Hl. rewrite length_map in Hl.
  destruct (lookup_lt_is_Some_2 os k) as [o Ho]; [rewrite <- Hl; by apply lookup_lt_Some in Hh|].
  destruct (sr_handle _ _ _ _ _ (ma_slots _ _ _ _ _ Hr) k (material_pair h) o) as (s & Hs & Hg & _);
    [by rewrite list_lookup_fmap, Hh|done|].
  apply zget_Some in Hs. pose proof (ma_max _ _ _ _ _ Hr). unfold material_handle_is_valid. cbn in *.
  assert (0 < ml_max_materials t) by lia. split; [lia|by rewrite Ho].
Qed.

Lemma material_get_spec max t hs os n k : material_rel max t hs os n ->
  material_get t (nth_material hs k) =
  match os !! k with Some (Some r) => Ok r | _ => Err Renderer3dError.InvalidHandle end.
Proof.
  intros Hr. unfold material_get, nth_material. pose proof (ma_slots _ _ _ _ _ Hr) as Hs.
  destruct (hs !! k) as [h|] eqn:Hh; simpl.
  - destruct (material_issued _ _ _ _ _ _ _ Hr Hh) as [-> [o Ho]].
    assert (map material_pair hs !! k = Some (material_pair h)) as Hp by by rewrite list_lookup_fmap, Hh.
    rewrite Ho. destruct o as [r|].
    + exact (checked_slot_live _ _ _ _ _ k (material_pair h) r Hs Hp Ho).
    + exact (checked_slot_stale _ _ _ _ _ k (material_pair h) true Hs Hp Ho).
  - replace (os !! k) with (@None (option MaterialRecord)); [done|]. symmetry. apply lookup_ge_None.
    pose proof (sr_length _ _ _ _ _ Hs) as Hl. rewrite length_map in Hl. rewrite <- Hl. by apply lookup_ge_None.
Qed.

Lemma material_insert_refines max t hs os n ok r : material_rel max t hs os n -> 1 <= n ->
  let out := materials_exec max os (MaterialInsert ok r) in
  exists t' hs', material_exec (t, hs) (MaterialInsert ok r) = (t', hs', out.2) /\ material_rel max t' hs' out.1 n.
Proof.
  intros Hr Hn. pose proof (sr_count _ _ _ _ _ (ma_slots _ _ _ _ _ Hr)). pose proof (ma_max _ _ _ _ _ Hr).
  pose proof (ma_limit _ _ _ _ _ Hr) as Hlim. cbn [material_exec materials_exec]. unfold material_try_insert.
  replace (ml_max_materials t <=? material_len t) with (negb (n_live os <? max)) by (unfold material_len; lia).
  destruct (Z.ltb_spec (n_live os) max) as [Hlive|]; [|by exists t, hs].
  destruct (material_valid r) eqn:Hval; [|by exists t, hs]. cbn [orb negb andb].
  destruct (claim_slot_spec _ _ _ _ _ (ml_max_materials t) ok (ma_slots _ _ _ _ _ Hr) Hn)
    as (slots & free & i & s & -> & Hs & He & Hif & Hl & Hrel); [lia|lia|].
  destruct (put_record_spec _ _ _ _ _ _ _ r Hrel Hs He Hif) as (slots' & -> & Hl' & Hrel').
  do 2 eexists. split; [done|]. split; cbn; rewrite ?map_app; try done; [lia|].
  intros k m [Hk|[_ Hk]]%lookup_app_Some; [by eapply ma_valid|].
  by apply list_lookup_singleton_Some in Hk as [_ [= <-]].
Qed.

Lemma material_remove_refines max t hs os n ok k : material_rel max t hs os n -> n < U32_MAX ->
  let out := materials_exec max os (MaterialRemove ok k) in
  exists t', material_exec (t, hs) (MaterialRemove ok k) = (t', hs, out.2) /\ material_rel max t' hs out.1 (n + 1).
Proof.
  intros Hr Hn. pose proof (material_get_spec _ _ _ _ _ k Hr) as Hg. unfold material_get in Hg.
  pose proof (material_rel_weaken _ _ _ _ _ Hr) as Hr1. cbn [material_exec materials_exec]. unfold material_remove.
  destruct (os !! k) as [[r|]|] eqn:Ho.
  2, 3: unfold remove_slot; rewrite Hg; exists t; by destruct t.
  destruct ok; [|unfold remove_slot; rewrite Hg; exists t; by destruct t].
  pose proof (sr_length _ _ _ _ _ (ma_slots _ _ _ _ _ Hr)) as Hl. rewrite length_map in Hl.
  destruct (lookup_lt_is_Some_2 hs k) as [h Hh]; [rewrite Hl; by apply lookup_lt_Some in Ho|].
  unfold nth_material. rewrite Hh. simpl. destruct (material_issued _ _ _ _ _ _ _ Hr Hh) as [-> _].
  destruct (remove_slot_live _ _ _ _ _ k (material_pair h) r (ma_slots _ _ _ _ _ Hr) Hn) as (slots' & He & Hlen & Hs');
    [by rewrite list_lookup_fmap, Hh|done|]. simpl in He. rewrite He.
  eexists. split; [done|]. destruct Hr. split; cbn; rewrite ?Hlen; try done.
  intros j m [(-> & ? & _)|[_ Hj]]%list_lookup_insert_Some; [done|by eapply ma_valid0].
Qed.

Lemma material_run_refines max evs : forall t hs os n, material_rel max t hs os n -> 1 <= n -> n + zlen evs <= U32_MAX ->
  exists t' hs', material_run (t, hs) evs = (t', hs', (materials_run max os evs).2) /\
  material_rel max t' hs' (materials_run max os evs).1 (n + zlen evs).
Proof.
  induction evs as [|ev evs IH]; intros t hs os n Hr Hn Hb.
  - exists t, hs. split; [done|]. by rewrite Z.add_0_r.
  - rewrite zlen_cons in *. pose proof (zlen_nonneg evs).
    assert (exists t' hs', material_exec (t, hs) ev = (t', hs', (materials_exec max os ev).2) /\
      material_rel max t' hs' (materials_exec max os ev).1 (n + 1)) as (t1 & hs1 & He & Hr1).
    { destruct ev as [ok r|ok k|k].
      - destruct (material_insert_refines max t hs os n ok r Hr Hn) as (t' & hs' & He & Hr').
        exists t', hs'. split; [done|]. by apply material_rel_weaken.
      - destruct (material_remove_refines max t hs os n ok k Hr) as (t' & He & Hr'); [lia|]. by exists t', hs.
      - exists t, hs. apply material_rel_weaken in Hr as Hr1. cbn [material_exec materials_exec].
        rewrite (material_get_spec _ _ _ _ _ k Hr). by repeat case_match. }
    cbn [material_run materials_run]. rewrite He. destruct (materials_exec max os ev) as [os1 a]. cbn [fst snd] in *.
    destruct (IH t1 hs1 os1 (n + 1) Hr1) as (t' & hs' & Hrun & Hr'); [lia|lia|]. rewrite Hrun.
    destruct (materials_run max os1 evs) as [os2 l]. cbn [fst snd] in *. exists t', hs'. split; [done|].
    by replace (n + (zlen evs + 1)) with (n + 1 + zlen evs) by lia.
Qed.

(** A material table answers any sequence of operations (shorter than the
    generations last) like the abstract table, whose capacity counts live
    materials only, and every material it holds is finite with metallic and
    roughness in [0, 1]. *)
Theorem material_table_refines (A : alloc) (max : Z) (t : MaterialTable) (evs : list material_event)
    (Hnew : material_try_with_capacity A max = Ok t) (Hmax : max <= U32_MAX) (Hlen : zlen evs < U32_MAX) :
  let '(os, answers) := materials_run max [] evs in
  exists t' hs', material_run (t, []) evs = (t', hs', answers) /\ material_len t' = n_live os /\
  (forall k r, material_get t' (nth_material hs' k) = Ok r ->
    forallb is_finite (components (ma_base_color r)) = true /\
    in_unit (ma_metallic r) = true /\ in_unit (ma_roughness r) = true).
Proof.
  assert (t = {| ml_slots := []; ml_free := []; ml_max_materials := max |}) as ->.
  { unfold material_try_with_capacity in Hnew. case_match; congruence. }
  destruct (material_run_refines max evs {| ml_slots := []; ml_free := []; ml_max_materials := max |} [] [] 1)
    as (t' & hs' & Hrun & Hr); try done; try lia.
  { split; cbn; try done; [apply slots_rel_nil|]. zsimp. unfold U32_MAX in *. lia. }
  destruct (materials_run max [] evs) as [os answers]. cbn [fst snd] in *. exists t', hs'. split; [done|].
  pose proof (sr_count _ _ _ _ _ (ma_slots _ _ _ _ _ Hr)). split; [unfold material_len; lia|].
  intros k r. rewrite (material_get_spec _ _ _ _ _ k Hr). destruct (os !! k) as [[m|]|] eqn:Ho; try done.
  intros [= ->]. pose proof (ma_valid _ _ _ _ _ Hr k r Ho) as Hval. unfold material_valid in Hval. by zbool.
Qed.

Definition demo_material : MaterialRecord :=
  {| ma_base_color := (f32_one, f32_zero, f32_zero, f32_one); ma_metallic := f32_zero; ma_roughness := f32_one |}.

Lemma material_table_refines_witness :
  let evs := [MaterialInsert true demo_material; MaterialRemove true 0; MaterialInsert true demo_material; MaterialGet 0] in
  let '(os, answers) := materials_run 1 [] evs in
  exists t' hs', material_run ({| ml_slots := []; ml_free := []; ml_max_materials := 1 |}, []) evs = (t', hs', answers) /\
  material_len t' = n_live os /\
  (forall k r, material_get t' (nth_material hs' k) = Ok r ->
    forallb is_finite (components (ma_base_color r)) = true /\
    in_unit (ma_metallic r) = true /\ in_unit (ma_roughness r) = true).
Proof. by apply (material_table_refines alloc_all 1). Defined.

(** An out-of-range roughness is reported as a full table. *)
Example invalid_material_reported_as_capacity :
  material_try_insert true {| ml_slots := []; ml_free := []; ml_max_materials := 8 |}
    {| ma_base_color := (f32_one, f32_zero, f32_zero, f32_one); ma_metallic := f32_zero; ma_roughness := f32_of_Z 2 |} =
  ({| ml_slots := []; ml_free := []; ml_max_materials := 8 |}, Err Renderer3dError.CapacityExceeded).
Proof. reflexivity. Qed.

(** ** Views and passes *)
Lemma fle_false x y : is_nan x = false -> is_nan y = false -> fle x y = false -> flt y x = true.
Proof. intros Hx Hy He. by rewrite flt_negb, He by done. Qed.

(** A validated pass: a non-empty viewport, [0 < near < far], all of it finite,
    and a clear depth in [0, 1]. *)
Lemma pass_validate_sound p q : pass_validate p = Ok q ->
  q = p /\ rv_viewport_width (wp_view p) <> 0 /\ rv_viewport_height (wp_view p) <> 0 /\
  Forall (fun x => is_finite x = true)
    (rv_near_plane (wp_view p) :: rv_far_plane (wp_view p) :: wp_clear_depth p ::
     components (wp_clear_color p) ++ rv_view_projection (wp_view p)) /\
  flt f32_zero (rv_near_plane (wp_view p)) = true /\
  flt (rv_near_plane (wp_view p)) (rv_far_plane (wp_view p)) = true /\ in_unit (wp_clear_depth p) = true.
Proof.
  unfold pass_validate, view_validate. destruct (_ || _) eqn:Hv; [done|]. cbn [result_bind].
  destruct (negb _ || _ || _) eqn:Hp; [done|]. intros [= <-]. zbool.
  repeat match goal with H : forallb _ _ = true |- _ => rewrite forallb_forall in H end.
  split_and!; try done; try (apply fle_false; [by apply finite_not_nan||done..|done]).
  repeat constructor; try done. apply list.Forall_app. split; apply Forall_forall; auto.
Qed.
