(* ===== verification/AsyncRead.v ===== *)
(** Asynchronous file reads: the io_uring boundary of
    [platform/linux/io_uring.rs] and the completion port of
    [platform/windows/iocp.rs].

    In both the kernel writes into a buffer while the program runs, so the
    model has the heap the buffers live in: a [Vec<u8>] is an allocation and a
    length, and a write of the kernel to an allocation that was freed is
    undefined behaviour, the outer [None] of a step.  The kernel side takes
    submissions, completes the requests it holds in any order and with any
    number of bytes up to the requested one, and posts completions.

    Theorems: if no two outstanding reads carry the same [user_data], every
    interleaving of submissions, kernel steps, polls and takes answers like the
    abstract service, writes no freed memory, never overflows the completion
    queue and hands out exactly the bytes the kernel read; the examples show
    what reused identifiers, and taking a read before its completion on the
    other platform, lead to. *)

From stdpp Require Import sets gmap fin_maps.
From S2P Require Import Prelude Ring.

(** ** Buffers *)
Record Buffer := mkBuffer { bf_addr : Z; bf_len : Z }.
Abbreviation heap := (gmap Z (list Z)).

Definition heap_alloc (h : heap) (bytes : list Z) : heap * Buffer :=
  let addr := fresh (dom h) in (<[addr := bytes]> h, mkBuffer addr (zlen bytes)).
Definition heap_free (h : heap) (b : Buffer) : heap := delete (bf_addr b) h.
Definition heap_read (h : heap) (b : Buffer) : option (list Z) :=
  l ← h !! bf_addr b; Some (take (Z.to_nat (bf_len b)) l).

(** The kernel's copy to user memory. *)
Definition heap_write (h : heap) (addr : Z) (data : list Z) : option heap :=
  l ← h !! addr;
  if zlen data <=? zlen l then Some (<[addr := data ++ drop (length data) l]> h) else None.

(** [Vec::truncate]. *)
Definition truncate (b : Buffer) (len : Z) : Buffer := mkBuffer (bf_addr b) (Z.min (bf_len b) len).

Module Uring.
Definition ENTER_GETEVENTS : Z := 1.
Definition OP_READ : Z := 22.

Inductive IoUringError :=
| InvalidEntries
| InvalidRead
| ReadTooLarge
| Setup (errno : Z)
| Mmap (errno : Z)
| QueueFull
| CompletionUnknown
| EnterFailed (errno : Z).

(** The fields the library sets; the others are zero. *)
Record SubmissionEntry := mkSqe {
  se_opcode : Z;
  se_fd : Z;
  se_off : Z;
  se_addr : Z;
  se_len : Z;
  se_user_data : Z
}.

Record CompletionEntry := mkCqe { ce_user_data : Z; ce_result : Z; ce_flags : Z }.

Record PendingRead := mkPending { pr_user_data : Z; pr_buffer : Buffer }.

(** The words of the two mapped rings, and the library's own lists. *)
Record IoUring := mkIoUring {
  ur_sq_entries : Z;
  ur_cq_entries : Z;
  ur_sq_head : Z;
  ur_sq_tail : Z;
  ur_sq_mask : Z;
  ur_sq_array : list Z;
  ur_sqes : list SubmissionEntry;
  ur_cq_head : Z;
  ur_cq_tail : Z;
  ur_cq_mask : Z;
  ur_cqes : list CompletionEntry;
  ur_pending : list PendingRead;
  ur_completed : list (CompletionEntry * Buffer)
}.

(** An index outside the mapped arrays is undefined behaviour. *)
Definition submit_read (u : IoUring) (fd : Z) (buffer : Buffer) (offset user_data : Z) :
    option (IoUring * result IoUringError Z) :=
  if (fd <? 0) || (bf_len buffer =? 0) then Some (u, Err InvalidRead)
  else if U32_MAX <? bf_len buffer then Some (u, Err ReadTooLarge)
  else if ur_cq_entries u <=? zlen (ur_pending u) + zlen (ur_completed u) then Some (u, Err QueueFull)
  else
    let head := ur_sq_head u in
    let tail := ur_sq_tail u in
    if ur_sq_entries u <=? wrapping_sub 32 tail head then Some (u, Err QueueFull)
    else
      let index := Z.land tail (ur_sq_mask u) in
      _ ← ur_sqes u !z index;
      _ ← ur_sq_array u !z index;
      let entry := mkSqe OP_READ fd offset (bf_addr buffer) (bf_len buffer) user_data in
      Some (mkIoUring (ur_sq_entries u) (ur_cq_entries u) head (wrapping_add 32 tail 1) (ur_sq_mask u)
              (zset (ur_sq_array u) index index) (zset (ur_sqes u) index entry)
              (ur_cq_head u) (ur_cq_tail u) (ur_cq_mask u) (ur_cqes u)
              (ur_pending u ++ [mkPending user_data buffer]) (ur_completed u),
            Ok user_data).

Definition enter_flags (wait_for : Z) : Z := if negb (wait_for =? 0) then ENTER_GETEVENTS else 0.

(** [raw] is what the system call returned. *)
Definition enter (raw : Z) : result IoUringError Z :=
  if raw <? 0 then Err (EnterFailed (- raw)) else Ok raw.

Definition complete_pending (pending : list PendingRead) (completed : list (CompletionEntry * Buffer))
    (entry : CompletionEntry) : option (list PendingRead * list (CompletionEntry * Buffer)) :=
  match vec_position (fun request => pr_user_data request =? ce_user_data entry) pending with
  | None => Some (pending, completed)
  | Some position =>
      '(request, pending) ← vec_swap_remove pending position;
      let buffer :=
        if 0 <=? ce_result entry then truncate (pr_buffer request) (ce_result entry)
        else truncate (pr_buffer request) 0 in
      Some (pending, completed ++ [(entry, buffer)])
  end.

Definition try_complete (u : IoUring) : option (IoUring * option CompletionEntry) :=
  let head := ur_cq_head u in
  let tail := ur_cq_tail u in
  if head =? tail then Some (u, None)
  else
    let index := Z.land head (ur_cq_mask u) in
    entry ← ur_cqes u !z index;
    '(pending, completed) ← complete_pending (ur_pending u) (ur_completed u) entry;
    Some (mkIoUring (ur_sq_entries u) (ur_cq_entries u) (ur_sq_head u) (ur_sq_tail u) (ur_sq_mask u)
            (ur_sq_array u) (ur_sqes u) (wrapping_add 32 head 1) tail (ur_cq_mask u) (ur_cqes u)
            pending completed,
          Some entry).

Definition take_completed (u : IoUring) (user_data : Z) : option (IoUring * result IoUringError Buffer) :=
  match vec_position (fun c => ce_user_data c.1 =? user_data) (ur_completed u) with
  | None => Some (u, Err CompletionUnknown)
  | Some position =>
      '(c, completed) ← vec_swap_remove (ur_completed u) position;
      Some (mkIoUring (ur_sq_entries u) (ur_cq_entries u) (ur_sq_head u) (ur_sq_tail u) (ur_sq_mask u)
              (ur_sq_array u) (ur_sqes u) (ur_cq_head u) (ur_cq_tail u) (ur_cq_mask u) (ur_cqes u)
              (ur_pending u) completed,
            Ok c.2)
  end.

(** ** Construction

    The system resources an attempt holds. *)
Variant resource := Descriptor | SqMapping | CqMapping | SqeMapping.

(** [raw] is [io_uring_setup]'s return value, [maps] which of the mappings
    succeed, [A] the two reservations; the list is what is still held
    afterwards. *)
Definition io_uring_new (entries raw : Z) (single_mmap sq cq sqe : bool) (A : alloc) :
    list resource * result IoUringError unit :=
  if entries =? 0 then ([], Err InvalidEntries)
  else if raw <? 0 then ([], Err (Setup (- raw)))
  else
    let cq := if single_mmap then sq else cq in
    let held := Descriptor :: (if sq then [SqMapping] else []) ++
                (if negb single_mmap && cq then [CqMapping] else []) ++ (if sqe then [SqeMapping] else []) in
    if negb (sq && cq && sqe) then ([], Err (Mmap 12))
    else if negb (A 0%nat) then (held, Err (Mmap 12))
    else if negb (A 1%nat) then (held, Err (Mmap 12))
    else (held, Ok tt).

(** Of the failing attempts only those whose reservations fail leave a
    resource behind: the early returns there skip the release. *)
Lemma new_releases entries raw single_mmap sq cq sqe A held e :
  io_uring_new entries raw single_mmap sq cq sqe A = (held, Err e) ->
  A 0%nat = true -> A 1%nat = true -> held = [].
Proof. unfold io_uring_new. intros H H0 H1. rewrite H0, H1 in H. repeat case_match; simplify_eq/=; done. Qed.

Example new_leaks_on_failed_reservation :
  io_uring_new 8 3 true true true true (fun _ => false) =
  ([Descriptor; SqMapping; SqeMapping], Err (Mmap 12)).
Proof. reflexivity. Qed.

(** ** The program, the ring and the kernel

    The kernel reads the submission ring only inside [io_uring_enter] (no
    polling thread is asked for); completions may be posted at any time. *)
Record Sys := mkSys {
  sy_ring : IoUring;
  sy_heap : heap;
  sy_flying : list SubmissionEntry
}.

Inductive uring_event :=
| Submit (fd offset user_data : Z) (bytes : list Z)
| Enter (submit wait_for : Z) (outcome : result Z Z)
| Complete (i : nat) (res : Z) (data : list Z)
| Poll
| Take (user_data : Z).

Inductive uring_answer :=
| ASubmit (r : result IoUringError Z)
| AEnter (r : result IoUringError Z)
| AComplete
| APoll (r : option CompletionEntry)
| ATake (r : result IoUringError (list Z)).

(** The kernel takes the next entry of the submission ring. *)
Definition kernel_take (s : Sys) : option Sys :=
  let u := sy_ring s in
  index ← ur_sq_array u !z (Z.land (ur_sq_head u) (ur_sq_mask u));
  entry ← ur_sqes u !z index;
  Some (mkSys (mkIoUring (ur_sq_entries u) (ur_cq_entries u) (wrapping_add 32 (ur_sq_head u) 1) (ur_sq_tail u)
                 (ur_sq_mask u) (ur_sq_array u) (ur_sqes u) (ur_cq_head u) (ur_cq_tail u) (ur_cq_mask u)
                 (ur_cqes u) (ur_pending u) (ur_completed u))
          (sy_heap s) (sy_flying s ++ [entry])).

Fixpoint kernel_takes (n : nat) (s : Sys) : option Sys :=
  match n with O => Some s | S n => s ← kernel_take s; kernel_takes n s end.

(** The kernel fills the buffer of a request it holds and posts the
    completion; with a full completion ring the completion would be lost. *)
Definition kernel_complete (s : Sys) (i : nat) (res : Z) (data : list Z) : option Sys :=
  match sy_flying s !! i with
  | None => Some s
  | Some entry =>
      if (zlen data =? Z.max 0 res) && (zlen data <=? se_len entry) then
        h ← heap_write (sy_heap s) (se_addr entry) data;
        let u := sy_ring s in
        if ur_cq_entries u <=? wrapping_sub 32 (ur_cq_tail u) (ur_cq_head u) then None
        else
          let index := Z.land (ur_cq_tail u) (ur_cq_mask u) in
          Some (mkSys (mkIoUring (ur_sq_entries u) (ur_cq_entries u) (ur_sq_head u) (ur_sq_tail u)
                         (ur_sq_mask u) (ur_sq_array u) (ur_sqes u) (ur_cq_head u)
                         (wrapping_add 32 (ur_cq_tail u) 1) (ur_cq_mask u)
                         (zset (ur_cqes u) index (mkCqe (se_user_data entry) res 0))
                         (ur_pending u) (ur_completed u))
                  h (delete i (sy_flying s)))
      else Some s
  end.

(** A refused submission drops the buffer it was given; a taken buffer is
    read and dropped at once. *)
Definition uring_exec (s : Sys) (ev : uring_event) : option (Sys * uring_answer) :=
  match ev with
  | Submit fd offset user_data bytes =>
      let '(h, b) := heap_alloc (sy_heap s) bytes in
      '(u, r) ← submit_read (sy_ring s) fd b offset user_data;
      let h := if is_ok r then h else heap_free h b in
      Some (mkSys u h (sy_flying s), ASubmit r)
  | Enter submit wait_for outcome =>
      match outcome with
      | Err errno => Some (s, AEnter (enter (- Z.max 1 errno)))
      | Ok count =>
          let u := sy_ring s in
          let n := Z.max 0 (Z.min count (Z.min submit (wrapping_sub 32 (ur_sq_tail u) (ur_sq_head u)))) in
          s ← kernel_takes (Z.to_nat n) s; Some (s, AEnter (enter n))
      end
  | Complete i res data => s ← kernel_complete s i res data; Some (s, AComplete)
  | Poll => '(u, r) ← try_complete (sy_ring s); Some (mkSys u (sy_heap s) (sy_flying s), APoll r)
  | Take user_data =>
      '(u, r) ← take_completed (sy_ring s) user_data;
      match r with
      | Err e => Some (mkSys u (sy_heap s) (sy_flying s), ATake (Err e))
      | Ok b =>
          bytes ← heap_read (sy_heap s) b;
          Some (mkSys u (heap_free (sy_heap s) b) (sy_flying s), ATake (Ok bytes))
      end
  end.

Fixpoint uring_run (s : Sys) (evs : list uring_event) : option (Sys * list uring_answer) :=
  match evs with
  | [] => Some (s, [])
  | ev :: evs => '(s, a) ← uring_exec s ev; '(s, l) ← uring_run s evs; Some (s, a :: l)
  end.

(** ** The service

    A read is queued, then in the kernel's hands, then posted, then ready. *)
Record Request := mkRequest { rq_fd : Z; rq_off : Z; rq_len : Z; rq_id : Z }.

#[export] Instance Request_eq_dec : EqDecision Request.
Proof. solve_decision. Defined.

Record Reads := mkReads {
  rd_queued : list Request;
  rd_flying : list Request;
  rd_posted : list (Request * Z * list Z);
  rd_ready : gmap Z (list Z)
}.

Definition outstanding (r : Reads) : Z :=
  zlen (rd_queued r) + zlen (rd_flying r) + zlen (rd_posted r) + Z.of_nat (size (rd_ready r)).

Definition pending_of (r : Reads) : list Request :=
  rd_queued r ++ rd_flying r ++ map (fun p => p.1.1) (rd_posted r).

Definition fresh_id (r : Reads) (id : Z) : bool :=
  forallb (fun q => negb (rq_id q =? id)) (pending_of r) && bool_decide (rd_ready r !! id = None).

Definition reads_exec (sq_entries cq_entries : Z) (r : Reads) (ev : uring_event) : Reads * uring_answer :=
  match ev with
  | Submit fd offset id bytes =>
      if (fd <? 0) || (zlen bytes =? 0) then (r, ASubmit (Err InvalidRead))
      else if U32_MAX <? zlen bytes then (r, ASubmit (Err ReadTooLarge))
      else if cq_entries <=? outstanding r then (r, ASubmit (Err QueueFull))
      else if sq_entries <=? zlen (rd_queued r) then (r, ASubmit (Err QueueFull))
      else (mkReads (rd_queued r ++ [mkRequest fd offset (zlen bytes) id]) (rd_flying r) (rd_posted r) (rd_ready r),
            ASubmit (Ok id))
  | Enter submit wait_for outcome =>
      match outcome with
      | Err errno => (r, AEnter (Err (EnterFailed (Z.max 1 errno))))
      | Ok count =>
          let n := Z.max 0 (Z.min count (Z.min submit (zlen (rd_queued r)))) in
          (mkReads (drop (Z.to_nat n) (rd_queued r)) (rd_flying r ++ take (Z.to_nat n) (rd_queued r))
             (rd_posted r) (rd_ready r), AEnter (Ok n))
      end
  | Complete i res data =>
      match rd_flying r !! i with
      | Some q =>
          if (zlen data =? Z.max 0 res) && (zlen data <=? rq_len q) then
            (mkReads (rd_queued r) (delete i (rd_flying r)) (rd_posted r ++ [(q, res, data)]) (rd_ready r), AComplete)
          else (r, AComplete)
      | None => (r, AComplete)
      end
  | Poll =>
      match rd_posted r with
      | [] => (r, APoll None)
      | (q, res, data) :: posted =>
          (mkReads (rd_queued r) (rd_flying r) posted (<[rq_id q := data]> (rd_ready r)),
           APoll (Some (mkCqe (rq_id q) res 0)))
      end
  | Take id =>
      match rd_ready r !! id with
      | Some data => (mkReads (rd_queued r) (rd_flying r) (rd_posted r) (delete id (rd_ready r)), ATake (Ok data))
      | None => (r, ATake (Err CompletionUnknown))
      end
  end.

Fixpoint reads_run (sq_entries cq_entries : Z) (r : Reads) (evs : list uring_event) : Reads * list uring_answer :=
  match evs with
  | [] => (r, [])
  | ev :: evs =>
      let '(r, a) := reads_exec sq_entries cq_entries r ev in
      let '(r, l) := reads_run sq_entries cq_entries r evs in (r, a :: l)
  end.

(** The caller's part: a new read's identifier names no outstanding one. *)
Fixpoint ids_unique (sq_entries cq_entries : Z) (r : Reads) (evs : list uring_event) : bool :=
  match evs with
  | [] => true
  | ev :: evs =>
      (match ev with Submit _ _ id _ => fresh_id r id | _ => true end) &&
      ids_unique sq_entries cq_entries (reads_exec sq_entries cq_entries r ev).1 evs
  end.
(** ** The rings as windows of their counters *)
Record window {T} (k head tail : Z) (read : Z -> option T) (q : list T) : Prop := {
  wi_k : 0 <= k <= 31;
  wi_head : is_u 32 head;
  wi_tail : tail = wrap 32 (head + zlen q);
  wi_len : zlen q <= 2 ^ k;
  wi_slots i x : q !! i = Some x -> read ((head + Z.of_nat i) mod 2 ^ k) = Some x
}.

Lemma wrap_land w k x : 0 <= k <= w -> Z.land (wrap w x) (2 ^ k - 1) = x mod 2 ^ k.
Proof.
  intros. replace (2 ^ k - 1) with (Z.ones k) by (rewrite Z.ones_equiv; lia).
  rewrite Z.land_ones by lia. unfold wrap. apply Z.mod_mod_divide.
  exists (2 ^ (w - k)). rewrite <- Z.pow_add_r by lia. f_equal. lia.
Qed.

Section Window.
Context {T : Type}.
Implicit Types (read : Z -> option T) (q : list T).

Lemma window_pow k head tail read q : window k head tail read q -> 1 <= 2 ^ k <= 2 ^ 31.
Proof.
  intros Hw. pose proof (wi_k _ _ _ _ _ Hw). split; [|by apply Z.pow_le_mono_r; lia].
  pose proof (Z.pow_pos_nonneg 2 k). lia.
Qed.

Lemma window_distance k head tail read q : window k head tail read q -> wrapping_sub 32 tail head = zlen q.
Proof.
  intros Hw. pose proof (window_pow _ _ _ _ _ Hw). destruct Hw. subst tail. unfold wrapping_sub.
  rewrite <- (wrap_small 32 head) at 2 by done. rewrite wrap_wrap_sub by lia.
  pose proof (zlen_nonneg q). rewrite wrap_small; [lia|]. unfold is_u. lia.
Qed.

Lemma window_empty k head tail read q : window k head tail read q -> (head =? tail) = (zlen q =? 0).
Proof.
  intros Hw. pose proof (window_distance _ _ _ _ _ Hw) as Hd. destruct Hw.
  destruct (Z.eqb_spec head tail) as [<-|Hne]; destruct (Z.eqb_spec (zlen q) 0) as [Hz|Hz]; try done; exfalso.
  - unfold wrapping_sub in Hd. by rewrite Z.sub_diag in Hd.
  - apply Hne. rewrite wi_tail0, Hz, Z.add_0_r. by rewrite wrap_small.
Qed.

Lemma window_slot k head tail read q : window k head tail read q ->
  Z.land tail (2 ^ k - 1) = (head + zlen q) mod 2 ^ k /\ Z.land head (2 ^ k - 1) = head mod 2 ^ k.
Proof.
  intros [? Hh -> _ _]. split; [by apply wrap_land; lia|].
  rewrite <- (wrap_small 32 head) at 1 by done. by apply wrap_land; lia.
Qed.

Lemma window_push k head tail read read' q x : window k head tail read q -> zlen q < 2 ^ k ->
  read' (Z.land tail (2 ^ k - 1)) = Some x ->
  (forall i, i <> Z.land tail (2 ^ k - 1) -> read' i = read i) ->
  window k head (wrapping_add 32 tail 1) read' (q ++ [x]).
Proof.
  intros Hw Hlt Hx Hold. destruct (window_slot _ _ _ _ _ Hw) as [Hs _]. rewrite Hs in *.
  destruct Hw as [Hk Hh -> Hl Hslots]. split; try done.
  - unfold wrapping_add. rewrite wrap_add_l by done. zsimp. by rewrite Z.add_assoc.
  - zsimp. lia.
  - intros i y [Hi|[Hge Hi]]%lookup_app_Some.
    + rewrite Hold; [by apply Hslots|]. apply not_eq_sym, slot_ne. apply lookup_lt_Some in Hi. unfold zlen in *. lia.
    + apply list_lookup_singleton_Some in Hi as [Hi ->].
      replace (Z.of_nat i) with (zlen q) by (unfold zlen; lia). done.
Qed.

Lemma window_pop k head tail read q x : window k head tail read (x :: q) ->
  read (Z.land head (2 ^ k - 1)) = Some x /\ window k (wrapping_add 32 head 1) tail read q.
Proof.
  intros Hw. destruct (window_slot _ _ _ _ _ Hw) as [_ Hs]. rewrite Hs.
  destruct Hw as [Hk Hh -> Hl Hslots]. rewrite zlen_cons in *. split.
  - specialize (Hslots 0%nat x eq_refl). by rewrite Z.add_0_r in Hslots.
  - split; try done.
    + by apply wrap_range.
    + unfold wrapping_add. rewrite wrap_add_l by done. f_equal. lia.
    + lia.
    + intros i y Hi. specialize (Hslots (S i) y Hi). rewrite <- Hslots. f_equal. unfold wrapping_add, wrap.
      rewrite <- (Z.add_mod_idemp_l ((head + 1) mod 2 ^ 32)) by lia.
      rewrite (Z.mod_mod_divide (head + 1)).
      * rewrite Z.add_mod_idemp_l by lia. f_equal. lia.
      * exists (2 ^ (32 - k)). rewrite <- Z.pow_add_r by lia. f_equal. lia.
Qed.

Lemma window_mono k head tail read read' q : window k head tail read q ->
  (forall i, read' i = read i) -> window k head tail read' q.
Proof. intros [] He. split; try done. intros i x Hi. rewrite He. auto. Qed.
End Window.

(** ** The ring implements the service *)
Definition sqe_of (addr : Z -> Z) (q : Request) : SubmissionEntry :=
  mkSqe OP_READ (rq_fd q) (rq_off q) (addr (rq_id q)) (rq_len q) (rq_id q).
Definition pending_entry (addr : Z -> Z) (q : Request) : PendingRead :=
  mkPending (rq_id q) (mkBuffer (addr (rq_id q)) (rq_len q)).
Definition cqe_of (p : Request * Z * list Z) : CompletionEntry := mkCqe (rq_id p.1.1) p.1.2 0.
Definition ready_entry (addr : Z -> Z) (p : Z * list Z) : Z * Buffer := (p.1, mkBuffer (addr p.1) (zlen p.2)).
Definition completed_entry (c : CompletionEntry * Buffer) : Z * Buffer := (ce_user_data c.1, c.2).

Definition read_sq (u : IoUring) (i : Z) : option SubmissionEntry :=
  j ← ur_sq_array u !z i; if j =? i then ur_sqes u !z i else None.

Definition ids (r : Reads) : list Z := map rq_id (pending_of r) ++ map fst (map_to_list (rd_ready r)).

(** A buffer of the heap whose first bytes are [data]. *)
Definition holds (h : heap) (addr len : Z) (data : list Z) : Prop :=
  exists l, h !! addr = Some l /\ zlen l = len /\ take (length data) l = data.

Record ring_geometry (ks kc : Z) (u : IoUring) : Prop := {
  rg_sq : ur_sq_entries u = 2 ^ ks /\ ur_sq_mask u = 2 ^ ks - 1;
  rg_sq_arrays : zlen (ur_sq_array u) = 2 ^ ks /\ zlen (ur_sqes u) = 2 ^ ks;
  rg_cq : ur_cq_entries u = 2 ^ kc /\ ur_cq_mask u = 2 ^ kc - 1;
  rg_cqes : zlen (ur_cqes u) = 2 ^ kc
}.

(** [addr] is where the buffer of each outstanding read is. *)
Record sys_rel (ks kc : Z) (addr : Z -> Z) (s : Sys) (r : Reads) : Prop := {
  sr_geometry : ring_geometry ks kc (sy_ring s);
  sr_sq : window ks (ur_sq_head (sy_ring s)) (ur_sq_tail (sy_ring s)) (read_sq (sy_ring s))
            (map (sqe_of addr) (rd_queued r));
  sr_cq : window kc (ur_cq_head (sy_ring s)) (ur_cq_tail (sy_ring s)) (zget (ur_cqes (sy_ring s)))
            (map cqe_of (rd_posted r));
  sr_flying : sy_flying s = map (sqe_of addr) (rd_flying r);
  sr_pending : ur_pending (sy_ring s) ≡ₚ map (pending_entry addr) (pending_of r);
  sr_completed : map completed_entry (ur_completed (sy_ring s)) ≡ₚ
                 map (ready_entry addr) (map_to_list (rd_ready r));
  sr_ids : NoDup (ids r);
  sr_addrs x y : x ∈ ids r -> y ∈ ids r -> addr x = addr y -> x = y;
  sr_outstanding : outstanding r <= 2 ^ kc;
  sr_waiting q : q ∈ rd_queued r ++ rd_flying r -> holds (sy_heap s) (addr (rq_id q)) (rq_len q) [];
  sr_posted q res d : (q, res, d) ∈ rd_posted r ->
    zlen d = Z.max 0 res /\ zlen d <= rq_len q /\ holds (sy_heap s) (addr (rq_id q)) (rq_len q) d;
  sr_ready id d : rd_ready r !! id = Some d -> exists len, holds (sy_heap s) (addr id) len d
}.

Lemma outstanding_ids r : outstanding r = zlen (ids r).
Proof.
  unfold outstanding, ids, pending_of. rewrite !map_app, !zlen_app. unfold zlen.
  rewrite !length_map, length_map_to_list. lia.
Qed.

Lemma outstanding_split r : outstanding r = zlen (pending_of r) + Z.of_nat (size (rd_ready r)).
Proof. unfold outstanding, pending_of. zsimp. unfold zlen. rewrite length_map. lia. Qed.

Lemma fresh_id_spec r id : fresh_id r id = true -> id ∉ ids r.
Proof.
  unfold fresh_id, ids. rewrite andb_true_iff, forallb_forall, bool_decide_eq_true. intros [Hp Hn] Hin.
  apply elem_of_app in Hin as [Hin|Hin].
  - apply list_elem_of_fmap in Hin as (q & -> & Hq). apply list_elem_of_In in Hq. specialize (Hp q Hq). lia.
  - apply list_elem_of_fmap in Hin as ([x d] & -> & Hx). apply elem_of_map_to_list in Hx. simpl in *. congruence.
Qed.

Lemma ready_key (m : gmap Z (list Z)) id d : m !! id = Some d -> id ∈ map fst (map_to_list m).
Proof. intros Hd. apply list_elem_of_fmap. exists (id, d). split; [done|]. by apply elem_of_map_to_list. Qed.

Lemma ready_in_ids r id d : rd_ready r !! id = Some d -> id ∈ ids r.
Proof.
  intros Hd. apply elem_of_app. right. apply list_elem_of_fmap. exists (id, d). split; [done|].
  by apply elem_of_map_to_list.
Qed.

Lemma queued_pending r q : q ∈ rd_queued r -> q ∈ pending_of r.
Proof. intros. apply elem_of_app. by left. Qed.
Lemma flying_pending r q : q ∈ rd_flying r -> q ∈ pending_of r.
Proof. intros. apply elem_of_app. right. apply elem_of_app. by left. Qed.
Lemma waiting_pending r q : q ∈ rd_queued r ++ rd_flying r -> q ∈ pending_of r.
Proof. intros [?|?]%elem_of_app; [by apply queued_pending|by apply flying_pending]. Qed.
Lemma posted_pending r q res d : (q, res, d) ∈ rd_posted r -> q ∈ pending_of r.
Proof.
  intros. apply elem_of_app. right. apply elem_of_app. right. apply list_elem_of_fmap. by exists (q, res, d).
Qed.

Lemma pending_in_ids r q : q ∈ pending_of r -> rq_id q ∈ ids r.
Proof. intros Hq. apply elem_of_app. left. apply list_elem_of_fmap. eauto. Qed.

(** Every outstanding read has its buffer. *)
Lemma outstanding_allocated ks kc addr s r id : sys_rel ks kc addr s r -> id ∈ ids r -> is_Some (sy_heap s !! addr id).
Proof.
  intros Hr Hin. apply elem_of_app in Hin as [Hin|Hin].
  - apply list_elem_of_fmap in Hin as (q & -> & Hq). unfold pending_of in Hq. rewrite app_assoc in Hq.
    apply elem_of_app in Hq as [Hq|Hq].
    + destruct (sr_waiting _ _ _ _ _ Hr q Hq) as (l & -> & _). eauto.
    + apply list_elem_of_fmap in Hq as ([[q' res] d] & -> & Hq).
      destruct (sr_posted _ _ _ _ _ Hr q' res d Hq) as (_ & _ & l & Hl & _). simpl. rewrite Hl. eauto.
  - apply list_elem_of_fmap in Hin as ([id' d] & -> & Hd). apply elem_of_map_to_list in Hd.
    destruct (sr_ready _ _ _ _ _ Hr id' d Hd) as (len & l & Hl & _). simpl. rewrite Hl. eauto.
Qed.

Lemma holds_insert h addr' l' addr len d : addr <> addr' -> holds h addr len d -> holds (<[addr' := l']> h) addr len d.
Proof. intros Hne (l & Hl & ?). exists l. by rewrite lookup_insert_ne. Qed.

Lemma holds_delete h addr' addr len d : addr <> addr' -> holds h addr len d -> holds (delete addr' h) addr len d.
Proof. intros Hne (l & Hl & ?). exists l. by rewrite lookup_delete_ne. Qed.

Lemma sys_rel_ext ks kc addr addr' s r : (forall x, x ∈ ids r -> addr' x = addr x) ->
  sys_rel ks kc addr s r -> sys_rel ks kc addr' s r.
Proof.
  intros He Hr. assert (forall q, q ∈ pending_of r -> addr' (rq_id q) = addr (rq_id q)) as Hp.
  { intros q Hq. by apply He, pending_in_ids. }
  assert (forall l, (forall q, q ∈ l -> q ∈ pending_of r) -> map (sqe_of addr') l = map (sqe_of addr) l) as Hs.
  { intros l Hl. apply map_ext_in. intros q Hq%list_elem_of_In. unfold sqe_of. by rewrite Hp by auto. }
  assert (map (pending_entry addr') (pending_of r) = map (pending_entry addr) (pending_of r)) as Hpe.
  { apply map_ext_in. intros q Hq%list_elem_of_In. unfold pending_entry. by rewrite Hp. }
  assert (map (ready_entry addr') (map_to_list (rd_ready r)) = map (ready_entry addr) (map_to_list (rd_ready r))) as Hre.
  { apply map_ext_in. intros [id d] Hq%list_elem_of_In. unfold ready_entry. simpl. rewrite He; [done|].
    apply elem_of_map_to_list in Hq. by eapply ready_in_ids. }
  destruct Hr. split; rewrite ?Hpe, ?Hre; try done.
  - rewrite (Hs (rd_queued r)); [done|]. apply queued_pending.
  - rewrite (Hs (rd_flying r)); [done|]. apply flying_pending.
  - intros x y Hx Hy. rewrite !He by done. auto.
  - intros q Hq. rewrite Hp by by apply waiting_pending. auto.
  - intros q res d Hq. rewrite Hp by by eapply posted_pending. auto.
  - intros id d Hd. rewrite He; [eauto|]. by eapply ready_in_ids.
Qed.

Lemma read_sq_push u index e i : 0 <= index < zlen (ur_sqes u) -> 0 <= index < zlen (ur_sq_array u) ->
  (j ← zset (ur_sq_array u) index index !z i; if j =? i then zset (ur_sqes u) index e !z i else None) =
  if i =? index then Some e else read_sq u i.
Proof.
  intros H1 H2. destruct (Z.eqb_spec i index) as [->|Hne].
  - rewrite !zget_zset_eq by done. cbn [mbind option_bind]. by rewrite Z.eqb_refl.
  - by rewrite !zget_zset_ne by done.
Qed.

Definition ring_submitted (u : IoUring) (e : SubmissionEntry) : IoUring :=
  let index := Z.land (ur_sq_tail u) (ur_sq_mask u) in
  mkIoUring (ur_sq_entries u) (ur_cq_entries u) (ur_sq_head u) (wrapping_add 32 (ur_sq_tail u) 1) (ur_sq_mask u)
    (zset (ur_sq_array u) index index) (zset (ur_sqes u) index e)
    (ur_cq_head u) (ur_cq_tail u) (ur_cq_mask u) (ur_cqes u)
    (ur_pending u ++ [mkPending (se_user_data e) (mkBuffer (se_addr e) (se_len e))]) (ur_completed u).

(** The state with one more read, its buffer at [addr (rq_id q)]. *)
Lemma submitted_rel ks kc addr s r q bytes :
  sys_rel ks kc addr s r -> rq_id q ∉ ids r -> zlen bytes = rq_len q ->
  sy_heap s !! addr (rq_id q) = None -> outstanding r < 2 ^ kc -> zlen (rd_queued r) < 2 ^ ks ->
  sys_rel ks kc addr
    (mkSys (ring_submitted (sy_ring s) (sqe_of addr q)) (<[addr (rq_id q) := bytes]> (sy_heap s)) (sy_flying s))
    (mkReads (rd_queued r ++ [q]) (rd_flying r) (rd_posted r) (rd_ready r)).
Proof.
  intros Hr Hni Hb Hfree Hcq Hsq.
  assert (forall x, x ∈ ids r -> addr x <> addr (rq_id q)) as Hna.
  { intros x Hx He. destruct (outstanding_allocated _ _ _ _ _ x Hr Hx) as [l Hl]. congruence. }
  pose proof (sr_geometry _ _ _ _ _ Hr) as [[Hsqe Hsqm] [Hl1 Hl2] Hcqg Hl3].
  pose proof (sr_sq _ _ _ _ _ Hr) as Hw. destruct (window_slot _ _ _ _ _ Hw) as [Hslot _].
  pose proof (window_pow _ _ _ _ _ Hw). pose proof (Z.mod_pos_bound (ur_sq_head (sy_ring s) +
    zlen (map (sqe_of addr) (rd_queued r))) (2 ^ ks) ltac:(lia)) as Hrange. rewrite <- Hslot in Hrange.
  assert (ids (mkReads (rd_queued r ++ [q]) (rd_flying r) (rd_posted r) (rd_ready r)) ≡ₚ rq_id q :: ids r) as Hperm.
  { unfold ids, pending_of. cbn. rewrite !map_app. cbn. solve_Permutation. }
  split; cbn [ring_submitted sy_ring sy_heap sy_flying rd_queued rd_flying rd_posted rd_ready
              ur_sq_head ur_sq_tail ur_cq_head ur_cq_tail ur_cqes ur_pending ur_completed].
  - split; cbn; rewrite ?zlen_zset; done.
  - rewrite map_app. eapply window_push; [exact Hw|by unfold zlen in *; rewrite length_map|..].
    + unfold read_sq. cbn. rewrite Hsqm, read_sq_push, Z.eqb_refl by lia. done.
    + intros i Hi. unfold read_sq at 1. cbn. rewrite Hsqm, read_sq_push by lia. by rewrite (proj2 (Z.eqb_neq _ _) Hi).
  - apply (sr_cq _ _ _ _ _ Hr).
  - apply (sr_flying _ _ _ _ _ Hr).
  - rewrite (sr_pending _ _ _ _ _ Hr). unfold pending_of. cbn. rewrite !map_app. cbn.
    fold (pending_entry addr q). solve_Permutation.
  - apply (sr_completed _ _ _ _ _ Hr).
  - rewrite Hperm. constructor; [done|]. apply (sr_ids _ _ _ _ _ Hr).
  - intros x y. rewrite Hperm, !elem_of_cons. intros [->|Hx] [->|Hy] Heq; try done.
    + by destruct (Hna y Hy).
    + by destruct (Hna x Hx).
    + by apply (sr_addrs _ _ _ _ _ Hr).
  - rewrite outstanding_ids in *. unfold zlen in *. rewrite Hperm. cbn [length]. lia.
  - intros q' Hq'. destruct (decide (q' = q)) as [->|Hne].
    + exists bytes. by rewrite lookup_insert_eq.
    + assert (q' ∈ rd_queued r ++ rd_flying r) as Hin by (clear - Hq' Hne; set_solver).
      apply holds_insert; [by apply Hna, pending_in_ids, waiting_pending|by apply (sr_waiting _ _ _ _ _ Hr)].
  - intros q' res d Hq. destruct (sr_posted _ _ _ _ _ Hr q' res d Hq) as (? & ? & Hh). split_and!; try done.
    apply holds_insert; [|done]. by eapply Hna, pending_in_ids, posted_pending.
  - intros x d Hd. destruct (sr_ready _ _ _ _ _ Hr x d Hd) as [len Hh]. exists len. apply holds_insert; [|done].
    by eapply Hna, ready_in_ids.
Qed.

Lemma submit_refines ks kc addr s r fd offset id bytes : sys_rel ks kc addr s r -> fresh_id r id = true ->
  let out := reads_exec (2 ^ ks) (2 ^ kc) r (Submit fd offset id bytes) in
  exists s' addr', uring_exec s (Submit fd offset id bytes) = Some (s', out.2) /\ sys_rel ks kc addr' s' out.1.
Proof.
  intros Hr Hid. apply fresh_id_spec in Hid as Hni. cbn [uring_exec reads_exec heap_alloc].
  pose proof (is_fresh (dom (sy_heap s))) as Hf. apply not_elem_of_dom in Hf.
  set (a := fresh (dom (sy_heap s))) in *. unfold submit_read. cbn [bf_len bf_addr].
  pose proof (sr_geometry _ _ _ _ _ Hr) as [[Hsqe Hsqm] [Hl1 Hl2] [Hcqe Hcqm] Hl3].
  assert (zlen (ur_pending (sy_ring s)) + zlen (ur_completed (sy_ring s)) = outstanding r) as ->.
  { rewrite outstanding_split. unfold zlen. rewrite (sr_pending _ _ _ _ _ Hr), length_map.
    pose proof (Permutation_length (sr_completed _ _ _ _ _ Hr)) as Hc. rewrite !length_map, length_map_to_list in Hc. lia. }
  rewrite (window_distance _ _ _ _ _ (sr_sq _ _ _ _ _ Hr)).
  replace (zlen (map (sqe_of addr) (rd_queued r))) with (zlen (rd_queued r)) by (unfold zlen; by rewrite length_map).
  assert (mkSys (sy_ring s) (heap_free (<[a:=bytes]> (sy_heap s)) (mkBuffer a (zlen bytes))) (sy_flying s) = s) as Hback.
  { unfold heap_free. cbn [bf_addr]. rewrite delete_insert_id by done. by destruct s. }
  rewrite Hcqe, Hsqe.
  destruct (_ || _); [exists s, addr; cbn [mbind option_bind is_ok fst snd]; by rewrite Hback|].
  destruct (U32_MAX <? zlen bytes); [exists s, addr; cbn [mbind option_bind is_ok fst snd]; by rewrite Hback|].
  destruct (Z.leb_spec (2 ^ kc) (outstanding r)); [exists s, addr; cbn [mbind option_bind is_ok fst snd]; by rewrite Hback|].
  destruct (Z.leb_spec (2 ^ ks) (zlen (rd_queued r))); [exists s, addr; cbn [mbind option_bind is_ok fst snd]; by rewrite Hback|].
  pose proof (sr_sq _ _ _ _ _ Hr) as Hw. destruct (window_slot _ _ _ _ _ Hw) as [Hslot _].
  pose proof (window_pow _ _ _ _ _ Hw). pose proof (Z.mod_pos_bound (ur_sq_head (sy_ring s) +
    zlen (map (sqe_of addr) (rd_queued r))) (2 ^ ks) ltac:(lia)) as Hrange. rewrite <- Hslot, <- Hsqm in Hrange.
  destruct (proj2 (zget_is_Some (ur_sqes (sy_ring s)) (Z.land (ur_sq_tail (sy_ring s)) (ur_sq_mask (sy_ring s)))))
    as [e ->]; [lia|].
  destruct (proj2 (zget_is_Some (ur_sq_array (sy_ring s)) (Z.land (ur_sq_tail (sy_ring s)) (ur_sq_mask (sy_ring s)))))
    as [j ->]; [lia|].
  set (addr' := fun x => if decide (x = id) then a else addr x).
  assert (addr' id = a) as Hida by (unfold addr'; by destruct (decide (id = id))).
  eassert (sys_rel ks kc addr' _ _) as Hrel.
  { apply (submitted_rel ks kc addr' s r (mkRequest fd offset (zlen bytes) id) bytes); cbn; try done; [|by rewrite Hida].
    eapply sys_rel_ext; [|done]. intros x Hx. unfold addr'. destruct (decide (x = id)) as [->|]; done. }
  cbn in Hrel. rewrite Hida in Hrel. unfold ring_submitted, sqe_of in Hrel. cbn in Hrel. rewrite Hida, Hcqe, Hsqe in Hrel.
  cbn. do 2 eexists. split; [done|]. exact Hrel.
Qed.

Lemma ids_perm r r' : pending_of r' ≡ₚ pending_of r -> rd_ready r' = rd_ready r -> ids r' ≡ₚ ids r.
Proof. intros Hp Hq. unfold ids. by rewrite Hp, Hq. Qed.

Lemma take_rel ks kc addr s r q queued : sys_rel ks kc addr s r -> rd_queued r = q :: queued ->
  exists s', kernel_take s = Some s' /\
  sys_rel ks kc addr s' (mkReads queued (rd_flying r ++ [q]) (rd_posted r) (rd_ready r)).
Proof.
  intros Hr Hq. pose proof (sr_sq _ _ _ _ _ Hr) as Hw. rewrite Hq in Hw. cbn [map] in Hw.
  pose proof (sr_geometry _ _ _ _ _ Hr) as [[Hsqe Hsqm] _ _ _].
  apply window_pop in Hw as [Hread Hw]. rewrite <- Hsqm in Hread. unfold kernel_take. unfold read_sq in Hread.
  destruct (ur_sq_array (sy_ring s) !z (Z.land (ur_sq_head (sy_ring s)) (ur_sq_mask (sy_ring s)))) as [j|]; [|done].
  cbn [mbind option_bind] in *. destruct (j =? _) eqn:Hj in Hread; [|done]. apply Z.eqb_eq in Hj as ->.
  rewrite Hread. cbn [mbind option_bind]. eexists. split; [done|].
  assert (pending_of (mkReads queued (rd_flying r ++ [q]) (rd_posted r) (rd_ready r)) ≡ₚ pending_of r) as Hp.
  { unfold pending_of. cbn. rewrite Hq. solve_Permutation. }
  pose proof (ids_perm _ _ Hp eq_refl) as Hids. destruct Hr. split; try done.
  - by destruct sr_geometry0.
  - cbn. by rewrite sr_flying0, map_app.
  - cbn -[pending_of]. rewrite sr_pending0. by rewrite Hp.
  - by rewrite Hids.
  - intros x y. rewrite Hids. auto.
  - rewrite outstanding_ids in *. unfold zlen in *. by rewrite Hids.
  - cbn. intros q' Hq'. apply sr_waiting0. rewrite Hq. clear - Hq'. set_solver.
Qed.

Lemma takes_rel ks kc addr n : forall s r, sys_rel ks kc addr s r -> (n <= length (rd_queued r))%nat ->
  exists s', kernel_takes n s = Some s' /\
  sys_rel ks kc addr s' (mkReads (drop n (rd_queued r)) (rd_flying r ++ take n (rd_queued r)) (rd_posted r) (rd_ready r)).
Proof.
  induction n as [|n IH]; intros s r Hr Hn; cbn [kernel_takes].
  - exists s. split; [done|]. rewrite drop_0, app_nil_r. by destruct r.
  - destruct (rd_queued r) as [|q queued] eqn:Hq; [simpl in Hn; lia|].
    destruct (take_rel _ _ _ _ _ _ _ Hr Hq) as (s1 & -> & Hr1). cbn [mbind option_bind].
    destruct (IH _ _ Hr1) as (s2 & -> & Hr2); [simpl in *; lia|]. exists s2. split; [done|].
    cbn in *. by rewrite <- app_assoc in Hr2.
Qed.

Lemma enter_refines ks kc addr s r submit wait_for outcome : sys_rel ks kc addr s r ->
  let out := reads_exec (2 ^ ks) (2 ^ kc) r (Enter submit wait_for outcome) in
  exists s', uring_exec s (Enter submit wait_for outcome) = Some (s', out.2) /\ sys_rel ks kc addr s' out.1.
Proof.
  intros Hr. cbn [uring_exec reads_exec]. destruct outcome as [count|errno].
  - rewrite (window_distance _ _ _ _ _ (sr_sq _ _ _ _ _ Hr)). unfold zlen. rewrite length_map. fold (zlen (rd_queued r)).
    set (n := Z.max 0 (Z.min count (Z.min submit (zlen (rd_queued r))))).
    destruct (takes_rel _ _ _ (Z.to_nat n) s r Hr) as (s' & -> & Hr').
    { subst n. pose proof (zlen_nonneg (rd_queued r)). unfold zlen in *. lia. }
    cbn [mbind option_bind]. exists s'. split; [|done]. unfold enter. destruct (Z.ltb_spec n 0); [subst n; lia|done].
  - exists s. split; [|done]. unfold enter. destruct (Z.ltb_spec (- Z.max 1 errno) 0); [|lia]. by rewrite Z.opp_involutive.
Qed.

(** Only the buffer of read [id] changes, or is freed. *)
Lemma holds_other h h' addr id r : id ∉ ids r -> (forall x, x ∈ ids r -> addr x = addr id -> x = id) ->
  (forall a, a <> addr id -> h' !! a = h !! a) ->
  forall x len d, x ∈ ids r -> holds h (addr x) len d -> holds h' (addr x) len d.
Proof.
  intros Hni Hinj Hother x len d Hx (l & Hl & ?). exists l. rewrite Hother; [done|].
  intros He. apply Hinj in He as ->; done.
Qed.

Lemma holds_weaken h a len d : holds h a len d -> holds h a len [].
Proof. intros (l & ? & ? & ?). by exists l. Qed.

Lemma heap_write_holds h a len (data : list Z) : holds h a len [] -> zlen data <= len ->
  exists h', heap_write h a data = Some h' /\ holds h' a len data /\ forall a', a' <> a -> h' !! a' = h !! a'.
Proof.
  intros (l & Hl & Hlen & _) Hd. unfold heap_write. rewrite Hl. cbn [mbind option_bind].
  destruct (Z.leb_spec (zlen data) (zlen l)); [|lia]. eexists. split; [done|]. split.
  - eexists. rewrite lookup_insert_eq. split; [done|]. split; [|by rewrite take_app_length].
    rewrite zlen_app. unfold zlen in *. rewrite length_drop. lia.
  - intros a' Hne. by rewrite lookup_insert_ne.
Qed.

(** A kernel write for the read [q] in flight reaches its buffer and no other. *)
Lemma complete_writes ks kc addr s r i q data : sys_rel ks kc addr s r -> rd_flying r !! i = Some q -> zlen data <= rq_len q ->
  let r0 := mkReads (rd_queued r) (delete i (rd_flying r)) (rd_posted r) (rd_ready r) in
  pending_of r ≡ₚ q :: pending_of r0 /\
  exists h', heap_write (sy_heap s) (addr (rq_id q)) data = Some h' /\ holds h' (addr (rq_id q)) (rq_len q) data /\
  forall x len d, x ∈ ids r0 -> holds (sy_heap s) (addr x) len d -> holds h' (addr x) len d.
Proof.
  intros Hr Hq Hd r0. pose proof (delete_Permutation _ _ _ Hq) as Hdel.
  assert (pending_of r ≡ₚ q :: pending_of r0) as Hp0 by (unfold pending_of; cbn; rewrite Hdel at 1; solve_Permutation).
  split; [done|]. assert (ids r ≡ₚ rq_id q :: ids r0) as Hids by (unfold ids; rewrite Hp0; done).
  pose proof (sr_ids _ _ _ _ _ Hr) as Hnd. rewrite Hids in Hnd. inv Hnd.
  assert (holds (sy_heap s) (addr (rq_id q)) (rq_len q) []) as Hh.
  { apply (sr_waiting _ _ _ _ _ Hr). apply elem_of_app. right. by eapply list_elem_of_lookup_2. }
  destruct (heap_write_holds _ _ _ data Hh) as (h' & Hw & Hh' & Hother); [done|].
  exists h'. split; [done|]. split; [done|]. apply (holds_other (sy_heap s) h' addr (rq_id q) r0 ltac:(done)); [|done].
  intros x Hx He. apply (sr_addrs _ _ _ _ _ Hr); rewrite ?Hids; [by right|by left|done].
Qed.

Lemma complete_refines ks kc addr s r i res data : sys_rel ks kc addr s r ->
  let out := reads_exec (2 ^ ks) (2 ^ kc) r (Complete i res data) in
  exists s', uring_exec s (Complete i res data) = Some (s', out.2) /\ sys_rel ks kc addr s' out.1.
Proof.
  intros Hr. cbn [uring_exec reads_exec]. unfold kernel_complete.
  rewrite (sr_flying _ _ _ _ _ Hr), list_lookup_fmap.
  destruct (rd_flying r !! i) as [q|] eqn:Hq; cbn [fmap option_fmap option_map]; [|by exists s].
  change (se_len (sqe_of addr q)) with (rq_len q). destruct (_ && _) eqn:Hok; [|by exists s]. zbool.
  pose proof (delete_Permutation _ _ _ Hq) as Hdel.
  destruct (complete_writes ks kc addr s r i q data Hr Hq) as (Hp0 & h' & Hw & Hh' & Hframe); [done|].
  set (r0 := mkReads (rd_queued r) (delete i (rd_flying r)) (rd_posted r) (rd_ready r)) in *.
  change (se_addr (sqe_of addr q)) with (addr (rq_id q)). rewrite Hw. cbn [mbind option_bind].
  pose proof (sr_geometry _ _ _ _ _ Hr) as [_ _ [Hcqe Hcqm] Hlen]. pose proof (sr_cq _ _ _ _ _ Hr) as Hwin.
  rewrite (window_distance _ _ _ _ _ Hwin), Hcqe.
  assert (zlen (map cqe_of (rd_posted r)) < 2 ^ kc) as Hroom.
  { pose proof (sr_outstanding _ _ _ _ _ Hr) as Ho. unfold outstanding, zlen in *. rewrite length_map.
    apply Permutation_length in Hdel. cbn in Hdel. lia. }
  destruct (Z.leb_spec (2 ^ kc) (zlen (map cqe_of (rd_posted r)))); [lia|]. eexists. split; [done|].
  set (r' := mkReads (rd_queued r) (delete i (rd_flying r)) (rd_posted r ++ [(q, res, data)]) (rd_ready r)).
  assert (pending_of r' ≡ₚ pending_of r) as Hp.
  { rewrite Hp0. unfold pending_of. cbn. rewrite map_app. cbn. solve_Permutation. }
  pose proof (ids_perm _ _ Hp eq_refl) as Hids'.
  destruct (window_slot _ _ _ _ _ Hwin) as [Hslot _]. pose proof (window_pow _ _ _ _ _ Hwin).
  pose proof (Z.mod_pos_bound (ur_cq_head (sy_ring s) + zlen (map cqe_of (rd_posted r))) (2 ^ kc) ltac:(lia)) as Hrange.
  split.
  - destruct (sr_geometry _ _ _ _ _ Hr). split; cbn; rewrite ?zlen_zset; try done; lia.
  - apply (sr_sq _ _ _ _ _ Hr).
  - cbn. rewrite map_app, Hcqm. eapply window_push; [exact Hwin|done|..].
    + rewrite zget_zset_eq by (rewrite Hslot; lia). done.
    + intros j Hj. by rewrite zget_zset_ne by done.
  - cbn. change (sqe_of addr <$> ?l) with (map (sqe_of addr) l). symmetry. apply list_fmap_delete.
  - cbn -[pending_of r']. rewrite (sr_pending _ _ _ _ _ Hr). by rewrite Hp.
  - apply (sr_completed _ _ _ _ _ Hr).
  - rewrite Hids'. apply (sr_ids _ _ _ _ _ Hr).
  - intros x y. rewrite Hids'. apply (sr_addrs _ _ _ _ _ Hr).
  - pose proof (sr_outstanding _ _ _ _ _ Hr) as Ho. rewrite outstanding_ids in *. unfold zlen in *. by rewrite Hids'.
  - intros q' Hq'. apply Hframe.
    + by apply pending_in_ids, (waiting_pending r0).
    + apply (sr_waiting _ _ _ _ _ Hr). cbn in Hq'. rewrite Hdel. clear - Hq'. set_solver.
  - intros q' res' d' Hq'. cbn in Hq'. apply elem_of_app in Hq' as [Hq'|Hq'].
    + destruct (sr_posted _ _ _ _ _ Hr q' res' d' Hq') as (? & ? & ?). split_and!; try done.
      apply Hframe; [|done]. by apply pending_in_ids, (posted_pending r0 q' res' d').
    + apply list_elem_of_singleton in Hq'. simplify_eq/=. done.
  - intros x d Hd. destruct (sr_ready _ _ _ _ _ Hr x d Hd) as [len ?]. exists len. apply Hframe; [|done].
    by apply (ready_in_ids r0 x d).
Qed.

Lemma poll_refines ks kc addr s r : sys_rel ks kc addr s r ->
  let out := reads_exec (2 ^ ks) (2 ^ kc) r Poll in
  exists s', uring_exec s Poll = Some (s', out.2) /\ sys_rel ks kc addr s' out.1.
Proof.
  intros Hr. cbn [uring_exec reads_exec]. unfold try_complete.
  pose proof (sr_cq _ _ _ _ _ Hr) as Hw. rewrite (window_empty _ _ _ _ _ Hw).
  destruct (rd_posted r) as [|[[q res] data] posted] eqn:Hposted; [exists s; by destruct s|].
  cbn [map] in *. rewrite zlen_cons. pose proof (zlen_nonneg (map cqe_of posted)).
  destruct (Z.eqb_spec (zlen (map cqe_of posted) + 1) 0); [lia|].
  pose proof (sr_geometry _ _ _ _ _ Hr) as [_ _ [_ Hcqm] _]. apply window_pop in Hw as [Hread Hw].
  rewrite Hcqm, Hread. cbn [mbind option_bind]. set (id := rq_id q).
  set (r' := mkReads (rd_queued r) (rd_flying r) posted (<[id := data]> (rd_ready r))).
  assert (pending_of r ≡ₚ q :: pending_of r') as Hp.
  { unfold pending_of. cbn. rewrite Hposted. cbn. solve_Permutation. }
  pose proof (sr_ids _ _ _ _ _ Hr) as Hnd. unfold ids in Hnd. rewrite Hp in Hnd. cbn [map app] in Hnd. inv Hnd.
  assert (rd_ready r !! id = None) as Hnone.
  { apply eq_None_not_Some. intros [d Hd%ready_key]. rewrite elem_of_app in H2. tauto. }
  pose proof (map_to_list_insert _ _ data Hnone) as Hml.
  assert (ids r' ≡ₚ ids r) as Hids.
  { unfold ids. rewrite Hp. cbn [rd_ready r' map app]. rewrite Hml. cbn [map fst]. by rewrite <- Permutation_middle. }
  destruct (sr_posted _ _ _ _ _ Hr q res data) as (Hres & Hlen & Hh); [rewrite Hposted; by left|].
  pose proof (sr_pending _ _ _ _ _ Hr) as Hpend. rewrite Hp in Hpend. cbn [map] in Hpend.
  destruct (position_Permutation (fun p => pr_user_data p =? id) _ _ _ Hpend) as (i & k & Hi & Hk & Hperm).
  { cbn. apply Z.eqb_refl. }
  { intros y Hy%list_elem_of_fmap. destruct Hy as (q' & -> & Hq'). cbn. apply Z.eqb_neq. intros He.
    apply H2, elem_of_app. left. apply list_elem_of_fmap. by exists q'. }
  unfold complete_pending. cbn [cqe_of ce_user_data fst snd]. fold id. rewrite Hi. cbn [mbind option_bind].
  rewrite Hk. cbn [mbind option_bind].
  assert ((if 0 <=? res then truncate (pr_buffer (pending_entry addr q)) res
           else truncate (pr_buffer (pending_entry addr q)) 0) = mkBuffer (addr id) (zlen data)) as Hbuf.
  { unfold truncate. cbn. fold id. destruct (Z.leb_spec 0 res); f_equal; pose proof (zlen_nonneg data); lia. }
  change (ce_result (cqe_of (q, res, data))) with res. rewrite Hbuf. eexists. split; [done|].
  split.
  - pose proof (sr_geometry _ _ _ _ _ Hr) as []. split; cbn; tauto.
  - apply (sr_sq _ _ _ _ _ Hr).
  - exact Hw.
  - apply (sr_flying _ _ _ _ _ Hr).
  - exact Hperm.
  - cbn. rewrite map_app, Hml, (sr_completed _ _ _ _ _ Hr). cbn.
    by rewrite Permutation_app_comm.
  - rewrite Hids. apply (sr_ids _ _ _ _ _ Hr).
  - intros x y. rewrite Hids. apply (sr_addrs _ _ _ _ _ Hr).
  - pose proof (sr_outstanding _ _ _ _ _ Hr) as Ho. rewrite outstanding_ids in *. unfold zlen in *. by rewrite Hids.
  - apply (sr_waiting _ _ _ _ _ Hr).
  - cbn. intros q' res' d' Hq'. apply (sr_posted _ _ _ _ _ Hr). rewrite Hposted. by right.
  - cbn. intros x d [(<- & <-)|(_ & Hd)]%lookup_insert_Some; [by exists (rq_len q)|].
    by apply (sr_ready _ _ _ _ _ Hr).
Qed.

Lemma completed_entries ks kc addr s r id : sys_rel ks kc addr s r -> forall c, c ∈ ur_completed (sy_ring s) ->
  ce_user_data c.1 = id -> exists d, rd_ready r !! id = Some d /\ c.2 = mkBuffer (addr id) (zlen d).
Proof.
  intros Hr c Hc <-. assert (completed_entry c ∈ map completed_entry (ur_completed (sy_ring s))) as Hin
    by (apply list_elem_of_fmap; eauto).
  rewrite (sr_completed _ _ _ _ _ Hr) in Hin. apply list_elem_of_fmap in Hin as ([x d] & He & Hx).
  apply elem_of_map_to_list in Hx. unfold completed_entry, ready_entry in He. simplify_eq/=. eauto.
Qed.

(** Where a finished read sits among the completed ones. *)
Lemma ready_position ks kc addr s r id d : sys_rel ks kc addr s r -> rd_ready r !! id = Some d ->
  exists i k ce, vec_position (fun c : CompletionEntry * Buffer => ce_user_data c.1 =? id) (ur_completed (sy_ring s)) = Some i /\
  vec_swap_remove (ur_completed (sy_ring s)) i = Some ((ce, mkBuffer (addr id) (zlen d)), k) /\
  map completed_entry k ≡ₚ map (ready_entry addr) (map_to_list (delete id (rd_ready r))).
Proof.
  intros Hr Hd. pose proof (map_to_list_delete _ _ _ Hd) as Hml.
  pose proof (sr_completed _ _ _ _ _ Hr) as Hc. rewrite <- Hml in Hc. cbn [map] in Hc.
  assert (exists c, c ∈ ur_completed (sy_ring s) /\ completed_entry c = ready_entry addr (id, d)) as (c & Hin & Hce).
  { assert (ready_entry addr (id, d) ∈ map completed_entry (ur_completed (sy_ring s))) as Hin by (rewrite Hc; by left).
    apply list_elem_of_fmap in Hin as (c & ? & ?). eauto. }
  apply elem_of_Permutation in Hin as [rest Hrest]. rewrite Hrest in Hc. cbn [map] in Hc. rewrite Hce in Hc.
  apply Permutation_cons_inv in Hc. unfold completed_entry, ready_entry in Hce. cbn in Hce. injection Hce as Hcid Hcb.
  destruct (position_Permutation (fun c : CompletionEntry * Buffer => ce_user_data c.1 =? id) _ _ _ Hrest)
    as (i & k & Hi & Hk & Hperm); [by apply Z.eqb_eq| |].
  { intros y Hy. apply Z.eqb_neq. intros He. assert (completed_entry y ∈ map completed_entry rest) as Hin
      by (apply list_elem_of_fmap; eauto).
    rewrite Hc in Hin. apply list_elem_of_fmap in Hin as ([x d'] & Hx & Hm).
    unfold completed_entry, ready_entry in Hx. injection Hx as Hx _. apply elem_of_map_to_list in Hm.
    rewrite <- Hx, He, lookup_delete_eq in Hm. done. }
  exists i, k, c.1. split; [done|]. split; [rewrite Hk; destruct c; cbn in *; by rewrite Hcb|]. by rewrite Hperm.
Qed.

Lemma take_refines ks kc addr s r id : sys_rel ks kc addr s r ->
  let out := reads_exec (2 ^ ks) (2 ^ kc) r (Take id) in
  exists s', uring_exec s (Take id) = Some (s', out.2) /\ sys_rel ks kc addr s' out.1.
Proof.
  intros Hr. cbn [uring_exec reads_exec]. unfold take_completed.
  pose proof (completed_entries _ _ _ _ _ id Hr) as Hent.
  destruct (rd_ready r !! id) as [d|] eqn:Hd.
  2: { destruct (vec_position _ _) as [i|] eqn:Hi; [|exists s; by destruct s]. exfalso.
       destruct (position_Some _ _ _ Hi) as (c & Hc & Hf). rewrite zget_lookup in Hc by (apply zget_Some in Hc; lia).
       destruct (Hent c) as (d & ? & _); [by eapply list_elem_of_lookup_2|lia|done]. }
  pose proof (map_to_list_delete _ _ _ Hd) as Hml.
  set (r' := mkReads (rd_queued r) (rd_flying r) (rd_posted r) (delete id (rd_ready r))).
  assert (ids r ≡ₚ id :: ids r') as Hids.
  { unfold ids. rewrite <- Hml. cbn [map fst]. by rewrite <- Permutation_middle. }
  pose proof (sr_ids _ _ _ _ _ Hr) as Hnd. rewrite Hids in Hnd. inv Hnd.
  destruct (ready_position _ _ _ _ _ _ _ Hr Hd) as (i & k & ce & Hi & Hk & Hc).
  rewrite Hi. cbn [mbind option_bind]. rewrite Hk. cbn [mbind option_bind snd].
  destruct (sr_ready _ _ _ _ _ Hr id d Hd) as (len & l & Hl & _ & Htake).
  unfold heap_read. cbn [bf_addr bf_len]. rewrite Hl. cbn [mbind option_bind].
  replace (Z.to_nat (zlen d)) with (length d) by (unfold zlen; lia). rewrite Htake. eexists. split; [done|].
  pose proof (holds_other (sy_heap s) (delete (addr id) (sy_heap s)) addr id r' ltac:(done)) as Hframe.
  specialize (Hframe ltac:(intros x Hx He; apply (sr_addrs _ _ _ _ _ Hr); rewrite ?Hids; [by right|by left|done])
    ltac:(intros a Ha; by rewrite lookup_delete_ne)).
  split.
  - pose proof (sr_geometry _ _ _ _ _ Hr) as []. split; cbn; tauto.
  - apply (sr_sq _ _ _ _ _ Hr).
  - apply (sr_cq _ _ _ _ _ Hr).
  - apply (sr_flying _ _ _ _ _ Hr).
  - apply (sr_pending _ _ _ _ _ Hr).
  - exact Hc.
  - done.
  - intros x y Hx Hy. apply (sr_addrs _ _ _ _ _ Hr); rewrite Hids; by right.
  - pose proof (sr_outstanding _ _ _ _ _ Hr) as Ho. rewrite outstanding_ids in *. unfold zlen in *.
    rewrite Hids in Ho. cbn [length] in Ho. cbn [fst]. lia.
  - intros q Hq. apply Hframe; [by apply pending_in_ids, (waiting_pending r')|by apply (sr_waiting _ _ _ _ _ Hr)].
  - intros q res d' Hq. destruct (sr_posted _ _ _ _ _ Hr q res d' Hq) as (? & ? & ?). split_and!; try done.
    apply Hframe; [|done]. by apply pending_in_ids, (posted_pending r' q res d').
  - intros x d' Hd'. cbn in Hd'. apply lookup_delete_Some in Hd' as [Hne Hd'].
    destruct (sr_ready _ _ _ _ _ Hr x d' Hd') as [len' ?]. exists len'. apply Hframe; [|done].
    apply (ready_in_ids r' x d'). cbn. by rewrite lookup_delete_ne.
Qed.

Lemma uring_run_refines ks kc evs : forall addr s r, sys_rel ks kc addr s r ->
  ids_unique (2 ^ ks) (2 ^ kc) r evs = true ->
  exists s' addr', uring_run s evs = Some (s', (reads_run (2 ^ ks) (2 ^ kc) r evs).2) /\
  sys_rel ks kc addr' s' (reads_run (2 ^ ks) (2 ^ kc) r evs).1.
Proof.
  induction evs as [|ev evs IH]; intros addr s r Hr Hu; [by exists s, addr|].
  cbn [ids_unique] in Hu. apply andb_true_iff in Hu as [Hid Hu].
  assert (exists s1 addr1, uring_exec s ev = Some (s1, (reads_exec (2 ^ ks) (2 ^ kc) r ev).2) /\
    sys_rel ks kc addr1 s1 (reads_exec (2 ^ ks) (2 ^ kc) r ev).1) as (s1 & addr1 & He & Hr1).
  { destruct ev as [fd offset id bytes|submit wait_for outcome|i res data| |id].
    - by apply (submit_refines ks kc addr).
    - destruct (enter_refines ks kc addr s r submit wait_for outcome Hr) as (s1 & ? & ?). by exists s1, addr.
    - destruct (complete_refines ks kc addr s r i res data Hr) as (s1 & ? & ?). by exists s1, addr.
    - destruct (poll_refines ks kc addr s r Hr) as (s1 & ? & ?). by exists s1, addr.
    - destruct (take_refines ks kc addr s r id Hr) as (s1 & ? & ?). by exists s1, addr. }
  cbn [uring_run reads_run]. rewrite He. cbn [mbind option_bind].
  destruct (reads_exec (2 ^ ks) (2 ^ kc) r ev) as [r1 a]. cbn [fst snd] in *.
  destruct (IH addr1 s1 r1 Hr1 Hu) as (s2 & addr2 & Hrun & Hr2). rewrite Hrun. cbn [mbind option_bind].
  destruct (reads_run (2 ^ ks) (2 ^ kc) r1 evs) as [r2 l]. cbn [fst snd] in *. by exists s2, addr2.
Qed.

Definition no_reads : Reads := mkReads [] [] [] ∅.

(** The rings as [io_uring_setup] hands them out: [2 ^ ks] submission and
    [2 ^ kc] completion entries, both empty. *)
Definition fresh_ring (ks kc head : Z) : IoUring :=
  mkIoUring (2 ^ ks) (2 ^ kc) head head (2 ^ ks - 1) (replicate (Z.to_nat (2 ^ ks)) 0)
    (replicate (Z.to_nat (2 ^ ks)) (mkSqe 0 0 0 0 0 0)) head head (2 ^ kc - 1)
    (replicate (Z.to_nat (2 ^ kc)) (mkCqe 0 0 0)) [] [].

Lemma fresh_ring_rel ks kc head h : 0 <= ks <= 31 -> 0 <= kc <= 31 -> is_u 32 head ->
  sys_rel ks kc id (mkSys (fresh_ring ks kc head) h []) no_reads.
Proof.
  intros Hks Hkc Hh. assert (forall k, 0 <= k -> 1 <= 2 ^ k) as Hpow by (intros k ?; pose proof (Z.pow_pos_nonneg 2 k); lia).
  pose proof (Hpow ks ltac:(lia)). pose proof (Hpow kc ltac:(lia)).
  assert (forall T k (read : Z -> option T), 0 <= k <= 31 -> window k head head read []) as Hw.
  { intros T k read Hk. split; try done; [|].
    - change (zlen (@nil T)) with 0. rewrite Z.add_0_r. by rewrite wrap_small.
    - change (zlen (@nil T)) with 0. pose proof (Hpow k ltac:(lia)). lia. }
  split; cbn; try done; try apply Hw; try done.
  - split; cbn; unfold zlen; rewrite ?length_replicate; lia.
  - rewrite map_to_list_empty. constructor.
  - change (outstanding no_reads) with 0. lia.
  - intros q Hq. by apply not_elem_of_nil in Hq.
  - intros q res d Hq. by apply not_elem_of_nil in Hq.
Qed.

(** C28: While no two outstanding reads share an identifier, every interleaving
    of submissions, kernel entries, completions in any order and of any
    length, polls and takes runs without undefined behaviour (no write to or
    read of freed memory, no ring index out of bounds, no lost completion) and
    answers like the service: a taken read yields exactly the bytes the kernel
    produced for it, and the queue is full exactly when the service says so. *)
Theorem uring_reads_exact (ks kc head : Z) (h : heap) (evs : list uring_event)
    (Hks : 0 <= ks <= 31) (Hkc : 0 <= kc <= 31) (Hhead : is_u 32 head)
    (Hids : ids_unique (2 ^ ks) (2 ^ kc) no_reads evs = true) :
  exists s', uring_run (mkSys (fresh_ring ks kc head) h []) evs =
    Some (s', (reads_run (2 ^ ks) (2 ^ kc) no_reads evs).2).
Proof.
  destruct (uring_run_refines ks kc evs id _ no_reads (fresh_ring_rel ks kc head h Hks Hkc Hhead) Hids) as (s' & _ & H & _).
  by exists s'.
Qed.

(** Two reads completing in the other order, across the wrap of the ring
    counters. *)
Definition demo_events : list uring_event :=
  [Submit 3 0 7 [0; 0]; Submit 3 2 8 [0; 0; 0]; Enter 2 0 (Ok 2); Complete 1 3 [4; 5; 6]; Complete 0 1 [9];
   Poll; Poll; Take 8; Take 7; Take 7].

Lemma uring_reads_exact_witness :
  ids_unique (2 ^ 1) (2 ^ 2) no_reads demo_events = true /\
  (exists s', uring_run (mkSys (fresh_ring 1 2 U32_MAX) ∅ []) demo_events =
    Some (s', (reads_run (2 ^ 1) (2 ^ 2) no_reads demo_events).2)).
Proof. split; [reflexivity|]. by apply (uring_reads_exact 1 2 U32_MAX ∅ demo_events). Defined.

(** With a reused identifier the second read's completion releases the first
    read's buffer: taking it frees memory the kernel still writes to. *)
Example reused_identifier_writes_freed_memory :
  match uring_run (mkSys (fresh_ring 1 2 0) ∅ [])
    [Submit 3 0 7 [0; 0]; Submit 3 2 7 [0; 0]; Enter 2 0 (Ok 2); Complete 1 2 [5; 6]; Poll; Take 7] with
  | Some (s, _) => uring_exec s (Complete 0 2 [1; 2]) = None
  | None => False
  end.
Proof. vm_compute. reflexivity. Qed.
End Uring.

(** ** The completion port

    A request is a heap object: its byte buffer and its [OVERLAPPED] block,
    where the kernel leaves the status ([None] while the read is in progress);
    an address is not null.
    Dropping the request frees both. *)
Module Iocp.
Definition ERROR_IO_PENDING : Z := 997.
Definition ERROR_IO_INCOMPLETE : Z := 996.

Inductive IocpError :=
| CreateFailed
| PostFailed
| OpenFailed (code : Z)
| ReadFailed (code : Z)
| CompletionFailed (code : Z).

Record Overlapped := mkOverlapped { ov_offset : Z; ov_offset_high : Z; ov_status : option (result Z Z) }.

(** [PendingRead] of the source. *)
Record OverlappedRead := mkOverlappedRead { pd_key : Z; pd_buffer : Buffer; pd_overlapped : Z }.

Record Completion := mkCompletion { co_bytes : Z; co_key : Z; co_overlapped : Z }.

(** The port, the two heaps, and the kernel: the reads it holds and the
    completion packets it queued, with whether the operation succeeded. *)
Record Port := mkPort {
  po_pending : gmap Z OverlappedRead;
  po_bytes : heap;
  po_blocks : gmap Z Overlapped;
  po_flying : list OverlappedRead;
  po_packets : list (bool * Completion)
}.

Definition drop_request (p : Port) (r : OverlappedRead) : Port :=
  mkPort (po_pending p) (heap_free (po_bytes p) (pd_buffer r)) (delete (pd_overlapped r) (po_blocks p))
    (po_flying p) (po_packets p).

(** [AsyncFile::prepare_read]. *)
Definition prepare_read (p : Port) (offset length key : Z) : Port * result IocpError OverlappedRead :=
  if U32_MAX <? length then (p, Err (ReadFailed 87))
  else
    let '(h, buffer) := heap_alloc (po_bytes p) (replicate (Z.to_nat length) 0) in
    let block := fresh ({[0]} ∪ dom (po_blocks p)) in
    (mkPort (po_pending p) h (<[block := mkOverlapped (wrap 32 offset) (wrap 32 (Z.shiftr offset 32)) None]> (po_blocks p))
       (po_flying p) (po_packets p),
     Ok (mkOverlappedRead key buffer block)).

(** [read_at] up to its system call: [outcome] is [GetLastError] of a refused
    [ReadFile], or none when it succeeded or is pending. *)
Definition read_start (p : Port) (offset length key : Z) (outcome : option Z) : Port * result IocpError OverlappedRead :=
  match prepare_read p offset length key with
  | (p, Err e) => (p, Err e)
  | (p, Ok r) =>
      match outcome with
      | Some code =>
          if negb (code =? ERROR_IO_PENDING) then (drop_request p r, Err (ReadFailed code))
          else (mkPort (po_pending p) (po_bytes p) (po_blocks p) (po_flying p ++ [r]) (po_packets p), Ok r)
      | None => (mkPort (po_pending p) (po_bytes p) (po_blocks p) (po_flying p ++ [r]) (po_packets p), Ok r)
      end
  end.

(** The rest of [read_at], under the lock. *)
Definition read_register (p : Port) (r : OverlappedRead) : Port * Z :=
  (mkPort (<[pd_overlapped r := r]> (po_pending p)) (po_bytes p) (po_blocks p) (po_flying p) (po_packets p),
   pd_overlapped r).

(** [GetQueuedCompletionStatus] dequeues a packet and returns whether its
    operation succeeded. *)
Definition poll (p : Port) : Port * option Completion :=
  match po_packets p with
  | [] => (p, None)
  | (ok, c) :: packets =>
      (mkPort (po_pending p) (po_bytes p) (po_blocks p) (po_flying p) packets,
       if ok && negb (co_overlapped c =? 0) then Some c else None)
  end.

Definition post (p : Port) (c : Completion) (ok : bool) : Port * result IocpError unit :=
  if negb ok then (p, Err PostFailed)
  else (mkPort (po_pending p) (po_bytes p) (po_blocks p) (po_flying p) (po_packets p ++ [(true, c)]), Ok tt).

(** [GetOverlappedResult] without waiting. *)
Definition overlapped_result (block : Overlapped) : result Z Z := default (Err ERROR_IO_INCOMPLETE) (ov_status block).

(** [PendingRead::finish(0)]: the request is consumed, and dropped if the
    result is an error. *)
Definition finish (p : Port) (r : OverlappedRead) : option (Port * result IocpError Buffer) :=
  block ← po_blocks p !! pd_overlapped r;
  match overlapped_result block with
  | Err code => Some (drop_request p r, Err (CompletionFailed code))
  | Ok transferred =>
      Some (mkPort (po_pending p) (po_bytes p) (delete (pd_overlapped r) (po_blocks p)) (po_flying p) (po_packets p),
            Ok (truncate (pd_buffer r) transferred))
  end.

Definition complete_read (p : Port) (overlapped : Z) : option (Port * result IocpError Buffer) :=
  match po_pending p !! overlapped with
  | None => Some (p, Err (CompletionFailed 6))
  | Some r =>
      finish (mkPort (delete overlapped (po_pending p)) (po_bytes p) (po_blocks p) (po_flying p) (po_packets p)) r
  end.

(** The kernel completes the [i]-th read it holds: it writes the bytes and the
    [OVERLAPPED] block, both of which must still be there, and queues a
    packet. *)
Definition kernel_finish (p : Port) (i : nat) (outcome : result Z (list Z)) : option Port :=
  match po_flying p !! i with
  | None => Some p
  | Some r =>
      let data := match outcome with Ok data => data | Err _ => [] end in
      h ← heap_write (po_bytes p) (bf_addr (pd_buffer r)) data;
      block ← po_blocks p !! pd_overlapped r;
      let status := match outcome with Ok data => Ok (zlen data) | Err code => Err code end in
      Some (mkPort (po_pending p) h
              (<[pd_overlapped r := mkOverlapped (ov_offset block) (ov_offset_high block) (Some status)]> (po_blocks p))
              (delete i (po_flying p))
              (po_packets p ++ [(is_ok outcome, mkCompletion (zlen data) (pd_key r) (pd_overlapped r))]))
  end.

(** A read that is registered, completed by the kernel and then taken yields
    the kernel's bytes, and its block is freed. *)
Lemma complete_read_exact p r i data p1 : let (p0, ov) := read_register p r in
  po_flying p0 !! i = Some r -> zlen data <= bf_len (pd_buffer r) -> kernel_finish p0 i (Ok data) = Some p1 ->
  exists p2 b, complete_read p1 ov = Some (p2, Ok b) /\ heap_read (po_bytes p2) b = Some data /\
  po_pending p2 !! ov = None /\ po_blocks p2 !! ov = None.
Proof.
  cbn. intros Hi Hlen. unfold kernel_finish. cbn. rewrite Hi. unfold heap_write.
  destruct (po_bytes p !! bf_addr (pd_buffer r)) as [l|] eqn:Hl; [|done]. cbn [mbind option_bind].
  destruct (zlen data <=? zlen l) eqn:Hd; [|done]. destruct (po_blocks p !! pd_overlapped r) as [block|] eqn:Hb; [|done].
  cbn. intros [= <-]. unfold complete_read. cbn. rewrite lookup_insert_eq. unfold finish. cbn. rewrite lookup_insert_eq. cbn.
  do 2 eexists. split; [done|]. unfold heap_read. cbn. rewrite !lookup_insert_eq, !lookup_delete_eq. cbn. split; [|done].
  f_equal. replace (Z.to_nat (Z.min (bf_len (pd_buffer r)) (zlen data))) with (length data) by (unfold zlen in *; lia).
  by rewrite take_app_length.
Qed.

Definition empty_port : Port := mkPort ∅ ∅ ∅ [] [].

(** Taking a read before its completion returns an error and drops the request
    the kernel still holds: the kernel's write then goes to freed memory. *)
Example early_take_writes_freed_memory :
  match read_start empty_port 0 2 7 (Some ERROR_IO_PENDING) with
  | (p, Ok r) =>
      let (p, ov) := read_register p r in
      match complete_read p ov with
      | Some (p, Err (CompletionFailed 996)) => kernel_finish p 0 (Ok [1; 2]) = None
      | _ => False
      end
  | _ => False
  end.
Proof. vm_compute. reflexivity. Qed.

(** Another thread can see the completion before the read is registered; its
    [complete_read] is then refused. *)
Example completion_before_registration_refused :
  match read_start empty_port 0 2 7 None with
  | (p, Ok r) =>
      match kernel_finish p 0 (Ok [1; 2]) with
      | Some p =>
          match poll p with
          | (p, Some c) => complete_read p (co_overlapped c) = Some (p, Err (CompletionFailed 6))
          | _ => False
          end
      | None => False
      end
  | _ => False
  end.
Proof. vm_compute. reflexivity. Qed.

(** The packet of a failed read is dequeued and reported as no packet: the
    read stays registered, and nothing names it any more. *)
Example failed_read_never_reported :
  match read_start empty_port 0 2 7 None with
  | (p, Ok r) =>
      let (p, ov) := read_register p r in
      match kernel_finish p 0 (Err 38) with
      | Some p =>
          let (p, c) := poll p in
          c = None /\ (poll p).2 = None /\ is_ok (ok_or tt (po_pending p !! ov)) = true
      | None => False
      end
  | _ => False
  end.
Proof. vm_compute. done. Qed.
End Iocp.
