(* ===== verification/NativeAccel.v ===== *)
(** The batch acceleration boundary of [native_accel.rs]: the checked entry
    points with their Rust fallback, the [reference] baselines, and the C
    routines of [native/src/batch_transform.c] that replace the fallback when
    the feature is on.  A panic (a failed assertion, an index out of range) is
    the outer [None]; so is an access of the C code outside its arrays.

    Theorems: the fallback computes the baseline on every input, panics
    included; it panics exactly on the inputs the module's contract excludes;
    the vertex normals, scattered triangle by triangle, are the gathered sums
    of the face normals at each vertex, normalised; the bounding box is the
    least one; the C culling agrees with the Rust one unless a plane distance
    overflows to NaN, and an example shows that it then does not. *)

From stdpp Require Import sets.
From S2P Require Import Prelude F32.

Abbreviation vec3 := (f32 * f32 * f32)%type.

(** [assert!]. *)
Definition assert_ (b : bool) : option unit := if b then Some tt else None.

(** A write [l[i] = x]. *)
Definition store {A} (l : list A) (i : Z) (x : A) : option (list A) := _ ← l !z i; Some (zset l i x).

Definition require_finite (values : list f32) : option unit := assert_ (forallb is_finite values).

(** [u32::try_from(n).expect(..)]. *)
Definition expect_u32 (n : Z) : option Z := if n <=? U32_MAX then Some n else None.

(** [as_chunks::<N>().0]: the whole chunks. *)
Fixpoint chunks3 {A} (l : list A) : list (A * A * A) :=
  match l with x :: y :: z :: l => (x, y, z) :: chunks3 l | _ => [] end.
Fixpoint chunks4 {A} (l : list A) : list (A * A * A * A) :=
  match l with x :: y :: z :: w :: l => (x, y, z, w) :: chunks4 l | _ => [] end.

(** ** Transformation *)

(** [m[0] * x + m[1] * y + m[2] * z + m[3]] of one row of the matrix. *)
Definition row (m : list f32) (r : Z) (p : vec3) : option f32 :=
  let '(x, y, z) := p in
  m0 ← m !z (4 * r); m1 ← m !z (4 * r + 1); m2 ← m !z (4 * r + 2); m3 ← m !z (4 * r + 3);
  Some (fadd (fadd (fadd (fmul m0 x) (fmul m1 y)) (fmul m2 z)) m3).

Definition read3 (l : list f32) (i : Z) : option vec3 :=
  x ← l !z i; y ← l !z (i + 1); z ← l !z (i + 2); Some (x, y, z).

Fixpoint transform_loop (n : nat) (index : Z) (input m output : list f32) : option (list f32) :=
  match n with
  | O => Some output
  | S n =>
      let base := index * 3 in
      p ← read3 input base;
      r0 ← row m 0 p; output ← store output base r0;
      r1 ← row m 1 p; output ← store output (base + 1) r1;
      r2 ← row m 2 p; output ← store output (base + 2) r2;
      transform_loop n (index + 1) input m output
  end.

Definition batch_transform_xyz (input output matrix_3x4 : list f32) : option (list f32) :=
  _ ← assert_ (zlen input mod 3 =? 0);
  _ ← assert_ (zlen input =? zlen output);
  _ ← require_finite input;
  _ ← require_finite matrix_3x4;
  count ← expect_u32 (zlen input / 3);
  transform_loop (Z.to_nat count) 0 input matrix_3x4 output.

Fixpoint reference_points (points outs : list vec3) (matrix : list f32) : option (list f32) :=
  match points, outs with
  | p :: points, _ :: outs =>
      r0 ← row matrix 0 p; r1 ← row matrix 1 p; r2 ← row matrix 2 p;
      rest ← reference_points points outs matrix; Some (r0 :: r1 :: r2 :: rest)
  | _, [] => Some []
  | [], (x, y, z) :: outs => rest ← reference_points [] outs matrix; Some (x :: y :: z :: rest)
  end.

(** [reference::batch_transform_xyz]; the elements after the last whole chunk
    stay. *)
Definition reference_transform (input output matrix : list f32) : option (list f32) :=
  _ ← assert_ (zlen input mod 3 =? 0);
  _ ← assert_ (zlen input =? zlen output);
  _ ← expect_u32 (zlen input / 3);
  _ ← require_finite input;
  _ ← require_finite matrix;
  written ← reference_points (chunks3 input) (chunks3 output) matrix;
  Some (written ++ drop (length written) output).

(** ** Culling *)
Definition fneg (x : f32) : f32 := SFopp x.

Definition plane_distance (plane sphere : f32 * f32 * f32 * f32) : f32 :=
  let '(px, py, pz, pd) := plane in
  let '(sx, sy, sz, _) := sphere in
  fadd (fadd (fadd (fmul px sx) (fmul py sy)) (fmul pz sz)) pd.

(** [visible[object]] of the Rust loop. *)
Definition rust_visible (planes : list (f32 * f32 * f32 * f32)) (sphere : f32 * f32 * f32 * f32) : Z :=
  let '(_, _, _, radius) := sphere in
  Z.b2z (forallb (fun plane => fge (plane_distance plane sphere) (fneg radius)) planes).

Definition read4 (l : list f32) (i : Z) : option (f32 * f32 * f32 * f32) :=
  x ← l !z i; y ← l !z (i + 1); z ← l !z (i + 2); w ← l !z (i + 3); Some (x, y, z, w).

Fixpoint cull_loop (test : f32 * f32 * f32 * f32 -> Z) (n : nat) (object : Z) (spheres : list f32)
    (visible : list Z) : option (list Z) :=
  match n with
  | O => Some visible
  | S n =>
      sphere ← read4 spheres (object * 4);
      visible ← store visible object (test sphere);
      cull_loop test n (object + 1) spheres visible
  end.

Definition rust_batch_cull_spheres (spheres planes : list f32) (visible : list Z) (count : Z) : option (list Z) :=
  cull_loop (rust_visible (chunks4 planes)) (Z.to_nat count) 0 spheres visible.

(** The plane loop of [rke_batch_cull_spheres]: leaves at the first plane the
    sphere is behind of. *)
Fixpoint c_inside (planes : list (f32 * f32 * f32 * f32)) (sphere : f32 * f32 * f32 * f32) : Z :=
  match planes with
  | [] => 1
  | plane :: planes =>
      let '(_, _, _, radius) := sphere in
      if flt (plane_distance plane sphere) (fneg radius) then 0 else c_inside planes sphere
  end.

Definition rke_batch_cull_spheres (spheres planes : list f32) (visible : list Z) (count : Z) : option (list Z) :=
  cull_loop (c_inside (chunks4 planes)) (Z.to_nat count) 0 spheres visible.

(** The checked entry point in front of either implementation. *)
Definition batch_cull_spheres (implementation : list f32 -> list f32 -> list Z -> Z -> option (list Z))
    (spheres planes : list f32) (visible : list Z) : option (list Z) :=
  _ ← assert_ (zlen spheres mod 4 =? 0);
  _ ← assert_ (zlen spheres / 4 =? zlen visible);
  _ ← require_finite spheres;
  _ ← require_finite planes;
  _ ← assert_ (forallb (fun '(_, _, _, radius) => fge radius f32_zero) (chunks4 spheres));
  count ← expect_u32 (zlen visible);
  implementation spheres planes visible count.

(** ** Vertex normals *)
Definition vsub (a b : vec3) : vec3 :=
  let '(ax, ay, az) := a in let '(bx, by_, bz) := b in (fsub ax bx, fsub ay by_, fsub az bz).
Definition vadd (a b : vec3) : vec3 :=
  let '(ax, ay, az) := a in let '(bx, by_, bz) := b in (fadd ax bx, fadd ay by_, fadd az bz).

Definition cross (ab ac : vec3) : vec3 :=
  let '(ab0, ab1, ab2) := ab in
  let '(ac0, ac1, ac2) := ac in
  (fsub (fmul ab1 ac2) (fmul ab2 ac1), fsub (fmul ab2 ac0) (fmul ab0 ac2), fsub (fmul ab0 ac1) (fmul ab1 ac0)).

(** [normals[index + axis] += normal[axis]] for the three axes. *)
Definition add_at (normals : list f32) (index : Z) (n : vec3) : option (list f32) :=
  v ← read3 normals index;
  let '(x, y, z) := vadd v n in
  normals ← store normals index x; normals ← store normals (index + 1) y; store normals (index + 2) z.

Fixpoint scatter (positions : list f32) (triangles : list (Z * Z * Z)) (normals : list f32) : option (list f32) :=
  match triangles with
  | [] => Some normals
  | (ia, ib, ic) :: triangles =>
      let a := ia * 3 in let b := ib * 3 in let c := ic * 3 in
      pa ← read3 positions a; pb ← read3 positions b; pc ← read3 positions c;
      let n := cross (vsub pb pa) (vsub pc pa) in
      normals ← add_at normals a n; normals ← add_at normals b n; normals ← add_at normals c n;
      scatter positions triangles normals
  end.

Definition fsqrt (x : f32) : f32 := SFsqrt 24 128 x.

(** The sum of an [f32] iterator starts at negative zero. *)
Definition normalise (n : vec3) : vec3 :=
  let '(x, y, z) := n in
  let length := fsqrt (fadd (fadd (fadd (S754_zero true) (fmul x x)) (fmul y y)) (fmul z z)) in
  if fgt length f32_zero then (fdiv x length, fdiv y length, fdiv z length) else n.

Definition flatten3 (ns : list vec3) : list f32 := concat (map (fun '(x, y, z) => [x; y; z]) ns).

Definition rust_generate_vertex_normals (positions : list f32) (indices : list Z) (normals : list f32) :
    option (list f32) :=
  normals ← scatter positions (chunks3 indices) (replicate (length normals) f32_zero);
  let written := flatten3 (map normalise (chunks3 normals)) in
  Some (written ++ drop (length written) normals).

Definition generate_vertex_normals (positions : list f32) (indices : list Z) (normals : list f32) :
    option (list f32) :=
  _ ← assert_ (zlen positions mod 3 =? 0);
  _ ← assert_ (zlen indices mod 3 =? 0);
  _ ← assert_ (zlen positions =? zlen normals);
  _ ← require_finite positions;
  vertex_count ← expect_u32 (zlen normals / 3);
  _ ← assert_ (forallb (fun index => index <? vertex_count) indices);
  _ ← expect_u32 (zlen indices);
  rust_generate_vertex_normals positions indices normals.

(** ** Bounds *)
Definition vmin (a b : vec3) : vec3 :=
  let '(ax, ay, az) := a in let '(bx, by_, bz) := b in (fmin ax bx, fmin ay by_, fmin az bz).
Definition vmax (a b : vec3) : vec3 :=
  let '(ax, ay, az) := a in let '(bx, by_, bz) := b in (fmax ax bx, fmax ay by_, fmax az bz).

Definition calculate_aabb (positions : list f32) : option (option (vec3 * vec3)) :=
  match positions with
  | [] => Some None
  | _ =>
      _ ← assert_ (zlen positions mod 3 =? 0);
      _ ← require_finite positions;
      _ ← expect_u32 (zlen positions / 3);
      first ← read3 positions 0;
      Some (Some (foldl (fun '(lo, hi) p => (vmin lo p, vmax hi p)) (first, first) (tail (chunks3 positions))))
  end.

(** One axis of one vertex in [rke_calculate_aabb]. *)
Definition c_widen (lo hi value : f32) : f32 * f32 :=
  (if flt value lo then value else lo, if fgt value hi then value else hi).

(** ** Chunks *)
Lemma chunks3_flatten ns : chunks3 (flatten3 ns) = ns.
Proof. induction ns as [|[[x y] z] ns IH]; [done|]. cbn. by f_equal. Qed.

Lemma length_flatten3 ns : zlen (flatten3 ns) = 3 * zlen ns.
Proof. induction ns as [|[[x y] z] ns IH]; [done|]. cbn [flatten3 map concat app] in *. fold (flatten3 ns). zsimp. lia. Qed.

Lemma flatten_chunks3 l : zlen l mod 3 = 0 -> flatten3 (chunks3 l) = l.
Proof.
  intros Hm. assert (exists n, length l = (3 * n)%nat) as [n Hn].
  { exists (Z.to_nat (zlen l / 3)). unfold zlen in *. pose proof (Z.div_mod (Z.of_nat (length l)) 3). lia. }
  clear Hm. revert l Hn. induction n as [|n IH]; intros l Hn.
  - by destruct l.
  - destruct l as [|x [|y [|z l]]]; try (simpl in Hn; lia). cbn. do 3 f_equal. apply IH. simpl in Hn. lia.
Qed.

Lemma flatten3_app a b : flatten3 (a ++ b) = flatten3 a ++ flatten3 b.
Proof. unfold flatten3. by rewrite map_app, concat_app. Qed.

Lemma chunks3_Forall {A} (P : A -> Prop) : forall (l : list A), Forall P l ->
  Forall (fun '(x, y, z) => P x /\ P y /\ P z) (chunks3 l).
Proof.
  fix IH 1. intros [|x [|y [|z l]]] Hl; cbn; try constructor.
  - inv Hl. inv H2. by inv H4.
  - apply IH. inv Hl. inv H2. by inv H4.
Qed.

Lemma zget_mid {A} (pre rest : list A) x i : i = zlen pre -> (pre ++ x :: rest) !z i = Some x.
Proof. intros ->. unfold zlen. rewrite zget_nat. by apply list_lookup_middle. Qed.

Lemma store_mid {A} (pre rest : list A) x y i : i = zlen pre -> store (pre ++ x :: rest) i y = Some (pre ++ y :: rest).
Proof.
  intros ->. unfold store. rewrite zget_mid by done. cbn [mbind option_bind]. f_equal. unfold zset, zlen.
  destruct (Z.ltb_spec (Z.of_nat (length pre)) 0); [lia|]. rewrite Nat2Z.id.
  rewrite <- (Nat.add_0_r (length pre)). by rewrite insert_app_r.
Qed.

Lemma read3_mid pre rest x y z i : i = zlen pre -> read3 (pre ++ x :: y :: z :: rest) i = Some (x, y, z).
Proof.
  intros ->. unfold read3. rewrite (zget_mid pre _ x (zlen pre)) by done. cbn [mbind option_bind].
  rewrite (cons_middle x), app_assoc, (zget_mid (pre ++ [x]) _ y (zlen pre + 1)) by (zsimp; lia). cbn [mbind option_bind].
  rewrite (cons_middle y), app_assoc, (zget_mid ((pre ++ [x]) ++ [y]) _ z (zlen pre + 2)) by (zsimp; lia). done.
Qed.

Lemma store3_mid {A} (pre rest : list A) x y z x' y' z' i : i = zlen pre ->
  (l ← store (pre ++ x :: y :: z :: rest) i x';
   l ← store l (i + 1) y'; store l (i + 2) z') =
  Some (pre ++ x' :: y' :: z' :: rest).
Proof.
  intros ->. rewrite store_mid by done. cbn [mbind option_bind].
  rewrite (cons_middle x'), app_assoc, store_mid by (zsimp; lia). cbn [mbind option_bind].
  rewrite (cons_middle y'), app_assoc, store_mid by (zsimp; lia). by rewrite <- !app_assoc.
Qed.

(** ** The transform loop and the baseline *)
Lemma transform_loop_spec m points : forall outs index prein preout, length points = length outs ->
  zlen prein = index * 3 -> zlen preout = index * 3 ->
  transform_loop (length points) index (prein ++ flatten3 points) m (preout ++ flatten3 outs) =
  (written ← reference_points points outs m; Some (preout ++ written)).
Proof.
  induction points as [|[[x y] z] points IH]; intros [|[[x' y'] z'] outs] index prein preout Hl Hi Ho;
    try (simpl in Hl; lia); [done|].
  cbn [length transform_loop reference_points flatten3 map concat app]. fold (flatten3 points) (flatten3 outs).
  rewrite read3_mid by done. cbn [mbind option_bind].
  destruct (row m 0 (x, y, z)) as [r0|]; [|done]. cbn [mbind option_bind].
  rewrite store_mid by done. cbn [mbind option_bind]. destruct (row m 1 (x, y, z)) as [r1|]; [|done]. cbn [mbind option_bind].
  rewrite (cons_middle r0), app_assoc, store_mid by (zsimp; lia). cbn [mbind option_bind].
  destruct (row m 2 (x, y, z)) as [r2|]; [|done]. cbn [mbind option_bind].
  rewrite (cons_middle r1), app_assoc, store_mid by (zsimp; lia). cbn [mbind option_bind].
  rewrite (cons_middle r2), app_assoc. rewrite (cons_middle x), (cons_middle y), (cons_middle z), !app_assoc.
  rewrite IH; [|simpl in Hl; lia|zsimp; lia|zsimp; lia].
  destruct (reference_points points outs m) as [w|]; [|done]. cbn [mbind option_bind]. by rewrite <- !app_assoc.
Qed.

Lemma reference_points_length m points : forall outs w, length points = length outs ->
  reference_points points outs m = Some w -> zlen w = 3 * zlen outs.
Proof.
  induction points as [|p points IH]; intros [|o outs] w Hl; try (simpl in Hl; lia); cbn [reference_points].
  - by intros [= <-].
  - destruct (row m 0 p), (row m 1 p), (row m 2 p); try done. cbn [mbind option_bind].
    destruct (reference_points points outs m) as [w'|] eqn:Hw; [|done]. cbn [mbind option_bind]. intros [= <-].
    apply IH in Hw; [|simpl in Hl; lia]. zsimp. lia.
Qed.

(** The fallback and the [reference] baseline of the batch transform are
    the same function, on every input and output buffer, the panics
    included. *)
Theorem transform_matches_reference (input output matrix : list f32) :
  batch_transform_xyz input output matrix = reference_transform input output matrix.
Proof.
  unfold batch_transform_xyz, reference_transform. unfold assert_ at 1 3.
  destruct (Z.eqb_spec (zlen input mod 3) 0) as [Hm|]; [|done]. cbn [mbind option_bind].
  unfold assert_ at 1 2. destruct (Z.eqb_spec (zlen input) (zlen output)) as [Hl|]; [|done]. cbn [mbind option_bind].
  unfold expect_u32. destruct (Z.leb_spec (zlen input / 3) U32_MAX); [|by destruct (require_finite input), (require_finite matrix)].
  cbn [mbind option_bind]. destruct (require_finite input) as [[]|]; [|done]. cbn [mbind option_bind].
  destruct (require_finite matrix) as [[]|]; [|done]. cbn [mbind option_bind].
  pose proof (flatten_chunks3 input Hm) as Hi. pose proof (flatten_chunks3 output ltac:(congruence)) as Ho.
  assert (length (chunks3 input) = length (chunks3 output)) as Hlen.
  { pose proof (length_flatten3 (chunks3 input)). pose proof (length_flatten3 (chunks3 output)).
    rewrite Hi, Ho in *. unfold zlen in *. lia. }
  replace (Z.to_nat (zlen input / 3)) with (length (chunks3 input)).
  2: { pose proof (length_flatten3 (chunks3 input)) as Hc. rewrite Hi in Hc. rewrite Hc, Z.mul_comm, Z.div_mul by lia.
       unfold zlen. lia. }
  pose proof (transform_loop_spec matrix (chunks3 input) (chunks3 output) 0 [] [] Hlen eq_refl eq_refl) as Ht.
  cbn [app] in Ht. rewrite Hi, Ho in Ht. rewrite Ht.
  destruct (reference_points _ _ _) as [w|] eqn:Hw; [|done]. cbn [mbind option_bind].
  apply reference_points_length in Hw; [|done]. pose proof (length_flatten3 (chunks3 output)) as Hc. rewrite Ho in Hc.
  rewrite drop_ge by (unfold zlen in *; lia). by rewrite app_nil_r.
Qed.

(** ** Normals *)
Definition zero3 : vec3 := (f32_zero, f32_zero, f32_zero).

Definition point (points : list vec3) (i : Z) : vec3 := default zero3 (points !z i).

Definition face_normal (points : list vec3) (a b c : Z) : vec3 :=
  cross (vsub (point points b) (point points a)) (vsub (point points c) (point points a)).

(** What the triangles add to vertex [v], in the order of the triangles and of
    their corners. *)
Definition contributions (points : list vec3) (triangles : list (Z * Z * Z)) (v : Z) : list vec3 :=
  concat (map (fun '(a, b, c) =>
    concat (map (fun corner => if corner =? v then [face_normal points a b c] else []) [a; b; c])) triangles).

Definition gathered (points : list vec3) (triangles : list (Z * Z * Z)) (v : Z) : vec3 :=
  normalise (foldl vadd zero3 (contributions points triangles v)).

Lemma flatten_split ns k p : ns !z k = Some p ->
  exists pre rest, flatten3 ns = pre ++ flatten3 [p] ++ rest /\ zlen pre = k * 3 /\
  forall q, flatten3 (zset ns k q) = pre ++ flatten3 [q] ++ rest.
Proof.
  intros Hk. pose proof (zget_Some _ _ _ Hk) as Hr. rewrite zget_lookup in Hk by lia.
  exists (flatten3 (take (Z.to_nat k) ns)), (flatten3 (drop (S (Z.to_nat k)) ns)).
  split; [|split].
  - rewrite <- (take_drop_middle ns (Z.to_nat k) p Hk) at 1. rewrite <- !flatten3_app. done.
  - rewrite length_flatten3. unfold zlen in *. rewrite length_take. lia.
  - intros q. unfold zset. destruct (Z.ltb_spec k 0); [lia|].
    rewrite insert_take_drop by (unfold zlen in *; lia). rewrite <- !flatten3_app. done.
Qed.

Lemma read3_flatten ns k p : ns !z k = Some p -> read3 (flatten3 ns) (k * 3) = Some p.
Proof.
  intros Hk. destruct (flatten_split _ _ _ Hk) as (pre & rest & -> & Hpre & _). destruct p as [[x y] z].
  cbn [flatten3 map concat app]. by apply read3_mid.
Qed.

Lemma add_at_flatten ns k p n : ns !z k = Some p ->
  add_at (flatten3 ns) (k * 3) n = Some (flatten3 (zset ns k (vadd p n))).
Proof.
  intros Hk. unfold add_at. rewrite (read3_flatten _ _ _ Hk). cbn [mbind option_bind].
  destruct (flatten_split _ _ _ Hk) as (pre & rest & -> & Hpre & Hset). rewrite Hset.
  destruct (vadd p n) as [[x' y'] z'], p as [[x y] z]. cbn [flatten3 map concat app]. by apply store3_mid.
Qed.

Definition triangle_ok (n : Z) (t : Z * Z * Z) : Prop :=
  let '(a, b, c) := t in (0 <= a < n) /\ (0 <= b < n) /\ (0 <= c < n).

(** One corner of a triangle. *)
Lemma add_corner (f : Z -> vec3) (ns : list vec3) n k d : zlen ns = n -> 0 <= k < n ->
  (forall v, 0 <= v < n -> ns !z v = Some (f v)) ->
  exists ns', add_at (flatten3 ns) (k * 3) d = Some (flatten3 ns') /\ zlen ns' = n /\
  forall v, 0 <= v < n -> ns' !z v = Some (foldl vadd (f v) (if k =? v then [d] else [])).
Proof.
  intros Hl Hk Hf. exists (zset ns k (vadd (f k) d)). rewrite zlen_zset.
  split; [by apply add_at_flatten, Hf|]. split; [done|]. intros v Hv.
  destruct (Z.eqb_spec k v) as [->|Hne]; [by rewrite zget_zset_eq by lia|].
  rewrite zget_zset_ne by done. by apply Hf.
Qed.

Lemma point_read points i : 0 <= i < zlen points -> read3 (flatten3 points) (i * 3) = Some (point points i).
Proof.
  intros Hi. apply read3_flatten. unfold point. destruct (proj2 (zget_is_Some points i) Hi) as [p ->]. done.
Qed.

Lemma scatter_spec points n triangles : zlen points = n -> Forall (triangle_ok n) triangles ->
  forall (f : Z -> vec3) ns, zlen ns = n -> (forall v, 0 <= v < n -> ns !z v = Some (f v)) ->
  exists ns', scatter (flatten3 points) triangles (flatten3 ns) = Some (flatten3 ns') /\ zlen ns' = n /\
  forall v, 0 <= v < n -> ns' !z v = Some (foldl vadd (f v) (contributions points triangles v)).
Proof.
  intros Hn. induction 1 as [|[[a b] c] triangles (Ha & Hb & Hc) _ IH]; intros f ns Hl Hf.
  - exists ns. by split_and!.
  - cbn [scatter]. rewrite !point_read by lia. cbn [mbind option_bind].
    change (cross (vsub (point points b) (point points a)) (vsub (point points c) (point points a)))
      with (face_normal points a b c).
    destruct (add_corner f ns n a (face_normal points a b c) Hl Ha Hf) as (n1 & -> & Hl1 & Hf1). cbn [mbind option_bind].
    destruct (add_corner _ n1 n b (face_normal points a b c) Hl1 Hb Hf1) as (n2 & -> & Hl2 & Hf2). cbn [mbind option_bind].
    destruct (add_corner _ n2 n c (face_normal points a b c) Hl2 Hc Hf2) as (n3 & -> & Hl3 & Hf3). cbn [mbind option_bind].
    destruct (IH _ n3 Hl3 Hf3) as (ns' & -> & Hl' & Hf'). exists ns'. split_and!; try done. intros v Hv.
    rewrite Hf' by done. f_equal. unfold contributions. cbn [map concat]. rewrite app_nil_r, !foldl_app. done.
Qed.

(** On every input the contract allows, generating vertex normals returns
    one normal per vertex: the face normals of the triangles at the vertex,
    added in order and normalised; on any other input it panics before
    touching the output. *)
Theorem vertex_normals_gathered (positions normals : list f32) (indices : list Z)
    (Hidx : Forall (fun i => 0 <= i) indices) :
  let valid := (zlen positions mod 3 =? 0) && (zlen indices mod 3 =? 0) && (zlen positions =? zlen normals) &&
    forallb is_finite positions && (zlen normals / 3 <=? U32_MAX) &&
    forallb (fun i => i <? zlen normals / 3) indices && (zlen indices <=? U32_MAX) in
  if valid then
    exists ns, generate_vertex_normals positions indices normals = Some (flatten3 ns) /\
    zlen ns = zlen positions / 3 /\
    forall v, 0 <= v < zlen positions / 3 -> ns !z v = Some (gathered (chunks3 positions) (chunks3 indices) v)
  else generate_vertex_normals positions indices normals = None.
Proof.
  cbn zeta. unfold generate_vertex_normals, assert_, require_finite, assert_, expect_u32.
  destruct (Z.eqb_spec (zlen positions mod 3) 0) as [Hp|]; [|done].
  destruct (Z.eqb_spec (zlen indices mod 3) 0) as [Hi|]; [|done].
  destruct (Z.eqb_spec (zlen positions) (zlen normals)) as [Hl|]; [|done].
  destruct (forallb is_finite positions); [|done].
  destruct (zlen normals / 3 <=? U32_MAX); [|done]. cbn [andb mbind option_bind].
  destruct (forallb (fun i => i <? zlen normals / 3) indices) eqn:Hb; [|done].
  destruct (zlen indices <=? U32_MAX); [|done]. cbn [andb mbind option_bind].
  pose proof (flatten_chunks3 positions Hp) as Hfp. set (points := chunks3 positions) in *.
  assert (zlen points = zlen positions / 3) as Hpl.
  { rewrite <- Hfp, length_flatten3, Z.mul_comm, Z.div_mul; lia. }
  set (n := zlen positions / 3) in *. rewrite <- Hl in Hb. fold n in Hb.
  assert (Forall (triangle_ok n) (chunks3 indices)) as Htri.
  { eapply Forall_impl; [|apply (chunks3_Forall (fun i => 0 <= i < n))].
    - intros [[a b] c] H. exact H.
    - rewrite forallb_forall in Hb. rewrite Forall_forall in *. intros i Hin. specialize (Hb i Hin). specialize (Hidx i Hin). lia. }
  assert (replicate (length normals) f32_zero = flatten3 (replicate (Z.to_nat n) zero3)) as Hrep.
  { assert (length normals = Z.to_nat n * 3)%nat as ->.
    { unfold zlen in Hl. pose proof (length_flatten3 points) as H. rewrite Hfp in H. unfold zlen in H, Hpl, Hl. lia. }
    induction (Z.to_nat n) as [|k IH]; [done|]. cbn. by rewrite IH. }
  pose proof (zlen_nonneg points).
  destruct (scatter_spec points n (chunks3 indices) Hpl Htri (fun _ => zero3) (replicate (Z.to_nat n) zero3))
    as (ns & Hs & Hns & Hf).
  { unfold zlen. rewrite length_replicate. lia. }
  { intros v Hv. rewrite zget_lookup by lia. apply lookup_replicate_2. lia. }
  unfold rust_generate_vertex_normals. rewrite <- Hfp, Hrep, Hs. cbn [mbind option_bind]. rewrite chunks3_flatten.
  exists (map normalise ns). assert (zlen (map normalise ns) = n) as Hmn by (unfold zlen in *; by rewrite length_map).
  rewrite drop_ge.
  2: { pose proof (length_flatten3 ns). pose proof (length_flatten3 (map normalise ns)). unfold zlen in *. lia. }
  rewrite app_nil_r. split; [done|]. split; [done|]. intros v Hv.
  rewrite zget_lookup by lia. change (map normalise ns) with (normalise <$> ns). rewrite list_lookup_fmap.
  rewrite <- zget_lookup by lia. by rewrite Hf.
Qed.

Definition one_triangle : list f32 :=
  [f32_zero; f32_zero; f32_zero; f32_one; f32_zero; f32_zero; f32_zero; f32_one; f32_zero].

Lemma vertex_normals_gathered_witness :
  Forall (fun i => 0 <= i) [0; 1; 2] /\
  exists ns, generate_vertex_normals one_triangle [0; 1; 2] (replicate 9 f32_zero) = Some (flatten3 ns) /\
  zlen ns = zlen one_triangle / 3 /\
  forall v, 0 <= v < zlen one_triangle / 3 -> ns !z v = Some (gathered (chunks3 one_triangle) (chunks3 [0; 1; 2]) v).
Proof.
  assert (Forall (fun i => 0 <= i) [0; 1; 2]) as H by (repeat constructor; lia).
  split; [exact H|]. exact (vertex_normals_gathered one_triangle (replicate 9 f32_zero) [0; 1; 2] H).
Defined.

Example triangle_normal_up :
  generate_vertex_normals one_triangle [0; 1; 2] (replicate 9 f32_zero) =
  Some (flatten3 (replicate 3 (f32_zero, f32_zero, f32_one))).
Proof. vm_compute. reflexivity. Qed.

(** ** Bounds *)
Definition px (p : vec3) : f32 := p.1.1.
Definition py (p : vec3) : f32 := p.1.2.
Definition pz (p : vec3) : f32 := p.2.

Lemma fmin_cases x y : is_nan x = false -> is_nan y = false ->
  fle (fmin x y) x = true /\ fle (fmin x y) y = true /\ (fmin x y = x \/ fmin x y = y).
Proof.
  intros Hx Hy. unfold fmin. rewrite Hx, Hy, flt_negb by done. destruct (fle x y) eqn:He; cbn.
  - by rewrite fle_refl; auto.
  - destruct (fle_total x y Hx Hy); [congruence|]. rewrite (fle_refl y) by done. auto.
Qed.

Lemma fmax_cases x y : is_nan x = false -> is_nan y = false ->
  fle x (fmax x y) = true /\ fle y (fmax x y) = true /\ (fmax x y = x \/ fmax x y = y).
Proof.
  intros Hx Hy. unfold fmax. rewrite Hx, Hy, flt_negb by done. destruct (fle y x) eqn:He; cbn.
  - by rewrite fle_refl; auto.
  - destruct (fle_total x y Hx Hy); [|congruence]. rewrite (fle_refl y) by done. auto.
Qed.

(** Folding a choice between two values that is on the right side of both. *)
Lemma fold_bound (f : f32 -> f32 -> f32) (le : f32 -> f32 -> Prop) :
  (forall x y, is_nan x = false -> is_nan y = false -> le (f x y) x /\ le (f x y) y /\ (f x y = x \/ f x y = y)) ->
  (forall x, is_nan x = false -> le x x) -> (forall x y z, le x y -> le y z -> le x z) ->
  forall l x, is_nan x = false -> Forall (fun y => is_nan y = false) l ->
  foldl f x l ∈ x :: l /\ forall y, y ∈ x :: l -> le (foldl f x l) y.
Proof.
  intros Hf Hrefl Htrans l. induction l as [|z l IH]; intros x Hx Hl.
  - split; [set_solver|]. intros y ->%list_elem_of_singleton. by apply Hrefl.
  - inv Hl. destruct (Hf x z Hx ltac:(done)) as (Hle1 & Hle2 & Hor). cbn [foldl].
    destruct (IH (f x z)) as [Hin Hle]; [destruct Hor as [->| ->]; done|done|]. split.
    + apply elem_of_cons in Hin as [->|Hin]; [destruct Hor as [->| ->]; set_solver|set_solver].
    + intros y. rewrite !elem_of_cons. intros [->|[->|Hy]].
      * eapply Htrans; [apply Hle; by left|done].
      * eapply Htrans; [apply Hle; by left|done].
      * apply Hle. by right.
Qed.

Lemma aabb_axis (proj : vec3 -> f32) points first lo0 hi0 :
  (forall a b, proj (vmin a b) = fmin (proj a) (proj b)) -> (forall a b, proj (vmax a b) = fmax (proj a) (proj b)) ->
  (lo0, hi0) = foldl (fun '(lo, hi) p => (vmin lo p, vmax hi p)) (first, first) points ->
  Forall (fun p => is_nan (proj p) = false) (first :: points) ->
  (proj lo0 ∈ map proj (first :: points) /\ proj hi0 ∈ map proj (first :: points)) /\
  forall p, p ∈ first :: points -> fle (proj lo0) (proj p) = true /\ fle (proj p) (proj hi0) = true.
Proof.
  intros Hmin Hmax He Hnan. assert (forall l a b, foldl (fun '(lo, hi) p => (vmin lo p, vmax hi p)) (a, b) l =
    (foldl vmin a l, foldl vmax b l)) as Hpair by (intros l; induction l; intros; cbn; auto).
  rewrite Hpair in He. injection He as -> ->.
  assert (forall f g l a, (forall a b, proj (f a b) = g (proj a) (proj b)) -> proj (foldl f a l) = foldl g (proj a) (map proj l)) as Hproj.
  { intros f g l. induction l as [|b l IH]; intros a Hfg; [done|]. cbn. by rewrite IH, Hfg. }
  rewrite !(Hproj vmin fmin), !(Hproj vmax fmax) by done. inv Hnan.
  assert (Forall (fun y => is_nan y = false) (map proj points)) as Hl by by apply Forall_fmap.
  destruct (fold_bound fmin (fun x y => fle x y = true) fmin_cases fle_refl fle_trans _ _ ltac:(done) Hl) as [Hin1 Hle1].
  destruct (fold_bound fmax (fun x y => fle y x = true) fmax_cases fle_refl (fun x y z H1 H2 => fle_trans z y x H2 H1) _ _ ltac:(done) Hl)
    as [Hin2 Hle2].
  split; [done|]. intros p Hp. assert (proj p ∈ map proj (first :: points)) as Hpin by (apply list_elem_of_fmap; eauto).
  split; [by apply Hle1|by apply Hle2].
Qed.

Lemma axis_cases proj : proj ∈ [px; py; pz] -> proj = px \/ proj = py \/ proj = pz.
Proof. set_solver. Qed.

(** The bounding box of a non-empty finite mesh contains every vertex, and
    each of its six bounds is a coordinate of some vertex. *)
Theorem aabb_tight (positions : list f32) (Hne : positions <> []) (Hm : zlen positions mod 3 = 0)
    (Hfin : Forall (fun x => is_finite x = true) positions) (Hn : zlen positions / 3 <= U32_MAX) :
  exists lo hi, calculate_aabb positions = Some (Some (lo, hi)) /\
  (forall proj, proj ∈ [px; py; pz] ->
    (proj lo ∈ map proj (chunks3 positions) /\ proj hi ∈ map proj (chunks3 positions)) /\
    forall p, p ∈ chunks3 positions -> fle (proj lo) (proj p) = true /\ fle (proj p) (proj hi) = true).
Proof.
  unfold calculate_aabb, assert_, require_finite, assert_, expect_u32.
  assert (forallb is_finite positions = true) as Hfb by by apply forallb_forall, Forall_forall.
  destruct positions as [|x0 rest0] eqn:Hpos; [done|]. rewrite <- Hpos in *.
  rewrite (proj2 (Z.eqb_eq _ _) Hm), Hfb, (proj2 (Z.leb_le _ _) Hn). cbn [mbind option_bind].
  pose proof (flatten_chunks3 positions Hm) as Hfp.
  destruct (chunks3 positions) as [|first points] eqn:Hc; [by rewrite <- Hfp in Hne|].
  assert (read3 positions 0 = Some first) as ->.
  { rewrite <- Hfp. apply (read3_flatten (first :: points) 0). done. }
  cbn [mbind option_bind tail]. destruct (foldl _ _ points) as [lo hi] eqn:Hfold. exists lo, hi. split; [done|].
  assert (Forall (fun '(x, y, z) => is_nan x = false /\ is_nan y = false /\ is_nan z = false) (first :: points)) as Hnan.
  { rewrite <- Hc. apply (chunks3_Forall (fun x => is_nan x = false)). eapply Forall_impl; [|exact Hfin].
    intros x. apply finite_not_nan. }
  intros proj Hproj%axis_cases. apply aabb_axis.
  - intros [[a1 a2] a3] [[b1 b2] b3]. by destruct Hproj as [->|[->| ->]].
  - intros [[a1 a2] a3] [[b1 b2] b3]. by destruct Hproj as [->|[->| ->]].
  - done.
  - eapply Forall_impl; [|exact Hnan]. intros [[x y] z] (? & ? & ?). by destruct Hproj as [->|[->| ->]].
Qed.

Lemma aabb_tight_witness :
  exists lo hi, calculate_aabb one_triangle = Some (Some (lo, hi)) /\
  (forall proj, proj ∈ [px; py; pz] ->
    (proj lo ∈ map proj (chunks3 one_triangle) /\ proj hi ∈ map proj (chunks3 one_triangle)) /\
    forall p, p ∈ chunks3 one_triangle -> fle (proj lo) (proj p) = true /\ fle (proj p) (proj hi) = true).
Proof. apply aabb_tight; [done|done|by repeat constructor|done]. Defined.

(** The C routine widens the box by the same values. *)
Lemma c_widen_same lo hi v : is_finite lo = true -> is_finite hi = true -> is_finite v = true ->
  c_widen lo hi v = (fmin lo v, fmax hi v).
Proof. intros ?%finite_not_nan ?%finite_not_nan ?%finite_not_nan. unfold c_widen, fmin, fmax, fgt. by rewrite H, H0, H1. Qed.

(** ** The two culling implementations *)
Lemma chunk4_of k : forall l s, read4 l (Z.of_nat k * 4) = Some s -> s ∈ chunks4 l.
Proof.
  assert (forall (a b c d : f32) l i, 0 <= i -> (a :: b :: c :: d :: l) !z (i + 4) = l !z i) as Hcons.
  { intros a b c d l i Hi. rewrite !zget_lookup by lia. by replace (Z.to_nat (i + 4)) with (4 + Z.to_nat i)%nat by lia. }
  induction k as [|k IH]; intros l s.
  - destruct l as [|a [|b [|c [|d l]]]]; cbn; try done. intros [= <-]. by left.
  - destruct l as [|a [|b [|c [|d l]]]].
    1, 2, 3, 4: unfold read4; rewrite (proj2 (zget_None _ (Z.of_nat (S k) * 4))) by (unfold zlen; cbn [length]; lia); done.
    unfold read4 in *. replace (Z.of_nat (S k) * 4) with (Z.of_nat k * 4 + 4) by lia.
    rewrite (Z.add_comm (Z.of_nat k * 4 + 4) 1), (Z.add_comm (Z.of_nat k * 4 + 4) 2), (Z.add_comm (Z.of_nat k * 4 + 4) 3),
      !Z.add_assoc, !Hcons by lia.
    rewrite !(Z.add_comm _ (Z.of_nat k * 4)). intros Hs. cbn. right. by apply IH.
Qed.

Lemma cull_loop_ext (f g : f32 * f32 * f32 * f32 -> Z) spheres n : (forall s, s ∈ chunks4 spheres -> f s = g s) ->
  forall (k : nat) visible, cull_loop f n (Z.of_nat k) spheres visible = cull_loop g n (Z.of_nat k) spheres visible.
Proof.
  intros Hfg. induction n as [|n IH]; intros k visible; [done|]. cbn [cull_loop].
  destruct (read4 spheres (Z.of_nat k * 4)) as [s|] eqn:Hs; [|done]. cbn [mbind option_bind].
  rewrite Hfg by by eapply chunk4_of. destruct (store visible (Z.of_nat k) (g s)) as [v|]; [|done]. cbn [mbind option_bind].
  specialize (IH (S k) v). by replace (Z.of_nat k + 1) with (Z.of_nat (S k)) by lia.
Qed.

Lemma inside_same planes s : is_finite (s.2) = true ->
  Forall (fun p => is_nan (plane_distance p s) = false) planes -> c_inside planes s = rust_visible planes s.
Proof.
  destruct s as [[[x y] z] r]. cbn [snd]. intros Hr%finite_not_nan Hp. unfold rust_visible.
  assert (is_nan (fneg r) = false) as Hn by by destruct r.
  induction Hp as [|p planes Hd _ IH]; [done|]. cbn [c_inside forallb]. unfold fge at 1. rewrite flt_negb by done.
  by destruct (fle (fneg r) (plane_distance p (x, y, z, r))).
Qed.

Lemma chunk4_finite : forall l s, (forall x, In x l -> is_finite x = true) -> s ∈ chunks4 l -> is_finite (s.2) = true.
Proof.
  fix IH 1. intros [|a [|b [|c [|d l]]]] s Hf Hs; cbn in Hs; try by apply not_elem_of_nil in Hs.
  apply elem_of_cons in Hs as [->|Hs]; [apply Hf; cbn; auto|]. apply (IH l); [|done]. intros x Hx. apply Hf. cbn. auto.
Qed.

(** On every input for which no plane distance is NaN, the C routine and
    the Rust loop cull the same spheres (and panic on the same inputs). *)
Theorem culling_paths_agree (spheres planes : list f32) (visible : list Z)
    (Hd : Forall (fun s => Forall (fun p => is_nan (plane_distance p s) = false) (chunks4 planes)) (chunks4 spheres)) :
  batch_cull_spheres rke_batch_cull_spheres spheres planes visible =
  batch_cull_spheres rust_batch_cull_spheres spheres planes visible.
Proof.
  unfold batch_cull_spheres. destruct (assert_ (zlen spheres mod 4 =? 0)); [|done]. cbn [mbind option_bind].
  destruct (assert_ (zlen spheres / 4 =? zlen visible)); [|done]. cbn [mbind option_bind].
  destruct (require_finite spheres) eqn:Hfin; [|done]. cbn [mbind option_bind].
  destruct (require_finite planes); [|done]. cbn [mbind option_bind].
  destruct (assert_ (forallb _ (chunks4 spheres))); [|done]. cbn [mbind option_bind].
  destruct (expect_u32 (zlen visible)) as [count|]; [|done]. cbn [mbind option_bind].
  unfold require_finite, assert_ in Hfin. destruct (forallb is_finite spheres) eqn:Hf; [|done]. rewrite forallb_forall in Hf.
  refine (cull_loop_ext _ _ _ _ _ 0 _). intros s Hs. rewrite Forall_forall in Hd.
  apply inside_same; [by apply (chunk4_finite spheres)|by apply Hd, list_elem_of_In].
Qed.

Definition demo_planes : list f32 := concat (replicate 6 [f32_one; f32_zero; f32_zero; f32_one]).

Lemma culling_paths_agree_witness :
  let spheres := [f32_zero; f32_zero; f32_zero; f32_one; f32_of_Z (-3); f32_zero; f32_zero; f32_one] in
  Forall (fun s => Forall (fun p => is_nan (plane_distance p s) = false) (chunks4 demo_planes)) (chunks4 spheres) /\
  batch_cull_spheres rke_batch_cull_spheres spheres demo_planes [7; 7] =
  batch_cull_spheres rust_batch_cull_spheres spheres demo_planes [7; 7].
Proof.
  assert (Forall (fun s => Forall (fun p => is_nan (plane_distance p s) = false) (chunks4 demo_planes))
    (chunks4 [f32_zero; f32_zero; f32_zero; f32_one; f32_of_Z (-3); f32_zero; f32_zero; f32_one])) as H
    by (repeat constructor).
  split; [exact H|]. exact (culling_paths_agree _ demo_planes [7; 7] H).
Defined.

(** Finite inputs whose distance overflows to NaN: the Rust loop culls the
    sphere, the C routine keeps it. *)
Example culling_paths_differ_on_nan :
  let spheres := [f32_MAX; f32_MAX; f32_zero; f32_one] in
  let planes := concat (replicate 6 [f32_MAX; fneg f32_MAX; f32_zero; f32_zero]) in
  batch_cull_spheres rust_batch_cull_spheres spheres planes [7] = Some [0] /\
  batch_cull_spheres rke_batch_cull_spheres spheres planes [7] = Some [1].
Proof. vm_compute. done. Qed.
