(* ===== verification/Barrier.v ===== *)
(** The reusable barrier of [platform/linux/threading.rs] ([FutexBarrier]; the
    Windows [WaitOnAddressBarrier] runs the same steps) as a transition
    system: each atomic operation of [wait] is a step of one thread, the futex
    compares and sleeps atomically, sleepers may also wake spuriously.

    A program point carries how many waits the thread has finished, which no
    step tests.  The read-modify-write operations and per-location coherence
    make each load of [sense] return its current value at these points, so the
    interleavings are those of sequential consistency.

    Theorems: no thread leaves its [k]-th wait before all have entered theirs;
    between two entries only boundedly many steps are possible, and a state
    with every thread inside [wait] always has a thread that can run, so a
    round in which all threads arrive ends with all of them released. *)

From S2P Require Import Prelude.

Definition I32_MAX : Z := 2147483647.

(** Program points of [wait]. *)
Inductive point :=
| Idle                 (* outside *)
| Entered (sense : Z)  (* sense loaded *)
| Resetting            (* last to arrive, before the store of count *)
| Flipping             (* before the increment of sense *)
| Waking               (* before futex_wake *)
| Looping (sense : Z)  (* at the head of the loop *)
| Parking (sense : Z)  (* before futex_wait *)
| Asleep (sense : Z).

Record thread := mkThread { th_done : Z; th_point : point }.

Record FutexBarrier := mkBarrier {
  fb_count : Z;
  fb_sense : Z;
  fb_total : Z;
  fb_threads : list thread
}.

(** [FutexBarrier::new], shared by [n] threads. *)
Definition barrier_new (total : Z) (n : nat) : FutexBarrier :=
  mkBarrier 0 0 (Z.max total 1) (replicate n (mkThread 0 Idle)).

(** The kernel wakes up to [n] sleepers. *)
Fixpoint futex_wake (n : Z) (threads : list thread) : list thread :=
  match threads with
  | [] => []
  | t :: threads =>
      match th_point t with
      | Asleep s =>
          if 0 <? n then mkThread (th_done t) (Looping s) :: futex_wake (n - 1) threads
          else t :: futex_wake n threads
      | _ => t :: futex_wake n threads
      end
  end.

Definition fb_with (b : FutexBarrier) (i : nat) (t : thread) : FutexBarrier :=
  mkBarrier (fb_count b) (fb_sense b) (fb_total b) (<[i := t]> (fb_threads b)).

(** One step of thread [i]; [None] when it sleeps. *)
Definition barrier_step (b : FutexBarrier) (i : nat) : option FutexBarrier :=
  t ← fb_threads b !! i;
  let k := th_done t in
  match th_point t with
  | Idle => Some (fb_with b i (mkThread k (Entered (fb_sense b))))
  | Entered my_sense =>
      let arrived := fb_count b + 1 in
      let b := mkBarrier (wrapping_add 32 (fb_count b) 1) (fb_sense b) (fb_total b) (fb_threads b) in
      Some (fb_with b i (mkThread k (if arrived =? fb_total b then Resetting else Looping my_sense)))
  | Resetting =>
      Some (fb_with (mkBarrier 0 (fb_sense b) (fb_total b) (fb_threads b)) i (mkThread k Flipping))
  | Flipping =>
      Some (fb_with (mkBarrier (fb_count b) (wrapping_add 32 (fb_sense b) 1) (fb_total b) (fb_threads b))
              i (mkThread k Waking))
  | Waking =>
      Some (fb_with (mkBarrier (fb_count b) (fb_sense b) (fb_total b) (futex_wake I32_MAX (fb_threads b)))
              i (mkThread (k + 1) Idle))
  | Looping my_sense =>
      Some (fb_with b i
              (if negb (fb_sense b =? my_sense) then mkThread (k + 1) Idle else mkThread k (Parking my_sense)))
  | Parking my_sense =>
      Some (fb_with b i (mkThread k (if fb_sense b =? my_sense then Asleep my_sense else Looping my_sense)))
  | Asleep _ => None
  end.

(** A wake-up nobody asked for. *)
Definition spurious_wake (b : FutexBarrier) (i : nat) : option FutexBarrier :=
  t ← fb_threads b !! i;
  match th_point t with
  | Asleep s => Some (fb_with b i (mkThread (th_done t) (Looping s)))
  | _ => None
  end.

Inductive barrier_reaches (b : FutexBarrier) : FutexBarrier -> Prop :=
| reaches_refl : barrier_reaches b b
| reaches_step b1 b2 i : barrier_reaches b b1 -> barrier_step b1 i = Some b2 -> barrier_reaches b b2
| reaches_spurious b1 b2 i : barrier_reaches b b1 -> spurious_wake b1 i = Some b2 -> barrier_reaches b b2.

(** The waits a thread has arrived in: past the increment of [count]. *)
Definition arrivals (t : thread) : Z :=
  match th_point t with Idle | Entered _ => th_done t | _ => th_done t + 1 end.

(** The waits a thread has called. *)
Definition entries (t : thread) : Z :=
  match th_point t with Idle => th_done t | _ => th_done t + 1 end.

(** [k] steps of threads inside [wait], and [m] spurious wake-ups. *)
Inductive inside_run (b : FutexBarrier) : Z -> Z -> FutexBarrier -> Prop :=
| inside_refl : inside_run b 0 0 b
| inside_step k m b1 b2 i t : inside_run b k m b1 -> fb_threads b1 !! i = Some t -> th_point t <> Idle ->
    barrier_step b1 i = Some b2 -> inside_run b (k + 1) m b2
| inside_spurious k m b1 b2 i : inside_run b k m b1 -> spurious_wake b1 i = Some b2 -> inside_run b k (m + 1) b2.

(** No thread inside [wait] can run. *)
Definition at_rest (b : FutexBarrier) : Prop :=
  forall i t, fb_threads b !! i = Some t -> th_point t = Idle \/ barrier_step b i = None.

(** ** Sums over threads *)
Fixpoint sum (f : thread -> Z) (l : list thread) : Z :=
  match l with [] => 0 | t :: l => f t + sum f l end.

Lemma sum_insert f l i t t' : l !! i = Some t -> sum f (<[i := t']> l) = sum f l - f t + f t'.
Proof.
  revert i. induction l as [|u l IH]; intros [|i] Hi; simplify_eq/=; [lia|]. rewrite (IH i) by done. lia.
Qed.

Lemma sum_nonneg f l : (forall t, 0 <= f t) -> 0 <= sum f l.
Proof. intros Hf. induction l as [|t l IH]; cbn; [lia|]. specialize (Hf t). lia. Qed.

Lemma sum_lookup f l i t : (forall t, 0 <= f t) -> l !! i = Some t -> f t <= sum f l.
Proof.
  intros Hf. revert i. induction l as [|u l IH]; intros [|i] Hi; simplify_eq/=.
  - pose proof (sum_nonneg f l Hf). lia.
  - specialize (IH i Hi). specialize (Hf u). lia.
Qed.

Lemma sum_two f l i j t u : (forall t, 0 <= f t) -> i <> j -> l !! i = Some t -> l !! j = Some u -> f t + f u <= sum f l.
Proof.
  intros Hf. revert i j. induction l as [|v l IH]; intros [|i] [|j] Hne Hi Hj; simplify_eq/=.
  - pose proof (sum_lookup f l j u Hf Hj). lia.
  - pose proof (sum_lookup f l i t Hf Hi). lia.
  - specialize (Hf v). specialize (IH i j ltac:(congruence) Hi Hj). lia.
Qed.

Lemma sum_add f g l : sum (fun t => f t + g t) l = sum f l + sum g l.
Proof. induction l as [|t l IH]; cbn [sum]; [done|]. rewrite IH. lia. Qed.

Lemma sum_map f g l : (forall t, f (g t) = f t) -> sum f (map g l) = sum f l.
Proof. intros Hg. induction l as [|t l IH]; cbn; [done|]. by rewrite Hg, IH. Qed.

Lemma sum_ge f l c : (forall i t, l !! i = Some t -> c <= f t) -> c * zlen l <= sum f l.
Proof.
  intros Hf. induction l as [|t l IH]; cbn; [change (zlen (@nil thread)) with 0; lia|]. rewrite zlen_cons.
  pose proof (Hf 0%nat t eq_refl). specialize (IH (fun i => Hf (S i))). lia.
Qed.

Lemma sum_le f l c : (forall i t, l !! i = Some t -> f t <= c) -> sum f l <= c * zlen l.
Proof.
  intros Hf. induction l as [|t l IH]; cbn; [change (zlen (@nil thread)) with 0; lia|]. rewrite zlen_cons.
  pose proof (Hf 0%nat t eq_refl). specialize (IH (fun i => Hf (S i))). lia.
Qed.

(** With few enough threads every sleeper is woken. *)
Definition woken (t : thread) : thread :=
  match th_point t with Asleep s => mkThread (th_done t) (Looping s) | _ => t end.

Lemma futex_wake_all l : forall n, zlen l <= n -> futex_wake n l = map woken l.
Proof.
  induction l as [|t l IH]; intros n Hn; [done|]. rewrite zlen_cons in Hn. pose proof (zlen_nonneg l).
  cbn [futex_wake map]. unfold woken at 1. destruct (th_point t); rewrite ?IH by lia; try done.
  destruct (Z.ltb_spec 0 n); [done|lia].
Qed.

(** ** The invariant

    [G] is the generation: the waits every thread has arrived in, or is about
    to.  In generation [G] a thread has not arrived, waits, releases, or is
    still leaving generation [G - 1]. *)
Definition thread_ok (G : Z) (t : thread) : Prop :=
  match th_point t with
  | Idle => th_done t = G
  | Entered s => th_done t = G /\ s = wrap 32 G
  | Resetting | Flipping => th_done t = G
  | Waking => th_done t = G - 1
  | Looping s | Parking s | Asleep s => (th_done t = G \/ th_done t = G - 1) /\ s = wrap 32 (th_done t)
  end.

Definition here (G : Z) (t : thread) : Z := if arrivals t =? G + 1 then 1 else 0.
Definition resetting (t : thread) : Z := match th_point t with Resetting => 1 | _ => 0 end.
Definition flipping (t : thread) : Z := match th_point t with Flipping => 1 | _ => 0 end.
Definition waking (t : thread) : Z := match th_point t with Waking => 1 | _ => 0 end.

Record barrier_inv (n G : Z) (b : FutexBarrier) : Prop := {
  bi_generation : 0 <= G;
  bi_size : 1 <= n <= I32_MAX;
  bi_total : fb_total b = n;
  bi_threads : zlen (fb_threads b) = n;
  bi_sense : fb_sense b = wrap 32 G;
  bi_ok i t : fb_threads b !! i = Some t -> thread_ok G t;
  bi_count :
    let H := sum (here G) (fb_threads b) in
    let Rs := sum resetting (fb_threads b) in
    (Rs + sum flipping (fb_threads b) = 0 /\ fb_count b = H /\ H < n) \/
    (Rs + sum flipping (fb_threads b) = 1 /\ H = n /\ fb_count b = n * Rs);
  bi_wake i t s : fb_threads b !! i = Some t -> th_point t = Asleep s -> th_done t = G - 1 ->
    1 <= sum waking (fb_threads b)
}.

Lemma here_bound G t : 0 <= here G t <= 1.
Proof. unfold here. case_match; lia. Qed.
Lemma resetting_nonneg t : 0 <= resetting t.
Proof. unfold resetting. case_match; lia. Qed.
Lemma flipping_nonneg t : 0 <= flipping t.
Proof. unfold flipping. case_match; lia. Qed.
Lemma waking_nonneg t : 0 <= waking t.
Proof. unfold waking. case_match; lia. Qed.

Lemma wrap_ne G : wrap 32 (G - 1) <> wrap 32 G.
Proof. intros He. symmetry in He. apply wrap_eq_sub in He; lia. Qed.

(** Everyone has arrived. *)
Lemma all_here G l i t : sum (here G) l = zlen l -> l !! i = Some t -> here G t = 1.
Proof.
  intros Hs Hi. assert (sum (fun t => 1 - here G t) l = zlen l - sum (here G) l) as He.
  { clear. induction l as [|t l IH]; cbn [sum]; [done|]. rewrite zlen_cons, IH. lia. }
  pose proof (sum_lookup (fun t => 1 - here G t) l i t) as Hl. pose proof (here_bound G t).
  assert (forall t, 0 <= 1 - here G t) as Hnn by (intros u; pose proof (here_bound G u); lia).
  specialize (Hl Hnn Hi). cbn in Hl. lia.
Qed.

Lemma threads_insert n G b i t' : zlen (fb_threads b) = n -> (forall j t, fb_threads b !! j = Some t -> thread_ok G t) ->
  thread_ok G t' -> zlen (<[i := t']> (fb_threads b)) = n /\
  forall j t, <[i := t']> (fb_threads b) !! j = Some t -> thread_ok G t.
Proof.
  intros Hl Hok Ht. split; [unfold zlen in *; by rewrite length_insert|].
  intros j t [(-> & <- & _)|[_ Hj]]%list_lookup_insert_Some; eauto.
Qed.

(** Steps that change one thread and neither the word nor what the sums
    count. *)
Lemma barrier_inv_same n G b i t t' : barrier_inv n G b -> fb_threads b !! i = Some t -> thread_ok G t' ->
  here G t' = here G t -> resetting t' = resetting t -> flipping t' = flipping t -> waking t' = waking t ->
  (forall s, th_point t' = Asleep s -> th_done t' = G - 1 -> False) ->
  barrier_inv n G (fb_with b i t').
Proof.
  intros [] Hi Hok Hh Hr Hf Hw Hs.
  destruct (threads_insert n G b i t' bi_threads0 bi_ok0 Hok) as [Hl Hok'].
  split; cbn; rewrite ?(sum_insert _ _ _ _ _ Hi); try done.
  - rewrite Hh, Hr, Hf. cbn in *. by rewrite !Z.sub_add.
  - intros j u s [(-> & <- & _)|[_ Hj]]%list_lookup_insert_Some Hp Hd; [by destruct (Hs s)|].
    rewrite Hw, Z.sub_add. by eapply bi_wake0.
Qed.

Lemma inv_arrive n G b i t s : barrier_inv n G b -> fb_threads b !! i = Some t -> th_point t = Entered s ->
  barrier_inv n G (fb_with (mkBarrier (wrapping_add 32 (fb_count b) 1) (fb_sense b) (fb_total b) (fb_threads b)) i
    (mkThread (th_done t) (if fb_count b + 1 =? fb_total b then Resetting else Looping s))).
Proof.
  intros [] Hi Hp. pose proof (bi_ok0 i t Hi) as Hok. unfold thread_ok in Hok. rewrite Hp in Hok. destruct Hok as [Hd ->].
  assert (here G t = 0 /\ resetting t = 0 /\ flipping t = 0 /\ waking t = 0) as (Hh & Hr & Hf & Hw).
  { unfold here, arrivals, resetting, flipping, waking. rewrite Hp. split_and!; try done. by rewrite (proj2 (Z.eqb_neq _ _)) by lia. }
  assert (sum (here G) (fb_threads b) <> n) as HH.
  { rewrite <- bi_threads0. intros He. pose proof (all_here _ _ _ _ He Hi). lia. }
  cbn in bi_count0. destruct bi_count0 as [(HR & Hc & Hlt)|(_ & ? & _)]; [|done].
  pose proof (sum_nonneg (here G) (fb_threads b) (fun t => proj1 (here_bound G t))).
  pose proof (sum_nonneg resetting (fb_threads b) resetting_nonneg). pose proof (sum_nonneg flipping (fb_threads b) flipping_nonneg).
  assert (wrapping_add 32 (fb_count b) 1 = fb_count b + 1) as Hwrap.
  { apply wrap_small. unfold is_u, I32_MAX in *. lia. }
  set (t' := mkThread (th_done t) (if fb_count b + 1 =? fb_total b then Resetting else Looping (wrap 32 G))).
  assert (thread_ok G t') as Hok' by (subst t'; unfold thread_ok; rewrite Hd; destruct (fb_count b + 1 =? fb_total b); cbn; auto).
  destruct (threads_insert n G b i t' bi_threads0 bi_ok0 Hok') as [Hl Hoks].
  assert (here G t' = 1 /\ flipping t' = 0 /\ waking t' = 0 /\ resetting t' = if fb_count b + 1 =? n then 1 else 0)
    as (Hh' & Hf' & Hw' & Hr').
  { unfold here, arrivals, resetting, flipping, waking. subst t'. cbn. rewrite bi_total0.
    destruct (fb_count b + 1 =? n); split_and!; try done; by rewrite (proj2 (Z.eqb_eq _ _)) by lia. }
  split; cbn; rewrite ?(sum_insert _ _ _ _ _ Hi), ?Hh, ?Hr, ?Hf, ?Hw, ?Hh', ?Hf', ?Hw', ?Hr', ?Hwrap; try done.
  - destruct (Z.eqb_spec (fb_count b + 1) n); [right|left]; lia.
  - intros j u s [(-> & <- & _)|[_ Hj]]%list_lookup_insert_Some Hpu Hdu; [subst t'; cbn in Hpu; by case_match|].
    specialize (bi_wake0 j u s Hj Hpu Hdu). lia.
Qed.

Lemma inv_reset n G b i t : barrier_inv n G b -> fb_threads b !! i = Some t -> th_point t = Resetting ->
  barrier_inv n G (fb_with (mkBarrier 0 (fb_sense b) (fb_total b) (fb_threads b)) i (mkThread (th_done t) Flipping)).
Proof.
  intros [] Hi Hp. pose proof (bi_ok0 i t Hi) as Hok. unfold thread_ok in Hok. rewrite Hp in Hok.
  assert (here G t = 1 /\ resetting t = 1 /\ flipping t = 0 /\ waking t = 0) as (Hh & Hr & Hf & Hw).
  { unfold here, arrivals, resetting, flipping, waking. rewrite Hp. split_and!; try done. by rewrite (proj2 (Z.eqb_eq _ _)) by lia. }
  pose proof (sum_lookup resetting _ _ _ resetting_nonneg Hi). pose proof (sum_nonneg flipping (fb_threads b) flipping_nonneg).
  assert (thread_ok G (mkThread (th_done t) Flipping)) as Hok' by done.
  destruct (threads_insert n G b i _ bi_threads0 bi_ok0 Hok') as [Hl Hoks].
  assert (here G (mkThread (th_done t) Flipping) = 1) as Hh'.
  { unfold here, arrivals. cbn. by rewrite (proj2 (Z.eqb_eq _ _)) by lia. }
  cbn in bi_count0. split; cbn; rewrite ?(sum_insert _ _ _ _ _ Hi), ?Hh, ?Hr, ?Hf, ?Hw, ?Hh'; cbn [resetting flipping waking th_point]; try done; try lia.
  intros j u s [(-> & <- & _)|[_ Hj]]%list_lookup_insert_Some Hpu Hdu; [done|].
  specialize (bi_wake0 j u s Hj Hpu Hdu). lia.
Qed.

(** While a thread is about to end the generation, every other one waits in
    it. *)
Lemma flip_others n G b i t j u : barrier_inv n G b -> fb_threads b !! i = Some t -> th_point t = Flipping ->
  j <> i -> fb_threads b !! j = Some u ->
  th_done u = G /\ (th_point u = Looping (wrap 32 G) \/ th_point u = Parking (wrap 32 G) \/ th_point u = Asleep (wrap 32 G)).
Proof.
  intros [] Hi Hp Hne Hj.
  pose proof (sum_lookup flipping _ _ _ flipping_nonneg Hi) as Hf. assert (flipping t = 1) as Hft by (unfold flipping; by rewrite Hp).
  pose proof (sum_nonneg resetting (fb_threads b) resetting_nonneg).
  cbn in bi_count0. destruct bi_count0 as [?|(HR & HH & Hc)]; [lia|]. rewrite <- bi_threads0 in HH.
  pose proof (all_here _ _ j u HH Hj) as Hu. pose proof (bi_ok0 j u Hj) as Hoku. unfold here in Hu.
  destruct (Z.eqb_spec (arrivals u) (G + 1)) as [Ha|]; [|lia]. unfold thread_ok in Hoku. unfold arrivals in Ha.
  assert (resetting u + flipping u = 0) as Hz.
  { pose proof (resetting_nonneg u). pose proof (flipping_nonneg u). pose proof (resetting_nonneg t).
    pose proof (sum_two (fun t => resetting t + flipping t) (fb_threads b) i j t u
      ltac:(intros v; pose proof (resetting_nonneg v); pose proof (flipping_nonneg v); lia) ltac:(congruence) Hi Hj) as Htwo.
    rewrite sum_add in Htwo. cbn in Htwo. lia. }
  unfold resetting, flipping in Hz. assert (th_done u = G) as Hd by (destruct (th_point u); lia).
  split; [done|]. destruct (th_point u); try lia; destruct Hoku as [_ ->]; rewrite Hd; auto.
Qed.

(** The generation ends: everyone here is now leaving. *)
Lemma inv_flip n G b i t : barrier_inv n G b -> fb_threads b !! i = Some t -> th_point t = Flipping ->
  barrier_inv n (G + 1)
    (fb_with (mkBarrier (fb_count b) (wrapping_add 32 (fb_sense b) 1) (fb_total b) (fb_threads b)) i (mkThread (th_done t) Waking)).
Proof.
  intros Hb Hi Hp. assert (forall j u, <[i := mkThread (th_done t) Waking]> (fb_threads b) !! j = Some u ->
    thread_ok (G + 1) u /\ here (G + 1) u = 0) as Hnew.
  { pose proof (bi_ok _ _ _ Hb i t Hi) as Hok. unfold thread_ok in Hok. rewrite Hp in Hok.
    intros j u [(-> & <- & _)|[Hne Hj]]%list_lookup_insert_Some.
    - unfold here, arrivals. cbn. rewrite (proj2 (Z.eqb_neq _ _)) by lia. lia.
    - apply not_eq_sym in Hne. destruct (flip_others n G b i t j u Hb Hi Hp Hne Hj) as (Hd & Hpt).
      unfold thread_ok, here, arrivals.
      destruct Hpt as [->|[->| ->]]; rewrite Hd, (proj2 (Z.eqb_neq _ _)) by lia; (split; [split; [right; lia|done]|done]). }
  destruct Hb. pose proof (bi_ok0 i t Hi) as Hok. unfold thread_ok in Hok. rewrite Hp in Hok.
  pose proof (sum_lookup flipping _ _ _ flipping_nonneg Hi) as Hf. assert (flipping t = 1) as Hft by (unfold flipping; by rewrite Hp).
  pose proof (sum_nonneg resetting (fb_threads b) resetting_nonneg). pose proof (sum_nonneg waking (fb_threads b) waking_nonneg).
  cbn in bi_count0. destruct bi_count0 as [?|(HR & HH & Hc)]; [lia|].
  split; cbn; try done; try lia.
  - unfold zlen in *. by rewrite length_insert.
  - rewrite bi_sense0. unfold wrapping_add. by rewrite wrap_add_l.
  - intros j u Hj. by apply (Hnew j u).
  - rewrite (sum_insert resetting _ _ _ _ Hi), (sum_insert flipping _ _ _ _ Hi). cbn [resetting flipping th_point].
    assert (sum resetting (fb_threads b) = 0) as Hz by lia. rewrite Hz in *.
    pose proof (sum_le (here (G + 1)) (<[i := mkThread (th_done t) Waking]> (fb_threads b)) 0) as Hle.
    specialize (Hle ltac:(intros j u Hj; destruct (Hnew j u Hj); lia)).
    pose proof (sum_nonneg (here (G + 1)) (<[i := mkThread (th_done t) Waking]> (fb_threads b)) (fun t => proj1 (here_bound _ t))).
    assert (resetting t = 0) by (unfold resetting; by rewrite Hp). left. lia.
  - intros j u s Hj Hpu Hdu. rewrite (sum_insert _ _ _ _ _ Hi). cbn. unfold waking at 2. rewrite Hp. lia.
Qed.

Lemma woken_same t G : arrivals (woken t) = arrivals t /\ here G (woken t) = here G t /\
  resetting (woken t) = resetting t /\ flipping (woken t) = flipping t /\ waking (woken t) = waking t.
Proof. unfold woken, here, arrivals, resetting, flipping, waking. destruct t as [k []]; by cbn. Qed.

Lemma woken_ok G t : thread_ok G t -> thread_ok G (woken t).
Proof. unfold woken, thread_ok. destruct t as [k []]; by cbn. Qed.

Lemma inv_wake n G b i t : barrier_inv n G b -> fb_threads b !! i = Some t -> th_point t = Waking ->
  barrier_inv n G (fb_with (mkBarrier (fb_count b) (fb_sense b) (fb_total b) (futex_wake I32_MAX (fb_threads b))) i
    (mkThread (th_done t + 1) Idle)).
Proof.
  intros [] Hi Hp. pose proof (bi_ok0 i t Hi) as Hok. unfold thread_ok in Hok. rewrite Hp in Hok.
  rewrite futex_wake_all by lia.
  assert (map woken (fb_threads b) !! i = Some t) as Hi'.
  { change (map woken (fb_threads b)) with (woken <$> fb_threads b). rewrite list_lookup_fmap, Hi. cbn. unfold woken. by rewrite Hp. }
  assert (here G t = 0 /\ resetting t = 0 /\ flipping t = 0) as (Hh & Hr & Hf).
  { unfold here, arrivals, resetting, flipping. rewrite Hp. split_and!; try done. by rewrite (proj2 (Z.eqb_neq _ _)) by lia. }
  assert (here G (mkThread (th_done t + 1) Idle) = 0) as Hh'.
  { unfold here, arrivals. cbn. by rewrite (proj2 (Z.eqb_neq _ _)) by lia. }
  split; cbn; try done.
  - unfold zlen in *. by rewrite length_insert, length_map.
  - intros j u [(-> & <- & _)|[_ Hj]]%list_lookup_insert_Some; [cbn; lia|].
    change (map woken (fb_threads b)) with (woken <$> fb_threads b) in Hj. rewrite list_lookup_fmap in Hj.
    destruct (fb_threads b !! j) as [v|] eqn:Hv; [|done]. injection Hj as <-. by eapply woken_ok, bi_ok0.
  - rewrite !(sum_insert _ _ _ _ _ Hi'), Hh, Hr, Hf, Hh'. cbn [resetting flipping th_point].
    rewrite !sum_map by (intros u; apply (woken_same u G)). by rewrite !Z.sub_0_r, !Z.add_0_r.
  - intros j u s [(-> & <- & _)|[_ Hj]]%list_lookup_insert_Some Hpu Hdu; [done|].
    change (map woken (fb_threads b)) with (woken <$> fb_threads b) in Hj. rewrite list_lookup_fmap in Hj.
    destruct (fb_threads b !! j) as [v|]; [|done]. injection Hj as <-. unfold woken in Hpu. destruct v as [k []]; by cbn in Hpu.
Qed.

Lemma barrier_step_inv n G b b' i : barrier_inv n G b -> barrier_step b i = Some b' -> exists G', barrier_inv n G' b'.
Proof.
  intros Hb. unfold barrier_step. destruct (fb_threads b !! i) as [t|] eqn:Hi; [|done]. cbn [mbind option_bind].
  pose proof (bi_ok _ _ _ Hb i t Hi) as Hok. unfold thread_ok in Hok. pose proof (wrap_ne G) as Hne.
  destruct (th_point t) as [|s| | | |s|s|s] eqn:Hp; intros [= <-].
  - exists G. eapply barrier_inv_same; try done.
    + unfold thread_ok. cbn. by rewrite (bi_sense _ _ _ Hb).
    + unfold here, arrivals. cbn. by rewrite Hp.
    + unfold resetting. by rewrite Hp.
    + unfold flipping. by rewrite Hp.
    + unfold waking. by rewrite Hp.
  - exists G. by apply inv_arrive.
  - exists G. by apply inv_reset.
  - exists (G + 1). by apply inv_flip.
  - exists G. by apply inv_wake.
  - rewrite (bi_sense _ _ _ Hb). exists G. destruct Hok as [Hd ->].
    eapply barrier_inv_same; try done; destruct Hd as [Hd|Hd]; rewrite ?Hd, ?Z.eqb_refl, ?(proj2 (Z.eqb_neq _ _) (not_eq_sym Hne));
      unfold thread_ok, here, arrivals, resetting, flipping, waking; rewrite ?Hp; cbn; rewrite ?Hd; try lia; auto.
  - rewrite (bi_sense _ _ _ Hb). exists G. destruct Hok as [Hd ->].
    eapply barrier_inv_same; try done; destruct Hd as [Hd|Hd]; rewrite ?Hd, ?Z.eqb_refl, ?(proj2 (Z.eqb_neq _ _) (not_eq_sym Hne));
      unfold thread_ok, here, arrivals, resetting, flipping, waking; rewrite ?Hp; cbn; rewrite ?Hd; auto; try lia; try done.
Qed.

Lemma spurious_inv n G b b' i : barrier_inv n G b -> spurious_wake b i = Some b' -> barrier_inv n G b'.
Proof.
  intros Hb. unfold spurious_wake. destruct (fb_threads b !! i) as [t|] eqn:Hi; [|done]. cbn [mbind option_bind].
  pose proof (bi_ok _ _ _ Hb i t Hi) as Hok. unfold thread_ok in Hok.
  destruct (th_point t) as [| | | | | | |s] eqn:Hp; try done. intros [= <-].
  eapply barrier_inv_same; try done; unfold here, arrivals, resetting, flipping, waking; by rewrite ?Hp.
Qed.

Lemma init_inv n : 1 <= n <= I32_MAX -> barrier_inv n 0 (barrier_new n (Z.to_nat n)).
Proof.
  intros Hn. assert (forall i t, replicate (Z.to_nat n) (mkThread 0 Idle) !! i = Some t -> t = mkThread 0 Idle) as Hr
    by (intros i t [-> _]%lookup_replicate; done).
  assert (forall f, f (mkThread 0 Idle) = 0 -> sum f (replicate (Z.to_nat n) (mkThread 0 Idle)) = 0) as Hs.
  { intros f Hf. induction (Z.to_nat n) as [|k IH]; cbn; [done|]. rewrite Hf, IH; [done|].
    intros i t Hi. apply (Hr (S i) t Hi). }
  split; cbn; try done; try lia.
  - unfold zlen. rewrite length_replicate. lia.
  - intros i t Hi. by rewrite (Hr i t Hi).
  - rewrite !Hs by done. left. lia.
  - intros i t s Hi Hp. by rewrite (Hr i t Hi) in Hp.
Qed.

Lemma reaches_inv n b : 1 <= n <= I32_MAX -> barrier_reaches (barrier_new n (Z.to_nat n)) b -> exists G, barrier_inv n G b.
Proof.
  intros Hn. induction 1 as [|b1 b2 i _ [G IH] Hs|b1 b2 i _ [G IH] Hs].
  - exists 0. by apply init_inv.
  - by eapply barrier_step_inv.
  - exists G. by eapply spurious_inv.
Qed.

(** ** Progress *)
Definition weight (n cur : Z) (t : thread) : Z :=
  match th_point t with
  | Idle => 0
  | Entered _ => 2 * n + 4
  | Resetting => 2 * n + 3
  | Flipping => 2 * n + 2
  | Waking => 2 * n + 1
  | Looping s => if s =? cur then 5 else 1
  | Parking s => if s =? cur then 4 else 2
  | Asleep s => if s =? cur then 3 else 2
  end.

Definition barrier_measure (n : Z) (b : FutexBarrier) : Z := sum (weight n (fb_sense b)) (fb_threads b).

Lemma weight_bound n cur t : 1 <= n -> 0 <= weight n cur t <= 2 * n + 4.
Proof. intros Hn. unfold weight. repeat case_match; lia. Qed.

Lemma sum_mono f g l : (forall i t, l !! i = Some t -> f t <= g t) -> sum f l <= sum g l.
Proof.
  intros Hf. induction l as [|t l IH]; cbn; [done|].
  pose proof (Hf 0%nat t eq_refl). specialize (IH (fun i => Hf (S i))). lia.
Qed.

Lemma flip_measure n G b i t : barrier_inv n G b -> fb_threads b !! i = Some t -> th_point t = Flipping ->
  barrier_measure n (fb_with (mkBarrier (fb_count b) (wrapping_add 32 (fb_sense b) 1) (fb_total b) (fb_threads b)) i
    (mkThread (th_done t) Waking)) + 1 <= barrier_measure n b.
Proof.
  intros Hb Hi Hp. unfold barrier_measure. cbn. rewrite (sum_insert _ _ _ _ _ Hi). unfold weight at 2 3. rewrite Hp. cbn.
  enough (sum (weight n (wrapping_add 32 (fb_sense b) 1)) (fb_threads b) <= sum (weight n (fb_sense b)) (fb_threads b)) by lia.
  apply sum_mono. intros j u Hj. destruct (decide (j = i)) as [->|Hne].
  - simplify_eq. unfold weight. rewrite Hp. lia.
  - destruct (flip_others n G b i t j u Hb Hi Hp Hne Hj) as (_ & Hpt). rewrite (bi_sense _ _ _ Hb). unfold weight.
    destruct Hpt as [->|[->| ->]]; rewrite Z.eqb_refl; case_match; lia.
Qed.

Lemma wake_measure n G b i t : barrier_inv n G b -> fb_threads b !! i = Some t -> th_point t = Waking ->
  barrier_measure n (fb_with (mkBarrier (fb_count b) (fb_sense b) (fb_total b) (futex_wake I32_MAX (fb_threads b))) i
    (mkThread (th_done t + 1) Idle)) + 1 <= barrier_measure n b.
Proof.
  intros [] Hi Hp. unfold barrier_measure. cbn. rewrite futex_wake_all by lia.
  assert (map woken (fb_threads b) !! i = Some t) as Hi'.
  { change (map woken (fb_threads b)) with (woken <$> fb_threads b). rewrite list_lookup_fmap, Hi. cbn. unfold woken. by rewrite Hp. }
  rewrite (sum_insert _ _ _ _ _ Hi'). unfold weight at 2 3. rewrite Hp. cbn.
  enough (forall l, sum (weight n (fb_sense b)) (map woken l) <= sum (weight n (fb_sense b)) l + 2 * zlen l) as Hle
    by (specialize (Hle (fb_threads b)); lia).
  clear. induction l as [|u l IH]; [done|]. rewrite zlen_cons. cbn.
  enough (weight n (fb_sense b) (woken u) <= weight n (fb_sense b) u + 2) by lia.
  unfold woken, weight. destruct u as [k []]; cbn; repeat case_match; lia.
Qed.

Lemma step_measure n G b b' i t : barrier_inv n G b -> fb_threads b !! i = Some t -> th_point t <> Idle ->
  barrier_step b i = Some b' -> barrier_measure n b' + 1 <= barrier_measure n b.
Proof.
  intros Hb Hi Hidle Hs. pose proof (bi_size _ _ _ Hb). unfold barrier_step in Hs. rewrite Hi in Hs. cbn [mbind option_bind] in Hs.
  destruct (th_point t) as [|s| | | |s|s|s] eqn:Hp; [done|..|done]; injection Hs as <-;
    [..|by eapply flip_measure|by eapply wake_measure| |];
    unfold barrier_measure; cbn [fb_sense fb_threads fb_with fb_total]; rewrite (sum_insert _ _ _ _ _ Hi); unfold weight at 2 3; rewrite Hp; cbn;
    rewrite ?(Z.eqb_sym (fb_sense b)); repeat (case_match; simplify_eq/=); lia.
Qed.

Lemma spurious_measure n b b' i : spurious_wake b i = Some b' -> barrier_measure n b' <= barrier_measure n b + 2.
Proof.
  unfold spurious_wake. destruct (fb_threads b !! i) as [t|] eqn:Hi; [|done]. cbn [mbind option_bind].
  destruct (th_point t) as [| | | | | | |s] eqn:Hp; try done. intros [= <-].
  unfold barrier_measure. cbn. rewrite (sum_insert _ _ _ _ _ Hi). unfold weight at 2 3. rewrite Hp. cbn. case_match; lia.
Qed.

Lemma run_measure n b k m b' : (exists G, barrier_inv n G b) -> inside_run b k m b' ->
  (exists G, barrier_inv n G b') /\ k + barrier_measure n b' <= barrier_measure n b + 2 * m /\
  zlen (fb_threads b') = zlen (fb_threads b).
Proof.
  intros Hb. induction 1 as [|k m b1 b2 i t _ ([G IH] & Hm & Hl) Hi Hp Hs|k m b1 b2 i _ ([G IH] & Hm & Hl) Hs].
  - split_and!; [done|lia|done].
  - pose proof (step_measure _ _ _ _ _ _ IH Hi Hp Hs). destruct (barrier_step_inv _ _ _ _ _ IH Hs) as [G' IH'].
    split_and!; [eauto|lia|]. by rewrite <- Hl, (bi_threads _ _ _ IH), (bi_threads _ _ _ IH').
  - pose proof (spurious_measure n _ _ _ Hs). pose proof (spurious_inv _ _ _ _ _ IH Hs) as IH'.
    split_and!; [eauto|lia|]. by rewrite <- Hl, (bi_threads _ _ _ IH), (bi_threads _ _ _ IH').
Qed.

(** Entries never decrease. *)
Definition all_entered (g : Z) (l : list thread) : Prop := forall i t, l !! i = Some t -> g <= entries t.

Lemma entered_insert g l i t t' : all_entered g l -> l !! i = Some t -> entries t <= entries t' -> all_entered g (<[i := t']> l).
Proof.
  intros Hl Hi He j u [(-> & <- & _)|[_ Hj]]%list_lookup_insert_Some; [|by eapply Hl].
  specialize (Hl _ _ Hi). lia.
Qed.

Lemma woken_entries t : entries (woken t) = entries t.
Proof. unfold woken, entries. destruct t as [k []]; by cbn. Qed.

Lemma step_entered n G g b b' i : barrier_inv n G b -> all_entered g (fb_threads b) -> barrier_step b i = Some b' ->
  all_entered g (fb_threads b').
Proof.
  intros Hb Hg. unfold barrier_step. destruct (fb_threads b !! i) as [t|] eqn:Hi; [|done]. cbn [mbind option_bind].
  destruct (th_point t) as [|s| | | |s|s|s] eqn:Hp; intros [= <-]; cbn [fb_threads fb_with];
    try (eapply entered_insert; [done..|]; unfold entries; rewrite Hp; cbn; repeat case_match; simplify_eq/=; lia).
  destruct Hb. rewrite futex_wake_all by lia.
  assert (forall j, map woken (fb_threads b) !! j = woken <$> fb_threads b !! j) as Hmap by (intros j; apply list_lookup_fmap).
  eapply (entered_insert g _ i (woken t)).
  - intros j u Hj. rewrite Hmap in Hj. destruct (fb_threads b !! j) eqn:Hv; [|done]. injection Hj as <-.
    rewrite woken_entries. by eapply Hg.
  - by rewrite Hmap, Hi.
  - rewrite woken_entries. unfold entries. rewrite Hp. cbn. lia.
Qed.

Lemma run_entered n g b k m b' : (exists G, barrier_inv n G b) -> inside_run b k m b' -> all_entered g (fb_threads b) ->
  all_entered g (fb_threads b').
Proof.
  intros Hb Hr Hg. induction Hr as [|k m b1 b2 i t Hr IH Hi Hp Hs|k m b1 b2 i Hr IH Hs]; [done|..].
  - destruct (run_measure _ _ _ _ _ Hb Hr) as ([G HG] & _). by eapply step_entered.
  - unfold spurious_wake in Hs. destruct (fb_threads b1 !! i) as [t|] eqn:Hi; [|done]. cbn [mbind option_bind] in Hs.
    destruct (th_point t) eqn:Hp; try done. injection Hs as <-. cbn.
    eapply entered_insert; [done..|]. unfold entries. rewrite Hp. cbn. lia.
Qed.

(** A barrier at rest has every arrived thread asleep in the current
    generation, which not all have joined. *)
Lemma rest_done n G g b : barrier_inv n G b -> at_rest b -> all_entered g (fb_threads b) ->
  forall i t, fb_threads b !! i = Some t -> g <= th_done t.
Proof.
  intros [] Hrest Hg.
  assert (forall i t, fb_threads b !! i = Some t -> th_point t = Idle \/ exists s, th_point t = Asleep s) as Hpt.
  { intros i t Hi. destruct (Hrest i t Hi) as [?|Hs]; [by left|]. unfold barrier_step in Hs. rewrite Hi in Hs.
    cbn [mbind option_bind] in Hs. destruct (th_point t); eauto; done. }
  assert (forall f, f Idle = 0 -> (forall s, f (Asleep s) = 0) -> sum (fun t => f (th_point t)) (fb_threads b) <= 0) as Hzero.
  { intros f Hf Hf'. pose proof (sum_le (fun t => f (th_point t)) (fb_threads b) 0) as Hle. cbn in Hle. apply Hle.
    intros i t Hi. destruct (Hpt i t Hi) as [->|[s ->]]; rewrite ?Hf, ?Hf'; lia. }
  assert (forall i t, fb_threads b !! i = Some t -> th_done t = G) as Hd.
  { intros i t Hi. pose proof (bi_ok0 i t Hi) as Hok. unfold thread_ok in Hok.
    destruct (Hpt i t Hi) as [Hp|[s Hp]]; rewrite Hp in Hok; [done|]. destruct Hok as [[Hd|Hd] _]; [done|].
    pose proof (bi_wake0 i t s Hi Hp Hd). pose proof (Hzero (fun p => match p with Waking => 1 | _ => 0 end) eq_refl (fun _ => eq_refl)) as Hz.
    change (sum waking (fb_threads b) <= 0) in Hz. lia. }
  pose proof (Hzero (fun p => match p with Resetting => 1 | _ => 0 end) eq_refl (fun _ => eq_refl)) as HR.
  change (sum resetting (fb_threads b) <= 0) in HR.
  pose proof (Hzero (fun p => match p with Flipping => 1 | _ => 0 end) eq_refl (fun _ => eq_refl)) as HF.
  change (sum flipping (fb_threads b) <= 0) in HF.
  cbn in bi_count0. destruct bi_count0 as [(_ & _ & HH)|]; [|lia].
  intros i t Hi. rewrite (Hd i t Hi). destruct (decide (g <= G)) as [|Hgt]; [done|exfalso].
  pose proof (sum_ge (here G) (fb_threads b) 1) as Hge. rewrite bi_threads0 in Hge.
  enough (1 * n <= sum (here G) (fb_threads b)) by lia. apply Hge. intros j u Hj.
  specialize (Hg j u Hj). specialize (Hd j u Hj). unfold entries in Hg. unfold here, arrivals.
  destruct (Hpt j u Hj) as [Hp|[s Hp]]; rewrite Hp in *; [lia|]. by rewrite (proj2 (Z.eqb_eq _ _)) by lia.
Qed.

(** safety of the barrier: however its threads interleave, a thread that
    has left its [k]-th [wait] finds that every other thread has arrived in its
    own [k]-th. *)
Theorem barrier_rendezvous n b i j t u : 1 <= n <= I32_MAX -> barrier_reaches (barrier_new n (Z.to_nat n)) b ->
  fb_threads b !! i = Some t -> fb_threads b !! j = Some u -> th_done t <= arrivals u.
Proof.
  intros Hn Hr Hi Hj. destruct (reaches_inv n b Hn Hr) as [G []].
  pose proof (bi_ok0 i t Hi) as Ht. pose proof (bi_ok0 j u Hj) as Hu. unfold thread_ok, arrivals in *.
  destruct (th_point t), (th_point u); lia.
Qed.

(** C29: progress of the barrier: from any reachable state the threads inside
    [wait] take a bounded number of steps ((2n+4)n, plus two per spurious
    wake-up) before none can run, and when none can run every thread has left
    each [wait] that all threads had called: no wake-up is lost and no thread
    stays asleep in a round in which everyone arrived. *)
Theorem barrier_releases n b k m b' : 1 <= n <= I32_MAX -> barrier_reaches (barrier_new n (Z.to_nat n)) b ->
  inside_run b k m b' ->
  k <= (2 * n + 4) * n + 2 * m /\
  (at_rest b' -> forall g, (forall i t, fb_threads b !! i = Some t -> g <= entries t) ->
    forall i t, fb_threads b' !! i = Some t -> g <= th_done t).
Proof.
  intros Hn Hr Hrun. pose proof (reaches_inv n b Hn Hr) as Hb.
  destruct (run_measure _ _ _ _ _ Hb Hrun) as ([G' HG'] & Hm & Hl). split.
  - destruct Hb as [G Hb]. pose proof (bi_threads _ _ _ Hb) as Hlen.
    pose proof (sum_le (weight n (fb_sense b)) (fb_threads b) (2 * n + 4) (fun _ t _ => proj2 (weight_bound n _ t ltac:(lia)))) as Hle.
    pose proof (sum_nonneg (weight n (fb_sense b')) (fb_threads b') (fun t => proj1 (weight_bound n _ t ltac:(lia)))).
    unfold barrier_measure in Hm. rewrite Hlen in Hle. lia.
  - intros Hrest g Hg. eapply rest_done; [done..|]. by eapply run_entered.
Qed.

(** Two threads meet: the first sleeps, the second arrives and releases it. *)
Definition run_steps (b : FutexBarrier) (l : list nat) : option FutexBarrier :=
  fold_left (fun b i => b ← b; barrier_step b i) l (Some b).

Lemma run_steps_reaches b0 b l b' : barrier_reaches b0 b -> run_steps b l = Some b' -> barrier_reaches b0 b'.
Proof.
  unfold run_steps. revert b. induction l as [|i l IH]; intros b Hb; cbn; [by intros [= <-]|].
  destruct (barrier_step b i) as [b1|] eqn:Hs; cbn.
  - apply IH. by eapply reaches_step.
  - clear. induction l as [|j l IH]; cbn; [done|exact IH].
Qed.

Definition two_meeting : FutexBarrier :=
  mkBarrier 0 1 2 [mkThread 0 (Asleep 0); mkThread 0 Waking].
Definition two_met : FutexBarrier := mkBarrier 0 1 2 [mkThread 1 Idle; mkThread 1 Idle].

Lemma two_meeting_reached : barrier_reaches (barrier_new 2 2) two_meeting.
Proof. apply (run_steps_reaches _ (barrier_new 2 2) [0; 0; 0; 0; 1; 1; 1; 1]%nat); [constructor|reflexivity]. Qed.

(** The releasing thread leaves while the other is still inside. *)
Definition two_leaving : FutexBarrier :=
  mkBarrier 0 1 2 [mkThread 0 (Parking 0); mkThread 1 Idle].

Lemma two_leaving_reached : barrier_reaches (barrier_new 2 2) two_leaving.
Proof. apply (run_steps_reaches _ (barrier_new 2 2) [0; 0; 0; 1; 1; 1; 1; 1]%nat); [constructor|reflexivity]. Qed.

Lemma two_meeting_run : inside_run two_meeting (0 + 1 + 1) 0 two_met.
Proof.
  eapply (inside_step _ _ _ (mkBarrier 0 1 2 [mkThread 0 (Looping 0); mkThread 1 Idle]) _ 0%nat); [|reflexivity|done|reflexivity].
  eapply (inside_step _ _ _ two_meeting _ 1%nat); [constructor|reflexivity|done|reflexivity].
Qed.

Lemma barrier_rendezvous_witness :
  th_done (mkThread 1 Idle) <= arrivals (mkThread 0 (Parking 0)).
Proof.
  apply (barrier_rendezvous 2 two_leaving 1 0 (mkThread 1 Idle) (mkThread 0 (Parking 0)));
    [unfold I32_MAX; lia|apply two_leaving_reached|reflexivity|reflexivity].
Defined.

Lemma barrier_releases_witness : Forall (fun t => 1 <= th_done t) (fb_threads two_met).
Proof.
  apply Forall_lookup.
  assert (forall (P : thread -> Prop) t0 t1, P t0 -> P t1 -> forall i t, [t0; t1] !! i = Some t -> P t) as Htwo.
  { intros P t0 t1 H0 H1 [|[|i]] t Hi; cbn in Hi; [by injection Hi as <-|by injection Hi as <-|by destruct i]. }
  refine (proj2 (barrier_releases 2 two_meeting _ 0 two_met _ two_meeting_reached two_meeting_run) _ 1 _).
  - unfold I32_MAX. lia.
  - intros i t Hi. left. revert i t Hi. apply Htwo; done.
  - unfold two_meeting. cbn. apply Htwo; done.
Defined.
