(* ===== verification/VulkanObjects.v ===== *)
(** The objects of the Vulkan loader ([platform/linux/vulkan.rs]): the
    wrappers that create them and the destructors that release them.

    The driver is a parameter: which commands it exports and what its calls
    return.  The objects themselves are modelled: a creation call makes an
    object that refers to its parents (the objects its safety comment wants
    kept alive), a destructor removes it.  A use the Vulkan specification
    forbids - a dead or null parent, a destruction with living children or while
    the device may still run work, a command looked up through a destroyed
    instance - has no result ([None]).  A handle is a positive number, 0 is
    null; creation succeeds exactly with a handle.

    [owning m d k] is Rust's ownership: the value of [m] is released by [d]
    when the rest [k] fails.

    Theorems here: each wrapper either leaves the objects as they were and
    fails, or adds exactly the objects its destructor removes. *)

From stdpp Require Import gmap strings list.
From S2P Require Import Prelude QueuePolicy Present.

Local Open Scope string_scope.
Local Open Scope list_scope.
Local Open Scope Z_scope.
Local Open Scope kit_scope.

Definition VK_SUCCESS : Z := 0.
Definition VK_INCOMPLETE : Z := 5.
Definition VK_FORMAT_UNDEFINED : Z := 0.
Definition VK_FORMAT_D32_SFLOAT : Z := 126.
Definition VK_MEMORY_PROPERTY_DEVICE_LOCAL_BIT : Z := 1.
Definition VK_MEMORY_PROPERTY_HOST_VISIBLE_BIT : Z := 2.
Definition VK_MEMORY_PROPERTY_HOST_COHERENT_BIT : Z := 4.
Definition VK_DESCRIPTOR_TYPE_UNIFORM_BUFFER : Z := 6.
Definition VK_DESCRIPTOR_TYPE_STORAGE_BUFFER : Z := 7.
Definition VK_SHADER_STAGE_VERTEX_BIT : Z := 1.
Definition VK_SHADER_STAGE_FRAGMENT_BIT : Z := 16.
Definition VK_SHADER_STAGE_COMPUTE_BIT : Z := 32.
Definition VK_IMAGE_ASPECT_COLOR_BIT : Z := 1.
Definition VK_IMAGE_ASPECT_DEPTH_BIT : Z := 2.

(** ** Objects *)
Record DescriptorSetLayoutBinding := mkBinding {
  dl_binding : Z; dl_descriptor_type : Z; dl_descriptor_count : Z; dl_stage_flags : Z }.
Record DescriptorPoolSize := mkPoolSize { dp_descriptor_type : Z; dp_descriptor_count : Z }.
Record PushConstantRange := mkPushRange { pr_stage_flags : Z; pr_offset : Z; pr_size : Z }.
Record SurfaceFormat := mkSurfaceFormat { sf_format : Z; sf_color_space : Z }.

Record SurfaceCapabilities := mkCaps {
  min_image_count : Z; max_image_count : Z; current_extent : Extent2D; min_image_extent : Extent2D;
  max_image_extent : Extent2D; supported_composite_alpha : Z }.

(** What an object is, with the part of its create info that depends on the
    caller. *)
Variant kind :=
| KLibrary
| KInstance (extensions : list string)
| KSurface (window : Z)
| KDevice (queues : list QueueCreateRequest)
| KSwapchain (format : SurfaceFormat) (extent : Extent2D) (present_mode composite_alpha min_image_count old : Z)
| KShaderModule (words : list Z)
| KDescriptorSetLayout (bindings : list DescriptorSetLayoutBinding)
| KDescriptorPool (max_sets : Z) (sizes : list DescriptorPoolSize)
| KPipelineLayout (ranges : list PushConstantRange)
| KPipeline (extent : Extent2D) (depth_enabled : bool)
| KRenderPass (color_format depth_format : Z)
| KImage (extent : Extent2D)
| KMemory (size type_index : Z)
| KImageView (format aspect : Z)
| KFramebuffer (extent : Extent2D)
| KBuffer (size usage : Z)
| KCommandPool (family : Z)
| KSemaphore
| KFence (signaled : bool).

Record object := Object { o_kind : kind; o_parents : list Z }.

(** The state of the loader and the driver: calls made so far, the next
    handle, the living objects, the loader's [active_instance], and whether
    submitted work may still be running. *)
Record gpu := mkGpu {
  g_calls : nat;
  g_next : Z;
  g_live : gmap Z object;
  g_active : Z;
  g_pending : bool
}.

Definition gpu_start : gpu := mkGpu 0 1 ∅ 0 false.

Definition with_live (g : gpu) (l : gmap Z object) : gpu := mkGpu (g_calls g) (g_next g) l (g_active g) (g_pending g).
Definition with_active (g : gpu) (a : Z) : gpu := mkGpu (g_calls g) (g_next g) (g_live g) a (g_pending g).
Definition with_pending (g : gpu) (p : bool) : gpu := mkGpu (g_calls g) (g_next g) (g_live g) (g_active g) p.
Definition called (g : gpu) : gpu := mkGpu (S (g_calls g)) (g_next g) (g_live g) (g_active g) (g_pending g).
Definition make (g : gpu) (o : object) : gpu :=
  mkGpu (g_calls g) (g_next g + 1) (<[g_next g := o]> (g_live g)) (g_active g) (g_pending g).

(** A physical device belongs to its instance, a presentable image to its
    swapchain, a command buffer and a descriptor set to their pools; they are
    not destroyed by themselves. *)
Record VkPhysicalDevice := mkPhysical { ph_instance : Z; ph_index : Z }.
Definition null_physical : VkPhysicalDevice := mkPhysical 0 0.
Record VkImage := mkImage { im_owner : Z; im_index : Z }.
Record VkCommandBuffer := mkCommandBuffer { cb_pool : Z; cb_index : Z }.
Record DescriptorBufferInfo := mkBufferInfo { bi_buffer : Z; bi_offset : Z; bi_range : Z }.
Record WriteDescriptorSet := mkWrite { ws_binding : Z; ws_type : Z; ws_info : DescriptorBufferInfo }.
Record VkDescriptorSet := mkSet { ds_pool : Z; ds_layout : Z; ds_writes : list WriteDescriptorSet }.
Record VkQueue := mkQueue { vq_device : Z; vq_family : Z; vq_index : Z }.

(** What the driver answers; [nat] arguments number the calls.  The results of
    calls that return none are not looked at. *)
Record VkDriver := mkVkDriver {
  vd_library : result VulkanLoaderError unit; (* opening the loader library and finding its entry points *)
  vd_global : string -> bool;              (* vkGetInstanceProcAddr(NULL, ..) *)
  vd_instance : string -> bool;            (* vkGetInstanceProcAddr(instance, ..) *)
  vd_device : string -> bool;              (* vkGetDeviceProcAddr(device, ..) *)
  vd_result : nat -> Z;                    (* the VkResult of a call *)
  vd_alloc : nat -> bool;                  (* whether a reservation succeeds *)
  vd_count : nat -> Z;                     (* the number of elements a call enumerates *)
  vd_devices : nat -> Z;                   (* .. and of physical devices *)
  vd_requirements : nat -> Z * Z;          (* size and type bits *)
  vd_memory_types : list Z;                (* property flags of the memory types *)
  vd_queue : nat -> bool;                  (* vkGetDeviceQueue writes a queue *)
  vd_properties : Z -> list Z;             (* the bytes of a device's properties *)
  vd_families : Z -> nat -> list (Z * Z);  (* flags and counts of a device's families, at a call *)
  vd_supported : nat -> bool;              (* vkGetPhysicalDeviceSurfaceSupportKHR *)
  vd_caps : nat -> SurfaceCapabilities;
  vd_format : nat -> Z -> SurfaceFormat;
  vd_mode : nat -> Z -> Z
}.

(** ** The monad *)
Definition VM (E A : Type) : Type := gpu -> option (gpu * result E A).
Definition vret {E A} (a : A) : VM E A := fun g => Some (g, Ok a).
Definition vfail {E A} (e : E) : VM E A := fun g => Some (g, Err e).
Definition vbind {E A B} (m : VM E A) (k : A -> VM E B) : VM E B := fun g =>
  match m g with
  | None => None
  | Some (g, Err e) => Some (g, Err e)
  | Some (g, Ok a) => k a g
  end.
Definition owning {E A B} (m : VM E A) (d : A -> gpu -> option gpu) (k : A -> VM E B) : VM E B :=
  vbind m (fun a g =>
    match k a g with
    | Some (g, Err e) => g ← d a g; Some (g, Err e)
    | r => r
    end).
Definition vmap_err {E F A} (f : E -> F) (m : VM E A) : VM F A := fun g =>
  '(g, r) ← m g; Some (g, map_err f r).
Definition vlift {E A} (r : result E A) : VM E A := fun g => Some (g, r).

Declare Scope vk_scope.
Notation "'bind!' x := m 'in' k" := (vbind m (fun x => k))
  (at level 200, x name, m at level 100, k at level 200, right associativity) : vk_scope.
Notation "'do!' m 'in' k" := (vbind m (fun _ => k)) (at level 200, m at level 100, k at level 200, right associativity) : vk_scope.
Notation "'own!' x := m 'released' d 'in' k" := (owning m d (fun x => k))
  (at level 200, x name, m at level 100, d at level 100, k at level 200, right associativity) : vk_scope.
Local Open Scope vk_scope.

(** Destruction: null is ignored. *)
Definition vk_destroy (h : Z) (g : gpu) : option gpu :=
  if h =? 0 then Some g
  else if g_pending g then None
  else if bool_decide (is_Some (g_live g !! h) /\ map_Forall (fun _ o => h ∉ o_parents o) (delete h (g_live g)))
  then Some (with_live g (delete h (g_live g)))
  else None.

Fixpoint destroy_all (hs : list Z) (g : gpu) : option gpu :=
  match hs with [] => Some g | h :: hs => g ← vk_destroy h g; destroy_all hs g end.

(** A vector filled in a loop: it is dropped, element by element, when an
    element cannot be created.  [handles] lists what the drop of an element
    destroys, in order. *)
Fixpoint create_each {E A X} (f : X -> VM E A) (handles : A -> list Z) (acc : list A) (xs : list X) : VM E (list A) :=
  match xs with
  | [] => vret acc
  | x :: xs => fun g =>
      match f x g with
      | None => None
      | Some (g, Err e) => g ← destroy_all (concat (map handles acc)) g; Some (g, Err e)
      | Some (g, Ok a) => create_each f handles (acc ++ [a]) xs g
      end
  end.

Section Wrappers.
Context (D : VkDriver).

(** [VulkanLoader::instance_proc], [global_proc], [device_proc]. *)
Definition live_or_none (h : Z) (g : gpu) : option gpu :=
  if bool_decide (is_Some (g_live g !! h)) then Some g else None.

Definition instance_proc (instance : Z) (name : string) (g : gpu) : option bool :=
  if instance =? 0 then Some false else g ← live_or_none instance g; Some (vd_instance D name).
Definition device_proc (device : Z) (name : string) (g : gpu) : option bool :=
  if device =? 0 then Some false else g ← live_or_none device g; Some (vd_device D name).

Definition command (name : string) : VM VulkanLoaderError unit := fun g =>
  found ← instance_proc (g_active g) name g;
  Some (g, if found || vd_global D name then Ok tt else Err VulkanLoaderError.MissingCommand).
Definition device_command (device : Z) (name : string) : VM VulkanLoaderError unit := fun g =>
  found ← device_proc device name g;
  Some (g, if found : bool then Ok tt else Err VulkanLoaderError.MissingCommand).
Definition instance_command (instance : Z) (name : string) : VM VulkanLoaderError unit := fun g =>
  found ← instance_proc instance name g;
  Some (g, if found : bool then Ok tt else Err VulkanLoaderError.MissingEntry).

Fixpoint device_commands (device : Z) (names : list string) : VM VulkanLoaderError unit :=
  match names with [] => vret tt | n :: names => do! device_command device n in device_commands device names end.
Fixpoint commands (names : list string) : VM VulkanLoaderError unit :=
  match names with [] => vret tt | n :: names => do! command n in commands names end.

(** A call that returns a result, and one that also makes an object. *)
Definition vk_call : VM VulkanLoaderError Z := fun g => Some (called g, Ok (vd_result D (g_calls g))).
Definition vk_create (parents : list Z) (k : kind) : VM VulkanLoaderError (Z * Z) := fun g =>
  if bool_decide (Forall (fun p => is_Some (g_live g !! p)) parents) then
    let r := vd_result D (g_calls g) in
    if r =? VK_SUCCESS then Some (make (called g) (Object k parents), Ok (r, g_next g)) else Some (called g, Ok (r, 0))
  else None.

(** [result != VK_SUCCESS || handle == 0], and [result != VK_SUCCESS] alone. *)
Definition created (out : Z * Z) : VM VulkanLoaderError Z :=
  if negb (out.1 =? VK_SUCCESS) || (out.2 =? 0) then vfail (VulkanLoaderError.Api out.1) else vret out.2.
Definition created_unchecked (out : Z * Z) : VM VulkanLoaderError Z :=
  if negb (out.1 =? VK_SUCCESS) then vfail (VulkanLoaderError.Api out.1) else vret out.2.
Definition succeeded (r : Z) : VM VulkanLoaderError unit :=
  if r =? VK_SUCCESS then vret tt else vfail (VulkanLoaderError.Api r).

Definition guard_plan (bad : bool) : VM VulkanLoaderError unit :=
  if bad then vfail VulkanLoaderError.InvalidQueuePlan else vret tt.

Definition extent_empty (e : Extent2D) : bool := (e_width e =? 0) || (e_height e =? 0).

(** ** Objects of a device *)
Definition create_shader_module (device : Z) (words : list Z) : VM VulkanLoaderError Z :=
  do! guard_plan (match words with [] => true | w :: _ => negb (w =? 0x07230203) end) in
  do! device_commands device ["vkCreateShaderModule"; "vkDestroyShaderModule"] in
  do! vlift (ok_or VulkanLoaderError.InvalidQueuePlan (checked_mul 64 (zlen words) 4)) in
  bind! out := vk_create [device] (KShaderModule words) in
  created out.

Definition ui_bindings : list DescriptorSetLayoutBinding :=
  [mkBinding 0 VK_DESCRIPTOR_TYPE_STORAGE_BUFFER 1 VK_SHADER_STAGE_VERTEX_BIT].
Definition create_ui_descriptor_set_layout (device : Z) : VM VulkanLoaderError Z :=
  do! device_commands device ["vkCreateDescriptorSetLayout"; "vkDestroyDescriptorSetLayout"] in
  bind! out := vk_create [device] (KDescriptorSetLayout ui_bindings) in
  created out.

Definition ui_pool_sizes : list DescriptorPoolSize := [mkPoolSize VK_DESCRIPTOR_TYPE_STORAGE_BUFFER 1].
Definition create_ui_descriptor_pool (device : Z) : VM VulkanLoaderError Z :=
  do! device_commands device ["vkCreateDescriptorPool"; "vkDestroyDescriptorPool"] in
  bind! out := vk_create [device] (KDescriptorPool 1 ui_pool_sizes) in
  created out.

Definition voxel_pool_sizes : list DescriptorPoolSize :=
  [mkPoolSize VK_DESCRIPTOR_TYPE_STORAGE_BUFFER 2; mkPoolSize VK_DESCRIPTOR_TYPE_UNIFORM_BUFFER 1].
Definition create_voxel_compute_descriptor_pool (device : Z) : VM VulkanLoaderError Z :=
  do! device_commands device ["vkCreateDescriptorPool"; "vkDestroyDescriptorPool"] in
  bind! out := vk_create [device] (KDescriptorPool 1 voxel_pool_sizes) in
  created out.

Definition voxel_bindings : list DescriptorSetLayoutBinding :=
  [mkBinding 0 VK_DESCRIPTOR_TYPE_STORAGE_BUFFER 1 VK_SHADER_STAGE_COMPUTE_BIT;
   mkBinding 1 VK_DESCRIPTOR_TYPE_UNIFORM_BUFFER 1 VK_SHADER_STAGE_COMPUTE_BIT;
   mkBinding 2 VK_DESCRIPTOR_TYPE_STORAGE_BUFFER 1 VK_SHADER_STAGE_COMPUTE_BIT].
Definition create_voxel_compute_descriptor_set_layout (device : Z) : VM VulkanLoaderError Z :=
  do! device_commands device ["vkCreateDescriptorSetLayout"; "vkDestroyDescriptorSetLayout"] in
  bind! out := vk_create [device] (KDescriptorSetLayout voxel_bindings) in
  created out.

Definition create_ui_pipeline_layout (device descriptor_set_layout : Z) : VM VulkanLoaderError Z :=
  do! guard_plan (descriptor_set_layout =? 0) in
  do! device_commands device ["vkCreatePipelineLayout"; "vkDestroyPipelineLayout"] in
  let range := mkPushRange (Z.lor VK_SHADER_STAGE_VERTEX_BIT VK_SHADER_STAGE_FRAGMENT_BIT) 0 64 in
  bind! out := vk_create [device; descriptor_set_layout] (KPipelineLayout [range]) in
  created out.

Definition create_voxel_compute_pipeline_layout (device descriptor_set_layout : Z) : VM VulkanLoaderError Z :=
  do! guard_plan (descriptor_set_layout =? 0) in
  do! device_commands device ["vkCreatePipelineLayout"; "vkDestroyPipelineLayout"] in
  bind! out := vk_create [device; descriptor_set_layout] (KPipelineLayout []) in
  created out.

Definition create_color_image_view (device : Z) (image : VkImage) (format : Z) : VM VulkanLoaderError Z :=
  do! guard_plan ((im_owner image =? 0) || (format =? VK_FORMAT_UNDEFINED)) in
  do! device_commands device ["vkCreateImageView"; "vkDestroyImageView"] in
  bind! out := vk_create [device; im_owner image] (KImageView format VK_IMAGE_ASPECT_COLOR_BIT) in
  created out.

Definition create_depth_image_view (device image : Z) : VM VulkanLoaderError Z :=
  do! guard_plan (image =? 0) in
  do! device_commands device ["vkCreateImageView"; "vkDestroyImageView"] in
  bind! out := vk_create [device; image] (KImageView VK_FORMAT_D32_SFLOAT VK_IMAGE_ASPECT_DEPTH_BIT) in
  created out.

Definition create_ui_render_pass (device color_format depth_format : Z) : VM VulkanLoaderError Z :=
  do! guard_plan ((color_format =? VK_FORMAT_UNDEFINED) || (depth_format =? VK_FORMAT_UNDEFINED)) in
  do! device_commands device ["vkCreateRenderPass"; "vkDestroyRenderPass"] in
  bind! out := vk_create [device] (KRenderPass color_format depth_format) in
  created out.

Definition create_framebuffer (device render_pass image_view depth_view : Z) (extent : Extent2D) : VM VulkanLoaderError Z :=
  do! guard_plan ((render_pass =? 0) || (image_view =? 0) || (depth_view =? 0) || extent_empty extent) in
  do! device_commands device ["vkCreateFramebuffer"; "vkDestroyFramebuffer"] in
  bind! out := vk_create [device; render_pass; image_view; depth_view] (KFramebuffer extent) in
  created out.

Definition create_ui_graphics_pipeline (device vertex_shader fragment_shader pipeline_layout render_pass : Z)
    (extent : Extent2D) (depth_enabled : bool) : VM VulkanLoaderError Z :=
  do! guard_plan ((vertex_shader =? 0) || (fragment_shader =? 0) || (pipeline_layout =? 0) || (render_pass =? 0) ||
                  extent_empty extent) in
  do! device_commands device ["vkCreateGraphicsPipelines"; "vkDestroyPipeline"] in
  bind! out := vk_create [device; vertex_shader; fragment_shader; pipeline_layout; render_pass]
                 (KPipeline extent depth_enabled) in
  created out.

Definition create_semaphore (device : Z) : VM VulkanLoaderError Z :=
  do! commands ["vkCreateSemaphore"; "vkDestroySemaphore"] in
  bind! out := vk_create [device] KSemaphore in
  created_unchecked out.

Definition create_fence (device : Z) (signaled : bool) : VM VulkanLoaderError Z :=
  do! commands ["vkCreateFence"; "vkDestroyFence"; "vkWaitForFences"; "vkResetFences"] in
  bind! out := vk_create [device] (KFence signaled) in
  created_unchecked out.

Definition create_command_pool (device family : Z) : VM VulkanLoaderError Z :=
  do! commands ["vkCreateCommandPool"; "vkDestroyCommandPool"] in
  bind! out := vk_create [device] (KCommandPool family) in
  created_unchecked out.

Definition allocate_command_buffers (pool : Z) (count : Z) : VM VulkanLoaderError (list VkCommandBuffer) :=
  if count =? 0 then vret []
  else
    do! command "vkAllocateCommandBuffers" in
    bind! result := vk_call in
    do! succeeded result in
    vret (map (fun i => mkCommandBuffer pool (Z.of_nat i)) (seq 0 (Z.to_nat count))).

(** ** Descriptor sets *)
Definition allocate_set (device pool layout : Z) (writes : list WriteDescriptorSet) : VM VulkanLoaderError VkDescriptorSet :=
  do! device_command device "vkAllocateDescriptorSets" in
  bind! result := vk_call in
  do! succeeded result in
  do! device_command device "vkUpdateDescriptorSets" in
  vret (mkSet pool layout writes).

Definition voxel_writes (bounds frustum visibility range : Z) : list WriteDescriptorSet :=
  [mkWrite 0 VK_DESCRIPTOR_TYPE_STORAGE_BUFFER (mkBufferInfo bounds 0 range);
   mkWrite 1 VK_DESCRIPTOR_TYPE_UNIFORM_BUFFER (mkBufferInfo frustum 0 (6 * 16));
   mkWrite 2 VK_DESCRIPTOR_TYPE_STORAGE_BUFFER (mkBufferInfo visibility 0 range)].
Definition allocate_voxel_compute_set (device pool layout bounds frustum visibility range : Z)
  : VM VulkanLoaderError VkDescriptorSet :=
  do! guard_plan ((layout =? 0) || (bounds =? 0) || (frustum =? 0) || (visibility =? 0) || (range =? 0)) in
  allocate_set device pool layout (voxel_writes bounds frustum visibility range).

Definition ui_writes (buffer range : Z) : list WriteDescriptorSet :=
  [mkWrite 0 VK_DESCRIPTOR_TYPE_STORAGE_BUFFER (mkBufferInfo buffer 0 range)].
Definition allocate_ui_set (device pool layout buffer range : Z) : VM VulkanLoaderError VkDescriptorSet :=
  do! guard_plan ((layout =? 0) || (buffer =? 0) || (range =? 0)) in
  allocate_set device pool layout (ui_writes buffer range).

(** ** Memory *)
Fixpoint popcount (p : positive) : Z :=
  match p with xH => 1 | xO p => popcount p | xI p => 1 + popcount p end.
Definition count_ones (z : Z) : Z := match z with Zpos p => popcount p | _ => 0 end.

Definition memory_type_step (types : list Z) (compatible_bits required preferred : Z) (best : option (Z * Z)) (index : Z)
  : option (Z * Z) :=
  if Z.land compatible_bits (Z.shiftl 1 index) =? 0 then best
  else match types !z index with
  | None => best
  | Some flags =>
      if negb (Z.land flags required =? required) then best
      else
        let score := count_ones (Z.land flags preferred) in
        match best with
        | None => Some (index, score)
        | Some (_, best_score) => if best_score <? score then Some (index, score) else best
        end
  end.
Definition select_memory_type (types : list Z) (compatible_bits required preferred : Z) : option Z :=
  let count := Z.min (zlen types) 32 in
  fst <$> fold_left (memory_type_step types compatible_bits required preferred) (map Z.of_nat (seq 0 (Z.to_nat count))) None.

(** An object with the memory bound to it. *)
Record BufferObject := mkBufferObject { bo_handle : Z; bo_memory : Z; bo_size : Z; bo_memory_properties : Z }.
Record DepthImage := mkDepthImage { di_handle : Z; di_memory : Z }.

(** The drops of [NativeBuffer] and [NativeDepthImage]. *)
Definition buffer_drop (b : BufferObject) : gpu -> option gpu := destroy_all [bo_handle b; bo_memory b].
Definition depth_image_drop (d : DepthImage) : gpu -> option gpu := destroy_all [di_handle d; di_memory d].

(** [handle = 0; free_memory]: releasing by hand on an error path. *)
Definition releasing {A} (hs : list Z) (e : VulkanLoaderError) : VM VulkanLoaderError A := fun g =>
  g ← destroy_all hs g; Some (g, Err e).

(** Binding makes the object depend on its memory. *)
Definition vk_bind_memory (handle memory : Z) : VM VulkanLoaderError Z := fun g =>
  match g_live g !! handle with
  | Some o =>
      if bool_decide (is_Some (g_live g !! memory)) then
        let r := vd_result D (g_calls g) in
        let g := called g in
        Some (if r =? VK_SUCCESS
              then with_live g (<[handle := Object (o_kind o) (o_parents o ++ [memory])]> (g_live g)) else g, Ok r)
      else None
  | None => None
  end.

(** Allocates memory for the object [handle] and binds it, releasing both when a
    call fails. *)
Definition allocate_bound (device handle size type_index : Z) : VM VulkanLoaderError (Z * Z * Z) :=
  bind! out := vk_create [device] (KMemory size type_index) in
  if negb (out.1 =? VK_SUCCESS) || (out.2 =? 0) then releasing [handle] (VulkanLoaderError.Api out.1)
  else
    let memory := out.2 in
    bind! result := vk_bind_memory handle memory in
    if negb (result =? VK_SUCCESS) then releasing [memory; handle] (VulkanLoaderError.Api result)
    else vret (handle, memory, type_index).

(** The common part of [create_buffer] and [create_depth_image], from the
    creation of the object on: choose a memory type, allocate, bind.  Yields the
    handle, the memory and the memory type. *)
Definition create_bound (device : Z) (k : kind) (required preferred : Z) : VM VulkanLoaderError (Z * Z * Z) :=
  bind! out := vk_create [device] k in
  bind! handle := created out in
  bind! requirements := (fun g => Some (called g, Ok (vd_requirements D (g_calls g)))) in
  do! command "vkGetPhysicalDeviceMemoryProperties" in
  match select_memory_type (vd_memory_types D) requirements.2 required preferred with
  | None => releasing [handle] VulkanLoaderError.InvalidQueuePlan
  | Some type_index => allocate_bound device handle requirements.1 type_index
  end.

Definition physical_null (p : VkPhysicalDevice) : bool := ph_instance p =? 0.

Definition create_buffer (device : Z) (physical : VkPhysicalDevice) (size usage required preferred : Z)
  : VM VulkanLoaderError BufferObject :=
  do! guard_plan (physical_null physical || (size =? 0) || (usage =? 0)) in
  do! device_commands device ["vkCreateBuffer"; "vkDestroyBuffer"; "vkGetBufferMemoryRequirements";
                              "vkAllocateMemory"; "vkFreeMemory"; "vkBindBufferMemory"] in
  bind! out := create_bound device (KBuffer size usage) required preferred in
  let '(handle, memory, type_index) := out in
  fun g => flags ← vd_memory_types D !z type_index; Some (g, Ok (mkBufferObject handle memory size flags)).

Definition create_depth_image (device : Z) (physical : VkPhysicalDevice) (extent : Extent2D)
  : VM VulkanLoaderError DepthImage :=
  do! guard_plan (physical_null physical || extent_empty extent) in
  do! device_commands device ["vkCreateImage"; "vkDestroyImage"; "vkGetImageMemoryRequirements";
                              "vkAllocateMemory"; "vkFreeMemory"; "vkBindImageMemory"] in
  bind! out := create_bound device (KImage extent) VK_MEMORY_PROPERTY_DEVICE_LOCAL_BIT 0 in
  let '(handle, memory, type_index) := out in
  vret (mkDepthImage handle memory).
End Wrappers.

(** ** Releasing a set of objects *)
Notation entry := (Z * object)%type.

(** A list of objects that can be destroyed from its head on. *)
Definition teardown (l : list entry) : Prop :=
  ForallOrdPairs (fun a b => a.1 <> b.1 /\ a.1 ∉ o_parents b.2) l /\ Forall (fun a => a.1 <> 0) l.

(** [d] destroys the objects [l], whatever else is alive, when nothing else
    refers to them. *)
Definition releases (d : gpu -> option gpu) (l : list entry) : Prop := forall g base,
  g_pending g = false -> g_live g = list_to_map l ∪ base -> list_to_map l ##ₘ base ->
  (forall x o, base !! x = Some o -> Forall (fun p => p ∉ l.*1) (o_parents o)) ->
  d g = Some (with_live g base).

Lemma with_live_self g : with_live g (g_live g) = g.
Proof. by destruct g. Qed.

Lemma lookup_elem (l : list entry) x o : (list_to_map l : gmap Z object) !! x = Some o -> (x, o) ∈ l.
Proof. apply elem_of_list_to_map_2. Qed.

Lemma releases_all l : teardown l -> releases (destroy_all l.*1) l.
Proof.
  intros [Hl Hz]. induction Hl as [|[x o] l Hx Hl IH]; intros g base Hp Hlive Hd Hbase; cbn.
  - cbn in Hlive. rewrite map_empty_union in Hlive. by rewrite <- Hlive, with_live_self.
  - apply Forall_cons_1 in Hz as [Hx0 Hz]. cbn in Hx0, Hx, Hlive, Hd. rewrite <- insert_union_l in Hlive.
    assert ((list_to_map l : gmap Z object) !! x = None) as Hnl.
    { apply not_elem_of_list_to_map_1. intros ([y p] & -> & Hy)%list_elem_of_fmap.
      rewrite Forall_forall in Hx. by destruct (Hx (y, p) ltac:(by apply list_elem_of_In)). }
    assert (base !! x = None) as Hnb by (apply (map_disjoint_Some_l _ _ x o Hd); by rewrite lookup_insert_eq).
    assert (delete x (g_live g) = list_to_map l ∪ base) as Hdel
      by (rewrite Hlive; apply delete_insert_id; by rewrite lookup_union_None_2).
    assert (vk_destroy x g = Some (with_live g (list_to_map l ∪ base))) as ->.
    { unfold vk_destroy. rewrite (proj2 (Z.eqb_neq x 0) Hx0), Hp, Hdel, bool_decide_eq_true_2; [done|]. split.
      - rewrite Hlive, lookup_insert_eq. by eexists.
      - intros y p [Hy|[_ Hy]]%lookup_union_Some_raw.
        + apply lookup_elem, list_elem_of_In in Hy. rewrite Forall_forall in Hx. exact (proj2 (Hx _ Hy)).
        + specialize (Hbase y p Hy). rewrite Forall_forall in Hbase. intros Hin%list_elem_of_In.
          apply (Hbase x Hin). by left. }
    cbn. apply (IH Hz (with_live g (list_to_map l ∪ base)) base); [done|done| |].
    + by apply map_disjoint_insert_l in Hd as [_ Hd].
    + intros y p Hy. eapply list.Forall_impl; [by apply (Hbase y p)|]. intros q Hq Hq'. apply Hq. by right.
Qed.

Lemma releases_perm d l l' : releases d l -> l ≡ₚ l' -> NoDup l.*1 -> releases d l'.
Proof.
  intros Hr Hp Hnd g base Hpd Hl Hd Hb. rewrite <- (list_to_map_proper l l') in Hl, Hd by done.
  apply Hr; try done. intros x o Hx. eapply list.Forall_impl; [by apply (Hb x o)|]. intros q Hq Hq'. apply Hq. by rewrite <- Hp.
Qed.

(** Releasing one set after the other. *)
Lemma teardown_app l1 l2 : teardown l1 -> teardown l2 ->
  (forall a b, a ∈ l1 -> b ∈ l2 -> a.1 <> b.1 /\ a.1 ∉ o_parents b.2) -> teardown (l1 ++ l2).
Proof.
  intros [H1 Z1] [H2 Z2] Hx. split; [|by apply Forall_app]. induction H1 as [|a l1 Ha H1 IH]; [done|].
  apply Forall_cons_1 in Z1 as [_ Z1]. cbn. constructor.
  - apply Forall_app. split; [done|]. apply Forall_forall. intros b Hb%list_elem_of_In. apply Hx; [by left|done].
  - apply IH; [done|]. intros b c Hb Hc. apply Hx; [by right|done].
Qed.

Lemma teardown_nodup l : teardown l -> NoDup l.*1.
Proof.
  intros [H _]. induction H as [|a l Ha H IH]; cbn; constructor; [|done].
  intros (b & Hb & Hin)%list_elem_of_fmap. rewrite Forall_forall in Ha.
  apply list_elem_of_In in Hin. by destruct (Ha b Hin) as [? _].
Qed.

Lemma teardown_one x o : x <> 0 -> teardown [(x, o)].
Proof. intros Hx. split; constructor; [constructor| |done|]; constructor. Qed.

(** ** Specifications of creation *)
Definition wf (g : gpu) : Prop := 0 < g_next g /\ forall x o, g_live g !! x = Some o ->
  0 < x < g_next g /\ Forall (fun p => p < g_next g) (o_parents o).

(** The handles of [l] are in [[n0, n1)], its references below [n1]. *)
Definition block (n0 n1 : Z) (l : list entry) : Prop :=
  NoDup l.*1 /\ 0 < n0 /\ n0 <= n1 /\ Forall (fun a => n0 <= a.1 < n1 /\ Forall (fun p => p < n1) (o_parents a.2)) l.

Definition same (g g' : gpu) : Prop :=
  g_active g' = g_active g /\ g_pending g' = g_pending g /\ g_next g <= g_next g'.

Record idle (ctx : Z -> Prop) (g : gpu) : Prop := {
  id_wf : wf g;
  id_pending : g_pending g = false;
  id_active : is_Some (g_live g !! g_active g);
  id_ctx x : ctx x -> is_Some (g_live g !! x)
}.

(** The outcome of a run started at [g]: all or nothing. *)
Definition all_or_nothing {E A} (g : gpu) (out : option (gpu * result E A)) (Q : A -> Z -> Z -> list entry -> Prop) : Prop :=
  exists g' r, out = Some (g', r) /\ wf g' /\ same g g' /\
    match r with
    | Err _ => g_live g' = g_live g
    | Ok a => exists l, g_live g' = list_to_map l ∪ g_live g /\ block (g_next g) (g_next g') l /\ Q a (g_next g) (g_next g') l
    end.

(** [m] fails with all objects as before, or adds a set of which [Q] holds.
    [ctx] are the living handles [m] uses. *)
Definition creates {E A} (ctx : Z -> Prop) (m : VM E A) (Q : A -> Z -> Z -> list entry -> Prop) : Prop :=
  forall g, idle ctx g -> all_or_nothing g (m g) Q.

(** [m] changes no object. *)
Definition quiet {E A} (ctx : Z -> Prop) (m : VM E A) (R : A -> Prop) : Prop :=
  forall g, idle ctx g -> exists g' r, m g = Some (g', r) /\ g_live g' = g_live g /\ g_next g' = g_next g /\ same g g' /\
    match r with Err _ => True | Ok a => R a end.

Lemma idle_lt ctx g x : idle ctx g -> ctx x -> 0 < x < g_next g.
Proof. intros [[_ Hwf] _ _ Hc] Hx. destruct (Hc x Hx) as [o Ho]. apply (Hwf x o Ho). Qed.

Lemma idle_mono (ctx ctx' : Z -> Prop) g : (forall x, ctx' x -> ctx x) -> idle ctx g -> idle ctx' g.
Proof. intros Hc [? ? ? ?]. split; auto. Qed.

Lemma wf_eq g g' : wf g -> g_live g' = g_live g -> g_next g <= g_next g' -> wf g'.
Proof.
  intros [H0 Hwf] Hl Hn. split; [lia|]. intros x o Ho. rewrite Hl in Ho. destruct (Hwf x o Ho) as [? ?]. split; [lia|].
  eapply list.Forall_impl; [done|]. cbn; intros; lia.
Qed.

Lemma idle_same ctx g g' : idle ctx g -> wf g' -> same g g' -> g_live g' = g_live g -> idle ctx g'.
Proof.
  intros [? Hp Ha Hc] Hwf (Hac & Hpe & _) Hl. split; [done|by rewrite Hpe|by rewrite Hac, Hl|].
  intros x Hx. rewrite Hl. auto.
Qed.

Lemma same_refl g : same g g.
Proof. repeat split; lia. Qed.

Lemma same_trans g1 g2 g3 : same g1 g2 -> same g2 g3 -> same g1 g3.
Proof. intros (Ha & Hb & Hc) (Ha' & Hb' & Hc'). repeat split; [congruence|congruence|lia]. Qed.

Lemma block_mono n0 n1 n0' n1' l : block n0 n1 l -> 0 < n0' -> n0' <= n0 -> n1 <= n1' -> block n0' n1' l.
Proof.
  intros (Hnd & H0 & Hn & Hl) ? ? ?. repeat split; [done|done|lia|]. eapply list.Forall_impl; [done|].
  intros a [? ?]. split; [lia|]. eapply list.Forall_impl; [done|]. cbn; intros; lia.
Qed.

Lemma block_app n0 n1 n2 l1 l2 : block n0 n1 l1 -> block n1 n2 l2 -> block n0 n2 (l2 ++ l1).
Proof.
  intros (Hnd1 & H0 & Hn1 & Hl1) (Hnd2 & _ & Hn2 & Hl2). repeat split; [|done|lia|].
  - rewrite fmap_app. apply list.NoDup_app. repeat split; [done| |done].
    intros x (a & -> & Ha)%list_elem_of_fmap (b & Hab & Hb)%list_elem_of_fmap.
    rewrite Forall_forall in Hl1, Hl2. apply list_elem_of_In in Ha, Hb. specialize (Hl1 b Hb). specialize (Hl2 a Ha). lia.
  - apply Forall_app. split.
    + eapply list.Forall_impl; [done|]. intros a [? ?]. split; [lia|done].
    + eapply list.Forall_impl; [done|]. intros a [? ?]. split; [lia|]. eapply list.Forall_impl; [done|]. cbn; intros; lia.
Qed.

Lemma block_disjoint g n1 l : wf g -> block (g_next g) n1 l -> list_to_map l ##ₘ g_live g.
Proof.
  intros [_ Hwf] (_ & _ & _ & Hl). apply map_disjoint_spec. intros x o o' Ho Ho'.
  apply lookup_elem, list_elem_of_In in Ho. rewrite Forall_forall in Hl. specialize (Hl _ Ho). cbn in Hl.
  specialize (Hwf x o' Ho'). lia.
Qed.

Lemma wf_add g g' l : wf g -> block (g_next g) (g_next g') l -> g_live g' = list_to_map l ∪ g_live g -> wf g'.
Proof.
  intros [H0 Hwf] (_ & _ & Hn & Hl) Hlive. split; [lia|]. intros x o Ho. rewrite Hlive in Ho.
  apply lookup_union_Some_raw in Ho as [Ho|[_ Ho]].
  - apply lookup_elem, list_elem_of_In in Ho. rewrite Forall_forall in Hl. destruct (Hl _ Ho) as [? ?]. split; [cbn in *; lia|done].
  - destruct (Hwf x o Ho) as [? ?]. split; [lia|]. eapply list.Forall_impl; [done|]. cbn; intros; lia.
Qed.

(** The objects added to an idle state are usable too. *)
Lemma idle_add ctx g g' l : idle ctx g -> wf g' -> same g g' -> g_live g' = list_to_map l ∪ g_live g ->
  block (g_next g) (g_next g') l -> idle (fun x => x ∈ l.*1 \/ ctx x) g'.
Proof.
  intros Hg Hwf Hs Hl Hb. assert (forall x o, g_live g !! x = Some o -> g_live g' !! x = Some o) as Hkeep.
  { intros x o Ho. rewrite Hl. apply lookup_union_Some_r; [|done]. apply (block_disjoint g (g_next g')); [apply Hg|done]. }
  destruct Hg as [? Hp [o Ha] Hc]. destruct Hs as (Hac & Hpe & _). split; [done|congruence| |].
  - rewrite Hac. exists o. auto.
  - intros x [([y o'] & -> & Hy)%list_elem_of_fmap|Hx].
    + rewrite Hl. exists o'. apply lookup_union_Some_l, elem_of_list_to_map_1; [apply Hb|done].
    + destruct (Hc x Hx) as [o' Ho']. exists o'. auto.
Qed.

(** ** Rules *)
Lemma creates_mono {E A} (ctx ctx' : Z -> Prop) (m : VM E A) (Q Q' : A -> Z -> Z -> list entry -> Prop) :
  creates ctx m Q -> (forall x, ctx x -> ctx' x) ->
  (forall a n0 n1 l, block n0 n1 l -> (forall x, ctx' x -> 0 < x < n0) -> Q a n0 n1 l -> Q' a n0 n1 l) -> creates ctx' m Q'.
Proof.
  intros Hm Hc HQ g Hg. destruct (Hm g (idle_mono _ _ _ Hc Hg)) as (g' & r & Hr & Hwf & Hs & Hpost).
  exists g', r. split_and!; [done..|]. destruct r as [a|e]; [|done].
  destruct Hpost as (l & Hl & Hb & Hq). exists l. split_and!; [done..|]. apply HQ; [done| |done].
  intros x Hx. by apply (idle_lt _ _ x Hg).
Qed.

Lemma quiet_creates {E A} ctx (m : VM E A) R : quiet ctx m R -> creates ctx m (fun a n0 n1 l => R a /\ l = []).
Proof.
  intros Hm g Hg. destruct (Hm g Hg) as (g' & r & Hr & Hl & Hn & Hs & Hpost).
  assert (wf g') as Hwf by (apply (wf_eq g); [apply Hg|done|lia]). pose proof (proj1 (id_wf _ _ Hg)).
  exists g', r. split_and!; [done..|]. destruct r as [a|e]; [|done]. exists []. rewrite Hn. split_and!; try done.
  - cbn. by rewrite map_empty_union.
  - repeat split; [constructor|done|lia|constructor].
Qed.

Lemma creates_fail {E A} ctx (e : E) (Q : A -> Z -> Z -> list entry -> Prop) : creates ctx (vfail e) Q.
Proof. intros g Hg. exists g, (Err e). split_and!; [done|apply Hg|apply same_refl|done]. Qed.

Lemma creates_ret {E A} ctx (a : A) : creates (E := E) ctx (vret a) (fun b _ _ l => b = a /\ l = []).
Proof. apply (quiet_creates ctx (vret a) (fun b => b = a)). intros g Hg. exists g, (Ok a). split_and!; [done..|apply same_refl|done]. Qed.

Lemma creates_bind {E A B} (ctx : Z -> Prop) (m : VM E A) (k : A -> VM E B) R (Q : B -> Z -> Z -> list entry -> Prop) :
  quiet ctx m R -> (forall a, R a -> creates ctx (k a) Q) -> creates ctx (vbind m k) Q.
Proof.
  intros Hm Hk g Hg. destruct (Hm g Hg) as (g1 & r & Hr & Hl & Hn & Hs & Hpost). unfold vbind. rewrite Hr.
  assert (wf g1) as Hwf by (apply (wf_eq g); [apply Hg|done|lia]).
  destruct r as [a|e]; [|by exists g1, (Err e)]. cbn in Hpost.
  destruct (Hk a Hpost g1 (idle_same _ _ _ Hg Hwf Hs Hl)) as (g2 & r & Hr2 & Hwf2 & Hs2 & Hpost2).
  exists g2, r. rewrite Hl, Hn in Hpost2. split_and!; [done..|by eapply same_trans|done].
Qed.

Lemma quiet_bind {E A B} (ctx : Z -> Prop) (m : VM E A) (k : A -> VM E B) R R' :
  quiet ctx m R -> (forall a, R a -> quiet ctx (k a) R') -> quiet ctx (vbind m k) R'.
Proof.
  intros Hm Hk g Hg. destruct (Hm g Hg) as (g1 & r & Hr & Hl & Hn & Hs & Hpost). unfold vbind. rewrite Hr.
  assert (wf g1) as Hwf by (apply (wf_eq g); [apply Hg|done|lia]).
  destruct r as [a|e]; [|by exists g1, (Err e)]. cbn in Hpost.
  destruct (Hk a Hpost g1 (idle_same _ _ _ Hg Hwf Hs Hl)) as (g2 & r & Hr2 & Hl2 & Hn2 & Hs2 & Hpost2).
  exists g2, r. split_and!; [done|congruence|lia|by eapply same_trans|done].
Qed.

Lemma creates_map_err {E F A} (f : E -> F) ctx (m : VM E A) Q : creates ctx m Q -> creates ctx (vmap_err f m) Q.
Proof.
  intros Hm g Hg. destruct (Hm g Hg) as (g' & r & Hr & Hwf & Hs & Hpost). unfold vmap_err. rewrite Hr.
  exists g', (map_err f r). split_and!; [done..|]. by destruct r.
Qed.

Lemma quiet_map_err {E F A} (f : E -> F) ctx (m : VM E A) R : quiet ctx m R -> quiet ctx (vmap_err f m) R.
Proof.
  intros Hm g Hg. destruct (Hm g Hg) as (g' & r & Hr & Hl & Hn & Hs & Hpost). unfold vmap_err. rewrite Hr.
  exists g', (map_err f r). split_and!; [done..|]. by destruct r.
Qed.

(** Older objects do not refer to newer ones. *)
Lemma older_unrelated g n1 l x o : wf g -> block (g_next g) n1 l -> g_live g !! x = Some o ->
  Forall (fun p => p ∉ l.*1) (o_parents o).
Proof.
  intros Hwf (_ & _ & _ & Hb) Ho. destruct (proj2 Hwf x o Ho) as [_ Hpar].
  eapply list.Forall_impl; [done|]. cbn. intros p Hlt ([y q] & -> & Hy)%list_elem_of_fmap.
  rewrite Forall_forall in Hb. apply list_elem_of_In in Hy. specialize (Hb _ Hy). cbn in *. lia.
Qed.

Lemma releases_new d n1 l g g1 : releases d l -> wf g -> block (g_next g) n1 l -> g_pending g1 = false ->
  g_live g1 = list_to_map l ∪ g_live g -> d g1 = Some (with_live g1 (g_live g)).
Proof.
  intros Hd Hwf Hb Hp Hl. apply Hd; [done|done|by eapply block_disjoint|]. intros x o Ho. by eapply older_unrelated.
Qed.

Lemma creates_owning {E A B} (ctx : Z -> Prop) (m : VM E A) d (k : A -> VM E B) Q1 (Q : B -> Z -> Z -> list entry -> Prop) :
  creates ctx m Q1 ->
  (forall a n0 n1 l1, Q1 a n0 n1 l1 -> block n0 n1 l1 -> (forall x, ctx x -> 0 < x < n0) ->
    releases (d a) l1 /\
    creates (fun x => x ∈ l1.*1 \/ ctx x) (k a) (fun b n1' n2 l2 =>
      n1 <= n1' -> n1' <= n2 -> block n1' n2 l2 -> Q b n0 n2 (l2 ++ l1))) ->
  creates ctx (owning m d k) Q.
Proof.
  intros Hm Hk g Hg. destruct (Hm g Hg) as (g1 & r & Hr & Hwf1 & Hs1 & Hpost). unfold owning, vbind. rewrite Hr.
  destruct r as [a|e]; [|by exists g1, (Err e)]. destruct Hpost as (l1 & Hl1 & Hb1 & Hq1).
  destruct (Hk a _ _ l1 Hq1 Hb1 (fun x Hx => idle_lt _ _ x Hg Hx)) as [Hrel Hka].
  pose proof (idle_add ctx g g1 l1 Hg Hwf1 Hs1 Hl1 Hb1) as Hg1.
  destruct (Hka g1 Hg1) as (g2 & r & Hr2 & Hwf2 & Hs2 & Hpost2). rewrite Hr2. destruct r as [b|e].
  - destruct Hpost2 as (l2 & Hl2 & Hb2 & Hq2). exists g2, (Ok b).
    split_and!; [done|done|by eapply same_trans|]. exists (l2 ++ l1). rewrite list_to_map_app, <- map_union_assoc, <- Hl1.
    split_and!; [done|by eapply block_app|]. apply Hq2; [lia|apply Hs2|done].
  - rewrite (releases_new (d a) (g_next g1) l1 g g2 Hrel (id_wf _ _ Hg) Hb1); [|by rewrite (proj1 (proj2 Hs2)), (proj1 (proj2 Hs1)), (id_pending _ _ Hg)|congruence].
    eexists _, (Err e). split; [done|]. assert (same g (with_live g2 (g_live g))) as Hs by (by eapply same_trans).
    split_and!; [|done|done]. eapply (wf_eq g); [apply Hg|done|apply Hs].
Qed.

(** ** Putting objects together

    A piece is a set of objects with handles in an interval, that refer to each
    other and to [R], and its drop order. *)
Record piece := Piece { p_lo : Z; p_hi : Z; p_refs : list Z; p_handles : list Z; p_objects : list entry }.

Definition piece_ok (p : piece) : Prop := exists l, l ≡ₚ p_objects p /\ l.*1 = p_handles p /\ teardown l /\
  Forall (fun a => p_lo p <= a.1 < p_hi p /\ Forall (fun q => q ∈ p_refs p \/ p_lo p <= q < p_hi p) (o_parents a.2)) l.

(** [p] may be dropped before [q]. *)
Definition before (p q : piece) : Prop :=
  (p_hi p <= p_lo q \/ p_hi q <= p_lo p) /\ Forall (fun r => ~ (p_lo p <= r < p_hi p)) (p_refs q).

Lemma pieces_teardown ps : Forall piece_ok ps -> ForallOrdPairs before ps ->
  exists l, l ≡ₚ concat (map p_objects ps) /\ l.*1 = concat (map p_handles ps) /\ teardown l /\
    Forall (fun a => exists p, p ∈ ps /\ p_lo p <= a.1 < p_hi p /\ Forall (fun q => q ∈ p_refs p \/ p_lo p <= q < p_hi p) (o_parents a.2)) l.
Proof.
  intros Hok Hord. induction Hord as [|p ps Hp Hord IH]; cbn.
  - exists []. split_and!; [done|done|split; constructor|constructor].
  - apply Forall_cons_1 in Hok as [(l1 & Hl1 & Hh1 & Ht1 & Hr1) Hok']. destruct (IH Hok') as (l2 & Hl2 & Hh2 & Ht2 & Hr2).
    exists (l1 ++ l2). split_and!; [by rewrite Hl1, Hl2|by rewrite fmap_app, Hh1, Hh2| |].
    + apply teardown_app; [done|done|]. intros a b Ha%list_elem_of_In Hb%list_elem_of_In.
      rewrite Forall_forall in Hr1, Hr2, Hp. destruct (Hr1 a Ha) as [Ha1 _]. destruct (Hr2 b Hb) as (q & Hq & Hb1 & Hb2).
      apply list_elem_of_In in Hq. destruct (Hp q Hq) as [Hdisj Href]. split; [lia|].
      rewrite Forall_forall in Hb2, Href. intros Hin%list_elem_of_In.
      destruct (Hb2 _ Hin) as [Hin'|?]; [|lia]. apply list_elem_of_In in Hin'. specialize (Href _ Hin'). lia.
    + apply Forall_app. split.
      * eapply list.Forall_impl; [exact Hr1|]. intros a Ha. exists p. split; [by left|done].
      * eapply list.Forall_impl; [exact Hr2|]. intros a (q & Hq & Ha). exists q. split; [by right|done].
Qed.

(** Pieces make a piece. *)
Lemma pieces_ok lo hi R ps l : Forall piece_ok ps -> ForallOrdPairs before ps ->
  Forall (fun p => lo <= p_lo p /\ p_hi p <= hi /\ Forall (fun r => r ∈ R \/ lo <= r < hi) (p_refs p)) ps ->
  concat (map p_objects ps) ≡ₚ l -> piece_ok (Piece lo hi R (concat (map p_handles ps)) l).
Proof.
  intros Hok Hord Hin Hl. destruct (pieces_teardown ps Hok Hord) as (lt & Hlt & Hh & Ht & Hr).
  exists lt. cbn. split_and!; [by rewrite Hlt|done|done|]. eapply list.Forall_impl; [exact Hr|]. cbn.
  intros a (p & Hp & Ha & Hpar). rewrite Forall_forall in Hin. apply list_elem_of_In in Hp.
  destruct (Hin p Hp) as (? & ? & Href). split; [lia|]. eapply list.Forall_impl; [exact Hpar|]. cbn.
  intros q [Hq|Hq]; [|lia]. rewrite Forall_forall in Href. apply Href. by apply list_elem_of_In.
Qed.

Lemma piece_releases p : piece_ok p -> releases (destroy_all (p_handles p)) (p_objects p).
Proof.
  intros (l & Hl & <- & Ht & _). eapply releases_perm; [by apply releases_all|done|by apply teardown_nodup].
Qed.

Lemma piece_empty lo hi R : piece_ok (Piece lo hi R [] []).
Proof. exists []. split_and!; [done|done|split; constructor|constructor]. Qed.

Lemma piece_mono lo hi R lo' hi' R' hs l : piece_ok (Piece lo hi R hs l) -> lo' <= lo -> hi <= hi' ->
  Forall (fun r => r ∈ R' \/ lo' <= r < hi') R -> piece_ok (Piece lo' hi' R' hs l).
Proof.
  intros (lt & Hl & Hh & Ht & Hr) Hlo Hhi HR. exists lt. cbn in *. split_and!; [done..|].
  eapply list.Forall_impl; [exact Hr|]. cbn. intros a [? Hpar]. split; [lia|].
  eapply list.Forall_impl; [exact Hpar|]. cbn. intros q [Hq|?]; [|lia]. rewrite Forall_forall in HR.
  apply HR. by apply list_elem_of_In.
Qed.

(** [own!] with a piece. *)
Lemma creates_own {E A B} (ctx : Z -> Prop) (m : VM E A) (handles : A -> list Z) R (k : A -> VM E B) Q1 (Q : B -> Z -> Z -> list entry -> Prop) :
  creates ctx m Q1 ->
  (forall a n0 n1 l, Q1 a n0 n1 l -> block n0 n1 l -> (forall x, ctx x -> 0 < x < n0) -> piece_ok (Piece n0 n1 R (handles a) l)) ->
  (forall a n0 n1 l1, piece_ok (Piece n0 n1 R (handles a) l1) -> Q1 a n0 n1 l1 -> 0 < n0 -> n0 <= n1 ->
    (forall x, ctx x -> 0 < x < n0) -> Forall (fun x => n0 <= x < n1) (handles a) ->
    creates (fun x => x ∈ handles a \/ ctx x) (k a) (fun b n1' n2 l2 => n1 <= n1' -> n1' <= n2 -> Q b n0 n2 (l2 ++ l1))) ->
  creates ctx (owning m (fun a => destroy_all (handles a)) k) Q.
Proof.
  intros Hm Hp Hk. eapply creates_owning; [exact Hm|]. intros a n0 n1 l1 Hq Hb Hctx.
  pose proof (Hp a n0 n1 l1 Hq Hb Hctx) as Hpiece. split; [exact (piece_releases _ Hpiece)|].
  pose proof Hpiece as (lt & Hl & Hh & Ht & Hr). cbn in Hl, Hh, Hr.
  assert (Forall (fun x => n0 <= x < n1) (handles a)) as Hrange.
  { rewrite <- Hh. apply Forall_fmap. eapply list.Forall_impl; [exact Hr|]. cbn. tauto. }
  destruct Hb as (_ & ? & ? & _).
  eapply creates_mono; [apply (Hk a n0 n1 l1); done| |].
  - intros x [Hx|Hx]; [left|by right]. rewrite <- Hh in Hx. by rewrite <- Hl.
  - intros b n1' n2 l2 _ _ HQ ? ? _. by apply HQ.
Qed.

Lemma piece_one k ps a n0 n1 l : l = [(a, Object k ps)] -> block n0 n1 l -> piece_ok (Piece n0 n1 ps [a] l).
Proof.
  intros -> (_ & ? & _ & Hb). apply Forall_cons_1 in Hb as [[? _] _]. cbn in *. exists [(a, Object k ps)].
  split_and!; [done|done|by apply teardown_one; lia|]. repeat constructor; cbn; try lia.
  apply Forall_forall. intros p Hp. left. by apply list_elem_of_In.
Qed.

(** The vector loop. *)
Lemma create_each_spec {E A X} (ctx : Z -> Prop) (f : X -> VM E A) (handles : A -> list Z) R xs : forall acc g g1 l1,
  idle ctx g -> Forall ctx R ->
  Forall (fun x => creates ctx (f x) (fun a n0 n1 l => piece_ok (Piece n0 n1 R (handles a) l))) xs ->
  wf g1 -> same g g1 -> g_live g1 = list_to_map l1 ∪ g_live g -> block (g_next g) (g_next g1) l1 ->
  piece_ok (Piece (g_next g) (g_next g1) R (concat (map handles acc)) l1) ->
  all_or_nothing g (create_each f handles acc xs g1) (fun as_ n0 n1 l =>
    piece_ok (Piece n0 n1 R (concat (map handles as_)) l) /\ length as_ = (length acc + length xs)%nat).
Proof.
  induction xs as [|x xs IH]; intros acc g g1 l1 Hg HR Hxs Hwf1 Hs Hl1 Hb1 Hp1.
  - cbn. exists g1, (Ok acc). split_and!; [done..|]. exists l1. split_and!; done || (cbn; lia).
  - apply Forall_cons_1 in Hxs as [Hx Hxs']. cbn.
    assert (idle ctx g1) as Hg1 by (eapply idle_mono, (idle_add ctx g g1 l1); [by right|done..]).
    destruct (Hx g1 Hg1) as (g2 & r & -> & Hwf2 & Hs2 & Hpost). destruct r as [a|e].
    + destruct Hpost as (l2 & Hl2 & Hb2 & Hp2).
      assert (piece_ok (Piece (g_next g) (g_next g2) R (concat (map handles (acc ++ [a]))) (l2 ++ l1))) as Hp.
      { rewrite map_app, concat_app. cbn. rewrite app_nil_r.
        replace (concat (map handles acc) ++ handles a) with (concat (map p_handles
          [Piece (g_next g) (g_next g1) R (concat (map handles acc)) l1; Piece (g_next g1) (g_next g2) R (handles a) l2]))
          by (cbn; by rewrite app_nil_r).
        assert (g_next g <= g_next g1 /\ g_next g1 <= g_next g2) as [? ?] by (destruct Hs as (_ & _ & ?), Hs2 as (_ & _ & ?); lia).
        apply pieces_ok.
        - by repeat constructor.
        - repeat constructor; cbn; [lia|]. eapply list.Forall_impl; [exact HR|]. cbn. intros y Hy.
          apply (idle_lt _ _ y Hg) in Hy. lia.
        - assert (Forall (fun r => r ∈ R \/ g_next g <= r < g_next g2) R) as HRR
            by (apply Forall_forall; intros y Hy; left; by apply list_elem_of_In).
          repeat constructor; cbn; done || lia.
        - cbn. rewrite app_nil_r. apply Permutation_app_comm. }
      assert (same g g2) as Hsg by (by eapply same_trans).
      destruct (IH (acc ++ [a]) g g2 (l2 ++ l1) Hg HR Hxs' Hwf2 Hsg) as (g3 & r & Hr & Hwf3 & Hs3 & Hpost); [|by eapply block_app|done|].
      * by rewrite Hl2, Hl1, map_union_assoc, <- list_to_map_app.
      * exists g3, r. split_and!; [done..|]. destruct r as [as_|]; [|done]. destruct Hpost as (l & ? & ? & ? & Hlen).
        exists l. split_and!; [done..|]. rewrite Hlen, length_app. cbn. lia.
    + pose proof (piece_releases _ Hp1) as Hrel. cbn [p_handles p_objects] in Hrel.
      rewrite (releases_new _ (g_next g1) l1 g g2 Hrel (id_wf _ _ Hg) Hb1);
        [|by rewrite (proj1 (proj2 Hs2)), (proj1 (proj2 Hs)), (id_pending _ _ Hg)|congruence].
      cbn. assert (same g g2) as Hsg by (by eapply same_trans). eexists _, (Err e). split; [done|].
      split_and!; [|exact Hsg|done]. eapply (wf_eq g); [apply Hg|done|apply Hsg].
Qed.

Lemma creates_each {E A X} (ctx : Z -> Prop) (f : X -> VM E A) (handles : A -> list Z) R xs : Forall ctx R ->
  Forall (fun x => creates ctx (f x) (fun a n0 n1 l => piece_ok (Piece n0 n1 R (handles a) l))) xs ->
  creates ctx (create_each f handles [] xs) (fun as_ n0 n1 l =>
    piece_ok (Piece n0 n1 R (concat (map handles as_)) l) /\ length as_ = length xs).
Proof.
  intros HR Hxs g Hg. pose proof (proj1 (id_wf _ _ Hg)). apply (create_each_spec ctx f handles R xs [] g g []); try done.
  - apply Hg.
  - cbn. by rewrite map_empty_union.
  - repeat split; [constructor|done|lia|constructor].
  - apply piece_empty.
Qed.

(** ** The wrappers *)
Section Specs.
Context (D : VkDriver).

Lemma quiet_device_command (ctx : Z -> Prop) device n : ctx device -> quiet ctx (device_command D device n) (fun _ => True).
Proof.
  intros Hd g Hg. destruct (id_ctx _ _ Hg device Hd) as [o Ho]. unfold device_command, device_proc, live_or_none.
  rewrite (proj2 (Z.eqb_neq device 0)) by (apply (idle_lt _ _ _ Hg) in Hd; lia).
  rewrite bool_decide_eq_true_2 by eauto. cbn. exists g. destruct (vd_device D n); eexists; split_and!; done || apply same_refl.
Qed.

Lemma quiet_device_commands (ctx : Z -> Prop) device ns : ctx device -> quiet ctx (device_commands D device ns) (fun _ => True).
Proof.
  intros Hd. induction ns as [|n ns IH]; cbn.
  - intros g Hg. exists g, (Ok tt). split_and!; done || apply same_refl.
  - eapply quiet_bind; [by apply quiet_device_command|]. done.
Qed.

Lemma command_found (ctx : Z -> Prop) n g : idle ctx g ->
  command D n g = Some (g, if vd_instance D n || vd_global D n then Ok tt else Err VulkanLoaderError.MissingCommand).
Proof.
  intros Hg. destruct (id_active _ _ Hg) as [o Ho]. unfold command, instance_proc, live_or_none.
  rewrite (proj2 (Z.eqb_neq (g_active g) 0)) by (pose proof (proj2 (id_wf _ _ Hg) _ _ Ho); lia).
  by rewrite bool_decide_eq_true_2 by eauto.
Qed.

Lemma quiet_command (ctx : Z -> Prop) n : quiet ctx (command D n) (fun _ => True).
Proof.
  intros g Hg. rewrite (command_found ctx) by done. exists g.
  destruct (vd_instance D n || vd_global D n); eexists; split_and!; done || apply same_refl.
Qed.

Lemma quiet_commands (ctx : Z -> Prop) ns : quiet ctx (commands D ns) (fun _ => True).
Proof.
  induction ns as [|n ns IH]; cbn.
  - intros g Hg. exists g, (Ok tt). split_and!; done || apply same_refl.
  - eapply quiet_bind; [by apply quiet_command|]. done.
Qed.

Lemma quiet_guard (ctx : Z -> Prop) b : quiet ctx (guard_plan b) (fun _ => b = false).
Proof. intros g Hg. exists g. destruct b; eexists; split_and!; done || apply same_refl. Qed.

Lemma quiet_lift {E A} (ctx : Z -> Prop) (r : result E A) : quiet ctx (vlift r) (fun _ => True).
Proof. intros g Hg. exists g, r. split_and!; apply same_refl || by destruct r. Qed.

Lemma quiet_vk_call (ctx : Z -> Prop) : quiet ctx (vk_call D) (fun _ => True).
Proof. intros g Hg. exists (called g). eexists. by split_and!. Qed.

Lemma quiet_succeeded (ctx : Z -> Prop) r : quiet ctx (succeeded r) (fun _ => r = VK_SUCCESS).
Proof.
  intros g Hg. unfold succeeded. exists g. destruct (Z.eqb_spec r VK_SUCCESS); eexists; split_and!; done || apply same_refl.
Qed.

Definition one (k : kind) (ps : list Z) (a n0 n1 : Z) (l : list entry) : Prop := l = [(a, Object k ps)].

(** A creation call: a fresh handle on success, null otherwise. *)
Lemma vk_create_cases ctx ps k g : idle ctx g -> Forall ctx ps ->
  vk_create D ps k g = Some (make (called g) (Object k ps), Ok (VK_SUCCESS, g_next g)) \/
  exists r, r <> VK_SUCCESS /\ vk_create D ps k g = Some (called g, Ok (r, 0)).
Proof.
  intros Hg Hps. unfold vk_create. rewrite bool_decide_eq_true_2 by (eapply list.Forall_impl; [done|]; apply Hg).
  destruct (Z.eqb_spec (vd_result D (g_calls g)) VK_SUCCESS) as [->|Hr]; [by left|]. right. by exists (vd_result D (g_calls g)).
Qed.

Lemma idle_called ctx g : idle ctx g -> idle ctx (called g).
Proof. intros []. by split. Qed.

Lemma block_one ctx g k ps : idle ctx g -> Forall ctx ps -> block (g_next g) (g_next g + 1) [(g_next g, Object k ps)].
Proof.
  intros Hg Hps. pose proof (proj1 (id_wf _ _ Hg)). repeat split; [|lia|lia|].
  - apply NoDup_singleton.
  - constructor; [|constructor]. split; [cbn; lia|]. eapply list.Forall_impl; [done|].
    intros p Hp. apply (idle_lt _ _ p Hg) in Hp. lia.
Qed.

Lemma make_adds ctx g k ps : idle ctx g -> Forall ctx ps -> let g' := make (called g) (Object k ps) in
  wf g' /\ same g g' /\ g_live g' = list_to_map [(g_next g, Object k ps)] ∪ g_live g /\
  block (g_next g) (g_next g') [(g_next g, Object k ps)].
Proof.
  intros Hg Hps g'. pose proof (block_one ctx g k ps Hg Hps) as Hb.
  assert (g_live g' = list_to_map [(g_next g, Object k ps)] ∪ g_live g) as Hl by (cbn; by rewrite <- insert_union_l, map_empty_union).
  split_and!; [by eapply (wf_add g); [apply Hg|..]|repeat split; cbn; lia|done|done].
Qed.

Lemma creates_object ctx ps k : Forall ctx ps -> creates ctx (bind! out := vk_create D ps k in created out) (one k ps).
Proof.
  intros Hps g Hg. unfold vbind. pose proof (proj1 (id_wf _ _ Hg)) as H0.
  destruct (vk_create_cases ctx ps k g Hg Hps) as [->|(r & Hr & ->)]; unfold created; cbn.
  - rewrite (proj2 (Z.eqb_neq (g_next g) 0)) by lia. cbn. destruct (make_adds ctx g k ps Hg Hps) as (? & ? & ? & ?).
    eexists _, (Ok _). split_and!; [done..|]. eexists. by split_and!.
  - rewrite (proj2 (Z.eqb_neq r VK_SUCCESS) Hr). cbn. exists (called g), (Err (VulkanLoaderError.Api r)).
    split_and!; [done|apply Hg|repeat split; cbn; lia|done].
Qed.

Lemma creates_object_unchecked ctx ps k : Forall ctx ps ->
  creates ctx (bind! out := vk_create D ps k in created_unchecked out) (one k ps).
Proof.
  intros Hps g Hg. unfold vbind.
  destruct (vk_create_cases ctx ps k g Hg Hps) as [->|(r & Hr & ->)]; unfold created_unchecked; cbn.
  - destruct (make_adds ctx g k ps Hg Hps) as (? & ? & ? & ?).
    eexists _, (Ok _). split_and!; [done..|]. eexists. by split_and!.
  - rewrite (proj2 (Z.eqb_neq r VK_SUCCESS) Hr). cbn. exists (called g), (Err (VulkanLoaderError.Api r)).
    split_and!; [done|apply Hg|repeat split; cbn; lia|done].
Qed.
End Specs.

#[export] Hint Resolve quiet_device_command quiet_device_commands quiet_command quiet_commands quiet_guard quiet_lift
  quiet_vk_call quiet_succeeded : vulkan.

(** Runs through the steps that change no object, up to the creation. *)
Ltac quiet_steps := repeat (eapply creates_bind; [solve [eauto with vulkan]|intros ? ?]).
Ltac wrapper := intros; quiet_steps; apply creates_object || apply creates_object_unchecked; repeat (constructor; try done).

Section WrapperSpecs.
Context (D : VkDriver) (ctx : Z -> Prop) (device : Z) (Hdevice : ctx device).

Lemma creates_shader_module words : creates ctx (create_shader_module D device words) (one (KShaderModule words) [device]).
Proof. unfold create_shader_module. wrapper. Qed.
Lemma creates_ui_set_layout : creates ctx (create_ui_descriptor_set_layout D device) (one (KDescriptorSetLayout ui_bindings) [device]).
Proof. unfold create_ui_descriptor_set_layout. wrapper. Qed.
Lemma creates_ui_pool : creates ctx (create_ui_descriptor_pool D device) (one (KDescriptorPool 1 ui_pool_sizes) [device]).
Proof. unfold create_ui_descriptor_pool. wrapper. Qed.
Lemma creates_voxel_pool :
  creates ctx (create_voxel_compute_descriptor_pool D device) (one (KDescriptorPool 1 voxel_pool_sizes) [device]).
Proof. unfold create_voxel_compute_descriptor_pool. wrapper. Qed.
Lemma creates_voxel_set_layout :
  creates ctx (create_voxel_compute_descriptor_set_layout D device) (one (KDescriptorSetLayout voxel_bindings) [device]).
Proof. unfold create_voxel_compute_descriptor_set_layout. wrapper. Qed.
Lemma creates_ui_pipeline_layout layout : ctx layout -> creates ctx (create_ui_pipeline_layout D device layout)
  (one (KPipelineLayout [mkPushRange 17 0 64]) [device; layout]).
Proof. unfold create_ui_pipeline_layout. wrapper. Qed.
Lemma creates_voxel_pipeline_layout layout : ctx layout ->
  creates ctx (create_voxel_compute_pipeline_layout D device layout) (one (KPipelineLayout []) [device; layout]).
Proof. unfold create_voxel_compute_pipeline_layout. wrapper. Qed.
Lemma creates_color_view image format : ctx (im_owner image) -> creates ctx (create_color_image_view D device image format)
  (one (KImageView format VK_IMAGE_ASPECT_COLOR_BIT) [device; im_owner image]).
Proof. unfold create_color_image_view. wrapper. Qed.
Lemma creates_depth_view image : ctx image -> creates ctx (create_depth_image_view D device image)
  (one (KImageView VK_FORMAT_D32_SFLOAT VK_IMAGE_ASPECT_DEPTH_BIT) [device; image]).
Proof. unfold create_depth_image_view. wrapper. Qed.
Lemma creates_render_pass color depth : creates ctx (create_ui_render_pass D device color depth) (one (KRenderPass color depth) [device]).
Proof. unfold create_ui_render_pass. wrapper. Qed.
Lemma creates_framebuffer rp view depth extent : ctx rp -> ctx view -> ctx depth ->
  creates ctx (create_framebuffer D device rp view depth extent) (one (KFramebuffer extent) [device; rp; view; depth]).
Proof. unfold create_framebuffer. wrapper. Qed.
Lemma creates_pipeline vs fs layout rp extent depth : ctx vs -> ctx fs -> ctx layout -> ctx rp ->
  creates ctx (create_ui_graphics_pipeline D device vs fs layout rp extent depth) (one (KPipeline extent depth) [device; vs; fs; layout; rp]).
Proof. unfold create_ui_graphics_pipeline. wrapper. Qed.
Lemma creates_semaphore : creates ctx (create_semaphore D device) (one KSemaphore [device]).
Proof. unfold create_semaphore. wrapper. Qed.
Lemma creates_fence signaled : creates ctx (create_fence D device signaled) (one (KFence signaled) [device]).
Proof. unfold create_fence. wrapper. Qed.
Lemma creates_command_pool family : creates ctx (create_command_pool D device family) (one (KCommandPool family) [device]).
Proof. unfold create_command_pool. wrapper. Qed.

Lemma quiet_set pool layout writes : quiet ctx (allocate_set D device pool layout writes)
  (fun s => s = mkSet pool layout writes).
Proof.
  unfold allocate_set. repeat (eapply quiet_bind; [solve [eauto with vulkan]|intros ? ?]).
  intros g Hg. eexists g, (Ok _). split_and!; done || apply same_refl.
Qed.
End WrapperSpecs.

(** ** Memory types *)
Definition eligible (types : list Z) (bits required index : Z) : bool :=
  negb (Z.land bits (Z.shiftl 1 index) =? 0) &&
  match types !z index with Some flags => Z.land flags required =? required | None => false end.
Definition type_score (types : list Z) (preferred index : Z) : Z :=
  match types !z index with Some flags => count_ones (Z.land flags preferred) | None => 0 end.

Definition best_upto (types : list Z) (bits required preferred n : Z) (best : option (Z * Z)) : Prop :=
  match best with
  | None => forall j, 0 <= j < n -> eligible types bits required j = false
  | Some (i, s) => 0 <= i < n /\ eligible types bits required i = true /\ s = type_score types preferred i /\
      forall j, 0 <= j < n -> eligible types bits required j = true ->
        type_score types preferred j <= s /\ (j < i -> type_score types preferred j < s)
  end.

Lemma memory_type_step_best types bits required preferred n best : 0 <= n -> best_upto types bits required preferred n best ->
  best_upto types bits required preferred (n + 1) (memory_type_step types bits required preferred best n).
Proof.
  intros Hn Hb. unfold memory_type_step. set (s := type_score types preferred n).
  assert (eligible types bits required n = false -> best_upto types bits required preferred (n + 1) best) as Hskip.
  { intros He. destruct best as [[i s']|]; cbn in *.
    - destruct Hb as (? & ? & ? & Hm). do 3 (split; [lia || done|]). intros j Hj Hje. destruct (decide (j = n)) as [->|]; [congruence|]. apply Hm; [lia|done].
    - intros j Hj. destruct (decide (j = n)) as [->|]; [done|]. apply Hb. lia. }
  destruct (Z.land bits (Z.shiftl 1 n) =? 0) eqn:Hbit; [apply Hskip; unfold eligible; by rewrite Hbit|].
  destruct (types !z n) as [flags|] eqn:Hf; [|apply Hskip; unfold eligible; by rewrite Hf, andb_false_r].
  destruct (Z.land flags required =? required) eqn:Hr; [|apply Hskip; unfold eligible; by rewrite Hf, Hr, andb_false_r].
  cbn [negb]. assert (eligible types bits required n = true) as Hel by (unfold eligible; by rewrite Hbit, Hf, Hr).
  assert (count_ones (Z.land flags preferred) = s) as -> by (subst s; unfold type_score; by rewrite Hf).
  clear Hskip Hbit Hf Hr. destruct best as [[i s']|]; cbn in Hb.
  - destruct Hb as (Hi & Hie & Hs & Hm). destruct (Z.ltb_spec s' s) as [Hlt|Hge]; cbn.
    + do 3 (split; [lia || done|]). intros j Hj Hje. destruct (decide (j = n)) as [->|]; [lia|].
      destruct (Hm j ltac:(lia) Hje) as [? _]. lia.
    + do 3 (split; [lia || done|]). intros j Hj Hje. destruct (decide (j = n)) as [->|]; [lia|]. apply Hm; [lia|done].
  - cbn. do 3 (split; [lia || done|]). intros j Hj Hje. destruct (decide (j = n)) as [->|]; [lia|].
    rewrite Hb in Hje by lia. done.
Qed.

(** The chosen type is compatible, has the required properties and, among
    those, the most preferred ones; the first such wins. *)
Lemma select_memory_type_best types bits required preferred :
  let n := Z.min (zlen types) 32 in
  match select_memory_type types bits required preferred with
  | Some i => exists s, best_upto types bits required preferred n (Some (i, s))
  | None => best_upto types bits required preferred n None
  end.
Proof.
  intros n. unfold select_memory_type. fold n.
  enough (best_upto types bits required preferred n (fold_left (memory_type_step types bits required preferred)
    (map Z.of_nat (seq 0 (Z.to_nat n))) None)) as Hb by (destruct (fold_left _ _ _) as [[i s]|]; cbn; eauto).
  assert (0 <= n) as Hn by (subst n; pose proof (zlen_nonneg types); lia).
  replace n with (Z.of_nat (Z.to_nat n)) at 1 by lia. induction (Z.to_nat n) as [|k IH]; [cbn; lia|].
  rewrite seq_S, map_app, fold_left_app. cbn [map fold_left Nat.add]. rewrite Nat2Z.inj_succ. apply memory_type_step_best; [lia|done].
Qed.

Lemma select_memory_type_lookup types bits required preferred i :
  select_memory_type types bits required preferred = Some i -> is_Some (types !z i).
Proof.
  intros Hs. pose proof (select_memory_type_best types bits required preferred) as Hb. rewrite Hs in Hb.
  destruct Hb as (s & _ & He & _). unfold eligible in He. destruct (types !z i); [eauto|].
  by rewrite andb_false_r in He.
Qed.

(** ** Objects with memory *)
Definition bound_objects (device h m : Z) (k : kind) (km : kind) : list entry :=
  [(h, Object k [device; m]); (m, Object km [device])].

Definition bound (device : Z) (k : kind) (h m n0 n1 : Z) (l : list entry) : Prop :=
  m = h + 1 /\ exists size ty, l = bound_objects device h m k (KMemory size ty).

Lemma bound_teardown device h m k km : 0 < h -> 0 < m -> h <> m -> device <> h -> teardown (bound_objects device h m k km).
Proof.
  intros. split; repeat constructor; cbn; try lia. intros [Hd|[]]%list_elem_of_In; lia.
Qed.

Lemma piece_bound device k h m n0 n1 l : bound device k h m n0 n1 l -> block n0 n1 l -> device < n0 ->
  piece_ok (Piece n0 n1 [device] [h; m] l).
Proof.
  intros (-> & size & ty & ->) (_ & ? & _ & Hb) Hd. unfold bound_objects in Hb.
  apply Forall_cons_1 in Hb as [[? _] Hb]. apply Forall_cons_1 in Hb as [[? _] _]. cbn in *.
  eexists. split; [reflexivity|]. split; [done|]. split; [apply bound_teardown; lia|].
  cbn. repeat constructor; cbn; try lia; try (left; by left); right; lia.
Qed.

Section Bound.
Context (D : VkDriver) (ctx : Z -> Prop) (device : Z) (Hdevice : ctx device).
Context (Hmemory : vd_instance D "vkGetPhysicalDeviceMemoryProperties" = true).

(** Releasing on an error path restores the objects of [g]. *)
Lemma releasing_restores {A} g g1 n1 l hs e : idle ctx g -> teardown l -> hs = l.*1 -> block (g_next g) n1 l ->
  same g g1 -> g_live g1 = list_to_map l ∪ g_live g ->
  exists g', releasing (A := A) hs e g1 = Some (g', Err e) /\ wf g' /\ same g g' /\ g_live g' = g_live g.
Proof.
  intros Hg Ht -> Hb Hs Hl. unfold releasing.
  rewrite (releases_new _ n1 l g g1 (releases_all l Ht) (id_wf _ _ Hg) Hb); [|by rewrite (proj1 (proj2 Hs)), (id_pending _ _ Hg)|done].
  cbn. eexists. split; [done|]. split_and!; [|done|done]. eapply (wf_eq g); [apply Hg|done|apply Hs].
Qed.

Lemma nothing_left {A} g g1 n1 l hs e Q : idle ctx g -> teardown l -> hs = l.*1 -> block (g_next g) n1 l ->
  same g g1 -> g_live g1 = list_to_map l ∪ g_live g -> all_or_nothing (A := A) g (releasing hs e g1) Q.
Proof.
  intros Hg Ht Hh Hb Hs Hl. destruct (releasing_restores (A := A) g g1 n1 l hs e) as (g' & -> & ? & ? & ?); [done..|].
  by exists g', (Err e).
Qed.

Lemma idle_make g k ps : idle ctx g -> Forall ctx ps -> idle (fun x => x ∈ [g_next g] \/ ctx x) (make (called g) (Object k ps)).
Proof.
  intros Hg Hps. destruct (make_adds ctx g k ps Hg Hps) as (? & ? & ? & ?).
  by apply (idle_add ctx g _ [(g_next g, Object k ps)]).
Qed.

Lemma idle_make_ctx g k ps : idle ctx g -> Forall ctx ps -> idle ctx (called (make (called g) (Object k ps))).
Proof. intros Hg Hps. apply idle_called. eapply idle_mono, idle_make; [by right|done..]. Qed.

(** From a state with the object just created. *)
Lemma allocate_bound_spec g g1 k size ty : idle ctx g -> g1 = called (make (called g) (Object k [device])) ->
  all_or_nothing g (allocate_bound D device (g_next g) size ty g1) (fun out n0 n1 l => bound device k out.1.1 out.1.2 n0 n1 l /\ out.2 = ty).
Proof.
  intros Hg ->. set (h := g_next g). pose proof (proj1 (id_wf _ _ Hg)) as H0. destruct (idle_lt _ _ _ Hg Hdevice) as [Hd0 Hdn].
  assert (Forall ctx [device]) as Hps by (repeat constructor; done).
  destruct (make_adds ctx g k [device] Hg Hps) as (Hwf1 & Hs1 & Hl1 & Hb1).
  pose proof (idle_make_ctx g k [device] Hg Hps) as Hg1. set (g1 := called (make (called g) (Object k [device]))) in *.
  unfold allocate_bound, vbind. set (km := KMemory size ty).
  destruct (vk_create_cases D ctx [device] km g1 Hg1 Hps) as [->|(r & Hr & ->)]; cbn [fst snd].
  2: { rewrite (proj2 (Z.eqb_neq r VK_SUCCESS) Hr). cbn [negb orb].
       eapply (nothing_left g (called g1) _ [(h, Object k [device])]);
         [exact Hg|apply teardown_one; lia|done|exact Hb1|exact Hs1|exact Hl1]. }
  destruct (make_adds ctx g1 km [device] Hg1 Hps) as (Hwf2 & Hs2 & Hl2 & Hb2). change (g_next g1) with (h + 1) in *.
  set (g2 := make (called g1) (Object km [device])) in *.
  rewrite (proj2 (Z.eqb_neq (h + 1) 0)) by lia. cbn [negb orb Z.eqb VK_SUCCESS]. unfold vk_bind_memory.
  assert (same g g2) as Hsg2 by (by eapply same_trans).
  assert (g_live g2 = <[h + 1 := Object km [device]]> (<[h := Object k [device]]> (g_live g))) as Hlive2 by reflexivity.
  assert (g_live g2 !! h = Some (Object k [device])) as -> by (rewrite Hlive2, lookup_insert_ne, lookup_insert_eq by lia; done).
  rewrite bool_decide_eq_true_2 by (rewrite Hlive2, lookup_insert_eq; eauto).
  destruct (Z.eqb_spec (vd_result D (g_calls g2)) VK_SUCCESS) as [->|Hr]; cbn [negb Z.eqb VK_SUCCESS].
  - assert (block h (h + 1 + 1) (bound_objects device h (h + 1) k km)) as Hb.
    { repeat split; [|lia|lia|repeat constructor; cbn; lia].
      cbn. constructor; [|apply NoDup_singleton]. intros [?|[]]%list_elem_of_In. lia. }
    assert (<[h := Object k ([device] ++ [h + 1])]> (g_live g2) = list_to_map (bound_objects device h (h + 1) k km) ∪ g_live g) as Hl.
    { rewrite Hlive2, insert_insert_ne by lia. cbn. rewrite <- !insert_union_l, map_empty_union. by rewrite insert_insert_eq, insert_insert_ne by lia. }
    eexists _, (Ok (h, h + 1, ty)). split; [done|]. split; [exact (wf_add g (with_live (called g2) _) _ (id_wf _ _ Hg) Hb Hl)|].
    split; [exact Hsg2|]. exists (bound_objects device h (h + 1) k km). split; [exact Hl|split; [exact Hb|split; [|done]]].
    split; [done|]. by exists size, ty.
  - eapply (nothing_left g (called g2) _ ([(h + 1, Object km [device])] ++ [(h, Object k [device])]));
      [exact Hg| |done|exact (block_app h (h + 1) (h + 1 + 1) _ _ Hb1 Hb2)|exact Hsg2|].
    + split; repeat constructor; cbn; try lia. intros [?|[]]%list_elem_of_In; lia.
    + change (g_live (called g2)) with (g_live g2). rewrite Hl2. change (g_live g1) with (g_live (make (called g) (Object k [device]))).
      by rewrite Hl1, map_union_assoc, <- list_to_map_app.
Qed.

Lemma creates_bound k required preferred : creates ctx (create_bound D device k required preferred)
  (fun out n0 n1 l => bound device k out.1.1 out.1.2 n0 n1 l /\ is_Some (vd_memory_types D !z out.2)).
Proof.
  intros g Hg. assert (Forall ctx [device]) as Hps by (repeat constructor; done). pose proof (proj1 (id_wf _ _ Hg)) as H0.
  unfold create_bound, vbind. destruct (vk_create_cases D ctx [device] k g Hg Hps) as [->|(r & Hr & ->)]; unfold created at 1; cbn [fst snd].
  2: { rewrite (proj2 (Z.eqb_neq r VK_SUCCESS) Hr). cbn. exists (called g), (Err (VulkanLoaderError.Api r)).
       split_and!; [done|apply Hg|repeat split; cbn; lia|done]. }
  rewrite (proj2 (Z.eqb_neq (g_next g) 0)) by lia. cbn [negb orb vret Z.eqb VK_SUCCESS].
  destruct (make_adds ctx g k [device] Hg Hps) as (_ & Hs1 & Hl1 & Hb1).
  rewrite (command_found D ctx) by (by apply idle_make_ctx). rewrite Hmemory. cbn [orb].
  destruct (select_memory_type _ _ _ _) as [ty|] eqn:Hsel.
  - destruct (allocate_bound_spec g _ k (vd_requirements D (g_calls (make (called g) (Object k [device])))).1 ty Hg eq_refl)
      as (g' & r & Hr & ? & ? & Hpost). exists g', r. split_and!; [done..|]. destruct r as [out|]; [|done].
    destruct Hpost as (l & ? & ? & ? & Hty). exists l. split_and!; [done..|]. rewrite Hty. by eapply select_memory_type_lookup.
  - eapply (nothing_left g (called (make (called g) (Object k [device]))) _ [(g_next g, Object k [device])]);
      [exact Hg|apply teardown_one; lia|done|exact Hb1|exact Hs1|exact Hl1].
Qed.

Definition buffer_objects (b : BufferObject) (size usage msize ty : Z) : list entry :=
  bound_objects device (bo_handle b) (bo_memory b) (KBuffer size usage) (KMemory msize ty).

Lemma creates_buffer physical size usage required preferred :
  creates ctx (create_buffer D device physical size usage required preferred)
    (fun b n0 n1 l => bound device (KBuffer size usage) (bo_handle b) (bo_memory b) n0 n1 l).
Proof.
  unfold create_buffer. do 2 (eapply creates_bind; [solve [eauto with vulkan]|intros ? ?]).
  intros g Hg. destruct (creates_bound (KBuffer size usage) required preferred g Hg) as (g' & r & Hr & ? & ? & Hpost).
  unfold vbind. rewrite Hr. destruct r as [[[h m] ty]|e]; [|by exists g', (Err e)].
  destruct Hpost as (l & ? & ? & Hbd & [flags Hf]). cbn in Hf. rewrite Hf. cbn.
  eexists g', (Ok _). split_and!; [done..|]. by exists l.
Qed.

Lemma creates_depth_image physical extent : creates ctx (create_depth_image D device physical extent)
  (fun d n0 n1 l => bound device (KImage extent) (di_handle d) (di_memory d) n0 n1 l).
Proof.
  unfold create_depth_image. do 2 (eapply creates_bind; [solve [eauto with vulkan]|intros ? ?]).
  intros g Hg. destruct (creates_bound (KImage extent) VK_MEMORY_PROPERTY_DEVICE_LOCAL_BIT 0 g Hg) as (g' & r & Hr & ? & ? & Hpost).
  unfold vbind. rewrite Hr. destruct r as [[[h m] ty]|e]; [|by exists g', (Err e)].
  destruct Hpost as (l & ? & ? & Hbd & _). eexists g', (Ok _). split_and!; [done..|]. by exists l.
Qed.
End Bound.
