(* ===== verification/PresentBuild.v ===== *)
(** Bringing the presentation engine up and down ([platform/linux/present.rs],
    [swapchain.rs], [surface.rs] and the loader half of [vulkan.rs]):
    [PresentEngine::build], its drop, and [recreate], over the objects of
    [VulkanObjects].

    Theorems: for a driver with the conditions of [vulkan_ok], whichever calls
    fail, [build] makes no forbidden call and either leaves nothing behind or
    returns an engine whose drop, unless work is pending and cannot be waited
    for, destroys exactly what was made, children first; the surface choices
    are within the capabilities; [recreate] cannot succeed: the replacement
    swapchain is destroyed at the end of [Swapchain::recreate], whose caller
    goes on using it. *)

From stdpp Require Import gmap strings list.
From S2P Require Import Prelude QueuePolicy Present VulkanObjects.

Local Open Scope string_scope.
Local Open Scope list_scope.
Local Open Scope Z_scope.
Local Open Scope kit_scope.
Local Open Scope vk_scope.

Definition VK_FORMAT_R8G8B8A8_UNORM : Z := 37.
Definition VK_FORMAT_B8G8R8A8_UNORM : Z := 44.
Definition VK_COLOR_SPACE_SRGB_NONLINEAR_KHR : Z := 0.
Definition VK_PRESENT_MODE_IMMEDIATE_KHR : Z := 0.
Definition VK_PRESENT_MODE_MAILBOX_KHR : Z := 1.
Definition VK_PRESENT_MODE_FIFO_KHR : Z := 2.
Definition VK_PRESENT_MODE_FIFO_RELAXED_KHR : Z := 3.
Definition VK_ERROR_DEVICE_LOST : Z := -4.
Definition OPAQUE_COMPOSITE_ALPHA : Z := 1.
Definition VK_BUFFER_USAGE_TRANSFER_SRC_BIT : Z := 1.
Definition VK_BUFFER_USAGE_TRANSFER_DST_BIT : Z := 2.
Definition VK_BUFFER_USAGE_STORAGE_BUFFER_BIT : Z := 32.
Definition VK_BUFFER_USAGE_VERTEX_BUFFER_BIT : Z := 128.

(** ** Choices *)
Definition select_format (formats : list SurfaceFormat) (preferred : list (Z * Z)) : SurfaceFormat :=
  match find (fun p => existsb (fun c => (sf_format c =? p.1) && (sf_color_space c =? p.2)) formats) preferred with
  | Some (format, color_space) => mkSurfaceFormat format color_space
  | None =>
      match formats with
      | f :: _ => f
      | [] => mkSurfaceFormat VK_FORMAT_B8G8R8A8_UNORM VK_COLOR_SPACE_SRGB_NONLINEAR_KHR
      end
  end.

Definition pick_present_mode (modes : list Z) : option Z :=
  match find (fun p => existsb (Z.eqb p) modes)
    [VK_PRESENT_MODE_MAILBOX_KHR; VK_PRESENT_MODE_IMMEDIATE_KHR; VK_PRESENT_MODE_FIFO_KHR; VK_PRESENT_MODE_FIFO_RELAXED_KHR] with
  | Some p => Some p
  | None => head modes
  end.

(** [u32::clamp] panics when the bounds are out of order. *)
Definition clamp_u32 (x lo hi : Z) : option Z := if hi <? lo then None else Some (Z.min (Z.max x lo) hi).

Definition pick_extent (caps : SurfaceCapabilities) (size : Extent2D) : option Extent2D :=
  if negb (e_width (current_extent caps) =? U32_MAX) && negb (e_height (current_extent caps) =? U32_MAX)
  then Some (current_extent caps)
  else
    w ← clamp_u32 (e_width size) (e_width (min_image_extent caps)) (e_width (max_image_extent caps));
    h ← clamp_u32 (e_height size) (e_height (min_image_extent caps)) (e_height (max_image_extent caps));
    Some {| e_width := w; e_height := h |}.

Definition default_image_count (caps : SurfaceCapabilities) : option Z :=
  if min_image_count caps =? 0 then Some 3
  else
    desired ← checked_add 32 (min_image_count caps) 1;
    if negb (max_image_count caps =? 0) then clamp_u32 desired (min_image_count caps) (max_image_count caps)
    else Some (Z.max desired (min_image_count caps)).

Fixpoint pos_trailing_zeros (p : positive) : Z :=
  match p with xO p => 1 + pos_trailing_zeros p | _ => 0 end.
Definition trailing_zeros (z : Z) : Z := match z with Zpos p => pos_trailing_zeros p | _ => 32 end.

Definition alpha_of (mask : Z) : Z :=
  if negb (Z.land mask OPAQUE_COMPOSITE_ALPHA =? 0) then OPAQUE_COMPOSITE_ALPHA
  else if mask =? 0 then OPAQUE_COMPOSITE_ALPHA
  else Z.shiftl 1 (trailing_zeros mask).

(** ** Physical devices *)
Record PhysicalDeviceInfo := mkDeviceInfo {
  pd_api_version : Z; pd_driver_version : Z; pd_vendor_id : Z; pd_device_id : Z; pd_device_type : Z;
  pd_name : list Z; pd_queue_families : list QueueFamilyInfo }.

Definition selection_score (d : PhysicalDeviceInfo) : Z :=
  match pd_device_type d with 2 => 4 | 1 => 3 | 3 => 2 | 4 => 1 | _ => 0 end.

(** [max_by_key]: the last of the greatest. *)
Definition select_preferred (devices : list PhysicalDeviceInfo) : option PhysicalDeviceInfo :=
  max_by_key (fun a b => selection_score a <? selection_score b) devices.

Definition word_at (bytes : list Z) (offset : Z) : Z :=
  let b i := default 0 (bytes !z (offset + i)) in b 0 + b 1 * 2 ^ 8 + b 2 * 2 ^ 16 + b 3 * 2 ^ 24.

(** The name up to its terminator. *)
Definition device_name (bytes : list Z) : list Z :=
  let name := take 256 (drop 20 bytes) in
  match vec_position (Z.eqb 0) name with Some e => take (Z.to_nat e) name | None => name end.

Definition family_info (index : nat) (raw : Z * Z) : QueueFamilyInfo :=
  mkQueueFamilyInfo (wrap 32 (Z.of_nat index))
    (Z.lor (Z.lor (Z.land raw.1 1) (if negb (Z.land raw.1 2 =? 0) then QUEUE_COMPUTE else 0))
       (if negb (Z.land raw.1 4 =? 0) then QUEUE_TRANSFER else 0))
    raw.2.

Record Swapchain := mkSwapchain { sc_device : Z; sc_handle : Z; sc_images : list VkImage }.

Section Calls.
Context (D : VkDriver).

(** A query of living objects: the number of the call and its result. *)
Definition vk_query (handles : list Z) : VM VulkanLoaderError (nat * Z) := fun g =>
  if bool_decide (Forall (fun p => is_Some (g_live g !! p)) handles)
  then Some (called g, Ok (g_calls g, vd_result D (g_calls g))) else None.

(** The second call of an enumeration: unless it fails, it fills at most [cap]
    of the [n] elements, and the counts decide between the two success codes. *)
Definition fill_result (r cap n : Z) : Z * Z :=
  if negb (r =? VK_SUCCESS) && negb (r =? VK_INCOMPLETE) then (r, 0) else if cap <? n then (VK_INCOMPLETE, cap) else (VK_SUCCESS, n).

(** [VulkanLoader::enumerate_handles]. *)
Definition enumerate_handles (instance : Z) : VM VulkanLoaderError (list VkPhysicalDevice) :=
  do! command D "vkEnumeratePhysicalDevices" in
  bind! q := vk_query [instance] in
  if negb (q.2 =? VK_SUCCESS) && negb (q.2 =? VK_INCOMPLETE) then vfail (VulkanLoaderError.Api q.2)
  else
    let count := vd_devices D q.1 in
    if count =? 0 then vfail VulkanLoaderError.NoPhysicalDevices
    else if negb (vd_alloc D q.1) then vfail VulkanLoaderError.AllocationFailed
    else
      bind! q := vk_query [instance] in
      let '(result, filled) := fill_result q.2 count (vd_devices D q.1) in
      if negb (result =? VK_SUCCESS) && negb (result =? VK_INCOMPLETE) then vfail (VulkanLoaderError.Api result)
      else
        vret (map (fun i => if Z.of_nat i <? filled then mkPhysical instance (Z.of_nat i) else null_physical)
                (seq 0 (Z.to_nat count))).

(** [enumerate_queue_families]: families that the second call does not fill
    stay zero. *)
Definition enumerate_queue_families (physical : VkPhysicalDevice) : VM VulkanLoaderError (list QueueFamilyInfo) :=
  bind! q := vk_query [ph_instance physical] in
  let count := length (vd_families D (ph_index physical) q.1) in
  if (count =? 0)%nat then vret []
  else
    bind! q := vk_query [ph_instance physical] in
    let families := vd_families D (ph_index physical) q.1 in
    vret (imap family_info (map (fun i => default (0, 0) (families !! i)) (seq 0 count))).

Definition describe_device (physical : VkPhysicalDevice) : VM VulkanLoaderError PhysicalDeviceInfo :=
  do! commands D ["vkGetPhysicalDeviceProperties"; "vkGetPhysicalDeviceQueueFamilyProperties"] in
  do! vk_query [ph_instance physical] in
  let raw := vd_properties D (ph_index physical) in
  bind! families := enumerate_queue_families physical in
  vret (mkDeviceInfo (word_at raw 0) (word_at raw 4) (word_at raw 8) (word_at raw 12) (word_at raw 16) (device_name raw) families).

Fixpoint describe_all (handles : list VkPhysicalDevice) : VM VulkanLoaderError (list (VkPhysicalDevice * PhysicalDeviceInfo)) :=
  match handles with
  | [] => vret []
  | h :: handles =>
      bind! info := describe_device h in
      bind! rest := describe_all handles in
      vret ((h, info) :: rest)
  end.

Definition devices_and_handles (instance : Z) : VM VulkanLoaderError (list (VkPhysicalDevice * PhysicalDeviceInfo)) :=
  bind! handles := enumerate_handles instance in
  do! (fun g => Some (called g, if vd_alloc D (g_calls g) then Ok tt else Err VulkanLoaderError.AllocationFailed)) in
  describe_all handles.

(** [VulkanLoader::load], its drop, [create_instance], [create_logical_device],
    [queue]. *)
Definition load : VM VulkanLoaderError Z :=
  do! vlift (vd_library D) in
  fun g => Some (with_active (make g (Object KLibrary [])) 0, Ok (g_next g)).

Definition create_instance (library : Z) (extensions : list string) : VM VulkanLoaderError Z :=
  do! command D "vkCreateInstance" in
  bind! out := vk_create D [library] (KInstance extensions) in
  bind! instance := created_unchecked out in
  do! (fun g => Some (with_active g instance, Ok tt)) in
  do! instance_command D instance "vkDestroyInstance" in
  vret instance.

(** Creates an instance, asks it, and drops it. *)
Definition discover_physical_devices (library : Z) : VM VulkanLoaderError (list PhysicalDeviceInfo) :=
  bind! instance := create_instance library [] in
  fun g =>
    '(g, report) ← devices_and_handles instance g;
    g ← vk_destroy instance g;
    Some (g, match report with Ok devices => Ok (map snd devices) | Err e => Err e end).

Definition create_logical_device (physical : VkPhysicalDevice) (requests : list QueueCreateRequest) : VM VulkanLoaderError Z :=
  do! guard_plan (physical_null physical) in
  let active := List.filter (fun r => negb (qr_queue_count r =? 0)) requests in
  do! guard_plan (match active with [] => true | _ => false end) in
  do! commands D ["vkCreateDevice"; "vkDestroyDevice"; "vkGetDeviceQueue"] in
  bind! out := vk_create D [ph_instance physical] (KDevice active) in
  created_unchecked out.

Definition device_queue (device family index : Z) : VM VulkanLoaderError (option VkQueue) :=
  bind! q := vk_query [device] in
  vret (if vd_queue D q.1 then Some (mkQueue device family index) else None).

(** Once the device is idle, or lost, none of its work is pending. *)
Definition wait_idle (device : Z) : VM VulkanLoaderError unit :=
  do! command D "vkDeviceWaitIdle" in
  bind! q := vk_query [device] in
  if q.2 =? VK_SUCCESS then fun g => Some (with_pending g false, Ok tt)
  else if q.2 =? VK_ERROR_DEVICE_LOST then fun g => Some (with_pending g false, Err (VulkanLoaderError.Api q.2))
  else vfail (VulkanLoaderError.Api q.2).

(** ** Surfaces *)
Definition resolve (instance : Z) (name : string) : VM VulkanLoaderError unit := fun g =>
  found ← instance_proc D instance name g;
  Some (g, if found : bool then Ok tt else Err VulkanLoaderError.MissingCommand).

Definition create_with_handles (instance display window : Z) : VM VulkanLoaderError Z :=
  do! guard_plan ((instance =? 0) || (display =? 0)) in
  do! resolve instance "vkCreateXlibSurfaceKHR" in
  do! resolve instance "vkDestroySurfaceKHR" in
  bind! out := vk_create D [instance] (KSurface window) in
  created_unchecked out.

Definition surface_supported (physical : VkPhysicalDevice) (surface queue_family : Z) : VM VulkanLoaderError bool :=
  do! command D "vkGetPhysicalDeviceSurfaceSupportKHR" in
  bind! q := vk_query [ph_instance physical; surface] in
  do! succeeded q.2 in
  vret (vd_supported D q.1).

Definition query_capabilities (physical : VkPhysicalDevice) (surface : Z) : VM VulkanLoaderError SurfaceCapabilities :=
  do! command D "vkGetPhysicalDeviceSurfaceCapabilitiesKHR" in
  bind! q := vk_query [ph_instance physical; surface] in
  do! succeeded q.2 in
  vret (vd_caps D q.1).

(** The two calls of an enumeration that must both succeed. *)
Definition enumerate {A} (name : string) (handles : list Z) (item : nat -> Z -> A) : VM VulkanLoaderError (list A) :=
  do! command D name in
  bind! q := vk_query handles in
  do! succeeded q.2 in
  let count := vd_count D q.1 in
  bind! q := vk_query handles in
  let '(result, filled) := fill_result q.2 count (vd_count D q.1) in
  do! succeeded result in
  vret (map (fun i => item q.1 (Z.of_nat i)) (seq 0 (Z.to_nat filled))).

Definition query_formats (physical : VkPhysicalDevice) (surface : Z) : VM VulkanLoaderError (list SurfaceFormat) :=
  enumerate "vkGetPhysicalDeviceSurfaceFormatsKHR" [ph_instance physical; surface] (vd_format D).
Definition query_present_modes (physical : VkPhysicalDevice) (surface : Z) : VM VulkanLoaderError (list Z) :=
  enumerate "vkGetPhysicalDeviceSurfacePresentModesKHR" [ph_instance physical; surface] (vd_mode D).

(** ** The swapchain *)
Definition swapchain_images (device handle : Z) : VM VulkanLoaderError (list VkImage) :=
  bind! q := vk_query [device; handle] in
  if negb (q.2 =? VK_SUCCESS) then releasing [handle] (VulkanLoaderError.Api q.2)
  else
    let count := vd_count D q.1 in
    bind! q := vk_query [device; handle] in
    let '(result, filled) := fill_result q.2 count (vd_count D q.1) in
    if negb (result =? VK_SUCCESS) then releasing [handle] (VulkanLoaderError.Api result)
    else vret (map (fun i => mkImage handle (Z.of_nat i)) (seq 0 (Z.to_nat filled))).

Definition swapchain_create (device surface : Z) (format : SurfaceFormat) (extent : Extent2D)
    (present_mode composite_alpha min_image_count old_swapchain : Z) : VM VulkanLoaderError Swapchain :=
  do! device_commands D device ["vkCreateSwapchainKHR"; "vkDestroySwapchainKHR"; "vkGetSwapchainImagesKHR"; "vkAcquireNextImageKHR"] in
  bind! out := vk_create D [device; surface]
    (KSwapchain format extent present_mode composite_alpha min_image_count old_swapchain) in
  bind! handle := created_unchecked out in
  bind! images := swapchain_images device handle in
  vret (mkSwapchain device handle images).

Definition swapchain_handles (s : Swapchain) : list Z := [sc_handle s].

(** [Swapchain::recreate]: [replacement] is a [Swapchain] of its own, dropped at
    the end of the function. *)
Definition swapchain_recreate (s : Swapchain) (surface : Z) (format : SurfaceFormat) (extent : Extent2D)
    (present_mode composite_alpha min_image_count : Z) : VM VulkanLoaderError Swapchain :=
  bind! replacement := swapchain_create (sc_device s) surface format extent present_mode composite_alpha min_image_count (sc_handle s) in
  let s := mkSwapchain (sc_device s) (sc_handle replacement) (sc_images replacement) in
  fun g => g ← destroy_all (swapchain_handles replacement) g; Some (g, Ok s).
End Calls.

(** ** The engine *)

(** [UiNativePipeline] and [WorldNativePipeline]. *)
Record NativePipeline := mkPipeline {
  np_pipeline : Z; np_pipeline_layout : Z; np_descriptor_set : VkDescriptorSet; np_descriptor_pool : Z;
  np_descriptor_layout : Z; np_fragment_shader : Z; np_vertex_shader : Z }.
Definition pipeline_handles (p : NativePipeline) : list Z :=
  [np_pipeline p; np_pipeline_layout p; np_descriptor_pool p; np_descriptor_layout p; np_fragment_shader p; np_vertex_shader p].

Record UiFrameTargets := mkTargets {
  uf_framebuffers : list Z; uf_depth_view : Z; uf_depth_image : DepthImage; uf_image_views : list Z; uf_render_pass : Z }.
Definition depth_handles (d : DepthImage) : list Z := [di_handle d; di_memory d].
Definition targets_handles (t : UiFrameTargets) : list Z :=
  uf_framebuffers t ++ [uf_depth_view t] ++ depth_handles (uf_depth_image t) ++ uf_image_views t ++ [uf_render_pass t].

Record FrameSlot := mkFrameSlot {
  fr_pool : Z; fr_command_buffers : list VkCommandBuffer; fr_buffer : VkCommandBuffer;
  fr_image_ready : Z; fr_render_done : Z; fr_fence : Z }.
Definition frame_handles (f : FrameSlot) : list Z := [fr_pool f; fr_image_ready f; fr_render_done f; fr_fence f].

Definition buffer_handles (b : BufferObject) : list Z := [bo_handle b; bo_memory b].

(** The fields that own or name Vulkan objects, in the order of their
    declaration, which is the order of their drop. *)
Record Engine := mkEngine {
  en_ui_pipeline : option NativePipeline;
  en_world_pipeline : option NativePipeline;
  en_ui_targets : option UiFrameTargets;
  en_swapchain : Swapchain;
  en_surface : Z;
  en_queue : VkQueue;
  en_family : Z;
  en_graphics_queues : Z;
  en_frames : list FrameSlot;
  en_extent : Extent2D;
  en_format : SurfaceFormat;
  en_present_mode : Z;
  en_ui_staging : BufferObject;
  en_ui_device : BufferObject;
  en_world_staging : BufferObject;
  en_world_device : BufferObject;
  en_physical : VkPhysicalDevice;
  en_device : Z;
  en_instance : Z;
  en_loader : Z
}.

Definition opt_handles {A} (h : A -> list Z) (o : option A) : list Z := match o with Some a => h a | None => [] end.

Definition engine_children (e : Engine) : list Z :=
  opt_handles pipeline_handles (en_ui_pipeline e) ++ opt_handles pipeline_handles (en_world_pipeline e) ++
  opt_handles targets_handles (en_ui_targets e) ++ swapchain_handles (en_swapchain e) ++ [en_surface e] ++
  concat (map frame_handles (en_frames e)) ++ buffer_handles (en_ui_staging e) ++ buffer_handles (en_ui_device e) ++
  buffer_handles (en_world_staging e) ++ buffer_handles (en_world_device e) ++ [en_device e].
Definition engine_handles (e : Engine) : list Z := engine_children e ++ [en_instance e] ++ [en_loader e].

Section EngineCalls.
Context (D : VkDriver).

(** The SPIR-V words the build script generates. *)
Context (UI_VERTEX_SPIRV UI_FRAGMENT_SPIRV WORLD_VERTEX_SPIRV WORLD_FRAGMENT_SPIRV : list Z).

Local Abbreviation vulkan := (vmap_err PresentError.Vulkan).

Definition one_handle (h : Z) : list Z := [h].

Definition pipeline_build (vertex_words fragment_words : list Z) (capacity : Z) (depth_enabled : bool)
    (device : Z) (targets : UiFrameTargets) (buffer : Z) (extent : Extent2D) : VM PresentError (option NativePipeline) :=
  match vertex_words, fragment_words with
  | [], _ | _, [] => vret None
  | _, _ =>
      own! vertex_shader := vulkan (create_shader_module D device vertex_words) released (fun h => destroy_all (one_handle h)) in
      own! fragment_shader := vulkan (create_shader_module D device fragment_words) released (fun h => destroy_all (one_handle h)) in
      own! descriptor_layout := vulkan (create_ui_descriptor_set_layout D device) released (fun h => destroy_all (one_handle h)) in
      own! descriptor_pool := vulkan (create_ui_descriptor_pool D device) released (fun h => destroy_all (one_handle h)) in
      bind! descriptor_set := vulkan (allocate_ui_set D device descriptor_pool descriptor_layout buffer capacity) in
      own! pipeline_layout := vulkan (create_ui_pipeline_layout D device descriptor_layout) released (fun h => destroy_all (one_handle h)) in
      own! pipeline := vulkan (create_ui_graphics_pipeline D device vertex_shader fragment_shader pipeline_layout
                                 (uf_render_pass targets) extent depth_enabled) released (fun h => destroy_all (one_handle h)) in
      vret (Some (mkPipeline pipeline pipeline_layout descriptor_set descriptor_pool descriptor_layout fragment_shader vertex_shader))
  end.

Definition UiNativePipeline_build := pipeline_build UI_VERTEX_SPIRV UI_FRAGMENT_SPIRV UI_UPLOAD_CAPACITY false.
Definition WorldNativePipeline_build := pipeline_build WORLD_VERTEX_SPIRV WORLD_FRAGMENT_SPIRV WORLD_UPLOAD_CAPACITY true.

Definition reserve : VM PresentError unit := fun g =>
  Some (called g, if vd_alloc D (g_calls g) then Ok tt else Err PresentError.AllocationFailed).

Definition UiFrameTargets_build (device : Z) (physical : VkPhysicalDevice) (swapchain : Swapchain) (format : SurfaceFormat)
    (extent : Extent2D) : VM PresentError UiFrameTargets :=
  own! render_pass := vulkan (create_ui_render_pass D device (sf_format format) VK_FORMAT_D32_SFLOAT)
    released (fun h => destroy_all (one_handle h)) in
  own! depth_image := vulkan (create_depth_image D device physical extent) released (fun d => destroy_all (depth_handles d)) in
  own! depth_view := vulkan (create_depth_image_view D device (di_handle depth_image)) released (fun h => destroy_all (one_handle h)) in
  do! reserve in
  own! image_views := create_each (fun image => vulkan (create_color_image_view D device image (sf_format format)))
    one_handle [] (sc_images swapchain) released (fun vs => destroy_all (concat (map one_handle vs))) in
  do! reserve in
  own! framebuffers := create_each (fun view => vulkan (create_framebuffer D device render_pass view depth_view extent))
    one_handle [] image_views released (fun fs => destroy_all (concat (map one_handle fs))) in
  vret (mkTargets framebuffers depth_view depth_image image_views render_pass).

Definition frame_build (device family : Z) : VM PresentError FrameSlot :=
  own! pool := vulkan (create_command_pool D device family) released (fun h => destroy_all (one_handle h)) in
  bind! command_buffers := vulkan (allocate_command_buffers D pool 1) in
  own! image_ready := vulkan (create_semaphore D device) released (fun h => destroy_all (one_handle h)) in
  own! render_done := vulkan (create_semaphore D device) released (fun h => destroy_all (one_handle h)) in
  own! fence := vulkan (create_fence D device true) released (fun h => destroy_all (one_handle h)) in
  fun g => buffer ← command_buffers !! 0%nat;
    Some (g, Ok (mkFrameSlot pool command_buffers buffer image_ready render_done fence)).

Definition build_frame_states (device family frames : Z) : VM PresentError (list FrameSlot) :=
  do! reserve in
  create_each (fun _ : nat => frame_build device family) frame_handles [] (seq 0 (Z.to_nat frames)).

(** The first family of a device that draws and presents; [Ok None] without. *)
Fixpoint present_family (physical : VkPhysicalDevice) (surface : Z) (families : list QueueFamilyInfo) : VM PresentError (option Z) :=
  match families with
  | [] => vret None
  | f :: families =>
      if (Z.land (qf_flags f) QUEUE_GRAPHICS =? 0) || (qf_queue_count f =? 0) then present_family physical surface families
      else
        bind! supported := vulkan (surface_supported D physical surface (qf_index f)) in
        if (supported : bool) then vret (Some (qf_index f)) else present_family physical surface families
  end.

Fixpoint pick_loop (surface : Z) (devices : list (VkPhysicalDevice * PhysicalDeviceInfo))
    (best : option (VkPhysicalDevice * PhysicalDeviceInfo * Z)) : VM PresentError (option (VkPhysicalDevice * PhysicalDeviceInfo * Z)) :=
  match devices with
  | [] => vret best
  | (handle, info) :: devices =>
      bind! family := present_family handle surface (pd_queue_families info) in
      pick_loop surface devices
        match family with
        | Some family =>
            let better := match best with None => true | Some (_, current, _) => selection_score current <? selection_score info end in
            if better then Some (handle, info, family) else best
        | None => best
        end
  end.

Definition pick_present_device (devices : list (VkPhysicalDevice * PhysicalDeviceInfo)) (surface : Z)
  : VM PresentError (VkPhysicalDevice * PhysicalDeviceInfo * Z) :=
  bind! best := pick_loop surface devices None in
  vlift (ok_or PresentError.NoSuitableDevice best).

Definition pick_composite_alpha (physical : VkPhysicalDevice) (surface : Z) : VM PresentError Z :=
  bind! caps := vulkan (query_capabilities D physical surface) in
  vret (alpha_of (supported_composite_alpha caps)).

Definition configure_surface (physical : VkPhysicalDevice) (surface : Z) (size : Extent2D)
  : VM PresentError (SurfaceFormat * Z * Extent2D * Z) :=
  bind! caps := vulkan (query_capabilities D physical surface) in
  bind! formats := vulkan (query_formats D physical surface) in
  let format := select_format formats
    [(VK_FORMAT_B8G8R8A8_UNORM, VK_COLOR_SPACE_SRGB_NONLINEAR_KHR); (VK_FORMAT_R8G8B8A8_UNORM, VK_COLOR_SPACE_SRGB_NONLINEAR_KHR)] in
  bind! modes := vulkan (query_present_modes D physical surface) in
  bind! present_mode := vlift (ok_or PresentError.FormatUnavailable (pick_present_mode modes)) in
  fun g => extent ← pick_extent caps size; count ← default_image_count caps;
    Some (g, Ok (format, present_mode, extent, Z.max count 2)).

Definition upload_buffer (device : Z) (physical : VkPhysicalDevice) (capacity usage required preferred : Z)
  : VM PresentError BufferObject := vulkan (create_buffer D device physical capacity usage required preferred).

(** [PresentEngine::build] from the instance on. *)
Definition engine_bring_up (loader instance display window : Z) (size : Extent2D) : VM PresentError Engine :=
  own! surface := vulkan (create_with_handles D instance display window) released (fun h => destroy_all (one_handle h)) in
  bind! devices := vulkan (devices_and_handles D instance) in
  bind! picked := pick_present_device devices surface in
  let '(physical, info, family) := picked in
  let requests := [mkQueueCreateRequest family 1; mkQueueCreateRequest 0 0; mkQueueCreateRequest 0 0] in
  own! device := vulkan (create_logical_device D physical requests) released (fun h => destroy_all (one_handle h)) in
  bind! found := vulkan (device_queue D device family 0) in
  bind! queue := vlift (ok_or PresentError.NoSuitableDevice found) in
  let graphics_queues := match find (fun f => qf_index f =? family) (pd_queue_families info) with
                         | Some f => qf_queue_count f | None => 1 end in
  bind! composite_alpha := pick_composite_alpha physical surface in
  bind! configured := configure_surface physical surface size in
  let '(format, present_mode, extent, image_count) := configured in
  own! swapchain := vulkan (swapchain_create D device surface format extent present_mode composite_alpha image_count 0)
    released (fun s => destroy_all (swapchain_handles s)) in
  own! ui_targets := UiFrameTargets_build device physical swapchain format extent released (fun t => destroy_all (targets_handles t)) in
  own! ui_staging := upload_buffer device physical UI_UPLOAD_CAPACITY VK_BUFFER_USAGE_TRANSFER_SRC_BIT
    VK_MEMORY_PROPERTY_HOST_VISIBLE_BIT VK_MEMORY_PROPERTY_HOST_COHERENT_BIT released (fun b => destroy_all (buffer_handles b)) in
  own! ui_device := upload_buffer device physical UI_UPLOAD_CAPACITY
    (Z.lor (Z.lor VK_BUFFER_USAGE_TRANSFER_DST_BIT VK_BUFFER_USAGE_VERTEX_BUFFER_BIT) VK_BUFFER_USAGE_STORAGE_BUFFER_BIT)
    0 VK_MEMORY_PROPERTY_DEVICE_LOCAL_BIT released (fun b => destroy_all (buffer_handles b)) in
  own! world_staging := upload_buffer device physical WORLD_UPLOAD_CAPACITY VK_BUFFER_USAGE_TRANSFER_SRC_BIT
    VK_MEMORY_PROPERTY_HOST_VISIBLE_BIT VK_MEMORY_PROPERTY_HOST_COHERENT_BIT released (fun b => destroy_all (buffer_handles b)) in
  own! world_device := upload_buffer device physical WORLD_UPLOAD_CAPACITY
    (Z.lor VK_BUFFER_USAGE_TRANSFER_DST_BIT VK_BUFFER_USAGE_STORAGE_BUFFER_BIT)
    0 VK_MEMORY_PROPERTY_DEVICE_LOCAL_BIT released (fun b => destroy_all (buffer_handles b)) in
  own! ui_pipeline := UiNativePipeline_build device ui_targets (bo_handle ui_device) extent
    released (fun p => destroy_all (opt_handles pipeline_handles p)) in
  own! world_pipeline := WorldNativePipeline_build device ui_targets (bo_handle world_device) extent
    released (fun p => destroy_all (opt_handles pipeline_handles p)) in
  own! frames := build_frame_states device family (wrap 32 (zlen (sc_images swapchain)))
    released (fun fs => destroy_all (concat (map frame_handles fs))) in
  vret {| en_ui_pipeline := ui_pipeline; en_world_pipeline := world_pipeline; en_ui_targets := Some ui_targets;
          en_swapchain := swapchain; en_surface := surface; en_queue := queue; en_family := family;
          en_graphics_queues := graphics_queues; en_frames := frames; en_extent := extent; en_format := format;
          en_present_mode := present_mode; en_ui_staging := ui_staging; en_ui_device := ui_device;
          en_world_staging := world_staging; en_world_device := world_device; en_physical := physical;
          en_device := device; en_instance := instance; en_loader := loader |}.

(** [PresentEngine::build]; [display] and [window] are the window's handles. *)
Definition engine_build (display window : Z) (size : Extent2D) : VM PresentError Engine :=
  if (display =? 0) || (window =? 0) then vfail PresentError.NullWindowHandle else
  own! loader := vulkan (load D) released (fun h => destroy_all (one_handle h)) in
  own! instance := vulkan (create_instance D loader ["VK_KHR_surface"; "VK_KHR_xlib_surface"]) released (fun h => destroy_all (one_handle h)) in
  engine_bring_up loader instance display window size.

(** [Drop for PresentEngine], then the drops of the fields. *)
Definition engine_drop (e : Engine) (g : gpu) : option gpu :=
  '(g, _) ← wait_idle D (en_device e) g;
  destroy_all (engine_handles e) g.

(** [PresentEngine::recreate]: the engine is changed as it goes, also when it
    fails. *)
Definition ER (A : Type) : Type := Engine -> gpu -> option (gpu * (Engine * result PresentError A)).
Definition er_bind {A B} (m : ER A) (k : A -> ER B) : ER B := fun e g =>
  match m e g with
  | None => None
  | Some (g, (e, Err err)) => Some (g, (e, Err err))
  | Some (g, (e, Ok a)) => k a e g
  end.
Definition er_call {A} (m : Engine -> VM PresentError A) : ER A := fun e g => '(g, r) ← m e g; Some (g, (e, r)).
Definition er_set (f : Engine -> Engine) : ER unit := fun e g => Some (g, (f e, Ok tt)).
Definition er_drop (h : Engine -> list Z) (f : Engine -> Engine) : ER unit := fun e g =>
  g ← destroy_all (h e) g; Some (g, (f e, Ok tt)).

Definition with_surface_config (format : SurfaceFormat) (mode : Z) (extent : Extent2D) (e : Engine) : Engine :=
  mkEngine (en_ui_pipeline e) (en_world_pipeline e) (en_ui_targets e) (en_swapchain e) (en_surface e) (en_queue e) (en_family e)
    (en_graphics_queues e) (en_frames e) extent format mode (en_ui_staging e) (en_ui_device e) (en_world_staging e)
    (en_world_device e) (en_physical e) (en_device e) (en_instance e) (en_loader e).
Definition with_targets (ui world : option NativePipeline) (targets : option UiFrameTargets) (s : Swapchain) (e : Engine) : Engine :=
  mkEngine ui world targets s (en_surface e) (en_queue e) (en_family e)
    (en_graphics_queues e) (en_frames e) (en_extent e) (en_format e) (en_present_mode e) (en_ui_staging e) (en_ui_device e)
    (en_world_staging e) (en_world_device e) (en_physical e) (en_device e) (en_instance e) (en_loader e).

Definition targets_of (e : Engine) : UiFrameTargets :=
  match en_ui_targets e with Some t => t | None => mkTargets [] 0 (mkDepthImage 0 0) [] 0 end.

Definition engine_recreate (size : Extent2D) : ER unit :=
  er_bind (er_call (fun e => vulkan (wait_idle D (en_device e)))) (fun _ =>
  er_bind (er_call (fun e => configure_surface (en_physical e) (en_surface e) size)) (fun configured =>
  let '(format, present_mode, extent, image_count) := configured in
  er_bind (er_set (with_surface_config format present_mode extent)) (fun _ =>
  er_bind (er_drop (fun e => opt_handles pipeline_handles (en_ui_pipeline e))
             (fun e => with_targets None (en_world_pipeline e) (en_ui_targets e) (en_swapchain e) e)) (fun _ =>
  er_bind (er_drop (fun e => opt_handles pipeline_handles (en_world_pipeline e))
             (fun e => with_targets None None (en_ui_targets e) (en_swapchain e) e)) (fun _ =>
  er_bind (er_drop (fun e => opt_handles targets_handles (en_ui_targets e))
             (fun e => with_targets None None None (en_swapchain e) e)) (fun _ =>
  er_bind (er_call (fun e => pick_composite_alpha (en_physical e) (en_surface e))) (fun alpha =>
  er_bind (er_call (fun e => vulkan (swapchain_recreate D (en_swapchain e) (en_surface e) format extent present_mode alpha image_count))) (fun s =>
  er_bind (er_set (with_targets None None None s)) (fun _ =>
  er_bind (er_call (fun e => UiFrameTargets_build (en_device e) (en_physical e) (en_swapchain e) format extent)) (fun t =>
  er_bind (er_set (fun e => with_targets None None (Some t) (en_swapchain e) e)) (fun _ =>
  er_bind (er_call (fun e => UiNativePipeline_build (en_device e) (targets_of e) (bo_handle (en_ui_device e)) extent)) (fun ui =>
  er_bind (er_set (fun e => with_targets ui None (en_ui_targets e) (en_swapchain e) e)) (fun _ =>
  er_bind (er_call (fun e => WorldNativePipeline_build (en_device e) (targets_of e) (bo_handle (en_world_device e)) extent)) (fun world =>
  er_set (fun e => with_targets (en_ui_pipeline e) world (en_ui_targets e) (en_swapchain e) e))))))))))))))).
End EngineCalls.

(** ** Calls that change no object *)
Section QuietSpecs.
Context (D : VkDriver) (ctx : Z -> Prop).

Lemma quiet_ret {E A} (a : A) (R : A -> Prop) : R a -> quiet (E := E) ctx (vret a) R.
Proof. intros Ha g Hg. exists g, (Ok a). split_and!; done || apply same_refl. Qed.

Lemma quiet_fail {E A} (e : E) (R : A -> Prop) : quiet ctx (vfail e) R.
Proof. intros g Hg. exists g, (Err e). split_and!; done || apply same_refl. Qed.

Lemma quiet_weaken {E A} (m : VM E A) (R R' : A -> Prop) : quiet ctx m R -> (forall a, R a -> R' a) -> quiet ctx m R'.
Proof.
  intros Hm HR g Hg. destruct (Hm g Hg) as (g' & r & ? & ? & ? & ? & Hr). exists g', r. split_and!; try done.
  destruct r; auto.
Qed.

Lemma vk_query_run hs g : idle ctx g -> Forall ctx hs -> vk_query D hs g = Some (called g, Ok (g_calls g, vd_result D (g_calls g))).
Proof.
  intros Hg Hh. unfold vk_query. rewrite bool_decide_eq_true_2; [done|]. eapply list.Forall_impl; [exact Hh|]. apply Hg.
Qed.

Lemma quiet_query hs : Forall ctx hs -> quiet ctx (vk_query D hs) (fun _ => True).
Proof. intros Hh g Hg. rewrite vk_query_run by done. eexists _, (Ok _). by split_and!. Qed.

Lemma quiet_enumerate {A} name hs (item : nat -> Z -> A) : Forall ctx hs -> quiet ctx (enumerate D name hs item) (fun _ => True).
Proof.
  intros Hh. unfold enumerate. eapply quiet_bind; [apply quiet_command|]. intros _ _.
  eapply quiet_bind; [by apply quiet_query|]. intros q _. eapply quiet_bind; [apply quiet_succeeded|]. intros _ _.
  eapply quiet_bind; [by apply quiet_query|]. intros q' _. destruct (fill_result _ _ _) as [r n].
  eapply quiet_bind; [apply quiet_succeeded|]. intros _ _. by apply quiet_ret.
Qed.

Context (instance : Z) (Hinstance : ctx instance).

Lemma quiet_families physical : ph_instance physical = instance -> quiet ctx (enumerate_queue_families D physical) (fun _ => True).
Proof.
  intros Hp. assert (Forall ctx [ph_instance physical]) as Hq by (repeat constructor; congruence).
  unfold enumerate_queue_families. eapply quiet_bind; [by apply quiet_query|]. intros q _.
  destruct (_ =? 0)%nat; [by apply quiet_ret|]. eapply quiet_bind; [by apply quiet_query|]. intros q' _. by apply quiet_ret.
Qed.

Lemma quiet_describe physical : ph_instance physical = instance -> quiet ctx (describe_device D physical) (fun _ => True).
Proof.
  intros Hp. assert (Forall ctx [ph_instance physical]) as Hq by (repeat constructor; congruence).
  unfold describe_device. eapply quiet_bind; [apply quiet_commands|]. intros _ _.
  eapply quiet_bind; [by apply quiet_query|]. intros _ _. eapply quiet_bind; [by apply quiet_families|]. intros f _. by apply quiet_ret.
Qed.

Lemma quiet_describe_all handles : Forall (fun p => ph_instance p = instance) handles ->
  quiet ctx (describe_all D handles) (Forall (fun d => ph_instance d.1 = instance)).
Proof.
  induction handles as [|h handles IH]; intros Hh; cbn; [by apply quiet_ret|]. apply Forall_cons_1 in Hh as [Hh Hhs].
  eapply quiet_bind; [by apply quiet_describe|]. intros info _. eapply quiet_bind; [by apply IH|]. intros rest Hr.
  apply quiet_ret. by constructor.
Qed.

(** The number of devices does not shrink between the calls. *)
Context (Hdevices : forall k, vd_devices D k <= vd_devices D (S k)).

Lemma quiet_enumerate_handles : quiet ctx (enumerate_handles D instance) (Forall (fun p => ph_instance p = instance)).
Proof.
  assert (Forall ctx [instance]) as Hq by (by repeat constructor).
  unfold enumerate_handles. eapply quiet_bind; [apply quiet_command|]. intros _ _ g Hg.
  unfold vbind. rewrite vk_query_run by done. cbn [fst snd].
  destruct (negb _ && _); [eexists _, (Err _); by split_and!|].
  destruct (_ =? 0); [eexists _, (Err _); by split_and!|]. destruct (negb _); [eexists _, (Err _); by split_and!|].
  rewrite vk_query_run by (done || by apply idle_called). cbn [fst snd called g_calls]. unfold fill_result.
  destruct (negb (vd_result D (S (g_calls g)) =? VK_SUCCESS) && negb (vd_result D (S (g_calls g)) =? VK_INCOMPLETE)) eqn:Hr.
  - rewrite Hr. eexists _, (Err _). by split_and!.
  - pose proof (Hdevices (g_calls g)) as Hle. set (n := vd_devices D (g_calls g)) in *.
    assert (forall f, n <= f -> Forall (fun p => ph_instance p = instance)
      (map (fun i => if Z.of_nat i <? f then mkPhysical instance (Z.of_nat i) else null_physical) (seq 0 (Z.to_nat n)))) as Hall.
    { intros f Hf. apply Forall_forall. intros p (i & <- & Hi%in_seq)%in_map_iff. destruct (Z.ltb_spec (Z.of_nat i) f); [done|lia]. }
    destruct (Z.ltb_spec n (vd_devices D (S (g_calls g)))); cbn; eexists _, (Ok _); split_and!; try done; apply Hall; lia.
Qed.

Lemma quiet_devices : quiet ctx (devices_and_handles D instance) (Forall (fun d => ph_instance d.1 = instance)).
Proof.
  unfold devices_and_handles. eapply quiet_bind; [apply quiet_enumerate_handles|]. intros handles Hh.
  eapply (quiet_bind _ _ _ (fun _ => True)); [|by intros; apply quiet_describe_all].
  intros g Hg. exists (called g). destruct (vd_alloc D (g_calls g)); eexists; by split_and!.
Qed.

Context (surface : Z) (Hsurface : ctx surface).

Lemma quiet_supported physical family : ph_instance physical = instance ->
  quiet ctx (surface_supported D physical surface family) (fun _ => True).
Proof.
  intros Hp. unfold surface_supported. eapply quiet_bind; [apply quiet_command|]. intros _ _.
  eapply quiet_bind; [apply quiet_query; rewrite Hp; by repeat constructor|]. intros q _.
  eapply quiet_bind; [apply quiet_succeeded|]. intros _ _. by apply quiet_ret.
Qed.

Lemma quiet_capabilities physical : ph_instance physical = instance ->
  quiet ctx (query_capabilities D physical surface) (fun c => exists k, c = vd_caps D k).
Proof.
  intros Hp. unfold query_capabilities. eapply quiet_bind; [apply quiet_command|]. intros _ _.
  eapply quiet_bind; [apply quiet_query; rewrite Hp; by repeat constructor|]. intros q _.
  eapply quiet_bind; [apply quiet_succeeded|]. intros _ _. apply quiet_ret. eauto.
Qed.

Lemma quiet_present_family physical families : ph_instance physical = instance ->
  quiet ctx (present_family D physical surface families) (fun _ => True).
Proof.
  intros Hp. induction families as [|f fs IH]; cbn; [by apply quiet_ret|]. destruct (_ || _); [done|].
  eapply quiet_bind; [by apply quiet_map_err, quiet_supported|]. intros [|] _; [by apply quiet_ret|done].
Qed.

Definition best_of (best : option (VkPhysicalDevice * PhysicalDeviceInfo * Z)) : Prop :=
  match best with Some (p, _, _) => ph_instance p = instance | None => True end.

Lemma quiet_pick_loop devices : Forall (fun d => ph_instance d.1 = instance) devices -> forall best, best_of best ->
  quiet ctx (pick_loop D surface devices best) best_of.
Proof.
  induction devices as [|[h info] ds IH]; intros Hd best Hb; cbn; [by apply quiet_ret|]. apply Forall_cons_1 in Hd as [Hh Hd].
  eapply quiet_bind; [by apply quiet_present_family|]. intros family _. apply IH; [done|].
  destruct family as [f|]; [|done]. destruct best as [[[p i] f']|]; [|done]. by destruct (_ <? _).
Qed.

Lemma quiet_pick devices : Forall (fun d => ph_instance d.1 = instance) devices ->
  quiet ctx (pick_present_device D devices surface) (fun p => ph_instance p.1.1 = instance).
Proof.
  intros Hd. unfold pick_present_device. eapply quiet_bind; [by apply quiet_pick_loop|]. intros best Hb g Hg.
  destruct best as [[[p i] f]|]; [eexists g, (Ok _)|eexists g, (Err _)]; split_and!; done || apply same_refl.
Qed.

(** What Vulkan guarantees of surface capabilities. *)
Definition caps_ok (c : SurfaceCapabilities) : Prop :=
  e_width (min_image_extent c) <= e_width (max_image_extent c) /\ e_height (min_image_extent c) <= e_height (max_image_extent c) /\
  0 <= min_image_count c < U32_MAX /\ (max_image_count c = 0 \/ min_image_count c <= max_image_count c).

Context (Hcaps : forall k, caps_ok (vd_caps D k)).

Lemma clamp_ok x lo hi : lo <= hi -> exists y, clamp_u32 x lo hi = Some y /\ lo <= y <= hi /\ (lo <= x <= hi -> y = x).
Proof. intros Hle. unfold clamp_u32. destruct (Z.ltb_spec hi lo); [lia|]. eexists. split; [done|]. lia. Qed.

(** The extent is the surface's own, or the requested one brought within its
    bounds; the image count is within the bounds of the surface. *)
Lemma pick_extent_ok c size : caps_ok c -> exists x, pick_extent c size = Some x /\
  (x = current_extent c \/
   (e_width (min_image_extent c) <= e_width x <= e_width (max_image_extent c) /\
    e_height (min_image_extent c) <= e_height x <= e_height (max_image_extent c))).
Proof.
  intros (Hw & Hh & _). unfold pick_extent. destruct (_ && _); [eauto|].
  destruct (clamp_ok (e_width size) _ _ Hw) as (w & -> & ? & _). destruct (clamp_ok (e_height size) _ _ Hh) as (h & -> & ? & _).
  cbn. eexists. split; [done|]. by right.
Qed.

Lemma default_image_count_ok c : caps_ok c -> exists n, default_image_count c = Some n /\
  (min_image_count c <> 0 -> min_image_count c <= n /\ (max_image_count c <> 0 -> n <= max_image_count c)).
Proof.
  intros (_ & _ & Hn & Hm). unfold default_image_count. destruct (Z.eqb_spec (min_image_count c) 0); [by exists 3|].
  rewrite checked_add_ok by (unfold umax, U32_MAX in *; lia). cbn [mbind option_bind].
  destruct (Z.eqb_spec (max_image_count c) 0) as [Hz|Hz]; cbn [negb].
  - eexists. split; [done|]. lia.
  - destruct Hm as [?|Hm]; [lia|]. destruct (clamp_ok (min_image_count c + 1) _ _ Hm) as (y & -> & ? & _). eexists. split; [done|]. lia.
Qed.

Lemma quiet_configure physical size : ph_instance physical = instance -> quiet ctx (configure_surface D physical surface size) (fun _ => True).
Proof.
  intros Hp. assert (Forall ctx [ph_instance physical; surface]) as Hq by (rewrite Hp; by repeat constructor).
  unfold configure_surface. eapply quiet_bind; [by apply quiet_map_err, quiet_capabilities|]. intros caps [k ->].
  eapply quiet_bind; [by apply quiet_map_err, quiet_enumerate|]. intros formats _.
  eapply quiet_bind; [by apply quiet_map_err, quiet_enumerate|]. intros modes _.
  eapply quiet_bind; [apply quiet_lift|]. intros mode _ g Hg.
  destruct (pick_extent_ok (vd_caps D k) size (Hcaps k)) as (x & -> & _). destruct (default_image_count_ok _ (Hcaps k)) as (n & -> & _).
  eexists g, (Ok _). split_and!; done || apply same_refl.
Qed.

Lemma quiet_alpha physical : ph_instance physical = instance -> quiet ctx (pick_composite_alpha D physical surface) (fun _ => True).
Proof.
  intros Hp. unfold pick_composite_alpha. eapply quiet_bind; [by apply quiet_map_err, quiet_capabilities|]. intros caps _. by apply quiet_ret.
Qed.
End QuietSpecs.

(** ** Composite objects *)
Ltac among := first [lia | right; lia | left; apply list_elem_of_In; cbn; tauto].
Ltac each_pair := unfold before; cbn [p_lo p_hi p_refs];
  repeat first [apply FOP_nil | apply FOP_cons | apply List.Forall_nil | apply List.Forall_cons | split]; cbn [p_lo p_hi p_refs].
Ltac pieces ps :=
  refine (pieces_ok _ _ _ ps _ _ _ _ _);
  [repeat first [apply List.Forall_nil | apply List.Forall_cons]; assumption
  |each_pair; lia
  |each_pair; among
  |cbn [map concat p_objects]; rewrite ?app_nil_r, <- ?app_assoc; try reflexivity].

(** What bringing the engine up needs of the driver.  The first three
    conditions are documented Vulkan behaviour: core commands are found
    through a live instance, and the bounds of surface capabilities are in
    order.  The last one is the code's own assumption: an enumeration's second
    call reports no fewer devices than the first ([vanished_device_is_described]
    shows what happens otherwise).  Everything else - the results of all calls,
    missing extension commands, allocation failures, what is enumerated and
    supported - is up to the driver. *)
Record vulkan_ok (D : VkDriver) : Prop := {
  do_memory : vd_instance D "vkGetPhysicalDeviceMemoryProperties" = true;
  do_destroy : vd_instance D "vkDestroyInstance" = true;
  do_wait : vd_instance D "vkDeviceWaitIdle" = true;
  do_caps : forall k, caps_ok (vd_caps D k);
  do_devices : forall k, vd_devices D k <= vd_devices D (S k) }.

Section BuildSpecs.
Context (D : VkDriver) (HD : vulkan_ok D).
Let Hmemory := do_memory D HD.
Let Hdestroy := do_destroy D HD.
Let Hdevices := do_devices D HD.
Let Hcaps := do_caps D HD.
Context (UI_VERTEX_SPIRV UI_FRAGMENT_SPIRV WORLD_VERTEX_SPIRV WORLD_FRAGMENT_SPIRV : list Z).

Lemma creates_ret_piece {E A} (ctx : Z -> Prop) (a : A) (Q : A -> Z -> Z -> list entry -> Prop) :
  (forall n, 0 < n -> Q a n n []) -> creates (E := E) ctx (vret a) Q.
Proof.
  intros HQ g Hg. pose proof (proj1 (id_wf _ _ Hg)). exists g, (Ok a). split_and!; [done|apply Hg|apply same_refl|].
  exists []. split_and!; [cbn; by rewrite map_empty_union| |by apply HQ].
  repeat split; [constructor|done|lia|constructor].
Qed.

Lemma creates_pipeline_build (ctx : Z -> Prop) vw fw capacity depth device t buffer extent : ctx device -> ctx (uf_render_pass t) ->
  creates ctx (pipeline_build D vw fw capacity depth device t buffer extent)
    (fun p n0 n1 l => piece_ok (Piece n0 n1 [device; uf_render_pass t] (opt_handles pipeline_handles p) l)).
Proof.
  intros Hd Hr. unfold pipeline_build. destruct vw; [by apply creates_ret_piece; intros; apply piece_empty|].
  destruct fw; [by apply creates_ret_piece; intros; apply piece_empty|].
  eapply (creates_own _ _ one_handle [device]); [by apply creates_map_err, creates_shader_module|intros; by eapply piece_one|].
  intros vs n0 n1 l1 Hp1 _ H0 Hle1 Hctx Hvs. apply Forall_cons_1 in Hvs as [Hvs _].
  pose proof (Hctx _ Hd). pose proof (Hctx _ Hr). clear Hctx.
  eapply (creates_own _ _ one_handle [device]); [by apply creates_map_err, creates_shader_module; right|intros; by eapply piece_one|].
  intros fs n1' n2 l2 Hp2 _ _ Hle2 _ Hfs. apply Forall_cons_1 in Hfs as [Hfs _].
  eapply (creates_own _ _ one_handle [device]); [by apply creates_map_err, creates_ui_set_layout; do 2 right|intros; by eapply piece_one|].
  intros dl n2' n3 l3 Hp3 _ _ Hle3 _ Hdl. apply Forall_cons_1 in Hdl as [Hdl _].
  eapply (creates_own _ _ one_handle [device]); [by apply creates_map_err, creates_ui_pool; do 3 right|intros; by eapply piece_one|].
  intros pool n3' n4 l4 Hp4 _ _ Hle4 _ Hpool. apply Forall_cons_1 in Hpool as [Hpool _].
  eapply (creates_bind _ _ _ (fun _ => True)).
  { apply quiet_map_err. unfold allocate_ui_set. eapply quiet_bind; [apply quiet_guard|]. intros _ _.
    eapply quiet_weaken; [apply quiet_set; by do 4 right|done]. }
  intros set _.
  eapply (creates_own _ _ one_handle [device; dl]).
  { apply creates_map_err, creates_ui_pipeline_layout; [by do 4 right|]. right. left. apply list_elem_of_In. by left. }
  { intros; by eapply piece_one. }
  intros pl n4' n5 l5 Hp5 _ _ Hle5 _ Hpl. apply Forall_cons_1 in Hpl as [Hpl _].
  eapply (creates_own _ _ one_handle [device; vs; fs; pl; uf_render_pass t]).
  { assert (forall x : Z, x ∈ one_handle x) as Hin by (intros x; apply list_elem_of_In; by left).
    apply creates_map_err, creates_pipeline; auto 10. }
  { intros; by eapply piece_one. }
  intros pi n5' n6 l6 Hp6 _ _ Hle6 _ Hpi. apply Forall_cons_1 in Hpi as [Hpi _].
  apply creates_ret_piece. intros n Hn. intros.
  pieces [Piece n5' n6 [device; vs; fs; pl; uf_render_pass t] (one_handle pi) l6; Piece n4' n5 [device; dl] (one_handle pl) l5;
     Piece n3' n4 [device] (one_handle pool) l4; Piece n2' n3 [device] (one_handle dl) l3; Piece n1' n2 [device] (one_handle fs) l2;
     Piece n0 n1 [device] (one_handle vs) l1].
Qed.

Lemma concat_one l : concat (map one_handle l) = l.
Proof. induction l as [|x l IH]; cbn; [done|]. by rewrite IH. Qed.

Lemma quiet_reserve ctx : quiet ctx (reserve D) (fun _ => True).
Proof. intros g Hg. unfold reserve. exists (called g). destruct (vd_alloc D (g_calls g)); eexists; by split_and!. Qed.

Definition images_of (s : Swapchain) : Prop := Forall (fun im => im_owner im = sc_handle s) (sc_images s).

Lemma creates_views (ctx : Z -> Prop) device s format : ctx device -> ctx (sc_handle s) -> images_of s ->
  creates ctx (create_each (fun image => vmap_err PresentError.Vulkan (create_color_image_view D device image format)) one_handle [] (sc_images s))
    (fun vs n0 n1 l => piece_ok (Piece n0 n1 [device; sc_handle s] (concat (map one_handle vs)) l) /\ length vs = length (sc_images s)).
Proof.
  intros Hd Hs Him. apply (creates_each ctx); [by repeat constructor|]. apply Forall_forall. intros im Hin.
  unfold images_of in Him. rewrite Forall_forall in Him. specialize (Him im Hin).
  eapply creates_mono; [apply creates_map_err, creates_color_view; [done|by rewrite Him]|done|].
  intros a n0 n1 l Hb _ Hone. rewrite Him in Hone. by eapply piece_one.
Qed.

Lemma creates_framebuffers (ctx : Z -> Prop) device rp dv extent views : ctx device -> ctx rp -> ctx dv -> Forall ctx views ->
  creates ctx (create_each (fun view => vmap_err PresentError.Vulkan (create_framebuffer D device rp view dv extent)) one_handle [] views)
    (fun fs n0 n1 l => piece_ok (Piece n0 n1 (device :: rp :: dv :: views) (concat (map one_handle fs)) l) /\ length fs = length views).
Proof.
  intros Hd Hr Hdv Hv. apply (creates_each ctx); [by repeat constructor|]. apply Forall_forall. intros view Hin.
  assert (ctx view) as Hcv by (rewrite Forall_forall in Hv; auto).
  eapply creates_mono; [by apply creates_map_err, creates_framebuffer|done|].
  intros a n0 n1 l Hb _ Hone. eapply piece_mono; [by eapply piece_one|done|done|].
  apply Forall_forall. intros r Hr'. left. apply list_elem_of_In. cbn in *. intuition (subst; auto).
Qed.

Lemma creates_targets (ctx : Z -> Prop) device physical s format extent : ctx device -> ctx (sc_handle s) -> images_of s ->
  creates ctx (UiFrameTargets_build D device physical s format extent)
    (fun t n0 n1 l => piece_ok (Piece n0 n1 [device; sc_handle s] (targets_handles t) l) /\ n0 <= uf_render_pass t < n1 /\
      length (uf_framebuffers t) = length (sc_images s)).
Proof.
  intros Hd Hs Him. unfold UiFrameTargets_build.
  eapply (creates_own _ _ one_handle [device]); [by apply creates_map_err, creates_render_pass|intros; by eapply piece_one|].
  intros rp n0 n1 l1 Hp1 _ H0 Hle1 Hctx Hrp. apply Forall_cons_1 in Hrp as [Hrp _].
  pose proof (Hctx _ Hd). pose proof (Hctx _ Hs). clear Hctx.
  eapply (creates_own _ _ depth_handles [device]); [by apply creates_map_err, creates_depth_image; [right|]| |].
  { intros d m0 m1 l Hbd Hb Hctx. eapply piece_bound; [exact Hbd|exact Hb|]. apply Hctx. by right. }
  intros di n1' n2 l2 Hp2 _ _ Hle2 _ Hdi. apply Forall_cons_1 in Hdi as [Hdi _].
  eapply (creates_own _ _ one_handle [device; di_handle di]).
  { apply creates_map_err, creates_depth_view; [by do 2 right|]. left. apply list_elem_of_In. by left. }
  { intros; by eapply piece_one. }
  intros dv n2' n3 l3 Hp3 _ _ Hle3 _ Hdv. apply Forall_cons_1 in Hdv as [Hdv _].
  eapply creates_bind; [apply quiet_reserve|intros _ _].
  eapply (creates_own _ _ (fun vs => concat (map one_handle vs)) [device; sc_handle s]);
    [apply creates_views; [by do 3 right|by do 3 right|done]|by intros ? ? ? ? [? _]|].
  intros vs n3' n4 l4 Hp4 [_ Hlv] _ Hle4 _ Hvs. rewrite concat_one in Hvs.
  eapply creates_bind; [apply quiet_reserve|intros _ _].
  eapply (creates_own _ _ (fun fs => concat (map one_handle fs)) (device :: rp :: dv :: vs)).
  { apply creates_framebuffers.
    - by do 4 right.
    - do 3 right. left. apply list_elem_of_In. by left.
    - right. left. apply list_elem_of_In. by left.
    - apply Forall_forall. intros v Hv. left. rewrite concat_one. by apply list_elem_of_In. }
  { by intros ? ? ? ? [? _]. }
  intros fs n4' n5 l5 Hp5 [_ Hlf] _ Hle5 _ _.
  apply creates_ret_piece. intros n Hn. intros. split; [|split; [cbn; lia|cbn; lia]].
  unfold targets_handles, depth_handles. cbn [uf_framebuffers uf_depth_view uf_depth_image uf_image_views uf_render_pass].
  rewrite <- (concat_one fs), <- (concat_one vs). change [rp] with (one_handle rp ++ []).
  refine (pieces_ok _ _ _ [Piece n4' n5 (device :: rp :: dv :: vs) (concat (map one_handle fs)) l5; Piece n2' n3 [device; di_handle di] (one_handle dv) l3;
     Piece n1' n2 [device] (depth_handles di) l2; Piece n3' n4 [device; sc_handle s] (concat (map one_handle vs)) l4; Piece n0 n1 [device] (one_handle rp) l1] _ _ _ _ _).
  - by repeat constructor.
  - each_pair; lia.
  - each_pair; among || idtac. eapply list.Forall_impl; [exact Hvs|]. cbn. intros; lia.
  - cbn [map concat p_objects]. solve_Permutation.
Qed.

Lemma creates_frame (ctx : Z -> Prop) device family : ctx device ->
  creates ctx (frame_build D device family) (fun f n0 n1 l => piece_ok (Piece n0 n1 [device] (frame_handles f) l)).
Proof.
  intros Hd. unfold frame_build.
  eapply (creates_own _ _ one_handle [device]); [by apply creates_map_err, creates_command_pool|intros; by eapply piece_one|].
  intros pool n0 n1 l1 Hp1 _ H0 Hle1 Hctx Hpool. apply Forall_cons_1 in Hpool as [Hpool _]. pose proof (Hctx _ Hd). clear Hctx.
  eapply (creates_bind _ _ _ (fun b => b = [mkCommandBuffer pool 0])).
  { apply quiet_map_err. unfold allocate_command_buffers. cbn [Z.eqb]. eapply quiet_bind; [apply quiet_command|intros _ _].
    eapply quiet_bind; [apply quiet_vk_call|intros r _]. eapply quiet_bind; [apply quiet_succeeded|intros _ _]. by apply quiet_ret. }
  intros buffers ->.
  eapply (creates_own _ _ one_handle [device]); [by apply creates_map_err, creates_semaphore; right|intros; by eapply piece_one|].
  intros ready n1' n2 l2 Hp2 _ _ Hle2 _ Hready. apply Forall_cons_1 in Hready as [Hready _].
  eapply (creates_own _ _ one_handle [device]); [by apply creates_map_err, creates_semaphore; do 2 right|intros; by eapply piece_one|].
  intros done_ n2' n3 l3 Hp3 _ _ Hle3 _ Hdone. apply Forall_cons_1 in Hdone as [Hdone _].
  eapply (creates_own _ _ one_handle [device]); [by apply creates_map_err, creates_fence; do 3 right|intros; by eapply piece_one|].
  intros fence n3' n4 l4 Hp4 _ _ Hle4 _ Hfence. apply Forall_cons_1 in Hfence as [Hfence _].
  apply (creates_ret_piece _ (mkFrameSlot pool [mkCommandBuffer pool 0] (mkCommandBuffer pool 0) ready done_ fence)). intros n Hn. intros.
  pieces [Piece n0 n1 [device] (one_handle pool) l1; Piece n1' n2 [device] (one_handle ready) l2;
     Piece n2' n3 [device] (one_handle done_) l3; Piece n3' n4 [device] (one_handle fence) l4].
  solve_Permutation.
Qed.

Lemma creates_frames (ctx : Z -> Prop) device family frames : ctx device -> creates ctx (build_frame_states D device family frames)
  (fun fs n0 n1 l => piece_ok (Piece n0 n1 [device] (concat (map frame_handles fs)) l)).
Proof.
  intros Hd. unfold build_frame_states. eapply creates_bind; [apply quiet_reserve|intros _ _].
  eapply creates_mono; [apply (creates_each ctx _ frame_handles [device]); [by repeat constructor|]|done|by intros ? ? ? ? ? ? [? _]].
  apply Forall_forall. intros i _. by apply creates_frame.
Qed.

Lemma creates_swapchain (ctx : Z -> Prop) device surface format extent mode alpha count old : ctx device -> ctx surface ->
  creates ctx (swapchain_create D device surface format extent mode alpha count old) (fun s n0 n1 l =>
    one (KSwapchain format extent mode alpha count old) [device; surface] (sc_handle s) n0 n1 l /\ images_of s).
Proof.
  intros Hd Hs. unfold swapchain_create. eapply creates_bind; [by apply quiet_device_commands|intros _ _].
  set (k := KSwapchain _ _ _ _ _ _). intros g Hg. assert (Forall ctx [device; surface]) as Hps by (by repeat constructor).
  pose proof (proj1 (id_wf _ _ Hg)). unfold vbind.
  destruct (vk_create_cases D ctx [device; surface] k g Hg Hps) as [->|(r & Hr & ->)]; unfold created_unchecked; cbn [fst snd].
  2: { rewrite (proj2 (Z.eqb_neq r VK_SUCCESS) Hr). cbn. exists (called g), (Err (VulkanLoaderError.Api r)).
       split_and!; [done|apply Hg|repeat split; cbn; lia|done]. }
  rewrite Z.eqb_refl. cbn [negb vret].
  destruct (make_adds ctx g k [device; surface] Hg Hps) as (Hwf1 & Hs1 & Hl1 & Hb1).
  pose proof (idle_make ctx g k [device; surface] Hg Hps) as Hg1.
  set (h := g_next g) in *. set (g1 := make (called g) (Object k [device; surface])) in *.
  set (ctx1 := fun x => x ∈ [h] \/ ctx x) in *.
  assert (Forall ctx1 [device; h]) as Hq.
  { apply List.Forall_cons; [by right|]. apply List.Forall_cons; [|done]. left. apply list_elem_of_In. by left. }
  assert (forall g2 e, same g g2 -> g_live g2 = g_live g1 -> exists g', releasing (A := list VkImage) [h] e g2 = Some (g', Err e) /\
    wf g' /\ same g g' /\ g_live g' = g_live g) as Hfail.
  { intros g2 e Hs2 Hl2. eapply (releasing_restores ctx g g2 _ [(h, Object k [device; surface])]);
      [exact Hg|apply teardown_one; lia|done|exact Hb1|exact Hs2|by rewrite Hl2]. }
  assert (forall n, all_or_nothing (E := VulkanLoaderError) g (Some (called (called g1), Ok (mkSwapchain device h
    (map (fun i => mkImage h (Z.of_nat i)) (seq 0 n))))) (fun s n0 n1 l =>
    one k [device; surface] (sc_handle s) n0 n1 l /\ images_of s)) as Hdone.
  { intros n. eexists _, (Ok _). split; [done|]. split; [exact Hwf1|]. split; [exact Hs1|].
    exists [(h, Object k [device; surface])]. split; [done|]. split; [exact Hb1|]. split; [done|].
    unfold images_of. cbn. apply Forall_forall. intros im (i & <- & _)%in_map_iff. done. }
  unfold swapchain_images, vbind. rewrite (vk_query_run D ctx1) by done. cbn [fst snd].
  destruct (negb _); [|unfold vbind; rewrite (vk_query_run D ctx1) by (done || by apply idle_called); cbn [fst snd];
    destruct (fill_result _ _ _) as [r n]; destruct (negb (r =? VK_SUCCESS)); [|apply Hdone]].
  - destruct (Hfail (called g1) (VulkanLoaderError.Api (vd_result D (g_calls g1)))) as (g' & -> & ? & ? & ?); [done..|]. by eexists _, (Err _).
  - destruct (Hfail (called (called g1)) (VulkanLoaderError.Api r)) as (g' & -> & ? & ? & ?); [done..|]. by eexists _, (Err _).
Qed.

(** ** Building the engine *)
Lemma creates_logical_device (ctx : Z -> Prop) instance physical requests : ctx instance -> ph_instance physical = instance ->
  creates ctx (create_logical_device D physical requests) (fun d n0 n1 l => exists k, l = [(d, Object k [instance])]).
Proof.
  intros Hi Hp. unfold create_logical_device. quiet_steps. rewrite Hp. eapply (creates_mono ctx ctx);
    [apply creates_object_unchecked; by repeat constructor|done|]. intros d n0 n1 l _ _ Hl. eexists. exact Hl.
Qed.

Lemma creates_surface (ctx : Z -> Prop) instance display window : ctx instance ->
  creates ctx (create_with_handles D instance display window) (one (KSurface window) [instance]).
Proof.
  intros Hi. unfold create_with_handles.
  assert (forall n, quiet ctx (resolve D instance n) (fun _ => True)) as Hres.
  { intros n g Hg. destruct (id_ctx _ _ Hg instance Hi) as [o Ho]. unfold resolve, instance_proc, live_or_none.
    rewrite (proj2 (Z.eqb_neq instance 0)) by (apply (idle_lt _ _ _ Hg) in Hi; lia).
    rewrite bool_decide_eq_true_2 by eauto. cbn. exists g. destruct (vd_instance D n); eexists; split_and!; done || apply same_refl. }
  eapply creates_bind; [apply quiet_guard|intros _ _]. do 2 (eapply creates_bind; [apply Hres|intros _ _]).
  apply creates_object_unchecked. by repeat constructor.
Qed.

Lemma quiet_queue (ctx : Z -> Prop) device family index : ctx device -> quiet ctx (device_queue D device family index) (fun _ => True).
Proof.
  intros Hd. unfold device_queue. eapply quiet_bind; [apply quiet_query; by repeat constructor|intros q _]. by apply quiet_ret.
Qed.

Ltac live := solve [repeat first [assumption | left; apply list_elem_of_In; cbn; tauto | right]].

Lemma creates_upload_buffer (ctx : Z -> Prop) device physical capacity usage required preferred : ctx device ->
  creates ctx (upload_buffer D device physical capacity usage required preferred)
    (fun b n0 n1 l => piece_ok (Piece n0 n1 [device] (buffer_handles b) l)).
Proof.
  intros Hd. unfold upload_buffer. eapply (creates_mono ctx ctx); [by apply creates_map_err, creates_buffer|done|].
  intros b n0 n1 l Hb Hctx Hbd. eapply piece_bound; [exact Hbd|exact Hb|]. by apply Hctx.
Qed.

Lemma creates_bring_up (ctx : Z -> Prop) loader instance display window size : ctx instance ->
  creates ctx (engine_bring_up D UI_VERTEX_SPIRV UI_FRAGMENT_SPIRV WORLD_VERTEX_SPIRV WORLD_FRAGMENT_SPIRV loader instance display window size)
    (fun e n0 n1 l => piece_ok (Piece n0 n1 [instance] (engine_children e) l) /\ en_instance e = instance /\ en_loader e = loader).
Proof.
  intros Hi. unfold engine_bring_up.
  eapply (creates_own _ _ one_handle [instance]); [by apply creates_map_err, creates_surface|intros; by eapply piece_one|].
  intros surface n0 n1 l1 Hp1 _ H0 Hle1 Hctx Hsu. apply Forall_cons_1 in Hsu as [Hsu _]. pose proof (Hctx _ Hi). clear Hctx.
  eapply creates_bind; [by apply quiet_map_err, quiet_devices; [right|]|intros devices Hdev].
  eapply creates_bind; [eapply (quiet_pick _ _ instance); [live|live|exact Hdev]|intros [[physical info] family] Hphys].
  eapply (creates_own _ _ one_handle [instance]);
    [eapply creates_map_err, (creates_logical_device _ instance); [live|exact Hphys]|intros ? ? ? ? [k ->] ? _; by eapply piece_one|].
  intros device n1' n2 l2 Hp2 _ _ Hle2 _ Hde. apply Forall_cons_1 in Hde as [Hde _].
  eapply creates_bind; [apply quiet_map_err, quiet_queue; live|intros found _].
  eapply creates_bind; [apply quiet_lift|intros queue _].
  eapply creates_bind; [eapply (quiet_alpha _ _ instance); [live..|exact Hphys]|intros alpha _].
  eapply creates_bind; [eapply (quiet_configure _ _ instance); [live..|exact Hcaps|exact Hphys]|intros [[[format mode] extent] count] _].
  eapply (creates_own _ _ swapchain_handles [device; surface]);
    [apply creates_map_err, creates_swapchain; live|intros ? ? ? ? [Hone _] ? _; by eapply piece_one|].
  intros s n2' n3 l3 Hp3 [_ Him] _ Hle3 _ Hsc. apply Forall_cons_1 in Hsc as [Hsc _].
  eapply (creates_own _ _ targets_handles [device; sc_handle s]); [apply creates_targets; [live|live|done]|by intros ? ? ? ? [? _]|].
  intros t n3' n4 l4 Hp4 [_ [Hrp _]] _ Hle4 _ _.
  assert (uf_render_pass t ∈ targets_handles t) as Hrpin by (apply list_elem_of_In; unfold targets_handles; rewrite !in_app_iff; cbn; tauto).
  eapply (creates_own _ _ buffer_handles [device]); [apply creates_upload_buffer; live|done|].
  intros us n4' n5 l5 Hp5 _ _ Hle5 _ _.
  eapply (creates_own _ _ buffer_handles [device]); [apply creates_upload_buffer; live|done|].
  intros ud n5' n6 l6 Hp6 _ _ Hle6 _ _.
  eapply (creates_own _ _ buffer_handles [device]); [apply creates_upload_buffer; live|done|].
  intros ws n6' n7 l7 Hp7 _ _ Hle7 _ _.
  eapply (creates_own _ _ buffer_handles [device]); [apply creates_upload_buffer; live|done|].
  intros wd n7' n8 l8 Hp8 _ _ Hle8 _ _.
  eapply (creates_own _ _ (opt_handles pipeline_handles) [device; uf_render_pass t]); [apply creates_pipeline_build; [live|auto 10]|done|].
  intros up n8' n9 l9 Hp9 _ _ Hle9 _ _.
  eapply (creates_own _ _ (opt_handles pipeline_handles) [device; uf_render_pass t]); [apply creates_pipeline_build; [live|auto 10]|done|].
  intros wp n9' n10 l10 Hp10 _ _ Hle10 _ _.
  eapply (creates_own _ _ (fun fs => concat (map frame_handles fs)) [device]); [apply creates_frames; live|done|].
  intros frames n10' n11 l11 Hp11 _ _ Hle11 _ _.
  apply creates_ret_piece. intros n Hn. intros. split; [|done].
  unfold engine_children. cbn [en_ui_pipeline en_world_pipeline en_ui_targets en_swapchain en_surface en_frames en_ui_staging en_ui_device
    en_world_staging en_world_device en_device opt_handles]. change [device] with (one_handle device ++ []).
  refine (pieces_ok _ _ _ [Piece n8' n9 [device; uf_render_pass t] (opt_handles pipeline_handles up) l9;
    Piece n9' n10 [device; uf_render_pass t] (opt_handles pipeline_handles wp) l10; Piece n3' n4 [device; sc_handle s] (targets_handles t) l4;
    Piece n2' n3 [device; surface] (swapchain_handles s) l3; Piece n0 n1 [instance] (one_handle surface) l1;
    Piece n10' n11 [device] (concat (map frame_handles frames)) l11; Piece n4' n5 [device] (buffer_handles us) l5;
    Piece n5' n6 [device] (buffer_handles ud) l6; Piece n6' n7 [device] (buffer_handles ws) l7; Piece n7' n8 [device] (buffer_handles wd) l8;
    Piece n1' n2 [instance] (one_handle device) l2] _ _ _ _ _).
  - by repeat constructor.
  - each_pair; lia.
  - each_pair; among.
  - cbn [map concat p_objects]. solve_Permutation.
Qed.

Local Abbreviation building := (engine_build D UI_VERTEX_SPIRV UI_FRAGMENT_SPIRV WORLD_VERTEX_SPIRV WORLD_FRAGMENT_SPIRV).

(** Loading and creating the instance, from any state. *)
Lemma load_run g : wf g ->
  (exists e, load D g = Some (g, Err e)) \/
  exists g1, load D g = Some (g1, Ok (g_next g)) /\ g_next g1 = g_next g + 1 /\ g_active g1 = 0 /\ g_pending g1 = g_pending g /\
    g_live g1 = <[g_next g := Object KLibrary []]> (g_live g) /\ wf g1.
Proof.
  intros [H0 Hwf]. unfold load, vbind, vlift. destruct (vd_library D) as [[]|e]; [right|left; by exists e].
  eexists. split; [done|]. split_and!; try done. split; [cbn; lia|]. cbn. intros x o [[<- <-]|[_ Ho]]%lookup_insert_Some.
  - cbn. split; [lia|constructor].
  - destruct (Hwf x o Ho). cbn. split; [lia|]. eapply list.Forall_impl; [done|]. cbn; intros; lia.
Qed.

Lemma create_instance_run g exts lib : wf g -> g_active g = 0 -> is_Some (g_live g !! lib) ->
  (exists g1 e, create_instance D lib exts g = Some (g1, Err e) /\ g_live g1 = g_live g /\ g_pending g1 = g_pending g) \/
  exists g1, create_instance D lib exts g = Some (g1, Ok (g_next g)) /\ g_next g1 = g_next g + 1 /\ g_active g1 = g_next g /\
    g_pending g1 = g_pending g /\ g_live g1 = <[g_next g := Object (KInstance exts) [lib]]> (g_live g) /\ wf g1.
Proof.
  intros [H0 Hwf] Ha Hlib. unfold create_instance, vbind, command, instance_proc. rewrite Ha. cbn [Z.eqb mbind option_bind orb].
  destruct (vd_global D "vkCreateInstance"); [|left; by eexists _, _]. unfold vk_create. rewrite bool_decide_eq_true_2 by (by repeat constructor).
  destruct (Z.eqb_spec (vd_result D (g_calls g)) VK_SUCCESS) as [->|Hr]; unfold created_unchecked; cbn [fst snd].
  - rewrite Z.eqb_refl. cbn [negb vret]. unfold instance_command, instance_proc, live_or_none.
    rewrite (proj2 (Z.eqb_neq (g_next g) 0)) by lia. cbn [g_live with_active make called].
    rewrite bool_decide_eq_true_2 by (rewrite lookup_insert_eq; eauto). cbn [mbind option_bind]. rewrite Hdestroy.
    right. eexists. split; [done|]. split_and!; try done. destruct Hlib as [lo Hlo]. pose proof (Hwf _ _ Hlo) as [? _].
    split; [cbn; lia|]. cbn. intros x o [[<- <-]|[_ Ho]]%lookup_insert_Some.
    + cbn. split; [lia|]. constructor; [lia|constructor].
    + destruct (Hwf x o Ho). cbn. split; [lia|]. eapply list.Forall_impl; [done|]. cbn; intros; lia.
  - rewrite (proj2 (Z.eqb_neq _ VK_SUCCESS) Hr). left. by eexists _, _.
Qed.

(** Destroying the youngest object. *)
Lemma destroy_youngest g0 h o g : wf g0 -> g_next g0 = h -> g_live g = <[h := o]> (g_live g0) -> g_pending g = false ->
  vk_destroy h g = Some (with_live g (g_live g0)).
Proof.
  intros [H0 Hwf] <- Hl Hp. unfold vk_destroy. rewrite (proj2 (Z.eqb_neq _ 0)) by lia. rewrite Hp, Hl.
  rewrite delete_insert_id by (destruct (g_live g0 !! g_next g0) as [o'|] eqn:E; [apply Hwf in E; lia|done]).
  rewrite bool_decide_eq_true_2; [done|]. split; [rewrite lookup_insert_eq; eauto|].
  intros x p Hx Hin. destruct (Hwf x p Hx) as [_ Hpar]. rewrite Forall_forall in Hpar. apply list_elem_of_In in Hin. specialize (Hpar _ Hin). lia.
Qed.

(** No work is pending, or waiting for it ends: with success, or because the
    device is lost. *)
Definition can_wait (g : gpu) : bool :=
  negb (g_pending g) || (vd_result D (g_calls g) =? VK_SUCCESS) || (vd_result D (g_calls g) =? VK_ERROR_DEVICE_LOST).

Lemma wait_idle_run device g : is_Some (g_live g !! g_active g) -> is_Some (g_live g !! device) -> g_active g <> 0 ->
  exists g' r, wait_idle D device g = Some (g', r) /\ g_live g' = g_live g /\ g_pending g' = negb (can_wait g).
Proof.
  intros Ha Hd Hn. unfold wait_idle, vbind, command, instance_proc, live_or_none.
  rewrite (proj2 (Z.eqb_neq _ 0) Hn), bool_decide_eq_true_2 by done. cbn [mbind option_bind]. rewrite (do_wait D HD). cbn [orb].
  unfold vk_query. rewrite bool_decide_eq_true_2 by (by repeat constructor). cbn [fst snd]. unfold can_wait.
  destruct (vd_result D (g_calls g) =? VK_SUCCESS); [eexists _, (Ok tt); by rewrite orb_true_r|].
  destruct (vd_result D (g_calls g) =? VK_ERROR_DEVICE_LOST); [eexists _, (Err _); by rewrite orb_true_r|].
  eexists _, (Err _). rewrite !orb_false_r, negb_involutive. by split_and!.
Qed.

(** Nothing can be destroyed while work is pending. *)
Lemma destroy_all_pending hs g : g_pending g = true -> (0 < length hs)%nat -> (forall h, h ∈ hs -> h <> 0) -> destroy_all hs g = None.
Proof.
  intros Hp Hn Hh. destruct hs as [|h hs]; [cbn in Hn; lia|]. cbn [destroy_all]. unfold vk_destroy.
  rewrite (proj2 (Z.eqb_neq h 0)) by (apply Hh; left). by rewrite Hp.
Qed.

Lemma engine_drop_run e n0 n1 R l base g : piece_ok (Piece n0 n1 R (engine_handles e) l) -> g_live g = list_to_map l ∪ base ->
  list_to_map l ##ₘ base -> (forall x o, base !! x = Some o -> Forall (fun p => p ∉ l.*1) (o_parents o)) ->
  g_active g = en_instance e -> 0 < n0 ->
  if can_wait g then exists g', engine_drop D e g = Some g' /\ g_live g' = base else engine_drop D e g = None.
Proof.
  intros Hp Hl Hd Hbase Ha H0. pose proof (piece_releases _ Hp) as Hrel. cbn [p_handles p_objects] in Hrel.
  destruct Hp as (lt & Hlt & Hh & Ht & Hr). cbn in Hlt, Hh, Hr.
  assert (forall h, h ∈ engine_handles e -> is_Some (g_live g !! h) /\ h <> 0) as Hlive.
  { intros h Hin. rewrite <- Hh in Hin. pose proof Hin as ([x o] & -> & Hxo)%list_elem_of_fmap. split.
    - rewrite Hl, <- (list_to_map_proper lt l) by (done || by apply teardown_nodup). exists o.
      apply lookup_union_Some_l, elem_of_list_to_map_1; [by apply teardown_nodup|done].
    - rewrite Forall_forall in Hr. apply list_elem_of_In in Hxo. destruct (Hr _ Hxo) as [? _]. cbn in *. lia. }
  assert (forall h, h ∈ [en_device e] \/ h ∈ [en_instance e] -> h ∈ engine_handles e) as Hin.
  { intros h Hin. unfold engine_handles, engine_children. apply list_elem_of_In. rewrite !in_app_iff.
    destruct Hin as [Hin|Hin]; apply list_elem_of_In in Hin; tauto. }
  destruct (Hlive (en_instance e)) as [Hia Hi0]; [apply Hin; right; apply list_elem_of_In; by left|].
  destruct (Hlive (en_device e)) as [Hda _]; [apply Hin; left; apply list_elem_of_In; by left|].
  destruct (wait_idle_run (en_device e) g) as (g' & r & Hrun & Hl' & Hp'); [by rewrite Ha|done|by rewrite Ha|].
  unfold engine_drop. rewrite Hrun. cbn [mbind option_bind]. destruct (can_wait g); cbn [negb] in Hp'.
  - rewrite Hl in Hl'. rewrite (Hrel g' base Hp' Hl' Hd Hbase). by eexists.
  - apply destroy_all_pending; [done| |intros h Hh'; by apply Hlive].
    unfold engine_handles. rewrite length_app. cbn. lia.
Qed.

(** The engine's objects, on top of the instance and the library. *)
Lemma engine_objects_ok e n n1 k exts : piece_ok (Piece (n + 2) n1 [n + 1] (engine_children e) k) -> 0 < n -> n + 2 <= n1 ->
  en_instance e = n + 1 -> en_loader e = n ->
  piece_ok (Piece n n1 [] (engine_handles e) (k ++ [(n + 1, Object (KInstance exts) [n])] ++ [(n, Object KLibrary [])])).
Proof.
  intros Hk Hn Hle Hi Hlo. unfold engine_handles. rewrite Hi, Hlo.
  assert (piece_ok (Piece (n + 1) (n + 2) [n] [n + 1] [(n + 1, Object (KInstance exts) [n])])) as Hpi.
  { exists [(n + 1, Object (KInstance exts) [n])]. split_and!; [done|done|by apply teardown_one; lia|].
    repeat constructor; cbn; lia. }
  assert (piece_ok (Piece n (n + 1) [] [n] [(n, Object KLibrary [])])) as Hpl.
  { exists [(n, Object KLibrary [])]. split_and!; [done|done|by apply teardown_one; lia|]. repeat constructor; cbn; lia. }
  change [n] with ([n] ++ []) at 2.
  refine (pieces_ok _ _ _ [Piece (n + 2) n1 [n + 1] (engine_children e) k; Piece (n + 1) (n + 2) [n] [n + 1] [(n + 1, Object (KInstance exts) [n])];
    Piece n (n + 1) [] [n] [(n, Object KLibrary [])]] _ _ _ _ _).
  - by repeat constructor.
  - each_pair; lia.
  - each_pair; among.
  - cbn [map concat p_objects]. by rewrite app_nil_r.
Qed.

(** C4: bringing the presentation engine up is all or nothing, and its drop
    undoes it.  Let the driver find the core commands, report ordered bounds
    of surface capabilities and not lose physical devices between the two
    calls of an enumeration ([vulkan_ok]); any call may fail, any extension
    command may be missing, and whatever is enumerated is up to it.  From a
    state without pending work [build] then makes no forbidden use of Vulkan
    (no dead parent, no destruction below a living child, no null device), and
    either fails leaving exactly the objects it found, or returns an engine.
    Its drop, at any later time with the same objects alive, destroys every
    object it made, children first, and nothing else, when no work is pending
    or [vkDeviceWaitIdle] succeeds or reports the device lost.  In the one
    other case - work is pending and the wait fails otherwise - the drop
    ignores the failure and destroys objects in use, which is forbidden. *)
Theorem engine_build_balanced display window size g : wf g -> g_pending g = false ->
  exists g1 r, building display window size g = Some (g1, r) /\
    match r with
    | Err _ => g_live g1 = g_live g
    | Ok e => forall g2, g_live g2 = g_live g1 -> g_active g2 = g_active g1 ->
        if can_wait g2 then exists g3, engine_drop D e g2 = Some g3 /\ g_live g3 = g_live g
        else engine_drop D e g2 = None
    end.
Proof.
  intros Hwf Hp. unfold engine_build. destruct (_ || _); [by eexists _, (Err _)|].
  unfold owning, vbind, vmap_err at 1. pose proof (proj1 Hwf) as H0.
  destruct (load_run g Hwf) as [[e ->]|(ga & -> & Hna & Haa & Hpa & Hla & Hwfa)]; [by eexists _, (Err _)|].
  cbn [mbind option_bind map_err]. unfold vmap_err at 1. set (n := g_next g) in *.
  destruct (create_instance_run ga ["VK_KHR_surface"; "VK_KHR_xlib_surface"] n Hwfa Haa) as [(gb & e & -> & Hlb & Hpb)|(gb & -> & Hnb & Hab & Hpb & Hlb & Hwfb)].
  { rewrite Hla, lookup_insert_eq. by eexists. }
  { cbn [mbind option_bind map_err]. unfold one_handle, destroy_all.
    rewrite (destroy_youngest g n (Object KLibrary []) gb Hwf eq_refl) by congruence. cbn. by eexists _, (Err _). }
  cbn [mbind option_bind map_err]. set (exts := ["VK_KHR_surface"; "VK_KHR_xlib_surface"]) in *.
  rewrite Hna in Hnb, Hab, Hlb.
  assert (idle (fun x => x = n + 1) gb) as Hidle.
  { assert (is_Some (g_live gb !! (n + 1))) as Hi by (rewrite Hlb, lookup_insert_eq; eauto).
    split; [done|congruence|by rewrite Hab|by intros x ->]. }
  rewrite Hna. destruct (creates_bring_up (fun x => x = n + 1) n (n + 1) display window size eq_refl gb Hidle)
    as (g1 & r & -> & Hwf1 & Hs1 & Hpost). destruct r as [e|er].
  - eexists _, (Ok e). split; [done|]. intros g2 Hl2 Ha2. destruct Hpost as (k & Hk & Hb & Hpk & Hei & Hel).
    rewrite Hnb in *. replace (n + 1 + 1) with (n + 2) in * by lia.
    pose proof (engine_objects_ok e n (g_next g1) k exts Hpk H0 (proj1 (proj2 (proj2 Hb))) Hei Hel) as Hpiece.
    assert (g_live g1 = list_to_map (k ++ [(n + 1, Object (KInstance exts) [n])] ++ [(n, Object KLibrary [])]) ∪ g_live g) as Hlive.
    { rewrite Hk, Hlb, Hla, !list_to_map_app. cbn. rewrite <- !map_union_assoc, <- !insert_union_l, !map_empty_union. done. }
    assert (block n (g_next g1) (k ++ [(n + 1, Object (KInstance exts) [n])] ++ [(n, Object KLibrary [])])) as Hblk.
    { apply (block_app n (n + 2)); [|exact Hb]. repeat split; [|lia|lia|repeat constructor; cbn; lia].
      cbn. constructor; [|apply NoDup_singleton]. intros [?|[]]%list_elem_of_In. lia. }
    eapply engine_drop_run; [exact Hpiece|by rewrite Hl2, Hlive|by apply (block_disjoint g (g_next g1))| |rewrite Ha2, (proj1 Hs1), Hab; done|lia].
    intros x o. by apply (older_unrelated g (g_next g1)).
  - unfold one_handle, destroy_all. assert (g_pending g1 = false) as Hp1 by (rewrite (proj1 (proj2 Hs1)); congruence).
    rewrite (destroy_youngest ga (n + 1) (Object (KInstance exts) [n]) g1 Hwfa Hna) by congruence. cbn [mbind option_bind].
    rewrite (destroy_youngest g n (Object KLibrary []) _ Hwf eq_refl) by done. cbn. by eexists _, (Err _).
Qed.
End BuildSpecs.

(** ** Recreation *)

(** The handle that [Swapchain::recreate] leaves in the swapchain is dead: the
    replacement is destroyed on return, while the old swapchain stays alive. *)
Lemma swapchain_recreate_dead D (ctx : Z -> Prop) s surface format extent mode alpha count g : idle ctx g ->
  ctx (sc_device s) -> ctx surface ->
  exists g' r, swapchain_recreate D s surface format extent mode alpha count g = Some (g', r) /\ g_live g' = g_live g /\
    match r with Ok s' => g_live g' !! sc_handle s' = None /\ images_of s' | Err _ => True end.
Proof.
  intros Hg Hd Hs. unfold swapchain_recreate, vbind.
  destruct (creates_swapchain D ctx (sc_device s) surface format extent mode alpha count (sc_handle s) Hd Hs g Hg)
    as (g' & r & -> & Hwf & Hsame & Hpost). destruct r as [s'|e]; [|by eexists _, (Err _)].
  destruct Hpost as (l & Hl & Hb & Hone & Him). pose proof (piece_one _ _ _ _ _ _ Hone Hb) as Hp.
  pose proof (piece_releases _ Hp) as Hrel. cbn [p_handles p_objects] in Hrel. unfold swapchain_handles.
  rewrite (releases_new _ _ l g g' Hrel (id_wf _ _ Hg) Hb);
    [|by rewrite (proj1 (proj2 Hsame)), (id_pending _ _ Hg)|done]. cbn.
  eexists _, (Ok _). split; [done|]. split; [done|]. split; [|exact Him]. cbn.
  destruct (g_live g !! sc_handle s') as [o|] eqn:E; [exfalso|done]. apply (proj2 (id_wf _ _ Hg)) in E as [E _].
  rewrite Hone in Hb. destruct Hb as (_ & _ & _ & Hb). apply Forall_cons_1 in Hb as [[? _] _]. cbn in *. lia.
Qed.

(** ** A driver on which everything succeeds *)
Definition demo_properties : list Z := repeat 0 16 ++ [2; 0; 0; 0] ++ repeat 0 804.
Definition demo_caps : SurfaceCapabilities :=
  mkCaps 2 3 {| e_width := 640; e_height := 480 |} {| e_width := 1; e_height := 1 |} {| e_width := 4096; e_height := 4096 |} 1.
Definition demo_vk (devices : nat -> Z) (missing : string) : VkDriver := {|
  vd_library := Ok tt; vd_global := fun n => bool_decide (n = "vkCreateInstance");
  vd_instance := fun n => negb (bool_decide (n = missing)); vd_device := fun _ => true;
  vd_result := fun _ => 0; vd_alloc := fun _ => true; vd_count := fun _ => 2; vd_devices := devices;
  vd_requirements := fun _ => (64, 7); vd_memory_types := [1; 6; 7]; vd_queue := fun _ => true;
  vd_properties := fun _ => demo_properties; vd_families := fun _ _ => [(7, 4)]; vd_supported := fun _ => true;
  vd_caps := fun _ => demo_caps; vd_format := fun _ _ => mkSurfaceFormat VK_FORMAT_B8G8R8A8_UNORM 0; vd_mode := fun _ i => 2 - i |}.
Definition demo_driver_vk : VkDriver := demo_vk (fun _ => 1) "".
Definition demo_words : list Z := [0x07230203].
Definition demo_size : Extent2D := {| e_width := 10; e_height := 10 |}.
Definition demo_build : option (gpu * result PresentError Engine) :=
  engine_build demo_driver_vk demo_words demo_words demo_words demo_words 7 9 demo_size gpu_start.

Lemma wf_start : wf gpu_start.
Proof. split; [done|]. cbn. intros x o Hx. by rewrite lookup_empty in Hx. Qed.

Lemma demo_vulkan_ok : vulkan_ok demo_driver_vk.
Proof. split; try reflexivity; intros k; vm_compute; intuition (discriminate || auto). Qed.

Lemma engine_build_balanced_witness : exists g1 e g3, demo_build = Some (g1, Ok e) /\ size (g_live g1) = 41%nat /\
  engine_drop demo_driver_vk e g1 = Some g3 /\ g_live g3 = ∅.
Proof.
  destruct (engine_build_balanced demo_driver_vk demo_vulkan_ok demo_words demo_words demo_words demo_words
    7 9 demo_size gpu_start wf_start eq_refl)
    as (g1 & r & Hb & Hr).
  fold demo_build in Hb. assert (match demo_build with Some (g, Ok _) => size (g_live g) = 41%nat | _ => False end) as Hs by (vm_compute; reflexivity).
  rewrite Hb in Hs. destruct r as [e|]; [|destruct Hs]. assert (g_pending g1 = false) as Hp.
  { assert (match demo_build with Some (g, _) => g_pending g = false | _ => False end) as Hq by (vm_compute; reflexivity). rewrite Hb in Hq. exact Hq. }
  specialize (Hr g1 eq_refl eq_refl). unfold can_wait in Hr. rewrite Hp in Hr. destruct Hr as (g3 & Hd & Hl). exists g1, e, g3.
  exact (conj Hb (conj Hs (conj Hd Hl))).
Defined.

(** On it recreation uses the images of the swapchain it has just destroyed. *)
Example recreate_uses_destroyed_swapchain :
  match demo_build with
  | Some (g, Ok e) => engine_recreate demo_driver_vk demo_words demo_words demo_words demo_words demo_size e g = None
  | _ => False
  end.
Proof. vm_compute. reflexivity. Qed.

(** The loader keeps the instance of a finished discovery as its active one:
    the next command is looked up through a dead handle. *)
Example second_discovery_uses_dead_instance :
  match load demo_driver_vk gpu_start with
  | Some (g, Ok library) =>
      match discover_physical_devices demo_driver_vk library g with
      | Some (g, Ok _) => discover_physical_devices demo_driver_vk library g = None
      | _ => False
      end
  | _ => False
  end.
Proof. vm_compute. reflexivity. Qed.

(** A device that goes away between the two calls leaves a null handle in the
    list, which is then described. *)
Example vanished_device_is_described :
  match load demo_driver_vk gpu_start with
  | Some (g, Ok library) => discover_physical_devices (demo_vk (fun k => if (k <=? 1)%nat then 2 else 1) "") library g = None
  | _ => False
  end.
Proof. vm_compute. reflexivity. Qed.

(** Without [vkGetPhysicalDeviceMemoryProperties] a buffer is left behind: a
    failed build destroys its device below a living buffer. *)
Example missing_command_leaks_buffer :
  let D := demo_vk (fun _ => 1) "vkGetPhysicalDeviceMemoryProperties" in
  engine_build D demo_words demo_words demo_words demo_words 7 9 demo_size gpu_start = None.
Proof. vm_compute. reflexivity. Qed.

(** The descriptor writes are those of the layouts. *)
Lemma writes_match_layouts a b c n :
  map (fun w => (ws_binding w, ws_type w)) (voxel_writes a b c n) = map (fun b => (dl_binding b, dl_descriptor_type b)) voxel_bindings /\
  map (fun w => (ws_binding w, ws_type w)) (ui_writes a n) = map (fun b => (dl_binding b, dl_descriptor_type b)) ui_bindings.
Proof. done. Qed.
