(* ===== verification/GpuPipeline.v ===== *)
(** The compute-culling pipeline: the backend-neutral plan of
    [subsystems/gpu_pipeline.rs] and its Vulkan recording
    ([platform/linux/gpu_pipeline.rs], over the command wrappers of
    [platform/linux/vulkan.rs]).

    A command buffer is the list of the commands recorded in it.  A wrapper
    records its command, or fails without recording anything; which commands
    the device exports is a parameter.  [hazard_free] is the rule of the Vulkan
    memory model that matters here: an indirect draw must not read bytes a
    compute shader wrote unless a barrier has made them visible to it. *)

From stdpp Require Import strings.
From S2P Require Import Prelude Present GpuUpload VulkanObjects F32.

Local Open Scope string_scope.
Local Open Scope list_scope.
Local Open Scope Z_scope.
Local Open Scope kit_scope.

(** ** The plan *)
Variant GpuPass := UploadInstances | CullFrustum | BuildIndirect | DrawIndirect | PresentPass.
Variant GpuAccess := HostWrite | ComputeRead | ComputeWrite | IndirectRead | ColorWrite | PresentRead.
Record GpuBarrier := mkGpuBarrier { before : GpuAccess; after : GpuAccess }.
Record GpuPipelinePlan := mkPipelinePlan { pp_culling : GpuCullingPlan; pp_passes : list GpuPass; pp_barriers : list GpuBarrier }.

Definition try_for_instances (instance_count workgroup_size max_instances : Z) : result GpuPreparationError GpuPipelinePlan :=
  let? culling := culling_plan_try_new instance_count workgroup_size max_instances in
  Ok (mkPipelinePlan culling [UploadInstances; CullFrustum; BuildIndirect; DrawIndirect; PresentPass]
    [mkGpuBarrier HostWrite ComputeRead; mkGpuBarrier ComputeWrite ComputeRead;
     mkGpuBarrier ComputeWrite IndirectRead; mkGpuBarrier ColorWrite PresentRead]).

(** What a pass does to the data it hands on. *)
Definition pass_writes (p : GpuPass) : list GpuAccess :=
  match p with
  | UploadInstances => [HostWrite] | CullFrustum | BuildIndirect => [ComputeWrite]
  | DrawIndirect => [ColorWrite] | PresentPass => []
  end.
Definition pass_reads (p : GpuPass) : list GpuAccess :=
  match p with
  | UploadInstances => [] | CullFrustum | BuildIndirect => [ComputeRead]
  | DrawIndirect => [IndirectRead] | PresentPass => [PresentRead]
  end.

(** A plan exists exactly within the limits; its dispatch covers the
    instances with less than one workgroup to spare, its buffers hold one
    visibility word and one command each, and between any two passes there is
    the barrier from what the first writes to what the second reads. *)
Theorem pipeline_plan_correct count size max : is_u 32 count -> is_u 32 size -> is_u 32 max ->
  match try_for_instances count size max with
  | Ok plan =>
      0 < size /\ count <= max /\
      let c := pp_culling plan in
      gc_workgroup_count c * size - size < count <= gc_workgroup_count c * size /\
      gc_visibility_bytes c = 4 * count /\ gc_indirect_bytes c = 20 * count /\
      forall i b, pp_barriers plan !! i = Some b ->
        exists p q, pp_passes plan !! i = Some p /\ pp_passes plan !! S i = Some q /\
        before b ∈ pass_writes p /\ after b ∈ pass_reads q
  | Err e => size = 0 \/ max < count \/ U32_MAX < count + (size - 1)
  end.
Proof.
  intros Hc Hs Hm. unfold try_for_instances, culling_plan_try_new, is_u in *.
  destruct (Z.eqb_spec size 0); cbn [orb]; [by left|]. destruct (Z.ltb_spec max count); [by right; left|].
  unfold checked_add. destruct (Z.leb_spec (count + (size - 1)) (umax 32)); cbn [ok_or]; [|right; right; unfold umax, U32_MAX in *; lia].
  unfold checked_mul. rewrite !(proj2 (Z.leb_le _ (umax 64))) by (unfold umax, VULKAN_INDEXED_INDIRECT_COMMAND_SIZE; lia).
  cbn -[Z.mul Z.add Z.div Z.sub VULKAN_INDEXED_INDIRECT_COMMAND_SIZE].
  pose proof (Z.div_mod (count + (size - 1)) size ltac:(lia)). pose proof (Z.mod_pos_bound (count + (size - 1)) size ltac:(lia)).
  unfold VULKAN_INDEXED_INDIRECT_COMMAND_SIZE. split; [lia|]. split; [lia|]. split; [nia|]. split; [lia|]. split; [lia|].
  intros i b. do 4 (destruct i as [|i]; [intros [= <-]; do 2 eexists; split; [done|]; split; [done|]; split; apply list_elem_of_singleton; reflexivity|]). done.
Qed.

(** ** Budgets *)
Record FrameBudget := mkFrameBudget { fb_target_fps : Z; fb_frame_ms : f32 }.

Definition for_fps (target_fps : Z) : option FrameBudget :=
  if target_fps =? 0 then None else Some (mkFrameBudget target_fps (fdiv (f32_of_Z 1000) (f32_of_Z target_fps))).
Definition budget_accepts (b : FrameBudget) (measured_frame_ms : f32) : bool :=
  is_finite measured_frame_ms && fle measured_frame_ms (fb_frame_ms b).

Record FrameTiming := mkFrameTiming { ft_cpu_prepare_ms : f32; ft_gpu_compute_ms : f32; ft_gpu_draw_ms : f32; ft_present_ms : f32 }.
Definition end_to_end_ms (t : FrameTiming) : f32 :=
  fadd (fadd (fadd (ft_cpu_prepare_ms t) (ft_gpu_compute_ms t)) (ft_gpu_draw_ms t)) (ft_present_ms t).
Definition timing_fps (t : FrameTiming) : option f32 :=
  let frame_ms := end_to_end_ms t in
  if is_finite frame_ms && fgt frame_ms f32_zero then Some (fdiv (f32_of_Z 1000) frame_ms) else None.

(** A frame no slower than an accepted one is accepted. *)
Lemma budget_monotone b x y : budget_accepts b y = true -> is_finite x = true -> fle x y = true -> budget_accepts b x = true.
Proof.
  unfold budget_accepts. intros [_ Hy]%andb_true_iff Hx Hxy. rewrite Hx. cbn [andb]. by eapply fle_trans.
Qed.

Example sixty_and_one_twenty :
  match for_fps 60, for_fps 120 with
  | Some sixty, Some one_twenty => budget_accepts sixty (f32_of_Z 16) = true /\ budget_accepts one_twenty (f32_of_Z 9) = false
  | _, _ => False
  end.
Proof. vm_compute. done. Qed.
Example ten_milliseconds : timing_fps (mkFrameTiming (f32_of_Z 2) (f32_of_Z 3) (f32_of_Z 5) f32_zero) = Some (f32_of_Z 100).
Proof. vm_compute. done. Qed.

(** ** Command recording *)
Variant VkCommand :=
| CBindPipeline (point pipeline : Z)
| CDispatch (groups : Z * Z * Z)
| CBufferBarrier (buffer offset size src_stage dst_stage src_access dst_access : Z)
| CDrawIndexedIndirect (indirect offset draw_count stride : Z)
| CBindVertexBuffer (buffer offset : Z)
| CDraw (vertex_count instance_count first_vertex first_instance : Z)
| CCopyBuffer (source destination source_offset destination_offset size : Z).

(** Recording appends to the commands so far. *)
Definition Recorder (E A : Type) : Type := list VkCommand -> list VkCommand * result E A.
Definition rec_then {E A B} (m : Recorder E A) (k : Recorder E B) : Recorder E B := fun cs =>
  match m cs with (cs, Ok _) => k cs | (cs, Err e) => (cs, Err e) end.
Notation "'rec!' m 'in' k" := (rec_then m k) (at level 200, m at level 100, k at level 200, right associativity) : kit_scope.

Section Wrappers.
(** [exports]: whether [vkGetDeviceProcAddr] finds a command; [loads]: whether
    the instance's or the global lookup does. *)
Context (exports loads : string -> bool).

Definition emit (found : bool) (bad : bool) (c : VkCommand) : Recorder VulkanLoaderError unit := fun cs =>
  if bad then (cs, Err VulkanLoaderError.InvalidQueuePlan)
  else if found then (cs ++ [c], Ok tt) else (cs, Err VulkanLoaderError.MissingCommand).

Definition contains_zero (groups : Z * Z * Z) : bool :=
  let '(x, y, z) := groups in (x =? 0) || (y =? 0) || (z =? 0).

Definition cmd_dispatch (buffer : Z) (groups : Z * Z * Z) : Recorder VulkanLoaderError unit :=
  emit (loads "vkCmdDispatch") ((buffer =? 0) || contains_zero groups) (CDispatch groups).
Definition cmd_dispatch_device (device buffer : Z) (groups : Z * Z * Z) : Recorder VulkanLoaderError unit :=
  emit (exports "vkCmdDispatch") ((device =? 0) || (buffer =? 0) || contains_zero groups) (CDispatch groups).
Definition cmd_bind_pipeline_device (device buffer bind_point pipeline : Z) : Recorder VulkanLoaderError unit :=
  emit (exports "vkCmdBindPipeline") ((device =? 0) || (buffer =? 0) || (pipeline =? 0) || (1 <? bind_point))
    (CBindPipeline bind_point pipeline).
Definition cmd_draw_indexed_indirect (buffer indirect offset draw_count stride : Z) : Recorder VulkanLoaderError unit :=
  emit (loads "vkCmdDrawIndexedIndirect") ((buffer =? 0) || (indirect =? 0) || (draw_count =? 0) || (stride =? 0))
    (CDrawIndexedIndirect indirect offset draw_count stride).
Definition cmd_draw_indexed_indirect_device (device buffer indirect offset draw_count stride : Z) : Recorder VulkanLoaderError unit :=
  emit (exports "vkCmdDrawIndexedIndirect")
    ((device =? 0) || (buffer =? 0) || (indirect =? 0) || (draw_count =? 0) || (stride =? 0))
    (CDrawIndexedIndirect indirect offset draw_count stride).
Definition cmd_bind_vertex_buffer_device (device command buffer offset : Z) : Recorder VulkanLoaderError unit :=
  emit (exports "vkCmdBindVertexBuffers") ((device =? 0) || (command =? 0) || (buffer =? 0)) (CBindVertexBuffer buffer offset).
Definition cmd_draw_device (device command vertex_count instance_count first_vertex first_instance : Z) :
    Recorder VulkanLoaderError unit :=
  emit (exports "vkCmdDraw") ((device =? 0) || (command =? 0) || (vertex_count =? 0) || (instance_count =? 0))
    (CDraw vertex_count instance_count first_vertex first_instance).
Definition cmd_copy_buffer_device (device command source destination source_offset destination_offset size : Z) :
    Recorder VulkanLoaderError unit := fun cs =>
  if (device =? 0) || (command =? 0) || (source =? 0) || (destination =? 0) || (size =? 0)
  then (cs, Err VulkanLoaderError.InvalidQueuePlan)
  else
    match checked_add 64 source_offset size, checked_add 64 destination_offset size with
    | Some source_end, Some destination_end =>
        emit (exports "vkCmdCopyBuffer") ((source_end <? source_offset) || (destination_end <? destination_offset))
          (CCopyBuffer source destination source_offset destination_offset size) cs
    | _, _ => (cs, Err VulkanLoaderError.InvalidQueuePlan)
    end.
Definition cmd_buffer_barrier_device (device command buffer offset size src_stage dst_stage src_access dst_access : Z) :
    Recorder VulkanLoaderError unit :=
  emit (exports "vkCmdPipelineBarrier")
    ((device =? 0) || (command =? 0) || (buffer =? 0) || (size =? 0) || (src_stage =? 0) || (dst_stage =? 0) ||
     match checked_add 64 offset size with Some _ => false | None => true end)
    (CBufferBarrier buffer offset size src_stage dst_stage src_access dst_access).

Definition VK_PIPELINE_BIND_POINT_GRAPHICS : Z := 0.
Definition VK_PIPELINE_BIND_POINT_COMPUTE : Z := 1.
Definition VK_PIPELINE_STAGE_COMPUTE_SHADER : Z := 2048.
Definition VK_PIPELINE_STAGE_DRAW_INDIRECT : Z := 2.
Definition VK_ACCESS_SHADER_WRITE : Z := 64.
Definition VK_ACCESS_SHADER_READ : Z := 32.
Definition VK_ACCESS_INDIRECT_COMMAND_READ : Z := 2.

Definition record_cull_and_indirect_draw
    (device command compute_pipeline graphics_pipeline visibility_buffer visibility_size indirect_buffer indirect_size : Z)
    (workgroups : Z * Z * Z) (draw_count indirect_stride : Z) : Recorder VulkanLoaderError unit := fun cs =>
  if (visibility_buffer =? 0) || (indirect_buffer =? 0) || (visibility_size =? 0) || (indirect_size =? 0) || (draw_count =? 0)
  then (cs, Err VulkanLoaderError.InvalidQueuePlan)
  else
    (rec! cmd_bind_pipeline_device device command VK_PIPELINE_BIND_POINT_COMPUTE compute_pipeline in
     rec! cmd_dispatch_device device command workgroups in
     rec! cmd_buffer_barrier_device device command visibility_buffer 0 visibility_size
       VK_PIPELINE_STAGE_COMPUTE_SHADER VK_PIPELINE_STAGE_COMPUTE_SHADER VK_ACCESS_SHADER_WRITE VK_ACCESS_SHADER_READ in
     rec! cmd_buffer_barrier_device device command indirect_buffer 0 indirect_size
       VK_PIPELINE_STAGE_COMPUTE_SHADER VK_PIPELINE_STAGE_DRAW_INDIRECT VK_ACCESS_SHADER_WRITE VK_ACCESS_INDIRECT_COMMAND_READ in
     rec! cmd_bind_pipeline_device device command VK_PIPELINE_BIND_POINT_GRAPHICS graphics_pipeline in
     cmd_draw_indexed_indirect_device device command indirect_buffer 0 draw_count indirect_stride) cs.
End Wrappers.

(** ** Hazards

    [pending b i]: a compute shader may have written byte [i] of buffer [b]
    and no barrier since has made that visible to indirect draws.  A dispatch
    writes what its shader writes ([written]); a barrier from shader writes of
    the compute stage to indirect reads clears its range; an indirect draw
    reads the command structures it is given and needs a graphics pipeline, a
    dispatch a compute pipeline. *)
Record hazard_state := mkHazard { hz_compute : bool; hz_graphics : bool; hz_pending : Z -> Z -> bool }.

Definition makes_visible (src_stage dst_stage src_access dst_access : Z) : bool :=
  negb (Z.land src_stage VK_PIPELINE_STAGE_COMPUTE_SHADER =? 0) && negb (Z.land src_access VK_ACCESS_SHADER_WRITE =? 0) &&
  negb (Z.land dst_stage VK_PIPELINE_STAGE_DRAW_INDIRECT =? 0) && negb (Z.land dst_access VK_ACCESS_INDIRECT_COMMAND_READ =? 0).

Definition hazard_step (written : Z -> Z -> bool) (c : VkCommand) (s : hazard_state) : hazard_state :=
  match c with
  | CBindPipeline point _ =>
      mkHazard ((point =? VK_PIPELINE_BIND_POINT_COMPUTE) || hz_compute s)
        ((point =? VK_PIPELINE_BIND_POINT_GRAPHICS) || hz_graphics s) (hz_pending s)
  | CDispatch _ => mkHazard (hz_compute s) (hz_graphics s) (fun b i => written b i || hz_pending s b i)
  | CBufferBarrier buffer offset size ss ds sa da =>
      mkHazard (hz_compute s) (hz_graphics s)
        (fun b i => hz_pending s b i && negb (makes_visible ss ds sa da && (b =? buffer) && (offset <=? i) && (i <? offset + size)))
  | _ => s
  end.

Definition hazard_ok (c : VkCommand) (s : hazard_state) : Prop :=
  match c with
  | CDispatch _ => hz_compute s = true
  | CDrawIndexedIndirect b offset count stride =>
      hz_graphics s = true /\ forall i, offset <= i < offset + (count - 1) * stride + 20 -> hz_pending s b i = false
  | _ => True
  end.

Fixpoint hazard_free (written : Z -> Z -> bool) (cs : list VkCommand) (s : hazard_state) : Prop :=
  match cs with
  | [] => True
  | c :: cs => hazard_ok c s /\ hazard_free written cs (hazard_step written c s)
  end.

Definition is_draw (c : VkCommand) : bool :=
  match c with CDrawIndexedIndirect _ _ _ _ | CDraw _ _ _ _ => true | _ => false end.

(** A recorder that appends one of the prefixes of [full], all of it exactly
    on success. *)
Definition appends {E A} (full : list VkCommand) (m : Recorder E A) : Prop := forall cs,
  exists k, (m cs).1 = cs ++ take k full /\ (is_ok (m cs).2 = true <-> (length full <= k)%nat).

Lemma appends_emit found bad c : appends [c] (emit found bad c).
Proof.
  intros cs. unfold emit. destruct bad; [|destruct found]; cbn [fst snd is_ok].
  1, 3: exists 0%nat; cbn; rewrite app_nil_r; split; [done|split; [done|lia]].
  exists 1%nat. cbn. done.
Qed.

Lemma appends_then {E A B} f1 f2 (m : Recorder E A) (k : Recorder E B) : appends f1 m -> appends f2 k -> appends (f1 ++ f2) (rec_then m k).
Proof.
  intros Hm Hk cs. unfold rec_then. destruct (Hm cs) as (i & Hc & Hi). destruct (m cs) as [cs1 [a|e]]; cbn [fst snd is_ok] in *.
  - destruct (Hk cs1) as (j & Hc' & Hj). exists (length f1 + j)%nat. destruct (k cs1) as [cs2 r]. cbn [fst snd] in *.
    split.
    + rewrite Hc', Hc, take_app_add. rewrite take_ge by (by apply Hi). by rewrite (assoc_L (++)).
    + rewrite Hj, length_app. lia.
  - assert (~ (length f1 <= i)%nat) as Hlt by (by rewrite <- Hi). exists i. split; [by rewrite Hc, take_app_le by lia|].
    rewrite length_app. split; [done|lia].
Qed.

Section Recorded.
Context (exports : string -> bool).
Context (device command compute_pipeline graphics_pipeline visibility_buffer visibility_size indirect_buffer indirect_size : Z).
Context (workgroups : Z * Z * Z) (draw_count indirect_stride : Z).

Abbreviation record := (record_cull_and_indirect_draw exports device command compute_pipeline graphics_pipeline
  visibility_buffer visibility_size indirect_buffer indirect_size workgroups draw_count indirect_stride).

Definition cull_commands : list VkCommand :=
  [CBindPipeline VK_PIPELINE_BIND_POINT_COMPUTE compute_pipeline; CDispatch workgroups;
   CBufferBarrier visibility_buffer 0 visibility_size VK_PIPELINE_STAGE_COMPUTE_SHADER VK_PIPELINE_STAGE_COMPUTE_SHADER
     VK_ACCESS_SHADER_WRITE VK_ACCESS_SHADER_READ;
   CBufferBarrier indirect_buffer 0 indirect_size VK_PIPELINE_STAGE_COMPUTE_SHADER VK_PIPELINE_STAGE_DRAW_INDIRECT
     VK_ACCESS_SHADER_WRITE VK_ACCESS_INDIRECT_COMMAND_READ;
   CBindPipeline VK_PIPELINE_BIND_POINT_GRAPHICS graphics_pipeline; CDrawIndexedIndirect indirect_buffer 0 draw_count indirect_stride].

Lemma record_appends : appends cull_commands record.
Proof.
  intros cs. unfold record_cull_and_indirect_draw. destruct (_ || _).
  - exists 0%nat. cbn. rewrite app_nil_r. split; [done|split; [done|lia]].
  - revert cs. apply (appends_then [_] _); [apply appends_emit|]. apply (appends_then [_] _); [apply appends_emit|].
    apply (appends_then [_] _); [apply appends_emit|]. apply (appends_then [_] _); [apply appends_emit|].
    apply (appends_then [_] _); apply appends_emit.
Qed.

(** Every prefix is free of hazards, whatever was pending before. *)
Lemma prefix_hazard_free written s k :
  (draw_count - 1) * indirect_stride + 20 <= indirect_size -> hazard_free written (take k cull_commands) s.
Proof.
  intros Hfit. do 6 (destruct k as [|k]; [cbn; tauto|]). cbn -[Z.mul Z.add Z.sub Z.leb Z.ltb]. rewrite take_nil. split_and!; try done.
  intros i Hi. rewrite Z.eqb_refl. rewrite (proj2 (Z.leb_le 0 i)), (proj2 (Z.ltb_lt i (0 + indirect_size))) by lia.
  by rewrite andb_false_r.
Qed.

(** Recording the culling pass: whatever the device exports and whatever the
    arguments, the command buffer only ever receives a hazard-free prefix of
    the six commands - in particular no draw unless all that makes it legal
    precedes it - and all six exactly on success, if the draw stays within the
    indirect range. *)
Theorem cull_recording_hazard_free written s cs : (draw_count - 1) * indirect_stride + 20 <= indirect_size ->
  exists recorded, (record cs).1 = cs ++ recorded /\ hazard_free written recorded s /\
  match (record cs).2 with
  | Ok _ => recorded = cull_commands
  | Err _ => forallb (fun c => negb (is_draw c)) recorded = true
  end.
Proof.
  intros Hfit. destruct (record_appends cs) as (k & Hr & Hk). exists (take k cull_commands).
  split; [done|]. split; [by apply prefix_hazard_free|]. destruct (record cs).2; cbn [is_ok] in Hk.
  - by apply take_ge, Hk.
  - assert ((k < 6)%nat) as Hlt by (destruct (le_lt_dec 6 k) as [Hle|]; [by apply Hk in Hle|done]).
    do 6 (destruct k as [|k]; [done|]). lia.
Qed.
End Recorded.

(** The draw is not checked against the range of the barrier: with the wrong
    count it reads commands the barrier has not covered. *)
Example draw_beyond_the_barrier :
  let written (b i : Z) := b =? 8 in
  let '(cs, r) := record_cull_and_indirect_draw (fun _ => true) 1 2 3 4 7 64 8 20 (1, 1, 1) 2 20 [] in
  r = Ok tt /\ ~ hazard_free written cs (mkHazard false false (fun _ _ => false)).
Proof.
  split; [reflexivity|]. intros (_ & _ & _ & _ & _ & [_ Hp] & _). specialize (Hp 20). cbn in Hp. discriminate Hp. lia.
Qed.

Lemma cull_recording_hazard_free_witness :
  let written (b i : Z) := (b =? 7) || (b =? 8) in
  exists recorded, (record_cull_and_indirect_draw (fun _ => true) 1 2 3 4 7 64 8 40 (1, 1, 1) 2 20 []).1 = [] ++ recorded /\
  hazard_free written recorded (mkHazard false false (fun _ _ => false)) /\ length recorded = 6%nat.
Proof.
  intros written.
  destruct (cull_recording_hazard_free (fun _ => true) 1 2 3 4 7 64 8 40 (1, 1, 1) 2 20 written (mkHazard false false (fun _ _ => false)) [])
    as (recorded & Hr & Hh & Hm); [lia|]. exists recorded. split; [exact Hr|]. split; [exact Hh|].
  cbn in Hm. by rewrite Hm.
Defined.
