(* ===== verification/Topology.v ===== *)
(** CPU topology: the [cpulist] parser and the NUMA table of
    [platform/linux/cpu.rs], and the affinity mask of
    [platform/linux/threading.rs].

    A [str] is its list of code points.  What [/sys] holds is a parameter: the
    directory entries with the text of their [cpulist] files.

    Theorems: the text the kernel prints for any ranges expands to exactly the
    CPUs of the ranges, sorted and without repetition, and every accepted text
    expands to such a list; lookups in a table of disjoint nodes invert it;
    the mask has exactly the bits of the CPUs below 1024. *)

From Stdlib Require Import Sorted.
From stdpp Require Import sorting.
From S2P Require Import Prelude.

Local Open Scope Z_scope.
Local Open Scope kit_scope.

(** ** Strings *)
Definition is_whitespace (c : Z) : bool :=
  ((9 <=? c) && (c <=? 13)) || (c =? 32) || (c =? 0x85) || (c =? 0xA0) || (c =? 0x1680) ||
  ((0x2000 <=? c) && (c <=? 0x200A)) || (c =? 0x2028) || (c =? 0x2029) || (c =? 0x202F) || (c =? 0x205F) || (c =? 0x3000).

Fixpoint trim_start (s : list Z) : list Z :=
  match s with [] => [] | c :: s' => if is_whitespace c then trim_start s' else s end.
Definition trim (s : list Z) : list Z := rev (trim_start (rev (trim_start s))).

Fixpoint split_on (c : Z) (s : list Z) : list (list Z) :=
  match s with
  | [] => [[]]
  | x :: s =>
      if x =? c then [] :: split_on c s
      else match split_on c s with p :: ps => (x :: p) :: ps | [] => [[x]] end
  end.

Fixpoint split_once (c : Z) (s : list Z) : option (list Z * list Z) :=
  match s with
  | [] => None
  | x :: s => if x =? c then Some ([], s) else '(a, b) ← split_once c s; Some (x :: a, b)
  end.

(** [str::parse::<usize>]: an optional plus sign and at least one digit. *)
Definition push_digit (acc c : Z) : option Z :=
  if (48 <=? c) && (c <=? 57) then ten ← checked_mul 64 acc 10; checked_add 64 ten (c - 48) else None.
Fixpoint parse_digits (acc : Z) (s : list Z) : option Z :=
  match s with [] => Some acc | c :: s => acc ← push_digit acc c; parse_digits acc s end.
Definition parse_usize (s : list Z) : option Z :=
  let s := match s with c :: s' => if c =? 43 then s' else s | [] => s end in
  match s with [] => None | _ => parse_digits 0 s end.

(** ** [try_expand_cpulist] *)
Module CpuTopologyError.
Inductive CpuTopologyError := AllocationFailed | RangeTooLarge.
End CpuTopologyError.
Abbreviation CpuTopologyError := CpuTopologyError.CpuTopologyError.

Definition MAX_CPUS_PER_LIST : Z := 2 ^ 20.

Definition comma : Z := 44.
Definition hyphen : Z := 45.

(** One part of the list; the CPUs it adds. *)
Definition expand_part (room : bool) (part : list Z) : result CpuTopologyError (list Z) :=
  let part := trim part in
  match part with
  | [] => Ok []
  | _ =>
      match split_once hyphen part with
      | Some (lo, hi) =>
          let lo := default 0 (parse_usize (trim lo)) in
          let hi := default lo (parse_usize (trim hi)) in
          if (hi <? lo) || (MAX_CPUS_PER_LIST <=? hi - lo) then Err CpuTopologyError.RangeTooLarge
          else if room then Ok (seqZ lo (hi - lo + 1)) else Err CpuTopologyError.AllocationFailed
      | None =>
          match parse_usize part with
          | Some cpu => if room then Ok [cpu] else Err CpuTopologyError.AllocationFailed
          | None => Ok []
          end
      end
  end.

Fixpoint expand_parts (A : alloc) (parts : list (list Z)) (out : list Z) : result CpuTopologyError (list Z) :=
  match parts with
  | [] => Ok out
  | part :: parts =>
      let? cpus := expand_part (A 0%nat) part in
      expand_parts (fun k => A (S k)) parts (out ++ cpus)
  end.

(** [Vec::dedup]. *)
Fixpoint dedup (l : list Z) : list Z :=
  match l with
  | [] => []
  | x :: l' => match l' with y :: _ => if x =? y then dedup l' else x :: dedup l' | [] => [x] end
  end.

Definition try_expand_cpulist (A : alloc) (spec : list Z) : result CpuTopologyError (list Z) :=
  let? out := expand_parts A (split_on comma spec) [] in
  Ok (dedup (merge_sort Z.le out)).

Definition expand_cpulist (A : alloc) (spec : list Z) : option (list Z) :=
  match try_expand_cpulist A spec with Ok l => Some l | Err _ => None end.

(** ** [NumaTopology] *)
Definition node_prefix : list Z := [110; 111; 100; 101].

Fixpoint starts_with (p s : list Z) : bool :=
  match p, s with
  | [], _ => true
  | x :: p, y :: s => (x =? y) && starts_with p s
  | _, [] => false
  end.

(** One directory entry: its name, the text of its [cpulist] file if it can be
    read, and the allocations of the parser.  [grows]: whether [resize] gets
    its memory; [None] is its panic, or the overflow of [id + 1]. *)
Record sys_entry := mkEntry { en_name : list Z; en_cpulist : option (list Z); en_alloc : alloc; en_grows : bool }.

Definition discover_step (entry : sys_entry) (nodes : list (option (list Z))) (found_any : bool) :
    option (list (option (list Z)) * bool) :=
  if negb (starts_with node_prefix (en_name entry)) then Some (nodes, found_any)
  else
    match parse_usize (drop 4 (en_name entry)) with
    | None => Some (nodes, found_any)
    | Some id =>
        nodes ← (if zlen nodes <=? id then
                   next ← checked_add 64 id 1; if en_grows entry then Some (resize next None nodes) else None
                 else Some nodes);
        let cpulist := default [] (en_cpulist entry) in
        let cpus := match try_expand_cpulist (en_alloc entry) cpulist with Ok l => l | Err _ => [] end in
        Some (zset nodes id (Some cpus), true)
    end.

Fixpoint discover_loop (entries : list sys_entry) (nodes : list (option (list Z))) (found_any : bool) :
    option (list (option (list Z)) * bool) :=
  match entries with
  | [] => Some (nodes, found_any)
  | e :: entries => '(nodes, found_any) ← discover_step e nodes found_any; discover_loop entries nodes found_any
  end.

Definition discover (entries : option (list sys_entry)) : option (list (option (list Z))) :=
  '(nodes, found_any) ← discover_loop (default [] entries) [] false;
  Some (if found_any : bool then nodes else [Some [0]]).

Definition node_count (nodes : list (option (list Z))) : Z := zlen nodes.
Definition cpus_of (nodes : list (option (list Z))) (node : Z) : option (list Z) := n ← nodes !z node; n.

Fixpoint node_from (nodes : list (option (list Z))) (n cpu : Z) : option Z :=
  match nodes with
  | [] => None
  | Some cpus :: nodes => if bool_decide (cpu ∈ cpus) then Some n else node_from nodes (n + 1) cpu
  | None :: nodes => node_from nodes (n + 1) cpu
  end.
Definition node_for_cpu (nodes : list (option (list Z))) (cpu : Z) : option Z := node_from nodes 0 cpu.

(** ** [set_thread_affinity]: the mask handed to the kernel *)
Definition CPU_SET_SIZE : Z := 128.

Fixpoint affinity_mask (mask : list Z) (cpus : list Z) : option (list Z) :=
  match cpus with
  | [] => Some mask
  | cpu :: cpus =>
      if cpu <? CPU_SET_SIZE * 8 then
        b ← mask !z (cpu / 8);
        affinity_mask (zset mask (cpu / 8) (Z.lor b (Z.shiftl 1 (cpu mod 8)))) cpus
      else affinity_mask mask cpus
  end.
Definition set_thread_affinity (cpus : list Z) : option (list Z) :=
  affinity_mask (replicate (Z.to_nat CPU_SET_SIZE) 0) cpus.

(** ** Printing, as the kernel does *)
Fixpoint decimal (fuel : nat) (n : Z) : list Z :=
  match fuel with
  | O => []
  | S fuel => (if n <? 10 then [] else decimal fuel (n / 10)) ++ [48 + n mod 10]
  end.
(** Twenty digits are enough for a [usize]. *)
Definition print_usize (n : Z) : list Z := decimal 20 n.
Definition print_range (r : Z * Z) : list Z :=
  if r.1 =? r.2 then print_usize r.1 else print_usize r.1 ++ hyphen :: print_usize r.2.
(** [%*pbl] and a newline. *)
Fixpoint print_cpulist (rs : list (Z * Z)) : list Z :=
  match rs with
  | [] => [10]
  | [r] => print_range r ++ [10]
  | r :: rs => print_range r ++ comma :: print_cpulist rs
  end.

Definition is_digit (c : Z) : Prop := 48 <= c <= 57.

Lemma decimal_digits fuel n : 0 <= n -> Forall is_digit (decimal fuel n).
Proof.
  revert n. induction fuel as [|fuel IH]; intros n Hn; cbn [decimal]; [constructor|]. apply Forall_app. split.
  - destruct (Z.ltb_spec n 10); [constructor|]. apply IH. apply Z.div_pos; lia.
  - apply Forall_singleton. unfold is_digit. pose proof (Z.mod_pos_bound n 10). lia.
Qed.

Lemma decimal_nonempty fuel n : decimal (S fuel) n <> [].
Proof. cbn [decimal]. intros [_ Hd]%app_eq_nil. discriminate Hd. Qed.

Lemma parse_digits_snoc s c : forall acc, parse_digits acc (s ++ [c]) = a ← parse_digits acc s; push_digit a c.
Proof.
  induction s as [|d s IH]; intros acc; cbn [app parse_digits].
  - cbn [mbind option_bind]. destruct (push_digit acc c); done.
  - destruct (push_digit acc d); cbn [mbind option_bind]; [apply IH|done].
Qed.

Lemma push_digit_ok a d : 0 <= a -> 0 <= d <= 9 -> a * 10 + d <= U64_MAX -> push_digit a (48 + d) = Some (a * 10 + d).
Proof.
  intros Ha Hd Hm. unfold push_digit, checked_mul, checked_add, U64_MAX, umax in *.
  rewrite (proj2 (Z.leb_le 48 (48 + d))), (proj2 (Z.leb_le (48 + d) 57)) by lia. cbn [andb].
  rewrite (proj2 (Z.leb_le (a * 10) _)) by lia. cbn [mbind option_bind].
  replace (48 + d - 48) with d by lia. by rewrite (proj2 (Z.leb_le (a * 10 + d) _)) by lia.
Qed.

Lemma parse_decimal fuel : forall n, 0 <= n <= U64_MAX -> n < 10 ^ Z.of_nat (S fuel) -> parse_digits 0 (decimal (S fuel) n) = Some n.
Proof.
  induction fuel as [|fuel IH]; intros n Hn Hlt; change (decimal (S ?f) n) with ((if n <? 10 then [] else decimal f (n / 10)) ++ [48 + n mod 10]);
    rewrite parse_digits_snoc; pose proof (Z.div_mod n 10 ltac:(lia)) as Hdm; pose proof (Z.mod_pos_bound n 10 ltac:(lia)).
  - rewrite (proj2 (Z.ltb_lt n 10)) by lia. cbn [parse_digits mbind option_bind]. rewrite push_digit_ok by (try rewrite Z.mod_small by lia; lia).
    by rewrite Z.mod_small by lia.
  - destruct (Z.ltb_spec n 10).
    + cbn [parse_digits mbind option_bind]. rewrite push_digit_ok by lia. by rewrite Z.mod_small by lia.
    + rewrite IH; [|lia|].
      * cbn [mbind option_bind]. rewrite push_digit_ok by lia. f_equal. lia.
      * apply Z.div_lt_upper_bound; [lia|]. rewrite Nat2Z.inj_succ, Z.pow_succ_r in Hlt by lia. lia.
Qed.

Lemma print_digits n : 0 <= n -> Forall is_digit (print_usize n).
Proof. apply decimal_digits. Qed.
Lemma print_nonempty n : print_usize n <> [].
Proof. apply decimal_nonempty. Qed.

Lemma parse_print n : is_u 64 n -> parse_usize (print_usize n) = Some n.
Proof.
  intros Hn. pose proof (print_nonempty n) as Hne. pose proof (print_digits n ltac:(unfold is_u in Hn; lia)) as Hd.
  assert (parse_digits 0 (print_usize n) = Some n) as Hp
    by (apply parse_decimal; unfold is_u, U64_MAX in *; [lia|cbn; lia]).
  unfold parse_usize. destruct (print_usize n) as [|c s]; [done|]. apply Forall_cons_1 in Hd as [Hc _]. unfold is_digit in Hc.
  by rewrite (proj2 (Z.eqb_neq c 43)) by lia.
Qed.

(** *** Trimming and splitting *)
Lemma trim_start_all s : Forall (fun c => is_whitespace c = true) s -> trim_start s = [].
Proof. induction 1 as [|c s Hc _ IH]; cbn [trim_start]; [done|by rewrite Hc]. Qed.
Lemma trim_start_app s t : Forall (fun c => is_whitespace c = true) s -> trim_start (s ++ t) = trim_start t.
Proof. induction 1 as [|c s Hc _ IH]; cbn [app trim_start]; [done|by rewrite Hc]. Qed.
Lemma trim_start_visible s : Forall (fun c => is_whitespace c = false) s -> trim_start s = s.
Proof. destruct 1 as [|c s Hc _]; cbn [trim_start]; [done|by rewrite Hc]. Qed.

Lemma trim_visible s t : Forall (fun c => is_whitespace c = false) s -> Forall (fun c => is_whitespace c = true) t -> trim (s ++ t) = s.
Proof.
  intros Hs Ht. unfold trim. destruct s as [|c s]; cbn [app].
  - by rewrite (trim_start_all t Ht).
  - cbn [trim_start]. rewrite (proj1 (Forall_cons_1 _ _ _ Hs)).
    change (c :: s ++ t) with ((c :: s) ++ t). rewrite rev_app_distr, trim_start_app, trim_start_visible, rev_involutive; [done| |].
    + apply Forall_forall. intros x Hx. rewrite Forall_forall in Hs. apply Hs. by apply in_rev.
    + apply Forall_forall. intros x Hx. rewrite Forall_forall in Ht. apply Ht. by apply in_rev.
Qed.

Lemma split_on_none c p : c ∉ p -> split_on c p = [p].
Proof.
  induction p as [|x p IH]; intros Hc; cbn [split_on]; [done|]. apply not_elem_of_cons in Hc as [Hx Hc].
  rewrite (proj2 (Z.eqb_neq x c)) by congruence. by rewrite IH.
Qed.
Lemma split_on_app c p s : c ∉ p -> split_on c (p ++ c :: s) = p :: split_on c s.
Proof.
  induction p as [|x p IH]; intros Hc; cbn [app split_on]; [by rewrite Z.eqb_refl|]. apply not_elem_of_cons in Hc as [Hx Hc].
  rewrite (proj2 (Z.eqb_neq x c)) by congruence. by rewrite IH.
Qed.
Lemma split_once_none c p : c ∉ p -> split_once c p = None.
Proof.
  induction p as [|x p IH]; intros Hc; cbn [split_once]; [done|]. apply not_elem_of_cons in Hc as [Hx Hc].
  rewrite (proj2 (Z.eqb_neq x c)) by congruence. by rewrite IH.
Qed.
Lemma split_once_app c p s : c ∉ p -> split_once c (p ++ c :: s) = Some (p, s).
Proof.
  induction p as [|x p IH]; intros Hc; cbn [app split_once]; [by rewrite Z.eqb_refl|]. apply not_elem_of_cons in Hc as [Hx Hc].
  rewrite (proj2 (Z.eqb_neq x c)) by congruence. by rewrite IH.
Qed.

Lemma digits_avoid s c : Forall is_digit s -> ~ is_digit c -> c ∉ s.
Proof. intros Hs Hc Hin. rewrite Forall_forall in Hs. by apply Hc, Hs, list_elem_of_In. Qed.
Lemma digit_visible c : is_digit c -> is_whitespace c = false.
Proof. unfold is_digit, is_whitespace. lia. Qed.

(** ** The parser *)
Lemma print_range_visible r : 0 <= r.1 -> 0 <= r.2 -> Forall (fun c => is_whitespace c = false) (print_range r).
Proof.
  intros H1 H2. assert (forall n, 0 <= n -> Forall (fun c => is_whitespace c = false) (print_usize n)) as Hp.
  { intros n Hn. eapply list.Forall_impl; [by apply print_digits|]. apply digit_visible. }
  unfold print_range. destruct (_ =? _); [by apply Hp|]. apply Forall_app. split; [by apply Hp|]. constructor; [done|by apply Hp].
Qed.

Lemma print_range_no_comma r : 0 <= r.1 -> 0 <= r.2 -> comma ∉ print_range r.
Proof.
  intros H1 H2. assert (forall n, 0 <= n -> comma ∉ print_usize n) as Hp.
  { intros n Hn. eapply digits_avoid; [by apply print_digits|]. unfold is_digit, comma. lia. }
  unfold print_range. destruct (_ =? _); [by apply Hp|]. rewrite not_elem_of_app, not_elem_of_cons. split_and!; [by apply Hp|done|by apply Hp].
Qed.

(** A range the parser takes. *)
Definition range_ok (r : Z * Z) : Prop := 0 <= r.1 <= r.2 /\ r.2 <= U64_MAX /\ r.2 - r.1 < MAX_CPUS_PER_LIST.
Definition range_cpus (r : Z * Z) : list Z := seqZ r.1 (r.2 - r.1 + 1).

Lemma expand_printed r t : range_ok r -> Forall (fun c => is_whitespace c = true) t ->
  expand_part true (print_range r ++ t) = Ok (range_cpus r).
Proof.
  intros (Hr & Hm & Hw) Ht. unfold expand_part. rewrite trim_visible by (done || apply print_range_visible; lia).
  assert (forall n, 0 <= n <= U64_MAX -> parse_usize (print_usize n) = Some n) as Hp
    by (intros n Hn; apply parse_print; unfold is_u, U64_MAX in *; lia).
  assert (forall n, 0 <= n -> trim (print_usize n) = print_usize n) as Htr.
  { intros n Hn. rewrite <- (app_nil_r (print_usize n)) at 1. apply trim_visible; [|constructor].
    eapply list.Forall_impl; [by apply print_digits|]. apply digit_visible. }
  assert (forall n, 0 <= n -> hyphen ∉ print_usize n) as Hh.
  { intros n Hn. eapply digits_avoid; [by apply print_digits|]. unfold is_digit, hyphen. lia. }
  unfold print_range, range_cpus. destruct (Z.eqb_spec r.1 r.2) as [He|Hne].
  - pose proof (print_nonempty r.1). destruct (print_usize r.1) as [|c s] eqn:Hs; [done|]. rewrite <- Hs.
    rewrite split_once_none by (apply Hh; lia). rewrite Hp by lia. rewrite <- He. by replace (r.1 - r.1 + 1) with 1 by lia.
  - destruct (print_usize r.1 ++ hyphen :: print_usize r.2) as [|c s] eqn:Hs; [by apply app_eq_nil in Hs as [_ ?]|]. rewrite <- Hs.
    rewrite split_once_app by (apply Hh; lia). rewrite !Htr, !Hp by lia. cbn [default from_option id]. unfold id.
    rewrite (proj2 (Z.ltb_ge r.2 r.1)), (proj2 (Z.leb_gt MAX_CPUS_PER_LIST _)) by lia. done.
Qed.

Lemma split_printed rs : Forall range_ok rs -> rs <> [] ->
  exists ps, split_on comma (print_cpulist rs) = ps /\
  Forall2 (fun r p => exists t, Forall (fun c => is_whitespace c = true) t /\ p = print_range r ++ t) rs ps.
Proof.
  induction 1 as [|r rs Hr _ IH]; [done|]. intros _. destruct Hr as (Hb & _).
  pose proof (print_range_no_comma r ltac:(lia) ltac:(lia)) as Hc. destruct rs as [|r' rs].
  - exists [print_range r ++ [10]]. split.
    + cbn [print_cpulist]. apply split_on_none. rewrite not_elem_of_app. split; [done|]. rewrite list_elem_of_singleton. done.
    + constructor; [|constructor]. exists [10]. split; [by repeat constructor|done].
  - destruct IH as (ps & Hs & Hps); [done|]. exists (print_range r :: ps). cbn [print_cpulist] in *. rewrite split_on_app by done.
    split; [by rewrite Hs|]. constructor; [|done]. exists []. split; [constructor|by rewrite app_nil_r].
Qed.

Lemma expand_parts_printed rs ps : Forall range_ok rs ->
  Forall2 (fun r p => exists t, Forall (fun c => is_whitespace c = true) t /\ p = print_range r ++ t) rs ps -> forall out,
  expand_parts alloc_all ps out = Ok (out ++ concat (map range_cpus rs)).
Proof.
  intros Hok H. induction H as [|r p rs ps (t & Ht & ->) _ IH]; intros out; cbn [expand_parts map concat]; [by rewrite app_nil_r|].
  apply Forall_cons_1 in Hok as [Hr Hok]. change (alloc_all 0%nat) with true. rewrite expand_printed by done.
  change (fun k => alloc_all (S k)) with alloc_all. cbn [result_bind]. rewrite (IH Hok). by rewrite (assoc_L (++)).
Qed.

(** *** Sorting *)
Lemma dedup_elem l x : x ∈ dedup l <-> x ∈ l.
Proof.
  induction l as [|y [|z l] IH]; [done|done|]. cbn [dedup]. cbn [dedup] in IH. destruct (Z.eqb_spec y z) as [->|].
  - rewrite IH, !elem_of_cons. tauto.
  - rewrite !(elem_of_cons _ x y), IH. done.
Qed.

Lemma dedup_sorted l : StronglySorted Z.le l -> StronglySorted Z.lt (dedup l).
Proof.
  induction 1 as [|y l Hl IH Hy]; [constructor|]. destruct l as [|z l]; [by repeat constructor|]. change (dedup (y :: z :: l))
    with (if y =? z then dedup (z :: l) else y :: dedup (z :: l)).
  destruct (Z.eqb_spec y z); [done|]. constructor; [done|]. apply Forall_forall. intros x Hx. apply list_elem_of_In in Hx. rewrite dedup_elem in Hx.
  rewrite Forall_forall in Hy. pose proof (Hy z ltac:(by left)). apply StronglySorted_inv in Hl as [_ Hz].
  apply elem_of_cons in Hx as [->|Hx]; [lia|]. rewrite Forall_forall in Hz. pose proof (Hz x ltac:(by apply list_elem_of_In)). lia.
Qed.

Lemma sorted_dedup l : StronglySorted Z.lt (dedup (merge_sort Z.le l)) /\ forall x, x ∈ dedup (merge_sort Z.le l) <-> x ∈ l.
Proof.
  split; [apply dedup_sorted, StronglySorted_merge_sort; typeclasses eauto|]. intros x. rewrite dedup_elem. by rewrite merge_sort_Permutation.
Qed.

(** Whatever text is accepted expands to a strictly increasing list. *)
Theorem cpulist_sorted A spec : match try_expand_cpulist A spec with Ok l => StronglySorted Z.lt l | Err _ => True end.
Proof. unfold try_expand_cpulist. destruct (expand_parts A _ []); [|done]. apply sorted_dedup. Qed.

(** The CPUs of some ranges. *)
Definition holds (l : list Z) (rs : list (Z * Z)) : Prop :=
  StronglySorted Z.lt l /\ forall cpu, cpu ∈ l <-> exists r, r ∈ rs /\ r.1 <= cpu <= r.2.

(** What the kernel prints for any ranges - in any order, overlapping or not -
    expands to the CPUs of the ranges, each once, in increasing order. *)
Theorem cpulist_roundtrip rs : Forall range_ok rs -> exists l, try_expand_cpulist alloc_all (print_cpulist rs) = Ok l /\ holds l rs.
Proof.
  intros Hok. assert (exists out, expand_parts alloc_all (split_on comma (print_cpulist rs)) [] = Ok out /\
    forall cpu, cpu ∈ out <-> exists r, r ∈ rs /\ r.1 <= cpu <= r.2) as (out & Hout & Hmem).
  - destruct rs as [|r rs']; [exists []; split; [done|]; intros cpu; split; [by intros ?%not_elem_of_nil|by intros (? & ?%not_elem_of_nil & _)]|].
    set (rs := r :: rs') in *. destruct (split_printed rs Hok ltac:(done)) as (ps & Hs & Hps). rewrite Hs.
    rewrite (expand_parts_printed rs ps Hok Hps []). eexists. split; [done|]. intros cpu. cbn [app].
    rewrite list_elem_of_In, in_concat. setoid_rewrite in_map_iff. split.
    + intros (w & (r' & <- & Hr') & Hw). exists r'. split; [by apply list_elem_of_In|].
      apply list_elem_of_In, elem_of_seqZ in Hw. lia.
    + intros (r' & Hr' & Hb). exists (range_cpus r'). split; [exists r'; split; [done|by apply list_elem_of_In]|].
      apply list_elem_of_In, elem_of_seqZ. lia.
  - unfold try_expand_cpulist. rewrite Hout. destruct (sorted_dedup out) as [Hs Hd]. eexists. split; [done|]. split; [done|].
    intros cpu. by rewrite Hd.
Qed.

Example kernel_text : try_expand_cpulist alloc_all (print_cpulist [(0, 3); (7, 7); (9, 11)]) = Ok [0; 1; 2; 3; 7; 9; 10; 11].
Proof. vm_compute. reflexivity. Qed.

(** ** The table *)
Lemma cpus_of_zset nodes id cpus m : 0 <= id < zlen nodes ->
  cpus_of (zset nodes id (Some cpus)) m = if m =? id then Some cpus else cpus_of nodes m.
Proof.
  intros Hid. unfold cpus_of. destruct (Z.eqb_spec m id) as [->|Hne]; [by rewrite zget_zset_eq|by rewrite zget_zset_ne].
Qed.

Lemma cpus_of_resize nodes n m : zlen nodes <= n -> cpus_of (resize n None nodes) m = cpus_of nodes m.
Proof.
  intros Hn. unfold cpus_of. destruct (decide (0 <= m < zlen nodes)) as [Hm|Hm].
  - by rewrite zget_resize_old by lia.
  - rewrite (proj2 (zget_None nodes m)) by lia. destruct (decide (0 <= m < n)); [by rewrite zget_resize_new by lia|].
    rewrite (proj2 (zget_None _ m)); [done|]. pose proof (zlen_nonneg nodes). rewrite zlen_resize by lia. lia.
Qed.

(** A node directory as the kernel presents it: its number and its ranges. *)
Definition node_entry (n : Z * list (Z * Z)) : sys_entry :=
  mkEntry (node_prefix ++ print_usize n.1) (Some (print_cpulist n.2)) alloc_all true.

Lemma starts_with_app p s : starts_with p (p ++ s) = true.
Proof. induction p as [|x p IH]; [done|]. cbn [app starts_with]. by rewrite Z.eqb_refl. Qed.

Lemma discover_node n nodes found : 0 <= n.1 < U64_MAX -> Forall range_ok n.2 -> zlen nodes <= U64_MAX ->
  exists nodes' l, discover_step (node_entry n) nodes found = Some (nodes', true) /\ holds l n.2 /\ zlen nodes' <= U64_MAX /\
  (forall m, cpus_of nodes' m = if m =? n.1 then Some l else cpus_of nodes m).
Proof.
  intros Hn Hok Hl. destruct (cpulist_roundtrip n.2 Hok) as (l & Hl' & Hh). unfold discover_step, node_entry. cbn [en_name en_cpulist en_alloc en_grows].
  rewrite starts_with_app. cbn [negb]. change (drop 4 (node_prefix ++ print_usize n.1)) with (print_usize n.1). rewrite parse_print by (unfold is_u, U64_MAX in *; lia).
  cbn [default from_option]. unfold id. rewrite Hl'. destruct (Z.leb_spec (zlen nodes) n.1).
  - unfold checked_add. rewrite (proj2 (Z.leb_le (n.1 + 1) _)) by (unfold umax, U64_MAX in *; lia). cbn [mbind option_bind].
    assert (zlen (resize (n.1 + 1) None nodes) = n.1 + 1) as Hlr by (rewrite zlen_resize; lia).
    do 2 eexists. split; [done|]. split; [done|]. split; [rewrite zlen_zset; lia|]. intros m.
    rewrite cpus_of_zset by lia. by rewrite cpus_of_resize by lia.
  - cbn [mbind option_bind]. do 2 eexists. split; [done|]. split; [done|]. split; [by rewrite zlen_zset|]. intros m. by rewrite cpus_of_zset by lia.
Qed.

(** The lookup by CPU: the first node that lists it. *)
Lemma node_from_spec nodes : forall n cpu,
  match node_from nodes n cpu with
  | Some m => n <= m < n + zlen nodes /\ (exists l, cpus_of nodes (m - n) = Some l /\ cpu ∈ l) /\
      forall k l, n <= k < m -> cpus_of nodes (k - n) = Some l -> cpu ∉ l
  | None => forall k l, cpus_of nodes k = Some l -> cpu ∉ l
  end.
Proof.
  induction nodes as [|o nodes IH]; intros n cpu; cbn [node_from].
  { intros k l Hk. unfold cpus_of, zget in Hk. by destruct (k <? 0). }
  assert (forall k, 1 <= k -> cpus_of (o :: nodes) k = cpus_of nodes (k - 1)) as Hshift.
  { intros k Hk. unfold cpus_of. rewrite !zget_lookup by lia. by replace (Z.to_nat k) with (S (Z.to_nat (k - 1))) by lia. }
  assert (cpus_of (o :: nodes) 0 = o) as H0 by done.
  assert (forall k l, (forall l, o = Some l -> cpu ∉ l) -> cpus_of (o :: nodes) k = Some l -> k < 1 -> cpu ∉ l) as Hhead.
  { intros k l Ho Hk Hlt. destruct (Z.eqb_spec k 0) as [->|]; [rewrite H0 in Hk; by apply Ho|].
    unfold cpus_of, zget in Hk. rewrite (proj2 (Z.ltb_lt k 0)) in Hk by lia. done. }
  assert ((forall l, o = Some l -> cpu ∉ l) -> match node_from nodes (n + 1) cpu with
    | Some m => n <= m < n + zlen (o :: nodes) /\ (exists l, cpus_of (o :: nodes) (m - n) = Some l /\ cpu ∈ l) /\
        forall k l, n <= k < m -> cpus_of (o :: nodes) (k - n) = Some l -> cpu ∉ l
    | None => forall k l, cpus_of (o :: nodes) k = Some l -> cpu ∉ l
    end) as Hnext.
  { intros Ho. specialize (IH (n + 1) cpu). destruct (node_from nodes (n + 1) cpu) as [m|].
    - destruct IH as (Hm & (l & Hl & Hin) & Hfirst). zsimp. split; [lia|]. split.
      + exists l. rewrite Hshift by lia. by replace (m - n - 1) with (m - (n + 1)) by lia.
      + intros k l' Hk Hkl. destruct (Z.ltb_spec (k - n) 1); [by eapply Hhead|]. rewrite Hshift in Hkl by lia.
        apply (Hfirst k l'); [lia|]. by replace (k - (n + 1)) with (k - n - 1) by lia.
    - intros k l Hk. destruct (Z.ltb_spec k 1); [by eapply Hhead|]. rewrite Hshift in Hk by lia. by eapply IH. }
  destruct o as [cpus|]; [|by apply Hnext]. destruct (bool_decide_reflect (cpu ∈ cpus)) as [Hin|Hout]; [|apply Hnext; by intros ? [= <-]].
  zsimp. pose proof (zlen_nonneg nodes). split; [lia|]. replace (n - n) with 0 by lia. split; [by exists cpus|]. lia.
Qed.

(** One step per directory. *)
Lemma discover_loop_nodes ns : NoDup (map fst ns) -> Forall (fun n => 0 <= n.1 < U64_MAX /\ Forall range_ok n.2) ns ->
  forall nodes found, zlen nodes <= U64_MAX ->
  exists nodes', discover_loop (map node_entry ns) nodes found = Some (nodes', match ns with [] => found | _ => true end) /\ zlen nodes' <= U64_MAX /\
  (forall n, n ∈ ns -> exists l, cpus_of nodes' n.1 = Some l /\ holds l n.2) /\
  (forall m, m ∉ map fst ns -> cpus_of nodes' m = cpus_of nodes m).
Proof.
  induction ns as [|n ns IH]; intros Hnd Hok nodes found Hl; cbn [map discover_loop].
  { exists nodes. split_and!; try done. intros n Hn. by apply not_elem_of_nil in Hn. }
  apply Forall_cons_1 in Hok as [[Hid Hr] Hok]. cbn [map] in Hnd. apply list.NoDup_cons in Hnd as [Hnin Hnd].
  destruct (discover_node n nodes found Hid Hr Hl) as (nodes1 & l & -> & Hh & Hl1 & Hc1). cbn [mbind option_bind].
  destruct (IH Hnd Hok nodes1 true Hl1) as (nodes' & -> & Hl' & Hin & Hout). exists nodes'.
  split; [by destruct ns|]. split; [done|split].
  - intros x [->|Hx]%elem_of_cons; [|by apply Hin]. exists l. rewrite Hout by done. by rewrite Hc1, Z.eqb_refl.
  - intros m [Hm1 Hm2]%not_elem_of_cons. rewrite Hout by done. rewrite Hc1. by rewrite (proj2 (Z.eqb_neq m n.1)).
Qed.

(** A machine whose node directories carry distinct numbers: [discover]
    returns, every node has exactly its CPUs and other numbers have none; the
    lookup by CPU answers the least node that has it, and nothing for a CPU of
    no node. *)
Theorem numa_lookup_correct ns : ns <> [] -> NoDup (map fst ns) -> Forall (fun n => 0 <= n.1 < U64_MAX /\ Forall range_ok n.2) ns ->
  exists nodes, discover (Some (map node_entry ns)) = Some nodes /\
  (forall n, n ∈ ns -> exists l, cpus_of nodes n.1 = Some l /\ holds l n.2) /\
  (forall m, m ∉ map fst ns -> cpus_of nodes m = None) /\
  (forall cpu, match node_for_cpu nodes cpu with
   | Some m => (exists n r, n ∈ ns /\ n.1 = m /\ r ∈ n.2 /\ r.1 <= cpu <= r.2) /\
       forall n r, n ∈ ns -> r ∈ n.2 -> r.1 <= cpu <= r.2 -> m <= n.1
   | None => forall n r, n ∈ ns -> r ∈ n.2 -> ~ r.1 <= cpu <= r.2
   end).
Proof.
  intros Hne Hnd Hok. destruct (discover_loop_nodes ns Hnd Hok [] false) as (nodes & Hd & _ & Hin & Hout); [done|].
  exists nodes. split; [unfold discover; cbn [default from_option]; unfold id; rewrite Hd; by destruct ns|].
  assert (forall m, cpus_of [] m = None) as Hnil by (intros m; unfold cpus_of, zget; by destruct (m <? 0)).
  split; [done|]. split; [intros m Hm; by rewrite Hout|]. intros cpu. pose proof (node_from_spec nodes 0 cpu) as Hs.
  unfold node_for_cpu. destruct (node_from nodes 0 cpu) as [m|].
  - destruct Hs as (_ & (l & Hl & Hc) & Hfirst). rewrite Z.sub_0_r in Hl. split.
    { destruct (decide (m ∈ map fst ns)) as [Hm|Hm]; [|by rewrite Hout, Hnil in Hl].
      apply list_elem_of_fmap in Hm as (n & -> & Hn). destruct (Hin n Hn) as (l' & Hl' & _ & Hh). rewrite Hl in Hl'. injection Hl' as <-.
      apply Hh in Hc as (r & Hr & Hb). by exists n, r. }
    intros n r Hn Hr Hb. destruct (Hin n Hn) as (l' & Hl' & _ & Hh). destruct (Z.le_gt_cases m n.1) as [|Hlt]; [done|].
    rewrite Forall_forall in Hok. pose proof (Hok n ltac:(by apply list_elem_of_In)) as [? _].
    exfalso. apply (Hfirst n.1 l'); [lia|by rewrite Z.sub_0_r|]. apply Hh. by exists r.
  - intros n r Hn Hr Hb. destruct (Hin n Hn) as (l & Hl & _ & Hh). apply (Hs _ _ Hl), Hh. by exists r.
Qed.

(** ** The affinity mask *)
Definition mask_bit (mask : list Z) (i : Z) : bool := Z.testbit (default 0 (mask !z (i / 8))) (i mod 8).

Lemma affinity_mask_spec cpus : forall mask, zlen mask = CPU_SET_SIZE -> Forall (fun cpu => 0 <= cpu) cpus ->
  exists mask', affinity_mask mask cpus = Some mask' /\ zlen mask' = CPU_SET_SIZE /\
  forall i, 0 <= i < CPU_SET_SIZE * 8 -> mask_bit mask' i = mask_bit mask i || bool_decide (i ∈ cpus).
Proof.
  induction cpus as [|cpu cpus IH]; intros mask Hl Hc; cbn [affinity_mask].
  { exists mask. split; [done|]. split; [done|]. intros i _. by rewrite orb_false_r. }
  apply Forall_cons_1 in Hc as [H0 Hc]. destruct (Z.ltb_spec cpu (CPU_SET_SIZE * 8)) as [Hlt|Hge].
  - assert (0 <= cpu / 8 < zlen mask) as Hr by (rewrite Hl; split; [apply Z.div_pos; lia|apply Z.div_lt_upper_bound; lia]).
    destruct (proj2 (zget_is_Some mask (cpu / 8)) Hr) as [b Hb]. rewrite Hb. cbn [mbind option_bind].
    destruct (IH (zset mask (cpu / 8) (Z.lor b (Z.shiftl 1 (cpu mod 8))))) as (mask' & -> & Hl' & Hbits); [by rewrite zlen_zset|done|].
    exists mask'. split; [done|]. split; [done|]. intros i Hi. rewrite Hbits by done.
    assert (mask_bit (zset mask (cpu / 8) (Z.lor b (Z.shiftl 1 (cpu mod 8)))) i = mask_bit mask i || (i =? cpu)) as ->.
    { unfold mask_bit. pose proof (Z.mod_pos_bound cpu 8 ltac:(lia)). pose proof (Z.mod_pos_bound i 8 ltac:(lia)).
      pose proof (Z.div_mod cpu 8 ltac:(lia)). pose proof (Z.div_mod i 8 ltac:(lia)).
      destruct (Z.eqb_spec (i / 8) (cpu / 8)) as [He|Hne].
      - rewrite He, zget_zset_eq, Hb by done. cbn [default from_option]. unfold id. rewrite Z.lor_spec, Z.shiftl_spec by lia. f_equal.
        destruct (Z.eqb_spec i cpu) as [->|]; [by rewrite Z.sub_diag|]. destruct (Z.ltb_spec (i mod 8 - cpu mod 8) 0) as [Hn|Hn].
        + by apply Z.testbit_neg_r.
        + rewrite Z.bits_above_log2; [done|lia|]. change (Z.log2 1) with 0. lia.
      - rewrite zget_zset_ne by done. destruct (Z.eqb_spec i cpu) as [->|]; [done|]. by rewrite orb_false_r. }
    rewrite <- orb_assoc. f_equal. destruct (Z.eqb_spec i cpu) as [->|Hne]; cbn [orb].
    + symmetry. apply bool_decide_eq_true. by left.
    + apply bool_decide_ext. rewrite elem_of_cons. naive_solver.
  - destruct (IH mask Hl Hc) as (mask' & -> & Hl' & Hbits). exists mask'. split; [done|]. split; [done|]. intros i Hi. rewrite Hbits by done.
    f_equal. apply bool_decide_ext. rewrite elem_of_cons. split; [by right|]. intros [->|?]; [lia|done].
Qed.

(** The mask handed to [sched_setaffinity] has exactly the bits of the given
    CPUs below 1024; larger ones are dropped. *)
Theorem affinity_mask_exact cpus : Forall (fun cpu => 0 <= cpu) cpus ->
  exists mask, set_thread_affinity cpus = Some mask /\ zlen mask = CPU_SET_SIZE /\
  forall i, 0 <= i < CPU_SET_SIZE * 8 -> mask_bit mask i = bool_decide (i ∈ cpus).
Proof.
  intros Hc. destruct (affinity_mask_spec cpus (replicate (Z.to_nat CPU_SET_SIZE) 0)) as (mask & Hm & Hl & Hb); [done|done|].
  exists mask. split; [done|]. split; [done|]. intros i Hi. rewrite Hb by done.
  assert (mask_bit (replicate (Z.to_nat CPU_SET_SIZE) 0) i = false) as ->; [|done].
  unfold mask_bit. assert (0 <= i / 8 < CPU_SET_SIZE) by (split; [apply Z.div_pos; lia|apply Z.div_lt_upper_bound; lia]).
  rewrite zget_lookup, lookup_replicate_2 by (unfold CPU_SET_SIZE in *; lia). apply Z.bits_0.
Qed.

(** A thread "pinned to exactly" CPU 1024 gets an empty mask. *)
Example large_cpu_dropped : set_thread_affinity [1024] = Some (replicate 128 0).
Proof. reflexivity. Qed.
