(* ===== verification/Sudoku.v ===== *)
(** The Sudoku example's domain model ([examples/sudoku_game/model.rs],
    [input.rs]): the puzzle generator with its backtracking solver, and the
    session with moves, notes, hints, lives, the timer and the score.

    Theorems: the solver counts the completions of a grid up to its limit; the
    generator returns, for every seed, a puzzle whose only solution is the
    stored one, with the wanted number of blanks or else minimal; whatever is
    played, a session's cells, lives, hints and clock stay consistent.  The
    examples show a game won with a wrong cell, and a hint taken while paused. *)

From stdpp Require Import sets strings.
From S2P Require Import Prelude.

Local Open Scope Z_scope.
Local Open Scope kit_scope.

(** ** Grids

    [[u8; 9]; 9] is a list of nine lists of nine; the code indexes it below
    nine only, so that [at2] and [put2] are total. *)
Abbreviation grid := (list (list Z)).
Definition at2 {A} (d : A) (g : list (list A)) (r c : nat) : A := default d (g !! r ≫= (.!! c)).
Definition put2 {A} (g : list (list A)) (r c : nat) (v : A) : list (list A) := alter (fun row => <[c := v]> row) r g.
Abbreviation cell := (at2 0).

Definition SOLUTION : grid :=
  [[5; 3; 4; 6; 7; 8; 9; 1; 2];
   [6; 7; 2; 1; 9; 5; 3; 4; 8];
   [1; 9; 8; 3; 4; 2; 5; 6; 7];
   [8; 5; 9; 7; 6; 1; 4; 2; 3];
   [4; 2; 6; 8; 5; 3; 7; 9; 1];
   [7; 1; 3; 9; 2; 4; 8; 5; 6];
   [9; 6; 1; 5; 3; 7; 2; 8; 4];
   [2; 8; 7; 4; 1; 9; 6; 3; 5];
   [3; 4; 5; 2; 8; 6; 1; 7; 9]].

Inductive Difficulty := Easy | Medium | Hard.

Record DifficultyConfig := {
  dc_name : string;
  blanks_min : Z;
  blanks_max : Z;
  max_lives : Z;
  max_hints : Z;
  max_time_sec : Z;
  three_star_sec : Z;
  two_star_sec : Z;
  score_multiplier_x10 : Z
}.

Definition config (d : Difficulty) : DifficultyConfig :=
  match d with
  | Easy => {| dc_name := "Easy"; blanks_min := 46; blanks_max := 50; max_lives := 3; max_hints := 3;
               max_time_sec := 1200; three_star_sec := 300; two_star_sec := 600; score_multiplier_x10 := 10 |}
  | Medium => {| dc_name := "Medium"; blanks_min := 51; blanks_max := 55; max_lives := 3; max_hints := 1;
                 max_time_sec := 1800; three_star_sec := 480; two_star_sec := 1080; score_multiplier_x10 := 15 |}
  | Hard => {| dc_name := "Hard"; blanks_min := 56; blanks_max := 64; max_lives := 3; max_hints := 0;
               max_time_sec := 2700; three_star_sec := 720; two_star_sec := 1680; score_multiplier_x10 := 20 |}
  end.

(** ** The solver *)
Definition nine : list nat := seq 0 9.

Fixpoint first_empty_from (r : nat) (rows : grid) : option (nat * nat) :=
  match rows with
  | [] => None
  | values :: rows =>
      match list_find (fun v => v = 0) values with
      | Some (c, _) => Some (r, c)
      | None => first_empty_from (S r) rows
      end
  end.
Definition first_empty (g : grid) : option (nat * nat) := first_empty_from 0 g.

Definition valid_value (g : grid) (row column : nat) (value : Z) : bool :=
  forallb (fun other => negb (cell g row other =? value)) nine &&
  forallb (fun other => negb (cell g other column =? value)) nine &&
  let row0 := (row / 3 * 3)%nat in
  let col0 := (column / 3 * 3)%nat in
  forallb (fun r => forallb (fun c => negb (cell g r c =? value)) (seq col0 3)) (seq row0 3).

(** The [for value in 1..=9] of [count_solutions], over the values left; the
    grid is changed in place and put back. *)
Fixpoint count_values (count : grid -> option (grid * Z)) (limit : Z) (row column : nat) (values : list Z)
    (g : grid) (found : Z) : option (grid * Z) :=
  match values with
  | [] => Some (g, found)
  | value :: values =>
      if valid_value g row column value then
        '(g, n) ← count (put2 g row column value);
        let found := saturating_add 8 found n in
        let g := put2 g row column 0 in
        if limit <=? found then Some (g, found)
        else count_values count limit row column values g found
      else count_values count limit row column values g found
  end.

Definition digits : list Z := [1; 2; 3; 4; 5; 6; 7; 8; 9].

Fixpoint count_solutions (fuel : nat) (limit : Z) (g : grid) : option (grid * Z) :=
  match fuel with
  | O => None
  | S fuel =>
      match first_empty g with
      | None => Some (g, 1)
      | Some (row, column) => count_values (count_solutions fuel limit) limit row column digits g 0
      end
  end.

(** The depth is the number of blanks. *)
Definition solver_fuel : nat := 82.

(** ** The generator *)
Definition generator_new (seed : Z) : Z := Z.lor seed 1.

Definition next (state : Z) : Z :=
  let state := Z.lxor state (wrap 64 (Z.shiftl state 7)) in
  let state := Z.lxor state (Z.shiftr state 9) in
  Z.lxor state (wrap 64 (Z.shiftl state 8)).

Definition swap (l : list nat) (i j : nat) : list nat :=
  match l !! i, l !! j with
  | Some x, Some y => <[i := y]> (<[j := x]> l)
  | _, _ => l
  end.

(** [for index in (1..81).rev()]. *)
Fixpoint shuffle (indices : list nat) (state : Z) (positions : list nat) : Z * list nat :=
  match indices with
  | [] => (state, positions)
  | index :: indices =>
      let state := next state in
      shuffle indices state (swap positions index (Z.to_nat (state mod (Z.of_nat index + 1))))
  end.

Fixpoint dig (positions : list nat) (target removed : Z) (puzzle : grid) : option grid :=
  match positions with
  | [] => Some puzzle
  | position :: positions =>
      if removed =? target then Some puzzle
      else
        let row := (position / 9)%nat in
        let column := (position mod 9)%nat in
        let saved := cell puzzle row column in
        let puzzle := put2 puzzle row column 0 in
        '(_, n) ← count_solutions solver_fuel 2 puzzle;
        if n =? 1 then dig positions target (removed + 1) puzzle
        else dig positions target removed (put2 puzzle row column saved)
  end.

Definition target_blanks (cfg : DifficultyConfig) (state : Z) : Z :=
  blanks_min cfg + state mod (blanks_max cfg - blanks_min cfg + 1).

Definition generate (state : Z) (d : Difficulty) : option grid :=
  let state := next state in
  let target := target_blanks (config d) state in
  let '(_, positions) := shuffle (rev (seq 1 80)) state (seq 0 81) in
  dig positions target 0 SOLUTION.

(** ** The session *)
Module SessionResult.
Inductive SessionResult := Ongoing | Win | LoseLives | LoseTime.
End SessionResult.
Abbreviation SessionResult := SessionResult.SessionResult.
#[export] Instance SessionResult_eq_dec : EqDecision SessionResult.
Proof. solve_decision. Defined.

Module CellState.
Inductive CellState := Empty | Given | Player | Error | Hint.
End CellState.
Abbreviation CellState := CellState.CellState.
#[export] Instance CellState_eq_dec : EqDecision CellState.
Proof. solve_decision. Defined.

Record GameSession := mkSession {
  gs_config : DifficultyConfig;
  gs_puzzle : grid;
  gs_values : grid;
  gs_states : list (list CellState);
  gs_notes : list (list (list bool));
  gs_elapsed : Z;
  gs_lives : Z;
  gs_mistakes : Z;
  gs_hints_used : Z;
  gs_result : SessionResult;
  gs_paused : bool;
  gs_fractional_ns : Z
}.

Abbreviation state_at := (at2 CellState.Empty).
Definition no_notes : list bool := replicate 9 false.

Definition initial_states (puzzle : grid) : list (list CellState) :=
  map (map (fun v => if v =? 0 then CellState.Empty else CellState.Given)) puzzle.

Definition session_on (d : Difficulty) (puzzle : grid) : GameSession :=
  {| gs_config := config d; gs_puzzle := puzzle; gs_values := puzzle; gs_states := initial_states puzzle;
          gs_notes := replicate 9 (replicate 9 no_notes); gs_elapsed := 0; gs_lives := max_lives (config d);
          gs_mistakes := 0; gs_hints_used := 0; gs_result := SessionResult.Ongoing; gs_paused := false;
          gs_fractional_ns := 0 |}.

(** [GameSession::new]: the seed is fixed. *)
Definition game_session_new (d : Difficulty) : option GameSession :=
  puzzle ← generate (generator_new 0x5EED2026) d; Some (session_on d puzzle).

(** Field updates. *)
Definition with_cell (s : GameSession) (r c : nat) (v : Z) (st : CellState) : GameSession :=
  mkSession (gs_config s) (gs_puzzle s) (put2 (gs_values s) r c v) (put2 (gs_states s) r c st)
    (put2 (gs_notes s) r c no_notes) (gs_elapsed s) (gs_lives s) (gs_mistakes s) (gs_hints_used s) (gs_result s)
    (gs_paused s) (gs_fractional_ns s).
Definition with_note (s : GameSession) (r c : nat) (l : list bool) : GameSession :=
  mkSession (gs_config s) (gs_puzzle s) (gs_values s) (gs_states s) (put2 (gs_notes s) r c l) (gs_elapsed s)
    (gs_lives s) (gs_mistakes s) (gs_hints_used s) (gs_result s) (gs_paused s) (gs_fractional_ns s).
Definition with_clock (s : GameSession) (elapsed fractional : Z) : GameSession :=
  mkSession (gs_config s) (gs_puzzle s) (gs_values s) (gs_states s) (gs_notes s) elapsed
    (gs_lives s) (gs_mistakes s) (gs_hints_used s) (gs_result s) (gs_paused s) fractional.
Definition with_lives (s : GameSession) (lives mistakes : Z) : GameSession :=
  mkSession (gs_config s) (gs_puzzle s) (gs_values s) (gs_states s) (gs_notes s) (gs_elapsed s)
    lives mistakes (gs_hints_used s) (gs_result s) (gs_paused s) (gs_fractional_ns s).
Definition with_hints (s : GameSession) (hints : Z) : GameSession :=
  mkSession (gs_config s) (gs_puzzle s) (gs_values s) (gs_states s) (gs_notes s) (gs_elapsed s)
    (gs_lives s) (gs_mistakes s) hints (gs_result s) (gs_paused s) (gs_fractional_ns s).
Definition with_paused (s : GameSession) (paused : bool) : GameSession :=
  mkSession (gs_config s) (gs_puzzle s) (gs_values s) (gs_states s) (gs_notes s) (gs_elapsed s)
    (gs_lives s) (gs_mistakes s) (gs_hints_used s) (gs_result s) paused (gs_fractional_ns s).
(** [self.result = r; self.paused = true]. *)
Definition end_game (s : GameSession) (r : SessionResult) : GameSession :=
  mkSession (gs_config s) (gs_puzzle s) (gs_values s) (gs_states s) (gs_notes s) (gs_elapsed s)
    (gs_lives s) (gs_mistakes s) (gs_hints_used s) r true (gs_fractional_ns s).

Definition ongoing (s : GameSession) : bool := bool_decide (gs_result s = SessionResult.Ongoing).
Definition is_given (s : GameSession) (r c : nat) : bool := bool_decide (state_at (gs_states s) r c = CellState.Given).
(** [values.iter().flatten().all(|v| *v != 0)]. *)
Definition all_filled (g : grid) : bool := forallb (forallb (fun v => negb (v =? 0))) g.

Definition session_tick (s : GameSession) (dt_ns : Z) : GameSession :=
  if gs_paused s || negb (ongoing s) then s
  else
    let fractional := saturating_add 64 (gs_fractional_ns s) dt_ns in
    let seconds := fractional / 1000000000 in
    let fractional := fractional mod 1000000000 in
    let elapsed := saturating_add 32 (gs_elapsed s) (if seconds <=? U32_MAX then seconds else U32_MAX) in
    if max_time_sec (gs_config s) <=? elapsed
    then end_game (with_clock s (max_time_sec (gs_config s)) fractional) SessionResult.LoseTime
    else with_clock s elapsed fractional.

Definition session_clear (s : GameSession) (row column : nat) : GameSession :=
  if (row <? 9)%nat && (column <? 9)%nat && negb (is_given s row column)
  then with_cell s row column 0 CellState.Empty else s.

Definition make_move (s : GameSession) (row column : nat) (value : Z) : GameSession * (bool * bool) :=
  if (9 <=? row)%nat || (9 <=? column)%nat || negb (ongoing s) || gs_paused s || is_given s row column || (9 <? value)
  then (s, (false, false))
  else if value =? 0 then (session_clear s row column, (true, true))
  else if value =? cell SOLUTION row column then
    let s := with_cell s row column value CellState.Player in
    (if all_filled (gs_values s) && bool_decide (gs_values s = SOLUTION) then end_game s SessionResult.Win else s,
     (true, true))
  else
    let s := with_cell s row column value CellState.Error in
    let s := with_lives s (saturating_sub (gs_lives s) 1) (saturating_add 32 (gs_mistakes s) 1) in
    (if gs_lives s =? 0 then end_game s SessionResult.LoseLives else s, (true, false)).

Definition toggle_note (s : GameSession) (row column : nat) (value : Z) : GameSession :=
  if (9 <=? row)%nat || (9 <=? column)%nat || (value =? 0) || (9 <? value) || is_given s row column ||
     negb (cell (gs_values s) row column =? 0)
  then s
  else with_note s row column (alter negb (Z.to_nat (value - 1)) (at2 no_notes (gs_notes s) row column)).

Definition hint_at (s : GameSession) (row column : nat) : GameSession * option (nat * nat * Z) :=
  if (9 <=? row)%nat || (9 <=? column)%nat || (max_hints (gs_config s) <=? gs_hints_used s) || negb (ongoing s) ||
     negb (cell (gs_values s) row column =? 0) || is_given s row column
  then (s, None)
  else
    let value := cell SOLUTION row column in
    let s := with_hints (with_cell s row column value CellState.Hint) (saturating_add 32 (gs_hints_used s) 1) in
    (if all_filled (gs_values s) then end_game s SessionResult.Win else s, Some (row, column, value)).

(** The two loops look for the first blank, row by row. *)
Definition hint (s : GameSession) : GameSession * option (nat * nat * Z) :=
  if (max_hints (gs_config s) <=? gs_hints_used s) || negb (ongoing s) then (s, None)
  else match first_empty (gs_values s) with
       | Some (row, column) => hint_at s row column
       | None => (s, None)
       end.

Definition hints_remaining (s : GameSession) : Z :=
  saturating_sub (max_hints (gs_config s)) (wrap 8 (Z.min (gs_hints_used s) (max_hints (gs_config s)))).

Definition score (s : GameSession) : Z * Z :=
  if negb (bool_decide (gs_result s = SessionResult.Win)) then (0, 0)
  else
    let stars := if gs_elapsed s <=? three_star_sec (gs_config s) then 3
                 else if gs_elapsed s <=? two_star_sec (gs_config s) then 2 else 1 in
    let time_bonus := saturating_mul 32 (saturating_sub (max_time_sec (gs_config s)) (gs_elapsed s)) 10 in
    let penalties := saturating_add 32 (saturating_mul 32 (gs_mistakes s) 500) (saturating_mul 32 (gs_hints_used s) 200) in
    let raw := saturating_sub (saturating_add 32 10000 time_bonus) penalties in
    (stars, saturating_mul 32 raw (score_multiplier_x10 (gs_config s)) / 10).

(** [GameAction::Pause]: the application toggles the field of a running game. *)
Definition toggle_pause (s : GameSession) : GameSession :=
  if ongoing s then with_paused s (negb (gs_paused s)) else s.

(** ** Keys *)
Module GameAction.
Inductive GameAction := Digit (d : Z) | Clear | ToggleNote | Hint | Pause | Move (row column : Z).
End GameAction.
Abbreviation GameAction := GameAction.GameAction.

Definition action_from_key (key : Z) : option GameAction :=
  if key =? 0x30 then Some GameAction.Clear
  else if (0x31 <=? key) && (key <=? 0x39) then Some (GameAction.Digit (key - 0x30))
  else if (key =? 0x08) || (key =? 0x2E) then Some GameAction.Clear
  else if key =? 0x48 then Some GameAction.Hint
  else if key =? 0x4E then Some GameAction.ToggleNote
  else if (key =? 0x50) || (key =? 0x20) || (key =? 0x1B) then Some GameAction.Pause
  else if key =? 0x25 then Some (GameAction.Move 0 (-1))
  else if key =? 0x26 then Some (GameAction.Move (-1) 0)
  else if key =? 0x27 then Some (GameAction.Move 0 1)
  else if key =? 0x28 then Some (GameAction.Move 1 0)
  else None.

(** ** Facts about nine by nine arrays *)
Definition square {A} (g : list (list A)) : Prop := length g = 9%nat /\ Forall (fun row => length row = 9%nat) g.
Definition inside (r c : nat) : Prop := (r < 9)%nat /\ (c < 9)%nat.

Lemma shape_row {A} (g : list (list A)) r : square g -> (r < 9)%nat -> exists row, g !! r = Some row /\ length row = 9%nat.
Proof.
  intros [H1 H2] Hr. destruct (lookup_lt_is_Some_2 g r) as [row E]; [lia|]. exists row. split; [done|].
  rewrite list.Forall_lookup in H2. by eapply H2.
Qed.

Lemma shape_cell {A} (d : A) g r c : square g -> inside r c -> exists row, g !! r = Some row /\ row !! c = Some (at2 d g r c).
Proof.
  intros Hg [Hr Hc]. destruct (shape_row g r Hg Hr) as (row & E & L). exists row. split; [done|].
  unfold at2. rewrite E. cbn. destruct (lookup_lt_is_Some_2 row c) as [x ->]; [lia|done].
Qed.

Lemma shape_put2 {A} (g : list (list A)) r c v : square g -> square (put2 g r c v).
Proof.
  intros [H1 H2]. unfold put2. split; [by rewrite length_alter|]. rewrite list.Forall_lookup in *.
  intros i row. rewrite list_lookup_alter. case_decide; [|by apply H2].
  intros (row' & E & ->)%fmap_Some. rewrite length_insert. by eapply H2.
Qed.

Lemma at2_put2_eq {A} (d : A) g r c v : square g -> inside r c -> at2 d (put2 g r c v) r c = v.
Proof.
  intros Hg [Hr Hc]. destruct (shape_row g r Hg Hr) as (row & E & L). unfold at2, put2.
  rewrite list_lookup_alter_eq, E. cbn. by rewrite list_lookup_insert_eq by lia.
Qed.

Lemma at2_put2_ne {A} (d : A) g r c r' c' v : (r, c) <> (r', c') -> at2 d (put2 g r c v) r' c' = at2 d g r' c'.
Proof.
  intros Hne. unfold at2, put2. destruct (decide (r = r')) as [<-|Hr].
  - rewrite list_lookup_alter_eq. destruct (g !! r) as [row|]; [|done]. cbn.
    rewrite list_lookup_insert_ne; [done|congruence].
  - by rewrite list_lookup_alter_ne by done.
Qed.

Lemma at2_put2 {A} (d : A) g r c r' c' v : square g -> inside r c ->
  at2 d (put2 g r c v) r' c' = if decide ((r, c) = (r', c')) then v else at2 d g r' c'.
Proof.
  intros. destruct (decide ((r, c) = (r', c'))) as [E|E]; [inversion E; subst; by apply at2_put2_eq|by apply at2_put2_ne].
Qed.

Lemma at2_ext {A} (d : A) g h : square g -> square h -> (forall r c, inside r c -> at2 d g r c = at2 d h r c) -> g = h.
Proof.
  intros Hg Hh E. apply list_eq_same_length with 9%nat; [apply Hh|apply Hg|]. intros r x y Hr Hx Hy.
  assert (Lx : length x = 9%nat) by (destruct Hg as [_ Hg]; rewrite list.Forall_lookup in Hg; by eapply Hg).
  assert (Ly : length y = 9%nat) by (destruct Hh as [_ Hh]; rewrite list.Forall_lookup in Hh; by eapply Hh).
  apply list_eq_same_length with 9%nat; [done|done|]. intros c a b Hc Ha Hb.
  specialize (E r c (conj Hr Hc)). unfold at2 in E. rewrite Hx, Hy in E. cbn in E. rewrite Ha, Hb in E. exact E.
Qed.

Lemma put2_put2 {A} (g : list (list A)) r c v w : put2 (put2 g r c v) r c w = put2 g r c w.
Proof.
  apply list_eq. intros i. unfold put2. rewrite !list_lookup_alter.
  repeat case_decide; try done. destruct (g !! r); cbn; [|done]. by rewrite list_insert_insert_eq.
Qed.

Lemma put2_same {A} (d : A) g r c : square g -> inside r c -> put2 g r c (at2 d g r c) = g.
Proof.
  intros Hg Hi. apply (at2_ext d); [by apply shape_put2|done|]. intros r' c' _. rewrite at2_put2 by done.
  case_decide as E; [by inversion E|done].
Qed.

Lemma shape_forall {A} (P : A -> bool) (d : A) g : square g ->
  forallb (forallb P) g = true <-> forall r c, inside r c -> P (at2 d g r c) = true.
Proof.
  intros Hg. rewrite forallb_forall. split.
  - intros H r c Hi. destruct (shape_cell d g r c Hg Hi) as (row & E1 & E2).
    specialize (H row (proj1 (list_elem_of_In _ _) (list_elem_of_lookup_2 _ _ _ E1))).
    rewrite forallb_forall in H. apply H. apply list_elem_of_In. by apply list_elem_of_lookup_2 in E2.
  - intros H row Hin. apply forallb_forall. intros x Hx. apply list_elem_of_In in Hin, Hx.
    apply list_elem_of_lookup in Hin as [r Hr], Hx as [c Hc].
    assert (Hi : inside r c).
    { pose proof Hg as [H1 H2]. rewrite list.Forall_lookup in H2. split.
      - rewrite <- H1. by eapply lookup_lt_Some.
      - rewrite <- (H2 _ _ Hr). by eapply lookup_lt_Some. }
    specialize (H r c Hi). unfold at2 in H. rewrite Hr in H. cbn in H. by rewrite Hc in H.
Qed.

Lemma first_empty_from_Some rows : forall k r c, first_empty_from k rows = Some (r, c) ->
  exists row, (k <= r)%nat /\ rows !! (r - k)%nat = Some row /\ row !! c = Some 0.
Proof.
  induction rows as [|row rows IH]; intros k r c; cbn [first_empty_from]; [done|].
  destruct (list_find _ row) as [[i x]|] eqn:E.
  - intros [= <- <-]. apply list_find_Some in E as (E1 & -> & _). exists row. rewrite Nat.sub_diag. by repeat split.
  - intros (row' & H1 & H2 & H3)%IH. exists row'. split; [lia|]. split; [|done].
    by replace (r - k)%nat with (S (r - S k)) by lia.
Qed.

Lemma first_empty_from_None rows : forall k, first_empty_from k rows = None -> Forall (Forall (fun v => v <> 0)) rows.
Proof.
  induction rows as [|row rows IH]; intros k; cbn [first_empty_from]; [by constructor|].
  destruct (list_find _ row) as [[i x]|] eqn:E; [done|]. apply list_find_None in E. constructor; [done|by eapply IH].
Qed.

Lemma first_empty_Some g r c : square g -> first_empty g = Some (r, c) -> inside r c /\ cell g r c = 0.
Proof.
  intros [H1 H2] (row & _ & E1 & E2)%first_empty_from_Some. rewrite Nat.sub_0_r in E1.
  rewrite list.Forall_lookup in H2. pose proof (lookup_lt_Some _ _ _ E1). pose proof (lookup_lt_Some _ _ _ E2).
  rewrite (H2 _ _ E1) in *. split; [split; lia|]. unfold at2. rewrite E1. cbn. by rewrite E2.
Qed.

Lemma first_empty_None g r c : square g -> first_empty g = None -> inside r c -> cell g r c <> 0.
Proof.
  intros Hg H%first_empty_from_None Hi. destruct (shape_cell 0 g r c Hg Hi) as (row & E1 & E2).
  rewrite list.Forall_lookup in H. specialize (H _ _ E1). rewrite list.Forall_lookup in H. by eapply H.
Qed.

(** ** The rules *)

(** Two cells that may not hold the same digit. *)
Definition near (r c r' c' : nat) : Prop :=
  r = r' \/ c = c' \/ (r / 3 = r' / 3)%nat /\ (c / 3 = c' / 3)%nat.
Definition peer (r c r' c' : nat) : Prop := (r, c) <> (r', c') /\ near r c r' c'.

Lemma peer_sym r c r' c' : peer r c r' c' -> peer r' c' r c.
Proof. intros [H1 H2]. split; [congruence|]. destruct H2 as [->|[->|[]]]; unfold near; auto. Qed.

Lemma box_iff a b : (a / 3 * 3 <= b < a / 3 * 3 + 3)%nat <-> (a / 3 = b / 3)%nat.
Proof.
  split.
  - intros [H1 H2]. apply Nat.le_antisymm.
    + apply Nat.div_le_lower_bound; lia.
    + apply Nat.lt_succ_r, Nat.Div0.div_lt_upper_bound. lia.
  - intros ->. pose proof (Nat.div_mod b 3 ltac:(lia)). pose proof (Nat.mod_upper_bound b 3 ltac:(lia)). lia.
Qed.

Lemma inside_box a b : (a < 9)%nat -> (a / 3 = b / 3)%nat -> (b < 9)%nat.
Proof.
  intros Ha E. pose proof (proj2 (box_iff a b) E). pose proof (Nat.Div0.div_lt_upper_bound a 3 3 ltac:(lia)). lia.
Qed.

Lemma valid_value_spec g r c v : inside r c ->
  valid_value g r c v = true <-> forall r' c', inside r' c' -> near r c r' c' -> cell g r' c' <> v.
Proof.
  intros [Hr Hc]. unfold valid_value, nine. rewrite !andb_true_iff, !forallb_forall.
  assert (K : forall x, negb (x =? v) = true <-> x <> v) by (intros; rewrite negb_true_iff, Z.eqb_neq; done).
  split.
  - intros [[H1 H2] H3] r' c' [Hr' Hc'] [<-|[<-|[E1 E2]]].
    + apply K, H1, in_seq. lia.
    + apply K, H2, in_seq. lia.
    + apply box_iff in E1, E2. specialize (H3 r' ltac:(apply in_seq; lia)). rewrite forallb_forall in H3.
      apply K, H3, in_seq. lia.
  - intros H. repeat split.
    + intros x Hx%in_seq. apply K, H; [split; lia|by left].
    + intros x Hx%in_seq. apply K, H; [split; lia|by right; left].
    + intros x Hx%in_seq. apply forallb_forall. intros y Hy%in_seq.
      assert (E1 : (r / 3 = x / 3)%nat) by (apply box_iff; lia). assert (E2 : (c / 3 = y / 3)%nat) by (apply box_iff; lia).
      apply K, H; [exact (conj (inside_box _ _ Hr E1) (inside_box _ _ Hc E2))|by right; right].
Qed.

(** ** What the solver counts *)

(** [h] fills the blanks of [g] within the rules. *)
Record completes (g h : grid) : Prop := {
  cp_shape : square h;
  cp_digits r c : inside r c -> 1 <= cell h r c <= 9;
  cp_extends r c : inside r c -> cell g r c <> 0 -> cell h r c = cell g r c;
  cp_rules r c r' c' : inside r c -> inside r' c' -> cell g r c = 0 -> peer r c r' c' -> cell h r c <> cell h r' c'
}.

Lemma completes_full g : square g -> (forall r c, inside r c -> 1 <= cell g r c <= 9) ->
  forall h, completes g h <-> h = g.
Proof.
  intros Hg Hf h. split.
  - intros [H1 _ H3 _]. apply (at2_ext 0); [done|done|]. intros r c Hi. apply H3; [done|]. specialize (Hf r c Hi). lia.
  - intros ->. constructor; try done. intros r c r' c' Hi _ E _. specialize (Hf r c Hi). lia.
Qed.

Lemma completes_fill g r c : square g -> inside r c -> cell g r c = 0 ->
  forall h, completes g h <->
  exists v, 1 <= v <= 9 /\ valid_value g r c v = true /\ cell h r c = v /\ completes (put2 g r c v) h.
Proof.
  intros Hg Hi E h. split.
  - intros [H1 H2 H3 H4]. exists (cell h r c). split; [by apply H2|]. split; [|split; [done|]].
    + apply valid_value_spec; [done|]. intros r' c' Hi' Hn E'. destruct (decide ((r, c) = (r', c'))) as [Eq|Hne].
      * inversion Eq; subst r' c'. specialize (H2 r c Hi). lia.
      * apply (H4 r c r' c' Hi Hi' E); [by split|]. symmetry. rewrite <- E'. apply H3; [done|].
        specialize (H2 r c Hi). lia.
    + constructor; [done|done| |].
      * intros r' c' Hi'. rewrite at2_put2 by done. case_decide as Eq; [by inversion Eq|by apply H3].
      * intros a b r' c' Ha Hi'. rewrite at2_put2 by done. case_decide as Eq; [|by apply H4].
        specialize (H2 r c Hi). lia.
  - intros (v & Hv & Hval & Ev & [H1 H2 H3 H4]). rewrite valid_value_spec in Hval by done. constructor; [done|done| |].
    + intros a b Hab Hne. rewrite <- (at2_put2_ne 0 g r c a b v); [apply H3; [done|]|]; [|congruence].
      rewrite at2_put2_ne; [done|congruence].
    + intros a b a' b' Ha Ha' E0 Hp. destruct (decide ((r, c) = (a, b))) as [Eq|Hne].
      * inversion Eq; subst a b. destruct (Z.eq_dec (cell g a' b') 0) as [E'|E'].
        -- apply not_eq_sym, H4; [done|done| |by apply peer_sym]. rewrite at2_put2_ne; [done|apply Hp].
        -- assert (K : cell h a' b' = cell g a' b').
           { rewrite <- (at2_put2_ne 0 g r c a' b' v) by apply Hp. apply H3; [done|]. rewrite at2_put2_ne; [done|apply Hp]. }
           rewrite K, Ev. apply not_eq_sym, Hval; [done|apply Hp].
      * apply H4; [done|done| |done]. by rewrite at2_put2_ne.
Qed.

Definition is_digit_or_blank (g : grid) : Prop := forall r c, inside r c -> 0 <= cell g r c <= 9.

(** A complete list of the completions. *)
Definition lists_completions (g : grid) (l : list grid) : Prop := NoDup l /\ forall h, h ∈ l <-> completes g h.

(** A count that is exact below the limit, and reaches it when the truth does. *)
Definition counted_up_to (limit n : Z) (l : list grid) : Prop :=
  (n < limit -> n = zlen l) /\ (limit <= n -> limit <= zlen l) /\ 0 <= n.

(** The blanks of a grid. *)
Definition blanks (g : grid) : nat := length (List.filter (fun v => v =? 0) (concat g)).

Lemma filter_insert (p : Z -> bool) l : forall i x y, l !! i = Some x ->
  (length (List.filter p (<[i := y]> l)) + Nat.b2n (p x) = length (List.filter p l) + Nat.b2n (p y))%nat.
Proof.
  induction l as [|z l IH]; intros [|i] x y H; cbn in *; try done.
  - inversion H; subst z. destruct (p x), (p y); cbn; lia.
  - specialize (IH i x y H). destruct (p z); [exact (f_equal S IH)|exact IH].
Qed.

Lemma blanks_cons row g : blanks (row :: g) = (length (List.filter (fun v => (v =? 0)%Z) row) + blanks g)%nat.
Proof. unfold blanks. cbn. by rewrite List.filter_app, length_app. Qed.

Lemma blanks_put2 g r c v : square g -> inside r c ->
  (blanks (put2 g r c v) + Nat.b2n (cell g r c =? 0)%Z = blanks g + Nat.b2n (v =? 0)%Z)%nat.
Proof.
  intros Hg Hi. destruct (shape_cell 0 g r c Hg Hi) as (row & E1 & E2). revert E2. generalize (at2 0 g r c). clear Hg Hi.
  revert r E1. induction g as [|row' g IH]; intros [|r] E1 x E2; try done; cbn in E1.
  - change (put2 (row' :: g) 0 c v) with (<[c := v]> row' :: g). rewrite !blanks_cons. inversion E1; subst row'. pose proof (filter_insert (fun v => v =? 0) row c x v E2). lia.
  - change (put2 (row' :: g) (S r) c v) with (row' :: put2 g r c v). rewrite !blanks_cons. specialize (IH r E1 x E2). lia.
Qed.

Lemma blanks_full g : square g -> (blanks g <= 81)%nat.
Proof.
  intros [H1 H2]. assert (K : (blanks g <= 9 * length g)%nat); [|lia]. clear H1.
  induction H2 as [|row g Hr _ IH]; [done|]. rewrite blanks_cons. cbn [length].
  pose proof (List.filter_length_le (fun v => v =? 0) row). lia.
Qed.

Section Counting.
Context (count : grid -> option (grid * Z)) (limit : Z) (g : grid) (r c : nat).
Context (Hlimit : 1 <= limit <= 255) (Hg : square g) (Hi : inside r c) (E0 : cell g r c = 0).
Context (Hcount : forall v, 1 <= v <= 9 -> exists n l, count (put2 g r c v) = Some (put2 g r c v, n) /\
  lists_completions (put2 g r c v) l /\ counted_up_to limit n l).

Definition from_values (vs : list Z) (h : grid) : Prop :=
  exists v, v ∈ vs /\ valid_value g r c v = true /\ cell h r c = v /\ completes (put2 g r c v) h.

Lemma from_values_cons v vs l l' : 1 <= v <= 9 -> v ∉ vs -> valid_value g r c v = true ->
  lists_completions (put2 g r c v) l -> NoDup l' /\ (forall h, h ∈ l' <-> from_values vs h) ->
  NoDup (l ++ l') /\ (forall h, h ∈ l ++ l' <-> from_values (v :: vs) h).
Proof.
  intros Hv Hnot Hval [H1 H2] [H3 H4].
  assert (K : forall h, completes (put2 g r c v) h -> cell h r c = v).
  { intros h [_ _ H _]. specialize (H r c Hi). rewrite at2_put2_eq in H by done. apply H. lia. }
  split.
  - apply list.NoDup_app. split; [done|]. split; [|done]. intros h Hh Hh'. apply H2, K in Hh.
    apply H4 in Hh' as (w & Hw & _ & E & _). congruence.
  - intros h. rewrite elem_of_app, H2, H4. split.
    + intros [H|(w & Hw & H)]; [exists v; split; [by left|]; auto|exists w; split; [by right|done]].
    + intros (w & Hw & Hr). apply elem_of_cons in Hw as [->|Hw]; [left; apply Hr|right; by exists w].
Qed.

Lemma count_values_spec vs : Forall (fun v => 1 <= v <= 9) vs -> NoDup vs -> forall found, 0 <= found < limit ->
  exists n l, count_values count limit r c vs g found = Some (g, n) /\
  (NoDup l /\ forall h, h ∈ l <-> from_values vs h) /\
  (n < limit -> n = found + zlen l) /\ (limit <= n -> limit <= found + zlen l) /\ 0 <= n.
Proof.
  induction vs as [|v vs IH]; intros Hvs Hnd found Hf; cbn [count_values].
  - exists found, []. split; [done|]. split; [|change (zlen (@nil grid)) with 0; lia]. split; [apply NoDup_nil_2|].
    intros h. split; [intros Hh; by apply elem_of_nil in Hh|intros (v & Hv & _); by apply elem_of_nil in Hv].
  - apply list.Forall_cons in Hvs as [Hv Hvs]. apply list.NoDup_cons in Hnd as [Hnot Hnd]. specialize (IH Hvs Hnd).
    destruct (valid_value g r c v) eqn:Hval.
    + destruct (Hcount v Hv) as (n & l & -> & Hl & Hn). cbn [mbind option_bind].
      assert (Eg : put2 (put2 g r c v) r c 0 = g) by (rewrite put2_put2, <- E0 at 1; by apply put2_same).
      rewrite Eg. destruct Hn as (N1 & N2 & N3). pose proof (zlen_nonneg l).
      destruct (Z.leb_spec limit (saturating_add 8 found n)) as [Hle|Hgt].
      * destruct (IH 0 ltac:(lia)) as (_ & l' & _ & Hl' & _). exists (saturating_add 8 found n), (l ++ l').
        split; [done|]. split; [by apply from_values_cons|]. rewrite zlen_app. pose proof (zlen_nonneg l').
        unfold saturating_add, umax in *. lia.
      * unfold saturating_add, umax in Hgt. assert (Es : saturating_add 8 found n = found + n) by (unfold saturating_add, umax; lia).
        rewrite Es. destruct (IH (found + n) ltac:(lia)) as (m & l' & E & Hl' & Hm). exists m, (l ++ l').
        split; [done|]. split; [by apply from_values_cons|]. rewrite zlen_app. lia.
    + destruct (IH found Hf) as (m & l' & E & [H1 H2] & Hm). exists m, l'. split; [done|]. split; [|done].
      split; [done|]. intros h. rewrite H2. split; intros (w & Hw & Hr).
      * exists w. split; [by right|done].
      * apply elem_of_cons in Hw as [->|Hw]; [destruct Hr; congruence|by exists w].
Qed.
End Counting.

Lemma count_solutions_spec limit : 1 <= limit <= 255 -> forall fuel g, square g -> is_digit_or_blank g -> (blanks g < fuel)%nat ->
  exists n l, count_solutions fuel limit g = Some (g, n) /\ lists_completions g l /\ counted_up_to limit n l.
Proof.
  intros Hlimit fuel. induction fuel as [|fuel IH]; intros g Hg Hd Hb; [lia|]. cbn [count_solutions].
  destruct (first_empty g) as [[r c]|] eqn:E.
  - apply first_empty_Some in E as [Hi E]; [|done].
    destruct (count_values_spec (count_solutions fuel limit) limit g r c Hlimit Hg Hi E) with (vs := digits) (found := 0)
      as (n & l & E1 & [H1 H2] & Hn).
    + intros v Hv. apply IH; [by apply shape_put2| |].
      * intros a b Hab. rewrite at2_put2 by done. case_decide; [lia|by apply Hd].
      * pose proof (blanks_put2 g r c v Hg Hi) as K. rewrite E in K. destruct (Z.eqb_spec v 0); cbn in K; lia.
    + repeat constructor; lia.
    + unfold digits. apply (bool_decide_unpack _). by vm_compute.
    + lia.
    + exists n, l. split; [done|]. split; [|exact Hn]. split; [done|]. intros h. rewrite H2, (completes_fill g r c Hg Hi E).
      split; intros (v & Hv & Hr); exists v; (split; [|done]).
      * unfold digits in Hv. rewrite !elem_of_cons, elem_of_nil in Hv. lia.
      * unfold digits. rewrite !elem_of_cons. lia.
  - exists 1, [g]. split; [done|]. split.
    + split; [apply NoDup_singleton|]. intros h. rewrite list_elem_of_singleton. symmetry. apply completes_full; [done|].
      intros r c Hi. pose proof (first_empty_None g r c Hg E Hi). pose proof (Hd r c Hi). lia.
    + unfold counted_up_to. change (zlen [g]) with 1. lia.
Qed.

(** ** The generator *)
Record valid_sudoku (h : grid) : Prop := {
  vs_shape : square h;
  vs_digits r c : inside r c -> 1 <= cell h r c <= 9;
  vs_rules r c r' c' : inside r c -> inside r' c' -> peer r c r' c' -> cell h r c <> cell h r' c'
}.

Definition extends (g h : grid) : Prop := forall r c, inside r c -> cell g r c <> 0 -> cell h r c = cell g r c.

(** The grids the generator works on. *)
Definition part_of_solution (g : grid) : Prop := square g /\ extends g SOLUTION.

Lemma inside_nine r c : inside r c <-> r ∈ nine /\ c ∈ nine.
Proof. unfold inside, nine. rewrite !elem_of_seq. lia. Qed.

Lemma forall_inside (P : nat -> nat -> bool) :
  forallb (fun r => forallb (P r) nine) nine = true <-> forall r c, inside r c -> P r c = true.
Proof.
  rewrite forallb_forall. split.
  - intros H r c [Hr Hc]%inside_nine. apply list_elem_of_In in Hr, Hc. specialize (H r Hr). rewrite forallb_forall in H. by apply H.
  - intros H r Hr. apply forallb_forall. intros c Hc. apply H, inside_nine. by rewrite !list_elem_of_In.
Qed.

Lemma SOLUTION_shape : square SOLUTION.
Proof. split; [done|]. by repeat constructor. Qed.

Lemma SOLUTION_valid : valid_sudoku SOLUTION.
Proof.
  constructor; [exact SOLUTION_shape| |].
  - assert (K : forall r c, inside r c -> (1 <=? cell SOLUTION r c) && (cell SOLUTION r c <=? 9) = true)
      by (apply forall_inside; by vm_compute).
    intros r c Hi. specialize (K r c Hi). lia.
  - assert (K : forall r c, inside r c -> valid_value (put2 SOLUTION r c 0) r c (cell SOLUTION r c) = true)
      by (apply (forall_inside (fun r c => valid_value (put2 SOLUTION r c 0) r c (cell SOLUTION r c))); by vm_compute).
    intros r c r' c' Hi Hi' [Hne Hn]. specialize (K r c Hi). rewrite valid_value_spec in K by done.
    specialize (K r' c' Hi' Hn). rewrite at2_put2_ne in K by done. congruence.
Qed.

Lemma part_completes g h : part_of_solution g -> completes g h <-> valid_sudoku h /\ extends g h.
Proof.
  intros [Hg Hs]. split.
  - intros [H1 H2 H3 H4]. split; [|exact H3]. constructor; [done|done|]. intros r c r' c' Hi Hi' Hp.
    destruct (Z.eq_dec (cell g r c) 0) as [E|E]; [by apply H4|].
    destruct (Z.eq_dec (cell g r' c') 0) as [E'|E']; [by apply not_eq_sym, H4, peer_sym|].
    rewrite (H3 r c Hi E), (H3 r' c' Hi' E'), <- (Hs r c Hi E), <- (Hs r' c' Hi' E'). by apply SOLUTION_valid.
  - intros [[H1 H2 H3] H4]. constructor; auto.
Qed.

Lemma part_digits g : part_of_solution g -> is_digit_or_blank g.
Proof.
  intros [_ Hs] r c Hi. destruct (Z.eq_dec (cell g r c) 0) as [->|E]; [lia|]. rewrite <- (Hs r c Hi E).
  pose proof (vs_digits _ SOLUTION_valid r c Hi). lia.
Qed.

Lemma extends_blank g h r c : square g -> inside r c -> extends g h -> extends (put2 g r c 0) h.
Proof. intros Hg Hi H r' c' Hi'. rewrite at2_put2 by done. case_decide; [done|by apply H]. Qed.

Lemma part_blank g r c : part_of_solution g -> inside r c -> part_of_solution (put2 g r c 0).
Proof. intros [Hg Hs] Hi. split; [by apply shape_put2|by apply extends_blank]. Qed.

Definition unique (g : grid) : Prop := forall h, valid_sudoku h -> extends g h -> h = SOLUTION.
Definition ambiguous (g : grid) : Prop := exists h, valid_sudoku h /\ extends g h /\ h <> SOLUTION.

(** The generator's test. *)
Lemma uniqueness_test g : part_of_solution g ->
  exists n, count_solutions solver_fuel 2 g = Some (g, n) /\ (n = 1 -> unique g) /\ (n <> 1 -> ambiguous g).
Proof.
  intros Hp. pose proof Hp as [Hg Hs].
  destruct (count_solutions_spec 2 ltac:(lia) solver_fuel g Hg (part_digits g Hp)) as (n & l & E & [Hnd Hl] & H1 & H2 & H3).
  { pose proof (blanks_full g Hg). unfold solver_fuel. lia. }
  exists n. split; [done|].
  assert (Hsol : SOLUTION ∈ l) by (apply Hl, part_completes; [done|split; [exact SOLUTION_valid|exact Hs]]). split.
  - intros ->. specialize (H1 ltac:(lia)). intros h Hv He. assert (Hh : h ∈ l) by (by apply Hl, part_completes).
    destruct l as [|a [|b l]]; unfold zlen in H1; cbn in H1; try lia. apply list_elem_of_singleton in Hsol, Hh. congruence.
  - intros Hne. assert (Hlen : 2 <= zlen l).
    { apply H2. destruct (Z.lt_ge_cases n 2) as [Hlt|]; [|done]. specialize (H1 Hlt).
      destruct l as [|a l]; [by apply elem_of_nil in Hsol|]. unfold zlen in H1. cbn in H1. lia. }
    destruct l as [|a [|b l]]; unfold zlen in Hlen; cbn in Hlen; try lia. apply list.NoDup_cons in Hnd as [Hab _].
    assert (K : forall h, h ∈ a :: b :: l -> h <> SOLUTION -> ambiguous g)
      by (intros h Hh Hne'; apply Hl, part_completes in Hh as [Hv He]; [by exists h|done]).
    destruct (decide (a = SOLUTION)) as [->|Ha].
    + apply (K b); [by right; left|]. intros ->. apply Hab. by left.
    + apply (K a); [by left|done].
Qed.

Lemma swap_Permutation l i j : swap l i j ≡ₚ l.
Proof.
  unfold swap. destruct (l !! i) as [x|] eqn:Ei; [|done]. destruct (l !! j) as [y|] eqn:Ej; [|done].
  assert (K : forall (k : list nat) m a b, k !! m = Some a -> <[m := b]> k ≡ₚ b :: delete m k).
  { intros k m a b Hm. pose proof (lookup_lt_Some _ _ _ Hm).
    rewrite (delete_Permutation (<[m := b]> k) m b) by (by apply list_lookup_insert_eq).
    by rewrite !delete_take_drop, take_insert_ge, drop_insert_lt by lia. }
  destruct (decide (i = j)) as [->|Hne].
  - rewrite list_insert_insert_eq. rewrite Ei in Ej. inversion Ej; subst y. by rewrite list_insert_id.
  - assert (Ei' : <[j := x]> l !! i = Some x) by (by rewrite list_lookup_insert_ne).
    transitivity (y :: delete j l); [|symmetry; by apply delete_Permutation].
    transitivity (y :: delete i (<[j := x]> l)); [by eapply K|]. constructor.
    apply (Permutation_cons_inv (a := x)). transitivity (<[j := x]> l); [symmetry; by apply delete_Permutation|by eapply K].
Qed.

Lemma shuffle_Permutation indices : forall state l, snd (shuffle indices state l) ≡ₚ l.
Proof.
  induction indices as [|i indices IH]; intros state l; cbn [shuffle]; [done|].
  rewrite IH. apply swap_Permutation.
Qed.

Definition row_of (position : nat) : nat := (position / 9)%nat.
Definition column_of (position : nat) : nat := (position mod 9)%nat.

Lemma position_inside p : (p < 81)%nat -> inside (row_of p) (column_of p).
Proof. intros H. split; [by apply Nat.Div0.div_lt_upper_bound|by apply Nat.mod_upper_bound]. Qed.

Lemma position_of r c : inside r c -> exists p, (p < 81)%nat /\ row_of p = r /\ column_of p = c.
Proof.
  intros [Hr Hc]. exists (r * 9 + c)%nat. unfold row_of, column_of. split; [lia|]. split.
  - rewrite Nat.div_add_l, Nat.div_small by lia. lia.
  - rewrite Nat.add_comm, Nat.Div0.mod_add. by apply Nat.mod_small.
Qed.

Lemma position_inj p q : row_of p = row_of q -> column_of p = column_of q -> p = q.
Proof.
  unfold row_of, column_of. intros H1 H2. rewrite (Nat.div_mod p 9), (Nat.div_mod q 9) by lia. congruence.
Qed.

(** A clue that may not be taken away. *)
Definition needed (g : grid) (r c : nat) : Prop := ambiguous (put2 g r c 0).

Lemma needed_blank g r c r' c' : part_of_solution g -> inside r c -> inside r' c' ->
  needed g r c -> needed (put2 g r' c' 0) r c.
Proof.
  intros [Hg _] Hi Hi' (h & Hv & He & Hne). exists h. split; [done|]. split; [|done].
  intros a b Hab. rewrite !at2_put2 by (done || by apply shape_put2). specialize (He a b Hab). rewrite at2_put2 in He by done.
  repeat case_decide; done || by apply He.
Qed.

(** The loop with the positions [ps] to go. *)
Record digging (ps : list nat) (target removed : Z) (g : grid) : Prop := {
  dg_part : part_of_solution g;
  dg_unique : unique g;
  dg_blanks : Z.of_nat (blanks g) = removed;
  dg_target : removed <= target;
  dg_left p : p ∈ ps -> (p < 81)%nat /\ cell g (row_of p) (column_of p) <> 0;
  dg_done p : (p < 81)%nat -> p ∉ ps -> cell g (row_of p) (column_of p) <> 0 -> needed g (row_of p) (column_of p)
}.

Definition minimal (g : grid) : Prop := forall r c, inside r c -> cell g r c <> 0 -> needed g r c.

Lemma digging_keep p ps target removed g : digging (p :: ps) target removed g -> needed g (row_of p) (column_of p) ->
  digging ps target removed g.
Proof.
  intros [H1 H2 H3 H4 H5 H6] Hn. constructor; try done.
  - intros q Hq. apply H5. by right.
  - intros q Hq Hnot. destruct (decide (q = p)) as [->|Hne]; [done|]. apply H6; [done|].
    intros [->|Hin]%elem_of_cons; done.
Qed.

Lemma digging_remove p ps target removed g : digging (p :: ps) target removed g -> p ∉ ps -> removed <> target ->
  unique (put2 g (row_of p) (column_of p) 0) ->
  digging ps target (removed + 1) (put2 g (row_of p) (column_of p) 0).
Proof.
  intros [H1 H2 H3 H4 H5 H6] Hnd Ht Hu. destruct (H5 p ltac:(by left)) as [Hp Hcell]. pose proof (position_inside p Hp) as Hi.
  pose proof H1 as [Hg _]. constructor; [by apply part_blank|done| |lia| |].
  - pose proof (blanks_put2 g _ _ 0 Hg Hi) as K. apply Z.eqb_neq in Hcell. rewrite Hcell in K. cbn [Nat.b2n] in K. change (Nat.b2n (0 =? 0)%Z) with 1%nat in K. lia.
  - intros q Hq. destruct (H5 q ltac:(by right)) as [Hq81 Hqc]. split; [done|]. rewrite at2_put2_ne; [done|].
    intros [= E1 E2]. by rewrite (position_inj p q E1 E2) in Hnd.
  - intros q Hq Hnot. rewrite at2_put2 by done. case_decide as E; [done|]. intros Hqc.
    apply needed_blank; [done|by apply position_inside|done|]. apply H6; [done| |done].
    intros [->|Hin]%elem_of_cons; done.
Qed.

Lemma dig_spec ps target : NoDup ps -> forall removed g, digging ps target removed g -> exists g', dig ps target removed g = Some g' /\
  part_of_solution g' /\ unique g' /\ Z.of_nat (blanks g') <= target /\ (Z.of_nat (blanks g') = target \/ minimal g').
Proof.
  induction ps as [|p ps IH]; intros Hnd removed g Hd; cbn [dig].
  - exists g. destruct Hd as [H1 H2 H3 H4 _ H6]. split; [done|]. split; [done|]. split; [done|]. split; [lia|].
    right. intros r c Hi. destruct (position_of r c Hi) as (p & Hp & <- & <-). apply H6; [done|]. by intros Hn%elem_of_nil.
  - apply list.NoDup_cons in Hnd as [Hp Hnd]. specialize (IH Hnd). pose proof Hd as [H1 H2 H3 H4 H5 _].
    destruct (Z.eqb_spec removed target) as [->|Hne].
    + exists g. split; [done|]. split; [done|]. split; [done|]. split; [lia|by left].
    + destruct (H5 p ltac:(by left)) as [Hp81 Hcell]. pose proof (position_inside p Hp81) as Hi. fold (row_of p) (column_of p).
      set (g0 := put2 g (row_of p) (column_of p) 0).
      destruct (uniqueness_test g0) as (n & -> & Hy & Hn); [by apply part_blank|]. cbn [mbind option_bind].
      destruct (Z.eqb_spec n 1) as [->|Hn1].
      * apply IH, digging_remove; auto.
      * assert (Eg : put2 g0 (row_of p) (column_of p) (cell g (row_of p) (column_of p)) = g)
          by (unfold g0; rewrite put2_put2; apply put2_same; [apply H1|done]).
        rewrite Eg. apply IH. by eapply digging_keep; [|apply Hn].
Qed.

Lemma target_range d state : 0 <= state -> blanks_min (config d) <= target_blanks (config d) state <= blanks_max (config d).
Proof.
  intros H. unfold target_blanks. pose proof (Z.mod_pos_bound state (blanks_max (config d) - blanks_min (config d) + 1)).
  destruct d; cbn in *; lia.
Qed.

Lemma lxor_nonneg a b : 0 <= a -> 0 <= b -> 0 <= Z.lxor a b.
Proof. intros. apply Z.lxor_nonneg. lia. Qed.

Lemma next_nonneg state : 0 <= state -> 0 <= next state.
Proof.
  intros H. unfold next, wrap. repeat apply lxor_nonneg; try done; try (apply Z.mod_pos_bound; lia).
  apply Z.shiftr_nonneg, lxor_nonneg; [done|]. apply Z.mod_pos_bound. lia.
Qed.

Lemma digging_start target : 0 <= target -> digging (seq 0 81) target 0 SOLUTION.
Proof.
  intros Ht. constructor; [|intros h [Hh _ _] He|by vm_compute|done| |].
  - split; [exact SOLUTION_shape|]. by intros r c _ _.
  - apply (at2_ext 0); [done|exact SOLUTION_shape|]. intros r c Hi. apply He; [done|].
    pose proof (vs_digits _ SOLUTION_valid r c Hi). lia.
  - intros p Hp%elem_of_seq. split; [lia|]. pose proof (vs_digits _ SOLUTION_valid _ _ (position_inside p ltac:(lia))). lia.
  - intros p Hp Hnot. destruct Hnot. apply elem_of_seq. lia.
Qed.

Lemma digging_perm ps qs target removed g : ps ≡ₚ qs -> digging ps target removed g -> digging qs target removed g.
Proof.
  intros E [H1 H2 H3 H4 H5 H6]. constructor; try done.
  - intros p. rewrite <- E. apply H5.
  - intros p Hp. rewrite <- E. by apply H6.
Qed.

Lemma generate_spec seed d : is_u 64 seed -> exists puzzle, generate (generator_new seed) d = Some puzzle /\
  part_of_solution puzzle /\ unique puzzle /\
  let target := target_blanks (config d) (next (generator_new seed)) in
  blanks_min (config d) <= target <= blanks_max (config d) /\
  Z.of_nat (blanks puzzle) <= target /\ (Z.of_nat (blanks puzzle) = target \/ minimal puzzle).
Proof.
  intros Hseed. unfold generate.
  assert (Hn : 0 <= next (generator_new seed))
    by (apply next_nonneg, Z.lor_nonneg; unfold is_u in Hseed; lia).
  pose proof (target_range d _ Hn) as Ht. set (target := target_blanks _ _) in *.
  pose proof (shuffle_Permutation (rev (seq 1 80)) (next (generator_new seed)) (seq 0 81)) as Hps.
  destruct (shuffle _ _ _) as [state ps]. cbn [snd] in Hps.
  destruct (dig_spec ps target) with (removed := 0) (g := SOLUTION) as (g' & E & H1 & H2 & H3).
  - rewrite Hps. apply NoDup_seq.
  - apply (digging_perm (seq 0 81)); [done|]. apply digging_start. destruct d; cbn in Ht; lia.
  - by exists g'.
Qed.

(** C31: For every seed and difficulty the generator ends with a puzzle cut out
    of the stored grid that has that grid as its only solution, no more blanks
    than the chosen target, which lies in the difficulty's range, and fewer
    only if no clue can be taken away without a second solution appearing. *)
Theorem sudoku_puzzle_unique (seed : Z) (d : Difficulty) : is_u 64 seed ->
  exists puzzle, generate (generator_new seed) d = Some puzzle /\
  (forall r c, inside r c -> cell puzzle r c = 0 \/ cell puzzle r c = cell SOLUTION r c) /\
  (forall h, valid_sudoku h /\ extends puzzle h <-> h = SOLUTION) /\
  let target := target_blanks (config d) (next (generator_new seed)) in
  blanks_min (config d) <= target <= blanks_max (config d) /\
  Z.of_nat (blanks puzzle) <= target /\
  (Z.of_nat (blanks puzzle) = target \/ minimal puzzle).
Proof.
  intros Hseed. destruct (generate_spec seed d Hseed) as (g & E & [Hg Hs] & Hu & H). exists g. split; [done|].
  split; [|split; [|done]].
  - intros r c Hi. destruct (Z.eq_dec (cell g r c) 0) as [|Hne]; [by left|]. right. symmetry. by apply Hs.
  - intros h. split; [intros [Hv He]; by apply Hu|]. intros ->. split; [exact SOLUTION_valid|apply Hs].
Qed.

(** ** Sessions *)
Inductive SessionCall :=
| CallTick (dt_ns : Z)
| CallMove (row column : nat) (value : Z)
| CallClear (row column : nat)
| CallNote (row column : nat) (value : Z)
| CallHint
| CallHintAt (row column : nat)
| CallPause.

(** The arguments' types. *)
Definition call_ok (call : SessionCall) : Prop :=
  match call with
  | CallTick dt_ns => is_u 64 dt_ns
  | CallMove _ _ value | CallNote _ _ value => is_u 8 value
  | _ => True
  end.

Definition session_step (s : GameSession) (call : SessionCall) : GameSession :=
  match call with
  | CallTick dt_ns => session_tick s dt_ns
  | CallMove row column value => fst (make_move s row column value)
  | CallClear row column => session_clear s row column
  | CallNote row column value => toggle_note s row column value
  | CallHint => fst (hint s)
  | CallHintAt row column => fst (hint_at s row column)
  | CallPause => toggle_pause s
  end.

(** The nanoseconds of the ticks that find the game running. *)
Definition tick_ns (s : GameSession) (call : SessionCall) : Z :=
  match call with CallTick dt_ns => if gs_paused s || negb (ongoing s) then 0 else dt_ns | _ => 0 end.
Fixpoint played (s : GameSession) (calls : list SessionCall) : Z :=
  match calls with
  | [] => 0
  | call :: calls => tick_ns s call + played (session_step s call) calls
  end.

(** What the state of a cell says of its clue and its value. *)
Definition cell_ok (puzzle : grid) (r c : nat) (v : Z) (st : CellState) : Prop :=
  match st with
  | CellState.Given => cell puzzle r c <> 0 /\ v = cell puzzle r c
  | CellState.Empty => cell puzzle r c = 0 /\ v = 0
  | CellState.Player | CellState.Hint => cell puzzle r c = 0 /\ v = cell SOLUTION r c
  | CellState.Error => cell puzzle r c = 0 /\ 1 <= v <= 9 /\ v <> cell SOLUTION r c
  end.

Record session_ok (d : Difficulty) (puzzle : grid) (s : GameSession) : Prop := {
  so_config : gs_config s = config d;
  so_values : square (gs_values s);
  so_states : square (gs_states s);
  so_notes : square (gs_notes s);
  so_cell r c : inside r c -> cell_ok puzzle r c (cell (gs_values s) r c) (state_at (gs_states s) r c);
  so_note r c : inside r c -> length (at2 no_notes (gs_notes s) r c) = 9%nat /\
    (cell (gs_values s) r c <> 0 -> at2 no_notes (gs_notes s) r c = no_notes);
  so_lives : 0 <= gs_lives s /\ 0 <= gs_mistakes s /\ gs_lives s + gs_mistakes s = max_lives (config d);
  so_hints : 0 <= gs_hints_used s <= max_hints (config d);
  so_clock : 0 <= gs_elapsed s <= max_time_sec (config d) /\ 0 <= gs_fractional_ns s < 1000000000;
  so_no_lives : gs_lives s = 0 <-> gs_result s = SessionResult.LoseLives;
  so_no_time : gs_elapsed s = max_time_sec (config d) <-> gs_result s = SessionResult.LoseTime;
  so_stopped : gs_result s <> SessionResult.Ongoing -> gs_paused s = true
}.

Lemma config_small d : max_lives (config d) = 3 /\ 0 <= max_hints (config d) <= 3 /\ 0 < max_time_sec (config d) <= 2700.
Proof. destruct d; cbn; lia. Qed.

Lemma session_on_ok d puzzle : part_of_solution puzzle -> session_ok d puzzle (session_on d puzzle).
Proof.
  intros [Hg Hs]. pose proof (config_small d).
  assert (Hst : forall r c, inside r c -> state_at (initial_states puzzle) r c =
    if cell puzzle r c =? 0 then CellState.Empty else CellState.Given).
  { intros r c Hi. destruct (shape_cell 0 puzzle r c Hg Hi) as (row & E1 & E2). unfold at2 at 1, initial_states.
    rewrite list_lookup_fmap, E1. cbn. by rewrite list_lookup_fmap, E2. }
  constructor; cbn [session_on gs_config gs_values gs_states gs_notes gs_lives gs_mistakes gs_hints_used gs_elapsed
    gs_fractional_ns gs_result gs_paused]; try done; try lia.
  - destruct Hg as [H1 H2]. unfold initial_states. split; [by rewrite length_map|]. apply Forall_map.
    eapply list.Forall_impl; [exact H2|]. intros row. by rewrite length_map.
  - split; [done|]. by repeat constructor.
  - intros r c Hi. rewrite Hst by done. destruct (Z.eqb_spec (cell puzzle r c) 0); by cbn.
  - intros r c [Hr Hc]. unfold at2. rewrite lookup_replicate_2 by done. cbn [mbind option_bind].
    by rewrite lookup_replicate_2 by done.
  - split; [lia|done].
  - split; [lia|done].
Qed.

Section SessionSteps.
Context (d : Difficulty) (puzzle : grid) (Hpuzzle : part_of_solution puzzle).
Implicit Types (s : GameSession) (r c : nat).

Lemma with_cell_ok s r c v st : session_ok d puzzle s -> inside r c -> cell_ok puzzle r c v st ->
  session_ok d puzzle (with_cell s r c v st).
Proof.
  intros H Hi Hc. pose proof H as [A1 A2 A3 A4 A5 A6 A7 A8 A9 A10 A11 A12].
  constructor; cbn [with_cell gs_config gs_values gs_states gs_notes gs_lives gs_mistakes gs_hints_used gs_elapsed
    gs_fractional_ns gs_result gs_paused]; try done; try by apply shape_put2.
  - intros r' c' Hi'. rewrite !at2_put2 by done. case_decide as E; [by inversion E; subst|by apply A5].
  - intros r' c' Hi'. rewrite !at2_put2 by done. case_decide; [by split|by apply A6].
Qed.

Lemma end_game_ok s result : session_ok d puzzle s -> gs_result s = SessionResult.Ongoing ->
  result = SessionResult.Win -> session_ok d puzzle (end_game s result).
Proof.
  intros [A1 A2 A3 A4 A5 A6 A7 A8 A9 A10 A11 A12] Ho ->. rewrite Ho in *.
  constructor; cbn [end_game gs_config gs_values gs_states gs_notes gs_lives gs_mistakes gs_hints_used gs_elapsed
    gs_fractional_ns gs_result gs_paused]; try done; naive_solver.
Qed.

Lemma tick_ok s dt : session_ok d puzzle s -> is_u 64 dt -> session_ok d puzzle (session_tick s dt).
Proof.
  intros H Hdt. unfold session_tick. destruct (gs_paused s) eqn:Ep; [done|]. unfold ongoing.
  case_bool_decide as Ho; [|done]. destruct H as [A1 A2 A3 A4 A5 A6 A7 A8 A9 A10 A11 A12]. cbn [orb negb]. pose proof (config_small d) as (_ & _ & Hm).
  unfold is_u in Hdt. set (f := saturating_add 64 _ _). assert (0 <= f) by (unfold f, saturating_add, umax; lia).
  pose proof (Z.mod_pos_bound f 1000000000 ltac:(lia)). pose proof (Z.div_pos f 1000000000 ltac:(lia) ltac:(lia)).
  set (e := saturating_add 32 _ _).
  assert (0 <= e) by (unfold e, saturating_add, umax, U32_MAX; destruct (_ <=? _); lia).
  rewrite Ho, A1 in *. assert (gs_lives s <> 0) by naive_solver.
  destruct (Z.leb_spec (max_time_sec (config d)) e);
    constructor; cbn [end_game with_clock gs_config gs_values gs_states gs_notes gs_lives gs_mistakes gs_hints_used gs_elapsed
    gs_fractional_ns gs_result gs_paused]; rewrite ?Ho; try done; try lia; split; try done; lia.
Qed.

Lemma clear_ok s r c : session_ok d puzzle s -> session_ok d puzzle (session_clear s r c).
Proof.
  intros H. unfold session_clear, is_given. destruct (Nat.ltb_spec r 9), (Nat.ltb_spec c 9); cbn [andb]; try done.
  case_bool_decide as Hg; cbn [negb]; [done|]. apply with_cell_ok; [done|done|]. cbn. split; [|done].
  pose proof (so_cell _ _ _ H r c ltac:(done)) as K. destruct (at2 _ _ _ _); cbn in K; [apply K|done|apply K|apply K|apply K].
Qed.

Lemma note_ok s r c v : session_ok d puzzle s -> session_ok d puzzle (toggle_note s r c v).
Proof.
  intros H. unfold toggle_note.
  destruct (Nat.leb_spec 9 r), (Nat.leb_spec 9 c); cbn [orb]; try done. destruct (v =? 0); [done|]. destruct (9 <? v); [done|].
  destruct (is_given s r c); [done|]. destruct (Z.eqb_spec (cell (gs_values s) r c) 0) as [E|]; [|done]. cbn [orb negb].
  assert (Hi : inside r c) by done. destruct H as [A1 A2 A3 A4 A5 A6 A7 A8 A9 A10 A11 A12].
  constructor; cbn [with_note gs_config gs_values gs_states gs_notes gs_lives gs_mistakes gs_hints_used gs_elapsed
    gs_fractional_ns gs_result gs_paused]; try done; try by apply shape_put2.
  intros r' c' Hi'. rewrite at2_put2 by done. case_decide as Eq; [|by apply A6]. inversion Eq; subst r' c'.
  rewrite length_alter. split; [by apply A6|]. congruence.
Qed.

Lemma blank_of_state s r c : session_ok d puzzle s -> inside r c -> is_given s r c = false -> cell puzzle r c = 0.
Proof.
  unfold is_given. intros H Hi Hg. apply bool_decide_eq_false in Hg. pose proof (so_cell _ _ _ H r c Hi) as K.
  destruct (state_at (gs_states s) r c); cbn in K; [apply K|done|apply K|apply K|apply K].
Qed.

Lemma move_ok s r c v : session_ok d puzzle s -> is_u 8 v -> session_ok d puzzle (fst (make_move s r c v)).
Proof.
  intros H Hv. unfold make_move. destruct (Nat.leb_spec 9 r), (Nat.leb_spec 9 c); cbn [orb]; try done.
  unfold ongoing. case_bool_decide as Ho; cbn [negb orb]; [|done]. destruct (gs_paused s) eqn:Ep; [done|].
  destruct (is_given s r c) eqn:Hg; [done|]. destruct (Z.ltb_spec 9 v); [done|]. cbn [orb].
  destruct (Z.eqb_spec v 0); [by apply clear_ok|]. assert (Hi : inside r c) by done.
  pose proof (blank_of_state s r c H Hi Hg) as Hb. unfold is_u in Hv. destruct (Z.eqb_spec v (cell SOLUTION r c)) as [E|E].
  - assert (Hw : session_ok d puzzle (with_cell s r c v CellState.Player)) by (by apply with_cell_ok).
    destruct (_ && _); cbn [fst]; [|done]. by apply end_game_ok.
  - assert (Hw : session_ok d puzzle (with_cell s r c v CellState.Error)) by (apply with_cell_ok; [done|done|]; cbn; lia).
    destruct Hw as [A1 A2 A3 A4 A5 A6 A7 A8 A9 A10 A11 A12]. cbn [with_cell gs_result gs_lives gs_mistakes] in A7, A10, A11, A12.
    pose proof (config_small d) as (Hl & _ & _). rewrite Ho in *.
    assert (gs_lives s <> 0) by naive_solver.
    assert (E1 : saturating_sub (gs_lives s) 1 = gs_lives s - 1) by (unfold saturating_sub; lia).
    assert (E2 : saturating_add 32 (gs_mistakes s) 1 = gs_mistakes s + 1) by (unfold saturating_add, umax; lia).
    cbn [with_cell gs_lives gs_mistakes]. rewrite E1, E2. cbn [with_lives gs_lives].
    destruct (Z.eqb_spec (gs_lives s - 1) 0);
      constructor; cbn [fst end_game with_lives with_cell gs_config gs_values gs_states gs_notes gs_lives gs_mistakes gs_hints_used
        gs_elapsed gs_fractional_ns gs_result gs_paused]; rewrite ?Ho; try done; try lia; naive_solver lia.
Qed.

Lemma hint_at_ok s r c : session_ok d puzzle s -> session_ok d puzzle (fst (hint_at s r c)).
Proof.
  intros H. unfold hint_at. destruct (Nat.leb_spec 9 r), (Nat.leb_spec 9 c); cbn [orb]; try done.
  destruct (Z.leb_spec (max_hints (gs_config s)) (gs_hints_used s)) as [|Hh]; [done|]. unfold ongoing.
  case_bool_decide as Ho; cbn [negb orb]; [|done].
  destruct (negb (cell _ r c =? 0)); [done|]. destruct (is_given s r c) eqn:Hg; [done|]. assert (Hi : inside r c) by done.
  pose proof (blank_of_state s r c H Hi Hg) as Hb. cbn [orb].
  assert (Hw : session_ok d puzzle (with_hints (with_cell s r c (cell SOLUTION r c) CellState.Hint)
    (saturating_add 32 (gs_hints_used s) 1))).
  { assert (Hw : session_ok d puzzle (with_cell s r c (cell SOLUTION r c) CellState.Hint)) by (by apply with_cell_ok).
    pose proof (config_small d) as (_ & Hm & _). rewrite (so_config _ _ _ H) in Hh. pose proof (so_hints _ _ _ H).
    destruct Hw. constructor; try done. cbn [with_hints gs_hints_used]. unfold saturating_add, umax. lia. }
  destruct (all_filled _); cbn [fst]; [by apply end_game_ok|done].
Qed.

Lemma step_ok s call : session_ok d puzzle s -> call_ok call -> session_ok d puzzle (session_step s call).
Proof.
  intros H Hc. destruct call; cbn [session_step call_ok] in *.
  - by apply tick_ok.
  - by apply move_ok.
  - by apply clear_ok.
  - by apply note_ok.
  - unfold hint. destruct (_ || _); [done|]. destruct (first_empty _) as [[r c]|]; [by apply hint_at_ok|done].
  - by apply hint_at_ok.
  - unfold toggle_pause, ongoing. case_bool_decide as Ho; [|done]. destruct H.
    by constructor.
Qed.

(** Nanoseconds on the clock. *)
Definition clock_ns s : Z := gs_elapsed s * 1000000000 + gs_fractional_ns s.

Lemma tick_clock s dt : session_ok d puzzle s -> is_u 64 dt ->
  gs_result (session_tick s dt) <> SessionResult.LoseTime ->
  clock_ns (session_tick s dt) = clock_ns s + (if gs_paused s || negb (ongoing s) then 0 else dt).
Proof.
  intros H Hdt. unfold session_tick. destruct (gs_paused s || negb (ongoing s)); [lia|].
  rewrite (so_config _ _ _ H). pose proof (config_small d) as (_ & _ & Hm). pose proof (so_clock _ _ _ H) as [Hc1 Hc2].
  unfold is_u in Hdt. set (f := saturating_add 64 _ _). set (e := saturating_add 32 _ _).
  destruct (Z.leb_spec (max_time_sec (config d)) e) as [|Hlt]; [intros Hne; by destruct Hne|]. intros _.
  unfold clock_ns. cbn [with_clock gs_elapsed gs_fractional_ns].
  pose proof (Z.div_mod f 1000000000 ltac:(lia)) as Ediv.
  assert (He : e = gs_elapsed s + f / 1000000000).
  { unfold e, saturating_add, umax, U32_MAX in *. destruct (Z.leb_spec (f / 1000000000) 4294967295); lia. }
  assert (Hf : f = gs_fractional_ns s + dt).
  { assert (f < 4000 * 1000000000); [|unfold f, saturating_add, umax in *; lia].
    assert (f / 1000000000 < 3000) by lia. pose proof (Z.mod_pos_bound f 1000000000 ltac:(lia)). lia. }
  lia.
Qed.

Lemma step_clock s call : session_ok d puzzle s -> call_ok call ->
  gs_result (session_step s call) <> SessionResult.LoseTime -> clock_ns (session_step s call) = clock_ns s + tick_ns s call.
Proof.
  intros H Hc. destruct call; cbn [session_step tick_ns]; [by apply tick_clock|..]; intros _; rewrite Z.add_0_r;
    unfold make_move, session_clear, toggle_note, hint, hint_at, toggle_pause; by repeat case_match.
Qed.

Lemma lost_stays s call : gs_result s = SessionResult.LoseTime -> gs_result (session_step s call) = SessionResult.LoseTime.
Proof.
  intros E. assert (Eo : ongoing s = false) by (by apply bool_decide_eq_false; rewrite E).
  destruct call; cbn [session_step]; unfold session_tick, make_move, session_clear, toggle_note, hint, hint_at, toggle_pause;
    rewrite ?Eo; cbn [negb]; rewrite ?orb_true_r; cbn [orb fst]; repeat case_match; done.
Qed.

(** No call changes the puzzle a session was dealt. *)
Lemma step_puzzle s call : gs_puzzle (session_step s call) = gs_puzzle s.
Proof.
  destruct call; cbn [session_step]; unfold session_tick, make_move, session_clear, toggle_note, hint, hint_at, toggle_pause;
    by repeat case_match.
Qed.

Lemma run_ok calls : forall s, session_ok d puzzle s -> Forall call_ok calls ->
  session_ok d puzzle (foldl session_step s calls) /\
  (gs_result (foldl session_step s calls) <> SessionResult.LoseTime ->
   clock_ns (foldl session_step s calls) = clock_ns s + played s calls).
Proof.
  induction calls as [|call calls IH]; intros s H Hc; cbn [foldl played]; [split; [done|lia]|].
  apply list.Forall_cons in Hc as [Hc Hcs]. pose proof (step_ok s call H Hc) as H'. destruct (IH _ H' Hcs) as [H1 H2].
  split; [done|]. intros Hne. rewrite (H2 Hne).
  assert (Hne' : gs_result (session_step s call) <> SessionResult.LoseTime).
  { intros E. apply Hne. clear -E. revert E. generalize (session_step s call). clear s.
    induction calls as [|c calls IH]; intros s E; cbn [foldl]; [done|]. by apply IH, lost_stays. }
  rewrite step_clock by done. lia.
Qed.

(** How a game is won. *)
Lemma win_step s call : gs_result s = SessionResult.Ongoing -> gs_result (session_step s call) = SessionResult.Win ->
  let s' := session_step s call in
  all_filled (gs_values s') = true /\ match call with CallMove _ _ _ => gs_values s' = SOLUTION | _ => True end.
Proof.
  intros Ho. destruct call; cbn [session_step]; unfold session_tick, make_move, session_clear, toggle_note, hint, hint_at, toggle_pause;
    repeat case_match; cbn; try congruence; try (intros _; done).
  intros _. by apply andb_true_iff in H2 as [? ?%bool_decide_eq_true].
Qed.
End SessionSteps.

(** Whatever is played on a new game, by calls with arguments of their
    types, every cell's state tells whether it is a clue, blank, right or
    wrong, and clues keep their value; filled cells hold no notes; lives and
    mistakes add up; hints and time stay within the difficulty's limits, and
    the limits' ends are exactly the two ways to lose.  Until time runs out
    the clock shows exactly the time of the ticks that found the game running.
    A game is won on a full board, and if by a move, with the solution. *)
Theorem sudoku_session_consistent (d : Difficulty) (calls : list SessionCall) : Forall call_ok calls ->
  exists s0, game_session_new d = Some s0 /\
  let s := foldl session_step s0 calls in
  session_ok d (gs_puzzle s0) s /\
  (gs_result s <> SessionResult.LoseTime -> clock_ns s = played s0 calls) /\
  (forall call, gs_result s = SessionResult.Ongoing -> gs_result (session_step s call) = SessionResult.Win ->
   all_filled (gs_values (session_step s call)) = true /\
   match call with CallMove _ _ _ => gs_values (session_step s call) = SOLUTION | _ => True end).
Proof.
  intros Hc. destruct (generate_spec 0x5EED2026 d) as (puzzle & E & Hp & _); [done|].
  exists (session_on d puzzle). unfold game_session_new. rewrite E. split; [done|]. cbn zeta.
  destruct (run_ok d puzzle calls _ (session_on_ok d puzzle Hp) Hc) as [H1 H2]. split; [exact H1|]. split.
  - intros Hne. by rewrite (H2 Hne).
  - intros call. apply win_step.
Qed.

Lemma sudoku_puzzle_unique_witness : exists puzzle, generate (generator_new 0x5EED2026) Hard = Some puzzle /\
  forall h, valid_sudoku h /\ extends puzzle h <-> h = SOLUTION.
Proof.
  destruct (sudoku_puzzle_unique 0x5EED2026 Hard) as (puzzle & H1 & _ & H2 & _); [by vm_compute|].
  exact (ex_intro _ puzzle (conj H1 H2)).
Defined.

Definition sample_play : list SessionCall :=
  [CallTick 1500000000; CallMove 0 1 3; CallPause; CallTick 4000000000; CallPause; CallHint; CallTick 500000000].

Lemma sudoku_session_consistent_witness : exists s0, game_session_new Easy = Some s0 /\
  session_ok Easy (gs_puzzle s0) (foldl session_step s0 sample_play).
Proof.
  destruct (sudoku_session_consistent Easy sample_play) as (s0 & H1 & H2 & _).
  - unfold sample_play, call_ok, is_u. repeat constructor; lia.
  - exact (ex_intro _ s0 (conj H1 H2)).
Defined.

(** ** Defects *)

(** The stored grid with two blanks. *)
Definition nearly_done : grid := put2 (put2 SOLUTION 0 0 0) 0 1 0.

(** [hint_at] asks only whether the board is full: after a wrong digit the
    last hint wins the game. *)
Example hint_wins_with_wrong_cell :
  let s := foldl session_step (session_on Easy nearly_done) [CallMove 0 0 9; CallHintAt 0 1] in
  gs_result s = SessionResult.Win /\ gs_values s <> SOLUTION /\ state_at (gs_states s) 0 0 = CellState.Error /\
  score s = (3, 21300).
Proof. vm_compute. by repeat split. Qed.

(** Moves are refused while the game is paused, hints are not. *)
Example hint_while_paused :
  let s := session_step (session_on Easy nearly_done) CallPause in
  make_move s 0 0 5 = (s, (false, false)) /\ snd (hint s) = Some (0%nat, 0%nat, 5).
Proof. vm_compute. by split. Qed.

(** [clear] empties cells of a finished game, which stays won. *)
Example clear_after_win :
  let s := foldl session_step (session_on Easy nearly_done) [CallMove 0 0 5; CallMove 0 1 3; CallClear 0 0] in
  gs_result s = SessionResult.Win /\ all_filled (gs_values s) = false.
Proof. vm_compute. by split. Qed.
