(* ===== verification/Rubik.v ===== *)
(** The cube example's state ([examples/rubik_3d/state.rs]): cubies with
    coordinates and orientations, layer turns, the 54 facelets derived from
    them, and the undo and redo stacks.

    Theorems: turns invert each other and have order four, the facelets of
    every reachable cube are all painted, nine of each colour; with at most 512
    moves, undo and redo walk along the moves made.  The example shows an undo
    that goes to a state that never was once the history is full. *)

From stdpp Require Import sets.
From S2P Require Import Prelude.

Local Open Scope Z_scope.
Local Open Scope kit_scope.

(** ** Turns

    The components of coordinates, normals and orientations stay in [-1..1],
    so that no [i8] operation overflows ([rotations_range]). *)
Definition CUBIE_COUNT : nat := 27.
Definition FACELET_COUNT : nat := 54.

Inductive Axis := X | Y | Z_.
#[export] Instance Axis_eq_dec : EqDecision Axis.
Proof. solve_decision. Defined.

Record RotationCommand := mkRotation { rc_axis : Axis; rc_layer : Z; rc_direction : Z }.
#[export] Instance RotationCommand_eq_dec : EqDecision RotationCommand.
Proof. solve_decision. Defined.

Definition rotation_new (axis : Axis) (layer direction : Z) : option RotationCommand :=
  if (layer <? -1) || (1 <? layer) || negb (direction =? -1) && negb (direction =? 1) then None
  else Some (mkRotation axis layer direction).

Definition inverse (c : RotationCommand) : RotationCommand := mkRotation (rc_axis c) (rc_layer c) (- rc_direction c).

Abbreviation vec := (Z * Z * Z)%type.
Abbreviation matrix := (vec * vec * vec)%type.

Definition axis_component (v : vec) (axis : Axis) : Z :=
  let '(x, y, z) := v in match axis with X => x | Y => y | Z_ => z end.

Record Cubie := mkCubie { cb_coordinate : vec; cb_orientation : matrix; cb_face_colors : list Z }.
#[export] Instance Cubie_eq_dec : EqDecision Cubie.
Proof. solve_decision. Defined.

(** Local face order: +Z, -Z, -X, +X, +Y, -Y. *)
Definition face_normals : list vec := [(0, 0, 1); (0, 0, -1); (-1, 0, 0); (1, 0, 0); (0, 1, 0); (0, -1, 0)].

Definition identity_orientation : matrix := ((1, 0, 0), (0, 1, 0), (0, 0, 1)).

Definition initial_face_colors (coordinate : vec) : list Z :=
  let '(x, y, z) := coordinate in
  [if z =? 1 then 2 else 6; if z =? -1 then 5 else 6; if x =? -1 then 0 else 6;
   if x =? 1 then 3 else 6; if y =? 1 then 4 else 6; if y =? -1 then 1 else 6].

Definition rotation_matrix (axis : Axis) (direction : Z) : matrix :=
  if direction =? 1 then
    match axis with
    | X => ((1, 0, 0), (0, 0, -1), (0, 1, 0))
    | Y => ((0, 0, 1), (0, 1, 0), (-1, 0, 0))
    | Z_ => ((0, -1, 0), (1, 0, 0), (0, 0, 1))
    end
  else if direction =? -1 then
    match axis with
    | X => ((1, 0, 0), (0, 0, 1), (0, -1, 0))
    | Y => ((0, 0, -1), (0, 1, 0), (1, 0, 0))
    | Z_ => ((0, 1, 0), (-1, 0, 0), (0, 0, 1))
    end
  else identity_orientation.

Definition rotate_coordinate (coordinate : vec) (axis : Axis) (direction : Z) : vec :=
  let '(x, y, z) := coordinate in
  if direction =? 1 then
    match axis with X => (x, - z, y) | Y => (z, y, - x) | Z_ => (- y, x, z) end
  else if direction =? -1 then
    match axis with X => (x, z, - y) | Y => (- z, y, x) | Z_ => (y, - x, z) end
  else coordinate.

Definition multiply_vec (m : matrix) (v : vec) : vec :=
  let '((a, b, c), (d, e, f), (g, h, i)) := m in
  let '(x, y, z) := v in
  (a * x + b * y + c * z, d * x + e * y + f * z, g * x + h * y + i * z).

Definition multiply_i8 (m n : matrix) : matrix :=
  let '((a, b, c), (d, e, f), (g, h, i)) := n in
  let '(x1, y1, z1) := multiply_vec m (a, d, g) in
  let '(x2, y2, z2) := multiply_vec m (b, e, h) in
  let '(x3, y3, z3) := multiply_vec m (c, f, i) in
  ((x1, x2, x3), (y1, y2, y3), (z1, z2, z3)).

Definition turn_cubie (command : RotationCommand) (cubie : Cubie) : Cubie :=
  if axis_component (cb_coordinate cubie) (rc_axis command) =? rc_layer command then
    {| cb_coordinate := rotate_coordinate (cb_coordinate cubie) (rc_axis command) (rc_direction command);
       cb_orientation := multiply_i8 (rotation_matrix (rc_axis command) (rc_direction command)) (cb_orientation cubie);
       cb_face_colors := cb_face_colors cubie |}
  else cubie.

(** The cubies after the loop, and whether one changed. *)
Definition apply_raw (cubies : list Cubie) (command : RotationCommand) : list Cubie * bool :=
  (map (turn_cubie command) cubies,
   existsb (fun cubie => axis_component (cb_coordinate cubie) (rc_axis command) =? rc_layer command) cubies).

(** ** Facelets *)

(** A row or column out of range is a panic; [None] is one. *)
Definition facelet_index (normal coordinate : vec) : option nat :=
  let face : Z := match list_find (eq normal) face_normals with Some (i, _) => Z.of_nat i | None => 0 end in
  let '(x, y, z) := coordinate in
  let '(row, column) :=
    if face =? 0 then (1 - y, x + 1)
    else if face =? 1 then (1 - y, 1 - x)
    else if face =? 2 then (1 - y, 1 - z)
    else if face =? 3 then (1 - y, z + 1)
    else if face =? 4 then (z + 1, x + 1)
    else (1 - z, x + 1) in
  let index := face * 9 + row * 3 + column in
  if (0 <=? row) && (0 <=? column) && (index <? 54) then Some (Z.to_nat index) else None.

Definition first_axis (v : vec) : option Axis :=
  let '(x, y, z) := v in
  if negb (x =? 0) then Some X else if negb (y =? 0) then Some Y else if negb (z =? 0) then Some Z_ else None.

(** The body of the inner loop: the facelet a colour goes to, if it is shown. *)
Definition sticker (cubie : Cubie) (local_face : nat) (color : Z) : option (option nat) :=
  if 6 <=? color then Some None
  else
    normal ← face_normals !! local_face;
    let normal := multiply_vec (cb_orientation cubie) normal in
    match first_axis normal with
    | None => Some None
    | Some axis =>
        if negb (axis_component (cb_coordinate cubie) axis =? axis_component normal axis) then Some None
        else index ← facelet_index normal (cb_coordinate cubie); Some (Some index)
    end.

Fixpoint paint_faces (cubie : Cubie) (local_face : nat) (colors : list Z) (facelets : list Z) : option (list Z) :=
  match colors with
  | [] => Some facelets
  | color :: colors =>
      at_ ← sticker cubie local_face color;
      paint_faces cubie (S local_face) colors (match at_ with Some index => <[index := color]> facelets | None => facelets end)
  end.

Fixpoint paint_cubies (cubies : list Cubie) (facelets : list Z) : option (list Z) :=
  match cubies with
  | [] => Some facelets
  | cubie :: cubies => facelets ← paint_faces cubie 0 (cb_face_colors cubie) facelets; paint_cubies cubies facelets
  end.

Definition sync_facelets (cubies : list Cubie) : option (list Z) := paint_cubies cubies (replicate FACELET_COUNT 6).

(** ** The cube *)
Record CubeState := mkCube {
  cs_cubies : list Cubie;
  cs_facelets : list Z;
  cs_history : list RotationCommand;
  cs_redo : list RotationCommand
}.

Definition initial_coordinate (index : nat) : vec :=
  (Z.of_nat (index mod 3) - 1, Z.of_nat ((index / 3) mod 3) - 1, Z.of_nat (index / 9) - 1).

Definition initial_cubies : list Cubie :=
  map (fun index => mkCubie (initial_coordinate index) identity_orientation (initial_face_colors (initial_coordinate index)))
    (seq 0 CUBIE_COUNT).

Definition cube_new : option CubeState :=
  facelets ← sync_facelets initial_cubies; Some (mkCube initial_cubies facelets [] []).

(** [PartialEq] leaves the two stacks out. *)
Definition cube_eqb (a b : CubeState) : bool :=
  bool_decide (cs_cubies a = cs_cubies b) && bool_decide (cs_facelets a = cs_facelets b).

Definition is_solved (s : CubeState) : bool :=
  forallb (fun face => match take 9 (drop (face * 9) (cs_facelets s)) with
                       | [] => true
                       | c :: rest => forallb (fun d => d =? c) (c :: rest)
                       end) (seq 0 6).

Definition push_bounded (l : list RotationCommand) (c : RotationCommand) : list RotationCommand :=
  if (length l <? 512)%nat then l ++ [c] else l.

Definition apply_move (s : CubeState) (command : RotationCommand) : option (CubeState * bool) :=
  match apply_raw (cs_cubies s) command with
  | (cubies, false) => Some (mkCube cubies (cs_facelets s) (cs_history s) (cs_redo s), false)
  | (cubies, true) =>
      facelets ← sync_facelets cubies;
      Some (mkCube cubies facelets (push_bounded (cs_history s) command) [], true)
  end.

Definition undo (s : CubeState) : option (CubeState * bool) :=
  match vec_pop (cs_history s) with
  | None => Some (s, false)
  | Some (command, history) =>
      match apply_raw (cs_cubies s) (inverse command) with
      | (cubies, false) => Some (mkCube cubies (cs_facelets s) history (cs_redo s), false)
      | (cubies, true) =>
          facelets ← sync_facelets cubies;
          Some (mkCube cubies facelets history (push_bounded (cs_redo s) command), true)
      end
  end.

Definition redo (s : CubeState) : option (CubeState * bool) :=
  match vec_pop (cs_redo s) with
  | None => Some (s, false)
  | Some (command, undone) =>
      match apply_raw (cs_cubies s) command with
      | (cubies, false) => Some (mkCube cubies (cs_facelets s) (cs_history s) undone, false)
      | (cubies, true) =>
          facelets ← sync_facelets cubies;
          Some (mkCube cubies facelets (push_bounded (cs_history s) command) undone, true)
      end
  end.

(** The bounded 54-facelet view of a new cube. *)
Example new_cube_solved : option_map is_solved cube_new = Some true.
Proof. vm_compute. reflexivity. Qed.

(** ** Rotations *)
Definition quarter (axis : Axis) : list matrix :=
  let r := rotation_matrix axis 1 in [identity_orientation; r; multiply_i8 r r; multiply_i8 r (multiply_i8 r r)].

(** The 24 orientations: a face to show at the top, and four turns. *)
Definition rotations : list matrix :=
  flat_map (fun a => map (multiply_i8 a) (quarter Z_))
    (quarter X ++ [rotation_matrix Y 1; rotation_matrix Y (-1)]).

Definition valid_rotation (c : RotationCommand) : Prop :=
  (rc_layer c = -1 \/ rc_layer c = 0 \/ rc_layer c = 1) /\ (rc_direction c = 1 \/ rc_direction c = -1).

Lemma rotation_new_valid axis layer direction c : rotation_new axis layer direction = Some c -> valid_rotation c.
Proof.
  unfold rotation_new. destruct ((_ || _) || _) eqn:E; [done|]. intros [= <-]. unfold valid_rotation. cbn.
  destruct (Z.eqb_spec direction (-1)), (Z.eqb_spec direction 1); cbn in E; lia.
Qed.

Lemma inverse_valid c : valid_rotation c -> valid_rotation (inverse c).
Proof. intros [H1 H2]. split; [done|]. cbn. lia. Qed.

Lemma inverse_inverse c : inverse (inverse c) = c.
Proof. destruct c as [a l d]. unfold inverse. cbn. by rewrite Z.opp_involutive. Qed.

(** Equal triples by their components. *)
Ltac split_pairs := repeat match goal with |- (_, _) = (_, _) => apply f_equal2 end.

Lemma rotate_coordinate_matrix v axis direction :
  rotate_coordinate v axis direction = multiply_vec (rotation_matrix axis direction) v.
Proof.
  destruct v as [[x y] z]. unfold rotate_coordinate, rotation_matrix.
  destruct (direction =? 1); [|destruct (direction =? -1)]; destruct axis; cbn [multiply_vec identity_orientation];
    split_pairs; lia.
Qed.

Lemma multiply_assoc m n v : multiply_vec (multiply_i8 m n) v = multiply_vec m (multiply_vec n v).
Proof.
  destruct m as [[[[a b] c] [[d e] f]] [[g h] i]], n as [[[[a' b'] c'] [[d' e'] f']] [[g' h'] i']], v as [[x y] z].
  unfold multiply_i8, multiply_vec. split_pairs; ring.
Qed.

Lemma rotation_closed axis direction m : direction = 1 \/ direction = -1 -> m ∈ rotations ->
  multiply_i8 (rotation_matrix axis direction) m ∈ rotations.
Proof.
  assert (K : Forall (fun m => Forall (fun a => multiply_i8 (rotation_matrix a 1) m ∈ rotations /\
    multiply_i8 (rotation_matrix a (-1)) m ∈ rotations) [X; Y; Z_]) rotations)
    by (apply (bool_decide_unpack _); by vm_compute).
  intros Hd Hm. rewrite list.Forall_forall in K. specialize (K m Hm).
  rewrite list.Forall_forall in K. destruct (K axis) as [K1 K2]; [rewrite !elem_of_cons; destruct axis; auto|].
  destruct Hd as [-> | ->]; [exact K1|exact K2].
Qed.

(** A turn on coordinates alone. *)
Definition turn_vec (c : RotationCommand) (v : vec) : vec :=
  if axis_component v (rc_axis c) =? rc_layer c then rotate_coordinate v (rc_axis c) (rc_direction c) else v.

Lemma turn_coordinate c cubie : cb_coordinate (turn_cubie c cubie) = turn_vec c (cb_coordinate cubie).
Proof. unfold turn_cubie, turn_vec. by destruct (_ =? _). Qed.

Lemma component_rotate v axis direction : axis_component (rotate_coordinate v axis direction) axis = axis_component v axis.
Proof.
  destruct v as [[x y] z]. unfold rotate_coordinate. destruct (direction =? 1), (direction =? -1); by destruct axis.
Qed.

Lemma rotate_back v axis direction : direction = 1 \/ direction = -1 ->
  rotate_coordinate (rotate_coordinate v axis direction) axis (- direction) = v.
Proof.
  destruct v as [[x y] z]. intros [-> | ->]; destruct axis; cbn; rewrite ?Z.opp_involutive; done.
Qed.

Lemma matrix_back m axis direction : direction = 1 \/ direction = -1 ->
  multiply_i8 (rotation_matrix axis (- direction)) (multiply_i8 (rotation_matrix axis direction) m) = m.
Proof.
  destruct m as [[[[a b] c] [[d e] f]] [[g h] i]].
  intros [-> | ->]; [change (- (1)) with (-1)|change (- (-1)) with 1]; destruct axis; unfold rotation_matrix;
    cbn [Z.eqb Pos.eqb multiply_i8 multiply_vec]; split_pairs; lia.
Qed.

Lemma turn_vec_inverse c v : valid_rotation c -> turn_vec (inverse c) (turn_vec c v) = v.
Proof.
  intros [_ Hd]. unfold turn_vec. cbn [inverse rc_axis rc_layer rc_direction].
  destruct (Z.eqb_spec (axis_component v (rc_axis c)) (rc_layer c)) as [E|E].
  - rewrite component_rotate, (proj2 (Z.eqb_eq _ _) E). by apply rotate_back.
  - by rewrite (proj2 (Z.eqb_neq _ _) E).
Qed.

Lemma turn_cubie_inverse c cubie : valid_rotation c -> turn_cubie (inverse c) (turn_cubie c cubie) = cubie.
Proof.
  intros [_ Hd]. destruct cubie as [v m colors]. unfold turn_cubie at 2.
  cbn [cb_coordinate cb_orientation cb_face_colors]. destruct (Z.eqb_spec (axis_component v (rc_axis c)) (rc_layer c)) as [E|E];
    unfold turn_cubie; cbn [inverse rc_axis rc_layer rc_direction cb_coordinate cb_orientation cb_face_colors].
  - rewrite component_rotate, (proj2 (Z.eqb_eq _ _) E). f_equal; [by apply rotate_back|by apply matrix_back].
  - by rewrite (proj2 (Z.eqb_neq _ _) E).
Qed.

(** ** The cubies of a reachable cube *)
Record cubie_ok (i : nat) (cubie : Cubie) : Prop := {
  co_rotation : cb_orientation cubie ∈ rotations;
  co_coordinate : cb_coordinate cubie = multiply_vec (cb_orientation cubie) (initial_coordinate i);
  co_colors : cb_face_colors cubie = initial_face_colors (initial_coordinate i)
}.

Record cubies_ok (cubies : list Cubie) : Prop := {
  cu_count : length cubies = CUBIE_COUNT;
  cu_cubies i cubie : cubies !! i = Some cubie -> cubie_ok i cubie;
  cu_places : NoDup (map cb_coordinate cubies)
}.

Definition places : list vec := map initial_coordinate (seq 0 CUBIE_COUNT).

Lemma initial_cubies_ok : cubies_ok initial_cubies.
Proof.
  constructor; [done| |apply (bool_decide_unpack _); by vm_compute].
  intros i cubie H. unfold initial_cubies in H. rewrite list_lookup_fmap in H. apply fmap_Some in H as (j & Hj & ->).
  apply lookup_seq in Hj as [-> _]. constructor; cbn [cb_orientation cb_coordinate cb_face_colors]; [|by destruct (initial_coordinate _) as [[x y] z]; cbn; split_pairs; lia|done].
  apply (bool_decide_unpack _). by vm_compute.
Qed.

Lemma turn_cubie_ok c i cubie : valid_rotation c -> cubie_ok i cubie -> cubie_ok i (turn_cubie c cubie).
Proof.
  intros [_ Hd] [H1 H2 H3]. unfold turn_cubie. destruct (_ =? _); [|by constructor].
  constructor; cbn; [by apply rotation_closed| |done]. by rewrite rotate_coordinate_matrix, multiply_assoc, <- H2.
Qed.

Lemma turn_ok c cubies : valid_rotation c -> cubies_ok cubies -> cubies_ok (map (turn_cubie c) cubies).
Proof.
  intros Hc [H1 H2 H3]. constructor; [by rewrite length_map| |].
  - intros i cubie H. rewrite list_lookup_fmap in H. apply fmap_Some in H as (cubie' & H & ->).
    by apply turn_cubie_ok, H2.
  - rewrite map_map. rewrite (map_ext _ _ (turn_coordinate c)), <- map_map.
    apply (NoDup_fmap_2_strong (turn_vec c)); [|done]. intros x y _ _ E.
    rewrite <- (turn_vec_inverse c x Hc), <- (turn_vec_inverse c y Hc). by rewrite E.
Qed.

Lemma turn_back c cubies : valid_rotation c -> map (turn_cubie (inverse c)) (map (turn_cubie c) cubies) = cubies.
Proof. intros Hc. rewrite map_map. rewrite (map_ext _ (fun x => x)) by (intros; by apply turn_cubie_inverse). apply map_id. Qed.

(** The cubies are always in the 27 places. *)
Lemma cubies_places cubies : cubies_ok cubies -> map cb_coordinate cubies ≡ₚ places.
Proof.
  intros [H1 H2 H3].
  assert (K : Forall (fun m => Forall (fun v => multiply_vec m v ∈ places) places) rotations)
    by (apply (bool_decide_unpack _); by vm_compute).
  apply submseteq_length_Permutation.
  - apply NoDup_submseteq; [done|]. intros v Hv. apply list_elem_of_fmap in Hv as (cubie & -> & Hin).
    apply list_elem_of_lookup in Hin as [i Hi]. destruct (H2 i cubie Hi) as [K1 -> _].
    rewrite list.Forall_forall in K. specialize (K _ K1). rewrite list.Forall_forall in K.
    apply K. unfold places. apply list_elem_of_fmap. exists i. split; [done|]. apply elem_of_seq.
    apply lookup_lt_Some in Hi. lia.
  - by rewrite length_map, H1.
Qed.

(** Every layer has cubies, so that a valid turn always reports a change. *)
Lemma apply_raw_valid c cubies : valid_rotation c -> cubies_ok cubies ->
  apply_raw cubies c = (map (turn_cubie c) cubies, true).
Proof.
  intros [Hl _] H. unfold apply_raw. f_equal.
  assert (K : forall l, l = -1 \/ l = 0 \/ l = 1 -> exists v, v ∈ places /\ axis_component v (rc_axis c) = l).
  { intros l Hl'. exists (match rc_axis c with X => (l, 0, 0) | Y => (0, l, 0) | Z_ => (0, 0, l) end).
    destruct (rc_axis c), Hl' as [-> | [-> | ->]]; (split; [|done]); apply (bool_decide_unpack _); by vm_compute. }
  destruct (K _ Hl) as (v & Hv & E). rewrite <- (cubies_places cubies H) in Hv.
  apply list_elem_of_fmap in Hv as (cubie & -> & Hin). apply existsb_exists. exists cubie.
  split; [by apply list_elem_of_In|by apply Z.eqb_eq].
Qed.

(** ** Where the colours go *)
Definition mark (f : list Z) (m : nat * Z) : list Z := <[fst m := snd m]> f.

Fixpoint marks_faces (cubie : Cubie) (local_face : nat) (colors : list Z) : option (list (nat * Z)) :=
  match colors with
  | [] => Some []
  | color :: colors =>
      at_ ← sticker cubie local_face color;
      l ← marks_faces cubie (S local_face) colors;
      Some (match at_ with Some index => (index, color) :: l | None => l end)
  end.

Fixpoint marks_cubies (cubies : list Cubie) : option (list (nat * Z)) :=
  match cubies with
  | [] => Some []
  | cubie :: cubies =>
      l ← marks_faces cubie 0 (cb_face_colors cubie); l' ← marks_cubies cubies; Some (l ++ l')
  end.

Lemma paint_faces_marks cubie colors l : forall k f, marks_faces cubie k colors = Some l ->
  paint_faces cubie k colors f = Some (foldl mark f l).
Proof.
  revert l. induction colors as [|color colors IH]; intros l k f; cbn [marks_faces paint_faces]; [by intros [= <-]|].
  destruct (sticker cubie k color) as [at_|]; [|done]. cbn [mbind option_bind].
  destruct (marks_faces cubie (S k) colors) as [l'|] eqn:E; [|done]. cbn. intros [= <-].
  rewrite (IH l' (S k) _ E). by destruct at_.
Qed.

Lemma paint_cubies_marks cubies l : forall f, marks_cubies cubies = Some l ->
  paint_cubies cubies f = Some (foldl mark f l).
Proof.
  revert l. induction cubies as [|cubie cubies IH]; intros l f; cbn [marks_cubies paint_cubies]; [by intros [= <-]|].
  destruct (marks_faces _ _ _) as [l1|] eqn:E1; [|done]. cbn. destruct (marks_cubies cubies) as [l2|] eqn:E2; [|done].
  cbn. intros [= <-]. rewrite (paint_faces_marks _ _ l1) by done. cbn. by rewrite (IH l2), foldl_app.
Qed.

(** The painted faces of the [i]-th cubie, and of all: cubie, face and colour. *)
Definition visible (i : nat) : list (nat * Z) :=
  List.filter (fun p => snd p <? 6) (imap (fun k color => (k, color)) (initial_face_colors (initial_coordinate i))).
Definition all_stickers : list (nat * (nat * Z)) := flat_map (fun i => map (pair i) (visible i)) (seq 0 CUBIE_COUNT).

Definition normal_of (k : nat) : vec := default (0, 0, 0) (face_normals !! k).
(** Normal and place of a sticker under the orientation [m] of its cubie. *)
Definition spot (m : matrix) (i k : nat) : vec * vec := (multiply_vec m (normal_of k), multiply_vec m (initial_coordinate i)).
Definition spot_index (s : vec * vec) : nat := default 0%nat (facelet_index (fst s) (snd s)).
Definition spots : list (vec * vec) := map (fun p => spot identity_orientation (fst p) (fst (snd p))) all_stickers.

Definition cubie_at (m : matrix) (i : nat) : Cubie :=
  mkCubie (multiply_vec m (initial_coordinate i)) m (initial_face_colors (initial_coordinate i)).
Definition cubie_marks (m : matrix) (i : nat) : list (nat * Z) :=
  map (fun p => (spot_index (spot m i (fst p)), snd p)) (visible i).

(** The finite facts: 24 orientations, 27 places, 54 stickers. *)
Lemma marks_computed : Forall (fun m => Forall (fun i =>
  marks_faces (cubie_at m i) 0 (initial_face_colors (initial_coordinate i)) = Some (cubie_marks m i) /\
  Forall (fun p => spot m i (fst p) ∈ spots) (visible i)) (seq 0 CUBIE_COUNT)) rotations.
Proof. apply (bool_decide_unpack _). by vm_compute. Qed.

Lemma spots_distinct : NoDup (map spot_index spots) /\ Forall (fun s => (spot_index s < FACELET_COUNT)%nat) spots.
Proof. apply (bool_decide_unpack _). by vm_compute. Qed.

Lemma normals_distinct : Forall (fun m => NoDup (map (fun k => multiply_vec m (normal_of k)) (seq 0 6))) rotations.
Proof. apply (bool_decide_unpack _). by vm_compute. Qed.

Lemma all_stickers_distinct : NoDup all_stickers /\ length all_stickers = FACELET_COUNT /\
  Forall (fun p => Forall (fun q => fst p = fst q -> fst (snd p) = fst (snd q) -> p = q) all_stickers /\
    (fst p < CUBIE_COUNT)%nat /\ (fst (snd p) < 6)%nat /\ snd p ∈ visible (fst p)) all_stickers.
Proof. apply (bool_decide_unpack _). by vm_compute. Qed.

Section Painting.
Context (cubies : list Cubie) (Hok : cubies_ok cubies).

(** The orientation of each cubie determines the cube. *)
Definition orientation_of (i : nat) : matrix := default identity_orientation (cb_orientation <$> cubies !! i).

Lemma cubie_at_spec i : (i < CUBIE_COUNT)%nat -> cubies !! i = Some (cubie_at (orientation_of i) i) /\ orientation_of i ∈ rotations.
Proof.
  intros Hi. destruct (lookup_lt_is_Some_2 cubies i) as [cubie E]; [by rewrite (cu_count _ Hok)|].
  destruct (cu_cubies _ Hok i cubie E) as [H1 H2 H3]. unfold orientation_of. rewrite E. cbn. split; [|done].
  destruct cubie. cbn in *. by subst.
Qed.

Lemma cubies_seq : cubies = map (fun i => cubie_at (orientation_of i) i) (seq 0 CUBIE_COUNT).
Proof.
  apply list_eq_same_length with CUBIE_COUNT; [by rewrite length_map, length_seq|apply (cu_count _ Hok)|].
  intros i x y Hi Hx Hy. destruct (cubie_at_spec i Hi) as [E _]. rewrite list_lookup_fmap, lookup_seq_lt in Hy by done.
  cbn in Hy. congruence.
Qed.

Lemma marks_seq is_ : Forall (fun i => (i < CUBIE_COUNT)%nat) is_ ->
  marks_cubies (map (fun i => cubie_at (orientation_of i) i) is_) = Some (flat_map (fun i => cubie_marks (orientation_of i) i) is_).
Proof.
  induction 1 as [|i is_ Hi _ IH]; [done|]. cbn [map marks_cubies flat_map]. pose proof marks_computed as K.
  rewrite list.Forall_forall in K. specialize (K _ (proj2 (cubie_at_spec i Hi))). rewrite list.Forall_forall in K.
  destruct (K i) as [K1 _]; [apply elem_of_seq; lia|]. cbn [cubie_at cb_face_colors]. fold (cubie_at (orientation_of i) i).
  rewrite K1. cbn [mbind option_bind]. by rewrite IH.
Qed.

Definition place_sticker (p : nat * (nat * Z)) : nat * Z :=
  (spot_index (spot (orientation_of (fst p)) (fst p) (fst (snd p))), snd (snd p)).

Lemma marks_all : marks_cubies cubies = Some (map place_sticker all_stickers).
Proof.
  rewrite cubies_seq at 1. rewrite marks_seq by (apply list.Forall_forall; intros i Hi%elem_of_seq; lia).
  apply (f_equal Some). unfold all_stickers. generalize (seq 0 CUBIE_COUNT). intros l. induction l as [|i l IH]; [done|].
  cbn [flat_map]. rewrite map_app, <- IH, map_map. done.
Qed.

Lemma spot_in p : p ∈ all_stickers -> spot (orientation_of (fst p)) (fst p) (fst (snd p)) ∈ spots.
Proof.
  intros Hp. destruct all_stickers_distinct as (_ & _ & H). rewrite list.Forall_forall in H.
  destruct (H p Hp) as (_ & Hi & _ & Hv). pose proof marks_computed as K. rewrite list.Forall_forall in K.
  specialize (K _ (proj2 (cubie_at_spec _ Hi))). rewrite list.Forall_forall in K.
  destruct (K (fst p)) as [_ K2]; [apply elem_of_seq; lia|]. rewrite list.Forall_forall in K2. by apply (K2 (snd p)).
Qed.

(** Distinct stickers are at distinct facelets. *)
Lemma sticker_inj p q : p ∈ all_stickers -> q ∈ all_stickers -> fst (place_sticker p) = fst (place_sticker q) -> p = q.
Proof.
  intros Hp Hq E. destruct all_stickers_distinct as (_ & _ & H). rewrite list.Forall_forall in H.
  destruct (H p Hp) as (Hpq & Hip & Hkp & _), (H q Hq) as (_ & Hiq & Hkq & _).
  rewrite list.Forall_forall in Hpq. cbn [place_sticker fst] in E.
  assert (Es : spot (orientation_of (fst p)) (fst p) (fst (snd p)) = spot (orientation_of (fst q)) (fst q) (fst (snd q))).
  { pose proof (spot_in p Hp) as Sp. pose proof (spot_in q Hq) as Sq. apply list_elem_of_lookup in Sp as [a Sa], Sq as [b Sb].
    assert (a = b); [|congruence]. apply (NoDup_lookup (map spot_index spots) a b (spot_index (spot (orientation_of (fst p)) (fst p) (fst (snd p))))).
    - apply spots_distinct.
    - by rewrite list_lookup_fmap, Sa.
    - rewrite list_lookup_fmap, Sb. cbn. by rewrite E. }
  unfold spot in Es. injection Es as En Ec.
  assert (Ei : fst p = fst q).
  { apply (NoDup_lookup (map cb_coordinate cubies) _ _ (cb_coordinate (cubie_at (orientation_of (fst p)) (fst p))) (cu_places _ Hok)).
    - by rewrite list_lookup_fmap, (proj1 (cubie_at_spec _ Hip)).
    - rewrite list_lookup_fmap, (proj1 (cubie_at_spec _ Hiq)). cbn. by rewrite Ec. }
  apply Hpq; [done|done|]. rewrite Ei in En. pose proof normals_distinct as K. rewrite list.Forall_forall in K.
  specialize (K _ (proj2 (cubie_at_spec _ Hiq))).
  apply (NoDup_lookup _ _ _ (multiply_vec (orientation_of (fst q)) (normal_of (fst (snd q)))) K);
    rewrite list_lookup_fmap, lookup_seq_lt by done; cbn; congruence.
Qed.

Lemma marks_distinct : NoDup (map fst (map place_sticker all_stickers)) /\
  map fst (map place_sticker all_stickers) ≡ₚ seq 0 FACELET_COUNT.
Proof.
  assert (Hnd : NoDup (map fst (map place_sticker all_stickers))).
  { rewrite map_map. apply (NoDup_fmap_2_strong (fun p => fst (place_sticker p))); [|apply all_stickers_distinct].
    intros p q Hp Hq. by apply sticker_inj. }
  split; [done|]. apply submseteq_length_Permutation.
  - apply NoDup_submseteq; [done|]. intros i Hi. rewrite map_map in Hi. apply list_elem_of_fmap in Hi as (p & -> & Hp).
    apply elem_of_seq. destruct spots_distinct as [_ K]. rewrite list.Forall_forall in K. specialize (K _ (spot_in p Hp)).
    cbn [place_sticker fst]. lia.
  - rewrite !length_map, length_seq, (proj1 (proj2 all_stickers_distinct)). done.
Qed.
End Painting.

(** Writing every place once. *)
Lemma foldl_mark_length l : forall f, length (foldl mark f l) = length f.
Proof. induction l as [|m l IH]; intros f; cbn [foldl]; [done|]. rewrite IH. apply length_insert. Qed.

Lemma foldl_mark_other l i : forall f, i ∉ map fst l -> foldl mark f l !! i = f !! i.
Proof.
  induction l as [|[j c] l IH]; intros f Hi; cbn [foldl]; [done|]. cbn [map] in Hi. apply not_elem_of_cons in Hi as [Hne Hi].
  rewrite IH by done. by apply list_lookup_insert_ne.
Qed.

Lemma foldl_mark_lookup l : forall f, NoDup (map fst l) -> Forall (fun m => (fst m < length f)%nat) l ->
  Forall (fun m => foldl mark f l !! fst m = Some (snd m)) l.
Proof.
  induction l as [|m l IH]; intros f Hnd Hlt; [constructor|]. cbn [map] in Hnd.
  apply list.NoDup_cons in Hnd as [Hm Hnd]. apply list.Forall_cons in Hlt as [Hlt Hlts]. cbn [foldl]. constructor.
  - rewrite foldl_mark_other by done. by apply list_lookup_insert_eq.
  - apply IH; [done|]. unfold mark. by rewrite length_insert.
Qed.

Lemma foldl_mark_Permutation l f : map fst l ≡ₚ seq 0 (length f) -> foldl mark f l ≡ₚ map snd l.
Proof.
  intros Hp. assert (Hnd : NoDup (map fst l)) by (rewrite Hp; apply NoDup_seq).
  assert (Hlt : Forall (fun m => (fst m < length f)%nat) l).
  { apply list.Forall_forall. intros m Hm. assert (Hs : fst m ∈ map fst l) by (by apply list_elem_of_fmap_2).
    rewrite Hp in Hs. apply elem_of_seq in Hs. lia. }
  pose proof (foldl_mark_lookup l f Hnd Hlt) as K. set (g := foldl mark f l) in *.
  assert (E1 : map (fun i => g !! i) (map fst l) = map Some (map snd l)).
  { rewrite !map_map. apply map_ext_in. intros m Hm. rewrite list.Forall_forall in K. apply K. by apply list_elem_of_In. }
  assert (E2 : map (fun i => g !! i) (seq 0 (length f)) = map Some g).
  { apply list_eq. intros i. rewrite !list_lookup_fmap. destruct (decide (i < length f)%nat) as [Hi|Hi].
    - rewrite lookup_seq_lt by done. cbn. destruct (lookup_lt_is_Some_2 g i) as [x ->]; [by unfold g; rewrite foldl_mark_length|done].
    - rewrite lookup_seq_ge by lia. rewrite (lookup_ge_None_2 g); [done|]. unfold g. rewrite foldl_mark_length. lia. }
  assert (Eo : forall x : list Z, omap id (map Some x) = x) by (intros x; induction x as [|a x IH]; [done|]; cbn; f_equal; exact IH).
  rewrite <- (Eo g), <- (Eo (map snd l)), <- E1, <- E2. apply omap_Permutation, Permutation_map. by symmetry.
Qed.

(** What the facelets of a cube look like. *)
Record facelets_ok (facelets : list Z) : Prop := {
  fo_count : length facelets = FACELET_COUNT;
  fo_colors c : 0 <= c < 6 -> length (filter (fun d => d = c) facelets) = 9%nat
}.

Lemma sync_facelets_spec cubies : cubies_ok cubies -> exists facelets, sync_facelets cubies = Some facelets /\ facelets_ok facelets.
Proof.
  intros H. destruct (marks_distinct cubies H) as [_ Hp]. unfold sync_facelets.
  rewrite (paint_cubies_marks _ _ _ (marks_all cubies H)). eexists. split; [done|].
  pose proof (foldl_mark_Permutation (map (place_sticker cubies) all_stickers) (replicate FACELET_COUNT 6)) as K.
  rewrite length_replicate in K. specialize (K Hp). constructor.
  - by rewrite foldl_mark_length, length_replicate.
  - intros c Hc. rewrite K, map_map. cbn [place_sticker snd].
    assert (Hall : Forall (fun c => length (filter (fun d => d = c) (map (fun p => snd (snd p)) all_stickers)) = 9%nat) (seqZ 0 6))
      by (apply (bool_decide_unpack _); by vm_compute).
    rewrite list.Forall_forall in Hall. apply Hall, elem_of_seqZ. lia.
Qed.

(** ** The timeline

    What the three operations promise: the moves made, and the moves undone
    with the newest first. *)
Inductive CubeCall := CubeMove (command : RotationCommand) | CubeUndo | CubeRedo.

Abbreviation timeline := (list RotationCommand * list RotationCommand)%type.
Definition timeline_step (t : timeline) (call : CubeCall) : timeline * bool :=
  match call, t with
  | CubeMove c, (made, _) => ((made ++ [c], []), true)
  | CubeUndo, (made, undone) =>
      match vec_pop made with Some (c, made) => ((made, c :: undone), true) | None => (t, false) end
  | CubeRedo, (made, c :: undone) => ((made ++ [c], undone), true)
  | CubeRedo, (_, []) => (t, false)
  end.

Definition cube_step (s : CubeState) (call : CubeCall) : option (CubeState * bool) :=
  match call with CubeMove c => apply_move s c | CubeUndo => undo s | CubeRedo => redo s end.

Fixpoint cube_run (s : CubeState) (calls : list CubeCall) : option (CubeState * list bool) :=
  match calls with
  | [] => Some (s, [])
  | call :: calls => '(s, b) ← cube_step s call; '(s, bs) ← cube_run s calls; Some (s, b :: bs)
  end.

Fixpoint timeline_run (t : timeline) (calls : list CubeCall) : timeline * list bool :=
  match calls with
  | [] => (t, [])
  | call :: calls => let '(t, b) := timeline_step t call in let '(t, bs) := timeline_run t calls in (t, b :: bs)
  end.

Definition call_valid (call : CubeCall) : Prop := match call with CubeMove c => valid_rotation c | _ => True end.
Definition moves (calls : list CubeCall) : nat :=
  length (List.filter (fun call => match call with CubeMove _ => true | _ => false end) calls).

(** The cubies after a list of turns of a new cube. *)
Definition turned (made : list RotationCommand) : list Cubie :=
  foldl (fun cubies c => map (turn_cubie c) cubies) initial_cubies made.

Record follows (s : CubeState) (t : timeline) : Prop := {
  fl_valid : Forall valid_rotation (fst t ++ snd t);
  fl_cubies : cs_cubies s = turned (fst t);
  fl_history : cs_history s = fst t;
  fl_redo : cs_redo s = rev (snd t);
  fl_facelets : sync_facelets (cs_cubies s) = Some (cs_facelets s)
}.

Lemma turned_ok made : Forall valid_rotation made -> cubies_ok (turned made).
Proof.
  unfold turned. intros H. assert (K : cubies_ok initial_cubies) by exact initial_cubies_ok. revert K.
  generalize initial_cubies. induction H as [|c made Hc _ IH]; intros cubies K; cbn [foldl]; [done|]. by apply IH, turn_ok.
Qed.

Lemma turned_snoc made c : turned (made ++ [c]) = map (turn_cubie c) (turned made).
Proof. unfold turned. by rewrite foldl_app. Qed.

(** A turn with the new facelets, the common part of the three operations. *)
Lemma turn_facelets cubies c : cubies_ok cubies -> valid_rotation c -> exists facelets,
  apply_raw cubies c = (map (turn_cubie c) cubies, true) /\ sync_facelets (map (turn_cubie c) cubies) = Some facelets.
Proof.
  intros H Hc. destruct (sync_facelets_spec _ (turn_ok c cubies Hc H)) as (f & E & _). exists f.
  split; [by apply apply_raw_valid|done].
Qed.

Lemma push_bounded_small l c : (length l < 512)%nat -> push_bounded l c = l ++ [c].
Proof. intros H. unfold push_bounded. by rewrite (proj2 (Nat.ltb_lt _ _) H). Qed.

Lemma step_follows s t call : follows s t -> call_valid call -> (length (fst t) + length (snd t) + moves [call] <= 512)%nat ->
  exists s', cube_step s call = Some (s', snd (timeline_step t call)) /\ follows s' (fst (timeline_step t call)).
Proof.
  intros Ht Hcall Hlen. pose proof Ht as [Hv Hc Hh Hr Hf]. destruct t as [made undone]. cbn [fst snd] in *.
  apply list.Forall_app in Hv as [Hm Hu]. pose proof (turned_ok made Hm) as Hok.
  destruct call as [c| |]; cbn [cube_step timeline_step call_valid moves List.filter length] in *.
  - unfold apply_move. rewrite Hc. destruct (turn_facelets _ c Hok Hcall) as (f & -> & Ef). rewrite Ef. cbn [mbind option_bind fst snd].
    eexists. split; [done|]. constructor; cbn [cs_cubies cs_facelets cs_history cs_redo fst snd rev]; [|by rewrite turned_snoc| |done|done].
    + rewrite app_nil_r. apply list.Forall_app. split; [done|]. by constructor.
    + rewrite Hh. apply push_bounded_small. lia.
  - unfold undo. rewrite Hh. destruct (vec_pop made) as [[c made']|] eqn:E; [|by exists s].
    apply vec_pop_Some in E as ->. apply list.Forall_app in Hm as [Hm Hcv]. apply Forall_cons_1 in Hcv as [Hcv _].
    rewrite Hc, turned_snoc. rewrite length_app in Hlen. cbn [length] in Hlen. rewrite turned_snoc in Hok.
    destruct (turn_facelets _ _ Hok (inverse_valid c Hcv)) as (f & -> & Ef). rewrite Ef.
    rewrite turn_back in * by done. cbn [mbind option_bind fst snd]. eexists. split; [done|].
    constructor; cbn [cs_cubies cs_facelets cs_history cs_redo fst snd rev]; [|done|done| |done].
    + apply list.Forall_app. split; [done|]. by constructor.
    + rewrite Hr. apply push_bounded_small. rewrite length_rev. lia.
  - unfold redo. rewrite Hr. destruct undone as [|c undone]; cbn [rev]; [by exists s|].
    rewrite (proj2 (vec_pop_Some _ _ _) eq_refl). apply list.Forall_cons in Hu as [Hcv Hu].
    rewrite Hc. destruct (turn_facelets _ c Hok Hcv) as (f & -> & Ef). rewrite Ef. cbn [mbind option_bind fst snd length] in *.
    eexists. split; [done|]. constructor; cbn [cs_cubies cs_facelets cs_history cs_redo fst snd]; [|by rewrite turned_snoc| |done|done].
    + rewrite <- (assoc_L (++)). apply list.Forall_app. split; [done|]. by constructor.
    + rewrite Hh. apply push_bounded_small. lia.
Qed.

Lemma timeline_step_length t call :
  (length (fst (fst (timeline_step t call))) + length (snd (fst (timeline_step t call))) <=
   length (fst t) + length (snd t) + moves [call])%nat.
Proof.
  destruct t as [made undone], call as [c| |]; cbn [timeline_step moves List.filter fst snd length].
  - rewrite length_app. cbn. lia.
  - destruct (vec_pop made) as [[c made']|] eqn:E; cbn [fst snd length]; [|lia].
    apply vec_pop_Some in E as ->. rewrite length_app. cbn. lia.
  - destruct undone as [|c undone]; cbn [fst snd length]; [lia|]. rewrite length_app. cbn. lia.
Qed.

Lemma run_follows calls : forall s t, follows s t -> Forall call_valid calls ->
  (length (fst t) + length (snd t) + moves calls <= 512)%nat ->
  exists s', cube_run s calls = Some (s', snd (timeline_run t calls)) /\ follows s' (fst (timeline_run t calls)).
Proof.
  induction calls as [|call calls IH]; intros s t Ht Hv Hlen; cbn [cube_run timeline_run]; [by exists s|].
  apply list.Forall_cons in Hv as [Hv Hvs].
  assert (Em : moves (call :: calls) = (moves [call] + moves calls)%nat) by (by destruct call).
  destruct (step_follows s t call Ht Hv ltac:(lia)) as (s1 & -> & H1). pose proof (timeline_step_length t call).
  destruct (timeline_step t call) as [t1 b]. cbn [mbind option_bind fst snd] in *.
  destruct (IH s1 t1 H1 Hvs ltac:(lia)) as (s2 & -> & H2). destruct (timeline_run t1 calls) as [t2 bs].
  by exists s2.
Qed.

(** As long as no more than 512 moves are made, whatever is moved, undone
    and redone on a new cube, every answer is that of a timeline of moves; the
    cubies are those of a new cube turned by the moves now made, so that undo
    and redo restore exactly, in the 27 places, and the 54 facelets are the
    view of these cubies with nine of each colour. *)
Theorem cube_follows_timeline (calls : list CubeCall) : Forall call_valid calls -> (moves calls <= 512)%nat ->
  let '((made, undone), answers) := timeline_run ([], []) calls in
  exists s0 s, cube_new = Some s0 /\ cube_run s0 calls = Some (s, answers) /\
  cs_cubies s = turned made /\ cs_history s = made /\ cs_redo s = rev undone /\
  map cb_coordinate (cs_cubies s) ≡ₚ places /\
  sync_facelets (cs_cubies s) = Some (cs_facelets s) /\ facelets_ok (cs_facelets s).
Proof.
  intros Hv Hm. destruct (sync_facelets_spec _ initial_cubies_ok) as (f & E & _).
  assert (H0 : follows (mkCube initial_cubies f [] []) ([], [])) by (by constructor).
  destruct (run_follows calls _ _ H0 Hv ltac:(cbn; lia)) as (s & Er & Hs).
  destruct (timeline_run ([], []) calls) as [[made undone] answers].
  exists (mkCube initial_cubies f [] []), s. unfold cube_new. rewrite E. cbn [fst snd] in *. split; [done|]. split; [done|].
  destruct Hs as [H1 H2 H3 H4 H5]. cbn [fst snd] in *. apply list.Forall_app in H1 as [H1 _]. pose proof (turned_ok made H1) as Hok.
  rewrite <- H2 in Hok. do 3 (split; [done|]). split; [by apply cubies_places|]. split; [done|].
  destruct (sync_facelets_spec _ Hok) as (f' & E' & Hf'). rewrite E' in H5. by inversion H5; subst.
Qed.

Definition sample_turns : list CubeCall :=
  [CubeMove (mkRotation X 1 1); CubeMove (mkRotation Y (-1) (-1)); CubeUndo; CubeRedo; CubeUndo; CubeMove (mkRotation Z_ 0 1);
   CubeRedo; CubeUndo; CubeUndo; CubeUndo].

Lemma cube_follows_timeline_witness : exists s0 s, cube_new = Some s0 /\
  cube_run s0 sample_turns = Some (s, [true; true; true; true; true; true; false; true; true; false]) /\ cs_cubies s = initial_cubies.
Proof.
  pose proof (cube_follows_timeline sample_turns) as H. destruct H as (s0 & s & H0 & H1 & H2 & _).
  - repeat constructor; cbn; lia.
  - vm_compute. lia.
  - exact (ex_intro _ s0 (ex_intro _ s (conj H0 (conj H1 H2)))).
Defined.

(** Four quarter turns are none. *)
Lemma turn_on c v m colors : axis_component v (rc_axis c) = rc_layer c ->
  turn_cubie c (mkCubie v m colors) =
  mkCubie (rotate_coordinate v (rc_axis c) (rc_direction c))
    (multiply_i8 (rotation_matrix (rc_axis c) (rc_direction c)) m) colors.
Proof. intros E. unfold turn_cubie. cbn [cb_coordinate]. by rewrite (proj2 (Z.eqb_eq _ _) E). Qed.

Lemma turn_off c cubie : axis_component (cb_coordinate cubie) (rc_axis c) <> rc_layer c -> turn_cubie c cubie = cubie.
Proof. intros E. unfold turn_cubie. by rewrite (proj2 (Z.eqb_neq _ _) E). Qed.

Lemma rotate_four v axis direction : direction = 1 \/ direction = -1 ->
  Nat.iter 4 (fun v => rotate_coordinate v axis direction) v = v.
Proof. destruct v as [[x y] z]. intros [-> | ->]; destruct axis; cbn; rewrite ?Z.opp_involutive; done. Qed.

Lemma matrix_four m axis direction : direction = 1 \/ direction = -1 ->
  Nat.iter 4 (multiply_i8 (rotation_matrix axis direction)) m = m.
Proof.
  destruct m as [[[[a b] c] [[d e] f]] [[g h] i]]. cbn [Nat.iter nat_rect].
  intros [-> | ->]; destruct axis; unfold rotation_matrix; cbn [Z.eqb Pos.eqb multiply_i8 multiply_vec]; split_pairs; lia.
Qed.

Lemma turn_order_four c cubie : valid_rotation c -> Nat.iter 4 (turn_cubie c) cubie = cubie.
Proof.
  intros [_ Hd]. destruct cubie as [v m colors]. cbn [Nat.iter nat_rect].
  destruct (Z.eq_dec (axis_component v (rc_axis c)) (rc_layer c)) as [E|E]; [|by rewrite ?(turn_off c (mkCubie v m colors)) by done].
  rewrite !turn_on by (by rewrite ?component_rotate). f_equal; [by apply rotate_four|by apply matrix_four].
Qed.

(** ** A defect

    A full history drops new moves but keeps them on the cube: the next undo
    takes back the last recorded move instead of the last one made. *)
Definition turn_x : RotationCommand := mkRotation X 1 1.
Definition turn_y : RotationCommand := mkRotation Y 1 1.

Example undo_after_full_history :
  match cube_new with
  | Some s0 =>
      match cube_run s0 (replicate 512 (CubeMove turn_x)), cube_run s0 (replicate 512 (CubeMove turn_x) ++ [CubeMove turn_y; CubeUndo]) with
      | Some (before, _), Some (after, _) => bool_decide (cs_cubies after = cs_cubies before)
      | _, _ => true
      end
  | None => true
  end = false.
Proof. vm_compute. reflexivity. Qed.
