(* ===== verification/XorShift.v ===== *)
(** The pseudo-random generator of the cube example ([XorShift32] in
    [examples/rubik_3d/driver.rs]).

    Its loops draw until a draw suits them, so they end only because the
    generator eventually draws everything.  The theorem shows that it does: a
    step is linear over exclusive or, its powers are computed as matrices, and
    a certificate of five discrete logarithms shows that no nonzero word comes
    back before all have been seen. *)

From Stdlib Require Import Znumtheory.
From S2P Require Import Prelude.

Local Open Scope Z_scope.
Local Open Scope kit_scope.

Definition xorshift_new (seed : Z) : Z := if seed =? 0 then 1 else seed.

Definition xorshift_next (value : Z) : Z :=
  let value := Z.lxor value (wrap 32 (Z.shiftl value 13)) in
  let value := Z.lxor value (Z.shiftr value 17) in
  Z.lxor value (wrap 32 (Z.shiftl value 5)).

Example xorshift_first : xorshift_next 1 = 270369.
Proof. reflexivity. Qed.

(** ** Linear maps of words *)
Record linear (f : Z -> Z) : Prop := { lin_xor a b : f (Z.lxor a b) = Z.lxor (f a) (f b) }.

Lemma linear_zero f : linear f -> f 0 = 0.
Proof. intros [H]. specialize (H 0 0). rewrite Z.lxor_0_l in H. by rewrite H, Z.lxor_nilpotent in H |- *. Qed.

(** A matrix is the list of the images of the powers of two. *)
Fixpoint apply (m : list Z) (v : Z) : Z :=
  match m with
  | [] => 0
  | c :: m => Z.lxor (if Z.odd v then c else 0) (apply m (Z.div2 v))
  end.

Definition matrix_of (f : Z -> Z) (n : nat) : list Z := map (fun i => f (2 ^ Z.of_nat i)) (seq 0 n).
Definition mul (m k : list Z) : list Z := map (apply m) k.
Definition add (m k : list Z) : list Z := zip_with Z.lxor m k.

Fixpoint power (m : list Z) (p : positive) : list Z :=
  match p with
  | xH => m
  | xO p => let r := power m p in mul r r
  | xI p => let r := power m p in mul m (mul r r)
  end.

(** Exclusive or, rearranged. *)
Lemma lxor_swap a b c d : Z.lxor (Z.lxor a b) (Z.lxor c d) = Z.lxor (Z.lxor a c) (Z.lxor b d).
Proof. rewrite !Z.lxor_assoc. f_equal. rewrite <- !Z.lxor_assoc. f_equal. apply Z.lxor_comm. Qed.

Lemma odd_lxor a b : Z.odd (Z.lxor a b) = xorb (Z.odd a) (Z.odd b).
Proof. rewrite <- !Z.bit0_odd. apply Z.lxor_spec. Qed.

Lemma div2_lxor a b : Z.div2 (Z.lxor a b) = Z.lxor (Z.div2 a) (Z.div2 b).
Proof. rewrite !Z.div2_spec. apply Z.shiftr_lxor. Qed.

Lemma apply_linear m : linear (apply m).
Proof.
  constructor. induction m as [|c m IH]; intros a b; cbn [apply]; [done|].
  rewrite odd_lxor, div2_lxor, IH, lxor_swap. f_equal.
  destruct (Z.odd a), (Z.odd b); cbn; rewrite ?Z.lxor_nilpotent, ?Z.lxor_0_r, ?Z.lxor_0_l; done.
Qed.

Lemma apply_zero m : apply m 0 = 0.
Proof. apply linear_zero, apply_linear. Qed.

Lemma apply_mul m k v : apply (mul m k) v = apply m (apply k v).
Proof.
  revert v. induction k as [|c k IH]; intros v; cbn [mul map apply]; [by rewrite apply_zero|].
  rewrite (lin_xor _ (apply_linear m)). f_equal; [|apply IH]. destruct (Z.odd v); [done|by rewrite apply_zero].
Qed.

Lemma apply_add m : forall k v, length m = length k -> apply (add m k) v = Z.lxor (apply m v) (apply k v).
Proof.
  induction m as [|c m IH]; intros [|d k] v H; try done. cbn [add zip_with apply]. fold (add m k).
  rewrite IH by (by inversion H). rewrite lxor_swap. f_equal. by destruct (Z.odd v).
Qed.

Lemma apply_power m p v : apply (power m p) v = Nat.iter (Pos.to_nat p) (apply m) v.
Proof.
  revert v. induction p as [p IH|p IH|]; intros v; cbn [power]; rewrite ?apply_mul, ?IH; [| |done].
  - replace (Pos.to_nat (xI p)) with (1 + (Pos.to_nat p + Pos.to_nat p))%nat by lia. by rewrite !Nat.iter_add.
  - replace (Pos.to_nat (xO p)) with (Pos.to_nat p + Pos.to_nat p)%nat by lia. by rewrite Nat.iter_add.
Qed.

Lemma length_power m p : length (power m p) = length m.
Proof. induction p as [p IH|p IH|]; cbn [power]; unfold mul; rewrite ?length_map; done. Qed.

Lemma odd_split v : v = Z.lxor (if Z.odd v then 1 else 0) (2 * Z.div2 v).
Proof.
  rewrite (Z.div2_odd v) at 1. apply Z.bits_inj. intros n. rewrite Z.lxor_spec.
  destruct (Z.odd v); cbn [Z.b2z]; rewrite ?Z.add_0_r, ?Z.testbit_0_l; [|by rewrite xorb_false_l].
  destruct (Z.eq_dec n 0) as [->|Hn]; [by rewrite Z.testbit_odd_0, Z.testbit_even_0|].
  destruct (Z_lt_le_dec n 0); [by rewrite !Z.testbit_neg_r|].
  replace n with (Z.succ (n - 1)) by lia. rewrite Z.testbit_odd_succ, Z.testbit_even_succ by lia.
  by rewrite (Z.bits_above_log2 1 (Z.succ (n - 1))) by (cbn; lia).
Qed.

Lemma matrix_of_apply f n : linear f -> forall k v, 0 <= v < 2 ^ Z.of_nat n ->
  apply (map (fun i => f (2 ^ Z.of_nat i)) (seq k n)) v = f (2 ^ Z.of_nat k * v).
Proof.
  intros Hf. induction n as [|n IH]; intros k v Hv; cbn [seq map apply].
  - replace v with 0 by (cbn in Hv; lia). by rewrite Z.mul_0_r, linear_zero.
  - rewrite IH.
    + rewrite (odd_split v) at 3.
      assert (E : forall a b, 2 ^ Z.of_nat k * Z.lxor a b = Z.lxor (2 ^ Z.of_nat k * a) (2 ^ Z.of_nat k * b)).
      { intros a b. rewrite !(Z.mul_comm (2 ^ _)), <- !Z.shiftl_mul_pow2 by lia. apply Z.shiftl_lxor. }
      rewrite E, (lin_xor f Hf). f_equal.
      * destruct (Z.odd v); [by rewrite Z.mul_1_r|by rewrite Z.mul_0_r, linear_zero].
      * f_equal. rewrite Nat2Z.inj_succ, Z.pow_succ_r by lia. ring.
    + rewrite Z.div2_div. rewrite Nat2Z.inj_succ, Z.pow_succ_r in Hv by lia.
      split; [apply Z.div_pos; lia|apply Z.div_lt_upper_bound; lia].
Qed.

(** ** A step as a matrix *)
Abbreviation WORDS := 4294967295 (only parsing).

Definition word (v : Z) : Prop := 0 <= v <= WORDS.
Definition step_matrix : list Z := matrix_of xorshift_next 32.

Lemma wrap_lxor w a b : 0 <= w -> wrap w (Z.lxor a b) = Z.lxor (wrap w a) (wrap w b).
Proof.
  intros Hw. unfold wrap. apply Z.bits_inj. intros n.
  destruct (Z_lt_le_dec n 0); [by rewrite !Z.testbit_neg_r|]. rewrite Z.lxor_spec. destruct (Z_lt_le_dec n w).
  - rewrite !Z.mod_pow2_bits_low by lia. apply Z.lxor_spec.
  - by rewrite !Z.mod_pow2_bits_high by lia.
Qed.

Lemma next_linear : linear xorshift_next.
Proof.
  constructor. intros a b. unfold xorshift_next. cbn zeta.
  rewrite Z.shiftl_lxor, wrap_lxor, lxor_swap by lia. set (c := Z.lxor a _). set (d := Z.lxor b _).
  rewrite Z.shiftr_lxor, lxor_swap. set (e := Z.lxor c _). set (f := Z.lxor d _).
  by rewrite Z.shiftl_lxor, wrap_lxor, lxor_swap by lia.
Qed.

Lemma word_lxor a b : word a -> word b -> word (Z.lxor a b).
Proof.
  unfold word. intros Ha Hb. assert (0 <= Z.lxor a b) by (apply Z.lxor_nonneg; lia).
  destruct (Z.eq_dec (Z.lxor a b) 0); [lia|]. enough (Z.lxor a b < 2 ^ 32) by lia.
  apply Z.log2_lt_pow2; [lia|]. pose proof (Z.log2_lxor a b ltac:(lia) ltac:(lia)).
  assert (forall x, 0 <= x <= WORDS -> Z.log2 x < 32).
  { intros x Hx. destruct (Z.eq_dec x 0) as [->|]; [done|]. apply Z.log2_lt_pow2; lia. }
  pose proof (H1 a Ha). pose proof (H1 b Hb). lia.
Qed.

Lemma next_word v : word v -> word (xorshift_next v).
Proof.
  intros Hv. assert (W : forall x, word (wrap 32 x)).
  { intros x. pose proof (wrap_range 32 x ltac:(lia)) as R. unfold is_u, word in *. lia. }
  unfold xorshift_next. cbn zeta.
  assert (H1 : word (Z.lxor v (wrap 32 (Z.shiftl v 13)))) by (apply word_lxor; auto).
  apply word_lxor; [|apply W]. apply word_lxor; [done|]. unfold word in *.
  rewrite Z.shiftr_div_pow2 by lia. split; [apply Z.div_pos; lia|].
  etransitivity; [apply Z.div_le_upper_bound with (q := WORDS); lia|lia].
Qed.

Lemma next_matrix v : word v -> xorshift_next v = apply step_matrix v.
Proof.
  intros Hv. unfold step_matrix, matrix_of. rewrite matrix_of_apply; [|exact next_linear|unfold word in Hv; lia].
  cbn [Z.of_nat]. by rewrite Z.pow_0_r, Z.mul_1_l.
Qed.

Definition after (n : Z) (v : Z) : Z := Nat.iter (Z.to_nat n) xorshift_next v.

Lemma iter_word n v : word v -> word (Nat.iter n xorshift_next v).
Proof. intros H. induction n; [done|]. by apply next_word. Qed.

Lemma iter_matrix n v : word v -> Nat.iter n xorshift_next v = Nat.iter n (apply step_matrix) v.
Proof.
  intros H. induction n as [|n IH]; [done|]. rewrite !Nat.iter_succ, <- IH. by apply next_matrix, iter_word.
Qed.

Lemma after_word n v : word v -> word (after n v).
Proof. apply iter_word. Qed.

Lemma after_add a b v : 0 <= a -> 0 <= b -> after (a + b) v = after a (after b v).
Proof. intros Ha Hb. unfold after. by rewrite Z2Nat.inj_add, Nat.iter_add by lia. Qed.

Lemma after_split a b v : 0 <= b <= a -> after a v = after (a - b) (after b v).
Proof. intros H. rewrite <- after_add by lia. f_equal. lia. Qed.

Lemma after_power p v : word v -> after (Z.pos p) v = apply (power step_matrix p) v.
Proof. intros Hv. unfold after. rewrite apply_power. by apply iter_matrix. Qed.

Lemma after_zero n : after n 0 = 0.
Proof. unfold after. induction (Z.to_nat n) as [|k IH]; [done|]. cbn [Nat.iter nat_rect]. unfold Nat.iter in IH. by rewrite IH. Qed.

#[local] Opaque after.

(** ** The certificate

    [2 ^ 32 - 1] steps are the identity; for each of its prime factors [p],
    a [p]-th of them plus the identity is itself a power of the step, hence
    invertible. *)
Definition identity_matrix : list Z := matrix_of (fun v => v) 32.

Definition certificate : list (positive * positive * positive) :=
  [(3, 1431655765, 2863311530); (5, 858993459, 1145324612); (17, 252645135, 3991793133);
   (257, 16711935, 2812716966); (65537, 65535, 3034363099)]%positive.

Definition certified (c : positive * positive * positive) : bool :=
  let '(p, d, e) := c in
  (p * d =? 4294967295)%positive && bool_decide (add (power step_matrix d) identity_matrix = power step_matrix e).

Lemma certificate_holds : forallb certified certificate = true.
Proof. vm_compute. reflexivity. Qed.

Lemma certificate_small : forallb (fun c => Z.pos c.2 <? WORDS) certificate = true.
Proof. reflexivity. Qed.

Lemma power_period : power step_matrix 4294967295 = identity_matrix.
Proof. vm_compute. reflexivity. Qed.

Lemma identity_apply v : word v -> apply identity_matrix v = v.
Proof.
  intros Hv. transitivity (2 ^ Z.of_nat 0 * v); [|lia].
  apply (matrix_of_apply (fun v => v) 32); [by constructor|unfold word in Hv; lia].
Qed.

Lemma after_period v : word v -> after WORDS v = v.
Proof. intros Hv. rewrite after_power, power_period by done. by apply identity_apply. Qed.

(** ** The times at which a word comes back

    They are closed under remainder and so under greatest common divisors. *)
Section Returns.
Context (v : Z) (Hv : word v).
Definition returns (n : Z) : Prop := 0 <= n /\ after n v = v.

Lemma returns_mul n k : returns n -> 0 <= k -> returns (k * n).
Proof.
  intros [H0 Hn] Hk. revert k Hk. apply natlike_ind; [by split|]. intros k Hk [_ IH].
  split; [lia|]. rewrite Z.mul_succ_l, after_add, Hn by lia. exact IH.
Qed.

Lemma returns_mod n m : returns n -> returns m -> 0 < m -> returns (n mod m).
Proof.
  intros [H0 Hn] Hm Hp. pose proof (Z.mod_pos_bound n m Hp). split; [lia|].
  assert (0 <= n / m) by (apply Z.div_pos; lia).
  destruct (returns_mul m (n / m) Hm ltac:(done)) as [H2 E].
  rewrite <- Hn at 2. rewrite (Z.div_mod n m) at 2 by lia.
  by rewrite Z.add_comm, after_add, Z.mul_comm, E by lia.
Qed.

Lemma returns_gcd m : forall n, returns n -> returns m -> 0 < m -> returns (Z.gcd n m).
Proof.
  induction m as [m IH] using (well_founded_induction (Z.lt_wf 0)). intros n Hn Hm Hp.
  pose proof (Z.mod_pos_bound n m Hp) as B. pose proof (returns_mod n m Hn Hm Hp) as Hr.
  rewrite Z.gcd_comm, <- Z.gcd_mod by lia. rewrite Z.gcd_comm.
  destruct (Z.eq_dec (n mod m) 0) as [->|Hz]; [rewrite Z.gcd_0_r, Z.abs_eq by lia; done|].
  apply IH; [lia|done|done|lia].
Qed.

(** No nonzero word comes back after a certified number of steps. *)
Lemma certified_moves c : certified c = true -> Z.pos c.2 < WORDS ->
  returns (Z.pos c.1.2) -> v = 0.
Proof.
  destruct c as [[p d] e]. cbn [fst snd]. unfold certified. intros [_ E]%andb_prop He [_ Hd].
  apply bool_decide_eq_true in E.
  assert (Hz : after (Z.pos e) v = 0).
  { rewrite after_power, <- E, apply_add by (done || exact (length_power step_matrix d)).
    rewrite <- after_power, identity_apply, Hd by done. apply Z.lxor_nilpotent. }
  rewrite <- (after_period v Hv).
  rewrite (after_split WORDS (Z.pos e)), Hz by lia. apply after_zero.
Qed.
End Returns.

(** ** Divisors of the period *)
Definition indivisible (p : Z) (k : nat) : bool :=
  forallb (fun d => (p <=? Z.of_nat d) || negb (p mod Z.of_nat d =? 0)) (seq 2 k).

Lemma indivisible_prime p k : 1 < p -> p < (Z.of_nat k + 2) * (Z.of_nat k + 2) -> indivisible p k = true -> prime p.
Proof.
  intros Hp Hk H. apply prime_alt. split; [done|]. intros n Hn Hd.
  assert (K : forall d, 1 < d < p -> d < Z.of_nat k + 2 -> ~ (d | p)).
  { intros d Hd0 Hd1 Hd2. unfold indivisible in H. rewrite forallb_forall in H.
    specialize (H (Z.to_nat d) ltac:(apply in_seq; lia)). rewrite Z2Nat.id in H by lia.
    apply orb_prop in H as [H|H]; [lia|]. apply Z.mod_divide in Hd2; [|lia]. by rewrite Hd2 in H. }
  destruct Hd as [c Hc]. destruct (Z_lt_le_dec n (Z.of_nat k + 2)); [apply (K n); [lia|done|by exists c]|].
  apply (K c); [nia|nia|]. exists n. lia.
Qed.

Definition factors : list Z := [3; 5; 17; 257; 65537].

Lemma factors_prime p : p ∈ factors -> prime p.
Proof.
  assert (H : Forall prime factors).
  { unfold factors. rewrite !list.Forall_cons, list.Forall_nil. 
    do 5 (split; [apply (indivisible_prime _ 255); [done|done|vm_compute; reflexivity]|]). done. }
  rewrite list.Forall_forall in H. apply H.
Qed.

(** A proper divisor of the period divides one of the certified numbers. *)
Lemma proper_divisor g : (g | WORDS) -> 0 < g < WORDS -> exists c, c ∈ certificate /\ (g | Z.pos c.1.2).
Proof.
  intros [q Hq] Hg.
  assert (Hf : exists p, p ∈ factors /\ (p | q)).
  { destruct (Exists_dec (fun p => (p | q)) factors (fun p => Zdivide_dec p q)) as [H|H]; [apply Exists_exists in H as (p & Hp%list_elem_of_In & Hd); by exists p|]. exfalso.
    assert (R : Forall (fun p => rel_prime q p) (factors)).
    { apply list.Forall_forall. intros p Hp. apply rel_prime_sym, prime_rel_prime; [by apply factors_prime|].
      intros Hd. apply H, Exists_exists. exists p. split; [by apply list_elem_of_In|done]. }
    unfold factors in R. rewrite !list.Forall_cons in R. destruct R as (R3 & R5 & R17 & R257 & R65537 & _).
    assert (R : rel_prime q (3 * (5 * (17 * (257 * 65537))))) by (repeat (apply rel_prime_mult; [done|]); done).
    assert (D : (q | 1)). { apply R; [apply Z.divide_refl|]. exists g. lia. }
    apply Z.divide_1_r_nonneg in D; [|nia]. lia. }
  destruct Hf as (p & Hp & k & Hk).
  assert (exists d e, (Z.to_pos p, d, e) ∈ certificate /\ p * Z.pos d = WORDS) as (d & e & Hc & Hd).
  { unfold factors in Hp. rewrite !elem_of_cons in Hp; destruct Hp as [->|[->|[->|[->|[->|Hp]]]]]; [..|by apply not_elem_of_nil in Hp];
      (eexists _, _; split; [repeat (apply list_elem_of_here || apply list_elem_of_further)|reflexivity]). }
  exists (Z.to_pos p, d, e). split; [done|]. cbn. exists k. nia.
Qed.

(** ** The period *)
Lemma no_return v n : word v -> v <> 0 -> 0 < n < WORDS -> after n v <> v.
Proof.
  intros Hv Hz Hn E. assert (Hr : returns v n) by (split; [lia|done]).
  assert (Hp : returns v WORDS) by (split; [done|by apply after_period]).
  pose proof (returns_gcd v WORDS n Hr Hp ltac:(done)) as Hg.
  pose proof (Z.gcd_divide_l n WORDS) as Ha. pose proof (Z.gcd_divide_r n WORDS) as Hd. pose proof (Z.gcd_nonneg n WORDS).
  pose proof (Z.divide_pos_le (Z.gcd n WORDS) n ltac:(lia) Ha). destruct Ha as [a Ha].
  assert (Hg0 : 0 < Z.gcd n WORDS < WORDS) by (destruct (Z.eq_dec (Z.gcd n WORDS) 0) as [Ez|]; [rewrite Ez in Ha|]; lia).
  destruct (proper_divisor _ Hd Hg0) as (c & Hc & k & Hk).
  pose proof certificate_holds as C1. pose proof certificate_small as C2. rewrite forallb_forall in C1, C2.
  apply list_elem_of_In in Hc. apply Hz, (certified_moves v Hv c); [by apply C1|specialize (C2 c Hc); lia|].
  rewrite Hk. apply returns_mul; [done|nia].
Qed.

Lemma after_inj v i j : word v -> v <> 0 -> 0 <= i < j -> j < WORDS -> after i v <> after j v.
Proof.
  intros Hv Hz Hi Hj E. apply (no_return v (j - i) Hv Hz ltac:(lia)).
  rewrite <- (after_period v Hv) at 1. rewrite <- after_add by lia.
  replace (j - i + WORDS) with (WORDS - i + j) by lia. rewrite after_add, <- E, <- after_split by lia. by apply after_period.
Qed.

Lemma after_nonzero v n : word v -> v <> 0 -> 0 <= n < WORDS -> after n v <> 0.
Proof.
  intros Hv Hz Hn E. apply Hz. rewrite <- (after_period v Hv), (after_split WORDS n), E by lia. apply after_zero.
Qed.

(** As many distinct words as there are nonzero ones are all of them. *)
Lemma distinct_words_all (f : nat -> Z) (k : nat) w :
  (forall i, (i < k)%nat -> 0 < f i <= Z.of_nat k) -> (forall i j, (i < j < k)%nat -> f i <> f j) -> 0 < w <= Z.of_nat k ->
  exists i, (i < k)%nat /\ f i = w.
Proof.
  intros Hr Hd Hw. assert (H : incl (map Z.of_nat (seq 1 k)) (map f (seq 0 k))).
  { apply NoDup_length_incl.
    - apply NoDup_ListNoDup, NoDup_fmap_2_strong; [|apply NoDup_seq].
      intros i j Hi%elem_of_seq Hj%elem_of_seq E. destruct (Nat.lt_trichotomy i j) as [?|[?|?]]; [|done|].
      + by destruct (Hd i j ltac:(lia)).
      + by destruct (Hd j i ltac:(lia)).
    - by rewrite !length_map, !length_seq.
    - intros x (i & <- & Hi%in_seq)%in_map_iff. specialize (Hr i ltac:(lia)). apply in_map_iff.
      exists (Z.to_nat (f i)). split; [lia|apply in_seq; lia]. }
  destruct (proj1 (in_map_iff f _ w) (H w ltac:(apply in_map_iff; exists (Z.to_nat w); split; [lia|apply in_seq; lia])))
    as (i & <- & Hi%in_seq).
  exists i. split; [lia|done].
Qed.

Lemma after_reaches v w : word v -> v <> 0 -> 0 < w <= WORDS -> exists n, 0 <= n < WORDS /\ after n v = w.
Proof.
  intros Hv Hz Hw. remember (Z.to_nat WORDS) as k eqn:Hk. assert (K : Z.of_nat k = WORDS) by (rewrite Hk; by apply Z2Nat.id).
  destruct (distinct_words_all (fun i => after (Z.of_nat i) v) k w) as (i & Hi & E).
  - intros i Hi. pose proof (after_word (Z.of_nat i) v Hv) as W. pose proof (after_nonzero v (Z.of_nat i) Hv Hz ltac:(lia)).
    unfold word in W. lia.
  - intros i j Hij. apply after_inj; [done|done|lia|lia].
  - by rewrite K.
  - exists (Z.of_nat i). split; [lia|done].
Qed.

(** Also every other word drawn alone goes through all of them, the period
    being odd. *)
Lemma after_reaches_even v w : word v -> v <> 0 -> 0 < w <= WORDS -> exists n, 0 <= n < WORDS /\ after (2 * n) v = w.
Proof.
  intros Hv Hz Hw. destruct (after_reaches v w Hv Hz Hw) as (n & Hn & E).
  destruct (Z.Even_or_Odd n) as [[k ->]|[k ->]].
  - exists k. split; [lia|done].
  - exists (k + 2147483648). split; [lia|].
    replace (2 * (k + 2147483648)) with (2 * k + 1 + WORDS) by lia. by rewrite after_add, after_period by (done || lia).
Qed.
