(* ===== verification/RubikDriver.v ===== *)
(** The cube example's driver ([examples/rubik_3d/driver.rs]): the bounded
    queue of moves, their animation in time, undo and redo between moves, the
    shuffle, the solution by taking the history back, and the keys of an input
    frame.

    Theorems: a shuffle ends and queues moves of which no two in a row turn the
    same layer; whatever is called, the cube follows the moves committed; and
    from an idle driver with a short history, solving and enough time bring the
    cube back to its first state.  The examples show a solution that loses its
    last moves. *)

From stdpp Require Import sets strings.
From S2P Require Import Prelude Bus Arena World Deferred Kernel Messages XorShift Rubik.

Local Open Scope Z_scope.
Local Open Scope kit_scope.

Definition MOVE_DURATION_NS : Z := 250000000.
Definition MAX_QUEUED_MOVES : Z := 256.

Module MoveFace.
Inductive MoveFace := U | D | L | R | F | B | M | E | S.
End MoveFace.
Abbreviation MoveFace := MoveFace.MoveFace.

(** The [expect] of the source is the outer [None]. *)
Definition face_command (face : MoveFace) (inverse : bool) : option RotationCommand :=
  let '(axis, layer, direction) :=
    match face with
    | MoveFace.R => (X, 1, 1) | MoveFace.L => (X, -1, -1) | MoveFace.M => (X, 0, -1)
    | MoveFace.U => (Y, 1, 1) | MoveFace.D => (Y, -1, -1) | MoveFace.E => (Y, 0, -1)
    | MoveFace.F => (Z_, 1, 1) | MoveFace.B => (Z_, -1, -1) | MoveFace.S => (Z_, 0, 1)
    end in
  rotation_new axis layer (if inverse then - direction else direction).

Record MoveRequest := mkRequest { mq_face : MoveFace; mq_inverse : bool; mq_double : bool }.
Definition request_normal (face : MoveFace) : MoveRequest := mkRequest face false false.

Record RubikDriver := mkDriver {
  dr_state : CubeState;
  dr_queue : list RotationCommand;
  dr_active : option (RotationCommand * Z);
  dr_rng : Z
}.

Definition driver_with_state (d : RubikDriver) (s : CubeState) : RubikDriver := mkDriver s (dr_queue d) (dr_active d) (dr_rng d).
Definition driver_with_queue (d : RubikDriver) (q : list RotationCommand) : RubikDriver :=
  mkDriver (dr_state d) q (dr_active d) (dr_rng d).
Definition driver_with_active (d : RubikDriver) (a : option (RotationCommand * Z)) : RubikDriver :=
  mkDriver (dr_state d) (dr_queue d) a (dr_rng d).

Definition driver_new : option RubikDriver :=
  s ← cube_new; Some (mkDriver s [] None (xorshift_new 2654435769)).

Definition is_none {A} (o : option A) : bool := match o with None => true | Some _ => false end.
Definition is_idle (d : RubikDriver) : bool := is_none (dr_active d) && (zlen (dr_queue d) =? 0).

Definition driver_enqueue (d : RubikDriver) (r : MoveRequest) : option (RubikDriver * bool) :=
  let count := if mq_double r then 2 else 1 in
  if MAX_QUEUED_MOVES <? saturating_add 64 (zlen (dr_queue d)) count then Some (d, false)
  else
    command ← face_command (mq_face r) (mq_inverse r);
    Some (driver_with_queue d (dr_queue d ++ replicate (Z.to_nat count) command), true).

Definition enqueue_command (d : RubikDriver) (c : RotationCommand) : RubikDriver * bool :=
  if MAX_QUEUED_MOVES <=? zlen (dr_queue d) then (d, false) else (driver_with_queue d (dr_queue d ++ [c]), true).

(** *** Time

    A call commits at most one move, since it uses at most one move's duration:
    the loop makes at most two rounds and a last test. *)
Fixpoint driver_advance_loop (fuel : nat) (d : RubikDriver) (remaining : Z) : option RubikDriver :=
  match fuel with
  | O => None
  | S fuel =>
      if (0 <? remaining) || is_none (dr_active d) && negb (zlen (dr_queue d) =? 0) then
        let d :=
          match dr_active d, dr_queue d with
          | None, command :: queue => mkDriver (dr_state d) queue (Some (command, 0)) (dr_rng d)
          | _, _ => d
          end in
        match dr_active d with
        | None => Some d
        | Some (command, elapsed) =>
            let needed := saturating_sub MOVE_DURATION_NS elapsed in
            let step := Z.min remaining needed in
            let next_elapsed := saturating_add 64 elapsed step in
            let d := driver_with_active d (Some (command, next_elapsed)) in
            let remaining := saturating_sub remaining step in
            if MOVE_DURATION_NS <=? next_elapsed then
              '(s, _) ← apply_move (dr_state d) command;
              driver_advance_loop fuel (driver_with_active (driver_with_state d s) None) remaining
            else Some d
        end
      else Some d
  end.

Definition advance (d : RubikDriver) (dt_ns : Z) : option RubikDriver :=
  driver_advance_loop 3 d (Z.min dt_ns MOVE_DURATION_NS).

(** *** Commands *)
Definition driver_undo (d : RubikDriver) : option (RubikDriver * bool) :=
  if is_idle d then '(s, b) ← undo (dr_state d); Some (driver_with_state d s, b) else Some (d, false).

Definition driver_redo (d : RubikDriver) : option (RubikDriver * bool) :=
  if is_idle d then '(s, b) ← redo (dr_state d); Some (driver_with_state d s, b) else Some (d, false).

Definition driver_reset (d : RubikDriver) : option RubikDriver :=
  s ← cube_new; Some (mkDriver s [] None (dr_rng d)).

(** A face is drawn, then its direction, until another layer than the last
    one's turns. *)
Definition face_of_draw (n : Z) : MoveFace :=
  match n mod 9 with
  | 0 => MoveFace.U | 1 => MoveFace.D | 2 => MoveFace.L | 3 => MoveFace.R | 4 => MoveFace.F
  | 5 => MoveFace.B | 6 => MoveFace.M | 7 => MoveFace.E | _ => MoveFace.S
  end.

Definition other_layer (previous : option RotationCommand) (c : RotationCommand) : bool :=
  match previous with
  | None => true
  | Some last => negb (bool_decide (rc_axis last = rc_axis c)) || negb (rc_layer last =? rc_layer c)
  end.

Fixpoint draw_command (fuel : nat) (previous : option RotationCommand) (rng : Z) : option (Z * RotationCommand) :=
  match fuel with
  | O => None
  | S fuel =>
      let rng := xorshift_next rng in
      let face := face_of_draw rng in
      let rng := xorshift_next rng in
      command ← face_command face (negb (Z.land rng 1 =? 0));
      if other_layer previous command then Some (rng, command) else draw_command fuel previous rng
  end.

Fixpoint shuffle_loop (fuel n : nat) (previous : option RotationCommand) (d : RubikDriver) : option RubikDriver :=
  match n with
  | O => Some d
  | S n =>
      '(rng, command) ← draw_command fuel previous (dr_rng d);
      let d := mkDriver (dr_state d) (dr_queue d) (dr_active d) rng in
      shuffle_loop fuel n (Some command) (fst (enqueue_command d command))
  end.

Definition driver_shuffle (fuel : nat) (d : RubikDriver) (count : Z) : option RubikDriver :=
  shuffle_loop fuel (Z.to_nat (Z.min count MAX_QUEUED_MOVES)) None (driver_with_active (driver_with_queue d []) None).

Definition solve_history (d : RubikDriver) : RubikDriver :=
  if is_idle d then
    foldl (fun d command => fst (enqueue_command d (inverse command)))
      (driver_with_queue d []) (rev (cs_history (dr_state d)))
  else d.

(** *** Keys *)
Definition key_face (key : Z) : option MoveFace :=
  match key with
  | 85 => Some MoveFace.U | 68 => Some MoveFace.D | 76 => Some MoveFace.L | 82 => Some MoveFace.R | 70 => Some MoveFace.F
  | 66 => Some MoveFace.B | 77 => Some MoveFace.M | 69 => Some MoveFace.E | 83 => Some MoveFace.S | _ => None
  end.

Definition press_key (fuel : nat) (d : RubikDriver) (key : Z) : option RubikDriver :=
  match key with
  | 72 => driver_shuffle fuel d 24
  | 90 => '(d, _) ← driver_undo d; Some d
  | 89 => '(d, _) ← driver_redo d; Some d
  | 84 => Some (solve_history d)
  | 78 => driver_reset d
  | _ =>
      match key_face key with
      | Some face => '(d, _) ← driver_enqueue d (request_normal face); Some d
      | None => Some d
      end
  end.

Fixpoint press_keys (fuel : nat) (d : RubikDriver) (keys : list Z) : option RubikDriver :=
  match keys with
  | [] => Some d
  | key :: keys => d ← press_key fuel d key; press_keys fuel d keys
  end.

Section Tick.
Context {P V : Type} `{!Payload InputFrame P}.

Definition rubik_message (fuel _k : nat) (d : RubikDriver) (e : Envelope P) : option RubikDriver :=
  if negb (env_topic e =? 2) then Some d
  else
    match envelope_downcast (downcast (T := InputFrame)) e with
    | Ok input => press_keys fuel d (counted (Z.min (if_pressed_key_count input) 32) (if_pressed_keys input))
    | Err _ => Some d
    end.

Definition rubik_tick (fuel : nat) (d : RubikDriver) (c : KernelContext P V) (dt_ns : Z)
  : option (RubikDriver * KernelContext P V) :=
  '(c, d) ← receive_all (rubik_message fuel) c d;
  d ← advance d dt_ns;
  Some (d, c).
End Tick.

Definition sample_keys : option RubikDriver := d ← driver_new; press_keys 64 d [85; 72; 77; 84; 90; 0].

Example sample_keys_queue :
  (d ← sample_keys; Some (zlen (dr_queue d), dr_active d)) = Some (25, None).
Proof. vm_compute. reflexivity. Qed.

(** ** Drawing a move *)
Definition DRAWS : nat := Z.to_nat WORDS.

Lemma DRAWS_words : Z.of_nat DRAWS = WORDS.
Proof. apply Z2Nat.id. discriminate. Qed.
#[local] Opaque DRAWS.

Lemma face_command_valid face inverse : exists c, face_command face inverse = Some c /\ valid_rotation c.
Proof. destruct face, inverse; (eexists; split; [reflexivity|split; cbn; lia]). Qed.

Definition rng_ok (rng : Z) : Prop := word rng /\ rng <> 0.

Lemma next_ok rng : rng_ok rng -> rng_ok (xorshift_next rng).
Proof.
  intros [Hw Hz]. split; [by apply next_word|]. exact (after_nonzero rng 1 Hw Hz ltac:(lia)).
Qed.

(** Some draw turns another layer than any given move. *)
Lemma other_layer_drawn previous : exists n, 0 < n <= WORDS /\
  forall i c, face_command (face_of_draw n) i = Some c -> other_layer previous c = true.
Proof.
  destruct previous as [[axis layer direction]|]; [|by exists 1].
  exists (match axis with X => 9 | _ => 3 end). split; [by destruct axis|].
  intros i c. destruct axis, i; vm_compute; by inversion 1; subst.
Qed.

Lemma draw_fails_step previous rng fuel : (exists n, xorshift_next rng = n /\
    forall i c, face_command (face_of_draw n) i = Some c -> other_layer previous c = true) ->
  exists c, draw_command (S fuel) previous rng = Some (xorshift_next (xorshift_next rng), c) /\
    valid_rotation c /\ other_layer previous c = true.
Proof.
  intros (n & En & Hn). cbn [draw_command]. rewrite En.
  destruct (face_command_valid (face_of_draw n) (negb (Z.land (xorshift_next n) 1 =? 0))) as (c & Ec & Hc).
  rewrite Ec. cbn [mbind option_bind]. rewrite (Hn _ _ Ec).
  exists c. split; [done|]. split; [done|]. by eapply Hn.
Qed.

Lemma iter_two {A} (f : A -> A) k x : Nat.iter (2 * k) f (f (f x)) = Nat.iter (2 * S k) f x.
Proof. replace (2 * S k)%nat with (2 * k + 2)%nat by lia. by rewrite Nat.iter_add. Qed.

Lemma draw_within previous k : forall rng fuel, rng_ok rng -> (k < fuel)%nat ->
  (exists n, Nat.iter (2 * k) xorshift_next (xorshift_next rng) = n /\
    forall i c, face_command (face_of_draw n) i = Some c -> other_layer previous c = true) ->
  exists rng' c, draw_command fuel previous rng = Some (rng', c) /\ rng_ok rng' /\ valid_rotation c /\ other_layer previous c = true.
Proof.
  induction k as [|k IH]; intros rng [|fuel] Hr Hf Hn; try lia.
  - destruct (draw_fails_step previous rng fuel Hn) as (c & E & Hc). eexists _, c. split; [exact E|].
    split; [by do 2 apply next_ok|done].
  - cbn [draw_command].
    destruct (face_command_valid (face_of_draw (xorshift_next rng)) (negb (Z.land (xorshift_next (xorshift_next rng)) 1 =? 0)))
      as (c & -> & Hc). cbn [mbind option_bind].
    destruct (other_layer previous c) eqn:E; [by eexists _, c; split; [done|]; split; [do 2 apply next_ok|]|].
    apply IH; [by do 2 apply next_ok|lia|]. destruct Hn as (n & En & Hn). exists n. split; [|done].
    by rewrite iter_two.
Qed.

Lemma draw_ends previous rng fuel : rng_ok rng -> (DRAWS <= fuel)%nat ->
  exists rng' c, draw_command fuel previous rng = Some (rng', c) /\ rng_ok rng' /\ valid_rotation c /\ other_layer previous c = true.
Proof.
  intros Hr Hf. destruct (other_layer_drawn previous) as (n & Hn & Ho). pose proof (next_ok rng Hr) as [Hw Hz].
  destruct (after_reaches_even _ n Hw Hz Hn) as (k & Hk & E).
  apply (draw_within previous (Z.to_nat k)); [done|pose proof DRAWS_words; lia|]. exists n. split; [|done].
  rewrite <- E. unfold after. f_equal. lia.
Qed.

Lemma driver_new_rng d : driver_new = Some d -> rng_ok (dr_rng d).
Proof.
  unfold driver_new. destruct cube_new as [s|]; cbn [mbind option_bind]; [|done].
  intros [= <-]. by split.
Qed.

(** ** The shuffle *)
Fixpoint layers_change (previous : option RotationCommand) (l : list RotationCommand) : Prop :=
  match l with
  | [] => True
  | c :: l => other_layer previous c = true /\ layers_change (Some c) l
  end.

Lemma enqueue_command_spec d c : zlen (dr_queue d) < MAX_QUEUED_MOVES ->
  enqueue_command d c = (driver_with_queue d (dr_queue d ++ [c]), true).
Proof. intros H. unfold enqueue_command. by rewrite (proj2 (Z.leb_gt _ _)) by lia. Qed.

Lemma shuffle_loop_spec fuel n : (DRAWS <= fuel)%nat -> forall previous d, rng_ok (dr_rng d) ->
  zlen (dr_queue d) + Z.of_nat n <= MAX_QUEUED_MOVES ->
  exists rng l, shuffle_loop fuel n previous d = Some (mkDriver (dr_state d) (dr_queue d ++ l) (dr_active d) rng) /\
    rng_ok rng /\ length l = n /\ Forall valid_rotation l /\ layers_change previous l.
Proof.
  intros Hf. induction n as [|n IH]; intros previous d Hr Hq; cbn [shuffle_loop].
  - exists (dr_rng d), []. rewrite app_nil_r. by destruct d.
  - destruct (draw_ends previous _ fuel Hr Hf) as (rng & c & -> & Hr' & Hc & Ho). cbn [mbind option_bind].
    rewrite enqueue_command_spec by (cbn [dr_queue]; lia).
    unfold driver_with_queue. cbn [fst dr_state dr_queue dr_active dr_rng].
    destruct (IH (Some c) (mkDriver (dr_state d) (dr_queue d ++ [c]) (dr_active d) rng) Hr') as (rng' & l & -> & H1 & H2 & H3 & H4).
    { cbn [dr_queue]. rewrite zlen_app. unfold zlen in *. cbn. lia. }
    exists rng', (c :: l). cbn [dr_state dr_queue dr_active]. rewrite <- (assoc_L (++)). cbn.
    split; [done|]. split; [done|]. split; [by rewrite H2|]. split; [by constructor|done].
Qed.

(** C34: A shuffle always ends: however often its loop must draw again because
    the draw turns the layer of the move before, within a period of the
    generator comes one that does not.  The queue then holds exactly the
    number of moves asked for, at most 256, all valid, no two neighbours
    turning the same layer; the cube is untouched, whatever was moving is
    dropped, and the generator is never stuck at zero. *)
Theorem rubik_shuffle_ends (fuel : nat) (d : RubikDriver) (count : Z) :
  (DRAWS <= fuel)%nat -> rng_ok (dr_rng d) -> 0 <= count ->
  exists rng queue, driver_shuffle fuel d count = Some (mkDriver (dr_state d) queue None rng) /\
    zlen queue = Z.min count MAX_QUEUED_MOVES /\ Forall valid_rotation queue /\ layers_change None queue /\ rng_ok rng.
Proof.
  intros Hf Hr Hc. unfold driver_shuffle.
  destruct (shuffle_loop_spec fuel (Z.to_nat (Z.min count MAX_QUEUED_MOVES)) Hf None
    (driver_with_active (driver_with_queue d []) None)) as (rng & l & -> & H1 & H2 & H3 & H4).
  - exact Hr.
  - unfold MAX_QUEUED_MOVES, zlen. cbn. lia.
  - exists rng, l. split; [done|]. split; [|done]. unfold zlen, MAX_QUEUED_MOVES in *. lia.
Qed.

Lemma rubik_shuffle_ends_witness : exists d0 rng queue, driver_new = Some d0 /\
  driver_shuffle DRAWS d0 1000 = Some (mkDriver (dr_state d0) queue None rng) /\ zlen queue = 256 /\ layers_change None queue.
Proof.
  destruct driver_new as [d0|] eqn:E; [|by vm_compute in E].
  destruct (rubik_shuffle_ends DRAWS d0 1000) as (rng & queue & H1 & H2 & _ & H3 & _).
  - apply Nat.le_refl.
  - exact (driver_new_rng d0 E).
  - discriminate.
  - exists d0, rng, queue. split; [reflexivity|]. split; [exact H1|]. split; [exact H2|exact H3].
Defined.

(** ** The driver's invariant

    [pending] are the moves not yet made, the one being animated first. *)
Definition pending (d : RubikDriver) : list RotationCommand :=
  match dr_active d with Some (c, _) => c :: dr_queue d | None => dr_queue d end.
Definition elapsed (d : RubikDriver) : Z := match dr_active d with Some (_, e) => e | None => 0 end.

Record driver_ok (d : RubikDriver) (t : timeline) : Prop := {
  dk_follows : follows (dr_state d) t;
  dk_pending : Forall valid_rotation (pending d);
  dk_elapsed : 0 <= elapsed d < MOVE_DURATION_NS;
  dk_queue : zlen (dr_queue d) <= MAX_QUEUED_MOVES;
  dk_rng : rng_ok (dr_rng d)
}.

Lemma idle_pending d : is_idle d = true <-> pending d = [].
Proof.
  unfold is_idle, pending, zlen. destruct (dr_active d) as [[c e]|]; cbn; [done|].
  destruct (dr_queue d); cbn; [done|]. split; [|done]. intros H%Z.eqb_eq. lia.
Qed.

Lemma follows_new s : cube_new = Some s -> follows s ([], []).
Proof.
  unfold cube_new. destruct (sync_facelets initial_cubies) as [f|] eqn:E; cbn [mbind option_bind]; [|done].
  intros [= <-]. by constructor.
Qed.

Lemma cube_new_some : exists s, cube_new = Some s.
Proof. destruct cube_new as [s|] eqn:E; [by exists s|by vm_compute in E]. Qed.

Lemma driver_new_ok : exists d, driver_new = Some d /\ driver_ok d ([], []) /\ pending d = [].
Proof.
  unfold driver_new. destruct cube_new_some as (s & E). rewrite E. cbn [mbind option_bind]. eexists. split; [done|].
  split; [|done]. 
  constructor; [exact (follows_new s E)|constructor|split; [discriminate|reflexivity]|discriminate|].
  split; [split; discriminate|discriminate].
Qed.

(** A move made at the end of its animation. *)
Lemma commit_follows s made undone c : follows s (made, undone) -> valid_rotation c ->
  (length made + length undone < 512)%nat ->
  exists s', apply_move s c = Some (s', true) /\ follows s' (made ++ [c], []).
Proof. intros Hs Hc Hl. apply (step_follows s (made, undone) (CubeMove c) Hs Hc). cbn. lia. Qed.

(** The state one call of [advance] leads to: time up to one move's duration
    is added to the move under way; when it is through it is made, and the
    rest of the time goes to the next one, if there is one. *)
Record advanced (d : RubikDriver) (made undone : list RotationCommand) (dt : Z) (d' : RubikDriver) : Prop := {
  ad_none : pending d = [] -> d' = d;
  ad_part c rest : pending d = c :: rest -> elapsed d + dt < MOVE_DURATION_NS ->
    driver_ok d' (made, undone) /\ pending d' = c :: rest /\ elapsed d' = elapsed d + dt /\ dr_state d' = dr_state d;
  ad_through c rest : pending d = c :: rest -> MOVE_DURATION_NS <= elapsed d + dt ->
    driver_ok d' (made ++ [c], []) /\ pending d' = rest /\
    elapsed d' = match rest with [] => 0 | _ => elapsed d + dt - MOVE_DURATION_NS end
}.

Lemma saturating_sub_nat a b : b <= a -> saturating_sub a b = a - b.
Proof. unfold saturating_sub. lia. Qed.

Lemma elapsed_add e r : 0 <= e <= MOVE_DURATION_NS -> 0 <= r <= MOVE_DURATION_NS -> saturating_add 64 e r = e + r.
Proof. unfold saturating_add, umax, MOVE_DURATION_NS. lia. Qed.

(** What starts when a move is through. *)
Lemma advance_next s rest rng r : 0 <= r < MOVE_DURATION_NS ->
  driver_advance_loop 2 (mkDriver s rest None rng) r =
  Some (match rest with [] => mkDriver s [] None rng | c :: rest => mkDriver s rest (Some (c, r)) rng end).
Proof.
  intros Hr. destruct rest as [|c rest]; cbn [driver_advance_loop dr_active dr_queue is_none dr_state dr_rng].
  - cbn [zlen length Z.of_nat Z.eqb negb andb orb]. by destruct (0 <? r).
  - change (zlen (c :: rest) =? 0) with false. cbn [negb andb]. rewrite orb_true_r.
    rewrite (saturating_sub_nat _ 0), Z.sub_0_r, Z.min_l, elapsed_add by lia. cbn [Z.add].
    by rewrite (proj2 (Z.leb_gt _ _)) by lia.
Qed.

(** One round with a move under way. *)
Lemma advance_round fuel s queue c e rng r : 0 <= e < MOVE_DURATION_NS -> 0 < r <= MOVE_DURATION_NS ->
  driver_advance_loop (S fuel) (mkDriver s queue (Some (c, e)) rng) r =
  if e + r <? MOVE_DURATION_NS then Some (mkDriver s queue (Some (c, e + r)) rng)
  else '(s, _) ← apply_move s c; driver_advance_loop fuel (mkDriver s queue None rng) (e + r - MOVE_DURATION_NS).
Proof.
  intros He Hr. cbn [driver_advance_loop dr_active dr_queue is_none]. rewrite (proj2 (Z.ltb_lt 0 r)) by lia. cbn [orb].
  rewrite (saturating_sub_nat _ e) by lia. rewrite elapsed_add by lia.
  unfold driver_with_active, driver_with_state. cbn [dr_state dr_queue dr_active dr_rng].
  destruct (Z.ltb_spec (e + r) MOVE_DURATION_NS).
  - rewrite Z.min_l by lia. by rewrite (proj2 (Z.leb_gt _ _)) by lia.
  - rewrite Z.min_r by lia. rewrite (proj2 (Z.leb_le _ _)) by lia.
    rewrite saturating_sub_nat by lia. replace (r - (MOVE_DURATION_NS - e)) with (e + r - MOVE_DURATION_NS) by lia. done.
Qed.

(** A move that waits is taken up first. *)
Lemma advance_takes fuel s queue c rng r : 0 < r ->
  driver_advance_loop (S fuel) (mkDriver s (c :: queue) None rng) r = driver_advance_loop (S fuel) (mkDriver s queue (Some (c, 0)) rng) r.
Proof.
  intros Hr. cbn [driver_advance_loop dr_active dr_queue is_none dr_state dr_rng]. by rewrite (proj2 (Z.ltb_lt 0 r)) by lia.
Qed.

Lemma advance_pending d r c rest : pending d = c :: rest -> 0 <= elapsed d < MOVE_DURATION_NS -> 0 <= r <= MOVE_DURATION_NS ->
  driver_advance_loop 3 d r =
  if elapsed d + r <? MOVE_DURATION_NS then Some (mkDriver (dr_state d) rest (Some (c, elapsed d + r)) (dr_rng d))
  else '(s, _) ← apply_move (dr_state d) c;
       Some (match rest with
             | [] => mkDriver s [] None (dr_rng d)
             | c :: rest => mkDriver s rest (Some (c, elapsed d + r - MOVE_DURATION_NS)) (dr_rng d)
             end).
Proof.
  intros Hp He Hr. destruct d as [s queue active rng]. unfold pending, elapsed in *. cbn [dr_active dr_queue dr_state dr_rng] in *.
  destruct (Z.eq_dec r 0) as [->|Hr0].
  - rewrite Z.add_0_r, (proj2 (Z.ltb_lt _ _)) by (destruct active as [[c' e]|]; lia).
    destruct active as [[c' e]|]; [by inversion Hp|]. by subst queue.
  - assert (E : driver_advance_loop 3 (mkDriver s queue active rng) r =
      driver_advance_loop 3 (mkDriver s rest (Some (c, match active with Some (_, e) => e | None => 0 end)) rng) r).
    { destruct active as [[c' e]|]; [by inversion Hp|]. subst queue. by rewrite advance_takes by lia. }
    rewrite E, advance_round by lia. destruct (Z.ltb_spec (match active with Some (_, e) => e | None => 0 end + r) MOVE_DURATION_NS); [done|].
    destruct (apply_move s c) as [[s' b]|]; cbn [mbind option_bind]; [|done]. apply advance_next. lia.
Qed.

Lemma advance_idle d r : pending d = [] -> driver_advance_loop 3 d r = Some d.
Proof.
  destruct d as [s queue active rng]. unfold pending. cbn [dr_active dr_queue].
  destruct active as [[c e]|]; [done|]. intros ->. cbn. by destruct (0 <? r).
Qed.

Definition tick_ns (dt : Z) : Z := Z.min dt MOVE_DURATION_NS.

Lemma driver_advance_spec d made undone dt : driver_ok d (made, undone) -> 0 <= dt ->
  (pending d <> [] -> length made + length undone < 512)%nat ->
  exists d', advance d dt = Some d' /\ advanced d made undone (tick_ns dt) d'.
Proof.
  intros [Hf Hp He Hq Hr] Hdt Hl. unfold advance. fold (tick_ns dt).
  assert (Ht : 0 <= tick_ns dt <= MOVE_DURATION_NS) by (unfold tick_ns, MOVE_DURATION_NS; lia).
  destruct (pending d) as [|c rest] eqn:E.
  - exists d. rewrite advance_idle by done. split; [done|]. constructor; intros; congruence.
  - rewrite (advance_pending d _ c rest E He Ht). apply list.Forall_cons in Hp as [Hc Hrest].
    assert (Hq' : zlen rest <= MAX_QUEUED_MOVES).
    { unfold pending in E. destruct (dr_active d) as [[c' e]|]; [by inversion E; subst|]. rewrite E, zlen_cons in Hq. lia. }
    destruct (Z.ltb_spec (elapsed d + tick_ns dt) MOVE_DURATION_NS) as [Hlt|Hge].
    + eexists. split; [done|]. constructor; [congruence| |intros; lia]. intros c0 rest0 Ep _. rewrite E in Ep. inversion Ep; subst.
      split; [|done]. constructor; unfold pending, elapsed in *; cbn; [done|by constructor|lia|done|done].
    + destruct (commit_follows _ made undone c Hf Hc (Hl ltac:(discriminate))) as (s' & -> & Hs). cbn [mbind option_bind].
      eexists. split; [done|]. constructor; [congruence|intros; lia|]. intros c0 rest0 Ep _. rewrite E in Ep. inversion Ep; subst.
      destruct rest0 as [|c1 rest0]; (split; [|done]);
        constructor; unfold pending, elapsed in *; cbn; [done|done|by split|done|done|done|done|lia| |done].
      rewrite zlen_cons in Hq'. lia.
Qed.

(** ** Time until the queue is empty *)
Fixpoint advance_all (d : RubikDriver) (dts : list Z) : option RubikDriver :=
  match dts with
  | [] => Some d
  | dt :: dts => d ← advance d dt; advance_all d dts
  end.

Definition total_ns (dts : list Z) : Z := foldr (fun dt n => tick_ns dt + n) 0 dts.

Lemma total_nonneg dts : Forall (fun dt => 0 <= dt) dts -> 0 <= total_ns dts.
Proof. unfold total_ns, tick_ns, MOVE_DURATION_NS. induction 1 as [|dt dts H _ IH]; cbn [foldr]; lia. Qed.

Lemma advance_drains dts : forall d made undone, driver_ok d (made, undone) -> Forall (fun dt => 0 <= dt) dts ->
  (pending d <> [] -> length made + length undone < 512)%nat -> (length made + length (pending d) <= 512)%nat ->
  MOVE_DURATION_NS * zlen (pending d) - elapsed d <= total_ns dts ->
  exists d' undone', advance_all d dts = Some d' /\ pending d' = [] /\ driver_ok d' (made ++ pending d, undone').
Proof.
  induction dts as [|dt dts IH]; intros d made undone Hd Hdts Hl Hl' Ht; cbn [advance_all].
  - exists d, undone. pose proof (dk_elapsed _ _ Hd) as He. assert (Ep : pending d = []).
    { destruct (pending d) as [|c rest]; [done|]. rewrite zlen_cons in Ht. unfold total_ns, MOVE_DURATION_NS, zlen in *. cbn in Ht. lia. }
    rewrite Ep, app_nil_r. done.
  - apply list.Forall_cons in Hdts as [Hdt Hdts].
    destruct (driver_advance_spec d made undone dt Hd Hdt Hl) as (d1 & -> & [H1 H2 H3]). cbn [mbind option_bind].
    cbn [total_ns foldr] in Ht. fold (total_ns dts) in Ht. pose proof (dk_elapsed _ _ Hd) as He.
    destruct (pending d) as [|c rest] eqn:Ep.
    + rewrite (H1 eq_refl). specialize (IH d made undone Hd Hdts). rewrite Ep in IH. apply IH; [done|done|].
      pose proof (total_nonneg dts Hdts). unfold MOVE_DURATION_NS, zlen in *. cbn. lia.
    + destruct (Z_lt_le_dec (elapsed d + tick_ns dt) MOVE_DURATION_NS) as [Hlt|Hge].
      * destruct (H2 c rest eq_refl Hlt) as (Hd1 & E1 & Ee & _). rewrite <- E1.
        apply (IH d1 made undone); rewrite ?E1, ?Ee; try done. lia.
      * destruct (H3 c rest eq_refl Hge) as (Hd1 & E1 & Ee). rewrite length_cons in Hl'.
        destruct (IH d1 (made ++ [c]) [] Hd1 Hdts) as (d' & u & E & Hp & Hd').
        -- rewrite E1, length_app. cbn. destruct rest; [done|]. cbn in Hl'. lia.
        -- rewrite E1, length_app. cbn. lia.
        -- rewrite E1, Ee. rewrite zlen_cons in Ht. destruct rest; [|lia].
           pose proof (total_nonneg dts Hdts). unfold MOVE_DURATION_NS, zlen. cbn. lia.
        -- exists d', u. split; [done|]. split; [done|]. by rewrite E1, <- (assoc_L (++)) in Hd'.
Qed.

(** ** What a client may call *)
Inductive DriverCall :=
| DrEnqueue (r : MoveRequest) | DrCommand (c : RotationCommand) | DrAdvance (dt_ns : Z)
| DrUndo | DrRedo | DrReset | DrShuffle (count : Z) | DrSolve.

Definition driver_call (fuel : nat) (d : RubikDriver) (call : DriverCall) : option RubikDriver :=
  match call with
  | DrEnqueue r => fst <$> driver_enqueue d r
  | DrCommand c => Some (fst (enqueue_command d c))
  | DrAdvance dt => advance d dt
  | DrUndo => fst <$> driver_undo d
  | DrRedo => fst <$> driver_redo d
  | DrReset => driver_reset d
  | DrShuffle count => driver_shuffle fuel d count
  | DrSolve => Some (solve_history d)
  end.

Fixpoint driver_run (fuel : nat) (d : RubikDriver) (calls : list DriverCall) : option RubikDriver :=
  match calls with
  | [] => Some d
  | call :: calls => d ← driver_call fuel d call; driver_run fuel d calls
  end.

(** The most moves a call may queue. *)
Definition call_moves (call : DriverCall) : nat :=
  match call with
  | DrEnqueue r => if mq_double r then 2 else 1
  | DrCommand _ => 1
  | DrShuffle count => Z.to_nat (Z.min count MAX_QUEUED_MOVES)
  | DrSolve => 256
  | _ => 0
  end%nat.

Definition driver_call_valid (call : DriverCall) : Prop :=
  match call with DrCommand c => valid_rotation c | DrAdvance dt => 0 <= dt | DrShuffle count => 0 <= count | _ => True end.

Definition moves_of (calls : list DriverCall) : nat := foldr (fun call n => call_moves call + n)%nat 0%nat calls.

(** The moves a driver knows of: made, undone and to be made. *)
Definition known (d : RubikDriver) (t : timeline) : nat := (length (fst t) + length (snd t) + length (pending d))%nat.

Lemma queue_more d t l : driver_ok d t -> Forall valid_rotation l -> zlen (dr_queue d ++ l) <= MAX_QUEUED_MOVES ->
  driver_ok (driver_with_queue d (dr_queue d ++ l)) t /\
  pending (driver_with_queue d (dr_queue d ++ l)) = pending d ++ l.
Proof.
  intros [Hf Hp He Hq Hr] Hl Hz. assert (E : pending (driver_with_queue d (dr_queue d ++ l)) = pending d ++ l).
  { unfold pending. cbn. by destruct (dr_active d) as [[c e]|]. }
  split; [|done]. constructor; [done|rewrite E; by apply Forall_app_2|done|done|done].
Qed.

Lemma replicate_valid n c : valid_rotation c -> Forall valid_rotation (replicate n c).
Proof. intros H. by apply Forall_replicate. Qed.

Lemma enqueue_ok d t r : driver_ok d t -> exists d' b, driver_enqueue d r = Some (d', b) /\ driver_ok d' t /\
  (length (pending d') <= length (pending d) + call_moves (DrEnqueue r))%nat.
Proof.
  intros Hd. pose proof (dk_queue _ _ Hd) as Hq. pose proof (zlen_nonneg (dr_queue d)). unfold driver_enqueue, call_moves.
  set (count := if mq_double r then 2 else 1). assert (Hc : count = 1 \/ count = 2) by (unfold count; destruct (mq_double r); lia).
  assert (Ec : (if mq_double r then 2 else 1)%nat = Z.to_nat count) by (unfold count; by destruct (mq_double r)).
  assert (Es : saturating_add 64 (zlen (dr_queue d)) count = zlen (dr_queue d) + count).
  { unfold saturating_add, umax, MAX_QUEUED_MOVES in *. lia. }
  rewrite Ec, Es. destruct (Z.ltb_spec MAX_QUEUED_MOVES (zlen (dr_queue d) + count)).
  - exists d, false. split; [done|]. split; [done|lia].
  - destruct (face_command_valid (mq_face r) (mq_inverse r)) as (c & -> & Hv). cbn [mbind option_bind].
    destruct (queue_more d t (replicate (Z.to_nat count) c) Hd) as [H1 E]; [by apply replicate_valid| |].
    { rewrite zlen_app. unfold zlen in *. rewrite length_replicate. lia. }
    eexists _, true. split; [done|]. split; [done|]. rewrite E, length_app, length_replicate. lia.
Qed.

Lemma enqueue_command_ok d t c : driver_ok d t -> valid_rotation c -> driver_ok (fst (enqueue_command d c)) t /\
  (length (pending (fst (enqueue_command d c))) <= length (pending d) + 1)%nat.
Proof.
  intros Hd Hc. unfold enqueue_command. destruct (Z.leb_spec MAX_QUEUED_MOVES (zlen (dr_queue d))); [split; [done|cbn; lia]|].
  destruct (queue_more d t [c] Hd) as [H1 E]; [by constructor|rewrite zlen_app; unfold zlen in *; cbn; lia|].
  cbn [fst]. split; [done|]. rewrite E, length_app. cbn. lia.
Qed.

(** Undo and redo of an idle driver are steps of the cube. *)
Lemma idle_step d t call s b : driver_ok d t -> cube_step (dr_state d) call = Some (s, b) ->
  follows s (fst (timeline_step t call)) -> driver_ok (driver_with_state d s) (fst (timeline_step t call)).
Proof. intros [Hf Hp He Hq Hr] _ Hs. by constructor. Qed.

Lemma undo_redo_ok d t call : call = CubeUndo \/ call = CubeRedo -> driver_ok d t -> (length (fst t) + length (snd t) <= 512)%nat ->
  exists s b, cube_step (dr_state d) call = Some (s, b) /\ driver_ok (driver_with_state d s) (fst (timeline_step t call)) /\
  (known (driver_with_state d s) (fst (timeline_step t call)) <= known d t)%nat.
Proof.
  intros Hc Hd Hl. destruct (step_follows (dr_state d) t call (dk_follows _ _ Hd)) as (s & E & Hs).
  - by destruct Hc as [-> | ->].
  - destruct Hc as [-> | ->]; cbn; lia.
  - exists s, (snd (timeline_step t call)). split; [done|]. split; [by eapply idle_step|].
    pose proof (timeline_step_length t call) as H. unfold known. change (pending (driver_with_state d s)) with (pending d).
    assert (moves [call] = 0%nat) by (by destruct Hc as [-> | ->]). lia.
Qed.

(** Solving queues the inverses of the history, newest first. *)
Definition inverses (l : list RotationCommand) : list RotationCommand := map inverse (rev l).

Lemma solve_queue l : forall d, zlen (dr_queue d) + zlen l <= MAX_QUEUED_MOVES ->
  foldl (fun d command => fst (enqueue_command d (inverse command))) d l = driver_with_queue d (dr_queue d ++ map inverse l).
Proof.
  induction l as [|c l IH]; intros d Hl; cbn [foldl map]; [rewrite app_nil_r; by destruct d|].
  rewrite zlen_cons in Hl. pose proof (zlen_nonneg l). rewrite enqueue_command_spec by lia. cbn [fst]. rewrite IH.
  - cbn [driver_with_queue dr_queue]. by rewrite <- (assoc_L (++)).
  - cbn [driver_with_queue dr_queue]. rewrite zlen_app. unfold zlen in *. cbn. lia.
Qed.

Lemma solve_ok_any d t l : driver_ok d t -> Forall valid_rotation l ->
  driver_ok (foldl (fun d command => fst (enqueue_command d (inverse command))) d l) t.
Proof.
  intros Hd Hl. revert d Hd. induction Hl as [|c l Hc _ IH]; intros d Hd; cbn [foldl]; [done|].
  apply IH. by apply enqueue_command_ok; [|apply inverse_valid].
Qed.

Lemma history_valid d t : driver_ok d t -> Forall valid_rotation (fst t) /\ cs_history (dr_state d) = fst t.
Proof. intros [[Hv _ Hh _ _] _ _ _ _]. split; [by apply list.Forall_app in Hv as [Hv _]|done]. Qed.

Lemma idle_empty d : is_idle d = true -> driver_with_queue d [] = d.
Proof.
  intros H. apply idle_pending in H. destruct d as [s q a rng]. unfold pending in H. cbn in *.
  destruct a as [[c e]|]; [done|]. by subst.
Qed.

Lemma pending_length d t : driver_ok d t -> dr_active d = None -> (length (pending d) <= 256)%nat.
Proof. intros [_ _ _ Hq _] Ha. unfold pending. rewrite Ha. unfold zlen, MAX_QUEUED_MOVES in Hq. lia. Qed.

Lemma enqueue_keeps_active d c : dr_active (fst (enqueue_command d c)) = dr_active d.
Proof. unfold enqueue_command. by destruct (_ <=? _). Qed.

Lemma solve_active l : forall d, dr_active (foldl (fun d command => fst (enqueue_command d (inverse command))) d l) = dr_active d.
Proof. induction l as [|c l IH]; intros d; cbn [foldl]; [done|]. by rewrite IH, enqueue_keeps_active. Qed.

Lemma solve_ok d t : driver_ok d t -> driver_ok (solve_history d) t /\
  (length (pending (solve_history d)) <= length (pending d) + 256)%nat.
Proof.
  intros Hd. unfold solve_history. destruct (is_idle d) eqn:Hi; [|split; [done|lia]]. rewrite idle_empty by done.
  destruct (history_valid d t Hd) as [Hv ->].
  assert (H : driver_ok (foldl (fun d command => fst (enqueue_command d (inverse command))) d (rev (fst t))) t).
  { apply solve_ok_any; [done|]. by apply Forall_rev. }
  split; [done|]. enough (dr_active d = None) by (pose proof (pending_length _ _ H ltac:(by rewrite solve_active)); lia).
  apply idle_pending in Hi. unfold pending in Hi. by destruct (dr_active d) as [[? ?]|].
Qed.

(** ** Every call keeps the invariant *)
Lemma advance_ok d t dt : driver_ok d t -> 0 <= dt -> (known d t < 512)%nat ->
  exists d' t', advance d dt = Some d' /\ driver_ok d' t' /\ (known d' t' <= known d t)%nat.
Proof.
  intros Hd Hv Hk. destruct t as [made undone]. destruct (driver_advance_spec d made undone dt Hd Hv) as (d' & E & [H1 H2 H3]).
  { intros Hp. unfold known in Hk. cbn in Hk. destruct (pending d); [done|]. cbn in Hk. lia. }
  exists d'. destruct (pending d) as [|c rest] eqn:Ep.
  { rewrite (H1 eq_refl) in *. by exists (made, undone). }
  destruct (Z_lt_le_dec (elapsed d + tick_ns dt) MOVE_DURATION_NS) as [Hlt|Hge].
  - destruct (H2 c rest eq_refl Hlt) as (Hd1 & E1 & _). exists (made, undone). split; [done|]. split; [done|].
    unfold known. rewrite Ep, E1. cbn. lia.
  - destruct (H3 c rest eq_refl Hge) as (Hd1 & E1 & _). exists (made ++ [c], []). split; [done|]. split; [done|].
    unfold known. cbn [fst snd]. rewrite Ep, E1, length_app. cbn. lia.
Qed.

Lemma shuffle_ok fuel d t count : (DRAWS <= fuel)%nat -> driver_ok d t -> 0 <= count ->
  exists d', driver_shuffle fuel d count = Some d' /\ driver_ok d' t /\
  length (pending d') = Z.to_nat (Z.min count MAX_QUEUED_MOVES).
Proof.
  intros Hf Hd Hv. destruct (shuffle_loop_spec fuel (Z.to_nat (Z.min count MAX_QUEUED_MOVES)) Hf None
    (driver_with_active (driver_with_queue d []) None)) as (rng & l & E & H1 & H2 & H3 & _).
  { exact (dk_rng _ _ Hd). }
  { unfold MAX_QUEUED_MOVES, zlen. cbn. lia. }
  eexists. split; [exact E|]. unfold pending. cbn [dr_active dr_queue driver_with_active driver_with_queue app dr_state].
  split; [|done].
  constructor; [exact (dk_follows _ _ Hd)|done|split; [discriminate|reflexivity]| |done].
  cbn [dr_queue]. unfold zlen, MAX_QUEUED_MOVES in *. lia.
Qed.

Lemma driver_call_ok fuel d t call : (DRAWS <= fuel)%nat -> driver_ok d t -> driver_call_valid call ->
  (known d t + call_moves call < 512)%nat ->
  exists d' t', driver_call fuel d call = Some d' /\ driver_ok d' t' /\ (known d' t' <= known d t + call_moves call)%nat.
Proof.
  intros Hf Hd Hv Hk. destruct call as [r|c|dt| | | |count|]; cbn [driver_call driver_call_valid] in *.
  - destruct (enqueue_ok d t r Hd) as (d' & b & -> & Hd' & Hl). exists d', t. split; [done|]. split; [done|]. unfold known. lia.
  - destruct (enqueue_command_ok d t c Hd Hv) as [Hd' Hl]. exists (fst (enqueue_command d c)), t. split; [done|]. split; [done|].
    unfold known. cbn [call_moves]. lia.
  - destruct (advance_ok d t dt Hd Hv ltac:(lia)) as (d' & t' & E & H1 & H2). exists d', t'. split; [done|]. split; [done|lia].
  - unfold driver_undo. destruct (is_idle d); [|exists d, t; split; [done|]; split; [done|lia]].
    destruct (undo_redo_ok d t CubeUndo) as (s & b & E & H1 & H2); [by left|done|unfold known in Hk; lia|].
    cbn [cube_step] in E. rewrite E. cbn [mbind option_bind fmap option_fmap option_map fst].
    eexists _, _. split; [done|]. split; [done|]. lia.
  - unfold driver_redo. destruct (is_idle d); [|exists d, t; split; [done|]; split; [done|lia]].
    destruct (undo_redo_ok d t CubeRedo) as (s & b & E & H1 & H2); [by right|done|unfold known in Hk; lia|].
    cbn [cube_step] in E. rewrite E. cbn [mbind option_bind fmap option_fmap option_map fst].
    eexists _, _. split; [done|]. split; [done|]. lia.
  - unfold driver_reset. destruct cube_new_some as (s & E). rewrite E. cbn [mbind option_bind]. eexists _, ([], []). split; [done|].
    split; [|unfold known; cbn; lia].
    constructor; [exact (follows_new s E)|constructor|split; [discriminate|reflexivity]|discriminate|exact (dk_rng _ _ Hd)].
  - destruct (shuffle_ok fuel d t count Hf Hd Hv) as (d' & E & H1 & H2). exists d', t. split; [done|]. split; [done|]. unfold known. cbn [call_moves]. lia.
  - destruct (solve_ok d t Hd) as [Hd' Hl]. exists (solve_history d), t. split; [done|]. split; [done|].
    unfold known. cbn [call_moves]. lia.
Qed.

Lemma driver_run_ok fuel calls : (DRAWS <= fuel)%nat -> Forall driver_call_valid calls -> forall d t, driver_ok d t ->
  (known d t + moves_of calls < 512)%nat -> exists d' t', driver_run fuel d calls = Some d' /\ driver_ok d' t' /\
  (known d' t' < 512)%nat.
Proof.
  intros Hf. induction 1 as [|call calls Hv _ IH]; intros d t Hd Hk; cbn [driver_run moves_of foldr] in *.
  { exists d, t. split; [done|]. split; [done|lia]. }
  fold (moves_of calls) in Hk.
  destruct (driver_call_ok fuel d t call Hf Hd Hv ltac:(lia)) as (d1 & t1 & -> & H1 & Hk1). cbn [mbind option_bind].
  apply (IH d1 t1 H1). lia.
Qed.

Lemma turned_back made : Forall valid_rotation made -> turned (made ++ inverses made) = initial_cubies.
Proof.
  intros H. unfold inverses. induction made as [|c made IH] using rev_ind; [done|].
  apply list.Forall_app in H as [Hm [Hc _]%Forall_cons_1]. rewrite rev_app_distr. cbn [rev app map].
  unfold turned in *. etransitivity; [|exact (IH Hm)]. rewrite !foldl_app. cbn [foldl]. by rewrite turn_back by done.
Qed.

(** A cube with the cubies of a new one shows a solved cube. *)
Lemma initial_solved s t : follows s t -> cs_cubies s = initial_cubies -> is_solved s = true.
Proof.
  intros [_ _ _ _ Hf] E. rewrite E in Hf. destruct cube_new_some as (s0 & E0). pose proof new_cube_solved as H.
  rewrite E0 in H. cbn [option_map] in H. injection H as H. rewrite <- H. unfold is_solved.
  unfold cube_new in E0. rewrite Hf in E0. cbn [mbind option_bind] in E0. by injection E0 as <-.
Qed.

Lemma solve_pending d made undone : driver_ok d (made, undone) -> is_idle d = true -> zlen made <= MAX_QUEUED_MOVES ->
  driver_ok (solve_history d) (made, undone) /\ dr_queue (solve_history d) = inverses made /\
  pending (solve_history d) = inverses made /\ elapsed (solve_history d) = 0.
Proof.
  intros Hd Hi Hl. pose proof (solve_ok d _ Hd) as [Hs _]. split; [done|].
  unfold solve_history. rewrite Hi, idle_empty by done. destruct (history_valid d _ Hd) as [_ ->]. cbn [fst].
  apply idle_pending in Hi. unfold pending in Hi. destruct (dr_active d) as [[c e]|] eqn:Ea; [done|].
  rewrite solve_queue by (rewrite Hi; unfold zlen in *; rewrite length_rev; exact Hl).
  unfold driver_with_queue, pending, elapsed. cbn [dr_active dr_queue]. by rewrite Ea, Hi.
Qed.

(** C33: After any mix of queueing, ticks, undo, redo, shuffles, resets and
    solving that asks for fewer than 512 moves in all ([moves_of]): no call
    panicked and every shuffle ended.  If the driver is then idle with at most
    256 moves in its history, solving queues their inverses, newest first, and
    once the ticks after it have counted a quarter of a second for each of them
    the driver is idle with a solved cube, every cubie back in its place and
    orientation.  A tick counts for its length but never for more than a quarter
    of a second ([total_ns]), as the driver clips it; the ticks may be split in
    any way within that. *)
Theorem rubik_solves_back (fuel : nat) (calls : list DriverCall) (dts : list Z) :
  (DRAWS <= fuel)%nat -> Forall driver_call_valid calls -> (moves_of calls < 512)%nat -> Forall (fun dt => 0 <= dt) dts ->
  exists d0 d, driver_new = Some d0 /\ driver_run fuel d0 calls = Some d /\
  (is_idle d = true -> zlen (cs_history (dr_state d)) <= MAX_QUEUED_MOVES ->
   MOVE_DURATION_NS * zlen (cs_history (dr_state d)) <= total_ns dts ->
   exists d', dr_queue (solve_history d) = inverses (cs_history (dr_state d)) /\
     advance_all (solve_history d) dts = Some d' /\ is_idle d' = true /\
     cs_cubies (dr_state d') = initial_cubies /\ is_solved (dr_state d') = true).
Proof.
  intros Hf Hc Hm Hdts. destruct driver_new_ok as (d0 & E0 & H0 & P0).
  destruct (driver_run_ok fuel calls Hf Hc d0 _ H0) as (d & [made undone] & E & Hd & Hk); [unfold known; rewrite P0; cbn; lia|].
  exists d0, d. split; [done|]. split; [done|]. intros Hi Hh Ht.
  destruct (history_valid d _ Hd) as [Hv Eh]. cbn [fst] in *. rewrite Eh in *.
  destruct (solve_pending d made undone Hd Hi Hh) as (Hs & Eq & Ep & Ee).
  destruct (advance_drains dts _ made undone Hs Hdts) as (d' & u & Er & Hp & Hd').
  - intros _. unfold known in Hk. cbn in Hk. lia.
  - rewrite Ep. unfold inverses. rewrite length_map, length_rev. unfold zlen, MAX_QUEUED_MOVES in Hh. lia.
  - rewrite Ep, Ee, Z.sub_0_r. unfold inverses, zlen in *. by rewrite length_map, length_rev.
  - exists d'. split; [done|]. split; [done|]. split; [by apply idle_pending|]. rewrite Ep in Hd'.
    assert (Ec : cs_cubies (dr_state d') = initial_cubies).
    { rewrite (fl_cubies _ _ (dk_follows _ _ Hd')). by apply turned_back. }
    split; [done|]. by eapply initial_solved; [exact (dk_follows _ _ Hd')|].
Qed.

Definition sample_calls : list DriverCall :=
  [DrEnqueue (mkRequest MoveFace.R false true); DrAdvance 250000000; DrAdvance 100000000; DrAdvance 200000000; DrUndo;
   DrShuffle 3; DrAdvance 250000000; DrAdvance 250000000; DrAdvance 250000000; DrUndo; DrUndo; DrRedo].

#[local] Transparent DRAWS.
Lemma sample_calls_run : (d0 ← driver_new; d ← driver_run DRAWS d0 sample_calls; Some (is_idle d, zlen (cs_history (dr_state d)))) = Some (true, 3).
Proof. lazy. reflexivity. Qed.
#[local] Opaque DRAWS.

Lemma rubik_solves_back_witness : exists d0 d d', driver_new = Some d0 /\ driver_run DRAWS d0 sample_calls = Some d /\
  is_idle d = true /\ zlen (cs_history (dr_state d)) = 3 /\
  advance_all (solve_history d) [250000000; 1000000000; 250000000] = Some d' /\ is_idle d' = true /\ is_solved (dr_state d') = true.
Proof.
  destruct (rubik_solves_back DRAWS sample_calls [250000000; 1000000000; 250000000]) as (d0 & d & E0 & E & H).
  - apply Nat.le_refl.
  - unfold sample_calls. repeat (apply list.Forall_cons; split; [cbn; try discriminate; exact I|]). apply list.Forall_nil. exact I.
  - vm_compute. lia.
  - repeat (apply list.Forall_cons; split; [discriminate|]). apply list.Forall_nil. exact I.
  - pose proof sample_calls_run as R. rewrite E0 in R. cbn [mbind option_bind] in R. rewrite E in R. cbn [mbind option_bind] in R.
    injection R as R1 R2. destruct H as (d' & _ & H1 & H2 & _ & H3); [exact R1|rewrite R2; discriminate|rewrite R2; discriminate|].
    exists d0, d, d'. exact (conj E0 (conj E (conj R1 (conj R2 (conj H1 (conj H2 H3)))))).
Defined.

(** ** The driver as a subsystem *)
Section TickSpec.
Context {P V : Type} `{!Payload InputFrame P}.

Definition keys_of (e : Envelope P) : list Z :=
  if env_topic e =? 2 then
    match envelope_downcast (downcast (T := InputFrame)) e with
    | Ok input => counted (Z.min (if_pressed_key_count input) 32) (if_pressed_keys input)
    | Err _ => []
    end
  else [].

Lemma press_keys_app fuel k1 : forall d k2, press_keys fuel d (k1 ++ k2) = (d ← press_keys fuel d k1; press_keys fuel d k2).
Proof.
  induction k1 as [|key k1 IH]; intros d k2; cbn [app press_keys mbind option_bind]; [done|].
  destruct (press_key fuel d key); cbn [mbind option_bind]; [apply IH|done].
Qed.

Lemma rubik_messages fuel q : forall k d, handle_all (rubik_message fuel) k q d = press_keys fuel d (q ≫= keys_of).
Proof.
  induction q as [|e q IH]; intros k d; cbn [handle_all mbind list_bind]; [done|]. rewrite press_keys_app.
  assert (E : rubik_message fuel k d e = press_keys fuel d (keys_of e)).
  { unfold rubik_message, keys_of. destruct (env_topic e =? 2); cbn [negb]; [|done]. by destruct (envelope_downcast _ _). }
  rewrite E. destruct (press_keys fuel d (keys_of e)); cbn [mbind option_bind]; [apply IH|done].
Qed.

(** The call a key stands for. *)
Definition key_call (key : Z) : option DriverCall :=
  match key with
  | 72 => Some (DrShuffle 24) | 90 => Some DrUndo | 89 => Some DrRedo | 84 => Some DrSolve | 78 => Some DrReset
  | _ => (fun face => DrEnqueue (request_normal face)) <$> key_face key
  end.

Lemma press_key_call fuel d key :
  press_key fuel d key = match key_call key with Some call => driver_call fuel d call | None => Some d end.
Proof.
  unfold press_key, key_call. destruct key as [|p|p]; [done| |done].
  repeat (destruct p as [p|p|]; cbn [key_face fmap option_fmap option_map driver_call]; try done);
    (by destruct (driver_enqueue d _) as [[? ?]|]) || (by destruct (driver_undo d) as [[? ?]|]) || by destruct (driver_redo d) as [[? ?]|].
Qed.

Lemma key_call_valid key call : key_call key = Some call -> driver_call_valid call.
Proof.
  unfold key_call. destruct key as [|p|p]; [done| |done].
  repeat (destruct p as [p|p|]; cbn [key_face fmap option_fmap option_map]; try done); by intros [= <-].
Qed.

Lemma press_keys_calls fuel keys : forall d, press_keys fuel d keys = driver_run fuel d (omap key_call keys).
Proof.
  induction keys as [|key keys IH]; intros d; cbn [press_keys omap list_omap]; [done|]. rewrite press_key_call.
  destruct (key_call key) as [call|]; cbn [driver_run mbind option_bind]; [|apply IH].
  destruct (driver_call fuel d call); cbn [mbind option_bind]; [apply IH|done].
Qed.

Lemma driver_run_app fuel l1 : forall d l2, driver_run fuel d (l1 ++ l2) = (d ← driver_run fuel d l1; driver_run fuel d l2).
Proof.
  induction l1 as [|call l1 IH]; intros d l2; cbn [app driver_run mbind option_bind]; [done|].
  destruct (driver_call fuel d call); cbn [mbind option_bind]; [apply IH|done].
Qed.

(** A tick of the subsystem empties its inbox and calls the driver for the
    keys of the input frames found there, in order, then lets the time pass:
    with [rubik_solves_back], what a kernel drives keeps every promise above. *)
Theorem rubik_tick_calls (fuel : nat) (d : RubikDriver) (t : timeline) (c : KernelContext P V) (dt_ns : Z) qs :
  bus_repr (sh_bus (kc_shared c)) qs -> driver_ok d t -> (DRAWS <= fuel)%nat -> 0 <= dt_ns ->
  let calls := omap key_call (inbox_of qs (kc_id c) ≫= keys_of) in
  (known d t + moves_of calls < 512)%nat ->
  exists d' b, rubik_tick fuel d c dt_ns = Some (d', ctx_with_bus c b) /\ bus_repr b (zset qs (kc_id c) []) /\
  driver_run fuel d (calls ++ [DrAdvance dt_ns]) = Some d'.
Proof.
  intros Hb Hd Hf Hdt calls Hk. unfold rubik_tick. pose proof (drain_inbox_spec (rubik_message fuel) c d qs Hb) as R.
  rewrite rubik_messages, press_keys_calls in R. fold calls in R.
  assert (Hc : Forall driver_call_valid calls).
  { apply list.Forall_forall. intros call (key & _ & E)%list_elem_of_omap. by eapply key_call_valid. }
  destruct (driver_run_ok fuel calls Hf Hc d t Hd Hk) as (d1 & t1 & E & H1 & Hk1). rewrite E in R.
  destruct R as (b & Hb' & _ & ->). cbn [mbind option_bind].
  destruct (advance_ok d1 t1 dt_ns H1 Hdt Hk1) as (d2 & t2 & E2 & _). rewrite E2. cbn [mbind option_bind].
  exists d2, b. split; [done|]. split; [done|]. rewrite driver_run_app, E. cbn [mbind option_bind driver_run driver_call]. by rewrite E2.
Qed.
End TickSpec.

Definition keys_frame (keys : list Z) : InputFrame :=
  {| if_mouse_x := 0; if_mouse_y := 0; if_mouse_buttons := 0; if_pressed_buttons := 0; if_released_buttons := 0;
     if_key_count := 0; if_keys := []; if_pressed_key_count := zlen keys; if_pressed_keys := keys;
     if_released_key_count := 0; if_released_keys := []; if_text_count := 0; if_text := [] |}.

#[export] Instance input_frame_payload : Payload InputFrame InputFrame :=
  {| into := fun v => v; downcast := fun p => Some p; downcast_into := fun v => eq_refl |}.

Lemma rubik_tick_calls_witness : exists d0 d b, driver_new = Some d0 /\
  rubik_tick (V := Z) DRAWS d0 (context_on two_subscribers [] 0) 16 = Some (d, ctx_with_bus (context_on two_subscribers [] 0) b) /\
  bus_repr b [[]; []].
Proof.
  destruct driver_new_ok as (d0 & E & H & K).
  destruct (rubik_tick_calls (V := Z) DRAWS d0 ([], []) (context_on two_subscribers [] 0) 16 [[]; []]) as (d & b & H1 & H2 & _).
  - exact two_subscribers_repr.
  - exact H.
  - apply Nat.le_refl.
  - discriminate.
  - unfold known. rewrite K. apply Nat.ltb_lt. vm_compute. reflexivity.
  - exists d0, d, b. exact (conj E (conj H1 H2)).
Defined.

(** ** A defect

    The queue takes 256 moves and the history 512, so a longer history is
    solved only in part: the oldest moves stay. *)
Example solution_drops_moves :
  match cube_new with
  | Some s0 =>
      match cube_run s0 (replicate 257 (CubeMove turn_x)) with
      | Some (s, _) =>
          match advance_all (solve_history (mkDriver s [] None 1)) (replicate 256 MOVE_DURATION_NS) with
          | Some d => (is_idle d, is_solved (dr_state d))
          | None => (false, true)
          end
      | None => (false, true)
      end
  | None => (false, true)
  end = (true, false).
Proof. vm_compute. reflexivity. Qed.
