(* ===== verification/SystemFiles.v ===== *)
(** Files and clocks of the platform layer: [platform/linux/syscalls.rs],
    [platform/linux/time.rs] and their Windows counterparts
    [platform/windows/winapi.rs], [platform/windows/time.rs].

    The system calls are a parameter, the state of the system is threaded
    through them.  What the code relies on is [PosixFiles]: the documented
    behaviour of open, read, lseek and close on regular files, with any read
    allowed to be short, to fail or to be interrupted by a signal.

    Theorems: a whole file is read exactly, whatever the sizes of the reads and
    the interruptions, and its descriptor closed on every path; asking for the
    size leaves the cursor alone; clock readings are exact and never go back. *)

From stdpp Require Import strings sets.
From S2P Require Import Prelude.

Local Open Scope string_scope.
Local Open Scope list_scope.
Local Open Scope Z_scope.
Local Open Scope kit_scope.

Definition O_RDONLY : Z := 0.
Definition O_CLOEXEC : Z := 0x80000.
Definition PROT_READ : Z := 1.
Definition MAP_PRIVATE : Z := 2.
Definition MAP_POPULATE : Z := 0x8000.
Definition SEEK_SET : Z := 0.
Definition SEEK_CUR : Z := 1.
Definition SEEK_END : Z := 2.

Module SysErrno.
Inductive SysErrno := Interrupted | WouldBlock | Other (code : Z).
End SysErrno.
Abbreviation SysErrno := SysErrno.SysErrno.
#[export] Instance SysErrno_eq_dec : EqDecision SysErrno.
Proof. solve_decision. Defined.

(** Paths are their bytes. *)
Record SysError := mkSysError { se_errno : SysErrno; se_op : string; se_path : option (list Z) }.

Definition errno_of (raw : Z) : SysErrno :=
  if raw =? 4 then SysErrno.Interrupted else if raw =? 11 then SysErrno.WouldBlock else SysErrno.Other raw.

(** [From<SysError> for io::Error]: the kind, or the raw code. *)
Inductive IoError := KindInterrupted (op : string) | KindWouldBlock (op : string) | RawOsError (code : Z).
Definition io_error (e : SysError) : IoError :=
  match se_errno e with
  | SysErrno.Interrupted => KindInterrupted (se_op e)
  | SysErrno.WouldBlock => KindWouldBlock (se_op e)
  | SysErrno.Other code => RawOsError (Z.max code 1)
  end.

(** The calls. [sys_read] gives the return value and the bytes put in the
    buffer. *)
Class SystemCalls (W : Type) := {
  sys_open : list Z -> Z -> Z -> W -> W * Z;
  sys_read : Z -> Z -> W -> W * (Z * list Z);
  sys_write : Z -> list Z -> W -> W * Z;
  sys_lseek : Z -> Z -> Z -> W -> W * Z;
  sys_mmap : Z -> Z -> Z -> Z -> W -> W * Z;
  sys_munmap : Z -> Z -> W -> W;
  sys_close : Z -> W -> W;
  sys_errno : W -> Z
}.

(** [CString::new] refuses a text with a zero byte. *)
Definition c_string (text : list Z) : option (list Z) := if existsb (Z.eqb 0) text then None else Some text.

Section Files.
Context {W : Type} `{!SystemCalls W}.
Implicit Types (w : W) (fd : Z) (path : list Z).

Definition sys_error (op : string) (path : option (list Z)) w : SysError := mkSysError (errno_of (sys_errno w)) op path.

Definition fd_open path (flags mode : Z) w : W * result SysError Z :=
  match c_string path with
  | None => (w, Err (mkSysError (SysErrno.Other 0) "open (CString)" (Some path)))
  | Some cpath =>
      let '(w, raw) := sys_open cpath flags mode w in
      if raw <? 0 then (w, Err (sys_error "open" (Some path) w)) else (w, Ok raw)
  end.

(** The number of bytes and the bytes. *)
Definition fd_read fd (count : Z) w : W * result SysError (Z * list Z) :=
  let '(w, (n, bytes)) := sys_read fd count w in
  if n <? 0 then (w, Err (sys_error "read" None w)) else (w, Ok (n, bytes)).

Definition fd_write fd (bytes : list Z) w : W * result SysError Z :=
  let '(w, n) := sys_write fd bytes w in
  if n <? 0 then (w, Err (sys_error "write" None w)) else (w, Ok n).

Definition fd_size_bytes fd w : W * result SysError Z :=
  let '(w, current) := sys_lseek fd 0 SEEK_CUR w in
  if current <? 0 then (w, Err (sys_error "lseek (position)" None w))
  else
    let '(w, size) := sys_lseek fd 0 SEEK_END w in
    if size <? 0 then
      let '(w, _) := sys_lseek fd current SEEK_SET w in
      (w, Err (sys_error "lseek (size)" None w))
    else
      let '(w, restored) := sys_lseek fd current SEEK_SET w in
      if restored <? 0 then (w, Err (sys_error "lseek (restore position)" None w)) else (w, Ok size).

(** The loop of [read_file]; a count above the buffer's length is a panic. *)
Fixpoint read_loop (fuel : nat) fd (out : list Z) w : option (W * result SysError (list Z)) :=
  match fuel with
  | O => None
  | S fuel =>
      match fd_read fd 8192 w with
      | (w, Ok (n, bytes)) =>
          if n =? 0 then Some (w, Ok out)
          else if 8192 <? n then None
          else read_loop fuel fd (out ++ take (Z.to_nat n) bytes) w
      | (w, Err e) =>
          if decide (se_errno e = SysErrno.Interrupted) then read_loop fuel fd out w else Some (w, Err e)
      end
  end.

(** The descriptor is closed when [fd] is dropped. *)
Definition read_file (fuel : nat) path w : option (W * result SysError (list Z)) :=
  match fd_open path (Z.lor O_RDONLY O_CLOEXEC) 0 w with
  | (w, Err e) => Some (w, Err e)
  | (w, Ok fd) => '(w, r) ← read_loop fuel fd [] w; Some (sys_close fd w, r)
  end.

Record MappedFile := mkMapped { mf_ptr : Z; mf_len : Z }.

(** [usize::try_from] of a [u64] does not fail on 64 bits. *)
Definition map_readonly fd (len : Z) path w : W * result SysError MappedFile :=
  if len =? 0 then (w, Err (mkSysError (SysErrno.Other 0) "mmap (zero length)" (Some path)))
  else
    let '(w, ptr) := sys_mmap len PROT_READ (Z.lor MAP_PRIVATE MAP_POPULATE) fd w in
    if (ptr =? USIZE_MAX) || (ptr =? 0) then (w, Err (sys_error "mmap" (Some path) w))
    else (w, Ok (mkMapped ptr len)).

Definition mapped_drop (m : MappedFile) w : W := sys_munmap (mf_ptr m) (mf_len m) w.

Definition syscall_mmap_huge (len prot flags : Z) w : W * option Z :=
  let '(w, ptr) := sys_mmap len prot flags (-1) w in
  (w, if (ptr =? 0) || (ptr =? USIZE_MAX) then None else Some ptr).
End Files.

(** ** Windows *)
Record WinApiError := mkWinError { we_op : string; we_code : Z; we_path : option (list Z) }.
Definition INVALID_HANDLE_VALUE : Z := USIZE_MAX.
Definition ERROR_INVALID_PARAMETER : Z := 87.

(** [win_read]: success, the count and the bytes; [win_size]: success and size. *)
Class Win32Files (W : Type) := {
  win_create : list Z -> W -> W * Z;
  win_read : Z -> Z -> W -> W * (bool * Z * list Z);
  win_size : Z -> W -> W * (bool * Z);
  win_close : Z -> W -> W;
  win_last_error : W -> Z
}.

Record FileHandle := mkFileHandle { fh_raw : Z; fh_path : list Z }.

Section WindowsFiles.
Context {W : Type} `{!Win32Files W}.
Implicit Types (w : W).

Definition handle_error (h : FileHandle) (op : string) w : WinApiError := mkWinError op (win_last_error w) (Some (fh_path h)).

Definition open_read (path : list Z) w : W * result WinApiError FileHandle :=
  match c_string path with
  | None => (w, Err (mkWinError "CreateFileA" ERROR_INVALID_PARAMETER (Some path)))
  | Some cpath =>
      let '(w, raw) := win_create cpath w in
      if raw =? INVALID_HANDLE_VALUE then (w, Err (mkWinError "CreateFileA" (win_last_error w) (Some path)))
      else (w, Ok (mkFileHandle raw path))
  end.

Definition handle_size_bytes (h : FileHandle) w : W * result WinApiError Z :=
  let '(w, (ok, size)) := win_size (fh_raw h) w in
  if negb ok || (size <? 0) then (w, Err (handle_error h "GetFileSizeEx" w)) else (w, Ok size).

Fixpoint read_to_end_loop (fuel : nat) (h : FileHandle) (output : list Z) w : option (W * result WinApiError (list Z)) :=
  match fuel with
  | O => None
  | S fuel =>
      let '(w, (ok, read, bytes)) := win_read (fh_raw h) 8192 w in
      if negb ok then Some (w, Err (handle_error h "ReadFile" w))
      else if read =? 0 then Some (w, Ok output)
      else if 8192 <? read then None
      else read_to_end_loop fuel h (output ++ take (Z.to_nat read) bytes) w
  end.

(** [Vec::with_capacity]: capacity beyond [isize::MAX] panics. *)
Definition read_to_end (fuel : nat) (h : FileHandle) w : option (W * result WinApiError (list Z)) :=
  match handle_size_bytes h w with
  | (w, Err e) => Some (w, Err e)
  | (w, Ok size) => if I64_MAX <? size then None else read_to_end_loop fuel h [] w
  end.

Definition windows_read_file (fuel : nat) (path : list Z) w : option (W * result WinApiError (list Z)) :=
  match open_read path w with
  | (w, Err e) => Some (w, Err e)
  | (w, Ok h) => '(w, r) ← read_to_end fuel h w; Some (win_close (fh_raw h) w, r)
  end.
End WindowsFiles.

(** ** Clocks *)

(** [time.rs]: what [clock_gettime] returns and writes. *)
Record Timespec := mkTimespec { tv_sec : Z; tv_nsec : Z }.
Definition now_ns (call : Z * Timespec) : result Z Z :=
  let '(rc, ts) := call in
  if negb (rc =? 0) then Err rc
  else Ok (saturating_add 64 (saturating_mul 64 (wrap 64 (tv_sec ts)) 1000000000) (wrap 64 (tv_nsec ts))).

(** [windows/time.rs]: success and value of the frequency and of the counter. *)
Definition qpc_frequency (call : bool * Z) (last_error : Z) : result Z Z :=
  let '(ok, value) := call in if negb ok || (value <=? 0) then Err last_error else Ok value.
Definition windows_now_ns (freq : result Z Z) (call : bool * Z) (last_error : Z) : result Z Z :=
  let? freq := freq in
  let '(ok, counter) := call in
  if negb ok || (counter <? 0) then Err last_error else Ok (wrap 64 (counter * 1000000000 / freq)).

(** ** What the code relies on

    [open_at w fd] is the content and the cursor of an open file, [file_of path]
    what the file of that name holds, [signals w] how many more signals will
    arrive. *)
Class PosixFiles (W : Type) `{!SystemCalls W} := {
  open_at : W -> Z -> option (list Z * Z);
  file_of : list Z -> option (list Z);
  signals : W -> nat;
  posix_open path flags mode w : let '(w', fd) := sys_open path flags mode w in
    (signals w' <= signals w)%nat /\
    (fd < 0 /\ (forall k, open_at w' k = open_at w k) \/
     0 <= fd /\ open_at w fd = None /\ exists content, file_of path = Some content /\
     forall k, open_at w' k = if k =? fd then Some (content, 0) else open_at w k);
  posix_read fd count w content pos : open_at w fd = Some (content, pos) -> 0 < count ->
    let '(w', (n, bytes)) := sys_read fd count w in
    n < 0 /\ (forall k, open_at w' k = open_at w k) /\ (signals w' <= signals w)%nat /\
      (sys_errno w' = 4 -> (signals w' < signals w)%nat) \/
    0 <= n <= count /\ bytes = take (Z.to_nat n) (drop (Z.to_nat pos) content) /\ zlen bytes = n /\
      (n = 0 -> zlen content <= pos) /\ (signals w' <= signals w)%nat /\
      (forall k, open_at w' k = if k =? fd then Some (content, pos + n) else open_at w k);
  posix_lseek fd offset whence w content pos : open_at w fd = Some (content, pos) ->
    let target := (if whence =? SEEK_SET then 0 else if whence =? SEEK_CUR then pos else zlen content) + offset in
    0 <= target ->
    let '(w', r) := sys_lseek fd offset whence w in
    r < 0 /\ (forall k, open_at w' k = open_at w k) \/
    r = target /\ (forall k, open_at w' k = if k =? fd then Some (content, target) else open_at w k);
  posix_close fd w k : open_at (sys_close fd w) k = if k =? fd then None else open_at w k
}.

Section Posix.
Context {W : Type} `{!SystemCalls W} `{!PosixFiles W}.
Implicit Types (w : W) (fd : Z) (path : list Z).

Lemma errno_interrupted raw : errno_of raw = SysErrno.Interrupted -> raw = 4.
Proof. unfold errno_of. destruct (Z.eqb_spec raw 4); [done|]. by destruct (raw =? 11). Qed.

Lemma read_loop_spec content fd : forall fuel pos w out, open_at w fd = Some (content, pos) ->
  0 <= pos <= zlen content -> out = take (Z.to_nat pos) content ->
  (Z.to_nat (zlen content - pos) + signals w < fuel)%nat ->
  exists w' r, read_loop fuel fd out w = Some (w', r) /\
  (forall k, k <> fd -> open_at w' k = open_at w k) /\
  match r with Ok bytes => bytes = content | Err e => se_op e = "read" /\ se_errno e <> SysErrno.Interrupted end.
Proof.
  induction fuel as [|fuel IH]; intros pos w out Ho Hpos Hout Hfuel; [lia|]. cbn [read_loop]. unfold fd_read.
  pose proof (posix_read fd 8192 w content pos Ho ltac:(lia)) as H. destruct (sys_read fd 8192 w) as [w' [n bytes]].
  destruct H as [(Hn & Hs & Hsig & He)|(Hn & Hb & Hl & H0 & Hsig & Hs)].
  - rewrite (proj2 (Z.ltb_lt _ _) Hn). cbn [sys_error se_errno].
    destruct (decide (errno_of (sys_errno w') = SysErrno.Interrupted)) as [E|E].
    + apply errno_interrupted in E. specialize (He E).
      destruct (IH pos w' out) as (w1 & r & Er & Hk & Hr); [by rewrite Hs|done|done|lia|].
      exists w1, r. split; [done|]. split; [|done]. intros k Hne. by rewrite Hk, Hs.
    + eexists w', _. split; [done|]. by split.
  - rewrite (proj2 (Z.ltb_ge _ _)) by lia. destruct (Z.eqb_spec n 0) as [->|Hn0].
    + exists w', (Ok out). split; [done|]. split; [intros k Hne; by rewrite Hs, (proj2 (Z.eqb_neq _ _) Hne)|].
      subst out. apply take_ge. unfold zlen in *. specialize (H0 eq_refl). lia.
    + rewrite (proj2 (Z.ltb_ge _ _)) by lia.
      assert (Hle : n <= zlen content - pos).
      { rewrite <- Hl, Hb. unfold zlen in *. rewrite length_take, length_drop. lia. }
      destruct (IH (pos + n) w' (out ++ take (Z.to_nat n) bytes)) as (w1 & r & Er & Hk & Hr).
      * rewrite Hs. by rewrite Z.eqb_refl.
      * lia.
      * rewrite Hout, Hb, take_take, Nat.min_id, Z2Nat.inj_add by lia. by rewrite take_take_drop.
      * lia.
      * exists w1, r. split; [done|]. split; [|done]. intros k Hne. by rewrite Hk, Hs, (proj2 (Z.eqb_neq _ _) Hne).
Qed.

(** Reading a file ends after at most one read per byte and per signal, leaves
    every descriptor as it was, and returns the file, or the error of a call
    that failed for another reason than a signal. *)
Theorem read_file_exact path w (fuel : nat) :
  (length (default [] (file_of path)) + signals w < fuel)%nat ->
  exists w' r, read_file fuel path w = Some (w', r) /\ (forall k, open_at w' k = open_at w k) /\
  match r with
  | Ok bytes => file_of path = Some bytes
  | Err e => se_op e = "read" -> se_errno e <> SysErrno.Interrupted
  end.
Proof.
  intros Hfuel. unfold read_file, fd_open. destruct (c_string path) as [cpath|] eqn:Ec; [|by eexists w, _].
  unfold c_string in Ec. destruct (existsb _ path); [done|]. injection Ec as <-.
  pose proof (posix_open path (Z.lor O_RDONLY O_CLOEXEC) 0 w) as H. destruct (sys_open _ _ _ w) as [w1 fd].
  destruct H as (Hsig & [(Hfd & Hs)|(Hfd & Hnew & content & Hf & Hs)]).
  - rewrite (proj2 (Z.ltb_lt _ _) Hfd). eexists w1, _. split; [done|]. by split.
  - rewrite (proj2 (Z.ltb_ge _ _) Hfd), Hf in *. cbn [default] in Hfuel.
    destruct (read_loop_spec content fd fuel 0 w1 []) as (w2 & r & -> & Hk & Hr);
      [by rewrite Hs, Z.eqb_refl|pose proof (zlen_nonneg content); lia|done|unfold zlen; unfold id in *; lia|].
    cbn [mbind option_bind]. exists (sys_close fd w2), r. split; [done|]. split.
    + intros k. rewrite posix_close. destruct (Z.eqb_spec k fd) as [->|Hne]; [done|].
      by rewrite Hk, Hs, (proj2 (Z.eqb_neq _ _) Hne).
    + destruct r; [by subst|by destruct Hr].
Qed.

(** A size that is returned is the file's, and reading goes on where it was; the
    cursor moves only if putting it back fails. *)
Theorem size_keeps_cursor fd w content pos : open_at w fd = Some (content, pos) -> 0 <= pos ->
  let '(w', r) := fd_size_bytes fd w in
  (forall k, k <> fd -> open_at w' k = open_at w k) /\
  match r with
  | Ok size => size = zlen content /\ open_at w' fd = Some (content, pos)
  | Err e => open_at w' fd = Some (content, pos) \/
      open_at w' fd = Some (content, zlen content) /\ se_op e = "lseek (restore position)"
  end.
Proof.
  intros Ho Hpos. pose proof (zlen_nonneg content) as Hlen. unfold fd_size_bytes.
  pose proof (posix_lseek fd 0 SEEK_CUR w content pos Ho ltac:(cbn; lia)) as H1.
  destruct (sys_lseek fd 0 SEEK_CUR w) as [w1 current]. change (SEEK_CUR =? SEEK_SET) with false in H1.
  change (SEEK_CUR =? SEEK_CUR) with true in H1. cbn match in H1.
  destruct H1 as [(Hc & S1)|(Hc & S1)]; [rewrite (proj2 (Z.ltb_lt _ _) Hc); split; [done|by rewrite S1; left]|].
  rewrite Z.add_0_r in *. rewrite (proj2 (Z.ltb_ge current 0)) by lia.
  assert (Ho1 : open_at w1 fd = Some (content, pos)) by (by rewrite S1, Z.eqb_refl).
  pose proof (posix_lseek fd 0 SEEK_END w1 content pos Ho1 ltac:(cbn; lia)) as H2.
  destruct (sys_lseek fd 0 SEEK_END w1) as [w2 size]. change (SEEK_END =? SEEK_SET) with false in H2.
  change (SEEK_END =? SEEK_CUR) with false in H2. cbn match in H2. rewrite Z.add_0_r in H2.
  assert (Hw2 : exists pos2, open_at w2 fd = Some (content, pos2) /\ (size < 0 /\ pos2 = pos \/ size = zlen content /\ pos2 = size) /\
    forall k, k <> fd -> open_at w2 k = open_at w k).
  { destruct H2 as [(Hsz & S2)|(Hsz & S2)]; eexists; (split; [rewrite S2, ?Z.eqb_refl; done|]); (split; [lia|]);
      intros k Hne; by rewrite S2, S1, ?(proj2 (Z.eqb_neq _ _) Hne). }
  destruct Hw2 as (pos2 & Ho2 & Hpos2 & K2).
  pose proof (posix_lseek fd current SEEK_SET w2 content pos2 Ho2 ltac:(cbn; lia)) as H3.
  destruct (sys_lseek fd current SEEK_SET w2) as [w3 restored]. change (SEEK_SET =? SEEK_SET) with true in H3.
  cbn match in H3. rewrite Z.add_0_l in H3. subst current.
  assert (Hw3 : (restored < 0 /\ open_at w3 fd = Some (content, pos2) \/ restored = pos /\ open_at w3 fd = Some (content, pos)) /\
    forall k, k <> fd -> open_at w3 k = open_at w k).
  { destruct H3 as [(Hr & S3)|(Hr & S3)]; split.
    - left. by rewrite S3.
    - intros k Hne. by rewrite S3, K2.
    - right. by rewrite S3, Z.eqb_refl.
    - intros k Hne. by rewrite S3, (proj2 (Z.eqb_neq _ _) Hne), K2. }
  destruct Hw3 as [Hw3 K3]. destruct (Z.ltb_spec size 0).
  - split; [done|]. left. destruct Hw3 as [(_ & ->)|(_ & ->)]; [|done]. do 2 f_equal. lia.
  - destruct Hw3 as [(Hr & E)|(Hr & E)].
    + rewrite (proj2 (Z.ltb_lt _ _) Hr). split; [done|]. right. split; [|done]. rewrite E. do 2 f_equal. lia.
    + rewrite (proj2 (Z.ltb_ge _ _)) by lia. split; [done|]. split; [lia|done].
Qed.
End Posix.

(** *** A system that interrupts and reads three bytes at a time *)
Definition demo_file : list Z := [104; 101; 108; 108; 111; 0; 255].
Record Demo := mkDemo { dm_cursor : option Z; dm_signals : nat; dm_errno : Z }.

Definition demo_read (fd count : Z) (d : Demo) : Demo * (Z * list Z) :=
  match dm_cursor d, dm_signals d with
  | Some pos, O =>
      if fd =? 3 then
        let bytes := take (Z.to_nat (Z.min count 3)) (drop (Z.to_nat pos) demo_file) in
        (mkDemo (Some (pos + zlen bytes)) 0 0, (zlen bytes, bytes))
      else (mkDemo (Some pos) 0 9, (-1, []))
  | c, S s => (mkDemo c s 4, (-1, []))
  | None, O => (mkDemo None 0 9, (-1, []))
  end.

#[export] Instance demo_calls : SystemCalls Demo := {
  sys_open _ _ _ d := match dm_cursor d with None => (mkDemo (Some 0) (dm_signals d) 0, 3) | Some _ => (d, -1) end;
  sys_read := demo_read;
  sys_write _ _ d := (d, -1);
  sys_lseek fd offset whence d :=
    match dm_cursor d with
    | Some pos =>
        if fd =? 3 then
          let target := (if whence =? SEEK_SET then 0 else if whence =? SEEK_CUR then pos else zlen demo_file) + offset in
          (mkDemo (Some target) (dm_signals d) 0, target)
        else (d, -1)
    | None => (d, -1)
    end;
  sys_mmap _ _ _ _ d := (d, USIZE_MAX);
  sys_munmap _ _ d := d;
  sys_close fd d := if fd =? 3 then mkDemo None (dm_signals d) 0 else d;
  sys_errno := dm_errno
}.

#[export] Program Instance demo_posix : PosixFiles Demo := {
  open_at d fd := if fd =? 3 then option_map (pair demo_file) (dm_cursor d) else None;
  file_of _ := Some demo_file;
  signals := dm_signals
}.
Next Obligation.
  intros path flags mode [[pos|] s e]; cbn; (split; [lia|]); [by left|]. right. split; [lia|]. split; [done|].
  exists demo_file. split; [done|]. intros k. by destruct (k =? 3).
Qed.
Next Obligation.
  intros fd count [[p|] s e] content pos; cbn; destruct (Z.eqb_spec fd 3) as [->|]; try done. intros [= <- <-] Hc.
  destruct s as [|s]; cbn [demo_read dm_cursor dm_signals].
  - right. set (bytes := take _ _).
    assert (Hl : zlen bytes <= count) by (unfold bytes, zlen; rewrite length_take; lia). pose proof (zlen_nonneg bytes).
    split; [lia|]. split.
    + unfold bytes, zlen. rewrite length_take, Nat2Z.id. set (rest := drop _ demo_file). set (n := Z.to_nat (Z.min count 3)).
      destruct (decide (n <= length rest)%nat); [by rewrite Nat.min_l by lia|].
      rewrite Nat.min_r by lia. by rewrite !take_ge by lia.
    + split; [done|]. split; [|split; [done|]].
      * unfold bytes, zlen. rewrite length_take, length_drop. change (length demo_file) with 7%nat. lia.
      * intros k. cbn. by destruct (k =? 3).
  - left. cbn. split; [lia|]. split; [by intros|]. lia.
Qed.
Next Obligation.
  intros fd offset whence [[p|] s e] content pos; cbn; destruct (Z.eqb_spec fd 3) as [->|]; try done.
  intros [= <- <-] Ht. right. split; [done|]. intros k. cbn. by destruct (k =? 3).
Qed.
Next Obligation.
  intros fd [c s e] k. cbn. destruct (Z.eqb_spec k fd) as [->|Hne], (Z.eqb_spec fd 3) as [->|H3]; cbn; try done.
  by rewrite (proj2 (Z.eqb_neq _ _) Hne).
Qed.

Lemma read_file_exact_witness :
  exists w' r, read_file 12 [97] (mkDemo None 2 0) = Some (w', r) /\ r = Ok demo_file /\ dm_cursor w' = None.
Proof.
  destruct (read_file_exact (W := Demo) [97] (mkDemo None 2 0) 12) as (w' & r & H & _); [cbn; lia|].
  exists w', r. split; [exact H|]. vm_compute in H. injection H as <- <-. by split.
Defined.

(** ** Clock readings *)
Definition timespec_ok (ts : Timespec) : Prop := 0 <= tv_sec ts <= I64_MAX /\ 0 <= tv_nsec ts < 1000000000.
Definition timespec_ns (ts : Timespec) : Z := tv_sec ts * 1000000000 + tv_nsec ts.

(** The reading is the clock's value cut at [u64::MAX], so that it never goes
    back. *)
Lemma now_ns_exact ts : timespec_ok ts -> now_ns (0, ts) = Ok (Z.min (timespec_ns ts) U64_MAX).
Proof.
  intros [H1 H2]. unfold now_ns, timespec_ns. cbn [Z.eqb negb]. f_equal. unfold I64_MAX in H1.
  rewrite !wrap_small by (unfold is_u; lia). unfold saturating_add, saturating_mul, umax, U64_MAX. lia.
Qed.

Theorem clock_never_back a b : timespec_ok a -> timespec_ok b -> timespec_ns a <= timespec_ns b ->
  exists x y, now_ns (0, a) = Ok x /\ now_ns (0, b) = Ok y /\ 0 <= x <= y /\ y <= U64_MAX.
Proof.
  intros Ha Hb Hle. rewrite !now_ns_exact by done. do 2 eexists. split; [done|]. split; [done|].
  destruct Ha. unfold timespec_ns in *. unfold U64_MAX. lia.
Qed.

(** Windows truncates the quotient to 64 bits; below 2^64 ns it is exact. *)
Lemma windows_now_ns_exact freq counter e : 0 < freq -> 0 <= counter -> counter * 1000000000 / freq < 2 ^ 64 ->
  windows_now_ns (Ok freq) (true, counter) e = Ok (counter * 1000000000 / freq).
Proof.
  intros Hf Hc Hlt. unfold windows_now_ns. cbn [result_bind negb orb]. rewrite (proj2 (Z.ltb_ge _ _) Hc). f_equal.
  apply wrap_small. split; [apply Z.div_pos; lia|done].
Qed.

Lemma windows_clock_never_back freq a b e : 0 < freq -> 0 <= a <= b -> b * 1000000000 / freq < 2 ^ 64 ->
  exists x y, windows_now_ns (Ok freq) (true, a) e = Ok x /\ windows_now_ns (Ok freq) (true, b) e = Ok y /\ x <= y.
Proof.
  intros Hf Hab Hlt. assert (a * 1000000000 / freq <= b * 1000000000 / freq) by (apply Z.div_le_mono; lia).
  rewrite !windows_now_ns_exact by lia. by do 2 eexists.
Qed.

(** With a counter of one tick a second the reading starts again at zero. *)
Example windows_clock_wraps : windows_now_ns (Ok 1) (true, 18446744073709551616 / 1000000000) 0 = Ok 18446744073000000000 /\
  windows_now_ns (Ok 1) (true, 18446744073709551616 / 1000000000 + 1) 0 = Ok 290448384.
Proof. by vm_compute. Qed.

(** The error of a failed size query is read after the cursor was put back: when
    that fails too, its error is reported. *)
Example size_error_of_restore :
  let lseek whence (w : Z) := if whence =? SEEK_CUR then (w, 0) else if whence =? SEEK_END then (29, -1) else (22, -1) in
  let calls := {| sys_open := fun _ _ _ w => (w, 3); sys_read := fun _ _ w => (w, (0, [])); sys_write := fun _ _ w => (w, 0);
                  sys_lseek := fun _ _ whence w => lseek whence w; sys_mmap := fun _ _ _ _ w => (w, 0);
                  sys_munmap := fun _ _ w => w; sys_close := fun _ w => w; sys_errno := fun w => w |} in
  snd (fd_size_bytes (SystemCalls0 := calls) 3 0) = Err (mkSysError (SysErrno.Other 22) "lseek (size)" None).
Proof. by vm_compute. Qed.
