(* ===== verification/WindowEvents.v ===== *)
(** What the windows deliver: the X11 boundary of [platform/linux/x11.rs] on
    the dynamic loader of [platform/linux/dl.rs], and the message loop of
    [platform/windows/window.rs].

    The dynamic loader and Xlib are parameters.  Loading keeps a log of the
    handles opened and closed; polling reads events of 192 bytes in the
    platform's (little-endian) layout, [encode_event], which is the C
    structures' of Xlib on 64 bits.

    Theorems: polling empties the queue, translates every event by its meaning
    and in order, and remembers the newest size; loading the library either
    keeps its one handle with every symbol resolved or closes it. *)

From Stdlib Require Import String Ascii.
From stdpp Require Import strings.
From S2P Require Import Prelude Wire Messages Input.

Local Open Scope string_scope.
Local Open Scope list_scope.
Local Open Scope Z_scope.
Local Open Scope kit_scope.

(** Two's complement reading of 16 and 32 bits. *)
Definition signed (w z : Z) : Z := if z <? 2 ^ (w - 1) then z else z - 2 ^ w.
Definition i32_from_ne_bytes (l : list Z) : Z := signed 32 (from_le_bytes l).

(** ** Polling X11 *)
Definition KEY_PRESS : Z := 2.
Definition KEY_RELEASE : Z := 3.
Definition MOTION_NOTIFY : Z := 6.
Definition CONFIGURE_NOTIFY : Z := 22.
Definition CLIENT_MESSAGE : Z := 33.

Record X11Display := mkDisplay {
  xd_display : Z;
  xd_window : Z;
  xd_delete_atom : Z;
  xd_protocols_atom : Z;
  xd_size : WindowSize
}.

Definition with_size (d : X11Display) (size : WindowSize) : X11Display :=
  mkDisplay (xd_display d) (xd_window d) (xd_delete_atom d) (xd_protocols_atom d) size.

(** The key of a keysym: Escape and the letters become virtual key codes. *)
Definition key_of_symbol (symbol : Z) : Z :=
  if symbol =? 0xff1b then 0x1b
  else if (0x61 <=? symbol) && (symbol <=? 0x7a) then wrap 32 symbol - 32
  else wrap 32 symbol.

Section Poll.
(** Xlib's queue: XPending, XNextEvent and XLookupKeysym at index 0. *)
Context {Q : Type} (pending : Q -> Q * Z) (next_event : Q -> Q * list Z) (lookup_keysym : list Z -> Z).

Definition handle_event (d : X11Display) (bytes : list Z) : X11Display * list WindowEvent * list InputEvent :=
  let event_type := i32_from_ne_bytes (slice 0 4 bytes) in
  if (event_type =? KEY_PRESS) || (event_type =? KEY_RELEASE) then
    (d, [], [InputEvent.Key (key_of_symbol (lookup_keysym bytes)) (event_type =? KEY_PRESS)])
  else if event_type =? MOTION_NOTIFY then
    (d, [], [InputEvent.MouseMoved (i32_from_ne_bytes (slice 64 68 bytes)) (i32_from_ne_bytes (slice 68 72 bytes))])
  else if event_type =? CONFIGURE_NOTIFY then
    let size := {| ws_width := Z.max (i32_from_ne_bytes (slice 56 60 bytes)) 1;
                   ws_height := Z.max (i32_from_ne_bytes (slice 60 64 bytes)) 1 |} in
    (with_size d size, [WindowEvent.Resized size], [])
  else if (event_type =? 4) || (event_type =? 5) then
    let button := from_le_bytes (slice 84 88 bytes) in
    (d, [], if (1 <=? button) && (button <=? 3)
            then [InputEvent.MouseButton (wrap 8 (button - 1)) (event_type =? 4)] else [])
  else if (event_type =? 9) || (event_type =? 10) then (d, [WindowEvent.Focused (event_type =? 9)], [])
  else if event_type =? CLIENT_MESSAGE then
    let message := from_le_bytes (slice 40 48 bytes) in
    let atom := from_le_bytes (slice 56 64 bytes) in
    (d, if (message =? xd_protocols_atom d) && (atom =? xd_delete_atom d) then [WindowEvent.CloseRequested] else [], [])
  else (d, [], []).

(** The loop on vectors that were cleared before. *)
Fixpoint poll_loop (fuel : nat) (q : Q) (d : X11Display) (ws : list WindowEvent) (is_ : list InputEvent)
  : option (Q * X11Display * list WindowEvent * list InputEvent) :=
  match fuel with
  | O => None
  | S fuel =>
      let '(q, n) := pending q in
      if 0 <? n then
        let '(q, bytes) := next_event q in
        let '(d, w, i) := handle_event d bytes in
        poll_loop fuel q d (ws ++ w) (is_ ++ i)
      else Some (q, d, ws, is_)
  end.

Definition poll_events (fuel : nat) (q : Q) (d : X11Display) := poll_loop fuel q d [] [].
End Poll.

(** ** The meaning of events *)
Inductive XEvent :=
| XKey (pressed : bool) (keysym : Z)
| XMotion (x y : Z)
| XConfigure (width height : Z)
| XButton (pressed : bool) (button : Z)
| XFocus (gained : bool)
| XClient (message atom : Z)
| XOther (event_type : Z).

Definition xevent_type (e : XEvent) : Z :=
  match e with
  | XKey p _ => if p then 2 else 3
  | XMotion _ _ => 6
  | XConfigure _ _ => 22
  | XButton p _ => if p then 4 else 5
  | XFocus g => if g then 9 else 10
  | XClient _ _ => 33
  | XOther t => t
  end.

Definition is_i32 (z : Z) : Prop := - 2 ^ 31 <= z < 2 ^ 31.
Definition xevent_ok (e : XEvent) : Prop :=
  match e with
  | XKey _ s => is_u 64 s
  | XMotion x y => is_i32 x /\ is_i32 y
  | XConfigure w h => is_i32 w /\ is_i32 h
  | XButton _ b => is_u 32 b
  | XFocus _ => True
  | XClient m a => is_u 64 m /\ is_u 64 a
  | XOther t => is_i32 t /\ t ∉ [2; 3; 4; 5; 6; 9; 10; 22; 33]
  end.

(** The C structures: type, serial, send_event, display and window are common;
    pointer events have root, subwindow, time, x, y, the root's x and y, state
    and button.  [o k] is the value of the field at offset [k] that the event
    does not determine; [tail] fills the union up to 192 bytes. *)
Definition encode_event (o : nat -> Z) (tail : list Z) (e : XEvent) : list Z :=
  let f n k := to_le_bytes n (o k) in
  let header := to_le_bytes 4 (xevent_type e) ++ f 4%nat 4%nat ++ f 8%nat 8%nat ++ f 4%nat 16%nat ++ f 4%nat 20%nat ++
    f 8%nat 24%nat ++ f 8%nat 32%nat in
  header ++
  match e with
  | XMotion x y => f 8%nat 40%nat ++ f 8%nat 48%nat ++ f 8%nat 56%nat ++ to_le_bytes 4 x ++ to_le_bytes 4 y
  | XButton _ b => f 8%nat 40%nat ++ f 8%nat 48%nat ++ f 8%nat 56%nat ++ f 4%nat 64%nat ++ f 4%nat 68%nat ++
      f 4%nat 72%nat ++ f 4%nat 76%nat ++ f 4%nat 80%nat ++ to_le_bytes 4 b
  | XConfigure w h => f 8%nat 40%nat ++ f 4%nat 48%nat ++ f 4%nat 52%nat ++ to_le_bytes 4 w ++ to_le_bytes 4 h
  | XClient m a => to_le_bytes 8 m ++ f 4%nat 48%nat ++ f 4%nat 52%nat ++ to_le_bytes 8 a
  | _ => []
  end ++ tail.

(** What the engine is to be told. *)
Definition size_of (w h : Z) : WindowSize := {| ws_width := Z.max w 1; ws_height := Z.max h 1 |}.
Definition window_meaning (protocols delete_window : Z) (e : XEvent) : list WindowEvent :=
  match e with
  | XConfigure w h => [WindowEvent.Resized (size_of w h)]
  | XFocus g => [WindowEvent.Focused g]
  | XClient m a => if (m =? protocols) && (a =? delete_window) then [WindowEvent.CloseRequested] else []
  | _ => []
  end.
(** Left, middle and right are 0, 1 and 2; the wheel's buttons say nothing. *)
Definition input_meaning (e : XEvent) : list InputEvent :=
  match e with
  | XKey p s => [InputEvent.Key (key_of_symbol s) p]
  | XMotion x y => [InputEvent.MouseMoved x y]
  | XButton p b => if decide (b = 1 \/ b = 2 \/ b = 3) then [InputEvent.MouseButton (b - 1) p] else []
  | _ => []
  end.
Definition size_after (size : WindowSize) (e : XEvent) : WindowSize :=
  match e with XConfigure w h => size_of w h | _ => size end.

(** ** Decoding *)

Lemma signed_mod w x : 0 < w -> - 2 ^ (w - 1) <= x < 2 ^ (w - 1) -> signed w (x mod 2 ^ w) = x.
Proof.
  intros Hw Hx. assert (E : 2 ^ w = 2 * 2 ^ (w - 1)) by (rewrite <- Z.pow_succ_r by lia; f_equal; lia).
  unfold signed. destruct (Z.lt_ge_cases x 0) as [Hn|Hp].
  - replace (x mod 2 ^ w) with (x + 2 ^ w); [destruct (Z.ltb_spec (x + 2 ^ w) (2 ^ (w - 1))); lia|].
    rewrite <- (Z_mod_plus_full x 1), Z.mul_1_l. symmetry. apply Z.mod_small. lia.
  - rewrite Z.mod_small by lia. destruct (Z.ltb_spec x (2 ^ (w - 1))); lia.
Qed.

Lemma i32_from_to x : is_i32 x -> i32_from_ne_bytes (to_le_bytes 4 x) = x.
Proof.
  unfold is_i32, i32_from_ne_bytes. intros H. rewrite <- to_le_wrap.
  rewrite from_to_le by (apply Z.mod_pos_bound; cbn; lia). apply signed_mod; cbn; lia.
Qed.

Lemma encoded_type o tail e : xevent_ok e -> i32_from_ne_bytes (slice 0 4 (encode_event o tail e)) = xevent_type e.
Proof.
  intros H. unfold encode_event. rewrite <- !(assoc_L (++)), slice_here by apply length_to_le. apply i32_from_to.
  unfold is_i32. destruct e as [[]| | |[]|[]| |t]; cbn [xevent_type]; try lia. apply H.
Qed.

Lemma key_symbol_range s : is_u 64 s -> 0 <= key_of_symbol s <= U32_MAX.
Proof.
  unfold is_u, key_of_symbol, wrap, U32_MAX. intros H. pose proof (Z.mod_pos_bound s (2 ^ 32) ltac:(lia)).
  destruct (s =? 0xff1b); [lia|]. destruct (Z.leb_spec 0x61 s), (Z.leb_spec s 0x7a); cbn [andb]; try lia.
  rewrite Z.mod_small by lia. lia.
Qed.

Section Meaning.
Context {Q : Type} (pending : Q -> Q * Z) (next_event : Q -> Q * list Z) (lookup_keysym : list Z -> Z).

(** The keysym that Xlib looks up for a key event. *)
Definition looked_up (bytes : list Z) (e : XEvent) : Prop :=
  match e with XKey _ s => lookup_keysym bytes = s | _ => True end.

Lemma handle_event_spec d o tail e : xevent_ok e -> looked_up (encode_event o tail e) e ->
  handle_event lookup_keysym d (encode_event o tail e) =
  (with_size d (size_after (xd_size d) e), window_meaning (xd_protocols_atom d) (xd_delete_atom d) e, input_meaning e).
Proof.
  intros He Hk. unfold handle_event. rewrite encoded_type by done.
  assert (Ed : with_size d (xd_size d) = d) by (by destruct d).
  destruct e as [p s|x y|w h|p b|g|m a|t]; cbn [xevent_ok looked_up] in He, Hk.
  - destruct p; cbn [xevent_type Z.eqb Pos.eqb orb size_after window_meaning input_meaning]; by rewrite Hk, Ed.
  - cbn [xevent_type]. change (slice 64 68 (encode_event o tail (XMotion x y))) with (to_le_bytes 4 x).
    change (slice 68 72 (encode_event o tail (XMotion x y))) with (to_le_bytes 4 y).
    rewrite !i32_from_to by apply He. cbn. by rewrite Ed.
  - cbn [xevent_type]. change (slice 56 60 (encode_event o tail (XConfigure w h))) with (to_le_bytes 4 w).
    change (slice 60 64 (encode_event o tail (XConfigure w h))) with (to_le_bytes 4 h).
    by rewrite !i32_from_to by apply He.
  - assert (Eb : from_le_bytes (slice 84 88 (encode_event o tail (XButton p b))) = b).
    { change (slice 84 88 _) with (to_le_bytes 4 b). apply from_to_le. unfold is_u in He. cbn. lia. }
    rewrite Eb. replace (_ =? KEY_PRESS) with false by (by destruct p). replace (_ =? KEY_RELEASE) with false by (by destruct p).
    replace (_ =? MOTION_NOTIFY) with false by (by destruct p). replace (_ =? CONFIGURE_NOTIFY) with false by (by destruct p).
    replace ((_ =? 4) || _) with true by (by destruct p). replace (_ =? 4) with p by (by destruct p).
    cbn [orb size_after window_meaning input_meaning]. rewrite Ed. f_equal. unfold is_u in He.
    destruct (decide (b = 1 \/ b = 2 \/ b = 3)) as [H|H].
    + rewrite (proj2 (Z.leb_le 1 b)), (proj2 (Z.leb_le b 3)) by lia. cbn [andb]. by rewrite wrap_small by (unfold is_u; lia).
    + destruct (Z.leb_spec 1 b), (Z.leb_spec b 3); cbn [andb]; try done. lia.
  - destruct g; cbn; by rewrite Ed.
  - cbn [xevent_type]. change (slice 40 48 (encode_event o tail (XClient m a))) with (to_le_bytes 8 m).
    change (slice 56 64 (encode_event o tail (XClient m a))) with (to_le_bytes 8 a).
    unfold is_u in He. rewrite !from_to_le by (cbn; lia). cbn. by rewrite Ed.
  - destruct He as [_ He]. cbn [xevent_type size_after window_meaning input_meaning]. rewrite Ed.
    rewrite !not_elem_of_cons in He. destruct He as (? & ? & ? & ? & ? & ? & ? & ? & ? & _).
    unfold KEY_PRESS, KEY_RELEASE, MOTION_NOTIFY, CONFIGURE_NOTIFY, CLIENT_MESSAGE.
    by rewrite !(proj2 (Z.eqb_neq _ _)) by done.
Qed.

(** The queue [q] hands out the events [l] and then has none. *)
Inductive delivers : Q -> list (list Z) -> Q -> Prop :=
| delivers_none q q' n : pending q = (q', n) -> n <= 0 -> delivers q [] q'
| delivers_event q q1 q2 q' n bytes l :
    pending q = (q1, n) -> 0 < n -> next_event q1 = (q2, bytes) -> delivers q2 l q' -> delivers q (bytes :: l) q'.

(** The bytes stand for the event. *)
Definition stands_for (bytes : list Z) (e : XEvent) : Prop :=
  xevent_ok e /\ looked_up bytes e /\ exists o tail, bytes = encode_event o tail e.

Lemma poll_loop_spec q l q' : delivers q l q' -> forall es d ws is_ fuel, Forall2 stands_for l es -> (length l < fuel)%nat ->
  poll_loop pending next_event lookup_keysym fuel q d ws is_ =
  Some (q', with_size d (foldl size_after (xd_size d) es),
        ws ++ flat_map (window_meaning (xd_protocols_atom d) (xd_delete_atom d)) es, is_ ++ flat_map input_meaning es).
Proof.
  induction 1 as [q q' n E Hn|q q1 q2 q' n bytes l E Hn Enext _ IH]; intros es d ws is_ [|fuel] Hes Hf; cbn [length] in Hf; try lia;
    cbn [poll_loop]; rewrite E.
  - inv Hes. rewrite (proj2 (Z.ltb_ge _ _) Hn). cbn. rewrite !app_nil_r. by destruct d.
  - inv Hes. rename y into e, l' into es. rewrite (proj2 (Z.ltb_lt _ _) Hn), Enext.
    destruct H1 as (He & Hk & o & tail & ->). rewrite handle_event_spec by done. rewrite (IH es) by (done || lia).
    cbn [foldl flat_map with_size xd_size xd_protocols_atom xd_delete_atom]. by rewrite !(assoc_L (++)).
Qed.
End Meaning.

Lemma input_meaning_ok e : xevent_ok e -> Forall (fun i => event_ok i /\ match i with
    InputEvent.Key k _ => 0 <= k <= U32_MAX | InputEvent.MouseButton b _ => b <= 2 | InputEvent.MouseMoved x y => is_i32 x /\ is_i32 y
  | InputEvent.TextByte _ => False end) (input_meaning e).
Proof.
  destruct e as [p s|x y|w h|p b|g|m a|t]; cbn [input_meaning xevent_ok]; intros H; try by repeat constructor.
  - constructor; [|done]. split; [done|]. by apply key_symbol_range.
  - constructor; [by split|done].
  - destruct (decide (b = 1 \/ b = 2 \/ b = 3)); [|done]. constructor; [|done]. cbn. lia.
Qed.

Lemma window_meaning_ok p a e : Forall (fun w =>
  match w with WindowEvent.Resized size => window_size_new (ws_width size) (ws_height size) = Some size | _ => True end)
  (window_meaning p a e).
Proof.
  destruct e as [? ?|? ?|w h|? ?|?|m b|?]; cbn [window_meaning]; try by repeat constructor.
  - constructor; [|done]. unfold size_of, window_size_new. cbn [ws_width ws_height].
    by rewrite !(proj2 (Z.eqb_neq _ _)) by lia.
  - destruct (_ && _); by repeat constructor.
Qed.

Lemma stands_for_ok lookup_keysym l es : Forall2 (stands_for lookup_keysym) l es -> Forall xevent_ok es.
Proof. induction 1 as [|bytes e l es [He _] _ IH]; by constructor. Qed.

(** C21: If the X server delivers events and then none, with each event in its
    structure's layout and any other bytes around the fields, polling ends and
    reports exactly their meaning in order: key codes, mouse positions,
    buttons without the wheel, focus changes, the close request only for this
    window's protocol and atom, and sizes of at least one pixel, the newest of
    which the window keeps.  Every button fits the input snapshot, and no event
    carries text. *)
Theorem x11_poll_translates {Q : Type} (pending : Q -> Q * Z) (next_event : Q -> Q * list Z) (lookup_keysym : list Z -> Z)
    (q q' : Q) (l : list (list Z)) (es : list XEvent) (d : X11Display) (fuel : nat) :
  delivers pending next_event q l q' -> Forall2 (stands_for lookup_keysym) l es -> (length l < fuel)%nat ->
  let ws := flat_map (window_meaning (xd_protocols_atom d) (xd_delete_atom d)) es in
  let is_ := flat_map input_meaning es in
  poll_events pending next_event lookup_keysym fuel q d = Some (q', with_size d (foldl size_after (xd_size d) es), ws, is_) /\
  Forall (fun w => match w with
    WindowEvent.Resized size => window_size_new (ws_width size) (ws_height size) = Some size | _ => True end) ws /\
  Forall (fun i => event_ok i /\ match i with
      InputEvent.Key k _ => 0 <= k <= U32_MAX | InputEvent.MouseButton b _ => b <= 2 | InputEvent.MouseMoved x y => is_i32 x /\ is_i32 y
    | InputEvent.TextByte _ => False end) is_.
Proof.
  intros Hq Hes Hf. cbn zeta. split; [|split].
  - unfold poll_events. by rewrite (poll_loop_spec _ _ _ _ _ _ Hq es).
  - apply Forall_flat_map, list.Forall_forall. intros e _. apply window_meaning_ok.
  - apply Forall_flat_map. eapply list.Forall_impl; [by eapply stands_for_ok|]. apply input_meaning_ok.
Qed.

Definition demo_events : list XEvent := [XConfigure 800 0; XKey true 0x61; XMotion (-3) 40; XButton true 3; XButton true 4; XClient 7 9].
Definition demo_queue : list (list Z) := map (encode_event (fun k => Z.of_nat k) (replicate 100 170)) demo_events.
Definition demo_display : X11Display := mkDisplay 1 2 9 7 {| ws_width := 640; ws_height := 480 |}.
Definition demo_pending (q : list (list Z)) : list (list Z) * Z := (q, zlen q).
Definition demo_next (q : list (list Z)) : list (list Z) * list Z := match q with [] => ([], []) | e :: q => (q, e) end.

Lemma demo_delivers l : delivers demo_pending demo_next l l [].
Proof.
  induction l as [|e l IH]; [by eapply delivers_none|]. eapply delivers_event; [done| |done|done].
  rewrite zlen_cons. pose proof (zlen_nonneg l). lia.
Qed.

Lemma x11_poll_translates_witness :
  poll_events demo_pending demo_next (fun _ => 0x61) 7 demo_queue demo_display =
  Some ([], with_size demo_display {| ws_width := 800; ws_height := 1 |},
        [WindowEvent.Resized {| ws_width := 800; ws_height := 1 |}; WindowEvent.CloseRequested],
        [InputEvent.Key 65 true; InputEvent.MouseMoved (-3) 40; InputEvent.MouseButton 2 true]).
Proof.
  apply (x11_poll_translates demo_pending demo_next (fun _ => 0x61) demo_queue [] demo_queue demo_events demo_display 7).
  - apply demo_delivers.
  - unfold demo_queue, demo_events. repeat constructor; try (cbn; unfold is_i32, is_u; lia); by eexists _, _.
  - cbn. lia.
Defined.

(** ** The Windows message loop *)
Definition WM_MOUSEMOVE : Z := 0x200.
Definition WM_LBUTTONDOWN : Z := 0x201.
Definition WM_LBUTTONUP : Z := 0x202.
Definition WM_RBUTTONDOWN : Z := 0x204.
Definition WM_RBUTTONUP : Z := 0x205.
Definition WM_SIZE : Z := 5.
Definition WM_CLOSE : Z := 16.
Definition WM_KEYDOWN : Z := 0x100.
Definition WM_KEYUP : Z := 0x101.

Record Message := mkMessage { msg_message : Z; msg_w_param : Z; msg_l_param : Z }.

Definition low_word (l_param : Z) : Z := Z.land (wrap 32 l_param) 0xffff.
Definition high_word (l_param : Z) : Z := Z.land (Z.shiftr (wrap 32 l_param) 16) 0xffff.

Definition windows_event (m : Message) : list WindowEvent * list InputEvent :=
  let t := msg_message m in
  if (t =? WM_KEYDOWN) || (t =? WM_KEYUP) then ([], [InputEvent.Key (wrap 32 (msg_w_param m)) (t =? WM_KEYDOWN)])
  else if (t =? WM_MOUSEMOVE) || (t =? WM_LBUTTONDOWN) || (t =? WM_LBUTTONUP) || (t =? WM_RBUTTONDOWN) || (t =? WM_RBUTTONUP) then
    let moved := InputEvent.MouseMoved (signed 16 (low_word (msg_l_param m))) (signed 16 (high_word (msg_l_param m))) in
    ([], if negb (t =? WM_MOUSEMOVE)
         then [moved; InputEvent.MouseButton (if (t =? WM_LBUTTONDOWN) || (t =? WM_LBUTTONUP) then 0 else 1)
                        ((t =? WM_LBUTTONDOWN) || (t =? WM_RBUTTONDOWN))]
         else [moved])
  else if t =? WM_SIZE then
    (match window_size_new (low_word (msg_l_param m)) (high_word (msg_l_param m)) with
     | Some size => [WindowEvent.Resized size] | None => [] end, [])
  else if t =? WM_CLOSE then ([WindowEvent.CloseRequested], [])
  else ([], []).

(** [peek] is PeekMessageA: a message if there is one.  Translating and
    dispatching a message hands it to the window procedure, [dispatch]. *)
Section WindowsPoll.
Context {Q : Type} (peek : Q -> Q * option Message) (dispatch : Message -> Q -> Q).

Fixpoint windows_poll (fuel : nat) (q : Q) (ws : list WindowEvent) (is_ : list InputEvent)
  : option (Q * list WindowEvent * list InputEvent) :=
  match fuel with
  | O => None
  | S fuel =>
      match peek q with
      | (q, None) => Some (q, ws, is_)
      | (q, Some m) => let '(w, i) := windows_event m in windows_poll fuel (dispatch m q) (ws ++ w) (is_ ++ i)
      end
  end.
End WindowsPoll.

(** MAKELPARAM of two 16-bit words. *)
Definition make_lparam (x y : Z) : Z := x mod 2 ^ 16 + 2 ^ 16 * (y mod 2 ^ 16).

Lemma lparam_words x y : low_word (make_lparam x y) = x mod 2 ^ 16 /\ high_word (make_lparam x y) = y mod 2 ^ 16.
Proof.
  pose proof (Z.mod_pos_bound x (2 ^ 16) ltac:(lia)). pose proof (Z.mod_pos_bound y (2 ^ 16) ltac:(lia)).
  unfold low_word, high_word, make_lparam. rewrite wrap_small by (unfold is_u; lia). split.
  - change 0xffff with (Z.ones 16). rewrite Z.land_ones by lia. rewrite Z.mul_comm, Z_mod_plus_full. apply Z.mod_small. lia.
  - rewrite Z.shiftr_div_pow2 by lia. change 0xffff with (Z.ones 16). rewrite Z.land_ones by lia.
    rewrite Z.mul_comm, Z_div_plus_full by lia. rewrite Z.div_small, Z.add_0_l by lia. apply Z.mod_small. lia.
Qed.

(** Coordinates left of or above the window come out negative; a minimised
    window, of size zero, is no resize. *)
Lemma windows_mouse_moved x y w : - 2 ^ 15 <= x < 2 ^ 15 -> - 2 ^ 15 <= y < 2 ^ 15 ->
  windows_event (mkMessage WM_MOUSEMOVE w (make_lparam x y)) = ([], [InputEvent.MouseMoved x y]).
Proof.
  intros Hx Hy. unfold windows_event. cbn [msg_message msg_w_param msg_l_param]. destruct (lparam_words x y) as [-> ->]. cbn -[Z.pow Z.modulo signed].
  by rewrite !signed_mod by (cbn; lia).
Qed.

Lemma windows_resized width height w : is_u 16 width -> is_u 16 height ->
  windows_event (mkMessage WM_SIZE w (make_lparam width height)) =
  (if (width =? 0) || (height =? 0) then [] else [WindowEvent.Resized {| ws_width := width; ws_height := height |}], []).
Proof.
  unfold is_u. intros Hx Hy. unfold windows_event. cbn [msg_message msg_w_param msg_l_param]. destruct (lparam_words width height) as [-> ->].
  rewrite !Z.mod_small by lia. cbn -[window_size_new]. unfold window_size_new. by destruct (_ || _).
Qed.

(** The right button is button 2 on one platform and 1 on the other. *)
Example right_button_differs :
  input_meaning (XButton true 3) = [InputEvent.MouseButton 2 true] /\
  snd (windows_event (mkMessage WM_RBUTTONDOWN 0 0)) = [InputEvent.MouseMoved 0 0; InputEvent.MouseButton 1 true].
Proof. by vm_compute. Qed.

(** Of the keys besides letters and digits only Escape is translated: the left
    arrow's keysym is no virtual key code (0x25). *)
Example arrow_keysym_kept : input_meaning (XKey true 0xff51) = [InputEvent.Key 0xff51 true].
Proof. by vm_compute. Qed.

(** ** Loading the library *)
Definition RTLD_LAZY : Z := 1.
Definition RTLD_NOW : Z := 2.

Module DlError.
Inductive DlError := Open (lib : string) | Symbol (lib name : string) | Detail (reason : string).
End DlError.
Abbreviation DlError := DlError.DlError.

Inductive X11Error := Library (e : DlError) | MissingSymbol (e : DlError) | DisplayUnavailable.

(** The calls made, newest last. *)
Inductive DlCall := DlOpen (lib : string) (flag handle : Z) | DlSym (handle : Z) (name : string) | DlClose (handle : Z) | DlErr.

Record DynamicLibrary := mkLibrary { lib_handle : Z; lib_name : string }.

Fixpoint has_nul (s : string) : bool :=
  match s with
  | EmptyString => false
  | String c s => (Ascii.nat_of_ascii c =? 0)%nat || has_nul s
  end.

(** The addresses of X11's functions, in the order of [x11_symbols]. *)
Record X11Library := mkX11Library { xl_library : DynamicLibrary; xl_functions : list Z }.

Definition x11_symbols : list string :=
  ["XOpenDisplay"; "XCloseDisplay"; "XDefaultScreen"; "XRootWindow"; "XCreateSimpleWindow"; "XMapWindow"; "XDestroyWindow";
   "XFlush"; "XPending"; "XNextEvent"; "XSelectInput"; "XLookupKeysym"; "XInternAtom"; "XSetWMProtocols"; "XStoreName"].

Section Loading.
Context (dlopen : string -> Z -> Z) (dlsym : Z -> string -> Z) (dlerror : list DlCall -> option string).
Implicit Types (log : list DlCall).

(** [describe]: the loader's reason if it has one. *)
Definition describe (e : DlError) log : list DlCall * DlError :=
  (log ++ [DlErr], match dlerror log with Some reason => DlError.Detail reason | None => e end).

Definition library_open (lib : string) (now : bool) log : list DlCall * result DlError DynamicLibrary :=
  if has_nul lib then (log, Err (DlError.Open lib))
  else
    let flag := if now then RTLD_NOW else RTLD_LAZY in
    let handle := dlopen lib flag in
    let log := log ++ [DlOpen lib flag handle] in
    if handle =? 0 then let '(log, e) := describe (DlError.Open lib) log in (log, Err e)
    else (log, Ok (mkLibrary handle lib)).

Definition library_symbol (l : DynamicLibrary) (name : string) log : list DlCall * result DlError Z :=
  if has_nul name then (log, Err (DlError.Symbol (lib_name l) name))
  else
    let ptr := dlsym (lib_handle l) name in
    let log := log ++ [DlSym (lib_handle l) name] in
    if ptr =? 0 then let '(log, e) := describe (DlError.Symbol (lib_name l) name) log in (log, Err e)
    else (log, Ok ptr).

Definition library_drop (l : DynamicLibrary) log : list DlCall := log ++ [DlClose (lib_handle l)].

Fixpoint load_symbols (l : DynamicLibrary) (names : list string) log : list DlCall * result DlError (list Z) :=
  match names with
  | [] => (log, Ok [])
  | name :: names =>
      match library_symbol l name log with
      | (log, Err e) => (log, Err e)
      | (log, Ok ptr) =>
          match load_symbols l names log with
          | (log, Err e) => (log, Err e)
          | (log, Ok ptrs) => (log, Ok (ptr :: ptrs))
          end
      end
  end.

(** On an early return the local library is dropped. *)
Definition x11_load log : list DlCall * result X11Error X11Library :=
  match library_open "libX11.so.6" true log with
  | (log, Err e) => (log, Err (Library e))
  | (log, Ok library) =>
      match load_symbols library x11_symbols log with
      | (log, Err e) => (library_drop library log, Err (MissingSymbol e))
      | (log, Ok functions) => (log, Ok (mkX11Library library functions))
      end
  end.

Definition x11_library_drop (x : X11Library) log : list DlCall := library_drop (xl_library x) log.

(** How often a handle is open. *)
Definition opened (k : Z) (c : DlCall) : Z :=
  match c with
  | DlOpen _ _ h => if (h =? k) && negb (h =? 0) then 1 else 0
  | DlClose h => if h =? k then -1 else 0
  | _ => 0
  end.
Definition balance (k : Z) log : Z := foldr (fun c n => opened k c + n) 0 log.

Lemma balance_app k l l' : balance k (l ++ l') = balance k l + balance k l'.
Proof. unfold balance. induction l as [|c l IH]; cbn [app foldr]; [lia|]. rewrite IH. lia. Qed.

Lemma load_symbols_spec l names : Forall (fun n => has_nul n = false) names -> forall log,
  exists tail, Forall (fun c => forall k, opened k c = 0) tail /\ fst (load_symbols l names log) = log ++ tail /\
  match snd (load_symbols l names log) with
  | Ok ptrs => ptrs = map (dlsym (lib_handle l)) names /\ Forall (fun p => p <> 0) ptrs
  | Err _ => Exists (fun n => dlsym (lib_handle l) n = 0) names
  end.
Proof.
  induction 1 as [|n names Hn _ IH]; intros log; cbn [load_symbols]; [exists []; by rewrite app_nil_r|].
  unfold library_symbol. rewrite Hn. cbn zeta. destruct (Z.eqb_spec (dlsym (lib_handle l) n) 0) as [E|E].
  - exists [DlSym (lib_handle l) n; DlErr]. cbn. rewrite <- (assoc_L (++)). split; [by repeat constructor|]. split; [done|by left].
  - destruct (IH (log ++ [DlSym (lib_handle l) n])) as (tail & Ht & El & Hr).
    destruct (load_symbols l names _) as [log' [ptrs|e]]; cbn [fst snd] in *; subst log';
      exists (DlSym (lib_handle l) n :: tail); rewrite <- (assoc_L (++)); (split; [by constructor|]); (split; [done|]).
    + destruct Hr as [-> Hp]. split; [done|by constructor].
    + by right.
Qed.

(** Loading succeeds exactly when the library and all its symbols are there;
    then its handle is open once more, else no handle is. *)
Theorem x11_load_balanced log : let '(log', r) := x11_load log in
  (forall k, balance k log' = balance k log +
     match r with Ok x => if lib_handle (xl_library x) =? k then 1 else 0 | Err _ => 0 end) /\
  match r with
  | Ok x => lib_handle (xl_library x) <> 0 /\ xl_functions x = map (dlsym (lib_handle (xl_library x))) x11_symbols /\
      Forall (fun p => p <> 0) (xl_functions x)
  | Err (Library _) => dlopen "libX11.so.6" RTLD_NOW = 0
  | Err (MissingSymbol _) => Exists (fun n => dlsym (dlopen "libX11.so.6" RTLD_NOW) n = 0) x11_symbols
  | Err DisplayUnavailable => False
  end.
Proof.
  unfold x11_load, library_open. change (has_nul "libX11.so.6") with false. cbn zeta match.
  destruct (Z.eqb_spec (dlopen "libX11.so.6" RTLD_NOW) 0) as [E|E].
  - cbn [describe]. split; [|done]. intros k. rewrite !balance_app. cbn [balance foldr opened]. rewrite E. cbn [Z.eqb negb].
    rewrite andb_false_r. lia.
  - set (h := dlopen _ _) in *. set (l := mkLibrary h "libX11.so.6").
    destruct (load_symbols_spec l x11_symbols ltac:(by repeat constructor) (log ++ [DlOpen "libX11.so.6" RTLD_NOW h])) as (tail & Ht & El & Hr).
    assert (Hb : forall k, balance k tail = 0).
    { intros k. clear -Ht. induction Ht as [|c tail Hc _ IH]; [done|]. cbn [balance foldr]. rewrite Hc. exact IH. }
    destruct (load_symbols l x11_symbols _) as [log' [ptrs|e]]; cbn [fst snd] in *; subst log'.
    + split; [|split; [done|exact Hr]]. intros k. rewrite !balance_app, Hb. cbn [balance foldr opened xl_library lib_handle l].
      rewrite (proj2 (Z.eqb_neq _ _) E), andb_true_r. lia.
    + split; [|exact Hr]. intros k. unfold library_drop. rewrite !balance_app, Hb. cbn [balance foldr opened lib_handle l].
      rewrite (proj2 (Z.eqb_neq _ _) E), andb_true_r. destruct (h =? k); lia.
Qed.
End Loading.

(** ** Opening the display

    The calls into the library, in order; what they return is [answers]. *)
Inductive XCall :=
| COpenDisplay | CDefaultScreen (display : Z) | CRootWindow (display screen : Z)
| CCreateSimpleWindow (display parent x y width height border border_width background : Z)
| CInternAtom (display : Z) (name : string) (only_if_exists : Z)
| CSelectInput (display window mask : Z) | CSetWMProtocols (display window protocol count : Z)
| CMapWindow (display window : Z) | CFlush (display : Z) | CStoreName (display window : Z) (title : string)
| CDestroyWindow (display window : Z) | CCloseDisplay (display : Z).

Section Display.
Context (answers : XCall -> Z).

Definition event_mask : Z := Z.lor 1 (Z.lor 2 (Z.lor 4 (Z.lor 8 (Z.lor 64 (Z.lor (Z.shiftl 1 17) (Z.shiftl 1 21)))))).

Definition open_display : list XCall * result X11Error X11Display :=
  let display := answers COpenDisplay in
  if display =? 0 then ([COpenDisplay], Err DisplayUnavailable)
  else
    let screen := answers (CDefaultScreen display) in
    let root := answers (CRootWindow display screen) in
    let create := CCreateSimpleWindow display root 0 0 640 480 0 0 0 in
    let window := answers create in
    let delete_atom := answers (CInternAtom display "WM_DELETE_WINDOW" 0) in
    let protocols_atom := answers (CInternAtom display "WM_PROTOCOLS" 0) in
    ([COpenDisplay; CDefaultScreen display; CRootWindow display screen; create;
      CInternAtom display "WM_DELETE_WINDOW" 0; CInternAtom display "WM_PROTOCOLS" 0;
      CSelectInput display window event_mask; CSetWMProtocols display window delete_atom 1;
      CMapWindow display window; CFlush display],
     Ok (mkDisplay display window delete_atom protocols_atom {| ws_width := 640; ws_height := 480 |})).

Definition display_set_title (d : X11Display) (title : string) : list XCall :=
  if has_nul title then [] else [CStoreName (xd_display d) (xd_window d) title].
Definition client_size (d : X11Display) : option WindowSize := Some (xd_size d).
Definition display_drop (d : X11Display) : list XCall :=
  [CDestroyWindow (xd_display d) (xd_window d); CCloseDisplay (xd_display d)].

(** The window asks for exactly the events that are decoded: keys, buttons,
    motion, structure and focus. *)
Lemma event_mask_bits i : 0 <= i -> Z.testbit event_mask i = bool_decide (i = 0 \/ i = 1 \/ i = 2 \/ i = 3 \/ i = 6 \/ i = 17 \/ i = 21).
Proof.
  intros Hi. destruct (Z.lt_ge_cases i 22) as [Hlt|Hge].
  - assert (K : Forall (fun i => Z.testbit event_mask i = bool_decide (i = 0 \/ i = 1 \/ i = 2 \/ i = 3 \/ i = 6 \/ i = 17 \/ i = 21)) (seqZ 0 22))
      by (apply (bool_decide_unpack _); by vm_compute).
    rewrite list.Forall_forall in K. apply K. first [apply elem_of_seqZ; lia|apply list_elem_of_In, elem_of_seqZ; lia].
  - rewrite bool_decide_false by lia. apply Z.bits_above_log2; [by vm_compute|]. change (Z.log2 event_mask) with 21. lia.
Qed.
End Display.
