(* ===== verification/Demo.v ===== *)
(** The demonstration drivers [subsystems/hello.rs] and [subsystems/tock.rs]
    in a kernel, as [main.rs] registers them first.

    The theorem follows the two through [init], any number of frames and
    [shutdown] of the [Kernel] with its [Bus]: the counters that the program
    prints at its end are exactly determined by the number of frames. *)

From stdpp Require Import strings.
From S2P Require Import Prelude Ring Bus Arena World Deferred Scheduler Tracer Kernel Messages.

Local Open Scope Z_scope.
Local Open Scope kit_scope.

Definition TOPIC_TICK_PULSE : Z := 0.
Definition TOPIC_ECHO : Z := 1.

Record HelloCounters := mkHello { hc_ticks : Z; hc_pulses_sent : Z; hc_echos_received : Z }.
Record TockCounters := mkTock { tc_pulses : Z; tc_last_seq : Z }.

(** The two drivers' own state: the shared counters and hello's handle. *)
Record DemoState := mkDemo { dm_hello : HelloCounters; dm_handle : option SubscriberId; dm_tock : TockCounters }.
Definition demo_default : DemoState := mkDemo (mkHello 0 0 0) None (mkTock 0 0).
Definition with_hello (x : DemoState) (h : HelloCounters) : DemoState := mkDemo h (dm_handle x) (dm_tock x).
Definition with_tock (x : DemoState) (t : TockCounters) : DemoState := mkDemo (dm_hello x) (dm_handle x) t.

Definition hello_summary (h : HelloCounters) : Z * Z * Z := (hc_ticks h, hc_pulses_sent h, hc_echos_received h).
Definition tock_summary (t : TockCounters) : Z * Z := (tc_pulses t, tc_last_seq t).

Section Drivers.
Context {P V : Type} (debug : bool) (u64_payload : Z -> P).

Definition hello_init (c : KernelContext P V) (x : DemoState) : option (Shared P V * DemoState) :=
  Some (kc_shared c, mkDemo (dm_hello x) (ctx_resolve c "tock") (dm_tock x)).

(** One message of the echo loop. *)
Definition hello_echo (_ : nat) (h : HelloCounters) (e : Envelope P) : option HelloCounters :=
  Some (if env_topic e =? TOPIC_ECHO then mkHello (hc_ticks h) (hc_pulses_sent h) (wrapping_add 64 (hc_echos_received h) 1) else h).

(** [fetch_add] wraps, the [+ 1] after it does not. *)
Definition hello_tick (c : KernelContext P V) (_ : Z) (x : DemoState) : option (Shared P V * DemoState) :=
  let h := dm_hello x in
  tick ← checked_add 64 (hc_ticks h) 1;
  let h := mkHello (wrapping_add 64 (hc_ticks h) 1) (hc_pulses_sent h) (hc_echos_received h) in
  '(c, h) ←
    (if tick mod 30 =? 0 then
       match dm_handle x with
       | Some tock =>
           '(c, r) ← ctx_publish debug c tock TOPIC_TICK_PULSE (u64_payload tick);
           Some (c, if is_ok r then mkHello (hc_ticks h) (wrapping_add 64 (hc_pulses_sent h) 1) (hc_echos_received h) else h)
       | None => Some (c, h)
       end
     else Some (c, h));
  if tick mod 10 =? 0 then
    '(c, r) ← ctx_publish debug c (kc_id c) TOPIC_ECHO (u64_payload tick);
    if is_ok r then
      '(c, h) ← receive_all hello_echo c h;
      Some (kc_shared c, with_hello x h)
    else Some (kc_shared c, with_hello x h)
  else Some (kc_shared c, with_hello x h).

(** [fetch_max] returns the old value; the assertion is of debug builds. *)
Definition tock_consume (_ : nat) (t : TockCounters) (e : Envelope P) : option TockCounters :=
  if negb (env_topic e =? TOPIC_TICK_PULSE) then Some t
  else
    let prev := tc_last_seq t in
    if debug && negb ((prev <? env_seq e) || (prev =? 0)) then None
    else Some (mkTock (wrapping_add 64 (tc_pulses t) 1) (Z.max prev (env_seq e))).

Definition tock_tick (c : KernelContext P V) (_ : Z) (x : DemoState) : option (Shared P V * DemoState) :=
  '(c, t) ← receive_all tock_consume c (dm_tock x);
  Some (kc_shared c, with_tock x t).

(** Shutting down prints the counters. *)
Definition hello : Subsystem P V DemoState :=
  mkSubsystem "hello" [] access_exclusive hello_init hello_tick (fun c x => Some (kc_shared c, x)).
Definition tock : Subsystem P V DemoState :=
  mkSubsystem "tock" ["hello"%string] access_exclusive (fun c x => Some (kc_shared c, x)) tock_tick (fun c x => Some (kc_shared c, x)).

(** The kernel with the two registered. *)
Definition demo_main (sys : Z -> option Z) (tracer : FrameTracer (SpscRing TraceSample)) : option (Kernel P V DemoState) :=
  k ← kernel_with_tracer sys tracer;
  Some (fst (kernel_register (fst (kernel_register k hello)) tock)).
End Drivers.

(** ** One tick *)
Lemma pop_edges {P} (b b' : MessageBus P) id x : bus_pop_inbox b id = Some (b', x) -> edges b' = edges b.
Proof.
  unfold bus_pop_inbox. destruct (inboxes b !z id) as [r|]; [|by intros [= <- _]].
  destruct (spsc_pop r) as [[r' y]|]; [|done]. cbn. by intros [= <- _].
Qed.

Lemma receive_edges {P V St} (handle : nat -> St -> Envelope P -> option St) fuel : forall k (c c' : KernelContext P V) s s',
  receive_loop handle fuel k c s = Some (c', s') -> edges (sh_bus (kc_shared c')) = edges (sh_bus (kc_shared c)).
Proof.
  induction fuel as [|fuel IH]; intros k c c' s s'; cbn [receive_loop]; [done|]. unfold ctx_receive_next.
  destruct (bus_pop_inbox _ _) as [[b x]|] eqn:E; [|done]. apply pop_edges in E. cbn [mbind option_bind].
  destruct x as [e|]; [|by intros [= <- _]]. destruct (handle k s e) as [s1|]; [|done]. cbn [mbind option_bind].
  intros ->%IH. exact E.
Qed.

(** The routing matrix of the two: hello may send to tock. *)
Definition demo_edges : list (list bool) := [[false; false]; [true; false]].

Record demo_bus_ok {P} (b : MessageBus P) (qs : list (list (Envelope P))) (seq : Z) : Prop := {
  db_repr : bus_repr b qs;
  db_edges : edges b = demo_edges;
  db_seq : bus_next_seq b = seq
}.

Section Ticks.
Context {P V : Type} (debug : bool) (u64_payload : Z -> P).
Implicit Types (c : KernelContext P V).

Lemma publish_demo c qs seq to topic payload : demo_bus_ok (sh_bus (kc_shared c)) qs seq -> 0 <= seq < umax 64 ->
  kc_id c = 0 -> (to = 0 \/ to = 1) ->
  let e := mkEnvelope 0 to topic seq payload in
  exists b, ctx_publish debug c to topic payload = Some (ctx_with_bus c b, snd (deliver qs e)) /\
  demo_bus_ok b (fst (deliver qs e)) (seq + 1).
Proof.
  intros [Hr He Hs] Hseq Hid Hto e. unfold ctx_publish, bus_envelope, bus_take_seq. rewrite Hs, Hid.
  set (b0 := with_next_seq _ _). assert (Hb0 : bus_repr b0 qs) by (destruct Hr; by split).
  assert (Hok : routing_ok b0 (env_from e) (env_to e) = true)
    by (unfold routing_ok, b0; cbn [edges with_next_seq]; rewrite He; by destruct Hto as [-> | ->]).
  destruct (publish_refines b0 qs e Hb0) as (b' & Hp & Hr' & Hn' & He' & _).
  assert (Ed : bus_publish debug b0 e = bus_publish false b0 e) by (unfold bus_publish; by rewrite Hok).
  fold e. rewrite Ed, Hp. cbn [mbind option_bind]. exists b'. split; [done|]. constructor; [done|by rewrite He'|].
  rewrite Hn'. apply wrap_small. unfold is_u, umax in *. lia.
Qed.

Lemma drain_demo {St} (handle : nat -> St -> Envelope P -> option St) c s qs seq s' :
  demo_bus_ok (sh_bus (kc_shared c)) qs seq -> handle_all handle 0 (inbox_of qs (kc_id c)) s = Some s' ->
  exists b, receive_all handle c s = Some (ctx_with_bus c b, s') /\ demo_bus_ok b (zset qs (kc_id c) []) seq.
Proof.
  intros [Hr He Hs] Hh. pose proof (drain_inbox_spec handle c s qs Hr) as H. rewrite Hh in H.
  destruct H as (b & Hb & Hn & E). exists b. split; [done|]. constructor; [done| |by rewrite Hn].
  apply receive_edges in E. cbn in E. rewrite E. exact He.
Qed.

(** What a tick of hello sends: a pulse every 30 ticks, an echo every 10. *)
Definition every (n tick : Z) : Z := if tick mod n =? 0 then 1 else 0.

Lemma every_div n tick : 0 < n -> 0 <= tick -> (tick + 1) / n = tick / n + every n (tick + 1).
Proof.
  intros Hn Ht. unfold every. pose proof (Z.div_mod tick n ltac:(lia)). pose proof (Z.div_mod (tick + 1) n ltac:(lia)).
  pose proof (Z.mod_pos_bound tick n Hn). pose proof (Z.mod_pos_bound (tick + 1) n Hn).
  destruct (Z.eqb_spec ((tick + 1) mod n) 0); nia.
Qed.

Definition pulse (seq tick : Z) : list (Envelope P) :=
  if tick mod 30 =? 0 then [mkEnvelope 0 1 TOPIC_TICK_PULSE seq (u64_payload tick)] else [].

Record hello_at (t : Z) (h : HelloCounters) : Prop := {
  ha_ticks : hc_ticks h = t; ha_pulses : hc_pulses_sent h = t / 30; ha_echos : hc_echos_received h = t / 10
}.

Lemma hello_tick_spec c dt x t seq : 0 <= t < umax 64 -> 0 <= seq -> seq + 2 <= umax 64 -> kc_id c = 0 ->
  dm_handle x = Some 1 -> hello_at t (dm_hello x) -> demo_bus_ok (sh_bus (kc_shared c)) [[]; []] seq ->
  exists b h, hello_tick debug u64_payload c dt x = Some (with_bus (kc_shared c) b, with_hello x h) /\
  hello_at (t + 1) h /\ demo_bus_ok b [[]; pulse seq (t + 1)] (seq + every 30 (t + 1) + every 10 (t + 1)).
Proof.
  intros Ht Hs0 Hs Hid Hx [H1 H2 H3] Hb. destruct c as [s names id cdt]. cbn [kc_id kc_shared] in Hid, Hb. subst id.
  set (c := mkKernelContext s names 0 cdt). unfold hello_tick. rewrite Hx, H1.
  assert (Hdiv : 0 <= t / 30 <= t /\ 0 <= t / 10 <= t)
    by (split; (split; [apply Z.div_pos; lia|apply Z.div_le_upper_bound; lia])).
  pose proof (every_div 30 t ltac:(lia) ltac:(lia)) as E30. pose proof (every_div 10 t ltac:(lia) ltac:(lia)) as E10.
  assert (W : forall z, 0 <= z <= t -> wrapping_add 64 z 1 = z + 1)
    by (intros; apply wrap_small; unfold is_u, umax in *; lia).
  rewrite checked_add_ok by lia. cbn [mbind option_bind hc_ticks hc_pulses_sent hc_echos_received].
  rewrite H2, H3, !W by lia. unfold every, pulse in *.
  assert (Echo : forall b qs sq h', sq + 1 <= umax 64 -> 0 <= sq -> demo_bus_ok b ([] :: qs) sq ->
    hc_echos_received h' = t / 10 ->
    exists b', ('(c2, r) ← ctx_publish debug (ctx_with_bus c b) 0 TOPIC_ECHO (u64_payload (t + 1));
      if is_ok r then '(c2, h) ← receive_all hello_echo c2 h'; Some (kc_shared c2, with_hello x h)
      else Some (kc_shared c2, with_hello x h'))
    = Some (with_bus s b', with_hello x (mkHello (hc_ticks h') (hc_pulses_sent h') (t / 10 + 1))) /\
    demo_bus_ok b' ([] :: qs) (sq + 1)).
  { intros b qs sq h' Hq1 Hq0 Hb1 Hh.
    destruct (publish_demo (ctx_with_bus c b) ([] :: qs) sq 0 TOPIC_ECHO (u64_payload (t + 1)) Hb1 ltac:(lia) eq_refl
      ltac:(by left)) as (b2 & -> & Hb2).
    cbn [mbind option_bind]. change (snd (deliver _ _)) with (@Ok BusError unit tt). cbn [is_ok].
    destruct (drain_demo hello_echo (ctx_with_bus (ctx_with_bus c b) b2) h' _ _ _ Hb2 eq_refl) as (b3 & -> & Hb3).
    cbn [mbind option_bind]. exists b3. rewrite Hh, W by lia. split; [done|exact Hb3]. }
  assert (Pulse : exists b', ctx_publish debug c 1 TOPIC_TICK_PULSE (u64_payload (t + 1)) = Some (ctx_with_bus c b', Ok tt) /\
    demo_bus_ok b' ([] :: [[mkEnvelope 0 1 TOPIC_TICK_PULSE seq (u64_payload (t + 1))]]) (seq + 1)).
  { destruct (publish_demo c [[]; []] seq 1 TOPIC_TICK_PULSE (u64_payload (t + 1)) Hb ltac:(lia) eq_refl ltac:(by right))
      as (b1 & E1 & Hb1). exists b1. split; [exact E1|exact Hb1]. }
  destruct Pulse as (b1 & HP & Hb1).
  destruct ((t + 1) mod 30 =? 0); destruct ((t + 1) mod 10 =? 0); try rewrite HP; cbn [mbind option_bind is_ok];
    cbn [hc_ticks hc_pulses_sent hc_echos_received].
  - edestruct (Echo b1 [_] (seq + 1) (mkHello (t + 1) (t / 30 + 1) (t / 10)) ltac:(lia) ltac:(lia) Hb1 eq_refl) as (b2 & E2 & Hb2).
    eexists b2, _. split; [exact E2|]. split; [constructor; cbn; lia|exact Hb2].
  - eexists b1, _. split; [done|]. rewrite Z.add_0_r. split; [constructor; cbn; lia|exact Hb1].
  - edestruct (Echo (sh_bus s) [[]] seq (mkHello (t + 1) (t / 30) (t / 10)) ltac:(lia) ltac:(lia) Hb eq_refl) as (b2 & E2 & Hb2).
    eexists b2, _. split; [destruct s; exact E2|]. rewrite Z.add_0_r. split; [constructor; cbn; lia|exact Hb2].
  - eexists (sh_bus s), _. split; [by destruct s|]. rewrite !Z.add_0_r. split; [constructor; cbn; lia|exact Hb].
Qed.
(** Tock's counters after tick [t]: the last pulse bears the number
    [4 * (t / 30) - 2], as three echoes are sent with each pulse. *)
Record tock_at (t : Z) (x : TockCounters) : Prop := {
  ta_pulses : tc_pulses x = t / 30; ta_last : tc_last_seq x = Z.max 0 (4 * (t / 30) - 2)
}.

(** The messages numbered before tick [t + 1]. *)
Definition sent_by (t : Z) : Z := t / 30 + t / 10.

Lemma sent_succ t : 0 <= t -> sent_by (t + 1) = sent_by t + every 30 (t + 1) + every 10 (t + 1).
Proof. intros. unfold sent_by. rewrite (every_div 30), (every_div 10) by lia. lia. Qed.

Lemma sent_bounds t : 0 <= t -> 0 <= sent_by t /\ 7 * sent_by t <= t.
Proof. intros. unfold sent_by. pose proof (Z.div_mod t 30). pose proof (Z.div_mod t 10).
  pose proof (Z.mod_pos_bound t 30). pose proof (Z.mod_pos_bound t 10). lia. Qed.

Lemma tock_tick_spec c dt x t seq' : 0 <= t < umax 64 -> kc_id c = 1 -> tock_at t (dm_tock x) ->
  demo_bus_ok (sh_bus (kc_shared c)) [[]; pulse (sent_by t) (t + 1)] seq' ->
  exists b k, tock_tick debug c dt x = Some (with_bus (kc_shared c) b, with_tock x k) /\
  tock_at (t + 1) k /\ demo_bus_ok b [[]; []] seq'.
Proof.
  intros Ht Hid [H1 H2] Hb. unfold tock_tick.
  pose proof (every_div 30 t ltac:(lia) ltac:(lia)) as E30.
  assert (Hh : exists k, handle_all (tock_consume debug) 0 (inbox_of [[]; pulse (sent_by t) (t + 1)] 1) (dm_tock x) = Some k /\
    tock_at (t + 1) k).
  { unfold pulse, every in *. destruct (Z.eqb_spec ((t + 1) mod 30) 0) as [E|E].
    - change (exists k, (s ← tock_consume debug 0 (dm_tock x)
        (mkEnvelope 0 1 TOPIC_TICK_PULSE (sent_by t) (u64_payload (t + 1))); Some s) = Some k /\ tock_at (t + 1) k).
      unfold tock_consume. cbn [env_topic env_seq].
      pose proof (Z.div_mod (t + 1) 30 ltac:(lia)). pose proof (Z.div_mod t 10 ltac:(lia)).
      pose proof (Z.mod_pos_bound t 10 ltac:(lia)).
      assert (Es : sent_by t = 4 * (t / 30) + 2) by (unfold sent_by; lia).
      pose proof (Z.div_pos t 30 ltac:(lia) ltac:(lia)).
      assert (Hgt : ((tc_last_seq (dm_tock x) <? sent_by t) || (tc_last_seq (dm_tock x) =? 0)) = true)
        by (rewrite H2, Es; apply orb_true_intro; left; lia).
      cbn zeta. rewrite Hgt, andb_false_r. eexists. split; [done|]. constructor; cbn.
      + rewrite H1. unfold wrapping_add. rewrite wrap_small; [lia|]. unfold is_u, umax in *. lia.
      + rewrite H2, Es. lia.
    - exists (dm_tock x). split; [done|]. constructor; rewrite E30, Z.add_0_r; done. }
  destruct Hh as (k & Hh & Hk). destruct (drain_demo (tock_consume debug) c (dm_tock x) _ _ k Hb) as (b & E & Hb').
  { by rewrite Hid. }
  rewrite E. exists b, k. split; [done|]. split; [done|]. by rewrite Hid in Hb'.
Qed.
End Ticks.

(** ** The kernel around them *)
Section Composition.
Context {P V : Type} (debug : bool) (u64_payload : Z -> P).
Implicit Types (k : Kernel P V DemoState) (x : DemoState).

(** The two, after [t] frames. *)
Record demo_at (t : Z) k x : Prop := {
  da_registry : k_registry k = [("hello"%string, hello debug u64_payload); ("tock"%string, tock debug)];
  da_names : k_names k = ["hello"; "tock"]%string;
  da_order : k_order k = [0; 1];
  da_ready : k_initialized k = true;
  da_frame : k_frame_index k = t;
  da_tracer : tracer_ok (k_tracer k);
  da_deferred : dc_commands (sh_deferred (k_shared k)) = [];
  da_bus : demo_bus_ok (sh_bus (k_shared k)) [[]; []] (sent_by t);
  da_handle : dm_handle x = Some 1;
  da_hello : hello_at t (dm_hello x);
  da_tock : tock_at t (dm_tock x)
}.

Lemma trace_ok (t : FrameTracer (SpscRing TraceSample)) smp : tracer_ok t -> exists t', tracer_record t smp = Some t' /\ tracer_ok t'.
Proof.
  intros (cap & window & H0 & Ht). destruct (record_refines t cap window smp H0 Ht) as (t' & E & Ht' & _).
  exists t'. split; [done|]. by exists cap, (window ++ [smp]).
Qed.

Lemma demo_tick_all clock k x s t : demo_at t k x -> 0 <= t < umax 64 -> dc_commands (sh_deferred s) = [] ->
  sh_bus s = sh_bus (k_shared k) ->
  exists s' tr' x', tick_all clock k t [0; 1] s (k_tracer k) x = Some (s', tr', x') /\ tracer_ok tr' /\
  dc_commands (sh_deferred s') = [] /\ demo_bus_ok (sh_bus s') [[]; []] (sent_by (t + 1)) /\
  dm_handle x' = Some 1 /\ hello_at (t + 1) (dm_hello x') /\ tock_at (t + 1) (dm_tock x').
Proof.
  intros [Hr _ _ _ _ Ht _ Hb Hx Hh Hk] H0 Hd Hs. cbn [tick_all]. rewrite Hr. rewrite <- Hs in Hb.
  pose proof (sent_bounds t ltac:(lia)). pose proof (sent_succ t ltac:(lia)) as Hsucc.
  change (zget _ 0) with (Some ("hello"%string, hello debug u64_payload : Subsystem P V DemoState)).
  change (zget _ 1) with (Some ("tock"%string, tock debug : Subsystem P V DemoState)).
  cbn [mbind option_bind snd hello sub_tick].
  destruct (hello_tick_spec debug u64_payload (context_for k s 0 FIXED_DT_NS) FIXED_DT_NS x t (sent_by t) H0
    ltac:(lia) ltac:(unfold umax in *; lia) eq_refl Hx Hh Hb) as (b1 & h & -> & Hh1 & Hb1).
  cbn [mbind option_bind].
  match goal with |- context [tracer_record (k_tracer k) ?smp] => destruct (trace_ok (k_tracer k) smp Ht) as (t1 & -> & Ht1) end.
  cbn [mbind option_bind tock sub_tick]. rewrite <- Hsucc in Hb1. change (kc_shared (context_for k s 0 FIXED_DT_NS)) with s.
  destruct (tock_tick_spec debug u64_payload (context_for k (with_bus s b1) 1 FIXED_DT_NS) FIXED_DT_NS (with_hello x h) t
    (sent_by (t + 1)) H0 eq_refl Hk Hb1) as (b2 & q & -> & Hq & Hb2).
  cbn [mbind option_bind].
  match goal with |- context [tracer_record t1 ?smp] => destruct (trace_ok t1 smp Ht1) as (t2 & -> & Ht2) end.
  cbn [mbind option_bind]. do 3 eexists. split; [done|]. by repeat (split; [done|]).
Qed.

Lemma demo_frame As clock k x t : demo_at t k x -> 0 <= t -> t + 1 <= umax 64 ->
  exists k' x', kernel_frame As clock k [0; 1] x = Some (k', x') /\ demo_at (t + 1) k' x'.
Proof.
  intros Hd H0 H1. pose proof Hd as Hd'. destruct Hd' as [Hr Hn Ho Hi Hf Ht Hdc Hb Hx Hh Hk].
  unfold kernel_frame. rewrite (flush_idle _ _ _ (db_repr _ _ _ Hb)). cbn [mbind option_bind]. rewrite Hf.
  destruct (demo_tick_all clock k x (with_arena (with_bus (k_shared k) (sh_bus (k_shared k)))
    (arena_reset (sh_arena (k_shared k)))) t Hd ltac:(lia) Hdc eq_refl) as (s1 & t1 & x1 & -> & Ht1 & Hd1 & Hb1 & Hx1 & Hh1 & Hk1).
  cbn [mbind option_bind]. unfold deferred_apply. rewrite Hd1. cbn [deferred_apply_commands mbind option_bind].
  rewrite checked_add_ok by (unfold is_u, umax in *; lia). cbn [mbind option_bind].
  destruct Ht1 as (cap & window & Hc & Ht1).
  destruct (frame_refines t1 cap window (frame_instant clock t) Hc Ht1) as (t2 & -> & Ht2 & _).
  cbn [mbind option_bind]. do 2 eexists. split; [done|]. constructor; try done. by eexists cap, _.
Qed.

Lemma demo_frames As clock frames : forall k x t, demo_at t k x -> 0 <= t -> t + Z.of_nat frames <= umax 64 ->
  exists k' x', run_frames As clock (fun x => (x, true)) frames [0; 1] k x = Some (k', x') /\
  demo_at (t + Z.of_nat frames) k' x'.
Proof.
  induction frames as [|n IH]; intros k x t Hd H0 H1; cbn [run_frames]; [exists k, x; by rewrite Z.add_0_r|].
  destruct (demo_frame As clock k x t Hd H0 ltac:(lia)) as (k1 & x1 & -> & Hd1). cbn [mbind option_bind].
  destruct (IH k1 x1 (t + 1) Hd1 ltac:(lia) ltac:(lia)) as (k2 & x2 & -> & Hd2). exists k2, x2. split; [done|].
  by replace (t + Z.of_nat (S n)) with (t + 1 + Z.of_nat n) by lia.
Qed.

Lemma with_tracer_start sys tr k : kernel_with_tracer (P := P) (V := V) (X := DemoState) sys tr = Some k ->
  k_registry k = [] /\ k_initialized k = false /\ k_frame_index k = 0 /\ k_tracer k = tr /\
  dc_commands (sh_deferred (k_shared k)) = [] /\ bus_repr (sh_bus (k_shared k)) [] /\ bus_next_seq (sh_bus (k_shared k)) = 0.
Proof.
  unfold kernel_with_tracer. destruct (bus_try_new alloc_all) as [b|] eqn:Hb; [|done].
  cbn [deferred_try_with_capacity alloc_all]. destruct (arena_try_new sys DEFAULT_ARENA_CAPACITY) as [a|]; [|done].
  intros [= <-]. cbn. assert (bus_repr b []) by (by destruct (order_start _ _ Hb)).
  repeat (split; [done|]). revert Hb. unfold bus_try_new. case_match; [|done]. by intros [= <-].
Qed.

(** Only the routing matrix and the subscribers change while the bus is set up. *)
Lemma add_subscribers_seq A n : forall (b b' : MessageBus P), add_subscribers A n b = Some b' -> bus_next_seq b' = bus_next_seq b.
Proof.
  induction n as [|n IH]; intros b b'; cbn [add_subscribers]; [by intros [= <-]|].
  destruct (bus_try_add_subscriber A b) as [b1 r] eqn:E. destruct r; [|done]. intros ->%IH. revert E.
  unfold bus_try_add_subscriber. repeat case_match; by intros [= <- _].
Qed.

Lemma demo_init sys tr k x : demo_main debug u64_payload sys tr = Some k -> tracer_ok tr -> x = demo_default ->
  exists k' x', kernel_init alloc_all k x = Some (k', x', Ok tt) /\ demo_at 0 k' x'.
Proof.
  unfold demo_main. destruct (kernel_with_tracer sys tr) as [k0|] eqn:E0; [|done]. cbn [mbind option_bind].
  intros [= <-] Ht ->. apply with_tracer_start in E0 as (Hr & Hi & Hf & Htr & Hd & Hb & Hs).
  destruct k0 as [r s names order waves tr0 ini fi]. cbn in Hr, Hi, Hf, Htr, Hd, Hb, Hs. subst.
  match goal with |- context [fst (kernel_register ?a ?b)] => change (fst (kernel_register a b)) with
    (mkKernel [("hello"%string, hello debug u64_payload); ("tock"%string, tock debug)] s names order waves tr false 0) end.
  unfold kernel_init. cbn [k_initialized k_registry].
  change (registry_resolve_dependencies _) with (@Ok KernelError _ [[]; [0]]). cbv beta iota zeta.
  match goal with |- context [schedule_plan_build ?d ?n ?a] =>
    replace (schedule_plan_build d n a) with (Some (Ok (mkSchedulePlan [0; 1] [[0]; [1]]) : result KernelError SchedulePlan))
      by (vm_compute; reflexivity) end.
  cbn [mbind option_bind kernel_refresh_names k_shared k_registry length].
  destruct (add_subscribers_ok 2 _ [] Hb ltac:(done)) as (b1 & E1 & Hb1). rewrite E1. cbn [mbind option_bind].
  apply add_subscribers_seq in E1.
  change (set_debug_edges alloc_all b1 [[]; [0]]) with (Some (with_edges b1 demo_edges)). cbn [mbind option_bind].
  do 2 eexists. split; [reflexivity|]. constructor; try done. constructor; [destruct Hb1; by split|done|]. cbn. by rewrite E1.
Qed.

Lemma demo_shutdown k x t : demo_at t k x -> exists k', kernel_shutdown k x = Some (k', x).
Proof.
  intros [Hr _ Ho Hi _ _ _ _ _ _ _]. unfold kernel_shutdown. rewrite Hi, Ho. cbn [negb rev app run_callbacks]. rewrite Hr.
  eexists. reflexivity.
Qed.

(** C8: the program's report of its drivers.  Register hello and tock in a new
    kernel; then [init], [run] for any number of frames below 2^64 and
    [shutdown] succeed whatever the clock measures, in debug builds too, and
    the counters then are: one tick of hello a frame, a pulse sent every 30
    frames and every one received by tock in the frame it was sent, an echo
    received every 10 frames; and the last pulse's number is the one that the
    bus's shared numbering gives it, so the driver's assertion never fails. *)
Theorem demo_counters As clock sys tr k frames : demo_main debug u64_payload sys tr = Some k -> tracer_ok tr ->
  0 <= frames < umax 64 ->
  exists k1 x1 k2 x2 k3, kernel_init alloc_all k demo_default = Some (k1, x1, Ok tt) /\
    kernel_run As clock frames k1 x1 = Some (k2, x2, Ok tt) /\ kernel_shutdown k2 x2 = Some (k3, x2) /\
    hello_summary (dm_hello x2) = (frames, frames / 30, frames / 10) /\
    tock_summary (dm_tock x2) = (frames / 30, Z.max 0 (4 * (frames / 30) - 2)).
Proof.
  intros Hk Ht Hf. destruct (demo_init sys tr k _ Hk Ht eq_refl) as (k1 & x1 & E1 & H1).
  destruct (demo_frames As clock (Z.to_nat frames) k1 x1 0 H1 ltac:(lia) ltac:(lia)) as (k2 & x2 & E2 & H2).
  rewrite Z2Nat.id in H2 by lia. destruct (demo_shutdown k2 x2 _ H2) as [k3 E3].
  exists k1, x1, k2, x2, k3. split; [done|]. split; [|split; [done|]].
  - unfold kernel_run, kernel_run_until. rewrite (da_ready _ _ _ H1), (da_order _ _ _ H1), E2. cbn [negb mbind option_bind].
    destruct (Z.eqb_spec frames 0) as [->|]; [|done]. cbn in E2. by injection E2 as -> ->.
  - destruct (da_hello _ _ _ H2) as [Ha Hb Hc], (da_tock _ _ _ H2) as [Hd He]. unfold hello_summary, tock_summary.
    rewrite Ha, Hb, Hc, Hd, He. by rewrite Z.add_0_l.
Qed.
End Composition.

(** The run of [main.rs]: 120 frames. *)
Lemma demo_counters_witness :
  match (t ← tracer_new 2 100 0; k ← demo_main true (fun z : Z => z) (fun _ => Some 4096) t; Some k) with
  | None => False
  | Some k => exists k1 x1 k2 x2 k3, kernel_init alloc_all k demo_default = Some (k1, x1, Ok tt) /\
      kernel_run (V := Z) (fun _ _ => alloc_all) (mkClock (fun _ _ => 5) (fun i => i)) 120 k1 x1 = Some (k2, x2, Ok tt) /\
      kernel_shutdown k2 x2 = Some (k3, x2) /\ hello_summary (dm_hello x2) = (120, 4, 12) /\ tock_summary (dm_tock x2) = (4, 14)
  end.
Proof.
  destruct (tracer_new 2 100 0) as [t|] eqn:Ht; [|vm_compute in Ht; discriminate Ht].
  destruct (tracer_new_repr 2 100 0 t ltac:(lia) Ht) as (cap & H0 & _ & Hr & _).
  cbn [mbind option_bind]. destruct (demo_main (V := Z) true (fun z : Z => z) (fun _ => Some 4096) t) as [k|] eqn:E.
  2:{ unfold demo_main in E. destruct (kernel_with_tracer _ t) as [k0|] eqn:E0 in E; [discriminate E|].
      vm_compute in E0. discriminate E0. }
  cbn [mbind option_bind]. apply (demo_counters true (fun z => z) _ _ _ _ _ 120 E); [by eexists _, _|done].
Defined.
