(* ===== verification/Voxel.v ===== *)
(** The voxel world of the example [gpu_stress_3d]: terrain and player
    ([voxel_state.rs], [voxel_driver.rs]) and the greedy surface mesher
    ([voxel_scene.rs]).

    [f32::hypot] and the square root of [f64] ([side]) are the platform's
    mathematics library's; the first is a parameter, the second the Standard
    Library's correctly rounded one, as IEEE 754 prescribes.

    The theorems: merging the exposed squares of a slice into rectangles tiles
    them exactly; and the mesh of a terrain draws the face of every block that
    borders on air exactly once, in its material, and nothing else. *)

From stdpp Require Import strings.
From S2P Require Import Prelude Wire F32 GpuUpload.

Local Open Scope Z_scope.
Local Open Scope kit_scope.

Definition LIMIT : Z := 4 * 1024 * 1024.

(** [i32] arithmetic panics on overflow. *)
Definition i32_add (a b : Z) : option Z :=
  if (- 2 ^ 31 <=? a + b) && (a + b <? 2 ^ 31) then Some (a + b) else None.

(** ** The world *)
Definition Vec3 (A : Type) : Type := A * A * A.
Definition at3 {A} (p : Vec3 A) (axis : Z) : A :=
  if axis =? 0 then p.1.1 else if axis =? 1 then p.1.2 else p.2.
Definition set3 {A} (p : Vec3 A) (axis : Z) (x : A) : Vec3 A :=
  if axis =? 0 then (x, p.1.2, p.2) else if axis =? 1 then (p.1.1, x, p.2) else (p.1.1, p.1.2, x).

Record Player := mkPlayer { pl_position : Vec3 f32; pl_velocity : Vec3 f32 }.
Record VoxelWorld := mkVoxelWorld {
  vw_blocks : Z;
  vw_seed : Z;
  vw_player : Player;
  vw_stream_radius : Z;
  vw_region : option (Z * Z)
}.
Definition with_player (w : VoxelWorld) (p : Player) : VoxelWorld :=
  mkVoxelWorld (vw_blocks w) (vw_seed w) p (vw_stream_radius w) (vw_region w).

(** [((blocks as f64 / 8.0).sqrt().ceil() as i32).max(1)]. *)
Definition f64_of_Z (z : Z) : spec_float := binary_normalize 53 1024 z 0 false.
Definition f64_ceil_as_i32 (x : spec_float) : Z :=
  match x with
  | S754_nan | S754_zero _ => 0
  | S754_infinity s => if s then - 2 ^ 31 else 2 ^ 31 - 1
  | S754_finite s m e =>
      let a := if s then Z.neg m else Z.pos m in
      Z.max (- 2 ^ 31) (Z.min (2 ^ 31 - 1) (if e <? 0 then - (- a / 2 ^ (- e)) else a * 2 ^ e))
  end.

Definition side (w : VoxelWorld) : Z :=
  match vw_region w with
  | Some _ => 16
  | None => Z.max (f64_ceil_as_i32 (SFsqrt 53 1024 (SFdiv 53 1024 (f64_of_Z (vw_blocks w)) (f64_of_Z 8)))) 1
  end.

Definition height (w : VoxelWorld) (x z : Z) : option Z :=
  let '(ox, oz) := match vw_region w with Some o => o | None => (0, 0) end in
  x ← i32_add x ox;
  z ← i32_add z oz;
  Some (5 + Z.land (Z.lxor (Z.lxor (wrapping_mul 32 (wrap 32 (x / 4)) 17) (wrapping_mul 32 (wrap 32 (z / 4)) 31)) (vw_seed w)) 7).

Definition material (w : VoxelWorld) (p : Vec3 Z) : option Z :=
  let '(x, y, z) := p in
  if (y <? 0) || (match vw_region w with
                  | None => (x <? 0) || (z <? 0) || (side w <=? x) || (side w <=? z)
                  | Some _ => false
                  end)
  then Some 0
  else
    h ← height w x z;
    Some (if h <=? y then 0 else if y =? h - 1 then 1 else if h - 3 <=? y then 2 else 3).

Definition floor_at (w : VoxelWorld) (x z : f32) : option f32 :=
  let half := if vw_stream_radius w =? 0 then fmul (f32_of_Z (side w)) (fdiv f32_one (f32_of_Z 2)) else f32_zero in
  h ← height w (f32_floor_as_int (- 2 ^ 31) (2 ^ 31 - 1) (fadd x half)) (f32_floor_as_int (- 2 ^ 31) (2 ^ 31 - 1) (fadd z half));
  Some (fadd (f32_of_Z h) (fdiv (f32_of_Z 17) (f32_of_Z 10))).

Definition regenerate (w : VoxelWorld) : VoxelWorld :=
  mkVoxelWorld (vw_blocks w) (wrapping_add 32 (wrapping_mul 32 (vw_seed w) 1664525) 1013904223) (vw_player w)
    (vw_stream_radius w) (vw_region w).

(** [new] on the two environment variables' parsed values. *)
Definition voxel_world_new (blocks radius : option Z) : VoxelWorld :=
  mkVoxelWorld (Z.max 1 (Z.min (default 16384 blocks) 250000)) 1374792209
    (mkPlayer (f32_zero, f32_of_Z 12, f32_of_Z 8) (f32_zero, f32_zero, f32_zero))
    (Z.min (default 0 radius) 4) None.

(** ** The mesher *)
Record VoxelFrame := mkVoxelFrame {
  vf_upload : list Z;
  vf_draws : list WorldDrawCommand;
  vf_block_count : Z;
  vf_batch_count : Z;
  vf_exposed_faces : Z;
  vf_revision : Z;
  vf_resident_chunks : Z;
  vf_pending_chunks : Z;
  vf_built_this_frame : Z
}.
Definition vf_idle (f : VoxelFrame) : VoxelFrame :=
  mkVoxelFrame (vf_upload f) (vf_draws f) (vf_block_count f) (vf_batch_count f) (vf_exposed_faces f) (vf_revision f)
    (vf_resident_chunks f) (vf_pending_chunks f) 0.

Definition SceneKey : Type := Z * Z * option (Z * Z).
Record VoxelScene := mkVoxelScene {
  vs_key : option SceneKey;
  vs_revision : Z;
  vs_frame : option VoxelFrame
}.
Definition voxel_scene_new : VoxelScene := mkVoxelScene None 0 None.

(** A rectangle of a mask: column, row, width, height and material. *)
Record Rect := mkRect { rt_i : Z; rt_j : Z; rt_w : Z; rt_h : Z; rt_material : Z }.

Definition grid16 : list (Z * Z) := flat_map (fun j => map (fun i => (i, j)) (seqZ 0 16)) (seqZ 0 16).

Fixpoint grow_width (fuel : nat) (mask : list Z) (i j m w : Z) : option Z :=
  match fuel with
  | O => None
  | S fuel =>
      if i + w <? 16 then
        x ← mask !z (j * 16 + i + w);
        if x =? m then grow_width fuel mask i j m (w + 1) else Some w
      else Some w
  end.

Fixpoint row_all (mask : list Z) (k m : Z) (xs : list Z) : option bool :=
  match xs with
  | [] => Some true
  | x :: xs => v ← mask !z (k + x); if v =? m then row_all mask k m xs else Some false
  end.

Fixpoint grow_height (fuel : nat) (mask : list Z) (i j m w h : Z) : option Z :=
  match fuel with
  | O => None
  | S fuel =>
      if j + h <? 16 then
        b ← row_all mask ((j + h) * 16 + i) m (seqZ 0 w);
        if (b : bool) then grow_height fuel mask i j m w (h + 1) else Some h
      else Some h
  end.

(** An assignment out of range panics. *)
Definition clear_cell (mask : list Z) (k : Z) : option (list Z) :=
  if (0 <=? k) && (k <? zlen mask) then Some (zset mask k 0) else None.

Fixpoint clear_cells (mask : list Z) (ks : list Z) : option (list Z) :=
  match ks with
  | [] => Some mask
  | k :: ks => mask ← clear_cell mask k; clear_cells mask ks
  end.

(** The indices of a rectangle in the order of the two loops. *)
Definition rect_cells (r : Rect) : list Z :=
  flat_map (fun y => map (fun x => (rt_j r + y) * 16 + rt_i r + x) (seqZ 0 (rt_w r))) (seqZ 0 (rt_h r)).

Fixpoint rectangles_loop (cells : list (Z * Z)) (mask : list Z) (result : list Rect) : option (list Z * list Rect) :=
  match cells with
  | [] => Some (mask, result)
  | (i, j) :: cells =>
      m ← mask !z (j * 16 + i);
      if m =? 0 then rectangles_loop cells mask result
      else
        w ← grow_width 16 mask i j m 1;
        h ← grow_height 16 mask i j m w 1;
        mask ← clear_cells mask (rect_cells (mkRect i j w h m));
        rectangles_loop cells mask (result ++ [mkRect i j w h m])
  end.

Definition rectangles (mask : list Z) : option (list Z * list Rect) := rectangles_loop grid16 mask [].

(** Rust's [for] over a body that may panic or return [Err]. *)
Fixpoint for_each {A S} (body : A -> S -> option (result string S)) (l : list A) (s : S) : option (result string S) :=
  match l with
  | [] => Some (Ok s)
  | x :: l =>
      r ← body x s;
      match r with Ok s => for_each body l s | Err e => Some (Err e) end
  end.

(** The axis of a face and the two axes along it; whether it looks up the axis. *)
Definition face_axes (face : Z) : Z * Z * Z * Z :=
  if face =? 0 then (2, 0, 1, 1)
  else if face =? 1 then (2, 0, 1, -1)
  else if face =? 2 then (0, 2, 1, -1)
  else if face =? 3 then (0, 2, 1, 1)
  else if face =? 4 then (1, 0, 2, 1)
  else (1, 0, 2, -1).

Definition add_axis (p : Vec3 Z) (axis d : Z) : option (Vec3 Z) :=
  x ← i32_add (at3 p axis) d; Some (set3 p axis x).

(** One entry of the mask of a slice. *)
Definition mask_cell (w : VoxelWorld) (origin : Vec3 Z) (face slice : Z) (cell : Z * Z) : option Z :=
  let '(axis, u, v, sign) := face_axes face in
  let '(i, j) := cell in
  p ← add_axis origin axis slice;
  p ← add_axis p u i;
  p ← add_axis p v j;
  m ← material w p;
  neighbor ← add_axis p axis sign;
  if negb (m =? 0) then n ← material w neighbor; Some (if n =? 0 then m else 0) else Some 0.

Definition f32_half : f32 := Eval cbv in fdiv f32_one (f32_of_Z 2).
Definition fadd_axis (p : Vec3 f32) (axis : Z) (d : f32) : Vec3 f32 := set3 p axis (fadd (at3 p axis) d).

Section Mesher.
Context (hypot : f32 -> f32 -> f32).

Definition voxel_encode (p s : Vec3 f32) (m : Z) : list Z :=
  let '(p0, p1, p2) := p in let '(s0, s1, s2) := s in
  let z := f32_zero in
  flat_map (fun v => to_le_bytes 4 (f32_bits v))
    [s0; z; z; p0; z; s1; z; p1; z; z; s2; p2; p0; p1; p2; hypot (hypot s0 s1) s2] ++
  flat_map (to_le_bytes 4) [0; 0; 0; Z.lor (2 ^ 31) (m - 1)].

(** Where a rectangle is drawn and how large. *)
Definition rect_placement (w : VoxelWorld) (origin : Vec3 Z) (face slice : Z) (r : Rect) : Vec3 f32 * Vec3 f32 :=
  let '(axis, u, v, sign) := face_axes face in
  let '(x, y, z) := origin in
  let p := (f32_of_Z x, f32_of_Z y, f32_of_Z z) in
  let p := fadd_axis p axis (fadd (f32_of_Z slice) (if 0 <? sign then f32_one else f32_zero)) in
  let p := fadd_axis p u (fadd (f32_of_Z (rt_i r)) (fmul (f32_of_Z (rt_w r)) f32_half)) in
  let p := fadd_axis p v (fadd (f32_of_Z (rt_j r)) (fmul (f32_of_Z (rt_h r)) f32_half)) in
  let p :=
    match vw_region w with
    | Some (ox, oz) => fadd_axis (fadd_axis p 0 (f32_of_Z ox)) 2 (f32_of_Z oz)
    | None =>
        let half := fmul (f32_of_Z (side w)) f32_half in
        set3 (set3 p 0 (fsub (at3 p 0) half)) 2 (fsub (at3 p 2) half)
    end in
  let s := set3 (f32_zero, f32_zero, f32_zero) u (fmul (f32_of_Z (rt_w r)) f32_half) in
  let s := set3 s v (fmul (f32_of_Z (rt_h r)) f32_half) in
  (p, s).

(** The face groups and the count of exposed squares. *)
Record Mesh := mkMesh { ms_groups : list (list Z); ms_exposed : Z }.

Definition add_rect (w : VoxelWorld) (origin : Vec3 Z) (face slice : Z) (r : Rect) (mesh : Mesh) : option (result string Mesh) :=
  group ← ms_groups mesh !z face;
  let '(p, s) := rect_placement w origin face slice r in
  let group := group ++ voxel_encode p s (rt_material r) in
  let mesh := mkMesh (zset (ms_groups mesh) face group) (ms_exposed mesh) in
  if LIMIT <? zlen group then Some (Err "voxel mesh exceeds bounded upload budget"%string) else Some (Ok mesh).

Definition mesh_slice (w : VoxelWorld) (origin : Vec3 Z) (face slice : Z) (mesh : Mesh) : option (result string Mesh) :=
  mask ← mapM (mask_cell w origin face slice) grid16;
  exposed ← checked_add 64 (ms_exposed mesh) (zlen (List.filter (fun m => negb (m =? 0)) mask));
  '(_, rects) ← rectangles mask;
  for_each (add_rect w origin face slice) rects (mkMesh (ms_groups mesh) exposed).

Definition mesh_chunk (w : VoxelWorld) (origin : Vec3 Z) (mesh : Mesh) : option (result string Mesh) :=
  for_each (fun face => for_each (mesh_slice w origin face) (seqZ 0 16)) (seqZ 0 6) mesh.

(** [(0..side).step_by(16)]. *)
Definition chunk_steps (w : VoxelWorld) : list Z := map (fun k => 16 * k) (seqZ 0 ((side w + 15) / 16)).

Definition mesh_all (w : VoxelWorld) : option (result string Mesh) :=
  for_each (fun cx => for_each (fun cz => mesh_chunk w (cx, 0, cz)) (chunk_steps w)) (chunk_steps w)
    (mkMesh (replicate 6 []) 0).

Fixpoint count_blocks (w : VoxelWorld) (columns : list (Z * Z)) (n : Z) : option Z :=
  match columns with
  | [] => Some n
  | (x, z) :: columns => h ← height w x z; n ← checked_add 32 n h; count_blocks w columns n
  end.

Definition columns (w : VoxelWorld) : list (Z * Z) :=
  flat_map (fun x => map (fun z => (x, z)) (seqZ 0 (side w))) (seqZ 0 (side w)).

(** The draws of the groups, which are concatenated. *)
Fixpoint compact (face : Z) (groups : list (list Z)) (bytes : list Z) (draws : list WorldDrawCommand) :
    list Z * list WorldDrawCommand :=
  match groups with
  | [] => (bytes, draws)
  | [] :: groups => compact (face + 1) groups bytes draws
  | group :: groups =>
      compact (face + 1) groups (bytes ++ group)
        (draws ++ [mkWorldDrawCommand 6 (wrap 32 (zlen group / 80)) (face * 6) (wrap 32 (zlen bytes / 80))])
  end.

(** [i32::pow(2)], as a count. *)
Definition chunk_square (w : VoxelWorld) : option Z :=
  n ← i32_add (side w) 15;
  let n := n / 16 in if n * n <? 2 ^ 31 then Some (n * n) else None.

Definition scene_key (w : VoxelWorld) : SceneKey := (vw_blocks w, vw_seed w, vw_region w).

Definition build_frame (sc : VoxelScene) (w : VoxelWorld) : option (VoxelScene * result string VoxelFrame) :=
  '(sc, r) ←
    (if bool_decide (vs_key sc = Some (scene_key w)) then
       Some (mkVoxelScene (vs_key sc) (vs_revision sc) (option_map vf_idle (vs_frame sc)), Ok tt)
     else
       blocks ← count_blocks w (columns w) 0;
       r ← mesh_all w;
       match r with
       | Err e => Some (sc, Err e)
       | Ok mesh =>
           if LIMIT <? zlen (concat (ms_groups mesh)) then Some (sc, Err "voxel mesh exceeds 4 MiB upload budget"%string)
           else
             let '(bytes, draws) := compact 0 (ms_groups mesh) [] [] in
             n ← chunk_square w;
             let revision := wrapping_add 64 (vs_revision sc) 1 in
             Some (mkVoxelScene (Some (scene_key w)) revision
                     (Some (mkVoxelFrame bytes draws blocks (zlen draws) (ms_exposed mesh) revision n 0 n)), Ok tt)
       end);
  match r with
  | Err e => Some (sc, Err e)
  | Ok _ => f ← vs_frame sc; Some (sc, Ok f)
  end.

Definition with_region (w : VoxelWorld) (r : Z * Z) : VoxelWorld :=
  mkVoxelWorld (vw_blocks w) (vw_seed w) (vw_player w) (vw_stream_radius w) (Some r).

(** [i32] multiplication panics on overflow. *)
Definition chunk_origin (c : Z) : option Z := if (- 2 ^ 31 <=? c * 16) && (c * 16 <? 2 ^ 31) then Some (c * 16) else None.

Definition build_chunk (w : VoxelWorld) (coordinate : Z * Z) : option (result string VoxelFrame) :=
  x ← chunk_origin coordinate.1;
  z ← chunk_origin coordinate.2;
  '(sc, r) ← build_frame voxel_scene_new (with_region w (x, z));
  match r with
  | Err e => Some (Err e)
  | Ok _ => f ← vs_frame sc; Some (Ok f)
  end.
End Mesher.

(** The constructor's defaults with a small world. *)
Definition small_world : VoxelWorld := voxel_world_new (Some 32) None.
Example small_side : side small_world = 2. Proof. vm_compute. reflexivity. Qed.
Example default_side : side (voxel_world_new None None) = 46. Proof. vm_compute. reflexivity. Qed.
Example small_height : height small_world 1 1 = Some 6. Proof. vm_compute. reflexivity. Qed.

(** ** Rectangles *)
Definition in_square (i j : Z) : Prop := 0 <= i < 16 /\ 0 <= j < 16.
Definition covers (i j : Z) (r : Rect) : bool :=
  (rt_i r <=? i) && (i <? rt_i r + rt_w r) && (rt_j r <=? j) && (j <? rt_j r + rt_h r).
Record rect_ok (r : Rect) : Prop := {
  ro_i : 0 <= rt_i r; ro_w : 1 <= rt_w r; ro_iw : rt_i r + rt_w r <= 16;
  ro_j : 0 <= rt_j r; ro_h : 1 <= rt_h r; ro_jh : rt_j r + rt_h r <= 16;
  ro_material : rt_material r <> 0
}.

Lemma covers_spec i j r : covers i j r = true <-> rt_i r <= i < rt_i r + rt_w r /\ rt_j r <= j < rt_j r + rt_h r.
Proof. unfold covers. rewrite !andb_true_iff, !Z.leb_le, !Z.ltb_lt. lia. Qed.

Lemma mask_in (mask : list Z) i j : zlen mask = 256 -> in_square i j -> is_Some (mask !z (j * 16 + i)).
Proof. intros H [? ?]. apply zget_is_Some. lia. Qed.

Lemma grow_width_spec mask i j m : zlen mask = 256 -> in_square i j -> forall fuel w, 1 <= w -> i + w <= 16 ->
  16 - (i + w) < Z.of_nat fuel -> (forall x, 0 <= x < w -> mask !z (j * 16 + i + x) = Some m) ->
  exists w', grow_width fuel mask i j m w = Some w' /\ 1 <= w' /\ i + w' <= 16 /\
  forall x, 0 <= x < w' -> mask !z (j * 16 + i + x) = Some m.
Proof.
  intros Hl Hij. induction fuel as [|fuel IH]; intros w Hw Hi Hf Hx; [lia|]. cbn [grow_width].
  destruct (Z.ltb_spec (i + w) 16); [|exists w; auto].
  destruct (mask_in mask (i + w) j Hl) as [y Hy]; [destruct Hij; split; lia|].
  replace (j * 16 + (i + w)) with (j * 16 + i + w) in Hy by lia. rewrite Hy. cbn [mbind option_bind].
  destruct (Z.eqb_spec y m) as [->|]; [|exists w; auto]. apply IH; [lia..|]. intros x Hx'.
  destruct (Z.eq_dec x w) as [->|]; [done|]. apply Hx. lia.
Qed.

Lemma row_all_spec mask k m xs : (forall x, x ∈ xs -> is_Some (mask !z (k + x))) ->
  exists b, row_all mask k m xs = Some b /\ (b = true -> forall x, x ∈ xs -> mask !z (k + x) = Some m).
Proof.
  induction xs as [|x xs IH]; intros H; cbn [row_all]; [exists true; split; [done|]; intros _ x Hx; by apply not_elem_of_nil in Hx|].
  destruct (H x ltac:(left)) as [v Hv]. rewrite Hv. cbn [mbind option_bind].
  destruct (Z.eqb_spec v m) as [->|]; [|by exists false]. destruct IH as (b & -> & Hb); [intros y Hy; apply H; by right|].
  exists b. split; [done|]. intros Hb' y [->|Hy]%elem_of_cons; [done|by apply Hb].
Qed.

Lemma grow_height_spec mask i j m w : zlen mask = 256 -> in_square i j -> 1 <= w -> i + w <= 16 ->
  forall fuel h, 1 <= h -> j + h <= 16 -> 16 - (j + h) < Z.of_nat fuel ->
  (forall x y, 0 <= x < w -> 0 <= y < h -> mask !z ((j + y) * 16 + i + x) = Some m) ->
  exists h', grow_height fuel mask i j m w h = Some h' /\ 1 <= h' /\ j + h' <= 16 /\
  forall x y, 0 <= x < w -> 0 <= y < h' -> mask !z ((j + y) * 16 + i + x) = Some m.
Proof.
  intros Hl Hij Hw Hi. induction fuel as [|fuel IH]; intros h Hh Hj Hf Hx; [lia|]. cbn [grow_height].
  destruct (Z.ltb_spec (j + h) 16); [|exists h; auto].
  destruct (row_all_spec mask ((j + h) * 16 + i) m (seqZ 0 w)) as (b & -> & Hb).
  { intros x [? ?]%elem_of_seqZ. destruct (mask_in mask (i + x) (j + h) Hl) as [y Hy]; [destruct Hij; split; lia|].
    exists y. rewrite <- Hy. f_equal. lia. }
  cbn [mbind option_bind]. destruct b; [|exists h; auto]. apply IH; [lia..|]. intros x y Hx' Hy'.
  destruct (Z.eq_dec y h) as [->|]; [|apply Hx; lia]. apply Hb; [done|]. apply elem_of_seqZ. lia.
Qed.

Lemma clear_cells_spec ks : forall mask, (forall k, k ∈ ks -> 0 <= k < zlen mask) ->
  exists mask', clear_cells mask ks = Some mask' /\ zlen mask' = zlen mask /\
  forall k, mask' !z k = if bool_decide (k ∈ ks) then (if bool_decide (0 <= k < zlen mask) then Some 0 else None) else mask !z k.
Proof.
  induction ks as [|k0 ks IH]; intros mask H; cbn [clear_cells].
  { exists mask. split; [done|]. split; [done|]. intros k. rewrite bool_decide_eq_false_2; [done|apply not_elem_of_nil]. }
  pose proof (H k0 ltac:(left)) as H0. unfold clear_cell.
  destruct (Z.leb_spec 0 k0), (Z.ltb_spec k0 (zlen mask)); try lia. cbn [andb mbind option_bind].
  destruct (IH (zset mask k0 0)) as (mask' & -> & Hl & Hk); [intros k Hk; rewrite zlen_zset; apply H; by right|].
  rewrite zlen_zset in *. exists mask'. split; [done|]. split; [done|]. intros k. rewrite Hk.
  destruct (decide (k ∈ ks)).
  { rewrite (bool_decide_eq_true_2 (k ∈ ks)), (bool_decide_eq_true_2 (k ∈ k0 :: ks)) by (try right; done). done. }
  rewrite (bool_decide_eq_false_2 (k ∈ ks)) by done. destruct (Z.eq_dec k k0) as [->|Hne].
  - rewrite bool_decide_eq_true_2 by left. rewrite bool_decide_eq_true_2 by lia. by apply zget_zset_eq.
  - rewrite bool_decide_eq_false_2 by (intros [?|?]%elem_of_cons; done). by apply zget_zset_ne.
Qed.

Lemma rect_cells_in r i j : rect_ok r -> in_square i j -> (j * 16 + i) ∈ rect_cells r <-> covers i j r = true.
Proof.
  intros [] [Hi Hj]. rewrite covers_spec. unfold rect_cells. rewrite list_elem_of_In, in_flat_map. split.
  - intros (y & Hy & (x & E & Hx)%in_map_iff). apply list_elem_of_In, elem_of_seqZ in Hy, Hx. lia.
  - intros Hc. exists (j - rt_j r). split; [apply list_elem_of_In, elem_of_seqZ; lia|]. apply in_map_iff.
    exists (i - rt_i r). split; [lia|]. apply list_elem_of_In, elem_of_seqZ. lia.
Qed.

Lemma rect_cells_range r k : rect_ok r -> k ∈ rect_cells r -> 0 <= k < 256.
Proof.
  intros []. unfold rect_cells. rewrite list_elem_of_In, in_flat_map. intros (y & Hy & (x & <- & Hx)%in_map_iff).
  apply list_elem_of_In, elem_of_seqZ in Hy, Hx. lia.
Qed.

(** The one rectangle on a cell. *)
Definition covered_once (i j m : Z) (rs : list Rect) : Prop := exists r, List.filter (covers i j) rs = [r] /\ rt_material r = m.

Record tiling_inv (mask0 mask : list Z) (rs : list Rect) : Prop := {
  ti_len : zlen mask = 256;
  ti_ok : Forall rect_ok rs;
  ti_cell i j : in_square i j -> exists m, mask0 !z (j * 16 + i) = Some m /\
    (mask !z (j * 16 + i) = Some m /\ List.filter (covers i j) rs = [] \/
     mask !z (j * 16 + i) = Some 0 /\ m <> 0 /\ covered_once i j m rs)
}.

(** Cutting one rectangle out. *)
Lemma tiling_step mask0 mask rs r mask' : tiling_inv mask0 mask rs -> rect_ok r ->
  (forall i j, covers i j r = true -> mask !z (j * 16 + i) = Some (rt_material r)) ->
  clear_cells mask (rect_cells r) = Some mask' ->
  tiling_inv mask0 mask' (rs ++ [r]) /\
  forall i j, in_square i j -> mask' !z (j * 16 + i) = if covers i j r then Some 0 else mask !z (j * 16 + i).
Proof.
  intros [Hl Ho Hc] Hr Hm E. destruct (clear_cells_spec (rect_cells r) mask) as (m' & E' & Hl' & Hk).
  { intros k Hk. rewrite Hl. by apply (rect_cells_range r). }
  rewrite E in E'. injection E' as <-.
  assert (Hget : forall i j, in_square i j -> mask' !z (j * 16 + i) = if covers i j r then Some 0 else mask !z (j * 16 + i)).
  { intros i j Hij. rewrite Hk. destruct (covers i j r) eqn:E1.
    - rewrite bool_decide_eq_true_2 by by apply rect_cells_in. rewrite bool_decide_eq_true_2; [done|]. destruct Hij. lia.
    - rewrite bool_decide_eq_false_2; [done|]. rewrite rect_cells_in by done. by rewrite E1. }
  split; [|done]. split; [lia|apply Forall_app; auto|]. intros i j Hij. destruct (Hc i j Hij) as (m & H0 & H). exists m.
  split; [done|]. rewrite (Hget i j Hij). unfold covered_once in *. rewrite List.filter_app. cbn [List.filter]. destruct (covers i j r) eqn:E1.
  - right. split; [done|]. pose proof (Hm _ _ E1) as Hmr. destruct H as [[H1 H2]|(H1 & _)].
    + rewrite H1 in Hmr. injection Hmr as ->. split; [apply Hr|]. exists r. by rewrite H2.
    + rewrite H1 in Hmr. injection Hmr as Hmr. by destruct (ro_material r Hr).
  - rewrite app_nil_r. exact H.
Qed.

Lemma grid16_in i j : (i, j) ∈ grid16 <-> in_square i j.
Proof.
  unfold grid16, in_square. rewrite list_elem_of_In, in_flat_map. split.
  - intros (y & Hy & (x & [= -> ->] & Hx)%in_map_iff). apply list_elem_of_In, elem_of_seqZ in Hy, Hx. lia.
  - intros [? ?]. exists j. split; [apply list_elem_of_In, elem_of_seqZ; lia|]. apply in_map_iff. exists i. split; [done|].
    apply list_elem_of_In, elem_of_seqZ. lia.
Qed.

Lemma grid16_at i j : in_square i j -> grid16 !z (j * 16 + i) = Some (i, j).
Proof.
  intros [Hi Hj]. assert (H : forallb (fun j => forallb (fun i => bool_decide (grid16 !z (j * 16 + i) = Some (i, j))) (seqZ 0 16)) (seqZ 0 16) = true)
    by (vm_compute; reflexivity).
  rewrite forallb_forall in H. specialize (H j). rewrite <- list_elem_of_In, elem_of_seqZ in H. specialize (H ltac:(lia)).
  rewrite forallb_forall in H. specialize (H i). rewrite <- list_elem_of_In, elem_of_seqZ in H. specialize (H ltac:(lia)).
  by apply bool_decide_eq_true in H.
Qed.

Lemma grid16_len : length grid16 = 256%nat. Proof. reflexivity. Qed.

Lemma rectangles_loop_spec mask0 cells : forall mask rs, tiling_inv mask0 mask rs -> (forall i j, (i, j) ∈ cells -> in_square i j) ->
  exists mask' rs', rectangles_loop cells mask rs = Some (mask', rs') /\ tiling_inv mask0 mask' rs' /\
  (forall i j, in_square i j -> mask !z (j * 16 + i) = Some 0 -> mask' !z (j * 16 + i) = Some 0) /\
  forall i j, (i, j) ∈ cells -> mask' !z (j * 16 + i) = Some 0.
Proof.
  induction cells as [|[i j] cells IH]; intros mask rs Hinv Hin; cbn [rectangles_loop].
  { exists mask, rs. split; [done|]. split; [done|]. split; [done|]. by intros i j ?%not_elem_of_nil. }
  pose proof (Hin i j ltac:(left)) as Hij. destruct (mask_in mask i j (ti_len _ _ _ Hinv) Hij) as [m Hm].
  rewrite Hm. cbn [mbind option_bind]. destruct (Z.eqb_spec m 0) as [->|Hm0].
  - destruct (IH mask rs Hinv) as (mask' & rs' & E & H1 & H2 & H3); [intros; apply Hin; by right|]. exists mask', rs'.
    split; [done|]. split; [done|]. split; [done|]. intros i' j' [[= -> ->]|H]%elem_of_cons; auto.
  - pose proof Hij as [Hi Hj].
    destruct (grow_width_spec mask i j m (ti_len _ _ _ Hinv) Hij 16 1) as (w & -> & Hw & Hiw & Hrow); [lia..| |].
    { intros x Hx. replace (j * 16 + i + x) with (j * 16 + i) by lia. done. }
    cbn [mbind option_bind].
    destruct (grow_height_spec mask i j m w (ti_len _ _ _ Hinv) Hij Hw Hiw 16 1) as (h & -> & Hh & Hjh & Hbox); [lia..| |].
    { intros x y Hx Hy. replace ((j + y) * 16 + i + x) with (j * 16 + i + x) by lia. by apply Hrow. }
    cbn [mbind option_bind]. set (r := mkRect i j w h m). assert (Hr : rect_ok r) by (split; cbn; lia || done).
    destruct (clear_cells_spec (rect_cells r) mask) as (mask1 & E1 & _).
    { intros k Hk. rewrite (ti_len _ _ _ Hinv). by apply (rect_cells_range r). }
    rewrite E1. cbn [mbind option_bind].
    destruct (tiling_step mask0 mask rs r mask1 Hinv Hr) as [Hinv1 Hget]; [|done|].
    { intros i' j' [Hx Hy]%covers_spec. cbn in Hx, Hy |- *. rewrite <- (Hbox (i' - i) (j' - j)) by lia. f_equal. lia. }
    destruct (IH mask1 _ Hinv1) as (mask' & rs' & E & H1 & H2 & H3); [intros; apply Hin; by right|]. exists mask', rs'.
    assert (H0 : forall i j, in_square i j -> mask !z (j * 16 + i) = Some 0 -> mask' !z (j * 16 + i) = Some 0).
    { intros i' j' Hij' Hz. apply H2; [done|]. rewrite (Hget i' j' Hij'). by case_match. }
    split; [done|]. split; [done|]. split; [done|]. intros i' j' [[= -> ->]|H]%elem_of_cons; [|by apply H3].
    apply H2; [done|]. rewrite (Hget i j Hij). replace (covers i j r) with true; [done|]. symmetry. apply covers_spec. cbn. lia.
Qed.

Definition rects (mask : list Z) : list Rect := match rectangles mask with Some (_, rs) => rs | None => [] end.

(** Greedy merging tiles the mask: each marked cell lies in exactly one
    rectangle, of its material, and no other cell in any. *)
Lemma rectangles_tile mask : zlen mask = 256 ->
  exists mask', rectangles mask = Some (mask', rects mask) /\ Forall rect_ok (rects mask) /\
  forall i j, in_square i j -> exists m, mask !z (j * 16 + i) = Some m /\
    (if m =? 0 then List.filter (covers i j) (rects mask) = [] else covered_once i j m (rects mask)).
Proof.
  intros Hl. destruct (rectangles_loop_spec mask grid16 mask []) as (mask' & rs & E & [_ Ho Hc] & _ & H0).
  - split; [done|constructor|]. intros i j Hij. destruct (mask_in mask i j Hl Hij) as [m Hm]. exists m. auto.
  - intros i j. apply grid16_in.
  - assert (rects mask = rs) as -> by (unfold rects, rectangles; by rewrite E). exists mask'. split; [done|]. split; [done|].
    intros i j Hij. destruct (Hc i j Hij) as (m & Hm & H). exists m. split; [done|].
    pose proof (H0 i j (proj2 (grid16_in i j) Hij)) as Hz. destruct H as [[H1 H2]|(_ & H1 & H2)].
    + rewrite Hz in H1. injection H1 as <-. done.
    + destruct (Z.eqb_spec m 0); done.
Qed.

Example solid_plane : rects (replicate 256 1) = [mkRect 0 0 16 16 1]. Proof. vm_compute. reflexivity. Qed.

(** ** The terrain, without the machine's limits *)
Record world_ok (w : VoxelWorld) : Prop := {
  wo_side : side w <= 16384;
  wo_region ox oz : vw_region w = Some (ox, oz) -> - 2 ^ 30 <= ox <= 2 ^ 30 /\ - 2 ^ 30 <= oz <= 2 ^ 30
}.

Definition height_at (w : VoxelWorld) (x z : Z) : Z :=
  let '(ox, oz) := match vw_region w with Some o => o | None => (0, 0) end in
  5 + Z.land (Z.lxor (Z.lxor (wrapping_mul 32 (wrap 32 ((x + ox) / 4)) 17) (wrapping_mul 32 (wrap 32 ((z + oz) / 4)) 31)) (vw_seed w)) 7.

Definition in_columns (w : VoxelWorld) (p : Vec3 Z) : Prop := 0 <= p.1.1 < side w /\ 0 <= p.2 < side w.

Definition material_at (w : VoxelWorld) (p : Vec3 Z) : Z :=
  let '(x, y, z) := p in
  if (y <? 0) || (match vw_region w with
                  | None => (x <? 0) || (z <? 0) || (side w <=? x) || (side w <=? z)
                  | Some _ => false
                  end) then 0
  else
    let h := height_at w x z in
    if h <=? y then 0 else if y =? h - 1 then 1 else if h - 3 <=? y then 2 else 3.

Definition shift3 (p : Vec3 Z) (axis d : Z) : Vec3 Z := set3 p axis (at3 p axis + d).
Definition neighbor (p : Vec3 Z) (face : Z) : Vec3 Z :=
  let '(axis, _, _, sign) := face_axes face in shift3 p axis sign.

(** The material of a face of a block if it is to be drawn, else 0. *)
Definition exposed_at (w : VoxelWorld) (p : Vec3 Z) (face : Z) : Z :=
  if material_at w (neighbor p face) =? 0 then material_at w p else 0.

Definition place_at (origin : Vec3 Z) (face slice i j : Z) : Vec3 Z :=
  let '(axis, u, v, _) := face_axes face in shift3 (shift3 (shift3 origin axis slice) u i) v j.

Lemma i32_add_ok a b : - 2 ^ 31 <= a + b < 2 ^ 31 -> i32_add a b = Some (a + b).
Proof. intros. unfold i32_add. destruct (Z.leb_spec (- 2 ^ 31) (a + b)), (Z.ltb_spec (a + b) (2 ^ 31)); done || lia. Qed.

Lemma add_axis_ok p axis d : - 2 ^ 31 <= at3 p axis + d < 2 ^ 31 -> add_axis p axis d = Some (shift3 p axis d).
Proof. intros H. unfold add_axis. by rewrite i32_add_ok. Qed.

Lemma side_pos w : 1 <= side w.
Proof. unfold side. destruct (vw_region w); lia. Qed.

Lemma height_ok w x z : world_ok w -> - 2 ^ 30 <= x < 2 ^ 30 -> - 2 ^ 30 <= z < 2 ^ 30 -> height w x z = Some (height_at w x z).
Proof.
  intros [_ Hr] Hx Hz. unfold height, height_at. destruct (vw_region w) as [[ox oz]|].
  - destruct (Hr ox oz eq_refl). rewrite !i32_add_ok by lia. done.
  - rewrite !i32_add_ok by lia. done.
Qed.

Lemma height_range w x z : 5 <= height_at w x z <= 12.
Proof.
  unfold height_at. destruct (vw_region w) as [[ox oz]|]; match goal with |- context [Z.land ?a 7] =>
    change 7 with (Z.ones 3); rewrite (Z.land_ones a 3) by lia; pose proof (Z.mod_pos_bound a (2 ^ 3) ltac:(lia)); lia end.
Qed.

Lemma material_ok w p : world_ok w -> - 2 ^ 30 <= p.1.1 < 2 ^ 30 -> - 2 ^ 30 <= p.2 < 2 ^ 30 -> material w p = Some (material_at w p).
Proof.
  destruct p as [[x y] z]. cbn. intros Hw Hx Hz. unfold material, material_at. case_match; [done|].
  rewrite height_ok by done. done.
Qed.

(** Blocks stand between the floor and the height of their column. *)
Lemma material_solid w x y z : material_at w (x, y, z) <> 0 <->
  0 <= y < height_at w x z /\ (vw_region w = None -> in_columns w (x, y, z)).
Proof.
  unfold material_at, in_columns. cbn. destruct (Z.ltb_spec y 0); cbn [orb]; [split; [done|lia]|].
  assert (E : forall b, b = (x <? 0) || (z <? 0) || (side w <=? x) || (side w <=? z) ->
    b = false <-> 0 <= x < side w /\ 0 <= z < side w).
  { intros b ->. rewrite !orb_false_iff, !Z.ltb_ge, !Z.leb_gt. lia. }
  destruct (vw_region w).
  - destruct (Z.leb_spec (height_at w x z) y); [split; [done|lia]|]. split; [split; [lia|done]|]. intros _.
    repeat case_match; lia.
  - specialize (E _ eq_refl). destruct ((x <? 0) || _ || _ || _); [split; [done|]; intros [_ H']; specialize (H' eq_refl); by apply E in H'|].
    destruct (Z.leb_spec (height_at w x z) y); [split; [done|lia]|]. split; [split; [lia|]; intros _; by apply E|]. intros _.
    repeat case_match; lia.
Qed.

Definition small3 (p : Vec3 Z) : Prop := (- 2 ^ 29 <= p.1.1 < 2 ^ 29) /\ (- 2 ^ 29 <= p.1.2 < 2 ^ 29) /\ (- 2 ^ 29 <= p.2 < 2 ^ 29).

Lemma mask_cell_ok w origin face slice i j : world_ok w -> small3 origin -> 0 <= slice < 16 -> in_square i j ->
  mask_cell w origin face slice (i, j) = Some (exposed_at w (place_at origin face slice i j) face).
Proof.
  intros Hw (Hx & Hy & Hz) Hs [Hi Hj]. destruct origin as [[x y] z]. cbn in Hx, Hy, Hz.
  unfold mask_cell, exposed_at, neighbor, place_at, face_axes.
  repeat match goal with |- context [face =? ?n] => destruct (face =? n) end;
    rewrite !add_axis_ok by (cbn; lia); cbn [mbind option_bind];
    rewrite !add_axis_ok by (cbn; lia); cbn [mbind option_bind];
    rewrite !add_axis_ok by (cbn; lia); cbn [mbind option_bind];
    rewrite material_ok by (done || cbn; lia); cbn [mbind option_bind];
    rewrite add_axis_ok by (cbn; lia); cbn [mbind option_bind];
    rewrite material_ok by (done || cbn; lia); cbn [mbind option_bind];
    (match goal with |- context [negb (?a =? 0)] => destruct (Z.eqb_spec a 0) as [->|] end); cbn [negb]; by destruct (material_at _ _ =? 0).
Qed.

(** ** Loops *)
Lemma for_each_inv {A S} (body : A -> S -> option (result string S)) (I : list A -> S -> Prop) (B : Prop) l :
  (forall done x rest s, l = done ++ x :: rest -> I done s ->
    exists r, body x s = Some r /\ match r with Ok s' => I (done ++ [x]) s' | Err _ => B end) ->
  forall s, I [] s -> exists r, for_each body l s = Some r /\ match r with Ok s' => I l s' | Err _ => B end.
Proof.
  intros Hbody. assert (H : forall rest pre s, l = pre ++ rest -> I pre s ->
    exists r, for_each body rest s = Some r /\ match r with Ok s' => I l s' | Err _ => B end).
  { induction rest as [|x rest IH]; intros pre s El Hs; cbn [for_each].
    { exists (Ok s). split; [done|]. by rewrite El, app_nil_r. }
    destruct (Hbody pre x rest s El Hs) as (r & -> & Hr). cbn [mbind option_bind]. destruct r as [s'|e]; [|by exists (Err e)].
    apply (IH (pre ++ [x])); [by rewrite <- app_assoc|done]. }
  intros s Hs. by apply (H l []).
Qed.

Lemma steps_spec w c : c ∈ chunk_steps w -> 0 <= c < side w /\ c mod 16 = 0.
Proof.
  unfold chunk_steps. rewrite list_elem_of_In, in_map_iff. intros (k & <- & Hk). apply list_elem_of_In, elem_of_seqZ in Hk.
  pose proof (Z.div_mod (side w + 15) 16). pose proof (Z.mod_pos_bound (side w + 15) 16). split; [lia|].
  rewrite Z.mul_comm. apply Z_mod_mult.
Qed.

Lemma steps_of w x : 0 <= x < side w -> 16 * (x / 16) ∈ chunk_steps w.
Proof.
  intros Hx. unfold chunk_steps. apply list_elem_of_In, in_map_iff. exists (x / 16). split; [done|].
  apply list_elem_of_In, elem_of_seqZ. pose proof (Z.div_mod (side w + 15) 16). pose proof (Z.mod_pos_bound (side w + 15) 16).
  pose proof (Z.div_mod x 16). pose proof (Z.mod_pos_bound x 16). lia.
Qed.

Lemma steps_nodup w : NoDup (chunk_steps w).
Proof. apply NoDup_fmap_2; [intros a b; lia|apply NoDup_seqZ]. Qed.

(** ** The mesh as a list of quads *)
Record Quad := mkQuad { qd_origin : Vec3 Z; qd_face : Z; qd_slice : Z; qd_rect : Rect }.

Definition face_mask (w : VoxelWorld) (origin : Vec3 Z) (face slice : Z) : list Z :=
  map (fun '(i, j) => exposed_at w (place_at origin face slice i j) face) grid16.
Definition slice_quads (w : VoxelWorld) (origin : Vec3 Z) (face slice : Z) : list Quad :=
  map (mkQuad origin face slice) (rects (face_mask w origin face slice)).
Definition chunk_quads (w : VoxelWorld) (origin : Vec3 Z) : list Quad :=
  face ← seqZ 0 6; slice ← seqZ 0 16; slice_quads w origin face slice.
Definition world_quads (w : VoxelWorld) : list Quad :=
  cx ← chunk_steps w; cz ← chunk_steps w; chunk_quads w (cx, 0, cz).

Definition marked (mask : list Z) : Z := zlen (List.filter (fun m => negb (m =? 0)) mask).
Definition sum (l : list Z) : Z := foldr Z.add 0 l.
Definition chunk_exposed (w : VoxelWorld) (origin : Vec3 Z) : Z :=
  sum (map (fun face => sum (map (fun slice => marked (face_mask w origin face slice)) (seqZ 0 16))) (seqZ 0 6)).
Definition world_exposed (w : VoxelWorld) : Z :=
  sum (map (fun cx => sum (map (fun cz => chunk_exposed w (cx, 0, cz)) (chunk_steps w))) (chunk_steps w)).

Lemma sum_app l k : sum (l ++ k) = sum l + sum k.
Proof. unfold sum. induction l as [|x l IH]; cbn; [done|]. rewrite IH. lia. Qed.

Lemma sum_bound l n : Forall (fun x => 0 <= x <= n) l -> 0 <= sum l <= zlen l * n.
Proof.
  unfold sum. induction 1 as [|x l Hx Hl IH]; cbn [foldr]; [zlen_nil_simp; lia|]. rewrite zlen_cons, Z.mul_add_distr_r. lia.
Qed.

Lemma sum_map_bound {A} (f : A -> Z) l n : (forall x, 0 <= f x <= n) -> 0 <= sum (map f l) <= zlen l * n.
Proof.
  intros H. pose proof (sum_bound (map f l) n) as Hb. unfold zlen in *. rewrite length_map in Hb. apply Hb.
  apply Forall_fmap, list.Forall_forall. intros x _. apply H.
Qed.

Lemma sum_pos l : Forall (fun x => 0 <= x) l -> 0 <= sum l.
Proof. unfold sum. induction 1; cbn [foldr]; lia. Qed.

Lemma sum_pre {A} (f : A -> Z) pre x rest : (forall y, 0 <= f y) -> sum (map f pre) + f x <= sum (map f (pre ++ x :: rest)).
Proof.
  intros H. rewrite map_app, sum_app. cbn. pose proof (sum_bound (map f rest) (sum (map f rest))) as Hb.
  assert (0 <= sum (map f rest)); [|unfold sum in *; lia]. clear Hb. unfold sum.
  induction rest as [|y rest IH]; cbn; [lia|]. specialize (H y). lia.
Qed.

Lemma marked_bound mask : 0 <= marked mask <= zlen mask.
Proof. unfold marked, zlen. induction mask as [|x l IH]; cbn; [lia|]. destruct (negb (x =? 0)); cbn; lia. Qed.

Section MeshSpec.
Context (hypot : f32 -> f32 -> f32) (w : VoxelWorld).

Definition quad_bytes (q : Quad) : list Z :=
  let '(p, s) := rect_placement w (qd_origin q) (qd_face q) (qd_slice q) (qd_rect q) in
  voxel_encode hypot p s (rt_material (qd_rect q)).
Definition face_group (qs : list Quad) (face : Z) : list Z := flat_map quad_bytes (List.filter (fun q => qd_face q =? face) qs).

Record mesh_of (qs : list Quad) (n : Z) (mesh : Mesh) : Prop := {
  mo_groups : ms_groups mesh = map (face_group qs) (seqZ 0 6);
  mo_exposed : ms_exposed mesh = n
}.

(** A step that appends quads [qs] and counts [n] squares, or finds the mesh
    too large. *)
Definition appends (step : Mesh -> option (result string Mesh)) (qs : list Quad) (n : Z) : Prop :=
  forall qs0 n0 mesh, mesh_of qs0 n0 mesh -> n0 + n <= umax 64 ->
    exists r, step mesh = Some r /\
    match r with Ok mesh' => mesh_of (qs0 ++ qs) (n0 + n) mesh' | Err _ => LIMIT < 80 * zlen (qs0 ++ qs) end.

Lemma quad_bytes_len q : zlen (quad_bytes q) = 80.
Proof.
  unfold quad_bytes. destruct (rect_placement _ _ _ _ _) as [[[p0 p1] p2] [[s0 s1] s2]]. unfold voxel_encode, zlen.
  rewrite length_app. cbn [flat_map]. rewrite !length_app, !length_to_le. done.
Qed.

Lemma face_group_len qs face : zlen (face_group qs face) = 80 * zlen (List.filter (fun q => qd_face q =? face) qs).
Proof.
  unfold face_group. induction (List.filter _ qs) as [|q l IH]; [done|]. cbn [flat_map]. rewrite zlen_app, quad_bytes_len, IH. zsimp. lia.
Qed.

Lemma filter_len {A} (f : A -> bool) l : zlen (List.filter f l) <= zlen l.
Proof. unfold zlen. pose proof (List.filter_length_le f l). lia. Qed.

Lemma appends_each {A} (body : A -> Mesh -> option (result string Mesh)) (qs : A -> list Quad) (n : A -> Z) l :
  (forall x, 0 <= n x) -> (forall x, x ∈ l -> appends (body x) (qs x) (n x)) ->
  appends (for_each body l) (l ≫= qs) (sum (map n l)).
Proof.
  intros Hn Hb qs0 n0 mesh Hm Hlim.
  destruct (for_each_inv body (fun pre s => mesh_of (qs0 ++ (pre ≫= qs)) (n0 + sum (map n pre)) s) (LIMIT < 80 * zlen (qs0 ++ (l ≫= qs))) l)
    with (s := mesh) as (r & Hr & H); [|cbn; by rewrite app_nil_r, Z.add_0_r|by exists r].
  intros pre x rest s -> Hs. pose proof (sum_pre n pre x rest Hn).
  destruct (Hb x ltac:(apply elem_of_app; right; left) _ _ s Hs) as (r & -> & Hr); [lia|]. exists r. split; [done|]. destruct r.
  - rewrite bind_app, map_app, sum_app. cbn [mbind list_bind map]. rewrite app_nil_r, !app_assoc, Z.add_assoc in *.
    change (sum [n x]) with (n x + 0). by rewrite Z.add_0_r.
  - rewrite bind_app in *. cbn [mbind list_bind] in *. rewrite !zlen_app in *. pose proof (zlen_nonneg (rest ≫= qs)). unfold mbind in *. lia.
Qed.

Lemma zset_map_face (f g : Z -> list Z) face : 0 <= face < 6 -> (forall a, a <> face -> f a = g a) ->
  zset (map f (seqZ 0 6)) face (g face) = map g (seqZ 0 6).
Proof.
  intros Hf Hfg. assert (Hc : face = 0 \/ face = 1 \/ face = 2 \/ face = 3 \/ face = 4 \/ face = 5) by lia.
  change (seqZ 0 6) with [0; 1; 2; 3; 4; 5]. cbn [map].
  destruct Hc as [->|[->|[->|[->|[->| ->]]]]]; try rewrite (Hfg 0) by lia; try rewrite (Hfg 1) by lia; try rewrite (Hfg 2) by lia;
    try rewrite (Hfg 3) by lia; try rewrite (Hfg 4) by lia; try rewrite (Hfg 5) by lia; reflexivity.
Qed.

Lemma add_rect_appends origin face slice r : 0 <= face < 6 ->
  appends (add_rect hypot w origin face slice r) [mkQuad origin face slice r] 0.
Proof.
  intros Hf qs0 n0 mesh [Hg He] _. unfold add_rect. rewrite Hg.
  assert (Hget : map (face_group qs0) (seqZ 0 6) !z face = Some (face_group qs0 face)).
  { rewrite zget_lookup, list_lookup_fmap, lookup_seqZ_lt by lia. cbn. do 2 f_equal. lia. }
  rewrite Hget. cbn [mbind option_bind].
  set (q := mkQuad origin face slice r).
  assert (Eq : face_group (qs0 ++ [q]) face = face_group qs0 face ++ quad_bytes q).
  { unfold face_group. rewrite List.filter_app. cbn [List.filter qd_face q]. rewrite Z.eqb_refl, flat_map_app. cbn [flat_map].
    by rewrite app_nil_r. }
  unfold quad_bytes in Eq. cbn [q qd_origin qd_face qd_slice qd_rect] in Eq.
  destruct (rect_placement w origin face slice r) as [p s]. rewrite <- Eq.
  destruct (Z.ltb_spec LIMIT (zlen (face_group (qs0 ++ [q]) face))) as [Hlt|_]; (eexists; split; [reflexivity|]).
  - rewrite face_group_len in Hlt. pose proof (filter_len (fun q => qd_face q =? face) (qs0 ++ [q])). cbv beta iota. lia.
  - split; cbn; [|by rewrite Z.add_0_r]. apply (zset_map_face (face_group qs0) (face_group (qs0 ++ [q]))); [done|].
    intros a Ha. unfold face_group. rewrite List.filter_app. cbn [List.filter qd_face q].
    destruct (Z.eqb_spec face a); [done|]. by rewrite app_nil_r.
Qed.

Lemma sum_zero {A} (l : list A) : sum (map (fun _ => 0) l) = 0.
Proof. unfold sum. induction l; cbn; done. Qed.

Lemma bind_singleton {A B} (f : A -> B) l : (l ≫= fun x => [f x]) = map f l.
Proof. induction l as [|x l IH]; [done|]. cbn in *. by rewrite IH. Qed.

Hypothesis (Hw : world_ok w).

Lemma mask_ok origin face slice : small3 origin -> 0 <= slice < 16 ->
  mapM (mask_cell w origin face slice) grid16 = Some (face_mask w origin face slice).
Proof.
  intros Ho Hs. apply mapM_Some. unfold face_mask. apply Forall2_fmap_r, Forall_Forall2_diag, list.Forall_forall.
  intros [i j] Hij. apply mask_cell_ok; [done..|]. by apply grid16_in.
Qed.

Lemma face_mask_len origin face slice : zlen (face_mask w origin face slice) = 256.
Proof. unfold face_mask, zlen. rewrite length_map, grid16_len. done. Qed.

Lemma mesh_slice_appends origin face slice : small3 origin -> 0 <= face < 6 -> 0 <= slice < 16 ->
  appends (mesh_slice hypot w origin face slice) (slice_quads w origin face slice) (marked (face_mask w origin face slice)).
Proof.
  intros Ho Hf Hs qs0 n0 mesh [Hg He] Hn. unfold mesh_slice. rewrite mask_ok by done. cbn [mbind option_bind].
  fold (marked (face_mask w origin face slice)). rewrite He, checked_add_ok by done. cbn [mbind option_bind].
  destruct (rectangles_tile _ (face_mask_len origin face slice)) as (mask' & -> & _). cbn [mbind option_bind].
  assert (Ha : appends (for_each (add_rect hypot w origin face slice) (rects (face_mask w origin face slice)))
    (slice_quads w origin face slice) 0).
  { unfold slice_quads. rewrite <- (bind_singleton (mkQuad origin face slice)), <- (sum_zero (rects (face_mask w origin face slice))).
    apply appends_each; [lia|]. intros r _. by apply add_rect_appends. }
  destruct (Ha qs0 (n0 + marked (face_mask w origin face slice)) (mkMesh (ms_groups mesh) (n0 + marked (face_mask w origin face slice))))
    as (r & Er & H); [by split|lia|]. exists r. split; [exact Er|]. by rewrite Z.add_0_r in H.
Qed.

Lemma chunk_exposed_pos origin : 0 <= chunk_exposed w origin <= 24576.
Proof.
  apply (sum_map_bound (fun face => sum (map (fun slice => marked (face_mask w origin face slice)) (seqZ 0 16))) (seqZ 0 6) 4096).
  intros face. apply (sum_map_bound (fun slice => marked (face_mask w origin face slice)) (seqZ 0 16) 256). intros slice.
  pose proof (marked_bound (face_mask w origin face slice)) as Hb. by rewrite face_mask_len in Hb.
Qed.

Lemma mesh_chunk_appends origin : small3 origin ->
  appends (mesh_chunk hypot w origin) (chunk_quads w origin) (chunk_exposed w origin).
Proof.
  intros Ho. unfold mesh_chunk, chunk_quads, chunk_exposed.
  assert (Hm : forall face slice, 0 <= marked (face_mask w origin face slice)) by (intros; apply marked_bound).
  apply (appends_each (fun face => for_each (mesh_slice hypot w origin face) (seqZ 0 16))
    (fun face => slice ← seqZ 0 16; slice_quads w origin face slice)
    (fun face => sum (map (fun slice => marked (face_mask w origin face slice)) (seqZ 0 16)))).
  { intros face. apply sum_pos, Forall_fmap, list.Forall_forall. intros slice _. apply Hm. }
  intros face Hf%elem_of_seqZ. apply (appends_each (mesh_slice hypot w origin face) (slice_quads w origin face)
    (fun slice => marked (face_mask w origin face slice))); [done|].
  intros slice Hs%elem_of_seqZ. apply mesh_slice_appends; [done|lia..].
Qed.

Lemma chunk_small cx cz : cx ∈ chunk_steps w -> cz ∈ chunk_steps w -> small3 (cx, 0, cz).
Proof.
  intros [Hx _]%steps_spec [Hz _]%steps_spec. pose proof (wo_side w Hw). unfold small3. cbn. lia.
Qed.

Lemma mesh_all_ok : exists r, mesh_all hypot w = Some r /\
  match r with Ok mesh => mesh_of (world_quads w) (world_exposed w) mesh | Err _ => LIMIT < 80 * zlen (world_quads w) end.
Proof.
  unfold mesh_all.
  assert (Hlen : zlen (chunk_steps w) <= 1025).
  { unfold chunk_steps, zlen. rewrite length_map, length_seqZ. pose proof (wo_side w Hw). pose proof (side_pos w).
    pose proof (Z.div_le_mono (side w + 15) 16400 16 ltac:(lia) ltac:(lia)). change (16400 / 16) with 1025 in *. lia. }
  pose proof (zlen_nonneg (chunk_steps w)) as Hlen0.
  assert (Hrow : forall cx, 0 <= sum (map (fun cz => chunk_exposed w (cx, 0, cz)) (chunk_steps w)) <= 1025 * 24576).
  { intros cx. pose proof (sum_map_bound (fun cz => chunk_exposed w (cx, 0, cz)) (chunk_steps w) 24576
      ltac:(intros; apply chunk_exposed_pos)). nia. }
  pose proof (sum_map_bound _ (chunk_steps w) _ Hrow) as Hall. fold (world_exposed w) in Hall.
  assert (Ha : appends (for_each (fun cx => for_each (fun cz => mesh_chunk hypot w (cx, 0, cz)) (chunk_steps w)) (chunk_steps w))
    (world_quads w) (world_exposed w)).
  { apply (appends_each (fun cx => for_each (fun cz => mesh_chunk hypot w (cx, 0, cz)) (chunk_steps w))
      (fun cx => cz ← chunk_steps w; chunk_quads w (cx, 0, cz)) (fun cx => sum (map (fun cz => chunk_exposed w (cx, 0, cz)) (chunk_steps w)))).
    { intros cx. apply Hrow. }
    intros cx Hcx. apply (appends_each (fun cz => mesh_chunk hypot w (cx, 0, cz)) (fun cz => chunk_quads w (cx, 0, cz))).
    { intros cz. apply chunk_exposed_pos. }
    intros cz Hcz. apply mesh_chunk_appends. by apply chunk_small. }
  destruct (Ha [] 0 (mkMesh (replicate 6 []) 0)) as (r & Hr & H); [by split|unfold umax; nia|]. exists r. split; [exact Hr|exact H].
Qed.
End MeshSpec.

(** ** What the quads cover *)
Definition quad_covers (p : Vec3 Z) (face : Z) (q : Quad) : bool :=
  let '(axis, u, v, _) := face_axes face in
  (qd_face q =? face) && (at3 p axis =? at3 (qd_origin q) axis + qd_slice q) &&
  covers (at3 p u - at3 (qd_origin q) u) (at3 p v - at3 (qd_origin q) v) (qd_rect q).

Lemma filter_map_quad P origin face slice rs :
  List.filter P (map (mkQuad origin face slice) rs) = map (mkQuad origin face slice) (List.filter (fun r => P (mkQuad origin face slice r)) rs).
Proof. induction rs as [|r rs IH]; cbn; [done|]. rewrite IH. by destruct (P _). Qed.

Lemma filter_none {A} (P : A -> bool) l : (forall x, x ∈ l -> P x = false) -> List.filter P l = [].
Proof. induction l as [|x l IH]; intros H; cbn; [done|]. rewrite (H x) by left. apply IH. intros y Hy. apply H. by right. Qed.

Lemma filter_bind_none {A B} (P : B -> bool) (g : A -> list B) l :
  (forall y, y ∈ l -> List.filter P (g y) = []) -> List.filter P (l ≫= g) = [].
Proof.
  induction l as [|x l IH]; intros H; [done|]. cbn [mbind list_bind]. rewrite List.filter_app, (H x) by left.
  apply IH. intros y Hy. apply H. by right.
Qed.

Lemma filter_bind_one {A B} (P : B -> bool) (g : A -> list B) l x : NoDup l -> x ∈ l ->
  (forall y, y ∈ l -> y <> x -> List.filter P (g y) = []) -> List.filter P (l ≫= g) = List.filter P (g x).
Proof.
  induction 1 as [|y l Hy Hn IH]; intros Hx H; [by apply not_elem_of_nil in Hx|]. cbn [mbind list_bind]. rewrite List.filter_app.
  apply elem_of_cons in Hx as [->|Hx].
  - rewrite (filter_bind_none P g l); [by rewrite app_nil_r|]. intros z Hz. apply H; [by right|]. by intros ->.
  - rewrite (H y) by (left || by intros ->). apply IH; [done|]. intros z Hz. apply H. by right.
Qed.

(** Whether a block's face is drawn as it should be. *)
Definition drawn_once (w : VoxelWorld) (qs : list Quad) (p : Vec3 Z) (face : Z) : Prop :=
  if exposed_at w p face =? 0 then List.filter (quad_covers p face) qs = []
  else exists q, List.filter (quad_covers p face) qs = [q] /\ rt_material (qd_rect q) = exposed_at w p face.

(** The place of [p] in the slices of a chunk for a face. *)
Definition local3 (origin p : Vec3 Z) (face : Z) : Z * Z * Z :=
  let '(axis, u, v, _) := face_axes face in
  (at3 p axis - at3 origin axis, at3 p u - at3 origin u, at3 p v - at3 origin v).

Lemma place_local origin p face : let '(s, i, j) := local3 origin p face in place_at origin face s i j = p.
Proof.
  destruct p as [[x y] z], origin as [[ox oy] oz]. unfold local3, place_at, face_axes.
  repeat match goal with |- context [face =? ?n] => destruct (face =? n) end; cbn; repeat f_equal; lia.
Qed.

Definition in_box (origin p : Vec3 Z) : Prop :=
  0 <= p.1.1 - origin.1.1 < 16 /\ 0 <= p.1.2 - origin.1.2 < 16 /\ 0 <= p.2 - origin.2 < 16.

Lemma local_in_box origin p face : let '(s, i, j) := local3 origin p face in in_box origin p <-> 0 <= s < 16 /\ in_square i j.
Proof.
  destruct p as [[x y] z], origin as [[ox oy] oz]. unfold local3, face_axes, in_box, in_square.
  repeat match goal with |- context [face =? ?n] => destruct (face =? n) end; cbn; lia.
Qed.

Lemma quad_covers_local p f origin face slice r : quad_covers p f (mkQuad origin face slice r) =
  (face =? f) && (let '(s, i, j) := local3 origin p f in (s =? slice) && covers i j r).
Proof.
  unfold quad_covers, local3. destruct (face_axes f) as [[[axis u] v] sign]. cbn [qd_face qd_origin qd_slice qd_rect].
  rewrite <- andb_assoc. do 2 f_equal. destruct (Z.eqb_spec (at3 p axis) (at3 origin axis + slice)), (Z.eqb_spec (at3 p axis - at3 origin axis) slice); lia || done.
Qed.

Lemma slice_covers w origin face slice p f :
  let '(s, i, j) := local3 origin p f in
  if bool_decide (face = f /\ s = slice /\ in_square i j) then drawn_once w (slice_quads w origin face slice) p f
  else List.filter (quad_covers p f) (slice_quads w origin face slice) = [].
Proof.
  pose proof (place_local origin p f) as Hp. destruct (local3 origin p f) as [[s i] j] eqn:El.
  destruct (rectangles_tile _ (face_mask_len w origin face slice)) as (_ & _ & Hok & Hc).
  unfold slice_quads. rewrite filter_map_quad.
  assert (Hq : forall r, quad_covers p f (mkQuad origin face slice r) = (face =? f) && ((s =? slice) && covers i j r)).
  { intros r. by rewrite quad_covers_local, El. }
  rewrite (List.filter_ext _ _ Hq). case_bool_decide as Hd.
  - destruct Hd as (-> & -> & Hij). unfold drawn_once. rewrite filter_map_quad, (List.filter_ext _ _ Hq), !Z.eqb_refl. cbn [andb].
    destruct (Hc i j Hij) as (m & Hm & H). unfold face_mask in Hm.
    assert (m = exposed_at w p f) as ->.
    { rewrite zget_lookup, list_lookup_fmap in Hm by (destruct Hij; lia). rewrite <- zget_lookup in Hm by (destruct Hij; lia).
      rewrite grid16_at in Hm by done. cbn in Hm. rewrite Hp in Hm. by injection Hm as <-. }
    change (List.filter (fun x => covers i j x)) with (List.filter (covers i j)).
    destruct (exposed_at w p f =? 0); [by rewrite H|]. destruct H as (r & -> & Hr). by exists (mkQuad origin f slice r).
  - rewrite filter_none; [done|]. intros r Hr. destruct (Z.eqb_spec face f); [|done]. destruct (Z.eqb_spec s slice); [|done]. cbn [andb].
    destruct (covers i j r) eqn:E; [|done]. apply covers_spec in E. rewrite list.Forall_forall in Hok. destruct (Hok r Hr).
    destruct Hd. split; [done|]. split; [done|]. split; lia.
Qed.

Lemma chunk_covers w origin p f : 0 <= f < 6 ->
  (in_box origin p -> drawn_once w (chunk_quads w origin) p f) /\
  (~ in_box origin p -> List.filter (quad_covers p f) (chunk_quads w origin) = []).
Proof.
  intros Hf. pose proof (local_in_box origin p f) as Hbox. pose proof (fun face slice => slice_covers w origin face slice p f) as Hs.
  destruct (local3 origin p f) as [[s i] j]. unfold chunk_quads.
  assert (Hnone : forall face, face <> f \/ ~ in_box origin p ->
    List.filter (quad_covers p f) (slice ← seqZ 0 16; slice_quads w origin face slice) = []).
  { intros face H. apply filter_bind_none. intros slice Hsl%elem_of_seqZ. specialize (Hs face slice).
    rewrite bool_decide_eq_false_2 in Hs; [done|]. intros (-> & -> & Hij). destruct H as [H|H]; [done|]. apply H, Hbox. split; [lia|done]. }
  split.
  - intros Hb. pose proof (proj1 Hbox Hb) as [Hsl Hij].
    assert (E : List.filter (quad_covers p f) (face ← seqZ 0 6; slice ← seqZ 0 16; slice_quads w origin face slice)
      = List.filter (quad_covers p f) (slice_quads w origin f s)).
    { rewrite (filter_bind_one _ _ _ f (NoDup_seqZ 0 6)).
      - apply filter_bind_one; [apply NoDup_seqZ|apply elem_of_seqZ; lia|]. intros slice _ Hne. specialize (Hs f slice).
        rewrite bool_decide_eq_false_2 in Hs; [done|]. intros (_ & -> & _). done.
      - apply elem_of_seqZ. lia.
      - intros face _ Hne. apply Hnone. by left. }
    unfold drawn_once. rewrite E. specialize (Hs f s). rewrite bool_decide_eq_true_2 in Hs by done. exact Hs.
  - intros Hb. apply filter_bind_none. intros face _. apply Hnone. by right.
Qed.

Lemma exposed_solid w p f : exposed_at w p f <> 0 -> material_at w p <> 0.
Proof. unfold exposed_at. by destruct (material_at w (neighbor p f) =? 0). Qed.

Lemma side_region w : vw_region w <> None -> side w = 16.
Proof. unfold side. by destruct (vw_region w). Qed.

Lemma box_of w cx cz p : cx ∈ chunk_steps w -> cz ∈ chunk_steps w -> in_box (cx, 0, cz) p ->
  cx = 16 * (p.1.1 / 16) /\ cz = 16 * (p.2 / 16).
Proof.
  intros [_ Hx]%steps_spec [_ Hz]%steps_spec (H1 & H2 & H3). cbn in H1, H2, H3.
  pose proof (Z.div_mod cx 16). pose proof (Z.div_mod cz 16).
  pose proof (Z.div_unique p.1.1 16 (cx / 16) (p.1.1 - cx)). pose proof (Z.div_unique p.2 16 (cz / 16) (p.2 - cz)). lia.
Qed.

(** A block in a chunk stands in the terrain's columns. *)
Lemma box_columns w cx cz p : cx ∈ chunk_steps w -> cz ∈ chunk_steps w -> in_box (cx, 0, cz) p ->
  material_at w p <> 0 -> in_columns w p.
Proof.
  destruct p as [[x y] z]. intros Hcx Hcz Hb [He Hreg]%material_solid. destruct (vw_region w) eqn:Er; [|by apply Hreg].
  assert (Hside : side w = 16) by (apply side_region; congruence). destruct (box_of w _ _ _ Hcx Hcz Hb) as (Ex & Ez).
  apply steps_spec in Hcx as [Hcx Hmx], Hcz as [Hcz Hmz]. destruct Hb as (H1 & _ & H3). cbn in H1, H3.
  split; cbn; rewrite Hside in *; pose proof (Z.div_mod cx 16); pose proof (Z.div_mod cz 16); lia.
Qed.

(** Every exposed face of the terrain is drawn by exactly one quad, of its
    block's material; no quad covers anything else. *)
Lemma world_covers w p f : world_ok w -> 0 <= f < 6 ->
  (in_columns w p -> drawn_once w (world_quads w) p f) /\
  (~ in_columns w p -> List.filter (quad_covers p f) (world_quads w) = []).
Proof.
  intros Hw Hf. destruct p as [[x y] z].
  assert (Hbox : forall cx cz, cx ∈ chunk_steps w -> cz ∈ chunk_steps w -> in_box (cx, 0, cz) (x, y, z) ->
    cx = 16 * (x / 16) /\ cz = 16 * (z / 16) /\ 0 <= y < 16).
  { intros cx cz Hcx Hcz Hb. destruct (box_of w _ _ _ Hcx Hcz Hb) as [-> ->]. destruct Hb as (_ & Hy & _). cbn in Hy |- *. lia. }
  assert (Hout : forall cx cz, cx ∈ chunk_steps w -> cz ∈ chunk_steps w -> ~ in_box (cx, 0, cz) (x, y, z) ->
    List.filter (quad_covers (x, y, z) f) (chunk_quads w (cx, 0, cz)) = []).
  { intros cx cz _ _ Hb. by apply chunk_covers. }
  split.
  - intros [Hx Hz]. cbn in Hx, Hz. destruct (decide (0 <= y < 16)) as [Hy|Hy].
    + assert (E : List.filter (quad_covers (x, y, z) f) (world_quads w) =
        List.filter (quad_covers (x, y, z) f) (chunk_quads w (16 * (x / 16), 0, 16 * (z / 16)))).
      { unfold world_quads. rewrite (filter_bind_one _ _ _ (16 * (x / 16)) (steps_nodup w) (steps_of w x Hx)).
        - apply (filter_bind_one _ (fun cz => chunk_quads w (16 * (x / 16), 0, cz)) _ (16 * (z / 16))); [apply steps_nodup|by apply steps_of|]. intros cz Hcz Hne.
          apply Hout; [by apply steps_of|done|]. intros (_ & ? & _)%Hbox; [done|by apply steps_of|done].
        - intros cx Hcx Hne. apply filter_bind_none. intros cz Hcz. apply Hout; [done..|]. by intros (? & _)%Hbox. }
      unfold drawn_once. rewrite E. apply chunk_covers; [done|]. unfold in_box. cbn.
      pose proof (Z.div_mod x 16). pose proof (Z.mod_pos_bound x 16). pose proof (Z.div_mod z 16). pose proof (Z.mod_pos_bound z 16). lia.
    + unfold drawn_once. destruct (Z.eqb_spec (exposed_at w (x, y, z) f) 0) as [_|H].
      * unfold world_quads. apply filter_bind_none. intros cx Hcx. apply filter_bind_none. intros cz Hcz. apply Hout; [done..|].
        by intros (_ & _ & ?)%Hbox.
      * apply exposed_solid, material_solid in H as [H _]. pose proof (height_range w x z). lia.
  - intros Hn. unfold world_quads. apply filter_bind_none. intros cx Hcx. apply filter_bind_none. intros cz Hcz.
    destruct (decide (in_box (cx, 0, cz) (x, y, z))) as [Hb|Hb]; [|by apply Hout].
    pose proof (proj1 (chunk_covers w (cx, 0, cz) (x, y, z) f Hf) Hb) as H. unfold drawn_once in H.
    destruct (Z.eqb_spec (exposed_at w (x, y, z) f) 0) as [_|He]; [done|]. exfalso.
    apply Hn, (box_columns w cx cz); [done..|]. by apply exposed_solid in He.
Qed.

(** ** Counting the exposed faces *)
Definition exposed_face (w : VoxelWorld) (pf : Vec3 Z * Z) : bool := negb (exposed_at w pf.1 pf.2 =? 0).

(** Every face of every block, column by column. *)
Definition block_faces (w : VoxelWorld) : list (Vec3 Z * Z) :=
  '(x, z) ← columns w; y ← seqZ 0 (height_at w x z); f ← seqZ 0 6; [((x, y, z), f)].
Definition exposed_count (w : VoxelWorld) : Z := zlen (List.filter (exposed_face w) (block_faces w)).

Definition slice_faces (w : VoxelWorld) (origin : Vec3 Z) (face slice : Z) : list (Vec3 Z * Z) :=
  List.filter (exposed_face w) (map (fun '(i, j) => (place_at origin face slice i j, face)) grid16).
Definition mesh_faces (w : VoxelWorld) : list (Vec3 Z * Z) :=
  cx ← chunk_steps w; cz ← chunk_steps w; face ← seqZ 0 6; slice ← seqZ 0 16; slice_faces w (cx, 0, cz) face slice.

Lemma zlen_bind {A B} (g : A -> list B) l : zlen (l ≫= g) = sum (map (fun x => zlen (g x)) l).
Proof. induction l as [|x l IH]; [done|]. cbn [mbind list_bind]. rewrite zlen_app. cbn [map]. unfold sum in *. cbn [foldr]. by rewrite <- IH. Qed.

Lemma slice_faces_len w origin face slice : zlen (slice_faces w origin face slice) = marked (face_mask w origin face slice).
Proof.
  unfold slice_faces, marked, face_mask. induction grid16 as [|[i j] l IH]; [done|]. cbn [map List.filter].
  unfold exposed_face at 1. cbn [fst snd]. destruct (negb _); [|exact IH]. rewrite !zlen_cons. by rewrite IH.
Qed.

Lemma mesh_faces_len w : zlen (mesh_faces w) = world_exposed w.
Proof.
  unfold mesh_faces, world_exposed, chunk_exposed. rewrite zlen_bind. f_equal. apply map_ext. intros cx.
  rewrite zlen_bind. f_equal. apply map_ext. intros cz. rewrite zlen_bind. f_equal. apply map_ext. intros face.
  rewrite zlen_bind. f_equal. apply map_ext. intros slice. apply slice_faces_len.
Qed.

Lemma elem_of_filter_bool {A} (P : A -> bool) l x : x ∈ List.filter P l <-> x ∈ l /\ P x = true.
Proof. by rewrite !list_elem_of_In, filter_In. Qed.

Lemma nodup_filter_bool {A} (P : A -> bool) l : NoDup l -> NoDup (List.filter P l).
Proof. rewrite !NoDup_ListNoDup. apply List.NoDup_filter. Qed.

Lemma slice_faces_in w origin face slice p f : (p, f) ∈ slice_faces w origin face slice <->
  f = face /\ (let '(s, i, j) := local3 origin p f in s = slice /\ in_square i j) /\ exposed_face w (p, f) = true.
Proof.
  unfold slice_faces. rewrite elem_of_filter_bool, list_elem_of_In, in_map_iff. pose proof (place_local origin p f) as Hp. split.
  - intros [([i j] & E & Hij%list_elem_of_In%grid16_in) He]. injection E as <- <-. split; [done|]. split; [|done]. clear Hp He.
    destruct origin as [[ox oy] oz]. unfold local3, place_at, face_axes in *.
    repeat match goal with |- context [face =? ?n] => destruct (face =? n) end; cbn in *; unfold in_square in *; lia.
  - intros (-> & H1 & H2). split; [|done]. destruct (local3 origin p face) as [[s i] j]. destruct H1 as [-> Hij]. exists (i, j).
    rewrite Hp. split; [done|]. by apply list_elem_of_In, grid16_in.
Qed.

Lemma chunk_faces_in w origin p f : (p, f) ∈ (face ← seqZ 0 6; slice ← seqZ 0 16; slice_faces w origin face slice) <->
  0 <= f < 6 /\ in_box origin p /\ exposed_face w (p, f) = true.
Proof.
  pose proof (local_in_box origin p f) as Hb. rewrite list_elem_of_bind. split.
  - intros (face & (slice & H & Hs%elem_of_seqZ)%list_elem_of_bind & Hf%elem_of_seqZ). apply slice_faces_in in H as (-> & H & He).
    split; [lia|]. split; [|done]. destruct (local3 origin p face) as [[s i] j]. destruct H as [-> Hij]. apply Hb. split; [lia|done].
  - intros (Hf & Hbox & He). destruct (local3 origin p f) as [[s i] j] eqn:El. destruct (proj1 Hb Hbox) as [Hs Hij].
    exists f. split; [|apply elem_of_seqZ; lia]. apply list_elem_of_bind. exists s. split; [|apply elem_of_seqZ; lia].
    apply slice_faces_in. rewrite El. done.
Qed.

Lemma exposed_face_spec w p f : exposed_face w (p, f) = true <-> exposed_at w p f <> 0.
Proof. unfold exposed_face. cbn. by rewrite negb_true_iff, Z.eqb_neq. Qed.

Lemma mesh_faces_in w p f : (p, f) ∈ mesh_faces w <-> 0 <= f < 6 /\ in_columns w p /\ exposed_face w (p, f) = true.
Proof.
  unfold mesh_faces. rewrite list_elem_of_bind. split.
  - intros (cx & (cz & (Hf & Hb & He)%chunk_faces_in & Hcz)%list_elem_of_bind & Hcx). split; [done|]. split; [|done].
    apply (box_columns w cx cz); [done..|]. by apply (exposed_solid w p f), exposed_face_spec.
  - intros (Hf & [Hx Hz] & He). exists (16 * (p.1.1 / 16)). split; [|by apply steps_of]. apply list_elem_of_bind.
    exists (16 * (p.2 / 16)). split; [|by apply steps_of]. apply chunk_faces_in. split; [done|]. split; [|done].
    apply exposed_face_spec, exposed_solid in He. destruct p as [[x y] z]. apply material_solid in He as [He _].
    pose proof (height_range w x z). unfold in_box. cbn in *.
    pose proof (Z.div_mod x 16). pose proof (Z.mod_pos_bound x 16). pose proof (Z.div_mod z 16). pose proof (Z.mod_pos_bound z 16). lia.
Qed.

Lemma block_faces_in w p f : (p, f) ∈ List.filter (exposed_face w) (block_faces w) <->
  0 <= f < 6 /\ in_columns w p /\ exposed_face w (p, f) = true.
Proof.
  rewrite elem_of_filter_bool. unfold block_faces, columns. rewrite list_elem_of_bind. split.
  - intros [([x z] & (y & (f' & [= -> ->]%list_elem_of_singleton & Hf%elem_of_seqZ)%list_elem_of_bind & Hy)%list_elem_of_bind & Hc) He].
    apply list_elem_of_In, in_flat_map in Hc as (x' & Hx & (z' & [= -> ->] & Hz)%in_map_iff). apply list_elem_of_In, elem_of_seqZ in Hx, Hz.
    split; [lia|]. split; [|done]. split; cbn; lia.
  - intros (Hf & [Hx Hz] & He). split; [|done]. pose proof He as Hs. apply exposed_face_spec, exposed_solid in Hs.
    destruct p as [[x y] z]. apply material_solid in Hs as [Hy _]. cbn in Hx, Hz. exists (x, z). split.
    + apply list_elem_of_bind. exists y. split; [|apply elem_of_seqZ; lia]. apply list_elem_of_bind. exists f.
      split; [by left|apply elem_of_seqZ; lia].
    + apply list_elem_of_In, in_flat_map. exists x. split; [apply list_elem_of_In, elem_of_seqZ; lia|]. apply in_map_iff.
      exists z. split; [done|apply list_elem_of_In, elem_of_seqZ; lia].
Qed.

Lemma nodup_bind_tag {A B} (tag : B -> A) (g : A -> list B) l :
  (forall x y, x ∈ l -> y ∈ g x -> tag y = x) -> (forall x, x ∈ l -> NoDup (g x)) -> NoDup l -> NoDup (l ≫= g).
Proof. intros Ht Hg Hl. apply NoDup_bind; [|done..]. intros x1 x2 y H1 H2 Hy1 Hy2. by rewrite <- (Ht x1 y), <- (Ht x2 y). Qed.

Lemma columns_bind w : columns w = (x ← seqZ 0 (side w); z ← seqZ 0 (side w); [(x, z)]).
Proof.
  unfold columns. assert (H : forall l k : list Z, flat_map (fun x => map (fun z => (x, z)) k) l = (x ← l; z ← k; [(x, z)])); [|apply H].
  intros l k. induction l as [|x l IH]; [done|]. cbn [flat_map mbind list_bind]. rewrite IH. by rewrite bind_singleton.
Qed.

Lemma block_faces_nodup w : NoDup (block_faces w).
Proof.
  unfold block_faces. apply (nodup_bind_tag (fun pf => (pf.1.1.1, pf.1.2))).
  - intros [x z] [p f] _ (y & (f' & [= -> ->]%list_elem_of_singleton & _)%list_elem_of_bind & _)%list_elem_of_bind. done.
  - intros [x z] _. apply (nodup_bind_tag (fun pf => pf.1.1.2)); [|intros y _|apply NoDup_seqZ].
    + intros y [p f] _ (f' & [= -> ->]%list_elem_of_singleton & _)%list_elem_of_bind. done.
    + apply (nodup_bind_tag snd); [|intros; apply NoDup_singleton|apply NoDup_seqZ].
      intros f' [p f] _ [= -> ->]%list_elem_of_singleton. done.
  - rewrite columns_bind. apply (nodup_bind_tag fst); [|intros x _|apply NoDup_seqZ].
    + intros x [x' z] _ (z' & [= -> ->]%list_elem_of_singleton & _)%list_elem_of_bind. done.
    + apply (nodup_bind_tag snd); [|intros; apply NoDup_singleton|apply NoDup_seqZ]. intros z [x' z'] _ [= -> ->]%list_elem_of_singleton. done.
Qed.

Lemma grid16_nodup : NoDup grid16.
Proof. by apply (bool_decide_unpack _); vm_compute. Qed.

Lemma mesh_faces_nodup w : NoDup (mesh_faces w).
Proof.
  unfold mesh_faces. apply (nodup_bind_tag (fun pf => 16 * (pf.1.1.1 / 16))); [| |apply steps_nodup].
  { intros cx [p f] Hcx (cz & (_ & Hb & _)%chunk_faces_in & Hcz)%list_elem_of_bind. by destruct (box_of w cx cz p Hcx Hcz Hb). }
  intros cx Hcx. apply (nodup_bind_tag (fun pf => 16 * (pf.1.2 / 16))); [| |apply steps_nodup].
  { intros cz [p f] Hcz (_ & Hb & _)%chunk_faces_in. by destruct (box_of w cx cz p Hcx Hcz Hb). }
  intros cz Hcz. apply (nodup_bind_tag snd); [| |apply NoDup_seqZ].
  { intros face [p f] _ (slice & H & _)%list_elem_of_bind. by apply slice_faces_in in H as (-> & _). }
  intros face _. apply (nodup_bind_tag (fun pf => (local3 (cx, 0, cz) pf.1 pf.2).1.1)); [| |apply NoDup_seqZ].
  { intros slice [p f] _ H%slice_faces_in. destruct H as (-> & H & _). cbn. destruct (local3 _ p face) as [[s i] j]. by destruct H as [-> _]. }
  intros slice _. apply nodup_filter_bool, NoDup_fmap_2_strong; [|apply grid16_nodup]. intros [i j] [i' j'] _ _ E. cbn in E.
  injection E. unfold place_at, face_axes. repeat match goal with |- context [face =? ?n] => destruct (face =? n) end; cbn; intros [=]; f_equal; lia.
Qed.

(** The mesher counts the exposed faces of all blocks. *)
Lemma world_exposed_count w : world_exposed w = exposed_count w.
Proof.
  rewrite <- mesh_faces_len. unfold exposed_count, zlen. f_equal. apply Permutation_length, NoDup_Permutation.
  - apply mesh_faces_nodup.
  - apply nodup_filter_bool, block_faces_nodup.
  - intros [p f]. by rewrite mesh_faces_in, block_faces_in.
Qed.

(** ** The frame *)
Definition draw_bytes (bytes : list Z) (d : WorldDrawCommand) : list Z :=
  take (Z.to_nat (80 * wd_instance_count d)) (drop (Z.to_nat (80 * wd_first_instance d)) bytes).

(** The groups that are not empty, with the first vertex of their face. *)
Fixpoint shown (face : Z) (groups : list (list Z)) : list (Z * list Z) :=
  match groups with
  | [] => []
  | [] :: groups => shown (face + 1) groups
  | group :: groups => (6 * face, group) :: shown (face + 1) groups
  end.

Lemma compact_spec all : zlen all / 80 < 2 ^ 32 -> forall groups face bytes draws bytes' draws',
  compact face groups bytes draws = (bytes', draws') -> all = bytes ++ concat groups -> zlen bytes mod 80 = 0 ->
  Forall (fun g => zlen g mod 80 = 0) groups -> 0 <= face -> face + zlen groups <= 6 ->
  bytes' = all /\ exists new, draws' = draws ++ new /\
  map (fun d => (wd_first_vertex d, draw_bytes all d)) new = shown face groups /\
  forallb (valid_draw (zlen all / 80)) new = true.
Proof.
  intros Hall. induction groups as [|group groups IH]; intros face bytes draws bytes' draws' E Ea Hb Hg H0 H6; cbn [compact shown concat] in *.
  { injection E as <- <-. rewrite app_nil_r in Ea. split; [done|]. exists []. by rewrite app_nil_r. }
  apply list.Forall_cons in Hg as [Hg Hgs]. rewrite zlen_cons in H6. destruct group as [|b group].
  { apply (IH (face + 1) _ _ _ _ E); [done..|lia|lia]. }
  set (g := b :: group) in *. rewrite app_assoc in Ea.
  assert (Hpos : 0 < zlen g) by (unfold g; zsimp; pose proof (zlen_nonneg group); lia).
  assert (Hlen : zlen all = zlen bytes + zlen g + zlen (concat groups)) by (rewrite Ea, !zlen_app; lia).
  pose proof (zlen_nonneg bytes). pose proof (zlen_nonneg (concat groups)). pose proof (zlen_nonneg groups).
  pose proof (Z.div_mod (zlen bytes) 80 ltac:(lia)) as Db. pose proof (Z.div_mod (zlen g) 80 ltac:(lia)) as Dg.
  pose proof (Z.div_mod (zlen all) 80 ltac:(lia)) as Da. pose proof (Z.mod_pos_bound (zlen all) 80 ltac:(lia)).
  destruct (IH (face + 1) _ _ _ _ E Ea) as (-> & new & -> & Hnew & Hv); [|done|lia|lia|].
  { rewrite zlen_app, Z.add_mod, Hb, Hg by lia. done. }
  split; [done|]. eexists (_ :: new). rewrite <- app_assoc. split; [reflexivity|]. cbn [map forallb]. rewrite Hnew, Hv.
  rewrite !wrap_small by (unfold is_u; lia). unfold draw_bytes at 1, valid_draw. cbn [wd_vertex_count wd_instance_count wd_first_vertex wd_first_instance].
  split.
  - do 2 f_equal; [lia|]. replace (80 * (zlen bytes / 80)) with (zlen bytes) by lia. replace (80 * (zlen g / 80)) with (zlen g) by lia.
    rewrite Ea, <- app_assoc. unfold zlen. rewrite !Nat2Z.id, drop_app_length, take_app_length. done.
  - rewrite !checked_add_ok by (unfold umax; lia). destruct (Z.eqb_spec (zlen g / 80) 0); [lia|]. cbn [negb andb].
    rewrite andb_true_r. apply andb_true_iff. split; apply Z.leb_le; lia.
Qed.

Lemma count_blocks_ok w cols : world_ok w -> (forall x z, (x, z) ∈ cols -> 0 <= x < 2 ^ 30 /\ 0 <= z < 2 ^ 30) ->
  forall n, n + 12 * zlen cols <= umax 32 -> count_blocks w cols n = Some (n + sum (map (fun '(x, z) => height_at w x z) cols)).
Proof.
  intros Hw. induction cols as [|[x z] cols IH]; intros Hc n Hn; cbn [count_blocks map]; [cbn; by rewrite Z.add_0_r|].
  destruct (Hc x z ltac:(left)). rewrite height_ok by (done || lia). cbn [mbind option_bind]. rewrite zlen_cons in Hn.
  pose proof (height_range w x z). pose proof (zlen_nonneg cols). rewrite checked_add_ok by lia. cbn [mbind option_bind].
  rewrite IH; [|intros; apply Hc; by right|lia]. unfold sum. cbn [foldr]. f_equal. lia.
Qed.

Definition terrain_blocks (w : VoxelWorld) : Z := sum (map (fun '(x, z) => height_at w x z) (columns w)).

Lemma terrain_blocks_ok w : world_ok w -> count_blocks w (columns w) 0 = Some (terrain_blocks w).
Proof.
  intros Hw. pose proof (wo_side w Hw). pose proof (side_pos w).
  assert (Hlen : zlen (columns w) = side w * side w).
  { rewrite columns_bind, zlen_bind. assert (H1 : forall x : Z, zlen (z ← seqZ 0 (side w); [(x, z)]) = side w).
    { intros x. rewrite bind_singleton. unfold zlen. rewrite length_map, length_seqZ. lia. }
    rewrite (map_ext _ _ H1). unfold sum. assert (H2 : forall l, foldr Z.add 0 (map (fun _ : Z => side w) l) = zlen l * side w).
    { induction l as [|a l IH]; [done|]. cbn [map foldr]. rewrite IH, zlen_cons. lia. }
    rewrite H2. unfold zlen. rewrite length_seqZ. lia. }
  rewrite count_blocks_ok; [done|done| |].
  - intros x z (x' & Hx & (z' & E & Hz)%in_map_iff)%list_elem_of_In%in_flat_map. injection E as -> ->.
    apply list_elem_of_In, elem_of_seqZ in Hx, Hz. lia.
  - rewrite Hlen. unfold umax. nia.
Qed.

Lemma world_quads_faces w : Forall (fun q => 0 <= qd_face q < 6) (world_quads w).
Proof.
  apply list.Forall_forall. intros q (cx & (cz & (face & (slice & Hq & _)%list_elem_of_bind & Hf%elem_of_seqZ)%list_elem_of_bind & _)%list_elem_of_bind & _)%list_elem_of_bind.
  apply list_elem_of_In, in_map_iff in Hq as (r & <- & _). cbn. lia.
Qed.

Lemma groups_len hypot w qs : Forall (fun q => 0 <= qd_face q < 6) qs ->
  zlen (concat (map (face_group hypot w qs) (seqZ 0 6))) = 80 * zlen qs.
Proof.
  intros H. change (seqZ 0 6) with [0; 1; 2; 3; 4; 5]. cbn [map concat]. rewrite !zlen_app, !face_group_len. zlen_nil_simp.
  induction H as [|q qs Hq _ IH]; [done|]. cbn [List.filter].
  destruct (Z.eqb_spec (qd_face q) 0), (Z.eqb_spec (qd_face q) 1), (Z.eqb_spec (qd_face q) 2), (Z.eqb_spec (qd_face q) 3),
    (Z.eqb_spec (qd_face q) 4), (Z.eqb_spec (qd_face q) 5); try lia; rewrite !zlen_cons; lia.
Qed.

(** The ground's top is always in sight. *)
Lemma world_quads_nonempty w : world_ok w -> 0 < zlen (world_quads w).
Proof.
  intros Hw. pose proof (side_pos w). pose proof (height_range w 0 0) as Hh. set (p := (0, height_at w 0 0 - 1, 0) : Vec3 Z).
  assert (Hc : in_columns w p) by (split; cbn; lia). pose proof (proj1 (world_covers w p 4 Hw ltac:(lia)) Hc) as Hd.
  assert (Hp : material_at w p <> 0) by (apply material_solid; split; [lia|done]).
  assert (Hn : material_at w (neighbor p 4) = 0).
  { destruct (Z.eq_dec (material_at w (neighbor p 4)) 0) as [|Hn]; [done|]. apply material_solid in Hn as [Hn _]. cbn in Hn. lia. }
  unfold drawn_once, exposed_at in Hd. rewrite Hn in Hd. cbn [Z.eqb] in Hd. destruct (Z.eqb_spec (material_at w p) 0); [done|].
  destruct Hd as (q & Hq & _). destruct (world_quads w); [done|]. zsimp. pose proof (zlen_nonneg l). lia.
Qed.

(** The whole mesh of a world, as [build_frame] leaves it. *)
Record frame_of (hypot : f32 -> f32 -> f32) (w : VoxelWorld) (fr : VoxelFrame) : Prop := {
  fo_fits : 80 * zlen (world_quads w) <= LIMIT;
  fo_upload : vf_upload fr = concat (map (face_group hypot w (world_quads w)) (seqZ 0 6));
  fo_draws : map (fun d => (wd_first_vertex d, draw_bytes (vf_upload fr) d)) (vf_draws fr) =
    shown 0 (map (face_group hypot w (world_quads w)) (seqZ 0 6));
  fo_valid : forallb (valid_draw (zlen (world_quads w))) (vf_draws fr) = true;
  fo_exposed : vf_exposed_faces fr = exposed_count w;
  fo_blocks : vf_block_count fr = terrain_blocks w
}.

Lemma build_frame_ok hypot sc w : world_ok w -> vs_key sc <> Some (scene_key w) ->
  exists sc' r, build_frame hypot sc w = Some (sc', r) /\
  match r with
  | Err _ => sc' = sc /\ LIMIT < 80 * zlen (world_quads w)
  | Ok fr => frame_of hypot w fr /\ vs_frame sc' = Some fr /\ vs_key sc' = Some (scene_key w) /\
      vs_revision sc' = wrapping_add 64 (vs_revision sc) 1 /\ vf_revision fr = vs_revision sc'
  end.
Proof.
  intros Hw Hk. unfold build_frame. rewrite bool_decide_eq_false_2 by done. rewrite terrain_blocks_ok by done. cbn [mbind option_bind].
  destruct (mesh_all_ok hypot w Hw) as (r & -> & Hr). cbn [mbind option_bind]. destruct r as [mesh|e].
  2:{ eexists _, _. split; [reflexivity|]. done. }
  destruct Hr as [Hg He]. pose proof (groups_len hypot w _ (world_quads_faces w)) as Hlen. rewrite Hg.
  destruct (Z.ltb_spec LIMIT (zlen (concat (map (face_group hypot w (world_quads w)) (seqZ 0 6))))) as [Hlt|Hle].
  { eexists _, _. split; [reflexivity|]. split; [done|lia]. }
  set (groups := map (face_group hypot w (world_quads w)) (seqZ 0 6)) in *.
  destruct (compact 0 groups [] []) as [bytes draws] eqn:E.
  assert (Hmod : Forall (fun g => zlen g mod 80 = 0) groups).
  { apply Forall_fmap, list.Forall_forall. intros f _. cbn. rewrite face_group_len, Z.mul_comm. apply Z_mod_mult. }
  pose proof (Z.div_le_mono _ LIMIT 80 ltac:(lia) Hle) as H80. change (LIMIT / 80) with 52428 in H80.
  destruct (compact_spec (concat groups) ltac:(lia) groups 0 [] [] bytes draws E eq_refl eq_refl Hmod ltac:(lia) ltac:(reflexivity)) as (-> & new & Hd & Hs & Hv).
  cbn [app] in Hd. subst new.
  assert (Hn : exists n, chunk_square w = Some n).
  { unfold chunk_square. pose proof (wo_side w Hw). pose proof (side_pos w). rewrite i32_add_ok by lia. cbn [mbind option_bind].
    pose proof (Z.div_le_mono (side w + 15) 16400 16 ltac:(lia) ltac:(lia)). change (16400 / 16) with 1025 in *.
    pose proof (Z.div_pos (side w + 15) 16 ltac:(lia) ltac:(lia)).
    destruct (Z.ltb_spec ((side w + 15) / 16 * ((side w + 15) / 16)) (2 ^ 31)); [by eexists|nia]. }
  destruct Hn as [n ->]. cbn [mbind option_bind vs_frame]. eexists _, _. split; [reflexivity|]. split; [|done].
  rewrite Hlen in *. replace (80 * zlen (world_quads w) / 80) with (zlen (world_quads w)) in Hv
    by (rewrite Z.mul_comm, Z.div_mul; lia).
  constructor; cbn; try done. by rewrite He, world_exposed_count.
Qed.

(** The next frame of an unchanged world is the same one. *)
Lemma build_frame_cached hypot sc w fr : vs_key sc = Some (scene_key w) -> vs_frame sc = Some fr ->
  build_frame hypot sc w = Some (mkVoxelScene (vs_key sc) (vs_revision sc) (Some (vf_idle fr)), Ok (vf_idle fr)).
Proof. intros Hk Hf. unfold build_frame. rewrite bool_decide_eq_true_2 by done. cbn [mbind option_bind vs_frame]. by rewrite Hf. Qed.

(** C22: Whatever the terrain, the mesher's frame draws it exactly.  Building a
    frame for a world whose mesh is not cached returns without a panic.  Every
    face of a block that borders on air is covered by exactly one of the
    quads, which has the block's material, and a quad covers nothing else,
    although the quads are merged greedily and chunk by chunk.  The frame
    uploads the quads grouped by direction, each draw's range of instances
    being exactly one direction's group; it counts the blocks and the exposed
    faces of the whole terrain; the platform's check of world packets accepts
    it; and it is refused, the scene left as it was, exactly when the quads'
    records exceed 4 MiB.  Asked again for the same world, the scene answers
    with the same frame. *)
Theorem voxel_mesh_exact hypot sc w : world_ok w -> vs_key sc <> Some (scene_key w) ->
  (forall p f, 0 <= f < 6 -> (in_columns w p -> drawn_once w (world_quads w) p f) /\
    (~ in_columns w p -> List.filter (quad_covers p f) (world_quads w) = [])) /\
  exists sc' r, build_frame hypot sc w = Some (sc', r) /\
  match r with
  | Err _ => sc' = sc /\ LIMIT < 80 * zlen (world_quads w)
  | Ok fr => frame_of hypot w fr /\
      (forall capacity camera, LIMIT <= capacity -> forallb GpuUpload.is_finite camera = true ->
        valid_world_packet (vf_upload fr) capacity camera (vf_draws fr) = true) /\
      exists sc2, build_frame hypot sc' w = Some (sc2, Ok (vf_idle fr)) /\ vs_frame sc2 = Some (vf_idle fr)
  end.
Proof.
  intros Hw Hk. split; [intros p f Hf; by apply world_covers|].
  destruct (build_frame_ok hypot sc w Hw Hk) as (sc' & r & E & H). exists sc', r. split; [done|]. destruct r as [fr|e]; [|done].
  destruct H as (Hf & Hfr & Hkey & _). split; [done|]. split; [|by eexists; split; [by apply build_frame_cached|]].
  intros capacity camera Hcap Hcam. pose proof (world_quads_nonempty w Hw) as Hn.
  pose proof (groups_len hypot w _ (world_quads_faces w)) as Hlen. rewrite <- (fo_upload _ _ _ Hf) in Hlen. pose proof (fo_fits _ _ _ Hf).
  unfold valid_world_packet, GPU_INSTANCE_RECORD_SIZE. rewrite Hlen, Hcam.
  assert (Hdr : vf_draws fr <> []).
  { intros Hd. pose proof (fo_draws _ _ _ Hf) as Hs. rewrite Hd in Hs. cbn [map] in Hs.
    assert (Hnil : forall gs face, [] = shown face gs -> concat gs = []).
    { induction gs as [|[|b g] gs IH]; intros face E'; [done|by apply (IH (face + 1))|done]. }
    apply Hnil in Hs. rewrite (fo_upload _ _ _ Hf), Hs in Hlen. zlen_nil_simp. lia. }
  destruct (Z.eqb_spec (80 * zlen (world_quads w)) 0); [lia|]. destruct (Z.ltb_spec capacity (80 * zlen (world_quads w))); [lia|].
  replace ((80 * zlen (world_quads w)) mod 80) with 0 by (by rewrite Z.mul_comm, Z_mod_mult). cbn [negb orb Z.eqb].
  destruct (Z.eqb_spec (zlen (vf_draws fr)) 0) as [Hz|_].
  { destruct (vf_draws fr); [done|]. zsimp. pose proof (zlen_nonneg l). lia. }
  replace (80 * zlen (world_quads w) / 80) with (zlen (world_quads w)) by (rewrite Z.mul_comm, Z.div_mul; lia). apply Hf.
Qed.

(** A new scene and a small world. *)
Lemma voxel_mesh_exact_witness :
  world_ok small_world /\
  (forall p f, 0 <= f < 6 -> (in_columns small_world p -> drawn_once small_world (world_quads small_world) p f) /\
    (~ in_columns small_world p -> List.filter (quad_covers p f) (world_quads small_world) = [])) /\
  exists sc' r, build_frame (fun x _ => x) voxel_scene_new small_world = Some (sc', r) /\
  match r with
  | Err _ => sc' = voxel_scene_new /\ LIMIT < 80 * zlen (world_quads small_world)
  | Ok fr => frame_of (fun x _ => x) small_world fr /\
      (forall capacity camera, LIMIT <= capacity -> forallb GpuUpload.is_finite camera = true ->
        valid_world_packet (vf_upload fr) capacity camera (vf_draws fr) = true) /\
      exists sc2, build_frame (fun x _ => x) sc' small_world = Some (sc2, Ok (vf_idle fr)) /\ vs_frame sc2 = Some (vf_idle fr)
  end.
Proof.
  assert (Hw : world_ok small_world) by (split; [rewrite small_side; lia|discriminate]).
  split; [exact Hw|]. exact (voxel_mesh_exact (fun x _ => x) voxel_scene_new small_world Hw ltac:(discriminate)).
Defined.
