(* ===== verification/VoxelStream.v ===== *)
(** The moving parts of the voxel example: the player ([voxel_driver.rs]) and
    the streaming of chunks round it ([voxel_stream.rs]).

    The scene keeps the meshes of the chunks near the player, builds at most
    two a frame, the nearest first, and drops those left behind.  The theorems:
    a frame never panics and leaves exactly the chunks it should, each the
    exact mesh of its terrain; and a player at rest sees the whole window
    after as many frames as half its chunks.  A [BTreeMap] is its list of
    entries in key order. *)

From stdpp Require Import strings sorting.
From S2P Require Import Prelude Wire F32 GpuUpload Voxel.

Local Open Scope Z_scope.
Local Open Scope kit_scope.

(** ** The player *)
Record VoxelDriver := mkVoxelDriver { vd_world : VoxelWorld; vd_forward : f32; vd_strafe : f32 }.
Definition with_motion (w : VoxelWorld) (p v : Vec3 f32) : VoxelWorld := with_player w (mkPlayer p v).

Definition f32_dec (n d : Z) : f32 := fdiv (f32_of_Z n) (f32_of_Z d).

(** Half the extent the player may move in. *)
Definition player_half (w : VoxelWorld) : f32 :=
  if vw_stream_radius w =? 0 then fmul (f32_of_Z (side w)) f32_half else f32_of_Z 65000.

Definition driver_tick (hypot : f32 -> f32 -> f32) (d : VoxelDriver) (seconds : f32) : option VoxelDriver :=
  let w := vd_world d in
  let '(p0, p1, p2) := pl_position (vw_player w) in
  let '(v0, v1, v2) := pl_velocity (vw_player w) in
  let speed := fdiv (f32_of_Z 8) (fmax (hypot (vd_forward d) (vd_strafe d)) f32_one) in
  let p0 := fadd p0 (fmul (fmul (vd_strafe d) speed) seconds) in
  let p2 := fadd p2 (fmul (fmul (vd_forward d) speed) seconds) in
  let v1 := fsub v1 (fmul (f32_of_Z 18) seconds) in
  let p1 := fadd p1 (fmul v1 seconds) in
  let half := player_half w in
  p0 ← fclamp p0 (SFopp half) (fsub half (f32_dec 1 100));
  p2 ← fclamp p2 (SFopp half) (fsub half (f32_dec 1 100));
  floor ← floor_at w p0 p2;
  let '(p1, v1) := if flt p1 floor then (floor, f32_zero) else (p1, v1) in
  Some (mkVoxelDriver (with_motion w (p0, p1, p2) (v0, v1, v2)) (vd_forward d) (vd_strafe d)).

Definition jump (d : VoxelDriver) : option VoxelDriver :=
  let w := vd_world d in
  let '(p0, p1, p2) := pl_position (vw_player w) in
  let '(v0, v1, v2) := pl_velocity (vw_player w) in
  floor ← floor_at w p0 p2;
  Some (if fle p1 (fadd floor (f32_dec 1 100))
        then mkVoxelDriver (with_motion w (p0, p1, p2) (v0, f32_of_Z 7, v2)) (vd_forward d) (vd_strafe d)
        else d).

Lemma as_int_range lo hi x : lo <= 0 <= hi -> lo <= f32_floor_as_int lo hi x <= hi.
Proof. intros H. unfold f32_floor_as_int, f32_as_int. destruct x as [s|s| |s m e]; try destruct s; lia. Qed.

Lemma floor_at_total w x z : vw_region w = None -> is_Some (floor_at w x z).
Proof.
  intros Hr. unfold floor_at, height. rewrite Hr.
  assert (H : forall y, exists k, i32_add (f32_floor_as_int (- 2 ^ 31) (2 ^ 31 - 1) y) 0 = Some k).
  { intros y. pose proof (as_int_range (- 2 ^ 31) (2 ^ 31 - 1) y ltac:(lia)). rewrite i32_add_ok by lia. by eexists. }
  match goal with |- context [i32_add (f32_floor_as_int _ _ ?y) 0] => destruct (H y) as [k1 ->] end. cbn [mbind option_bind].
  match goal with |- context [i32_add (f32_floor_as_int _ _ ?y) 0] => destruct (H y) as [k2 ->] end. cbn [mbind option_bind]. by eexists.
Qed.

(** The clamps' bounds are in order for every extent the program builds. *)
Lemma half_ordered w : side w <= 177 -> fle (SFopp (player_half w)) (fsub (player_half w) (f32_dec 1 100)) = true.
Proof.
  intros Hs. unfold player_half. destruct (vw_stream_radius w =? 0); [|vm_compute; reflexivity]. pose proof (side_pos w) as Hp.
  assert (H : forallb (fun s => let half := fmul (f32_of_Z s) f32_half in fle (SFopp half) (fsub half (f32_dec 1 100))) (seqZ 1 177) = true)
    by (vm_compute; reflexivity).
  rewrite forallb_forall in H. specialize (H (side w)). rewrite <- list_elem_of_In, elem_of_seqZ in H. apply H. lia.
Qed.

Definition between (lo hi x : f32) : Prop := is_nan x = false -> fle lo x = true /\ fle x hi = true.

Lemma clamp_between lo hi x : fle lo hi = true -> exists y, fclamp x lo hi = Some y /\ between lo hi y.
Proof.
  intros H. destruct (is_nan x) eqn:Hx.
  - destruct (fclamp_some x lo hi H) as [y E]. exists y. split; [done|]. intros Hy. unfold fclamp in E. rewrite H in E.
    destruct x; try done. cbn in E. assert (Eh : fgt S754_nan hi = false) by (unfold fgt; rewrite flt_key; cbn; by rewrite andb_false_r).
    rewrite Eh in E. by injection E as <-.
  - destruct (fclamp_total x lo hi H Hx) as (y & E & H1 & H2). by exists y.
Qed.

(** The player stays in the world: a tick never panics, whatever the inputs,
    keeps the position within the world's extent and never leaves the player
    below the ground there. *)
Theorem player_stays hypot d seconds : vw_region (vd_world d) = None -> side (vd_world d) <= 177 ->
  exists d' floor, driver_tick hypot d seconds = Some d' /\
  let '(x, y, z) := pl_position (vw_player (vd_world d')) in
  let half := player_half (vd_world d') in
  between (SFopp half) (fsub half (f32_dec 1 100)) x /\ between (SFopp half) (fsub half (f32_dec 1 100)) z /\
  floor_at (vd_world d') x z = Some floor /\ flt y floor = false.
Proof.
  intros Hr Hs. unfold driver_tick. destruct (pl_position (vw_player (vd_world d))) as [[p0 p1] p2].
  destruct (pl_velocity (vw_player (vd_world d))) as [[v0 v1] v2]. pose proof (half_ordered _ Hs) as Ho.
  match goal with |- context [fclamp (fadd p0 ?a) _ _] => destruct (clamp_between _ _ (fadd p0 a) Ho) as (q0 & -> & H0) end. cbn [mbind option_bind].
  match goal with |- context [fclamp (fadd p2 ?a) _ _] => destruct (clamp_between _ _ (fadd p2 a) Ho) as (q2 & -> & H2) end. cbn [mbind option_bind].
  destruct (floor_at_total _ q0 q2 Hr) as [floor Hf]. rewrite Hf. cbn [mbind option_bind].
  match goal with |- context [flt ?a floor] => destruct (flt a floor) eqn:E end.
  - eexists _, floor. split; [reflexivity|]. cbn. split; [done|]. split; [done|]. split; [exact Hf|]. destruct (is_nan floor) eqn:En;
      [by rewrite flt_key, En|by rewrite flt_negb, fle_refl].
  - eexists _, floor. split; [reflexivity|]. cbn. split; [done|]. split; [done|]. split; [exact Hf|done].
Qed.

(** ** The resident chunks *)
Definition CHUNKS_PER_FRAME : Z := 2.
Definition Coord : Type := Z * Z.
Definition ChunkMap : Type := list (Coord * VoxelFrame).

(** The order of [[i32; 2]]. *)
Definition coord_lt (a b : Coord) : bool := (a.1 <? b.1) || (a.1 =? b.1) && (a.2 <? b.2).

Fixpoint map_insert (m : ChunkMap) (c : Coord) (f : VoxelFrame) : ChunkMap :=
  match m with
  | [] => [(c, f)]
  | (c', f') :: m =>
      if coord_lt c c' then (c, f) :: (c', f') :: m
      else if bool_decide (c = c') then (c, f) :: m
      else (c', f') :: map_insert m c f
  end.
Definition map_contains (m : ChunkMap) (c : Coord) : bool := existsb (fun e => bool_decide (e.1 = c)) m.

Record StreamScene := mkStreamScene {
  ss_finite : VoxelScene;
  ss_chunks : ChunkMap;
  ss_key : option (Z * Z);
  ss_frame : option VoxelFrame;
  ss_revision : Z
}.
Definition stream_scene_new : StreamScene := mkStreamScene voxel_scene_new [] None None 0.

(** Squares of distances of coordinates, which are below 2^13. *)
Definition chunk_key (center c : Coord) : Z * Coord := ((c.1 - center.1) ^ 2 + (c.2 - center.2) ^ 2, c).
Definition key_leb (center a b : Coord) : bool :=
  let ka := chunk_key center a in let kb := chunk_key center b in
  (ka.1 <? kb.1) || (ka.1 =? kb.1) && negb (coord_lt kb.2 ka.2).
Definition nearer (center a b : Coord) : Prop := key_leb center a b = true.
#[global] Instance nearer_dec center a b : Decision (nearer center a b).
Proof. unfold nearer. apply _. Defined.

Definition in_window (radius : Z) (center c : Coord) : bool :=
  (Z.abs (c.1 - center.1) <=? radius) && (Z.abs (c.2 - center.2) <=? radius).
Definition chunk_window (radius : Z) (center : Coord) : list Coord :=
  flat_map (fun x => map (fun z => (x, z)) (seqZ (center.2 - radius) (2 * radius + 1))) (seqZ (center.1 - radius) (2 * radius + 1)).
Definition missing (radius : Z) (center : Coord) (m : ChunkMap) : list Coord :=
  List.filter (fun c => negb (map_contains m c)) (chunk_window radius center).

Definition chunk_coord (v : f32) : option Z :=
  x ← fclamp v (f32_of_Z (-65000)) (f32_of_Z 65000);
  Some (f32_floor_as_int (- 2 ^ 31) (2 ^ 31 - 1) x / 16).

Definition chunk_bytes (m : ChunkMap) : Z := sum (map (fun e => zlen (vf_upload e.2)) m).

Section Stream.
Context (hypot : f32 -> f32 -> f32).

Fixpoint build_missing (w : VoxelWorld) (coords : list Coord) (m : ChunkMap) : option (ChunkMap * result string unit) :=
  match coords with
  | [] => Some (m, Ok tt)
  | c :: coords =>
      r ← build_chunk hypot w c;
      match r with
      | Err e => Some (m, Err e)
      | Ok mesh =>
          if saturating_sub LIMIT (chunk_bytes m) <? zlen (vf_upload mesh)
          then Some (m, Err "streaming residency exceeds 4 MiB budget"%string)
          else build_missing w coords (map_insert m c mesh)
      end
  end.

(** A slice of a chunk's records; out of range it panics. *)
Definition draw_slice (f : VoxelFrame) (d : WorldDrawCommand) : option (list Z) :=
  let start := wd_first_instance d * 80 in
  let end_ := start + wd_instance_count d * 80 in
  if end_ <=? zlen (vf_upload f) then Some (take (Z.to_nat (wd_instance_count d * 80)) (drop (Z.to_nat start) (vf_upload f))) else None.

(** The records of one direction, over all chunks. *)
Fixpoint face_of_draws (face : Z) (f : VoxelFrame) (draws : list WorldDrawCommand) (bytes : list Z) : option (list Z) :=
  match draws with
  | [] => Some bytes
  | d :: draws =>
      if negb (wd_first_vertex d =? face * 6) then face_of_draws face f draws bytes
      else s ← draw_slice f d; face_of_draws face f draws (bytes ++ s)
  end.

Fixpoint face_of_chunks (face : Z) (fs : list VoxelFrame) (bytes : list Z) : option (list Z) :=
  match fs with
  | [] => Some bytes
  | f :: fs => bytes ← face_of_draws face f (vf_draws f) bytes; face_of_chunks face fs bytes
  end.

Fixpoint compact_chunks (faces : list Z) (fs : list VoxelFrame) (bytes : list Z) (draws : list WorldDrawCommand) :
    option (list Z * list WorldDrawCommand) :=
  match faces with
  | [] => Some (bytes, draws)
  | face :: faces =>
      let first := wrap 32 (zlen bytes / 80) in
      bytes ← face_of_chunks face fs bytes;
      let last := wrap 32 (zlen bytes / 80) in
      if last <? first then None
      else compact_chunks faces fs bytes (if last - first =? 0 then draws else draws ++ [mkWorldDrawCommand 6 (last - first) (face * 6) first])
  end.

Fixpoint checked_sum (width : Z) (l : list Z) (n : Z) : option Z :=
  match l with [] => Some n | x :: l => n ← checked_add width n x; checked_sum width l n end.

Definition stream_frame (m : ChunkMap) (revision pending built : Z) : option VoxelFrame :=
  '(bytes, draws) ← compact_chunks (seqZ 0 6) (map snd m) [] [];
  blocks ← checked_sum 32 (map (fun e => vf_block_count e.2) m) 0;
  faces ← checked_sum 64 (map (fun e => vf_exposed_faces e.2) m) 0;
  Some (mkVoxelFrame bytes draws blocks (zlen draws) faces revision (zlen m) pending built).

Definition stream_frame_near (sc : StreamScene) (w : VoxelWorld) (radius : Z) (center : Coord) :
    option (StreamScene * result string unit) :=
  let key := (vw_seed w, radius) in
  let changed := negb (bool_decide (ss_key sc = Some key)) in
  let chunks := if changed then [] else ss_chunks sc in
  let kept := List.filter (fun e => in_window radius center e.1) chunks in
  let changed := changed || negb (zlen chunks =? zlen kept) in
  let todo := merge_sort (nearer center) (missing radius center kept) in
  let built := Z.min (zlen todo) CHUNKS_PER_FRAME in
  '(chunks, r) ← build_missing w (take (Z.to_nat built) todo) kept;
  let sc := mkStreamScene (ss_finite sc) chunks (Some key) (ss_frame sc) (ss_revision sc) in
  match r with
  | Err e => Some (sc, Err e)
  | Ok _ =>
      let changed := changed || negb (built =? 0) in
      let pending := zlen todo - built in
      if changed || negb (match ss_frame sc with Some _ => true | None => false end) then
        if LIMIT <? chunk_bytes chunks then Some (sc, Err "streaming geometry exceeds 4 MiB upload budget"%string)
        else
          let revision := wrapping_add 64 (ss_revision sc) 1 in
          frame ← stream_frame chunks revision pending built;
          Some (mkStreamScene (ss_finite sc) chunks (Some key) (Some frame) revision, Ok tt)
      else Some (mkStreamScene (ss_finite sc) chunks (Some key) (option_map vf_idle (ss_frame sc)) (ss_revision sc), Ok tt)
  end.

Definition stream_build_frame (sc : StreamScene) (w : VoxelWorld) : option (StreamScene * result string VoxelFrame) :=
  let '(p0, p1, p2) := pl_position (vw_player w) in
  if vw_stream_radius w =? 0 then
    '(finite, r) ← build_frame hypot (ss_finite sc) w;
    Some (mkStreamScene finite (ss_chunks sc) (ss_key sc) (ss_frame sc) (ss_revision sc), r)
  else if negb (F32.is_finite p0 && F32.is_finite p1 && F32.is_finite p2) then Some (sc, Err "non-finite streaming position"%string)
  else
    x ← chunk_coord p0;
    z ← chunk_coord p2;
    '(sc, r) ← stream_frame_near sc w (Z.min (vw_stream_radius w) 4) (x, z);
    match r with
    | Err e => Some (sc, Err e)
    | Ok _ => f ← ss_frame sc; Some (sc, Ok f)
    end.
End Stream.

(** ** Coordinates *)
Lemma floor_bound lo hi x : valid_f32 x -> fle (f32_of_Z (- 65000)) x = true -> fle x (f32_of_Z 65000) = true ->
  lo <= - 65000 -> 65000 <= hi -> - 65000 <= f32_floor_as_int lo hi x <= 65000.
Proof.
  intros Hv H1 H2 Hlo Hhi. rewrite fle_key, !andb_true_iff in H1, H2. destruct H1 as [[_ Hn] H1], H2 as [_ H2].
  apply key_le_spec in H1, H2.
  assert (E1 : fkey (f32_of_Z (- 65000)) = (-1, 8, -16640000)) by reflexivity.
  assert (E2 : fkey (f32_of_Z 65000) = (1, -8, 16640000)) by reflexivity. rewrite E1 in H1. rewrite E2 in H2. clear E1 E2.
  unfold f32_floor_as_int, f32_as_int. destruct x as [s|s| |s m e]; [destruct s; lia|destruct s; cbn in H1, H2; lia|done|].
  - unfold valid_f32, valid_binary, bounded, canonical_mantissa in Hv. apply andb_true_iff in Hv as [Hc%Z.eqb_eq _].
    unfold fexp, emin in Hc. pose proof (pos_digits m) as Hd.
    assert (Hm : Z.pos m < 2 ^ 24).
    { eapply Z.lt_le_trans; [exact Hd|]. apply Z.pow_le_mono_r; lia. }
    assert (He : e <= -8) by (destruct s; cbn in H1, H2; lia). destruct (Z.ltb_spec e 0); [|lia].
    assert (Ha : - 65000 * 2 ^ (- e) <= (if s then Z.neg m else Z.pos m) <= 65000 * 2 ^ (- e)).
    { destruct (Z.eq_dec e (-8)) as [->|Hne]; [destruct s; cbn in H1, H2 |- *; lia|].
      pose proof (Z.pow_le_mono_r 2 9 (- e) ltac:(lia) ltac:(lia)). change (2 ^ 9) with 512 in *. destruct s; lia. }
    pose proof (Z.pow_pos_nonneg 2 (- e) ltac:(lia) ltac:(lia)).
    pose proof (Z.div_le_mono (-65000 * 2 ^ (- e)) (if s then Z.neg m else Z.pos m) (2 ^ (- e)) ltac:(lia) ltac:(lia)) as D1.
    pose proof (Z.div_le_mono (if s then Z.neg m else Z.pos m) (65000 * 2 ^ (- e)) (2 ^ (- e)) ltac:(lia) ltac:(lia)) as D2.
    rewrite Z.div_mul in D1, D2 by lia. lia.
Qed.

Lemma chunk_coord_ok v : F32.is_finite v = true -> valid_f32 v -> exists c, chunk_coord v = Some c /\ - 4063 <= c <= 4062.
Proof.
  intros Hf Hv. unfold chunk_coord.
  destruct (fclamp_total v (f32_of_Z (-65000)) (f32_of_Z 65000) eq_refl (finite_not_nan _ Hf)) as (y & E & H1 & H2).
  rewrite E. cbn [mbind option_bind]. eexists. split; [reflexivity|].
  assert (Hy : valid_f32 y).
  { unfold fclamp in E. destruct (fle _ _); [|done]. injection E as <-. repeat case_match; done. }
  pose proof (floor_bound (- 2 ^ 31) (2 ^ 31 - 1) y Hy H1 H2 ltac:(lia) ltac:(lia)) as Hb.
  pose proof (Z.div_le_mono _ 65000 16 ltac:(lia) (proj2 Hb)) as D1. pose proof (Z.div_le_mono (-65000) _ 16 ltac:(lia) (proj1 Hb)) as D2.
  change (65000 / 16) with 4062 in D1. change (-65000 / 16) with (-4063) in D2. lia.
Qed.

Lemma window_in radius center c : c ∈ chunk_window radius center <-> in_window radius center c = true.
Proof.
  unfold chunk_window, in_window. destruct c as [x z], center as [cx cz]. cbn [fst snd]. rewrite list_elem_of_In, in_flat_map, andb_true_iff, !Z.leb_le. split.
  - intros (x' & Hx & (z' & E & Hz)%in_map_iff). injection E as -> ->. apply list_elem_of_In, elem_of_seqZ in Hx, Hz. lia.
  - intros [Hx Hz]. exists x. split; [apply list_elem_of_In, elem_of_seqZ; lia|]. apply in_map_iff. exists z. split; [done|].
    apply list_elem_of_In, elem_of_seqZ. lia.
Qed.

Lemma window_bind radius center : chunk_window radius center =
  (x ← seqZ (center.1 - radius) (2 * radius + 1); z ← seqZ (center.2 - radius) (2 * radius + 1); [(x, z)]).
Proof.
  unfold chunk_window. generalize (seqZ (center.1 - radius) (2 * radius + 1)) as l. induction l as [|x l IH]; [done|].
  cbn [flat_map mbind list_bind]. rewrite IH. by rewrite bind_singleton.
Qed.

Lemma window_nodup radius center : NoDup (chunk_window radius center).
Proof.
  rewrite window_bind. apply (nodup_bind_tag fst); [|intros x _|apply NoDup_seqZ].
  - intros x [x' z] _ (z' & [= -> ->]%list_elem_of_singleton & _)%list_elem_of_bind. done.
  - apply (nodup_bind_tag snd); [|intros; apply NoDup_singleton|apply NoDup_seqZ]. intros z [x' z'] _ [= -> ->]%list_elem_of_singleton. done.
Qed.

(** The number of chunks of a window. *)
Definition window_size (radius : Z) : Z := (2 * radius + 1) ^ 2.

Lemma sum_const {A} (l : list A) n : sum (map (fun _ => n) l) = zlen l * n.
Proof. induction l as [|x l IH]; [done|]. rewrite zlen_cons. unfold sum in *. cbn [map foldr]. lia. Qed.

Lemma window_len radius center : 0 <= radius -> zlen (chunk_window radius center) = window_size radius.
Proof.
  intros Hr. rewrite window_bind, zlen_bind. unfold window_size.
  assert (H : forall x : Z, zlen (z ← seqZ (center.2 - radius) (2 * radius + 1); [(x, z)]) = 2 * radius + 1).
  { intros x. rewrite bind_singleton. unfold zlen. rewrite length_map, length_seqZ. lia. }
  rewrite (map_ext _ _ H), sum_const. unfold zlen. rewrite length_seqZ. lia.
Qed.

(** ** The map of chunks *)
Definition keys (m : ChunkMap) : list Coord := map fst m.

Lemma contains_spec m c : map_contains m c = true <-> c ∈ keys m.
Proof.
  unfold map_contains, keys. rewrite existsb_exists, list_elem_of_In, in_map_iff. split.
  - intros (e & He & <-%bool_decide_eq_true). by exists e.
  - intros (e & <- & He). exists e. by rewrite bool_decide_eq_true.
Qed.

Lemma coord_lt_spec a b : coord_lt a b = true <-> a.1 < b.1 \/ a.1 = b.1 /\ a.2 < b.2.
Proof. unfold coord_lt. rewrite orb_true_iff, andb_true_iff, !Z.ltb_lt, Z.eqb_eq. done. Qed.

Definition coord_below (a b : Coord) : Prop := coord_lt a b = true.

Lemma insert_perm m c f : c ∉ keys m -> map_insert m c f ≡ₚ (c, f) :: m.
Proof.
  induction m as [|[c' f'] m IH]; intros H; cbn [map_insert]; [done|]. destruct (coord_lt c c'); [done|].
  cbn in H. apply not_elem_of_cons in H as [Hne H]. rewrite bool_decide_eq_false_2 by done. rewrite IH by done. by rewrite Permutation_swap.
Qed.

Lemma insert_sorted m c f : StronglySorted coord_below (keys m) -> c ∉ keys m -> StronglySorted coord_below (keys (map_insert m c f)).
Proof.
  induction m as [|[c' f'] m IH]; intros Hs H; cbn [map_insert keys map fst] in *; [by repeat constructor|].
  apply StronglySorted_inv in Hs as [Hs Hall]. apply not_elem_of_cons in H as [Hne H]. destruct (coord_lt c c') eqn:E.
  - cbn. constructor; [by constructor|]. constructor; [done|]. rewrite list.Forall_forall in Hall |- *. intros b Hb%Hall.
    unfold coord_below in *. rewrite coord_lt_spec in *. lia.
  - rewrite bool_decide_eq_false_2 by done. cbn. constructor; [by apply IH|]. apply list.Forall_forall. intros b Hb.
    unfold keys in Hb. rewrite (insert_perm m c f H) in Hb. cbn in Hb. apply elem_of_cons in Hb as [->|Hb].
    + unfold coord_below. rewrite coord_lt_spec. apply not_true_iff_false in E. rewrite coord_lt_spec in E.
      destruct c, c'; cbn in *. destruct (decide (z = z1 /\ z0 = z2)) as [[-> ->]|]; [done|lia].
    + rewrite list.Forall_forall in Hall. by apply Hall.
Qed.

Lemma sorted_nodup l : StronglySorted coord_below l -> NoDup l.
Proof.
  induction 1 as [|c l Hs IH Hall]; constructor; [|done]. intros Hc. rewrite list.Forall_forall in Hall. specialize (Hall c Hc).
  unfold coord_below in Hall. rewrite coord_lt_spec in Hall. lia.
Qed.

Lemma filter_keys P (m : ChunkMap) : keys (List.filter (fun e => P e.1) m) = List.filter P (keys m).
Proof. unfold keys. induction m as [|[c f] m IH]; [done|]. cbn. destruct (P c); cbn; by rewrite IH. Qed.

Lemma keys_sorted_filter P l : StronglySorted coord_below l -> StronglySorted coord_below (List.filter P l).
Proof.
  induction 1 as [|c l Hs IH Hall]; cbn; [constructor|]. destruct (P c); [|done]. constructor; [done|].
  apply list.Forall_forall. intros b [Hb _]%elem_of_filter_bool. rewrite list.Forall_forall in Hall. by apply Hall.
Qed.

Lemma chunk_bytes_perm m m' : m ≡ₚ m' -> chunk_bytes m = chunk_bytes m'.
Proof.
  intros H. unfold chunk_bytes. assert (Hp : map (fun e : Coord * VoxelFrame => zlen (vf_upload e.2)) m ≡ₚ map (fun e => zlen (vf_upload e.2)) m')
    by by apply Permutation_map. revert Hp. generalize (map (fun e : Coord * VoxelFrame => zlen (vf_upload e.2)) m), (map (fun e : Coord * VoxelFrame => zlen (vf_upload e.2)) m').
  unfold sum. induction 1; cbn; lia.
Qed.

Lemma sort_perm center l : merge_sort (nearer center) l ≡ₚ l.
Proof. apply merge_sort_Permutation. Qed.

(** ** Chunks as meshes *)
Definition small_coord (c : Coord) : Prop := - 5000 <= c.1 <= 5000 /\ - 5000 <= c.2 <= 5000.
Definition chunk_world (w : VoxelWorld) (c : Coord) : VoxelWorld := with_region w (16 * c.1, 16 * c.2).

Lemma chunk_world_ok w c : small_coord c -> world_ok (chunk_world w c).
Proof. intros [? ?]. split; [cbn; lia|]. intros ox oz [= <- <-]. lia. Qed.

Section StreamSpec.
Context (hypot : f32 -> f32 -> f32).

(** The frame is the exact mesh of the chunk's terrain. *)
Definition chunk_mesh (seed : Z) (c : Coord) (f : VoxelFrame) : Prop :=
  exists w, vw_seed w = seed /\ small_coord c /\ frame_of hypot (chunk_world w c) f.

(** The bytes a chunk's mesh takes. *)
Definition mesh_size (w : VoxelWorld) (c : Coord) : Z := 80 * zlen (world_quads (chunk_world w c)).

Lemma frame_len w f : frame_of hypot w f -> zlen (vf_upload f) = 80 * zlen (world_quads w).
Proof. intros Hf. rewrite (fo_upload _ _ _ Hf). apply groups_len, world_quads_faces. Qed.

Lemma build_chunk_ok w c : small_coord c -> exists r, build_chunk hypot w c = Some r /\
  match r with
  | Ok f => chunk_mesh (vw_seed w) c f /\ zlen (vf_upload f) = mesh_size w c
  | Err _ => LIMIT < mesh_size w c
  end.
Proof.
  intros Hc. pose proof Hc as [H1 H2]. unfold build_chunk.
  assert (Ho : forall k, - 5000 <= k <= 5000 -> chunk_origin k = Some (16 * k)).
  { intros k Hk. unfold chunk_origin. destruct (Z.leb_spec (- 2 ^ 31) (k * 16)), (Z.ltb_spec (k * 16) (2 ^ 31)); try lia. cbn. f_equal. lia. }
  rewrite !Ho by done. cbn [mbind option_bind]. change (with_region w (16 * c.1, 16 * c.2)) with (chunk_world w c).
  destruct (build_frame_ok hypot voxel_scene_new (chunk_world w c) (chunk_world_ok w c Hc)) as (sc & r & -> & Hr); [done|].
  cbn [mbind option_bind]. destruct r as [f|e]; [|eexists; split; [reflexivity|]; by apply Hr].
  destruct Hr as (Hf & Hsc & _). rewrite Hsc. cbn [mbind option_bind]. eexists. split; [reflexivity|]. split; [by exists w|].
  by apply frame_len.
Qed.

Record chunks_ok (seed : Z) (m : ChunkMap) : Prop := {
  ck_sorted : StronglySorted coord_below (keys m);
  ck_mesh : Forall (fun e => chunk_mesh seed e.1 e.2) m;
  ck_bytes : chunk_bytes m <= LIMIT
}.

Lemma chunk_bytes_cons c f m : chunk_bytes ((c, f) :: m) = zlen (vf_upload f) + chunk_bytes m.
Proof. done. Qed.

Lemma chunks_insert seed m c f : chunks_ok seed m -> c ∉ keys m -> chunk_mesh seed c f ->
  zlen (vf_upload f) <= saturating_sub LIMIT (chunk_bytes m) -> chunks_ok seed (map_insert m c f).
Proof.
  intros [Hs Hm Hb] Hc Hf Hl. split.
  - by apply insert_sorted.
  - rewrite list.Forall_forall in Hm |- *. intros e He. rewrite (insert_perm m c f Hc) in He. apply elem_of_cons in He as [->|He]; auto.
  - rewrite (chunk_bytes_perm _ _ (insert_perm m c f Hc)), chunk_bytes_cons. unfold saturating_sub in Hl. lia.
Qed.

Lemma build_missing_ok w coords : Forall small_coord coords -> NoDup coords -> forall m, chunks_ok (vw_seed w) m ->
  (forall c, c ∈ coords -> c ∉ keys m) ->
  exists m' r, build_missing hypot w coords m = Some (m', r) /\ chunks_ok (vw_seed w) m' /\
  match r with
  | Ok _ => keys m' ≡ₚ coords ++ keys m
  | Err _ => exists done c rest, coords = done ++ c :: rest /\ keys m' ≡ₚ done ++ keys m /\ LIMIT < chunk_bytes m' + mesh_size w c
  end.
Proof.
  induction 1 as [|c coords Hc _ IH]; intros Hnd m Hm Hnew; cbn [build_missing].
  { exists m, (Ok tt). done. }
  pose proof (NoDup_cons_1_1 _ _ Hnd) as Hcn. apply NoDup_cons_1_2 in Hnd. destruct (build_chunk_ok w c Hc) as (r & -> & Hr). cbn [mbind option_bind].
  assert (Hpos : 0 <= chunk_bytes m).
  { apply sum_pos. apply Forall_fmap, list.Forall_forall. intros e _. apply zlen_nonneg. }
  destruct r as [f|e].
  2:{ exists m, (Err e). split; [done|]. split; [done|]. exists [], c, coords. split; [done|]. split; [done|lia]. }
  destruct Hr as [Hf Hl]. destruct (Z.ltb_spec (saturating_sub LIMIT (chunk_bytes m)) (zlen (vf_upload f))) as [Hlt|Hle].
  { eexists m, (Err _). split; [done|]. split; [done|]. exists [], c, coords. split; [done|]. split; [done|]. unfold saturating_sub in Hlt. lia. }
  assert (Hcm : c ∉ keys m) by (apply Hnew; left).
  pose proof (chunks_insert _ m c f Hm Hcm Hf Hle) as Hm'.
  assert (Hk : keys (map_insert m c f) ≡ₚ c :: keys m) by (unfold keys; rewrite (insert_perm m c f Hcm); done).
  destruct (IH Hnd _ Hm') as (m' & r & -> & Hok & H).
  { intros c' Hc'. rewrite Hk. apply not_elem_of_cons. split; [by intros ->|]. apply Hnew. by right. }
  exists m', r. split; [done|]. split; [done|]. destruct r as [u|e].
  - rewrite H, Hk. cbn. by rewrite Permutation_middle.
  - destruct H as (pre & c' & rest & -> & Hp & Hlim). exists (c :: pre), c', rest. split; [done|]. split; [|done].
    rewrite Hp, Hk. cbn. by rewrite Permutation_middle.
Qed.

(** ** Compaction *)
Definition group_bytes (face : Z) (f : VoxelFrame) : list Z :=
  concat (map (draw_bytes (vf_upload f)) (List.filter (fun d => wd_first_vertex d =? face * 6) (vf_draws f))).
Definition direction_bytes (m : ChunkMap) (face : Z) : list Z := concat (map (group_bytes face) (map snd m)).

Lemma face_of_draws_ok n face f draws : zlen (vf_upload f) = 80 * n -> forallb (valid_draw n) draws = true -> forall bytes,
  face_of_draws face f draws bytes =
  Some (bytes ++ concat (map (draw_bytes (vf_upload f)) (List.filter (fun d => wd_first_vertex d =? face * 6) draws))).
Proof.
  intros Hn. induction draws as [|d draws IH]; intros Hv bytes; cbn [face_of_draws List.filter]; [by rewrite app_nil_r|].
  cbn [forallb] in Hv. apply andb_true_iff in Hv as [Hd Hv]. destruct (wd_first_vertex d =? face * 6); cbn [negb]; [|by apply IH].
  unfold draw_slice. unfold valid_draw in Hd. rewrite !andb_true_iff in Hd. destruct Hd as [_ Hd].
  destruct (checked_add 32 (wd_first_instance d) (wd_instance_count d)) as [k|] eqn:E; [|done]. apply checked_add_Some in E as [-> _].
  apply Z.leb_le in Hd. destruct (Z.leb_spec (wd_first_instance d * 80 + wd_instance_count d * 80) (zlen (vf_upload f))); [|lia].
  cbn [mbind option_bind map concat]. rewrite IH by done. rewrite <- app_assoc. unfold draw_bytes at 2.
  by rewrite (Z.mul_comm 80 (wd_instance_count d)), (Z.mul_comm 80 (wd_first_instance d)).
Qed.

Lemma shown_filter face groups : forall f0, f0 <= face -> concat (map snd (List.filter (fun x => x.1 =? face * 6) (shown f0 groups))) =
  match groups !z (face - f0) with Some g => g | None => [] end.
Proof.
  assert (Hnone : forall groups f0, face < f0 -> List.filter (fun x : Z * list Z => x.1 =? face * 6) (shown f0 groups) = []).
  { clear groups. induction groups as [|[|b g] groups IH]; intros f0 H; cbn [shown List.filter fst]; [done|apply IH; lia|].
    destruct (Z.eqb_spec (6 * f0) (face * 6)); [lia|]. apply IH. lia. }
  induction groups as [|g groups IH]; intros f0 H0; [by destruct (face - f0)|].
  destruct (Z.eq_dec face f0) as [->|Hne].
  - rewrite Z.sub_diag. change ((g :: groups) !z 0) with (Some g). destruct g as [|b g]; cbn [shown List.filter fst].
    + by rewrite Hnone by lia.
    + rewrite (Z.mul_comm 6), Z.eqb_refl, Hnone by lia. cbn [map concat snd]. by rewrite app_nil_r.
  - assert (E : (g :: groups) !z (face - f0) = groups !z (face - (f0 + 1))).
    { rewrite !zget_lookup by lia. replace (Z.to_nat (face - f0)) with (S (Z.to_nat (face - (f0 + 1)))) by lia. done. }
    rewrite E, <- IH by lia. destruct g as [|b g]; cbn [shown List.filter fst]; [done|].
    destruct (Z.eqb_spec (6 * f0) (face * 6)); [lia|done].
Qed.

Lemma filter_map_pair {A B} (P : Z -> bool) (k : A -> Z) (v : A -> B) l :
  map v (List.filter (fun d => P (k d)) l) = map snd (List.filter (fun x => P x.1) (map (fun d => (k d, v d)) l)).
Proof. induction l as [|d l IH]; [done|]. cbn. destruct (P (k d)); cbn; by rewrite IH. Qed.

(** A chunk's records of one direction are the quads of that direction. *)
Lemma group_bytes_ok w f face : frame_of hypot w f -> 0 <= face < 6 -> group_bytes face f = face_group hypot w (world_quads w) face.
Proof.
  intros Hf Hr. unfold group_bytes. rewrite (filter_map_pair (fun v => v =? face * 6)), (fo_draws _ _ _ Hf), shown_filter by lia.
  rewrite Z.sub_0_r, zget_lookup, list_lookup_fmap, lookup_seqZ_lt by lia. cbn. f_equal. lia.
Qed.

Lemma face_of_chunks_ok seed face m : Forall (fun e => chunk_mesh seed e.1 e.2) m -> forall bytes,
  face_of_chunks face (map snd m) bytes = Some (bytes ++ direction_bytes m face).
Proof.
  unfold direction_bytes. induction 1 as [|[c f] m (w & _ & _ & Hf) _ IH]; intros bytes; cbn [map snd face_of_chunks concat]; [by rewrite app_nil_r|].
  rewrite (face_of_draws_ok (zlen (world_quads (chunk_world w c)))); [|by apply frame_len|apply Hf]. cbn [mbind option_bind].
  rewrite IH, <- app_assoc. done.
Qed.

Lemma direction_mod seed m face : Forall (fun e => chunk_mesh seed e.1 e.2) m -> 0 <= face < 6 -> zlen (direction_bytes m face) mod 80 = 0.
Proof.
  unfold direction_bytes. intros H Hr. induction H as [|[c f] m (w & _ & _ & Hf) _ IH]; [done|]. cbn [map snd concat].
  cbn in Hf. rewrite (group_bytes_ok _ f face Hf Hr), zlen_app, face_group_len, Z.add_comm, Z.mul_comm, Z_mod_plus_full. done.
Qed.

Lemma direction_total seed m : Forall (fun e => chunk_mesh seed e.1 e.2) m ->
  zlen (concat (map (direction_bytes m) (seqZ 0 6))) = chunk_bytes m.
Proof.
  change (seqZ 0 6) with [0; 1; 2; 3; 4; 5]. cbn [map concat]. unfold direction_bytes.
  induction 1 as [|[c f] m (w & _ & _ & Hf) _ IH]; [done|]. cbn [map snd concat]. rewrite chunk_bytes_cons. cbn in Hf.
  rewrite <- IH, (fo_upload _ _ _ Hf). change (seqZ 0 6) with [0; 1; 2; 3; 4; 5]. cbn [map concat].
  rewrite !(group_bytes_ok _ f _ Hf) by lia. rewrite !zlen_app. zlen_nil_simp. lia.
Qed.

Lemma compact_chunks_ok seed m n : Forall (fun e => chunk_mesh seed e.1 e.2) m -> forall f0 bytes draws,
  0 <= f0 -> f0 + Z.of_nat n <= 6 -> zlen bytes mod 80 = 0 ->
  zlen bytes + zlen (concat (map (direction_bytes m) (seqZ f0 (Z.of_nat n)))) < 80 * 2 ^ 32 ->
  compact_chunks (seqZ f0 (Z.of_nat n)) (map snd m) bytes draws =
  Some (compact f0 (map (direction_bytes m) (seqZ f0 (Z.of_nat n))) bytes draws).
Proof.
  intros Hm. induction n as [|n IH]; intros f0 bytes draws H0 H6 Hb Ht; [done|].
  replace (Z.of_nat (S n)) with (Z.succ (Z.of_nat n)) in * by lia.
  rewrite seqZ_cons in * by lia. replace (Z.pred (Z.succ (Z.of_nat n))) with (Z.of_nat n) in * by lia.
  replace (Z.succ f0) with (f0 + 1) in * by lia. cbn [map concat compact_chunks] in *. rewrite zlen_app in Ht.
  rewrite (face_of_chunks_ok seed) by done. cbn [mbind option_bind].
  pose proof (direction_mod seed m f0 Hm ltac:(lia)) as Hg. set (g := direction_bytes m f0) in *.
  pose proof (Z.div_mod (zlen bytes) 80 ltac:(lia)) as Db. pose proof (Z.div_mod (zlen g) 80 ltac:(lia)) as Dg.
  pose proof (zlen_nonneg bytes). pose proof (zlen_nonneg g). pose proof (zlen_nonneg (concat (map (direction_bytes m) (seqZ (f0 + 1) (Z.of_nat n))))).
  assert (El : zlen (bytes ++ g) / 80 = zlen bytes / 80 + zlen g / 80).
  { rewrite zlen_app. replace (zlen bytes + zlen g) with (zlen bytes + (zlen g / 80) * 80) by lia. by rewrite Z.div_add by lia. }
  rewrite El, !wrap_small by (unfold is_u; lia).
  destruct (Z.ltb_spec (zlen bytes / 80 + zlen g / 80) (zlen bytes / 80)); [lia|].
  replace (zlen bytes / 80 + zlen g / 80 - zlen bytes / 80) with (zlen g / 80) by lia.
  assert (Hmod : zlen (bytes ++ g) mod 80 = 0) by (rewrite zlen_app, Z.add_mod, Hb, Hg by lia; done).
  rewrite IH; [|lia|lia|done|rewrite zlen_app; lia]. f_equal. destruct g as [|b g'] eqn:Eg.
  - change (zlen [] / 80 =? 0) with true. cbn [compact]. by rewrite app_nil_r.
  - destruct (Z.eqb_spec (zlen (b :: g') / 80) 0) as [Hz|_]; [rewrite Hz in Dg; zsimp; pose proof (zlen_nonneg g'); lia|].
    cbn [compact]. by rewrite !wrap_small by (unfold is_u; lia).
Qed.

(** ** The frame of the resident chunks *)
Record resident_frame (m : ChunkMap) (fr : VoxelFrame) : Prop := {
  rf_upload : vf_upload fr = concat (map (direction_bytes m) (seqZ 0 6));
  rf_draws : map (fun d => (wd_first_vertex d, draw_bytes (vf_upload fr) d)) (vf_draws fr) = shown 0 (map (direction_bytes m) (seqZ 0 6));
  rf_valid : forallb (valid_draw (zlen (vf_upload fr) / 80)) (vf_draws fr) = true;
  rf_fits : zlen (vf_upload fr) = chunk_bytes m;
  rf_blocks : vf_block_count fr = sum (map (fun e => vf_block_count e.2) m);
  rf_faces : vf_exposed_faces fr = sum (map (fun e => vf_exposed_faces e.2) m);
  rf_resident : vf_resident_chunks fr = zlen m
}.

Lemma checked_sum_ok width l : Forall (fun x => 0 <= x) l -> forall n, n + sum l <= umax width -> checked_sum width l n = Some (n + sum l).
Proof.
  induction 1 as [|x l Hx Hl IH]; intros n Hn; cbn [checked_sum]; [unfold sum; cbn; by rewrite Z.add_0_r|].
  pose proof (sum_pos l Hl). unfold sum in *. cbn [foldr] in *. rewrite checked_add_ok by lia. cbn [mbind option_bind].
  rewrite IH by lia. f_equal. lia.
Qed.

Lemma chunk_counts seed c f : chunk_mesh seed c f -> 0 <= vf_block_count f <= 3072 /\ 0 <= vf_exposed_faces f <= 24576.
Proof.
  intros (w & _ & Hc & Hf). rewrite (fo_blocks _ _ _ Hf), (fo_exposed _ _ _ Hf). split.
  - apply (sum_map_bound (fun '(x, z) => height_at (chunk_world w c) x z) (columns (chunk_world w c)) 12).
    intros [x z]. pose proof (height_range (chunk_world w c) x z). lia.
  - rewrite <- world_exposed_count. unfold world_exposed. change (chunk_steps (chunk_world w c)) with [0]. unfold sum. cbn [map foldr].
    pose proof (chunk_exposed_pos (chunk_world w c) (0, 0, 0)). lia.
Qed.

Lemma counts_bound {A} (g : A -> Z) n l : Forall (fun x => 0 <= g x <= n) l -> 0 <= sum (map g l) <= zlen l * n.
Proof. intros H. pose proof (sum_bound (map g l) n) as Hb. unfold zlen in *. rewrite length_map in Hb. apply Hb. by apply Forall_fmap. Qed.

Lemma counts_pos {A} (g : A -> Z) n l : Forall (fun x => 0 <= g x <= n) l -> Forall (fun x => 0 <= x) (map g l).
Proof. intros H. apply Forall_fmap. eapply list.Forall_impl; [exact H|]. intros x Hx. exact (proj1 Hx). Qed.

Lemma stream_frame_ok seed m revision pending built : chunks_ok seed m -> zlen m <= 81 ->
  exists fr, stream_frame m revision pending built = Some fr /\ resident_frame m fr /\
  vf_pending_chunks fr = pending /\ vf_built_this_frame fr = built /\ vf_revision fr = revision.
Proof.
  intros [Hs Hm Hb] H81. unfold stream_frame. change (seqZ 0 6) with (seqZ 0 (Z.of_nat 6)).
  pose proof (direction_total seed m Hm) as Ht. change (seqZ 0 6) with (seqZ 0 (Z.of_nat 6)) in Ht.
  rewrite (compact_chunks_ok seed m 6 Hm 0 [] []) by (rewrite ?Ht; try done; unfold LIMIT in *; zlen_nil_simp; lia).
  cbn [mbind option_bind]. destruct (compact 0 _ [] []) as [bytes draws] eqn:E.
  assert (H1 : Forall (fun e : Coord * VoxelFrame => 0 <= vf_block_count e.2 <= 3072) m).
  { eapply list.Forall_impl; [exact Hm|]. intros e He. exact (proj1 (chunk_counts _ _ _ He)). }
  assert (H2 : Forall (fun e : Coord * VoxelFrame => 0 <= vf_exposed_faces e.2 <= 24576) m).
  { eapply list.Forall_impl; [exact Hm|]. intros e He. exact (proj2 (chunk_counts _ _ _ He)). }
  pose proof (counts_bound _ _ _ H1) as B1. pose proof (counts_bound _ _ _ H2) as B2.
  rewrite !checked_sum_ok; try (unfold umax; lia); try (by apply (counts_pos _ _ _ H1)); try (by apply (counts_pos _ _ _ H2)).
  cbn [mbind option_bind]. eexists. split; [reflexivity|]. split; [|done].
  pose proof (Z.div_le_mono _ LIMIT 80 ltac:(lia) Hb) as H80. change (LIMIT / 80) with 52428 in H80.
  destruct (compact_spec (concat (map (direction_bytes m) (seqZ 0 (Z.of_nat 6)))) ltac:(rewrite Ht; lia) _ 0 [] [] bytes draws E eq_refl eq_refl)
    as (-> & new & Hd & Hsh & Hv); [|lia|reflexivity|].
  { apply Forall_fmap, list.Forall_forall. intros face Hf%elem_of_seqZ. cbn. apply (direction_mod seed); [done|lia]. }
  cbn [app] in Hd. subst new. constructor; cbn; done.
Qed.

(** ** The streaming step *)
Lemma nearer_spec center a b : nearer center a b <->
  (chunk_key center a).1 < (chunk_key center b).1 \/
  (chunk_key center a).1 = (chunk_key center b).1 /\ (a.1 < b.1 \/ a.1 = b.1 /\ a.2 <= b.2).
Proof.
  unfold nearer, key_leb. rewrite orb_true_iff, andb_true_iff, negb_true_iff, Z.ltb_lt, Z.eqb_eq.
  rewrite <- not_true_iff_false, coord_lt_spec. cbn [chunk_key snd]. lia.
Qed.

#[local] Instance nearer_total center : Total (nearer center).
Proof. intros a b. rewrite !nearer_spec. lia. Qed.
#[local] Instance nearer_trans center : Transitive (nearer center).
Proof. intros a b c. rewrite !nearer_spec. lia. Qed.

Lemma filter_partition {A} (P : A -> bool) l : zlen (List.filter P l) + zlen (List.filter (fun x => negb (P x)) l) = zlen l.
Proof. induction l as [|x l IH]; [done|]. cbn. destruct (P x); cbn [negb]; rewrite !zlen_cons; lia. Qed.

Lemma filter_all {A} (P : A -> bool) l : zlen l = zlen (List.filter P l) -> List.filter P l = l.
Proof.
  induction l as [|x l IH]; [done|]. cbn. pose proof (filter_len P l). destruct (P x); rewrite ?zlen_cons; intros H'; [by rewrite IH by lia|lia].
Qed.

(** The chunks of a window are resident or missing. *)
Lemma resident_missing radius center m : 0 <= radius -> NoDup (keys m) -> (forall c, c ∈ keys m -> in_window radius center c = true) ->
  zlen m + zlen (missing radius center m) = window_size radius.
Proof.
  intros Hr Hn Hin. pose proof (filter_partition (map_contains m) (chunk_window radius center)) as Hp. rewrite (window_len radius center Hr) in Hp.
  assert (H : List.filter (map_contains m) (chunk_window radius center) ≡ₚ keys m).
  { apply NoDup_Permutation; [apply nodup_filter_bool, window_nodup|done|]. intros c.
    rewrite elem_of_filter_bool, contains_spec, window_in. split; [by intros [_ H]|]. intros H. split; [by apply Hin|done]. }
  unfold zlen in Hp at 1. rewrite H in Hp. unfold keys in Hp. rewrite length_map in Hp. exact Hp.
Qed.

Definition in_some_window (radius : Z) (m : ChunkMap) : Prop := exists center, forall c, c ∈ keys m -> in_window radius center c = true.

(** What a scene keeps between frames: the resident chunks are exact meshes
    for its seed within one window, and its frame shows them, unless a
    refused frame left the window incomplete. *)
Record stream_ok (sc : StreamScene) : Prop := {
  st_chunks : match ss_key sc with
              | Some (seed, radius) => 0 <= radius <= 4 /\ chunks_ok seed (ss_chunks sc) /\ in_some_window radius (ss_chunks sc)
              | None => ss_chunks sc = []
              end;
  st_frame fr seed radius : ss_frame sc = Some fr -> ss_key sc = Some (seed, radius) ->
    resident_frame (ss_chunks sc) fr /\ zlen (ss_chunks sc) + vf_pending_chunks fr = window_size radius \/
    zlen (ss_chunks sc) < window_size radius;
  st_revision fr : ss_frame sc = Some fr -> vf_revision fr = ss_revision sc
}.

Definition kept_chunks (sc : StreamScene) (key : Z * Z) (center : Coord) : ChunkMap :=
  List.filter (fun e => in_window key.2 center e.1) (if bool_decide (ss_key sc = Some key) then ss_chunks sc else []).
Definition todo_chunks (sc : StreamScene) (key : Z * Z) (center : Coord) : list Coord :=
  merge_sort (nearer center) (missing key.2 center (kept_chunks sc key center)).

Lemma chunks_filter seed P m : chunks_ok seed m -> chunks_ok seed (List.filter (fun e => P e.1) m).
Proof.
  intros [Hs Hm Hb]. split.
  - rewrite filter_keys. by apply keys_sorted_filter.
  - apply list.Forall_forall. intros e [He _]%elem_of_filter_bool. rewrite list.Forall_forall in Hm. by apply Hm.
  - clear Hs Hm. enough (chunk_bytes (List.filter (fun e => P e.1) m) <= chunk_bytes m) by lia. clear Hb.
    induction m as [|[c f] m IH]; [done|]. cbn [List.filter fst]. rewrite chunk_bytes_cons. pose proof (zlen_nonneg (vf_upload f)).
    destruct (P c); rewrite ?chunk_bytes_cons; lia.
Qed.

Lemma chunks_nil seed : chunks_ok seed [].
Proof. split; [constructor|constructor|unfold LIMIT; cbn; lia]. Qed.

Lemma kept_ok sc key center : stream_ok sc ->
  chunks_ok key.1 (kept_chunks sc key center) /\ forall c, c ∈ keys (kept_chunks sc key center) -> in_window key.2 center c = true.
Proof.
  intros [Hc _ _]. unfold kept_chunks. split.
  - apply chunks_filter. case_bool_decide as Hk; [|apply chunks_nil]. rewrite Hk in Hc. by destruct key, Hc as (_ & ? & _).
  - intros c. rewrite filter_keys, elem_of_filter_bool. by intros [_ ?].
Qed.

Lemma todo_ok sc key center : stream_ok sc -> 0 <= key.2 ->
  NoDup (todo_chunks sc key center) /\ StronglySorted (nearer center) (todo_chunks sc key center) /\
  (forall c, c ∈ todo_chunks sc key center <-> in_window key.2 center c = true /\ c ∉ keys (kept_chunks sc key center)) /\
  zlen (kept_chunks sc key center) + zlen (todo_chunks sc key center) = window_size key.2.
Proof.
  intros Hok Hr. destruct (kept_ok sc key center Hok) as [Hk Hw]. unfold todo_chunks.
  assert (Hp := sort_perm center (missing key.2 center (kept_chunks sc key center))). split; [|split; [|split]].
  - rewrite Hp. apply nodup_filter_bool, window_nodup.
  - apply StronglySorted_merge_sort; apply _.
  - intros c. rewrite Hp. unfold missing. rewrite elem_of_filter_bool, window_in, negb_true_iff.
    by rewrite <- not_true_iff_false, contains_spec.
  - unfold zlen at 2. rewrite Hp. fold (zlen (missing key.2 center (kept_chunks sc key center))).
    apply resident_missing; [done|apply sorted_nodup, Hk|done].
Qed.

(** What one frame leaves. *)
Record streamed (sc sc' : StreamScene) (key : Z * Z) (center : Coord) (fr : VoxelFrame) : Prop := {
  sd_resident : keys (ss_chunks sc') ≡ₚ take 2 (todo_chunks sc key center) ++ keys (kept_chunks sc key center);
  sd_frame : resident_frame (ss_chunks sc') fr;
  sd_pending : vf_pending_chunks fr = window_size key.2 - zlen (ss_chunks sc');
  sd_built : vf_built_this_frame fr = Z.min 2 (zlen (todo_chunks sc key center));
  sd_revision : vf_revision fr = ss_revision sc';
  sd_changed : ss_revision sc' = wrapping_add 64 (ss_revision sc) 1 \/
    ss_revision sc' = ss_revision sc /\ exists fr0, ss_frame sc = Some fr0 /\ fr = vf_idle fr0 /\ ss_chunks sc' = ss_chunks sc;
  sd_idle : ss_key sc = Some key -> is_Some (ss_frame sc) -> kept_chunks sc key center = ss_chunks sc -> todo_chunks sc key center = [] ->
    ss_revision sc' = ss_revision sc /\ ss_chunks sc' = ss_chunks sc
}.

Lemma window_small radius center c : 0 <= radius <= 4 -> - 4063 <= center.1 <= 4062 -> - 4063 <= center.2 <= 4062 ->
  in_window radius center c = true -> small_coord c.
Proof. unfold in_window, small_coord. rewrite andb_true_iff, !Z.leb_le. lia. Qed.

Lemma window_size_small radius : 0 <= radius <= 4 -> window_size radius <= 81.
Proof. unfold window_size. nia. Qed.

Lemma keys_len m : zlen (keys m) = zlen m.
Proof. unfold keys, zlen. by rewrite length_map. Qed.

(** A frame that changes nothing finds its scene complete and its frame current. *)
Lemma unchanged_current sc key center fr : stream_ok sc -> ss_key sc = Some key -> zlen (ss_chunks sc) = zlen (kept_chunks sc key center) ->
  0 <= key.2 -> zlen (todo_chunks sc key center) = 0 -> ss_frame sc = Some fr ->
  kept_chunks sc key center = ss_chunks sc /\ resident_frame (ss_chunks sc) fr /\ vf_pending_chunks fr = 0 /\
  zlen (ss_chunks sc) = window_size key.2.
Proof.
  intros Hok Hk Hl Hr Ht Hf. destruct (todo_ok sc key center Hok Hr) as (_ & _ & _ & Hsum).
  assert (Hkept : kept_chunks sc key center = ss_chunks sc).
  { unfold kept_chunks in *. rewrite bool_decide_eq_true_2 in * by done. by apply filter_all. }
  split; [done|]. destruct key as [seed radius]. destruct (st_frame sc Hok fr seed radius Hf Hk) as [[H1 H2]|H]; cbn in *.
  - split; [done|]. lia.
  - lia.
Qed.

Lemma kept_by sc key center : List.filter (fun e => in_window key.2 center e.1)
  (if negb (bool_decide (ss_key sc = Some key)) then [] else ss_chunks sc) = kept_chunks sc key center.
Proof. unfold kept_chunks. by destruct (bool_decide _). Qed.

Lemma take_min {A} (l : list A) : take (Z.to_nat (Z.min (zlen l) 2)) l = take 2 l.
Proof. unfold zlen. destruct (decide (2 <= length l)%nat) as [H|H]; [f_equal; lia|rewrite !take_ge; [done|lia|lia]]. Qed.

(** What the building of missing chunks leaves in the map. *)
Section Near.
Context (sc : StreamScene) (w : VoxelWorld) (radius : Z) (center : Coord).
Let key : Z * Z := (vw_seed w, radius).
Context (Hok : stream_ok sc) (Hr : 0 <= radius <= 4).
Let todo := todo_chunks sc key center.
Let kept := kept_chunks sc key center.

Lemma near_window pre m : keys m ≡ₚ pre ++ keys kept -> (forall c, c ∈ pre -> c ∈ todo) -> in_some_window radius m.
Proof.
  intros Hp Hpre. destruct (todo_ok sc key center Hok ltac:(cbn; lia)) as (_ & _ & Ht & _). exists center. intros c Hc.
  rewrite Hp in Hc. apply elem_of_app in Hc as [Hc|Hc]; [by apply Ht, Hpre|by apply (kept_ok sc key center Hok)].
Qed.

Lemma near_len pre m : keys m ≡ₚ pre ++ keys kept -> zlen m = zlen pre + zlen kept.
Proof. intros Hp. rewrite <- (keys_len m), <- (keys_len kept), <- zlen_app. unfold zlen. by rewrite Hp. Qed.

Lemma take_todo c : c ∈ take 2 todo -> c ∈ todo.
Proof. intros Hc. rewrite <- (take_drop 2 todo). apply elem_of_app. by left. Qed.

Lemma take_todo_len : zlen (take 2 todo) = Z.min 2 (zlen todo).
Proof. unfold zlen. rewrite length_take. lia. Qed.

(** The scene a refusal leaves. *)
Lemma refused_ok pre c rest m : chunks_ok (vw_seed w) m -> take 2 todo = pre ++ c :: rest -> keys m ≡ₚ pre ++ keys kept ->
  stream_ok (mkStreamScene (ss_finite sc) m (Some key) (ss_frame sc) (ss_revision sc)).
Proof.
  intros Hm Ep Hp. destruct (todo_ok sc key center Hok ltac:(cbn; lia)) as (_ & _ & _ & Hsum). fold todo kept in Hsum. cbn in Hsum.
  assert (Hlt : zlen m < window_size radius).
  { rewrite (near_len pre m Hp). pose proof take_todo_len as Hl. rewrite Ep, zlen_app, zlen_cons in Hl. pose proof (zlen_nonneg rest). lia. }
  constructor; cbn [ss_key ss_chunks ss_frame ss_revision key].
  - split; [done|]. split; [done|]. apply (near_window pre m Hp). intros c' Hc'. apply take_todo. rewrite Ep. apply elem_of_app. by left.
  - intros fr seed' radius' _ [= <- <-]. by right.
  - apply Hok.
Qed.

(** The scene after its frame was built anew. *)
Lemma rebuilt_ok m fr : chunks_ok (vw_seed w) m -> keys m ≡ₚ take 2 todo ++ keys kept -> resident_frame m fr ->
  vf_pending_chunks fr = zlen todo - Z.min (zlen todo) 2 -> vf_built_this_frame fr = Z.min (zlen todo) 2 ->
  let revision := wrapping_add 64 (ss_revision sc) 1 in vf_revision fr = revision ->
  ~ (ss_key sc = Some key /\ is_Some (ss_frame sc) /\ kept = ss_chunks sc /\ todo = []) ->
  let sc' := mkStreamScene (ss_finite sc) m (Some key) (Some fr) revision in
  stream_ok sc' /\ streamed sc sc' key center fr.
Proof.
  intros Hm Hp Hfr Hpend Hb revision Hrev Hch sc'. destruct (todo_ok sc key center Hok ltac:(cbn; lia)) as (_ & _ & _ & Hsum).
  fold todo kept in Hsum. cbn in Hsum. pose proof (near_len _ m Hp) as Hl. rewrite take_todo_len in Hl. split.
  - constructor; cbn [sc' ss_key ss_chunks ss_frame ss_revision key].
    + split; [done|]. split; [done|]. by apply (near_window _ m Hp), take_todo.
    + intros fr' seed' radius' [= <-] [= <- <-]. left. split; [done|lia].
    + by intros fr' [= <-].
  - constructor; cbn [sc' ss_chunks ss_revision key snd]; fold todo; [done|done|lia|lia|done|by left|].
    intros Hk' Hf Ek Et. by destruct Hch.
Qed.

(** The scene when nothing changed. *)
Lemma idle_ok fr : chunks_ok (vw_seed w) (ss_chunks sc) -> ss_key sc = Some key -> ss_frame sc = Some fr -> todo = [] -> kept = ss_chunks sc ->
  resident_frame (ss_chunks sc) fr -> vf_pending_chunks fr = 0 -> zlen (ss_chunks sc) = window_size radius ->
  let sc' := mkStreamScene (ss_finite sc) (ss_chunks sc) (Some key) (Some (vf_idle fr)) (ss_revision sc) in
  stream_ok sc' /\ streamed sc sc' key center (vf_idle fr).
Proof.
  intros Hm Ekey Ef Et Ek Hcur Hp Hfull sc'. pose proof (st_revision sc Hok fr Ef) as Hrev. split.
  - constructor; cbn [sc' ss_key ss_chunks ss_frame ss_revision key].
    + split; [done|]. split; [done|]. apply (near_window []); [by rewrite Ek|]. by intros c ?%not_elem_of_nil.
    + intros fr' seed' radius' [= <-] [= <- <-]. left. split; [by destruct Hcur|]. cbn. lia.
    + by intros fr' [= <-].
  - constructor; cbn [sc' ss_chunks ss_revision key snd vf_idle vf_pending_chunks vf_built_this_frame vf_revision]; fold todo kept;
      rewrite ?Et, ?Ek; [done|by destruct Hcur|lia|done|done| |done]. right. split; [done|]. by exists fr.
Qed.
End Near.

Lemma stream_near_ok sc w radius center : stream_ok sc -> 0 <= radius <= 4 ->
  - 4063 <= center.1 <= 4062 -> - 4063 <= center.2 <= 4062 ->
  let key := (vw_seed w, radius) in
  exists sc' r, stream_frame_near hypot sc w radius center = Some (sc', r) /\ stream_ok sc' /\ ss_key sc' = Some key /\
  match r with
  | Ok _ => exists fr, ss_frame sc' = Some fr /\ streamed sc sc' key center fr
  | Err _ => exists c, c ∈ take 2 (todo_chunks sc key center) /\ LIMIT < chunk_bytes (ss_chunks sc') + mesh_size w c
  end.
Proof.
  intros Hok Hr Hc1 Hc2 key. unfold stream_frame_near. cbv zeta. fold key. 
  pose proof (kept_by sc key center) as Hkept. cbn [key snd] in Hkept. rewrite Hkept. clear Hkept.
  change (merge_sort (nearer center) (missing radius center (kept_chunks sc key center))) with (todo_chunks sc key center).
  destruct (kept_ok sc key center Hok) as [Hck Hin]. destruct (todo_ok sc key center Hok ltac:(cbn; lia)) as (Hnd & _ & Htin & Hsum).
  cbn in Hck, Hin, Htin, Hsum. set (todo := todo_chunks sc key center) in *. set (kept := kept_chunks sc key center) in *.
  pose proof (zlen_nonneg todo) as Ht0. pose proof (window_size_small radius Hr) as H81.
  unfold CHUNKS_PER_FRAME. rewrite take_min. pose proof (take_todo sc w radius center) as Hsub. fold key todo in Hsub.
  destruct (build_missing_ok w (take 2 todo)) with (m := kept) as (m' & r & E & Hm' & Hres).
  { apply list.Forall_forall. intros c [Hc _]%Hsub%Htin. by apply (window_small radius center). }
  { rewrite <- (take_drop 2 todo) in Hnd. by apply list.NoDup_app in Hnd as [? _]. }
  { done. }
  { intros c Hc%Hsub%Htin. apply Hc. }
  rewrite E. cbn [mbind option_bind ss_finite ss_frame ss_revision ss_chunks]. destruct r as [u|e].
  2:{ destruct Hres as (pre & c & rest & Ep & Hp & Hlim). eexists _, _. split; [reflexivity|].
      split; [by apply (refused_ok sc w radius center Hok Hr pre c rest)|]. split; [done|]. exists c. split; [|done].
      rewrite Ep. apply elem_of_app. right. by left. }
  pose proof (near_len sc w radius center _ m' Hres) as Hl. fold key kept in Hl.
  pose proof (take_todo_len sc w radius center) as Htk. fold key todo in Htk. rewrite Htk in Hl.
  match goal with |- context [if ?b then _ else _] => destruct b eqn:Ech end.
  - destruct (Z.ltb_spec LIMIT (chunk_bytes m')) as [Hlt|_]; [destruct Hm'; lia|].
    destruct (stream_frame_ok (vw_seed w) m' (wrapping_add 64 (ss_revision sc) 1) (zlen todo - Z.min (zlen todo) 2)
      (Z.min (zlen todo) 2) Hm') as (fr & -> & Hfr & Hp & Hb & Hrev); [lia|]. cbn [mbind option_bind].
    destruct (rebuilt_ok sc w radius center Hok Hr m' fr Hm' Hres Hfr Hp Hb Hrev) as [H1 H2];
      [|eexists _, _; split; [reflexivity|]; split; [exact H1|]; split; [done|]; by exists fr].
    intros (Hk' & [fr0 Hf0] & Ek & Et). fold key kept in Ek. fold key todo in Et. rewrite Ek, Et, Hf0, bool_decide_eq_true_2 in Ech by done.
    cbn [negb orb] in Ech. by rewrite Z.eqb_refl in Ech.
  - apply orb_false_iff in Ech as [Ech Efr]. apply orb_false_iff in Ech as [Ech Ebuilt]. apply orb_false_iff in Ech as [Ekey Elen].
    apply negb_false_iff, bool_decide_eq_true in Ekey. rewrite bool_decide_eq_true_2 in Elen by done.
    apply negb_false_iff, Z.eqb_eq in Elen. apply negb_false_iff, Z.eqb_eq in Ebuilt. destruct (ss_frame sc) as [fr|] eqn:Ef; [|done].
    destruct (unchanged_current sc key center fr Hok Ekey Elen ltac:(cbn; lia)) as (Ek & Hcur & Hp & Hfull); [fold todo; lia|done|].
    assert (Htodo : todo = []) by (destruct todo; [done|zsimp; pose proof (zlen_nonneg todo); lia]).
    assert (Hm : m' = ss_chunks sc) by (rewrite Htodo in E; cbn in E; injection E as <- _; exact Ek).
    rewrite Hm in Hm' |- *. destruct (idle_ok sc w radius center Hok Hr fr Hm' Ekey Ef Htodo Ek Hcur Hp Hfull) as [H1 H2].
    eexists _, _. split; [reflexivity|]. split; [exact H1|]. split; [done|]. by exists (vf_idle fr).
Qed.

(** The position of a player the window can be placed round. *)
Definition placed (w : VoxelWorld) (radius : Z) (center : Coord) : Prop :=
  vw_stream_radius w <> 0 /\ radius = Z.min (vw_stream_radius w) 4 /\
  let '(x, y, z) := pl_position (vw_player w) in chunk_coord x = Some center.1 /\ chunk_coord z = Some center.2.

Definition position_ok (w : VoxelWorld) : Prop :=
  let '(x, y, z) := pl_position (vw_player w) in
  Forall (fun v => F32.is_finite v = true /\ valid_f32 v) [x; y; z].

Lemma stream_build_ok sc w : stream_ok sc -> 1 <= vw_stream_radius w -> position_ok w ->
  exists radius center, placed w radius center /\ 1 <= radius <= 4 /\ - 4063 <= center.1 <= 4062 /\ - 4063 <= center.2 <= 4062 /\
  let key := (vw_seed w, radius) in
  exists sc' r, stream_build_frame hypot sc w = Some (sc', r) /\ stream_ok sc' /\ ss_key sc' = Some key /\
  match r with
  | Ok fr => ss_frame sc' = Some fr /\ streamed sc sc' key center fr
  | Err _ => exists c, c ∈ take 2 (todo_chunks sc key center) /\ LIMIT < chunk_bytes (ss_chunks sc') + mesh_size w c
  end.
Proof.
  intros Hok Hr Hp. unfold position_ok, stream_build_frame, placed in *. destruct (pl_position (vw_player w)) as [[x y] z].
  rewrite !list.Forall_cons in Hp. destruct Hp as ([Hx Vx] & [Hy _] & [Hz Vz] & _).
  destruct (chunk_coord_ok x Hx Vx) as (cx & Ex & Bx). destruct (chunk_coord_ok z Hz Vz) as (cz & Ez & Bz).
  destruct (stream_near_ok sc w (Z.min (vw_stream_radius w) 4) (cx, cz) Hok ltac:(lia) Bx Bz) as (sc' & r & E & Hok' & Hk & H).
  exists (Z.min (vw_stream_radius w) 4), (cx, cz). split; [split; [lia|split; done]|]. split; [lia|]. split; [done|]. split; [done|]. cbv zeta.
  destruct (Z.eqb_spec (vw_stream_radius w) 0); [lia|]. rewrite Hx, Hy, Hz, Ex, Ez. cbn [andb negb mbind option_bind]. rewrite E.
  cbn [mbind option_bind]. destruct r as [u|e]; [|by exists sc', (Err e)]. destruct H as (fr & Hf & Hs). rewrite Hf. cbn [mbind option_bind].
  by exists sc', (Ok fr).
Qed.

(** Frames of a player at rest. *)
Fixpoint stream_frames (n : nat) (sc : StreamScene) (w : VoxelWorld) : option (StreamScene * result string unit) :=
  match n with
  | O => Some (sc, Ok tt)
  | S n =>
      '(sc, r) ← stream_build_frame hypot sc w;
      match r with Err e => Some (sc, Err e) | Ok _ => stream_frames n sc w end
  end.

Lemma placed_unique w r c r' c' : placed w r c -> placed w r' c' -> r = r' /\ c = c'.
Proof.
  unfold placed. intros (_ & -> & H) (_ & -> & H'). destruct (pl_position (vw_player w)) as [[x y] z].
  destruct H as [H1 H2], H' as [H1' H2']. rewrite H1 in H1'. rewrite H2 in H2'. destruct c, c'. cbn in *. by simplify_eq.
Qed.

Lemma kept_same sc key center : ss_key sc = Some key -> (forall c, c ∈ keys (ss_chunks sc) -> in_window key.2 center c = true) ->
  kept_chunks sc key center = ss_chunks sc.
Proof.
  intros Hk H. unfold kept_chunks. rewrite bool_decide_eq_true_2 by done. revert H. generalize (ss_chunks sc) as m.
  induction m as [|[c f] m IH]; intros H; [done|]. cbn. rewrite (H c) by left. rewrite IH; [done|]. intros c' Hc'. apply H. by right.
Qed.

Lemma streamed_window sc sc' key center fr : stream_ok sc -> 0 <= key.2 -> streamed sc sc' key center fr ->
  forall c, c ∈ keys (ss_chunks sc') -> in_window key.2 center c = true.
Proof.
  intros Hok Hr Hs c Hc. rewrite (sd_resident _ _ _ _ _ Hs) in Hc. destruct (todo_ok sc key center Hok Hr) as (_ & _ & Ht & _).
  apply elem_of_app in Hc as [Hc|Hc].
  - apply Ht. rewrite <- (take_drop 2 (todo_chunks sc key center)). apply elem_of_app. by left.
  - by apply (kept_ok sc key center Hok).
Qed.

(** At rest, a frame leaves two chunks fewer to do. *)
Lemma todo_decreases sc sc' key center fr : stream_ok sc -> stream_ok sc' -> 0 <= key.2 -> ss_key sc' = Some key ->
  streamed sc sc' key center fr ->
  zlen (todo_chunks sc' key center) = zlen (todo_chunks sc key center) - Z.min 2 (zlen (todo_chunks sc key center)).
Proof.
  intros Hok Hok' Hr Hk Hs. pose proof (streamed_window _ _ _ _ _ Hok Hr Hs) as Hw.
  destruct (todo_ok sc' key center Hok' Hr) as (_ & _ & _ & H'). destruct (todo_ok sc key center Hok Hr) as (_ & _ & _ & H).
  rewrite (kept_same sc' key center Hk Hw) in H'.
  assert (Hl : zlen (ss_chunks sc') = zlen (take 2 (todo_chunks sc key center)) + zlen (kept_chunks sc key center)).
  { rewrite <- (keys_len (ss_chunks sc')), <- (keys_len (kept_chunks sc key center)), <- zlen_app. unfold zlen.
    by rewrite (sd_resident _ _ _ _ _ Hs). }
  assert (Ht : zlen (take 2 (todo_chunks sc key center)) = Z.min 2 (zlen (todo_chunks sc key center))) by (unfold zlen; rewrite length_take; lia).
  lia.
Qed.

Lemma stream_frames_ok w radius center n : 1 <= vw_stream_radius w -> position_ok w -> placed w radius center -> forall sc, stream_ok sc ->
  let key := (vw_seed w, radius) in
  exists sc' r, stream_frames n sc w = Some (sc', r) /\ stream_ok sc' /\
  match r with
  | Ok _ => zlen (todo_chunks sc' key center) = Z.max 0 (zlen (todo_chunks sc key center) - 2 * Z.of_nat n) /\ ((0 < n)%nat -> ss_key sc' = Some key /\ is_Some (ss_frame sc') /\
      forall c, c ∈ keys (ss_chunks sc') -> in_window radius center c = true)
  | Err _ => exists c, in_window radius center c = true /\ LIMIT < chunk_bytes (ss_chunks sc') + mesh_size w c
  end.
Proof.
  intros Hr Hp Hpl. induction n as [|n IH]; intros sc Hok key; cbn [stream_frames].
  { exists sc, (Ok tt). split; [done|]. split; [done|]. pose proof (zlen_nonneg (todo_chunks sc key center)). split; [lia|lia]. }
  destruct (stream_build_ok sc w Hok Hr Hp) as (r' & c' & Hpl' & Hrr & Hb1 & Hb2 & sc1 & res & E & Hok1 & Hk1 & H).
  destruct (placed_unique _ _ _ _ _ Hpl Hpl') as [<- <-]. fold key in H, Hk1. rewrite E. cbn [mbind option_bind]. destruct res as [fr|e].
  2:{ exists sc1, (Err e). split; [done|]. split; [done|]. destruct H as (c & Hc & Hlim). exists c. split; [|done].
      destruct (todo_ok sc key center Hok ltac:(cbn; lia)) as (_ & _ & Ht & _). apply Ht.
      rewrite <- (take_drop 2 (todo_chunks sc key center)). apply elem_of_app. by left. }
  destruct H as [Hf Hs]. pose proof (todo_decreases sc sc1 key center fr Hok Hok1 ltac:(cbn; lia) Hk1 Hs) as Hdec.
  destruct (IH sc1 Hok1) as (sc2 & r2 & E2 & Hok2 & H2). fold key in H2. exists sc2, r2. split; [done|]. split; [done|].
  destruct r2 as [u|e]; [|done]. destruct H2 as [H2 Hk2]. pose proof (zlen_nonneg (todo_chunks sc key center)).
  split; [lia|]. intros _. destruct n; [|apply Hk2; lia]. cbn in E2. injection E2 as <- _. split; [done|]. split; [by exists fr|].
  by apply (streamed_window sc sc1 key center fr Hok ltac:(cbn; lia) Hs).
Qed.
End StreamSpec.

Lemma stream_new_ok hypot : stream_ok hypot stream_scene_new.
Proof. by split. Qed.

(** C23: Streaming shows the world it should.  Whatever frames came before,
    with other seeds, radii and positions and refused ones among them, a frame
    for a player at a finite position returns without a panic.  If it is
    accepted, the resident chunks are those that were resident for this seed
    and radius and still lie in the window, and the two nearest missing ones,
    or as many as are missing; each is the exact mesh of its terrain; the
    frame shows exactly these chunks, grouped by direction, within 4 MiB, with
    draws that the platform accepts and the number of chunks still pending;
    and its revision is that of an earlier frame only when nothing that it
    shows has changed.  It is refused only when the next chunk's mesh does not
    fit, and the scene remains usable. *)
Theorem stream_step_exact hypot sc w : stream_ok hypot sc -> 1 <= vw_stream_radius w -> position_ok w ->
  exists radius center, placed w radius center /\
  let key := (vw_seed w, radius) in
  (forall a b, a ∈ take 2 (todo_chunks sc key center) -> b ∈ drop 2 (todo_chunks sc key center) -> nearer center a b) /\
  (forall c, c ∈ todo_chunks sc key center <-> in_window radius center c = true /\ c ∉ keys (kept_chunks sc key center)) /\
  exists sc' r, stream_build_frame hypot sc w = Some (sc', r) /\ stream_ok hypot sc' /\ ss_key sc' = Some key /\
  match r with
  | Ok fr => streamed sc sc' key center fr /\ Forall (fun e => chunk_mesh hypot (vw_seed w) e.1 e.2) (ss_chunks sc') /\
      zlen (vf_upload fr) <= LIMIT
  | Err _ => exists c, c ∈ take 2 (todo_chunks sc key center) /\ LIMIT < chunk_bytes (ss_chunks sc') + mesh_size w c
  end.
Proof.
  intros Hok Hr Hp. destruct (stream_build_ok hypot sc w Hok Hr Hp) as (radius & center & Hpl & Hrr & _ & _ & sc' & r & E & Hok' & Hk & H).
  exists radius, center. split; [done|]. cbv zeta. destruct (todo_ok hypot sc (vw_seed w, radius) center Hok ltac:(cbn; lia)) as (_ & Hs & Ht & _).
  split; [|split; [exact Ht|]].
  - intros a b Ha Hb. rewrite <- (take_drop 2 (todo_chunks sc (vw_seed w, radius) center)) in Hs.
    exact (StronglySorted_app_1_elem_of _ _ _ _ _ Hs Ha Hb).
  - exists sc', r. split; [done|]. split; [done|]. split; [done|]. destruct r as [fr|e]; [|done]. destruct H as [_ H]. split; [done|].
    pose proof (st_chunks _ _ Hok') as Hc. rewrite Hk in Hc. destruct Hc as (_ & Hc & _). split; [apply Hc|].
    rewrite (rf_fits _ _ (sd_frame _ _ _ _ _ H)). apply Hc.
Qed.

(** C24: A player at rest sees everything: after half as many frames as the
    window has chunks, rounded up, every chunk of the window is resident and
    no other, whatever the scene was before, and the next frame shows them
    all, builds nothing and keeps its revision; unless a frame was refused
    because a chunk of the window did not fit in the budget. *)
Theorem stream_settles hypot sc w radius center n : stream_ok hypot sc -> 1 <= vw_stream_radius w -> position_ok w ->
  placed w radius center -> window_size radius <= 2 * Z.of_nat n ->
  exists sc' r, stream_frames hypot n sc w = Some (sc', r) /\
  match r with
  | Ok _ => (forall c, c ∈ keys (ss_chunks sc') <-> in_window radius center c = true) /\
      exists sc2 fr, stream_build_frame hypot sc' w = Some (sc2, Ok fr) /\ resident_frame (ss_chunks sc') fr /\
      vf_pending_chunks fr = 0 /\ vf_built_this_frame fr = 0 /\ vf_revision fr = ss_revision sc' /\ ss_chunks sc2 = ss_chunks sc'
  | Err _ => exists c, in_window radius center c = true /\ LIMIT < chunk_bytes (ss_chunks sc') + mesh_size w c
  end.
Proof.
  intros Hok Hr Hp Hpl Hn. set (key := (vw_seed w, radius)).
  assert (Hrr : 1 <= radius) by (destruct Hpl as (_ & -> & _); lia).
  destruct (stream_frames_ok hypot w radius center n Hr Hp Hpl sc Hok) as (sc' & r & E & Hok' & H). exists sc', r. split; [done|].
  destruct r as [u|e]; [|done]. destruct H as [Ht Hk]. fold key in Ht, Hk.
  destruct (todo_ok hypot sc key center Hok ltac:(cbn; lia)) as (_ & _ & _ & Hsum). cbn in Hsum.
  pose proof (zlen_nonneg (kept_chunks sc key center)). assert (Hn0 : (0 < n)%nat) by (unfold window_size in Hn; nia).
  destruct (Hk Hn0) as (Hkey & Hfr & Hwin). pose proof (kept_same sc' key center Hkey Hwin) as Hkept.
  destruct (todo_ok hypot sc' key center Hok' ltac:(cbn; lia)) as (_ & _ & Htin & _).
  assert (Hnil : todo_chunks sc' key center = []).
  { destruct (todo_chunks sc' key center) as [|c l]; [done|]. rewrite zlen_cons in Ht. pose proof (zlen_nonneg l). lia. }
  split.
  { intros c. split; [apply Hwin|]. intros Hc. destruct (decide (c ∈ keys (ss_chunks sc'))) as [|Hnot]; [done|].
    rewrite <- Hkept in Hnot. assert (Hin : c ∈ todo_chunks sc' key center) by by apply Htin. rewrite Hnil in Hin. by apply not_elem_of_nil in Hin. }
  destruct (stream_build_ok hypot sc' w Hok' Hr Hp) as (r' & c' & Hpl' & _ & _ & _ & sc2 & res & E2 & Hok2 & Hk2 & H2).
  destruct (placed_unique _ _ _ _ _ Hpl Hpl') as [<- <-]. fold key in H2. rewrite Hnil in H2. destruct res as [fr|e].
  2:{ destruct H2 as (c & Hc & _). by apply not_elem_of_nil in Hc. }
  destruct H2 as [_ H2]. destruct (sd_idle _ _ _ _ _ H2 Hkey Hfr Hkept Hnil) as [Hrev Hch]. exists sc2, fr. split; [done|].
  rewrite <- Hch. split; [apply H2|]. split; [|split; [|split; [|done]]].
  - rewrite (sd_pending _ _ _ _ _ H2), Hch. destruct (todo_ok hypot sc' key center Hok' ltac:(cbn; lia)) as (_ & _ & _ & Hs').
    rewrite Hnil, Hkept in Hs'. zlen_nil_simp. cbn in *. lia.
  - rewrite (sd_built _ _ _ _ _ H2), Hnil. done.
  - by rewrite (sd_revision _ _ _ _ _ H2).
Qed.

(** The default player in the default terrain, streaming the nearest ring. *)
Definition rest_world : VoxelWorld := voxel_world_new None (Some 1).

Lemma rest_position : position_ok rest_world.
Proof. repeat constructor. Qed.

Lemma stream_step_exact_witness :
  exists radius center, placed rest_world radius center /\
  let key := (vw_seed rest_world, radius) in
  (forall a b, a ∈ take 2 (todo_chunks stream_scene_new key center) -> b ∈ drop 2 (todo_chunks stream_scene_new key center) -> nearer center a b) /\
  (forall c, c ∈ todo_chunks stream_scene_new key center <-> in_window radius center c = true /\ c ∉ keys (kept_chunks stream_scene_new key center)) /\
  exists sc' r, stream_build_frame (fun x _ => x) stream_scene_new rest_world = Some (sc', r) /\ stream_ok (fun x _ => x) sc' /\ ss_key sc' = Some key /\
  match r with
  | Ok fr => streamed stream_scene_new sc' key center fr /\ Forall (fun e => chunk_mesh (fun x _ => x) (vw_seed rest_world) e.1 e.2) (ss_chunks sc') /\
      zlen (vf_upload fr) <= LIMIT
  | Err _ => exists c, c ∈ take 2 (todo_chunks stream_scene_new key center) /\ LIMIT < chunk_bytes (ss_chunks sc') + mesh_size rest_world c
  end.
Proof. exact (stream_step_exact (fun x _ => x) stream_scene_new rest_world (stream_new_ok _) ltac:(vm_compute; discriminate) rest_position). Defined.

(** Five frames are enough for the nine chunks. *)
Lemma stream_settles_witness :
  placed rest_world 1 (0, 0) /\
  exists sc' r, stream_frames (fun x _ => x) 5 stream_scene_new rest_world = Some (sc', r) /\
  match r with
  | Ok _ => (forall c, c ∈ keys (ss_chunks sc') <-> in_window 1 (0, 0) c = true) /\
      exists sc2 fr, stream_build_frame (fun x _ => x) sc' rest_world = Some (sc2, Ok fr) /\ resident_frame (ss_chunks sc') fr /\
      vf_pending_chunks fr = 0 /\ vf_built_this_frame fr = 0 /\ vf_revision fr = ss_revision sc' /\ ss_chunks sc2 = ss_chunks sc'
  | Err _ => exists c, in_window 1 (0, 0) c = true /\ LIMIT < chunk_bytes (ss_chunks sc') + mesh_size rest_world c
  end.
Proof.
  assert (H : placed rest_world 1 (0, 0)) by (split; [discriminate|split; [reflexivity|split; vm_compute; reflexivity]]).
  split; [exact H|].
  exact (stream_settles (fun x _ => x) stream_scene_new rest_world 1 (0, 0) 5 (stream_new_ok _) ltac:(vm_compute; discriminate)
    rest_position H ltac:(vm_compute; discriminate)).
Defined.

Lemma player_stays_witness :
  exists d' floor, driver_tick (fun x _ => x) (mkVoxelDriver small_world f32_zero f32_one) f32_one = Some d' /\
  let '(x, y, z) := pl_position (vw_player (vd_world d')) in
  let half := player_half (vd_world d') in
  between (SFopp half) (fsub half (f32_dec 1 100)) x /\ between (SFopp half) (fsub half (f32_dec 1 100)) z /\
  floor_at (vd_world d') x z = Some floor /\ flt y floor = false.
Proof. exact (player_stays (fun x _ => x) (mkVoxelDriver small_world f32_zero f32_one) f32_one eq_refl ltac:(vm_compute; discriminate)). Defined.
