(* ===== verification/SudokuGame.v ===== *)
(** The Sudoku application ([examples/sudoku_game/game.rs], [layout.rs], the
    snapshot of [paint.rs] and the publishing functions of [sudoku_game.rs])
    around the session of [Sudoku]: what a click hits, the screens, the saved
    game, what a tick publishes to the UI and to the painter.

    Theorems: a click hits a target exactly inside the target's rectangle;
    every tick returns and keeps the session, the saved game and the selection
    consistent; a game left for the menu continues exactly where it was left.
    The examples show defects. *)

From Stdlib Require Ascii String.
From stdpp Require Import sets strings.
From S2P Require Import Prelude Bus Arena World Deferred Kernel F32 UiComponents UiTree UiCommands UiSubsystem Messages Sudoku.

Local Open Scope Z_scope.
Local Open Scope kit_scope.

(** ** Targets *)
Definition DESIGN_WIDTH : Z := 900.
Definition DESIGN_HEIGHT : Z := 840.

Module Screen.
Inductive Screen := MainMenu | Difficulty | Playing.
End Screen.
Abbreviation Screen := Screen.Screen.
#[export] Instance Screen_eq_dec : EqDecision Screen.
Proof. solve_decision. Defined.

Module MenuAction.
Inductive MenuAction := Continue | NewGame | Leaderboard | Quit.
End MenuAction.
Abbreviation MenuAction := MenuAction.MenuAction.

Module PlayingAction.
Inductive PlayingAction := Erase | Note | Hint.
End PlayingAction.
Abbreviation PlayingAction := PlayingAction.PlayingAction.

Module TopAction.
Inductive TopAction := Pause | Menu.
End TopAction.
Abbreviation TopAction := TopAction.TopAction.

(** [DifficultyChoice] has the constructors of [Difficulty], to which the game
    maps it name by name. *)
Module HitTarget.
Inductive HitTarget :=
| Menu (action : MenuAction)
| Difficulty (choice : Sudoku.Difficulty)
| Cell (row column : Z)
| Digit (value : Z)
| Action (action : PlayingAction)
| Top (action : TopAction)
| ResultMenu.
End HitTarget.
Abbreviation HitTarget := HitTarget.HitTarget.

(** Sizes of windows are far from the ends of [i32], so that nothing overflows
    ([for_window_small]). *)
Record PlayingLayout := {
  board_x : Z; board_y : Z; board_size : Z; cell_size : Z; panel_x : Z;
  control_x : Z; control_y : Z; button_size : Z; gap_size : Z; action_y : Z; top_y : Z
}.

Definition for_window (width height : Z) : PlayingLayout :=
  let size := Z.max (Z.min (width - 320) (height - 200)) 360 in
  let size := Z.quot size 9 * 9 in
  let board_x := 40 in
  let board_y := 110 in
  let button := 56 in
  let gap := 10 in
  let grid_width := button * 3 + gap * 2 in
  let panel := board_x + size + 30 in
  let available_width := Z.max (width - panel - 30) grid_width in
  let control_x := panel + Z.max (Z.quot (available_width - grid_width) 2) 0 in
  let control_y := Z.max (board_y + size - (button * 3 + gap * 2 + 16 + 72)) (board_y + 60) in
  {| board_x := board_x; board_y := board_y; board_size := size; cell_size := Z.quot size 9; panel_x := panel;
     control_x := control_x; control_y := control_y; button_size := button; gap_size := gap;
     action_y := control_y + button * 3 + gap * 3 + 16; top_y := board_y |}.

Definition contains (x y x0 y0 width height : Z) : bool :=
  (x0 <=? x) && (x <? x0 + width) && (y0 <=? y) && (y <? y0 + height).

(** The first of a list of targets whose rectangle contains the point. *)
Fixpoint first_hit {T} (x y : Z) (targets : list (T * (Z * Z * Z * Z))) : option T :=
  match targets with
  | [] => None
  | (t, (x0, y0, width, height)) :: targets =>
      if contains x y x0 y0 width height then Some t else first_hit x y targets
  end.

Definition digit_rects (l : PlayingLayout) : list (HitTarget * (Z * Z * Z * Z)) :=
  map (fun index =>
    let row := index / 3 in
    let column := index mod 3 in
    (HitTarget.Digit (index + 1),
     (control_x l + column * (button_size l + gap_size l), control_y l + row * (button_size l + gap_size l),
      button_size l, button_size l))) (map Z.of_nat (seq 0 9)).

Definition action_rects (l : PlayingLayout) : list (HitTarget * (Z * Z * Z * Z)) :=
  imap (fun index action => (HitTarget.Action action,
    (control_x l + Z.of_nat index * (button_size l + gap_size l), action_y l, button_size l, 72)))
    [PlayingAction.Erase; PlayingAction.Note; PlayingAction.Hint].

Definition top_width (l : PlayingLayout) : Z := Z.quot (button_size l * 3 + gap_size l * 2 - gap_size l) 2.

Definition top_rects (l : PlayingLayout) : list (HitTarget * (Z * Z * Z * Z)) :=
  [(HitTarget.Top TopAction.Pause, (control_x l, top_y l, top_width l, 40));
   (HitTarget.Top TopAction.Menu, (control_x l + top_width l + gap_size l, top_y l, top_width l, 40))].

Definition layout_hit_test (l : PlayingLayout) (x y : Z) : option HitTarget :=
  if contains x y (board_x l) (board_y l) (board_size l) (board_size l) then
    Some (HitTarget.Cell (Z.quot (y - board_y l) (cell_size l)) (Z.quot (x - board_x l) (cell_size l)))
  else first_hit x y (digit_rects l ++ action_rects l ++ top_rects l).

Definition menu_rects : list (HitTarget * (Z * Z * Z * Z)) :=
  imap (fun index action => (HitTarget.Menu action, (Z.quot (DESIGN_WIDTH - 280) 2, 280 + Z.of_nat index * 70, 280, 56)))
    [MenuAction.Continue; MenuAction.NewGame; MenuAction.Leaderboard; MenuAction.Quit].

Definition card_rects : list (HitTarget * (Z * Z * Z * Z)) :=
  imap (fun index choice => (HitTarget.Difficulty choice,
    (Z.quot (DESIGN_WIDTH - 220 * 3 - 24 * 2) 2 + Z.of_nat index * (220 + 24), Z.quot (DESIGN_HEIGHT - 280) 2, 220, 280)))
    [Easy; Medium; Hard].

Definition screen_hit_test (screen : Screen) (x y : Z) : option HitTarget :=
  match screen with
  | Screen.MainMenu => first_hit x y menu_rects
  | Screen.Difficulty => first_hit x y card_rects
  | Screen.Playing => layout_hit_test (for_window DESIGN_WIDTH DESIGN_HEIGHT) x y
  end.

Definition hit_test_result_menu (x y : Z) : option HitTarget :=
  if contains x y 350 420 200 48 then Some HitTarget.ResultMenu else None.

Example hit_reference : let l := for_window DESIGN_WIDTH DESIGN_HEIGHT in
  (board_size l, layout_hit_test l 72 142, layout_hit_test l (control_x l + 5) (action_y l + 5),
   screen_hit_test Screen.MainMenu 450 300, screen_hit_test Screen.Difficulty 110 300) =
  (576, Some (HitTarget.Cell 0 0), Some (HitTarget.Action PlayingAction.Erase), Some (HitTarget.Menu MenuAction.Continue),
   Some (HitTarget.Difficulty Easy)).
Proof. reflexivity. Qed.

(** ** What the painter is told *)
Record NativeSnapshot := mkSnapshot {
  ns_screen : Screen; ns_values : grid; ns_states : list (list Z); ns_notes : list (list (list bool));
  ns_selected : option (nat * nat); ns_lives : Z; ns_max_lives : Z; ns_hints : Z; ns_elapsed : Z; ns_max_time : Z;
  ns_difficulty : string; ns_note_mode : bool; ns_paused : bool; ns_shake_offset : Z; ns_result : Z
}.

Definition state_code (st : CellState) : Z :=
  match st with
  | CellState.Empty => 0 | CellState.Given => 1 | CellState.Player => 2 | CellState.Error => 3 | CellState.Hint => 4
  end.

Definition result_code (r : SessionResult) : Z :=
  match r with
  | SessionResult.Ongoing => 0 | SessionResult.Win => 1 | SessionResult.LoseLives => 2 | SessionResult.LoseTime => 3
  end.

Definition snapshot_from_session (screen : Screen) (s : GameSession) (selected : option (nat * nat)) (note_mode : bool)
    (shake_offset : Z) : NativeSnapshot :=
  mkSnapshot screen (gs_values s) (map (map state_code) (gs_states s)) (gs_notes s) selected (gs_lives s)
    (max_lives (gs_config s)) (hints_remaining s) (gs_elapsed s) (max_time_sec (gs_config s)) (dc_name (gs_config s))
    note_mode (gs_paused s) shake_offset (result_code (gs_result s)).

(** ** The game

    [sg_running] and [sg_snapshot] are what the shared flag and the shared
    snapshot hold after the game's last write; the lock is never poisoned,
    since no holder panics. *)
Record SavedGame := mkSaved { sv_session : GameSession; sv_selected : option (nat * nat); sv_note_mode : bool }.

Record BoardUi := {
  bu_board_root : UiNodeId; bu_main_menu_root : UiNodeId; bu_menu_root : UiNodeId;
  bu_cells : list (list UiNodeId); bu_labels : list (list UiNodeId); bu_status : UiNodeId
}.

Record SudokuGame := mkGame {
  sg_board : BoardUi;
  sg_session : GameSession;
  sg_saved : option SavedGame;
  sg_selected : option (nat * nat);
  sg_note_mode : bool;
  sg_screen : Screen;
  sg_snapshot : NativeSnapshot;
  sg_running : bool;
  sg_shake_remaining_ns : Z;
  sg_shake_phase : Z
}.

Definition game_new (board : BoardUi) (s : GameSession) (snapshot : NativeSnapshot) (running : bool) : SudokuGame :=
  mkGame board s None None false Screen.MainMenu snapshot running 0 0.

Definition game_session (g : SudokuGame) (s : GameSession) : SudokuGame :=
  mkGame (sg_board g) s (sg_saved g) (sg_selected g) (sg_note_mode g) (sg_screen g) (sg_snapshot g) (sg_running g)
    (sg_shake_remaining_ns g) (sg_shake_phase g).
Definition game_saved (g : SudokuGame) (x : option SavedGame) : SudokuGame :=
  mkGame (sg_board g) (sg_session g) x (sg_selected g) (sg_note_mode g) (sg_screen g) (sg_snapshot g) (sg_running g)
    (sg_shake_remaining_ns g) (sg_shake_phase g).
Definition game_selected (g : SudokuGame) (x : option (nat * nat)) : SudokuGame :=
  mkGame (sg_board g) (sg_session g) (sg_saved g) x (sg_note_mode g) (sg_screen g) (sg_snapshot g) (sg_running g)
    (sg_shake_remaining_ns g) (sg_shake_phase g).
Definition game_note_mode (g : SudokuGame) (x : bool) : SudokuGame :=
  mkGame (sg_board g) (sg_session g) (sg_saved g) (sg_selected g) x (sg_screen g) (sg_snapshot g) (sg_running g)
    (sg_shake_remaining_ns g) (sg_shake_phase g).
Definition game_screen (g : SudokuGame) (x : Screen) : SudokuGame :=
  mkGame (sg_board g) (sg_session g) (sg_saved g) (sg_selected g) (sg_note_mode g) x (sg_snapshot g) (sg_running g)
    (sg_shake_remaining_ns g) (sg_shake_phase g).
Definition game_snapshot (g : SudokuGame) (x : NativeSnapshot) : SudokuGame :=
  mkGame (sg_board g) (sg_session g) (sg_saved g) (sg_selected g) (sg_note_mode g) (sg_screen g) x (sg_running g)
    (sg_shake_remaining_ns g) (sg_shake_phase g).
Definition game_quit (g : SudokuGame) : SudokuGame :=
  mkGame (sg_board g) (sg_session g) (sg_saved g) (sg_selected g) (sg_note_mode g) (sg_screen g) (sg_snapshot g) false
    (sg_shake_remaining_ns g) (sg_shake_phase g).
Definition game_shake (g : SudokuGame) (remaining phase : Z) : SudokuGame :=
  mkGame (sg_board g) (sg_session g) (sg_saved g) (sg_selected g) (sg_note_mode g) (sg_screen g) (sg_snapshot g) (sg_running g)
    remaining phase.

Definition saved_capture (s : GameSession) (selected : option (nat * nat)) (note_mode : bool) : SavedGame :=
  mkSaved (with_paused s true) selected note_mode.

Definition saved_restore (x : SavedGame) : GameSession * option (nat * nat) * bool :=
  (with_paused (sv_session x) false, sv_selected x, sv_note_mode x).

Definition save_current_session (g : SudokuGame) : SudokuGame :=
  if ongoing (sg_session g) then game_saved g (Some (saved_capture (sg_session g) (sg_selected g) (sg_note_mode g))) else g.

Definition restore_saved_session (g : SudokuGame) : SudokuGame * bool :=
  match sg_saved g with
  | None => (g, false)
  | Some saved =>
      let '(s, selected, note_mode) := saved_restore saved in
      (game_shake (game_note_mode (game_selected (game_session (game_saved g None) s) selected) note_mode) 0 0, true)
  end.

Definition discard_saved_session (g : SudokuGame) : SudokuGame := game_saved g None.

Definition shake_offset (g : SudokuGame) : Z :=
  if sg_shake_remaining_ns g =? 0 then 0
  else match sg_shake_phase g mod 6 with 0 => -6 | 1 => 6 | 2 => -4 | 3 => 4 | 4 => -2 | _ => 0 end.

Definition sync_snapshot (g : SudokuGame) : SudokuGame :=
  game_snapshot g (snapshot_from_session (sg_screen g) (sg_session g) (sg_selected g) (sg_note_mode g) (shake_offset g)).

(** ** Publishing

    The operations return the commands they publish to the UI, in order; the
    tick sends them ([publish_all]).  Nothing reads the answers, so that sending
    them together at the end is the same.  A text that cannot be made is a
    panic, as is a cell outside of the board. *)
Definition chars (s : string) : list Z := map (fun a => Z.of_nat (Ascii.nat_of_ascii a)) (String.list_ascii_of_string s).
Definition BULLET : list Z := [32; 8226; 32].

(** [{}] of an unsigned integer of at most 32 bits. *)
Fixpoint decimal_loop (fuel : nat) (n : Z) : list Z :=
  match fuel with
  | O => []
  | S fuel => (if n <? 10 then [] else decimal_loop fuel (n / 10)) ++ [48 + n mod 10]
  end.
Definition decimal : Z -> list Z := decimal_loop 10.

Definition centi (n : Z) : f32 := fdiv (f32_of_Z n) (f32_of_Z 100).
Definition rgba_centi (r g b a : Z) : rgba := {| c_r := centi r; c_g := centi g; c_b := centi b; c_a := centi a |}.

Definition cell_style (value : Z) (st : CellState) (selected : bool) : UiStyle := {|
  s_width := UiLength.Points (f32_of_Z 62); s_height := UiLength.Points (f32_of_Z 62);
  min_width := min_width style_default; min_height := min_height style_default;
  max_width := max_width style_default; max_height := max_height style_default;
  margin := margin style_default; padding := padding style_default; gap := gap style_default;
  direction := direction style_default; align := align style_default; position := position style_default;
  background :=
    if selected then rgba_centi 72 84 100 100
    else if bool_decide (st = CellState.Error) then rgba_centi 100 82 82 100
    else if bool_decide (st = CellState.Hint) then rgba_centi 82 95 84 100
    else if value =? 0 then rgba_centi 99 99 100 100
    else rgba_centi 89 92 96 100;
  gradient := gradient style_default;
  border := rgba_centi 72 78 86 100;
  border_width := f32_of_Z 1;
  corner_radius := corner_radius style_default; overflow := overflow style_default;
  scroll_x := scroll_x style_default; scroll_y := scroll_y style_default |}.

Definition digit_text (value : Z) : list Z := if (1 <=? value) && (value <=? 9) then [48 + value] else [].

Definition no_node : UiNodeId := {| n_index := 0; n_generation := 0 |}.

Section Publishing.
Context (A : alloc).

Definition new_text (value : list Z) (max_bytes : Z) : option UiText :=
  match text_try_new A value max_bytes with Ok t => Some t | Err _ => None end.

Definition publish_status (node : UiNodeId) (status : list Z) : option (list UiCommand) :=
  t ← new_text status 128; Some [UiCommand.SetText node t].

Definition publish_visibility (node : UiNodeId) (visible : bool) : list UiCommand := [UiCommand.SetVisible node visible].

(** The indexing of the nine by nine arrays. *)
Definition on_board (r c : nat) : option unit := if (r <? 9)%nat && (c <? 9)%nat then Some tt else None.

Definition publish_cell_style (node : UiNodeId) (s : GameSession) (r c : nat) (selected : bool) : option (list UiCommand) :=
  _ ← on_board r c;
  Some [UiCommand.SetStyle node (cell_style (cell (gs_values s) r c) (state_at (gs_states s) r c) selected)].

Definition cell_label (s : GameSession) (r c : nat) : list Z :=
  if negb (cell (gs_values s) r c =? 0) then digit_text (cell (gs_values s) r c)
  else concat (imap (fun index marked => if (marked : bool) then [49 + Z.of_nat index] else []) (at2 no_notes (gs_notes s) r c)).

Definition cell_node (b : BoardUi) (r c : nat) : UiNodeId := at2 no_node (bu_cells b) r c.
Definition label_node (b : BoardUi) (r c : nat) : UiNodeId := at2 no_node (bu_labels b) r c.

Definition publish_cell (b : BoardUi) (s : GameSession) (r c : nat) (selected : bool) : option (list UiCommand) :=
  _ ← on_board r c;
  t ← new_text (cell_label s r c) 16;
  style ← publish_cell_style (cell_node b r c) s r c selected;
  Some (UiCommand.SetText (label_node b r c) t :: style).

(** [f] on every cell, row by row. *)
Fixpoint on_cells (cells : list (nat * nat)) (f : nat -> nat -> option (list UiCommand)) : option (list UiCommand) :=
  match cells with
  | [] => Some []
  | (r, c) :: cells => x ← f r c; y ← on_cells cells f; Some (x ++ y)
  end.
Definition all_cells : list (nat * nat) := flat_map (fun r => map (pair r) nine) nine.

(** ** Actions *)
Definition clamp8 (z : Z) : nat := Z.to_nat (Z.max 0 (Z.min z 8)).

Definition act_move (g : SudokuGame) (row_delta column_delta : Z) : option (SudokuGame * list UiCommand) :=
  let '(row, column) := default (0%nat, 0%nat) (sg_selected g) in
  let next_row := clamp8 (Z.of_nat row + row_delta) in
  let next_column := clamp8 (Z.of_nat column + column_delta) in
  let g := game_selected g (Some (next_row, next_column)) in
  p ← publish_cell_style (cell_node (sg_board g) row column) (sg_session g) row column false;
  q ← publish_cell_style (cell_node (sg_board g) next_row next_column) (sg_session g) next_row next_column true;
  Some (g, p ++ q).

Definition act_toggle_note (g : SudokuGame) : option (SudokuGame * list UiCommand) :=
  let g := game_note_mode g (negb (sg_note_mode g)) in
  p ← publish_status (bu_status (sg_board g)) (chars (if sg_note_mode g then "Note mode on" else "Note mode off"));
  Some (g, p).

Definition act_clear (g : SudokuGame) : option (SudokuGame * list UiCommand) :=
  match sg_selected g with
  | Some (row, column) =>
      let g := game_session g (session_clear (sg_session g) row column) in
      p ← publish_cell (sg_board g) (sg_session g) row column true;
      q ← publish_status (bu_status (sg_board g)) (chars "Cell cleared");
      Some (g, p ++ q)
  | None => Some (g, [])
  end.

(** A hint for the selected cell if that is blank, otherwise for the first
    blank one. *)
Definition act_hint (g : SudokuGame) : option (SudokuGame * list UiCommand) :=
  '(s, hinted) ←
    (match sg_selected g with
     | Some (row, column) =>
         _ ← on_board row column;
         Some (if (cell (gs_values (sg_session g)) row column =? 0) && negb (is_given (sg_session g) row column)
               then hint_at (sg_session g) row column else (sg_session g, None))
     | None => Some (sg_session g, None)
     end);
  let '(s, hinted) := match hinted with Some _ => (s, hinted) | None => hint s end in
  let g := game_session g s in
  match hinted with
  | Some (row, column, _) =>
      let g := game_selected g (Some (row, column)) in
      p ← publish_cell (sg_board g) (sg_session g) row column true;
      q ← publish_status (bu_status (sg_board g)) (chars "Hint used");
      Some (g, p ++ q)
  | None => p ← publish_status (bu_status (sg_board g)) (chars "No hints remaining"); Some (g, p)
  end.

Definition act_pause (g : SudokuGame) : option (SudokuGame * list UiCommand) :=
  if ongoing (sg_session g) then
    let g := game_session g (with_paused (sg_session g) (negb (gs_paused (sg_session g)))) in
    let g := if gs_paused (sg_session g) then save_current_session g else g in
    p ← publish_status (bu_status (sg_board g)) (chars (if gs_paused (sg_session g) then "Paused" else "Resumed"));
    Some (g, p)
  else p ← publish_status (bu_status (sg_board g)) (chars "Session finished | choose Menu"); Some (g, p).

Definition won_status (s : GameSession) : list Z :=
  let '(stars, points) := score s in
  chars "Solved " ++ chars (dc_name (gs_config s)) ++ BULLET ++ decimal stars ++ chars " stars" ++ BULLET ++
  decimal points ++ chars " points".

Definition act_digit (g : SudokuGame) (value : Z) : option (SudokuGame * list UiCommand) :=
  match sg_selected g with
  | None => Some (g, [])
  | Some (row, column) =>
      if sg_note_mode g then
        let g := game_session g (toggle_note (sg_session g) row column value) in
        p ← publish_cell (sg_board g) (sg_session g) row column true;
        Some (g, p)
      else
        let '(s, (accepted, correct)) := make_move (sg_session g) row column value in
        let g := game_session g s in
        let g := if accepted && negb correct then game_shake g 300000000 0 else g in
        p ← publish_cell (sg_board g) (sg_session g) row column true;
        q ← publish_status (bu_status (sg_board g))
              (if negb correct then chars "Wrong number: life lost"
               else if bool_decide (gs_result (sg_session g) = SessionResult.Win) then won_status (sg_session g)
               else chars "Good move");
        Some (g, p ++ q)
  end.

Definition apply_action (g : SudokuGame) (action : GameAction) : option (SudokuGame * list UiCommand) :=
  match action with
  | GameAction.Move row_delta column_delta => act_move g row_delta column_delta
  | GameAction.ToggleNote => act_toggle_note g
  | GameAction.Clear => act_clear g
  | GameAction.Hint => act_hint g
  | GameAction.Pause => act_pause g
  | GameAction.Digit value => act_digit g value
  end.

(** ** Screens *)
Definition show_board (g : SudokuGame) : list UiCommand :=
  publish_visibility (bu_main_menu_root (sg_board g)) false ++ publish_visibility (bu_menu_root (sg_board g)) false ++
  publish_visibility (bu_board_root (sg_board g)) true.

Definition show_main_menu (g : SudokuGame) : option (list UiCommand) :=
  p ← publish_status (bu_status (sg_board g)) (chars "Choose an option");
  Some (publish_visibility (bu_board_root (sg_board g)) false ++ publish_visibility (bu_main_menu_root (sg_board g)) true ++ p).

Definition tick_main_menu (g : SudokuGame) (target : option HitTarget) : option (SudokuGame * list UiCommand) :=
  match target with
  | Some (HitTarget.Menu MenuAction.Continue) =>
      match restore_saved_session g with
      | (g, true) =>
          let g := game_screen g Screen.Playing in
          p ← on_cells all_cells (fun r c => publish_cell (sg_board g) (sg_session g) r c (bool_decide (sg_selected g = Some (r, c))));
          q ← publish_status (bu_status (sg_board g)) (chars "Game continued");
          Some (g, show_board g ++ p ++ q)
      | (g, false) => p ← publish_status (bu_status (sg_board g)) (chars "No saved game"); Some (g, p)
      end
  | Some (HitTarget.Menu MenuAction.NewGame) =>
      let g := game_screen g Screen.Difficulty in
      p ← publish_status (bu_status (sg_board g)) (chars "Choose a difficulty");
      Some (g, publish_visibility (bu_main_menu_root (sg_board g)) false ++ publish_visibility (bu_menu_root (sg_board g)) true ++ p)
  | Some (HitTarget.Menu MenuAction.Leaderboard) =>
      p ← publish_status (bu_status (sg_board g)) (chars "Leaderboard is ready for your scores"); Some (g, p)
  | Some (HitTarget.Menu MenuAction.Quit) => Some (game_quit g, [])
  | _ => Some (g, [])
  end.

Definition started_status (s : GameSession) : list Z :=
  chars "Game started | 1-9 enter numbers | " ++ decimal (hints_remaining s) ++ chars " hints".

Definition tick_difficulty (g : SudokuGame) (target : option HitTarget) : option (SudokuGame * list UiCommand) :=
  match target with
  | Some (HitTarget.Difficulty difficulty) =>
      s ← game_session_new difficulty;
      let g := game_session (discard_saved_session g) s in
      let g := game_shake (game_note_mode (game_selected (game_screen g Screen.Playing) None) false) 0 0 in
      p ← on_cells all_cells (fun r c => publish_cell (sg_board g) (sg_session g) r c false);
      q ← publish_status (bu_status (sg_board g)) (started_status (sg_session g));
      Some (g, show_board g ++ p ++ q)
  | _ => Some (g, [])
  end.

(** A click on a cell moves the selection. *)
Definition select_cell (g : SudokuGame) (target : option HitTarget) : option (SudokuGame * list UiCommand) :=
  match target with
  | Some (HitTarget.Cell row column) =>
      let '(row, column) := (Z.to_nat row, Z.to_nat column) in
      p ← (match sg_selected g with
           | Some (r, c) => publish_cell_style (cell_node (sg_board g) r c) (sg_session g) r c false
           | None => Some []
           end);
      q ← publish_cell_style (cell_node (sg_board g) row column) (sg_session g) row column true;
      Some (game_selected g (Some (row, column)), p ++ q)
  | _ => Some (g, [])
  end.

(** The action a click stands for; the two ways to the menu act at once. *)
Definition target_action (g : SudokuGame) (target : option HitTarget)
    : option (SudokuGame * option GameAction * list UiCommand) :=
  match target with
  | Some HitTarget.ResultMenu =>
      let g := game_selected (game_screen g Screen.MainMenu) None in
      p ← show_main_menu g; Some (g, None, p)
  | Some (HitTarget.Digit value) => Some (g, Some (GameAction.Digit value), [])
  | Some (HitTarget.Action PlayingAction.Erase) => Some (g, Some GameAction.Clear, [])
  | Some (HitTarget.Action PlayingAction.Note) => Some (g, Some GameAction.ToggleNote, [])
  | Some (HitTarget.Action PlayingAction.Hint) => Some (g, Some GameAction.Hint, [])
  | Some (HitTarget.Top TopAction.Pause) => Some (g, Some GameAction.Pause, [])
  | Some (HitTarget.Top TopAction.Menu) =>
      let g := save_current_session g in
      let g := game_screen (game_session g (with_paused (sg_session g) true)) Screen.MainMenu in
      p ← show_main_menu g; Some (g, None, p)
  | _ => Some (g, None, [])
  end.

Definition tick_playing (g : SudokuGame) (target : option HitTarget) (action : option GameAction)
    : option (SudokuGame * list UiCommand) :=
  '(g, p) ← select_cell g target;
  '(g, clicked, q) ← target_action g target;
  match (match clicked with Some a => Some a | None => action end) with
  | Some a => '(g, r) ← apply_action g a; Some (g, p ++ q ++ r)
  | None => Some (g, p ++ q)
  end.

Definition tick_screen (g : SudokuGame) (target : option HitTarget) (action : option GameAction)
    : option (SudokuGame * list UiCommand) :=
  '(g, p) ← (match sg_screen g with
             | Screen.MainMenu => tick_main_menu g target
             | Screen.Difficulty => tick_difficulty g target
             | Screen.Playing => tick_playing g target action
             end);
  Some (sync_snapshot g, p).

(** Time, before the messages are read. *)
Definition tick_time (g : SudokuGame) (dt_ns : Z) : SudokuGame :=
  let g := game_session g (session_tick (sg_session g) dt_ns) in
  if negb (sg_shake_remaining_ns g =? 0)
  then game_shake g (saturating_sub (sg_shake_remaining_ns g) dt_ns) (wrapping_add 8 (sg_shake_phase g) 1) else g.
End Publishing.

(** [Iterator::find_map]. *)
Fixpoint find_map {X Y} (f : X -> option Y) (l : list X) : option Y :=
  match l with
  | [] => None
  | x :: l => match f x with Some y => Some y | None => find_map f l end
  end.

(** ** The tick *)
Section Tick.
Context {P V : Type} `{!Payload InputFrame P} `{!Payload UiCommandMessage P}.

Abbreviation click := (option HitTarget * option GameAction)%type.

Definition frame_target (g : SudokuGame) (frame : InputFrame) : option HitTarget :=
  if bool_decide (sg_screen g = Screen.Playing) && negb (ongoing (sg_session g))
  then hit_test_result_menu (if_mouse_x frame) (if_mouse_y frame)
  else screen_hit_test (sg_screen g) (if_mouse_x frame) (if_mouse_y frame).

Definition sudoku_message (g : SudokuGame) (_k : nat) (s : click) (e : Envelope P) : option click :=
  if env_topic e =? 2 then
    match envelope_downcast (downcast (T := InputFrame)) e with
    | Ok frame =>
        let target := if negb (Z.land (if_pressed_buttons frame) 1 =? 0) then frame_target g frame else fst s in
        Some (target, find_map action_from_key (counted (if_pressed_key_count frame) (if_pressed_keys frame)))
    | Err _ => Some s
    end
  else Some s.

Fixpoint publish_all (debug : bool) (c : KernelContext P V) (ui : SubscriberId) (cmds : list UiCommand)
    : option (KernelContext P V) :=
  match cmds with
  | [] => Some c
  | cmd :: cmds =>
      '(c, _) ← ctx_publish debug c ui 4 (into {| ucm_command := cmd |}); publish_all debug c ui cmds
  end.

Definition sudoku_tick (A : alloc) (debug : bool) (g : SudokuGame) (c : KernelContext P V) (dt_ns : Z)
    : option (SudokuGame * KernelContext P V) :=
  let g := tick_time g dt_ns in
  '(c, (target, action)) ← receive_all (sudoku_message g) c (None, None);
  match ctx_resolve c "ui" with
  | None => Some (g, c)
  | Some ui => '(g, cmds) ← tick_screen A g target action; c ← publish_all debug c ui cmds; Some (g, c)
  end.
End Tick.

(** ** A click hits what it points at *)
Abbreviation box := (Z * Z * Z * Z)%type.
Definition in_rect (R : box) (x y : Z) : Prop := let '(x0, y0, w, h) := R in x0 <= x < x0 + w /\ y0 <= y < y0 + h.
Definition separated (R S : box) : Prop :=
  let '(x0, y0, w0, h0) := R in let '(x1, y1, w1, h1) := S in
  x0 + w0 <= x1 \/ x1 + w1 <= x0 \/ y0 + h0 <= y1 \/ y1 + h1 <= y0.

(** Where a target is shown. *)
Definition target_rect (l : PlayingLayout) (t : HitTarget) : option box :=
  match t with
  | HitTarget.Cell row column =>
      if (0 <=? row) && (row <? 9) && (0 <=? column) && (column <? 9)
      then Some (board_x l + column * cell_size l, board_y l + row * cell_size l, cell_size l, cell_size l) else None
  | HitTarget.Digit value =>
      if (1 <=? value) && (value <=? 9)
      then Some (control_x l + match value with 1 | 4 | 7 => 0 | 2 | 5 | 8 => 66 | _ => 132 end,
                 control_y l + (if value <=? 3 then 0 else if value <=? 6 then 66 else 132), 56, 56) else None
  | HitTarget.Action PlayingAction.Erase => Some (control_x l, action_y l, 56, 72)
  | HitTarget.Action PlayingAction.Note => Some (control_x l + 66, action_y l, 56, 72)
  | HitTarget.Action PlayingAction.Hint => Some (control_x l + 132, action_y l, 56, 72)
  | HitTarget.Top TopAction.Pause => Some (control_x l, top_y l, 89, 40)
  | HitTarget.Top TopAction.Menu => Some (control_x l + 99, top_y l, 89, 40)
  | _ => None
  end.

Definition screen_rect (screen : Screen) (t : HitTarget) : option box :=
  match screen, t with
  | Screen.MainMenu, HitTarget.Menu MenuAction.Continue => Some (310, 280, 280, 56)
  | Screen.MainMenu, HitTarget.Menu MenuAction.NewGame => Some (310, 350, 280, 56)
  | Screen.MainMenu, HitTarget.Menu MenuAction.Leaderboard => Some (310, 420, 280, 56)
  | Screen.MainMenu, HitTarget.Menu MenuAction.Quit => Some (310, 490, 280, 56)
  | Screen.Difficulty, HitTarget.Difficulty Easy => Some (96, 280, 220, 280)
  | Screen.Difficulty, HitTarget.Difficulty Medium => Some (340, 280, 220, 280)
  | Screen.Difficulty, HitTarget.Difficulty Hard => Some (584, 280, 220, 280)
  | Screen.Playing, t => target_rect (for_window DESIGN_WIDTH DESIGN_HEIGHT) t
  | _, _ => None
  end.

Lemma contains_rect x y x0 y0 w h : contains x y x0 y0 w h = true <-> in_rect (x0, y0, w, h) x y.
Proof. unfold contains, in_rect. lia. Qed.

Lemma separated_spec R S x y : separated R S -> in_rect R x y -> in_rect S x y -> False.
Proof. destruct R as [[[? ?] ?] ?], S as [[[? ?] ?] ?]. unfold separated, in_rect. lia. Qed.

Lemma first_hit_sound {T} x y (l : list (T * box)) t : first_hit x y l = Some t -> exists R, (t, R) ∈ l /\ in_rect R x y.
Proof.
  induction l as [|[t0 [[[x0 y0] w] h]] l IH]; cbn [first_hit]; [done|].
  destruct (contains x y x0 y0 w h) eqn:E.
  - intros [= ->]. exists (x0, y0, w, h). split; [apply list_elem_of_here|by apply contains_rect].
  - intros H. destruct (IH H) as (R & HR & Hi). exists R. split; [by apply list_elem_of_further|done].
Qed.

Lemma first_hit_complete {T} x y (l : list (T * box)) t R : ForallOrdPairs (fun a b => separated (snd a) (snd b)) l ->
  (t, R) ∈ l -> in_rect R x y -> first_hit x y l = Some t.
Proof.
  induction 1 as [|[t0 [[[x0 y0] w] h]] l Hd _ IH]; intros Hin Hi; [by apply not_elem_of_nil in Hin|]. cbn [first_hit].
  apply elem_of_cons in Hin as [Heq|Hin].
  - inversion Heq; subst. by rewrite (proj2 (contains_rect _ _ _ _ _ _) Hi).
  - destruct (contains x y x0 y0 w h) eqn:E; [|by apply IH]. exfalso. apply contains_rect in E.
    rewrite list.Forall_forall in Hd. by apply (separated_spec _ _ x y (Hd _ Hin)).
Qed.

(** *** The playing screen *)
Record layout_ok (l : PlayingLayout) : Prop := {
  lo_button : button_size l = 56;
  lo_gap : gap_size l = 10;
  lo_board : board_size l = 9 * cell_size l /\ 40 <= cell_size l;
  lo_control : board_x l + board_size l <= control_x l;
  lo_top : top_y l + 40 <= control_y l;
  lo_action : action_y l = control_y l + 214
}.

Lemma for_window_ok w h : layout_ok (for_window w h).
Proof.
  unfold for_window. set (size := Z.max _ 360). assert (360 <= size) by lia.
  pose proof (Z.quot_div_nonneg size 9 ltac:(lia) ltac:(lia)) as Eq.
  pose proof (Z.div_mod size 9 ltac:(lia)). pose proof (Z.mod_pos_bound size 9 ltac:(lia)).
  constructor; cbn; rewrite ?Eq, ?Z.quot_mul by lia; lia.
Qed.

(** Nothing overflows for the sizes a window can have. *)
Lemma for_window_small w h : 0 <= w < 2 ^ 30 -> 0 <= h < 2 ^ 30 ->
  let l := for_window w h in
  Forall (fun z => 0 <= z < 2 ^ 31 - 400) [board_size l; cell_size l; panel_x l; control_x l; control_y l; action_y l].
Proof.
  intros Hw Hh. cbn zeta. unfold for_window. set (size := Z.max _ 360).
  pose proof (Z.quot_div_nonneg size 9 ltac:(lia) ltac:(lia)) as Eq.
  pose proof (Z.div_mod size 9 ltac:(lia)). pose proof (Z.mod_pos_bound size 9 ltac:(lia)).
  cbn [board_size cell_size panel_x control_x control_y action_y]. rewrite !Eq, !Z.quot_mul by lia.
  set (avail := Z.max _ (56 * 3 + 10 * 2)).
  pose proof (Z.quot_div_nonneg (avail - (56 * 3 + 10 * 2)) 2 ltac:(lia) ltac:(lia)) as Ea. rewrite !Ea.
  pose proof (Z.div_mod (avail - (56 * 3 + 10 * 2)) 2 ltac:(lia)).
  pose proof (Z.mod_pos_bound (avail - (56 * 3 + 10 * 2)) 2 ltac:(lia)).
  repeat (apply list.Forall_cons; split; [lia|]). done.
Qed.

Definition control_rects (l : PlayingLayout) : list (HitTarget * box) := digit_rects l ++ action_rects l ++ top_rects l.

Lemma cons_rect {T} (t t' : T) (a b c d a' b' c' d' : Z) l l' : t = t' -> a = a' -> b = b' -> c = c' -> d = d' -> l = l' ->
  (t, (a, b, c, d)) :: l = (t', (a', b', c', d')) :: l'.
Proof. by intros -> -> -> -> -> ->. Qed.

Lemma control_rects_eq l : layout_ok l -> control_rects l =
  map (fun t => (t, default (0, 0, 0, 0) (target_rect l t)))
    (map HitTarget.Digit [1; 2; 3; 4; 5; 6; 7; 8; 9] ++ map HitTarget.Action [PlayingAction.Erase; PlayingAction.Note; PlayingAction.Hint] ++
     map HitTarget.Top [TopAction.Pause; TopAction.Menu]).
Proof.
  intros [Hb Hg _ _ _ _]. unfold control_rects, digit_rects, action_rects, top_rects, top_width. rewrite Hb, Hg. cbn.
  change (Z.quot (56 * 3 + 10 * 2 - 10) 2) with 89. repeat (apply cons_rect; [first [reflexivity | lia]..|]). done.
Qed.

Lemma control_rects_separated l : layout_ok l -> ForallOrdPairs (fun a b => separated (snd a) (snd b)) (control_rects l).
Proof.
  intros H. rewrite control_rects_eq by done. destruct H as [_ _ _ _ Ht Ha]. cbn.
  repeat (constructor; [repeat (apply list.Forall_cons; split; [cbn; lia|]); apply list.Forall_nil; exact I|]). constructor.
Qed.

(** The targets of the controls are these. *)
Lemma control_target l t R : layout_ok l -> (t, R) ∈ control_rects l <->
  target_rect l t = Some R /\ match t with HitTarget.Cell _ _ => False | _ => True end.
Proof.
  intros H. rewrite control_rects_eq by done. split.
  - cbn. rewrite !elem_of_cons, elem_of_nil. intros Hin. repeat destruct Hin as [Hin|Hin]; [..|done]; by inversion Hin; subst.
  - intros [E Ht]. apply list_elem_of_fmap. exists t. rewrite E. split; [done|].
    destruct t as [a|c|row column|value|a|a|]; cbn in E; try done.
    + destruct (Z.leb_spec 1 value), (Z.leb_spec value 9); try done.
      assert (value = 1 \/ value = 2 \/ value = 3 \/ value = 4 \/ value = 5 \/ value = 6 \/ value = 7 \/ value = 8 \/ value = 9) as Hv by lia.
      apply elem_of_app. left. apply list_elem_of_fmap. exists value. split; [done|]. rewrite !elem_of_cons. lia.
    + apply elem_of_app. right. apply elem_of_app. left. apply list_elem_of_fmap. exists a. split; [done|].
      rewrite !elem_of_cons. destruct a; tauto.
    + apply elem_of_app. right. apply elem_of_app. right. apply list_elem_of_fmap. exists a. split; [done|].
      rewrite !elem_of_cons. destruct a; tauto.
Qed.

(** A point of the board is in exactly one cell. *)
Lemma board_cell l x y row column : layout_ok l -> in_rect (board_x l, board_y l, board_size l, board_size l) x y ->
  Z.quot (y - board_y l) (cell_size l) = row /\ Z.quot (x - board_x l) (cell_size l) = column <->
  exists R, target_rect l (HitTarget.Cell row column) = Some R /\ in_rect R x y.
Proof.
  intros [_ _ [Hb Hc] _ _ _] Hin. unfold in_rect in Hin.
  rewrite !Z.quot_div_nonneg by lia. cbn [target_rect]. split.
  - intros [<- <-]. pose proof (Z.div_mod (y - board_y l) (cell_size l) ltac:(lia)). pose proof (Z.mod_pos_bound (y - board_y l) (cell_size l) ltac:(lia)).
    pose proof (Z.div_mod (x - board_x l) (cell_size l) ltac:(lia)). pose proof (Z.mod_pos_bound (x - board_x l) (cell_size l) ltac:(lia)).
    assert (0 <= (y - board_y l) / cell_size l < 9) by (split; [apply Z.div_pos|apply Z.div_lt_upper_bound]; lia).
    assert (0 <= (x - board_x l) / cell_size l < 9) by (split; [apply Z.div_pos|apply Z.div_lt_upper_bound]; lia).
    destruct (_ && _) eqn:E; [|lia]. eexists. split; [done|]. cbn [in_rect]. lia.
  - intros (R & E & Hi). destruct (_ && _) eqn:Eb; [|done]. injection E as <-. cbn [in_rect] in Hi.
    split; symmetry; [apply (Z.div_unique _ _ _ (y - board_y l - row * cell_size l))|apply (Z.div_unique _ _ _ (x - board_x l - column * cell_size l))]; lia.
Qed.

Lemma cell_on_board l row column R x y : layout_ok l -> target_rect l (HitTarget.Cell row column) = Some R -> in_rect R x y ->
  in_rect (board_x l, board_y l, board_size l, board_size l) x y.
Proof.
  intros [_ _ [Hb Hc] _ _ _] E Hi. cbn [target_rect] in E. destruct (_ && _) eqn:Eb; [|done]. injection E as <-.
  cbn [in_rect] in *. nia.
Qed.

Lemma control_off_board l t R x y : layout_ok l -> (t, R) ∈ control_rects l -> in_rect R x y ->
  ~ in_rect (board_x l, board_y l, board_size l, board_size l) x y.
Proof.
  intros H Hin Hi. rewrite control_rects_eq in Hin by done. destruct H as [_ _ _ Hc Ht Ha]. cbn in Hin.
  rewrite !elem_of_cons, elem_of_nil in Hin. cbn [in_rect].
  repeat destruct Hin as [Hin|Hin]; [..|done]; inversion Hin; subst; cbn [in_rect] in Hi; lia.
Qed.

Lemma layout_hit_exact l x y t : layout_ok l ->
  layout_hit_test l x y = Some t <-> exists R, target_rect l t = Some R /\ in_rect R x y.
Proof.
  intros H. unfold layout_hit_test. fold (control_rects l).
  destruct (contains x y _ _ _ _) eqn:E.
  - apply contains_rect in E. split.
    + intros [= <-]. apply board_cell; [done|done|by split].
    + intros (R & Er & Hi). destruct t as [a|c|row column|value|a|a|]; [..|done];
        try (exfalso; eapply (control_off_board l _ R x y H); [apply control_target; [done|by split; [exact Er|]]|done|done]; fail).
      destruct (proj2 (board_cell l x y row column H E)) as [-> ->]; [by exists R|done].
  - split.
    + intros Hh. apply first_hit_sound in Hh as (R & Hin & Hi). exists R. by apply control_target in Hin as [? _].
    + intros (R & Er & Hi). apply (first_hit_complete x y _ t R); [by apply control_rects_separated| |done].
      apply control_target; [done|]. split; [done|]. destruct t; try done.
      by rewrite (proj2 (contains_rect _ _ _ _ _ _) (cell_on_board l _ _ R x y H Er Hi)) in E.
Qed.

Lemma menu_rects_separated : ForallOrdPairs (fun a b => separated (snd a) (snd b)) menu_rects.
Proof. cbn. repeat (constructor; [repeat (apply list.Forall_cons; split; [cbn; lia|]); apply list.Forall_nil; exact I|]). constructor. Qed.

Lemma card_rects_separated : ForallOrdPairs (fun a b => separated (snd a) (snd b)) card_rects.
Proof. cbn. repeat (constructor; [repeat (apply list.Forall_cons; split; [cbn; lia|]); apply list.Forall_nil; exact I|]). constructor. Qed.

Lemma menu_target t R : (t, R) ∈ menu_rects <-> screen_rect Screen.MainMenu t = Some R.
Proof.
  cbn. rewrite !elem_of_cons, elem_of_nil. split.
  - intros Hin. repeat destruct Hin as [Hin|Hin]; [..|done]; by inversion Hin; subst.
  - destruct t as [[]| | | | | |]; intros [= <-]; tauto.
Qed.

Lemma card_target t R : (t, R) ∈ card_rects <-> screen_rect Screen.Difficulty t = Some R.
Proof.
  cbn. rewrite !elem_of_cons, elem_of_nil. split.
  - intros Hin. repeat destruct Hin as [Hin|Hin]; [..|done]; by inversion Hin; subst.
  - destruct t as [|[]| | | | |]; intros [= <-]; tauto.
Qed.

Lemma hit_test_exact screen x y t : screen_hit_test screen x y = Some t <-> exists R, screen_rect screen t = Some R /\ in_rect R x y.
Proof.
  destruct screen; cbn [screen_hit_test].
  - setoid_rewrite <- menu_target. split; [apply first_hit_sound|]. intros (R & H1 & H2).
    by apply (first_hit_complete _ _ _ _ R menu_rects_separated).
  - setoid_rewrite <- card_target. split; [apply first_hit_sound|]. intros (R & H1 & H2).
    by apply (first_hit_complete _ _ _ _ R card_rects_separated).
  - rewrite layout_hit_exact by apply for_window_ok. by destruct t.
Qed.

(** Clicks and pictures agree: on every screen, and on the playing screen for
    every window size, a point hits a target exactly when it lies in the
    rectangle where the target is shown; so no two targets overlap, every
    shown pixel of a target is live, and a click between them does nothing. *)
Theorem sudoku_hits_exact x y t :
  (forall screen, screen_hit_test screen x y = Some t <-> exists R, screen_rect screen t = Some R /\ in_rect R x y) /\
  (forall w h, layout_hit_test (for_window w h) x y = Some t <->
   exists R, target_rect (for_window w h) t = Some R /\ in_rect R x y).
Proof. split; [intros screen; apply hit_test_exact|]. intros w h. apply layout_hit_exact, for_window_ok. Qed.

(** ** The invariant *)
Definition on_grid (x : option (nat * nat)) : Prop := match x with Some (r, c) => inside r c | None => True end.

(** The session's own puzzle is the one dealt for its difficulty, and every
    cell, note, life, hint and the clock agree with it: a clue shows the digit
    of the puzzle and stays a clue, every other cell is blank, right or wrong
    as its state says. *)
Definition dealt (d : Difficulty) (puzzle : grid) : Prop :=
  exists s0, game_session_new d = Some s0 /\ gs_puzzle s0 = puzzle.

Definition consistent (s : GameSession) : Prop :=
  exists d, dealt d (gs_puzzle s) /\ session_ok d (gs_puzzle s) s.

Record saved_ok (x : SavedGame) : Prop := {
  sk_session : consistent (sv_session x);
  sk_ongoing : gs_result (sv_session x) = SessionResult.Ongoing;
  sk_paused : gs_paused (sv_session x) = true;
  sk_selected : on_grid (sv_selected x)
}.

Record game_ok (g : SudokuGame) : Prop := {
  ga_session : consistent (sg_session g);
  ga_saved x : sg_saved g = Some x -> saved_ok x;
  ga_selected : on_grid (sg_selected g);
  ga_shake : is_u 64 (sg_shake_remaining_ns g) /\ is_u 8 (sg_shake_phase g)
}.

(** What the UI is sent: sane styles and texts within its budget. *)
Definition command_fine (c : UiCommand) : Prop :=
  match c with
  | UiCommand.SetText _ t => str_len (text_value t) <= 128
  | UiCommand.SetStyle _ style => style_sane style = true
  | UiCommand.SetVisible _ _ => True
  | _ => False
  end.

Lemma consistent_step s call : consistent s -> call_ok call -> consistent (session_step s call).
Proof.
  intros (d & Hp & Hs) Hc. exists d. rewrite step_puzzle. split; [done|].
  by apply step_ok.
Qed.

Lemma consistent_paused s b : consistent s -> (gs_result s <> SessionResult.Ongoing -> b = true) -> consistent (with_paused s b).
Proof. intros (d & Hp & []) Hb. exists d. split; [done|]. by constructor. Qed.

Lemma session_new_consistent d : exists s, game_session_new d = Some s /\ consistent s /\
  gs_result s = SessionResult.Ongoing /\ gs_hints_used s = 0.
Proof.
  destruct (generate_spec 0x5EED2026 d) as (puzzle & E & Hp & _); [done|]. exists (session_on d puzzle).
  assert (En : game_session_new d = Some (session_on d puzzle)) by (unfold game_session_new; rewrite E; reflexivity).
  split; [exact En|]. split; [|by split]. exists d.
  exact (conj (ex_intro _ (session_on d puzzle) (conj En eq_refl)) (session_on_ok d puzzle Hp)).
Qed.

(** *** Texts *)
Lemma str_len_app a b : str_len (a ++ b) = str_len a + str_len b.
Proof. unfold str_len. induction a as [|c a IH]; cbn [app foldr]; lia. Qed.

Lemma str_len_ascii l : Forall (fun c => 0 <= c < 128) l -> str_len l = zlen l.
Proof.
  unfold str_len, zlen. induction 1 as [|c l Hc _ IH]; cbn [foldr length]; [done|].
  assert (E : utf8_len c = 1) by (unfold utf8_len; by rewrite (proj2 (Z.ltb_lt c 128)) by lia). lia.
Qed.

Lemma decimal_len n : str_len (decimal n) <= 10.
Proof.
  assert (H : forall fuel n, Forall (fun c => 0 <= c < 128) (decimal_loop fuel n) /\ (length (decimal_loop fuel n) <= fuel)%nat).
  { induction fuel as [|fuel IH]; intros m; cbn [decimal_loop]; [by split; [constructor|]|].
    pose proof (Z.mod_pos_bound m 10 ltac:(lia)) as Hm. rewrite length_app. cbn [length].
    destruct (m <? 10); [split; [by repeat constructor; lia|cbn; lia]|]. destruct (IH (m / 10)) as [H1 H2]. split; [|lia].
    apply Forall_app_2; [done|]. by repeat constructor; lia. }
  destruct (H 10%nat n) as [H1 H2]. unfold decimal. rewrite str_len_ascii by done. unfold zlen. lia.
Qed.

Lemma name_len s : consistent s -> str_len (chars (dc_name (gs_config s))) <= 6.
Proof. intros (d & _ & Hs). rewrite (so_config _ _ _ Hs). by destruct d. Qed.

Lemma won_len s : consistent s -> str_len (won_status s) <= 128.
Proof.
  intros H. pose proof (name_len s H). unfold won_status. destruct (score s) as [stars points].
  pose proof (decimal_len stars). pose proof (decimal_len points). rewrite !str_len_app.
  change (str_len (chars "Solved ")) with 7. change (str_len BULLET) with 5. change (str_len (chars " stars")) with 6.
  change (str_len (chars " points")) with 7. lia.
Qed.

Lemma started_len s : str_len (started_status s) <= 128.
Proof.
  unfold started_status. pose proof (decimal_len (hints_remaining s)). rewrite !str_len_app.
  change (str_len (chars "Game started | 1-9 enter numbers | ")) with 35. change (str_len (chars " hints")) with 6. lia.
Qed.

Lemma digit_text_len v : str_len (digit_text v) <= 16.
Proof.
  unfold digit_text. destruct (_ && _) eqn:E; [|done]. rewrite str_len_ascii; [done|]. repeat constructor; lia.
Qed.

Lemma marks_len l : (length l <= 9)%nat ->
  str_len (concat (imap (fun index marked => if (marked : bool) then [49 + Z.of_nat index] else []) l)) <= 9.
Proof.
  assert (H : forall l k, (k + length l <= 9)%nat ->
    str_len (concat (imap (fun index marked => if (marked : bool) then [49 + Z.of_nat (k + index)] else []) l)) <= Z.of_nat (length l)).
  { clear. induction l as [|b l IH]; intros k Hk; cbn [length] in Hk; [done|]. rewrite imap_cons. cbn [concat]. rewrite str_len_app.
    assert (E : concat (imap ((fun index marked => if (marked : bool) then [49 + Z.of_nat (k + index)] else []) ∘ S) l) =
      concat (imap (fun index marked => if (marked : bool) then [49 + Z.of_nat (S k + index)] else []) l)).
    { f_equal. apply imap_ext. intros i x _. cbn. destruct x; [|done]. f_equal. lia. }
    rewrite E. specialize (IH (S k) ltac:(lia)). cbn [length]. destruct b; [|change (str_len []) with 0; lia].
    rewrite str_len_ascii by (repeat constructor; lia). unfold zlen. cbn [length]. lia. }
  intros Hl. etransitivity; [exact (H l 0%nat Hl)|lia].
Qed.

Lemma label_len s r c : consistent s -> inside r c -> str_len (cell_label s r c) <= 16.
Proof.
  intros (d & _ & Hs) Hi. unfold cell_label. destruct (negb _); [apply digit_text_len|].
  destruct (so_note _ _ _ Hs r c Hi) as [Hn _]. pose proof (marks_len (at2 no_notes (gs_notes s) r c) ltac:(lia)). lia.
Qed.

Lemma style_fine v st selected : style_sane (cell_style v st selected) = true.
Proof. destruct selected, st; cbn [cell_style]; try (vm_compute; reflexivity); unfold cell_style; destruct (v =? 0); vm_compute; reflexivity. Qed.

(** *** What is published *)
Section PublishSpec.
Context (A : alloc) (HA : A 0%nat = true).

Lemma new_text_ok value max : str_len value <= max -> new_text A value max = Some {| text_value := value |}.
Proof. intros H. unfold new_text, text_try_new. by rewrite (proj2 (Z.ltb_ge _ _)), HA by lia. Qed.

Lemma publish_status_ok node status : str_len status <= 128 -> exists p, publish_status A node status = Some p /\ Forall command_fine p.
Proof. intros H. unfold publish_status. rewrite new_text_ok by done. cbn. eexists. split; [done|]. by repeat constructor. Qed.

Lemma on_board_ok r c : inside r c -> on_board r c = Some tt.
Proof. intros [Hr Hc]. unfold on_board. by rewrite (proj2 (Nat.ltb_lt _ _) Hr), (proj2 (Nat.ltb_lt _ _) Hc). Qed.

Lemma publish_style_ok node s r c b : inside r c -> exists p, publish_cell_style node s r c b = Some p /\ Forall command_fine p.
Proof.
  intros H. unfold publish_cell_style. rewrite on_board_ok by done. cbn [mbind option_bind]. eexists. split; [done|].
  repeat constructor. apply style_fine.
Qed.

Lemma publish_cell_ok b s r c x : consistent s -> inside r c -> exists p, publish_cell A b s r c x = Some p /\ Forall command_fine p.
Proof.
  intros Hs H. unfold publish_cell. rewrite on_board_ok by done. cbn [mbind option_bind].
  pose proof (label_len s r c Hs H). rewrite new_text_ok by done. cbn [mbind option_bind].
  destruct (publish_style_ok (cell_node b r c) s r c x H) as (p & -> & Hp). cbn [mbind option_bind]. eexists. split; [done|].
  constructor; [unfold command_fine; cbn [text_value]; lia|done].
Qed.

Lemma on_cells_ok f : (forall r c, inside r c -> exists p, f r c = Some p /\ Forall command_fine p) ->
  exists p, on_cells all_cells f = Some p /\ Forall command_fine p.
Proof.
  intros Hf. assert (H : Forall (fun rc => inside rc.1 rc.2) all_cells) by (vm_compute; repeat constructor; lia).
  induction H as [|[r c] l H _ IH]; cbn [on_cells]; [by exists []|]. destruct (Hf r c H) as (p & -> & Hp).
  destruct IH as (q & -> & Hq). cbn [mbind option_bind]. eexists. split; [done|]. by apply Forall_app_2.
Qed.

(** An operation on the game is fine: it returns, keeps the invariant and
    publishes only what the UI accepts. *)
Definition fine (r : option (SudokuGame * list UiCommand)) : Prop :=
  exists g p, r = Some (g, p) /\ game_ok g /\ Forall command_fine p.

Lemma fine_ret g p : game_ok g -> Forall command_fine p -> fine (Some (g, p)).
Proof. intros H1 H2. by exists g, p. Qed.

(** An operation that publishes after its work. *)
Lemma fine_after g (x : option (list UiCommand)) k : game_ok g -> (exists p, x = Some p /\ Forall command_fine p) ->
  (forall p, Forall command_fine p -> fine (k p)) -> fine (p ← x; k p).
Proof. intros Hg (p & -> & Hp) Hk. by apply Hk. Qed.

Lemma session_fine g s : game_ok g -> consistent s -> game_ok (game_session g s).
Proof. intros [H1 H2 H3 H4] Hs. by constructor. Qed.

Lemma selected_fine g x : game_ok g -> on_grid x -> game_ok (game_selected g x).
Proof. intros [H1 H2 H3 H4] Hx. by constructor. Qed.

Lemma screen_fine g x : game_ok g -> game_ok (game_screen g x).
Proof. intros [H1 H2 H3 H4]. by constructor. Qed.

Lemma saved_fine g : game_ok g -> game_ok (save_current_session g).
Proof.
  intros [H1 H2 H3 H4]. unfold save_current_session, ongoing. case_bool_decide as Ho; [|by constructor].
  constructor; [done| |done|done]. intros x [= <-]. constructor; cbn; [by apply consistent_paused|done|done|done].
Qed.

Lemma clamp8_small z : (clamp8 z < 9)%nat.
Proof. unfold clamp8. lia. Qed.

(** *** Actions *)
Lemma act_move_fine g dr dc : game_ok g -> fine (act_move g dr dc).
Proof.
  intros H. unfold act_move. destruct (default (0%nat, 0%nat) (sg_selected g)) as [r c] eqn:E.
  assert (Hi : inside r c).
  { pose proof (ga_selected _ H) as Hs. destruct (sg_selected g) as [[r' c']|]; cbn in E; inversion E; subst; [done|split; lia]. }
  assert (Hn : inside (clamp8 (Z.of_nat r + dr)) (clamp8 (Z.of_nat c + dc))) by (split; apply clamp8_small).
  apply (fine_after g); [done|by apply publish_style_ok|]. intros p Hp.
  apply (fine_after g); [done|by apply publish_style_ok|]. intros q Hq.
  apply fine_ret; [by apply selected_fine|by apply Forall_app_2].
Qed.

Lemma status_fine g node status : game_ok g -> str_len status <= 128 -> fine (p ← publish_status A node status; Some (g, p)).
Proof. intros Hg Hl. apply (fine_after g); [done|by apply publish_status_ok|]. intros p Hp. by apply fine_ret. Qed.

Lemma cell_status_fine g b s r c x node status : game_ok g -> consistent s -> inside r c -> str_len status <= 128 ->
  fine (p ← publish_cell A b s r c x; q ← publish_status A node status; Some (g, p ++ q)).
Proof.
  intros Hg Hs Hi Hl. apply (fine_after g); [done|by apply publish_cell_ok|]. intros p Hp.
  apply (fine_after g); [done|by apply publish_status_ok|]. intros q Hq. apply fine_ret; [done|by apply Forall_app_2].
Qed.

Lemma act_note_fine g : game_ok g -> fine (act_toggle_note A g).
Proof.
  intros H. unfold act_toggle_note. apply status_fine; [by destruct H|]. by destruct (sg_note_mode _).
Qed.

Lemma act_clear_fine g : game_ok g -> fine (act_clear A g).
Proof.
  intros H. unfold act_clear. pose proof (ga_selected _ H) as Hi. destruct (sg_selected g) as [[r c]|]; [|by apply fine_ret].
  pose proof (consistent_step _ (CallClear r c) (ga_session _ H) I) as Hs. by apply cell_status_fine; [apply session_fine| | |].
Qed.

Lemma hint_cell s s' r c v : consistent s -> (exists r0 c0, hint_at s r0 c0 = (s', Some (r, c, v))) \/ hint s = (s', Some (r, c, v)) ->
  consistent s' /\ inside r c.
Proof.
  intros Hs H. assert (K : forall r0 c0, hint_at s r0 c0 = (s', Some (r, c, v)) -> consistent s' /\ inside r c).
  { intros r0 c0 E. split; [pose proof (consistent_step _ (CallHintAt r0 c0) Hs I) as K; cbn in K; by rewrite E in K|].
    unfold hint_at in E. destruct (Nat.leb_spec 9 r0), (Nat.leb_spec 9 c0); cbn [orb] in E; try done.
    destruct (_ || _); [done|]. by inversion E; subst. }
  destruct H as [(r0 & c0 & E)|E]; [by eapply K|]. unfold hint in E. destruct (_ || _); [done|].
  destruct (first_empty _) as [[r0 c0]|]; [by eapply K|done].
Qed.

Lemma act_hint_fine g : game_ok g -> fine (act_hint A g).
Proof.
  intros H. unfold act_hint. pose proof (ga_selected _ H) as Hi. pose proof (ga_session _ H) as Hs.
  set (x := match sg_selected g with Some _ => _ | None => _ end).
  assert (Hx : exists s hinted, x = Some (s, hinted) /\ (hinted = None -> s = sg_session g) /\
    forall r c v, hinted = Some (r, c, v) -> exists r0 c0, hint_at (sg_session g) r0 c0 = (s, Some (r, c, v))).
  { unfold x. destruct (sg_selected g) as [[r c]|]; [|by eexists _, _].
    rewrite on_board_ok by done. cbn [mbind option_bind]. destruct (_ && _); [|by eexists _, _].
    destruct (hint_at (sg_session g) r c) as [s hinted] eqn:E. exists s, hinted. split; [done|]. split.
    - intros ->. unfold hint_at in E. by destruct (_ || _); inversion E.
    - intros r1 c1 v ->. by exists r, c. }
  destruct Hx as (s & hinted & -> & Hn & Hh). cbn [mbind option_bind]. destruct hinted as [[[r c] v]|].
  - destruct (hint_cell (sg_session g) s r c v Hs (or_introl (Hh r c v eq_refl))) as [Hs' Hi'].
    apply cell_status_fine; [by apply selected_fine; [apply session_fine|]|done|done|done].
  - rewrite (Hn eq_refl). destruct (hint (sg_session g)) as [s' [[[r c] v]|]] eqn:E.
    + destruct (hint_cell (sg_session g) s' r c v Hs (or_intror E)) as [Hs' Hi'].
      apply cell_status_fine; [by apply selected_fine; [apply session_fine|]|done|done|done].
    + apply status_fine; [|done]. apply session_fine; [done|].
      pose proof (consistent_step _ CallHint Hs I) as K. cbn in K. by rewrite E in K.
Qed.

Lemma act_pause_fine g : game_ok g -> fine (act_pause A g).
Proof.
  intros H. unfold act_pause, ongoing. case_bool_decide as Ho; [|by apply status_fine].
  assert (Hg : game_ok (game_session g (with_paused (sg_session g) (negb (gs_paused (sg_session g)))))).
  { apply session_fine; [done|]. apply consistent_paused; [apply H|done]. }
  set (g1 := game_session g _) in *.
  set (g2 := if gs_paused (sg_session g1) then save_current_session g1 else g1).
  apply status_fine; [|by destruct (gs_paused (sg_session g2))]. unfold g2.
  destruct (gs_paused (sg_session g1)); [by apply saved_fine|done].
Qed.

Lemma shake_fine g remaining phase : game_ok g -> is_u 64 remaining -> is_u 8 phase -> game_ok (game_shake g remaining phase).
Proof. intros [H1 H2 H3 H4] Hr Hp. by constructor. Qed.

Lemma act_digit_fine g v : game_ok g -> is_u 8 v -> fine (act_digit A g v).
Proof.
  intros H Hv. unfold act_digit. pose proof (ga_selected _ H) as Hi. destruct (sg_selected g) as [[r c]|]; [|by apply fine_ret].
  destruct (sg_note_mode g).
  - pose proof (consistent_step _ (CallNote r c v) (ga_session _ H) Hv) as Hs.
    apply (fine_after g); [done|by apply publish_cell_ok|]. intros p Hp. apply fine_ret; [by apply session_fine|done].
  - pose proof (consistent_step _ (CallMove r c v) (ga_session _ H) Hv) as Hs. cbn [session_step] in Hs.
    destruct (make_move (sg_session g) r c v) as [s [accepted correct]]. cbn [fst] in Hs.
    pose proof (session_fine g s H Hs) as Hg. set (g1 := game_session g s) in *.
    assert (Hg2 : game_ok (if accepted && negb correct then game_shake g1 300000000 0 else g1)).
    { destruct (_ && _); [|done]. by apply shake_fine. }
    set (g2 := if accepted && negb correct then _ else _) in *.
    assert (Es : sg_session g2 = s) by (unfold g2; by destruct (_ && _)).
    apply cell_status_fine; rewrite ?Es; [done|done|done|].
    destruct (negb correct); [done|]. case_bool_decide; [by apply won_len|done].
Qed.

Definition action_ok (a : GameAction) : Prop := match a with GameAction.Digit v => is_u 8 v | _ => True end.

Lemma apply_action_fine g a : game_ok g -> action_ok a -> fine (apply_action A g a).
Proof.
  intros H Ha. destruct a; cbn [apply_action].
  - by apply act_digit_fine.
  - by apply act_clear_fine.
  - by apply act_note_fine.
  - by apply act_hint_fine.
  - by apply act_pause_fine.
  - by apply act_move_fine.
Qed.

(** *** Screens *)
Lemma show_board_fine g : Forall command_fine (show_board g).
Proof. by repeat constructor. Qed.

Lemma show_main_menu_ok g : exists p, show_main_menu A g = Some p /\ Forall command_fine p.
Proof.
  unfold show_main_menu. destruct (publish_status_ok (bu_status (sg_board g)) (chars "Choose an option")) as (p & -> & Hp); [done|].
  cbn [mbind option_bind]. eexists. split; [done|]. by repeat constructor.
Qed.

(** A screen full of cells and a status. *)
Lemma board_fine g b s x node status q : game_ok g -> consistent s -> str_len status <= 128 -> Forall command_fine q ->
  fine (p ← on_cells all_cells (fun r c => publish_cell A b s r c (x r c)); t ← publish_status A node status; Some (g, q ++ p ++ t)).
Proof.
  intros Hg Hs Hl Hq. apply (fine_after g); [done|apply on_cells_ok; intros r c Hi; by apply publish_cell_ok|]. intros p Hp.
  apply (fine_after g); [done|by apply publish_status_ok|]. intros t Ht.
  apply fine_ret; [done|]. by repeat apply Forall_app_2.
Qed.

Lemma restored_fine g g' b : game_ok g -> restore_saved_session g = (g', b) -> game_ok g'.
Proof.
  intros H. unfold restore_saved_session. pose proof (ga_saved _ H) as H2.
  destruct (sg_saved g) as [x|]; [|by intros [= <- <-]].
  intros [= <- <-]. destruct (H2 x eq_refl) as [K1 K2 K3 K4].
  constructor; cbn; [by apply consistent_paused|done|done|by split].
Qed.

Lemma main_menu_fine g t : game_ok g -> fine (tick_main_menu A g t).
Proof.
  intros H. unfold tick_main_menu. destruct t as [[[]| | | | | |]|]; try (by apply fine_ret).
  - destruct (restore_saved_session g) as [g' [|]] eqn:E; pose proof (restored_fine _ _ _ H E) as H'.
    + apply board_fine; [by apply screen_fine|apply H'|done|apply show_board_fine].
    + by apply status_fine.
  - apply (fine_after g); [done|by apply publish_status_ok|]. intros p Hp. apply fine_ret; [by apply screen_fine|]. by repeat constructor.
  - by apply status_fine.
  - apply fine_ret; [|done]. destruct H as [H1 H2 H3 H4]. by constructor.
Qed.

Lemma difficulty_fine g t : game_ok g -> fine (tick_difficulty A g t).
Proof.
  intros H. unfold tick_difficulty. destruct t as [t|]; [|by apply fine_ret].
  destruct t as [a|d|r c|v|a|a|]; [by apply fine_ret| |by apply fine_ret..].
  destruct (session_new_consistent d) as (s & -> & Hs & _). cbn [mbind option_bind].
  apply board_fine; [|done|apply started_len|apply show_board_fine].
  destruct H as [H1 H2 H3 H4]. by constructor.
Qed.

(** What a hit target promises. *)
Definition target_ok (t : HitTarget) : Prop :=
  match t with
  | HitTarget.Cell r c => 0 <= r < 9 /\ 0 <= c < 9
  | HitTarget.Digit v => 1 <= v <= 9
  | _ => True
  end.

Lemma hit_target_ok screen x y t : screen_hit_test screen x y = Some t -> target_ok t.
Proof.
  intros H. apply hit_test_exact in H as (R & E & _). destruct screen; cbn [screen_rect] in E.
  - by destruct t.
  - by destruct t.
  - destruct t as [a|d|r c|v|a|a|]; try done; cbn [target_rect] in E; destruct (_ && _) eqn:Eb in E; cbn; try done; lia.
Qed.

Definition option_ok {X} (P : X -> Prop) (x : option X) : Prop := match x with Some x => P x | None => True end.

Lemma select_fine g t : game_ok g -> option_ok target_ok t -> fine (select_cell g t).
Proof.
  intros H Ht. unfold select_cell. destruct t as [t|]; [|by apply fine_ret].
  destruct t as [a|d|r c|v|a|a|]; [by apply fine_ret|by apply fine_ret| |by apply fine_ret..].
  cbn in Ht. assert (Hi : inside (Z.to_nat r) (Z.to_nat c)) by (split; lia).
  apply (fine_after g); [done| |].
  { pose proof (ga_selected _ H) as Hs. destruct (sg_selected g) as [[r0 c0]|]; [by apply publish_style_ok|by exists []]. }
  intros p Hp. apply (fine_after g); [done|by apply publish_style_ok|]. intros q Hq.
  apply fine_ret; [by apply selected_fine|by apply Forall_app_2].
Qed.

Lemma menu_fine g : game_ok g -> game_ok (game_screen (game_session (save_current_session g)
  (with_paused (sg_session (save_current_session g)) true)) Screen.MainMenu).
Proof.
  intros H. apply screen_fine, session_fine; [by apply saved_fine|]. apply consistent_paused; [|done].
  apply ga_session. by apply saved_fine.
Qed.

Lemma target_action_ok g t : game_ok g -> option_ok target_ok t ->
  exists g' a p, target_action A g t = Some (g', a, p) /\ game_ok g' /\ option_ok action_ok a /\ Forall command_fine p.
Proof.
  intros H Ht. unfold target_action.
  assert (R : forall g' a, game_ok g' -> option_ok action_ok a -> exists g1 a1 p, Some (g', a, []) = Some (g1, a1, p) /\
    game_ok g1 /\ option_ok action_ok a1 /\ Forall command_fine p) by (intros g' a Hg Ha; by exists g', a, []).
  assert (M : forall g', game_ok g' -> exists g1 a1 p, (p ← show_main_menu A g'; Some (g', None, p)) = Some (g1, a1, p) /\
    game_ok g1 /\ option_ok action_ok a1 /\ Forall command_fine p).
  { intros g' Hg. destruct (show_main_menu_ok g') as (p & -> & Hp). cbn [mbind option_bind]. by exists g', None, p. }
  destruct t as [t|]; [|by apply R]. destruct t as [a|d|r c|v|[]|[]|]; try (by apply R).
  - apply R; [done|]. cbn in *. unfold is_u. lia.
  - by apply M, menu_fine.
  - by apply M, selected_fine; [apply screen_fine|].
Qed.

Lemma playing_fine g t a : game_ok g -> option_ok target_ok t -> option_ok action_ok a -> fine (tick_playing A g t a).
Proof.
  intros H Ht Ha. unfold tick_playing. destruct (select_fine g t H Ht) as (g1 & p & -> & H1 & Hp). cbn [mbind option_bind].
  destruct (target_action_ok g1 t H1 Ht) as (g2 & clicked & q & -> & H2 & Hc & Hq). cbn [mbind option_bind].
  assert (Ho : option_ok action_ok (match clicked with Some x => Some x | None => a end)) by (by destruct clicked).
  destruct (match clicked with Some x => Some x | None => a end) as [x|]; [|apply fine_ret; [done|by apply Forall_app_2]].
  destruct (apply_action_fine g2 x H2 Ho) as (g3 & r & -> & H3 & Hr). cbn [mbind option_bind].
  apply fine_ret; [done|]. by repeat apply Forall_app_2.
Qed.

(** The painter's snapshot shows the game as it is. *)
Definition shown (g : SudokuGame) : Prop :=
  sg_snapshot g = snapshot_from_session (sg_screen g) (sg_session g) (sg_selected g) (sg_note_mode g) (shake_offset g).

Lemma tick_screen_ok g t a : game_ok g -> option_ok target_ok t -> option_ok action_ok a ->
  exists g' p, tick_screen A g t a = Some (g', p) /\ game_ok g' /\ shown g' /\ Forall command_fine p.
Proof.
  intros H Ht Ha. unfold tick_screen.
  assert (Hf : fine (match sg_screen g with Screen.MainMenu => tick_main_menu A g t | Screen.Difficulty => tick_difficulty A g t
    | Screen.Playing => tick_playing A g t a end)).
  { destruct (sg_screen g); [by apply main_menu_fine|by apply difficulty_fine|by apply playing_fine]. }
  destruct Hf as (g1 & p & -> & [H1 H2 H3 H4] & Hp). cbn [mbind option_bind]. exists (sync_snapshot g1), p.
  split; [done|]. split; [by constructor|done].
Qed.

Lemma tick_time_ok g dt : game_ok g -> is_u 64 dt -> game_ok (tick_time g dt).
Proof.
  intros H Hdt. unfold tick_time. pose proof (consistent_step _ (CallTick dt) (ga_session _ H) Hdt) as Hs. cbn [session_step] in Hs.
  pose proof (session_fine g _ H Hs) as Hg. set (g1 := game_session g _) in *. destruct (negb _); [|done].
  destruct (ga_shake _ Hg) as [[? ?] ?]. apply shake_fine; [done| |by apply wrap_range].
  unfold is_u, saturating_sub in *. lia.
Qed.
End PublishSpec.

(** *** Ticks *)
Section TickSpec.
Context {P V : Type} `{!Payload InputFrame P} `{!Payload UiCommandMessage P}.

Lemma key_action_ok key a : action_from_key key = Some a -> action_ok a.
Proof.
  unfold action_from_key. destruct (key =? 0x30); [by intros [= <-]|].
  destruct (_ && _) eqn:E; [intros [= <-]; cbn; unfold is_u; lia|].
  repeat case_match; by intros [= <-].
Qed.

Definition pointer_ok (s : option HitTarget * option GameAction) : Prop := option_ok target_ok (fst s) /\ option_ok action_ok (snd s).

Lemma find_map_some {X Y} (f : X -> option Y) l y : find_map f l = Some y -> exists x, f x = Some y.
Proof. induction l as [|x l IH]; cbn [find_map]; [done|]. destruct (f x) eqn:E; [intros [= <-]; by exists x|done]. Qed.

Lemma frame_target_ok g frame : option_ok target_ok (frame_target g frame).
Proof.
  unfold frame_target. destruct (_ && _).
  - unfold hit_test_result_menu. by destruct (contains _ _ _ _ _ _).
  - destruct (screen_hit_test _ _ _) eqn:E; [|done]. by eapply hit_target_ok.
Qed.

Lemma sudoku_message_ok g k s e : pointer_ok s -> exists s', sudoku_message (P := P) g k s e = Some s' /\ pointer_ok s'.
Proof.
  intros [H1 H2]. unfold sudoku_message. destruct (env_topic e =? 2); [|by exists s].
  destruct (envelope_downcast _ e) as [frame|]; [|by exists s]. eexists. split; [done|]. split; cbn [fst snd].
  - destruct (negb _); [apply frame_target_ok|done].
  - destruct (find_map _ _) eqn:E; [|done]. apply find_map_some in E as (key & E). by eapply key_action_ok.
Qed.

Lemma publish_all_ok ui cmds : forall (c : KernelContext P V) qs, bus_repr (sh_bus (kc_shared c)) qs ->
  exists b qs', publish_all false c ui cmds = Some (ctx_with_bus c b) /\ bus_repr b qs'.
Proof.
  induction cmds as [|cmd cmds IH]; intros c qs Hb; cbn [publish_all].
  - exists (sh_bus (kc_shared c)), qs. split; [|done]. by destruct c as [[? ? ? ?] ? ? ?].
  - destruct (ctx_publish_spec c qs ui 4 (into {| ucm_command := cmd |}) Hb) as (b & r & -> & Hb' & _). cbn [mbind option_bind].
    destruct (IH (ctx_with_bus c b) _ Hb') as (b' & qs' & E & H'). by exists b', qs'.
Qed.

(** One tick: with memory for the texts, in a release build. *)
Lemma sudoku_tick_ok A g c dt qs : A 0%nat = true -> game_ok g -> is_u 64 dt -> bus_repr (sh_bus (kc_shared c)) qs ->
  exists g' b qs', sudoku_tick A false g c dt = Some (g', ctx_with_bus (V := V) c b) /\ bus_repr (P := P) b qs' /\ game_ok g' /\
  (is_Some (ctx_resolve c "ui") -> shown g').
Proof.
  intros HA H Hdt Hb. unfold sudoku_tick. pose proof (tick_time_ok g dt H Hdt) as Ht. set (g1 := tick_time g dt) in *.
  destruct (handle_all_inv (sudoku_message (P := P) g1) pointer_ok (sudoku_message_ok g1) (inbox_of qs (kc_id c)) 0 (None, None))
    as ([t a] & E & [Hp1 Hp2]); [done|].
  pose proof (drain_inbox_spec (sudoku_message (P := P) g1) c (None, None) qs Hb) as R. rewrite E in R.
  destruct R as (b & Hb' & _ & ->). cbn [mbind option_bind].
  change (ctx_resolve (ctx_with_bus c b) "ui") with (ctx_resolve c "ui"). destruct (ctx_resolve c "ui") as [ui|].
  - destruct (tick_screen_ok A HA g1 t a Ht Hp1 Hp2) as (g2 & p & -> & H2 & Hs & _). cbn [mbind option_bind].
    destruct (publish_all_ok ui p (ctx_with_bus c b) _ Hb') as (b2 & qs2 & -> & Hb2). cbn [mbind option_bind].
    exists g2, b2, qs2. done.
  - exists g1, b, (zset qs (kc_id c) []). split; [done|]. split; [done|]. split; [done|]. by intros [? ?].
Qed.

(** The ticks the kernel makes, each in the context it finds. *)
Fixpoint sudoku_ticks (A : alloc) (g : SudokuGame) (ticks : list (KernelContext P V * Z)) : option SudokuGame :=
  match ticks with
  | [] => Some g
  | (c, dt) :: ticks => '(g, _) ← sudoku_tick A false g c dt; sudoku_ticks A g ticks
  end.

Lemma game_new_ok board d snapshot running : exists s, game_session_new d = Some s /\ game_ok (game_new board s snapshot running).
Proof.
  destruct (session_new_consistent d) as (s & E & Hs & _). exists s. split; [exact E|].
  constructor; cbn; [exact Hs|done|done|split; split; [discriminate|reflexivity|discriminate|reflexivity]].
Qed.
End TickSpec.

(** C32: The Sudoku application never fails: on a new game of any difficulty,
    with memory for the texts and a UI to send them to, whatever messages the
    input sends and however long each frame is, every tick returns, every text
    it makes fits, no cell outside of the board is touched.  The running game
    stays consistent with the puzzle it carries, which is the one generated for
    its difficulty ([consistent]): a clue keeps its digit and stays a clue,
    every other cell is blank, right or wrong as its state says, and notes,
    lives, hints and the clock keep the limits of [session_ok].  The saved game
    is consistent with its own puzzle too, unfinished and stopped; the selection
    is on the board; and after every tick the painter's snapshot shows the game
    as it is. *)
Theorem sudoku_application_safe {P V} `{!Payload InputFrame P} `{!Payload UiCommandMessage P}
    (A : alloc) (board : BoardUi) (d : Difficulty) (snapshot : NativeSnapshot) (ticks : list (KernelContext P V * Z)) :
  A 0%nat = true ->
  Forall (fun x => is_u 64 x.2 /\ is_Some (ctx_resolve x.1 "ui") /\ exists qs, bus_repr (sh_bus (kc_shared x.1)) qs) ticks ->
  exists s g, game_session_new d = Some s /\
  sudoku_ticks A (game_new board s snapshot true) ticks = Some g /\ game_ok g /\ (ticks <> [] -> shown g).
Proof.
  intros HA Hticks. destruct (game_new_ok board d snapshot true) as (s & E & H).
  assert (R : forall ticks g, Forall (fun x : KernelContext P V * Z => is_u 64 x.2 /\ is_Some (ctx_resolve x.1 "ui") /\
      exists qs, bus_repr (sh_bus (kc_shared x.1)) qs) ticks -> game_ok g ->
    exists g', sudoku_ticks A g ticks = Some g' /\ game_ok g' /\ (ticks <> [] -> shown g')).
  { clear -HA. intros ticks. induction ticks as [|[c dt] ticks IH]; intros g Hf Hg; cbn [sudoku_ticks]; [by exists g|].
    apply list.Forall_cons in Hf as [(Hdt & Hui & qs & Hb) Hf]. cbn [fst snd] in *.
    destruct (sudoku_tick_ok A g c dt qs HA Hg Hdt Hb) as (g1 & b & qs1 & -> & _ & H1 & Hs). cbn [mbind option_bind].
    destruct (IH g1 Hf H1) as (g2 & E & H2 & Hs2). exists g2. split; [done|]. split; [done|]. intros _.
    destruct ticks as [|x ticks]; [|by apply Hs2]. cbn in E. injection E as <-. by apply Hs. }
  destruct (R ticks _ Hticks H) as (g & Eg & Hg & Hs). exists s, g. exact (conj E (conj Eg (conj Hg Hs))).
Qed.

(** ** Leaving for the menu and coming back *)
Section Continue.
Context (A : alloc) (HA : A 0%nat = true).

(** A frame of the application once its messages are read. *)
Definition app_frame (g : SudokuGame) (f : option HitTarget * option GameAction * Z) : option (SudokuGame * list UiCommand) :=
  let '(target, action, dt_ns) := f in tick_screen A (tick_time g dt_ns) target action.

Fixpoint app_frames (g : SudokuGame) (fs : list (option HitTarget * option GameAction * Z)) : option SudokuGame :=
  match fs with
  | [] => Some g
  | f :: fs => '(g, _) ← app_frame g f; app_frames g fs
  end.

(** The clicks that stay in the main menu. *)
Definition stays (f : option HitTarget * option GameAction * Z) : Prop :=
  match f.1.1 with
  | Some (HitTarget.Menu MenuAction.Continue) | Some (HitTarget.Menu MenuAction.NewGame) => False
  | _ => True
  end.

Definition in_menu (x : SavedGame) (g : SudokuGame) : Prop := sg_screen g = Screen.MainMenu /\ sg_saved g = Some x.

Lemma tick_time_keeps g dt : sg_screen (tick_time g dt) = sg_screen g /\ sg_saved (tick_time g dt) = sg_saved g /\
  sg_selected (tick_time g dt) = sg_selected g /\ sg_note_mode (tick_time g dt) = sg_note_mode g /\
  sg_session (tick_time g dt) = session_tick (sg_session g) dt.
Proof. unfold tick_time. by destruct (negb _). Qed.

Lemma status_some node status : str_len status <= 128 -> exists p, publish_status A node status = Some p.
Proof. intros H. destruct (publish_status_ok A HA node status H) as (p & E & _). by exists p. Qed.

Lemma menu_frame x g f : in_menu x g -> stays f -> exists g' p, app_frame g f = Some (g', p) /\ in_menu x g'.
Proof.
  intros [H1 H2] Hs. destruct f as [[t a] dt]. unfold app_frame, tick_screen.
  destruct (tick_time_keeps g dt) as (E1 & E2 & _). set (g1 := tick_time g dt) in *. rewrite E1, H1. unfold tick_main_menu.
  assert (K : in_menu x (sync_snapshot g1)) by (split; cbn; congruence).
  destruct t as [t|]; [|by eexists _, _]. destruct t as [m|d|r c|v|b|b|]; try (by eexists _, _). destruct m; try done.
  - destruct (status_some (bu_status (sg_board g1)) (chars "Leaderboard is ready for your scores")) as (p & ->); [done|]. by eexists _, _.
  - eexists _, _. split; [done|]. split; cbn; congruence.
Qed.

Lemma menu_frames x fs : forall g, in_menu x g -> Forall stays fs -> exists g', app_frames g fs = Some g' /\ in_menu x g'.
Proof.
  induction fs as [|f fs IH]; intros g Hg Hf; cbn [app_frames]; [by exists g|]. apply list.Forall_cons in Hf as [Hf Hfs].
  destruct (menu_frame x g f Hg Hf) as (g1 & p & -> & H1). cbn [mbind option_bind]. by apply IH.
Qed.

(** The click on Menu. *)
Lemma leave_frame g dt : sg_screen g = Screen.Playing -> gs_result (session_tick (sg_session g) dt) = SessionResult.Ongoing ->
  exists g' p, app_frame g (Some (HitTarget.Top TopAction.Menu), None, dt) = Some (g', p) /\
  in_menu (saved_capture (session_tick (sg_session g) dt) (sg_selected g) (sg_note_mode g)) g'.
Proof.
  intros Hs Ho. unfold app_frame, tick_screen. destruct (tick_time_keeps g dt) as (E1 & E2 & E3 & E4 & E5).
  set (g1 := tick_time g dt) in *. rewrite E1, Hs. unfold tick_playing. cbn [select_cell target_action mbind option_bind].
  destruct (show_main_menu_ok A HA (game_screen (game_session (save_current_session g1)
    (with_paused (sg_session (save_current_session g1)) true)) Screen.MainMenu)) as (p & -> & _).
  cbn [mbind option_bind]. eexists _, _. split; [done|]. split; [done|].
  unfold save_current_session, ongoing. rewrite E5, Ho. by rewrite bool_decide_true, E3, E4 by done.
Qed.

(** The click on Continue. *)
Lemma continue_frame g x dt : in_menu x g -> saved_ok x ->
  exists g' p, app_frame g (Some (HitTarget.Menu MenuAction.Continue), None, dt) = Some (g', p) /\
  sg_screen g' = Screen.Playing /\ sg_session g' = with_paused (sv_session x) false /\
  sg_selected g' = sv_selected x /\ sg_note_mode g' = sv_note_mode x /\ sg_saved g' = None.
Proof.
  intros [H1 H2] Hx. unfold app_frame, tick_screen. destruct (tick_time_keeps g dt) as (E1 & E2 & _).
  set (g1 := tick_time g dt) in *. rewrite E1, H1. cbn [tick_main_menu]. unfold restore_saved_session. rewrite E2, H2. cbn [saved_restore].
  assert (Hc : consistent (with_paused (sv_session x) false)).
  { destruct Hx as [K1 K2 K3 K4]. by apply consistent_paused. }
  cbn zeta. set (g2 := game_screen _ Screen.Playing).
  destruct (on_cells_ok (fun r c => publish_cell A (sg_board g2) (sg_session g2) r c (bool_decide (sg_selected g2 = Some (r, c)))))
    as (p & E & _); [intros r c Hi; by apply publish_cell_ok|]. rewrite E. cbn [mbind option_bind].
  destruct (status_some (bu_status (sg_board g2)) (chars "Game continued")) as (q & ->); [done|]. cbn [mbind option_bind].
  eexists _, _. split; [done|]. done.
Qed.
End Continue.

(** A game left for the menu is continued exactly where it was left: after a
    click on Menu in a running game, any stay in the main menu, however long
    and whatever is clicked there but a new game, and a click on Continue, the
    board, notes, lives, hints and the clock are as they were at the click, the
    game runs, and selection and note mode are the same. *)
Theorem sudoku_continue_exact (A : alloc) (g : SudokuGame) (dt : Z) (fs : list (option HitTarget * option GameAction * Z)) (dt' : Z) :
  A 0%nat = true -> game_ok g -> is_u 64 dt -> sg_screen g = Screen.Playing ->
  gs_result (session_tick (sg_session g) dt) = SessionResult.Ongoing -> Forall stays fs ->
  exists g1 g2 g3 p q,
  app_frame A g (Some (HitTarget.Top TopAction.Menu), None, dt) = Some (g1, p) /\ app_frames A g1 fs = Some g2 /\
  app_frame A g2 (Some (HitTarget.Menu MenuAction.Continue), None, dt') = Some (g3, q) /\
  sg_screen g3 = Screen.Playing /\ sg_session g3 = with_paused (session_tick (sg_session g) dt) false /\
  sg_selected g3 = sg_selected g /\ sg_note_mode g3 = sg_note_mode g.
Proof.
  intros HA H Hdt Hs Ho Hf. destruct (leave_frame A HA g dt Hs Ho) as (g1 & p & E1 & M1).
  destruct (menu_frames A HA _ fs g1 M1 Hf) as (g2 & E2 & M2).
  pose proof (consistent_step _ (CallTick dt) (ga_session _ H) Hdt) as Hc. cbn [session_step] in Hc.
  destruct (continue_frame A HA g2 _ dt' M2) as (g3 & q & E3 & K1 & K2 & K3 & K4 & _).
  { constructor; [by apply consistent_paused|done|done|exact (ga_selected _ H)]. }
  exists g1, g2, g3, p, q. split; [done|]. split; [done|]. split; [done|]. split; [done|]. split; [by rewrite K2|done].
Qed.

(** ** At concrete inputs *)
Definition demo_board : BoardUi := {|
  bu_board_root := {| n_index := 1; n_generation := 0 |}; bu_main_menu_root := {| n_index := 2; n_generation := 0 |};
  bu_menu_root := {| n_index := 3; n_generation := 0 |}; bu_cells := []; bu_labels := []; bu_status := {| n_index := 4; n_generation := 0 |} |}.

Definition demo_snapshot : NativeSnapshot :=
  mkSnapshot Screen.MainMenu [] [] [] None 0 0 0 0 0 "" false false 0 0.

Definition demo_context : KernelContext any Z := context_on two_subscribers ["ui"; "sudoku-game"]%string 1.

(** Two frames in the contexts of a kernel. *)
Definition demo_ticks_sudoku : list (KernelContext any Z * Z) := [(demo_context, 16000000); (demo_context, U64_MAX)].

Lemma sudoku_application_safe_witness : exists s g, game_session_new Medium = Some s /\
  sudoku_ticks alloc_all (game_new demo_board s demo_snapshot true) demo_ticks_sudoku = Some g /\ game_ok g /\ shown g.
Proof.
  destruct (sudoku_application_safe alloc_all demo_board Medium demo_snapshot demo_ticks_sudoku) as (s & g & H1 & H2 & H3 & H4).
  - reflexivity.
  - repeat (apply list.Forall_cons; split; [split; [split; [discriminate|reflexivity]|split; [exists 0; reflexivity|exists [[]; []]; exact two_subscribers_repr]]|]).
    apply list.Forall_nil. exact I.
  - exists s, g. exact (conj H1 (conj H2 (conj H3 (H4 ltac:(discriminate))))).
Defined.

(** A fresh game on the playing screen with a cell selected. *)
Definition demo_game (s : GameSession) (r c : nat) : SudokuGame :=
  game_selected (game_screen (game_new demo_board s demo_snapshot true) Screen.Playing) (Some (r, c)).

Definition play (g : SudokuGame) (fs : list (option HitTarget * option GameAction)) : option SudokuGame :=
  app_frames alloc_all g (map (fun f => (f, 0)) fs).

Definition demo_blank (s : GameSession) : nat * nat := default (0%nat, 0%nat) (first_empty (gs_values s)).

(** A digit that is wrong in the first blank cell. *)
Definition demo_wrong (s : GameSession) : Z :=
  let '(r, c) := demo_blank s in if cell SOLUTION r c =? 1 then 2 else 1.

(** A game with two cells left. *)
Definition on_short_game {X} (f : GameSession -> option X) : option X := f (session_on Easy nearly_done).

(** *** Defects

    The game saved when pausing is not discarded when the game is lost: the
    main menu continues the lost game from the pause, with all its lives. *)
Example lost_game_continues :
  on_short_game (fun s =>
    let '(r, c) := demo_blank s in
    let wrong := (Some (HitTarget.Digit (demo_wrong s)), None) in
    let pause := (Some (HitTarget.Top TopAction.Pause), None) in
    lost ← play (demo_game s r c) [pause; pause; wrong; wrong; wrong];
    again ← play lost [(Some HitTarget.ResultMenu, None); (Some (HitTarget.Menu MenuAction.Continue), None)];
    Some (gs_result (sg_session lost), gs_result (sg_session again), gs_lives (sg_session again))) =
  Some (SessionResult.LoseLives, SessionResult.Ongoing, 3).
Proof. vm_compute. reflexivity. Qed.

(** A digit on a clue, or in a paused game, is refused, and the player is told
    that a life is lost. *)
Example refused_move_blamed :
  on_short_game (fun s =>
    '(g, cmds) ← act_digit alloc_all (game_session (demo_game s 0 0) (with_paused s true)) 5;
    Some (gs_lives (sg_session g) =? gs_lives s,
          match rev cmds with
          | UiCommand.SetText _ t :: _ => bool_decide (text_value t = chars "Wrong number: life lost")
          | _ => false
          end)) =
  Some (true, true).
Proof. vm_compute. reflexivity. Qed.

(** The board is built of cells 64 points wide, and clicks are read on that
    grid; the style sent when a game starts makes every cell 62 points wide, so
    that the ninth cell of a row is shown from 536 on, where a click still hits
    the eighth. *)
Example shown_cells_shifted :
  (s_width (cell_style 0 CellState.Empty false), screen_hit_test Screen.Playing (40 + 8 * 62 + 4) 140) =
  (UiLength.Points (f32_of_Z 62), Some (HitTarget.Cell 0 7)).
Proof. vm_compute. reflexivity. Qed.

Lemma sudoku_continue_exact_witness : exists s g1 g2 g3 p q, game_session_new Easy = Some s /\
  app_frame alloc_all (demo_game s 0 0) (Some (HitTarget.Top TopAction.Menu), None, 16) = Some (g1, p) /\
  app_frames alloc_all g1 [(Some (HitTarget.Menu MenuAction.Leaderboard), None, U64_MAX)] = Some g2 /\
  app_frame alloc_all g2 (Some (HitTarget.Menu MenuAction.Continue), None, 16) = Some (g3, q) /\
  sg_session g3 = with_paused (session_tick s 16) false /\ sg_selected g3 = Some (0%nat, 0%nat).
Proof.
  destruct (generate_spec 0x5EED2026 Easy) as (puzzle & E & Hp & _); [split; [discriminate|reflexivity]|].
  set (s := session_on Easy puzzle). assert (En : game_session_new Easy = Some s) by (unfold game_session_new; by rewrite E).
  assert (H : consistent s)
    by (exists Easy; exact (conj (ex_intro _ s (conj En eq_refl)) (session_on_ok Easy puzzle Hp))).
  destruct (sudoku_continue_exact alloc_all (demo_game s 0 0) 16 [(Some (HitTarget.Menu MenuAction.Leaderboard), None, U64_MAX)] 16)
    as (g1 & g2 & g3 & p & q & H1 & H2 & H3 & _ & H4 & H5 & _).
  - reflexivity.
  - constructor; [exact H|discriminate|split; apply Nat.ltb_lt; reflexivity|split; split; [discriminate|reflexivity|discriminate|reflexivity]].
  - split; [discriminate|reflexivity].
  - reflexivity.
  - reflexivity.
  - apply list.Forall_cons. split; [exact I|]. apply list.Forall_nil. exact I.
  - exists s, g1, g2, g3, p, q. exact (conj En (conj H1 (conj H2 (conj H3 (conj H4 H5))))).
Defined.
